(* ===== verification/_CoqProject ===== *)
-Q . S2P
Prelude.v
Framing.v
Replay.v
Crypto.v
Frame.v
Handshake.v
Probe.v
Net.v
Mesh.v
Dispatch.v
MeshRun.v
Route.v
Control.v
Registry.v
AuthKey.v
Coord.v
PathService.v
RouteMap.v
Coordinator.v
CoordinatorInv.v
Roster.v
Replica.v
Messages.v
Server.v
Channel.v
BgpWire.v
BgpFsm.v
Rib.v
BgpSession.v
Packet.v
RouteReport.v
Json.v
Tailnet.v
TsServer.v
TsSync.v
TsWire.v
TsRelay.v
Node.v
NodeLan.v
NodeMap.v
NodeInv.v
CoordConfig.v
NodeConfig.v
Transport.v
LogStore.v
CoordRun.v
Status.v
RaftRpc.v
TsHttp.v
WgEcho.v
Float.v
Rate.v
Codec.v
Store.v
