(* ===== verification/Prelude.v ===== *)
(** * A verification of landscape-rill

    landscape-rill is an overlay network in Rust.  Nodes register with a
    coordinator, learn of each other and of candidate paths through it, set up
    encrypted sessions pairwise, and forward frames for each other; a node may
    also speak BGP to peers of the dn42 network.  This library models the parts
    of the program that decide something, as executable functions translated
    from the sources, and proves what they promise.  Paths below are relative to
    src/.

    ** How the parts fit

    - [rill-core] holds the pure logic: frames and their cryptography, replay
      windows, the Noise handshake and sessions, probes, the routing engine, and
      the registry, access control and session rules of the control plane.
    - [rill-mesh] is the data plane of a node: tables of sessions, paths and
      endpoints, forwarding, broadcast, probes, telemetry.
    - [rill-coord] is the coordinator: auth keys, liveness, key versions,
      endpoint directory, path service and route map, one set per network, a
      facade over them, and its persistence and replication by a log.
    - [rill-dn42] is BGP: wire codec, state machine, import policy and routing
      table.
    - [rill-ts2021] speaks the protocol of Tailscale: a server with a registry of
      its own, its Noise channel and its packet relay, and a client side that
      [rill-node] runs as one more leg of the node.
    - [rill-node], [rilld] connect these to sockets, timers and devices.

    A frame is built by [Frame.build_frame] under the keys of a [Session], which
    the exchange of [HandshakeInitiator] and [HandshakeResponder] has produced;
    the mesh picks a path for it, relays check its route MAC and decrement its
    [ttl]; the receiver's [Session::open] checks, decrypts and passes the sequence
    number to a [ReplayWindow].  The binding verified in the handshake is the one
    the registry signed at admission, for which the node showed an auth key.
    Path keys come from the path identifiers that the path service allocates.
    The routing engine picks next hops among static, mesh and BGP routes, the
    last fed by the change stream of the BGP table.  The coordinator facade runs
    registry, path service, directory, keys and route map together; commands of
    the replicated log are applied to it and its durable part is saved and
    restored.  A node talks to it over the control channel: frames of bytes, in
    them messages, a client that turns them into events and a server that turns
    them into operations of the facade.  Packets of the local network are checked
    and clamped to the size of the tunnel on their way into the mesh.

    ** Files

    - [Prelude]: outcomes with panics ([outcome]), integers at their width
      ([wrap], [is_uint], saturating operations), bytes and big-endian values,
      slices that panic out of range, stable sorting, first minima, maps built
      by insertion, and the loop [many] over a buffer.
    - [Replay]: [ReplayWindow] of rill-core/src/frame/mod.rs.
    - [Crypto]: rill-core/src/crypto/mod.rs, SipHash written out.
    - [Frame]: rill-core/src/frame (header layout, building, opening).
    - [Handshake]: rill-core/src/handshake (both state machines, [Session]).
    - [Probe]: rill-core/src/probe.rs and the counter of rate.rs.
    - [Net]: what is used of the Rust library to read and print numbers and
      addresses.
    - [Mesh]: rill-mesh/src/data, the state of a node with handshakes, sending,
      forwarding and broadcast; [Dispatch]: its entry point for datagrams,
      probes, endpoints, telemetry; [MeshRun]: runs of several nodes.
    - [Route]: rill-core/src/route (prefixes, table, engine, default routes).
    - [Control]: rill-core/src/control (access control, control sessions and
      revocation, challenge); [Registry]: control/registry.rs.
    - [AuthKey], [Coord] (modules [Liveness], [Keys], [Directory]),
      [PathService], [RouteMap]: the files of rill-coord/src of these names.
    - [Coordinator]: rill-coord/src/domain.rs and coordinator/mod.rs, every
      operation; [CoordinatorInv]: the invariant over all of them and what
      follows; [Roster]: relay rosters and exits.
    - [Replica]: snapshot and restore of coordinator/mod.rs, store, raft/machine.rs
      and the audit of raft/backend.rs; [Store]: the rows of the state file
      (rill-coord/src/store/mod.rs).
    - [Framing]: rill-mesh/src/framing; [Codec]: the envelopes of
      rill-mesh/src/control/codec; [Messages]: the messages of the control
      channel and its client (rill-mesh/src/control/{mod,client}.rs); [Server]:
      its server (control/server.rs) over rill-coord/src/raft/backend.rs;
      [Channel]: the theorems on the two.
    - [BgpWire], [BgpFsm], [Rib]: wire, fsm, policy and rib of rill-dn42/src;
      [BgpSession]: the driver of a session (session/mod.rs) over the WireGuard
      tunnel (tunnel/mod.rs).
    - [Packet]: the packet handling of rill-node/src (sizes, checksums, MSS);
      [RouteReport]: what a node reports of its routes.
    - [Json]: the part of JSON the Tailscale protocol uses and the decoders
      derived for it; [Tailnet]: the client side, rill-node/src/runtime/ts2021.rs
      (control task, data task, the leg of the node); [TsServer]: registry, netmap,
      control handlers and configuration of rill-ts2021/src/server; [TsSync]: the two
      together; [TsWire]: base64 and the Noise channel (controlbase.rs); [TsRelay]:
      the packet relay (derp.rs, server/derp.rs) and the frames of the long poll.
    - [Node]: the runtime of a node, rill-node/src/runtime/{mod,control,lan,dn42,
      probe,reconnect}.rs: its whole state, the handlers of every event, and one turn
      of its loop as [run_step]; [NodeLan]: packets between local network, mesh and
      legs; [NodeMap]: network maps, audits, silent peers; [NodeInv]: the invariant
      over the loop.
    - [CoordConfig]: rill-coord/src/config and the password hashes of the status
      page; [NodeConfig]: rill-node/src/config, the parts of rilld/src/{main,
      node_run}.rs that read a configuration, the cache of resolved names.
    - [Transport]: rill-mesh/src/data/transport.rs; [RaftRpc]: the calls between
      replicas, rill-mesh/src/control/raft_rpc.rs; [LogStore]: the log on disk,
      rill-coord/src/raft/log_store.rs.
    - [CoordRun]: the tasks of rilld/src/coord_run.rs and rill-coord/src/echo.rs;
      [Status]: the status page, rill-coord/src/status.rs and
      rilld/src/status_http.rs.
    - [TsHttp]: the opening of the connections of the Tailscale protocol, the heads of
      HTTP/1 in rill-ts2021/src/{controlhttp,derp}.rs and server/mod.rs, what is used
      of Rust's strings, and the files of the keys; [WgEcho]: rill-ts2021/src/wg.rs.
    - [Float]: rounding of 64-bit floating point; [Rate]: the token buckets of
      rill-core/src/rate.rs in it.

    In each, a [struct] is a [Record], an [enum] an [Inductive] type, a method a
    [Definition] from the old state and its arguments to its result and the new
    state; [Result] and panics are [outcome].  Hash maps are [gmap]; where the
    code walks one, the order of the walk is an argument and the theorems hold
    for every order.

    ** What the theorems show

    - Replay protection: the verdict on every number is characterised by the
      numbers that arrived before, and nothing panics; it is that of a sliding window
      except that moving the window forgets, which admits a replay
      ([window_verdict], [replay_after_advance]).
    - Frames and sessions: opening inverts building over any number of hops;
      the route MAC covers exactly the header without [ttl] and MAC; key labels
      and nonces do not collide; the handshake has exactly four outcomes and
      agrees on keys; a responder hands out keys only for a verified binding;
      sessions deliver in order, reject forgeries without a trace, keep a retired
      key for five seconds; opening in place is the same function; nonces repeat
      after 2^32 frames.
    - Mesh: relays forward only authentic frames, unchanged but for the hop
      count, to the right next node; a broadcast is flooded once; sessions come
      from authenticated handshakes only; handshakes that cross converge in every
      order of delivery, but can leave an answer behind that blocks later ones;
      a frame for a path arrives along it; probes outstanding are bounded.
    - Routing: lookup gives a longest-prefix, highest-priority match; prefix
      containment is inclusion of address sets; text round-trips.
    - Control plane: registry invariant over all operations, one-time keys admit
      once, control-session identities are stable, access control is first match.
    - Coordinator: auth keys parse back; the offline list is exact; path
      identifiers are never reused, sets stay within shape and budget,
      revocation reaches every participant, expansion is complete but depends
      on the order of a hash map; the route map is gated by coverage, limit and
      flap damping; one invariant over the 24 operations of the facade gives
      isolation of networks, registration that is confined, revocation that is
      complete; relay rosters are sound and independent of hash order.
    - Persistence and replication: snapshot and restore are inverse on the
      durable state, a snapshot carries it to another replica, bindings issued
      through the log stay verifiable; a key shared by two networks cannot be
      restored, an installed snapshot drops the configuration, heartbeats change
      durable state outside the log.
    - Control channel: frames arrive whole however reading is cut up; each message
      makes exactly the calls of the coordinator that are due for it; a
      connection speaks for a node only after an answer to a challenge for the
      node's key, and is inert before; the one panic of the handler is located;
      a client and a server that runs alone complete a registration; the map a node reads is
      the coordinator's; failures lock an address out on schedule.
    - BGP: every message decodes to itself, chunking of the stream does not
      matter, panics of the decoder are located; Established needs a full
      handshake; the change stream keeps a consumer equal to the best paths;
      prefix limits and policy hold as invariants; what the driver of a
      session tells the node is the change stream of the table, and a turn that
      polls the connection ends.
    - Packets: the clamped MSS is within the tunnel and the checksum right, the
      answer to an oversized packet is one the sender takes, and the packets that
      make the reader panic are found.
    - Tailscale protocol: the Noise channel carries a byte stream unchanged and
      its handshake agrees on keys; the registry keeps machines, keys and addresses
      apart and approves only what its whitelist allows; the peers of a client
      converge to the registry through any sequence of events, lost ones included;
      a network map replaces exactly the routes of the one before; the relay names
      as source only a key that was proven; a client and the server open a control
      connection from the first byte of HTTP to the first record; a ping makes the way
      there and back.
    - Rates: a source is answered within its rate and capacity over any stretch of
      calls and clean-ups, rounding included, and within its capacity once more for
      each clean-up that clears a full table ([prune_refills]).
    - Node: a packet of one local network arrives unchanged in another through tun
      device, routing, session, relays and access control ([lan_to_lan]); what comes
      in on a leg leaves by the leg of its best reachable route when that takes it,
      never by the same one; a network map replaces what the one
      before left; silent sessions end on time; one invariant holds over every turn of
      the loop.  The theorems [conflict_undone], [transit_cycle], [empty_payload_panics]
      and [no_backoff_on_lease] show where the code and its comments part.
    - Configuration: a file that passes the checks starts a coordinator or a node,
      and a reload applies a file whole or leaves the running state alone; it neither
      adds nor removes networks, and a password hash that is not ASCII can make it
      panic ([hash_text_panics]).
    - Underlay: the TCP transport hands over the datagrams sent, in order, and its
      table stays within its bound, while the readers of connections that left it
      do not ([readers_unbounded]); a datagram over the limit cuts the connection
      ([oversize_cuts]).
    - Tasks and pages of the coordinator: a round of measurements records exactly
      the relays that answered; the status page shows exactly the state of the
      coordinator, and revoking through it needs the password; the masking of a key
      leaves all but eight characters of its secret ([mask_shows_secret]).
    - Calls and log of the replicas: the log on disk is a list without gaps over
      any sequence of operations; the replies of a connection match its requests
      as long as no call is given up on it; after one was, a reply or part of a request
      can be left behind ([stale_success], [torn_request]).

    ** Parameters, bounds and fuel

    HKDF, ChaCha20-Poly1305, HMAC and X25519 are the class [Crypto.Primitives],
    the Noise implementation [Handshake.NoiseProtocol], the identity signature
    [Registry.IdentitySigner]; the serializer of saved states is [Replica.Serde],
    the order of a walk over a hash map [Coordinator.HashOrder], the membership
    type of the Raft library a type variable, what it answers to a proposal
    [Server.ClientWrite]; WireGuard and the TCP stack of the BGP driver are the
    classes [BgpSession.Tunn] and [BgpSession.TcpStack], the verifying key of the coordinator
    is [Node.VerifyingKeys]; the encoding of log entries is [LogStore.LogSerde], the
    Raft library seen from a connection [RaftRpc.Raft], the text of JSON values
    [TsHttp.Http.JsonText]; the laws used are separate
    classes, and [Toy], [ToyNoise], [ToySerde] and [key_order] instantiate them.
    Clocks, random values, results of socket calls and the netmap a node works
    with are arguments.  [many] and the BGP frame reader run on the length of the
    buffer, since every turn consumes a byte ([many_unfold]); decimal printing
    runs on 64 digits, more than any integer type has; the base32 loop on its bit
    count.  Counters that only count operations in the path service and the
    directory are unbounded.

    ** Not modelled

    Sockets, timers, TLS, HTTP and the opening of the tun device are the work of
    libraries and of the kernel: their results are inputs of the model.  The
    elections and the replication of the Raft library are the order in which
    entries arrive, and the adapter that hands its calls to a network only
    renames types.  The protobuf types and the error identifiers are generated.
    Handlers that ask a token bucket take its verdict as an argument; what verdicts
    a bucket gives is in [Rate].  The probe program, the command line, the service
    files and the log lines decide nothing that the other parts rely on. *)

From Stdlib Require Import ZArith Lia Sorted.
From stdpp Require Export base list gmap strings numbers.
From stdpp Require Import sorting.

#[global] Open Scope Z_scope.

(** ** Outcomes

    [outcome E A] is a Rust computation of type [Result<A, E>] (or of type [A]
    when no [Err] arises) that may also panic: an out-of-range index, a slice
    whose bounds are wrong, an [unwrap] on [None]. *)

Inductive outcome (E A : Type) : Type :=
| Ok (a : A)
| Err (e : E)
| Panic.
Arguments Ok {E A} a.
Arguments Err {E A} e.
Arguments Panic {E A}.

#[export] Instance outcome_ret {E} : MRet (outcome E) := fun A a => Ok a.

#[export] Instance outcome_bind {E} : MBind (outcome E) := fun A B f m =>
  match m with
  | Ok a => f a
  | Err e => Err e
  | Panic => Panic
  end.

#[export] Instance outcome_fmap {E} : FMap (outcome E) := fun A B f m =>
  match m with
  | Ok a => Ok (f a)
  | Err e => Err e
  | Panic => Panic
  end.

#[export] Instance outcome_eq_dec {E A} `{EqDecision E, EqDecision A} :
  EqDecision (outcome E A).
Proof. solve_decision. Defined.

(** [Option::ok_or] and [Result::map_err]. *)
Definition ok_or {E A} (e : E) (o : option A) : outcome E A :=
  match o with Some a => Ok a | None => Err e end.

Definition map_err {E F A} (f : E -> F) (m : outcome E A) : outcome F A :=
  match m with Ok a => Ok a | Err e => Err (f e) | Panic => Panic end.

(** [Result::ok]. *)
Definition ok {E A} (m : outcome E A) : option A :=
  match m with Ok a => Some a | _ => None end.

(** [Option::unwrap] / [Option::expect]. *)
Definition unwrap {E A} (o : option A) : outcome E A :=
  match o with Some a => Ok a | None => Panic end.

(** A computation that does not panic. *)
Definition safe {E A} (m : outcome E A) : Prop := m <> Panic.

Section Outcome.
Context {E A B : Type}.

Lemma Ok_inj (a b : A) : Ok (E:=E) a = Ok b -> a = b.
Proof. congruence. Qed.

Lemma bind_Ok_inv (m : outcome E A) (f : A -> outcome E B) b :
  m ≫= f = Ok b <-> exists a, m = Ok a /\ f a = Ok b.
Proof.
  split; [|by intros (a & -> & ?)].
  destruct m as [a|e|]; cbn; intros; [eauto | discriminate..].
Qed.

Lemma bind_safe (m : outcome E A) (f : A -> outcome E B) :
  safe m -> (forall a, m = Ok a -> safe (f a)) -> safe (m ≫= f).
Proof. destruct m; cbn; unfold safe; [auto | discriminate | congruence]. Qed.

Lemma bind_panic_inv (m : outcome E A) (f : A -> outcome E B) :
  m ≫= f = Panic <-> m = Panic \/ exists a, m = Ok a /\ f a = Panic.
Proof.
  split.
  - destruct m as [a|e|]; cbn; intros; [right; eauto | discriminate | by left].
  - intros [->|(a & -> & ?)]; done.
Qed.

Lemma Ok_safe (a : A) : safe (E:=E) (Ok a).
Proof. discriminate. Qed.

Lemma Err_safe (e : E) : safe (A:=A) (Err e).
Proof. discriminate. Qed.

Lemma ok_or_safe (e : E) (o : option A) : safe (ok_or e o).
Proof. destruct o; discriminate. Qed.
End Outcome.

(** Reduces the binds of a computation whose first step is known. *)
Ltac step := cbn [mbind outcome_bind option_bind fmap outcome_fmap mret outcome_ret ok_or unwrap map_err].
Tactic Notation "step" "in" hyp(H) :=
  cbn [mbind outcome_bind option_bind fmap outcome_fmap mret outcome_ret ok_or unwrap map_err] in H.

Create HintDb rill.
#[export] Hint Resolve Ok_safe Err_safe ok_or_safe : rill.

(** ** Machine integers *)

(** [z] is a value of the unsigned [w]-bit type. *)
Definition is_uint (w z : Z) : Prop := 0 <= z < 2 ^ w.

Abbreviation u8 := (is_uint 8).
Abbreviation u16 := (is_uint 16).
Abbreviation u32 := (is_uint 32).
Abbreviation u64 := (is_uint 64).
Abbreviation u128 := (is_uint 128).

#[export] Instance is_uint_dec w z : Decision (is_uint w z).
Proof. unfold is_uint. apply _. Defined.

(** [as uN] and [wrapping_*]. *)
Definition wrap (w z : Z) : Z := z mod 2 ^ w.

(** [saturating_add], [saturating_sub] and [saturating_mul] on unsigned types. *)
Definition sat_add (w a b : Z) : Z := Z.min (a + b) (2 ^ w - 1).
Definition sat_sub (a b : Z) : Z := Z.max (a - b) 0.
Definition sat_mul (w a b : Z) : Z := Z.min (a * b) (2 ^ w - 1).

Lemma wrap_uint w z : 0 <= w -> is_uint w (wrap w z).
Proof. intros. apply Z.mod_pos_bound. lia. Qed.

Lemma wrap_small w z : is_uint w z -> wrap w z = z.
Proof. apply Z.mod_small. Qed.

Lemma uint_weaken v w z : v <= w -> is_uint v z -> is_uint w z.
Proof.
  intros ? [??]. split; [done|]. eapply Z.lt_le_trans; [done|].
  apply Z.pow_le_mono_r; lia.
Qed.

Ltac uint := unfold is_uint, wrap in *; lia.

(** ** Byte codecs: [to_be_bytes], [from_be_bytes], [to_le_bytes], [from_le_bytes] *)

Fixpoint le_bytes (n : nat) (z : Z) : list Z :=
  match n with
  | O => []
  | S n => z mod 256 :: le_bytes n (z / 256)
  end.

Fixpoint le_val (l : list Z) : Z :=
  match l with
  | [] => 0
  | b :: l => b + 256 * le_val l
  end.

Definition be_bytes (n : nat) (z : Z) : list Z := reverse (le_bytes n z).
Definition be_val (l : list Z) : Z := le_val (reverse l).

Definition bytes (l : list Z) : Prop := Forall u8 l.

#[export] Instance bytes_dec l : Decision (bytes l).
Proof. unfold bytes. apply _. Defined.

Lemma length_le_bytes n z : length (le_bytes n z) = n.
Proof. revert z. induction n; intros; cbn; auto. Qed.

Lemma length_be_bytes n z : length (be_bytes n z) = n.
Proof. unfold be_bytes. by rewrite length_reverse, length_le_bytes. Qed.

Lemma le_bytes_bytes n z : bytes (le_bytes n z).
Proof.
  revert z. induction n as [|n IH]; intros z; cbn; constructor; [|apply IH].
  apply Z.mod_pos_bound. lia.
Qed.

Lemma be_bytes_bytes n z : bytes (be_bytes n z).
Proof. apply Forall_reverse, le_bytes_bytes. Qed.

Lemma pow8_S n : 2 ^ (8 * Z.of_nat (S n)) = 256 * 2 ^ (8 * Z.of_nat n).
Proof. rewrite Nat2Z.inj_succ, Z.mul_succ_r, Z.pow_add_r by lia. lia. Qed.

Lemma le_val_le_bytes n z :
  is_uint (8 * Z.of_nat n) z -> le_val (le_bytes n z) = z.
Proof.
  revert z. induction n as [|n IH]; intros z Hz; cbn [le_bytes le_val].
  - unfold is_uint in Hz. change (2 ^ (8 * Z.of_nat 0)) with 1 in Hz. lia.
  - unfold is_uint in *. rewrite pow8_S in Hz. rewrite IH.
    + pose proof (Z.div_mod z 256). lia.
    + split; [apply Z.div_pos; lia | apply Z.div_lt_upper_bound; lia].
Qed.

Lemma le_val_bound l : bytes l -> is_uint (8 * Z.of_nat (length l)) (le_val l).
Proof.
  unfold bytes, is_uint. induction 1 as [|b l Hb _ IH]; cbn [le_val length].
  - cbn. lia.
  - rewrite pow8_S. uint.
Qed.

Lemma le_bytes_le_val l : bytes l -> le_bytes (length l) (le_val l) = l.
Proof.
  induction 1 as [|b l Hb _ IH]; cbn [le_val length le_bytes]; [done|].
  rewrite Z.mul_comm, Z.mod_add, Z.mod_small, Z.div_add, Z.div_small by uint.
  by rewrite Z.add_0_l, IH.
Qed.

Lemma be_val_be_bytes n z :
  is_uint (8 * Z.of_nat n) z -> be_val (be_bytes n z) = z.
Proof. intros. unfold be_val, be_bytes. by rewrite reverse_involutive, le_val_le_bytes. Qed.

Lemma be_bytes_be_val n l : bytes l -> length l = n -> be_bytes n (be_val l) = l.
Proof.
  intros Hl <-. unfold be_val, be_bytes. rewrite <- (length_reverse l).
  rewrite le_bytes_le_val by by apply Forall_reverse. apply reverse_involutive.
Qed.

Lemma be_val_bound n l : bytes l -> length l = n -> is_uint (8 * Z.of_nat n) (be_val l).
Proof.
  intros Hl <-. unfold be_val. rewrite <- (length_reverse l).
  by apply le_val_bound, Forall_reverse.
Qed.

Lemma le_val_app a b :
  le_val (a ++ b) = le_val a + 2 ^ (8 * Z.of_nat (length a)) * le_val b.
Proof.
  induction a as [|x a IH]; cbn [le_val length app].
  - change (2 ^ (8 * Z.of_nat 0)) with 1. lia.
  - rewrite IH, pow8_S. lia.
Qed.

Lemma be_val_app a b :
  be_val (a ++ b) = be_val b + 2 ^ (8 * Z.of_nat (length b)) * be_val a.
Proof. unfold be_val. by rewrite reverse_app, le_val_app, length_reverse. Qed.

Lemma be_val_singleton z : be_val [z] = z.
Proof. unfold be_val. change (reverse [z]) with [z]. cbn [le_val]. lia. Qed.

Lemma le_val_zeros n : le_val (replicate n 0) = 0.
Proof. induction n as [|n IH]; cbn [replicate le_val]; lia. Qed.

Lemma be_val_zeros n : be_val (replicate n 0) = 0.
Proof. unfold be_val. rewrite reverse_replicate. apply le_val_zeros. Qed.

Lemma be_bytes_inj n x y :
  is_uint (8 * Z.of_nat n) x -> is_uint (8 * Z.of_nat n) y ->
  be_bytes n x = be_bytes n y -> x = y.
Proof. intros ?? H%(f_equal be_val). by rewrite !be_val_be_bytes in H. Qed.

#[export] Hint Resolve be_bytes_bytes le_bytes_bytes : rill.
Create Rewrite HintDb rill_len.
#[export] Hint Rewrite length_be_bytes length_le_bytes : rill_len.
#[export] Hint Rewrite @length_app @length_take @length_drop @length_replicate
  @length_reverse @length_cons @length_nil @length_fmap : rill_len.

Ltac len := autorewrite with rill_len in *; cbn [length] in *; try lia.

Lemma bytes_app a b : bytes (a ++ b) <-> bytes a /\ bytes b.
Proof. apply Forall_app. Qed.

Lemma bytes_take n l : bytes l -> bytes (take n l).
Proof. apply Forall_take. Qed.

Lemma bytes_drop n l : bytes l -> bytes (drop n l).
Proof. apply Forall_drop. Qed.

Lemma bytes_zeros n : bytes (replicate n 0).
Proof. apply Forall_replicate. uint. Qed.

#[export] Hint Resolve bytes_take bytes_drop bytes_zeros : rill.

#[global] Arguments be_bytes : simpl never.
#[global] Arguments le_bytes : simpl never.
#[global] Arguments be_val : simpl never.
#[global] Arguments le_val : simpl never.

(** [Forall] over a literal list. *)
Ltac fall := repeat first [apply Forall_nil_2 | apply Forall_cons_2]; try done.

(** Turns a list [l] of known length [H : length l = n] into its elements. *)
Ltac explode H :=
  match type of H with
  | length ?l = S _ =>
      destruct l as [|? l]; [discriminate H|]; cbn [length] in H; apply Nat.succ_inj in H; explode H
  | length ?l = 0%nat => destruct l; [clear H | discriminate H]
  | _ => idtac
  end.

Lemma take_drop_app {A} (n k m : nat) (l : list A) :
  m = (k + n)%nat -> take n (drop k l) ++ drop m l = drop k l.
Proof. intros ->. rewrite <- drop_drop. apply take_drop. Qed.

(** The bytes of a string literal. *)
Fixpoint str_bytes (s : string) : list Z :=
  match s with
  | EmptyString => []
  | String c s => Z.of_nat (Ascii.nat_of_ascii c) :: str_bytes s
  end.

Lemma str_bytes_bytes s : bytes (str_bytes s).
Proof.
  induction s as [|c s IH]; constructor; [|done].
  pose proof (Ascii.nat_ascii_bounded c). uint.
Qed.

(** ** Slices

    [at_ l i] is [l[i]], [range l a b] is [l[a..b]]: both panic out of range. *)

Definition at_ {E} (l : list Z) (i : nat) : outcome E Z :=
  match l !! i with Some b => Ok b | None => Panic end.

Definition range {E} (l : list Z) (a b : nat) : outcome E (list Z) :=
  if decide (a <= b <= length l)%nat then Ok (take (b - a) (drop a l)) else Panic.

(** [slice::get(a..b)]. *)
Definition get_range (l : list Z) (a b : nat) : option (list Z) :=
  if decide (a <= b <= length l)%nat then Some (take (b - a) (drop a l)) else None.

Lemma at_Ok {E} l i b : at_ (E:=E) l i = Ok b <-> l !! i = Some b.
Proof. unfold at_. destruct (l !! i); split; congruence. Qed.

Lemma at_safe {E} l i : (i < length l)%nat -> safe (E:=E) (at_ l i).
Proof. intros [x H]%lookup_lt_is_Some. unfold at_. rewrite H. discriminate. Qed.

Lemma range_Ok {E} l a b :
  (a <= b <= length l)%nat -> range (E:=E) l a b = Ok (take (b - a) (drop a l)).
Proof. intros. unfold range. by rewrite decide_True. Qed.

Lemma range_safe {E} l a b : (a <= b <= length l)%nat -> safe (E:=E) (range l a b).
Proof. intros. rewrite range_Ok by done. discriminate. Qed.

Lemma range_mid {E} p m s a b :
  a = length p -> b = (length p + length m)%nat ->
  range (E:=E) (p ++ m ++ s) a b = Ok m.
Proof.
  intros -> ->. rewrite range_Ok by len.
  rewrite drop_app_length. by replace (_ - _)%nat with (length m) by lia; rewrite take_app_length.
Qed.
#[export] Hint Resolve at_safe range_safe : rill.

(** ** Stable sorting: [slice::sort_by] / [sort_by_key]

    [sort le l] sorts by the total preorder [le], keeping the order of equal
    elements, as Rust's stable sort does. *)

Section Sort.
Context {A : Type} (le : A -> A -> bool).

Fixpoint insert_by (x : A) (l : list A) : list A :=
  match l with
  | [] => [x]
  | y :: l' => if le x y then x :: l else y :: insert_by x l'
  end.

Definition sort (l : list A) : list A := foldr insert_by [] l.

Lemma insert_by_perm x l : insert_by x l ≡ₚ x :: l.
Proof.
  induction l as [|y l IH]; cbn; [done|].
  destruct (le x y); [done|]. rewrite IH. constructor.
Qed.

Lemma sort_perm l : sort l ≡ₚ l.
Proof. induction l as [|x l IH]; cbn; [done|]. by rewrite insert_by_perm, IH. Qed.

Lemma elem_of_sort x l : x ∈ sort l <-> x ∈ l.
Proof. by rewrite sort_perm. Qed.

Lemma length_sort l : length (sort l) = length l.
Proof. apply Permutation_length, sort_perm. Qed.

Context (Htotal : forall x y, le x y = false -> le y x = true).
Context (Htrans : forall x y z, le x y = true -> le y z = true -> le x z = true).

Definition le_rel (x y : A) : Prop := le x y = true.

Lemma insert_by_hdrel x y l :
  HdRel le_rel y l -> le y x = true -> HdRel le_rel y (insert_by x l).
Proof. destruct 1; cbn; intros; [|destruct (le x b)]; by constructor. Qed.

Lemma insert_by_sorted x l : Sorted le_rel l -> Sorted le_rel (insert_by x l).
Proof.
  induction 1 as [|y l Hl IH Hy]; cbn; [repeat constructor|].
  destruct (le x y) eqn:E; [by repeat constructor|].
  constructor; [done|]. apply insert_by_hdrel; auto.
Qed.

Lemma sort_sorted l : Sorted le_rel (sort l).
Proof. induction l; cbn; auto using insert_by_sorted. Qed.

(** The head of a sorted list is below every element. *)
Lemma sorted_head_min x y l : Sorted le_rel (x :: l) -> y ∈ l -> le x y = true.
Proof.
  intros HS Hy. apply Sorted_StronglySorted in HS; [|unfold Relations_1.Transitive, le_rel; eauto].
  inversion HS as [|?? _ HF]; subst. rewrite list.Forall_forall in HF. exact (HF _ Hy).
Qed.

(** Where the order is antisymmetric on the elements, sorting forgets the order
    of its argument. *)
Lemma sort_unique l l' :
  (forall x y, x ∈ l -> y ∈ l -> le x y = true -> le y x = true -> x = y) -> l ≡ₚ l' -> sort l = sort l'.
Proof.
  intros Ha Hp. assert (Transitive le_rel) by (intros x y z; apply Htrans).
  apply (Sorted_unique_strong le_rel); [|apply sort_sorted..|by rewrite !sort_perm].
  intros x y Hx Hy. rewrite sort_perm in Hx, Hy. rewrite <- Hp in Hy. by apply Ha.
Qed.

(** Stability: the elements of a class of pairwise [le]-related elements keep
    their order. *)
Lemma insert_by_filter (P : A -> bool) x l :
  (forall a b, P a = true -> P b = true -> le a b = true) ->
  List.filter P (insert_by x l) = List.filter P (x :: l).
Proof.
  intros HP. induction l as [|y l IH]; [done|].
  cbn [insert_by]. destruct (le x y) eqn:E; [done|].
  cbn [List.filter] in *. rewrite IH.
  destruct (P x) eqn:Hx, (P y) eqn:Hy; try done.
  by rewrite (HP x y) in E.
Qed.

Lemma sort_filter (P : A -> bool) l :
  (forall a b, P a = true -> P b = true -> le a b = true) ->
  List.filter P (sort l) = List.filter P l.
Proof.
  intros HP. induction l as [|x l IH]; [done|]. cbn [sort foldr].
  rewrite insert_by_filter by done. cbn. unfold sort in IH. by rewrite IH.
Qed.
End Sort.

(** [Iterator::find], over a filter and over a stable sort. *)
Section Find.
Context {A : Type}.

Lemma find_head (P : A -> bool) l : List.find P l = head (List.filter P l).
Proof. induction l as [|x l IH]; cbn; [done|]. by destruct (P x). Qed.

Lemma find_None (P : A -> bool) l :
  List.find P l = None <-> forall x, x ∈ l -> P x = false.
Proof.
  induction l as [|x l IH]; cbn; [split; [by inversion 2|done]|].
  destruct (P x) eqn:E.
  - split; [done|]. intros H. rewrite H in E; [done|left].
  - rewrite IH. split; intros H y Hy; [apply elem_of_cons in Hy as [->|]; auto|].
    apply H. by right.
Qed.

Lemma find_Some_elem (P : A -> bool) l x : List.find P l = Some x -> x ∈ l /\ P x = true.
Proof. intros [? ?]%List.find_some. by rewrite list_elem_of_In. Qed.

Lemma find_refine (P Q : A -> bool) l e :
  (forall x, Q x = true -> P x = true) -> Q e = true ->
  List.find P l = Some e -> List.find Q l = Some e.
Proof.
  intros HPQ He. induction l as [|x l IH]; cbn; [done|].
  destruct (P x) eqn:Ex.
  - intros [= ->]. by rewrite He.
  - destruct (Q x) eqn:EQ; [|done]. rewrite HPQ in Ex; done.
Qed.

Lemma elem_of_bfilter (P : A -> bool) x l : x ∈ List.filter P l <-> x ∈ l /\ P x = true.
Proof. by rewrite !list_elem_of_In, List.filter_In. Qed.

Lemma bfilter_sublist (P : A -> bool) l : List.filter P l `sublist_of` l.
Proof. induction l as [|x l IH]; cbn; [done|]. destruct (P x); by constructor. Qed.

Lemma bfilter_nil (P : A -> bool) l : List.filter P l = [] <-> existsb P l = false.
Proof. induction l as [|x l IH]; cbn; [done|]. destruct (P x); cbn; [done|exact IH]. Qed.

Lemma bfilter_nodup {B} (f : A -> B) (P : A -> bool) l :
  NoDup (f <$> l) -> NoDup (f <$> List.filter P l).
Proof. intros H. eapply sublist_NoDup; [exact H|]. apply fmap_sublist, bfilter_sublist. Qed.

Lemma bfilter_perm (P : A -> bool) l l' : l ≡ₚ l' -> List.filter P l ≡ₚ List.filter P l'.
Proof.
  induction 1 as [|x l l' _ IH|x y l|l1 l2 l3 _ IH1 _ IH2]; cbn; [done| | |by etrans].
  - destruct (P x); by rewrite IH.
  - destruct (P x), (P y); by try constructor.
Qed.

Lemma existsb_elem (P : A -> bool) l : existsb P l = true <-> exists x, x ∈ l /\ P x = true.
Proof. rewrite existsb_exists. by setoid_rewrite list_elem_of_In. Qed.

Lemma bfilter_bfilter (P Q : A -> bool) l :
  (forall x, Q x = true -> P x = true) -> List.filter Q (List.filter P l) = List.filter Q l.
Proof.
  intros H. induction l as [|x l IH]; cbn; [done|].
  destruct (P x) eqn:Ex; cbn; [by rewrite IH|].
  destruct (Q x) eqn:EQ; [|done]. rewrite H in Ex; done.
Qed.

(** The first element satisfying [P] of a sorted list is least among those. *)
Lemma find_sorted_least (le : A -> A -> bool) (P : A -> bool) l e x :
  (forall x, le x x = true) ->
  (forall x y z, le x y = true -> le y z = true -> le x z = true) ->
  Sorted (le_rel le) l -> List.find P l = Some e -> x ∈ l -> P x = true -> le e x = true.
Proof.
  intros Hr Ht. induction l as [|y l IH]; intros Hs; cbn; [done|].
  destruct (P y) eqn:Ey.
  - intros [= ->] [->|Hx]%elem_of_cons HP; [apply Hr|]. by eapply sorted_head_min.
  - intros Hf [->|Hx]%elem_of_cons HP; [congruence|]. apply IH; try done. by inversion Hs.
Qed.

End Find.

(** [Iterator::min_by]: the first of the minimal elements. *)
Fixpoint min_by_from {A} (lt : A -> A -> bool) (m : A) (l : list A) : A :=
  match l with
  | [] => m
  | x :: l => min_by_from lt (if lt x m then x else m) l
  end.

Definition min_by {A} (lt : A -> A -> bool) (l : list A) : option A :=
  match l with [] => None | x :: l => Some (min_by_from lt x l) end.

(** [min_by] is least for any measure its comparison respects. *)
Lemma min_by_measure {A} (lt : A -> A -> bool) (f : A -> nat) l m :
  (forall x y, lt x y = true -> (f x <= f y)%nat) ->
  (forall x y, lt x y = false -> (f y <= f x)%nat) ->
  min_by lt l = Some m -> m ∈ l /\ forall y, y ∈ l -> (f m <= f y)%nat.
Proof.
  intros Ht Hf. destruct l as [|x l]; cbn; [done|]. intros [= <-].
  revert x. induction l as [|z l IH]; intros x; cbn [min_by_from].
  { split; [left|]. by intros y ->%list_elem_of_singleton. }
  destruct (IH (if lt z x then z else x)) as [Hin Hle]. split.
  - rewrite !elem_of_cons in *. destruct (lt z x); tauto.
  - assert (Hc : (f (if lt z x then z else x) <= f x)%nat /\ (f (if lt z x then z else x) <= f z)%nat)
      by (destruct (lt z x) eqn:E; [apply Ht in E|apply Hf in E]; lia).
    pose proof (Hle _ ltac:(left)). intros y. rewrite !elem_of_cons. intros [->|[->|Hy]]; [lia|lia|].
    apply Hle. by right.
Qed.

Section MinBy.
Context {A : Type} (lt : A -> A -> bool).
Context (Htrans : forall x y z, lt y x = false -> lt z y = false -> lt z x = false).
Context (Hasym : forall x y, lt x y = true -> lt y x = false).

Lemma min_by_from_elem m l : min_by_from lt m l = m \/ min_by_from lt m l ∈ l.
Proof.
  revert m. induction l as [|x l IH]; intros m; cbn; [by left|].
  destruct (IH (if lt x m then x else m)) as [->|?]; [|right; by constructor].
  destruct (lt x m); [right; constructor | by left].
Qed.

Lemma min_by_elem l m : min_by lt l = Some m -> m ∈ l.
Proof.
  destruct l as [|x l]; cbn; [done|]. intros [= <-].
  destruct (min_by_from_elem x l) as [->|?]; by constructor.
Qed.

Lemma min_by_from_least m l :
  lt m (min_by_from lt m l) = false /\
  forall y, y ∈ l -> lt y (min_by_from lt m l) = false.
Proof.
  assert (Hirr : forall x, lt x x = false).
  { intros x. destruct (lt x x) eqn:E; [|done]. by rewrite (Hasym x x) in E. }
  revert m. induction l as [|x l IH]; intros m; cbn; [split; [done|by inversion 1]|].
  destruct (IH (if lt x m then x else m)) as [H1 H2].
  split.
  - destruct (lt x m) eqn:E; [|done]. eapply Htrans; [done|]. auto.
  - intros y [->|Hy]%elem_of_cons; [|auto].
    destruct (lt x m) eqn:E; [done|]. by eapply Htrans.
Qed.

Lemma min_by_least l m y : min_by lt l = Some m -> y ∈ l -> lt y m = false.
Proof.
  destruct l as [|x l]; cbn; [done|]. intros [= <-].
  destruct (min_by_from_least x l) as [H1 H2].
  intros [->|Hy]%elem_of_cons; auto.
Qed.
End MinBy.

(** What every step of a loop keeps, the loop keeps. *)
Lemma foldl_keeps {A B} (I : A -> Prop) (f : A -> B -> A) : (forall a x, I a -> I (f a x)) -> forall l a, I a -> I (foldl f a l).
Proof. intros Hf. induction l as [|x l IH]; intros a Ha; [done|]. cbn. by apply IH, Hf. Qed.

(** ** Maps built by successive insertions *)

Lemma foldl_insert_lookup {A K V} `{Countable K} (f : A -> K) (g : A -> V) (l : list A) :
  NoDup (f <$> l) -> forall (m : gmap K V) (k : K) (v : V), (forall x, x ∈ l -> m !! f x = None) ->
  foldl (fun m x => <[f x := g x]> m) m l !! k = Some v <->
  (exists x, x ∈ l /\ f x = k /\ g x = v) \/ m !! k = Some v.
Proof.
  induction l as [|x l IH]; cbn; intros Hnd m k v Hm.
  { split; [auto|]. intros [(? & Hx & _)|?]; [by inversion Hx|done]. }
  inversion Hnd as [|? ? Hx Hnd']; subst. rewrite IH; [|done|].
  - setoid_rewrite elem_of_cons. rewrite lookup_insert_Some. split.
    + intros [(y & ? & ? & ?)|[[? ?]|[? ?]]]; eauto 10.
    + intros [(y & [->|?] & ? & ?)|Hk]; [auto|eauto 10|].
      right. right. split; [|done]. intros <-. rewrite Hm in Hk; [done|left].
  - intros y Hy. rewrite lookup_insert_ne; [apply Hm; by right|].
    intros E. apply Hx. rewrite E. by apply list_elem_of_fmap_2.
Qed.

(** Insertions one after the other, at different keys. *)
Lemma foldl_insert_out {A K B} `{Countable K} (f : A -> K) (g : A -> B) l : forall (m : gmap K B) k, k ∉ (f <$> l) ->
  foldl (fun m x => <[f x := g x]> m) m l !! k = m !! k.
Proof.
  induction l as [|x l IH]; intros m k Hk; [done|]. cbn. rewrite IH by set_solver. apply lookup_insert_ne. set_solver.
Qed.

Lemma foldl_insert_in {A K B} `{Countable K} (f : A -> K) (g : A -> B) l : NoDup (f <$> l) -> forall (m : gmap K B) x, x ∈ l ->
  foldl (fun m x => <[f x := g x]> m) m l !! f x = Some (g x).
Proof.
  induction l as [|y l IH]; intros Hnd m x Hx; [by apply elem_of_nil in Hx|]. cbn in *. apply list.NoDup_cons in Hnd as [Hy Hnd].
  apply elem_of_cons in Hx as [->|Hx]; [rewrite foldl_insert_out by done; apply lookup_insert_eq|by apply IH].
Qed.

Lemma fmap_nodup_eq {A B} (g : A -> B) l x y : NoDup (g <$> l) -> x ∈ l -> y ∈ l -> g x = g y -> x = y.
Proof.
  induction l as [|z l IH]; [by inversion 2|]. cbn. intros [Hz Hn]%list.NoDup_cons.
  intros [->|Hx]%elem_of_cons [->|Hy]%elem_of_cons E; auto.
  - destruct Hz. rewrite E. by apply list_elem_of_fmap_2.
  - destruct Hz. rewrite <- E. by apply list_elem_of_fmap_2.
Qed.

(** ** Loops over a buffer: [while !buf.is_empty() { .. buf = &buf[n..]; }]

    [step] is the loop body: it yields one item and the rest of the buffer, or
    leaves the function.  The length of the buffer is fuel enough, because a body
    that goes on has consumed at least one byte ([many_unfold]). *)

Lemma length_ind {A} (Q : list A -> Prop) :
  (forall l, (forall l', (length l' < length l)%nat -> Q l') -> Q l) -> forall l, Q l.
Proof.
  intros H. assert (Hn : forall n l, (length l < n)%nat -> Q l); [|eauto].
  induction n as [|n IH]; intros l Hl; [lia|]. apply H. intros l' Hl'. apply IH. lia.
Qed.

Section Many.
Context {E A : Type} (stp : list Z -> outcome E (A * list Z)).

Fixpoint many_fuel (fuel : nat) (buf : list Z) : outcome E (list A) :=
  match buf, fuel with
  | [], _ => Ok []
  | _, O => Panic
  | _, S fuel =>
      '(a, rest) ← stp buf;
      l ← many_fuel fuel rest;
      Ok (a :: l)
  end.

Definition many (buf : list Z) : outcome E (list A) := many_fuel (length buf) buf.

(** The body consumes: what it leaves is a proper suffix. *)
Definition consumes : Prop := forall buf a rest,
  stp buf = Ok (a, rest) -> exists n, (0 < n)%nat /\ (n <= length buf)%nat /\ rest = drop n buf.

Context (Hstep : consumes).

Lemma many_fuel_enough buf : forall n, (length buf <= n)%nat -> many_fuel n buf = many buf.
Proof.
  induction buf as [buf IH] using length_ind. intros n Hn.
  unfold many. destruct buf as [|b buf]; [by destruct n|].
  destruct n as [|n]; [cbn in Hn; lia|]. cbn [length many_fuel].
  destruct (stp (b :: buf)) as [[a rest]|e|] eqn:Es; [|done..]. step.
  destruct (Hstep _ _ _ Es) as (k & Hk & Hkl & ->).
  assert (Hlen : (length (drop k (b :: buf)) < length (b :: buf))%nat) by (rewrite length_drop; lia).
  rewrite !(IH _ Hlen); [done|cbn in Hlen; lia|cbn in Hn, Hlen; lia].
Qed.

Lemma many_unfold buf : buf <> [] ->
  many buf = ('(a, rest) ← stp buf; l ← many rest; Ok (a :: l)).
Proof.
  intros Hne. unfold many at 1. destruct buf as [|b buf]; [done|]. cbn [length many_fuel].
  destruct (stp (b :: buf)) as [[a rest]|e|] eqn:Es; [|done..]. step.
  destruct (Hstep _ _ _ Es) as (k & Hk & Hkl & ->). rewrite many_fuel_enough; [done|].
  rewrite length_drop. cbn. lia.
Qed.

(** A loop reads back what was written item by item. *)
Lemma many_concat {B} (enc : B -> list Z) (item : B -> A) (l : list B) :
  (forall x rest, x ∈ l -> stp (enc x ++ rest) = Ok (item x, rest)) ->
  (forall x, x ∈ l -> enc x <> []) ->
  many (mjoin (enc <$> l)) = Ok (item <$> l).
Proof.
  induction l as [|x l IH]; intros Henc Hne; [done|].
  change (mjoin (enc <$> x :: l)) with (enc x ++ mjoin (enc <$> l)). rewrite many_unfold.
  - rewrite Henc by left. step. rewrite IH; [done| |]; intros; [apply Henc|apply Hne]; by right.
  - intros H. apply (Hne x); [left|]. by destruct (enc x).
Qed.

(** A loop panics only where its body does. *)
Lemma many_panic buf : many buf = Panic -> exists n, drop n buf <> [] /\ stp (drop n buf) = Panic.
Proof.
  induction buf as [buf IH] using length_ind. intros H.
  destruct buf as [|b buf]; [done|]. rewrite many_unfold in H by done.
  destruct (stp (b :: buf)) as [[a rest]|e|] eqn:Es; [|done|by exists 0%nat; rewrite drop_0].
  step in H. destruct (Hstep _ _ _ Es) as (k & Hk & Hkl & ->).
  destruct (many (drop k (b :: buf))) eqn:Em; [done..|].
  apply IH in Em as [n Hn]; [|rewrite length_drop; lia].
  exists (k + n)%nat. by rewrite <- drop_drop.
Qed.

(** Every item comes from the body, run on a suffix of the buffer. *)
Lemma many_items (Q : A -> Prop) buf l :
  (forall n a rest, stp (drop n buf) = Ok (a, rest) -> Q a) -> many buf = Ok l -> Forall Q l.
Proof.
  revert l. induction buf as [buf IH] using length_ind. intros l HQ H.
  destruct buf as [|b buf]; [by injection H as <-; fall|]. rewrite many_unfold in H by done.
  destruct (stp (b :: buf)) as [[a rest]|e|] eqn:Es; [|done..]. step in H.
  destruct (Hstep _ _ _ Es) as (k & Hk & Hkl & ->).
  destruct (many (drop k (b :: buf))) as [l'|e|] eqn:Em; [|done..]. step in H. injection H as <-.
  constructor; [by apply (HQ 0%nat a (drop k (b :: buf)))|].
  eapply IH; [| |done]; [rewrite length_drop; lia|].
  intros n a' rest'. rewrite drop_drop. apply HQ.
Qed.

End Many.
