(* ===== verification/Framing.v ===== *)
(** * Framing of the control channel (rill-mesh/src/framing/mod.rs)

    Messages travel over a byte stream behind a length of four bytes.  Reading is
    by a future that the caller may drop at any point; [read_frame_buf] keeps what
    it has read in a buffer of the caller.  The bytes a call gets are its argument:
    the list of what the reads return, an empty one being the end of the stream;
    when the list is used up the future is still pending, and is dropped. *)

From S2P Require Import Prelude.

Module Framing.

Definition MAX_MESSAGE_LEN : Z := 2 ^ 20.

Inductive FrameError := TooLong | UnexpectedEof.

(** [read_exact] of both parts: the body and what is left of the stream. *)
Definition read_frame (stream : list Z) : outcome FrameError (list Z * list Z) :=
  if decide (length stream < 4)%nat then Err UnexpectedEof
  else
    let len := be_val (take 4 stream) in
    if decide (len > MAX_MESSAGE_LEN) then Err TooLong
    else if decide (length stream < 4 + Z.to_nat len)%nat then Err UnexpectedEof
    else Ok (take (Z.to_nat len) (drop 4 stream), drop (4 + Z.to_nat len) stream).

(** The top of the loop: a whole frame in the buffer, and the buffer after it. *)
Definition take_frame (buf : list Z) : outcome FrameError (option (list Z * list Z)) :=
  if decide (4 <= length buf)%nat then
    let len := be_val (take 4 buf) in
    if decide (len > MAX_MESSAGE_LEN) then Err TooLong
    else
      let total := (4 + Z.to_nat len)%nat in
      if decide (total <= length buf)%nat then Ok (Some (take (Z.to_nat len) (drop 4 buf), drop total buf))
      else Ok None
  else Ok None.

(** The answer ([None]: still pending), the buffer, and the reads not used. *)
Fixpoint read_frame_buf (buf : list Z) (reads : list (list Z))
    : option (outcome FrameError (list Z)) * list Z * list (list Z) :=
  match take_frame buf with
  | Ok (Some (body, rest)) => (Some (Ok body), rest, reads)
  | Err e => (Some (Err e), buf, reads)
  | Panic => (Some Panic, buf, reads)
  | Ok None =>
      match reads with
      | [] => (None, buf, [])
      | [] :: reads => (Some (Err UnexpectedEof), buf, reads)
      | (x :: c) :: reads => read_frame_buf (buf ++ x :: c) reads
      end
  end.

Definition write_frame (body : list Z) : outcome FrameError (list Z) :=
  if decide (Z.of_nat (length body) > 2 ^ 32 - 1) then Err TooLong
  else Ok (be_bytes 4 (wrap 32 (Z.of_nat (length body))) ++ body).

Definition write_declared_len (declared : Z) : list Z := be_bytes 4 declared.

(** ** A connection

    The reader calls [read_frame_buf] again and again; [calls] lists, for each
    call, the reads that become ready before it is dropped.  What a call leaves
    unread is there for the next. *)

Fixpoint receive (buf : list Z) (left_ : list (list Z)) (calls : list (list (list Z))) : list (outcome FrameError (list Z)) :=
  match calls with
  | [] => []
  | c :: calls =>
      match read_frame_buf buf (left_ ++ c) with
      | (Some (Ok b), buf, left_) => Ok b :: receive buf left_ calls
      | (Some e, _, _) => [e]
      | (None, buf, left_) => receive buf left_ calls
      end
  end.

Definition frame (body : list Z) : list Z := be_bytes 4 (Z.of_nat (length body)) ++ body.

Definition fits (body : list Z) : Prop := Z.of_nat (length body) <= MAX_MESSAGE_LEN.

Lemma write_frame_fits body : fits body -> write_frame body = Ok (frame body).
Proof.
  unfold fits, write_frame, frame, MAX_MESSAGE_LEN. intros H. rewrite decide_False by lia.
  rewrite wrap_small; [done|uint].
Qed.

Lemma frame_header body l : Z.of_nat (length body) < 2 ^ 32 ->
  be_val (take 4 (frame body ++ l)) = Z.of_nat (length body).
Proof.
  intros H. unfold frame. rewrite <- app_assoc, take_app_length' by (by rewrite length_be_bytes).
  apply be_val_be_bytes. uint.
Qed.

Lemma length_frame body : length (frame body) = (4 + length body)%nat.
Proof. unfold frame. by rewrite length_app, length_be_bytes. Qed.

Lemma drop_frame body l : drop 4 (frame body ++ l) = body ++ l.
Proof. unfold frame. by rewrite <- app_assoc, drop_app_length' by (by rewrite length_be_bytes). Qed.

(** A buffer that starts with a whole frame gives it out. *)
Lemma take_frame_whole body l : fits body -> take_frame (frame body ++ l) = Ok (Some (body, l)).
Proof.
  unfold fits, MAX_MESSAGE_LEN. intros H. unfold take_frame.
  rewrite decide_True by (rewrite length_app, length_frame; lia).
  rewrite frame_header by lia. rewrite decide_False by (unfold MAX_MESSAGE_LEN; lia).
  rewrite Nat2Z.id, decide_True by (rewrite length_app, length_frame; lia).
  rewrite drop_frame, take_app_length. by rewrite drop_app_length' by (by rewrite length_frame).
Qed.

(** A buffer that holds only part of a frame waits for more. *)
Lemma take_frame_part body buf : fits body -> buf `prefix_of` frame body -> (length buf < length (frame body))%nat ->
  take_frame buf = Ok None.
Proof.
  unfold fits, MAX_MESSAGE_LEN. intros H [l Hl] Hlt. unfold take_frame. case_decide as H4; [|done].
  assert (E : take 4 buf = take 4 (frame body)) by (rewrite Hl, take_app_le by lia; done).
  rewrite E. rewrite <- (app_nil_r (frame body)), frame_header by lia.
  rewrite decide_False by (unfold MAX_MESSAGE_LEN; lia). rewrite Nat2Z.id, length_frame in *.
  by rewrite decide_False by lia.
Qed.

Definition nonempty (c : list Z) : Prop := c <> [].

(** One call on a stream of frames. *)
Lemma read_step bodies : Forall fits bodies -> forall reads buf tail,
  Forall nonempty reads -> buf ++ concat reads ++ tail = concat (frame <$> bodies) ->
  match read_frame_buf buf reads with
  | (Some (Ok b), buf', reads') => exists bs, bodies = b :: bs /\ Forall nonempty reads' /\
      buf' ++ concat reads' ++ tail = concat (frame <$> bs)
  | (None, buf', reads') => reads' = [] /\ buf' = buf ++ concat reads /\
      (buf' = [] \/ exists b bs, bodies = b :: bs /\ (length buf' < length (frame b))%nat)
  | _ => False
  end.
Proof.
  intros Hf reads. induction reads as [|c reads IH]; intros buf tail Hr E.
  all: destruct bodies as [|b bs].
  - cbn in E. apply app_nil in E as [-> _]. cbn [read_frame_buf]. change (take_frame []) with (Ok (E:=FrameError) (@None (list Z * list Z))). cbn. auto.
  - cbn [concat fmap list_fmap app] in E. apply Forall_cons_1 in Hf as [Hb Hf].
    destruct (decide (length buf < length (frame b))%nat) as [Hlt|Hge].
    + cbn [read_frame_buf]. rewrite (take_frame_part b); [|done| |done].
      * split; [done|]. cbn. rewrite app_nil_r. split; [done|]. right. eauto.
      * exists (take (length (frame b) - length buf) tail). apply (f_equal (take (length (frame b)))) in E.
        rewrite take_app_length in E. etrans; [symmetry; exact E|]. by rewrite take_app_ge by lia.
    + assert (exists r, buf = frame b ++ r) as [r ->].
      { exists (drop (length (frame b)) buf). rewrite <- (take_drop (length (frame b)) buf) at 1. f_equal.
        apply (f_equal (take (length (frame b)))) in E. rewrite take_app_length in E. rewrite take_app_le in E by lia. done. }
      cbn [read_frame_buf]. rewrite take_frame_whole by done. exists bs. split; [done|]. split; [done|].
      cbn. rewrite <- app_assoc in E. by apply app_inv_head in E.
  - cbn in E. apply Forall_cons_1 in Hr as [Hc _]. destruct buf; [|done]. destruct c; [by destruct Hc|done].
  - cbn [fmap list_fmap concat] in E. apply Forall_cons_1 in Hr as [Hc Hr].
    pose proof (Forall_inv Hf) as Hb.
    destruct (decide (length buf < length (frame b))%nat) as [Hlt|Hge].
    + assert (Hpre : buf `prefix_of` frame b).
      { exists (take (length (frame b) - length buf) ((c ++ concat reads) ++ tail)).
        apply (f_equal (take (length (frame b)))) in E.
        rewrite take_app_length in E. etrans; [symmetry; exact E|]. by rewrite take_app_ge by lia. }
      cbn [read_frame_buf]. rewrite (take_frame_part b) by done.
      destruct c as [|x c]; [by destruct Hc|].
      specialize (IH (buf ++ x :: c) tail Hr). rewrite <- !app_assoc in E. rewrite <- !app_assoc in IH.
      specialize (IH E). destruct (read_frame_buf _ reads) as [[[[]|] buf'] reads'];
        [exact IH..|]. destruct IH as (-> & -> & IH). split; [done|]. by split; [|exact IH].
    + assert (exists r, buf = frame b ++ r) as [r ->].
      { exists (drop (length (frame b)) buf). rewrite <- (take_drop (length (frame b)) buf) at 1. f_equal.
        apply (f_equal (take (length (frame b)))) in E. rewrite take_app_length in E. rewrite take_app_le in E by lia. done. }
      cbn [read_frame_buf]. rewrite take_frame_whole by done. exists bs. split; [done|]. split; [by apply Forall_cons|].
      rewrite <- app_assoc in E. by apply app_inv_head in E.
Qed.

(** Calls after the whole stream has arrived. *)
Lemma receive_rest bodies : Forall fits bodies -> forall reads buf n,
  Forall nonempty reads -> buf ++ concat reads = concat (frame <$> bodies) -> (length bodies <= n)%nat ->
  receive buf reads (replicate n []) = Ok <$> bodies.
Proof.
  intros Hf. induction bodies as [|b bs IH]; intros reads buf n Hr E Hn.
  - assert (buf = [] /\ reads = []) as [-> ->].
    { cbn in E. apply app_nil in E as [-> E]. split; [done|]. destruct Hr as [|c reads Hc]; [done|].
      cbn in E. apply app_nil in E as [-> _]. by destruct Hc. }
    clear. induction n as [|n IH]; cbn; [done|]. exact IH.
  - destruct n as [|n]; [cbn in Hn; lia|]. cbn [replicate receive]. rewrite app_nil_r.
    pose proof (read_step (b :: bs) Hf reads buf [] Hr) as H. rewrite app_nil_r in H. specialize (H E).
    destruct (read_frame_buf buf reads) as [[[[]|] buf'] reads']; try done.
    + destruct H as (bs' & [= <- <-] & Hr' & E'). cbn. f_equal. rewrite app_nil_r in E'.
      apply IH; [by apply Forall_cons_1 in Hf as []|done..|cbn in Hn; lia].
    + destruct H as (-> & -> & [H|(b' & bs' & [= <- <-] & H)]); exfalso; rewrite E in H; cbn in H.
      * by destruct b.
      * rewrite length_app in H. lia.
Qed.

(** Cancelling a read loses nothing.  However the bytes of a sequence of
    messages are cut into reads, and wherever the calls of [read_frame_buf] are
    dropped, the calls return those messages, whole and in order; once the bytes
    are there, as many calls as messages suffice. *)
Theorem frames_survive_cancellation (bodies : list (list Z)) (calls : list (list (list Z)))
  (Hf : Forall fits bodies) (Hc : Forall (Forall nonempty) calls)
  (Hs : concat (concat calls) = concat (frame <$> bodies)) :
  (exists out, write_frame <$> bodies = Ok <$> out /\ concat out = concat (concat calls)) /\
  receive [] [] (calls ++ replicate (length bodies) []) = Ok <$> bodies.
Proof.
  split.
  { exists (frame <$> bodies). split; [|done]. rewrite <- list_fmap_compose. apply list_fmap_ext.
    intros i b Hb. cbn. apply write_frame_fits. by eapply Forall_lookup in Hf. }
  enough (G : forall bodies buf left_ n, Forall fits bodies -> Forall nonempty left_ ->
    buf ++ concat left_ ++ concat (concat calls) = concat (frame <$> bodies) -> (length bodies <= n)%nat ->
    receive buf left_ (calls ++ replicate n []) = Ok <$> bodies) by (apply G; try done; constructor).
  clear bodies Hf Hs. induction Hc as [|c calls Hc _ IH]; intros bodies buf left_ n Hf Hl Hs Hn.
  { cbn in Hs |- *. rewrite app_nil_r in Hs. by apply receive_rest. }
  cbn [app receive]. rewrite concat_cons, concat_app in Hs.
  pose proof (read_step bodies Hf (left_ ++ c) buf (concat (concat calls)) (Forall_app_2 _ _ _ Hl Hc)) as H.
  rewrite concat_app, <- app_assoc in H. specialize (H Hs).
  destruct (read_frame_buf buf (left_ ++ c)) as [[[[]|] buf'] left']; try done.
  - destruct H as (bs & -> & Hl' & E). cbn. f_equal. apply Forall_cons_1 in Hf as [_ Hf]. apply IH; [done..|cbn in Hn; lia].
  - destruct H as (-> & -> & _). apply IH; [done|constructor| |done]. cbn [concat]. rewrite <- ?app_assoc in *. exact Hs.
Qed.

(** The message lengths in use: three frames, cut across both frames. *)
Lemma frames_survive_cancellation_witness :
  receive [] [] ([[[0; 0; 0]]; [[2; 5]]; []; [[6; 0; 0; 0; 0; 0]; [0; 0; 1; 9]]] ++ replicate 3 []) =
  Ok <$> [[5; 6]; []; [9]].
Proof.
  apply (frames_survive_cancellation [[5; 6]; []; [9]] [[[0; 0; 0]]; [[2; 5]]; []; [[6; 0; 0; 0; 0; 0]; [0; 0; 1; 9]]]).
  - fall.
  - fall.
  - reflexivity.
Defined.

(** A message longer than the limit of the reader is written without complaint,
    and ends the connection of whoever reads it. *)
Theorem long_message_ends_connection (body : list Z)
  (Hl : MAX_MESSAGE_LEN < Z.of_nat (length body) < 2 ^ 32) :
  write_frame body = Ok (frame body) /\ forall l, take_frame (frame body ++ l) = Err TooLong.
Proof.
  unfold MAX_MESSAGE_LEN in *. split.
  - unfold write_frame. rewrite decide_False by lia. unfold frame. rewrite wrap_small; [done|uint].
  - intros l. unfold take_frame. rewrite decide_True by (rewrite length_app, length_frame; lia).
    rewrite frame_header by lia. by rewrite decide_True by (unfold MAX_MESSAGE_LEN; lia).
Qed.

End Framing.
