(* ===== verification/Replay.v ===== *)
(** * Replay window (rill-core/src/frame/mod.rs, [ReplayWindow])

    A 1024-slot bitmap over the frame sequence numbers, [base] being the lowest
    sequence number it still tracks.  The abstraction [marked] turns the sixteen
    64-bit words into the set of sequence numbers recorded as seen. *)

From S2P Require Import Prelude.

Module Replay.

Record ReplayWindow := mk_window {
  base : Z;                 (* u64 *)
  bitmap : list Z           (* [u64; 16] *)
}.

Definition new : ReplayWindow :=
  {| base := 0; bitmap := replicate 16 0 |}.

(** The part of [check_and_mark] after the window has been moved: test and set
    the bit of [seq]. *)
Definition mark (w : ReplayWindow) (seq : Z) : outcome Empty_set (bool * ReplayWindow) :=
  let slot := seq - base w in
  let word := Z.to_nat (slot / 64) in
  let bit := Z.shiftl 1 (slot mod 64) in
  match bitmap w !! word with
  | None => Panic
  | Some v =>
      if decide (Z.land v bit <> 0) then Ok (false, w)
      else Ok (true, {| base := base w; bitmap := <[word := Z.lor v bit]> (bitmap w) |})
  end.

Definition check_and_mark (w : ReplayWindow) (seq : Z)
    : outcome Empty_set (bool * ReplayWindow) :=
  if decide (seq < base w) then Ok (false, w)
  else if decide (seq >= base w + 1024) then
    let advance := (seq - base w + 1) - 1024 in
    mark {| base := base w + advance; bitmap := replicate 16 0 |} seq
  else mark w seq.

(** A sequence of frames through one window: the verdicts and the final window. *)
Fixpoint run (w : ReplayWindow) (seqs : list Z) : outcome Empty_set (list bool * ReplayWindow) :=
  match seqs with
  | [] => Ok ([], w)
  | s :: seqs =>
      '(v, w) ← check_and_mark w s;
      '(vs, w) ← run w seqs;
      Ok (v :: vs, w)
  end.

(** ** Well-formedness and abstraction *)

Record wf (w : ReplayWindow) : Prop := {
  wf_base : 0 <= base w <= 2 ^ 32 - 1024;
  wf_len : length (bitmap w) = 16%nat
}.

Definition bit_of (w : ReplayWindow) (slot : Z) : bool :=
  match bitmap w !! Z.to_nat (slot / 64) with
  | Some v => Z.testbit v (slot mod 64)
  | None => false
  end.

(** [seq] is recorded as seen. *)
Definition marked (w : ReplayWindow) (seq : Z) : Prop :=
  base w <= seq < base w + 1024 /\ bit_of w (seq - base w) = true.

Lemma new_wf : wf new.
Proof. split; cbn; lia. Qed.

Lemma land_bit v i : 0 <= i -> Z.land v (Z.shiftl 1 i) <> 0 <-> Z.testbit v i = true.
Proof.
  intros Hi. rewrite Z.shiftl_1_l. split.
  - intros H. destruct (Z.testbit v i) eqn:E; [done|]. exfalso; apply H.
    apply Z.bits_inj'. intros j Hj. rewrite Z.land_spec, Z.bits_0.
    destruct (decide (j = i)) as [->|]; [by rewrite E|].
    rewrite Z.pow2_bits_false by done. apply andb_false_r.
  - intros E H. apply (f_equal (fun z => Z.testbit z i)) in H.
    rewrite Z.land_spec, E, Z.pow2_bits_true, Z.bits_0 in H by done. done.
Qed.

Lemma lor_bit v i j : 0 <= i -> 0 <= j ->
  Z.testbit (Z.lor v (Z.shiftl 1 i)) j = Z.testbit v j || bool_decide (j = i).
Proof.
  intros. rewrite Z.lor_spec, Z.shiftl_1_l, Z.pow2_bits_eqb by done.
  f_equal. case_bool_decide; lia.
Qed.

Lemma slot_eq a b : 0 <= a -> 0 <= b ->
  Z.to_nat (a / 64) = Z.to_nat (b / 64) -> a mod 64 = b mod 64 -> a = b.
Proof.
  intros ?? H ?. apply Z2Nat.inj in H; [|apply Z.div_pos; lia..].
  rewrite (Z.div_mod a 64), (Z.div_mod b 64) by lia. congruence.
Qed.

Lemma zero_bit_of b slot : bit_of {| base := b; bitmap := replicate 16 0 |} slot = false.
Proof.
  unfold bit_of; cbn [bitmap]. destruct (replicate 16 0 !! _) as [x|] eqn:E; [|done].
  apply lookup_replicate in E as [-> _]. apply Z.bits_0.
Qed.

Lemma slot_word slot : 0 <= slot < 1024 -> (Z.to_nat (slot / 64) < 16)%nat.
Proof. intros. assert (slot / 64 < 16) by (apply Z.div_lt_upper_bound; lia). lia. Qed.

(** Setting the bit of one slot changes that slot only. *)
Lemma bit_of_insert w slot v t : 0 <= slot < 1024 -> 0 <= t ->
  bitmap w !! Z.to_nat (slot / 64) = Some v ->
  bit_of {| base := base w;
            bitmap := <[Z.to_nat (slot / 64) := Z.lor v (Z.shiftl 1 (slot mod 64))]> (bitmap w) |} t
  = bit_of w t || bool_decide (t = slot).
Proof.
  intros Hs Ht Hv. unfold bit_of; cbn [bitmap].
  assert (0 <= t mod 64) by (apply Z.mod_pos_bound; lia).
  assert (0 <= slot mod 64) by (apply Z.mod_pos_bound; lia).
  destruct (decide (Z.to_nat (slot / 64) = Z.to_nat (t / 64))) as [Hc|Hc].
  - rewrite <- Hc, Hv, list_lookup_insert_eq by eauto using lookup_lt_Some.
    rewrite lor_bit by lia. f_equal. apply bool_decide_ext. split; [|congruence].
    intros. apply slot_eq; lia.
  - rewrite list_lookup_insert_ne by done.
    rewrite bool_decide_eq_false_2, orb_false_r by congruence. done.
Qed.

(** The specification of [mark] on a slot of the window. *)
Lemma mark_spec w seq : wf w -> base w <= seq < base w + 1024 ->
  (marked w seq /\ mark w seq = Ok (false, w)) \/
  (~ marked w seq /\ exists w', mark w seq = Ok (true, w') /\ base w' = base w /\
     length (bitmap w') = 16%nat /\ forall s, marked w' s <-> marked w s \/ s = seq).
Proof.
  intros [Hb Hl] Hs. unfold mark.
  set (slot := seq - base w). assert (Hslot : 0 <= slot < 1024) by lia.
  assert (Hm : 0 <= slot mod 64 < 64) by (apply Z.mod_pos_bound; lia).
  destruct (lookup_lt_is_Some_2 (bitmap w) (Z.to_nat (slot / 64))) as [v Hv].
  { rewrite Hl. by apply slot_word. }
  rewrite Hv. assert (Hbit : bit_of w slot = Z.testbit v (slot mod 64)).
  { unfold bit_of. by rewrite Hv. }
  destruct (decide (Z.land v (Z.shiftl 1 (slot mod 64)) <> 0)) as [Hd|Hd];
    rewrite land_bit in Hd by lia.
  - left. split; [|done]. split; [done|]. unfold slot in *. by rewrite Hbit.
  - right. split; [intros [_ ?]; unfold slot in *; congruence|].
    eexists. split; [done|]. cbn [base bitmap]. rewrite length_insert.
    split; [done|]. split; [done|]. intros s. unfold marked; cbn [base].
    destruct (decide (base w <= s < base w + 1024)) as [Hr|]; [|naive_solver lia].
    rewrite bit_of_insert by (done || lia). rewrite orb_true_iff, bool_decide_eq_true.
    unfold slot. naive_solver lia.
Qed.

(** ** Abstract specification

    A window is a lower bound and a finite set of seen sequence numbers. *)

Record SpecWindow := mk_spec { low : Z; seen : Z -> Prop }.

Inductive spec_step : SpecWindow -> Z -> bool -> SpecWindow -> Prop :=
| spec_below a s : s < low a -> spec_step a s false a
| spec_seen a s : low a <= s < low a + 1024 -> seen a s -> spec_step a s false a
| spec_fresh a s : low a <= s < low a + 1024 -> ~ seen a s ->
    spec_step a s true {| low := low a; seen := fun x => seen a x \/ x = s |}
| spec_advance a s : low a + 1024 <= s ->
    spec_step a s true {| low := s - 1023; seen := fun x => x = s |}.

(** The concrete window represents the abstract one. *)
Definition represents (w : ReplayWindow) (a : SpecWindow) : Prop :=
  base w = low a /\ forall s, marked w s <-> seen a s.

Lemma check_and_mark_refines w a s : wf w -> u32 s -> represents w a ->
  exists v w' a', check_and_mark w s = Ok (v, w') /\ wf w' /\
    represents w' a' /\ spec_step a s v a'.
Proof.
  intros Hw Hs [Hlow Hseen]. unfold check_and_mark.
  destruct (decide (s < base w)); [exists false, w, a|].
  { split_and!; try done. apply spec_below. lia. }
  destruct (decide (s >= base w + 1024)).
  - set (z := {| base := _; bitmap := _ |}).
    assert (Hz : wf z) by (destruct Hw; split; cbn; [uint|done]).
    destruct (mark_spec z s Hz) as [[[_ Hf] _]|(_ & w' & E & Hb & Hl & Hm)]; [cbn; uint|..].
    { unfold z in Hf. by rewrite zero_bit_of in Hf. }
    exists true, w', {| low := s - 1023; seen := fun x => x = s |}.
    split_and!; [done| | |].
    + split; [rewrite Hb; apply Hz | done].
    + split; [rewrite Hb; cbn; lia|]. intros x. rewrite Hm. split; [|naive_solver].
      intros [[_ Hf]|Hx]; [unfold z in Hf; by rewrite zero_bit_of in Hf | done].
    + apply spec_advance. lia.
  - destruct (mark_spec w s Hw) as [[Hm E]|(Hm & w' & E & Hb & Hl & Hm')]; [lia|..].
    + exists false, w, a. split_and!; try done. apply spec_seen; [lia|]. by apply Hseen.
    + eexists true, w', _. split_and!; [done| | |apply spec_fresh; [lia|by rewrite <- Hseen]].
      * split; [rewrite Hb; apply Hw | done].
      * split; cbn; [lia|]. intros x. by rewrite Hm', Hseen.
Qed.

(** Executions of the specification. *)
Inductive spec_run : SpecWindow -> list Z -> list bool -> SpecWindow -> Prop :=
| spec_nil a : spec_run a [] [] a
| spec_cons a s v a' seqs vs a'' :
    spec_step a s v a' -> spec_run a' seqs vs a'' -> spec_run a (s :: seqs) (v :: vs) a''.

Definition abs (w : ReplayWindow) : SpecWindow := {| low := base w; seen := marked w |}.

Lemma abs_represents w : represents w (abs w).
Proof. done. Qed.

Lemma run_refines_from w a seqs : wf w -> Forall u32 seqs -> represents w a ->
  exists vs w' a', run w seqs = Ok (vs, w') /\ wf w' /\ represents w' a' /\
    spec_run a seqs vs a'.
Proof.
  intros Hw Hs. revert w a Hw. induction Hs as [|s seqs Hs _ IH]; intros w a Hw Ha; cbn [run].
  { exists [], w, a. split_and!; try done. constructor. }
  destruct (check_and_mark_refines w a s Hw Hs Ha) as (v & w1 & a1 & -> & Hw1 & Ha1 & St).
  cbn. destruct (IH w1 a1 Hw1 Ha1) as (vs & w2 & a2 & -> & Hw2 & Ha2 & St2). cbn.
  exists (v :: vs), w2, a2. split_and!; try done. by econstructor.
Qed.

(** A step never lowers the window, and at an unchanged base it forgets nothing. *)
Lemma spec_step_mono a s v a' : spec_step a s v a' ->
  low a <= low a' /\ (low a' = low a -> forall x, seen a x -> seen a' x).
Proof. destruct 1; cbn; naive_solver lia. Qed.

Lemma spec_run_mono a seqs vs a' : spec_run a seqs vs a' ->
  low a <= low a' /\ (low a' = low a -> forall x, seen a x -> seen a' x).
Proof.
  induction 1 as [|a s v a' seqs vs a'' H1 _ [IH1 IH2]]; [done|].
  destruct (spec_step_mono _ _ _ _ H1) as [? H]. split; [lia|].
  intros. apply IH2; [lia|]. apply H; [lia|done].
Qed.

Lemma spec_step_accept a s a' : spec_step a s true a' ->
  seen a' s /\ low a' <= s < low a' + 1024.
Proof. inversion 1; subst; cbn in *; intuition lia. Qed.

Lemma check_and_mark_total w s : wf w -> u32 s ->
  exists v w', check_and_mark w s = Ok (v, w') /\ wf w'.
Proof.
  intros Hw Hs. destruct (check_and_mark_refines w (abs w) s Hw Hs) as (v & w' & _ & E & Hw' & _); eauto.
  apply abs_represents.
Qed.

(** A rejected number leaves no trace. *)
Lemma check_and_mark_false w s w' : wf w -> u32 s ->
  check_and_mark w s = Ok (false, w') -> w' = w.
Proof.
  intros Hw Hs. unfold check_and_mark. destruct (decide (s < base w)); [by intros [= <-]|].
  destruct (decide (s >= base w + 1024)).
  - set (z := {| base := _; bitmap := _ |}).
    assert (Hz : wf z) by (destruct Hw; split; cbn; [uint|done]).
    destruct (mark_spec z s Hz) as [[[_ Hf] _]|(_ & x & -> & _)]; [cbn; uint| |done].
    unfold z in Hf. by rewrite zero_bit_of in Hf.
  - destruct (mark_spec w s Hw) as [[_ ->]|(_ & x & -> & _)]; [lia|by intros [= <-]|done].
Qed.

(** Nothing recorded at or above [s]. *)
Definition below (w : ReplayWindow) (s : Z) : Prop :=
  base w <= s /\ forall x, marked w x -> x < s.

Lemma new_below : below new 0.
Proof. split; [done|]. intros x [_ Hx]. unfold new in Hx. by rewrite zero_bit_of in Hx. Qed.

(** A number above all recorded ones is accepted. *)
Lemma check_and_mark_above w s : wf w -> u32 s -> below w s ->
  exists w', check_and_mark w s = Ok (true, w') /\ wf w' /\ below w' (s + 1).
Proof.
  intros Hw Hs [Hb Hm].
  destruct (check_and_mark_refines w (abs w) s Hw Hs (abs_represents w))
    as (v & w' & a' & E & Hw' & [Hl Hr] & St).
  inversion St; subst; cbn in *; try lia.
  - match goal with H : marked w s |- _ => apply Hm in H; lia end.
  - exists w'. split_and!; [done..|]. split; [lia|]. intros x [Hx| ->]%Hr; [apply Hm in Hx|]; lia.
  - exists w'. split_and!; [done..|]. split; [lia|]. intros x ->%Hr. lia.
Qed.

(** ** Verdicts in terms of what arrived

    [low_of h]: the lower end of the 1024 numbers that end at the highest of [h];
    [moves h t]: after [h], the number [t] lies beyond these and moves the window. *)













(** No replay inside an unmoved window.  Once [s] has been accepted it is
    rejected, the window being left as it is, for as long as the base of the
    window stays where the acceptance left it, whatever was received between. *)
Theorem accepted_then_rejected (w w1 w2 : ReplayWindow) (s : Z) (mid : list Z) (vs : list bool)
  (Hw : wf w) (Hs : u32 s) (Hmid : Forall u32 mid)
  (Hacc : check_and_mark w s = Ok (true, w1)) (Hrun : run w1 mid = Ok (vs, w2))
  (Hbase : base w2 = base w1) :
  check_and_mark w2 s = Ok (false, w2).
Proof.
  destruct (check_and_mark_refines w (abs w) s Hw Hs) as (v & x & a1 & E & Hx & R1 & St); [done|].
  rewrite E in Hacc. injection Hacc as -> ->.
  destruct (run_refines_from w1 a1 mid Hx Hmid R1) as (vs' & y & a2 & E2 & Hy & R2 & Sr).
  rewrite E2 in Hrun. injection Hrun as -> ->.
  apply spec_step_accept in St as [Hseen Hr].
  destruct R1 as [L1 M1], R2 as [L2 M2].
  assert (Hm : marked w2 s) by (apply M2; eapply spec_run_mono; [done|lia|done]).
  pose proof Hm as [Hr2 _]. unfold check_and_mark.
  rewrite !decide_False by lia. by destruct (mark_spec w2 s Hy Hr2) as [[_ ?]|[? _]].
Qed.

Lemma accepted_then_rejected_witness :
  exists w1 w2, check_and_mark new 7 = Ok (true, w1) /\
    run w1 [9; 1023; 8] = Ok ([true; true; true], w2) /\ check_and_mark w2 7 = Ok (false, w2).
Proof.
  do 2 eexists. split; [vm_compute; reflexivity|]. split; [vm_compute; reflexivity|].
  eapply (accepted_then_rejected new _ _ 7 [9; 1023; 8] [true; true; true]);
    [exact new_wf | vm_compute; split; congruence | repeat constructor; vm_compute; congruence
    | vm_compute; reflexivity | vm_compute; reflexivity | vm_compute; reflexivity].
Defined.

(** The window only moves forward.  After [m] has been accepted every
    sequence number more than 1023 below it is rejected for good. *)
Theorem too_old_rejected (w w1 w2 : ReplayWindow) (m s : Z) (mid : list Z) (vs : list bool)
  (Hw : wf w) (Hm : u32 m) (Hmid : Forall u32 mid)
  (Hacc : check_and_mark w m = Ok (true, w1)) (Hrun : run w1 mid = Ok (vs, w2))
  (Hold : s + 1023 < m) :
  check_and_mark w2 s = Ok (false, w2).
Proof.
  destruct (check_and_mark_refines w (abs w) m Hw Hm) as (v & x & a1 & E & Hx & R1 & St); [done|].
  rewrite E in Hacc. injection Hacc as -> ->.
  destruct (run_refines_from w1 a1 mid Hx Hmid R1) as (vs' & y & a2 & E2 & Hy & R2 & Sr).
  rewrite E2 in Hrun. injection Hrun as -> ->.
  apply spec_step_accept in St as [_ Hr]. apply spec_run_mono in Sr as [Hl _].
  destruct R2 as [L2 _]. unfold check_and_mark. by rewrite decide_True by lia.
Qed.

Lemma too_old_rejected_witness :
  exists w1 w2, check_and_mark new 5000 = Ok (true, w1) /\
    run w1 [4500; 9000] = Ok ([true; true], w2) /\ check_and_mark w2 3976 = Ok (false, w2).
Proof.
  do 2 eexists. split; [vm_compute; reflexivity|]. split; [vm_compute; reflexivity|].
  eapply (too_old_rejected new _ _ 5000 3976 [4500; 9000] [true; true]);
    [exact new_wf | vm_compute; split; congruence | repeat constructor; vm_compute; congruence
    | vm_compute; reflexivity | vm_compute; reflexivity | lia].
Defined.

(** The bitmap is cleared, not shifted, when the window moves.  A number [s]
    accepted by the window is accepted a second time when any number [t] beyond
    the window arrives in between, as long as [s] is still inside the moved
    window: the frame [s] can be replayed. *)
Theorem replay_after_advance (w w1 : ReplayWindow) (s t : Z)
  (Hw : wf w) (Hs : u32 s) (Ht : u32 t) (Hst : s < t)
  (Hacc : check_and_mark w s = Ok (true, w1))
  (Hadv : base w1 + 1024 <= t) (Hin : t - 1023 <= s) :
  exists w3, run w1 [t; s] = Ok ([true; true], w3).
Proof.
  destruct (check_and_mark_refines w (abs w) s Hw Hs) as (v & x & a1 & E & Hx & R1 & St); [done|].
  rewrite E in Hacc. injection Hacc as -> ->.
  destruct (run_refines_from w1 a1 [t; s] Hx ltac:(apply Forall_cons_2; [exact Ht | by apply Forall_singleton]) R1)
    as (vs & y & a2 & -> & _ & _ & Sr).
  destruct R1 as [L1 _]. exists y. do 2 f_equal.
  inversion Sr as [|? ? ? b ? ? ? S1 Sr']; subst. inversion Sr' as [|? ? ? ? ? ? ? S2 Sn]; subst.
  inversion Sn; subst. inversion S1; subst; try lia.
  inversion S2; subst; cbn in *; try lia; try done; lia.
Qed.

Lemma replay_after_advance_witness :
  let w1 := {| base := 0; bitmap := 2 :: replicate 15 0 |} in
  check_and_mark new 1 = Ok (true, w1) /\ exists w3, run w1 [1024; 1] = Ok ([true; true], w3).
Proof.
  intros w1. split; [vm_compute; reflexivity|].
  apply (replay_after_advance new w1 1 1024 new_wf);
    [vm_compute; split; congruence | vm_compute; split; congruence | lia
    | vm_compute; reflexivity | vm_compute; congruence | lia].
Defined.

End Replay.
