(* ===== verification/Crypto.v ===== *)
(** * Cryptography (rill-core/src/crypto/mod.rs)

    SipHash-2-4 is written out and executable.  HKDF-SHA256, ChaCha20-Poly1305
    and X25519 come from third-party crates: they are the fields of the class
    [Primitives], and what their documentation promises is the class
    [PrimitiveLaws].  [Toy] is an instance of both that evaluates. *)

From S2P Require Import Prelude.

Module Crypto.

Definition KEY_DST_LEN : nat := 32.
Definition SIP_KEY_LEN : nat := 16.
Definition TAG_LEN : nat := 16.
Definition NONCE_LEN : nat := 12.

Inductive AeadError := AeadError_.

#[export] Instance AeadError_eq_dec : EqDecision AeadError.
Proof. solve_decision. Defined.

(** ** Primitives of the crates [hkdf], [chacha20poly1305] and [x25519-dalek] *)

Class Primitives := {
  (* HKDF-SHA256 extract-then-expand: salt, input key, info, output length *)
  hkdf : option (list Z) -> list Z -> list Z -> nat -> list Z;
  (* detached AEAD: key, nonce, aad, message; ciphertext and tag *)
  aead_encrypt : list Z -> list Z -> list Z -> list Z -> option (list Z * list Z);
  aead_decrypt : list Z -> list Z -> list Z -> list Z -> list Z -> option (list Z);
  (* HMAC-SHA256: key, message *)
  hmac : list Z -> list Z -> list Z;
  (* X25519: public key of a secret, shared secret *)
  x25519_base : list Z -> list Z;
  x25519 : list Z -> list Z -> list Z
}.

(** The largest message ChaCha20-Poly1305 takes: 2^32 - 1 blocks of 64 bytes. *)
Definition aead_max : Z := 64 * (2 ^ 32 - 1).

Class PrimitiveLaws (P : Primitives) := {
  hkdf_length : forall salt ikm info n, length (hkdf salt ikm info n) = n;
  hkdf_bytes : forall salt ikm info n, bytes (hkdf salt ikm info n);
  aead_encrypt_total : forall k n aad m,
    Z.of_nat (length m) <= aead_max -> is_Some (aead_encrypt k n aad m);
  aead_encrypt_length : forall k n aad m c t,
    aead_encrypt k n aad m = Some (c, t) -> length c = length m /\ length t = TAG_LEN;
  aead_encrypt_bytes : forall k n aad m c t,
    aead_encrypt k n aad m = Some (c, t) -> bytes c /\ bytes t;
  aead_decrypt_length : forall k n aad c t m,
    aead_decrypt k n aad c t = Some m -> length m = length c;
  aead_decrypt_encrypt : forall k n aad m c t,
    bytes m -> aead_encrypt k n aad m = Some (c, t) -> aead_decrypt k n aad c t = Some m;
  x25519_agree : forall a b, x25519 a (x25519_base b) = x25519 b (x25519_base a)
}.

(** ** SipHash-2-4 *)

Definition rotate_left (x n : Z) : Z :=
  wrap 64 (Z.lor (Z.shiftl x n) (Z.shiftr x (64 - n))).

Record sip_state := mk_sip { v0 : Z; v1 : Z; v2 : Z; v3 : Z }.

Definition sip_round (s : sip_state) : sip_state :=
  let v0 := wrap 64 (v0 s + v1 s) in
  let v1 := rotate_left (v1 s) 13 in
  let v1 := Z.lxor v1 v0 in
  let v0 := rotate_left v0 32 in
  let v2 := wrap 64 (v2 s + v3 s) in
  let v3 := rotate_left (v3 s) 16 in
  let v3 := Z.lxor v3 v2 in
  let v0 := wrap 64 (v0 + v3) in
  let v3 := rotate_left v3 21 in
  let v3 := Z.lxor v3 v0 in
  let v2 := wrap 64 (v2 + v1) in
  let v1 := rotate_left v1 17 in
  let v1 := Z.lxor v1 v2 in
  let v2 := rotate_left v2 32 in
  mk_sip v0 v1 v2 v3.

(** One 64-bit word: [v3 ^= m], two rounds, [v0 ^= m]. *)
Definition sip_word (s : sip_state) (m : Z) : sip_state :=
  let s := mk_sip (v0 s) (v1 s) (v2 s) (Z.lxor (v3 s) m) in
  let s := sip_round (sip_round s) in
  mk_sip (Z.lxor (v0 s) m) (v1 s) (v2 s) (v3 s).

(** The loop over whole words; returns the state and the remaining bytes. *)
Fixpoint sip_words (s : sip_state) (data : list Z) : sip_state * list Z :=
  match data with
  | b0 :: b1 :: b2 :: b3 :: b4 :: b5 :: b6 :: b7 :: rest =>
      sip_words (sip_word s (le_val [b0; b1; b2; b3; b4; b5; b6; b7])) rest
  | _ => (s, data)
  end.

(** [b |= (byte as u64) << (8 * j)] over the remaining bytes. *)
Fixpoint sip_tail (b j : Z) (rest : list Z) : Z :=
  match rest with
  | [] => b
  | byte :: rest => sip_tail (Z.lor b (wrap 64 (Z.shiftl byte (8 * j)))) (j + 1) rest
  end.

Definition siphash_2_4 (key data : list Z) : Z :=
  let k0 := le_val (take 8 key) in
  let k1 := le_val (take 8 (drop 8 key)) in
  let s := mk_sip (Z.lxor 0x736f6d6570736575 k0) (Z.lxor 0x646f72616e646f6d k1)
                  (Z.lxor 0x6c7967656e657261 k0) (Z.lxor 0x7465646279746573 k1) in
  let b := wrap 64 (Z.shiftl (Z.of_nat (length data)) 56) in
  let '(s, rest) := sip_words s data in
  let b := sip_tail b 0 rest in
  let s := sip_word s b in
  let s := mk_sip (v0 s) (v1 s) (Z.lxor (v2 s) 0xff) (v3 s) in
  let s := sip_round (sip_round (sip_round (sip_round s))) in
  Z.lxor (Z.lxor (Z.lxor (v0 s) (v1 s)) (v2 s)) (v3 s).

(** ** Key derivation labels *)

Definition key_dst_info (to_node_id : Z) : list Z :=
  str_bytes "key_dst" ++ be_bytes 4 to_node_id.
Definition key_path_info (path_id path_epoch : Z) : list Z :=
  str_bytes "key_path" ++ be_bytes 8 path_id ++ be_bytes 4 path_epoch.
Definition sip_info (index : Z) : list Z := str_bytes "sipkey" ++ [index].

Definition nonce (salt counter : Z) : list Z := be_bytes 4 salt ++ be_bytes 8 counter.

Section WithPrimitives.
Context `{P : Primitives}.

Definition derive_key_dst (master_key : list Z) (to_node_id : Z) : list Z :=
  hkdf None master_key (key_dst_info to_node_id) KEY_DST_LEN.

Definition derive_key_path (master_key : list Z) (path_id path_epoch : Z) : list Z :=
  hkdf None master_key (key_path_info path_id path_epoch) KEY_DST_LEN.

Definition derive_sip_key (key_dst : list Z) (index : Z) : list Z :=
  take SIP_KEY_LEN (hkdf None key_dst (sip_info index) KEY_DST_LEN).

Definition route_mac (key_dst auth_input : list Z) : list Z :=
  let k1 := derive_sip_key key_dst 0 in
  let k2 := derive_sip_key key_dst 1 in
  le_bytes 8 (siphash_2_4 k1 auth_input) ++ le_bytes 8 (siphash_2_4 k2 auth_input).

Definition derive_challenge_key (shared_secret nonce : list Z) : list Z :=
  hkdf (Some nonce) shared_secret [] 32.

Definition x25519_shared (static_priv peer_pub : list Z) : list Z := x25519 static_priv peer_pub.

(** The returned length and the buffer after the call. *)
Definition seal_in_place (session_key : list Z) (salt counter : Z) (aad buf : list Z)
    (pt_len : nat) : outcome AeadError (nat * list Z) :=
  if decide (length buf < pt_len \/ length buf - pt_len < TAG_LEN)%nat then Err AeadError_
  else
    let msg := take pt_len buf in
    let tag_buf := drop pt_len buf in
    '(ct, tag) ← ok_or AeadError_ (aead_encrypt session_key (nonce salt counter) aad msg);
    Ok ((pt_len + TAG_LEN)%nat, ct ++ tag ++ drop TAG_LEN tag_buf).

Definition open_in_place (session_key : list Z) (salt counter : Z) (aad buf : list Z)
    (ct_len : nat) : outcome AeadError (nat * list Z) :=
  if decide (length buf < ct_len \/ ct_len < TAG_LEN)%nat then Err AeadError_
  else
    let pt_len := (ct_len - TAG_LEN)%nat in
    let msg := take pt_len buf in
    let rest := drop pt_len buf in
    tag ← range rest 0 TAG_LEN;
    pt ← ok_or AeadError_ (aead_decrypt session_key (nonce salt counter) aad msg tag);
    Ok (pt_len, pt ++ rest).

Definition seal (session_key : list Z) (salt counter : Z) (aad plaintext : list Z)
    : outcome AeadError (list Z) :=
  let out := plaintext ++ replicate TAG_LEN 0 in
  '(_, out) ← seal_in_place session_key salt counter aad out (length plaintext);
  Ok out.

Definition open (session_key : list Z) (salt counter : Z) (aad ciphertext : list Z)
    : outcome AeadError (list Z) :=
  '(n, out) ← open_in_place session_key salt counter aad ciphertext (length ciphertext);
  Ok (take n out).

(** ** Laws of the sealing functions *)

Context `{PL : !PrimitiveLaws P}.

Lemma length_route_mac k ai : length (route_mac k ai) = 16%nat.
Proof. unfold route_mac. len. Qed.

Lemma route_mac_bytes k ai : bytes (route_mac k ai).
Proof. apply bytes_app. auto with rill. Qed.

(** The plaintext in the first [pt_len] bytes of a buffer with room for a tag:
    sealing writes ciphertext and tag there and keeps what follows. *)
Lemma seal_in_place_spec key salt counter aad pt room rest :
  length room = TAG_LEN -> Z.of_nat (length pt) <= aead_max ->
  exists ct tag, aead_encrypt key (nonce salt counter) aad pt = Some (ct, tag) /\
    length ct = length pt /\ length tag = TAG_LEN /\
    seal_in_place key salt counter aad (pt ++ room ++ rest) (length pt)
    = Ok ((length pt + TAG_LEN)%nat, ct ++ tag ++ rest).
Proof.
  intros Hroom Hmax. destruct (aead_encrypt_total key (nonce salt counter) aad pt Hmax) as [[ct tag] E].
  destruct (aead_encrypt_length _ _ _ _ _ _ E) as [Hc Ht].
  exists ct, tag. split_and!; try done. unfold seal_in_place.
  rewrite decide_False by (unfold TAG_LEN in *; len).
  rewrite take_app_length, drop_app_length, E. cbn. unfold TAG_LEN in *. by rewrite <- Hroom, drop_app_length.
Qed.

Lemma open_in_place_spec key salt counter aad pt ct tag rest :
  bytes pt -> aead_encrypt key (nonce salt counter) aad pt = Some (ct, tag) ->
  open_in_place key salt counter aad (ct ++ tag ++ rest) (length ct + TAG_LEN)
  = Ok (length pt, pt ++ tag ++ rest).
Proof.
  intros Hpt E. destruct (aead_encrypt_length _ _ _ _ _ _ E) as [Hc Ht].
  unfold open_in_place. rewrite decide_False by len.
  replace (length ct + TAG_LEN - TAG_LEN)%nat with (length ct) by lia.
  rewrite take_app_length, drop_app_length.
  rewrite range_Ok by len. rewrite drop_0, Nat.sub_0_r, <- Ht, take_app_length. cbn.
  by rewrite (aead_decrypt_encrypt _ _ _ _ _ _ Hpt E), Hc.
Qed.

Lemma open_seal key salt counter aad pt :
  bytes pt -> Z.of_nat (length pt) <= aead_max ->
  exists out, seal key salt counter aad pt = Ok out /\
    length out = (length pt + TAG_LEN)%nat /\
    open key salt counter aad out = Ok pt.
Proof.
  intros Hpt Hmax. unfold seal, open.
  destruct (seal_in_place_spec key salt counter aad pt (replicate TAG_LEN 0) [])
    as (ct & tag & E & Hc & Ht & H); [done|done|].
  rewrite !app_nil_r in H. rewrite H. cbn. eexists. split; [done|]. split; [len|].
  pose proof (open_in_place_spec key salt counter aad pt ct tag [] Hpt E) as Ho.
  rewrite !app_nil_r in Ho. rewrite length_app, Ht, Ho. cbn. by rewrite take_app_length.
Qed.

(** The buffer-reusing and the allocating variants agree. *)
Lemma open_in_place_open key salt counter aad ct rest :
  open key salt counter aad ct
  = ('(n, out) ← open_in_place key salt counter aad (ct ++ rest) (length ct); Ok (take n out)).
Proof.
  unfold open, open_in_place. destruct (decide (length ct < TAG_LEN)%nat).
  { rewrite !decide_True by lia. done. }
  rewrite !decide_False by len. rewrite take_app_le, drop_app_le by lia.
  rewrite !range_Ok by len. rewrite !drop_0, take_app_le by len.
  cbn. destruct (aead_decrypt _ _ _ _ _) as [pt|] eqn:E; cbn; [|done].
  apply aead_decrypt_length in E. rewrite length_take in E.
  by rewrite !take_app_le by lia.
Qed.

Lemma open_safe key salt counter aad ct : safe (open key salt counter aad ct).
Proof.
  unfold open, open_in_place. case_decide; [done|].
  rewrite range_Ok by len. cbn. by destruct (aead_decrypt _ _ _ _ _).
Qed.

Lemma open_length key salt counter aad ct pt :
  open key salt counter aad ct = Ok pt -> (length pt + TAG_LEN = length ct)%nat.
Proof.
  unfold open, open_in_place. case_decide; [done|].
  rewrite range_Ok by len. cbn. destruct (aead_decrypt _ _ _ _ _) as [m|] eqn:E; cbn; [|done].
  apply aead_decrypt_length in E. rewrite length_take in E.
  intros [= <-]. rewrite take_app_le by lia. len.
Qed.

End WithPrimitives.

#[export] Hint Resolve route_mac_bytes open_safe : rill.
#[export] Hint Rewrite @length_route_mac : rill_len.

(** ** Nonces and labels *)

Lemma length_nonce salt counter : length (nonce salt counter) = NONCE_LEN.
Proof. unfold nonce. by len. Qed.

Lemma nonce_inj s c s' c' : u32 s -> u32 s' -> u64 c -> u64 c' ->
  nonce s c = nonce s' c' -> s = s' /\ c = c'.
Proof.
  intros ???? H. apply app_inj_1 in H as [Ha Hb]; [|len].
  split; [apply (be_bytes_inj 4) | apply (be_bytes_inj 8)]; done.
Qed.

(** Every label the code derives a key under. *)
Inductive Label :=
| KeyDst (to_node_id : Z)
| KeyPath (path_id path_epoch : Z)
| SipKey (index : Z).

Definition label_info (l : Label) : list Z :=
  match l with
  | KeyDst n => key_dst_info n
  | KeyPath p e => key_path_info p e
  | SipKey i => sip_info i
  end.

Definition label_ok (l : Label) : Prop :=
  match l with
  | KeyDst n => u32 n
  | KeyPath p e => u64 p /\ u32 e
  | SipKey i => u8 i
  end.

(** Domain separation.  Distinct keys are derived under distinct HKDF info
    strings: the labels of per-node, per-path and SipHash keys never coincide,
    and the label determines the node, or the path and its epoch. *)
Theorem label_info_inj (l l' : Label) (Hl : label_ok l) (Hl' : label_ok l')
  (H : label_info l = label_info l') : l = l'.
Proof.
  destruct l, l'; cbn [label_ok label_info] in *; unfold key_dst_info, key_path_info, sip_info in H;
    try (apply (f_equal length) in H; revert H; len; cbn; lia).
  - apply app_inv_head in H. f_equal. by apply (be_bytes_inj 4).
  - apply app_inv_head, app_inj_1 in H as [H1 H2]; [|len]. destruct Hl, Hl'.
    f_equal; [by apply (be_bytes_inj 8) | by apply (be_bytes_inj 4)].
  - apply app_inv_head in H. by injection H as ->.
Qed.

Lemma label_info_inj_witness : KeyPath 7 1 = KeyPath (6 + 1) 1.
Proof.
  apply label_info_inj; [split; vm_compute; split; congruence.. | reflexivity].
Defined.

(** The SipHash-2-4 of the code gives the published test vectors for the
    key 00..0f and the inputs of length 0, 1 and 32. *)
Theorem siphash_vectors :
  let key := Z.of_nat <$> seq 0 16 in
  siphash_2_4 key [] = 0x726fdb47dd0e0e31 /\
  siphash_2_4 key [0] = 0x74f839c593dc67fd /\
  siphash_2_4 key (Z.of_nat <$> seq 0 32) = 0x7127512f72f27cce.
Proof. vm_compute. auto. Qed.

(** ** A concrete instance *)

Module Toy.

Definition digest (n : nat) (l : list Z) : list Z := le_bytes n (siphash_2_4 (replicate 16 0) l).

#[export] Instance toy : Primitives := {
  hkdf salt ikm info n := digest n (default [] salt ++ ikm ++ info);
  aead_encrypt k n aad m :=
    if decide (Z.of_nat (length m) <= aead_max) then
      let c := wrap 8 <$> m in Some (c, digest 16 (k ++ n ++ aad ++ c))
    else None;
  aead_decrypt k n aad c t :=
    if decide (t = digest 16 (k ++ n ++ aad ++ c)) then Some (wrap 8 <$> c) else None;
  hmac k m := digest 32 (k ++ m);
  x25519_base b := b;
  x25519 a b := be_bytes 32 (be_val a + be_val b)
}.

Lemma wrap8_bytes m : bytes (wrap 8 <$> m).
Proof. apply Forall_fmap, Forall_true. intros. apply wrap_uint. lia. Qed.

Lemma wrap8_id m : bytes m -> wrap 8 <$> m = m.
Proof. induction 1 as [|b m Hb _ IH]; cbn; [done|]. by rewrite wrap_small, IH. Qed.

#[export] Instance toy_laws : PrimitiveLaws toy.
Proof.
  split; cbn; intros.
  - apply length_le_bytes.
  - apply le_bytes_bytes.
  - rewrite decide_True by done. eauto.
  - case_decide; simplify_eq. unfold digest. len. done.
  - case_decide; simplify_eq. split; [apply wrap8_bytes | apply le_bytes_bytes].
  - case_decide; simplify_eq. len.
  - case_decide; simplify_eq. rewrite decide_True by done. by rewrite !wrap8_id by (rewrite ?wrap8_id; done).
  - by rewrite Z.add_comm.
Qed.

End Toy.
End Crypto.
