(* ===== verification/Frame.v ===== *)
(** * Mesh frames (rill-core/src/frame/{mod,wire}.rs)

    The 42-byte frame header, its byte-level view [WireHeader], the sealed and
    unsealed frame builders and the two ways to open a frame. *)

From S2P Require Import Prelude Crypto.

Module Frame.
Import Crypto.

Definition HEADER_LEN : nat := 42.
Definition TAG_LEN : nat := 16.
Definition VERSION : Z := 1.
Definition ROUTE_MAC_LEN : nat := 16.
Definition AUTH_INPUT_LEN : nat := 26.
Definition BROADCAST_NODE_ID : Z := 0xFFFFFFFF.
Definition PATH_ID_DEFAULT : Z := 0.
Definition off_TTL : nat := 3.

Module packet_type.
Definition UNICAST : Z := 0x01.
Definition HANDSHAKE : Z := 0x02.
Definition HEARTBEAT : Z := 0x03.
Definition CONTROL : Z := 0x04.
Definition PATH_PROBE : Z := 0x05.
Definition BROADCAST : Z := 0xFF.
End packet_type.

Inductive DecodeError := Truncated.

Inductive OpenError :=
| Decode (e : DecodeError)
| Version
| RouteMac
| TruncatedPayload
| Aead (e : AeadError).

#[export] Instance DecodeError_eq_dec : EqDecision DecodeError.
Proof. solve_decision. Defined.
#[export] Instance OpenError_eq_dec : EqDecision OpenError.
Proof. solve_decision. Defined.

(** ** Headers *)

Record MeshFrameHeader := mk_header {
  version : Z;
  packet_type_ : Z;
  flags : Z;
  ttl : Z;
  to_node_id : Z;
  from_node_id : Z;
  seq : Z;
  len_ : Z;
  path_id : Z;
  route_mac_ : list Z
}.

Definition default_header : MeshFrameHeader :=
  mk_header VERSION packet_type.UNICAST 0 64 0 0 0 0 PATH_ID_DEFAULT (replicate ROUTE_MAC_LEN 0).

Definition set_ttl (t : Z) (h : MeshFrameHeader) : MeshFrameHeader :=
  mk_header (version h) (packet_type_ h) (flags h) t (to_node_id h) (from_node_id h)
    (seq h) (len_ h) (path_id h) (route_mac_ h).
Definition set_len (n : Z) (h : MeshFrameHeader) : MeshFrameHeader :=
  mk_header (version h) (packet_type_ h) (flags h) (ttl h) (to_node_id h) (from_node_id h)
    (seq h) n (path_id h) (route_mac_ h).
Definition set_mac (m : list Z) (h : MeshFrameHeader) : MeshFrameHeader :=
  mk_header (version h) (packet_type_ h) (flags h) (ttl h) (to_node_id h) (from_node_id h)
    (seq h) (len_ h) (path_id h) m.

(** The packed wire view: big-endian fields are byte arrays. *)
Record WireHeader := mk_wire {
  w_version : Z;
  w_packet_type : Z;
  w_flags : Z;
  w_ttl : Z;
  w_to_node_id : list Z;
  w_from_node_id : list Z;
  w_seq : list Z;
  w_len : list Z;
  w_path_id : list Z;
  w_route_mac : list Z
}.

Definition as_bytes (w : WireHeader) : list Z :=
  [w_version w; w_packet_type w; w_flags w; w_ttl w] ++ w_to_node_id w ++ w_from_node_id w ++
  w_seq w ++ w_len w ++ w_path_id w ++ w_route_mac w.

(** [ref_from_prefix]: the view over the first 42 bytes, and the rest. *)
Definition ref_from_prefix (buf : list Z) : option (WireHeader * list Z) :=
  match buf with
  | v :: p :: f :: t :: b =>
      if decide (length b < 38)%nat then None
      else Some (mk_wire v p f t (take 4 b) (take 4 (drop 4 b)) (take 4 (drop 8 b))
                   (take 2 (drop 12 b)) (take 8 (drop 14 b)) (take 16 (drop 22 b)), drop 38 b)
  | _ => None
  end.

Definition parse (buf : list Z) : outcome DecodeError WireHeader :=
  '(h, _) ← ok_or Truncated (ref_from_prefix buf); Ok h.

Definition write_into (w : WireHeader) (out : list Z) : outcome Empty_set (list Z) :=
  if decide (length out < HEADER_LEN)%nat then Panic
  else Ok (as_bytes w ++ drop HEADER_LEN out).

Definition split (buf : list Z) : option (WireHeader * list Z) :=
  '(h, rest) ← ref_from_prefix buf;
  p ← get_range rest 0 (Z.to_nat (be_val (w_len h)));
  Some (h, p).

Definition decrement_ttl (buf : list Z) : list Z :=
  match ref_from_prefix buf with
  | Some (h, rest) =>
      as_bytes (mk_wire (w_version h) (w_packet_type h) (w_flags h) (wrap 8 (w_ttl h - 1))
        (w_to_node_id h) (w_from_node_id h) (w_seq h) (w_len h) (w_path_id h) (w_route_mac h)) ++ rest
  | None => buf
  end.

Definition wire_auth_input (w : WireHeader) : list Z :=
  <[off_TTL := 0]> (take AUTH_INPUT_LEN (as_bytes w)).

Definition of_wire (w : WireHeader) : MeshFrameHeader :=
  mk_header (w_version w) (w_packet_type w) (w_flags w) (w_ttl w)
    (be_val (w_to_node_id w)) (be_val (w_from_node_id w)) (be_val (w_seq w))
    (be_val (w_len w)) (be_val (w_path_id w)) (w_route_mac w).

Definition to_wire (h : MeshFrameHeader) : WireHeader :=
  mk_wire (version h) (packet_type_ h) (flags h) (ttl h)
    (be_bytes 4 (to_node_id h)) (be_bytes 4 (from_node_id h)) (be_bytes 4 (seq h))
    (be_bytes 2 (len_ h)) (be_bytes 8 (path_id h)) (route_mac_ h).

Definition encode (h : MeshFrameHeader) (out : list Z) : outcome Empty_set (list Z) :=
  if decide (HEADER_LEN <= length out)%nat then write_into (to_wire h) out else Panic.

Definition decode (buf : list Z) : outcome DecodeError MeshFrameHeader :=
  w ← parse buf; Ok (of_wire w).

Definition auth_input (h : MeshFrameHeader) : list Z := wire_auth_input (to_wire h).

(** ** Frames *)

(** An [assert!] or slice panic of a function that cannot otherwise fail. *)
Definition lift {E A} (m : outcome Empty_set A) : outcome E A :=
  match m with Ok a => Ok a | Err e => match e with end | Panic => Panic end.

(** [copy_from_slice] into [out[a..a+len]]. *)
Definition copy_at {E} (out : list Z) (a : nat) (src : list Z) : outcome E (list Z) :=
  if decide (a + length src <= length out)%nat
  then Ok (take a out ++ src ++ drop (a + length src) out) else Panic.

(** *** Lemmas on the header *)

Record wire_ok (w : WireHeader) : Prop := {
  wk_to : length (w_to_node_id w) = 4%nat;
  wk_from : length (w_from_node_id w) = 4%nat;
  wk_seq : length (w_seq w) = 4%nat;
  wk_len : length (w_len w) = 2%nat;
  wk_path : length (w_path_id w) = 8%nat;
  wk_mac : length (w_route_mac w) = 16%nat
}.

(** The ranges of the Rust field types. *)
Record header_ok (h : MeshFrameHeader) : Prop := {
  hk_version : u8 (version h);
  hk_type : u8 (packet_type_ h);
  hk_flags : u8 (flags h);
  hk_ttl : u8 (ttl h);
  hk_to : u32 (to_node_id h);
  hk_from : u32 (from_node_id h);
  hk_seq : u32 (seq h);
  hk_len : u16 (len_ h);
  hk_path : u64 (path_id h);
  hk_mac_len : length (route_mac_ h) = ROUTE_MAC_LEN;
  hk_mac : bytes (route_mac_ h)
}.

Lemma default_header_ok : header_ok default_header.
Proof. split; cbn; try (unfold is_uint; lia); try done. by apply (Forall_replicate _ 16). Qed.

Lemma header_ok_set_len h n : header_ok h -> u16 n -> header_ok (set_len n h).
Proof. by intros [] ?; split. Qed.

Lemma header_ok_set_mac h m :
  header_ok h -> length m = ROUTE_MAC_LEN -> bytes m -> header_ok (set_mac m h).
Proof. by intros [] ??; split. Qed.

Lemma to_wire_ok h : header_ok h -> wire_ok (to_wire h).
Proof. intros []. by split; cbn; len. Qed.

Lemma of_to_wire h : header_ok h -> of_wire (to_wire h) = h.
Proof.
  intros []. unfold of_wire, to_wire; cbn. rewrite !be_val_be_bytes by done. by destruct h.
Qed.

Lemma length_as_bytes w : wire_ok w -> length (as_bytes w) = HEADER_LEN.
Proof. intros []. unfold as_bytes, HEADER_LEN. len. Qed.

Lemma as_bytes_to_wire h : header_ok h -> bytes (as_bytes (to_wire h)).
Proof.
  intros []. unfold as_bytes, to_wire; cbn -[app].
  repeat (apply bytes_app; split); auto with rill; fall.
Qed.

Lemma ref_from_prefix_as_bytes w rest :
  wire_ok w -> ref_from_prefix (as_bytes w ++ rest) = Some (w, rest).
Proof.
  intros [Ha Hb Hc Hd He Hm]. destruct w as [v p f t a b c d e m]; cbn in *.
  explode Ha; explode Hb; explode Hc; explode Hd; explode He; explode Hm.
  unfold as_bytes, ref_from_prefix; cbn -[decide Nat.lt].
  rewrite decide_False by lia. by rewrite drop_0.
Qed.

Lemma ref_from_prefix_Some buf w rest :
  ref_from_prefix buf = Some (w, rest) -> buf = as_bytes w ++ rest /\ wire_ok w.
Proof.
  unfold ref_from_prefix. destruct buf as [|v [|p [|f [|t b]]]]; try done.
  case_decide; [done|]. intros [= <- <-]. split.
  - unfold as_bytes; cbn. do 4 f_equal.
    rewrite <- !app_assoc, (take_drop_app 16 22 38), (take_drop_app 8 14 22),
      (take_drop_app 2 12 14), (take_drop_app 4 8 12), (take_drop_app 4 4 8) by done.
    by rewrite take_drop.
  - split; cbn; len.
Qed.

Lemma ref_from_prefix_None buf : ref_from_prefix buf = None <-> (length buf < HEADER_LEN)%nat.
Proof.
  unfold ref_from_prefix, HEADER_LEN.
  destruct buf as [|v [|p [|f [|t b]]]]; cbn; try (split; [lia|done]).
  case_decide; split; try done; lia.
Qed.

(** The authenticated part of a header: everything but [ttl] and [route_mac]. *)
Definition erase (h : MeshFrameHeader) : MeshFrameHeader := set_ttl 0 (set_mac [] h).

Lemma auth_input_explicit h :
  auth_input h = [version h; packet_type_ h; flags h; 0] ++ be_bytes 4 (to_node_id h) ++
    be_bytes 4 (from_node_id h) ++ be_bytes 4 (seq h) ++ be_bytes 2 (len_ h) ++ be_bytes 8 (path_id h).
Proof.
  unfold auth_input, wire_auth_input, AUTH_INPUT_LEN, as_bytes. cbn [to_wire w_version
    w_packet_type w_flags w_ttl w_to_node_id w_from_node_id w_seq w_len w_path_id w_route_mac].
  rewrite !app_assoc, take_app_le by len. rewrite take_ge by len. by rewrite <- !app_assoc.
Qed.

Lemma wire_auth_input_of_wire w : wire_ok w ->
  bytes (as_bytes w) -> wire_auth_input w = auth_input (of_wire w).
Proof.
  intros [] Hb. unfold auth_input. f_equal. unfold as_bytes in Hb.
  repeat (rewrite bytes_app in Hb). destruct Hb as (_ & ? & ? & ? & ? & ? & ?).
  destruct w; cbn in *. unfold to_wire, of_wire; cbn. by rewrite !be_bytes_be_val.
Qed.

Section WithPrimitives.
Context `{P : Primitives}.

Definition build_frame (header : MeshFrameHeader) (key_dst session_key : list Z) (salt : Z)
    (payload : list Z) : outcome AeadError (list Z) :=
  let h := set_len (wrap 16 (Z.of_nat (length payload + TAG_LEN))) header in
  let ai := auth_input h in
  let h := set_mac (route_mac key_dst ai) h in
  let out := replicate (HEADER_LEN + length payload + TAG_LEN) 0 in
  out ← lift (encode h out);
  out ← copy_at out HEADER_LEN payload;
  '(_, body) ← seal_in_place session_key salt (seq h) ai (drop HEADER_LEN out) (length payload);
  Ok (take HEADER_LEN out ++ body).

Definition build_unsealed_frame (header : MeshFrameHeader) (route_key payload : list Z)
    : outcome Empty_set (list Z) :=
  let h := set_len (wrap 16 (Z.of_nat (length payload))) header in
  let ai := auth_input h in
  let h := set_mac (route_mac route_key ai) h in
  let out := replicate (HEADER_LEN + length payload) 0 in
  out ← encode h out;
  copy_at out HEADER_LEN payload.

Definition build_handshake_frame (header : MeshFrameHeader) (key_dst payload : list Z)
    : outcome Empty_set (list Z) :=
  let h := mk_header (version header) packet_type.HANDSHAKE (flags header) (ttl header)
    (to_node_id header) (from_node_id header) (seq header) (len_ header) PATH_ID_DEFAULT
    (route_mac_ header) in
  build_unsealed_frame h key_dst payload.

Definition frame_payload (frame : list Z) : option (list Z) :=
  '(_, payload) ← split frame; Some payload.

Definition validate_frame (frame key_dst : list Z) : outcome OpenError (MeshFrameHeader * nat * nat) :=
  w ← map_err Decode (parse frame);
  if decide (w_version w <> VERSION) then Err Version
  else
    let ai := wire_auth_input w in
    if decide (route_mac key_dst ai <> w_route_mac w) then Err RouteMac
    else
      let end_ := (HEADER_LEN + Z.to_nat (be_val (w_len w)))%nat in
      if decide (length frame < end_)%nat then Err TruncatedPayload
      else Ok (of_wire w, HEADER_LEN, end_).

(** Header, payload and the frame buffer after the call. *)
Definition open_frame_in_place (frame key_dst session_key : list Z) (salt : Z)
    : outcome OpenError (MeshFrameHeader * list Z * list Z) :=
  '(header, hlen, end_) ← validate_frame frame key_dst;
  let ai := auth_input header in
  body ← range frame hlen end_;
  '(pt_len, body) ← map_err Aead (open_in_place session_key salt (seq header) ai body (end_ - hlen));
  let frame := take hlen frame ++ body ++ drop end_ frame in
  payload ← range frame hlen (hlen + pt_len);
  Ok (header, payload, frame).

Definition open_frame (frame key_dst session_key : list Z) (salt : Z)
    : outcome OpenError (MeshFrameHeader * list Z) :=
  '(header, hlen, end_) ← validate_frame frame key_dst;
  let ai := auth_input header in
  body ← range frame hlen end_;
  payload ← map_err Aead (open session_key salt (seq header) ai body);
  Ok (header, payload).

Lemma of_wire_ok w : wire_ok w -> bytes (as_bytes w) ->
  to_wire (of_wire w) = w /\ header_ok (of_wire w).
Proof.
  intros [] Hb. unfold as_bytes in Hb. rewrite !bytes_app in Hb.
  destruct Hb as (Hb & ? & ? & ? & ? & ? & ?).
  do 4 (apply Forall_cons_1 in Hb as [? Hb]). destruct w; cbn in *. unfold to_wire, of_wire; cbn.
  rewrite !be_bytes_be_val by done. split; [done|].
  split; cbn; try done;
    [apply (be_val_bound 4) | apply (be_val_bound 4) | apply (be_val_bound 4)
    | apply (be_val_bound 2) | apply (be_val_bound 8)]; done.
Qed.

Lemma decode_ok buf h : bytes buf -> decode buf = Ok h -> header_ok h.
Proof.
  unfold decode, parse. intros Hb. destruct (ref_from_prefix buf) as [[w rest]|] eqn:E; step; [|done].
  apply ref_from_prefix_Some in E as [-> Hw]. intros H%Ok_inj. subst h.
  apply bytes_app in Hb as [Hb _]. by apply of_wire_ok.
Qed.

(** Forwarding changes the hop count only. *)
Lemma decrement_ttl_decode buf h : decode buf = Ok h ->
  decode (decrement_ttl buf) = Ok (set_ttl (wrap 8 (ttl h - 1)) h) /\
  drop HEADER_LEN (decrement_ttl buf) = drop HEADER_LEN buf.
Proof.
  unfold decode, parse, decrement_ttl.
  destruct (ref_from_prefix buf) as [[w rest]|] eqn:E; step; [|done].
  apply ref_from_prefix_Some in E as [-> Hw]. intros H%Ok_inj. subst h.
  set (w' := mk_wire _ _ _ _ _ _ _ _ _ _).
  assert (Hw' : wire_ok w') by (destruct Hw; by split).
  rewrite ref_from_prefix_as_bytes by done. step. split; [done|].
  by rewrite <- (length_as_bytes w Hw) at 2; rewrite <- (length_as_bytes w' Hw') at 1; rewrite !drop_app_length.
Qed.

(** *** Lemmas on frames *)

(** The header as it goes on the wire: length set, route MAC computed. *)
Definition sign (key : list Z) (n : Z) (h : MeshFrameHeader) : MeshFrameHeader :=
  set_mac (route_mac key (auth_input (set_len (wrap 16 n) h))) (set_len (wrap 16 n) h).

Lemma sign_ok key n h : header_ok h -> header_ok (sign key n h).
Proof.
  intros H. apply header_ok_set_mac; [|apply length_route_mac|apply route_mac_bytes].
  apply header_ok_set_len; [done|]. apply wrap_uint. lia.
Qed.

Lemma auth_input_erase h h' : erase h = erase h' -> auth_input h = auth_input h'.
Proof. rewrite !auth_input_explicit. destruct h, h'. unfold erase, set_ttl, set_mac; cbn. congruence. Qed.

Lemma auth_input_sign key n h : auth_input (sign key n h) = auth_input (set_len (wrap 16 n) h).
Proof. by apply auth_input_erase. Qed.

Lemma encode_spec h out : header_ok h -> (HEADER_LEN <= length out)%nat ->
  encode h out = Ok (as_bytes (to_wire h) ++ drop HEADER_LEN out).
Proof. intros. unfold encode, write_into. by rewrite decide_True, decide_False by lia. Qed.

(** Writing header and payload into a zeroed buffer. *)
Lemma copy_payload {E} h payload room : header_ok h ->
  (out ← lift (encode h (replicate (HEADER_LEN + length payload + room) 0));
   copy_at (E:=E) out HEADER_LEN payload)
  = Ok (as_bytes (to_wire h) ++ payload ++ replicate room 0).
Proof.
  intros Hh. pose proof (length_as_bytes _ (to_wire_ok _ Hh)) as Hl.
  rewrite encode_spec by (done || len). cbn [lift]. step. unfold copy_at.
  rewrite decide_True by len. rewrite <- Hl at 1. rewrite take_app_length.
  rewrite drop_app_ge by len. rewrite Hl, drop_drop, drop_replicate. do 4 f_equal. lia.
Qed.

Lemma build_unsealed_frame_spec h key payload : header_ok h ->
  build_unsealed_frame h key payload
  = Ok (as_bytes (to_wire (sign key (Z.of_nat (length payload)) h)) ++ payload).
Proof.
  intros Hh. pose proof (copy_payload (E:=Empty_set) (sign key (Z.of_nat (length payload)) h) payload 0
    (sign_ok _ _ _ Hh)) as H.
  rewrite Nat.add_0_r, app_nil_r in H. rewrite <- H. unfold build_unsealed_frame, sign.
  by destruct (encode _ _) as [|[]|].
Qed.

Context `{PL : !PrimitiveLaws P}.

Lemma build_frame_spec h key_dst session_key salt payload :
  header_ok h -> Z.of_nat (length payload) <= aead_max ->
  let h' := sign key_dst (Z.of_nat (length payload + TAG_LEN)) h in
  exists ct tag, aead_encrypt session_key (nonce salt (seq h)) (auth_input h') payload = Some (ct, tag) /\
    length ct = length payload /\ length tag = TAG_LEN /\
    build_frame h key_dst session_key salt payload = Ok (as_bytes (to_wire h') ++ ct ++ tag).
Proof.
  intros Hh Hmax h'. pose proof (sign_ok key_dst (Z.of_nat (length payload + TAG_LEN)) h Hh) as Hh'.
  destruct (seal_in_place_spec session_key salt (seq h) (auth_input h') payload (replicate TAG_LEN 0) [])
    as (ct & tag & E & Hc & Ht & Hs); [done|done|].
  exists ct, tag. split_and!; try done. rewrite !app_nil_r in Hs.
  pose proof (copy_payload (E:=AeadError) h' payload TAG_LEN Hh') as Hcp.
  unfold build_frame. change (set_mac _ _) with h'.
  apply bind_Ok_inv in Hcp as (out & -> & Hcp). step. rewrite Hcp. step.
  pose proof (length_as_bytes _ (to_wire_ok _ Hh')) as Hl. fold h' in Hl.
  unfold TAG_LEN, Crypto.TAG_LEN in *. rewrite <- Hl, drop_app_length, take_app_length.
  assert (Ha : auth_input h' = _) by apply auth_input_sign. rewrite <- Ha.
  change (seq h') with (seq h). by rewrite Hs.
Qed.

Lemma validate_frame_signed key n h rest :
  header_ok h -> version h = VERSION -> u16 n -> n <= Z.of_nat (length rest) ->
  validate_frame (as_bytes (to_wire (sign key n h)) ++ rest) key
  = Ok (sign key n h, HEADER_LEN, (HEADER_LEN + Z.to_nat n)%nat).
Proof.
  intros Hh Hv Hn Hr. pose proof (sign_ok key n h Hh) as Hs.
  unfold validate_frame, parse. rewrite ref_from_prefix_as_bytes by by apply to_wire_ok. step.
  rewrite decide_False by auto. change (wire_auth_input _) with (auth_input (sign key n h)).
  rewrite auth_input_sign, decide_False by auto.
  change (be_val (w_len _)) with (be_val (be_bytes 2 (wrap 16 n))).
  rewrite be_val_be_bytes, wrap_small by (rewrite ?wrap_small; done).
  rewrite decide_False; [by rewrite of_to_wire|].
  rewrite length_app, length_as_bytes by by apply to_wire_ok. lia.
Qed.

Lemma decrement_ttl_spec h rest : header_ok h ->
  decrement_ttl (as_bytes (to_wire h) ++ rest)
  = as_bytes (to_wire (set_ttl (wrap 8 (ttl h - 1)) h)) ++ rest.
Proof. intros Hh. unfold decrement_ttl. by rewrite ref_from_prefix_as_bytes by by apply to_wire_ok. Qed.

Lemma set_ttl_ok h t : header_ok h -> u8 t -> header_ok (set_ttl t h).
Proof. by intros [] ?; split. Qed.

Lemma wrap_pred a : wrap 8 (wrap 8 a - 1) = wrap 8 (a - 1).
Proof. unfold wrap. by rewrite Zminus_mod_idemp_l. Qed.

(** [k] forwarding hops. *)
Lemma decrement_ttl_iter h rest k : header_ok h ->
  Nat.iter k decrement_ttl (as_bytes (to_wire h) ++ rest)
  = as_bytes (to_wire (set_ttl (wrap 8 (ttl h - Z.of_nat k)) h)) ++ rest.
Proof.
  intros Hh. induction k as [|k IH].
  - rewrite Z.sub_0_r, wrap_small by apply Hh. by destruct h.
  - cbn [Nat.iter nat_rect]. change (nat_rect _ _ _ k) with (Nat.iter k decrement_ttl (as_bytes (to_wire h) ++ rest)).
    rewrite IH, decrement_ttl_spec by (apply set_ttl_ok; [done | apply wrap_uint; lia]).
    cbn [ttl set_ttl]. rewrite wrap_pred.
    by replace (ttl h - Z.of_nat (S k)) with (ttl h - Z.of_nat k - 1) by lia.
Qed.

Lemma sign_set_ttl key n t h : sign key n (set_ttl t h) = set_ttl t (sign key n h).
Proof.
  unfold sign. rewrite (auth_input_erase (set_len _ (set_ttl t h)) (set_len (wrap 16 n) h)); done.
Qed.

(** What [validate_frame] has checked when it succeeds. *)
Lemma validate_frame_Ok frame key h a b :
  validate_frame frame key = Ok (h, a, b) ->
  a = HEADER_LEN /\ b = (HEADER_LEN + Z.to_nat (len_ h))%nat /\ (b <= length frame)%nat /\
  decode frame = Ok h /\ version h = VERSION.
Proof.
  unfold validate_frame, decode. intros H. apply bind_Ok_inv in H as (w & E & H).
  destruct (parse frame) as [w'|e|]; cbn in E; simplify_eq.
  destruct (decide (w_version w <> VERSION)) as [|Hv]; [done|].
  destruct (decide (route_mac _ _ <> _)); [done|]. destruct (decide (_ < _)%nat); [done|].
  assert (Hh : h = of_wire w) by congruence. assert (Ha : a = HEADER_LEN) by congruence.
  assert (Hb : b = (HEADER_LEN + Z.to_nat (be_val (w_len w)))%nat) by congruence. subst.
  refine (conj eq_refl (conj eq_refl (conj _ (conj eq_refl _)))); [lia|].
  by destruct (decide (w_version w = VERSION)).
Qed.

Lemma validate_frame_safe frame key_dst : safe (validate_frame frame key_dst).
Proof.
  unfold validate_frame, parse. destruct (ref_from_prefix frame) as [[]|]; cbn; [|done].
  by repeat case_decide.
Qed.

Lemma open_frame_eq frame key sk salt :
  open_frame frame key sk salt
  = ('(h, a, b) ← validate_frame frame key;
     p ← map_err Aead (open sk salt (seq h) (auth_input h) (take (b - a) (drop a frame)));
     Ok (h, p)).
Proof.
  unfold open_frame. destruct (validate_frame frame key) as [[[h a] b]|e|] eqn:E; [|done..].
  apply validate_frame_Ok in E as (-> & -> & Hl & _). step. by rewrite range_Ok by lia.
Qed.

(** A header that is written into a buffer is read back unchanged, and the
    bytes after the header are not touched. *)
Theorem decode_encode (h : MeshFrameHeader) (out : list Z)
  (Hh : header_ok h) (Hout : (HEADER_LEN <= length out)%nat) :
  exists out', encode h out = Ok out' /\ decode out' = Ok h /\
    length out' = length out /\ drop HEADER_LEN out' = drop HEADER_LEN out.
Proof.
  rewrite encode_spec by done. eexists. split; [done|].
  pose proof (to_wire_ok _ Hh) as Hw. pose proof (length_as_bytes _ Hw) as Hl.
  unfold decode, parse. rewrite ref_from_prefix_as_bytes by done. step. rewrite of_to_wire by done.
  split; [done|]. split; [len|]. rewrite <- Hl at 1. by rewrite drop_app_length.
Qed.

Lemma decode_encode_witness :
  exists out', encode default_header (replicate 50 7) = Ok out' /\ decode out' = Ok default_header /\
    length out' = length (replicate 50 7) /\ drop HEADER_LEN out' = drop HEADER_LEN (replicate 50 7).
Proof.
  apply (decode_encode default_header (replicate 50 7)); [exact default_header_ok | vm_compute; lia].
Defined.

(** Decoding is total on byte strings: it fails exactly below 42 bytes, and
    otherwise gives an in-range header whose encoding is the input again. *)
Theorem decode_total (buf : list Z) (Hb : bytes buf) :
  if decide (length buf < HEADER_LEN)%nat then decode buf = Err Truncated
  else exists h, decode buf = Ok h /\ header_ok h /\ encode h buf = Ok buf.
Proof.
  unfold decode, parse. case_decide as Hl.
  { apply ref_from_prefix_None in Hl. by rewrite Hl. }
  destruct (ref_from_prefix buf) as [[w rest]|] eqn:E; [|by apply ref_from_prefix_None in E].
  apply ref_from_prefix_Some in E as [-> Hw]. step. eexists. split; [done|].
  apply bytes_app in Hb as [Hb Hrest].
  destruct (of_wire_ok w Hw Hb) as [Hto Hok].
  split; [done|]. rewrite encode_spec, Hto by first [done | lia].
  by rewrite <- (length_as_bytes _ Hw), drop_app_length.
Qed.

Lemma decode_total_witness :
  if decide (length (replicate 45 200) < HEADER_LEN)%nat then decode (replicate 45 200) = Err Truncated
  else exists h, decode (replicate 45 200) = Ok h /\ header_ok h /\
    encode h (replicate 45 200) = Ok (replicate 45 200).
Proof. apply (decode_total (replicate 45 200)). apply Forall_replicate. vm_compute. split; congruence. Defined.

(** The authentication input covers exactly the header without [ttl] and
    [route_mac]: two headers have the same input iff all other fields agree. *)
Theorem auth_input_exact (h h' : MeshFrameHeader) (Hh : header_ok h) (Hh' : header_ok h') :
  auth_input h = auth_input h' <-> erase h = erase h'.
Proof.
  split; [|apply auth_input_erase]. rewrite !auth_input_explicit. intros H.
  apply app_inj_1 in H as [Hv H]; [|done]. injection Hv as Hv Hp Hf. destruct Hh, Hh'.
  repeat (apply app_inj_1 in H; [|by len]; destruct H as [?%be_bytes_inj H]; [|done..]).
  apply be_bytes_inj in H; [|done..].
  unfold erase, set_ttl, set_mac; cbn. congruence.
Qed.

Lemma auth_input_exact_witness :
  auth_input default_header = auth_input (set_ttl 9 default_header) <->
  erase default_header = erase (set_ttl 9 default_header).
Proof.
  apply (auth_input_exact default_header (set_ttl 9 default_header));
    [exact default_header_ok | apply set_ttl_ok; [exact default_header_ok | vm_compute; split; congruence]].
Defined.

Lemma build_open_hops (h : MeshFrameHeader) (key_dst session_key : list Z) (salt : Z)
  (payload : list Z) (hops : nat)
  (Hh : header_ok h) (Hv : version h = VERSION) (Hp : bytes payload)
  (Hlen : Z.of_nat (length payload + TAG_LEN) < 2 ^ 16) :
  exists frame, build_frame h key_dst session_key salt payload = Ok frame /\
    open_frame (Nat.iter hops decrement_ttl frame) key_dst session_key salt
    = Ok (set_ttl (wrap 8 (ttl h - Z.of_nat hops))
            (sign key_dst (Z.of_nat (length payload + TAG_LEN)) h), payload).
Proof.
  set (n := Z.of_nat (length payload + TAG_LEN)) in *.
  destruct (build_frame_spec h key_dst session_key salt payload Hh) as (ct & tag & E & Hc & Ht & ->).
  { unfold aead_max; lia. }
  fold n in E. fold n. eexists. split; [done|].
  rewrite decrement_ttl_iter by by apply sign_ok. set (t := wrap 8 _).
  rewrite <- sign_set_ttl in *. set (h' := set_ttl t h).
  assert (Hok : header_ok h') by (apply set_ttl_ok; [done|apply wrap_uint; lia]).
  rewrite open_frame_eq, validate_frame_signed; [|done|done|unfold n; uint|len].
  step. pose proof (length_as_bytes _ (to_wire_ok _ (sign_ok key_dst n h' Hok))) as Hl.
  rewrite <- Hl, drop_app_length, take_ge by len.
  rewrite (auth_input_erase _ (sign key_dst n h)) by by (unfold h'; rewrite sign_set_ttl).
  pose proof (open_in_place_spec session_key salt (seq h) _ payload ct tag [] Hp E) as Ho.
  rewrite app_nil_r in Ho. unfold open. change (seq (sign key_dst n h')) with (seq h).
  rewrite length_app, Ht. unfold TAG_LEN, Crypto.TAG_LEN in *. rewrite Ho. step. by rewrite take_app_length.
Qed.

(** End to end.  A frame built for a payload of less than 65520 bytes is
    opened by the holder of the two keys, after any number of forwarding hops,
    to the very payload and to the header sent, the hop count taken off [ttl]
    (modulo 256): forwarding needs no new route MAC. *)
Theorem open_build_frame (h : MeshFrameHeader) (key_dst session_key : list Z) (salt : Z)
  (payload : list Z) (hops : nat)
  (Hh : header_ok h) (Hv : version h = VERSION) (Hp : bytes payload)
  (Hlen : Z.of_nat (length payload + TAG_LEN) < 2 ^ 16) :
  exists frame, build_frame h key_dst session_key salt payload = Ok frame /\
    open_frame (Nat.iter hops decrement_ttl frame) key_dst session_key salt
    = Ok (set_ttl (wrap 8 (ttl h - Z.of_nat hops))
            (sign key_dst (Z.of_nat (length payload + TAG_LEN)) h), payload).
Proof. by apply build_open_hops. Qed.

(** Opening in place is opening: on every frame both entry points give the
    same header, payload and error, and the in-place one changes nothing but
    the payload's bytes of the buffer. *)
Lemma open_frame_in_place_equiv (frame key_dst session_key : list Z) (salt : Z) :
  match open_frame_in_place frame key_dst session_key salt with
  | Ok (h, p, frame') =>
      open_frame frame key_dst session_key salt = Ok (h, p) /\
      frame' = take HEADER_LEN frame ++ p ++ drop (HEADER_LEN + length p) frame
  | Err e => open_frame frame key_dst session_key salt = Err e
  | Panic => False
  end.
Proof.
  unfold open_frame_in_place. rewrite open_frame_eq.
  destruct (validate_frame frame key_dst) as [[[h a] b]|e|] eqn:Ev; step; [|done|].
  2:{ by apply validate_frame_safe in Ev. }
  apply validate_frame_Ok in Ev as (-> & -> & Hl & _). rewrite range_Ok by lia. step.
  set (n := Z.to_nat (len_ h)) in *.
  replace (HEADER_LEN + n - HEADER_LEN)%nat with n by lia.
  unfold open, open_in_place. rewrite length_take, length_drop.
  replace (n `min` (length frame - HEADER_LEN))%nat with n by lia.
  case_decide as Hs; [done|]. rewrite range_Ok by len. step.
  destruct (aead_decrypt _ _ _ _ _) as [pt|] eqn:Ed; step; [|done].
  apply aead_decrypt_length in Ed. rewrite !length_take, length_drop in Ed.
  assert (Hp : length pt = (n - Crypto.TAG_LEN)%nat) by lia.
  rewrite range_Ok by len. step.
  replace (HEADER_LEN + (n - Crypto.TAG_LEN) - HEADER_LEN)%nat with (length pt) by lia.
  rewrite drop_app_ge by len. replace (HEADER_LEN - length _)%nat with 0%nat by len.
  rewrite drop_0, <- app_assoc, take_app_length, <- Hp, take_app_length.
  split; [done|]. do 2 f_equal.
  rewrite skipn_firstn_comm, drop_drop, (take_drop_app _ _ (HEADER_LEN + n)) by lia. done.
Qed.

Lemma open_frame_safe frame key_dst sk salt : safe (open_frame frame key_dst sk salt).
Proof.
  rewrite open_frame_eq. pose proof (validate_frame_safe frame key_dst).
  destruct (validate_frame frame key_dst) as [[[h a] b]|e|]; step; [|done..].
  pose proof (open_safe sk salt (seq h) (auth_input h) (take (b - a) (drop a frame))).
  by destruct (open _ _ _ _ _).
Qed.

Lemma open_frame_decode frame key_dst sk salt h p :
  open_frame frame key_dst sk salt = Ok (h, p) -> decode frame = Ok h.
Proof.
  rewrite open_frame_eq. intros H. apply bind_Ok_inv in H as ([[h' a] b] & Ev & H).
  apply bind_Ok_inv in H as (p' & _ & H). apply Ok_inj, pair_equal_spec in H as [-> ->].
  by apply validate_frame_Ok in Ev as (_ & _ & _ & ? & _).
Qed.

(** Opening never panics, whatever bytes arrive, and a frame that opens has
    been checked: it is long enough for its header's length field, carries the
    supported version and the route MAC of its own authentication input, and
    the payload is its body without the 16-byte tag. *)
Theorem open_frame_sound (frame key_dst session_key : list Z) (salt : Z) (Hb : bytes frame) :
  match open_frame frame key_dst session_key salt with
  | Ok (h, p) =>
      decode frame = Ok h /\ version h = VERSION /\
      route_mac_ h = route_mac key_dst (auth_input h) /\
      (HEADER_LEN + Z.to_nat (len_ h) <= length frame)%nat /\
      (length p + TAG_LEN)%nat = Z.to_nat (len_ h)
  | Err _ => True
  | Panic => False
  end.
Proof.
  rewrite open_frame_eq. destruct (validate_frame frame key_dst) as [[[h a] b]|e|] eqn:Ev; step; [|done|].
  2:{ by apply validate_frame_safe in Ev. }
  pose proof (validate_frame_Ok _ _ _ _ _ Ev) as (-> & -> & Hl & Hd & Hv).
  replace (HEADER_LEN + Z.to_nat (len_ h) - HEADER_LEN)%nat with (Z.to_nat (len_ h)) by lia.
  destruct (open _ _ _ _ _) as [p|e|] eqn:Ho; step; [|done|by eapply open_safe].
  apply open_length in Ho. rewrite length_take, length_drop in Ho. unfold TAG_LEN, Crypto.TAG_LEN in *.
  split; [done|]. split; [done|]. split; [|lia].
  unfold validate_frame, parse in Ev. destruct (ref_from_prefix frame) as [[w rest]|] eqn:Er; [|done].
  step in Ev. apply ref_from_prefix_Some in Er as [-> Hw]. apply bytes_app in Hb as [Hb _].
  destruct (decide (w_version w <> VERSION)); [done|].
  rewrite wire_auth_input_of_wire in Ev by done.
  destruct (decide (_ <> w_route_mac w)) as [|Hm]; [done|]. destruct (decide (_ < _)%nat); [done|].
  assert (Hw' : h = of_wire w) by congruence. subst h. cbn [of_wire route_mac_].
  symmetry. by destruct (decide (route_mac key_dst (auth_input (of_wire w)) = w_route_mac w)).
Qed.

End WithPrimitives.

(** ** Path probe payloads *)

Record PathProbePayload := mk_probe { nonce_ : Z; sent_ms : Z; response : bool }.

Definition probe_LEN : nat := 13.

Definition probe_encode (p : PathProbePayload) : list Z :=
  be_bytes 4 (nonce_ p) ++ be_bytes 8 (sent_ms p) ++ [if response p then 1 else 0].

Definition probe_decode (buf : list Z) : option PathProbePayload :=
  if decide (length buf <> probe_LEN) then None
  else Some {| nonce_ := be_val (take 4 buf);
               sent_ms := be_val (take 8 (drop 4 buf));
               response := match buf !! 12%nat with
                           | Some b => bool_decide (Z.land b 1 = 1)
                           | None => false
                           end |}.

(** ** Witnesses on the concrete primitives, and the remaining properties *)

Import Toy.

Definition sample_header : MeshFrameHeader :=
  mk_header VERSION packet_type.UNICAST 0 64 7 9 1234 0 0x1122334455667788 (replicate 16 0).

Lemma sample_header_ok : header_ok sample_header.
Proof. split; cbn; try (unfold is_uint; lia); try done. by apply (Forall_replicate _ 16). Qed.

Lemma open_build_frame_witness :
  exists frame, build_frame sample_header (replicate 32 3) (replicate 32 5) 77 (replicate 20 65) = Ok frame /\
    open_frame (Nat.iter 3 decrement_ttl frame) (replicate 32 3) (replicate 32 5) 77
    = Ok (set_ttl (wrap 8 (ttl sample_header - 3))
            (sign (replicate 32 3) (Z.of_nat (length (replicate 20 65) + TAG_LEN)) sample_header),
          replicate 20 65).
Proof.
  apply (open_build_frame sample_header (replicate 32 3) (replicate 32 5) 77 (replicate 20 65) 3);
    [exact sample_header_ok | reflexivity
    | apply Forall_replicate; vm_compute; split; congruence | vm_compute; reflexivity].
Defined.

Lemma open_frame_sound_witness :
  match open_frame (replicate 60 1) [] [] 0 with
  | Ok (h, p) =>
      decode (replicate 60 1) = Ok h /\ version h = VERSION /\
      route_mac_ h = route_mac [] (auth_input h) /\
      (HEADER_LEN + Z.to_nat (len_ h) <= length (replicate 60 1))%nat /\
      (length p + TAG_LEN)%nat = Z.to_nat (len_ h)
  | Err _ => True
  | Panic => False
  end.
Proof.
  apply (open_frame_sound (replicate 60 1) [] [] 0). apply Forall_replicate. vm_compute. split; congruence.
Defined.

(** What a receiver takes from an unsealed (handshake or probe) frame is the
    payload cut at its length modulo 65536: whole below that size, silently
    truncated from there on. *)
Theorem unsealed_frame_payload `{P : Primitives} (h : MeshFrameHeader) (key payload : list Z)
  (Hh : header_ok h) :
  exists frame, build_unsealed_frame h key payload = Ok frame /\
    frame_payload frame = Some (take (Z.to_nat (wrap 16 (Z.of_nat (length payload)))) payload).
Proof.
  rewrite build_unsealed_frame_spec by done. eexists. split; [done|].
  unfold frame_payload, split. rewrite ref_from_prefix_as_bytes by by apply to_wire_ok, sign_ok.
  step. change (be_val (w_len _)) with (be_val (be_bytes 2 (wrap 16 (Z.of_nat (length payload))))).
  rewrite be_val_be_bytes by (apply wrap_uint; lia).
  unfold get_range. rewrite decide_True; [by rewrite drop_0, Nat.sub_0_r|].
  unfold wrap. split; [lia|]. pose proof (Z.mod_le (Z.of_nat (length payload)) (2 ^ 16)). lia.
Qed.

Lemma unsealed_frame_payload_witness :
  exists frame, build_unsealed_frame sample_header [1] [2; 3] = Ok frame /\
    frame_payload frame = Some (take (Z.to_nat (wrap 16 (Z.of_nat (length [2; 3])))) [2; 3]).
Proof. apply (unsealed_frame_payload sample_header [1] [2; 3]). exact sample_header_ok. Defined.

(** Path probe payloads round-trip, and a buffer of any other length is
    refused. *)
Theorem probe_roundtrip (p : PathProbePayload) (buf : list Z) (Hn : u32 (nonce_ p)) (Hs : u64 (sent_ms p)) :
  probe_decode (probe_encode p) = Some p /\
  (probe_decode buf = None <-> length buf <> probe_LEN).
Proof.
  unfold probe_decode. split; [|case_decide; naive_solver].
  unfold probe_encode. rewrite decide_False by (unfold probe_LEN; len; lia).
  rewrite take_app_le, take_ge by len. rewrite drop_app_ge by len.
  replace (4 - _)%nat with 0%nat by len. rewrite drop_0, take_app_le, take_ge by len.
  rewrite !be_val_be_bytes by done.
  rewrite !lookup_app_r by len. replace (12 - _ - _)%nat with 0%nat by len.
  destruct p as [n m []]; done.
Qed.

Lemma probe_roundtrip_witness :
  probe_decode (probe_encode (mk_probe 5 6 true)) = Some (mk_probe 5 6 true) /\
  (probe_decode [1] = None <-> length [1] <> probe_LEN).
Proof. apply (probe_roundtrip (mk_probe 5 6 true) [1]); vm_compute; split; congruence. Defined.

End Frame.
