(* ===== verification/Handshake.v ===== *)
(** * Handshake and sessions (rill-core/src/handshake)

    The Noise_XX state machines of the two ends ([HandshakeInitiator],
    [HandshakeResponder]), the layouts of their messages, and the established
    [Session]: direction counter, replay window, and the switch to the next
    keys with its 5-second residue.

    The Noise protocol itself is the crate [snow]: the class [NoiseProtocol] holds
    the calls the code makes, with the randomness of a state as an argument of
    its constructor, and [NoiseLaws] what a run of the XX pattern promises. *)

From S2P Require Import Prelude Replay Crypto Frame.
Import Crypto.

Module Handshake.

Definition SESSION_KEY_LEN : nat := 32.
Definition NODE_ID_LEN : nat := 4.
Definition SALT_LEN : nat := 4.
Definition BINDING_LEN : nat := 64.
Definition ISSUANCE_LEN : nat := 16.
Definition PROLOGUE_LEN : nat := 5.
Definition REKEY_INFO : list Z := str_bytes "mesh-rekey-v1".
Definition SESSION_INFO : list Z := str_bytes "mesh-session-v1".
(** Nanoseconds, as every instant and duration below. *)
Definition REKEY_RESIDUE : Z := 5 * 1000000000.
Definition NOISE_PATTERN : string := "Noise_XX_25519_ChaChaPoly_SHA256".

Definition MSG1_BODY_LEN : nat := 32.
Definition MSG2_BODY_LEN : nat := 96.
Definition MSG3_BODY_LEN : nat := 64.
Definition MSG1_PAYLOAD_LEN : nat := NODE_ID_LEN + MSG1_BODY_LEN.
Definition MSG2_PAYLOAD_LEN : nat := MSG2_BODY_LEN.
Definition MSG3_PAYLOAD_LEN : nat := BINDING_LEN + ISSUANCE_LEN + SALT_LEN + MSG3_BODY_LEN.

(** ** The Noise protocol of the crate [snow] *)

Class NoiseProtocol := {
  hs_state : Type;
  noise_error : Type;
  (* pattern, randomness of the ephemeral key, prologue, static secret *)
  build_initiator : string -> list Z -> list Z -> list Z -> hs_state + noise_error;
  build_responder : string -> list Z -> list Z -> list Z -> hs_state + noise_error;
  (* the message written for a payload, into a buffer of the given size *)
  write_message : hs_state -> list Z -> nat -> (list Z + noise_error) * hs_state;
  (* the payload of a message, into a buffer of the given size *)
  read_message : hs_state -> list Z -> nat -> (list Z + noise_error) * hs_state;
  get_remote_static : hs_state -> option (list Z);
  get_handshake_hash : hs_state -> list Z;
  get_raw_split : hs_state -> list Z * list Z
}.

(** A run of the XX pattern between two ends with the same prologue: every
    message has the length of its tokens and is accepted, each end learns the
    static key of the other, and both hold the same transcript hash and keys. *)
Definition xx_run `{P : Primitives} `{N : NoiseProtocol} (ea eb p a b : list Z) : Prop :=
  exists i0 i1 i2 i3 r0 r1 r2 r3 m1 m2 m3 n1 n2 n3,
    build_initiator NOISE_PATTERN ea p a = inl i0 /\
    build_responder NOISE_PATTERN eb p b = inl r0 /\
    write_message i0 [] (MSG1_BODY_LEN + TAG_LEN) = (inl m1, i1) /\ length m1 = MSG1_BODY_LEN /\
    read_message r0 m1 0 = (inl n1, r1) /\
    write_message r1 [] (MSG2_BODY_LEN + TAG_LEN) = (inl m2, r2) /\ length m2 = MSG2_BODY_LEN /\
    read_message i1 m2 0 = (inl n2, i2) /\
    write_message i2 [] (MSG3_BODY_LEN + TAG_LEN) = (inl m3, i3) /\ length m3 = MSG3_BODY_LEN /\
    read_message r2 m3 0 = (inl n3, r3) /\
    get_remote_static i3 = Some (x25519_base b) /\ get_remote_static r3 = Some (x25519_base a) /\
    get_handshake_hash i3 = get_handshake_hash r3 /\ get_raw_split i3 = get_raw_split r3.

Class NoiseLaws `{P : Primitives} (N : NoiseProtocol) := {
  xx_complete : forall ea eb p a b,
    length a = SESSION_KEY_LEN -> length b = SESSION_KEY_LEN -> xx_run ea eb p a b;
  x25519_base_length : forall a,
    length a = SESSION_KEY_LEN -> length (x25519_base a) = SESSION_KEY_LEN
}.

(** ** Messages *)

Definition prologue (network_id version : Z) : list Z := be_bytes 4 network_id ++ [version].

Record WireMsg1 := mk_msg1 { w1_target : list Z; w1_body : list Z }.

Record WireMsg3 := mk_msg3 {
  w3_binding : list Z;
  w3_issuance : list Z;
  w3_salt : list Z;
  w3_body : list Z
}.

Section WithNoise.
Context `{P : Primitives} `{N : NoiseProtocol}.

Inductive HandshakeError :=
| Noise (e : noise_error)
| MalformedPayload
| WrongTarget
| BadBinding
| PeerStaticMismatch
| WrongStep
| Collision.

(** [map_err(HandshakeError::Noise)] on a result of the crate. *)
Definition noise {A} (r : A + noise_error) : outcome HandshakeError A :=
  match r with inl a => Ok a | inr e => Err (Noise e) end.

(** [ref_from_bytes]: exactly the bytes of the layout. *)
Definition parse_msg1 (buf : list Z) : outcome HandshakeError WireMsg1 :=
  if decide (length buf = MSG1_PAYLOAD_LEN)
  then Ok {| w1_target := take NODE_ID_LEN buf; w1_body := drop NODE_ID_LEN buf |}
  else Err MalformedPayload.

Definition parse_msg3 (buf : list Z) : outcome HandshakeError WireMsg3 :=
  if decide (length buf = MSG3_PAYLOAD_LEN)
  then Ok {| w3_binding := take BINDING_LEN buf;
             w3_issuance := take ISSUANCE_LEN (drop BINDING_LEN buf);
             w3_salt := take SALT_LEN (drop (BINDING_LEN + ISSUANCE_LEN) buf);
             w3_body := drop (BINDING_LEN + ISSUANCE_LEN + SALT_LEN) buf |}
  else Err MalformedPayload.

Definition bind_transcript (split_key handshake_hash : list Z) : list Z :=
  hkdf (Some handshake_hash) split_key SESSION_INFO SESSION_KEY_LEN.

Definition peer_static (state : hs_state) (err : HandshakeError)
    : outcome HandshakeError (list Z) :=
  match get_remote_static state with
  | Some rs => if decide (length rs = SESSION_KEY_LEN) then Ok rs else Err err
  | None => Err err
  end.

Record SessionKeys := mk_keys { salt : Z; tx_key : list Z; rx_key : list Z }.

(** ** The initiator *)

Record HandshakeInitiator := mk_initiator {
  i_state : hs_state;
  target_node_id : Z;
  identity_binding : list Z;
  binding_issuance : Z * Z;
  i_salt : Z;
  expected_peer_static : list Z;
  sent_msg1 : bool;
  sent_msg3 : bool
}.

(** The fields an operation changes. *)
Definition i_update (i : HandshakeInitiator) (st : hs_state) (m1 m3 : bool) : HandshakeInitiator :=
  {| i_state := st; target_node_id := target_node_id i; identity_binding := identity_binding i;
     binding_issuance := binding_issuance i; i_salt := i_salt i;
     expected_peer_static := expected_peer_static i; sent_msg1 := m1; sent_msg3 := m3 |}.

Definition initiator_new (seed local_static : list Z) (network_id version target : Z)
    (binding : list Z) (issuance : Z * Z) (salt : Z) (expected : list Z)
    : outcome HandshakeError HandshakeInitiator :=
  if decide (length binding <> BINDING_LEN) then Err MalformedPayload
  else
    state ← noise (build_initiator NOISE_PATTERN seed (prologue network_id version) local_static);
    Ok {| i_state := state; target_node_id := target; identity_binding := binding;
          binding_issuance := issuance; i_salt := salt; expected_peer_static := expected;
          sent_msg1 := false; sent_msg3 := false |}.

Definition write_msg1 (i : HandshakeInitiator) : outcome HandshakeError (list Z) * HandshakeInitiator :=
  if sent_msg1 i then (Err WrongStep, i)
  else
    match write_message (i_state i) [] (MSG1_BODY_LEN + TAG_LEN) with
    | (inl body, st) => (Ok (be_bytes 4 (target_node_id i) ++ body), i_update i st true (sent_msg3 i))
    | (inr e, st) => (Err (Noise e), i_update i st (sent_msg1 i) (sent_msg3 i))
    end.

Definition read_msg2 (i : HandshakeInitiator) (payload : list Z)
    : outcome HandshakeError (list Z) * HandshakeInitiator :=
  if negb (sent_msg1 i) || sent_msg3 i then (Err WrongStep, i)
  else if decide (length payload <> MSG2_PAYLOAD_LEN) then (Err MalformedPayload, i)
  else
    match read_message (i_state i) payload 0 with
    | (inr e, st) => (Err (Noise e), i_update i st (sent_msg1 i) (sent_msg3 i))
    | (inl _, st) =>
        match write_message st [] (MSG3_BODY_LEN + TAG_LEN) with
        | (inr e, st) => (Err (Noise e), i_update i st (sent_msg1 i) (sent_msg3 i))
        | (inl body, st) =>
            (Ok (identity_binding i ++ be_bytes 8 (fst (binding_issuance i))
                   ++ be_bytes 8 (snd (binding_issuance i)) ++ be_bytes 4 (i_salt i) ++ body),
             i_update i st (sent_msg1 i) true)
        end
    end.

Definition finish (i : HandshakeInitiator) : outcome HandshakeError SessionKeys :=
  if negb (sent_msg3 i) then Err WrongStep
  else
    remote_static ← peer_static (i_state i) PeerStaticMismatch;
    if decide (remote_static <> expected_peer_static i) then Err PeerStaticMismatch
    else
      let h := get_handshake_hash (i_state i) in
      let '(k1, k2) := get_raw_split (i_state i) in
      Ok {| salt := i_salt i; tx_key := bind_transcript k1 h; rx_key := bind_transcript k2 h |}.

(** ** The responder *)

Record HandshakeResponder := mk_responder {
  r_state : hs_state;
  self_node_id : Z;
  read_msg1_ : bool;
  sent_msg2 : bool
}.

Definition responder_new (seed local_static : list Z) (network_id version self : Z)
    : outcome HandshakeError HandshakeResponder :=
  state ← noise (build_responder NOISE_PATTERN seed (prologue network_id version) local_static);
  Ok {| r_state := state; self_node_id := self; read_msg1_ := false; sent_msg2 := false |}.

Definition read_msg1 (r : HandshakeResponder) (payload : list Z)
    : outcome HandshakeError unit * HandshakeResponder :=
  if read_msg1_ r then (Err WrongStep, r)
  else
    match parse_msg1 payload with
    | Err e => (Err e, r)
    | Panic => (Panic, r)
    | Ok w =>
        if decide (be_val (w1_target w) <> self_node_id r) then (Err WrongTarget, r)
        else
          match read_message (r_state r) (w1_body w) 0 with
          | (inr e, st) => (Err (Noise e), mk_responder st (self_node_id r) (read_msg1_ r) (sent_msg2 r))
          | (inl _, st) => (Ok tt, mk_responder st (self_node_id r) true (sent_msg2 r))
          end
    end.

Definition write_msg2 (r : HandshakeResponder) : outcome HandshakeError (list Z) * HandshakeResponder :=
  if negb (read_msg1_ r) || sent_msg2 r then (Err WrongStep, r)
  else
    match write_message (r_state r) [] (MSG2_BODY_LEN + TAG_LEN) with
    | (inr e, st) => (Err (Noise e), mk_responder st (self_node_id r) (read_msg1_ r) (sent_msg2 r))
    | (inl body, st) => (Ok body, mk_responder st (self_node_id r) (read_msg1_ r) true)
    end.

(** [verify] takes the claimed node, the static key of the Noise run, the
    binding, and its issuance log index and term. *)
Definition read_msg3 (verify : Z -> list Z -> list Z -> Z -> Z -> bool)
    (r : HandshakeResponder) (payload : list Z) (claimed_node_id : Z)
    : outcome HandshakeError SessionKeys * HandshakeResponder :=
  if negb (sent_msg2 r) then (Err WrongStep, r)
  else
    match parse_msg3 payload with
    | Err e => (Err e, r)
    | Panic => (Panic, r)
    | Ok w =>
        match read_message (r_state r) (w3_body w) 0 with
        | (inr e, st) => (Err (Noise e), mk_responder st (self_node_id r) (read_msg1_ r) (sent_msg2 r))
        | (inl _, st) =>
            let r := mk_responder st (self_node_id r) (read_msg1_ r) (sent_msg2 r) in
            (remote_static ← peer_static st BadBinding;
             let log_index := be_val (take 8 (w3_issuance w)) in
             let term := be_val (drop 8 (w3_issuance w)) in
             if negb (verify claimed_node_id remote_static (w3_binding w) log_index term)
             then Err BadBinding
             else
               let h := get_handshake_hash st in
               let '(k1, k2) := get_raw_split st in
               Ok {| salt := be_val (w3_salt w);
                     tx_key := bind_transcript k2 h; rx_key := bind_transcript k1 h |},
             r)
        end
    end.

End WithNoise.

(** ** Sessions *)

Inductive OpenError :=
| Decode
| Version
| RouteMac
| TruncatedPayload
| Aead
| Replayed.

#[export] Instance OpenError_eq_dec : EqDecision OpenError.
Proof. solve_decision. Defined.

Definition from_frame_error (e : Frame.OpenError) : OpenError :=
  match e with
  | Frame.Decode _ => Decode
  | Frame.Version => Version
  | Frame.RouteMac => RouteMac
  | Frame.TruncatedPayload => TruncatedPayload
  | Frame.Aead _ => Aead
  end.

Record OldRx := mk_old { old_key : list Z; old_window : Replay.ReplayWindow; expires_at : Z }.

Record Session := mk_session {
  peer_node_id : Z;
  keys : SessionKeys;
  tx_counter : Z;
  rx_window : Replay.ReplayWindow;
  old_rx : option OldRx
}.

Definition session_new (peer : Z) (k : SessionKeys) : Session :=
  {| peer_node_id := peer; keys := k; tx_counter := 0; rx_window := Replay.new; old_rx := None |}.

Definition next_seq (s : Session) : Z * Session :=
  (tx_counter s,
   {| peer_node_id := peer_node_id s; keys := keys s; tx_counter := wrap 32 (tx_counter s + 1);
      rx_window := rx_window s; old_rx := old_rx s |}).

Definition set_rx (s : Session) (w : Replay.ReplayWindow) (o : option OldRx) : Session :=
  {| peer_node_id := peer_node_id s; keys := keys s; tx_counter := tx_counter s;
     rx_window := w; old_rx := o |}.

Section Sessions.
Context `{P : Primitives}.

Definition rekey_chain (key : list Z) : list Z := hkdf None key REKEY_INFO SESSION_KEY_LEN.

Definition open (s : Session) (frame key_dst : list Z) (now : Z)
    : outcome OpenError (Frame.MeshFrameHeader * list Z) * Session :=
  match Frame.open_frame frame key_dst (rx_key (keys s)) (salt (keys s)) with
  | Ok (h, p) =>
      match Replay.check_and_mark (rx_window s) (Frame.seq h) with
      | Ok (true, w) => (Ok (h, p), set_rx s w (old_rx s))
      | Ok (false, w) => (Err Replayed, set_rx s w (old_rx s))
      | _ => (Panic, s)
      end
  | Err (Frame.Aead _) =>
      match old_rx s with
      | None => (Err Aead, s)
      | Some old =>
          if decide (now >= expires_at old) then (Err Aead, set_rx s (rx_window s) None)
          else
            match Frame.open_frame frame key_dst (old_key old) (salt (keys s)) with
            | Ok (h, p) =>
                match Replay.check_and_mark (old_window old) (Frame.seq h) with
                | Ok (v, w) =>
                    (if v then Ok (h, p) else Err Replayed,
                     set_rx s (rx_window s) (Some (mk_old (old_key old) w (expires_at old))))
                | _ => (Panic, s)
                end
            | Err _ => (Err Aead, s)
            | Panic => (Panic, s)
            end
      end
  | Err e => (Err (from_frame_error e), s)
  | Panic => (Panic, s)
  end.

(** The same on a buffer: header, plaintext length, and the buffer after the
    call (a frame that does not decrypt leaves it as it is). *)
Definition open_in_place (s : Session) (frame key_dst : list Z) (now : Z)
    : outcome OpenError (Frame.MeshFrameHeader * nat) * list Z * Session :=
  match Frame.open_frame_in_place frame key_dst (rx_key (keys s)) (salt (keys s)) with
  | Ok (h, p, frame) =>
      let pt_len := length p in
      match Replay.check_and_mark (rx_window s) (Frame.seq h) with
      | Ok (true, w) => (Ok (h, pt_len), frame, set_rx s w (old_rx s))
      | Ok (false, w) => (Err Replayed, frame, set_rx s w (old_rx s))
      | _ => (Panic, frame, s)
      end
  | Err (Frame.Aead _) =>
      match old_rx s with
      | None => (Err Aead, frame, s)
      | Some old =>
          if decide (now >= expires_at old) then (Err Aead, frame, set_rx s (rx_window s) None)
          else
            match Frame.open_frame_in_place frame key_dst (old_key old) (salt (keys s)) with
            | Ok (h, p, frame) =>
                let pt_len := length p in
                match Replay.check_and_mark (old_window old) (Frame.seq h) with
                | Ok (v, w) =>
                    (if v then Ok (h, pt_len) else Err Replayed, frame,
                     set_rx s (rx_window s) (Some (mk_old (old_key old) w (expires_at old))))
                | _ => (Panic, frame, s)
                end
            | Err _ => (Err Aead, frame, s)
            | Panic => (Panic, frame, s)
            end
      end
  | Err e => (Err (from_frame_error e), frame, s)
  | Panic => (Panic, frame, s)
  end.

Definition rekey (s : Session) (now : Z) : Session :=
  {| peer_node_id := peer_node_id s;
     keys := mk_keys (salt (keys s)) (rekey_chain (tx_key (keys s))) (rekey_chain (rx_key (keys s)));
     tx_counter := tx_counter s;
     rx_window := Replay.new;
     old_rx := Some (mk_old (rx_key (keys s)) (rx_window s) (now + REKEY_RESIDUE)) |}.

End Sessions.

(** ** The exchange of the three messages *)

Section Exchange.
Context `{P : Primitives} `{N : NoiseProtocol}.

(** Runs a call and goes on with its value and the new state. *)
Definition call {A B S} (m : outcome HandshakeError A * S)
    (k : A -> S -> outcome HandshakeError B) : outcome HandshakeError B :=
  a ← fst m; k a (snd m).

(** Both ends, each message delivered: the keys of the initiator and of the
    responder. *)
Definition exchange (verify : Z -> list Z -> list Z -> Z -> Z -> bool)
    (i : HandshakeInitiator) (r : HandshakeResponder) (claimed : Z)
    : outcome HandshakeError (SessionKeys * SessionKeys) :=
  call (write_msg1 i) (fun m1 i =>
  call (read_msg1 r m1) (fun _ r =>
  call (write_msg2 r) (fun m2 r =>
  call (read_msg2 i m2) (fun m3 i =>
  ki ← finish i;
  call (read_msg3 verify r m3 claimed) (fun kr _ => Ok (ki, kr)))))).

(** The keys of two ends that talk to each other. *)
Definition paired (ki kr : SessionKeys) : Prop :=
  salt ki = salt kr /\ tx_key ki = rx_key kr /\ rx_key ki = tx_key kr.

Lemma parse_msg1_app (target : Z) body : length body = MSG1_BODY_LEN -> u32 target ->
  exists w, parse_msg1 (be_bytes 4 target ++ body) = Ok w /\
    be_val (w1_target w) = target /\ w1_body w = body.
Proof.
  intros Hb Ht. unfold parse_msg1. rewrite decide_True by (unfold MSG1_PAYLOAD_LEN, NODE_ID_LEN; len).
  eexists. split; [done|]. cbn [w1_target w1_body]. unfold NODE_ID_LEN.
  rewrite take_app_length', drop_app_length' by len. split; [|done].
  by apply (be_val_be_bytes 4).
Qed.

Lemma parse_msg3_app binding (li term slt : Z) body :
  length binding = BINDING_LEN -> length body = MSG3_BODY_LEN ->
  u64 li -> u64 term -> u32 slt ->
  exists w, parse_msg3 (binding ++ be_bytes 8 li ++ be_bytes 8 term ++ be_bytes 4 slt ++ body) = Ok w /\
    w3_binding w = binding /\ be_val (take 8 (w3_issuance w)) = li /\
    be_val (drop 8 (w3_issuance w)) = term /\ be_val (w3_salt w) = slt /\ w3_body w = body.
Proof.
  intros Hb Hm Hli Hte Hs. unfold parse_msg3.
  rewrite decide_True by (unfold MSG3_PAYLOAD_LEN, BINDING_LEN, ISSUANCE_LEN, SALT_LEN, MSG3_BODY_LEN in *; len).
  eexists. split; [done|]. cbn [w3_binding w3_issuance w3_salt w3_body].
  set (is_ := be_bytes 8 li ++ be_bytes 8 term). set (sb := be_bytes 4 slt).
  assert (Hi : length is_ = ISSUANCE_LEN) by (unfold is_, ISSUANCE_LEN; len).
  assert (Hsb : length sb = SALT_LEN) by (unfold sb, SALT_LEN; len).
  replace (binding ++ be_bytes 8 li ++ be_bytes 8 term ++ sb ++ body)
    with (binding ++ is_ ++ sb ++ body) by (unfold is_; by rewrite <- app_assoc).
  rewrite (take_app_length' binding), (drop_app_length' binding), (take_app_length' is_) by done.
  rewrite (app_assoc binding), (drop_app_length' (binding ++ is_)), (take_app_length' sb) by len.
  rewrite (app_assoc _ sb), (drop_app_length' ((binding ++ is_) ++ sb)) by len.
  unfold is_. rewrite take_app_length', drop_app_length' by len.
  split_and!; [done| | | |done]; [by apply (be_val_be_bytes 8)..|by apply (be_val_be_bytes 4)].
Qed.

Context `{PL : !PrimitiveLaws P} `{NL : !NoiseLaws N}.

(** C3: the handshake.  Between two ends of one network, for any static keys and
    ephemeral randomness, the exchange of the three messages has exactly one
    of four outcomes, decided in this order: the responder refuses a message
    aimed at another node, the initiator a responder whose static key is not
    the expected one, the responder a binding its verifier rejects for the
    claimed node, the static key of this very Noise run, and the issuance
    anchor sent; otherwise both ends hold the initiator's salt and the same two
    keys, the sending key of each being the receiving key of the other. *)
Theorem handshake_agreement (verify : Z -> list Z -> list Z -> Z -> Z -> bool)
  (ea eb a b : list Z) (network_id version target self claimed : Z)
  (binding : list Z) (li term slt : Z) (expected : list Z)
  (Ha : length a = SESSION_KEY_LEN) (Hb : length b = SESSION_KEY_LEN)
  (Hbind : length binding = BINDING_LEN)
  (Ht : u32 target) (Hli : u64 li) (Hte : u64 term) (Hs : u32 slt) :
  exists i r ki kr,
    initiator_new ea a network_id version target binding (li, term) slt expected = Ok i /\
    responder_new eb b network_id version self = Ok r /\
    paired ki kr /\ salt ki = slt /\
    exchange verify i r claimed =
      if decide (target <> self) then Err WrongTarget
      else if decide (x25519_base b <> expected) then Err PeerStaticMismatch
      else if verify claimed (x25519_base a) binding li term then Ok (ki, kr)
      else Err BadBinding.
Proof.
  destruct (xx_complete ea eb (prologue network_id version) a b Ha Hb)
    as (i0 & i1 & i2 & i3 & r0 & r1 & r2 & r3 & m1 & m2 & m3 & n1 & n2 & n3 & Hi & Hr &
        W1 & L1 & R1 & W2 & L2 & R2 & W3 & L3 & R3 & Si & Sr & HH & HS).
  unfold initiator_new, responder_new. rewrite decide_False, Hi, Hr by auto. cbn [noise]. step.
  destruct (get_raw_split i3) as [k1 k2] eqn:Sp. set (h := get_handshake_hash i3).
  eexists _, _, (mk_keys slt (bind_transcript k1 h) (bind_transcript k2 h)),
    (mk_keys slt (bind_transcript k2 h) (bind_transcript k1 h)).
  split; [done|]. split; [done|]. split; [done|]. split; [done|].
  unfold exchange, call, write_msg1. cbn [sent_msg1 i_state target_node_id]. rewrite W1. cbn [fst snd]. step.
  destruct (parse_msg1_app target m1 L1 Ht) as (w & Ew & Et & Eb).
  unfold read_msg1. cbn [read_msg1_ self_node_id r_state]. rewrite Ew, Et, Eb.
  destruct (decide (target <> self)); [done|]. rewrite R1. cbn [fst snd]. step.
  unfold write_msg2. cbn [read_msg1_ sent_msg2 r_state negb orb]. rewrite W2. cbn [fst snd]. step.
  unfold read_msg2. cbn [i_update sent_msg1 sent_msg3 i_state negb orb identity_binding binding_issuance i_salt].
  rewrite decide_False by auto. rewrite R2, W3. cbn [fst snd]. step.
  unfold finish, peer_static. cbn [i_update sent_msg3 negb i_state expected_peer_static i_salt].
  rewrite Si, decide_True by by apply x25519_base_length. step.
  destruct (decide (x25519_base b <> expected)); [done|]. rewrite Sp. step.
  destruct (parse_msg3_app binding li term slt m3 Hbind L3 Hli Hte Hs)
    as (w' & Ew' & Eb' & Eli & Ete & Es & Ebd).
  unfold read_msg3. cbn [sent_msg2 negb r_state]. rewrite Ew', Ebd, R3. cbn [fst snd].
  unfold peer_static. rewrite Sr, decide_True by by apply x25519_base_length. step.
  rewrite Eb', Eli, Ete, Es. destruct (verify _ _ _ _ _); cbn [negb]; [|done].
  unfold h. by rewrite <- HS, <- HH.
Qed.

End Exchange.

(** ** Call sequences of the responder *)

Section Discipline.
Context `{P : Primitives} `{N : NoiseProtocol}.
Variable verify : Z -> list Z -> list Z -> Z -> Z -> bool.

Inductive RCall :=
| CallMsg1 (payload : list Z)
| CallMsg2
| CallMsg3 (payload : list Z) (claimed : Z).

Inductive REvent :=
| Got1 (payload : list Z)
| Sent2 (body : list Z)
| Keyed (payload : list Z) (claimed : Z) (st : hs_state) (k : SessionKeys)
| Failed (e : HandshakeError)
| Panicked.

Definition event {A} (f : A -> REvent) (m : outcome HandshakeError A) : REvent :=
  match m with Ok a => f a | Err e => Failed e | Panic => Panicked end.

Definition rcall (r : HandshakeResponder) (c : RCall) : REvent * HandshakeResponder :=
  match c with
  | CallMsg1 p => let '(m, r) := read_msg1 r p in (event (fun _ => Got1 p) m, r)
  | CallMsg2 => let '(m, r) := write_msg2 r in (event Sent2 m, r)
  | CallMsg3 p c => let '(m, r) := read_msg3 verify r p c in (event (Keyed p c (r_state r)) m, r)
  end.

Fixpoint rrun (r : HandshakeResponder) (cs : list RCall) : list REvent :=
  match cs with
  | [] => []
  | c :: cs => let '(e, r) := rcall r c in e :: rrun r cs
  end.

(** Keys are handed out for a message whose binding the verifier accepts for
    the claimed node and the static key of the Noise run, and they are the two
    transcript-bound keys of that run with the salt of the message. *)
Definition key_ok (payload : list Z) (claimed : Z) (st : hs_state) (k : SessionKeys) : Prop :=
  length payload = MSG3_PAYLOAD_LEN /\
  (exists rs, get_remote_static st = Some rs /\ length rs = SESSION_KEY_LEN /\
    verify claimed rs (take 64 payload) (be_val (take 8 (drop 64 payload)))
      (be_val (take 8 (drop 72 payload))) = true) /\
  salt k = be_val (take 4 (drop 80 payload)) /\
  tx_key k = bind_transcript (snd (get_raw_split st)) (get_handshake_hash st) /\
  rx_key k = bind_transcript (fst (get_raw_split st)) (get_handshake_hash st).

(** One accepted first message aimed at this node, then one second message,
    then keys; failed calls in between do not count. *)
Fixpoint disciplined (self : Z) (phase : nat) (evs : list REvent) : Prop :=
  match evs with
  | [] => True
  | Failed _ :: evs => disciplined self phase evs
  | Got1 p :: evs => phase = 0%nat /\ length p = MSG1_PAYLOAD_LEN /\ be_val (take 4 p) = self /\
      disciplined self 1 evs
  | Sent2 _ :: evs => phase = 1%nat /\ disciplined self 2 evs
  | Keyed p c st k :: evs => phase = 2%nat /\ key_ok p c st k /\ disciplined self 2 evs
  | Panicked :: _ => False
  end.

Definition phase (r : HandshakeResponder) : nat :=
  if sent_msg2 r then 2 else if read_msg1_ r then 1 else 0.

Lemma rrun_disciplined cs : forall r, (sent_msg2 r = true -> read_msg1_ r = true) ->
  disciplined (self_node_id r) (phase r) (rrun r cs).
Proof.
  induction cs as [|c cs IH]; intros [st self m1 m2] Hr; [done|]. unfold phase.
  cbn [rrun sent_msg2 read_msg1_ self_node_id] in *. destruct c as [p| |p c]; cbn [rcall].
  - unfold read_msg1, parse_msg1. cbn [read_msg1_ self_node_id r_state sent_msg2].
    destruct m1; [exact (IH (mk_responder _ _ _ _) Hr)|].
    destruct m2; [by discriminate Hr|].
    destruct (decide (length p = _)) as [Hl|]; [|exact (IH (mk_responder _ _ _ _) Hr)].
    cbn [w1_target w1_body]. unfold NODE_ID_LEN.
    destruct (decide (be_val (take 4 p) <> self)) as [|Ht]; [exact (IH (mk_responder _ _ _ _) Hr)|].
    destruct (read_message _ _ _) as [[n|e] st'].
    + cbn. split_and!; [done|done|lia|]. exact (IH (mk_responder st' self true false) ltac:(done)).
    + exact (IH (mk_responder _ _ _ _) Hr).
  - unfold write_msg2. cbn [read_msg1_ self_node_id r_state sent_msg2].
    destruct m1, m2; cbn [negb orb]; try exact (IH (mk_responder _ _ _ _) Hr).
    destruct (write_message _ _ _) as [[n|e] st']; [|exact (IH (mk_responder _ _ _ _) Hr)].
    split; [done|]. exact (IH (mk_responder st' self true true) ltac:(done)).
  - unfold read_msg3, parse_msg3. cbn [read_msg1_ self_node_id r_state sent_msg2].
    destruct m2; cbn [negb]; [|exact (IH (mk_responder _ _ _ _) Hr)].
    destruct (decide (length p = _)) as [Hl|]; [|exact (IH (mk_responder _ _ _ _) Hr)].
    cbn [w3_binding w3_issuance w3_salt w3_body].
    destruct (read_message _ _ _) as [[n|e] st']; [|exact (IH (mk_responder _ _ _ _) Hr)].
    unfold peer_static. destruct (get_remote_static st') as [rs|] eqn:Hs;
      [|exact (IH (mk_responder _ _ _ _) Hr)].
    destruct (decide (length rs = _)); step; [|exact (IH (mk_responder _ _ _ _) Hr)].
    destruct (verify _ _ _ _ _) eqn:Hv; cbn [negb]; [|exact (IH (mk_responder _ _ _ _) Hr)].
    destruct (get_raw_split st') as [k1 k2] eqn:Hk. split; [done|].
    split; [|exact (IH (mk_responder _ _ _ _) Hr)].
    split; [done|]. cbn. rewrite Hk. split_and!; try done. exists rs. split_and!; [done..|].
    revert Hv. cbn. unfold ISSUANCE_LEN, BINDING_LEN.
    by rewrite take_take, skipn_firstn_comm, drop_drop.
Qed.

(** C19: the responder's discipline.  Whatever calls it gets, in whatever order and
    with whatever bytes, a fresh responder never panics, answers at most one
    first message and only one aimed at its own node, and hands out keys only
    afterwards and only for a third message whose identity binding the verifier
    accepted for the static key of the same Noise run. *)
Theorem responder_discipline (seed b : list Z) (network_id version self : Z)
  (r : HandshakeResponder) (cs : list RCall)
  (Hr : responder_new seed b network_id version self = Ok r) :
  disciplined self 0 (rrun r cs).
Proof.
  unfold responder_new in Hr. apply bind_Ok_inv in Hr as (st & _ & [= <-]).
  exact (rrun_disciplined cs (mk_responder st self false false) ltac:(done)).
Qed.

End Discipline.

(** ** Properties of sessions *)

Section SessionLaws.
Context `{P : Primitives}.

Record session_wf (s : Session) : Prop := {
  sw_counter : u32 (tx_counter s);
  sw_window : Replay.wf (rx_window s);
  sw_old : forall o, old_rx s = Some o -> Replay.wf (old_window o)
}.

Lemma session_new_wf peer k : session_wf (session_new peer k).
Proof. split; [cbn; uint | apply Replay.new_wf | done]. Qed.

Lemma rekey_wf s now : session_wf s -> session_wf (rekey s now).
Proof. intros []. split; [done | apply Replay.new_wf | by intros o [= <-]]. Qed.

Lemma set_rx_wf s w o : session_wf s -> Replay.wf w ->
  (forall x, o = Some x -> Replay.wf (old_window x)) -> session_wf (set_rx s w o).
Proof. intros [] Hw Ho. by split. Qed.

Lemma set_rx_same s : set_rx s (rx_window s) (old_rx s) = s.
Proof. by destruct s. Qed.

Lemma open_frame_seq frame key_dst k slt h p :
  bytes frame -> Frame.open_frame frame key_dst k slt = Ok (h, p) -> u32 (Frame.seq h).
Proof. intros Hb H. apply Frame.open_frame_decode, Frame.decode_ok in H; [apply H | done]. Qed.

(** C20: what a session delivers.  On any bytes, opening never panics and keeps the
    session well-formed; a delivered frame decrypted under the current key, or
    before its expiry under the previous one, and was fresh in that key's own
    window, where it is now recorded; a refused frame, forged or replayed,
    moves neither window: at most it makes an expired key go away. *)
Theorem session_open_sound (s : Session) (frame key_dst : list Z) (now : Z)
  (Hs : session_wf s) (Hb : bytes frame) :
  let '(res, s') := open s frame key_dst now in
  session_wf s' /\ keys s' = keys s /\ tx_counter s' = tx_counter s /\
  match res with
  | Ok (h, p) =>
      (Frame.open_frame frame key_dst (rx_key (keys s)) (salt (keys s)) = Ok (h, p) /\
       Replay.check_and_mark (rx_window s) (Frame.seq h) = Ok (true, rx_window s') /\
       old_rx s' = old_rx s) \/
      (exists o w, old_rx s = Some o /\ now < expires_at o /\
       Frame.open_frame frame key_dst (old_key o) (salt (keys s)) = Ok (h, p) /\
       Replay.check_and_mark (old_window o) (Frame.seq h) = Ok (true, w) /\
       rx_window s' = rx_window s /\ old_rx s' = Some (mk_old (old_key o) w (expires_at o)))
  | Err _ => s' = s \/
      (exists o, old_rx s = Some o /\ expires_at o <= now /\ s' = set_rx s (rx_window s) None)
  | Panic => False
  end.
Proof.
  unfold open. pose proof (Frame.open_frame_safe frame key_dst (rx_key (keys s)) (salt (keys s))) as Hsafe.
  destruct (Frame.open_frame frame key_dst (rx_key (keys s)) (salt (keys s))) as [[h p]|e|] eqn:E; [| |done].
  { pose proof (open_frame_seq _ _ _ _ _ _ Hb E) as Hq. pose proof Hs as [_ Hw _].
    destruct (Replay.check_and_mark_total _ _ Hw Hq) as (v & w & Ew & Hw').
    rewrite Ew. destruct v.
    - split_and!; try done; [apply set_rx_wf; [done..|apply Hs]|]. left. by rewrite Ew.
    - apply Replay.check_and_mark_false in Ew as ->; [|done..]. rewrite set_rx_same. auto. }
  destruct e; try (split_and!; auto; fail).
  destruct (old_rx s) as [o|] eqn:Eo; [|split_and!; auto; fail].
  destruct (decide (now >= expires_at o)).
  { split_and!; try done; [apply set_rx_wf; [done|apply Hs|done]|].
    right. exists o. split_and!; [done|lia|done]. }
  pose proof (Frame.open_frame_safe frame key_dst (old_key o) (salt (keys s))) as Hsafe'.
  destruct (Frame.open_frame frame key_dst (old_key o) _) as [[h p]|e'|] eqn:E'; [| |done].
  2:{ split_and!; auto. }
  pose proof (open_frame_seq _ _ _ _ _ _ Hb E') as Hq. pose proof (sw_old s Hs o Eo) as Hw.
  destruct (Replay.check_and_mark_total _ _ Hw Hq) as (v & w & Ew & Hw'). rewrite Ew. destruct v.
  - split_and!; try done; [apply set_rx_wf; [done|apply Hs|by intros x [= <-]]|].
    right. exists o, w. split_and!; try done. lia.
  - apply Replay.check_and_mark_false in Ew as ->; [|done..].
    replace (mk_old _ _ _) with o by by destruct o. rewrite <- Eo, set_rx_same. auto.
Qed.

(** The retired key.  Take a frame the current key opens but the next one does
    not.  After a rekey at time [t] it is still judged exactly as it would have
    been before, replays included, until 5 seconds have passed, and from then
    on it is refused and the retired key destroyed; the window of the new key
    is untouched either way. *)
Theorem rekey_residue (s : Session) (frame key_dst : list Z) (t now : Z)
  (h : Frame.MeshFrameHeader) (p : list Z) (e : AeadError)
  (Hold : Frame.open_frame frame key_dst (rx_key (keys s)) (salt (keys s)) = Ok (h, p))
  (Hnew : Frame.open_frame frame key_dst (rekey_chain (rx_key (keys s))) (salt (keys s))
          = Err (Frame.Aead e)) :
  let '(res, s') := open (rekey s t) frame key_dst now in
  rx_window s' = Replay.new /\
  if decide (now < t + REKEY_RESIDUE)
  then res = fst (open s frame key_dst now) /\
       (old_window <$> old_rx s' = Some (rx_window (snd (open s frame key_dst now))))
  else res = Err Aead /\ old_rx s' = None.
Proof.
  unfold open, rekey. cbn [keys salt rx_key old_rx]. rewrite Hold, Hnew. cbn [expires_at old_key old_window rx_window].
  destruct (decide (now < t + REKEY_RESIDUE)).
  - rewrite decide_False by lia. rewrite Hold.
    by destruct (Replay.check_and_mark _ _) as [[[] w]|[]|].
  - by rewrite decide_True by lia.
Qed.

Context `{PL : !PrimitiveLaws P}.

(** The buffer-reusing entry point.  On every session, frame and instant the
    in-place opening gives the verdict, header, payload length and next session
    of the allocating one; a delivered payload is in the buffer behind the
    header, and every byte after it is as it was. *)
Theorem session_open_in_place_equiv (s : Session) (frame key_dst : list Z) (now : Z) :
  let '(res, s') := open s frame key_dst now in
  let '(res', frame', s'') := open_in_place s frame key_dst now in
  s'' = s' /\
  match res with
  | Ok (h, p) => res' = Ok (h, length p) /\
      frame' = take Frame.HEADER_LEN frame ++ p ++ drop (Frame.HEADER_LEN + length p) frame
  | Err e => res' = Err e
  | Panic => res' = Panic
  end.
Proof.
  unfold open, open_in_place.
  pose proof (Frame.open_frame_in_place_equiv frame key_dst (rx_key (keys s)) (salt (keys s))) as H.
  destruct (Frame.open_frame_in_place _ _ _ _) as [[[h p] f]|e|]; [| |done].
  { destruct H as [-> ->]. by destruct (Replay.check_and_mark _ _) as [[[] w]|[]|]. }
  rewrite H. destruct e; try done. destruct (old_rx s) as [o|]; [|done].
  destruct (decide _); [done|].
  pose proof (Frame.open_frame_in_place_equiv frame key_dst (old_key o) (salt (keys s))) as H'.
  destruct (Frame.open_frame_in_place frame key_dst (old_key o) _) as [[[h p] f]|e'|]; [| |done].
  - destruct H' as [-> ->]. by destruct (Replay.check_and_mark _ _) as [[[] w]|[]|].
  - by rewrite H'.
Qed.

(** *** Two sessions talking *)

Definition set_seq (q : Z) (h : Frame.MeshFrameHeader) : Frame.MeshFrameHeader :=
  Frame.mk_header (Frame.version h) (Frame.packet_type_ h) (Frame.flags h) (Frame.ttl h)
    (Frame.to_node_id h) (Frame.from_node_id h) q (Frame.len_ h) (Frame.path_id h) (Frame.route_mac_ h).

(** Seals a payload under the next sequence number. *)
Definition seal_next (s : Session) (h : Frame.MeshFrameHeader) (key_dst payload : list Z)
    : outcome AeadError (list Z) * Session :=
  let '(q, s) := next_seq s in
  (Frame.build_frame (set_seq q h) key_dst (tx_key (keys s)) (salt (keys s)) payload, s).

Inductive Action :=
| Transmit (payload : list Z) (hops : nat)
| RekeyBoth (t t' : Z).

(** What the receiver [r] delivers of the payloads the sender [s] seals, each
    frame forwarded over its hops, the ends switching keys in between. *)
Fixpoint transfer (s r : Session) (h : Frame.MeshFrameHeader) (key_dst : list Z) (now : Z)
    (acts : list Action) : list (option (list Z)) :=
  match acts with
  | [] => []
  | RekeyBoth t t' :: acts => transfer (rekey s t) (rekey r t') h key_dst now acts
  | Transmit payload hops :: acts =>
      match seal_next s h key_dst payload with
      | (Ok frame, s) =>
          let '(res, r) := open r (Nat.iter hops Frame.decrement_ttl frame) key_dst now in
          (snd <$> ok res) :: transfer s r h key_dst now acts
      | (_, s) => None :: transfer s r h key_dst now acts
      end
  end.

Definition payloads (acts : list Action) : list (list Z) :=
  omap (fun a => match a with Transmit p _ => Some p | RekeyBoth _ _ => None end) acts.

Definition sendable (a : Action) : Prop :=
  match a with
  | Transmit p _ => bytes p /\ Z.of_nat (length p + TAG_LEN) < 2 ^ 16
  | RekeyBoth _ _ => True
  end.

Lemma paired_rekey s r t t' : paired (keys s) (keys r) -> paired (keys (rekey s t)) (keys (rekey r t')).
Proof. intros (Hs & Ht & Hr). unfold paired. cbn. by rewrite Hs, Ht, Hr. Qed.

Lemma set_seq_ok h q : Frame.header_ok h -> u32 q -> Frame.header_ok (set_seq q h).
Proof. intros [] Hq. by split. Qed.

Lemma transfer_step s r h key_dst now payload hops acts :
  Frame.header_ok h -> Frame.version h = Frame.VERSION ->
  sendable (Transmit payload hops) -> u32 (tx_counter s) ->
  Replay.wf (rx_window r) -> Replay.below (rx_window r) (tx_counter s) ->
  paired (keys s) (keys r) ->
  exists w, Replay.wf w /\ Replay.below w (tx_counter s + 1) /\
    transfer s r h key_dst now (Transmit payload hops :: acts)
    = Some payload :: transfer (snd (next_seq s)) (set_rx r w (old_rx r)) h key_dst now acts.
Proof.
  intros Hh Hv [Hp Hl] Hc Hw Hbe (Hsalt & Htx & _). cbn [transfer].
  unfold seal_next, next_seq. cbn [keys snd].
  destruct (Frame.build_open_hops (set_seq (tx_counter s) h) key_dst (tx_key (keys s)) (salt (keys s))
              payload hops (set_seq_ok _ _ Hh Hc) Hv Hp Hl) as (frame & -> & Ho).
  unfold open. rewrite <- Htx, <- Hsalt, Ho. cbn [Frame.seq Frame.set_ttl Frame.sign Frame.set_mac Frame.set_len set_seq].
  destruct (Replay.check_and_mark_above _ _ Hw Hc Hbe) as (w & -> & Hw' & Hbe').
  by exists w.
Qed.

Lemma below_weaken w a b : a <= b -> Replay.below w a -> Replay.below w b.
Proof. intros Hab [? H]. split; [lia|]. intros x Hx%H. lia. Qed.

(** C2: in-order delivery.  Two well-formed sessions with paired keys: the receiver
    delivers every payload the sender seals, in order and unchanged, over any
    number of hops and with any number of simultaneous key changes in between,
    as long as the 32-bit counter does not overflow. *)
Theorem in_order_delivery (s r : Session) (h : Frame.MeshFrameHeader) (key_dst : list Z) (now : Z)
  (acts : list Action)
  (Hh : Frame.header_ok h) (Hv : Frame.version h = Frame.VERSION) (Ha : Forall sendable acts)
  (Hs : session_wf s) (Hr : session_wf r) (Hp : paired (keys s) (keys r))
  (Hfresh : Replay.below (rx_window r) (tx_counter s))
  (Hmax : tx_counter s + Z.of_nat (length acts) < 2 ^ 32) :
  transfer s r h key_dst now acts = Some <$> payloads acts.
Proof.
  revert s r Hs Hr Hp Hfresh Hmax. induction Ha as [|a acts Ha _ IH]; intros s r Hs Hr Hp Hf Hmax; [done|].
  cbn [length] in Hmax. destruct a as [payload hops|t t'].
  - destruct (transfer_step s r h key_dst now payload hops acts Hh Hv Ha) as (w & Hw & Hb & ->);
      [apply Hs | apply Hr | done..|].
    cbn [payloads omap list_omap fmap list_fmap]. f_equal.
    assert (Hn : wrap 32 (tx_counter s + 1) = tx_counter s + 1).
    { apply wrap_small. pose proof (sw_counter s Hs). uint. }
    apply IH; cbn [next_seq snd tx_counter keys set_rx rx_window]; rewrite ?Hn; try done; [|..|lia].
    + split; [|apply Hs..]. cbn [tx_counter]. rewrite <- Hn. apply wrap_uint. lia.
    + apply set_rx_wf; [done..|apply Hr].
  - cbn [transfer payloads omap list_omap].
    apply IH; [by apply rekey_wf.. | by apply paired_rekey | | cbn; lia].
    apply (below_weaken _ 0); [pose proof (sw_counter s Hs); cbn; uint | apply Replay.new_below].
Qed.

(** *** Sequence numbers and nonces *)

(** The sequence number of the [n]-th frame from now, from 0. *)
Definition nth_seq (s : Session) (n : nat) : Z :=
  fst (next_seq (Nat.iter n (fun s => snd (next_seq s)) s)).

Lemma nth_seq_eq s n : u32 (tx_counter s) -> nth_seq s n = wrap 32 (tx_counter s + Z.of_nat n).
Proof.
  intros Hc. unfold nth_seq. set (next := fun s => snd (next_seq s)).
  change (tx_counter (Nat.iter n next s) = wrap 32 (tx_counter s + Z.of_nat n)).
  induction n as [|n IH].
  - cbn. rewrite Z.add_0_r. by rewrite wrap_small.
  - rewrite Nat.iter_succ. change (wrap 32 (tx_counter (Nat.iter n next s) + 1)
      = wrap 32 (tx_counter s + Z.of_nat (S n))). rewrite IH. unfold wrap.
    rewrite Zplus_mod_idemp_l. f_equal. lia.
Qed.

(** Nonces.  The nonces of the [i]-th and [j]-th frames of a session coincide
    exactly when [i] and [j] are congruent modulo 2^32: no nonce is reused in
    any 2^32 consecutive frames, and the next frame reuses the first one. *)
Theorem nonce_reuse_exact (s : Session) (i j : nat)
  (Hs : session_wf s) (Hsalt : u32 (salt (keys s))) :
  nonce (salt (keys s)) (nth_seq s i) = nonce (salt (keys s)) (nth_seq s j) <->
  Z.of_nat i mod 2 ^ 32 = Z.of_nat j mod 2 ^ 32.
Proof.
  pose proof (sw_counter s Hs) as Hc. rewrite !nth_seq_eq by done.
  assert (Hu : forall z, u64 (wrap 32 z)) by (intros z; apply (uint_weaken 32); [|apply wrap_uint]; lia).
  split.
  - intros H. apply nonce_inj in H as [_ H]; [|done..]. unfold wrap in H.
    apply (f_equal (fun z => (z - tx_counter s) mod 2 ^ 32)) in H.
    rewrite !Zminus_mod_idemp_l in H. revert H. rewrite !Z.add_simpl_l. done.
  - intros H. f_equal. unfold wrap. rewrite <- Zplus_mod_idemp_r, H, Zplus_mod_idemp_r. done.
Qed.

End SessionLaws.

(** ** A concrete Noise *)

Module ToyNoise.
Import Toy.

Record state := mk_state { initiator : bool; prol : list Z; me : list Z; remote : option (list Z); pos : Z }.

Definition both (s : state) : list Z :=
  let them := default [] (remote s) in
  prol s ++ if initiator s then me s ++ them else them ++ me s.

(** A message is the writer's key (not in the first one) and zeros. *)
#[export] Instance toy_noise : NoiseProtocol := {
  hs_state := state;
  noise_error := unit;
  build_initiator _ _ p a := inl (mk_state true p a None 1);
  build_responder _ _ p b := inl (mk_state false p b None 1);
  write_message s _ _ :=
    (inl (if decide (pos s = 1) then replicate 32 0
          else if decide (pos s = 2) then me s ++ replicate 64 0
          else me s ++ replicate 32 0),
     mk_state (initiator s) (prol s) (me s) (remote s) (pos s + 1));
  read_message s m _ :=
    (if decide (pos s <= 3) then inl [] else inr tt,
     mk_state (initiator s) (prol s) (me s)
       (if decide (pos s = 1) then None else Some (take 32 m)) (pos s + 1));
  get_remote_static s := remote s;
  get_handshake_hash s := digest 32 (both s);
  get_raw_split s := (digest 32 (0 :: both s), digest 32 (1 :: both s))
}.

#[export] Instance toy_noise_laws : NoiseLaws toy_noise.
Proof.
  split; [|done]. intros ea eb p a b Ha Hb. unfold xx_run. unfold SESSION_KEY_LEN in *.
  exists (mk_state true p a None 1), (mk_state true p a None 2), (mk_state true p a (Some b) 3),
    (mk_state true p a (Some b) 4), (mk_state false p b None 1), (mk_state false p b None 2),
    (mk_state false p b None 3), (mk_state false p b (Some a) 4),
    (replicate 32 0), (b ++ replicate 64 0), (a ++ replicate 32 0), [], [], [].
  unfold MSG1_BODY_LEN, MSG2_BODY_LEN, MSG3_BODY_LEN.
  split_and!; cbn -[firstn app replicate]; rewrite ?take_app_length' by done; try reflexivity;
    rewrite length_app, length_replicate; lia.
Qed.

End ToyNoise.

Import Toy ToyNoise.

Lemma handshake_agreement_witness :
  exists i r ki kr,
    initiator_new [] (replicate 32 1) 7 1 9 (replicate 64 5) (3, 4) 77 (replicate 32 2) = Ok i /\
    responder_new [] (replicate 32 2) 7 1 9 = Ok r /\
    paired ki kr /\ salt ki = 77 /\
    exchange (fun n _ _ _ _ => bool_decide (n = 8)) i r 8 = Ok (ki, kr).
Proof.
  destruct (handshake_agreement (fun n _ _ _ _ => bool_decide (n = 8)) [] [] (replicate 32 1)
           (replicate 32 2) 7 1 9 9 8 (replicate 64 5) 3 4 77 (replicate 32 2))
    as (i & r & ki & kr & Hi & Hr & Hp & Hs & He);
    [reflexivity | reflexivity | reflexivity | split; vm_compute; congruence.. |].
  exists i, r, ki, kr. refine (conj Hi (conj Hr (conj Hp (conj Hs (eq_trans He _))))).
  do 2 (destruct (decide _) as [n|_]; [by destruct n|]). reflexivity.
Defined.

Lemma responder_discipline_witness :
  exists r, responder_new [] (replicate 32 2) 7 1 9 = Ok r /\
    disciplined (fun n _ _ _ _ => bool_decide (n = 8)) 9 0
      (rrun (fun n _ _ _ _ => bool_decide (n = 8)) r
        [CallMsg2; CallMsg1 (be_bytes 4 9 ++ replicate 32 0); CallMsg1 []; CallMsg2;
         CallMsg3 (replicate 148 1) 8]).
Proof.
  eexists. split; [reflexivity|].
  apply (responder_discipline (fun n _ _ _ _ => bool_decide (n = 8)) [] (replicate 32 2) 7 1 9).
  reflexivity.
Defined.

(** The responder of the last witness does hand out keys at the end. *)
Example responder_keys :
  match rrun (fun n _ _ _ _ => bool_decide (n = 8))
          (mk_responder (mk_state false (prologue 7 1) (replicate 32 2) None 1) 9 false false)
          [CallMsg2; CallMsg1 (be_bytes 4 9 ++ replicate 32 0); CallMsg1 []; CallMsg2;
           CallMsg3 (replicate 148 1) 8] with
  | [Failed WrongStep; Got1 _; Failed WrongStep; Sent2 _; Keyed _ 8 _ _] => True
  | _ => False
  end.
Proof. vm_compute. exact I. Qed.

(** *** Witnesses on sessions *)

Definition sample_keys : SessionKeys := mk_keys 77 (replicate 32 1) (replicate 32 2).
Definition sample_peer_keys : SessionKeys := mk_keys 77 (replicate 32 2) (replicate 32 1).

Definition sample_frame : list Z :=
  default [] (ok (Frame.build_frame Frame.sample_header (replicate 32 3) (replicate 32 1) 77 [65; 66])).

Lemma sample_frame_bytes : bytes sample_frame.
Proof. vm_compute. fall. all: split; congruence. Qed.

Lemma session_open_sound_witness :
  let s := session_new 9 sample_peer_keys in
  exists h s', open s sample_frame (replicate 32 3) 0 = (Ok (h, [65; 66]), s') /\ session_wf s'.
Proof.
  pose proof (session_open_sound (session_new 9 sample_peer_keys) sample_frame (replicate 32 3) 0
    (session_new_wf _ _) sample_frame_bytes) as H.
  cbv zeta. destruct (open _ _ _ _) as [res s'] eqn:E. destruct H as (Hw & _).
  assert (R : snd <$> ok res = Some [65; 66]).
  { change res with (fst (res, s')). rewrite <- E. vm_compute. reflexivity. }
  destruct res as [[h p]| |]; try discriminate R. cbn in R. injection R as ->.
  exists h, s'. split; [reflexivity | exact Hw].
Defined.

Lemma rekey_residue_witness :
  let s := session_new 9 sample_peer_keys in
  let '(res, s') := open (rekey s 100) sample_frame (replicate 32 3) 200 in
  rx_window s' = Replay.new /\
  if decide (200 < 100 + REKEY_RESIDUE)
  then res = fst (open s sample_frame (replicate 32 3) 200) /\
       (old_window <$> old_rx s' = Some (rx_window (snd (open s sample_frame (replicate 32 3) 200))))
  else res = Err Aead /\ old_rx s' = None.
Proof.
  eapply (rekey_residue (session_new 9 sample_peer_keys) sample_frame (replicate 32 3) 100 200);
    vm_compute; reflexivity.
Defined.

Lemma session_open_in_place_equiv_witness :
  let s := session_new 9 sample_peer_keys in
  let '(res, s') := open s sample_frame (replicate 32 3) 0 in
  let '(res', frame', s'') := open_in_place s sample_frame (replicate 32 3) 0 in
  s'' = s' /\
  match res with
  | Ok (h, p) => res' = Ok (h, length p) /\
      frame' = take Frame.HEADER_LEN sample_frame ++ p ++ drop (Frame.HEADER_LEN + length p) sample_frame
  | Err e => res' = Err e
  | Panic => res' = Panic
  end.
Proof. apply (session_open_in_place_equiv (session_new 9 sample_peer_keys) sample_frame (replicate 32 3) 0). Defined.

Lemma in_order_delivery_witness :
  transfer (session_new 8 sample_keys) (session_new 9 sample_peer_keys) Frame.sample_header
    (replicate 32 3) 0 [Transmit [65] 2; RekeyBoth 5 6; Transmit [66; 67] 0]
  = [Some [65]; Some [66; 67]].
Proof.
  apply (in_order_delivery (session_new 8 sample_keys) (session_new 9 sample_peer_keys)
           Frame.sample_header (replicate 32 3) 0 [Transmit [65] 2; RekeyBoth 5 6; Transmit [66; 67] 0]);
    [exact Frame.sample_header_ok | reflexivity | | apply session_new_wf | apply session_new_wf
    | done | exact Replay.new_below | reflexivity].
  fall; (split; [fall; split; vm_compute; congruence | reflexivity]).
Defined.

Lemma nonce_reuse_exact_witness :
  nonce 77 (nth_seq (session_new 8 sample_keys) 3) <> nonce 77 (nth_seq (session_new 8 sample_keys) 4).
Proof.
  intros H%(nonce_reuse_exact (session_new 8 sample_keys) 3 4 (session_new_wf _ _));
    [vm_compute in H; discriminate H|].
  split; vm_compute; congruence.
Defined.

End Handshake.
