(* ===== verification/Probe.v ===== *)
(** * Reachability probes and event counters (rill-core/src/probe.rs, rate.rs)

    The 17-byte probe header with its optional payload, requests and their
    answers; the periodic event counter of the rate module.  Instants are
    nanoseconds.  The token buckets of the rate module compute with floats and
    are not modelled. *)

From S2P Require Import Prelude.

Module Probe.

Definition PROBE_MAGIC : list Z := str_bytes "LPRB".
Definition PROBE_HEADER_LEN : nat := 17.
Definition PROBE_PAYLOAD_MAX : nat := 128.
Definition PING : Z := 1.
Definition PONG : Z := 2.

Record ProbePacket := mk_probe {
  packet_type : Z;
  from_node_id : Z;
  to_node_id : Z;
  nonce : Z;
  payload : list Z
}.

Definition ping (from to nonce : Z) : ProbePacket := mk_probe PING from to nonce [].

Definition pong (p : ProbePacket) (payload : list Z) : ProbePacket :=
  mk_probe PONG (to_node_id p) (from_node_id p) (nonce p) payload.

Definition encode (p : ProbePacket) : list Z :=
  PROBE_MAGIC ++ [packet_type p] ++ be_bytes 4 (from_node_id p) ++ be_bytes 4 (to_node_id p)
    ++ be_bytes 4 (nonce p) ++ payload p.

Definition parse_header (buf : list Z) : option (Z * Z * Z * Z) :=
  if decide (length buf < PROBE_HEADER_LEN)%nat then None
  else if decide (take 4 buf <> PROBE_MAGIC) then None
  else Some (be_val (take 1 (drop 4 buf)), be_val (take 4 (drop 5 buf)),
             be_val (take 4 (drop 9 buf)), be_val (take 4 (drop 13 buf))).

Definition decode (buf : list Z) : option ProbePacket :=
  '(ty, from, to, n) ← parse_header buf;
  let body := drop PROBE_HEADER_LEN buf in
  if decide (PROBE_PAYLOAD_MAX < length body)%nat then None
  else Some (mk_probe ty from to n body).

Record probe_ok (p : ProbePacket) : Prop := {
  pk_type : u8 (packet_type p);
  pk_from : u32 (from_node_id p);
  pk_to : u32 (to_node_id p);
  pk_nonce : u32 (nonce p)
}.

(** The decoder takes back every packet with a payload of at most 128 bytes and
    refuses a longer one. *)
Theorem probe_packet_roundtrip (p : ProbePacket) (Hp : probe_ok p) :
  decode (encode p)
  = if decide (length (payload p) <= PROBE_PAYLOAD_MAX)%nat then Some p else None.
Proof.
  destruct p as [ty from to n body], Hp as [Ht Hf Hto Hn]. cbn in *. unfold decode, parse_header, encode.
  set (f := be_bytes 4 from). set (t := be_bytes 4 to). set (k := be_bytes 4 n). cbn [packet_type payload].
  assert (Hlf : length f = 4%nat) by (unfold f; len). assert (Hlt : length t = 4%nat) by (unfold t; len).
  assert (Hlk : length k = 4%nat) by (unfold k; len).
  assert (Ef : be_val f = from) by by apply (be_val_be_bytes 4).
  assert (Et : be_val t = to) by by apply (be_val_be_bytes 4).
  assert (Ek : be_val k = n) by by apply (be_val_be_bytes 4).
  clearbody f t k. explode Hlf. explode Hlt. explode Hlk.
  unfold PROBE_HEADER_LEN, PROBE_PAYLOAD_MAX, PROBE_MAGIC in *. cbn -[be_val decide].
  rewrite decide_False by lia. rewrite decide_False by auto. cbn -[be_val decide].
  rewrite ?take_0, ?drop_0, be_val_singleton, Ef, Et, Ek. destruct (decide (length body <= 128)%nat).
  - by rewrite decide_False by lia.
  - by rewrite decide_True by lia.
Qed.

(** The answer to a request goes back to its sender with the same nonce. *)
Lemma pong_matches p body :
  from_node_id (pong p body) = to_node_id p /\ to_node_id (pong p body) = from_node_id p /\
  nonce (pong p body) = nonce p.
Proof. done. Qed.

End Probe.

Module Rate.

Record RateCounter := mk_counter { period : Z; window_start : Z; count : Z }.

Definition new (period now : Z) : RateCounter := mk_counter period now 0.

Definition tick (r : RateCounter) : RateCounter :=
  mk_counter (period r) (window_start r) (count r + 1).

(** [duration_since] saturates at zero. *)
Definition poll (r : RateCounter) (now : Z) : option Z * RateCounter :=
  if decide (sat_sub now (window_start r) < period r) then (None, r)
  else (Some (count r), mk_counter (period r) now 0).

Definition has_pending (r : RateCounter) : bool := bool_decide (0 < count r).

Inductive Op := Tick | Poll (now : Z).

(** The summaries a sequence of events and polls gives, with their instants. *)
Fixpoint run (r : RateCounter) (os : list Op) : list (Z * Z) * RateCounter :=
  match os with
  | [] => ([], r)
  | Tick :: os => run (tick r) os
  | Poll now :: os =>
      match poll r now with
      | (Some c, r) => let '(l, r) := run r os in ((now, c) :: l, r)
      | (None, r) => run r os
      end
  end.

Definition ticks (os : list Op) : Z :=
  Z.of_nat (length (List.filter (fun o => match o with Tick => true | _ => false end) os)).

Fixpoint spaced (p t : Z) (l : list (Z * Z)) : Prop :=
  match l with
  | [] => True
  | (u, _) :: l => p <= sat_sub u t /\ spaced p u l
  end.

(** No event is lost or counted twice, and any two summaries are at least a
    period apart. *)
Theorem summaries_exact (r : RateCounter) (os : list Op) :
  let '(l, r') := run r os in
  foldr Z.add 0 (snd <$> l) + count r' = count r + ticks os /\ spaced (period r) (window_start r) l.
Proof.
  revert r. induction os as [|[|now] os IH]; intros r; cbn [run].
  - cbn. unfold ticks. cbn. lia.
  - specialize (IH (tick r)). destruct (run (tick r) os) as [l r'].
    destruct IH as [IH Hs]. split; [|exact Hs]. rewrite IH. unfold ticks. cbn. lia.
  - assert (Ht : ticks (Poll now :: os) = ticks os) by done. rewrite Ht.
    unfold poll. destruct (decide _) as [Hd|Hd].
    + apply IH.
    + specialize (IH (mk_counter (period r) now 0)).
      destruct (run (mk_counter (period r) now 0) os) as [l r']. destruct IH as [IH Hs].
      cbn in *. split; [lia|]. split; [lia|done].
Qed.

End Rate.
