(* ===== verification/Net.v ===== *)
(** * Addresses and numbers as text

    What the program uses of the Rust standard library for text: decimal
    [FromStr] for unsigned integers, [split_once], and the parser and printer of
    [std::net::IpAddr].  Octets are big-endian byte lists. *)

From S2P Require Import Prelude.
From Stdlib Require Import Ascii.

#[local] Arguments String.append : simpl nomatch.

Module Net.

Inductive IpAddr :=
| V4 (octets : list Z)     (* 4 *)
| V6 (octets : list Z).    (* 16 *)

#[export] Instance IpAddr_eq_dec : EqDecision IpAddr.
Proof. solve_decision. Defined.

Definition ip_ok (a : IpAddr) : Prop :=
  match a with
  | V4 o => length o = 4%nat /\ bytes o
  | V6 o => length o = 16%nat /\ bytes o
  end.

Definition is_ipv4 (a : IpAddr) : bool := match a with V4 _ => true | V6 _ => false end.

(** ** Characters and digits *)

Definition code (c : ascii) : Z := Z.of_nat (nat_of_ascii c).

Definition to_digit (radix : Z) (c : ascii) : option Z :=
  let n := code c in
  let d :=
    if decide (48 <= n <= 57) then Some (n - 48)
    else if decide (97 <= n <= 122) then Some (n - 87)
    else if decide (65 <= n <= 90) then Some (n - 55)
    else None in
  match d with
  | Some d => if decide (d < radix) then Some d else None
  | None => None
  end.

Definition digit_char (d : Z) : ascii :=
  ascii_of_nat (Z.to_nat (if decide (d < 10) then d + 48 else d + 87)).

(** The digits of [z], most significant first, prepended to [acc]. *)
Fixpoint show_digits (fuel : nat) (radix z : Z) (acc : string) : string :=
  match fuel with
  | O => acc
  | S fuel =>
      let acc := String (digit_char (z mod radix)) acc in
      if decide (z / radix = 0) then acc else show_digits fuel radix (z / radix) acc
  end.

(** [Display] of an unsigned integer and [LowerHex] of a group; 64 digits are
    enough for every integer type. *)
Definition dec (z : Z) : string := show_digits 64 10 z EmptyString.
Definition hex (z : Z) : string := show_digits 64 16 z EmptyString.

(** [str::split_once]. *)
Fixpoint split_once (sep : ascii) (s : string) : option (string * string) :=
  match s with
  | EmptyString => None
  | String c s =>
      if decide (c = sep) then Some (EmptyString, s)
      else '(a, b) ← split_once sep s; Some (String c a, b)
  end.

(** [str::rsplit_once]. *)
Fixpoint rsplit_once (sep : ascii) (s : string) : option (string * string) :=
  match s with
  | EmptyString => None
  | String c s =>
      match rsplit_once sep s with
      | Some (a, b) => Some (String c a, b)
      | None => if decide (c = sep) then Some (EmptyString, s) else None
      end
  end.

(** [str::split]. *)
Fixpoint split (sep : ascii) (s : string) : list string :=
  match s with
  | EmptyString => [EmptyString]
  | String c s =>
      match split sep s with
      | [] => []
      | x :: l => if decide (c = sep) then EmptyString :: x :: l else String c x :: l
      end
  end.

(** [FromStr] for the unsigned type with maximum [max]. *)
Fixpoint parse_digits (max result : Z) (s : string) : option Z :=
  match s with
  | EmptyString => Some result
  | String c s =>
      d ← to_digit 10 c;
      if decide (result * 10 + d <= max) then parse_digits max (result * 10 + d) s else None
  end.

Definition parse_uint (max : Z) (s : string) : option Z :=
  match s with
  | EmptyString => None
  | String c s' =>
      if decide (c = "+"%char) then
        match s' with EmptyString => None | _ => parse_digits max 0 s' end
      else parse_digits max 0 s
  end.

(** ** The address parser

    A parser takes the remaining input and returns a value and what is left, or
    [None], in which case the caller goes on with its own input
    ([read_atomically]). *)

Definition parser (A : Type) : Type := string -> option (A * string).

Definition read_given_char (c : ascii) : parser unit := fun s =>
  match s with
  | String c' s => if decide (c = c') then Some (tt, s) else None
  | EmptyString => None
  end.

Fixpoint read_digits (radix max : Z) (max_digits : nat) (result : Z) (count : nat) (s : string)
    : option (Z * nat * string) :=
  match s with
  | EmptyString => Some (result, count, s)
  | String c s' =>
      match to_digit radix c with
      | None => Some (result, count, s)
      | Some d =>
          if decide (result * radix + d <= max) then
            if decide (max_digits < S count)%nat then None
            else read_digits radix max max_digits (result * radix + d) (S count) s'
          else None
      end
  end.

Definition starts_with_zero (s : string) : bool :=
  match s with String c _ => bool_decide (c = "0"%char) | EmptyString => false end.

Definition read_number (radix max : Z) (max_digits : nat) (allow_zero_prefix : bool) : parser Z := fun s =>
  '(result, count, s') ← read_digits radix max max_digits 0 0 s;
  if decide (count = 0%nat) then None
  else if negb allow_zero_prefix && starts_with_zero s && bool_decide (1 < count)%nat then None
  else Some (result, s').

Definition read_separator {A} (sep : ascii) (index : nat) (inner : parser A) : parser A := fun s =>
  match index with
  | O => inner s
  | S _ => '(_, s) ← read_given_char sep s; inner s
  end.

Definition read_octet : parser Z := read_number 10 255 3 false.

Definition read_ipv4_addr : parser (list Z) := fun s =>
  '(a, s) ← read_separator "." 0 read_octet s;
  '(b, s) ← read_separator "." 1 read_octet s;
  '(c, s) ← read_separator "." 2 read_octet s;
  '(d, s) ← read_separator "." 3 read_octet s;
  Some ([a; b; c; d], s).

(** [read_groups] over [n] remaining slots, the first of them having index [i]:
    the groups read (an embedded IPv4 address counts for two and ends the run),
    whether it ended in an IPv4 address, and the rest. *)
Fixpoint read_groups (n i : nat) (s : string) : list Z * bool * string :=
  match n with
  | O => ([], false, s)
  | S n' =>
      match (if decide (1 < n)%nat then read_separator ":" i read_ipv4_addr s else None) with
      | Some (o, s) => ([be_val (take 2 o); be_val (drop 2 o)], true, s)
      | None =>
          match read_separator ":" i (read_number 16 65535 4 true) s with
          | Some (g, s) => let '(gs, v4, s) := read_groups n' (S i) s in (g :: gs, v4, s)
          | None => ([], false, s)
          end
      end
  end.

Definition segments_octets (gs : list Z) : list Z := mjoin (be_bytes 2 <$> gs).

Definition read_ipv6_addr : parser (list Z) := fun s =>
  let '(head, head_ipv4, s) := read_groups 8 0 s in
  if decide (length head = 8%nat) then Some (segments_octets head, s)
  else if (head_ipv4 : bool) then None
  else
    '(_, s) ← read_given_char ":" s;
    '(_, s) ← read_given_char ":" s;
    let '(tail, _, s) := read_groups (8 - (length head + 1)) 0 s in
    Some (segments_octets (head ++ replicate (8 - length head - length tail) 0 ++ tail), s).

Definition parse_ip (s : string) : option IpAddr :=
  '(a, rest) ← match read_ipv4_addr s with
               | Some (o, rest) => Some (V4 o, rest)
               | None => '(o, rest) ← read_ipv6_addr s; Some (V6 o, rest)
               end;
  match rest with EmptyString => Some a | _ => None end.

(** [SocketAddr::from_str].  A scope after an IPv6 address is read and dropped. *)
Definition read_port : parser Z := fun s =>
  '(_, s) ← read_given_char ":" s;
  read_number 10 65535 (String.length s) true s.

Definition read_scope : parser unit := fun s =>
  match read_given_char "%" s with
  | Some (_, s') =>
      match read_number 10 (2 ^ 32 - 1) (String.length s') true s' with
      | Some (_, s'') => Some (tt, s'')
      | None => Some (tt, s)
      end
  | None => Some (tt, s)
  end.

Definition parse_socket (s : string) : option (IpAddr * Z) :=
  let v4 := '(o, s) ← read_ipv4_addr s; '(p, s) ← read_port s; Some ((V4 o, p), s) in
  let v6 :=
    '(_, s) ← read_given_char "[" s;
    '(o, s) ← read_ipv6_addr s;
    '(_, s) ← read_scope s;
    '(_, s) ← read_given_char "]" s;
    '(p, s) ← read_port s;
    Some ((V6 o, p), s) in
  '(a, rest) ← match v4 with Some x => Some x | None => v6 end;
  match rest with EmptyString => Some a | _ => None end.

(** ** The address printer *)

Definition join (sep : string) (l : list string) : string :=
  match l with
  | [] => EmptyString
  | x :: l => foldl (fun acc y => acc +:+ sep +:+ y) x l
  end.

Definition show_ipv4 (o : list Z) : string := join "." (dec <$> o).

Fixpoint segments (o : list Z) : list Z :=
  match o with
  | a :: b :: o => a * 256 + b :: segments o
  | _ => []
  end.

(** The first longest run of zero segments, as (start, length). *)
Fixpoint zero_run (i : nat) (cur best : nat * nat) (l : list Z) : nat * nat :=
  match l with
  | [] => best
  | x :: l =>
      if decide (x = 0) then
        let cur := (if decide (cur.2 = 0%nat) then i else cur.1, S cur.2) in
        zero_run (S i) cur (if decide (best.2 < cur.2)%nat then cur else best) l
      else zero_run (S i) (0%nat, 0%nat) best l
  end.

Definition show_ipv6 (o : list Z) : string :=
  if decide (take 12 o = replicate 10 0 ++ [255; 255]) then "::ffff:" +:+ show_ipv4 (drop 12 o)
  else
    let segs := segments o in
    let '(start, n) := zero_run 0 (0%nat, 0%nat) (0%nat, 0%nat) segs in
    if decide (1 < n)%nat
    then join ":" (hex <$> take start segs) +:+ "::" +:+ join ":" (hex <$> drop (start + n) segs)
    else join ":" (hex <$> segs).

Definition show_ip (a : IpAddr) : string :=
  match a with V4 o => show_ipv4 o | V6 o => show_ipv6 o end.

Example show_parse_1 : parse_ip "fd00::1:0:0:2" = Some (V6 [253;0;0;0;0;0;0;0;0;1;0;0;0;0;0;2]).
Proof. vm_compute. reflexivity. Qed.
Example show_parse_2 : show_ip (V6 [253;0;0;0;0;0;0;0;0;1;0;0;0;0;0;2]) = "fd00::1:0:0:2".
Proof. vm_compute. reflexivity. Qed.
Example parse_socket_1 : (parse_socket "10.0.0.1:443", parse_socket "[fd00::1]:0080", parse_socket "10.0.0.1", parse_socket "1.2.3.4:65536") =
  (Some (V4 [10; 0; 0; 1], 443), Some (V6 [253; 0; 0; 0; 0; 0; 0; 0; 0; 0; 0; 0; 0; 0; 0; 1], 80), None, None).
Proof. vm_compute. reflexivity. Qed.

Example show_parse_3 : parse_ip "::ffff:10.0.0.1" = Some (V6 [0;0;0;0;0;0;0;0;0;0;255;255;10;0;0;1]).
Proof. vm_compute. reflexivity. Qed.

(** ** Round trips for octets and IPv4 *)

Definition octets_all (P : Z -> bool) : bool := forallb (fun n => P (Z.of_nat n)) (seq 0 256).

Lemma octets_all_spec P n : octets_all P = true -> u8 n -> P n = true.
Proof.
  unfold octets_all. rewrite forallb_forall. intros H Hn.
  rewrite <- (Z2Nat.id n) by apply Hn. apply H, in_seq. uint.
Qed.

Definition no_digit (radix : Z) (s : string) : Prop :=
  match s with String c _ => to_digit radix c = None | EmptyString => True end.

Fixpoint no_char (c : ascii) (s : string) : bool :=
  match s with
  | EmptyString => true
  | String c' s => negb (bool_decide (c' = c)) && no_char c s
  end.

Lemma no_char_app c a b : no_char c (a +:+ b) = no_char c a && no_char c b.
Proof. induction a as [|x a IH]; cbn [no_char String.append]; [done|]. by rewrite IH, andb_assoc. Qed.

Lemma split_once_app c a b : no_char c a = true -> split_once c (a +:+ String c b) = Some (a, b).
Proof.
  induction a as [|x a IH]; cbn [no_char split_once String.append]; intros H; [by rewrite decide_True|].
  apply andb_true_iff in H as [Hx Ha]. apply negb_true_iff, bool_decide_eq_false in Hx.
  rewrite decide_False by done. by rewrite IH.
Qed.

Lemma read_digits_app radix max md s rest r c v n :
  no_digit radix rest ->
  read_digits radix max md r c s = Some (v, n, EmptyString) ->
  read_digits radix max md r c (s +:+ rest) = Some (v, n, rest).
Proof.
  intros Hr. revert r c. induction s as [|x s IH]; intros r c; cbn [read_digits String.append].
  - intros [= -> ->]. destruct rest as [|y rest]; cbn in *; [done|]. by rewrite Hr.
  - destruct (to_digit radix x); [|done]. repeat case_decide; try done. apply IH.
Qed.

Lemma read_number_app radix max md z s rest v :
  no_digit radix rest ->
  read_number radix max md z s = Some (v, EmptyString) ->
  read_number radix max md z (s +:+ rest) = Some (v, rest).
Proof.
  unfold read_number. intros Hr H.
  destruct (read_digits radix max md 0 0 s) as [[[r c] s']|] eqn:E; [|done]. step in H.
  assert (s' = EmptyString) as ->.
  { destruct (decide (c = 0%nat)); [done|]. by destruct (_ && _ && _); simplify_eq. }
  rewrite (read_digits_app _ _ _ _ _ _ _ _ _ Hr E). step.
  destruct (decide (c = 0%nat)); [done|].
  assert (starts_with_zero (s +:+ rest) = starts_with_zero s) as ->.
  { destruct s; [|done]. cbn in E. by simplify_eq. }
  by destruct (_ && _ && _); simplify_eq.
Qed.

Definition octet_ok (n : Z) : bool :=
  bool_decide (read_octet (dec n) = Some (n, EmptyString)) &&
  bool_decide (parse_uint 255 (dec n) = Some n) && no_char "/" (dec n).

Lemma octets_ok n : u8 n -> octet_ok n = true.
Proof. apply octets_all_spec. vm_compute. reflexivity. Qed.

Lemma octet_facts n : u8 n ->
  read_octet (dec n) = Some (n, EmptyString) /\ parse_uint 255 (dec n) = Some n /\
  no_char "/" (dec n) = true.
Proof.
  intros H%octets_ok. unfold octet_ok in H. rewrite !andb_true_iff, !bool_decide_eq_true in H. tauto.
Qed.

Lemma read_octet_dec n rest : u8 n -> no_digit 10 rest ->
  read_octet (dec n +:+ rest) = Some (n, rest).
Proof. intros Hn Hr. apply read_number_app; [done|]. by apply octet_facts. Qed.

Lemma str_app_assoc (a b c : string) : (a +:+ b) +:+ c = a +:+ b +:+ c.
Proof. induction a as [|x a IH]; cbn [String.append]; congruence. Qed.

Lemma show_ipv4_app a b c d rest :
  show_ipv4 [a; b; c; d] +:+ rest = dec a +:+ "." +:+ dec b +:+ "." +:+ dec c +:+ "." +:+ dec d +:+ rest.
Proof. unfold show_ipv4. cbn [fmap list_fmap join foldl]. by rewrite !str_app_assoc. Qed.

Lemma read_show_ipv4 o rest : length o = 4%nat -> bytes o -> no_digit 10 rest ->
  read_ipv4_addr (show_ipv4 o +:+ rest) = Some (o, rest).
Proof.
  intros Hl Hb Hr. explode Hl. do 4 (apply Forall_cons_1 in Hb as [? Hb]).
  rewrite show_ipv4_app. unfold read_ipv4_addr, read_separator.
  rewrite read_octet_dec by done. step. cbn [read_given_char String.append].
  rewrite decide_True by done. step. rewrite read_octet_dec by done. step. cbn [read_given_char String.append].
  rewrite decide_True by done. step. rewrite read_octet_dec by done. step. cbn [read_given_char String.append].
  rewrite decide_True by done. step. by rewrite read_octet_dec.
Qed.

Lemma no_slash_ipv4 o : length o = 4%nat -> bytes o -> no_char "/" (show_ipv4 o) = true.
Proof.
  intros Hl Hb. explode Hl. do 4 (apply Forall_cons_1 in Hb as [?%octet_facts Hb]; destruct_and!).
  unfold show_ipv4. cbn [fmap list_fmap join foldl]. rewrite !no_char_app. by rewrite !andb_true_iff.
Qed.

Lemma str_app_nil (a : string) : a +:+ EmptyString = a.
Proof. induction a as [|x a IH]; cbn [String.append]; congruence. Qed.

Lemma parse_show_ipv4 o : length o = 4%nat -> bytes o -> parse_ip (show_ipv4 o) = Some (V4 o).
Proof.
  intros Hl Hb. unfold parse_ip. rewrite <- (str_app_nil (show_ipv4 o)).
  by rewrite read_show_ipv4.
Qed.

(** ** Parsed addresses are well formed *)

Lemma to_digit_bound radix c d : to_digit radix c = Some d -> 0 <= d < radix.
Proof. unfold to_digit. repeat case_decide; intros; simplify_eq; lia. Qed.

Lemma read_digits_bound radix max md s : 0 <= max -> forall r c v n s',
  0 <= r <= max -> read_digits radix max md r c s = Some (v, n, s') -> 0 <= v <= max.
Proof.
  intros Hm. induction s as [|x s IH]; intros r c v n s' Hr; cbn [read_digits].
  - by intros [= <- <- <-].
  - destruct (to_digit radix x) as [d|] eqn:Ed; [|by intros [= <- <- <-]].
    apply to_digit_bound in Ed. repeat case_decide; try done. apply IH. nia.
Qed.

Lemma read_number_bound radix max md z s v s' : 0 <= max ->
  read_number radix max md z s = Some (v, s') -> 0 <= v <= max.
Proof.
  unfold read_number. intros Hm H.
  destruct (read_digits radix max md 0 0 s) as [[[r c] t]|] eqn:E; [|done]. step in H.
  case_decide; [done|]. destruct (_ && _ && _); simplify_eq.
  eapply read_digits_bound; [done| |done]. lia.
Qed.

Lemma read_separator_inv {A} sep i (p : parser A) s v s' :
  read_separator sep i p s = Some (v, s') -> exists t, p t = Some (v, s').
Proof.
  unfold read_separator. destruct i; [eauto|].
  destruct (read_given_char sep s) as [[[] t]|]; [|done]. step. eauto.
Qed.

Lemma read_ipv4_ok s o s' : read_ipv4_addr s = Some (o, s') -> length o = 4%nat /\ bytes o.
Proof.
  unfold read_ipv4_addr. intros H.
  repeat match goal with
  | H : (read_separator _ _ _ ?t ≫= _) = Some _ |- _ =>
      let E := fresh "E" in
      destruct (read_separator _ _ _ t) as [[? ?]|] eqn:E; [|discriminate H]; step in H;
      apply read_separator_inv in E as [? E]; apply read_number_bound in E; [|lia]
  end.
  simplify_eq. split; [done|]. fall; uint.
Qed.

Lemma read_groups_ok n : forall i s gs v4 s', read_groups n i s = (gs, v4, s') ->
  (length gs <= n)%nat /\ Forall u16 gs.
Proof.
  induction n as [|n IH]; intros i s gs b s'; cbn [read_groups].
  { intros [= <- <- <-]. cbn. split; [lia|fall]. }
  assert (Hgroup : match read_separator ":" i (read_number 16 65535 4 true) s with
                   | Some (g, t) => let '(gs, v4, t) := read_groups n (S i) t in (g :: gs, v4, t)
                   | None => ([], false, s)
                   end = (gs, b, s') -> (length gs <= S n)%nat /\ Forall u16 gs).
  { destruct (read_separator ":" i _ s) as [[g t]|] eqn:Eg.
    - destruct (read_groups n (S i) t) as [[gs' b'] t'] eqn:E. intros; simplify_eq.
      apply IH in E as [Hl Hg]. apply read_separator_inv in Eg as [? Hb%read_number_bound]; [|lia].
      split; [cbn; lia|]. fall. uint.
    - intros [= <- <- <-]. cbn. split; [lia|fall]. }
  case_decide as Hn; [|exact Hgroup].
  destruct (read_separator ":" i read_ipv4_addr s) as [[o t]|] eqn:E4; [|exact Hgroup].
  intros [= <- <- <-]. apply read_separator_inv in E4 as [? [Hl Hb]%read_ipv4_ok]. split; [cbn; lia|].
  fall; apply (be_val_bound 2); auto with rill; len.
Qed.

Lemma segments_octets_ok gs :
  length (segments_octets gs) = (2 * length gs)%nat /\ bytes (segments_octets gs).
Proof.
  induction gs as [|g gs [IH1 IH2]]; [split; [done|fall]|]. cbn [segments_octets fmap list_fmap mjoin].
  split; [|apply bytes_app; split; [auto with rill | exact IH2]].
  unfold segments_octets in IH1. cbn. cbn in IH1. rewrite length_app, IH1. len.
Qed.

Lemma read_ipv6_ok s o s' : read_ipv6_addr s = Some (o, s') -> length o = 16%nat /\ bytes o.
Proof.
  unfold read_ipv6_addr. destruct (read_groups 8 0 s) as [[h b] t] eqn:Eh.
  apply read_groups_ok in Eh as [Hl _]. case_decide as H8.
  { intros [= <- <-]. destruct (segments_octets_ok h) as [E ?]. rewrite E. split; [lia|done]. }
  destruct b; [done|]. destruct (read_given_char ":" t) as [[? t1]|]; [|done]. step.
  destruct (read_given_char ":" t1) as [[? t2]|]; [|done]. step.
  destruct (read_groups _ 0 t2) as [[tl b'] t3] eqn:Et. apply read_groups_ok in Et as [Ht _].
  intros [= <- <-]. destruct (segments_octets_ok (h ++ replicate (8 - length h - length tl) 0 ++ tl)) as [E ?].
  rewrite E. split; [len|done].
Qed.

Lemma parse_ip_ok s a : parse_ip s = Some a -> ip_ok a.
Proof.
  unfold parse_ip. intros H. destruct (read_ipv4_addr s) as [[o rest]|] eqn:E4.
  - step in H. destruct rest; simplify_eq. by eapply read_ipv4_ok.
  - destruct (read_ipv6_addr s) as [[o rest]|] eqn:E6; [|done]. step in H.
    destruct rest; simplify_eq. by eapply read_ipv6_ok.
Qed.

Lemma parse_digits_bound max s r v : 0 <= r -> parse_digits max r s = Some v -> 0 <= v.
Proof.
  revert r. induction s as [|c s IH]; intros r Hr; cbn [parse_digits]; [by intros [= <-]|].
  destruct (to_digit 10 c) as [d|] eqn:E; [|done]. apply to_digit_bound in E. step.
  case_decide; [|done]. apply IH. lia.
Qed.

Lemma parse_uint_nonneg max s v : parse_uint max s = Some v -> 0 <= v.
Proof.
  destruct s as [|c s]; [done|]. cbn [parse_uint]. case_decide; [destruct s; [done|]|];
    apply parse_digits_bound; lia.
Qed.

End Net.
