(* ===== verification/Mesh.v ===== *)
(** * Mesh data plane (rill-mesh/src/data)

    The tables of a node and its handlers: sending along a hop (session.rs),
    path choice and liveness (paths.rs), path statistics (path_stats.rs),
    forwarding (relay.rs), broadcast (broadcast.rs), and the three handshake
    messages and session frames (session.rs).

    What a call takes from outside is a record [Env]: the clocks, the random
    values, the outcome of each send on the underlay, the kernel's path MTU, the
    verdicts of the two rate limiters, and the order in which the endpoint table
    is walked.  The packets put on the underlay are the field [wire] of the
    state, oldest first.  The fields of the struct are grouped in six records;
    the socket, its receive buffer and the limiters have none. *)

From S2P Require Import Prelude Replay Crypto Frame Handshake Probe Net.
Import Crypto Net.

Module Mesh.

Definition SocketAddr : Type := IpAddr * Z.

#[export] Instance IpAddr_countable : Countable IpAddr.
Proof.
  refine (inj_countable'
    (fun a => match a with V4 o => inl o | V6 o => inr o end)
    (fun s => match s with inl o => V4 o | inr o => V6 o end) _).
  by intros [].
Defined.

#[export] Instance SocketAddr_eq_dec : EqDecision SocketAddr.
Proof. unfold SocketAddr. apply _. Defined.
#[export] Instance SocketAddr_countable : Countable SocketAddr.
Proof. unfold SocketAddr. apply _. Defined.

Definition CAPABILITY_BROADCAST : Z := 0x20.
Definition FLOOD_SEEN_TTL : Z := 30 * 1000000000.
Definition PATH_HEALTH_MISS_LIMIT : Z := 3.
Definition ENCAP_OVERHEAD_V4 : Z := 86.
Definition ENCAP_OVERHEAD_V6 : Z := 106.
Definition PATH_PROBE_FLAG_RESPONSE : Z := 1.
Definition DROP_STATS_PERIOD : Z := 1000000000.

Inductive DropReason :=
| BadVersion
| BadRouteMac
| TtlExpired
| NoEndpoint
| NoKeyDst
| Short
| NoSession
| DropAead
| DropReplay
| UnsupportedType
| Duplicate
| RateLimited
| UnknownProtocol.

#[export] Instance DropReason_eq_dec : EqDecision DropReason.
Proof. solve_decision. Defined.

Record PathEntry := mk_path {
  path_id : Z;
  path_epoch : Z;
  hops : list Z;
  expires_at : Z
}.

Definition expired (p : PathEntry) (now_unix : Z) : bool :=
  bool_decide (expires_at p <> 0) && bool_decide (now_unix > expires_at p).

Record PeerTraffic := mk_traffic { tx_frames : Z; tx_bytes : Z; rx_frames : Z; rx_bytes : Z }.

Record PathStat := mk_stat {
  frames : Z;
  gap_missing : Z;
  reorder : Z;
  loss_ewma_permille : Z;
  rtt_ms : Z;
  last_reported_rtt : Z;
  last_seq : option Z
}.

Record BindingClaim := mk_claim { claim_static : list Z; claim_binding : list Z; anchor : Z * Z }.

Record HandshakeContext := mk_ctx {
  network_id : Z;
  ctx_version : Z;
  local_static : list Z;
  ctx_binding : list Z;
  ctx_issuance : Z * Z
}.

(** The result of a send on the underlay; an error may be EMSGSIZE. *)
Inductive SendResult := SendOk | SendErr (emsgsize : bool).

Record Env := mk_env {
  now_unix : Z;
  now : Z;
  seed : list Z;
  random_salt : Z;
  send_frame : SocketAddr -> list Z -> SendResult;
  path_mtu : SocketAddr -> option Z;
  flood_token : bool;
  pong_allow : bool;
  random_nonce : Z;
  unix_millis : Z;
  walk : list Z
}.

Section WithNoise.
Context `{P : Primitives} `{N : Handshake.NoiseProtocol}.

(** ** State *)

Record Config := mk_config {
  self_node_id : Z;
  ctx : option HandshakeContext;
  peer_statics : gmap Z (list Z);
  binding_verifier : option (Z -> list Z -> list Z -> Z -> Z -> bool);
  key_dst_table : gmap Z (list Z);
  endpoint_table : gmap Z (list SocketAddr);
  relay_endpoint_owner : gmap SocketAddr Z;
  peer_capabilities : gmap Z Z;
  broadcast_key : option (list Z)
}.

Record HsTables := mk_hs {
  initiators : gmap Z Handshake.HandshakeInitiator;
  responders : gmap Z Handshake.HandshakeResponder;
  sessions : gmap Z Handshake.Session;
  binding_claims : gmap Z BindingClaim
}.

Record Paths := mk_paths {
  key_path_table : gmap Z (list Z);
  path_table : gmap Z (list PathEntry);
  forward_paths : gmap Z PathEntry;
  path_health : gmap Z Z;
  path_stats : gmap (Z * Z) PathStat;
  last_sent_path : gmap Z Z;
  ingress_hop : gmap Z Z
}.

Record Links := mk_links {
  endpoint_health : gmap (Z * SocketAddr) Z;
  last_sent_endpoint : gmap Z SocketAddr;
  peer_traffic : gmap Z PeerTraffic;
  ptb_next_hop_mtu : option Z;
  wire : list (SocketAddr * list Z)
}.

Record Flood := mk_flood {
  broadcast_seq : Z;
  broadcast_replay : gmap Z Replay.ReplayWindow;
  flood_seen : gmap (Z * Z) Z
}.

Record Telemetry := mk_tel {
  path_probe_pending : gmap Z (Z * Z * Z);
  probe_pending : gmap Z (Z * SocketAddr * Z);
  drop_stats : gmap Z Rate.RateCounter;
  drop_stats_global : Rate.RateCounter;
  telemetry_drops : gmap Z Z;
  telemetry_drops_global : Z;
  direct_pairs : gmap Z (SocketAddr * Z)
}.

Record MeshData := mk_mesh {
  cfg : Config;
  hs : HsTables;
  pths : Paths;
  lnk : Links;
  fld : Flood;
  tel : Telemetry
}.

Definition bind_underlay (now self : Z) : MeshData :=
  mk_mesh (mk_config self None ∅ None ∅ ∅ ∅ ∅ None) (mk_hs ∅ ∅ ∅ ∅)
    (mk_paths ∅ ∅ ∅ ∅ ∅ ∅ ∅) (mk_links ∅ ∅ ∅ None []) (mk_flood 0 ∅ ∅)
    (mk_tel ∅ ∅ ∅ (Rate.new DROP_STATS_PERIOD now) ∅ 0 ∅).

Definition with_cfg (m : MeshData) (x : Config) : MeshData := mk_mesh x (hs m) (pths m) (lnk m) (fld m) (tel m).
Definition with_hs (m : MeshData) (x : HsTables) : MeshData := mk_mesh (cfg m) x (pths m) (lnk m) (fld m) (tel m).
Definition with_paths (m : MeshData) (x : Paths) : MeshData := mk_mesh (cfg m) (hs m) x (lnk m) (fld m) (tel m).
Definition with_links (m : MeshData) (x : Links) : MeshData := mk_mesh (cfg m) (hs m) (pths m) x (fld m) (tel m).
Definition with_flood (m : MeshData) (x : Flood) : MeshData := mk_mesh (cfg m) (hs m) (pths m) (lnk m) x (tel m).
Definition with_tel (m : MeshData) (x : Telemetry) : MeshData := mk_mesh (cfg m) (hs m) (pths m) (lnk m) (fld m) x.

Definition set_initiators (m : MeshData) x : MeshData :=
  with_hs m (mk_hs x (responders (hs m)) (sessions (hs m)) (binding_claims (hs m))).
Definition set_responders (m : MeshData) x : MeshData :=
  with_hs m (mk_hs (initiators (hs m)) x (sessions (hs m)) (binding_claims (hs m))).
Definition set_sessions (m : MeshData) x : MeshData :=
  with_hs m (mk_hs (initiators (hs m)) (responders (hs m)) x (binding_claims (hs m))).
Definition set_claims (m : MeshData) x : MeshData :=
  with_hs m (mk_hs (initiators (hs m)) (responders (hs m)) (sessions (hs m)) x).
Definition set_path_health (m : MeshData) x : MeshData :=
  let p := pths m in
  with_paths m (mk_paths (key_path_table p) (path_table p) (forward_paths p) x (path_stats p)
    (last_sent_path p) (ingress_hop p)).
Definition set_path_stats (m : MeshData) x : MeshData :=
  let p := pths m in
  with_paths m (mk_paths (key_path_table p) (path_table p) (forward_paths p) (path_health p) x
    (last_sent_path p) (ingress_hop p)).
Definition set_last_sent_path (m : MeshData) x : MeshData :=
  let p := pths m in
  with_paths m (mk_paths (key_path_table p) (path_table p) (forward_paths p) (path_health p)
    (path_stats p) x (ingress_hop p)).
Definition set_endpoint_health (m : MeshData) x : MeshData :=
  let l := lnk m in
  with_links m (mk_links x (last_sent_endpoint l) (peer_traffic l) (ptb_next_hop_mtu l) (wire l)).
Definition set_last_sent_endpoint (m : MeshData) x : MeshData :=
  let l := lnk m in
  with_links m (mk_links (endpoint_health l) x (peer_traffic l) (ptb_next_hop_mtu l) (wire l)).
Definition set_traffic (m : MeshData) x : MeshData :=
  let l := lnk m in
  with_links m (mk_links (endpoint_health l) (last_sent_endpoint l) x (ptb_next_hop_mtu l) (wire l)).
Definition set_ptb (m : MeshData) x : MeshData :=
  let l := lnk m in
  with_links m (mk_links (endpoint_health l) (last_sent_endpoint l) (peer_traffic l) x (wire l)).
Definition emit (m : MeshData) (addr : SocketAddr) (frame : list Z) : MeshData :=
  let l := lnk m in
  with_links m (mk_links (endpoint_health l) (last_sent_endpoint l) (peer_traffic l)
    (ptb_next_hop_mtu l) (wire l ++ [(addr, frame)])).

(** [*entry.or_insert(0) += 1], saturating at the width of the counter. *)
Definition bump {K} `{Countable K} (w : Z) (k : K) (t : gmap K Z) : gmap K Z :=
  <[k := sat_add w (default 0 (t !! k)) 1]> t.

(** ** Traffic counters and path statistics *)

Definition note_tx (m : MeshData) (peer bytes : Z) : MeshData :=
  let t := default (mk_traffic 0 0 0 0) (peer_traffic (lnk m) !! peer) in
  set_traffic m (<[peer := mk_traffic (sat_add 64 (tx_frames t) 1) (sat_add 64 (tx_bytes t) bytes)
                             (rx_frames t) (rx_bytes t)]> (peer_traffic (lnk m))).

Definition note_path_frame (m : MeshData) (peer id seq : Z) : MeshData :=
  let st := default (mk_stat 0 0 0 0 0 0 None) (path_stats (pths m) !! (peer, id)) in
  let '(gap, reo) :=
    match last_seq st with
    | Some last =>
        let diff := wrap 32 (seq - last) in
        if decide (1 < diff /\ diff < 0x80000000) then (sat_add 64 (gap_missing st) (diff - 1), reorder st)
        else if decide (0x80000000 <= diff) then (gap_missing st, sat_add 64 (reorder st) 1)
        else (gap_missing st, reorder st)
    | None => (gap_missing st, reorder st)
    end in
  set_path_stats m (<[(peer, id) := mk_stat (sat_add 64 (frames st) 1) gap reo (loss_ewma_permille st)
    (rtt_ms st) (last_reported_rtt st) (Some seq)]> (path_stats (pths m))).

(** ** Paths and endpoints *)

Definition path_miss (m : MeshData) (id : Z) : MeshData :=
  set_path_health m (bump 32 id (path_health (pths m))).

Definition path_ok (m : MeshData) (id : Z) : MeshData :=
  set_path_health m (<[id := 0]> (path_health (pths m))).

Definition path_miss_peer (m : MeshData) (dest : Z) : MeshData :=
  let m :=
    match path_table (pths m) !! dest with
    | Some (main :: _) => path_miss m (path_id main)
    | _ => m
    end in
  match last_sent_path (pths m) !! dest with
  | Some used => path_miss m used
  | None => m
  end.

Definition retain_hop_endpoints (m : MeshData) (hop : Z) (addrs : list SocketAddr) : list SocketAddr :=
  List.filter (fun a => match relay_endpoint_owner (cfg m) !! a with
                        | Some o => bool_decide (o = hop) | None => true end) addrs.

(** Keys are compared as pairs, [false] before [true]. *)
Definition endpoint_le (m : MeshData) (hop dest : Z) (a b : SocketAddr) : bool :=
  let health x := default 0 (endpoint_health (lnk m) !! (hop, x)) in
  let used x := bool_decide (last_sent_endpoint (lnk m) !! dest = Some x) in
  bool_decide (health a < health b) ||
  (bool_decide (health a = health b) && (negb (used a) || used b)).

Definition order_endpoints (m : MeshData) (hop dest : Z) (addrs : list SocketAddr) : list SocketAddr :=
  sort (endpoint_le m hop dest) addrs.

Definition endpoint_owner (e : Env) (m : MeshData) (addr : SocketAddr) : option Z :=
  match relay_endpoint_owner (cfg m) !! addr with
  | Some id => Some id
  | None => List.find (fun id => match endpoint_table (cfg m) !! id with
                                 | Some addrs => bool_decide (addr ∈ addrs) | None => false end) (walk e)
  end.

Definition health_of (m : MeshData) (p : PathEntry) : Z :=
  default 0 (path_health (pths m) !! path_id p).

Definition loss_of (m : MeshData) (dest : Z) (p : PathEntry) : Z :=
  match path_stats (pths m) !! (dest, path_id p) with Some s => loss_ewma_permille s | None => 0 end.

Definition live_paths (e : Env) (m : MeshData) (ps : list PathEntry) : list PathEntry :=
  List.filter (fun p => negb (expired p (now_unix e)) &&
                        bool_decide (is_Some (key_path_table (pths m) !! path_id p))) ps.

Definition path_pool (m : MeshData) (dest : Z) (live : list PathEntry) : list PathEntry :=
  let healthy := List.filter (fun p => bool_decide (health_of m p < PATH_HEALTH_MISS_LIMIT)) live in
  let healthy := sort (fun a b => bool_decide (loss_of m dest a <= loss_of m dest b)) healthy in
  match healthy with
  | [] => sort (fun a b => bool_decide (health_of m a <= health_of m b)) live
  | _ => healthy
  end.

Definition pick_path (e : Env) (m : MeshData) (dest flow_hash : Z) : option PathEntry * MeshData :=
  match path_table (pths m) !! dest with
  | None => (None, m)
  | Some ps =>
      let live := live_paths e m ps in
      if decide (live = []) then (None, m)
      else
        let pool := path_pool m dest live in
        match pool !! Z.to_nat (flow_hash mod Z.of_nat (length pool)) with
        | Some chosen =>
            (Some chosen, set_last_sent_path m (<[dest := path_id chosen]> (last_sent_path (pths m))))
        | None => (None, m)
        end
  end.

Definition path_first_hop (e : Env) (m : MeshData) (dest : Z) : option Z * MeshData :=
  let '(p, m) := pick_path e m dest 0 in
  (p ← p; head (hops p), m).

(** ** Sending *)

(** [Ok(true)], [Ok(false)] and [Err] of the senders; the error of the last try may
    be EMSGSIZE. *)
Inductive HopResult := HopSent | HopNone | HopErr (emsgsize : bool).

Definition is_ipv6 (a : SocketAddr) : bool := negb (is_ipv4 (fst a)).

(** The inner MTU derived from the kernel's path MTU, between 576 and 65535. *)
Definition inner_mtu (e : Env) (addr : SocketAddr) : option Z :=
  pmtu ← path_mtu e addr;
  let overhead := if is_ipv6 addr then ENCAP_OVERHEAD_V6 else ENCAP_OVERHEAD_V4 in
  Some (Z.min (Z.max (sat_sub pmtu overhead) 576) 65535).

(** The loop over the endpoints; also the last endpoint tried. *)
Fixpoint try_send (e : Env) (m : MeshData) (to : Z) (frame : list Z) (addrs : list SocketAddr)
    (last_tried : option SocketAddr) : bool * option SocketAddr * MeshData :=
  match addrs with
  | [] => (false, last_tried, m)
  | addr :: addrs =>
      match send_frame e addr frame with
      | SendOk =>
          let m := emit m addr frame in
          let m := set_last_sent_endpoint m (<[to := addr]> (last_sent_endpoint (lnk m))) in
          (true, Some addr, note_tx m to (Z.of_nat (length frame)))
      | SendErr emsgsize =>
          let m := if emsgsize then set_ptb m (inner_mtu e addr) else m in
          try_send e m to frame addrs (Some addr)
      end
  end.

Definition send_to_node_hop (e : Env) (m : MeshData) (to : Z) (first_hop : option Z) (frame : list Z)
    : HopResult * MeshData :=
  let m := set_ptb m None in
  let hop := match first_hop with
             | Some h => if decide (h <> self_node_id (cfg m)) then h else to
             | None => to end in
  match endpoint_table (cfg m) !! hop with
  | None => (HopNone, m)
  | Some addrs =>
      let ordered :=
        match Frame.decode frame with
        | Ok h => if decide (Frame.path_id h <> Frame.PATH_ID_DEFAULT)
                  then retain_hop_endpoints m hop addrs else addrs
        | _ => addrs
        end in
      let ordered := order_endpoints m hop to ordered in
      match try_send e m to frame ordered None with
      | (true, _, m) => (HopSent, m)
      | (false, last_tried, m) =>
          let m := path_miss_peer m to in
          let m :=
            match last_tried with
            | Some addr =>
                match endpoint_owner e m addr with
                | Some owner => set_endpoint_health m (bump 32 (owner, addr) (endpoint_health (lnk m)))
                | None => m
                end
            | None => m
            end in
          (HopErr (match last_tried with
                   | Some addr => match send_frame e addr frame with SendErr b => b | SendOk => false end
                   | None => false
                   end), m)
      end
  end.

(** ** Frames *)

Inductive SendError :=
| SendNoSession
| SendNoKeyDst
| NoContext
| NoPeerBinding
| SendHandshake (e : Handshake.HandshakeError)
| SendAead.

Definition frame_header (self to pt path q : Z) : Frame.MeshFrameHeader :=
  Frame.mk_header Frame.VERSION pt 0 64 to self q 0 path (replicate Frame.ROUTE_MAC_LEN 0).

Definition build_handshake_frame (m : MeshData) (to : Z) (payload : list Z) : outcome SendError (list Z) :=
  key_dst ← ok_or SendNoKeyDst (key_dst_table (cfg m) !! to);
  Frame.lift (Frame.build_handshake_frame
    (frame_header (self_node_id (cfg m)) to Frame.packet_type.UNICAST Frame.PATH_ID_DEFAULT 0)
    key_dst payload).

Definition build_typed_frame (m : MeshData) (to path pt : Z) (payload : list Z)
    : outcome SendError (list Z) * MeshData :=
  match sessions (hs m) !! to with
  | None => (Err SendNoSession, m)
  | Some session =>
      let key := if decide (path <> Frame.PATH_ID_DEFAULT)
                 then key_path_table (pths m) !! path else key_dst_table (cfg m) !! to in
      match key with
      | None => (Err SendNoKeyDst, m)
      | Some route_key =>
          let '(q, session) := Handshake.next_seq session in
          let k := Handshake.keys session in
          (map_err (fun _ => SendAead)
             (Frame.build_frame (frame_header (self_node_id (cfg m)) to pt path q) route_key
                (Handshake.tx_key k) (Handshake.salt k) payload),
           set_sessions m (<[to := session]> (sessions (hs m))))
      end
  end.

Definition build_data_frame (e : Env) (m : MeshData) (to : Z) (payload : list Z) (flow_hash : Z)
    : outcome SendError (list Z * option Z) * MeshData :=
  let '(path, m) := pick_path e m to flow_hash in
  let id := match path with Some p => path_id p | None => Frame.PATH_ID_DEFAULT end in
  let '(frame, m) := build_typed_frame m to id Frame.packet_type.UNICAST payload in
  (frame ← frame; Ok (frame, p ← path; head (hops p)), m).

Definition build_heartbeat_frame (m : MeshData) (to : Z) : outcome SendError (list Z) * MeshData :=
  build_typed_frame m to Frame.PATH_ID_DEFAULT Frame.packet_type.HEARTBEAT [].

(** ** Handshake messages *)

(** [Panicked] stands for a panic of the task. *)
Inductive IncomingEvent :=
| Data (from : Z) (payload : list Z)
| Heartbeat (from : Z)
| Established (peer : Z)
| Responded (peer : Z)
| Rejected (peer : Z) (reason : Handshake.HandshakeError)
| Relayed (to : Z)
| Broadcast (from : Z) (payload : list Z)
| ProbePing (from : Z)
| ProbePong (from : Z) (endpoint : SocketAddr) (payload : list Z)
| PathProbeRtt (dest path_id rtt_ms : Z)
| PathProbeServed (from : Z)
| Dropped (reason : DropReason)
| Panicked.

Definition initiate_handshake (e : Env) (m : MeshData) (peer : Z)
    : outcome SendError (option (list Z)) * MeshData :=
  if decide (is_Some (sessions (hs m) !! peer) \/ is_Some (initiators (hs m) !! peer) \/
             is_Some (responders (hs m) !! peer))
  then (Ok None, m)
  else
    match ctx (cfg m), peer_statics (cfg m) !! peer with
    | None, _ => (Err NoContext, m)
    | _, None => (Err NoPeerBinding, m)
    | Some c, Some peer_static =>
        match Handshake.initiator_new (seed e) (local_static c) (network_id c) (ctx_version c) peer
                (ctx_binding c) (ctx_issuance c) (random_salt e) peer_static with
        | Err x => (Err (SendHandshake x), m)
        | Panic => (Panic, m)
        | Ok initiator =>
            match Handshake.write_msg1 initiator with
            | (Err x, _) => (Err (SendHandshake x), m)
            | (Panic, _) => (Panic, m)
            | (Ok msg1, initiator) =>
                let m := set_initiators m (<[peer := initiator]> (initiators (hs m))) in
                (frame ← build_handshake_frame m peer msg1; Ok (Some frame), m)
            end
        end
    end.

Definition send_response (e : Env) (m : MeshData) (to : Z) (payload : list Z) : bool * MeshData :=
  match build_handshake_frame m to payload with
  | Ok frame =>
      let '(hop, m) := path_first_hop e m to in
      let '(r, m) := send_to_node_hop e m to hop frame in
      (match r with HopSent => true | _ => false end, m)
  | _ => (false, m)
  end.

(** The collision rule: of two nodes that initiate at the same time, the one
    with the lower identifier keeps its initiator; [Some] to go on. *)
Definition resolve_collision (m : MeshData) (from : Z) : option MeshData :=
  match initiators (hs m) !! from with
  | Some _ =>
      if decide (from < self_node_id (cfg m))
      then Some (set_initiators m (delete from (initiators (hs m)))) else None
  | None => Some m
  end.

Definition handle_msg1 (e : Env) (m : MeshData) (from : Z) (payload : list Z) : IncomingEvent * MeshData :=
  match resolve_collision m from with
  | None => (Rejected from Handshake.Collision, m)
  | Some m =>
      match ctx (cfg m) with
      | None => (Rejected from Handshake.WrongStep, m)
      | Some c =>
          match Handshake.responder_new (seed e) (local_static c) (network_id c) (ctx_version c)
                  (self_node_id (cfg m)) with
          | Err x => (Rejected from x, m)
          | Panic => (Panicked, m)
          | Ok responder =>
              match Handshake.read_msg1 responder payload with
              | (Err x, _) => (Rejected from x, m)
              | (Panic, _) => (Panicked, m)
              | (Ok _, responder) =>
                  match Handshake.write_msg2 responder with
                  | (Err x, _) => (Rejected from x, m)
                  | (Panic, _) => (Panicked, m)
                  | (Ok msg2, responder) =>
                      let m := set_responders m (<[from := responder]> (responders (hs m))) in
                      let '(sent, m) := send_response e m from msg2 in
                      (if sent then Responded from else Dropped NoEndpoint, m)
                  end
              end
          end
      end
  end.

Definition handle_msg2 (e : Env) (m : MeshData) (from : Z) (payload : list Z) : IncomingEvent * MeshData :=
  match initiators (hs m) !! from with
  | None => (Rejected from Handshake.WrongStep, m)
  | Some initiator =>
      let m := set_initiators m (delete from (initiators (hs m))) in
      match Handshake.read_msg2 initiator payload with
      | (Err x, _) => (Rejected from x, m)
      | (Panic, _) => (Panicked, m)
      | (Ok msg3, initiator) =>
          match Handshake.finish initiator with
          | Err x => (Rejected from x, m)
          | Panic => (Panicked, m)
          | Ok keys =>
              match build_handshake_frame m from msg3 with
              | Err _ => (Dropped NoKeyDst, m)
              | Panic => (Panicked, m)
              | Ok frame =>
                  let '(hop, m) := path_first_hop e m from in
                  match send_to_node_hop e m from hop frame with
                  | (HopSent, m) =>
                      (Established from,
                       set_sessions m (<[from := Handshake.session_new from keys]> (sessions (hs m))))
                  | (_, m) => (Dropped NoEndpoint, m)
                  end
              end
          end
      end
  end.

(** The claim is what the verifier was called with, when it accepts. *)
Definition claim_of (r : Handshake.HandshakeResponder) (payload : list Z) : option BindingClaim :=
  match Handshake.parse_msg3 payload with
  | Ok w =>
      match Handshake.read_message (Handshake.r_state r) (Handshake.w3_body w) 0 with
      | (inl _, st) =>
          match Handshake.peer_static st Handshake.BadBinding with
          | Ok rs => Some (mk_claim rs (Handshake.w3_binding w)
                       (be_val (take 8 (Handshake.w3_issuance w)), be_val (drop 8 (Handshake.w3_issuance w))))
          | _ => None
          end
      | _ => None
      end
  | _ => None
  end.

Definition handle_msg3 (m : MeshData) (from : Z) (payload : list Z) : IncomingEvent * MeshData :=
  match binding_verifier (cfg m), responders (hs m) !! from with
  | None, _ => (Rejected from Handshake.BadBinding, m)
  | _, None => (Rejected from Handshake.WrongStep, m)
  | Some verifier, Some responder =>
      let m := set_responders m (delete from (responders (hs m))) in
      match Handshake.read_msg3 verifier responder payload from with
      | (Err x, _) => (Rejected from x, m)
      | (Panic, _) => (Panicked, m)
      | (Ok keys, _) =>
          let m := match claim_of responder payload with
                   | Some c => set_claims m (<[from := c]> (binding_claims (hs m)))
                   | None => m end in
          (Established from,
           set_sessions m (<[from := Handshake.session_new from keys]> (sessions (hs m))))
      end
  end.

Definition handle_handshake (e : Env) (m : MeshData) (from : Z) (payload : list Z)
    : IncomingEvent * MeshData :=
  if decide (length payload = Handshake.MSG1_PAYLOAD_LEN) then handle_msg1 e m from payload
  else if decide (length payload = Handshake.MSG2_PAYLOAD_LEN) then handle_msg2 e m from payload
  else if decide (length payload = Handshake.MSG3_PAYLOAD_LEN) then handle_msg3 m from payload
  else (Rejected from Handshake.MalformedPayload, m).

(** ** Session frames *)

Definition handle_session_frame (e : Env) (m : MeshData) (from : Z) (frame : list Z) (heartbeat : bool)
    : IncomingEvent * MeshData :=
  match Frame.decode frame with
  | Ok header =>
      let key := if decide (Frame.path_id header <> Frame.PATH_ID_DEFAULT)
                 then key_path_table (pths m) !! Frame.path_id header
                 else key_dst_table (cfg m) !! self_node_id (cfg m) in
      match key with
      | None => (Dropped NoKeyDst, m)
      | Some route_key =>
          match sessions (hs m) !! from with
          | None => (Dropped NoSession, m)
          | Some session =>
              let '(res, buf, session) := Handshake.open_in_place session frame route_key (now e) in
              let m := set_sessions m (<[from := session]> (sessions (hs m))) in
              match res with
              | Ok (_, pt_len) =>
                  if heartbeat && negb (Nat.eqb pt_len 0) then (Dropped DropAead, m)
                  else
                    let m := note_path_frame m from (Frame.path_id header) (Frame.seq header) in
                    if heartbeat then (Heartbeat from, m)
                    else (Data from (take pt_len (drop Frame.HEADER_LEN buf)), m)
              | Err Handshake.Replayed => (Dropped DropReplay, m)
              | Err Handshake.RouteMac => (Dropped BadRouteMac, m)
              | Err _ => (Dropped DropAead, m)
              | Panic => (Panicked, m)
              end
          end
      end
  | _ => (Dropped Short, m)
  end.

(** ** Forwarding *)

Inductive RelayOutcome :=
| Forwarded (to : Z)
| Delivered (from : Z)
| Flooded (from : Z) (forwarded : list Z)
| RelayDropped (reason : DropReason).

Definition find_path (e : Env) (m : MeshData) (to id : Z) : option PathEntry :=
  match
    (ps ← path_table (pths m) !! to;
     List.find (fun p => bool_decide (path_id p = id) && negb (expired p (now_unix e))) ps)
  with
  | Some p => Some p
  | None =>
      p ← forward_paths (pths m) !! id;
      if expired p (now_unix e) then None else Some p
  end.

(** [iter().position(|h| *h == self_node_id)]. *)
Definition position (self : Z) (hs : list Z) : option nat := fst <$> list_find (fun h => h = self) hs.

Definition is_probe_response (h : Frame.MeshFrameHeader) : bool :=
  bool_decide (Frame.packet_type_ h = Frame.packet_type.PATH_PROBE) &&
  bool_decide (Z.land (Frame.flags h) PATH_PROBE_FLAG_RESPONSE <> 0).

Definition path_next_node (e : Env) (m : MeshData) (h : Frame.MeshFrameHeader) : option Z :=
  p ← find_path e m (Frame.to_node_id h) (Frame.path_id h);
  idx ← position (self_node_id (cfg m)) (hops p);
  if is_probe_response h then
    match idx with
    | O => Some (Frame.to_node_id h)
    | S i => hops p !! i
    end
  else hops p !! S idx.

(** The first endpoint that takes the frame. *)
Fixpoint forward_first (e : Env) (frame : list Z) (addrs : list SocketAddr) : option SocketAddr :=
  match addrs with
  | [] => None
  | addr :: addrs =>
      match send_frame e addr frame with
      | SendOk => Some addr
      | SendErr _ => forward_first e frame addrs
      end
  end.

(** *** Broadcast *)

Definition set_seen (m : MeshData) (x : gmap (Z * Z) Z) : MeshData :=
  with_flood m (mk_flood (broadcast_seq (fld m)) (broadcast_replay (fld m)) x).

Definition prune_flood_seen (e : Env) (m : MeshData) : MeshData :=
  set_seen m (filter (fun x => snd x >= now e - FLOOD_SEEN_TTL) (flood_seen (fld m))).

Definition broadcast_opted_in (m : MeshData) (node_id : Z) : bool :=
  match peer_capabilities (cfg m) !! node_id with
  | Some c => bool_decide (Z.land c CAPABILITY_BROADCAST <> 0)
  | None => false
  end.

Definition flood_targets (e : Env) (m : MeshData) (source : Z) : list Z :=
  List.filter (fun id => bool_decide (id <> self_node_id (cfg m)) && bool_decide (id <> source) &&
                         broadcast_opted_in m id) (walk e).

Fixpoint flood_send (e : Env) (m : MeshData) (frame : list Z) (ids : list Z) : list Z * MeshData :=
  match ids with
  | [] => ([], m)
  | id :: ids =>
      match addrs ← endpoint_table (cfg m) !! id; forward_first e frame addrs with
      | Some addr => let '(l, m) := flood_send e (emit m addr frame) frame ids in (id :: l, m)
      | None => flood_send e m frame ids
      end
  end.

Definition relay_broadcast (e : Env) (m : MeshData) (header : Frame.MeshFrameHeader) (frame : list Z)
    : RelayOutcome * list Z * MeshData :=
  if decide (Frame.packet_type_ header <> Frame.packet_type.BROADCAST)
  then (RelayDropped UnsupportedType, frame, m)
  else
    match broadcast_key (cfg m) with
    | None => (RelayDropped NoKeyDst, frame, m)
    | Some bkey =>
        if decide (route_mac bkey (Frame.auth_input header) <> Frame.route_mac_ header)
        then (RelayDropped BadRouteMac, frame, m)
        else if decide (Frame.from_node_id header = self_node_id (cfg m))
        then (RelayDropped Duplicate, frame, m)
        else
          let m := prune_flood_seen e m in
          let k := (Frame.from_node_id header, Frame.seq header) in
          if decide (is_Some (flood_seen (fld m) !! k)) then (RelayDropped Duplicate, frame, m)
          else if decide (Frame.ttl header = 0) then (RelayDropped TtlExpired, frame, m)
          else
            let m := set_seen m (<[k := now e]> (flood_seen (fld m))) in
            if flood_token e then
              let frame := Frame.decrement_ttl frame in
              let '(l, m) := flood_send e m frame (flood_targets e m (Frame.from_node_id header)) in
              (Flooded (Frame.from_node_id header) l, frame, m)
            else (Flooded (Frame.from_node_id header) [], frame, m)
    end.

Definition build_broadcast_frame (m : MeshData) (payload : list Z) : outcome SendError (list Z) * MeshData :=
  match broadcast_key (cfg m) with
  | None => (Err SendNoKeyDst, m)
  | Some bkey =>
      let q := broadcast_seq (fld m) in
      (map_err (fun _ => SendAead)
         (Frame.build_frame (frame_header (self_node_id (cfg m)) Frame.BROADCAST_NODE_ID
            Frame.packet_type.BROADCAST Frame.PATH_ID_DEFAULT q) bkey bkey 0 payload),
       with_flood m (mk_flood (wrap 32 (q + 1)) (broadcast_replay (fld m)) (flood_seen (fld m))))
  end.

Definition handle_broadcast_frame (m : MeshData) (from : Z) (frame : list Z) : IncomingEvent * MeshData :=
  match broadcast_key (cfg m) with
  | None => (Dropped NoKeyDst, m)
  | Some bkey =>
      match Frame.decode frame with
      | Ok header =>
          let w := default Replay.new (broadcast_replay (fld m) !! from) in
          match Replay.check_and_mark w (Frame.seq header) with
          | Ok (fresh, w) =>
              let m := with_flood m (mk_flood (broadcast_seq (fld m))
                (<[from := w]> (broadcast_replay (fld m))) (flood_seen (fld m))) in
              if negb fresh then (Dropped DropReplay, m)
              else
                match Frame.open_frame_in_place frame bkey bkey 0 with
                | Ok (_, payload, _) => (Broadcast from payload, m)
                | Err Frame.RouteMac => (Dropped BadRouteMac, m)
                | Err _ => (Dropped DropAead, m)
                | Panic => (Panicked, m)
                end
          | _ => (Panicked, m)
          end
      | _ => (Dropped Short, m)
      end
  end.

(** *** The forwarding decision; also the frame buffer after the call *)

Definition relay (e : Env) (m : MeshData) (frame : list Z) : RelayOutcome * list Z * MeshData :=
  if decide (length frame < Frame.HEADER_LEN)%nat then (RelayDropped Short, frame, m)
  else
    match Frame.decode frame with
    | Ok header =>
        let to := Frame.to_node_id header in
        let explicit := bool_decide (Frame.path_id header <> Frame.PATH_ID_DEFAULT) in
        if decide (Frame.version header <> Frame.VERSION) then (RelayDropped BadVersion, frame, m)
        else if decide (to = Frame.BROADCAST_NODE_ID) then relay_broadcast e m header frame
        else
          let key := if explicit then key_path_table (pths m) !! Frame.path_id header
                     else key_dst_table (cfg m) !! to in
          match key with
          | None => (RelayDropped NoKeyDst, frame, m)
          | Some route_key =>
              if decide (route_mac route_key (Frame.auth_input header) <> Frame.route_mac_ header)
              then (RelayDropped BadRouteMac, frame, m)
              else if decide (to = self_node_id (cfg m))
              then (Delivered (Frame.from_node_id header), frame, m)
              else if decide (Frame.ttl header = 0) then (RelayDropped TtlExpired, frame, m)
              else
                match if explicit then path_next_node e m header else Some to with
                | None => (RelayDropped NoEndpoint, frame, m)
                | Some next_node =>
                    match endpoint_table (cfg m) !! next_node with
                    | None => (RelayDropped NoEndpoint, frame, m)
                    | Some addrs =>
                        let candidates := order_endpoints m next_node to
                          (retain_hop_endpoints m next_node addrs) in
                        let frame := Frame.decrement_ttl frame in
                        match forward_first e frame candidates with
                        | Some addr =>
                            (Forwarded to, frame,
                             note_tx (emit m addr frame) to (Z.of_nat (length frame)))
                        | None => (RelayDropped NoEndpoint, frame, m)
                        end
                    end
                end
          end
    | _ => (RelayDropped Short, frame, m)
    end.

(** ** Properties of forwarding *)

Lemma forward_first_Some e frame addrs addr :
  forward_first e frame addrs = Some addr -> addr ∈ addrs /\ send_frame e addr frame = SendOk.
Proof.
  induction addrs as [|a addrs IH]; cbn; [done|]. destruct (send_frame e a frame) eqn:E.
  - intros [= <-]. split; [left|done].
  - intros [? ?]%IH. split; [by right|done].
Qed.

Lemma candidates_owned m hop to addrs addr :
  addr ∈ order_endpoints m hop to (retain_hop_endpoints m hop addrs) ->
  addr ∈ addrs /\ forall o, relay_endpoint_owner (cfg m) !! addr = Some o -> o = hop.
Proof.
  unfold order_endpoints, retain_hop_endpoints. rewrite elem_of_sort, elem_of_bfilter. intros [Ha Ho].
  split; [done|]. intros o E. rewrite E in Ho. by apply bool_decide_eq_true in Ho.
Qed.

(** The route key a node checks a frame with. *)
Definition route_key (m : MeshData) (h : Frame.MeshFrameHeader) : option (list Z) :=
  if bool_decide (Frame.path_id h <> Frame.PATH_ID_DEFAULT)
  then key_path_table (pths m) !! Frame.path_id h else key_dst_table (cfg m) !! Frame.to_node_id h.

(** A frame a node may act on: supported version and a valid route MAC. *)
Definition authentic (m : MeshData) (frame : list Z) (h : Frame.MeshFrameHeader) : Prop :=
  Frame.decode frame = Ok h /\ Frame.version h = Frame.VERSION /\
  exists k, route_key m h = Some k /\ route_mac k (Frame.auth_input h) = Frame.route_mac_ h.

(** C21: forwarding.  For every frame that is not a broadcast: it is put on the
    underlay only as [Forwarded], exactly once, to an endpoint of the next node
    that no other relay owns; then its route MAC was valid for its path or
    destination, this node is not the destination, and the copy sent decodes to
    the same header with the hop count, which was not 0, one lower, and the
    same bytes behind the header.  [Delivered] frames are authentic and for
    this node; in every other case nothing is sent and the state is unchanged. *)
Theorem relay_sound (e : Env) (m : MeshData) (frame : list Z) (Hb : bytes frame)
  (Hu : forall h, Frame.decode frame = Ok h -> Frame.to_node_id h <> Frame.BROADCAST_NODE_ID) :
  let '(out, frame', m') := relay e m frame in
  match out with
  | Forwarded to =>
      exists h next addrs addr, authentic m frame h /\ to = Frame.to_node_id h /\
        to <> self_node_id (cfg m) /\ 0 < Frame.ttl h /\
        (if bool_decide (Frame.path_id h <> Frame.PATH_ID_DEFAULT)
         then path_next_node e m h = Some next else next = to) /\
        endpoint_table (cfg m) !! next = Some addrs /\ addr ∈ addrs /\
        (forall o, relay_endpoint_owner (cfg m) !! addr = Some o -> o = next) /\
        wire (lnk m') = wire (lnk m) ++ [(addr, frame')] /\ send_frame e addr frame' = SendOk /\
        Frame.decode frame' = Ok (Frame.set_ttl (Frame.ttl h - 1) h) /\
        drop Frame.HEADER_LEN frame' = drop Frame.HEADER_LEN frame
  | Delivered from =>
      m' = m /\ frame' = frame /\
      exists h, authentic m frame h /\ from = Frame.from_node_id h /\
        Frame.to_node_id h = self_node_id (cfg m)
  | RelayDropped _ => m' = m
  | Flooded _ _ => False
  end.
Proof.
  unfold relay. destruct (decide (_ < _)%nat); [done|].
  destruct (Frame.decode frame) as [h|x|] eqn:Ed; [|done..].
  destruct (decide (Frame.version h <> Frame.VERSION)) as [|Hv]; [done|].
  destruct (decide (Frame.to_node_id h = Frame.BROADCAST_NODE_ID)) as [Hx|_]; [by eapply Hu in Hx|].
  destruct (if bool_decide (Frame.path_id h <> _) then _ else _) as [k|] eqn:Ek; [|done].
  destruct (decide (route_mac k _ <> _)) as [|Hm]; [done|].
  assert (Ha : authentic m frame h).
  { split_and!; [done|destruct (decide (Frame.version h = Frame.VERSION)); done|].
    exists k. split; [exact Ek|]. by destruct (decide (route_mac k (Frame.auth_input h) = Frame.route_mac_ h)). }
  destruct (decide (Frame.to_node_id h = self_node_id (cfg m))); [by eauto 10|].
  destruct (decide (Frame.ttl h = 0)) as [|Ht]; [done|].
  destruct (if bool_decide _ then path_next_node e m h else _) as [next|] eqn:En; [|done].
  destruct (endpoint_table (cfg m) !! next) as [addrs|] eqn:Ee; [|done].
  destruct (forward_first _ _ _) as [addr|] eqn:Ef; [|done].
  apply forward_first_Some in Ef as [Hin Hs]. apply candidates_owned in Hin as [Hin Ho].
  pose proof (Frame.decode_ok _ _ Hb Ed) as Hok.
  destruct (Frame.decrement_ttl_decode frame h Ed) as [Hd Hr].
  assert (Hpos : 0 < Frame.ttl h) by (destruct Hok; uint).
  exists h, next, addrs, addr. split_and!; try done.
  - by destruct (bool_decide _); [|injection En].
  - rewrite Hd. do 2 f_equal. apply wrap_small. destruct Hok. uint.
Qed.

(** ** Properties of broadcast *)

Lemma flood_send_fld e frame ids : forall m,
  fld (snd (flood_send e m frame ids)) = fld m /\ cfg (snd (flood_send e m frame ids)) = cfg m.
Proof.
  induction ids as [|id ids IH]; intros m; cbn; [done|].
  destruct (_ ≫= _) as [addr|]; [|apply IH].
  specialize (IH (emit m addr frame)). by destruct (flood_send e (emit m addr frame) frame ids).
Qed.

Lemma relay_seen e m frame k t : flood_seen (fld m) !! k = Some t -> now e - FLOOD_SEEN_TTL <= t ->
  let '(_, _, m') := relay e m frame in
  flood_seen (fld m') !! k = Some t /\ cfg m' = cfg m.
Proof.
  intros Hk Ht.
  assert (Hp : flood_seen (fld (prune_flood_seen e m)) !! k = Some t).
  { cbn. rewrite map_lookup_filter_Some. split; [done|]. cbn. lia. }
  unfold relay. destruct (decide (_ < _)%nat); [done|].
  destruct (Frame.decode frame) as [h|x|]; [|done..].
  destruct (decide (Frame.version h <> _)); [done|].
  destruct (decide (Frame.to_node_id h = _)).
  - unfold relay_broadcast. destruct (decide (Frame.packet_type_ h <> _)); [done|].
    destruct (broadcast_key (cfg m)) as [bkey|]; [|done].
    destruct (decide (route_mac bkey _ <> _)); [done|]. destruct (decide (_ = self_node_id _)); [done|].
    destruct (decide (is_Some _)) as [|Hn]; [done|]. destruct (decide (Frame.ttl h = 0)); [done|].
    assert (Hins : flood_seen (fld (set_seen (prune_flood_seen e m) (<[(Frame.from_node_id h, Frame.seq h) := now e]>
      (flood_seen (fld (prune_flood_seen e m)))))) !! k = Some t).
    { cbn. rewrite lookup_insert_ne; [exact Hp|]. intros <-. apply Hn. by exists t. }
    destruct (flood_token e); [|done].
    match goal with |- context [flood_send e ?m0 ?f ?l] =>
      pose proof (flood_send_fld e f l m0) as [Hf Hc]; destruct (flood_send e m0 f l) as [l' m1] end.
    cbn [snd] in *. rewrite Hf, Hc. done.
  - destruct (if bool_decide _ then _ else _); [|done]. destruct (decide (route_mac _ _ <> _)); [done|].
    destruct (decide (_ = self_node_id _)); [done|]. destruct (decide (Frame.ttl h = 0)); [done|].
    destruct (if bool_decide _ then path_next_node e m h else _) as [next|]; [|done].
    destruct (endpoint_table (cfg m) !! next); [|done]. by destruct (forward_first _ _ _).
Qed.

(** Frames handled one after the other, each in its environment. *)
Fixpoint relay_all (m : MeshData) (fs : list (Env * list Z)) : MeshData :=
  match fs with
  | [] => m
  | (e, f) :: fs => let '(_, _, m) := relay e m f in relay_all m fs
  end.

Lemma relay_all_seen t k fs : forall m, flood_seen (fld m) !! k = Some t ->
  Forall (fun x => now (fst x) - FLOOD_SEEN_TTL <= t) fs ->
  flood_seen (fld (relay_all m fs)) !! k = Some t /\ cfg (relay_all m fs) = cfg m.
Proof.
  induction fs as [|[e f] fs IH]; intros m Hk Hf; cbn [relay_all]; [done|].
  inversion Hf as [|? ? He Hf']; subst. pose proof (relay_seen e m f k t Hk He) as H.
  destruct (relay e m f) as [[out f'] m']. destruct H as [H Hc].
  destruct (IH m' H Hf') as [? ?]. split; [done|congruence].
Qed.

(** A broadcast is flooded once.  After a node has flooded the frame with some
    source and sequence number, it drops every further copy of it for 30
    seconds, whatever changed in the copy's hop count and whatever frames it
    handles in between, and sends nothing for it. *)
Theorem flood_once (e e' : Env) (m m1 : MeshData) (frame f1 frame' : list Z)
  (h h' : Frame.MeshFrameHeader) (from : Z) (l : list Z) (fs : list (Env * list Z))
  (Hd : Frame.decode frame = Ok h) (Hto : Frame.to_node_id h = Frame.BROADCAST_NODE_ID)
  (Hfl : relay e m frame = (Flooded from l, f1, m1))
  (Hfs : Forall (fun x => now (fst x) <= now e + FLOOD_SEEN_TTL) fs)
  (He' : now e' <= now e + FLOOD_SEEN_TTL)
  (Hd' : Frame.decode frame' = Ok h') (Hto' : Frame.to_node_id h' = Frame.BROADCAST_NODE_ID)
  (Hfrom : Frame.from_node_id h' = Frame.from_node_id h) (Hseq : Frame.seq h' = Frame.seq h) :
  let m2 := relay_all m1 fs in
  let '(out, f2, m3) := relay e' m2 frame' in
  (exists r, out = RelayDropped r) /\ f2 = frame' /\ wire (lnk m3) = wire (lnk m2).
Proof.
  intros m2.
  assert (Hk : flood_seen (fld m1) !! (Frame.from_node_id h, Frame.seq h) = Some (now e)).
  { revert Hfl. unfold relay. destruct (decide (_ < _)%nat); [done|]. rewrite Hd.
    destruct (decide (Frame.version h <> _)); [done|]. rewrite decide_True by done.
    unfold relay_broadcast. destruct (decide (Frame.packet_type_ h <> _)); [done|].
    destruct (broadcast_key (cfg m)); [|done]. destruct (decide (route_mac _ _ <> _)); [done|].
    destruct (decide (_ = self_node_id _)); [done|]. destruct (decide (is_Some _)); [done|].
    destruct (decide (Frame.ttl h = 0)); [done|].
    set (m0 := set_seen _ _). assert (H0 : flood_seen (fld m0) !! (Frame.from_node_id h, Frame.seq h) = Some (now e)).
    { cbn. apply lookup_insert_eq. }
    destruct (flood_token e); [|by intros [= _ _ _ <-]].
    match goal with |- context [flood_send e m0 ?f ?l] =>
      pose proof (flood_send_fld e f l m0) as [Hf _]; destruct (flood_send e m0 f l) as [l' m''] end.
    intros [= _ _ _ <-]. cbn [snd] in Hf. by rewrite Hf. }
  destruct (relay_all_seen (now e) _ fs m1 Hk) as [Hk2 _].
  { eapply Forall_impl; [|exact Hfs]. cbn. intros. lia. }
  fold m2 in Hk2. unfold relay. destruct (decide (_ < _)%nat); [by eauto|]. rewrite Hd'.
  destruct (decide (Frame.version h' <> _)); [by eauto|]. rewrite (decide_True _ _ Hto').
  unfold relay_broadcast. destruct (decide (Frame.packet_type_ h' <> _)); [by eauto|].
  destruct (broadcast_key (cfg m2)); [|by eauto]. destruct (decide (route_mac _ _ <> _)); [by eauto|].
  destruct (decide (_ = self_node_id _)); [by eauto|].
  rewrite decide_True; [by eauto|]. exists (now e). cbn. rewrite Hfrom, Hseq.
  rewrite map_lookup_filter_Some. split; [done|]. cbn. unfold FLOOD_SEEN_TTL in *. lia.
Qed.

(** ** Path choice *)

Lemma path_pool_elem m dest live p : p ∈ path_pool m dest live -> p ∈ live.
Proof.
  unfold path_pool. set (healthy := List.filter _ live).
  destruct (sort _ healthy) as [|x l] eqn:E.
  - by rewrite elem_of_sort.
  - rewrite <- E, elem_of_sort. by intros [? _]%elem_of_bfilter.
Qed.

(** Path choice.  A path is chosen exactly when the destination has an unexpired
    path whose key this node holds; the chosen one is such a path and is
    recorded as the one in use; it has fewer than three misses whenever any
    such path has, and otherwise the default flow takes one with the fewest
    misses. *)
Theorem pick_path_spec (e : Env) (m : MeshData) (dest flow : Z) :
  let live := live_paths e m (default [] (path_table (pths m) !! dest)) in
  match pick_path e m dest flow with
  | (None, m') => live = [] /\ m' = m
  | (Some p, m') =>
      p ∈ live /\ last_sent_path (pths m') !! dest = Some (path_id p) /\
      ((exists q, q ∈ live /\ health_of m q < PATH_HEALTH_MISS_LIMIT) ->
         health_of m p < PATH_HEALTH_MISS_LIMIT) /\
      ((forall q, q ∈ live -> PATH_HEALTH_MISS_LIMIT <= health_of m q) -> flow = 0 ->
         forall q, q ∈ live -> health_of m p <= health_of m q)
  end.
Proof.
  unfold pick_path. destruct (path_table (pths m) !! dest) as [ps|]; cbn [default]; [|done].
  set (live := live_paths e m ps). destruct (decide (live = [])) as [|Hne]; [done|].
  set (pool := path_pool m dest live).
  set (healthy := List.filter (fun p => bool_decide (health_of m p < PATH_HEALTH_MISS_LIMIT)) live).
  set (byl := fun a b => bool_decide (loss_of m dest a <= loss_of m dest b)).
  set (byh := fun a b => bool_decide (health_of m a <= health_of m b)).
  assert (Hpool : (healthy <> [] /\ pool = sort byl healthy) \/ (healthy = [] /\ pool = sort byh live)).
  { unfold pool, path_pool. fold healthy byl byh. destruct healthy as [|x l] eqn:E; [by right|left].
    split; [done|]. destruct (sort byl (x :: l)) as [|y l'] eqn:E'; [|done].
    apply (f_equal length) in E'. by rewrite length_sort in E'. }
  assert (Hlen : (0 < length pool)%nat).
  { assert (Hpos : forall l : list PathEntry, l <> [] -> (0 < length l)%nat) by (intros []; cbn; [done|lia]).
    destruct Hpool as [[H ->]|[_ ->]]; rewrite length_sort; by apply Hpos. }
  destruct (pool !! _) as [p|] eqn:Ep.
  2:{ apply lookup_ge_None in Ep. pose proof (Z.mod_pos_bound flow (Z.of_nat (length pool))). lia. }
  pose proof (list_elem_of_lookup_2 _ _ _ Ep) as Hin.
  split_and!; [by eapply path_pool_elem | cbn; apply lookup_insert_eq | |].
  - intros (q & Hq & Hh). destruct Hpool as [[_ Hp]|[Hn _]].
    + rewrite Hp, elem_of_sort in Hin. apply elem_of_bfilter in Hin as [_ H]. by apply bool_decide_eq_true in H.
    + assert (Hx : q ∈ healthy) by (apply elem_of_bfilter; by rewrite bool_decide_true).
      rewrite Hn in Hx. by apply elem_of_nil in Hx.
  - intros Hall -> q Hq. destruct Hpool as [[Hn _]|[_ Hp]].
    + destruct healthy as [|x l] eqn:E; [done|]. assert (Hx : x ∈ healthy) by (rewrite E; left).
      apply elem_of_bfilter in Hx as [Hx Hh]. apply bool_decide_eq_true in Hh. specialize (Hall x Hx). lia.
    + rewrite Zmod_0_l in Ep. cbn in Ep. rewrite Hp in Ep, Hlen.
      destruct (sort byh live) as [|x l] eqn:Es; [done|]. injection Ep as ->.
      assert (Hq' : q ∈ p :: l) by (rewrite <- Es; by apply elem_of_sort).
      apply elem_of_cons in Hq' as [->|Hq']; [done|].
      assert (Hle : byh p q = true); [|by apply bool_decide_eq_true in Hle].
      eapply (sorted_head_min byh); [..|exact Hq'].
      * intros a b c. unfold byh. rewrite !bool_decide_eq_true. lia.
      * rewrite <- Es. apply sort_sorted. intros a b. unfold byh.
        rewrite bool_decide_eq_false, bool_decide_eq_true. lia.
Qed.

(** ** Who a session is with *)

Lemma try_send_keeps e to frame addrs : forall m last,
  let '(_, _, m') := try_send e m to frame addrs last in
  hs m' = hs m /\ cfg m' = cfg m /\ pths m' = pths m /\ fld m' = fld m.
Proof.
  induction addrs as [|a addrs IH]; intros m last; cbn; [done|].
  destruct (send_frame e a frame) as [|[]]; [done| |apply IH].
  specialize (IH (set_ptb m (inner_mtu e a)) (Some a)). by destruct (try_send _ _ _ _ _ _) as [[? ?] ?].
Qed.

Lemma path_miss_peer_keeps m dest :
  hs (path_miss_peer m dest) = hs m /\ cfg (path_miss_peer m dest) = cfg m.
Proof.
  unfold path_miss_peer. destruct (path_table (pths m) !! dest) as [[|]|]; cbn; by destruct (_ !! dest).
Qed.

Lemma send_to_node_hop_keeps e m to hop frame :
  hs (snd (send_to_node_hop e m to hop frame)) = hs m /\
  cfg (snd (send_to_node_hop e m to hop frame)) = cfg m.
Proof.
  unfold send_to_node_hop. cbv zeta. destruct (endpoint_table _ !! _) as [addrs|]; [|done].
  set (m0 := set_ptb m None). set (l := order_endpoints _ _ _ _).
  pose proof (try_send_keeps e to frame l m0 None) as H.
  destruct (try_send e m0 to frame l None) as [[[] last] m1]; destruct H as (Hh & Hc & _); cbn [snd].
  - by rewrite Hh, Hc.
  - destruct (path_miss_peer_keeps m1 to) as [Hh' Hc']. rewrite Hh in Hh'. rewrite Hc in Hc'.
    destruct last as [a|]; [|done]. by destruct (endpoint_owner _ _ _).
Qed.

Lemma pick_path_keeps e m dest flow :
  hs (snd (pick_path e m dest flow)) = hs m /\ cfg (snd (pick_path e m dest flow)) = cfg m.
Proof.
  unfold pick_path. destruct (path_table _ !! dest); [|done]. destruct (decide _); [done|].
  by destruct (_ !! _).
Qed.

(** Sending along the first hop leaves the handshake tables alone. *)
Lemma first_hop_keeps e m to :
  hs (snd (path_first_hop e m to)) = hs m /\ cfg (snd (path_first_hop e m to)) = cfg m.
Proof.
  unfold path_first_hop. pose proof (pick_path_keeps e m to 0) as H. by destruct (pick_path e m to 0).
Qed.

Lemma send_response_keeps e m to payload :
  hs (snd (send_response e m to payload)) = hs m /\ cfg (snd (send_response e m to payload)) = cfg m.
Proof.
  unfold send_response. destruct (build_handshake_frame m to payload) as [frame| |]; [|done..].
  pose proof (first_hop_keeps e m to) as H. destruct (path_first_hop e m to) as [hop m1]. cbn [snd] in H.
  pose proof (send_to_node_hop_keeps e m1 to hop frame) as H'.
  destruct (send_to_node_hop e m1 to hop frame). cbn [snd] in *. destruct H, H'. split; congruence.
Qed.

(** Every pending initiator expects the static key the netmap gives its peer. *)
Definition initiators_ok (m : MeshData) : Prop := forall p i,
  initiators (hs m) !! p = Some i ->
  peer_statics (cfg m) !! p = Some (Handshake.expected_peer_static i).

Lemma initiate_initiators_ok e m peer :
  initiators_ok m -> initiators_ok (snd (initiate_handshake e m peer)).
Proof.
  intros Hm. unfold initiate_handshake. destruct (decide _); [done|]. destruct (ctx (cfg m)) as [c|]; [|done].
  destruct (peer_statics (cfg m) !! peer) as [ps|] eqn:Eps; [|done].
  unfold Handshake.initiator_new. destruct (decide _); [done|].
  destruct (Handshake.build_initiator _ _ _ _) as [st|x]; cbn [Handshake.noise]; step; [|done].
  unfold Handshake.write_msg1. cbn [Handshake.sent_msg1 Handshake.i_state].
  destruct (Handshake.write_message _ _ _) as [[body|x] st']; [|done]. intros p i. cbn [snd].
  change (initiators (hs (set_initiators m ?x))) with x. rewrite lookup_insert_Some.
  intros [[<- <-]|[_ Hp]]; [exact Eps|by apply Hm].
Qed.

(** What must hold for a session to appear. *)
Definition proven (m m' : MeshData) (from : Z) : Prop :=
  (exists st rs, peer_statics (cfg m) !! from = Some rs /\ Handshake.get_remote_static st = Some rs) \/
  (exists v c, binding_verifier (cfg m) = Some v /\ binding_claims (hs m') !! from = Some c /\
     v from (claim_static c) (claim_binding c) (fst (anchor c)) (snd (anchor c)) = true).

Lemma read_msg2_expected i payload :
  Handshake.expected_peer_static (snd (Handshake.read_msg2 i payload)) = Handshake.expected_peer_static i.
Proof.
  unfold Handshake.read_msg2. destruct (negb _ || _); [done|]. destruct (decide _); [done|].
  destruct (Handshake.read_message _ _ _) as [[] st]; [|done].
  by destruct (Handshake.write_message _ _ _) as [[] ?].
Qed.

Lemma finish_static i k : Handshake.finish i = Ok k ->
  Handshake.get_remote_static (Handshake.i_state i) = Some (Handshake.expected_peer_static i).
Proof.
  unfold Handshake.finish. destruct (negb _); [done|]. intros H.
  apply bind_Ok_inv in H as (rs & Hp & H). unfold Handshake.peer_static in Hp.
  destruct (Handshake.get_remote_static _) as [rs'|]; [|done].
  destruct (decide (length rs' = _)); [|done]. apply Ok_inj in Hp as ->.
  destruct (decide (rs <> _)) as [|Hn]; [done|].
  by destruct (decide (rs = Handshake.expected_peer_static i)) as [->|].
Qed.

Lemma read_msg3_claim v r payload from k r' :
  Handshake.read_msg3 v r payload from = (Ok k, r') ->
  exists c, claim_of r payload = Some c /\
    v from (claim_static c) (claim_binding c) (fst (anchor c)) (snd (anchor c)) = true.
Proof.
  unfold Handshake.read_msg3, claim_of. destruct (negb _); [done|].
  destruct (Handshake.parse_msg3 payload) as [w| |]; [|done..].
  destruct (Handshake.read_message _ _ _) as [[n|x] st]; [|done].
  destruct (Handshake.peer_static st _) as [rs| |]; step; [|done..].
  destruct (v from rs _ _ _) eqn:E; cbn [negb]; [|done]. intros _. eexists. split; [done|]. exact E.
Qed.

(** Who a session is with.  Handling any handshake payload never panics the node
    over a missing table entry, keeps the pending initiators tied to the static
    keys of the netmap, touches no session but the sender's, and makes a session
    only when the Noise run ended with the static key the netmap gives for the
    sender, or when the verifier accepted the sender's binding, which is then
    recorded. *)
Theorem established_authentic (e : Env) (m : MeshData) (from : Z) (payload : list Z)
  (Hi : initiators_ok m) :
  let '(ev, m') := handle_handshake e m from payload in
  initiators_ok m' /\ cfg m' = cfg m /\
  match ev with
  | Established p => p = from /\ proven m m' from /\
      exists k, sessions (hs m') = <[from := Handshake.session_new from k]> (sessions (hs m))
  | _ => sessions (hs m') = sessions (hs m)
  end.
Proof.
  assert (Hdel : initiators_ok (set_initiators m (delete from (initiators (hs m))))).
  { intros p i. cbn. rewrite lookup_delete_Some. intros [_ ?]. by apply Hi. }
  unfold handle_handshake. destruct (decide (length payload = Handshake.MSG1_PAYLOAD_LEN)).
  { unfold handle_msg1. destruct (resolve_collision m from) as [m0|] eqn:Er; [|done].
    assert (H0 : initiators_ok m0 /\ cfg m0 = cfg m /\ sessions (hs m0) = sessions (hs m)).
    { unfold resolve_collision in Er. destruct (initiators (hs m) !! from); [|by injection Er as <-].
      destruct (decide _); [|done]. by injection Er as <-. }
    destruct H0 as (H0 & Hc & Hs0). rewrite <- Hc, <- Hs0. clear Hc Hs0 Er.
    destruct (ctx (cfg m0)) as [c|]; [|done].
    destruct (Handshake.responder_new _ _ _ _ _) as [r| |]; [|done..].
    destruct (Handshake.read_msg1 r payload) as [[u| |] r1]; [|done..].
    destruct (Handshake.write_msg2 r1) as [[m2| |] r2]; [|done..].
    set (m1 := set_responders _ _). pose proof (send_response_keeps e m1 from m2) as [Hh Hc].
    destruct (send_response e m1 from m2) as [sent m']. cbn [snd] in *.
    assert (initiators_ok m') by (intros p i; rewrite Hh, Hc; apply H0).
    destruct sent; split_and!; rewrite ?Hh, ?Hc; done. }
  destruct (decide (length payload = Handshake.MSG2_PAYLOAD_LEN)).
  { unfold handle_msg2. destruct (initiators (hs m) !! from) as [i|] eqn:Ei; [|done].
    pose proof (read_msg2_expected i payload) as Hx.
    destruct (Handshake.read_msg2 i payload) as [[m3| |] i']; [|done..]. cbn [snd] in Hx.
    destruct (Handshake.finish i') as [k| |] eqn:Ef; [|done..]. apply finish_static in Ef.
    set (m0 := set_initiators _ _) in *.
    destruct (build_handshake_frame m0 from m3) as [frame| |]; [|done..].
    pose proof (first_hop_keeps e m0 from) as [Hh1 Hc1]. destruct (path_first_hop e m0 from) as [hop m1].
    pose proof (send_to_node_hop_keeps e m1 from hop frame) as [Hh2 Hc2].
    destruct (send_to_node_hop e m1 from hop frame) as [r m2]. cbn [snd] in *.
    rewrite Hh1 in Hh2. rewrite Hc1 in Hc2.
    assert (initiators_ok m2) by (intros p j; rewrite Hh2, Hc2; apply Hdel).
    destruct r; (split; [|split]); try (rewrite ?Hh2, ?Hc2; done); try done.
    split_and!; [done| |exists k; cbn; by rewrite Hh2].
    left. exists (Handshake.i_state i'), (Handshake.expected_peer_static i). split; [by apply Hi|].
    by rewrite Ef, Hx. }
  destruct (decide (length payload = Handshake.MSG3_PAYLOAD_LEN)); [|done].
  unfold handle_msg3. destruct (binding_verifier (cfg m)) as [v|] eqn:Ev; [|done].
  destruct (responders (hs m) !! from) as [r|] eqn:Er; [|done].
  destruct (Handshake.read_msg3 v r payload from) as [[k| |] r'] eqn:E3; [|done..].
  apply read_msg3_claim in E3 as (c & -> & Hv). split_and!; try done.
  - right. exists v, c. split_and!; [done| |done]. cbn. apply lookup_insert_eq.
  - by exists k.
Qed.

End WithNoise.
(** ** Concrete nodes *)

Section Samples.
Import Toy Handshake.ToyNoise.

Definition sample_env : Env :=
  mk_env 1000 0 [] 77 (fun _ _ => SendOk) (fun _ => None) true true 5 0 [1; 2; 3].

Definition sample_addr (i : Z) : SocketAddr := (V4 [10; 0; 0; i], 7000).

Definition sample_ctx (i : Z) : HandshakeContext := mk_ctx 7 1 (replicate 32 i) (replicate 64 5) (3, 4).

(** Node [self] of a mesh of three, which accepts every binding of node 1. *)
Definition sample_node (self : Z) : MeshData :=
  let others := List.filter (fun i => negb (i =? self)) [1; 2; 3] in
  let m := bind_underlay 0 self in
  with_paths
    (with_cfg m (mk_config self (Some (sample_ctx self))
      (list_to_map ((fun i => (i, x25519_base (replicate 32 i))) <$> others))
      (Some (fun n _ _ _ _ => bool_decide (n = 1)))
      (list_to_map ((fun i => (i, replicate 32 (10 + i))) <$> [1; 2; 3]))
      (list_to_map ((fun i => (i, [sample_addr i])) <$> others)) ∅
      (list_to_map ((fun i => (i, CAPABILITY_BROADCAST)) <$> [1; 2; 3]))
      (Some (replicate 32 99))))
    (mk_paths {[ 50 := replicate 32 50 ]} (if self =? 1 then {[ 3 := [mk_path 50 1 [2; 3] 0] ]} else ∅)
      (if self =? 1 then ∅ else {[ 50 := mk_path 50 1 [2; 3] 0 ]}) ∅ ∅ ∅ ∅).

(** A handshake frame from node 1 to node 3, as node 2 sees it. *)
Definition sample_transit : list Z :=
  match build_handshake_frame (sample_node 1) 3 [1; 2; 3] with Ok f => f | _ => [] end.

Lemma relay_sound_witness :
  fst (fst (relay sample_env (sample_node 2) sample_transit)) = Forwarded 3 /\
  exists addr, wire (lnk (snd (relay sample_env (sample_node 2) sample_transit)))
  = wire (lnk (sample_node 2)) ++ [(addr, snd (fst (relay sample_env (sample_node 2) sample_transit)))].
Proof.
  assert (Ho : fst (fst (relay sample_env (sample_node 2) sample_transit)) = Forwarded 3)
    by (vm_compute; reflexivity).
  assert (Hb : forallb (fun z => (0 <=? z) && (z <? 256)) sample_transit = true) by (vm_compute; reflexivity).
  pose proof (relay_sound sample_env (sample_node 2) sample_transit) as H.
  destruct (relay sample_env (sample_node 2) sample_transit) as [[out f'] m']. cbn [fst snd] in *. subst out.
  split; [reflexivity|]. destruct H as (h & next & addrs & addr & _ & _ & _ & _ & _ & _ & _ & _ & Hw & _).
  - apply list.Forall_forall. intros z Hz. apply list_elem_of_In in Hz. rewrite forallb_forall in Hb.
    specialize (Hb z Hz). unfold is_uint. lia.
  - intros h Hh. apply (f_equal (fun o => match o with Ok x => Frame.to_node_id x | _ => 0 end)) in Hh.
    assert (E : Frame.to_node_id h = 3) by (rewrite <- Hh; vm_compute; reflexivity). rewrite E. done.
  - exists addr. exact Hw.
Defined.

(** A broadcast of node 1. *)
Definition sample_broadcast : list Z :=
  match fst (build_broadcast_frame (sample_node 1) [7; 8]) with Ok f => f | _ => [] end.

Definition sample_broadcast_header : Frame.MeshFrameHeader :=
  match Frame.decode sample_broadcast with Ok h => h | _ => Frame.default_header end.

Lemma flood_once_witness :
  let m1 := snd (relay sample_env (sample_node 2) sample_broadcast) in
  fst (fst (relay sample_env (sample_node 2) sample_broadcast)) = Flooded 1 [3] /\
  let m2 := relay_all m1 [(sample_env, sample_transit)] in
  exists r, fst (fst (relay sample_env m2 (Frame.decrement_ttl sample_broadcast))) = RelayDropped r.
Proof.
  intros m1. assert (Ho : fst (fst (relay sample_env (sample_node 2) sample_broadcast)) = Flooded 1 [3])
    by (vm_compute; reflexivity).
  split; [exact Ho|]. intros m2.
  pose proof (flood_once sample_env sample_env (sample_node 2) m1 sample_broadcast
    (snd (fst (relay sample_env (sample_node 2) sample_broadcast))) (Frame.decrement_ttl sample_broadcast)
    sample_broadcast_header (Frame.set_ttl 63 sample_broadcast_header) 1 [3] [(sample_env, sample_transit)]) as H.
  cbv zeta in H. fold m2 in H. destruct (relay sample_env m2 (Frame.decrement_ttl sample_broadcast)) as [[out f2] m3].
  destruct H as (Hr & _); [vm_compute; reflexivity | vm_compute; reflexivity | | | | vm_compute; reflexivity
    | vm_compute; reflexivity | vm_compute; reflexivity | vm_compute; reflexivity | exact Hr].
  - unfold m1. destruct (relay sample_env (sample_node 2) sample_broadcast) as [[o f] m]. cbn [fst snd] in *.
    by subst o.
  - constructor; [|constructor]. vm_compute. discriminate.
  - vm_compute. discriminate.
Defined.

(** Node 1 after it has opened a handshake to node 2, and node 2's answer. *)
Definition sample_opened : MeshData := snd (initiate_handshake sample_env (sample_node 1) 2).

Definition sample_answer : list Z := replicate 32 2 ++ replicate 64 0.

Definition established (ev : IncomingEvent) : option Z :=
  match ev with Established p => Some p | _ => None end.

Lemma established_authentic_witness :
  established (fst (handle_handshake sample_env sample_opened 2 sample_answer)) = Some 2 /\
  initiators_ok (snd (handle_handshake sample_env sample_opened 2 sample_answer)) /\
  is_Some (sessions (hs (snd (handle_handshake sample_env sample_opened 2 sample_answer))) !! 2).
Proof.
  assert (Ho : established (fst (handle_handshake sample_env sample_opened 2 sample_answer)) = Some 2)
    by (vm_compute; reflexivity).
  split; [exact Ho|].
  pose proof (established_authentic sample_env sample_opened 2 sample_answer) as H.
  destruct (handle_handshake sample_env sample_opened 2 sample_answer) as [ev m']. cbn [fst snd] in *.
  destruct ev; try discriminate. injection Ho as ->. destruct H as (Hi & _ & _ & _ & k & Hk).
  - apply initiate_initiators_ok. intros p i Hp.
    change (initiators (hs (sample_node 1))) with (∅ : gmap Z Handshake.HandshakeInitiator) in Hp.
    by apply lookup_empty_Some in Hp.
  - split; [exact Hi|]. rewrite Hk. eexists. apply lookup_insert_eq.
Defined.

End Samples.

End Mesh.
