(* ===== verification/Dispatch.v ===== *)
(** * Mesh data plane: tables, probes and the entry point (rill-mesh/src/data)

    The operations with which the runtime fills the tables of [Mesh.MeshData]
    (mod.rs, paths.rs), the liveness of paths and endpoints (paths.rs), path
    probes and statistics (path_stats.rs), and the entry point for packets with
    its drop counters and telemetry (dispatch.rs).

    Where the code walks a map and sorts what it found by the key, the walk is
    [map_to_list]; where it returns the walk unsorted, the result here is that
    list, and nothing depends on its order. *)

From S2P Require Import Prelude Replay Crypto Frame Handshake Probe Net Mesh.
Import Crypto Net Mesh.

Module Dispatch.

Definition PROBE_MAX_PENDING : nat := 64.
Definition PATH_PROBE_MAX_PENDING : nat := 64.
Definition PATH_PROBE_TIMEOUT : Z := 35 * 1000000000.

Section WithNoise.
Context `{P : Primitives} `{N : Handshake.NoiseProtocol}.

(** ** Tables filled by the runtime *)

Definition set_self_node_id (m : MeshData) (x : Z) : MeshData :=
  let c := cfg m in
  with_cfg m (mk_config x (ctx c) (peer_statics c) (binding_verifier c) (key_dst_table c)
    (endpoint_table c) (relay_endpoint_owner c) (peer_capabilities c) (broadcast_key c)).
Definition set_handshake_context (m : MeshData) (x : HandshakeContext) : MeshData :=
  let c := cfg m in
  with_cfg m (mk_config (self_node_id c) (Some x) (peer_statics c) (binding_verifier c) (key_dst_table c)
    (endpoint_table c) (relay_endpoint_owner c) (peer_capabilities c) (broadcast_key c)).
Definition put_statics (m : MeshData) x : MeshData :=
  let c := cfg m in
  with_cfg m (mk_config (self_node_id c) (ctx c) x (binding_verifier c) (key_dst_table c)
    (endpoint_table c) (relay_endpoint_owner c) (peer_capabilities c) (broadcast_key c)).
Definition set_binding_verifier (m : MeshData) x : MeshData :=
  let c := cfg m in
  with_cfg m (mk_config (self_node_id c) (ctx c) (peer_statics c) (Some x) (key_dst_table c)
    (endpoint_table c) (relay_endpoint_owner c) (peer_capabilities c) (broadcast_key c)).
Definition put_key_dst (m : MeshData) x : MeshData :=
  let c := cfg m in
  with_cfg m (mk_config (self_node_id c) (ctx c) (peer_statics c) (binding_verifier c) x
    (endpoint_table c) (relay_endpoint_owner c) (peer_capabilities c) (broadcast_key c)).
Definition put_endpoints (m : MeshData) x : MeshData :=
  let c := cfg m in
  with_cfg m (mk_config (self_node_id c) (ctx c) (peer_statics c) (binding_verifier c) (key_dst_table c)
    x (relay_endpoint_owner c) (peer_capabilities c) (broadcast_key c)).
Definition set_relay_owners (m : MeshData) x : MeshData :=
  let c := cfg m in
  with_cfg m (mk_config (self_node_id c) (ctx c) (peer_statics c) (binding_verifier c) (key_dst_table c)
    (endpoint_table c) x (peer_capabilities c) (broadcast_key c)).
Definition put_capabilities (m : MeshData) x : MeshData :=
  let c := cfg m in
  with_cfg m (mk_config (self_node_id c) (ctx c) (peer_statics c) (binding_verifier c) (key_dst_table c)
    (endpoint_table c) (relay_endpoint_owner c) x (broadcast_key c)).

Definition set_key_dst (m : MeshData) (node : Z) (key : list Z) : MeshData :=
  put_key_dst m (<[node := key]> (key_dst_table (cfg m))).
Definition remove_key_dst (m : MeshData) (node : Z) : MeshData :=
  put_key_dst m (delete node (key_dst_table (cfg m))).
Definition set_peer_static (m : MeshData) (peer : Z) (k : list Z) : MeshData :=
  put_statics m (<[peer := k]> (peer_statics (cfg m))).
Definition remove_peer_static (m : MeshData) (peer : Z) : MeshData :=
  put_statics m (delete peer (peer_statics (cfg m))).
Definition set_peer_capabilities (m : MeshData) (peer c : Z) : MeshData :=
  put_capabilities m (<[peer := c]> (peer_capabilities (cfg m))).
Definition remove_peer_capabilities (m : MeshData) (peer : Z) : MeshData :=
  put_capabilities m (delete peer (peer_capabilities (cfg m))).
Definition remove_endpoint (m : MeshData) (peer : Z) : MeshData :=
  put_endpoints m (delete peer (endpoint_table (cfg m))).
Definition drop_session (m : MeshData) (peer : Z) : MeshData :=
  set_sessions m (delete peer (sessions (hs m))).
Definition drop_initiator (m : MeshData) (peer : Z) : MeshData :=
  set_initiators m (delete peer (initiators (hs m))).

Definition is_unspecified (a : IpAddr) : bool :=
  match a with V4 o => bool_decide (o = replicate 4 0) | V6 o => bool_decide (o = replicate 16 0) end.

(** fe80::/10. *)
Definition is_unicast_link_local (o : list Z) : bool :=
  match o with
  | a :: b :: _ => bool_decide (Z.land (a * 256 + b) 0xffc0 = 0xfe80)
  | _ => false
  end.

Definition usable (a : SocketAddr) : bool :=
  negb (is_unspecified (fst a)) &&
  match fst a with V6 v6 => negb (is_unicast_link_local v6) | V4 _ => true end.

Definition set_endpoints (m : MeshData) (node : Z) (addrs : list SocketAddr) : MeshData :=
  match List.filter usable addrs with
  | [] => m
  | l => put_endpoints m (<[node := l]> (endpoint_table (cfg m)))
  end.

Definition endpoint (m : MeshData) (node : Z) : option SocketAddr :=
  addrs ← endpoint_table (cfg m) !! node; head addrs.

Definition local_binding_claim (m : MeshData) : option BindingClaim :=
  c ← ctx (cfg m);
  Some (mk_claim (x25519_base (local_static c)) (ctx_binding c) (ctx_issuance c)).

Definition set_broadcast_key (m : MeshData) (key : list Z) : MeshData :=
  let c := cfg m in
  with_flood
    (with_cfg m (mk_config (self_node_id c) (ctx c) (peer_statics c) (binding_verifier c)
       (key_dst_table c) (endpoint_table c) (relay_endpoint_owner c) (peer_capabilities c) (Some key)))
    (mk_flood (broadcast_seq (fld m)) ∅ ∅).

Definition take_ptb_mtu (m : MeshData) : option Z * MeshData :=
  (ptb_next_hop_mtu (lnk m), set_ptb m None).

(** ** Paths *)

Definition set_key_path (m : MeshData) (id : Z) (key : list Z) : MeshData :=
  let p := pths m in
  with_paths m (mk_paths (<[id := key]> (key_path_table p)) (path_table p) (forward_paths p)
    (path_health p) (path_stats p) (last_sent_path p) (ingress_hop p)).

Definition remove_key_path (m : MeshData) (id : Z) : MeshData :=
  let p := pths m in
  with_paths m (mk_paths (delete id (key_path_table p)) (path_table p) (forward_paths p)
    (delete id (path_health p)) (path_stats p) (last_sent_path p) (ingress_hop p)).

Definition put_paths (m : MeshData) x : MeshData :=
  let p := pths m in
  with_paths m (mk_paths (key_path_table p) x (forward_paths p) (path_health p) (path_stats p)
    (last_sent_path p) (ingress_hop p)).

Definition put_forward (m : MeshData) x : MeshData :=
  let p := pths m in
  with_paths m (mk_paths (key_path_table p) (path_table p) x (path_health p) (path_stats p)
    (last_sent_path p) (ingress_hop p)).

Definition put_ingress (m : MeshData) (from hop : Z) : MeshData :=
  let p := pths m in
  with_paths m (mk_paths (key_path_table p) (path_table p) (forward_paths p) (path_health p)
    (path_stats p) (last_sent_path p) (<[from := hop]> (ingress_hop p))).

Definition set_paths (m : MeshData) (dest : Z) (ps : list PathEntry) : MeshData :=
  put_paths m (<[dest := ps]> (path_table (pths m))).

Definition set_forward_path (m : MeshData) (p : PathEntry) : MeshData :=
  put_forward m (<[path_id p := p]> (forward_paths (pths m))).

Definition withdraw_path (m : MeshData) (dest id : Z) : MeshData :=
  let m := remove_key_path m id in
  let m := put_forward m (delete id (forward_paths (pths m))) in
  match path_table (pths m) !! dest with
  | None => m
  | Some ps =>
      match List.filter (fun p => bool_decide (path_id p <> id)) ps with
      | [] => put_paths m (delete dest (path_table (pths m)))
      | ps => put_paths m (<[dest := ps]> (path_table (pths m)))
      end
  end.

Definition remove_paths_for (m : MeshData) (dest : Z) : MeshData :=
  match path_table (pths m) !! dest with
  | None => m
  | Some ps =>
      foldl (fun m p => remove_key_path m (path_id p))
        (put_paths m (delete dest (path_table (pths m)))) ps
  end.

Definition path_ok_peer (m : MeshData) (dest : Z) : MeshData :=
  foldl (fun m p => path_ok m (path_id p)) m (default [] (path_table (pths m) !! dest)).

Definition apply_ingress_health (m : MeshData) (from : Z) : MeshData :=
  match ingress_hop (pths m) !! from, path_table (pths m) !! from with
  | Some ingress, Some ps =>
      foldl (fun m p =>
        if decide (default from (head (hops p)) = ingress) then path_ok m (path_id p)
        else path_miss m (path_id p)) m ps
  | _, _ => m
  end.

(** ** Endpoints *)

Definition holds (m : MeshData) (addr : SocketAddr) (id : Z) : bool :=
  match endpoint_table (cfg m) !! id with Some addrs => bool_decide (addr ∈ addrs) | None => false end.

(** The loop over the endpoint table, with its fallback. *)
Fixpoint scan_owner (m : MeshData) (addr : SocketAddr) (pref_not : Z) (fallback : option Z) (ids : list Z)
    : option Z :=
  match ids with
  | [] => fallback
  | id :: ids =>
      if holds m addr id then
        if decide (id <> pref_not) then Some id else scan_owner m addr pref_not (Some id) ids
      else scan_owner m addr pref_not fallback ids
  end.

Definition endpoint_owner_preferring (e : Env) (m : MeshData) (addr : SocketAddr) (pref_not : Z)
    : option Z :=
  match relay_endpoint_owner (cfg m) !! addr with
  | Some id => if decide (id <> pref_not) then Some id else scan_owner m addr pref_not None (walk e)
  | None => scan_owner m addr pref_not None (walk e)
  end.

Definition miss_at (m : MeshData) (owner : Z) (addr : SocketAddr) : MeshData :=
  set_endpoint_health m (bump 32 (owner, addr) (endpoint_health (lnk m))).

Definition demote_direct_endpoints (e : Env) (m : MeshData) (from : Z) : MeshData :=
  foldl (fun m a => miss_at m from a) m
    (List.filter (fun a => bool_decide (endpoint_owner_preferring e m a from = Some from))
       (default [] (endpoint_table (cfg m) !! from))).

Definition miss_endpoint (e : Env) (m : MeshData) (dest : Z) : MeshData :=
  match addr ← last_sent_endpoint (lnk m) !! dest; owner ← endpoint_owner e m addr; Some (owner, addr) with
  | Some (owner, addr) => miss_at m owner addr
  | None => m
  end.

Definition note_endpoint_ok (m : MeshData) (owner : Z) (addr : SocketAddr) : MeshData :=
  match endpoint_health (lnk m) !! (owner, addr) with
  | Some _ => set_endpoint_health m (<[(owner, addr) := 0]> (endpoint_health (lnk m)))
  | None => m
  end.

Definition note_probe_ok (e : Env) (m : MeshData) (addr : SocketAddr) : MeshData :=
  match endpoint_owner e m addr with Some owner => note_endpoint_ok m owner addr | None => m end.

Definition note_probe_miss (e : Env) (m : MeshData) (addr : SocketAddr) : MeshData :=
  match endpoint_owner e m addr with Some owner => miss_at m owner addr | None => m end.

(** [wan_send] to the first endpoint that takes the frame. *)
Definition send_first (e : Env) (m : MeshData) (frame : list Z) (addrs : list SocketAddr)
    : bool * MeshData :=
  match forward_first e frame addrs with
  | Some addr => (true, emit m addr frame)
  | None => (false, m)
  end.

Definition send_to_node (e : Env) (m : MeshData) (to : Z) (frame : list Z) : bool * MeshData :=
  match endpoint_table (cfg m) !! to with
  | None => (false, m)
  | Some addrs =>
      match send_first e m frame addrs with
      | (true, m) => (true, note_tx m to (Z.of_nat (length frame)))
      | (false, m) => (false, m)
      end
  end.

(** The number of nodes reached. *)
Definition flood (e : Env) (m : MeshData) (payload : list Z) : Z * MeshData :=
  if flood_token e then
    match build_broadcast_frame m payload with
    | (Ok frame, m) =>
        foldl (fun '(n, m) peer =>
          let '(ok, m) := send_to_node e m peer frame in (if ok : bool then n + 1 else n, m))
          (0, m) (flood_targets e m (self_node_id (cfg m)))
    | (_, m) => (0, m)
    end
  else (0, m).

(** ** Counters *)

Definition note_rx (m : MeshData) (peer bytes : Z) : MeshData :=
  let t := default (mk_traffic 0 0 0 0) (peer_traffic (lnk m) !! peer) in
  set_traffic m (<[peer := mk_traffic (tx_frames t) (tx_bytes t) (sat_add 64 (rx_frames t) 1)
                             (sat_add 64 (rx_bytes t) bytes)]> (peer_traffic (lnk m))).

Definition is_known_peer (m : MeshData) (peer : Z) : bool :=
  bool_decide (is_Some (key_dst_table (cfg m) !! peer)) || bool_decide (is_Some (sessions (hs m) !! peer)).

Definition drop_at_peer (e : Env) (m : MeshData) (f : Z) : MeshData :=
  let t := tel m in
  let rc := default (Rate.new DROP_STATS_PERIOD (now e)) (drop_stats t !! f) in
  with_tel m (mk_tel (path_probe_pending t) (probe_pending t) (<[f := Rate.tick rc]> (drop_stats t))
    (drop_stats_global t) (<[f := default 0 (telemetry_drops t !! f) + 1]> (telemetry_drops t))
    (telemetry_drops_global t) (direct_pairs t)).

Definition drop_global (m : MeshData) : MeshData :=
  let t := tel m in
  with_tel m (mk_tel (path_probe_pending t) (probe_pending t) (drop_stats t)
    (Rate.tick (drop_stats_global t)) (telemetry_drops t)
    (sat_add 64 (telemetry_drops_global t) 1) (direct_pairs t)).

Definition note_drop (e : Env) (m : MeshData) (from : option Z) : MeshData :=
  match from with
  | Some f => if is_known_peer m f then drop_at_peer e m f else drop_global m
  | None => drop_global m
  end.

(** A packet too long for the receive buffer. *)
Definition recv_too_long (m : MeshData) : MeshData :=
  let t := tel m in
  with_tel m (mk_tel (path_probe_pending t) (probe_pending t) (drop_stats t)
    (Rate.tick (drop_stats_global t)) (telemetry_drops t) (telemetry_drops_global t) (direct_pairs t)).

(** The summary of the period: drops per peer and in all other cases. *)
Definition poll_drop_stats (e : Env) (m : MeshData) : option (list (Z * Z) * Z) * MeshData :=
  let t := tel m in
  let polled := (fun rc => Rate.poll rc (now e)) <$> drop_stats t in
  let per_peer := omap (fun '(peer, x) =>
    match fst x with Some n => if decide (0 < n) then Some (peer, n) else None | None => None end)
    (map_to_list polled) in
  let kept := filter (fun x => Rate.has_pending (snd x) = true) (snd <$> polled) in
  let '(g, global) := Rate.poll (drop_stats_global t) (now e) in
  let g := default 0 g in
  (if decide (per_peer = [] /\ g = 0) then None else Some (per_peer, g),
   with_tel m (mk_tel (path_probe_pending t) (probe_pending t) kept global (telemetry_drops t)
     (telemetry_drops_global t) (direct_pairs t))).

(** ** Path statistics and telemetry *)

Record PathStatInterval := mk_interval {
  i_peer : Z; i_path : Z; i_frames : Z; i_gap : Z; i_reorder : Z; i_rtt : Z
}.

(** [saturating_mul(1000).checked_div(frames)], cut to 32 bits. *)
Definition loss_rate (st : PathStat) : option Z :=
  if decide (frames st = 0) then None else Some (wrap 32 (sat_mul 64 (gap_missing st) 1000 / frames st)).

Definition fold_ewma (st : PathStat) : Z :=
  let old := loss_ewma_permille st / 4 * 3 in
  match loss_rate st with Some rate => old + rate / 4 | None => old end.

(** What one bucket reports, and the bucket afterwards. *)
Definition take_stat (k : Z * Z) (st : PathStat) : option PathStatInterval * PathStat :=
  let ewma := fold_ewma st in
  let rtt_changed := bool_decide (rtt_ms st > 0) && bool_decide (rtt_ms st <> last_reported_rtt st) in
  if bool_decide (frames st = 0) && negb rtt_changed
  then (None, mk_stat (frames st) (gap_missing st) (reorder st) ewma (rtt_ms st)
                (last_reported_rtt st) (last_seq st))
  else (Some (mk_interval (fst k) (snd k) (frames st) (gap_missing st) (reorder st) (rtt_ms st)),
        mk_stat 0 0 0 ewma (rtt_ms st) (rtt_ms st) (last_seq st)).

Definition interval_le (a b : PathStatInterval) : bool :=
  bool_decide (i_peer a < i_peer b) ||
  (bool_decide (i_peer a = i_peer b) && bool_decide (i_path a <= i_path b)).

Definition take_path_stats (m : MeshData) : list PathStatInterval * MeshData :=
  let taken := map_imap (fun k st => Some (take_stat k st)) (path_stats (pths m)) in
  (sort interval_le (omap (fun x => fst (snd x)) (map_to_list taken)),
   set_path_stats m (snd <$> taken)).

Record TelemetryPayload := mk_payload {
  tp_peers : list (Z * PeerTraffic);
  tp_drop_global : Z;
  tp_drops : list (Z * Z);
  tp_direct : list (Z * string * Z);
  tp_paths : list PathStatInterval
}.

Definition by_id {A} (t : gmap Z A) : list (Z * A) :=
  sort (fun a b => bool_decide (fst a <= fst b)) (map_to_list t).

Definition show_socket (a : SocketAddr) : string :=
  match fst a with
  | V4 _ => String.append (show_ip (fst a)) (String.append ":" (dec (snd a)))
  | V6 _ => String.append "[" (String.append (show_ip (fst a)) (String.append "]:" (dec (snd a))))
  end.

Definition take_telemetry (m : MeshData) : TelemetryPayload * MeshData :=
  let t := tel m in
  let peers := by_id (peer_traffic (lnk m)) in
  let direct := (fun '(id, (a, rtt)) => (id, show_socket a, rtt)) <$> by_id (direct_pairs t) in
  let m1 := with_tel (set_traffic m ∅)
    (mk_tel (path_probe_pending t) (probe_pending t) (drop_stats t) (drop_stats_global t) ∅ 0 ∅) in
  let '(paths, m2) := take_path_stats m1 in
  (mk_payload peers (telemetry_drops_global t) (by_id (telemetry_drops t)) direct paths, m2).

(** ** Probes *)

Definition set_probe_pending (m : MeshData) x : MeshData :=
  let t := tel m in
  with_tel m (mk_tel (path_probe_pending t) x (drop_stats t) (drop_stats_global t) (telemetry_drops t)
    (telemetry_drops_global t) (direct_pairs t)).
Definition set_path_probe_pending (m : MeshData) x : MeshData :=
  let t := tel m in
  with_tel m (mk_tel x (probe_pending t) (drop_stats t) (drop_stats_global t) (telemetry_drops t)
    (telemetry_drops_global t) (direct_pairs t)).
Definition set_direct (m : MeshData) x : MeshData :=
  let t := tel m in
  with_tel m (mk_tel (path_probe_pending t) (probe_pending t) (drop_stats t) (drop_stats_global t)
    (telemetry_drops t) (telemetry_drops_global t) x).

(** [u32::try_from(sent.elapsed().as_millis()).unwrap_or(u32::MAX)]. *)
Definition rtt (e : Env) (sent : Z) : Z := Z.min (sat_sub (now e) sent / 1000000) (2 ^ 32 - 1).

Definition handle_probe (e : Env) (m : MeshData) (from_addr : SocketAddr) (packet : list Z)
    : IncomingEvent * MeshData :=
  match Probe.decode packet with
  | None => (Dropped UnknownProtocol, note_drop e m None)
  | Some probe =>
      if decide (Probe.packet_type probe = Probe.PING) then
        let m :=
          if bool_decide (Probe.to_node_id probe = self_node_id (cfg m)) && pong_allow e then
            let reply := Probe.encode (Probe.pong probe []) in
            match send_frame e from_addr reply with SendOk => emit m from_addr reply | _ => m end
          else m in
        (ProbePing (Probe.from_node_id probe), m)
      else if decide (Probe.packet_type probe = Probe.PONG) then
        match probe_pending (tel m) !! Probe.nonce probe with
        | Some (to, endpoint, sent_at) =>
            let m := set_probe_pending m (delete (Probe.nonce probe) (probe_pending (tel m))) in
            let m := set_direct m (<[to := (endpoint, rtt e sent_at)]> (direct_pairs (tel m))) in
            (ProbePong (Probe.from_node_id probe) from_addr (Probe.payload probe), m)
        | None => (Dropped UnknownProtocol, note_drop e m None)
        end
      else (Dropped UnknownProtocol, note_drop e m None)
  end.

Definition send_probe_ping (e : Env) (m : MeshData) (endpoint : SocketAddr) (from to : Z)
    : option Z * MeshData :=
  if decide (PROBE_MAX_PENDING <= size (probe_pending (tel m)))%nat then (None, m)
  else
    let nonce := random_nonce e in
    let m := set_probe_pending m (<[nonce := (to, endpoint, now e)]> (probe_pending (tel m))) in
    let packet := Probe.encode (Probe.ping from to nonce) in
    match send_frame e endpoint packet with
    | SendOk => (Some nonce, emit m endpoint packet)
    | SendErr _ => (None, set_probe_pending m (delete nonce (probe_pending (tel m))))
    end.

Definition take_pending_probes (m : MeshData) : list (Z * SocketAddr) * MeshData :=
  ((fun '(_, (to, endpoint, _)) => (to, endpoint)) <$> map_to_list (probe_pending (tel m)),
   set_probe_pending m ∅).

(** ** Path probes *)

Definition idle_path_probe_targets (e : Env) (m : MeshData) : list (Z * Z * Z) :=
  sort (fun a b => bool_decide (fst (fst a) < fst (fst b)) ||
                   (bool_decide (fst (fst a) = fst (fst b)) && bool_decide (snd (fst a) <= snd (fst b))))
    ('(dest, ps) ← map_to_list (path_table (pths m));
     omap (fun p =>
       if expired p (now_unix e) || negb (bool_decide (is_Some (key_path_table (pths m) !! path_id p)))
       then None
       else if decide (last_sent_path (pths m) !! dest = Some (path_id p)) then None
       else hop0 ← head (hops p); Some (dest, path_id p, hop0)) ps).

Definition probe_header (m : MeshData) (to path flags : Z) : Frame.MeshFrameHeader :=
  Frame.mk_header Frame.VERSION Frame.packet_type.PATH_PROBE flags 64 to (self_node_id (cfg m)) 0 0 path
    (replicate Frame.ROUTE_MAC_LEN 0).

Definition send_path_probe (e : Env) (m : MeshData) (dest path hop : Z)
    : outcome Empty_set (option Z) * MeshData :=
  if decide (PATH_PROBE_MAX_PENDING <= size (path_probe_pending (tel m)))%nat then (Ok None, m)
  else
    match key_path_table (pths m) !! path, endpoint_table (cfg m) !! hop with
    | Some key, Some addrs =>
        match order_endpoints m hop dest (retain_hop_endpoints m hop addrs) with
        | [] => (Ok None, m)
        | candidates =>
            let nonce := random_nonce e in
            match Frame.build_unsealed_frame (probe_header m dest path 0) key
                    (Frame.probe_encode (Frame.mk_probe nonce (unix_millis e) false)) with
            | Ok frame =>
                match send_first e m frame candidates with
                | (true, m) =>
                    let m := note_tx m hop (Z.of_nat (length frame)) in
                    (Ok (Some nonce), set_path_probe_pending m
                       (<[nonce := (dest, path, now e)]> (path_probe_pending (tel m))))
                | (false, m) => (Ok None, m)
                end
            | Err x => match x with end
            | Panic => (Panic, m)
            end
        end
    | _, _ => (Ok None, m)
    end.

Definition poll_path_probe_timeouts (e : Env) (m : MeshData) : MeshData :=
  foldl (fun m '(nonce, (_, path, _)) =>
      path_miss (set_path_probe_pending m (delete nonce (path_probe_pending (tel m)))) path)
    m (List.filter (fun x => bool_decide (sat_sub (now e) (snd (snd x)) > PATH_PROBE_TIMEOUT))
         (map_to_list (path_probe_pending (tel m)))).

Definition send_along_path (e : Env) (m : MeshData) (frame : list Z) (path to : Z) : bool * MeshData :=
  match
    match (ps ← path_table (pths m) !! to; List.find (fun p => bool_decide (path_id p = path)) ps) with
    | Some p => Some p
    | None => forward_paths (pths m) !! path
    end
  with
  | None => (false, m)
  | Some p =>
      let next := match position (self_node_id (cfg m)) (hops p) with
                  | Some (S i) => default to (hops p !! i)
                  | _ => to
                  end in
      match endpoint_table (cfg m) !! next with
      | None => (false, m)
      | Some addrs =>
          match send_first e m frame (order_endpoints m next to (retain_hop_endpoints m next addrs)) with
          | (true, m) => (true, note_tx m to (Z.of_nat (length frame)))
          | (false, m) => (false, m)
          end
      end
  end.

Definition set_rtt (st : PathStat) (r : Z) : PathStat :=
  mk_stat (frames st) (gap_missing st) (reorder st) (loss_ewma_permille st) r
    (last_reported_rtt st) (last_seq st).

Definition handle_path_probe (e : Env) (m : MeshData) (from_addr : SocketAddr)
    (header : Frame.MeshFrameHeader) (payload : list Z) : IncomingEvent * MeshData :=
  let from := Frame.from_node_id header in
  match Frame.probe_decode payload with
  | None => (Dropped Short, note_drop e m (Some from))
  | Some p =>
      if Frame.response p then
        match path_probe_pending (tel m) !! Frame.nonce_ p with
        | Some (dest, path, sent) =>
            let r := rtt e sent in
            let m := set_path_probe_pending m (delete (Frame.nonce_ p) (path_probe_pending (tel m))) in
            let m := path_ok m path in
            let m := match path_stats (pths m) !! (dest, path) with
                     | Some st => set_path_stats m (<[(dest, path) := set_rtt st r]> (path_stats (pths m)))
                     | None => m end in
            (PathProbeRtt dest path r, m)
        | None => (Dropped DropReplay, note_drop e m (Some from))
        end
      else if negb (pong_allow e) then (Dropped RateLimited, m)
      else
        match key_path_table (pths m) !! Frame.path_id header with
        | None => (Dropped NoKeyDst, m)
        | Some key =>
            match Frame.build_unsealed_frame
                    (probe_header m from (Frame.path_id header) PATH_PROBE_FLAG_RESPONSE) key
                    (Frame.probe_encode (Frame.mk_probe (Frame.nonce_ p) (Frame.sent_ms p) true)) with
            | Ok frame =>
                match send_along_path e m frame (Frame.path_id header) from with
                | (true, m) => (PathProbeServed from, m)
                | (false, m) => (Dropped NoEndpoint, m)
                end
            | Err x => match x with end
            | Panic => (Panicked, m)
            end
        end
  end.

(** ** Entry point *)

Definition dispatch_delivered (e : Env) (m : MeshData) (from : Z) (from_addr : SocketAddr) (frame : list Z)
    : IncomingEvent * MeshData :=
  match Frame.decode frame with
  | Ok header =>
      let ty := Frame.packet_type_ header in
      if decide (ty = Frame.packet_type.HANDSHAKE) then
        match Frame.frame_payload frame with
        | Some payload => handle_handshake e m from payload
        | None => (Dropped Short, m)
        end
      else if decide (ty = Frame.packet_type.UNICAST) then handle_session_frame e m from frame false
      else if decide (ty = Frame.packet_type.HEARTBEAT) then handle_session_frame e m from frame true
      else if decide (ty = Frame.packet_type.BROADCAST) then handle_broadcast_frame m from frame
      else if decide (ty = Frame.packet_type.PATH_PROBE) then
        match Frame.frame_payload frame with
        | Some payload => handle_path_probe e m from_addr header payload
        | None => (Dropped Short, m)
        end
      else (Dropped UnsupportedType, m)
  | _ => (Dropped Short, m)
  end.

(** Dispatch of an accepted frame, with the count of a drop. *)
Definition deliver (e : Env) (m : MeshData) (from : Z) (from_addr : SocketAddr) (frame : list Z)
    : IncomingEvent * MeshData :=
  let m := apply_ingress_health m from in
  let '(ev, m) := dispatch_delivered e m from from_addr frame in
  (ev, match ev with Dropped _ => note_drop e m (Some from) | _ => m end).

Definition handle_frame (e : Env) (m : MeshData) (from_addr : SocketAddr) (frame : list Z)
    : IncomingEvent * MeshData :=
  let '(out, frame, m) := relay e m frame in
  match out with
  | Delivered from =>
      let m := note_rx m from (Z.of_nat (length frame)) in
      let m :=
        match endpoint_owner_preferring e m from_addr from with
        | Some ingress =>
            let m := note_endpoint_ok (put_ingress m from ingress) ingress from_addr in
            if decide (ingress <> from) then demote_direct_endpoints e m from else m
        | None => m
        end in
      deliver e m from from_addr frame
  | Flooded from _ =>
      let m := note_rx m from (Z.of_nat (length frame)) in
      let m :=
        match endpoint_owner e m from_addr with
        | Some ingress => note_endpoint_ok (put_ingress m from ingress) ingress from_addr
        | None => m
        end in
      deliver e m from from_addr frame
  | Forwarded to => (Relayed to, m)
  | RelayDropped reason =>
      let from := match Frame.decode frame with Ok h => Some (Frame.from_node_id h) | _ => None end in
      (Dropped reason, note_drop e m from)
  end.

Definition handle_incoming (e : Env) (m : MeshData) (from_addr : SocketAddr) (frame : list Z)
    : IncomingEvent * MeshData :=
  if match head frame with Some b => bool_decide (0x01 <= b /\ b <= 0x0F) | None => false end
  then handle_frame e m from_addr frame
  else if bool_decide (4 <= length frame)%nat && bool_decide (take 4 frame = Probe.PROBE_MAGIC)
  then handle_probe e m from_addr frame
  else (Dropped UnknownProtocol, note_drop e m None).

(** ** The counters of dropped packets *)

Definition total (t : gmap Z Z) : Z := map_fold (fun _ x acc => x + acc) 0 t.

Lemma total_insert t k x : total (<[k := default 0 (t !! k) + x]> t) = total t + x.
Proof.
  assert (Hi : forall k x t, t !! k = None -> total (<[k := x]> t) = x + total t).
  { clear. intros k x t Hk. unfold total. apply map_fold_insert_L; [intros; lia|done]. }
  destruct (t !! k) as [y|] eqn:E; cbn [default].
  - pose proof (Hi k y (delete k t) (lookup_delete_eq _ _)) as H1. rewrite insert_delete_id in H1 by done.
    pose proof (Hi k (y + x) (delete k t) (lookup_delete_eq _ _)) as H2. rewrite insert_delete_eq in H2. cbn [id]. lia.
  - rewrite Hi by done. cbn [default]. lia.
Qed.

(** All drops reported so far in the interval. *)
Definition drops (m : MeshData) : Z := telemetry_drops_global (tel m) + total (telemetry_drops (tel m)).

Definition room (m : MeshData) : Prop := telemetry_drops_global (tel m) + 2 < 2 ^ 64.

Lemma note_drop_drops e m from : telemetry_drops_global (tel m) + 1 < 2 ^ 64 ->
  drops (note_drop e m from) = drops m + 1.
Proof.
  intros Hr. assert (Hg : drops (drop_global m) = drops m + 1).
  { unfold drops, drop_global. cbn [tel with_tel telemetry_drops telemetry_drops_global].
    unfold sat_add. lia. }
  unfold note_drop. destruct from as [f|]; [|done]. destruct (is_known_peer m f); [|done].
  unfold drops, drop_at_peer. cbn. rewrite total_insert. lia.
Qed.

Ltac cases := repeat (case_match; try done).

Lemma relay_tel e m frame : tel (snd (relay e m frame)) = tel m.
Proof.
  assert (Hf : forall ids m f, tel (snd (flood_send e m f ids)) = tel m).
  { induction ids as [|id ids IH]; intros m0 f; cbn; [done|]. destruct (_ ≫= _) as [a|]; [|apply IH].
    specialize (IH (emit m0 a f) f). by destruct (flood_send e (emit m0 a f) f ids). }
  unfold relay. destruct (decide _); [done|]. destruct (Frame.decode frame) as [h| |]; [|done..].
  cbv zeta. destruct (decide _); [done|]. destruct (decide _).
  - unfold relay_broadcast. cases. cbn [snd]. 
    match goal with H : flood_send ?e ?m ?f ?l = _ |- _ => pose proof (Hf l m f) as H'; rewrite H in H' end.
    done.
  - cases.
Qed.

Lemma send_tel e m to hop frame : tel (snd (send_to_node_hop e m to hop frame)) = tel m.
Proof.
  assert (Ht : forall l m last, tel (snd (try_send e m to frame l last)) = tel m).
  { induction l as [|a l IH]; intros m0 last; cbn; [done|]. destruct (send_frame e a frame) as [|[]]; [done| |apply IH].
    by rewrite IH. }
  unfold send_to_node_hop. cbv zeta. destruct (endpoint_table _ !! _); [|done].
  match goal with |- context [try_send e ?m to frame ?l ?x] =>
    specialize (Ht l m x); destruct (try_send e m to frame l x) as [[[] last] m1] end; [done|].
  cbn [snd] in Ht. assert (Hp : tel (path_miss_peer m1 to) = tel m1).
  { unfold path_miss_peer. cases. }
  destruct last as [a|]; [|by cbn; rewrite Hp]. destruct (endpoint_owner _ _ _); cbn; by rewrite Hp.
Qed.

Lemma first_hop_tel e m to : tel (snd (path_first_hop e m to)) = tel m.
Proof.
  unfold path_first_hop, pick_path. destruct (path_table _ !! to); [|done].
  cbv zeta. destruct (decide _); [done|]. by destruct (_ !! _).
Qed.

Lemma handle_handshake_tel e m from payload : tel (snd (handle_handshake e m from payload)) = tel m.
Proof.
  assert (Hsend : forall m0 to p, tel (snd (send_response e m0 to p)) = tel m0).
  { intros m0 to p. unfold send_response. destruct (build_handshake_frame _ _ _); [|done..].
    pose proof (first_hop_tel e m0 to) as H. destruct (path_first_hop e m0 to) as [hop m1].
    pose proof (send_tel e m1 to hop a) as H'. destruct (send_to_node_hop e m1 to hop a).
    cbn [snd] in *. congruence. }
  unfold handle_handshake. destruct (decide _); [|destruct (decide _); [|destruct (decide _); [|done]]].
  - unfold handle_msg1. destruct (resolve_collision m from) as [m0|] eqn:Er; [|done].
    assert (H0 : tel m0 = tel m).
    { revert Er. unfold resolve_collision. cases; by intros [= <-]. }
    rewrite <- H0. cases; cbn [snd];
      match goal with H : send_response e ?m ?t ?p = _ |- _ =>
        pose proof (Hsend m t p) as H'; by rewrite H in H' end.
  - unfold handle_msg2. cases; cbn [snd];
    match goal with H : path_first_hop e ?m ?t = _, H2 : send_to_node_hop e ?m' ?t' ?h ?f = _ |- _ =>
      pose proof (first_hop_tel e m t) as H'; rewrite H in H'; pose proof (send_tel e m' t' h f) as H'';
      rewrite H2 in H''; exact (eq_trans H'' H') end.
  - unfold handle_msg3. cases.
Qed.

Lemma handle_session_tel e m from frame hb : tel (snd (handle_session_frame e m from frame hb)) = tel m.
Proof.
  unfold handle_session_frame, note_path_frame. cases.
Qed.

Lemma handle_broadcast_tel m from frame : tel (snd (handle_broadcast_frame m from frame)) = tel m.
Proof. unfold handle_broadcast_frame. cases. Qed.

Lemma ingress_tel m from : tel (apply_ingress_health m from) = tel m.
Proof.
  unfold apply_ingress_health. destruct (_ !! from); [|done]. destruct (_ !! from) as [ps|]; [|done].
  revert m. induction ps as [|p ps IH]; intros m; cbn [foldl]; [done|].
  rewrite IH. by destruct (decide _).
Qed.

(** A path probe this node refuses: malformed, or an answer to no request of it. *)
Definition refused_probe (m : MeshData) (frame : list Z) : bool :=
  match Frame.decode frame, Frame.frame_payload frame with
  | Ok h, Some payload =>
      bool_decide (Frame.packet_type_ h = Frame.packet_type.PATH_PROBE) &&
      match Frame.probe_decode payload with
      | None => true
      | Some p => Frame.response p && bool_decide (path_probe_pending (tel m) !! Frame.nonce_ p = None)
      end
  | _, _ => false
  end.

Definition dropped (ev : IncomingEvent) : bool := match ev with Dropped _ => true | _ => false end.

Lemma send_along_tel e m frame path to : tel (snd (send_along_path e m frame path to)) = tel m.
Proof.
  unfold send_along_path, send_first. case_match; [|done]. cbv zeta.
  destruct (endpoint_table _ !! _); [|done]. by destruct (forward_first _ _ _).
Qed.

Lemma dispatch_drops e m from addr frame : room m ->
  let '(ev, m') := dispatch_delivered e m from addr frame in
  drops m' = drops m + (if refused_probe m frame then 1 else 0) /\
  telemetry_drops_global (tel m') + 1 < 2 ^ 64 /\ (refused_probe m frame = true -> dropped ev = true).
Proof.
  intros Hr. unfold dispatch_delivered, refused_probe.
  assert (Hsame : forall r : IncomingEvent * MeshData, tel (snd r) = tel m ->
    let '(ev, m') := r in drops m' = drops m + 0 /\ telemetry_drops_global (tel m') + 1 < 2 ^ 64 /\
    (false = true -> dropped ev = true)).
  { intros [ev m'] E. cbn [snd] in E. unfold drops, room in *. rewrite E. split_and!; [lia..|done]. }
  destruct (Frame.decode frame) as [h| |]; [|by apply (Hsame (Dropped Short, m))..].
  destruct (decide (_ = Frame.packet_type.HANDSHAKE)) as [->|_].
  { destruct (Frame.frame_payload frame); [|by apply (Hsame (Dropped Short, m))].
    apply Hsame, handle_handshake_tel. }
  destruct (decide (_ = Frame.packet_type.UNICAST)) as [->|_].
  { destruct (Frame.frame_payload frame); apply Hsame, handle_session_tel. }
  destruct (decide (_ = Frame.packet_type.HEARTBEAT)) as [->|_].
  { destruct (Frame.frame_payload frame); apply Hsame, handle_session_tel. }
  destruct (decide (_ = Frame.packet_type.BROADCAST)) as [->|_].
  { destruct (Frame.frame_payload frame); apply Hsame, handle_broadcast_tel. }
  destruct (decide (_ = Frame.packet_type.PATH_PROBE)) as [->|Hn].
  2:{ rewrite (bool_decide_false _ Hn). destruct (Frame.frame_payload frame); by apply (Hsame (Dropped UnsupportedType, m)). }
  destruct (Frame.frame_payload frame) as [payload|]; [|by apply (Hsame (Dropped Short, m))].
  rewrite bool_decide_true by done. cbn [andb]. unfold handle_path_probe.
  assert (Hone : forall r, let '(ev, m') := (Dropped r, note_drop e m (Some (Frame.from_node_id h))) in
    drops m' = drops m + 1 /\ telemetry_drops_global (tel m') + 1 < 2 ^ 64 /\ (true = true -> dropped ev = true)).
  { intros r. unfold room in Hr. split_and!; [rewrite note_drop_drops by lia; lia| |done].
    unfold note_drop. destruct (is_known_peer m _); cbn -[Z.add Z.pow sat_add]; unfold sat_add; lia. }
  destruct (Frame.probe_decode payload) as [p|]; [|apply Hone].
  destruct (Frame.response p); cbn [andb].
  - destruct (path_probe_pending (tel m) !! Frame.nonce_ p) as [[[dest path] sent]|] eqn:E.
    + rewrite bool_decide_false by done. cbn [dropped]. unfold drops, room in *.
      split_and!; [|destruct (path_stats _ !! _); cbn -[Z.add Z.pow]; lia|done].
      destruct (path_stats _ !! _); cbn -[Z.add]; lia.
    + rewrite bool_decide_true by done. apply Hone.
  - destruct (pong_allow e); cbn [negb]; [|by apply (Hsame (Dropped RateLimited, m))].
    destruct (key_path_table _ !! _); [|by apply (Hsame (Dropped NoKeyDst, m))].
    destruct (Frame.build_unsealed_frame _ _ _) as [f|[]|]; [|by apply (Hsame (Panicked, m))].
    match goal with |- context [send_along_path ?e ?m ?f ?p ?t] =>
      pose proof (send_along_tel e m f p t) as Ht; destruct (send_along_path e m f p t) as [[] m1] end.
    + by apply (Hsame (PathProbeServed (Frame.from_node_id h), m1)).
    + by apply (Hsame (Dropped NoEndpoint, m1)).
Qed.

Lemma demote_tel e m from : tel (demote_direct_endpoints e m from) = tel m.
Proof.
  unfold demote_direct_endpoints. generalize (List.filter (fun a =>
    bool_decide (endpoint_owner_preferring e m a from = Some from)) (default [] (endpoint_table (cfg m) !! from))).
  intros l. revert m. induction l as [|a l IH]; intros m; cbn [foldl]; [done|]. by rewrite IH.
Qed.

Lemma note_endpoint_ok_tel m owner addr : tel (note_endpoint_ok m owner addr) = tel m.
Proof. unfold note_endpoint_ok. by destruct (_ !! _). Qed.

(** What [handle_frame] does before dispatching a frame for this node. *)
Definition arrived (e : Env) (m : MeshData) (from : Z) (from_addr : SocketAddr) (len : Z) : MeshData :=
  let m := note_rx m from len in
  match endpoint_owner_preferring e m from_addr from with
  | Some ingress =>
      let m := note_endpoint_ok (put_ingress m from ingress) ingress from_addr in
      if decide (ingress <> from) then demote_direct_endpoints e m from else m
  | None => m
  end.

Lemma arrived_tel e m from addr len : tel (arrived e m from addr len) = tel m.
Proof.
  unfold arrived. cbv zeta. destruct (endpoint_owner_preferring _ _ _ _) as [i|]; [|done].
  destruct (decide _); rewrite ?demote_tel; by rewrite note_endpoint_ok_tel.
Qed.

Lemma deliver_drops e m m0 from addr frame : tel m = tel m0 -> room m0 ->
  let '(ev, m') := deliver e m from addr frame in
  drops m' = drops m0 + (if dropped ev then if refused_probe m0 frame then 2 else 1 else 0).
Proof.
  intros Ht Hr. unfold deliver. cbv zeta.
  pose proof (dispatch_drops e (apply_ingress_health m from) from addr frame) as H.
  assert (E : tel (apply_ingress_health m from) = tel m0) by by rewrite ingress_tel.
  unfold room, drops, refused_probe in H. rewrite E in H. specialize (H Hr).
  fold (refused_probe m0 frame) in H. destruct (dispatch_delivered _ _ _ _ _) as [ev m'].
  destruct H as (Hd & Hg & Hx). fold (drops m') (drops m0) in Hd.
  destruct (refused_probe m0 frame); [specialize (Hx eq_refl); destruct ev; try done|].
  - rewrite note_drop_drops by done. cbn [dropped]. lia.
  - destruct ev; cbn [dropped]; try lia. rewrite note_drop_drops by done. lia.
Qed.

Lemma decode_head frame h : Frame.decode frame = Ok h -> head frame = Some (Frame.version h).
Proof.
  unfold Frame.decode, Frame.parse. destruct (Frame.ref_from_prefix frame) as [[w rest]|] eqn:E; step; [|done].
  apply Frame.ref_from_prefix_Some in E as [-> _]. intros <-%Ok_inj. done.
Qed.

Lemma relay_not_version e m frame : head frame <> Some Frame.VERSION ->
  exists r, fst (fst (relay e m frame)) = RelayDropped r.
Proof.
  intros Hh. unfold relay. destruct (decide _); [by eexists|].
  destruct (Frame.decode frame) as [h| |] eqn:E; [|by eexists..]. cbv zeta.
  rewrite decide_True; [by eexists|]. intros Hv. apply decode_head in E. congruence.
Qed.

(** A flooded frame, also after its hop count went down, is a broadcast. *)
Lemma relay_flooded e m frame from l f' m' : relay e m frame = (Flooded from l, f', m') ->
  exists h, Frame.decode f' = Ok h /\ Frame.packet_type_ h = Frame.packet_type.BROADCAST.
Proof.
  unfold relay. destruct (decide _); [done|]. destruct (Frame.decode frame) as [h| |] eqn:Ed; [|done..].
  cbv zeta. destruct (decide (Frame.version h <> _)); [done|]. destruct (decide (Frame.to_node_id h = _)).
  2:{ cases. }
  unfold relay_broadcast. destruct (decide (Frame.packet_type_ h <> _)) as [|Hp]; [done|].
  apply dec_stable in Hp. destruct (broadcast_key _); [|done]. do 2 (destruct (decide _); [done|]). cbv zeta.
  do 2 (destruct (decide _); [done|]). destruct (flood_token e).
  - destruct (flood_send _ _ _ _). intros [= _ _ <- _].
    apply Frame.decrement_ttl_decode in Ed as [Ed _]. by eexists.
  - intros [= _ _ <- _]. by exists h.
Qed.

(** Accounting of drops.  Handling a packet, whatever it is, raises the count of
    dropped packets by one exactly when the packet is dropped, except that a path
    probe this node refuses (malformed, or answering no request) is counted
    twice. *)
Theorem drops_counted (e : Env) (m : MeshData) (from_addr : SocketAddr) (frame : list Z) (Hr : room m) :
  let '(ev, m') := handle_incoming e m from_addr frame in
  drops m' = drops m +
    (if dropped ev then
       match fst (fst (relay e m frame)) with
       | Delivered _ => if refused_probe m frame then 2 else 1
       | _ => 1
       end
     else 0).
Proof.
  assert (Hr' : telemetry_drops_global (tel m) + 1 < 2 ^ 64) by (unfold room in Hr; lia).
  unfold handle_incoming.
  destruct (match head frame with Some b => _ | None => false end) eqn:Eb.
  - unfold handle_frame. pose proof (relay_tel e m frame) as Ht.
    destruct (relay e m frame) as [[out f'] m1] eqn:Erel. cbn [fst snd] in *.
    assert (Hm : drops m1 = drops m) by (unfold drops; by rewrite Ht).
    destruct out as [to|from|from l|r].
    + cbn [dropped]. lia.
    + assert (Ef : f' = frame /\ m1 = m).
      { revert Erel. unfold relay. cases; try (by intros [= <- <- <-]).
        unfold relay_broadcast. cases. }
      destruct Ef as [-> ->]. change (note_rx m from _) with (note_rx m from (Z.of_nat (length frame))).
      pose proof (deliver_drops e (arrived e m from from_addr (Z.of_nat (length frame))) m from from_addr frame
        (arrived_tel _ _ _ _ _) Hr) as H. exact H.
    + match goal with |- context [deliver e ?x from from_addr f'] =>
        pose proof (deliver_drops e x m from from_addr f') as H; assert (Hx : tel x = tel m) end.
      { destruct (endpoint_owner _ _ _); rewrite ?note_endpoint_ok_tel; exact Ht. }
      specialize (H Hx Hr). assert (Hn : refused_probe m f' = false).
      { apply relay_flooded in Erel as (h & Ed & Hp). unfold refused_probe. rewrite Ed, Hp.
        by destruct (Frame.frame_payload f'). }
      rewrite Hn in H. destruct (deliver _ _ _ _ _) as [ev m']. by destruct (dropped ev).
    + cbn [dropped]. rewrite note_drop_drops by by rewrite Ht. lia.
  - assert (Hh : head frame <> Some Frame.VERSION) by (intros E; by rewrite E in Eb).
    destruct (relay_not_version e m frame Hh) as [r ->]. 
    destruct (_ && _); [|cbn [dropped]; rewrite note_drop_drops by done; lia].
    unfold handle_probe. destruct (Probe.decode frame) as [p|]; [|cbn [dropped]; rewrite note_drop_drops by done; lia].
    destruct (decide _).
    { cbn [dropped]. destruct (_ && _); [|lia]. destruct (send_frame _ _ _); unfold drops; cbn -[Z.add]; lia. }
    destruct (decide _); [|cbn [dropped]; rewrite note_drop_drops by done; lia].
    destruct (probe_pending _ !! _) as [[[to ep] sent]|]; [|cbn [dropped]; rewrite note_drop_drops by done; lia].
    cbn [dropped]. unfold drops; cbn -[Z.add]; lia.
Qed.

(** ** Requests in flight *)

(** The operations that reach the tables of outstanding probes. *)
Inductive Op :=
| Incoming (e : Env) (addr : SocketAddr) (frame : list Z)
| TooLong
| SendPing (e : Env) (addr : SocketAddr) (from to : Z)
| TakeProbes
| SendPathProbe (e : Env) (dest path hop : Z)
| PathTimeouts (e : Env)
| PollDrops (e : Env)
| TakeTelemetry.

Definition op_step (m : MeshData) (o : Op) : MeshData :=
  match o with
  | Incoming e addr frame => snd (handle_incoming e m addr frame)
  | TooLong => recv_too_long m
  | SendPing e addr from to => snd (send_probe_ping e m addr from to)
  | TakeProbes => snd (take_pending_probes m)
  | SendPathProbe e dest path hop => snd (send_path_probe e m dest path hop)
  | PathTimeouts e => poll_path_probe_timeouts e m
  | PollDrops e => snd (poll_drop_stats e m)
  | TakeTelemetry => snd (take_telemetry m)
  end.

(** No request in flight that was not in flight before. *)
Definition shrinks (m m' : MeshData) : Prop :=
  probe_pending (tel m') ⊆ probe_pending (tel m) /\
  path_probe_pending (tel m') ⊆ path_probe_pending (tel m).

#[local] Instance shrinks_preorder : PreOrder shrinks.
Proof.
  split; [by intros m; split|]. intros a b c [? ?] [? ?]. split; by etransitivity.
Qed.

Lemma tel_shrinks m m' : tel m' = tel m -> shrinks m m'.
Proof. intros E. unfold shrinks. by rewrite E. Qed.

Lemma note_drop_shrinks e m from : shrinks m (note_drop e m from).
Proof. unfold note_drop. destruct from as [f|]; [destruct (is_known_peer m f)|]; done. Qed.

Lemma dispatch_shrinks e m from addr frame : shrinks m (snd (dispatch_delivered e m from addr frame)).
Proof.
  unfold dispatch_delivered. destruct (Frame.decode frame) as [h| |]; [|done..]. cbv zeta.
  destruct (decide _). { destruct (Frame.frame_payload frame); [|done]. apply tel_shrinks, handle_handshake_tel. }
  destruct (decide _); [apply tel_shrinks, handle_session_tel|].
  destruct (decide _); [apply tel_shrinks, handle_session_tel|].
  destruct (decide _); [apply tel_shrinks, handle_broadcast_tel|].
  destruct (decide _); [|done]. destruct (Frame.frame_payload frame) as [payload|]; [|done].
  unfold handle_path_probe. destruct (Frame.probe_decode payload) as [p|]; [|apply note_drop_shrinks].
  destruct (Frame.response p).
  - destruct (path_probe_pending (tel m) !! _) as [[[dest path] sent]|]; [|apply note_drop_shrinks].
    cbn [snd]. destruct (path_stats _ !! _); (split; [done|apply delete_subseteq]).
  - destruct (negb _); [done|]. destruct (key_path_table _ !! _); [|done].
    destruct (Frame.build_unsealed_frame _ _ _) as [f|[]|]; [|done].
    match goal with |- context [send_along_path ?e ?m ?f ?p ?t] =>
      pose proof (send_along_tel e m f p t) as Ht; destruct (send_along_path e m f p t) as [[] m1] end;
      by apply tel_shrinks.
Qed.

Lemma deliver_shrinks e m m0 from addr frame : tel m0 = tel m -> shrinks m (snd (deliver e m0 from addr frame)).
Proof.
  intros Ht. unfold deliver. cbv zeta.
  pose proof (dispatch_shrinks e (apply_ingress_health m0 from) from addr frame) as H.
  destruct (dispatch_delivered _ _ _ _ _) as [ev m1]. cbn [snd] in *.
  assert (H1 : shrinks m m1).
  { refine (transitivity (R:=shrinks) _ H). apply tel_shrinks. by rewrite ingress_tel. }
  destruct ev; try exact H1. refine (transitivity (R:=shrinks) H1 _). apply note_drop_shrinks.
Qed.

Lemma handle_incoming_shrinks e m addr frame : shrinks m (snd (handle_incoming e m addr frame)).
Proof.
  unfold handle_incoming. destruct (match head frame with Some b => _ | None => false end).
  - unfold handle_frame. pose proof (relay_tel e m frame) as Ht.
    destruct (relay e m frame) as [[out f'] m1]. cbn [snd] in Ht.
    destruct out as [to|from|from l|r].
    + by apply tel_shrinks.
    + apply (deliver_shrinks e m (arrived e m1 from addr (Z.of_nat (length f')))). by rewrite arrived_tel.
    + apply deliver_shrinks. destruct (endpoint_owner _ _ _); rewrite ?note_endpoint_ok_tel; exact Ht.
    + refine (transitivity (R:=shrinks) (tel_shrinks _ _ Ht) _). apply note_drop_shrinks.
  - destruct (_ && _); [|apply note_drop_shrinks]. unfold handle_probe.
    destruct (Probe.decode frame) as [p|]; [|apply note_drop_shrinks].
    destruct (decide _). { destruct (_ && _); [|done]. by destruct (send_frame _ _ _). }
    destruct (decide _); [|apply note_drop_shrinks].
    destruct (probe_pending _ !! _) as [[[to ep] sent]|]; [|apply note_drop_shrinks].
    split; [apply delete_subseteq|done].
Qed.

Definition bounded (m : MeshData) : Prop :=
  (size (probe_pending (tel m)) <= PROBE_MAX_PENDING)%nat /\
  (size (path_probe_pending (tel m)) <= PATH_PROBE_MAX_PENDING)%nat.

Lemma shrinks_bounded m m' : shrinks m m' -> bounded m -> bounded m'.
Proof.
  intros [H1 H2] [B1 B2]. apply map_subseteq_size in H1, H2. split; lia.
Qed.

Lemma size_insert_le {A} (t : gmap Z A) k x : (size (<[k := x]> t) <= S (size t))%nat.
Proof. rewrite map_size_insert. destruct (t !! k); cbn; lia. Qed.

Lemma op_step_bounded m o : bounded m -> bounded (op_step m o).
Proof.
  intros Hb. destruct o as [e addr frame| |e addr from to| |e dest path hop|e|e|]; cbn [op_step].
  - eapply shrinks_bounded; [apply handle_incoming_shrinks|done].
  - done.
  - unfold send_probe_ping. destruct (decide _) as [|Hlt]; [done|]. destruct Hb as [B1 B2]. cbv zeta.
    pose proof (size_insert_le (probe_pending (tel m)) (random_nonce e) (to, addr, now e)) as Hs.
    destruct (send_frame _ _ _); (split; [|done]); cbn [snd tel with_tel emit with_links set_probe_pending probe_pending].
    + lia.
    + etransitivity; [apply map_subseteq_size, delete_subseteq|]. lia.
  - destruct Hb. split; [cbn; rewrite map_size_empty; lia|done].
  - unfold send_path_probe. destruct (decide _) as [|Hlt]; [done|]. destruct Hb as [B1 B2].
    destruct (key_path_table _ !! _); [|done]. destruct (endpoint_table _ !! _); [|done].
    destruct (order_endpoints _ _ _ _) as [|c cs]; [done|]. cbv zeta.
    destruct (Frame.build_unsealed_frame _ _ _) as [f|[]|]; [|done].
    unfold send_first. destruct (forward_first _ _ _); [|done]. split; [done|].
    cbn [snd tel with_tel emit with_links set_path_probe_pending path_probe_pending note_tx set_traffic].
    etransitivity; [apply size_insert_le|]. lia.
  - eapply shrinks_bounded; [|exact Hb]. unfold poll_path_probe_timeouts.
    generalize (List.filter (fun x : Z * (Z * Z * Z) => bool_decide (sat_sub (now e) (snd (snd x)) > PATH_PROBE_TIMEOUT))
      (map_to_list (path_probe_pending (tel m)))). intros l. clear Hb. revert m.
    induction l as [|[n [[d p] t]] l IH]; intros m; cbn [foldl]; [done|].
    refine (transitivity (R:=shrinks) _ (IH _)). split; [done|apply delete_subseteq].
  - unfold poll_drop_stats. cbv zeta. by destruct (Rate.poll _ _).
  - done.
Qed.

(** Requests in flight.  Starting from a fresh node, whatever packets arrive,
    whatever is sent and polled in whatever order, at most 64 reachability probes
    and at most 64 path probes are outstanding. *)
Theorem probes_bounded (t self : Z) (os : list Op) : bounded (foldl op_step (bind_underlay t self) os).
Proof.
  assert (H : forall os m, bounded m -> bounded (foldl op_step m os)).
  { clear. induction os as [|o os IH]; intros m Hm; cbn [foldl]; [done|]. by apply IH, op_step_bounded. }
  apply H. unfold bounded. cbn. rewrite !map_size_empty. unfold PROBE_MAX_PENDING, PATH_PROBE_MAX_PENDING. lia.
Qed.

End WithNoise.
(** ** Concrete packets *)

Section Samples.
Import Toy Handshake.ToyNoise.

(** A path probe of node 1 to node 2 whose payload is one byte short. *)
Definition sample_short_probe : list Z :=
  match Frame.build_unsealed_frame (probe_header (sample_node 1) 2 50 0) (replicate 32 50) (replicate 12 0) with
  | Ok f => f
  | _ => []
  end.

Lemma drops_counted_witness :
  drops (snd (handle_incoming sample_env (sample_node 2) (sample_addr 1) sample_short_probe))
  = drops (sample_node 2) + 2.
Proof.
  pose proof (drops_counted sample_env (sample_node 2) (sample_addr 1) sample_short_probe) as H.
  assert (Hd : dropped (fst (handle_incoming sample_env (sample_node 2) (sample_addr 1) sample_short_probe)) = true)
    by (vm_compute; reflexivity).
  assert (Hr : fst (fst (relay sample_env (sample_node 2) sample_short_probe)) = Delivered 1)
    by (vm_compute; reflexivity).
  assert (Hp : refused_probe (sample_node 2) sample_short_probe = true) by (vm_compute; reflexivity).
  destruct (handle_incoming _ _ _ _) as [ev m']. cbn [fst snd] in *.
  rewrite H by (unfold room; vm_compute; reflexivity). by rewrite Hd, Hr, Hp.
Defined.

End Samples.

End Dispatch.
