(* ===== verification/MeshRun.v ===== *)
(** * Nodes of the mesh together

    Two nodes that open a handshake to each other at the same moment, under any
    order of delivery; a frame on its way over a chain of relays; a handshake
    left unfinished.  The nodes are states of [Mesh.MeshData], the packets are
    those their handlers put on the underlay. *)

From S2P Require Import Prelude Replay Crypto Frame Handshake Probe Net Mesh Dispatch.
Import Crypto Net Mesh Dispatch.

Module MeshRun.

Section WithNoise.
Context `{P : Primitives} `{N : Handshake.NoiseProtocol}.

(** ** Handshake frames *)

Definition hs_header (from to : Z) : Frame.MeshFrameHeader :=
  Frame.mk_header Frame.VERSION Frame.packet_type.HANDSHAKE 0 64 to from 0 0 Frame.PATH_ID_DEFAULT
    (replicate Frame.ROUTE_MAC_LEN 0).

(** The frame [from] sends to [to] for a handshake payload. *)
Definition hs_frame (from to : Z) (key payload : list Z) : list Z :=
  Frame.as_bytes (Frame.to_wire (Frame.sign key (Z.of_nat (length payload)) (hs_header from to))) ++ payload.

Lemma hs_header_ok from to : u32 from -> u32 to -> Frame.header_ok (hs_header from to).
Proof. intros. split; cbn; try done; try (unfold is_uint; lia). by apply (Forall_replicate _ 16). Qed.

Lemma build_hs m to key payload :
  key_dst_table (cfg m) !! to = Some key -> u32 (self_node_id (cfg m)) -> u32 to ->
  build_handshake_frame m to payload = Ok (hs_frame (self_node_id (cfg m)) to key payload).
Proof.
  intros Hk Hs Ht. unfold build_handshake_frame. rewrite Hk. step.
  unfold Frame.build_handshake_frame. cbn [Frame.version Frame.flags Frame.ttl Frame.to_node_id
    Frame.from_node_id Frame.seq Frame.len_ Frame.route_mac_ frame_header].
  fold (hs_header (self_node_id (cfg m)) to). by rewrite Frame.build_unsealed_frame_spec by by apply hs_header_ok.
Qed.

Section OneFrame.
Variables (from to : Z) (key payload : list Z).
Hypothesis (Hf : u32 from) (Ht : u32 to) (Hl : Z.of_nat (length payload) < 65536).
Let h := Frame.sign key (Z.of_nat (length payload)) (hs_header from to).
Let f := hs_frame from to key payload.

Lemma hs_frame_split : Frame.ref_from_prefix f = Some (Frame.to_wire h, payload).
Proof. apply Frame.ref_from_prefix_as_bytes, Frame.to_wire_ok, Frame.sign_ok, hs_header_ok; done. Qed.

Lemma hs_frame_decode : Frame.decode f = Ok h.
Proof.
  unfold Frame.decode, Frame.parse. rewrite hs_frame_split. step.
  by rewrite Frame.of_to_wire by by apply Frame.sign_ok, hs_header_ok.
Qed.

Lemma hs_frame_payload : Frame.frame_payload f = Some payload.
Proof.
  destruct (Frame.unsealed_frame_payload (hs_header from to) key payload (hs_header_ok _ _ Hf Ht))
    as (f' & Hf' & Hp). rewrite Frame.build_unsealed_frame_spec in Hf' by by apply hs_header_ok.
  apply Ok_inj in Hf'. unfold f, hs_frame. rewrite Hf', Hp, wrap_small by uint. rewrite Nat2Z.id.
  by rewrite take_ge.
Qed.

Lemma hs_frame_long : (Frame.HEADER_LEN <= length f)%nat.
Proof.
  unfold f, hs_frame. rewrite length_app, Frame.length_as_bytes; [lia|].
  by apply Frame.to_wire_ok, Frame.sign_ok, hs_header_ok.
Qed.

End OneFrame.
(** ** Receiving and sending *)

(** What a handshake depends on and what it has sent. *)
Definition view (m : MeshData) : HsTables * Config * gmap Z (list PathEntry) * list (SocketAddr * list Z) :=
  (hs m, cfg m, path_table (pths m), wire (lnk m)).

Lemma ingress_view m from : view (apply_ingress_health m from) = view m.
Proof.
  unfold apply_ingress_health. destruct (_ !! from); [|done]. destruct (_ !! from) as [ps|]; [|done].
  revert m. induction ps as [|p ps IH]; intros m; cbn [foldl]; [done|]. rewrite IH. by destruct (decide _).
Qed.

Lemma arrived_view e m from addr len : view (arrived e m from addr len) = view m.
Proof.
  assert (Hok : forall m o a, view (note_endpoint_ok m o a) = view m).
  { intros. unfold note_endpoint_ok. by destruct (_ !! _). }
  unfold arrived. cbv zeta. destruct (endpoint_owner_preferring _ _ _ _) as [i|]; [|done].
  destruct (decide _); [|by rewrite Hok]. unfold demote_direct_endpoints.
  match goal with |- view (foldl _ ?m0 ?l) = _ => trans (view m0); [generalize l|by rewrite Hok]; generalize m0 end.
  intros m0 l. revert m0. induction l as [|a l IH]; intros m0; cbn [foldl]; [done|]. by rewrite IH.
Qed.

Lemma note_drop_view e m from : view (note_drop e m from) = view m.
Proof. unfold note_drop. destruct from as [x|]; [destruct (is_known_peer m x)|]; reflexivity. Qed.

(** A handshake frame for this node reaches the handler of its payload, in a
    state that differs in counters only. *)
Lemma receive e m addr from to key payload :
  u32 from -> u32 to -> Z.of_nat (length payload) < 65536 ->
  to = self_node_id (cfg m) -> to <> Frame.BROADCAST_NODE_ID -> key_dst_table (cfg m) !! to = Some key ->
  exists m1, view m1 = view m /\
    let '(ev, m2) := handle_incoming e m addr (hs_frame from to key payload) in
    exists m3, handle_handshake e m1 from payload = (ev, m3) /\ view m2 = view m3.
Proof.
  intros Hf Ht Hl Hs Hb Hk. unfold handle_incoming. pose proof (hs_frame_decode from to key payload Hf Ht) as Hd.
  rewrite (decode_head _ _ Hd). change (Frame.version _) with 1. rewrite bool_decide_true by lia.
  unfold handle_frame, relay. pose proof (hs_frame_long from to key payload Hf Ht).
  rewrite decide_False by lia. rewrite Hd. cbv zeta. set (h := Frame.sign _ _ _) in *.
  assert (Eto : Frame.to_node_id h = to) by done. assert (Efrom : Frame.from_node_id h = from) by done.
  rewrite decide_False by auto. rewrite Eto, Efrom. rewrite decide_False by done.
  rewrite bool_decide_false by auto. rewrite Hk. rewrite decide_False.
  2:{ intros Hn. apply Hn. unfold h at 1. by rewrite Frame.auth_input_sign. }
  rewrite decide_True by done. unfold deliver. cbv zeta.
  set (len := Z.of_nat (length (hs_frame from to key payload))).
  exists (apply_ingress_health (arrived e m from addr len) from).
  split; [by rewrite ingress_view, arrived_view|]. fold (arrived e m from addr len).
  unfold dispatch_delivered. rewrite Hd. cbv zeta. rewrite decide_True by done.
  rewrite hs_frame_payload by done. destruct (handle_handshake _ _ _ _) as [ev m3]. exists m3. split; [done|].
  destruct ev; first [apply note_drop_view | reflexivity].
Qed.

(** Every send on the underlay succeeds. *)
Definition lossless (e : Env) : Prop := forall a f, send_frame e a f = SendOk.

Lemma send_ok e m to key payload :
  lossless e -> key_dst_table (cfg m) !! to = Some key -> u32 (self_node_id (cfg m)) -> u32 to ->
  default [] (endpoint_table (cfg m) !! to) <> [] -> path_table (pths m) !! to = None ->
  let frame := hs_frame (self_node_id (cfg m)) to key payload in
  path_first_hop e m to = (None, m) /\
  exists a m', send_to_node_hop e m to None frame = (HopSent, m') /\
    view m' = (hs m, cfg m, path_table (pths m), wire (lnk m) ++ [(a, frame)]).
Proof.
  intros He Hk Hs Ht Hep Hp frame. split.
  { unfold path_first_hop, pick_path. by rewrite Hp. }
  unfold send_to_node_hop. cbv zeta. change (endpoint_table (cfg (set_ptb m None))) with (endpoint_table (cfg m)).
  destruct (endpoint_table (cfg m) !! to) as [addrs|]; [|done]. cbn [default] in Hep.
  unfold frame. rewrite hs_frame_decode by done. rewrite decide_False by auto.
  unfold order_endpoints. set (m0 := set_ptb m None). destruct (sort _ addrs) as [|a l] eqn:Es.
  { apply (f_equal length) in Es. rewrite length_sort in Es. by destruct addrs. }
  cbn [try_send]. rewrite He. eexists a, _. split; [done|]. done.
Qed.

(** ** Runs of the handshake, step by step *)

Section Runs.
Context `{PL : !PrimitiveLaws P} `{NL : !Handshake.NoiseLaws N}.
Import Handshake.

Definition prologue_of (c : HandshakeContext) : list Z := prologue (network_id c) (ctx_version c).

Record ctx_ok (c : HandshakeContext) : Prop := {
  c_static : length (local_static c) = SESSION_KEY_LEN;
  c_binding : length (ctx_binding c) = BINDING_LEN;
  c_index : u64 (fst (ctx_issuance c));
  c_term : u64 (snd (ctx_issuance c))
}.

(** An initiator with context [c] has written its first message. *)
Definition started (c : HandshakeContext) (i1 : hs_state) (m1 : list Z) : Prop :=
  exists seed i0, build_initiator NOISE_PATTERN seed (prologue_of c) (local_static c) = inl i0 /\
    write_message i0 [] (MSG1_BODY_LEN + TAG_LEN) = (inl m1, i1) /\ length m1 = MSG1_BODY_LEN.

(** The state [r2] of a responder with static secret [b] answered [i1] with [m2];
    the rest of the run. *)
Definition answered (a b : list Z) (i1 r2 : hs_state) (m2 : list Z) : Prop :=
  length m2 = MSG2_BODY_LEN /\ exists i2 i3 r3 m3 n2 n3,
    read_message i1 m2 0 = (inl n2, i2) /\
    write_message i2 [] (MSG3_BODY_LEN + TAG_LEN) = (inl m3, i3) /\ length m3 = MSG3_BODY_LEN /\
    read_message r2 m3 0 = (inl n3, r3) /\
    get_remote_static i3 = Some (x25519_base b) /\ get_remote_static r3 = Some (x25519_base a) /\
    get_handshake_hash i3 = get_handshake_hash r3 /\ get_raw_split i3 = get_raw_split r3.

Lemma started_exists c seed : ctx_ok c -> exists i0 i1 m1,
  build_initiator NOISE_PATTERN seed (prologue_of c) (local_static c) = inl i0 /\
  write_message i0 [] (MSG1_BODY_LEN + TAG_LEN) = (inl m1, i1) /\ started c i1 m1.
Proof.
  intros [Hc _ _ _]. destruct (xx_complete seed [] (prologue_of c) _ _ Hc Hc)
    as (i0 & i1 & ? & ? & ? & ? & ? & ? & m1 & ? & ? & ? & ? & ? & Hi & _ & W1 & L1 & _).
  exists i0, i1, m1. split_and!; [done..|]. by exists seed, i0.
Qed.

Lemma answered_exists c b i1 m1 eb : started c i1 m1 -> ctx_ok c -> length b = SESSION_KEY_LEN ->
  exists r0 r1 r2 n1 m2, build_responder NOISE_PATTERN eb (prologue_of c) b = inl r0 /\
    read_message r0 m1 0 = (inl n1, r1) /\
    write_message r1 [] (MSG2_BODY_LEN + TAG_LEN) = (inl m2, r2) /\ answered (local_static c) b i1 r2 m2.
Proof.
  intros (ea & i0 & Hi & W1 & L1) [Hc _ _ _] Hb. destruct (xx_complete ea eb (prologue_of c) _ _ Hc Hb)
    as (i0' & i1' & i2 & i3 & r0 & r1 & r2 & r3 & m1' & m2 & m3 & n1 & n2 & n3 & Hi' & Hr &
        W1' & L1' & R1 & W2 & L2 & R2 & W3 & L3 & R3 & Si & Sr & HH & HS).
  rewrite Hi in Hi'. injection Hi' as <-. rewrite W1 in W1'. injection W1' as <- <-.
  exists r0, r1, r2, n1, m2. split_and!; [done..|]. split; [done|].
  by exists i2, i3, r3, m3, n2, n3.
Qed.

(** ** The three handlers on the messages of such a run *)

Record peers (m : MeshData) (self peer : Z) (c : HandshakeContext) (kself kpeer peer_static : list Z)
  : Prop := {
  p_self : Mesh.self_node_id (cfg m) = self;
  p_ctx : ctx (cfg m) = Some c;
  p_ctx_ok : ctx_ok c;
  p_kself : key_dst_table (cfg m) !! self = Some kself;
  p_kpeer : key_dst_table (cfg m) !! peer = Some kpeer;
  p_static : peer_statics (cfg m) !! peer = Some peer_static;
  p_endpoints : default [] (endpoint_table (cfg m) !! peer) <> [];
  p_paths : path_table (pths m) !! peer = None;
  p_u : u32 self /\ u32 peer;
  p_unicast : self <> Frame.BROADCAST_NODE_ID
}.

Lemma peers_view m m' self peer c k1 k2 s : cfg m' = cfg m -> path_table (pths m') = path_table (pths m) ->
  peers m self peer c k1 k2 s -> peers m' self peer c k1 k2 s.
Proof. intros Hc Hp []. split; rewrite ?Hc, ?Hp; done. Qed.

Definition responder_of (self : Z) (r2 : hs_state) : HandshakeResponder := mk_responder r2 self true true.

(** A node that has no handshake of its own under way with the sender, or has to
    give way, answers the first message. *)
Lemma msg1_answered e m self peer c cp k1 k2 s i1 m1 :
  lossless e -> peers m self peer c k1 k2 s -> ctx_ok cp -> prologue_of cp = prologue_of c ->
  started cp i1 m1 -> initiators (hs m) !! peer = None \/ peer < self ->
  exists m' a r2 m2, handle_handshake e m peer (be_bytes 4 self ++ m1) = (Responded peer, m') /\
    answered (local_static cp) (local_static c) i1 r2 m2 /\
    view m' = (mk_hs (delete peer (initiators (hs m))) (<[peer := responder_of self r2]> (responders (hs m)))
                 (sessions (hs m)) (binding_claims (hs m)),
               cfg m, path_table (pths m), wire (lnk m) ++ [(a, hs_frame self peer k2 m2)]).
Proof.
  intros He Hp Hcp Hpro Hst Hini. pose proof Hst as (? & ? & _ & _ & L1).
  destruct Hp as [Hself Hctx [Hc Hbind _ _] Hk1 Hk2 Hps Hep Hpt [Hu1 Hu2] Hnb]. unfold handle_handshake.
  assert (Hlen : length (be_bytes 4 self ++ m1) = MSG1_PAYLOAD_LEN).
  { rewrite length_app, length_be_bytes, L1. done. }
  rewrite decide_True by done. unfold handle_msg1.
  set (m0 := set_initiators m (delete peer (initiators (hs m)))).
  assert (Er : exists m0', resolve_collision m peer = Some m0' /\ view m0' = view m0).
  { unfold resolve_collision. rewrite Hself. destruct (initiators (hs m) !! peer) eqn:Ei.
    - destruct Hini as [|Hlt]; [done|]. rewrite decide_True by done. by exists m0.
    - exists m. split; [done|]. unfold m0, view. cbn. rewrite (delete_id _ _ Ei). by destruct (hs m). }
  destruct Er as (m0' & -> & Hv). injection Hv as Vh Vc Vp Vw.
  rewrite Vc. change (cfg m0) with (cfg m). rewrite Hctx, Hself.
  destruct (answered_exists cp (local_static c) i1 m1 (seed e) Hst Hcp Hc) as (r0 & r1 & r2 & n1 & m2 & B0 & R1 & W2 & Ha).
  rewrite Hpro in B0. unfold responder_new. fold (prologue_of c). rewrite B0. cbn [noise]. step.
  destruct (parse_msg1_app self m1 L1 Hu1) as (w & Ew & Et & Eb).
  unfold read_msg1. cbn [read_msg1_ self_node_id r_state]. rewrite Ew, Et, Eb.
  rewrite decide_False by auto. rewrite R1. unfold write_msg2. cbn [read_msg1_ sent_msg2 r_state negb orb].
  rewrite W2. set (m3 := set_responders _ _). unfold send_response.
  assert (V3 : cfg m3 = cfg m /\ path_table (pths m3) = path_table (pths m) /\ wire (lnk m3) = wire (lnk m)).
  { cbn. by rewrite Vc, Vp, Vw. }
  destruct V3 as (V3c & V3p & V3w).
  rewrite (build_hs m3 peer k2 m2) by (rewrite ?V3c, ?Hself; done).
  destruct (send_ok e m3 peer k2 m2) as (-> & a & m' & -> & V'); try (rewrite ?V3c, ?V3p, ?Hself; done).
  exists m', a, r2, m2. split; [reflexivity|]. split; [exact Ha|]. rewrite V', V3c, V3p, V3w, Hself.
  unfold m3. cbn [hs set_responders with_hs]. rewrite Vh. unfold m0. cbn [hs set_initiators with_hs initiators responders sessions binding_claims]. reflexivity.
Qed.

(** The node with the lower identifier keeps its own handshake. *)
Lemma msg1_refused e m self peer i payload :
  Mesh.self_node_id (cfg m) = self -> self < peer -> initiators (hs m) !! peer = Some i ->
  length payload = MSG1_PAYLOAD_LEN ->
  handle_handshake e m peer payload = (Rejected peer Collision, m).
Proof.
  intros Hs Hlt Hi Hl. unfold handle_handshake. rewrite decide_True by done.
  unfold handle_msg1, resolve_collision. rewrite Hi, Hs, decide_False by lia. reflexivity.
Qed.

(** An answer to no handshake of this node changes nothing. *)
Lemma msg2_ignored e m peer payload : initiators (hs m) !! peer = None -> length payload = MSG2_BODY_LEN ->
  handle_handshake e m peer payload = (Rejected peer WrongStep, m).
Proof.
  intros Hi Hl. unfold handle_handshake. rewrite decide_False by (rewrite Hl; auto). rewrite decide_True by done.
  unfold handle_msg2. by rewrite Hi.
Qed.

(** An initiator of [peer] after its first message. *)
Definition initiator_of (c : HandshakeContext) (peer slt : Z) (expected : list Z) (i1 : hs_state)
    : HandshakeInitiator :=
  mk_initiator i1 peer (ctx_binding c) (ctx_issuance c) slt expected true false.

(** The third message and the initiator's keys complete the run of [r2]. *)
Definition completes (c : HandshakeContext) (self peer : Z) (r2 : hs_state) (msg3 : list Z) (ki : SessionKeys)
    : Prop :=
  length msg3 = MSG3_PAYLOAD_LEN /\
  forall v : Z -> list Z -> list Z -> Z -> Z -> bool,
    v self (x25519_base (local_static c)) (ctx_binding c) (fst (ctx_issuance c)) (snd (ctx_issuance c)) = true ->
    exists kr r', read_msg3 v (responder_of peer r2) msg3 self = (Ok kr, r') /\ paired ki kr.

Lemma completes_intro c self peer slt r2 r3 m3 n3 i3 k1 k2 :
  ctx_ok c -> u32 slt -> length m3 = MSG3_BODY_LEN -> read_message r2 m3 0 = (inl n3, r3) ->
  get_remote_static r3 = Some (x25519_base (local_static c)) ->
  get_handshake_hash i3 = get_handshake_hash r3 -> get_raw_split i3 = get_raw_split r3 ->
  get_raw_split i3 = (k1, k2) ->
  completes c self peer r2
    (ctx_binding c ++ be_bytes 8 (fst (ctx_issuance c)) ++ be_bytes 8 (snd (ctx_issuance c)) ++
     be_bytes 4 slt ++ m3)
    (mk_keys slt (bind_transcript k1 (get_handshake_hash i3)) (bind_transcript k2 (get_handshake_hash i3))).
Proof.
  intros [Hc Hbind Hli Hte] Hs L3 R3 Sr HH HS Sp. split.
  { rewrite !length_app, !length_be_bytes, Hbind, L3. done. }
  intros v Hv. destruct (parse_msg3_app (ctx_binding c) _ _ slt m3 Hbind L3 Hli Hte Hs)
    as (w & Ew & Eb & Eli & Ete & Es & Ebd).
  unfold read_msg3, responder_of. cbn [sent_msg2 negb r_state self_node_id read_msg1_].
  rewrite Ew, Ebd, R3. unfold peer_static.
  rewrite Sr, decide_True by by apply x25519_base_length. step. rewrite Eb, Eli, Ete, Es, Hv. cbn [negb].
  rewrite <- HS, <- HH, Sp. eexists _, _. split; [reflexivity|]. split_and!; reflexivity.
Qed.

(** The initiator takes the answer and has a session. *)
Lemma msg2_accepted e m self peer c k1 k2 b slt i1 r2 m2 :
  lossless e -> peers m self peer c k1 k2 (x25519_base b) -> length b = SESSION_KEY_LEN -> u32 slt ->
  answered (local_static c) b i1 r2 m2 ->
  initiators (hs m) !! peer = Some (initiator_of c peer slt (x25519_base b) i1) ->
  exists m' a msg3 ki, handle_handshake e m peer m2 = (Established peer, m') /\
    completes c self peer r2 msg3 ki /\
    view m' = (mk_hs (delete peer (initiators (hs m))) (responders (hs m))
                 (<[peer := session_new peer ki]> (sessions (hs m))) (binding_claims (hs m)),
               cfg m, path_table (pths m), wire (lnk m) ++ [(a, hs_frame self peer k2 msg3)]).
Proof.
  intros He Hp Hb Hs (L2 & i2 & i3 & r3 & m3 & n2 & n3 & R2 & W3 & L3 & R3 & Si & Sr & HH & HS) Hi.
  destruct Hp as [Hself Hctx Hok Hk1 Hk2 Hps Hep Hpt [Hu1 Hu2] Hnb].
  destruct (get_raw_split i3) as [q1 q2] eqn:Sp. rewrite <- Sp in HS.
  unfold handle_handshake. rewrite decide_False by (rewrite L2; auto). rewrite decide_True by done.
  unfold handle_msg2. rewrite Hi. set (m0 := set_initiators _ _). unfold read_msg2, initiator_of.
  cbn [i_update sent_msg1 sent_msg3 i_state negb orb identity_binding binding_issuance i_salt].
  rewrite decide_False by auto. rewrite R2, W3. unfold finish, peer_static.
  cbn [i_update sent_msg3 negb i_state expected_peer_static i_salt].
  rewrite Si, decide_True by by apply x25519_base_length. step. rewrite decide_False by auto. rewrite Sp.
  pose proof (completes_intro c self peer slt r2 r3 m3 n3 i3 q1 q2 Hok Hs L3 R3 Sr HH HS Sp) as Hcp.
  set (msg3 := ctx_binding c ++ _) in *. set (ki := mk_keys _ _ _) in *. clearbody msg3 ki.
  rewrite (build_hs m0 peer k2 msg3) by (change (cfg m0) with (cfg m); rewrite ?Hself; done).
  destruct (send_ok e m0 peer k2 msg3) as (-> & a & m' & -> & V');
    try (change (cfg m0) with (cfg m); change (pths m0) with (pths m); rewrite ?Hself; done).
  injection V' as Vh Vc Vp Vw. eexists _, a, msg3, ki. split; [reflexivity|]. split; [exact Hcp|].
  unfold view. cbn [hs cfg pths lnk set_sessions with_hs]. rewrite Vh, Vc, Vp, Vw.
  unfold m0. cbn [hs cfg pths lnk set_initiators with_hs initiators responders sessions binding_claims].
  rewrite Hself. reflexivity.
Qed.

(** The responder takes the third message and has a session. *)
Lemma msg3_accepted e m peer c self r2 msg3 ki v :
  completes c peer self r2 msg3 ki -> binding_verifier (cfg m) = Some v ->
  v peer (x25519_base (local_static c)) (ctx_binding c) (fst (ctx_issuance c)) (snd (ctx_issuance c)) = true ->
  responders (hs m) !! peer = Some (responder_of self r2) ->
  exists m' kr, handle_handshake e m peer msg3 = (Established peer, m') /\ paired ki kr /\
    initiators (hs m') = initiators (hs m) /\
    sessions (hs m') = <[peer := session_new peer kr]> (sessions (hs m)) /\
    cfg m' = cfg m /\ path_table (pths m') = path_table (pths m) /\ wire (lnk m') = wire (lnk m).
Proof.
  intros [Hl Hrun] Hv Hok Hr. destruct (Hrun v Hok) as (kr & r' & E & Hp).
  unfold handle_handshake. rewrite !decide_False by (rewrite Hl; auto). rewrite decide_True by done.
  unfold handle_msg3. rewrite Hv, Hr, E. eexists _, kr. split; [reflexivity|]. split; [exact Hp|].
  destruct (claim_of _ _); split_and!; reflexivity.
Qed.
Lemma initiate_ok e m self peer c k1 k2 s : peers m self peer c k1 k2 s ->
  sessions (hs m) !! peer = None -> initiators (hs m) !! peer = None -> responders (hs m) !! peer = None ->
  exists i1 m1 m', initiate_handshake e m peer = (Ok (Some (hs_frame self peer k2 (be_bytes 4 peer ++ m1))), m') /\
    started c i1 m1 /\
    view m' = (mk_hs (<[peer := initiator_of c peer (random_salt e) s i1]> (initiators (hs m)))
                 (responders (hs m)) (sessions (hs m)) (binding_claims (hs m)),
               cfg m, path_table (pths m), wire (lnk m)).
Proof.
  intros [Hself Hctx Hok Hk1 Hk2 Hps Hep Hpt [Hu1 Hu2] Hnb] Hs Hi Hr. unfold initiate_handshake.
  rewrite decide_False by (rewrite Hs, Hi, Hr; by intros [[]%is_Some_None|[[]%is_Some_None|[]%is_Some_None]]).
  rewrite Hctx, Hps. destruct (started_exists c (seed e) Hok) as (i0 & i1 & m1 & Hb & W1 & Hst).
  unfold initiator_new. rewrite decide_False by (destruct Hok; auto). fold (prologue_of c). rewrite Hb.
  cbn [noise]. step. unfold write_msg1. cbn [sent_msg1 i_state target_node_id]. rewrite W1.
  set (m0 := set_initiators _ _). rewrite (build_hs m0 peer k2) by (change (cfg m0) with (cfg m); rewrite ?Hself; done).
  step. exists i1, m1, m0. change (cfg m0) with (cfg m). rewrite Hself. split_and!; [reflexivity|exact Hst|reflexivity].
Qed.
End Runs.

(** ** Two nodes and the packets between them *)

(** The flag of a packet in flight says whether it is for the second node. *)
Record World := mk_world { node_a : MeshData; node_b : MeshData; flight : list (bool * list Z) }.

(** The packets a handler has put on the underlay. *)
Definition sent (m m' : MeshData) : list (list Z) := snd <$> drop (length (wire (lnk m))) (wire (lnk m')).

(** Any packet in flight is delivered next. *)
Inductive delivery : World -> World -> Prop :=
| to_b e addr a b b' ev f l1 l2 : lossless e -> handle_incoming e b addr f = (ev, b') ->
    delivery (mk_world a b (l1 ++ (true, f) :: l2))
      (mk_world a b' (l1 ++ l2 ++ ((false,.) <$> sent b b')))
| to_a e addr a b a' ev f l1 l2 : lossless e -> handle_incoming e a addr f = (ev, a') ->
    delivery (mk_world a b (l1 ++ (false, f) :: l2))
      (mk_world a' b (l1 ++ l2 ++ ((true,.) <$> sent a a'))).

Section Crossing.
Context `{PL : !PrimitiveLaws P} `{NL : !Handshake.NoiseLaws N}.
Import Handshake.
Variables (A B : Z) (ca cb : HandshakeContext) (kA kB : list Z).
Let sA := x25519_base (local_static ca).
Let sB := x25519_base (local_static cb).

(** Both nodes know each other, are of one network, and the one with the higher
    identifier accepts the binding of the other. *)
Record mutual (a b : MeshData) : Prop := {
  mu_a : peers a A B ca kA kB sB;
  mu_b : peers b B A cb kB kA sA;
  mu_net : prologue_of ca = prologue_of cb;
  mu_lt : A < B;
  mu_v : exists v, binding_verifier (cfg b) = Some v /\
    v A sA (ctx_binding ca) (fst (ctx_issuance ca)) (snd (ctx_issuance ca)) = true
}.

Lemma mutual_view a b a' b' : cfg a' = cfg a -> path_table (pths a') = path_table (pths a) ->
  cfg b' = cfg b -> path_table (pths b') = path_table (pths b) -> mutual a b -> mutual a' b'.
Proof.
  intros Ha Hpa Hb Hpb []. split; [by eapply peers_view|by eapply (peers_view b)|done|done|by rewrite Hb].
Qed.

(** How far the handshake of the first node has come. *)
Inductive stage := Opening | Answered | Finishing | Ready.

(** The handshake of the second node: its opening in flight, the needless answer
    to it in flight, or neither. *)
Inductive crossed := Pending | Echoed | Spent.

Definition in_stage (st : stage) (a b : MeshData) (l : list (bool * list Z)) : Prop :=
  match st with
  | Opening => exists i1 m1 slt, u32 slt /\ started ca i1 m1 /\
      initiators (hs a) !! B = Some (initiator_of ca B slt sB i1) /\
      l = [(true, hs_frame A B kB (be_bytes 4 B ++ m1))]
  | Answered => exists i1 r2 m2 slt, u32 slt /\ answered (local_static ca) (local_static cb) i1 r2 m2 /\
      initiators (hs a) !! B = Some (initiator_of ca B slt sB i1) /\
      initiators (hs b) !! A = None /\ responders (hs b) !! A = Some (responder_of B r2) /\
      l = [(false, hs_frame B A kA m2)]
  | Finishing => exists r2 msg3 ki, completes ca A B r2 msg3 ki /\
      initiators (hs a) !! B = None /\ sessions (hs a) !! B = Some (session_new B ki) /\
      initiators (hs b) !! A = None /\ responders (hs b) !! A = Some (responder_of B r2) /\
      l = [(true, hs_frame A B kB msg3)]
  | Ready => exists ki kr, paired ki kr /\
      initiators (hs a) !! B = None /\ sessions (hs a) !! B = Some (session_new B ki) /\
      initiators (hs b) !! A = None /\ sessions (hs b) !! A = Some (session_new A kr) /\ l = []
  end.

Definition in_crossed (st : stage) (x : crossed) (l : list (bool * list Z)) : Prop :=
  match x with
  | Pending => exists i1 m1, started cb i1 m1 /\ l = [(false, hs_frame B A kA (be_bytes 4 A ++ m1))]
  | Echoed => (st = Finishing \/ st = Ready) /\
      exists m2, length m2 = MSG2_BODY_LEN /\ l = [(true, hs_frame A B kB m2)]
  | Spent => l = []
  end.

Definition weight (st : stage) (x : crossed) : nat :=
  match st with Opening => 3 | Answered => 2 | Finishing => 1 | Ready => 0 end +
  match x with Pending => 2 | Echoed => 1 | Spent => 0 end.

Definition inv (n : nat) (w : World) : Prop :=
  mutual (node_a w) (node_b w) /\
  exists st x l1 l2, in_stage st (node_a w) (node_b w) l1 /\ in_crossed st x l2 /\
    flight w ≡ₚ l1 ++ l2 /\ n = weight st x.
Lemma receive_at e m m' ev addr self peer c k1 k2 ps payload :
  peers m self peer c k1 k2 ps -> Z.of_nat (length payload) < 65536 ->
  handle_incoming e m addr (hs_frame peer self k1 payload) = (ev, m') ->
  exists m1 m3, view m1 = view m /\ peers m1 self peer c k1 k2 ps /\
    handle_handshake e m1 peer payload = (ev, m3) /\ view m' = view m3.
Proof.
  intros Hp Hl E. destruct (p_u _ _ _ _ _ _ _ Hp) as [Hu1 Hu2].
  destruct (receive e m addr peer self k1 payload) as (m1 & V1 & H); try done; try (by destruct Hp).
  rewrite E in H. destruct H as (m3 & Hh & V3). exists m1, m3. split; [done|]. split; [|done].
  injection V1 as _ Vc Vp _. by eapply peers_view.
Qed.

Lemma sent_one m m' a f : wire (lnk m') = wire (lnk m) ++ [(a, f)] -> sent m m' = [f].
Proof. intros E. unfold sent. by rewrite E, drop_app_length. Qed.

Lemma sent_none m m' : wire (lnk m') = wire (lnk m) -> sent m m' = [].
Proof. intros E. unfold sent. by rewrite E, drop_all. Qed.

(** A packet is handled at its end. *)
Definition handled (d : bool) (f : list Z) (a b a' b' : MeshData) (new : list (bool * list Z)) : Prop :=
  exists e addr ev, lossless e /\
    if d then handle_incoming e b addr f = (ev, b') /\ a' = a /\ new = (false,.) <$> sent b b'
    else handle_incoming e a addr f = (ev, a') /\ b' = b /\ new = (true,.) <$> sent a a'.

Definition next (st : stage) : stage :=
  match st with Opening => Answered | Answered => Finishing | _ => Ready end.

Lemma opening_step f a b a' b' new : mutual a b -> in_stage Opening a b [(true, f)] ->
  handled true f a b a' b' new -> mutual a' b' /\ in_stage Answered a' b' new.
Proof.
  intros Hmu (i1 & m1 & slt & Hslt & Hst & Hi & [= ->]) (e & addr & ev & He & E & -> & ->).
  pose proof Hst as (_ & _ & _ & _ & L1). pose proof Hmu as [Ha Hb Hnet Hlt Hv].
  assert (Hlen : Z.of_nat (length (be_bytes 4 B ++ m1)) < 65536) by (rewrite length_app, length_be_bytes, L1; done).
  destruct (receive_at _ _ _ _ _ _ _ _ _ _ _ _ Hb Hlen E) as (b1 & b3 & V1 & Hb1 & Hh & V3).
  destruct (msg1_answered e b1 B A cb ca kB kA sA i1 m1 He Hb1 (p_ctx_ok _ _ _ _ _ _ _ Ha) Hnet Hst
    (or_intror Hlt)) as (b4 & ep & r2 & m2 & Hh' & Hans & V4).
  rewrite Hh in Hh'. injection Hh' as _ ->. injection V1 as Vh Vc Vp Vw. rewrite V4 in V3.
  injection V3 as Wh Wc Wp Ww. rewrite Vc in Wc. rewrite Vp in Wp. rewrite Vw in Ww.
  split; [by eapply (mutual_view a b); [..|exact Hmu]|].
  rewrite (sent_one _ _ _ _ Ww). exists i1, r2, m2, slt. rewrite Wh.
  cbn [initiators responders]. split_and!; [done|done|done|apply lookup_delete_eq|apply lookup_insert_eq|done].
Qed.

Lemma answered_step f a b a' b' new : mutual a b -> in_stage Answered a b [(false, f)] ->
  handled false f a b a' b' new -> mutual a' b' /\ in_stage Finishing a' b' new.
Proof.
  intros Hmu (i1 & r2 & m2 & slt & Hslt & Hans & Hi & Hib & Hrb & [= ->]) (e & addr & ev & He & E & -> & ->).
  pose proof Hans as [L2 _]. pose proof Hmu as [Ha Hb Hnet Hlt Hv].
  assert (Hlen : Z.of_nat (length (m2)) < 65536) by (rewrite L2; done).
  destruct (receive_at _ _ _ _ _ _ _ _ _ _ _ _ Ha Hlen E) as (a1 & a3 & V1 & Ha1 & Hh & V3).
  injection V1 as Vh Vc Vp Vw.
  destruct (msg2_accepted e a1 A B ca kA kB (local_static cb) slt i1 r2 m2 He Ha1) as (a4 & ep & msg3 & ki & Hh' & Hc & V4);
    [by destruct (p_ctx_ok _ _ _ _ _ _ _ Hb)|done|done|by rewrite Vh|].
  rewrite Hh in Hh'. injection Hh' as _ ->. rewrite V4 in V3.
  injection V3 as Wh Wc Wp Ww. rewrite Vc in Wc. rewrite Vp in Wp. rewrite Vw in Ww.
  split; [by eapply (mutual_view a b); [..|exact Hmu]|].
  rewrite (sent_one _ _ _ _ Ww). exists r2, msg3, ki. rewrite Wh. cbn [initiators responders sessions].
  split_and!; [done|apply lookup_delete_eq|apply lookup_insert_eq|done|done|done].
Qed.

Lemma finishing_step f a b a' b' new : mutual a b -> in_stage Finishing a b [(true, f)] ->
  handled true f a b a' b' new -> mutual a' b' /\ in_stage Ready a' b' new.
Proof.
  intros Hmu (r2 & msg3 & ki & Hc & Hia & Hsa & Hib & Hrb & [= ->]) (e & addr & ev & He & E & -> & ->).
  pose proof Hc as [L3 _]. pose proof Hmu as [Ha Hb Hnet Hlt (v & Hv & Hok)].
  assert (Hlen : Z.of_nat (length (msg3)) < 65536) by (rewrite L3; done).
  destruct (receive_at _ _ _ _ _ _ _ _ _ _ _ _ Hb Hlen E) as (b1 & b3 & V1 & Hb1 & Hh & V3).
  injection V1 as Vh Vc Vp Vw.
  destruct (msg3_accepted e b1 A ca B r2 msg3 ki v Hc) as (b4 & kr & Hh' & Hpair & Hi4 & Hs4 & Hc4 & Hp4 & Hw4);
    [by rewrite Vc|exact Hok|by rewrite Vh|].
  rewrite Hh in Hh'. injection Hh' as _ ->. injection V3 as Wh Wc Wp Ww.
  split; [eapply (mutual_view a b); [..|exact Hmu]; congruence|].
  rewrite sent_none by congruence. exists ki, kr. rewrite Wh, Hi4, Hs4, Vh.
  split_and!; [done|done|done|done|apply lookup_insert_eq|done].
Qed.
Lemma in_stage_ext st a b a' b' l : initiators (hs a') !! B = initiators (hs a) !! B ->
  sessions (hs a') !! B = sessions (hs a) !! B -> hs b' = hs b -> in_stage st a b l -> in_stage st a' b' l.
Proof. intros Hi Hs Hb. destruct st; cbn [in_stage]; by rewrite Hi, ?Hs, ?Hb. Qed.

Lemma stage_step st d f a b a' b' new : mutual a b -> in_stage st a b [(d, f)] -> handled d f a b a' b' new ->
  mutual a' b' /\ in_stage (next st) a' b' new /\ st <> Ready.
Proof.
  intros Hmu Hst Hh. destruct st.
  - assert (d = true) as -> by (by destruct Hst as (? & ? & ? & _ & _ & _ & [= -> _])).
    by destruct (opening_step f a b a' b' new Hmu Hst Hh).
  - assert (d = false) as -> by (by destruct Hst as (? & ? & ? & ? & _ & _ & _ & _ & _ & [= -> _])).
    by destruct (answered_step f a b a' b' new Hmu Hst Hh).
  - assert (d = true) as -> by (by destruct Hst as (? & ? & ? & _ & _ & _ & _ & _ & [= -> _])).
    by destruct (finishing_step f a b a' b' new Hmu Hst Hh).
  - by destruct Hst as (? & ? & _ & _ & _ & _ & _ & [=]).
Qed.

(** The opening of the second node is refused while the first still has its own,
    and answered to no effect after that. *)
Lemma pending_step st f a b a' b' l new : mutual a b -> in_stage st a b l -> in_crossed st Pending [(false, f)] ->
  handled false f a b a' b' new ->
  mutual a' b' /\ in_stage st a' b' l /\ exists x', x' <> Pending /\ in_crossed st x' new /\
    (initiators (hs a) !! B = None -> x' = Echoed /\ is_Some (responders (hs a') !! B)).
Proof.
  intros Hmu Hst (i1 & m1 & Hstart & [= ->]) (e & addr & ev & He & E & -> & ->).
  pose proof Hstart as (_ & _ & _ & _ & L1). pose proof Hmu as [Ha Hb Hnet Hlt _].
  assert (Hlen : length (be_bytes 4 A ++ m1) = MSG1_PAYLOAD_LEN) by (rewrite length_app, length_be_bytes, L1; done).
  assert (Hlen' : Z.of_nat (length (be_bytes 4 A ++ m1)) < 65536) by (rewrite Hlen; done).
  destruct (receive_at _ _ _ _ _ _ _ _ _ _ _ _ Ha Hlen' E) as (a1 & a3 & V1 & Ha1 & Hh & V3).
  injection V1 as Vh Vc Vp Vw. destruct (initiators (hs a) !! B) as [i|] eqn:Ei.
  - rewrite (msg1_refused e a1 A B i) in Hh; [|by destruct Ha1|done|by rewrite Vh|done].
    injection Hh as <- <-. injection V3 as Wh Wc Wp Ww.
    split; [eapply (mutual_view a b); [..|exact Hmu]; congruence|].
    split; [eapply (in_stage_ext st a b); [..|exact Hst]; congruence|].
    exists Spent. split; [done|]. split; [|done]. rewrite sent_none by congruence. reflexivity.
  - destruct (msg1_answered e a1 A B ca cb kA kB sB i1 m1 He Ha1 (p_ctx_ok _ _ _ _ _ _ _ Hb)) as
      (a4 & ep & r2 & m2 & Hh' & Hans & V4); [done|done|left; by rewrite Vh|].
    rewrite Hh in Hh'. injection Hh' as _ ->. rewrite V4 in V3. injection V3 as Wh Wc Wp Ww.
    rewrite Vc in Wc. rewrite Vp in Wp. rewrite Vw in Ww.
    split; [by eapply (mutual_view a b); [..|exact Hmu]|].
    split; [eapply (in_stage_ext st a b); [..|exact Hst]; [|by rewrite Wh; cbn; rewrite Vh|done]|].
    { rewrite Wh. cbn [initiators]. by rewrite lookup_delete_eq, Ei. }
    exists Echoed. split; [done|]. split; [|intros _; split; [done|]; rewrite Wh; eexists; apply lookup_insert_eq].
    split. { destruct st; [| |by left|by right]; exfalso; cbn [in_stage] in Hst; rewrite Ei in Hst.
      - by destruct Hst as (? & ? & ? & _ & _ & [=] & _).
      - by destruct Hst as (? & ? & ? & ? & _ & _ & [=] & _). }
    exists m2. split; [by destruct Hans|]. by rewrite (sent_one _ _ _ _ Ww).
Qed.

Lemma echoed_step st f a b a' b' l new : mutual a b -> in_stage st a b l -> in_crossed st Echoed [(true, f)] ->
  handled true f a b a' b' new -> mutual a' b' /\ in_stage st a' b' l /\ in_crossed st Spent new.
Proof.
  intros Hmu Hst (Hlate & m2 & L2 & [= ->]) (e & addr & ev & He & E & -> & ->).
  pose proof Hmu as [Ha Hb Hnet Hlt _].
  assert (Hlen : Z.of_nat (length m2) < 65536) by (rewrite L2; done).
  destruct (receive_at _ _ _ _ _ _ _ _ _ _ _ _ Hb Hlen E) as (b1 & b3 & V1 & Hb1 & Hh & V3).
  injection V1 as Vh Vc Vp Vw.
  assert (Hi : initiators (hs b1) !! A = None).
  { rewrite Vh. destruct Hlate as [-> | ->]; cbn [in_stage] in Hst; naive_solver. }
  rewrite (msg2_ignored e b1 A m2 Hi L2) in Hh. injection Hh as <- <-. injection V3 as Wh Wc Wp Ww.
  split; [eapply (mutual_view a b); [..|exact Hmu]; congruence|].
  split; [eapply (in_stage_ext st a b); [done|done| |exact Hst]; congruence|].
  cbn [in_crossed]. rewrite sent_none by congruence. reflexivity.
Qed.

(** Which of the packets in flight is delivered. *)
Lemma pick_flight {X} (x : X) l1 l2 s1 s2 : l1 ++ x :: l2 ≡ₚ s1 ++ s2 ->
  (length s1 <= 1)%nat -> (length s2 <= 1)%nat ->
  (s1 = [x] /\ l1 ++ l2 ≡ₚ s2) \/ (s2 = [x] /\ l1 ++ l2 ≡ₚ s1).
Proof.
  intros Hp L1 L2. assert (Hx : x ∈ s1 ++ s2) by (rewrite <- Hp; set_solver).
  rewrite <- Permutation_middle in Hp. apply elem_of_app in Hx as [Hx|Hx]; [left|right].
  - destruct s1 as [|y [|]]; [by apply elem_of_nil in Hx| |cbn in L1; lia].
    apply list_elem_of_singleton in Hx as ->. split; [done|]. by eapply Permutation_cons_inv.
  - destruct s2 as [|y [|]]; [by apply elem_of_nil in Hx| |cbn in L2; lia].
    apply list_elem_of_singleton in Hx as ->. split; [done|]. rewrite (Permutation_app_comm s1) in Hp.
    by eapply Permutation_cons_inv.
Qed.

Lemma step_weight n w d f l1 l2 a' b' new : inv n w -> flight w = l1 ++ (d, f) :: l2 ->
  handled d f (node_a w) (node_b w) a' b' new ->
  exists n', (n' < n)%nat /\ inv n' (mk_world a' b' (l1 ++ l2 ++ new)).
Proof.
  intros (Hmu & st & x & s1 & s2 & Hst & Hx & Hf & ->) Ef Hh. rewrite Ef in Hf.
  assert (L1 : (length s1 <= 1)%nat).
  { destruct st; cbn [in_stage] in Hst; destruct_and?; naive_solver. }
  assert (L2 : (length s2 <= 1)%nat) by (destruct x; cbn [in_crossed] in Hx; naive_solver).
  destruct (pick_flight _ _ _ _ _ Hf L1 L2) as [[-> Hr]|[-> Hr]].
  - destruct (stage_step st d f _ _ a' b' new Hmu Hst Hh) as (Hmu' & Hst' & Hne).
    exists (weight (next st) x). split; [destruct st; done || (cbn; lia)|]. split; [done|].
    exists (next st), x, new, s2. split_and!; [done| | |done].
    + destruct x; cbn [in_crossed] in *; [done| |done]. destruct Hx as [[-> | ->] ?]; split; auto.
    + cbn [flight]. rewrite app_assoc, Hr. by rewrite Permutation_app_comm.
  - destruct x; cbn [in_crossed] in Hx.
    + assert (d = false) as -> by (by destruct Hx as (? & ? & _ & [= -> _])).
      destruct (pending_step st f _ _ a' b' s1 new Hmu Hst Hx Hh) as (Hmu' & Hst' & x' & Hne & Hx' & _).
      exists (weight st x'). split; [unfold weight; destruct x'; [done|lia|lia]|]. split; [done|].
      exists st, x', s1, new. split_and!; [done|done| |done]. cbn [flight]. by rewrite app_assoc, Hr.
    + assert (d = true) as -> by (by destruct Hx as (_ & ? & _ & [= -> _])).
      destruct (echoed_step st f _ _ a' b' s1 new Hmu Hst Hx Hh) as (Hmu' & Hst' & Hx').
      exists (weight st Spent). split; [unfold weight; lia|]. split; [done|].
      exists st, Spent, s1, new. split_and!; [done|done| |done]. cbn [flight]. by rewrite app_assoc, Hr.
    + done.
Qed.
Lemma inv_steps n w w' : nsteps delivery n w w' -> forall k, inv k w ->
  exists k', (n + k' <= k)%nat /\ inv k' w'.
Proof.
  induction 1 as [w|n w w' w'' Hd Hn IH]; intros k H0; [by exists k|].
  assert (Hs : exists k', (k' < k)%nat /\ inv k' w').
  { destruct Hd as [e addr x y y' ev f l1 l2 He Eh|e addr x y x' ev f l1 l2 He Eh].
    - eapply (step_weight k _ true f l1 l2); [exact H0|done|]. by exists e, addr, ev.
    - eapply (step_weight k _ false f l1 l2); [exact H0|done|]. by exists e, addr, ev. }
  destruct Hs as (k' & Hlt & H'). destruct (IH k' H') as (k'' & ? & ?). exists k''. split; [lia|done].
Qed.

Definition fresh (m : MeshData) (peer : Z) : Prop :=
  sessions (hs m) !! peer = None /\ initiators (hs m) !! peer = None /\ responders (hs m) !! peer = None.

(** Both nodes open at once. *)
Lemma both_open ea eb a b : mutual a b -> fresh a B -> fresh b A -> u32 (random_salt ea) ->
  exists fA fB a1 b1, initiate_handshake ea a B = (Ok (Some fA), a1) /\
    initiate_handshake eb b A = (Ok (Some fB), b1) /\
    mutual a1 b1 /\ in_stage Opening a1 b1 [(true, fA)] /\ in_crossed Opening Pending [(false, fB)].
Proof.
  intros Hmu (Hs & Hi & Hr) (Hs' & Hi' & Hr') Hsalt. pose proof Hmu as [Ha Hb _ _ _].
  destruct (initiate_ok ea a A B ca kA kB sB Ha Hs Hi Hr) as (i1 & m1 & a1 & E & Hst & V).
  destruct (initiate_ok eb b B A cb kB kA sA Hb Hs' Hi' Hr') as (i1' & m1' & b1 & E' & Hst' & V').
  injection V as Vh Vc Vp Vw. injection V' as Wh Wc Wp Ww.
  eexists _, _, a1, b1. split; [exact E|]. split; [exact E'|].
  split; [by eapply (mutual_view a b); [..|exact Hmu]|]. split.
  - exists i1, m1, (random_salt ea). rewrite Vh. cbn [initiators]. rewrite lookup_insert_eq. done.
  - by exists i1', m1'.
Qed.

(** C6: simultaneous handshakes converge.  Two nodes that know each other and open a
    handshake to each other at the same moment both succeed in sending; in
    whatever order the packets arrive, there are at most five deliveries, and
    when nothing is in flight any more each has a session with the other, with
    matching keys. *)
Theorem collision_converges (ea eb : Env) (a b : MeshData) (Hmu : mutual a b)
  (Ha : fresh a B) (Hb : fresh b A) (Hsalt : u32 (random_salt ea)) :
  exists fA fB a1 b1, initiate_handshake ea a B = (Ok (Some fA), a1) /\
    initiate_handshake eb b A = (Ok (Some fB), b1) /\
    forall n w, nsteps delivery n (mk_world a1 b1 [(true, fA); (false, fB)]) w ->
      (n <= 5)%nat /\
      (flight w = [] -> exists s s', sessions (hs (node_a w)) !! B = Some s /\
         sessions (hs (node_b w)) !! A = Some s' /\ paired (keys s) (keys s')).
Proof.
  destruct (both_open ea eb a b Hmu Ha Hb Hsalt) as (fA & fB & a1 & b1 & E & E' & Hmu1 & Hst & Hx).
  exists fA, fB, a1, b1. split; [exact E|]. split; [exact E'|]. intros n w Hn.
  assert (H0 : inv 5 (mk_world a1 b1 [(true, fA); (false, fB)])).
  { split; [done|]. by exists Opening, Pending, [(true, fA)], [(false, fB)]. }
  destruct (inv_steps n _ _ Hn 5 H0) as (k & Hk & Hmu' & st & x & l1 & l2 & Hst' & Hx' & Hf & _). split; [lia|].
  intros Hnil. rewrite Hnil in Hf. apply Permutation_nil, app_eq_nil in Hf as [-> ->].
  destruct st; cbn [in_stage] in Hst'; [naive_solver..|].
  destruct Hst' as (ki & kr & Hp & _ & Hs1 & _ & Hs2 & _). eexists _, _. split_and!; [exact Hs1|exact Hs2|exact Hp].
Qed.

Lemma do_b (e : Env) (addr : SocketAddr) a b f l1 l2 : lossless e -> exists b' new, handled true f a b a b' new /\
  delivery (mk_world a b (l1 ++ (true, f) :: l2)) (mk_world a b' (l1 ++ l2 ++ new)).
Proof.
  intros He. destruct (handle_incoming e b addr f) as [ev b'] eqn:E. eexists b', _.
  split; [by exists e, addr, ev|]. by eapply to_b.
Qed.

Lemma do_a (e : Env) (addr : SocketAddr) a b f l1 l2 : lossless e -> exists a' new, handled false f a b a' b new /\
  delivery (mk_world a b (l1 ++ (false, f) :: l2)) (mk_world a' b (l1 ++ l2 ++ new)).
Proof.
  intros He. destruct (handle_incoming e a addr f) as [ev a'] eqn:E. eexists a', _.
  split; [by exists e, addr, ev|]. by eapply to_a.
Qed.

(** A handshake that is never finished.  In one of these runs, that in which the
    second opening arrives after the answer, both nodes end with their sessions
    and nothing is in flight, but the first keeps the state of an answer nobody
    will complete: when it later drops the session it cannot open a new
    handshake to that peer. *)
Theorem crossing_leaves_responder (e ea eb : Env) (addr : SocketAddr) (a b : MeshData) (Hmu : mutual a b)
  (Ha : fresh a B) (Hb : fresh b A) (Hsalt : u32 (random_salt ea)) (He : lossless e) :
  exists fA fB a1 b1 w, initiate_handshake ea a B = (Ok (Some fA), a1) /\
    initiate_handshake eb b A = (Ok (Some fB), b1) /\
    rtc delivery (mk_world a1 b1 [(true, fA); (false, fB)]) w /\ flight w = [] /\
    is_Some (sessions (hs (node_a w)) !! B) /\ is_Some (sessions (hs (node_b w)) !! A) /\
    forall e', fst (initiate_handshake e' (drop_initiator (drop_session (node_a w) B) B) B) = Ok None.
Proof.
  destruct (both_open ea eb a b Hmu Ha Hb Hsalt) as (fA & fB & a1 & b1 & E & E' & Hmu1 & Hst & Hx).
  destruct (do_b e addr a1 b1 fA [] [(false, fB)] He) as (b2 & n2 & H2 & D2).
  destruct (stage_step Opening true fA _ _ _ _ _ Hmu1 Hst H2) as (Hmu2 & Hst2 & _). cbn [next] in Hst2.
  pose proof Hst2 as (? & ? & m2 & ? & _ & _ & _ & _ & _ & En2).
  set (f2 := hs_frame B A kA m2) in *. clearbody f2. subst n2.
  destruct (do_a e addr a1 b2 f2 [(false, fB)] [] He) as (a3 & n3 & H3 & D3).
  destruct (stage_step Answered false f2 _ _ _ _ _ Hmu2 Hst2 H3) as (Hmu3 & Hst3 & _). cbn [next] in Hst3.
  pose proof Hst3 as (? & msg3 & ? & _ & Hi3 & _ & _ & _ & En3).
  set (f3 := hs_frame A B kB msg3) in *. clearbody f3. subst n3.
  destruct (do_a e addr a3 b2 fB [] [(true, f3)] He) as (a4 & n4 & H4 & D4).
  assert (Hx3 : in_crossed Finishing Pending [(false, fB)]) by exact Hx.
  destruct (pending_step Finishing fB _ _ _ _ _ _ Hmu3 Hst3 Hx3 H4) as (Hmu4 & Hst4 & x' & _ & Hx4 & Hr).
  destruct (Hr Hi3) as [-> Hr4]. pose proof Hx4 as (_ & m2' & _ & En4).
  set (f4 := hs_frame A B kB m2') in *. clearbody f4. subst n4.
  destruct (do_b e addr a4 b2 f3 [] [(true, f4)] He) as (b5 & n5 & H5 & D5).
  destruct (stage_step Finishing true f3 _ _ _ _ _ Hmu4 Hst4 H5) as (Hmu5 & Hst5 & _). cbn [next] in Hst5.
  pose proof Hst5 as (? & ? & _ & _ & _ & _ & _ & ->).
  destruct (do_b e addr a4 b5 f4 [] [] He) as (b6 & n6 & H6 & D6).
  assert (Hx5 : in_crossed Ready Echoed [(true, f4)]).
  { split; [by right|]. by destruct Hx4 as (_ & ?). }
  destruct (echoed_step Ready f4 _ _ _ _ _ _ Hmu5 Hst5 Hx5 H6) as (_ & Hst6 & Hn6). cbn [in_crossed] in Hn6. subst n6.
  destruct Hst6 as (ki & kr & _ & _ & Hsa & _ & Hsb & _).
  exists fA, fB, a1, b1, (mk_world a4 b6 []). split; [exact E|]. split; [exact E'|]. split.
  { eapply rtc_l; [exact D2|]. eapply rtc_l; [exact D3|]. eapply rtc_l; [exact D4|].
    eapply rtc_l; [exact D5|]. eapply rtc_l; [exact D6|]. apply rtc_refl. }
  split; [done|]. split; [by eexists|]. split; [by eexists|]. intros e'. unfold initiate_handshake.
  rewrite decide_True; [done|]. right. right. exact Hr4.
Qed.
End Crossing.

(** ** A frame on its way along a path *)

Section Delivery.
Context `{PL : !PrimitiveLaws P}.

(** A relay on the path of a frame: it holds the path's key and its hops, and has
    an endpoint of the next node that no other relay owns. *)
Record on_path (e : Env) (m : MeshData) (to id : Z) (key : list Z) (hs : list Z) (i : nat) : Prop := {
  op_env : lossless e;
  op_self : hs !! i = Some (self_node_id (cfg m));
  op_key : key_path_table (pths m) !! id = Some key;
  op_path : exists p, find_path e m to id = Some p /\ hops p = hs;
  op_next : exists nx addrs, hs !! S i = Some nx /\ endpoint_table (cfg m) !! nx = Some addrs /\
    retain_hop_endpoints m nx addrs <> []
}.

(** The frame that reaches the end of a row of nodes, each handling what the one
    before it has sent; [None] when one does not send exactly one packet. *)
Fixpoint carry (f : list Z) (rs : list (Env * SocketAddr * MeshData)) : option (list Z) :=
  match rs with
  | [] => Some f
  | (e, addr, m) :: rs =>
      match sent m (snd (handle_incoming e m addr f)) with
      | [f'] => carry f' rs
      | _ => None
      end
  end.

Lemma position_nodup (hs : list Z) i x : NoDup hs -> hs !! i = Some x -> position x hs = Some i.
Proof.
  intros Hn Hi. unfold position. destruct (list_find _ hs) as [[j y]|] eqn:E.
  - apply list_find_Some in E as (Hj & -> & _). cbn. f_equal. by eapply NoDup_lookup.
  - apply list_find_None in E. rewrite Forall_lookup in E. by specialize (E i x Hi).
Qed.

Section OnPath.
Variables (h : Frame.MeshFrameHeader) (key : list Z) (hs : list Z).
Hypothesis Hv : Frame.version h = Frame.VERSION.
Hypothesis Hty : Frame.packet_type_ h = Frame.packet_type.UNICAST.
Hypothesis Hid : Frame.path_id h <> Frame.PATH_ID_DEFAULT.
Hypothesis Hto : Frame.to_node_id h <> Frame.BROADCAST_NODE_ID.
Hypothesis Hmac : route_mac key (Frame.auth_input h) = Frame.route_mac_ h.
Hypothesis Hnd : NoDup hs.

Lemma decode_long f h' : Frame.decode f = Ok h' -> (Frame.HEADER_LEN <= length f)%nat.
Proof.
  unfold Frame.decode, Frame.parse. destruct (Frame.ref_from_prefix f) as [[w rest]|] eqn:E; step; [|done].
  intros _. destruct (decide (length f < Frame.HEADER_LEN)%nat) as [Hlt|]; [|lia].
  apply Frame.ref_from_prefix_None in Hlt. congruence.
Qed.

Lemma auth_set_ttl t : Frame.auth_input (Frame.set_ttl t h) = Frame.auth_input h.
Proof. by apply Frame.auth_input_erase. Qed.

Lemma relay_on_path e m addr f t i : on_path e m (Frame.to_node_id h) (Frame.path_id h) key hs i ->
  Frame.decode f = Ok (Frame.set_ttl t h) -> self_node_id (cfg m) <> Frame.to_node_id h -> 0 < t ->
  sent m (snd (handle_incoming e m addr f)) = [Frame.decrement_ttl f].
Proof.
  intros [He Hself Hk (p & Hp & Hhops) (nx & addrs & Hnx & Hep & Hne)] Hd Hns Ht.
  unfold handle_incoming. rewrite (decode_head _ _ Hd). cbn [Frame.set_ttl Frame.version]. rewrite Hv.
  rewrite bool_decide_true by (unfold Frame.VERSION; lia). unfold handle_frame, relay.
  pose proof (decode_long f _ Hd). rewrite decide_False by lia. rewrite Hd. cbv zeta.
  rewrite auth_set_ttl. cbn [Frame.set_ttl Frame.version Frame.to_node_id Frame.path_id Frame.route_mac_ Frame.ttl].
  rewrite decide_False by auto. rewrite decide_False by done. rewrite bool_decide_true by done. rewrite Hk.
  rewrite decide_False by auto. rewrite decide_False by auto. rewrite decide_False by lia.
  unfold path_next_node, is_probe_response.
  cbn [Frame.set_ttl Frame.to_node_id Frame.path_id Frame.packet_type_ Frame.flags].
  rewrite Hp. cbn [mbind option_bind]. rewrite Hhops, (position_nodup hs i _ Hnd Hself). cbn [mbind option_bind].
  rewrite bool_decide_false by (rewrite Hty; done). cbn [andb]. rewrite Hnx, Hep.
  unfold order_endpoints. destruct (sort _ (retain_hop_endpoints m nx addrs)) as [|a l] eqn:Es.
  { apply (f_equal length) in Es. rewrite length_sort in Es. by destruct (retain_hop_endpoints m nx addrs). }
  cbn [forward_first]. rewrite He. cbn [snd]. apply (sent_one _ _ a). reflexivity.
Qed.

Lemma carry_on_path to rs : to = Frame.to_node_id h -> hs !! length rs = Some to -> forall f t i n,
  (forall j e addr m, rs !! (i + j)%nat = Some (e, addr, m) -> on_path e m to (Frame.path_id h) key hs (i + j)) ->
  n = length (drop i rs) -> (i <= length rs)%nat ->
  Frame.decode f = Ok (Frame.set_ttl t h) -> Z.of_nat n <= t < 256 ->
  carry f (drop i rs) = Some (Nat.iter n Frame.decrement_ttl f) /\
  Frame.decode (Nat.iter n Frame.decrement_ttl f) = Ok (Frame.set_ttl (t - Z.of_nat n) h).
Proof.
  intros Eto Hlast f t i n. revert f t i. induction n as [|n IH]; intros f t i Hrs Hn Hi Hd Ht.
  - destruct (drop i rs); [|done]. cbn. by rewrite Z.sub_0_r.
  - destruct (drop i rs) as [|[[e addr] m] rest] eqn:Ed; [done|].
    assert (Hlk : rs !! i = Some (e, addr, m)) by (by rewrite <- (Nat.add_0_r i), <- lookup_drop, Ed).
    pose proof (lookup_lt_Some _ _ _ Hlk) as Hlt.
    pose proof (Hrs 0%nat e addr m) as Hop. rewrite Nat.add_0_r in Hop. specialize (Hop Hlk).
    assert (Hns : self_node_id (cfg m) <> Frame.to_node_id h).
    { intros E. pose proof (op_self _ _ _ _ _ _ _ Hop) as Hs. rewrite E, <- Eto in Hs.
      pose proof (NoDup_lookup _ _ _ _ Hnd Hs Hlast). lia. }
    rewrite Eto in Hop. cbn [carry]. rewrite (relay_on_path e m addr f t i Hop Hd Hns) by lia.
    apply Frame.decrement_ttl_decode in Hd as [Hd _]. cbn [Frame.ttl Frame.set_ttl] in Hd.
    rewrite wrap_small in Hd by uint.
    assert (Er : rest = drop (S i) rs) by (by rewrite <- Nat.add_1_r, <- drop_drop, Ed). rewrite Er.
    destruct (IH (Frame.decrement_ttl f) (t - 1) (S i)) as [Hc Hd'].
    + intros j e' addr' m' Hj. rewrite Nat.add_succ_comm in Hj |- *. by eapply Hrs.
    + rewrite <- Er. cbn in Hn. lia.
    + lia.
    + exact Hd.
    + lia.
    + rewrite Hc. rewrite <- Nat.iter_succ_r in Hc, Hd' |- *. split; [done|].
      by replace (t - Z.of_nat (S n)) with (t - 1 - Z.of_nat n) by lia.
Qed.
End OnPath.
Lemma arrived_keys e m from addr len :
  key_path_table (pths (apply_ingress_health (arrived e m from addr len) from)) = key_path_table (pths m).
Proof.
  assert (Hi : forall m, key_path_table (pths (apply_ingress_health m from)) = key_path_table (pths m)).
  { intros m0. unfold apply_ingress_health. destruct (_ !! from); [|done]. destruct (_ !! from) as [ps|]; [|done].
    revert m0. induction ps as [|p ps IH]; intros m0; cbn [foldl]; [done|]. rewrite IH. by destruct (decide _). }
  assert (Hd : forall l m, key_path_table (pths (foldl (fun m a => miss_at m from a) m l)) = key_path_table (pths m)).
  { induction l as [|a l IH]; intros m0; cbn [foldl]; [done|]. by rewrite IH. }
  rewrite Hi. unfold arrived. cbv zeta. destruct (endpoint_owner_preferring _ _ _ _) as [i|]; [|done].
  destruct (decide _); unfold demote_direct_endpoints; rewrite ?Hd; unfold note_endpoint_ok; by destruct (_ !! _).
Qed.

(** The end of the path hands the payload up. *)
Lemma receive_data e m addr f key (h h' : Frame.MeshFrameHeader) t r w payload :
  Frame.version h = Frame.VERSION -> Frame.packet_type_ h = Frame.packet_type.UNICAST ->
  Frame.path_id h <> Frame.PATH_ID_DEFAULT -> Frame.to_node_id h <> Frame.BROADCAST_NODE_ID ->
  route_mac key (Frame.auth_input h) = Frame.route_mac_ h ->
  Frame.to_node_id h = self_node_id (cfg m) -> key_path_table (pths m) !! Frame.path_id h = Some key ->
  sessions (hs m) !! Frame.from_node_id h = Some r ->
  Frame.decode f = Ok (Frame.set_ttl t h) ->
  Frame.open_frame f key (Handshake.rx_key (Handshake.keys r)) (Handshake.salt (Handshake.keys r)) = Ok (h', payload) ->
  Replay.check_and_mark (Handshake.rx_window r) (Frame.seq h') = Ok (true, w) ->
  fst (handle_incoming e m addr f) = Data (Frame.from_node_id h) payload.
Proof.
  intros Hv Hty Hid Hto Hmac Hself Hk Hs Hd Ho Hc. unfold handle_incoming. rewrite (decode_head _ _ Hd).
  cbn [Frame.set_ttl Frame.version]. rewrite Hv. rewrite bool_decide_true by (unfold Frame.VERSION; lia).
  unfold handle_frame, relay. pose proof (decode_long f _ Hd) as Hlen. rewrite decide_False by lia. rewrite Hd. cbv zeta.
  rewrite auth_set_ttl.
  cbn [Frame.set_ttl Frame.version Frame.to_node_id Frame.from_node_id Frame.path_id Frame.route_mac_ Frame.ttl].
  rewrite decide_False by auto. rewrite decide_False by done. rewrite bool_decide_true by done. rewrite Hk.
  rewrite decide_False by auto. rewrite decide_True by done. unfold deliver. cbv zeta.
  set (from := Frame.from_node_id h) in *. set (len := Z.of_nat (length f)).
  fold (arrived e m from addr len). set (m1 := apply_ingress_health (arrived e m from addr len) from).
  assert (V1 : view m1 = view m) by (unfold m1; by rewrite ingress_view, arrived_view). injection V1 as Vh Vc _ _.
  assert (Hk1 : key_path_table (pths m1) !! Frame.path_id h = Some key) by (unfold m1; by rewrite arrived_keys).
  clearbody m1. unfold dispatch_delivered. rewrite Hd. cbv zeta. cbn [Frame.set_ttl Frame.packet_type_]. rewrite Hty.
  rewrite decide_False by done. rewrite decide_True by done. unfold handle_session_frame. rewrite Hd. cbv zeta.
  cbn [Frame.set_ttl Frame.path_id Frame.seq]. rewrite (decide_True _ _ Hid), Hk1, Vh, Hs. unfold Handshake.open_in_place.
  pose proof (Frame.open_frame_in_place_equiv f key (Handshake.rx_key (Handshake.keys r))
    (Handshake.salt (Handshake.keys r))) as Heq.
  destruct (Frame.open_frame_in_place _ _ _ _) as [[[h2 p2] f2]|x|]; [|by rewrite Ho in Heq|done].
  destruct Heq as [Ho' ->]. rewrite Ho in Ho'. injection Ho' as <- <-. rewrite Hc. cbn [andb fst].
  f_equal. rewrite drop_app_length' by (rewrite length_take; lia). by rewrite take_app_length.
Qed.

Import Handshake.

(** Delivery along a path.  A sender and a receiver with matching sessions, and a
    path chosen by the sender whose nodes all hold its key and hops, with at most
    64 relays on it: the frame the sender builds is passed on by every relay,
    each sending exactly one packet, and the receiver hands up exactly the
    payload, as coming from the sender. *)
Theorem path_delivery (es er : Env) (ms mr ms1 : MeshData) (addr : SocketAddr)
  (rs : list (Env * SocketAddr * MeshData)) (to flow : Z) (p : PathEntry) (key payload : list Z)
  (s r : Session)
  (Hpick : pick_path es ms to flow = (Some p, ms1)) (Hid : path_id p <> Frame.PATH_ID_DEFAULT /\ u64 (path_id p))
  (Hk : key_path_table (pths ms) !! path_id p = Some key)
  (Hrelays : forall i e a m, rs !! i = Some (e, a, m) -> on_path e m to (path_id p) key (hops p) i)
  (Hlast : hops p !! length rs = Some to) (Hnd : NoDup (hops p)) (Hn : (length rs <= 64)%nat)
  (Hself : Mesh.self_node_id (cfg mr) = to) (Hto : to <> Frame.BROADCAST_NODE_ID /\ u32 to)
  (Hfrom : u32 (Mesh.self_node_id (cfg ms)))
  (Hkr : key_path_table (pths mr) !! path_id p = Some key)
  (Hs : sessions (hs ms) !! to = Some s) (Hr : sessions (hs mr) !! Mesh.self_node_id (cfg ms) = Some r)
  (Hws : session_wf s) (Hwr : session_wf r) (Hpair : paired (keys s) (keys r))
  (Hfresh : Replay.below (rx_window r) (tx_counter s))
  (Hp : bytes payload) (Hl : Z.of_nat (length payload + Frame.TAG_LEN) < 2 ^ 16) :
  exists frame ms2 frame', build_data_frame es ms to payload flow = (Ok (frame, head (hops p)), ms2) /\
    carry frame rs = Some frame' /\
    fst (handle_incoming er mr addr frame') = Data (Mesh.self_node_id (cfg ms)) payload.
Proof.
  assert (Hkeep : cfg ms1 = cfg ms /\ hs ms1 = hs ms /\ key_path_table (pths ms1) = key_path_table (pths ms)).
  { unfold pick_path in Hpick. repeat case_match; simplify_eq; done. }
  destruct Hkeep as (Kc & Kh & Kk). destruct Hid as [Hid Hidu], Hto as [Hto Htou]. destruct Hpair as (Hsalt & Htx & _).
  set (from := Mesh.self_node_id (cfg ms)) in *.
  set (h0 := frame_header from to Frame.packet_type.UNICAST (path_id p) (tx_counter s)).
  assert (Hok : Frame.header_ok h0).
  { destruct Hws. split; cbn; try done; try (unfold is_uint; lia). by apply (Forall_replicate _ 16). }
  destruct (Frame.build_open_hops h0 key (tx_key (keys s)) (salt (keys s)) payload (length rs) Hok eq_refl Hp Hl)
    as (frame & Hb & Ho).
  destruct (Frame.build_frame_spec h0 key (tx_key (keys s)) (salt (keys s)) payload Hok) as (ct & tag & _ & _ & _ & Hb').
  { unfold aead_max. lia. }
  rewrite Hb in Hb'. apply Ok_inj in Hb'. set (n := Z.of_nat (length payload + Frame.TAG_LEN)) in *.
  set (h := Frame.sign key n h0) in *.
  assert (Hd : Frame.decode frame = Ok (Frame.set_ttl 64 h)).
  { rewrite Hb'. unfold Frame.decode, Frame.parse.
    rewrite Frame.ref_from_prefix_as_bytes by by apply Frame.to_wire_ok, Frame.sign_ok. step.
    by rewrite Frame.of_to_wire by by apply Frame.sign_ok. }
  assert (Hmac : route_mac key (Frame.auth_input h) = Frame.route_mac_ h) by (unfold h at 1; by rewrite Frame.auth_input_sign).
  destruct (carry_on_path h key (hops p) eq_refl eq_refl Hid Hto Hmac Hnd to rs eq_refl Hlast frame 64 0 (length rs))
    as [Hc Hd']; [intros j e a m Hj; exact (Hrelays j e a m Hj)|by rewrite drop_0|lia|exact Hd|lia|].
  rewrite drop_0 in Hc.
  exists frame, (set_sessions ms1 (<[to := snd (next_seq s)]> (sessions (hs ms1)))),
    (Nat.iter (length rs) Frame.decrement_ttl frame).
  split_and!; [|exact Hc|].
  - unfold build_data_frame. rewrite Hpick. unfold build_typed_frame. rewrite Kh, Hs, decide_True by done.
    rewrite Kk, Hk. cbn [next_seq keys]. rewrite Kc. fold from. fold h0. rewrite Hb. reflexivity.
  - rewrite Hsalt, Htx in Ho. set (t := wrap 8 _) in Ho.
    destruct (Replay.check_and_mark_above (rx_window r) (tx_counter s)) as (w & Hw & _); [apply Hwr|apply Hws|done|].
    eapply (receive_data er mr addr _ key h (Frame.set_ttl t h) _ r w payload); try done; try exact Hd'; by rewrite Hself.
Qed.
End Delivery.

End WithNoise.
(** ** Concrete nodes *)

Section Samples.
Import Toy Handshake.ToyNoise.

Lemma sample_ctx_ok i : ctx_ok (sample_ctx i).
Proof. split; [reflexivity|reflexivity|vm_compute; split; congruence..]. Qed.

Lemma sample_mutual : mutual 1 2 (sample_ctx 1) (sample_ctx 2) (replicate 32 11) (replicate 32 12)
  (sample_node 1) (sample_node 2).
Proof.
  split; [| |reflexivity|reflexivity|eexists; split; [reflexivity|reflexivity]].
  all: split; try reflexivity; try apply sample_ctx_ok; try discriminate.
  all: split; vm_compute; split; congruence.
Qed.

Lemma sample_lossless : lossless sample_env.
Proof. by intros a f. Qed.

Lemma collision_converges_witness :
  exists fA fB a1 b1, initiate_handshake sample_env (sample_node 1) 2 = (Ok (Some fA), a1) /\
    initiate_handshake sample_env (sample_node 2) 1 = (Ok (Some fB), b1) /\
    forall n w, nsteps delivery n (mk_world a1 b1 [(true, fA); (false, fB)]) w ->
      (n <= 5)%nat /\
      (flight w = [] -> exists s s', sessions (hs (node_a w)) !! 2 = Some s /\
         sessions (hs (node_b w)) !! 1 = Some s' /\ Handshake.paired (Handshake.keys s) (Handshake.keys s')).
Proof.
  apply (collision_converges 1 2 (sample_ctx 1) (sample_ctx 2) (replicate 32 11) (replicate 32 12)
    sample_env sample_env (sample_node 1) (sample_node 2) sample_mutual).
  - split; [|split]; reflexivity.
  - split; [|split]; reflexivity.
  - vm_compute. split; congruence.
Defined.

Lemma crossing_leaves_responder_witness :
  exists fA fB a1 b1 w, initiate_handshake sample_env (sample_node 1) 2 = (Ok (Some fA), a1) /\
    initiate_handshake sample_env (sample_node 2) 1 = (Ok (Some fB), b1) /\
    rtc delivery (mk_world a1 b1 [(true, fA); (false, fB)]) w /\ flight w = [] /\
    is_Some (sessions (hs (node_a w)) !! 2) /\ is_Some (sessions (hs (node_b w)) !! 1) /\
    forall e', fst (initiate_handshake e' (drop_initiator (drop_session (node_a w) 2) 2) 2) = Ok None.
Proof.
  apply (crossing_leaves_responder 1 2 (sample_ctx 1) (sample_ctx 2) (replicate 32 11) (replicate 32 12)
    sample_env sample_env sample_env (sample_addr 9) (sample_node 1) (sample_node 2) sample_mutual).
  - split; [|split]; reflexivity.
  - split; [|split]; reflexivity.
  - vm_compute. split; congruence.
  - exact sample_lossless.
Defined.

(** Nodes 1 and 3 with a session, and node 2 between them. *)
Definition sample_sender : MeshData :=
  set_sessions (sample_node 1) {[ 3 := Handshake.session_new 3 Handshake.sample_keys ]}.
Definition sample_receiver : MeshData :=
  set_sessions (sample_node 3) {[ 1 := Handshake.session_new 1 Handshake.sample_peer_keys ]}.

Lemma path_delivery_witness :
  exists frame ms2 frame', build_data_frame sample_env sample_sender 3 [1; 2; 3] 0 = (Ok (frame, Some 2), ms2) /\
    carry frame [(sample_env, sample_addr 1, sample_node 2)] = Some frame' /\
    fst (handle_incoming sample_env sample_receiver (sample_addr 2) frame') = Data 1 [1; 2; 3].
Proof.
  apply (path_delivery sample_env sample_env sample_sender sample_receiver
    (snd (pick_path sample_env sample_sender 3 0)) (sample_addr 2) [(sample_env, sample_addr 1, sample_node 2)]
    3 0 (mk_path 50 1 [2; 3] 0) (replicate 32 50) [1; 2; 3]
    (Handshake.session_new 3 Handshake.sample_keys) (Handshake.session_new 1 Handshake.sample_peer_keys)).
  - reflexivity.
  - split; [discriminate|vm_compute; split; congruence].
  - reflexivity.
  - intros [|i] e a m; [|done]. intros [= <- <- <-]. split; [exact sample_lossless|reflexivity|reflexivity| |].
    + eexists. split; reflexivity.
    + exists 3, [sample_addr 3]. split; [reflexivity|]. split; [reflexivity|]. vm_compute. discriminate.
  - reflexivity.
  - apply (bool_decide_unpack _). vm_compute. exact I.
  - cbn. lia.
  - reflexivity.
  - split; [discriminate|vm_compute; split; congruence].
  - vm_compute. split; congruence.
  - reflexivity.
  - reflexivity.
  - reflexivity.
  - apply Handshake.session_new_wf.
  - apply Handshake.session_new_wf.
  - split; [|split]; reflexivity.
  - apply Replay.new_below.
  - fall; vm_compute; split; congruence.
  - reflexivity.
Defined.

End Samples.

End MeshRun.
