(* ===== verification/Route.v ===== *)
(** * Routing (rill-core/src/route/{mod,default}.rs)

    Prefixes in canonical form, the longest-prefix table and engine, and the
    default-route resolver.  A prefix denotes a set of addresses; containment of
    prefixes is proved to be inclusion of those sets. *)

From S2P Require Import Prelude Net.
From Stdlib Require Import Ascii.
From Stdlib Require Sorted.

Module Route.
Import Net.

(** ** Prefixes *)

Record Prefix := mk_prefix {
  bits : list Z;    (* [u8; 16] *)
  plen : Z;         (* u8 *)
  v4 : bool
}.

Inductive PrefixError := BadCidr.

#[export] Instance Prefix_eq_dec : EqDecision Prefix.
Proof. solve_decision. Defined.

Definition max_len (v4 : bool) : Z := if v4 then 32 else 128.

Definition new (bits : list Z) (len : Z) (v4 : bool) : option Prefix :=
  if decide (len > max_len v4) then None
  else if decide (len = 0) then Some (mk_prefix (replicate 16 0) len v4)
  else
    let shift := 128 - len in
    let significant := Z.shiftr (be_val bits) shift in
    Some (mk_prefix (be_bytes 16 (wrap 128 (Z.shiftl significant shift))) len v4).

Definition from_ip (addr : IpAddr) : outcome Empty_set Prefix :=
  match addr with
  | V4 o => unwrap (new (o ++ replicate 12 0) 32 true)
  | V6 o => unwrap (new o 128 false)
  end.

Definition parse (cidr : string) : outcome PrefixError Prefix :=
  '(addr, len) ← ok_or BadCidr (split_once "/"%char cidr);
  len ← ok_or BadCidr (parse_uint 255 len);
  ip ← ok_or BadCidr (parse_ip addr);
  let bits := match ip with V4 o => o ++ replicate 12 0 | V6 o => o end in
  ok_or BadCidr (new bits len (is_ipv4 ip)).

Definition significant (p : Prefix) : Z :=
  if decide (plen p = 0) then 0 else Z.shiftr (be_val (bits p)) (128 - plen p).

Definition contains (self other : Prefix) : bool :=
  if decide (v4 self <> v4 other \/ plen other < plen self) then false
  else bool_decide (Z.shiftr (significant other) (plen other - plen self) = significant self).

Definition matches (p : Prefix) (addr : IpAddr) : bool :=
  match from_ip addr with Ok q => contains p q | _ => false end.

Definition to_cidr (p : Prefix) : string :=
  (if v4 p then show_ipv4 (take 4 (bits p)) else show_ipv6 (bits p)) +:+ "/" +:+ dec (plen p).

Definition is_covered_by (self other : Prefix) : bool := contains other self.

(** *** The set of addresses of a prefix *)

Definition value (p : Prefix) : Z := be_val (bits p).

Definition addr_val (a : IpAddr) : Z :=
  match a with V4 o => be_val (o ++ replicate 12 0) | V6 o => be_val o end.

(** The canonical form [Prefix::new] promises. *)
Record prefix_ok (p : Prefix) : Prop := {
  pk_length : length (bits p) = 16%nat;
  pk_bytes : bytes (bits p);
  pk_len : 0 <= plen p <= max_len (v4 p);
  pk_canonical : value p mod 2 ^ (128 - plen p) = 0
}.

Definition mk_addr (v4 : bool) (v : Z) : IpAddr :=
  if v4 then V4 (take 4 (be_bytes 16 v)) else V6 (be_bytes 16 v).

Lemma max_len_bound b : 32 <= max_len b <= 128.
Proof. destruct b; cbn; lia. Qed.

Lemma value_bound p : prefix_ok p -> u128 (value p).
Proof. intros []. by apply (be_val_bound 16). Qed.

Lemma addr_val_bound a : ip_ok a -> u128 (addr_val a).
Proof.
  destruct a; intros [Hl Hb]; apply (be_val_bound 16); try done; [|by len].
  apply bytes_app. auto with rill.
Qed.

Lemma addr_val_v4 o : length o = 4%nat -> addr_val (V4 o) = 2 ^ 96 * be_val o.
Proof. intros. cbn [addr_val]. rewrite be_val_app. cbn -[Z.pow Z.mul be_val]. by rewrite Z.add_0_l. Qed.

Lemma mk_addr_ok b v : ip_ok (mk_addr b v).
Proof. destruct b; split; len; auto with rill. Qed.

Lemma mk_addr_ipv4 b v : is_ipv4 (mk_addr b v) = b.
Proof. by destruct b. Qed.

Lemma mk_addr_val b v : u128 v -> (b = true -> v mod 2 ^ 96 = 0) -> addr_val (mk_addr b v) = v.
Proof.
  intros Hv Hb. destruct b; cbn [mk_addr].
  - rewrite addr_val_v4 by len. specialize (Hb eq_refl).
    pose proof (be_val_be_bytes 16 v Hv) as E. rewrite <- (take_drop 4 (be_bytes 16 v)), be_val_app in E.
    assert (Hd : is_uint (8 * Z.of_nat 12) (be_val (drop 4 (be_bytes 16 v))))
      by (apply be_val_bound; [auto with rill | len]).
    rewrite <- E in Hb. revert E Hb. len. change (8 * Z.of_nat 12) with 96 in *.
    change (8 * Z.of_nat (16 - 4)) with 96. intros E Hb.
    rewrite Z.mul_comm, Z.mod_add, Z.mod_small in Hb by (try apply Hd; lia). lia.
  - by apply be_val_be_bytes.
Qed.

Lemma shift_down_up v k : 0 <= k -> Z.shiftl (Z.shiftr v k) k = v - v mod 2 ^ k.
Proof.
  intros. rewrite Z.shiftl_mul_pow2, Z.shiftr_div_pow2 by done.
  pose proof (Z.div_mod v (2 ^ k)). lia.
Qed.

(** [new] keeps the first [len] bits and clears the others. *)
Lemma new_spec b len f p : length b = 16%nat -> bytes b -> 0 <= len ->
  new b len f = Some p <->
  len <= max_len f /\ p = mk_prefix (be_bytes 16 (be_val b - be_val b mod 2 ^ (128 - len))) len f.
Proof.
  intros Hl Hb Hlen. pose proof (be_val_bound 16 b Hb Hl) as Hv. change (8 * Z.of_nat 16) with 128 in Hv.
  pose proof (max_len_bound f). unfold new. case_decide; [naive_solver lia|]. case_decide.
  - subst len. rewrite Z.sub_0_r, Z.mod_small, Z.sub_diag by apply Hv.
    split; [intros [= <-]|intros [_ ->]]; done.
  - rewrite shift_down_up by lia. rewrite wrap_small; [naive_solver lia|].
    pose proof (Z.mod_le (be_val b) (2 ^ (128 - len))).
    pose proof (Z.mod_pos_bound (be_val b) (2 ^ (128 - len))). uint.
Qed.

Lemma new_ok b len f p : length b = 16%nat -> bytes b -> 0 <= len ->
  new b len f = Some p ->
  prefix_ok p /\ value p = be_val b - be_val b mod 2 ^ (128 - len) /\ plen p = len /\ v4 p = f.
Proof.
  intros Hl Hb Hlen [Hm ->]%new_spec; [|done..].
  pose proof (be_val_bound 16 b Hb Hl) as Hv. change (8 * Z.of_nat 16) with 128 in Hv.
  pose proof (max_len_bound f). assert (0 < 2 ^ (128 - len)) by (apply Z.pow_pos_nonneg; lia).
  pose proof (Z.mod_pos_bound (be_val b) (2 ^ (128 - len))).
  pose proof (Z.mod_le (be_val b) (2 ^ (128 - len))).
  assert (Hval : be_val (be_bytes 16 (be_val b - be_val b mod 2 ^ (128 - len)))
                 = be_val b - be_val b mod 2 ^ (128 - len)) by (apply be_val_be_bytes; uint).
  split_and!; try done. split; cbn; [len|auto with rill|lia|].
  unfold value; cbn [bits]. rewrite Hval, Zminus_mod_idemp_r, Z.sub_diag. apply Z.mod_0_l. lia.
Qed.

(** The bytes after the significant ones are zero. *)
Lemma canonical_tail p n : prefix_ok p -> (n <= 16)%nat -> plen p <= 8 * Z.of_nat n ->
  take n (bits p) ++ replicate (16 - n) 0 = bits p.
Proof.
  intros [Hl Hb Hlen Hc] Hn Hp. rewrite <- (take_drop n (bits p)) at 2. f_equal.
  set (d := drop n (bits p)). assert (Hdl : length d = (16 - n)%nat) by (unfold d; len).
  assert (Hdb : bytes d) by (unfold d; auto with rill).
  enough (be_val d = 0) as H0.
  { rewrite <- (be_bytes_be_val (16 - n) d), H0 by done.
    rewrite <- (be_bytes_be_val (16 - n) (replicate (16 - n) 0)) by (auto with rill; len).
    by rewrite be_val_zeros. }
  pose proof (be_val_bound _ d Hdb Hdl) as Hd. unfold value in Hc.
  rewrite <- (take_drop n (bits p)), be_val_app in Hc. fold d in Hc. rewrite Hdl in Hc.
  replace (128 - plen p) with (8 * Z.of_nat (16 - n) + (8 * Z.of_nat n - plen p)) in Hc by lia.
  rewrite Z.pow_add_r in Hc by lia. apply Z.mod_divide in Hc as [m Hm]; [|lia].
  set (t := 2 ^ (8 * Z.of_nat (16 - n))) in *. set (u := 2 ^ (8 * Z.of_nat n - plen p)) in *.
  unfold is_uint in Hd. fold t in Hd.
  rewrite <- (Z.mod_small (be_val d) t) by done. apply Z.mod_divide; [lia|].
  exists (m * u - be_val (take n (bits p))).
  replace (be_val d) with (m * (t * u) - t * be_val (take n (bits p))) by lia. ring.
Qed.

(** A canonical prefix is a fixed point of the constructor. *)
Lemma new_self p : prefix_ok p -> new (bits p) (plen p) (v4 p) = Some p.
Proof.
  intros [Hl Hb Hlen Hc]. apply new_spec; [done|done|lia|]. split; [lia|]. fold (value p).
  rewrite Hc, Z.sub_0_r. unfold value. rewrite be_bytes_be_val by done. by destruct p.
Qed.

Lemma significant_div p : prefix_ok p -> significant p = value p / 2 ^ (128 - plen p).
Proof.
  intros Hp. pose proof (value_bound p Hp). pose proof (pk_len p Hp). pose proof (max_len_bound (v4 p)).
  unfold significant. case_decide as E.
  - rewrite E, Z.sub_0_r, Z.div_small; [done|uint].
  - rewrite Z.shiftr_div_pow2 by lia. done.
Qed.

Lemma contains_spec p q : prefix_ok p -> prefix_ok q ->
  contains p q = true <->
  v4 p = v4 q /\ plen p <= plen q /\
  value q / 2 ^ (128 - plen p) = value p / 2 ^ (128 - plen p).
Proof.
  intros Hp Hq. pose proof (pk_len p Hp). pose proof (pk_len q Hq). pose proof (max_len_bound (v4 q)).
  unfold contains. case_decide as Hc; [naive_solver lia|].
  rewrite bool_decide_eq_true, !significant_div, Z.shiftr_div_pow2, Z.div_div by (done || lia).
  rewrite <- Z.pow_add_r by lia. replace (128 - plen q + (plen q - plen p)) with (128 - plen p) by lia.
  split; [|naive_solver]. intros E. split_and!; [|lia|done].
  destruct (decide (v4 p = v4 q)); tauto.
Qed.

Lemma from_ip_spec a : ip_ok a ->
  exists q, from_ip a = Ok q /\ prefix_ok q /\ value q = addr_val a /\
    plen q = max_len (is_ipv4 a) /\ v4 q = is_ipv4 a.
Proof.
  intros Ha. pose proof (addr_val_bound a Ha) as Hb.
  set (b := match a with V4 o => o ++ replicate 12 0 | V6 o => o end).
  assert (length b = 16%nat /\ bytes b) as [Hl Hby].
  { unfold b. destruct a as [o|o]; destruct Ha as [Hl Ho]; split; try done; [by len|].
    apply bytes_app. auto with rill. }
  assert (Hav : addr_val a = be_val b) by by destruct a.
  pose proof (max_len_bound (is_ipv4 a)).
  assert (Hfi : from_ip a = unwrap (new b (max_len (is_ipv4 a)) (is_ipv4 a))) by by destruct a.
  destruct (new b (max_len (is_ipv4 a)) (is_ipv4 a)) as [q|] eqn:E.
  - exists q. apply new_ok in E as (Hq & Hv & Hp & Hf); [|done|done|lia].
    split; [done|].
    split; [done|]. split; [|done]. rewrite Hv, Hav.
    enough (be_val b mod 2 ^ (128 - max_len (is_ipv4 a)) = 0) by lia.
    destruct a as [o|o]; cbn [max_len is_ipv4].
    + destruct Ha. rewrite <- Hav, addr_val_v4, Z.mul_comm by done. apply Z.mod_mul. lia.
    + change (2 ^ (128 - 128)) with 1. apply Z.mod_1_r.
  - exfalso. unfold new in E. destruct a; cbn in E; repeat case_decide; try done; lia.
Qed.

(** ** Table and engine *)

Inductive RouteSource := Lan | Mesh | DynDn42 | Dn42 | Tailnet.

#[export] Instance RouteSource_eq_dec : EqDecision RouteSource.
Proof. solve_decision. Defined.

Definition priority (s : RouteSource) : Z :=
  match s with Lan => 0 | Mesh => 1 | Dn42 => 2 | DynDn42 => 3 | Tailnet => 4 end.

Inductive RouteVia :=
| ViaMesh (node_id : Z)
| ViaDn42 (peer : string)
| ViaTailnet (peer : string)
| ViaDirect (dev : string).

#[export] Instance RouteVia_eq_dec : EqDecision RouteVia.
Proof. solve_decision. Defined.

Record RouteEntry := mk_entry {
  prefix : Prefix;
  source : RouteSource;
  via : RouteVia;
  metric : option Z
}.

#[export] Instance RouteEntry_eq_dec : EqDecision RouteEntry.
Proof. solve_decision. Defined.

Record LpmTable := mk_table { entries : list RouteEntry }.

Definition table_new : LpmTable := mk_table [].

Definition table_insert (t : LpmTable) (e : RouteEntry) : LpmTable := mk_table (entries t ++ [e]).

Definition table_remove (t : LpmTable) (p : Prefix) (s : RouteSource) (v : RouteVia) : bool * LpmTable :=
  let before := length (entries t) in
  let es := List.filter (fun e => negb (bool_decide (prefix e = p) && bool_decide (source e = s)
                                        && bool_decide (via e = v))) (entries t) in
  (negb (bool_decide (length es = before)), mk_table es).

Definition remove_where (t : LpmTable) (pred : RouteEntry -> bool) : LpmTable :=
  mk_table (List.filter (fun e => negb (pred e)) (entries t)).

Definition len_le (a b : RouteEntry) : bool := bool_decide (plen (prefix a) <= plen (prefix b)).

Definition table_matches (t : LpmTable) (addr : IpAddr) : list RouteEntry :=
  sort len_le (List.filter (fun e => matches (prefix e) addr) (entries t)).

Record RouteEngine := mk_engine { table : LpmTable }.

Definition engine_new : RouteEngine := mk_engine table_new.

Definition insert (g : RouteEngine) (e : RouteEntry) : RouteEngine := mk_engine (table_insert (table g) e).

(** Order of the key [(Reverse(prefix.len), priority)]. *)
Definition key_le (a b : RouteEntry * Z) : bool :=
  let la := plen (prefix a.1) in
  let lb := plen (prefix b.1) in
  if decide (lb < la) then true
  else if decide (la < lb) then false
  else bool_decide (a.2 <= b.2).

Definition lookup (g : RouteEngine) (addr : IpAddr) : list (RouteEntry * Z) :=
  sort key_le ((fun e => (e, priority (source e))) <$> table_matches (table g) addr).

Definition lookup_best (g : RouteEngine) (addr : IpAddr) (reachable : RouteEntry -> bool)
    : option RouteEntry :=
  List.find reachable (fst <$> lookup g addr).

Definition has (s : RouteSource) (v : RouteVia) (e : RouteEntry) : bool :=
  bool_decide (source e = s) && bool_decide (via e = v).

Definition engine_remove_where (g : RouteEngine) (pred : RouteEntry -> bool) : RouteEngine :=
  mk_engine (remove_where (table g) pred).

Definition remove_mesh_node (g : RouteEngine) (node_id : Z) : RouteEngine :=
  engine_remove_where g (has Mesh (ViaMesh node_id)).

Definition remove_dn42_route (g : RouteEngine) (p : Prefix) (peer : string) : bool * RouteEngine :=
  let '(b, t) := table_remove (table g) p Dn42 (ViaDn42 peer) in (b, mk_engine t).

Definition remove_dn42_peer (g : RouteEngine) (peer : string) : RouteEngine :=
  engine_remove_where g (has Dn42 (ViaDn42 peer)).

Definition remove_tailnet_peer (g : RouteEngine) (peer : string) : RouteEngine :=
  engine_remove_where g (has Tailnet (ViaTailnet peer)).

Definition reset_mesh_routes (g : RouteEngine) : RouteEngine :=
  engine_remove_where g (fun e => bool_decide (source e = Mesh)).

Definition reset_dyn_dn42_routes (g : RouteEngine) : RouteEngine :=
  engine_remove_where g (fun e => bool_decide (source e = DynDn42)).

Definition remove_dyn_dn42_node (g : RouteEngine) (node_id : Z) : RouteEngine :=
  engine_remove_where g (has DynDn42 (ViaMesh node_id)).

Definition dn42_via (g : RouteEngine) (p : Prefix) : option string :=
  e ← List.find (fun e => bool_decide (prefix e = p) && bool_decide (source e = Dn42)) (entries (table g));
  match via e with ViaDn42 peer => Some peer | _ => None end.

(** ** Default route *)

Inductive ExitSource := ExitTailnet | ExitMesh.

#[export] Instance ExitSource_eq_dec : EqDecision ExitSource.
Proof. solve_decision. Defined.

Definition exit_parse (s : string) : option ExitSource :=
  if decide (s = "tailnet") then Some ExitTailnet
  else if decide (s = "mesh") then Some ExitMesh
  else None.

Record DefaultRouteResolver := mk_resolver {
  preference : list ExitSource;
  mesh_exits : list Z;
  tailnet_exits : list string;
  self_exit : bool
}.

Definition resolver_new (preference : list ExitSource) : DefaultRouteResolver :=
  mk_resolver preference [] [] false.

Definition set_mesh_exits (r : DefaultRouteResolver) (exits : list Z) (self_exit : bool) :=
  mk_resolver (preference r) exits (tailnet_exits r) self_exit.

Definition set_tailnet_exits (r : DefaultRouteResolver) (peers : list string) :=
  mk_resolver (preference r) (mesh_exits r) peers (self_exit r).

Definition candidates (r : DefaultRouteResolver) (s : ExitSource) : list RouteVia :=
  match s with
  | ExitTailnet => ViaTailnet <$> tailnet_exits r
  | ExitMesh => ViaMesh <$> mesh_exits r
  end.

Fixpoint resolve_from (r : DefaultRouteResolver) (reachable : RouteVia -> bool) (l : list ExitSource)
    : option RouteVia :=
  match l with
  | [] => None
  | s :: l =>
      if bool_decide (s = ExitMesh) && self_exit r then resolve_from r reachable l
      else match List.find reachable (candidates r s) with
           | Some v => Some v
           | None => resolve_from r reachable l
           end
  end.

Definition resolve (r : DefaultRouteResolver) (reachable : RouteVia -> bool) : option RouteVia :=
  resolve_from r reachable (preference r).

(** ** Properties of prefixes *)

Lemma matches_spec p a : prefix_ok p -> ip_ok a ->
  matches p a = true <->
  is_ipv4 a = v4 p /\ addr_val a / 2 ^ (128 - plen p) = value p / 2 ^ (128 - plen p).
Proof.
  intros Hp Ha. unfold matches. destruct (from_ip_spec a Ha) as (q & -> & Hq & Hv & Hl & Hf).
  rewrite contains_spec by done. rewrite Hv, Hf, Hl. pose proof (pk_len p Hp).
  split; [naive_solver|]. intros [E ?]. rewrite E. naive_solver lia.
Qed.

(** Moving a quotient to a coarser power. *)
Lemma div_pow_coarser x y a b : 0 <= b <= a ->
  x / 2 ^ b = y / 2 ^ b -> x / 2 ^ a = y / 2 ^ a.
Proof.
  intros H E. replace a with (b + (a - b)) by lia.
  rewrite Z.pow_add_r by lia. rewrite <- !Z.div_div by lia. by rewrite E.
Qed.

Lemma lowest_matches p : prefix_ok p -> matches p (mk_addr (v4 p) (value p)) = true.
Proof.
  intros Hp. rewrite matches_spec by (done || apply mk_addr_ok).
  rewrite mk_addr_ipv4, mk_addr_val; [done|by apply value_bound|].
  intros E. pose proof (pk_len p Hp) as Hl. rewrite E in Hl. cbn in Hl.
  pose proof (pk_canonical p Hp) as Hc. apply Z.mod_divide in Hc; [|lia].
  apply Z.mod_divide; [lia|]. eapply Z.divide_trans; [|done].
  exists (2 ^ (32 - plen p)). rewrite <- Z.pow_add_r by lia. f_equal. lia.
Qed.

(** If [q] is longer than [p], [p] has an address outside [q]. *)
Lemma longer_excludes p q : prefix_ok p -> prefix_ok q -> v4 p = v4 q -> plen p < plen q ->
  exists a, ip_ok a /\ matches p a = true /\ matches q a = false.
Proof.
  intros Hp Hq Hf Hl. pose proof (pk_len q Hq) as Hlq. pose proof (pk_len p Hp).
  pose proof (max_len_bound (v4 q)). set (d := 2 ^ (128 - plen q)).
  assert (Hd : 0 < d) by (apply Z.pow_pos_nonneg; lia).
  destruct (matches q (mk_addr (v4 p) (value p))) eqn:Eq.
  2:{ exists (mk_addr (v4 p) (value p)). split; [apply mk_addr_ok|]. split; [by apply lowest_matches|done]. }
  pose proof (value_bound p Hp) as Hv. pose proof (pk_canonical p Hp) as Hc.
  apply Z.mod_divide in Hc as [m Hm]; [|lia].
  assert (Hpow : 2 ^ (128 - plen p) = 2 ^ (plen q - plen p - 1) * (2 * d)).
  { unfold d. rewrite <- Z.pow_succ_r, <- Z.pow_add_r by lia. f_equal. lia. }
  assert (Hk : 0 < 2 ^ (plen q - plen p - 1)) by (apply Z.pow_pos_nonneg; lia).
  assert (Hlt : value p + d < 2 ^ 128).
  { assert (2 ^ 128 = 2 ^ plen p * 2 ^ (128 - plen p)) as E
      by (rewrite <- Z.pow_add_r by lia; f_equal; lia).
    assert (d < 2 ^ (128 - plen p)) by (rewrite Hpow; nia).
    assert (m < 2 ^ plen p) by (unfold is_uint in Hv; nia). nia. }
  exists (mk_addr (v4 p) (value p + d)).
  assert (Hval : addr_val (mk_addr (v4 p) (value p + d)) = value p + d).
  { apply mk_addr_val; [uint|]. intros E. rewrite <- Hf, E in Hlq. cbn in Hlq.
    assert (Hd96 : exists c, d = c * 2 ^ 96).
    { exists (2 ^ (32 - plen q)). unfold d. rewrite <- Z.pow_add_r by lia. f_equal. lia. }
    destruct Hd96 as [c Hc]. apply Z.mod_divide; [lia|]. rewrite Hm, Hpow, Hc.
    exists (m * 2 ^ (plen q - plen p - 1) * 2 * c + c). lia. }
  assert (Hlow : addr_val (mk_addr (v4 p) (value p)) / d = value q / d).
  { apply matches_spec in Eq; [naive_solver|done|apply mk_addr_ok]. }
  assert (Hlv : addr_val (mk_addr (v4 p) (value p)) = value p).
  { apply mk_addr_val; [done|]. intros E. rewrite <- Hf, E in Hlq. cbn in Hlq.
    apply Z.mod_divide; [lia|]. rewrite Hm. exists (m * 2 ^ (32 - plen p)).
    rewrite <- Z.mul_assoc, <- Z.pow_add_r by lia. do 2 f_equal. lia. }
  split; [apply mk_addr_ok|]. split.
  - rewrite matches_spec by (done || apply mk_addr_ok). rewrite mk_addr_ipv4, Hval. split; [done|].
    rewrite Hm, Z.div_mul by lia. symmetry. apply (Z.div_unique _ _ _ d); [|lia]. left. rewrite Hpow. nia.
  - apply not_true_iff_false. rewrite matches_spec by (done || apply mk_addr_ok).
    rewrite Hval. fold d. intros [_ E]. rewrite <- Hlow, Hlv in E.
    rewrite <- (Z.mul_1_l d) in E at 1. rewrite Z.div_add in E by lia. lia.
Qed.

(** Containment is inclusion of the address sets. *)
Lemma covered_subset (p q : Prefix) (Hp : prefix_ok p) (Hq : prefix_ok q) :
  is_covered_by p q = true <->
  forall a, ip_ok a -> matches p a = true -> matches q a = true.
Proof.
  unfold is_covered_by. rewrite contains_spec by done.
  pose proof (pk_len p Hp). pose proof (max_len_bound (v4 p)). split.
  - intros (Hf & Hl & E) a Ha. rewrite !matches_spec by done. intros [-> Ea].
    split; [congruence|]. rewrite <- E. eapply div_pow_coarser; [|done]. lia.
  - intros Hsub. pose proof (Hsub _ (mk_addr_ok _ _) (lowest_matches p Hp)) as Hlo.
    rewrite matches_spec, mk_addr_ipv4 in Hlo by (done || apply mk_addr_ok). destruct Hlo as [Hf E].
    assert (Hl : plen q <= plen p).
    { destruct (decide (plen q <= plen p)); [done|].
      destruct (longer_excludes p q) as (a & Ha & Hin & Hout); try done; [lia|].
      rewrite Hsub in Hout; done. }
    split_and!; [done|done|]. pose proof (lowest_matches p Hp) as Hlm.
    apply matches_spec in Hlm as [_ Elow]; [|done|apply mk_addr_ok].
    rewrite <- E. symmetry. eapply div_pow_coarser; [|done]. lia.
Qed.

Lemma parse_ok s p : parse s = Ok p -> prefix_ok p.
Proof.
  unfold parse. intros H. destruct (split_once _ s) as [[a l]|]; [|done]. step in H.
  destruct (parse_uint 255 l) as [len|] eqn:El; [|done]. step in H. apply parse_uint_nonneg in El.
  destruct (parse_ip a) as [ip|] eqn:Ei; [|done]. step in H. apply parse_ip_ok in Ei.
  destruct (new _ len (is_ipv4 ip)) as [q|] eqn:En; step in H; simplify_eq.
  apply new_ok in En; [tauto| | |done].
  - destruct ip, Ei; [by len|done].
  - destruct ip, Ei; [apply bytes_app; split; auto with rill|done].
Qed.

(** A prefix covers another exactly when it contains all of its addresses,
    for both address families; prefixes of different families never cover each
    other. *)
Theorem covered_iff_subset (p q : Prefix) (Hp : prefix_ok p) (Hq : prefix_ok q) :
  is_covered_by p q = true <->
  forall a, ip_ok a -> matches p a = true -> matches q a = true.
Proof. by apply covered_subset. Qed.

Definition sample_prefix (l : Z) : Prefix := mk_prefix ([172; 20] ++ replicate 14 0) l true.

Lemma sample_prefix_ok l : l = 14 \/ l = 16 -> prefix_ok (sample_prefix l).
Proof. intros [->| ->]; (split; [done|fall; uint|cbn; lia|vm_compute; reflexivity]). Qed.

Lemma covered_iff_subset_witness :
  is_covered_by (sample_prefix 16) (sample_prefix 14) = true /\
  (is_covered_by (sample_prefix 16) (sample_prefix 14) = true <->
   forall a, ip_ok a -> matches (sample_prefix 16) a = true -> matches (sample_prefix 14) a = true).
Proof.
  split; [vm_compute; reflexivity|].
  apply (covered_iff_subset (sample_prefix 16) (sample_prefix 14)); apply sample_prefix_ok; auto.
Defined.

(** [Prefix::new] fails exactly on a length over the family's maximum, and
    otherwise gives a canonical prefix that matches the addresses sharing the
    first [len] bits of its input, and that it maps to itself. *)
Theorem new_canonical (b : list Z) (len : Z) (f : bool) (Hl : length b = 16%nat) (Hb : bytes b) (Hlen : u8 len) :
  (new b len f = None <-> max_len f < len) /\
  forall p, new b len f = Some p ->
    prefix_ok p /\ new (bits p) (plen p) (v4 p) = Some p /\
    forall a, ip_ok a -> matches p a = true <->
      is_ipv4 a = f /\ addr_val a / 2 ^ (128 - len) = be_val b / 2 ^ (128 - len).
Proof.
  split.
  { unfold new. case_decide; [|case_decide]; (split; [done || lia|done || lia]). }
  intros p Hn. destruct (new_ok b len f p Hl Hb) as (Hp & Hv & Hpl & Hf); [uint|done|].
  pose proof (pk_len p Hp). pose proof (max_len_bound (v4 p)).
  split; [done|]. split.
  - by apply new_self.
  - intros a Ha. rewrite matches_spec, Hf, Hv, Hpl by done.
    assert (Hpow : 0 < 2 ^ (128 - len)) by (apply Z.pow_pos_nonneg; lia).
    replace ((be_val b - be_val b mod 2 ^ (128 - len)) / 2 ^ (128 - len))
      with (be_val b / 2 ^ (128 - len)); [done|].
    rewrite (Z.div_mod (be_val b) (2 ^ (128 - len))) at 2 by lia.
    rewrite Z.add_simpl_r, Z.mul_comm, Z.div_mul by lia. done.
Qed.

Lemma new_canonical_witness :
  (new (replicate 16 255) 9 true = None <-> max_len true < 9) /\
  forall p, new (replicate 16 255) 9 true = Some p ->
    prefix_ok p /\ new (bits p) (plen p) (v4 p) = Some p /\
    forall a, ip_ok a -> matches p a = true <->
      is_ipv4 a = true /\ addr_val a / 2 ^ (128 - 9) = be_val (replicate 16 255) / 2 ^ (128 - 9).
Proof.
  apply (new_canonical (replicate 16 255) 9 true);
    [reflexivity | apply Forall_replicate; vm_compute; split; congruence | vm_compute; split; congruence].
Defined.

(** An IPv4 prefix printed as CIDR text is parsed back to itself. *)
Theorem parse_to_cidr_v4 (p : Prefix) (Hp : prefix_ok p) (H4 : v4 p = true) : parse (to_cidr p) = Ok p.
Proof.
  pose proof (pk_len p Hp) as Hlen. pose proof (pk_canonical p Hp) as Hc. rewrite H4 in Hlen. cbn in Hlen.
  pose proof (pk_length p Hp) as Hl. pose proof (pk_bytes p Hp) as Hb.
  assert (Ho : length (take 4 (bits p)) = 4%nat) by len.
  assert (Hob : bytes (take 4 (bits p))) by auto with rill.
  unfold parse, to_cidr. rewrite H4. change ("/" +:+ dec (plen p)) with (String "/" (dec (plen p))).
  rewrite split_once_app by by apply no_slash_ipv4. step.
  destruct (octet_facts (plen p)) as (_ & -> & _); [uint|]. step.
  rewrite parse_show_ipv4 by done. step.
  assert (Hbits : take 4 (bits p) ++ replicate 12 0 = bits p) by (apply (canonical_tail p 4); [done|lia..]).
  rewrite Hbits. cbn [is_ipv4]. rewrite <- H4. by rewrite new_self.
Qed.

Lemma parse_to_cidr_v4_witness : parse (to_cidr (sample_prefix 14)) = Ok (sample_prefix 14).
Proof. apply (parse_to_cidr_v4 (sample_prefix 14)); [apply sample_prefix_ok; auto | reflexivity]. Defined.

(** ** Properties of the engine *)

Lemma key_le_refl a : key_le a a = true.
Proof. unfold key_le. rewrite !decide_False by lia. apply bool_decide_eq_true. lia. Qed.

Lemma key_le_total a b : key_le a b = false -> key_le b a = true.
Proof.
  unfold key_le. repeat case_decide; try done; lia.
Qed.

Lemma key_le_trans a b c : key_le a b = true -> key_le b c = true -> key_le a c = true.
Proof.
  unfold key_le. repeat case_decide; try done; lia.
Qed.

Definition with_prio (e : RouteEntry) : RouteEntry * Z := (e, priority (source e)).

(** [a] is at least as good a route as [b]. *)
Definition better_eq (a b : RouteEntry) : bool := key_le (with_prio a) (with_prio b).

Lemma elem_of_lookup g addr x :
  x ∈ lookup g addr <->
  exists e, x = with_prio e /\ e ∈ entries (table g) /\ matches (prefix e) addr = true.
Proof.
  unfold lookup, table_matches. rewrite elem_of_sort, list_elem_of_fmap.
  setoid_rewrite elem_of_sort. by setoid_rewrite elem_of_bfilter.
Qed.

(** [lookup] lists exactly the matching entries, longest prefix first and
    by source priority (LAN, mesh, dn42, dynamic dn42, tailnet) within a length. *)
Theorem lookup_sorted (g : RouteEngine) (addr : IpAddr) :
  lookup g addr ≡ₚ (with_prio <$> List.filter (fun e => matches (prefix e) addr) (entries (table g))) /\
  Sorted.Sorted (fun a b => key_le a b = true) (lookup g addr).
Proof.
  unfold lookup, table_matches. split.
  - rewrite sort_perm. apply fmap_Permutation, sort_perm.
  - apply (sort_sorted key_le). apply key_le_total.
Qed.

Lemma find_fmap {A B} (f : A -> B) (P : B -> bool) (l : list A) :
  List.find P (f <$> l) = f <$> List.find (P ∘ f) l.
Proof. induction l as [|x l IH]; cbn; [done|]. by destruct (P (f x)). Qed.

Lemma filter_fmap {A B} (f : A -> B) (P : B -> bool) (l : list A) :
  List.filter P (f <$> l) = f <$> List.filter (P ∘ f) l.
Proof. induction l as [|x l IH]; cbn; [done|]. destruct (P (f x)); cbn; by rewrite IH. Qed.

Lemma lookup_best_find g addr reachable e :
  lookup_best g addr reachable = Some e <->
  List.find (reachable ∘ fst) (lookup g addr) = Some (with_prio e).
Proof.
  unfold lookup_best. rewrite find_fmap. split.
  - intros ([e' p] & E & ->)%fmap_Some. rewrite E. f_equal.
    apply find_Some_elem in E as [(x & Hx & _)%elem_of_lookup _]. unfold with_prio in *. cbn. congruence.
  - by intros ->.
Qed.

(** [a] and [b] have the same prefix length and source. *)
Definition same_key (a b : RouteEntry) : bool := better_eq a b && better_eq b a.

Lemma same_key_len a b : same_key a b = true -> plen (prefix a) = plen (prefix b).
Proof. unfold same_key, better_eq, key_le, with_prio; cbn. repeat case_decide; cbn; intros; try done; lia. Qed.

Lemma better_eq_trans a b c : better_eq a b = true -> better_eq b c = true -> better_eq a c = true.
Proof. apply key_le_trans. Qed.

(** A class [Q] of entries of one key keeps its order through the second sort. *)
Lemma sort_key_class (Q : RouteEntry -> bool) (l : list RouteEntry) :
  (forall a b, Q a = true -> Q b = true -> better_eq a b = true) ->
  List.filter (Q ∘ fst) (sort key_le (with_prio <$> l)) = with_prio <$> List.filter Q l.
Proof.
  intros HQ. set (R := fun x : RouteEntry * Z => Q x.1 && bool_decide (x = with_prio x.1)).
  assert (HR : forall m : list (RouteEntry * Z), (forall x, x ∈ m -> x = with_prio x.1) ->
    List.filter (Q ∘ fst) m = List.filter R m).
  { intros m. induction m as [|x m IH]; intros Hm; cbn; [done|]. unfold R at 1.
    rewrite bool_decide_eq_true_2 by (apply Hm; left). rewrite andb_true_r, IH; [done|].
    intros y Hy. apply Hm. by right. }
  assert (Hp : forall x, x ∈ (with_prio <$> l) -> x = with_prio x.1)
    by (by intros x (y & -> & _)%list_elem_of_fmap).
  rewrite HR by (intros x; rewrite elem_of_sort; apply Hp). rewrite sort_filter.
  - rewrite <- HR by done. apply filter_fmap.
  - intros a b [Ha ->%bool_decide_eq_true]%andb_true_iff [Hb ->%bool_decide_eq_true]%andb_true_iff.
    by apply HQ.
Qed.

(** The two stable sorts keep the table's order among entries of one key. *)
Lemma lookup_class g addr e (P : RouteEntry -> bool) :
  let Q x := P x && same_key e x in
  List.filter (Q ∘ fst) (lookup g addr)
  = with_prio <$> List.filter (fun x => matches (prefix x) addr && Q x) (entries (table g)).
Proof.
  intros Q.
  assert (HQ : forall a b, Q a = true -> Q b = true -> better_eq a b = true /\ plen (prefix a) = plen (prefix b)).
  { unfold Q. intros a b [_ Ha]%andb_true_iff [_ Hb]%andb_true_iff.
    pose proof (same_key_len _ _ Ha). pose proof (same_key_len _ _ Hb).
    unfold same_key in Ha, Hb. apply andb_true_iff in Ha as [? ?], Hb as [? ?].
    split; [by eapply better_eq_trans|congruence]. }
  unfold lookup, table_matches. rewrite (sort_key_class Q) by (intros; by apply HQ).
  f_equal. rewrite sort_filter.
  - induction (entries (table g)) as [|x l IH]; cbn; [done|].
    destruct (matches (prefix x) addr); cbn; [|done]. by rewrite IH.
  - intros a b Ha Hb. unfold len_le. apply bool_decide_eq_true. destruct (HQ a b Ha Hb). lia.
Qed.

(** C37: [lookup_best] is the longest reachable match: it finds nothing exactly
    when no matching entry is reachable; otherwise its result matches, is
    reachable, no reachable match is better by (length, priority), and it is the
    first entry of the table among its equals. *)
Theorem lookup_best_correct (g : RouteEngine) (addr : IpAddr) (reachable : RouteEntry -> bool) :
  let ok e := matches (prefix e) addr && reachable e in
  match lookup_best g addr reachable with
  | None => forall e, e ∈ entries (table g) -> ok e = false
  | Some e =>
      e ∈ entries (table g) /\ ok e = true /\
      (forall x, x ∈ entries (table g) -> ok x = true -> better_eq e x = true) /\
      List.find (fun x => ok x && same_key e x) (entries (table g)) = Some e
  end.
Proof.
  intros ok. destruct (lookup_best g addr reachable) as [e|] eqn:E.
  - apply lookup_best_find in E. pose proof E as [Hin Hr]%find_Some_elem.
    apply elem_of_lookup in Hin as (e' & [= <-] & Hin & Hm). cbn in Hr.
    split; [done|]. split; [by unfold ok; rewrite Hm|]. split.
    + intros x Hx [Hxm Hxr]%andb_true_iff.
      eapply (find_sorted_least key_le); [apply key_le_refl | apply key_le_trans
        | apply (sort_sorted key_le), key_le_total | exact E | | done].
      apply elem_of_lookup. eauto.
    + pose proof (lookup_class g addr e reachable) as Hc. cbn zeta in Hc.
      assert (Hs : same_key e e = true) by (unfold same_key, better_eq; by rewrite key_le_refl).
      assert (EQ : List.find ((fun x => reachable x && same_key e x) ∘ fst) (lookup g addr)
                   = Some (with_prio e)).
      { apply (find_refine (reachable ∘ fst)); [|cbn; by rewrite Hr, Hs|done].
        cbn. by intros ? [? _]%andb_true_iff. }
      rewrite find_head, Hc in EQ. rewrite find_head.
      set (F := List.filter (fun x => ok x && same_key e x) (entries (table g))).
      assert (HF : List.filter (fun x => matches (prefix x) addr && (reachable x && same_key e x))
                     (entries (table g)) = F)
        by (apply List.filter_ext; intros x; unfold ok; by rewrite andb_assoc).
      rewrite HF in EQ. destruct F; cbn in *; [done|]. unfold with_prio in EQ. congruence.
  - intros e He. unfold ok. unfold lookup_best in E. rewrite find_None in E.
    destruct (matches (prefix e) addr) eqn:Hm; [|done]. cbn. apply E.
    apply list_elem_of_fmap. exists (with_prio e). split; [done|]. apply elem_of_lookup. eauto.
Qed.

(** The default route is the first reachable candidate in the order of
    preference, the mesh source being left out on a node that is itself a mesh
    exit: such a node never sends default traffic to another mesh exit. *)
Theorem resolve_correct (r : DefaultRouteResolver) (reachable : RouteVia -> bool) :
  resolve r reachable
  = List.find reachable (mjoin (candidates r <$>
      List.filter (fun s => negb (bool_decide (s = ExitMesh) && self_exit r)) (preference r))) /\
  (self_exit r = true -> forall n, resolve r reachable <> Some (ViaMesh n)).
Proof.
  assert (Hfind : resolve r reachable
    = List.find reachable (mjoin (candidates r <$>
        List.filter (fun s => negb (bool_decide (s = ExitMesh) && self_exit r)) (preference r)))).
  { unfold resolve. induction (preference r) as [|s l IH]; cbn -[candidates]; [done|].
    destruct (bool_decide (s = ExitMesh) && self_exit r); cbn -[candidates]; [done|].
    rewrite IH. clear IH. induction (candidates r s) as [|v vs IHv]; cbn; [done|]. by destruct (reachable v). }
  split; [done|]. intros Hs n E. rewrite Hfind in E. apply find_Some_elem in E as [Hin _].
  apply list_elem_of_join in Hin as (c & Hn & (s & -> & Hf)%list_elem_of_fmap).
  apply elem_of_bfilter in Hf as [_ Hf]. rewrite Hs in Hf.
  destruct s; cbn in *; [|done]. by apply list_elem_of_fmap in Hn as (? & ? & ?).
Qed.

End Route.
