(* ===== verification/Control.v ===== *)
(** * Control-plane rules (rill-core/src/control/{acl,session,revoke,challenge}.rs)

    [Acl]: ordered first-match rules over the inner packet's destination.
    [Session]: the client's registration state machine and its revoke list.
    [Challenge]: the reconnect proof of possession of the static key. *)

From S2P Require Import Prelude Net Crypto Route.

Module Acl.
Import Net Route.

Inductive AclSubject :=
| Any
| Node (id : Z)
| Group (name : string).

Inductive AclAction := Allow | Deny.

#[export] Instance AclAction_eq_dec : EqDecision AclAction.
Proof. solve_decision. Defined.

Record AclRule := mk_rule {
  subjects : list AclSubject;
  object : Prefix;
  action : AclAction
}.

Record AclPolicy := mk_policy {
  enabled : bool;
  rules : list AclRule;
  groups : gmap string (list Z)
}.

Definition subject_matches (p : AclPolicy) (s : AclSubject) (from : Z) : bool :=
  match s with
  | Any => true
  | Node id => bool_decide (id = from)
  | Group name =>
      match groups p !! name with
      | Some members => bool_decide (from ∈ members)
      | None => false
      end
  end.

(** The guard of the rule loop. *)
Definition hits (p : AclPolicy) (from : Z) (dst : IpAddr) (r : AclRule) : bool :=
  matches (object r) dst && existsb (fun s => subject_matches p s from) (subjects r).

Fixpoint decide_rules (p : AclPolicy) (from : Z) (dst : IpAddr) (l : list AclRule) : bool :=
  match l with
  | [] => false
  | r :: l => if hits p from dst r then bool_decide (action r = Allow) else decide_rules p from dst l
  end.

Definition allows (p : AclPolicy) (from : Z) (dst : IpAddr) : bool :=
  if negb (enabled p) then true else decide_rules p from dst (rules p).

Definition packet_dst (payload : list Z) : option IpAddr :=
  b ← payload !! 0%nat;
  let ver := Z.shiftr b 4 in
  if decide (ver = 4) then o ← get_range payload 16 20; Some (V4 o)
  else if decide (ver = 6) then o ← get_range payload 24 40; Some (V6 o)
  else None.

Definition allows_packet (p : AclPolicy) (from : Z) (payload : list Z) : bool :=
  if negb (enabled p) then true
  else match packet_dst payload with
       | Some dst => allows p from dst
       | None => false
       end.

Lemma packet_dst_ok payload a : bytes payload -> packet_dst payload = Some a -> ip_ok a.
Proof.
  intros Hb H. unfold packet_dst, get_range in H. destruct (payload !! 0%nat) as [b|]; [|done].
  step in H. repeat case_decide; step in H; simplify_eq; (split; [len|auto with rill]).
Qed.

(** A packet passes an enabled policy exactly when it is an IPv4 or IPv6
    packet and the first rule whose prefix holds its destination and whose
    subjects include the sender allows it: no rule, no IP header, no passage.  A
    rule before it that matches decides against it. *)
Theorem acl_first_match (p : AclPolicy) (from : Z) (payload : list Z) (He : enabled p = true) :
  allows_packet p from payload = true <->
  exists dst pre r post, packet_dst payload = Some dst /\ rules p = pre ++ r :: post /\
    hits p from dst r = true /\ action r = Allow /\
    Forall (fun r' => hits p from dst r' = false) pre.
Proof.
  assert (Hrules : forall dst l, decide_rules p from dst l = true <->
    exists pre r post, l = pre ++ r :: post /\ hits p from dst r = true /\ action r = Allow /\
      Forall (fun r' => hits p from dst r' = false) pre).
  { intros dst l. induction l as [|x l IH]; cbn [decide_rules].
    { split; [done|]. by intros ([] & ? & ? & ? & _). }
    destruct (hits p from dst x) eqn:Hx.
    - rewrite bool_decide_eq_true. split.
      + intros Ha. exists [], x, l. split_and!; try done; fall.
      + intros ([|y pre] & r & post & E & Hr & Ha & Hp); simplify_eq/=; [done|].
        apply Forall_cons_1 in Hp as [? _]. congruence.
    - rewrite IH. split.
      + intros (pre & r & post & -> & ? & ? & ?). exists (x :: pre), r, post. split_and!; try done; fall.
      + intros ([|y pre] & r & post & E & Hr & Ha & Hp); simplify_eq/=; [congruence|].
        apply Forall_cons_1 in Hp as [_ Hp]. eauto 10. }
  unfold allows_packet, allows. rewrite He. cbn [negb].
  destruct (packet_dst payload) as [dst|].
  - rewrite Hrules. naive_solver.
  - naive_solver.
Qed.

Definition sample_policy : AclPolicy :=
  mk_policy true
    [mk_rule [Node 3] (sample_prefix 16) Deny; mk_rule [Any] (sample_prefix 14) Allow] ∅.

Definition sample_packet : list Z := 69 :: replicate 15 0 ++ [172; 20; 1; 2] ++ [0; 0].

Lemma acl_first_match_witness :
  allows_packet sample_policy 5 sample_packet = true /\
  (allows_packet sample_policy 5 sample_packet = true <->
   exists dst pre r post, packet_dst sample_packet = Some dst /\ rules sample_policy = pre ++ r :: post /\
     hits sample_policy 5 dst r = true /\ action r = Allow /\
     Forall (fun r' => hits sample_policy 5 dst r' = false) pre).
Proof.
  split; [vm_compute; reflexivity|].
  apply (acl_first_match sample_policy 5 sample_packet). reflexivity.
Defined.

End Acl.

Module Session.

(** [RevokeList] *)
Definition RevokeList : Type := gset Z.

Inductive SessionState :=
| Unregistered
| Registered (node_id : Z)
| Reconnecting (node_id : Z).

Inductive SessionEvent :=
| RegisterOk (node_id : Z)
| RegisterFailed
| LinkLost
| ChallengeOk
| ChallengeFailed
| Revoked (node_id : Z).

#[export] Instance SessionState_eq_dec : EqDecision SessionState.
Proof. solve_decision. Defined.
#[export] Instance SessionEvent_eq_dec : EqDecision SessionEvent.
Proof. solve_decision. Defined.

Inductive SessionError := InvalidTransition.

Record ClientSession := mk_session { state : SessionState; revoke_list : RevokeList }.

Definition new : ClientSession := mk_session Unregistered ∅.

Definition revoke (l : RevokeList) (node_id : Z) : RevokeList := {[ node_id ]} ∪ l.

Definition is_revoked (s : ClientSession) (node_id : Z) : bool := bool_decide (node_id ∈ revoke_list s).

Definition restore (s : ClientSession) (node_id : Z) : ClientSession :=
  mk_session (Reconnecting node_id) (revoke_list s).

(** The verdict and the session after the event. *)
Definition handle (s : ClientSession) (ev : SessionEvent) : outcome SessionError unit * ClientSession :=
  let set st := mk_session st (revoke_list s) in
  match state s, ev with
  | Unregistered, RegisterOk n => (Ok tt, set (Registered n))
  | Unregistered, RegisterFailed => (Ok tt, s)
  | Registered n, LinkLost => (Ok tt, set (Reconnecting n))
  | Reconnecting n, ChallengeOk => (Ok tt, set (Registered n))
  | Reconnecting _, ChallengeFailed => (Ok tt, s)
  | Reconnecting n, RegisterOk new_id =>
      if decide (n = new_id) then (Ok tt, set (Registered new_id)) else (Err InvalidTransition, s)
  | Registered n, RegisterOk new_id =>
      if decide (n = new_id) then (Ok tt, s) else (Err InvalidTransition, s)
  | st, Revoked n =>
      match st with
      | Registered self_id | Reconnecting self_id =>
          if decide (self_id = n) then (Ok tt, mk_session Unregistered (revoke (revoke_list s) n))
          else (Ok tt, mk_session st (revoke (revoke_list s) n))
      | Unregistered => (Ok tt, mk_session st (revoke (revoke_list s) n))
      end
  | _, ChallengeOk => (Err InvalidTransition, s)
  | _, ChallengeFailed => (Err InvalidTransition, s)
  | _, LinkLost => (Err InvalidTransition, s)
  | _, RegisterFailed => (Err InvalidTransition, s)
  end.

(** The calls a client makes. *)
Inductive op := Handle (ev : SessionEvent) | Restore (node_id : Z).

Definition apply_op (s : ClientSession) (o : op) : ClientSession :=
  match o with Handle ev => (handle s ev).2 | Restore n => restore s n end.

Definition run (s : ClientSession) (ops : list op) : ClientSession := foldl apply_op s ops.

Definition identity (s : ClientSession) : option Z :=
  match state s with Unregistered => None | Registered n | Reconnecting n => Some n end.

Ltac session_cases s :=
  destruct s as [[] ?]; cbn; repeat case_decide; cbn; try done.

Lemma handle_error s ev : (handle s ev).1 = Err InvalidTransition -> (handle s ev).2 = s.
Proof. destruct ev; session_cases s. Qed.

Lemma handle_keeps_identity s ev n :
  identity s = Some n -> ev <> Revoked n -> identity (handle s ev).2 = Some n.
Proof. intros Hid Hev. destruct ev; revert Hid; unfold identity; session_cases s; naive_solver. Qed.

Lemma handle_revoked_mono s ev : revoke_list s ⊆ revoke_list (handle s ev).2.
Proof. destruct ev; session_cases s; unfold revoke; set_solver. Qed.

Lemma handle_identity_origin s ev n :
  identity (handle s ev).2 = Some n -> identity s = Some n \/ ev = RegisterOk n.
Proof. destruct ev; unfold identity; session_cases s; naive_solver. Qed.

(** The node identity of a client session is stable.  Whatever events arrive,
    in whatever order, a session that has an identity keeps it as long as that
    identity itself is not revoked: no registration reply can switch it to
    another one. *)
Theorem session_identity_stable (s : ClientSession) (n : Z) (evs : list SessionEvent)
  (Hid : identity s = Some n) (Hev : Revoked n ∉ evs) :
  identity (run s (Handle <$> evs)) = Some n.
Proof.
  revert s Hid. induction evs as [|ev evs IH]; intros s Hid; [done|].
  apply not_elem_of_cons in Hev as [Hne Hev]. cbn. apply IH; [done|].
  by apply handle_keeps_identity.
Qed.

Lemma session_identity_stable_witness :
  identity (run (restore new 4) (Handle <$> [ChallengeFailed; RegisterOk 9; ChallengeOk; Revoked 9; LinkLost]))
  = Some 4.
Proof. apply (session_identity_stable (restore new 4) 4); [reflexivity | set_solver]. Defined.

(** A session that is registered or reconnecting as [n] has been told so, by
    a successful registration as [n] or by restoring the stored identity [n];
    and revocations are never forgotten. *)
Theorem session_identity_origin (ops : list op) (n : Z) :
  (identity (run new ops) = Some n -> Handle (RegisterOk n) ∈ ops \/ Restore n ∈ ops) /\
  (Handle (Revoked n) ∈ ops -> is_revoked (run new ops) n = true).
Proof.
  unfold run, is_revoked. rewrite bool_decide_eq_true.
  induction ops as [|o ops IH] using rev_ind; [split; [done|by inversion 1]|].
  rewrite foldl_snoc. setoid_rewrite elem_of_app. setoid_rewrite list_elem_of_singleton.
  set (s := foldl apply_op new ops) in *. destruct IH as [IH1 IH2]. split.
  - destruct o as [ev|m]; cbn.
    + intros [H| ->]%handle_identity_origin; [|auto]. destruct (IH1 H); auto.
    + intros [= ->]. auto.
  - intros [H|H].
    + apply IH2 in H. destruct o; [by apply handle_revoked_mono|done].
    + subst o. cbn. session_cases s; unfold revoke; set_solver.
Qed.

End Session.

Module Challenge.
Import Crypto.

Section WithPrimitives.
Context `{P : Primitives}.

Definition compute_tag (node_static_priv eph_pub nonce : list Z) (node_id : Z) : list Z :=
  let shared := x25519_shared node_static_priv eph_pub in
  let mac_key := derive_challenge_key shared nonce in
  hmac mac_key (be_bytes 4 node_id ++ nonce ++ eph_pub).

Definition eph_pub_from_priv (eph_priv : list Z) : list Z := x25519_base eph_priv.

Definition verify_tag (node_static_pub eph_priv nonce : list Z) (node_id : Z) (tag : list Z) : bool :=
  let shared := x25519_shared eph_priv node_static_pub in
  let mac_key := derive_challenge_key shared nonce in
  bool_decide (hmac mac_key (be_bytes 4 node_id ++ nonce ++ eph_pub_from_priv eph_priv) = tag).

(** The coordinator, knowing the ephemeral secret and the node's static public
    key, accepts exactly the tag the node computes from its static secret and
    the ephemeral public key, for the same nonce and node id. *)
Theorem verify_tag_exact `{PL : !PrimitiveLaws P} (node_priv eph_priv nonce : list Z) (node_id : Z) (tag : list Z) :
  verify_tag (x25519_base node_priv) eph_priv nonce node_id tag = true <->
  tag = compute_tag node_priv (x25519_base eph_priv) nonce node_id.
Proof.
  unfold verify_tag, compute_tag, x25519_shared, eph_pub_from_priv.
  rewrite bool_decide_eq_true, (x25519_agree eph_priv node_priv).
  split; congruence.
Qed.

End WithPrimitives.

Import Toy.

Lemma verify_tag_exact_witness :
  verify_tag (x25519_base [1; 2]) [3] [4; 5] 6 (compute_tag [1; 2] (x25519_base [3]) [4; 5] 6) = true.
Proof. by apply (verify_tag_exact [1; 2] [3] [4; 5] 6). Defined.

Definition within_window (issued_at now window : Z) : bool :=
  bool_decide (now <= sat_add 64 issued_at window).

End Challenge.
