(* ===== verification/Registry.v ===== *)
(** * Node registry of one network (rill-core/src/control/registry.rs)

    Admission by auth key, idempotent re-registration, route announcements
    checked against the network's whitelist, one-time keys with their
    tombstones, revocation and restoring of persisted entries. *)

From S2P Require Import Prelude Net Route.

Module Registry.
Import Net Route.

Inductive AuthKeyPolicy := OneTime | Reusable.

#[export] Instance AuthKeyPolicy_eq_dec : EqDecision AuthKeyPolicy.
Proof. solve_decision. Defined.

Record AuthKeySpec := mk_spec { policy : AuthKeyPolicy; tag : option string }.

Definition simple (p : AuthKeyPolicy) : AuthKeySpec := mk_spec p None.

Record NodeEntry := mk_node {
  node_id : Z;
  network_id : Z;
  static_pubkey : list Z;
  capabilities : Z;
  routes : list string;
  identity_binding : list Z;
  binding_log_id : Z * Z
}.

Inductive RegisterError :=
| InvalidAuthKey
| PubkeyMismatch
| RouteNotAllowed
| BadRoute
| AclCapabilityRequired.

Inductive RegisterOutcome := NewNode (id : Z) | Existing (id : Z).

(** The trait [IdentitySigner]; its instances are outside the crate. *)
Class IdentitySigner := {
  sign : list Z -> list Z;
  verify : list Z -> list Z -> bool
}.

Class SignerLaws (S : IdentitySigner) :=
  verify_sign : forall m, verify m (sign m) = true.

Record Registry := mk_registry {
  entries : gmap Z NodeEntry;
  pubkeys : gmap (list Z) Z;
  auth_keys : gmap string AuthKeySpec;
  consumed_one_time : list string;
  announce_whitelist : list Prefix;
  net_id : Z
}.

Definition new (network_id : Z) : Registry := mk_registry ∅ ∅ ∅ [] [] network_id.

Definition set_auth_keys (r : Registry) (ks : gmap string AuthKeySpec) : Registry :=
  mk_registry (entries r) (pubkeys r) ks (consumed_one_time r) (announce_whitelist r) (net_id r).

Definition add_auth_key_spec (r : Registry) (key : string) (spec : AuthKeySpec) : Registry :=
  if decide (key ∈ consumed_one_time r) then r
  else set_auth_keys r (<[key := spec]> (auth_keys r)).

Definition add_auth_key (r : Registry) (key : string) (p : AuthKeyPolicy) : Registry :=
  add_auth_key_spec r key (simple p).

Definition remove_auth_key (r : Registry) (key : string) : Registry :=
  set_auth_keys r (delete key (auth_keys r)).

Definition contains_auth_key (r : Registry) (key : string) : bool :=
  bool_decide (is_Some (auth_keys r !! key)).

Definition set_announce_whitelist (r : Registry) (w : list Prefix) : Registry :=
  mk_registry (entries r) (pubkeys r) (auth_keys r) (consumed_one_time r) w (net_id r).

Fixpoint check_routes (whitelist : list Prefix) (rs : list string) : outcome RegisterError unit :=
  match rs with
  | [] => Ok tt
  | route :: rs =>
      prefix ← map_err (fun _ => BadRoute) (parse route);
      if existsb (fun allowed => is_covered_by prefix allowed) whitelist
      then check_routes whitelist rs
      else Err RouteNotAllowed
  end.

Definition check_announce_routes (r : Registry) (rs : list string) : outcome RegisterError unit :=
  check_routes (announce_whitelist r) rs.

Definition binding_message (node_id : Z) (static_pubkey : list Z) (issuance : Z * Z) : list Z :=
  str_bytes "rill-binding-v2" ++ be_bytes 4 node_id ++ static_pubkey ++
  be_bytes 8 issuance.1 ++ be_bytes 8 issuance.2.

(** The registry is changed only when no error is returned. *)
Definition register `{S : IdentitySigner} (r : Registry) (auth_key : string) (pk : list Z) (caps : Z)
    (rs : list string) (id : Z) (issuance : Z * Z)
    : outcome RegisterError (RegisterOutcome * Registry) :=
  spec ← ok_or InvalidAuthKey (auth_keys r !! auth_key);
  match pubkeys r !! pk with
  | Some existing =>
      entry ← unwrap (entries r !! existing);
      if decide (capabilities entry = caps /\ routes entry = rs)
      then Ok (Existing existing, r) else Err PubkeyMismatch
  | None =>
      _ ← check_announce_routes r rs;
      let binding := sign (binding_message id pk issuance) in
      let entry := mk_node id (net_id r) pk caps rs binding issuance in
      let '(ks, cs) :=
        if decide (policy spec = OneTime)
        then (delete auth_key (auth_keys r), consumed_one_time r ++ [auth_key])
        else (auth_keys r, consumed_one_time r) in
      Ok (NewNode id,
          mk_registry (<[id := entry]> (entries r)) (<[pk := id]> (pubkeys r)) ks cs
            (announce_whitelist r) (net_id r))
  end.

Definition revoke (r : Registry) (id : Z) : Registry :=
  match entries r !! id with
  | Some e => mk_registry (delete id (entries r)) (delete (static_pubkey e) (pubkeys r))
                (auth_keys r) (consumed_one_time r) (announce_whitelist r) (net_id r)
  | None => r
  end.

Definition node_id_by_pubkey (r : Registry) (pk : list Z) : option Z := pubkeys r !! pk.

(** One entry of the loop of [restore]. *)
Definition restore_entry (m : gmap (list Z) Z * gmap Z NodeEntry) (e : NodeEntry) :=
  (<[static_pubkey e := node_id e]> m.1, <[node_id e := e]> m.2).

Definition restore (r : Registry) (es : list NodeEntry) (consumed : list string) : Registry :=
  let '(pks, ents) := foldl restore_entry (∅, ∅) es in
  mk_registry ents pks (auth_keys r) consumed (announce_whitelist r) (net_id r).

Lemma restore_foldl l a b :
  foldl restore_entry (a, b) l
  = (foldl (fun m e => <[static_pubkey e := node_id e]> m) a l,
     foldl (fun m e => <[node_id e := e]> m) b l).
Proof. revert a b. induction l as [|x l IH]; intros; cbn; [done|]. apply IH. Qed.

(** ** Invariant *)

Record wf (r : Registry) : Prop := {
  wf_entry : forall id e, entries r !! id = Some e ->
    node_id e = id /\ pubkeys r !! static_pubkey e = Some id;
  wf_pubkey : forall pk id, pubkeys r !! pk = Some id ->
    exists e, entries r !! id = Some e /\ static_pubkey e = pk;
  wf_consumed : forall k, k ∈ consumed_one_time r -> auth_keys r !! k = None;
  wf_whitelist : Forall prefix_ok (announce_whitelist r)
}.

(** The calls that change a registry; [Register] carries the node id the caller
    allocated. *)
Inductive op :=
| AddKey (key : string) (spec : AuthKeySpec)
| RemoveKey (key : string)
| SetWhitelist (w : list Prefix)
| Register (auth_key : string) (pk : list Z) (caps : Z) (rs : list string) (id : Z) (issuance : Z * Z)
| Revoke (id : Z).

Section Steps.
Context `{S : IdentitySigner}.

(** A call, under the conditions the caller keeps: a whitelist of canonical
    prefixes, a node id not in use. *)
Inductive step : Registry -> op -> Registry -> Prop :=
| step_add r k s : step r (AddKey k s) (add_auth_key_spec r k s)
| step_remove r k : step r (RemoveKey k) (remove_auth_key r k)
| step_whitelist r w : Forall prefix_ok w -> step r (SetWhitelist w) (set_announce_whitelist r w)
| step_register r k pk c rs id iss res :
    entries r !! id = None -> register r k pk c rs id iss = Ok res ->
    step r (Register k pk c rs id iss) res.2
| step_register_error r k pk c rs id iss e :
    register r k pk c rs id iss = Err e -> step r (Register k pk c rs id iss) r
| step_revoke r id : step r (Revoke id) (revoke r id).

Inductive steps : Registry -> list op -> Registry -> Prop :=
| steps_nil r : steps r [] r
| steps_cons r o r' os r'' : step r o r' -> steps r' os r'' -> steps r (o :: os) r''.

Lemma registry_new_wf n : wf (new n).
Proof. split; cbn; try (intros *; by rewrite lookup_empty); fall. Qed.

(** What a successful registration did. *)
Lemma register_Ok r k pk c rs id iss out r' :
  register r k pk c rs id iss = Ok (out, r') ->
  (exists e, out = Existing (default 0 (pubkeys r !! pk)) /\ r' = r /\
     pubkeys r !! pk = Some (default 0 (pubkeys r !! pk)) /\
     entries r !! default 0 (pubkeys r !! pk) = Some e /\ capabilities e = c /\ routes e = rs) \/
  (out = NewNode id /\ pubkeys r !! pk = None /\ check_announce_routes r rs = Ok tt /\
   exists spec, auth_keys r !! k = Some spec /\
   let once := bool_decide (policy spec = OneTime) in
   r' = mk_registry
          (<[id := mk_node id (net_id r) pk c rs (sign (binding_message id pk iss)) iss]> (entries r))
          (<[pk := id]> (pubkeys r))
          (if once then delete k (auth_keys r) else auth_keys r)
          (if once then consumed_one_time r ++ [k] else consumed_one_time r)
          (announce_whitelist r) (net_id r)).
Proof.
  unfold register. intros H. destruct (auth_keys r !! k) as [spec|] eqn:Ek; [|done]. step in H.
  destruct (pubkeys r !! pk) as [x|] eqn:Ep.
  - left. destruct (entries r !! x) as [e|] eqn:Ee; [|done]. step in H.
    case_decide as Hd; [|done]. destruct Hd. simplify_eq. cbn. rewrite Ee. eauto 10.
  - right. destruct (check_announce_routes r rs) as [[]|e|]; [|done..]. step in H.
    destruct (decide (policy spec = OneTime)) as [Ho|Ho]; injection H as <- <-;
      (split_and!; [done..|]; exists spec; split; [done|]);
      [rewrite bool_decide_eq_true_2|rewrite bool_decide_eq_false_2]; done.
Qed.

Lemma register_preserves_wf r k pk c rs id iss out r' :
  wf r -> entries r !! id = None -> register r k pk c rs id iss = Ok (out, r') -> wf r'.
Proof.
  intros Hr Hid H. apply register_Ok in H as [(e & _ & -> & _)|(_ & Hpk & _ & spec & Hk & ->)]; [done|].
  destruct Hr as [He Hp Hc Hw]. split; cbn; [| | |done].
  - intros i e [[<- <-]|[Hne Hi]]%lookup_insert_Some; cbn.
    + split; [done|]. apply lookup_insert_eq.
    + destruct (He i e Hi) as [Hn Hpe]. split; [done|]. rewrite lookup_insert_ne; [done|]. congruence.
  - intros p i [[<- <-]|[Hne Hi]]%lookup_insert_Some.
    + eexists. by rewrite lookup_insert_eq.
    + destruct (Hp p i Hi) as (e & Hi' & Hs). exists e. rewrite lookup_insert_ne; [done|]. congruence.
  - intros k' Hk'. case_bool_decide.
    + apply elem_of_app in Hk' as [Hk'|Hk'].
      * apply lookup_delete_None. right. auto.
      * apply list_elem_of_singleton in Hk' as ->. apply lookup_delete_eq.
    + auto.
Qed.

Lemma revoke_preserves_wf r id : wf r -> wf (revoke r id).
Proof.
  intros Hr. unfold revoke. destruct (entries r !! id) as [e|] eqn:E; [|done].
  destruct Hr as [He Hp Hc Hw]. destruct (He id e E) as [Hn Hpe]. split; cbn; [| |done|done].
  - intros i x [Hne Hi]%lookup_delete_Some. destruct (He i x Hi) as [Hx Hpx]. split; [done|].
    rewrite lookup_delete_ne; [done|]. congruence.
  - intros p i [Hne Hi]%lookup_delete_Some. destruct (Hp p i Hi) as (x & Hx & Hs).
    exists x. rewrite lookup_delete_ne; [done|]. congruence.
Qed.

Lemma add_key_preserves_wf r k s : wf r -> wf (add_auth_key_spec r k s).
Proof.
  intros Hr. unfold add_auth_key_spec. case_decide; [done|]. destruct Hr. split; cbn; try done.
  intros k' Hk'. rewrite lookup_insert_ne; [auto|]. congruence.
Qed.

Lemma step_preserves_wf r o r' : wf r -> step r o r' -> wf r'.
Proof.
  intros Hr. destruct 1 as [r k s|r k|r w Hw|r k pk c rs id iss [out r'] Hid H|r k pk c rs id iss e H|r id].
  - by apply add_key_preserves_wf.
  - destruct Hr. split; cbn; try done. intros k' Hk'. apply lookup_delete_None. auto.
  - by destruct Hr.
  - by eapply register_preserves_wf.
  - done.
  - by apply revoke_preserves_wf.
Qed.

Lemma steps_preserve_wf r os r' : wf r -> steps r os r' -> wf r'.
Proof. intros Hr H. induction H; [done|]. eauto using step_preserves_wf. Qed.

Lemma check_routes_safe w rs : safe (check_routes w rs).
Proof.
  induction rs as [|route rs IH]; [done|]. cbn [check_routes].
  assert (safe (parse route)).
  { unfold parse. destruct (split_once _ _) as [[a l]|]; [|done]. step.
    destruct (parse_uint 255 l); [|done]. step. destruct (parse_ip a); [|done]. step.
    by destruct (Route.new _ _ _). }
  destruct (parse route); [|done..]. step. by destruct (existsb _ _).
Qed.

Lemma check_routes_Ok w rs : check_routes w rs = Ok tt ->
  forall route, route ∈ rs -> exists p q, parse route = Ok p /\ q ∈ w /\ is_covered_by p q = true.
Proof.
  induction rs as [|x rs IH]; cbn [check_routes]; [by inversion 2|]. intros H.
  destruct (parse x) as [p|e|] eqn:Ep; [|done..]. step in H.
  destruct (existsb _ w) eqn:Ex; [|done]. apply existsb_exists in Ex as (q & Hq & Hc).
  apply list_elem_of_In in Hq. intros route [->|Hr]%elem_of_cons; eauto.
Qed.

Lemma register_safe r k pk c rs id iss : wf r -> safe (register r k pk c rs id iss).
Proof.
  intros Hr. unfold register. destruct (auth_keys r !! k) as [spec|]; [|done]. step.
  destruct (pubkeys r !! pk) as [x|] eqn:Ep.
  - apply (wf_pubkey r Hr) in Ep as (e & -> & _). step. by case_decide.
  - pose proof (check_routes_safe (announce_whitelist r) rs) as Hs. unfold check_announce_routes.
    destruct (check_routes _ rs); [|done..]. step. by case_decide.
Qed.

Lemma consumed_mono r o r' k : step r o r' -> k ∈ consumed_one_time r -> k ∈ consumed_one_time r'.
Proof.
  destruct 1 as [r k' s|r k'|r w Hw|r k' pk c rs id iss [out r'] Hid H|r k' pk c rs id iss e H|r id]; try done.
  - unfold add_auth_key_spec. by case_decide.
  - apply register_Ok in H as [(? & _ & -> & _)|(_ & _ & _ & spec & _ & ->)]; [done|]. cbn.
    case_bool_decide; [|done]. rewrite elem_of_app. auto.
  - unfold revoke. by destruct (entries r !! id).
Qed.

Lemma steps_consumed r os r' k : steps r os r' -> k ∈ consumed_one_time r -> k ∈ consumed_one_time r'.
Proof. induction 1; eauto using consumed_mono. Qed.

(** In every registry reached by any sequence of calls, entries and public
    keys are in bijection, consumed one-time keys are not admitted, and a
    registration never panics. *)
Theorem registry_invariant (net : Z) (os : list op) (r : Registry)
  (Hs : steps (new net) os r) :
  wf r /\ forall k pk c rs id iss, safe (register r k pk c rs id iss).
Proof.
  pose proof (steps_preserve_wf _ _ _ (registry_new_wf net) Hs) as Hr. split; [done|].
  intros. by apply register_safe.
Qed.

(** C34: a one-time key admits one node.  After it has admitted a new node, every
    later registration with it fails, whatever calls come between, adding the
    same key again included. *)
Theorem one_time_key_once (r r' r'' : Registry) (k : string) (pk : list Z) (c : Z) (rs : list string)
  (id : Z) (iss : Z * Z) (os : list op) (tg : option string)
  (Hr : wf r) (Hid : entries r !! id = None) (Hk : auth_keys r !! k = Some (mk_spec OneTime tg))
  (Hreg : register r k pk c rs id iss = Ok (NewNode id, r')) (Hs : steps r' os r'') :
  forall pk' c' rs' id' iss', register r'' k pk' c' rs' id' iss' = Err InvalidAuthKey.
Proof.
  intros. pose proof (register_preserves_wf _ _ _ _ _ _ _ _ _ Hr Hid Hreg) as Hr'.
  assert (Hc : k ∈ consumed_one_time r').
  { apply register_Ok in Hreg as [(? & ? & _)|(_ & _ & _ & spec & Hk' & ->)]; [done|].
    rewrite Hk in Hk'. injection Hk' as <-. cbn [consumed_one_time policy].
    rewrite bool_decide_eq_true_2, elem_of_app by done. right. left. }
  apply (steps_consumed _ _ _ _ Hs) in Hc. unfold register.
  by rewrite (wf_consumed _ (steps_preserve_wf _ _ _ Hr' Hs) k Hc).
Qed.

(** What an admission means.  A newly registered node is found by id and by
    public key, its identity binding verifies for exactly its id, key and log
    position, and every address of every route it announces lies in a
    whitelisted prefix. *)
Theorem register_new_node `{SL : !SignerLaws S} (r r' : Registry) (k : string) (pk : list Z) (c : Z)
  (rs : list string) (id : Z) (iss : Z * Z)
  (Hr : wf r) (Hreg : register r k pk c rs id iss = Ok (NewNode id, r')) :
  (exists e, entries r' !! id = Some e /\ node_id_by_pubkey r' pk = Some id /\
     routes e = rs /\ network_id e = net_id r /\
     verify (binding_message id pk iss) (identity_binding e) = true) /\
  forall route, route ∈ rs -> exists p q, parse route = Ok p /\ q ∈ announce_whitelist r /\
    forall a, ip_ok a -> matches p a = true -> matches q a = true.
Proof.
  apply register_Ok in Hreg as [(? & ? & _)|(_ & _ & Hc & spec & _ & ->)]; [done|]. split.
  - eexists. cbn. rewrite lookup_insert_eq. split; [done|]. unfold node_id_by_pubkey; cbn.
    rewrite lookup_insert_eq. split_and!; try done; apply verify_sign.
  - intros route Hin. destruct (check_routes_Ok _ _ Hc route Hin) as (p & q & Hp & Hq & Hcov).
    exists p, q. split_and!; try done. apply covered_subset; [by eapply parse_ok| |done].
    eapply list.Forall_forall; [apply (wf_whitelist r Hr)|done].
Qed.

End Steps.

(** The signed binding message determines the node id, the public key and the
    log position it was issued for. *)
Theorem binding_message_inj (id id' : Z) (pk pk' : list Z) (iss iss' : Z * Z)
  (Hid : u32 id) (Hid' : u32 id') (Hpk : length pk = 32%nat) (Hpk' : length pk' = 32%nat)
  (Hi : u64 iss.1 /\ u64 iss.2) (Hi' : u64 iss'.1 /\ u64 iss'.2)
  (H : binding_message id pk iss = binding_message id' pk' iss') :
  id = id' /\ pk = pk' /\ iss = iss'.
Proof.
  unfold binding_message in H. apply app_inv_head in H.
  apply app_inj_1 in H as [H1 H]; [|by len]. apply app_inj_1 in H as [H2 H]; [|congruence].
  apply app_inj_1 in H as [H3 H4]; [|by len].
  apply be_bytes_inj in H1, H3, H4; try tauto.
  split_and!; try done. destruct iss, iss'; cbn in *; congruence.
Qed.

Lemma binding_message_inj_witness :
  7 = 3 + 4 /\ replicate 32 1 = replicate 32 1 /\ (5, 6) = (5, 6).
Proof.
  apply (binding_message_inj 7 (3 + 4) (replicate 32 1) (replicate 32 1) (5, 6) (5, 6));
    solve [reflexivity | vm_compute; split; congruence | split; vm_compute; split; congruence].
Defined.

(** Persistence.  Restoring the entries and tombstones of a registry, in
    whatever order the entries were written, gives back its entries and its
    public-key index. *)
Theorem restore_entries (r fresh : Registry) (es : list NodeEntry)
  (Hr : wf r) (Hes : es ≡ₚ (map_to_list (entries r)).*2) :
  let r' := restore fresh es (consumed_one_time r) in
  entries r' = entries r /\ pubkeys r' = pubkeys r /\ consumed_one_time r' = consumed_one_time r.
Proof.
  destruct Hr as [He Hp _ _].
  assert (Hin : forall e, e ∈ es <-> entries r !! node_id e = Some e).
  { intros e. rewrite Hes. rewrite list_elem_of_fmap. split.
    - intros ([i x] & -> & Hx%elem_of_map_to_list). cbn. by destruct (He _ _ Hx) as [-> _].
    - intros H. exists (node_id e, e). split; [done|]. by apply elem_of_map_to_list. }
  assert (Hnd : NoDup (node_id <$> es)).
  { rewrite Hes. rewrite <- list_fmap_compose.
    erewrite list_fmap_ext; [apply NoDup_fst_map_to_list|]. intros i [j x] Hx. cbn.
    apply list_elem_of_lookup_2, elem_of_map_to_list in Hx. by destruct (He _ _ Hx). }
  assert (Hnp : NoDup (static_pubkey <$> es)).
  { apply NoDup_fmap_2_strong; [|by eapply NoDup_fmap_1].
    intros x y Hx%Hin Hy%Hin Heq. destruct (He _ _ Hx) as [_ Hx'], (He _ _ Hy) as [_ Hy'].
    rewrite Heq in Hx'. rewrite Hx' in Hy'. injection Hy' as Hid. rewrite Hid in Hx. congruence. }
  unfold restore.
  rewrite restore_foldl. cbn. split_and!; [| |done]; apply map_eq; intros k; apply option_eq; intros v.
  - rewrite (foldl_insert_lookup node_id (fun e => e)); [|done|by intros; apply lookup_empty].
    rewrite lookup_empty. setoid_rewrite Hin. split.
    + by intros [(x & Hx & <- & <-)|?].
    + intros Hv. left. exists v. destruct (He _ _ Hv) as [<- _]. done.
  - rewrite (foldl_insert_lookup static_pubkey node_id); [|done|by intros; apply lookup_empty].
    rewrite lookup_empty. setoid_rewrite Hin. split.
    + intros [(x & Hx & <- & <-)|?]; [|done]. by apply He.
    + intros Hv. left. destruct (Hp _ _ Hv) as (e & Hx & Hs). exists e.
      destruct (He _ _ Hx) as [-> _]. done.
Qed.

(** ** A concrete registry *)

#[export] Instance toy_signer : IdentitySigner := {
  sign m := m;
  verify m b := bool_decide (m = b)
}.

#[export] Instance toy_signer_laws : SignerLaws toy_signer.
Proof. intros m. by apply bool_decide_eq_true. Qed.

Definition sample0 : Registry :=
  add_auth_key_spec (set_announce_whitelist (new 1) [sample_prefix 14]) "k" (simple OneTime).

Definition sample1 : Registry :=
  match register sample0 "k" (replicate 32 9) 0 ["172.20.0.0/16"] 7 (1, 1) with
  | Ok (_, r) => r
  | _ => sample0
  end.

Lemma sample_register :
  register sample0 "k" (replicate 32 9) 0 ["172.20.0.0/16"] 7 (1, 1) = Ok (NewNode 7, sample1).
Proof. vm_compute. reflexivity. Qed.

Lemma sample_steps0 :
  steps (new 1) [SetWhitelist [sample_prefix 14]; AddKey "k" (simple OneTime)] sample0.
Proof.
  eapply steps_cons; [apply step_whitelist; fall; apply sample_prefix_ok; auto|].
  eapply steps_cons; [apply step_add|]. constructor.
Qed.

Lemma sample0_wf : wf sample0.
Proof. eapply steps_preserve_wf; [apply registry_new_wf | apply sample_steps0]. Qed.

Lemma sample1_wf : wf sample1.
Proof. eapply register_preserves_wf; [apply sample0_wf | reflexivity | apply sample_register]. Qed.

Lemma registry_invariant_witness :
  wf sample0 /\ forall k pk c rs id iss, safe (register sample0 k pk c rs id iss).
Proof. apply (registry_invariant 1 _ sample0 sample_steps0). Defined.

Lemma one_time_key_once_witness :
  register (add_auth_key_spec sample1 "k" (simple Reusable)) "k" (replicate 32 8) 0 [] 8 (2, 1)
  = Err InvalidAuthKey.
Proof.
  apply (one_time_key_once sample0 sample1 _ "k" (replicate 32 9) 0 ["172.20.0.0/16"] 7 (1, 1)
           [AddKey "k" (simple Reusable)] None);
    [exact sample0_wf | reflexivity | reflexivity | exact sample_register |].
  eapply steps_cons; [apply step_add | apply steps_nil].
Defined.

Lemma register_new_node_witness :
  (exists e, entries sample1 !! 7 = Some e /\ node_id_by_pubkey sample1 (replicate 32 9) = Some 7 /\
     routes e = ["172.20.0.0/16"] /\ network_id e = net_id sample0 /\
     verify (binding_message 7 (replicate 32 9) (1, 1)) (identity_binding e) = true) /\
  forall route, route ∈ ["172.20.0.0/16"] ->
    exists p q, parse route = Ok p /\ q ∈ announce_whitelist sample0 /\
    forall a, ip_ok a -> matches p a = true -> matches q a = true.
Proof.
  apply (register_new_node sample0 sample1 "k" (replicate 32 9) 0 ["172.20.0.0/16"] 7 (1, 1));
    [exact sample0_wf | exact sample_register].
Defined.

Lemma restore_entries_witness :
  let r' := restore (new 1) ((map_to_list (entries sample1)).*2) (consumed_one_time sample1) in
  entries r' = entries sample1 /\ pubkeys r' = pubkeys sample1 /\
  consumed_one_time r' = consumed_one_time sample1.
Proof. apply (restore_entries sample1 (new 1)); [exact sample1_wf | reflexivity]. Defined.

End Registry.
