(* ===== verification/AuthKey.v ===== *)
(** * Auth keys (rill-coord/src/authkey)

    The text format [lrk-<network>-<expiry>-<secret>], its base32 secret, the
    expiry test and the durations of the command line.  A string is its UTF-8
    bytes; the clock and the random secret are arguments. *)

From S2P Require Import Prelude Net.
From Stdlib Require Import Ascii.

#[local] Arguments String.append : simpl nomatch.

Module AuthKey.
Import Net.

Inductive AuthKeyError :=
| BadPrefix
| BadFormat
| BadNetwork
| BadExpiry
| BadSecretLen
| BadSecret.

#[export] Instance AuthKeyError_eq_dec : EqDecision AuthKeyError.
Proof. solve_decision. Defined.

Definition AUTH_KEY_PREFIX : string := "lrk-".
Definition AUTH_KEY_SECRET_LEN : nat := 32.
Definition AUTH_KEY_SECRET_CHARS : nat := 52.
Definition AUTH_KEY_DEFAULT_TTL_SECS : Z := 24 * 3600.

(** ** Base32 *)

Definition BASE32_ALPHABET : list ascii := String.list_ascii_of_string "ABCDEFGHIJKLMNOPQRSTUVWXYZ234567".

(** [BASE32_ALPHABET[v]]; every index below is masked to 5 bits. *)
Definition symbol (v : Z) : ascii := default "A"%char (BASE32_ALPHABET !! Z.to_nat v).

(** [BASE32_ALPHABET.iter().position(|&a| a == c)]. *)
Definition position (c : ascii) : option Z :=
  Z.of_nat ∘ fst <$> list_find (fun a => a = c) BASE32_ALPHABET.

(** [while bits >= 5]: each turn takes five bits, so [bits] turns are enough. *)
Fixpoint drain (fuel : nat) (buffer : Z) (bits : nat) (out : list ascii) : nat * list ascii :=
  match fuel with
  | O => (bits, out)
  | S fuel =>
      if decide (5 <= bits)%nat then
        let bits := (bits - 5)%nat in
        drain fuel buffer bits
          (out ++ [symbol (Z.land (Z.shiftr buffer (Z.of_nat bits)) 0x1f)])
      else (bits, out)
  end.

Fixpoint encode_loop (data : list Z) (buffer : Z) (bits : nat) (out : list ascii)
    : Z * nat * list ascii :=
  match data with
  | [] => (buffer, bits, out)
  | b :: data =>
      let buffer := wrap 64 (Z.lor (Z.shiftl buffer 8) b) in
      let bits := (bits + 8)%nat in
      let '(bits, out) := drain bits buffer bits out in
      encode_loop data buffer bits out
  end.

Definition base32_encode (data : list Z) : string :=
  let '(buffer, bits, out) := encode_loop data 0 0 [] in
  String.string_of_list_ascii
    (if decide (0 < bits)%nat
     then out ++ [symbol (Z.land (wrap 64 (Z.shiftl buffer (5 - Z.of_nat bits))) 0x1f)]
     else out).

Fixpoint decode_loop (s : list ascii) (buffer : Z) (bits : nat) (out : list Z)
    : option (Z * nat * list Z) :=
  match s with
  | [] => Some (buffer, bits, out)
  | c :: s =>
      v ← position c;
      let buffer := wrap 64 (Z.lor (Z.shiftl buffer 5) v) in
      let bits := (bits + 5)%nat in
      if decide (8 <= bits)%nat then
        let bits := (bits - 8)%nat in
        decode_loop s buffer bits (out ++ [wrap 8 (Z.shiftr buffer (Z.of_nat bits))])
      else decode_loop s buffer bits out
  end.

Definition base32_decode (s : string) : option (list Z) :=
  '(buffer, bits, out) ← decode_loop (String.list_ascii_of_string s) 0 0 [];
  if decide ((0 < bits)%nat /\ Z.land buffer (Z.shiftl 1 (Z.of_nat bits) - 1) <> 0) then None
  else Some out.

(** ** Keys *)

Definition is_lower_or_digit (c : ascii) : bool :=
  bool_decide (97 <= code c <= 122) || bool_decide (48 <= code c <= 57).

Definition validate_network (network : string) : outcome AuthKeyError unit :=
  if bool_decide (network = EmptyString)
     || negb (forallb is_lower_or_digit (String.list_ascii_of_string network))
  then Err BadNetwork else Ok tt.

Definition generate_auth_key (now : Z) (secret : list Z) (network : string) (ttl_secs : Z)
    : outcome AuthKeyError string :=
  _ ← validate_network network;
  let expiry := if decide (ttl_secs = 0) then 0 else sat_add 64 now ttl_secs in
  Ok (AUTH_KEY_PREFIX +:+ network +:+ "-" +:+ dec expiry +:+ "-" +:+ base32_encode secret).

(** [str::strip_prefix]. *)
Fixpoint strip_prefix (p s : string) : option string :=
  match p, s with
  | EmptyString, _ => Some s
  | String a p, String b s => if decide (a = b) then strip_prefix p s else None
  | String _ _, EmptyString => None
  end.

Definition parse_auth_key (key : string) : outcome AuthKeyError (string * Z * string) :=
  rest ← ok_or BadPrefix (strip_prefix AUTH_KEY_PREFIX key);
  '(network, tail) ← ok_or BadFormat (split_once "-" rest);
  '(expiry, secret) ← ok_or BadFormat (split_once "-" tail);
  _ ← validate_network network;
  expiry ← ok_or BadExpiry (parse_uint (2 ^ 64 - 1) expiry);
  if decide (String.length secret <> AUTH_KEY_SECRET_CHARS) then Err BadSecretLen
  else
    decoded ← ok_or BadSecret (base32_decode secret);
    if decide (length decoded <> AUTH_KEY_SECRET_LEN) then Err BadSecretLen
    else Ok (network, expiry, secret).

Definition is_expired (key : string) (now : Z) : bool :=
  match parse_auth_key key with
  | Ok (_, expiry, _) => bool_decide (expiry <> 0) && bool_decide (now > expiry)
  | _ => false
  end.

(** [str::is_char_boundary] at an index inside: not a continuation byte. *)
Definition is_boundary (b : ascii) : bool := negb (bool_decide (128 <= code b <= 191)).

Definition parse_duration (s : string) : outcome AuthKeyError Z :=
  if decide (s = "0") then Ok 0
  else
    match list.last (String.list_ascii_of_string s) with
    | None => Panic
    | Some u =>
        if negb (is_boundary u) then Panic
        else
          let num := String.string_of_list_ascii (removelast (String.list_ascii_of_string s)) in
          num ← ok_or BadExpiry (parse_uint (2 ^ 64 - 1) num);
          mult ←
            (if decide (u = "s"%char) then Ok 1
             else if decide (u = "m"%char) then Ok 60
             else if decide (u = "h"%char) then Ok 3600
             else if decide (u = "d"%char) then Ok 86400
             else Err BadExpiry);
          Ok (sat_mul 64 num mult)
    end.

(** ** Bit strings *)

(** The [w] low bits of [z], most significant first. *)
Fixpoint bits_of (w : nat) (z : Z) : list bool :=
  match w with
  | O => []
  | S w => Z.testbit z (Z.of_nat w) :: bits_of w z
  end.

Lemma length_bits_of w z : length (bits_of w z) = w.
Proof. induction w; cbn; auto. Qed.

Lemma bits_of_ext w x y : (forall i, 0 <= i < Z.of_nat w -> Z.testbit x i = Z.testbit y i) ->
  bits_of w x = bits_of w y.
Proof.
  induction w as [|w IH]; intros H; cbn; [done|]. rewrite (H (Z.of_nat w)) by lia.
  f_equal. apply IH. intros. apply H. lia.
Qed.

Lemma bits_of_app a b z :
  bits_of (a + b) z = bits_of a (Z.shiftr z (Z.of_nat b)) ++ bits_of b z.
Proof.
  induction a as [|a IH]; cbn; [done|]. rewrite IH, Z.shiftr_spec by lia. do 2 f_equal. lia.
Qed.

Lemma bits_of_inj w x y : is_uint (Z.of_nat w) x -> is_uint (Z.of_nat w) y ->
  bits_of w x = bits_of w y -> x = y.
Proof.
  intros Hx Hy H. rewrite <- (wrap_small _ _ Hx), <- (wrap_small _ _ Hy). unfold wrap.
  apply Z.bits_inj'. intros i Hi. destruct (decide (i < Z.of_nat w)).
  - rewrite !Z.mod_pow2_bits_low by lia. clear Hx Hy. induction w as [|w IH]; [lia|].
    cbn in H. injection H as Hb H. destruct (decide (i = Z.of_nat w)) as [->|]; [done|].
    apply IH; [done|lia].
  - by rewrite !Z.mod_pow2_bits_high by lia.
Qed.

Lemma bits_of_mask w z n : (w <= n)%nat -> bits_of w (Z.land z (Z.ones (Z.of_nat n))) = bits_of w z.
Proof.
  intros Hw. apply bits_of_ext. intros i Hi. rewrite Z.land_spec, Z.ones_spec_low by lia.
  apply andb_true_r.
Qed.

Lemma bits_of_wrap w z n : (w <= n)%nat -> bits_of w (wrap (Z.of_nat n) z) = bits_of w z.
Proof. intros. unfold wrap. rewrite <- Z.land_ones by lia. by apply bits_of_mask. Qed.

(** Shifting in [k] more bits. *)
Lemma bits_of_shift_in w k buf v : (w + k <= 64)%nat -> is_uint (Z.of_nat k) v ->
  bits_of (w + k) (wrap 64 (Z.lor (Z.shiftl buf (Z.of_nat k)) v)) = bits_of w buf ++ bits_of k v.
Proof.
  intros Hw Hv. rewrite (bits_of_wrap _ _ 64) by lia. rewrite bits_of_app. f_equal.
  - f_equal. rewrite Z.shiftr_lor, Z.shiftr_shiftl_l, Z.sub_diag, Z.shiftl_0_r by lia.
    rewrite (Z.shiftr_div_pow2 v) by lia. rewrite Z.div_small by exact Hv. apply Z.lor_0_r.
  - apply bits_of_ext. intros i Hi. rewrite Z.lor_spec, Z.shiftl_spec_low by lia. done.
Qed.

Lemma bits_of_zero w z : Z.land z (Z.ones (Z.of_nat w)) = 0 <-> bits_of w z = replicate w false.
Proof.
  assert (E0 : forall n, bits_of n 0 = replicate n false).
  { induction n; cbn; [done|]. by rewrite Z.testbit_0_l, IHn. }
  rewrite <- E0, <- (bits_of_mask w z w) by lia. split; [by intros ->|]. intros H.
  eapply bits_of_inj; [|split; [lia|]|exact H]; [|apply Z.pow_pos_nonneg; lia].
  rewrite Z.land_ones by lia. apply (wrap_uint (Z.of_nat w)). lia.
Qed.

(** Groups of [w] bits. *)
Definition stream (w : nat) (vs : list Z) : list bool := concat (bits_of w <$> vs).

Lemma stream_app w a b : stream w (a ++ b) = stream w a ++ stream w b.
Proof. unfold stream. by rewrite fmap_app, concat_app. Qed.

Lemma stream_one w v : stream w [v] = bits_of w v.
Proof. apply app_nil_r. Qed.

Lemma length_stream w vs : length (stream w vs) = (w * length vs)%nat.
Proof.
  induction vs as [|v vs IH]; cbn; [lia|]. unfold stream in *. cbn.
  rewrite length_app, length_bits_of, IH. lia.
Qed.

Lemma stream_inj w a b : Forall (is_uint (Z.of_nat w)) a -> Forall (is_uint (Z.of_nat w)) b ->
  length a = length b -> stream w a = stream w b -> a = b.
Proof.
  intros Ha. revert b. induction Ha as [|x a Hx Ha IH]; intros b Hb Hl H; destruct b as [|y b]; try done.
  inversion Hb as [|? ? Hy Hb']; subst. unfold stream in H. cbn in H.
  apply app_inj_1 in H as [H1 H2]; [|by rewrite !length_bits_of].
  f_equal; [by eapply bits_of_inj|]. apply IH; [done| |done]. by injection Hl.
Qed.

(** ** The alphabet *)

Abbreviation u5 := (is_uint 5).

Definition values : list Z := Z.of_nat <$> seq 0 32.

Lemma u5_values v : u5 v -> v ∈ values.
Proof.
  intros Hv. apply list_elem_of_fmap. exists (Z.to_nat v). split; [uint|]. apply elem_of_seq. uint.
Qed.

Lemma position_symbol v : u5 v -> position (symbol v) = Some v.
Proof.
  intros Hv%u5_values.
  assert (H : forallb (fun v => bool_decide (position (symbol v) = Some v)) values = true)
    by (vm_compute; reflexivity).
  rewrite forallb_forall in H. by apply list_elem_of_In, H, bool_decide_eq_true in Hv.
Qed.

Lemma symbol_position c v : position c = Some v -> symbol v = c /\ u5 v.
Proof.
  unfold position. destruct (list_find _ _) as [[i a]|] eqn:E; [|done].
  intros [= <-]. apply list_find_Some in E as (Hi & -> & _). unfold symbol.
  rewrite Nat2Z.id, Hi. split; [done|]. apply lookup_lt_Some in Hi.
  change (length BASE32_ALPHABET) with 32%nat in Hi. uint.
Qed.

Lemma land_u5 z : u5 (Z.land z 31).
Proof. change 31 with (Z.ones 5). rewrite Z.land_ones by lia. apply (wrap_uint 5). lia. Qed.

(** ** Encoding and decoding keep the bits *)

Lemma drain_spec buffer : forall fuel bits out, (bits <= 5 * fuel)%nat -> exists vs n,
  drain fuel buffer bits out = (n, out ++ (symbol <$> vs)) /\ Forall u5 vs /\ (n < 5)%nat /\
  stream 5 vs ++ bits_of n buffer = bits_of bits buffer.
Proof.
  induction fuel as [|fuel IH]; intros bits out Hf; cbn [drain].
  { exists [], bits. cbn. rewrite app_nil_r. split_and!; [done|constructor|lia|done]. }
  destruct (decide _).
  - set (v := Z.land _ _).
    destruct (IH (bits - 5)%nat (out ++ [symbol v])) as (vs & n & -> & Hvs & Hn & Hs); [lia|].
    exists (v :: vs), n. cbn [fmap list_fmap]. rewrite <- app_assoc.
    split_and!; [done|constructor; [apply land_u5|done]|done|].
    change (v :: vs) with ([v] ++ vs). rewrite stream_app, stream_one, <- app_assoc, Hs.
    replace bits with (5 + (bits - 5))%nat at 2 by lia. rewrite bits_of_app. f_equal.
    apply (bits_of_mask 5 _ 5). lia.
  - exists [], bits. cbn. rewrite app_nil_r. split_and!; [done|constructor|lia|done].
Qed.

Lemma encode_loop_spec data : bytes data -> forall buffer bits out, (bits < 5)%nat -> exists vs buffer' n,
  encode_loop data buffer bits out = (buffer', n, out ++ (symbol <$> vs)) /\ Forall u5 vs /\
  (n < 5)%nat /\ stream 5 vs ++ bits_of n buffer' = bits_of bits buffer ++ stream 8 data.
Proof.
  induction 1 as [|b data Hb _ IH]; intros buffer bits out Hn; cbn [encode_loop].
  { exists [], buffer, bits. cbn. rewrite !app_nil_r. split_and!; [done|constructor|done|done]. }
  set (buf := wrap 64 _).
  destruct (drain_spec buf (bits + 8) (bits + 8) out) as (vs & n & -> & Hvs & Hn' & Hs); [lia|].
  destruct (IH buf n (out ++ (symbol <$> vs)) Hn') as (vs' & buf' & n' & -> & Hvs' & Hn'' & Hs').
  exists (vs ++ vs'), buf', n'. rewrite fmap_app, <- app_assoc.
  split_and!; [done|by apply list.Forall_app|done|].
  rewrite stream_app, <- app_assoc, Hs', app_assoc, Hs.
  change (b :: data) with ([b] ++ data). rewrite stream_app, stream_one, app_assoc. f_equal.
  apply (bits_of_shift_in bits 8); [lia|done].
Qed.

(** Encoding: symbols whose bits are those of the data, zero bits at the end. *)
Lemma base32_encode_spec data : bytes data -> exists vs pad,
  base32_encode data = String.string_of_list_ascii (symbol <$> vs) /\ Forall u5 vs /\ (pad < 5)%nat /\
  stream 5 vs = stream 8 data ++ replicate pad false.
Proof.
  intros Hd. unfold base32_encode.
  destruct (encode_loop_spec data Hd 0 0 []) as (vs & buf & n & -> & Hvs & Hn & Hs); [lia|].
  cbn [app bits_of] in *. destruct (decide _).
  - set (v := Z.land _ _). exists (vs ++ [v]), (5 - n)%nat. rewrite fmap_app.
    split_and!; [done|apply list.Forall_app; split; [done|by apply Forall_singleton, land_u5]|lia|].
    rewrite stream_app, stream_one, <- Hs, <- app_assoc. f_equal. unfold v.
    rewrite (bits_of_mask 5 _ 5), (bits_of_wrap 5 _ 64) by lia.
    replace 5%nat with (n + (5 - n))%nat at 1 by lia. rewrite bits_of_app.
    replace (5 - Z.of_nat n) with (Z.of_nat (5 - n)) by lia. f_equal.
    + f_equal. rewrite Z.shiftr_shiftl_l, Z.sub_diag by lia. apply Z.shiftl_0_r.
    + apply bits_of_zero. rewrite Z.land_ones, Z.shiftl_mul_pow2 by lia. apply Z_mod_mult.
  - exists vs, 0%nat. replace n with 0%nat in Hs by lia. cbn in *. rewrite app_nil_r in *.
    split_and!; [done|done|lia|done].
Qed.

Lemma decode_loop_spec vs : Forall u5 vs -> forall buffer bits out, (bits < 8)%nat ->
  exists buffer' n bs, decode_loop (symbol <$> vs) buffer bits out = Some (buffer', n, out ++ bs) /\
    bytes bs /\ (n < 8)%nat /\ stream 8 bs ++ bits_of n buffer' = bits_of bits buffer ++ stream 5 vs.
Proof.
  induction 1 as [|v vs Hv _ IH]; intros buffer bits out Hn; cbn [fmap list_fmap decode_loop].
  { exists buffer, bits, []. cbn. rewrite !app_nil_r. split_and!; [done|constructor|done|done]. }
  rewrite position_symbol by done. step. set (buf := wrap 64 _).
  assert (Hin : bits_of (bits + 5) buf = bits_of bits buffer ++ bits_of 5 v).
  { apply (bits_of_shift_in bits 5); [lia|done]. }
  change (v :: vs) with ([v] ++ vs). rewrite stream_app, stream_one, app_assoc, <- Hin.
  destruct (decide _).
  - set (m := (bits + 5 - 8)%nat). set (b := wrap 8 _).
    destruct (IH buf m (out ++ [b])) as (buf' & n & bs & -> & Hbs & Hn' & Hs); [unfold m; lia|].
    exists buf', n, (b :: bs). rewrite <- app_assoc.
    split_and!; [done|constructor; [apply wrap_uint; lia|done]|done|].
    change (b :: bs) with ([b] ++ bs). rewrite stream_app, stream_one, <- app_assoc, Hs, app_assoc.
    f_equal. replace (bits + 5)%nat with (8 + m)%nat by (unfold m; lia). rewrite bits_of_app. f_equal.
    apply (bits_of_wrap 8 _ 8). lia.
  - apply IH. lia.
Qed.

Lemma base32_decode_spec vs : Forall u5 vs -> exists bs rest, bytes bs /\ (length rest < 8)%nat /\
  stream 8 bs ++ rest = stream 5 vs /\
  base32_decode (String.string_of_list_ascii (symbol <$> vs))
  = if decide (rest = replicate (length rest) false) then Some bs else None.
Proof.
  intros Hvs. unfold base32_decode. rewrite String.list_ascii_of_string_of_list_ascii.
  destruct (decode_loop_spec vs Hvs 0 0 []) as (buf & n & bs & -> & Hbs & Hn & Hs); [lia|]. step.
  exists bs, (bits_of n buf). rewrite length_bits_of. split_and!; [done|done|done|].
  rewrite Z.shiftl_1_l, Z.sub_1_r, <- Z.ones_equiv. pose proof (bits_of_zero n buf) as Hz.
  destruct (decide (bits_of n buf = _)) as [E|E].
  - rewrite decide_False; [done|]. tauto.
  - rewrite decide_True; [done|]. split; [|tauto]. destruct n; [done|lia].
Qed.

Lemma base32_roundtrip data : bytes data -> base32_decode (base32_encode data) = Some data.
Proof.
  intros Hd. destruct (base32_encode_spec data Hd) as (vs & pad & -> & Hvs & Hp & Hs).
  destruct (base32_decode_spec vs Hvs) as (bs & rest & Hbs & Hr & E & ->). rewrite Hs in E.
  assert (Hl : length (stream 8 bs ++ rest) = length (stream 8 data ++ replicate pad false)) by by rewrite E.
  rewrite !length_app, !length_stream, length_replicate in Hl.
  apply app_inj_1 in E as [E ->]; [|rewrite !length_stream; lia].
  rewrite length_replicate, decide_True by done. f_equal.
  apply (stream_inj 8); [done|done|lia|done].
Qed.

Lemma length_base32_encode data : bytes data ->
  (8 * length data <= 5 * String.length (base32_encode data) < 8 * length data + 5)%nat.
Proof.
  intros Hd. destruct (base32_encode_spec data Hd) as (vs & pad & -> & _ & Hp & Hs).
  apply (f_equal length) in Hs. rewrite length_app, !length_stream, length_replicate in Hs.
  assert (H : forall l, String.length (String.string_of_list_ascii l) = length l)
    by (induction l; cbn; auto).
  rewrite H, length_fmap. lia.
Qed.

(** ** Decimal numbers *)

Lemma digit_char_facts d : 0 <= d < 10 ->
  to_digit 10 (digit_char d) = Some d /\ digit_char d <> "+"%char /\ digit_char d <> "-"%char.
Proof.
  intros Hd. assert (Hin : d ∈ Z.of_nat <$> seq 0 10).
  { apply list_elem_of_fmap. exists (Z.to_nat d). split; [lia|]. apply elem_of_seq. lia. }
  assert (H : forallb (fun d => bool_decide (to_digit 10 (digit_char d) = Some d /\
    digit_char d <> "+"%char /\ digit_char d <> "-"%char)) (Z.of_nat <$> seq 0 10) = true)
    by (vm_compute; reflexivity).
  rewrite forallb_forall in H. by apply list_elem_of_In, H, bool_decide_eq_true in Hin.
Qed.

Lemma show_digits_S fuel z acc : show_digits (S fuel) 10 z acc =
  if decide (z / 10 = 0) then String (digit_char (z mod 10)) acc
  else show_digits fuel 10 (z / 10) (String (digit_char (z mod 10)) acc).
Proof. done. Qed.

(** Reading the last digit. *)
Lemma parse_digits_last max z acc : 0 <= z <= max ->
  parse_digits max (z / 10) (String (digit_char (z mod 10)) acc) = parse_digits max z acc.
Proof.
  intros Hz. pose proof (Z.mod_pos_bound z 10 ltac:(lia)) as Hm.
  pose proof (Z.div_mod z 10 ltac:(lia)) as Hd.
  cbn [parse_digits]. rewrite (proj1 (digit_char_facts _ Hm)). step.
  replace (z / 10 * 10 + z mod 10) with z by lia. by rewrite decide_True by lia.
Qed.

Lemma parse_show_digits fuel max : forall z acc, 0 <= z < 10 ^ Z.of_nat (S fuel) -> z <= max ->
  parse_digits max 0 (show_digits (S fuel) 10 z acc) = parse_digits max z acc.
Proof.
  induction fuel as [|fuel IH]; intros z acc Hz Hmax; rewrite show_digits_S; destruct (decide _) as [E|E].
  1,3: rewrite <- E; apply parse_digits_last; lia.
  - change (10 ^ Z.of_nat 1) with 10 in Hz. rewrite Z.div_small in E by lia. done.
  - rewrite IH; [apply parse_digits_last; lia | | ].
    + rewrite Nat2Z.inj_succ, Z.pow_succ_r in Hz by lia.
      split; [apply Z.div_pos; lia|]. apply Z.div_lt_upper_bound; lia.
    + apply Z.div_le_upper_bound; lia.
Qed.

Lemma show_digits_head fuel z acc : 0 <= z -> exists c s,
  show_digits (S fuel) 10 z acc = String c s /\ c <> "+"%char.
Proof.
  revert z acc. induction fuel as [|fuel IH]; intros z acc Hz; rewrite show_digits_S;
    pose proof (Z.mod_pos_bound z 10 ltac:(lia)) as Hm; pose proof (digit_char_facts _ Hm) as (_ & ? & _).
  - destruct (decide _); cbn; eauto.
  - destruct (decide _); [by eauto|]. apply IH. by apply Z.div_pos.
Qed.

Lemma show_digits_no_dash fuel : forall z acc, 0 <= z -> no_char "-" acc = true ->
  no_char "-" (show_digits fuel 10 z acc) = true.
Proof.
  induction fuel as [|fuel IH]; intros z acc Hz Ha; cbn [show_digits]; [done|].
  pose proof (Z.mod_pos_bound z 10 ltac:(lia)) as Hm. destruct (digit_char_facts _ Hm) as (_ & _ & Hd).
  assert (Hs : no_char "-" (String (digit_char (z mod 10)) acc) = true).
  { cbn [no_char]. by rewrite bool_decide_false, Ha. }
  destruct (decide _); [done|]. apply IH; [by apply Z.div_pos|done].
Qed.

Lemma parse_dec z : u64 z -> parse_uint (2 ^ 64 - 1) (dec z) = Some z.
Proof.
  intros Hz. unfold dec. destruct (show_digits_head 63 z EmptyString) as (c & s & E & Hc); [apply Hz|].
  pose proof (parse_show_digits 63 (2 ^ 64 - 1) z EmptyString) as Hp.
  rewrite E in *. unfold parse_uint. rewrite decide_False by done. rewrite Hp; [done| |uint].
  assert (2 ^ 64 < 10 ^ Z.of_nat 64) by (vm_compute; reflexivity). uint.
Qed.

(** ** Properties *)

Lemma strip_prefix_app p s : strip_prefix p (p +:+ s) = Some s.
Proof. induction p as [|c p IH]; cbn [strip_prefix String.append]; [by destruct s|]. by rewrite decide_True. Qed.

Lemma network_no_dash n : forallb is_lower_or_digit (String.list_ascii_of_string n) = true ->
  no_char "-" n = true.
Proof.
  induction n as [|c n IH]; cbn [String.list_ascii_of_string forallb no_char]; [done|].
  intros [Hc Hn]%andb_true_iff. rewrite IH by done. rewrite bool_decide_false; [done|].
  intros ->. vm_compute in Hc. discriminate.
Qed.

(** A generated key is accepted.  For every valid network name, 32-byte secret,
    time and lifetime, generation gives a key that parses to the network, the
    expiry and the base32 text of the secret, which decodes to the secret; the
    key never expires for lifetime 0, and otherwise is expired exactly after
    the (saturating) sum of the time and the lifetime, if that is not 0. *)
Theorem auth_key_roundtrip (now ttl : Z) (secret : list Z) (network : string)
  (Hnow : u64 now) (Httl : u64 ttl) (Hb : bytes secret) (Hlen : length secret = AUTH_KEY_SECRET_LEN)
  (Hn : validate_network network = Ok tt) :
  let expiry := if decide (ttl = 0) then 0 else sat_add 64 now ttl in
  exists key, generate_auth_key now secret network ttl = Ok key /\
    parse_auth_key key = Ok (network, expiry, base32_encode secret) /\
    base32_decode (base32_encode secret) = Some secret /\
    forall t, is_expired key t = bool_decide (expiry <> 0) && bool_decide (t > expiry).
Proof.
  intros expiry. unfold generate_auth_key. rewrite Hn. step. fold expiry.
  assert (He : u64 expiry).
  { unfold expiry, sat_add. destruct (decide _); uint. }
  pose proof (base32_roundtrip secret Hb) as Hdec. pose proof (length_base32_encode secret Hb) as Hl.
  set (key := _ +:+ _). set (enc := base32_encode secret) in *.
  assert (Hp : parse_auth_key key = Ok (network, expiry, enc)).
  { unfold parse_auth_key, key. rewrite strip_prefix_app. step.
    assert (Hd : no_char "-" network = true).
    { unfold validate_network in Hn. destruct (bool_decide _ || _) eqn:E; [done|].
      apply orb_false_iff in E as [_ E]. by apply network_no_dash, negb_false_iff. }
    change (network +:+ "-" +:+ dec expiry +:+ "-" +:+ enc)
      with (network +:+ String "-" (dec expiry +:+ String "-" enc)).
    rewrite split_once_app by done. step.
    rewrite split_once_app by (apply show_digits_no_dash; [apply He|done]). step.
    rewrite Hn. step. rewrite parse_dec by done. step.
    unfold AUTH_KEY_SECRET_LEN, AUTH_KEY_SECRET_CHARS in *.
    rewrite decide_False by lia. rewrite Hdec. step. by rewrite decide_False by lia. }
  exists key. split_and!; [done|done|done|]. intros t. unfold is_expired. by rewrite Hp.
Qed.

Lemma auth_key_roundtrip_witness :
  exists key, generate_auth_key 1700000000 (replicate 32 171) "lab7" 3600 = Ok key /\
    parse_auth_key key = Ok ("lab7", 1700003600, base32_encode (replicate 32 171)) /\
    base32_decode (base32_encode (replicate 32 171)) = Some (replicate 32 171) /\
    forall t, is_expired key t = bool_decide (1700003600 <> 0) && bool_decide (t > 1700003600).
Proof.
  apply (auth_key_roundtrip 1700000000 3600 (replicate 32 171) "lab7");
    [split; vm_compute; congruence | split; vm_compute; congruence
    | apply Forall_replicate; split; vm_compute; congruence | reflexivity | reflexivity].
Defined.

(** One secret has one spelling: 52 characters that decode are the encoding. *)
Lemma secret_canonical s d : String.length s = AUTH_KEY_SECRET_CHARS ->
  base32_decode s = Some d -> base32_encode d = s /\ length d = AUTH_KEY_SECRET_LEN.
Proof.
  intros Hl Hd.
  assert (Hv : exists vs, String.list_ascii_of_string s = symbol <$> vs /\ Forall u5 vs).
  { unfold base32_decode in Hd. destruct (decode_loop _ 0 0 []) as [r|] eqn:E; [|done]. clear Hd Hl.
    revert E. generalize 0 at 1, 0%nat, (@nil Z). generalize (String.list_ascii_of_string s).
    induction l as [|c l IH]; intros buf n out E; [by exists []|]. cbn [decode_loop] in E.
    destruct (position c) as [v|] eqn:Ec; [|done]. step in E.
    destruct (symbol_position _ _ Ec) as [<- Hv].
    assert (Hr : exists vs, l = symbol <$> vs /\ Forall u5 vs) by (destruct (decide _); by eapply IH).
    destruct Hr as (vs & -> & Hvs). exists (v :: vs). split; [done|by constructor]. }
  destruct Hv as (vs & Es & Hvs).
  assert (Es' : s = String.string_of_list_ascii (symbol <$> vs))
    by (rewrite <- Es; symmetry; apply String.string_of_list_ascii_of_string).
  assert (Hlv : length vs = 52%nat).
  { assert (H : forall s, length (String.list_ascii_of_string s) = String.length s)
      by (induction s0; cbn; auto).
    by rewrite <- (length_fmap symbol), <- Es, H. }
  destruct (base32_decode_spec vs Hvs) as (bs & rest & Hbs & Hr & E & Ed). rewrite <- Es', Hd in Ed.
  destruct (decide _) as [Hz|]; [injection Ed as ->|done].
  destruct (base32_encode_spec bs Hbs) as (vs' & pad & -> & Hvs' & Hp & E').
  pose proof (f_equal length E) as L1. pose proof (f_equal length E') as L2.
  rewrite length_app, !length_stream, Hlv in L1. rewrite length_app, !length_stream, length_replicate in L2.
  split; [|unfold AUTH_KEY_SECRET_LEN; lia]. rewrite Es'. do 2 f_equal.
  apply (stream_inj 5); [done|done|lia|]. rewrite E', <- E. f_equal. rewrite Hz. f_equal. lia.
Qed.

(** Durations.  The parser panics exactly on the empty string and on a string that
    ends in the middle of a multi-byte character; on a number and one of the
    units it gives the seconds, saturating at 2^64 - 1. *)
Theorem parse_duration_exact :
  (forall s, parse_duration s = Panic <->
     match list.last (String.list_ascii_of_string s) with
     | None => True
     | Some u => is_boundary u = false
     end) /\
  (forall n, u64 n ->
     parse_duration (dec n +:+ "s") = Ok n /\
     parse_duration (dec n +:+ "m") = Ok (Z.min (n * 60) (2 ^ 64 - 1)) /\
     parse_duration (dec n +:+ "h") = Ok (Z.min (n * 3600) (2 ^ 64 - 1)) /\
     parse_duration (dec n +:+ "d") = Ok (Z.min (n * 86400) (2 ^ 64 - 1))).
Proof.
  assert (Happ : forall s u, String.list_ascii_of_string (s +:+ String u EmptyString)
    = String.list_ascii_of_string s ++ [u]).
  { induction s as [|c s IH]; intros u; cbn [String.append String.list_ascii_of_string]; [done|].
    by rewrite IH. }
  assert (Hrun : forall n u, u64 n -> u <> "0"%char -> is_boundary u = true ->
    parse_duration (dec n +:+ String u EmptyString) =
      mult ← (if decide (u = "s"%char) then Ok 1
              else if decide (u = "m"%char) then Ok 60
              else if decide (u = "h"%char) then Ok 3600
              else if decide (u = "d"%char) then Ok 86400
              else Err BadExpiry);
      Ok (sat_mul 64 n mult)).
  { intros n u Hn Hu Hb. unfold parse_duration. rewrite decide_False.
    2:{ intros E. apply (f_equal String.list_ascii_of_string) in E. rewrite Happ in E.
        destruct (String.list_ascii_of_string (dec n)) as [|c [|? ?]]; cbn in E; by simplify_eq. }
    rewrite Happ, last_snoc, Hb, removelast_last, String.string_of_list_ascii_of_string.
    cbn [negb]. by rewrite parse_dec. }
  split.
  - intros s. unfold parse_duration. destruct (decide (s = "0")) as [->|]; [by cbn|].
    destruct (list.last _) as [u|]; [|done]. destruct (is_boundary u); cbn [negb]; [|done].
    split; [|done]. destruct (parse_uint _ _); step; [|done]. by repeat destruct (decide _).
  - intros n Hn. rewrite !Hrun by done. unfold sat_mul. step.
    split_and!; [|done..]. change (Ok (E := AuthKeyError) (Z.min (n * 1) (2 ^ 64 - 1)) = Ok n).
    f_equal. uint.
Qed.

End AuthKey.
