(* ===== verification/Coord.v ===== *)
(** * Coordinator state (rill-coord/src/liveness.rs, keys.rs, directory.rs)

    Three small stores of the coordinator: who is online ([Liveness]), the
    network keys and their version ([Keys]), and the endpoints of the nodes
    ([Directory]). *)

From S2P Require Import Prelude Crypto.
From Stdlib Require Import Ascii.

(** ** Liveness *)

Module Liveness.

Definition LEASE_EXPIRY_SECS : Z := 60.

Record Liveness := mk_liveness {
  last_seen : gmap Z Z;
  offline : list Z
}.

Definition new : Liveness := mk_liveness ∅ [].

Definition is_offline (l : Liveness) (node_id : Z) : bool := bool_decide (node_id ∈ offline l).

(** [retain(|id| *id != node_id)]. *)
Definition without (node_id : Z) (ids : list Z) : list Z :=
  List.filter (fun id => negb (bool_decide (id = node_id))) ids.

Definition heartbeat (l : Liveness) (node_id now : Z) : bool * Liveness :=
  (is_offline l node_id,
   mk_liveness (<[node_id := now]> (last_seen l)) (without node_id (offline l))).

Definition lapsed (l : Liveness) (now node_id : Z) : bool :=
  match last_seen l !! node_id with
  | Some seen => bool_decide (sat_sub now seen > LEASE_EXPIRY_SECS)
  | None => false
  end.

(** [order]: the keys of [last_seen] as the walk over the hash map visits them. *)
Definition sweep (l : Liveness) (order : list Z) (now : Z) : list Z * Liveness :=
  let expired := List.filter (fun id => negb (is_offline l id))
    (List.filter (lapsed l now) order) in
  (expired, mk_liveness (last_seen l) (offline l ++ expired)).

Definition mark_offline (l : Liveness) (node_id : Z) : bool * Liveness :=
  if is_offline l node_id then (false, l)
  else (true, mk_liveness (last_seen l) (offline l ++ [node_id])).

Definition last_seen_of (l : Liveness) (node_id : Z) : option Z := last_seen l !! node_id.

Definition remove (l : Liveness) (node_id : Z) : Liveness :=
  mk_liveness (delete node_id (last_seen l)) (without node_id (offline l)).

Inductive Op :=
| Heartbeat (node_id now : Z)
| Sweep (order : list Z) (now : Z)
| MarkOffline (node_id : Z)
| Remove (node_id : Z).

Definition apply (l : Liveness) (o : Op) : Liveness :=
  match o with
  | Heartbeat n now => snd (heartbeat l n now)
  | Sweep order now => snd (sweep l order now)
  | MarkOffline n => snd (mark_offline l n)
  | Remove n => remove l n
  end.

Definition op_ok (l : Liveness) (o : Op) : Prop :=
  match o with
  | Sweep order _ => order ≡ₚ (map_to_list (last_seen l)).*1
  | _ => True
  end.

Inductive reachable : Liveness -> Prop :=
| reach_new : reachable new
| reach_step l o : reachable l -> op_ok l o -> reachable (apply l o).

Lemma elem_of_without n m ids : m ∈ without n ids <-> m ∈ ids /\ m <> n.
Proof. unfold without. by rewrite elem_of_bfilter, negb_true_iff, bool_decide_eq_false. Qed.

Lemma without_nodup n ids : NoDup ids -> NoDup (without n ids).
Proof. intros H. eapply sublist_NoDup; [exact H|apply bfilter_sublist]. Qed.

Lemma visited (l : Liveness) order n :
  order ≡ₚ (map_to_list (last_seen l)).*1 -> n ∈ order <-> is_Some (last_seen l !! n).
Proof.
  intros ->. rewrite list_elem_of_fmap. split.
  - intros ([k v] & -> & H%elem_of_map_to_list). by exists v.
  - intros [v H]. exists (n, v). split; [done|]. by apply elem_of_map_to_list.
Qed.

Lemma expired_elem l order now n : order ≡ₚ (map_to_list (last_seen l)).*1 ->
  n ∈ fst (sweep l order now) <-> lapsed l now n = true /\ n ∉ offline l.
Proof.
  intros Ho. cbn. rewrite !elem_of_bfilter, negb_true_iff. unfold is_offline.
  rewrite bool_decide_eq_false, (visited l order) by done. split; [tauto|].
  intros [Hl Hn]. split_and!; try done. unfold lapsed in Hl. by destruct (last_seen l !! n).
Qed.

Lemma reachable_nodup l : reachable l -> NoDup (offline l).
Proof.
  induction 1 as [|l o _ IH Hok]; [constructor|].
  destruct o as [n now|order now|n|n]; cbn [apply snd heartbeat remove offline].
  - by apply without_nodup.
  - cbn. apply list.NoDup_app. split_and!; [done| |].
    + intros x Hx Hin. by apply (expired_elem l order now x Hok) in Hin as [_ ?].
    + do 2 (eapply sublist_NoDup; [|apply bfilter_sublist]). rewrite Hok. apply NoDup_fst_map_to_list.
  - unfold mark_offline, is_offline. destruct (bool_decide_reflect (n ∈ offline l)); cbn; [done|].
    apply list.NoDup_app. split_and!; [done| |apply list.NoDup_singleton].
    by intros x Hx ->%list_elem_of_singleton.
  - by apply without_nodup.
Qed.

(** The offline list.  In every reachable state it names a node once; a sweep, in
    whatever order it visits the nodes, adds and reports exactly the nodes
    whose last heartbeat is more than 60 seconds old and which were not listed;
    a heartbeat removes its node, reports whether it was listed, and so the
    next sweep within the lease leaves it alone. *)
Theorem liveness_exact (l : Liveness) (order : list Z) (now : Z)
  (Hl : reachable l) (Ho : order ≡ₚ (map_to_list (last_seen l)).*1) :
  let '(expired, l') := sweep l order now in
  NoDup (offline l') /\ NoDup expired /\
  (forall n, n ∈ expired <-> (lapsed l now n = true /\ n ∉ offline l)) /\
  (forall n, n ∈ offline l' <-> (n ∈ offline l \/ lapsed l now n = true)) /\
  (forall n t, let '(was, h) := heartbeat l n t in
     (was = true <-> n ∈ offline l) /\ (n ∉ offline h) /\
     (forall m, m <> n -> (m ∈ offline h <-> m ∈ offline l)) /\
     forall u, t <= u <= t + LEASE_EXPIRY_SECS -> lapsed h u n = false).
Proof.
  pose proof (reachable_nodup _ (reach_step l (Sweep order now) Hl Ho)) as Hnd.
  pose proof (expired_elem l order now) as He. cbn [apply] in Hnd.
  destruct (sweep l order now) as [ex l'] eqn:E. cbn [snd fst] in *.
  assert (Ho' : offline l' = offline l ++ ex) by (unfold sweep in E; by simplify_eq).
  split_and!; [done| |by intros; apply He| |].
  - rewrite Ho' in Hnd. by apply list.NoDup_app in Hnd as (_ & _ & ?).
  - intros n. rewrite Ho', elem_of_app, He by done.
    destruct (decide (n ∈ offline l)); tauto.
  - intros n t. cbn. unfold is_offline. rewrite bool_decide_eq_true.
    split_and!; [done|by intros [_ ?]%elem_of_without| |].
    + intros m Hm. rewrite elem_of_without. tauto.
    + intros u Hu. unfold lapsed. cbn. rewrite lookup_insert_eq.
      apply bool_decide_eq_false. unfold sat_sub, LEASE_EXPIRY_SECS in *. lia.
Qed.

Definition sample : Liveness :=
  apply (apply (apply new (Heartbeat 1 100)) (Heartbeat 2 150)) (MarkOffline 3).

Lemma live_sample_reachable : reachable sample.
Proof. do 3 (apply reach_step; [|exact I]). constructor. Qed.

Lemma liveness_exact_witness :
  fst (sweep sample [1; 2] 170) = [1] /\ NoDup (offline (snd (sweep sample [1; 2] 170))).
Proof.
  split; [vm_compute; reflexivity|].
  assert (E : (map_to_list (last_seen sample)).*1 ≡ₚ [1; 2]).
  { assert (E : (map_to_list (last_seen sample)).*1 = [2; 1]) by (vm_compute; reflexivity).
    rewrite E. apply perm_swap. }
  pose proof (liveness_exact sample [1; 2] 170 live_sample_reachable) as H.
  destruct (sweep sample [1; 2] 170). apply H. by rewrite E.
Defined.

End Liveness.

(** ** Network keys *)

Module Keys.
Import Crypto.

Record KeyManager := mk_keys {
  master_key : list Z;
  key_version : Z;                       (* u32 *)
  pending_revoke_rotation : option Z
}.

Definition new (master : list Z) : KeyManager := mk_keys master 1 None.

Section WithPrimitives.
Context `{P : Primitives}.

Definition key_for (k : KeyManager) (node_id : Z) : list Z := derive_key_dst (master_key k) node_id.

Definition broadcast_key (k : KeyManager) : list Z := derive_key_dst (master_key k) 0xFFFFFFFF.

Definition key_path_for (k : KeyManager) (path_id path_epoch : Z) : list Z :=
  derive_key_path (master_key k) path_id path_epoch.

End WithPrimitives.

Definition rotate (k : KeyManager) (new_master : list Z) : KeyManager :=
  mk_keys new_master (wrap 32 (key_version k + 1)) (pending_revoke_rotation k).

Definition arm_revoke_rotation (k : KeyManager) (deadline : Z) : KeyManager :=
  match pending_revoke_rotation k with
  | None => mk_keys (master_key k) (key_version k) (Some deadline)
  | Some _ => k
  end.

Definition take_revoke_rotation (k : KeyManager) (now : Z) : bool * KeyManager :=
  match pending_revoke_rotation k with
  | Some d =>
      if decide (now >= d) then (true, mk_keys (master_key k) (wrap 32 (key_version k + 1)) None)
      else (false, k)
  | None => (false, k)
  end.

Definition clear_revoke_rotation (k : KeyManager) : KeyManager :=
  mk_keys (master_key k) (key_version k) None.

Definition restore_revoke_rotation (k : KeyManager) (deadline : Z) : KeyManager :=
  mk_keys (master_key k) (key_version k) (Some deadline).

Definition restore_version (k : KeyManager) (v : Z) : KeyManager :=
  mk_keys (master_key k) v (pending_revoke_rotation k).

(** Revocations arm the window, events poll it. *)
Inductive Op := Arm (deadline : Z) | Poll (now : Z).

Definition run (k : KeyManager) (os : list Op) : KeyManager :=
  foldl (fun k o => match o with
    | Arm d => arm_revoke_rotation k d
    | Poll now => snd (take_revoke_rotation k now)
    end) k os.

(** Revocations share one rotation: the first one of an empty window fixes the
    deadline, whatever is armed or polled before it changes nothing, and the
    first poll from then on bumps the version once and empties the window. *)
Theorem rotation_coalesced (k : KeyManager) (d now : Z) (os : list Op)
  (Hk : pending_revoke_rotation k = None)
  (Hos : Forall (fun o => match o with Poll t => t < d | Arm _ => True end) os) (Hnow : d <= now) :
  let k1 := run k (Arm d :: os) in
  key_version k1 = key_version k /\ pending_revoke_rotation k1 = Some d /\
  take_revoke_rotation k1 now
  = (true, mk_keys (master_key k) (wrap 32 (key_version k + 1)) None).
Proof.
  intros k1. assert (E : k1 = mk_keys (master_key k) (key_version k) (Some d)).
  { unfold k1. cbn. unfold arm_revoke_rotation at 2. rewrite Hk.
    induction Hos as [|[d'|t] os Ho _ IH]; cbn; [done|exact IH|].
    by rewrite decide_False by lia. }
  rewrite E. cbn. by rewrite decide_True by lia.
Qed.

End Keys.

(** ** Directory *)

Module Directory.

Record NodeEndpoints := mk_endpoints { local_ : list string; seen : list string }.

(** [local] and then the seen addresses not yet listed, in order. *)
Definition merged (e : NodeEndpoints) : list string :=
  foldl (fun out s => if decide (s ∈ out) then out else out ++ [s]) (local_ e) (seen e).

Record Directory := mk_directory {
  netmap_version : Z;
  endpoints : gmap Z NodeEndpoints;
  protocol_versions : gmap Z Z;
  build_versions : gmap Z string
}.

Definition new : Directory := mk_directory 0 ∅ ∅ ∅.

Definition bump_netmap (d : Directory) : Directory :=
  mk_directory (netmap_version d + 1) (endpoints d) (protocol_versions d) (build_versions d).

Definition set_endpoints (d : Directory) (node_id : Z) (l s : list string) : Directory :=
  bump_netmap (mk_directory (netmap_version d) (<[node_id := mk_endpoints l s]> (endpoints d))
    (protocol_versions d) (build_versions d)).

Definition merged_endpoints_of (d : Directory) (node_id : Z) : list string :=
  match endpoints d !! node_id with Some e => merged e | None => [] end.

(** [str::rsplit_once(':')], the part before: up to the last colon. *)
Fixpoint before_last (c : ascii) (s : string) : option string :=
  match s with
  | EmptyString => None
  | String x s =>
      match before_last c s with
      | Some a => Some (String x a)
      | None => if decide (x = c) then Some EmptyString else None
      end
  end.

Definition host (s : string) : string := default s (before_last ":"%char s).

Definition public_direct (d : Directory) (node_id : Z) : bool :=
  match endpoints d !! node_id with
  | None => false
  | Some e =>
      let local_ips := host <$> local_ e in
      existsb (fun s => bool_decide (host s ∈ local_ips)) (seen e)
  end.

Definition restore (d : Directory) (v : Z) (es : gmap Z NodeEndpoints) : Directory :=
  mk_directory v es (protocol_versions d) (build_versions d).

Definition set_protocol_version (d : Directory) (node_id v : Z) : Directory :=
  mk_directory (netmap_version d) (endpoints d) (<[node_id := v]> (protocol_versions d)) (build_versions d).

Definition protocol_version (d : Directory) (node_id : Z) : Z :=
  default 1 (protocol_versions d !! node_id).

Definition set_build_version (d : Directory) (node_id : Z) (v : string) : Directory :=
  mk_directory (netmap_version d) (endpoints d) (protocol_versions d) (<[node_id := v]> (build_versions d)).

Definition build_version (d : Directory) (node_id : Z) : option string := build_versions d !! node_id.

Definition remove_node (d : Directory) (node_id : Z) : Directory :=
  mk_directory (netmap_version d) (delete node_id (endpoints d))
    (delete node_id (protocol_versions d)) (delete node_id (build_versions d)).

(** The merged view starts with the local addresses, holds every local and seen
    address, nothing else, and repeats no address that is not repeated locally. *)
Lemma merged_spec e : exists extra, merged e = local_ e ++ extra /\ NoDup extra /\
  (forall s, s ∈ merged e <-> s ∈ local_ e \/ s ∈ seen e) /\
  (forall s, s ∈ extra -> s ∉ local_ e).
Proof.
  unfold merged. generalize (local_ e) as l, (seen e) as l'. intros l l'. revert l.
  assert (H : forall l0 ex, NoDup ex -> (forall s, s ∈ ex -> s ∉ l0) -> exists extra,
    foldl (fun out s => if decide (s ∈ out) then out else out ++ [s]) (l0 ++ ex) l' = l0 ++ extra /\
    NoDup extra /\ (forall s, s ∈ l0 ++ extra <-> s ∈ l0 ++ ex \/ s ∈ l') /\
    (forall s, s ∈ extra -> s ∉ l0)).
  { induction l' as [|x l' IH]; intros l0 ex Hnd Hd; cbn.
    - exists ex. split_and!; [done..| |done]. intros s. rewrite elem_of_nil. tauto.
    - destruct (decide _) as [Hin|Hin].
      + destruct (IH l0 ex Hnd Hd) as (extra & -> & ? & Hs & ?). exists extra. split_and!; try done.
        intros s. rewrite Hs, elem_of_cons. split; [tauto|]. intros [?|[->|?]]; auto.
      + rewrite <- app_assoc. rewrite elem_of_app in Hin.
        destruct (IH l0 (ex ++ [x])) as (extra & -> & ? & Hs & ?).
        * apply list.NoDup_app. split_and!; [done| |apply list.NoDup_singleton].
          intros s Hs ->%list_elem_of_singleton. tauto.
        * intros s [Hs| ->%list_elem_of_singleton]%elem_of_app; [by apply Hd|tauto].
        * exists extra. split_and!; try done. intros s.
          rewrite Hs, !elem_of_app, list_elem_of_singleton, elem_of_cons. tauto. }
  intros l. destruct (H l [] ltac:(constructor)) as (extra & E & Hnd & Hs & Hd); [by intros s ?%elem_of_nil|].
  rewrite app_nil_r in *. exists extra. rewrite E. split_and!; [done..| |done]. exact Hs.
Qed.

(** Every change of endpoints is a new netmap version, and what is read back is
    the merged view of what was set; other nodes keep theirs. *)
Lemma set_endpoints_spec d n l s m :
  netmap_version (set_endpoints d n l s) = netmap_version d + 1 /\
  merged_endpoints_of (set_endpoints d n l s) m
  = if decide (m = n) then merged (mk_endpoints l s) else merged_endpoints_of d m.
Proof.
  split; [done|]. unfold merged_endpoints_of. cbn. destruct (decide (m = n)) as [->|].
  - by rewrite lookup_insert_eq.
  - by rewrite lookup_insert_ne.
Qed.

End Directory.
