(* ===== verification/PathService.v ===== *)
(** * Path service (rill-coord/src/path_service.rs)

    Candidate paths per (source, destination), their identifiers, the queues of
    events for the participants, and the changes that follow a revocation or a
    new relay roster.

    The code walks a hash map in three places, in an order it does not control:
    there the operation takes the keys in the order visited as an argument, and
    the theorems hold for every order ([visits]).  The 64-bit counters
    (identifiers, versions) and the clock are unbounded here: they count
    operations and seconds from small values. *)

From stdpp Require Import relations.
From S2P Require Import Prelude.

Module PathService.

Definition PATH_DEFAULT_TTL : Z := 3600.
Definition PENDING_EVENTS_MAX : nat := 1024.

Record PathCandidate := mk_cand {
  path_id : Z;
  path_epoch : Z;
  hops : list Z;
  expires_at : Z
}.

Record PathSet := mk_set { version : Z; candidates : list PathCandidate; max : Z }.

Definition default_path_max : Z := 4.

Definition expired (s : PathSet) (now : Z) : bool :=
  bool_decide (candidates s = []) ||
  forallb (fun c => bool_decide (expires_at c <> 0) && bool_decide (now > expires_at c)) (candidates s).

Inductive PathEvent :=
| Update (source dest : Z) (set : PathSet)
| Withdraw (dest path_id : Z).

Record PathService := mk_service {
  map : gmap (Z * Z) PathSet;
  seq : Z;
  pending : gmap Z (list PathEvent);
  relays : list Z
}.

Definition new : PathService := mk_service ∅ 0 ∅ [].

Definition set_relays (p : PathService) (rs : list Z) : PathService :=
  mk_service (map p) (seq p) (pending p) rs.
Definition set_map (p : PathService) (m : gmap (Z * Z) PathSet) : PathService :=
  mk_service m (seq p) (pending p) (relays p).
Definition set_seq (p : PathService) (n : Z) : PathService :=
  mk_service (map p) n (pending p) (relays p).

(** ** Events *)

Definition push_event (p : PathService) (node : Z) (e : PathEvent) : PathService :=
  let queue := default [] (pending p !! node) in
  let queue := if decide (length queue < PENDING_EVENTS_MAX)%nat then queue ++ [e] else queue in
  mk_service (map p) (seq p) (<[node := queue]> (pending p)) (relays p).

Definition push_to_participants (p : PathService) (source dest : Z) (rs : list Z) (set : PathSet)
    : PathService :=
  let p := push_event p source (Update source dest set) in
  foldl (fun p participant => push_event p participant (Update source dest set)) p (dest :: rs).

(** [if seen.insert(t) { push_event(t, event) }] over the targets. *)
Fixpoint push_unique (seen : list Z) (p : PathService) (e : PathEvent) (targets : list Z) : PathService :=
  match targets with
  | [] => p
  | t :: targets =>
      if decide (t ∈ seen) then push_unique seen p e targets
      else push_unique (t :: seen) (push_event p t e) e targets
  end.

Definition push_withdraw (p : PathService) (targets : list Z) (dest id : Z) : PathService :=
  push_unique [] p (Withdraw dest id) targets.

Definition take_events (p : PathService) (source : Z) : list PathEvent * PathService :=
  (default [] (pending p !! source),
   mk_service (map p) (seq p) (delete source (pending p)) (relays p)).

(** ** Requests *)

Definition alloc_path_id (p : PathService) : Z * PathService := (seq p + 1, set_seq p (seq p + 1)).

Definition clamp24 (m : Z) : Z := Z.min (Z.max m 2) 4.

(** The relays that may serve a pair. *)
Definition eligible (rs : list Z) (source dest : Z) : list Z :=
  List.filter (fun r => bool_decide (r <> source) && bool_decide (r <> dest)) rs.

Definition candidate (id : Z) (hs : list Z) (now : Z) : PathCandidate :=
  mk_cand id 1 hs (now + PATH_DEFAULT_TTL).

(** The loop over the relays: push a candidate, then leave at the budget. *)
Fixpoint add_relays (budget : nat) (dest now : Z) (rs : list Z) (cs : list PathCandidate)
    (p : PathService) : list PathCandidate * PathService :=
  match rs with
  | [] => (cs, p)
  | r :: rs =>
      let '(id, p) := alloc_path_id p in
      let cs := cs ++ [candidate id [r; dest] now] in
      if decide (budget <= length cs)%nat then (cs, p) else add_relays budget dest now rs cs p
  end.

Definition rebuild (p : PathService) (source dest mx now : Z) (rs : list Z)
    : list PathCandidate * PathService :=
  let version := match map p !! (source, dest) with Some s => version s | None => 0 end + 1 in
  let '(id, p) := alloc_path_id p in
  let '(cs, p) := add_relays (Z.to_nat (clamp24 mx)) dest now rs [candidate id [dest] now] p in
  let set := mk_set version cs (clamp24 mx) in
  let p := push_to_participants p source dest rs set in
  (cs, set_map p (<[(source, dest) := set]> (map p))).

Definition request (p : PathService) (source dest mx now : Z) : list PathCandidate * PathService :=
  let rs := eligible (relays p) source dest in
  match map p !! (source, dest) with
  | Some set =>
      if expired set now then rebuild p source dest mx now rs
      else (candidates set, push_to_participants p source dest rs set)
  | None => rebuild p source dest mx now rs
  end.

(** ** Revocation and roster changes *)

Definition via (node : Z) (c : PathCandidate) : bool := bool_decide (node ∈ hops c).

Definition withdraw_all (p : PathService) (source dest : Z) (cs : list PathCandidate) : PathService :=
  foldl (fun p c => push_withdraw p ([source; dest] ++ hops c) dest (path_id c)) p cs.

Definition withdraw_relay_in_set (p : PathService) (source dest node : Z) : PathService :=
  match map p !! (source, dest) with
  | None => p
  | Some set =>
      let withdrawn := List.filter (via node) (candidates set) in
      if decide (withdrawn = []) then p
      else
        let set := mk_set (version set + 1)
          (List.filter (fun c => negb (via node c)) (candidates set)) (max set) in
        let p := set_map p
          (if decide (candidates set = []) then delete (source, dest) (map p)
           else <[(source, dest) := set]> (map p)) in
        let p := withdraw_all p source dest withdrawn in
        if decide (candidates set = []) then p
        else push_unique [] p (Update source dest set)
               ([source; dest] ++ concat (hops <$> candidates set))
  end.

Definition affects (p : PathService) (node : Z) (k : Z * Z) : bool :=
  bool_decide (fst k = node) || bool_decide (snd k = node) ||
  match map p !! k with Some set => existsb (via node) (candidates set) | None => false end.

Definition withdraw_one (node : Z) (p : PathService) (k : Z * Z) : PathService :=
  let '(source, dest) := k in
  if decide (source = node \/ dest = node) then
    match map p !! k with
    | Some set => withdraw_all (set_map p (delete k (map p))) source dest (candidates set)
    | None => p
    end
  else withdraw_relay_in_set p source dest node.

Definition withdraw_node (p : PathService) (order : list (Z * Z)) (node : Z) : PathService :=
  foldl (withdraw_one node) p (List.filter (affects p node) order).

Definition withdraw_relay (p : PathService) (order : list (Z * Z)) (node : Z) : PathService :=
  let affected := List.filter (fun k =>
    match map p !! k with Some set => existsb (via node) (candidates set) | None => false end) order in
  foldl (fun p k => withdraw_relay_in_set p (fst k) (snd k) node) p affected.

Definition starts_with (r : Z) (c : PathCandidate) : bool := bool_decide (head (hops c) = Some r).

(** The loop that fills a set up to its budget. *)
Fixpoint fill (budget : nat) (dest now : Z) (rs : list Z) (cs : list PathCandidate)
    (p : PathService) : list PathCandidate * PathService :=
  match rs with
  | [] => (cs, p)
  | r :: rs =>
      if decide (budget <= length cs)%nat then (cs, p)
      else if existsb (starts_with r) cs then fill budget dest now rs cs p
      else
        let '(id, p) := alloc_path_id p in
        fill budget dest now rs (cs ++ [candidate id [r; dest] now]) p
  end.

(** The direct candidates kept, one made if there is none, then the candidates
    of the relays still listed. *)
Definition keep (p : PathService) (dest now : Z) (rs : list Z) (cs : list PathCandidate)
    : list PathCandidate * PathService :=
  let direct := List.filter (fun c => Nat.eqb (length (hops c)) 1) cs in
  let '(direct, p) :=
    match direct with
    | [] => let '(id, p) := alloc_path_id p in ([candidate id [dest] now], p)
    | _ => (direct, p)
    end in
  (direct ++ List.filter (fun c => Nat.ltb 1 (length (hops c)) &&
     match head (hops c) with Some r => bool_decide (r ∈ rs) | None => false end) cs, p).

Definition expand_one (now : Z) (p : PathService) (k : Z * Z) : PathService :=
  let '(source, dest) := k in
  let rs := eligible (relays p) source dest in
  match map p !! k with
  | None => p
  | Some set =>
      if expired set now then p
      else if negb (existsb (fun r => negb (existsb (starts_with r) (candidates set))) rs) then p
      else
        let budget := Z.to_nat (clamp24 (max set)) in
        let '(cs, p) := keep p dest now rs (candidates set) in
        let '(cs, p) := fill budget dest now rs cs p in
        let set := mk_set (version set + 1) cs (max set) in
        let p := push_to_participants p source dest rs set in
        set_map p (<[k := set]> (map p))
  end.

Definition expand_relay_candidates (p : PathService) (order : list (Z * Z)) (now : Z) : PathService :=
  foldl (expand_one now) p order.

(** ** Persistence *)

Definition key_le (a b : (Z * Z) * PathSet) : bool :=
  let '((s, d), _) := a in let '((s', d'), _) := b in
  Z.ltb s s' || (Z.eqb s s' && Z.leb d d').

Definition persistent (p : PathService) : list ((Z * Z) * PathSet) * Z :=
  (sort key_le (map_to_list (map p)), seq p).

Definition restore (p : PathService) (m : gmap (Z * Z) PathSet) (n : Z) : PathService :=
  mk_service m n (pending p) (relays p).

(** The keys of the map, in the order a walk visits them. *)
Definition visits (p : PathService) (order : list (Z * Z)) : Prop :=
  order ≡ₚ (map_to_list (map p)).*1.

(** ** What the event queues do not touch *)

(** Queued events stay, and a queue never shrinks. *)
Definition grows (p q : PathService) : Prop := forall n,
  (forall e, e ∈ default [] (pending p !! n) -> e ∈ default [] (pending q !! n)) /\
  (length (default [] (pending p !! n)) <= length (default [] (pending q !! n)))%nat.

#[export] Instance grows_preorder : PreOrder grows.
Proof.
  split; [by intros p n|]. intros p q r H1 H2 n. destruct (H1 n), (H2 n). split; [auto|lia].
Qed.

(** [q] differs from [p] in its queues only, which grow within their bound. *)
Record queued (p q : PathService) : Prop := {
  qu_map : map q = map p;
  qu_seq : seq q = seq p;
  qu_relays : relays q = relays p;
  qu_bound : (forall n l, pending p !! n = Some l -> (length l <= PENDING_EVENTS_MAX)%nat) ->
             forall n l, pending q !! n = Some l -> (length l <= PENDING_EVENTS_MAX)%nat;
  qu_grows : grows p q
}.

#[export] Instance queued_preorder : PreOrder queued.
Proof.
  split; [by split|]. intros p q r [] []. split; [congruence..|eauto|]. by etrans.
Qed.

Lemma push_event_queued p n e : queued p (push_event p n e).
Proof.
  split; try done; cbn.
  - intros Hb m l. rewrite lookup_insert_Some. intros [[<- <-]|[_ H]]; [|by eapply Hb].
    assert (length (default [] (pending p !! n)) <= PENDING_EVENTS_MAX)%nat.
    { destruct (pending p !! n) as [l|] eqn:E; cbn; [by eapply Hb | unfold PENDING_EVENTS_MAX; lia]. }
    destruct (decide _); rewrite ?length_app; cbn; lia.
  - intros m. cbn. destruct (decide (n = m)) as [->|Hne].
    + rewrite lookup_insert_eq. cbn. destruct (decide _); [|done].
      rewrite length_app. split; [|lia]. intros x Hx. apply elem_of_app. by left.
    + by rewrite lookup_insert_ne.
Qed.

(** An event is queued for its node, unless the queue is full. *)
Definition told (p : PathService) (n : Z) (e : PathEvent) : Prop :=
  e ∈ default [] (pending p !! n) \/ (PENDING_EVENTS_MAX <= length (default [] (pending p !! n)))%nat.

Lemma push_event_told p n e : told (push_event p n e) n e.
Proof.
  unfold told, push_event; cbn. rewrite lookup_insert_eq. cbn.
  destruct (decide _); [left; apply elem_of_app; right; by left | right; lia].
Qed.

Lemma told_grows p q n e : grows p q -> told p n e -> told q n e.
Proof. intros H [?|?]; destruct (H n) as [? ?]; [left; auto | right; lia]. Qed.

Lemma foldl_queued {A} (f : PathService -> A -> PathService) l :
  (forall p x, queued p (f p x)) -> forall p, queued p (foldl f p l).
Proof. intros Hf. induction l as [|x l IH]; intros p; cbn; [done|]. by etrans; [apply Hf|apply IH]. Qed.

Lemma push_unique_queued e targets : forall seen p, queued p (push_unique seen p e targets).
Proof.
  induction targets as [|t ts IH]; intros seen p; cbn; [done|].
  destruct (decide _); [apply IH|]. by etrans; [apply push_event_queued|apply IH].
Qed.

Lemma push_unique_told e t targets : t ∈ targets ->
  forall seen p, t ∉ seen -> told (push_unique seen p e targets) t e.
Proof.
  induction targets as [|x ts IH]; intros Hin seen p Hs; [by apply elem_of_nil in Hin|]. cbn.
  destruct (decide (x ∈ seen)).
  - apply IH; [|done]. apply elem_of_cons in Hin as [->|]; done.
  - destruct (decide (t = x)) as [->|Hne].
    + eapply told_grows; [apply qu_grows, push_unique_queued|apply push_event_told].
    + apply IH; [|by apply not_elem_of_cons]. by apply elem_of_cons in Hin as [?|?].
Qed.

Lemma push_to_participants_queued p s d rs st : queued p (push_to_participants p s d rs st).
Proof. etrans; [apply push_event_queued|]. apply foldl_queued. intros. apply push_event_queued. Qed.

Lemma withdraw_all_queued s d cs p : queued p (withdraw_all p s d cs).
Proof. apply foldl_queued. intros. apply push_unique_queued. Qed.

(** Every participant of every withdrawn candidate is told. *)
Lemma withdraw_all_told s d c t cs : c ∈ cs -> t ∈ [s; d] ++ hops c ->
  forall p, told (withdraw_all p s d cs) t (Withdraw d (path_id c)).
Proof.
  intros Hc Ht. induction cs as [|x cs IH]; [by apply elem_of_nil in Hc|]. intros p.
  unfold withdraw_all. cbn [foldl].
  apply elem_of_cons in Hc as [->|Hc]; [|by apply IH].
  eapply told_grows; [apply qu_grows, withdraw_all_queued|].
  apply push_unique_told; [done|by apply not_elem_of_nil].
Qed.

(** ** Shape of the path sets *)

Definition relay_cand (k : Z * Z) (c : PathCandidate) : Prop :=
  exists r, hops c = [r; snd k] /\ r <> fst k /\ r <> snd k.

(** One direct candidate, then relayed ones, within the budget of 2 to 4. *)
Definition set_ok (k : Z * Z) (st : PathSet) : Prop :=
  2 <= max st <= 4 /\ Z.of_nat (length (candidates st)) <= max st /\
  exists c rest, candidates st = c :: rest /\ hops c = [snd k] /\ Forall (relay_cand k) rest.

(** Candidates numbered from [n + 1] through the given relays. *)
Fixpoint fresh (n dest now : Z) (rs : list Z) : list PathCandidate :=
  match rs with
  | [] => []
  | r :: rs => candidate (n + 1) [r; dest] now :: fresh (n + 1) dest now rs
  end.

Lemma length_fresh n d now rs : length (fresh n d now rs) = length rs.
Proof. revert n. induction rs; intros; cbn; auto. Qed.

Lemma fresh_ids n d now rs c : c ∈ fresh n d now rs -> n < path_id c <= n + Z.of_nat (length rs).
Proof.
  revert n. induction rs as [|r rs IH]; intros n; cbn; [by intros ?%elem_of_nil|].
  intros [->|H]%elem_of_cons; cbn; [lia|]. apply IH in H. lia.
Qed.

Lemma fresh_nodup n d now rs : NoDup (path_id <$> fresh n d now rs).
Proof.
  revert n. induction rs as [|r rs IH]; intros n; cbn; [constructor|]. constructor; [|apply IH].
  intros (c & Hc & H%fresh_ids)%list_elem_of_fmap. cbn in Hc. lia.
Qed.

Lemma elem_of_eligible r rs s d : r ∈ eligible rs s d <-> r ∈ rs /\ r <> s /\ r <> d.
Proof.
  unfold eligible. rewrite elem_of_bfilter, andb_true_iff, !bool_decide_eq_true. tauto.
Qed.

Lemma fresh_relay n s d now rs : (forall r, r ∈ rs -> r <> s /\ r <> d) ->
  Forall (relay_cand (s, d)) (fresh n d now rs).
Proof.
  revert n. induction rs as [|r rs IH]; intros n Hr; cbn; constructor.
  - exists r. split; [done|]. apply Hr. left.
  - apply IH. intros x Hx. apply Hr. by right.
Qed.

Lemma set_seq_self p : set_seq p (seq p) = p.
Proof. by destruct p. Qed.

(** The loop of [request] takes relays up to the budget. *)
Lemma add_relays_spec budget d now rs : forall cs p, (length cs < budget)%nat ->
  add_relays budget d now rs cs p =
  let rs := take (budget - length cs) rs in
  (cs ++ fresh (seq p) d now rs, set_seq p (seq p + Z.of_nat (length rs))).
Proof.
  induction rs as [|r rs IH]; intros cs p Hl; cbn [add_relays].
  { rewrite take_nil. cbn. by rewrite app_nil_r, Z.add_0_r, set_seq_self. }
  cbn [alloc_path_id]. set (c := candidate _ _ _).
  assert (Hl' : length (cs ++ [c]) = S (length cs)) by (rewrite length_app; cbn; lia).
  replace (budget - length cs)%nat with (S (budget - length (cs ++ [c]))) by lia. cbn [take fresh length].
  destruct (decide _).
  - replace (budget - _)%nat with 0%nat by lia. cbn. by rewrite take_0.
  - rewrite IH by lia. cbn. rewrite <- app_assoc. unfold c. f_equal.
    unfold set_seq. cbn. f_equal. lia.
Qed.

(** The loop of [expand_relay_candidates] adds some of the relays, never past
    the budget, and stops short of it only when every relay is present. *)
Lemma fill_spec budget d now rs : forall cs p, exists rs',
  rs' ⊆ rs /\
  fill budget d now rs cs p
  = (cs ++ fresh (seq p) d now rs', set_seq p (seq p + Z.of_nat (length rs'))) /\
  (length cs + length rs' <= Nat.max budget (length cs))%nat /\
  ((budget <= length cs + length rs')%nat \/
   forall r, r ∈ rs -> existsb (starts_with r) (cs ++ fresh (seq p) d now rs') = true).
Proof.
  induction rs as [|r rs IH]; intros cs p; cbn [fill].
  { exists []. cbn. rewrite app_nil_r, Z.add_0_r, set_seq_self.
    split_and!; [done|done|lia|]. right. by intros r ?%elem_of_nil. }
  destruct (decide _).
  { exists []. cbn. rewrite app_nil_r, Z.add_0_r, set_seq_self. split_and!; [set_solver|done|lia|lia]. }
  destruct (existsb (starts_with r) cs) eqn:E.
  - destruct (IH cs p) as (rs' & Hs & -> & Hl & Hc). exists rs'. split_and!; [set_solver|done|done|].
    destruct Hc as [?|Hc]; [by left|right]. intros x [->|Hx]%elem_of_cons; [|by apply Hc].
    by rewrite existsb_app, E.
  - cbn [alloc_path_id]. destruct (IH (cs ++ [candidate (seq p + 1) [r; d] now]) (set_seq p (seq p + 1)))
      as (rs' & Hs & -> & Hl & Hc). rewrite length_app in *. cbn [length seq set_seq] in *.
    exists (r :: rs'). cbn [fresh length]. rewrite <- !app_assoc in *. cbn [app] in *.
    split_and!; [set_solver| |lia|].
    + f_equal. unfold set_seq. cbn. f_equal. lia.
    + destruct Hc as [?|Hc]; [left; lia|right]. intros x [->|Hx]%elem_of_cons; [|by apply Hc].
      rewrite existsb_app. cbn. unfold starts_with at 2. cbn.
      rewrite bool_decide_true by done. by rewrite orb_true_r.
Qed.

(** ** The invariant, and how identifiers evolve *)

Record inv (p : PathService) : Prop := {
  inv_sets : forall k st, map p !! k = Some st -> set_ok k st;
  inv_nodup : forall k st, map p !! k = Some st -> NoDup (path_id <$> candidates st);
  inv_range : forall k st c, map p !! k = Some st -> c ∈ candidates st -> 1 <= path_id c <= seq p;
  inv_owner : forall k k' st st' c c', map p !! k = Some st -> map p !! k' = Some st' ->
    c ∈ candidates st -> c' ∈ candidates st' -> path_id c = path_id c' -> k = k';
  inv_seq : 0 <= seq p;
  inv_pending : forall n l, pending p !! n = Some l -> (length l <= PENDING_EVENTS_MAX)%nat
}.

(** Every candidate of [q] is numbered after [p], or was the same candidate of
    the same pair in [p]. *)
Definition evolves (p q : PathService) : Prop :=
  seq p <= seq q /\
  forall k st c, map q !! k = Some st -> c ∈ candidates st ->
    seq p < path_id c \/ exists st0, map p !! k = Some st0 /\ c ∈ candidates st0.

#[export] Instance evolves_preorder : PreOrder evolves.
Proof.
  split; [split; [done|]; eauto|]. intros p q r [H1 H2] [H3 H4]. split; [lia|].
  intros k st c Hk Hc. destruct (H4 k st c Hk Hc) as [?|(st0 & Hk0 & Hc0)]; [left; lia|eauto].
Qed.

(** The set stored for one pair in place of what was there. *)
Definition good_set (p : PathService) (k : Z * Z) (n : Z) (st : PathSet) : Prop :=
  set_ok k st /\ NoDup (path_id <$> candidates st) /\
  forall c, c ∈ candidates st ->
    seq p < path_id c <= n \/ exists st0, map p !! k = Some st0 /\ c ∈ candidates st0.

(** Invariant and evolution over one operation. *)
Definition good (p q : PathService) : Prop := inv p -> inv q /\ evolves p q.

#[export] Instance good_preorder : PreOrder good.
Proof.
  split; [by split|]. intros p q r H1 H2 Hp. destruct (H1 Hp) as [Hq E1], (H2 Hq) as [Hr E2].
  split; [done|]. by etrans.
Qed.

Lemma queued_good p q : queued p q -> good p q.
Proof.
  intros [Hm Hs Hr Hb] []. split; [|split; rewrite ?Hm, ?Hs; eauto with lia].
  split; rewrite ?Hm, ?Hs; eauto.
Qed.

Lemma key_update p q k o : map q = partial_alter (fun _ => o) k (map p) ->
  seq p <= seq q -> (forall st, o = Some st -> good_set p k (seq q) st) ->
  pending q = pending p -> good p q.
Proof.
  intros Hm Hs Ho Hpe [Isets Inodup Irange Iowner Iseq Ipend].
  assert (Hl : forall k' st, map q !! k' = Some st ->
    (k' = k /\ good_set p k (seq q) st) \/ (k' <> k /\ map p !! k' = Some st)).
  { intros k' st. rewrite Hm. destruct (decide (k' = k)) as [->|Hne].
    - rewrite lookup_partial_alter_eq. auto.
    - rewrite lookup_partial_alter_ne by done. auto. }
  assert (Hc : forall k' st c, map q !! k' = Some st -> c ∈ candidates st ->
    seq p < path_id c <= seq q \/ exists st0, map p !! k' = Some st0 /\ c ∈ candidates st0).
  { intros k' st c Hk Hc. destruct (Hl _ _ Hk) as [[-> (_ & _ & H)]|[_ H]]; eauto. }
  split; [split|]; [| | | |lia|by rewrite Hpe|].
  - intros k' st [[-> (? & _)]|[_ ?]]%Hl; eauto.
  - intros k' st [[-> (_ & ? & _)]|[_ ?]]%Hl; eauto.
  - intros k' st c Hk Hin. destruct (Hc _ _ _ Hk Hin) as [?|(st0 & H0 & H1)]; [lia|].
    pose proof (Irange _ _ _ H0 H1). lia.
  - intros k1 k2 s1 s2 c1 c2 H1 H2 Hc1 Hc2 E.
    destruct (decide (k1 = k2)) as [|Hne]; [done|exfalso].
    destruct (Hc _ _ _ H1 Hc1) as [F1|(t1 & M1 & C1)], (Hc _ _ _ H2 Hc2) as [F2|(t2 & M2 & C2)].
    + destruct (Hl _ _ H1) as [[-> _]|[_ M1]].
      * destruct (Hl _ _ H2) as [[-> _]|[_ M2]]; [done|].
        pose proof (Irange _ _ _ M2 Hc2). lia.
      * pose proof (Irange _ _ _ M1 Hc1). lia.
    + pose proof (Irange _ _ _ M2 C2). lia.
    + pose proof (Irange _ _ _ M1 C1). lia.
    + apply Hne. by eapply Iowner.
  - split; [done|]. intros k' st c Hk Hin. destruct (Hc _ _ _ Hk Hin) as [[? _]|?]; auto.
Qed.

Lemma key_delete p k : good p (set_map p (delete k (map p))).
Proof. by apply (key_update _ _ k None). Qed.

Lemma key_insert p q k st : map q = <[k := st]> (map p) -> seq p <= seq q ->
  good_set p k (seq q) st -> pending q = pending p -> good p q.
Proof. intros Hm Hs Hg. apply (key_update _ _ k (Some st)); [done|done|]. by intros ? [= <-]. Qed.

(** ** The operations keep it *)

Lemma clamp24_range m : 2 <= clamp24 m <= 4.
Proof. unfold clamp24. lia. Qed.

(** What [rebuild] stores and returns. *)
Definition rebuilt (p : PathService) (source dest mx now : Z) : list PathCandidate :=
  candidate (seq p + 1) [dest] now ::
  fresh (seq p + 1) dest now
    (take (Z.to_nat (clamp24 mx) - 1) (eligible (relays p) source dest)).

Lemma rebuild_spec p s d mx now : exists q v,
  rebuild p s d mx now (eligible (relays p) s d) = (rebuilt p s d mx now, q) /\
  map q = <[(s, d) := mk_set v (rebuilt p s d mx now) (clamp24 mx)]> (map p) /\
  seq q = seq p + Z.of_nat (length (rebuilt p s d mx now)) /\ relays q = relays p /\
  queued (set_seq p (seq q)) (set_map q (map p)).
Proof.
  unfold rebuild. cbn [alloc_path_id]. pose proof (clamp24_range mx).
  rewrite add_relays_spec by (cbn; lia). cbn [length app seq set_seq].
  fold (rebuilt p s d mx now). set (rs := eligible _ _ _).
  set (v := match map p !! (s, d) with Some st => version st | None => 0 end + 1).
  set (set := mk_set v _ _).
  set (p1 := set_seq _ _). pose proof (push_to_participants_queued p1 s d rs set) as [Hm Hs Hr Hb Hk].
  eexists _, v. split; [done|]. cbn [map seq relays set_map]. rewrite Hm, Hs, Hr.
  assert (He : seq p1 = seq p + Z.of_nat (length (rebuilt p s d mx now))).
  { unfold p1, rebuilt, rs. cbn. rewrite length_fresh. lia. }
  split_and!; [done|done|done|]. split; cbn; rewrite ?Hm, ?Hs, ?Hr; done.
Qed.

Lemma rebuilt_good_set p s d mx now v :
  good_set p (s, d) (seq p + Z.of_nat (length (rebuilt p s d mx now)))
    (mk_set v (rebuilt p s d mx now) (clamp24 mx)).
Proof.
  pose proof (clamp24_range mx). unfold rebuilt. set (rs := take _ _).
  assert (Hrs : (length rs <= Z.to_nat (clamp24 mx) - 1)%nat) by (unfold rs; rewrite length_take; lia).
  split; [|split]; cbn [candidates max].
  - split; [done|]. split; [cbn; rewrite length_fresh; lia|].
    eexists _, _. split; [done|]. split; [done|]. apply fresh_relay.
    intros r Hr. apply (elem_of_eligible r (relays p) s d). by apply (subseteq_take _ _ _ Hr).
  - cbn. constructor; [|apply fresh_nodup].
    intros (c & Hc & Hin%fresh_ids)%list_elem_of_fmap. lia.
  - intros c [->|Hc%fresh_ids]%elem_of_cons; left; cbn [path_id candidate length]; rewrite length_fresh; lia.
Qed.

Lemma request_good p s d mx now : good p (snd (request p s d mx now)).
Proof.
  assert (Hr : good p (snd (rebuild p s d mx now (eligible (relays p) s d)))).
  { destruct (rebuild_spec p s d mx now) as (q & v & -> & Hm & Hs & _ & Hq). cbn [snd].
    etrans; [|apply (queued_good (set_map (set_seq p (seq q)) (map q)) q)].
    - eapply (key_insert _ _ (s, d)); [exact Hm | cbn; rewrite Hs; lia | | done].
      cbn [seq set_map set_seq]. rewrite Hs. apply rebuilt_good_set.
    - destruct Hq as [_ Hqs Hqr Hqb Hqg]. by split. }
  unfold request. destruct (map p !! (s, d)) as [st|]; [|done].
  destruct (expired st now); [done|]. apply queued_good, push_to_participants_queued.
Qed.

(** What the removal of a relay makes of the set of one pair. *)
Definition narrowed (n : Z) (o : option PathSet) : option PathSet :=
  st ← o;
  if existsb (via n) (candidates st) then
    let cs := List.filter (fun c => negb (via n c)) (candidates st) in
    if decide (cs = []) then None else Some (mk_set (version st + 1) cs (max st))
  else Some st.

Lemma narrowed_good p n k st : map p !! k = Some st -> set_ok k st ->
  NoDup (path_id <$> candidates st) -> forall st', narrowed n (map p !! k) = Some st' ->
  good_set p k (seq p) st'.
Proof.
  intros Hk (Hmax & Hlen & c & rest & Hc & Hh & Hrest) Hnd st'. rewrite Hk. cbn.
  destruct (existsb _ _) eqn:E.
  2:{ intros [= <-]. split; [|split]; [|done|by eauto]. split; [done|]. eauto 10. }
  destruct (decide _) as [|Hne]; [done|]. intros [= <-].
  set (f := fun c => negb (via n c)) in *.
  pose proof (bfilter_sublist f (candidates st)) as Hsub.
  pose proof (sublist_length _ _ Hsub) as Hl.
  split; [|split]; cbn [candidates max version]; [| by apply bfilter_nodup|].
  - split; [done|]. cbn [candidates max]. split; [lia|]. rewrite Hc in *. cbn in *.
    assert (Hf : f c = true).
    { unfold f, via. rewrite Hh. destruct (bool_decide_reflect (n ∈ [k.2])) as [Hn|]; [exfalso|done].
      apply list_elem_of_singleton in Hn as ->. apply Hne.
      change (List.filter f (c :: rest) = []). apply bfilter_nil, not_true_is_false. rewrite existsb_elem. intros (x & Hx & Hfx).
      unfold f, via in Hfx. destruct (bool_decide_reflect (k.2 ∈ hops x)) as [|Hno]; [done|].
      apply Hno. apply elem_of_cons in Hx as [->|Hx]; [rewrite Hh; by left|].
      eapply list.Forall_forall in Hrest as (r & -> & _); [|exact Hx]. right. by left. }
    rewrite Hf. eexists _, _. split; [done|]. split; [done|].
    eapply list.Forall_forall. intros x [Hx _]%elem_of_bfilter.
    by eapply list.Forall_forall in Hrest.
  - intros x [Hx _]%elem_of_bfilter. right. eauto.
Qed.

(** Only the set of this pair changes, to [narrowed]. *)
Lemma withdraw_relay_in_set_spec p s d n :
  map (withdraw_relay_in_set p s d n)
    = partial_alter (fun _ => narrowed n (map p !! (s, d))) (s, d) (map p) /\
  seq (withdraw_relay_in_set p s d n) = seq p /\
  relays (withdraw_relay_in_set p s d n) = relays p /\
  grows p (withdraw_relay_in_set p s d n) /\
  queued (set_map p (map (withdraw_relay_in_set p s d n))) (withdraw_relay_in_set p s d n).
Proof.
  assert (Hid : forall o, map p !! (s, d) = o -> partial_alter (fun _ => o) (s, d) (map p) = map p).
  { intros o <-. by apply partial_alter_self. }
  unfold withdraw_relay_in_set, narrowed. destruct (map p !! (s, d)) as [st|] eqn:Hk; cbn [mbind option_bind].
  2:{ rewrite Hid by done. by split_and!. }
  destruct (decide (List.filter (via n) (candidates st) = [])) as [Hf|Hf].
  { rewrite bfilter_nil in Hf. rewrite Hf, Hid by done. by split_and!. }
  rewrite bfilter_nil in Hf. apply not_false_is_true in Hf. rewrite Hf. cbn [candidates].
  set (cs := List.filter (fun c => negb _) _). set (w := List.filter (via n) _).
  destruct (decide (cs = [])).
  - set (p1 := set_map p _). pose proof (withdraw_all_queued s d w p1) as [Hm Hs Hr Hb Hg].
    rewrite Hm, Hs, Hr. split_and!; try done.
  - set (p1 := set_map p _).
    assert (queued p1 (push_unique [] (withdraw_all p1 s d w)
      (Update s d (mk_set (version st + 1) cs (max st))) ([s; d] ++ concat (hops <$> cs))))
      as [Hm Hs Hr Hb Hg] by (etrans; [apply withdraw_all_queued | apply push_unique_queued]).
    rewrite Hm, Hs, Hr. split_and!; try done.
Qed.

Lemma withdraw_relay_in_set_good p s d n : good p (withdraw_relay_in_set p s d n).
Proof.
  destruct (withdraw_relay_in_set_spec p s d n) as (Hm & Hs & Hr & _ & Hq). intros Hp.
  refine (transitivity (R := good) _ (queued_good _ _ Hq) Hp).
  refine (key_update p (set_map p _) (s, d) _ Hm _ _ eq_refl); [done|].
  intros st' Hst. destruct (map p !! (s, d)) as [st|] eqn:Hk; [|done].
  rewrite <- Hk in Hst. eapply narrowed_good in Hst; [exact Hst|exact Hk|by eapply inv_sets|by eapply inv_nodup].
Qed.

(** What the removal of a node makes of the set of a pair. *)
Definition removed (n : Z) (k : Z * Z) (o : option PathSet) : option PathSet :=
  if decide (fst k = n \/ snd k = n) then None else narrowed n o.

Lemma withdraw_one_spec n p k :
  map (withdraw_one n p k) = partial_alter (fun _ => removed n k (map p !! k)) k (map p) /\
  grows p (withdraw_one n p k) /\ good p (withdraw_one n p k).
Proof.
  destruct k as [s d]. unfold withdraw_one, removed. cbn [fst snd]. destruct (decide _).
  - destruct (map p !! (s, d)) as [st|] eqn:Hk.
    + set (p1 := set_map _ _). pose proof (withdraw_all_queued s d (candidates st) p1) as Hq.
      split_and!; [by rewrite (qu_map _ _ Hq) | apply Hq | etrans; [apply key_delete|by apply queued_good]].
    + split_and!; [|done|done]. rewrite <- Hk. symmetry. apply partial_alter_self.
  - destruct (withdraw_relay_in_set_spec p s d n) as (Hm & _ & _ & Hg & _).
    split_and!; [done..|apply withdraw_relay_in_set_good].
Qed.

(** ** Walks over the keys *)

(** A loop whose body touches the set of its own key only, as [R] says. *)
Section Walk.
Variables (f : PathService -> Z * Z -> PathService) (I : PathService -> Prop)
  (R : Z * Z -> option PathSet -> option PathSet -> Prop).
Hypothesis f_other : forall p k k', k <> k' -> map (f p k) !! k' = map p !! k'.
Hypothesis f_keeps : forall p k, I p -> I (f p k).
Hypothesis f_own : forall p k, I p -> R k (map p !! k) (map (f p k) !! k).

Lemma walk_other l k : k ∉ l -> forall p, map (foldl f p l) !! k = map p !! k.
Proof.
  induction l as [|x l IH]; intros Hk p; cbn; [done|].
  apply not_elem_of_cons in Hk as [Hx Hl]. rewrite IH by done. by apply f_other.
Qed.

Lemma walk_own l k : NoDup l -> k ∈ l -> forall p, I p -> R k (map p !! k) (map (foldl f p l) !! k).
Proof.
  induction 1 as [|x l Hx Hnd IH]; intros Hk p Hp; [by apply elem_of_nil in Hk|]. cbn.
  destruct (decide (k = x)) as [->|Hne].
  - rewrite walk_other by done. by apply f_own.
  - apply elem_of_cons in Hk as [?|Hk]; [done|]. rewrite <- (f_other p x k) by done. auto.
Qed.
End Walk.

Lemma visits_nodup p order : visits p order -> NoDup order.
Proof. intros H. rewrite H. apply NoDup_fst_map_to_list. Qed.

Lemma visits_elem p order k st : visits p order -> map p !! k = Some st -> k ∈ order.
Proof.
  intros H Hk. rewrite H. apply list_elem_of_fmap. exists (k, st). split; [done|].
  by apply elem_of_map_to_list.
Qed.

Lemma bfilter_nodup_id {A} (P : A -> bool) l : NoDup l -> NoDup (List.filter P l).
Proof. intros H. eapply sublist_NoDup; [exact H|apply bfilter_sublist]. Qed.

Lemma withdraw_one_other n p k k' : k <> k' -> map (withdraw_one n p k) !! k' = map p !! k'.
Proof. intros. destruct (withdraw_one_spec n p k) as [-> _]. by apply lookup_partial_alter_ne. Qed.

Lemma removed_unaffected p n k : affects p n k = false -> removed n k (map p !! k) = map p !! k.
Proof.
  unfold affects, removed. rewrite !orb_false_iff, !bool_decide_eq_false. intros [[H1 H2] H3].
  rewrite decide_False by tauto. destruct (map p !! k) as [st|]; cbn; [|done]. by rewrite H3.
Qed.

Lemma withdraw_node_lookup p order n k : visits p order ->
  map (withdraw_node p order n) !! k = removed n k (map p !! k).
Proof.
  intros Hv. unfold withdraw_node. destruct (affects p n k) eqn:Ha.
  - destruct (decide (k ∈ order)) as [Hk|Hk].
    + apply (walk_own (withdraw_one n) (fun _ => True) (fun k o o' => o' = removed n k o));
        [apply withdraw_one_other | done | | | by apply elem_of_bfilter | done].
      * intros q x _. destruct (withdraw_one_spec n q x) as [-> _]. by rewrite lookup_partial_alter_eq.
      * by apply bfilter_nodup_id, (visits_nodup p).
    + rewrite walk_other; [|apply withdraw_one_other|by intros [? _]%elem_of_bfilter].
      destruct (map p !! k) as [st|] eqn:E; [by eapply visits_elem in E|].
      unfold removed. by destruct (decide _).
  - rewrite walk_other; [|apply withdraw_one_other|by intros [_ ?]%elem_of_bfilter; congruence].
    by rewrite removed_unaffected.
Qed.

Lemma foldl_grows {A} (f : PathService -> A -> PathService) l :
  (forall p x, grows p (f p x)) -> forall p, grows p (foldl f p l).
Proof.
  intros Hf. induction l as [|x l IH]; intros p; cbn; [reflexivity|].
  etrans; [apply Hf|apply IH].
Qed.

(** The pair of a candidate that involves [n] tells its participants. *)
Lemma withdraw_one_told n p s d st c t : map p !! (s, d) = Some st -> c ∈ candidates st ->
  s = n \/ d = n \/ n ∈ hops c -> t ∈ [s; d] ++ hops c ->
  told (withdraw_one n p (s, d)) t (Withdraw d (path_id c)).
Proof.
  intros Hk Hc Hn Ht. unfold withdraw_one. destruct (decide _) as [|Hne].
  { rewrite Hk. by apply withdraw_all_told. }
  assert (Hin : c ∈ List.filter (via n) (candidates st)).
  { apply elem_of_bfilter. split; [done|]. apply bool_decide_eq_true. tauto. }
  unfold withdraw_relay_in_set. rewrite Hk.
  destruct (decide (_ = [])) as [E|_]; [rewrite E in Hin; by apply elem_of_nil in Hin|].
  destruct (decide (candidates _ = [])); [by apply withdraw_all_told|].
  eapply told_grows; [apply qu_grows, push_unique_queued|]. by apply withdraw_all_told.
Qed.

Lemma withdraw_node_told p order n s d st c t : visits p order ->
  map p !! (s, d) = Some st -> c ∈ candidates st ->
  s = n \/ d = n \/ n ∈ hops c -> t ∈ [s; d] ++ hops c ->
  told (withdraw_node p order n) t (Withdraw d (path_id c)).
Proof.
  intros Hv Hk Hc Hn Ht. unfold withdraw_node.
  assert (Hin : (s, d) ∈ List.filter (affects p n) order).
  { apply elem_of_bfilter. split; [by eapply visits_elem|]. unfold affects. rewrite Hk. cbn.
    rewrite !orb_true_iff, !bool_decide_eq_true. destruct Hn as [?|[?|Hh]]; [auto..|right].
    apply existsb_elem. exists c. split; [done|]. by apply bool_decide_eq_true. }
  pose proof (bfilter_nodup_id (affects p n) order (visits_nodup p order Hv)) as Hnd.
  apply list_elem_of_split in Hin as (l1 & l2 & E). rewrite E in *.
  apply list.NoDup_app in Hnd as (_ & Hd & _). rewrite foldl_app. cbn [foldl].
  eapply told_grows; [apply foldl_grows; intros; apply withdraw_one_spec|].
  eapply withdraw_one_told; [|done..]. rewrite walk_other; [done|apply withdraw_one_other|].
  intros Hx. eapply Hd; [exact Hx|left].
Qed.

(** ** Expansion *)

(** A well-formed set keeps its direct candidate and the relays still listed. *)
Lemma keep_spec p k now rs st : set_ok k st -> exists c rest,
  candidates st = c :: rest /\ hops c = [snd k] /\ Forall (relay_cand k) rest /\
  keep p (snd k) now rs (candidates st)
  = (c :: List.filter (fun c => match head (hops c) with Some r => bool_decide (r ∈ rs) | None => false end) rest, p).
Proof.
  intros (_ & _ & c & rest & -> & Hh & Hrest). exists c, rest. split_and!; [done..|].
  unfold keep. cbn. rewrite Hh. cbn.
  assert (Hd : List.filter (fun c => Nat.eqb (length (hops c)) 1) rest = []).
  { apply bfilter_nil, not_true_is_false. rewrite existsb_elem. intros (x & Hx & He).
    eapply list.Forall_forall in Hrest as (r & E & _); [|exact Hx]. by rewrite E in He. }
  rewrite Hd. cbn. do 2 f_equal. clear Hd.
  induction Hrest as [|x rest (r & E & _) _ IH]; cbn; [done|]. rewrite E. cbn. by rewrite IH.
Qed.

(** What an expansion at [now] with these relays makes of the set of a pair. *)
Definition expanded (rs : list Z) (now : Z) (k : Z * Z) (o o' : option PathSet) : Prop :=
  match o with
  | None => o' = None
  | Some st => exists st', o' = Some st' /\ max st' = max st /\
      (if expired st now then st' = st
       else set_ok k st ->
         (clamp24 (max st) <= Z.of_nat (length (candidates st')) \/
          forall r, r ∈ eligible rs (fst k) (snd k) -> existsb (starts_with r) (candidates st') = true) /\
         (forall c, c ∈ candidates st ->
            hops c = [snd k] \/ (exists r, hops c = [r; snd k] /\ r ∈ rs) -> c ∈ candidates st'))
  end.

Lemma clamp24_id m : 2 <= m <= 4 -> clamp24 m = m.
Proof. unfold clamp24. lia. Qed.

(** The set that an expansion stores. *)
Lemma expand_set p k now st rs : rs = eligible (relays p) (fst k) (snd k) ->
  map p !! k = Some st -> set_ok k st ->
  NoDup (path_id <$> candidates st) -> (forall c, c ∈ candidates st -> path_id c <= seq p) ->
  exists cs n,
    (let '(cs, q) := keep p (snd k) now rs (candidates st) in
     fill (Z.to_nat (clamp24 (max st))) (snd k) now rs cs q) = (cs, set_seq p n) /\ seq p <= n /\
    (clamp24 (max st) <= Z.of_nat (length cs) \/
     forall r, r ∈ rs -> existsb (starts_with r) cs = true) /\
    (forall c, c ∈ candidates st ->
       hops c = [snd k] \/ (exists r, hops c = [r; snd k] /\ r ∈ relays p) -> c ∈ cs) /\
    forall v, good_set p k n (mk_set v cs (max st)).
Proof.
  intros Hrs Hk Hok Hnd Hid. pose proof Hok as (Hmax & Hlen & _). rewrite (clamp24_id _ Hmax).
  destruct (keep_spec p k now rs st Hok) as (c & rest & Hc & Hh & Hrest & ->).
  set (g := fun c => match head (hops c) with Some r => bool_decide (r ∈ rs) | None => false end).
  set (kept := c :: List.filter g rest).
  destruct (fill_spec (Z.to_nat (max st)) (snd k) now rs kept p) as (rs' & Hsub & -> & Hl & Hfull).
  assert (Hkept : kept `sublist_of` candidates st).
  { rewrite Hc. apply sublist_skip, bfilter_sublist. }
  pose proof (sublist_length _ _ Hkept).
  assert (Hin : forall x, x ∈ kept -> x ∈ candidates st) by (intros x Hx; by eapply elem_of_sublist).
  eexists _, _. split; [done|]. split; [lia|]. rewrite length_app, length_fresh. split_and!.
  - destruct Hfull as [?|?]; [left; lia | by right].
  - intros x Hx Hw. apply elem_of_app. left. unfold kept. rewrite Hc in Hx.
    apply elem_of_cons in Hx as [->|Hx]; [left|right].
    apply elem_of_bfilter. split; [done|].
    pose proof Hrest as Hrest'.
    eapply list.Forall_forall in Hrest' as (r & E & Hs & Hd); [|exact Hx]. unfold g. rewrite E. cbn.
    destruct Hw as [Hw|(r' & Hw & Hr)]; rewrite E in Hw; [done|]. injection Hw as <-.
    apply bool_decide_eq_true. rewrite Hrs. by apply elem_of_eligible.
  - intros v. split; [|split]; [split; [done|]|..]; cbn [candidates max].
    + rewrite length_app, length_fresh. split; [lia|]. unfold kept.
      eexists c, (List.filter g rest ++ _). split; [done|]. split; [done|].
      apply list.Forall_app. split.
      * eapply list.Forall_forall. intros x [Hx _]%elem_of_bfilter. by eapply list.Forall_forall in Hrest.
      * destruct k as [s d]. apply fresh_relay. intros r Hr%Hsub. rewrite Hrs in Hr.
        apply elem_of_eligible in Hr. tauto.
    + rewrite fmap_app. apply list.NoDup_app. split_and!; [| |apply fresh_nodup].
      * eapply sublist_NoDup; [exact Hnd|]. by apply fmap_sublist.
      * intros i (x & -> & Hx%Hin%Hid)%list_elem_of_fmap (y & Hy & Hfy%fresh_ids)%list_elem_of_fmap. lia.
    + intros x [Hx|Hx%fresh_ids]%elem_of_app; [right; eauto | left; lia].
Qed.

Lemma expand_one_spec now p k rs : relays p = rs ->
  (forall k', k <> k' -> map (expand_one now p k) !! k' = map p !! k') /\
  relays (expand_one now p k) = rs /\ good p (expand_one now p k).
Proof.
  intros Hrs. destruct k as [s d]. unfold expand_one.
  destruct (map p !! (s, d)) as [st|] eqn:Hk; [|done]. destruct (expired st now); [done|].
  destruct (negb _); [done|].
  destruct (keep _ _ _ _ _) as [cs0 p0] eqn:Ek. destruct (fill _ _ _ _ _ _) as [cs p1] eqn:Ef.
  set (set := mk_set _ _ _). set (es := eligible _ _ _) in *.
  pose proof (push_to_participants_queued p1 s d es set) as [Hm Hs Hr Hb Hg].
  assert (Hp1 : map p1 = map p /\ relays p1 = relays p).
  { destruct (fill_spec (Z.to_nat (clamp24 (max st))) d now es cs0 p0) as (rs' & _ & Ef' & _).
    rewrite Ef in Ef'. injection Ef' as _ ->. unfold keep in Ek.
    destruct (List.filter _ _); cbn in Ek; injection Ek as _ <-; done. }
  destruct Hp1 as [Hm1 Hr1]. split_and!.
  - intros k' Hne. cbn [map set_map]. rewrite Hm, Hm1. by rewrite lookup_insert_ne.
  - cbn [relays set_map]. congruence.
  - intros Hp.
    destruct (expand_set p (s, d) now st es eq_refl Hk (inv_sets p Hp _ _ Hk) (inv_nodup p Hp _ _ Hk))
      as (cs' & n & E & Hn & _ & _ & Hgood).
    { intros c Hc. by apply (inv_range p Hp _ _ _ Hk Hc). }
    cbn [snd] in E. rewrite Ek, Ef in E. injection E as <- ->.
    refine (transitivity (R := good) (y := set_map (set_seq p n) (<[(s, d) := set]> (map p))) _ _ Hp).
    + eapply key_insert; [done|done| |done]. apply Hgood.
    + apply queued_good.
      split; cbn [map seq relays set_map set_seq]; rewrite ?Hm, ?Hs, ?Hr; done.
Qed.

Lemma expand_one_own now rs p k : relays p = rs /\ inv p ->
  expanded rs now k (map p !! k) (map (expand_one now p k) !! k).
Proof.
  intros [Hrs Hp]. destruct k as [s d]. unfold expand_one, expanded.
  destruct (map p !! (s, d)) as [st|] eqn:Hk; [|by rewrite Hk].
  destruct (expired st now); [by eauto|]. cbn [fst snd].
  pose proof (inv_sets p Hp _ _ Hk) as Hok. rewrite <- Hrs.
  destruct (existsb (fun r => negb _) _) eqn:E; cbn [negb].
  2:{ exists st. split_and!; [done|done|]. intros _. split; [right|done]. intros r Hr.
      apply not_false_is_true. intros Hf. apply not_true_iff_false in E. apply E.
      apply existsb_elem. exists r. by rewrite Hf. }
  destruct (expand_set p (s, d) now st _ eq_refl Hk Hok (inv_nodup p Hp _ _ Hk))
    as (cs' & n & E' & Hn & Hfull & Hkeep & Hgood).
  { intros c Hc. by apply (inv_range p Hp _ _ _ Hk Hc). }
  cbn [fst snd] in *. destruct (keep _ _ _ _ _) as [cs0 p0]. rewrite E'. cbn [map set_map].
  rewrite lookup_insert_eq. eexists. split; [done|]. split; [done|]. done.
Qed.

(** ** Executions *)

Inductive Op :=
| SetRelays (rs : list Z)
| Request (source dest mx now : Z)
| WithdrawNode (order : list (Z * Z)) (node : Z)
| WithdrawRelay (order : list (Z * Z)) (node : Z)
| Expand (order : list (Z * Z)) (now : Z)
| TakeEvents (node : Z)
| Restart.

(** A restart: the persisted entries make the map again, the queues are lost. *)
Definition restart (p : PathService) : PathService :=
  let '(l, n) := persistent p in restore new (list_to_map l) n.

Definition apply (p : PathService) (o : Op) : PathService :=
  match o with
  | SetRelays rs => set_relays p rs
  | Request s d mx now => snd (request p s d mx now)
  | WithdrawNode order n => withdraw_node p order n
  | WithdrawRelay order n => withdraw_relay p order n
  | Expand order now => expand_relay_candidates p order now
  | TakeEvents n => snd (take_events p n)
  | Restart => restart p
  end.

Definition op_ok (p : PathService) (o : Op) : Prop :=
  match o with
  | WithdrawNode order _ | WithdrawRelay order _ | Expand order _ => visits p order
  | _ => True
  end.

Inductive stepped (p : PathService) : PathService -> Prop :=
| stepped_op o : op_ok p o -> stepped p (apply p o).

Lemma foldl_good {A} (f : PathService -> A -> PathService) l :
  (forall p x, good p (f p x)) -> forall p, good p (foldl f p l).
Proof. intros Hf. induction l as [|x l IH]; intros p; cbn; [done|]. by etrans; [apply Hf|apply IH]. Qed.

Lemma restart_map p : map (restart p) = map p /\ seq (restart p) = seq p.
Proof.
  unfold restart, persistent. cbn. split; [|done].
  rewrite <- (list_to_map_to_list (map p)) at 2. apply list_to_map_proper; [|apply sort_perm].
  rewrite sort_perm. apply NoDup_fst_map_to_list.
Qed.

Lemma apply_good p o : good p (apply p o).
Proof.
  destruct o as [rs|s d mx now|order n|order n|order now|n|]; cbn [apply].
  - intros []. split; [by split | split; [done|eauto]].
  - apply request_good.
  - apply foldl_good. intros q k. apply withdraw_one_spec.
  - apply foldl_good. intros q k. apply withdraw_relay_in_set_good.
  - apply foldl_good. intros q k. by eapply expand_one_spec.
  - intros []. split; [split; try done | split; [done|eauto]]. cbn.
    intros m l. rewrite lookup_delete_Some. intros [_ ?]. eauto.
  - destruct (restart_map p) as [Hm Hs]. intros [].
    split; [split; rewrite ?Hm, ?Hs; eauto | split; [lia|rewrite Hm; eauto]]. done.
Qed.

Lemma new_inv : inv new.
Proof. by split; try (intros *; rewrite lookup_empty). Qed.

Lemma steps_good p q : rtc stepped p q -> good p q.
Proof. induction 1 as [|p q r [o _] _ IH]; [done|]. etrans; [apply apply_good|exact IH]. Qed.

Lemma reachable_inv p : rtc stepped new p -> inv p.
Proof. intros H. by apply (steps_good _ _ H), new_inv. Qed.

(** What is left after a withdrawal does not name the node. *)
Lemma withdraw_node_clean p order n k st : visits p order ->
  map (withdraw_node p order n) !! k = Some st ->
  fst k <> n /\ snd k <> n /\ forall c, c ∈ candidates st -> n ∉ hops c.
Proof.
  intros Hv. rewrite withdraw_node_lookup by done. unfold removed.
  destruct (decide _) as [|Hn]; [done|]. intros Hst. split_and!; [tauto..|].
  destruct (map p !! k) as [st0|]; [|done]. cbn in Hst. intros c Hc.
  destruct (existsb (via n) (candidates st0)) eqn:E.
  - destruct (decide _); [done|]. injection Hst as <-. apply elem_of_bfilter in Hc as [_ Hc].
    unfold via in Hc. by destruct (bool_decide_reflect (n ∈ hops c)).
  - injection Hst as <-. intros Hh. apply not_true_iff_false in E. apply E, existsb_elem.
    exists c. split; [done|]. by apply bool_decide_eq_true.
Qed.

(** No operation but [set_relays] changes the relays. *)
Lemma foldl_relays {A} (f : PathService -> A -> PathService) l :
  (forall p x, relays (f p x) = relays p) -> forall p, relays (foldl f p l) = relays p.
Proof. intros Hf. induction l as [|x l IH]; intros p; cbn; [done|]. by rewrite IH. Qed.

Lemma request_relays p s d mx now : relays (snd (request p s d mx now)) = relays p.
Proof.
  assert (Hr : relays (snd (rebuild p s d mx now (eligible (relays p) s d))) = relays p).
  { by destruct (rebuild_spec p s d mx now) as (q & v & -> & _ & _ & Hr & _). }
  unfold request. destruct (map p !! (s, d)) as [st|]; [|done].
  destruct (expired st now); [done|]. apply (qu_relays _ _ (push_to_participants_queued _ _ _ _ _)).
Qed.

Lemma withdraw_node_relays p order n : relays (withdraw_node p order n) = relays p.
Proof.
  apply foldl_relays. intros q [s d]. unfold withdraw_one. destruct (decide _).
  - destruct (map q !! _) as [st|]; [|done].
    by rewrite (qu_relays _ _ (withdraw_all_queued s d (candidates st) _)).
  - by destruct (withdraw_relay_in_set_spec q s d n) as (_ & _ & ? & _).
Qed.

Lemma withdraw_relay_relays p order n : relays (withdraw_relay p order n) = relays p.
Proof.
  apply foldl_relays. intros q k. by destruct (withdraw_relay_in_set_spec q (fst k) (snd k) n) as (_ & _ & ? & _).
Qed.

Lemma expand_relays p order now : relays (expand_relay_candidates p order now) = relays p.
Proof. apply foldl_relays. intros q k. by destruct (expand_one_spec now q k (relays q) eq_refl) as (_ & ? & _). Qed.

(** ** Properties *)

(** In every state the service can reach, restarts included, each pair has one
    direct candidate and then relayed ones through third nodes, 2 to 4 at most
    as asked for; identifiers are positive, at most the allocator, and unique
    over all pairs; no event queue is longer than 1024. *)
Theorem path_invariant (p : PathService) (Hp : rtc stepped new p) :
  (forall k st, map p !! k = Some st -> set_ok k st /\ NoDup (path_id <$> candidates st)) /\
  (forall k k' st st' c c', map p !! k = Some st -> map p !! k' = Some st' ->
     c ∈ candidates st -> c' ∈ candidates st' -> path_id c = path_id c' ->
     1 <= path_id c <= seq p /\ k = k') /\
  (forall n l, pending p !! n = Some l -> (length l <= PENDING_EVENTS_MAX)%nat).
Proof.
  destruct (reachable_inv p Hp) as [I1 I2 I3 I4 _ I6]. split_and!; [eauto| |done].
  intros k k' st st' c c' H1 H2 H3 H4 H5. split; [exact (I3 _ _ _ H1 H3) | exact (I4 _ _ _ _ _ _ H1 H2 H3 H4 H5)].
Qed.

(** An identifier is never given to another path.  A candidate seen now and a
    candidate seen at any later time, after any operations and restarts, that
    carry the same identifier are the same candidate of the same pair: a path
    key derived from an identifier never changes its meaning. *)
Theorem path_id_stable (p q : PathService) (k k' : Z * Z) (st st' : PathSet) (c c' : PathCandidate)
  (Hp : rtc stepped new p) (Hq : rtc stepped p q)
  (Hk : map p !! k = Some st) (Hc : c ∈ candidates st)
  (Hk' : map q !! k' = Some st') (Hc' : c' ∈ candidates st')
  (Hid : path_id c = path_id c') : k = k' /\ c = c'.
Proof.
  pose proof (reachable_inv p Hp) as Ip. destruct (steps_good _ _ Hq Ip) as [_ [_ He]].
  pose proof (inv_range p Ip _ _ _ Hk Hc).
  destruct (He _ _ _ Hk' Hc') as [?|(st0 & Hk0 & Hc0)]; [lia|].
  pose proof (inv_owner p Ip _ _ _ _ _ _ Hk Hk0 Hc Hc0 Hid) as <-. simplify_eq. split; [done|].
  pose proof (inv_nodup p Ip _ _ Hk) as Hnd.
  apply list_elem_of_lookup in Hc as [i Hi]. apply list_elem_of_lookup in Hc0 as [j Hj].
  assert (i = j) as <-; [|congruence]. eapply NoDup_lookup; [exact Hnd|..];
    rewrite list_lookup_fmap_Some; eauto.
Qed.

(** Revocation.  In whatever order the pairs are visited, after the withdrawal of
    a node no pair and no hop names it any more, every candidate that does not
    involve it is still there, and for every candidate that did, both ends and
    every hop have the withdrawal in their queues, a full queue excepted. *)
Theorem withdraw_node_complete (p : PathService) (order : list (Z * Z)) (n : Z)
  (Hv : visits p order) :
  let q := withdraw_node p order n in
  (forall k st, map q !! k = Some st ->
     fst k <> n /\ snd k <> n /\ forall c, c ∈ candidates st -> n ∉ hops c) /\
  (forall k st c, map p !! k = Some st -> c ∈ candidates st ->
     fst k <> n -> snd k <> n -> n ∉ hops c ->
     exists st', map q !! k = Some st' /\ c ∈ candidates st') /\
  (forall s d st c t, map p !! (s, d) = Some st -> c ∈ candidates st ->
     s = n \/ d = n \/ n ∈ hops c -> t ∈ [s; d] ++ hops c ->
     told q t (Withdraw d (path_id c))).
Proof.
  intros q. split_and!.
  - intros k st. by apply withdraw_node_clean.
  - intros k st c Hk Hc H1 H2 Hh. unfold q. rewrite withdraw_node_lookup by done. unfold removed.
    rewrite decide_False by tauto. rewrite Hk. cbn.
    destruct (existsb _ _) eqn:E; [|by eauto].
    assert (Hin : c ∈ List.filter (fun c => negb (via n c)) (candidates st)).
    { apply elem_of_bfilter. split; [done|]. unfold via. by rewrite bool_decide_false. }
    destruct (decide _) as [E'|]; [rewrite E' in Hin; by apply elem_of_nil in Hin|]. eauto.
  - intros s d st c t Hk Hc Hinv Ht. apply (withdraw_node_told p order n s d st c t); done.
Qed.

(** Expansion after a roster change.  In whatever order the pairs are visited,
    every unexpired set of a reachable service ends up either with a candidate
    for each eligible relay or full at its budget; its direct candidate and
    those through relays still listed keep their identifiers, expired sets and
    pairs without a set stay as they are. *)
Theorem expand_complete (p : PathService) (order : list (Z * Z)) (now : Z)
  (Hp : rtc stepped new p) (Hv : visits p order) (k : Z * Z) :
  expanded (relays p) now k (map p !! k) (map (expand_relay_candidates p order now) !! k) /\
  inv (expand_relay_candidates p order now).
Proof.
  pose proof (reachable_inv p Hp) as Ip.
  split; [|by apply (apply_good p (Expand order now))].
  unfold expand_relay_candidates. destruct (map p !! k) as [st|] eqn:Hk.
  - rewrite <- Hk. apply (walk_own (expand_one now) (fun q => relays q = relays p /\ inv q)).
    + intros q x x' Hne. by eapply expand_one_spec.
    + intros q x [Hr Hq]. destruct (expand_one_spec now q x _ Hr) as (_ & ? & Hg).
      split; [done|]. by apply Hg.
    + intros q x Hq. by apply expand_one_own.
    + by eapply visits_nodup.
    + by eapply visits_elem.
    + done.
  - rewrite (walk_other (expand_one now)); [by rewrite Hk| |].
    + intros q x x' Hne. by eapply expand_one_spec.
    + intros Hin. rewrite Hv in Hin. apply list_elem_of_fmap in Hin as ([k' st] & -> & H%elem_of_map_to_list).
      cbn in Hk. congruence.
Qed.

Lemma rebuilt_expired p s d mx now now' v : 0 <= now <= now' -> now' <= now + PATH_DEFAULT_TTL ->
  expired (mk_set v (rebuilt p s d mx now) (clamp24 mx)) now' = false.
Proof.
  intros H1 H2. unfold expired, rebuilt. cbn.
  rewrite (bool_decide_false (now' > _)) by (unfold PATH_DEFAULT_TTL in *; lia).
  by rewrite andb_false_r.
Qed.

(** A request returns the stored candidates while one of them is unexpired, and
    allocates nothing; otherwise it stores and returns a direct candidate and
    then one per eligible relay in roster order, up to 2 to 4 in all, numbered
    on from the allocator.  Asking again within the hour gives the same answer
    and leaves the map and the allocator as they are. *)
Theorem request_idempotent (p : PathService) (s d mx mx' now now' : Z)
  (Hnow : 0 <= now <= now') (Httl : now' <= now + PATH_DEFAULT_TTL) :
  let '(cs, q) := request p s d mx now in
  match map p !! (s, d) with
  | Some st => if expired st now then cs = rebuilt p s d mx now
               else cs = candidates st /\ map q = map p /\ seq q = seq p
  | None => cs = rebuilt p s d mx now
  end /\
  (exists st, map q !! (s, d) = Some st /\ candidates st = cs) /\
  (match map p !! (s, d) with Some st => expired st now = true | None => True end ->
   let '(cs', q') := request q s d mx' now' in
   cs' = cs /\ map q' = map q /\ seq q' = seq q).
Proof.
  assert (Hlive : forall q st, map q !! (s, d) = Some st -> expired st now' = false ->
    let '(cs', q') := request q s d mx' now' in cs' = candidates st /\ map q' = map q /\ seq q' = seq q).
  { intros q st Hk He. unfold request. rewrite Hk, He.
    by destruct (push_to_participants_queued q s d (eligible (relays q) s d) st). }
  destruct (rebuild_spec p s d mx now) as (q & v & Er & Hm & _).
  assert (Hq : map q !! (s, d) = Some (mk_set v (rebuilt p s d mx now) (clamp24 mx))).
  { by rewrite Hm, lookup_insert_eq. }
  unfold request. destruct (map p !! (s, d)) as [st|] eqn:Hk; [destruct (expired st now) eqn:He|].
  - rewrite Er. split_and!; [done|by eauto|]. intros _.
    by apply (Hlive q _ Hq), rebuilt_expired.
  - destruct (push_to_participants_queued p s d (eligible (relays p) s d) st) as [Hm' Hs' _ _ _].
    split_and!; [done..| |done]. exists st. by rewrite Hm'.
  - rewrite Er. split_and!; [done|by eauto|]. intros _.
    by apply (Hlive q _ Hq), rebuilt_expired.
Qed.

(** Dropping a node from the relay roster also takes away every path to it: the
    destination is a hop of each of its candidates, so every set whose
    destination is the node is removed whole, direct candidate included. *)
Theorem roster_drop_unroutes (p : PathService) (order : list (Z * Z)) (n s : Z)
  (Hp : rtc stepped new p) (Hv : visits p order) :
  map (withdraw_relay p order n) !! (s, n) = None.
Proof.
  pose proof (reachable_inv p Hp) as Ip. unfold withdraw_relay.
  set (f := fun q k => withdraw_relay_in_set q (fst k) (snd k) n).
  assert (Hf : forall q k, map (f q k) = partial_alter (fun _ => narrowed n (map q !! k)) k (map q)).
  { intros q [a b]. exact (proj1 (withdraw_relay_in_set_spec q a b n)). }
  assert (Hother : forall q k k', k <> k' -> map (f q k) !! k' = map q !! k').
  { intros q k k' Hne. rewrite Hf. by apply lookup_partial_alter_ne. }
  destruct (map p !! (s, n)) as [st|] eqn:Hk.
  2:{ rewrite (walk_other f Hother); [done|]. intros [Hin H]%elem_of_bfilter. by rewrite Hk in H. }
  pose proof (inv_sets p Ip _ _ Hk) as (_ & _ & c & rest & Hc & Hh & Hrest).
  assert (Hvia : forall x, x ∈ candidates st -> via n x = true).
  { intros x Hx. apply bool_decide_eq_true. rewrite Hc in Hx.
    apply elem_of_cons in Hx as [->|Hx]; [rewrite Hh; by left|].
    eapply list.Forall_forall in Hrest as (r & -> & _); [|exact Hx]. right. by left. }
  assert (Hex : existsb (via n) (candidates st) = true).
  { apply existsb_elem. exists c. rewrite Hc. split; [left|]. apply Hvia. rewrite Hc. left. }
  assert (Hn : narrowed n (Some st) = None).
  { cbn. rewrite Hex. rewrite decide_True; [done|].
    apply bfilter_nil, not_true_is_false. rewrite existsb_elem. intros (x & Hx & E).
    by rewrite Hvia in E. }
  rewrite <- Hn, <- Hk.
  apply (walk_own f (fun _ => True) (fun k o o' => o' = narrowed n o)); [exact Hother|done| | | |done].
  - intros q k _. rewrite Hf. by rewrite lookup_partial_alter_eq.
  - by eapply bfilter_nodup_id, visits_nodup.
  - apply elem_of_bfilter. split; [by eapply visits_elem|]. by rewrite Hk.
Qed.

(** *** A sample execution *)

Definition sample : PathService :=
  snd (request (snd (request (set_relays new [8; 9]) 1 2 4 100)) 1 3 2 100).

Lemma sample_reachable : rtc stepped new sample.
Proof.
  eapply rtc_l; [exact (stepped_op new (SetRelays [8; 9]) I)|].
  eapply rtc_l; [exact (stepped_op _ (Request 1 2 4 100) I)|].
  eapply rtc_l; [exact (stepped_op _ (Request 1 3 2 100) I)|]. apply rtc_refl.
Qed.

Lemma sample_visits : visits sample [(1, 3); (1, 2)].
Proof.
  assert (E : (map_to_list (map sample)).*1 = [(1, 3); (1, 2)]) by (vm_compute; reflexivity).
  unfold visits. by rewrite E.
Qed.

Definition sample_ids (p : PathService) (k : Z * Z) : list Z :=
  match map p !! k with Some st => path_id <$> candidates st | None => [] end.

Lemma path_invariant_witness :
  sample_ids sample (1, 2) = [1; 2; 3] /\
  (forall k st, map sample !! k = Some st -> set_ok k st /\ NoDup (path_id <$> candidates st)) /\
  (forall k k' st st' c c', map sample !! k = Some st -> map sample !! k' = Some st' ->
     c ∈ candidates st -> c' ∈ candidates st' -> path_id c = path_id c' ->
     1 <= path_id c <= seq sample /\ k = k') /\
  (forall n l, pending sample !! n = Some l -> (length l <= PENDING_EVENTS_MAX)%nat).
Proof. split; [vm_compute; reflexivity|]. exact (path_invariant sample sample_reachable). Defined.

Lemma path_id_stable_witness :
  let c := candidate 2 [8; 2] 100 in (1, 2) = (1, 2) /\ c = c.
Proof.
  intros c.
  assert (Hs : rtc stepped sample (apply sample Restart)).
  { eapply rtc_l; [exact (stepped_op sample Restart I)|]. apply rtc_refl. }
  eapply (path_id_stable sample (apply sample Restart) (1, 2) (1, 2) _ _ c c sample_reachable Hs);
    [vm_compute; reflexivity | cbn; do 1 right; left | vm_compute; reflexivity | cbn; right; left | reflexivity].
Defined.

Lemma withdraw_node_complete_witness :
  let q := withdraw_node sample [(1, 3); (1, 2)] 8 in
  sample_ids q (1, 2) = [1; 3] /\ sample_ids q (1, 3) = [4] /\
  told q 8 (Withdraw 2 2).
Proof.
  intros q. split; [vm_compute; reflexivity|]. split; [vm_compute; reflexivity|].
  destruct (withdraw_node_complete sample [(1, 3); (1, 2)] 8 sample_visits) as (_ & _ & H).
  eapply (H 1 2 _ (candidate 2 [8; 2] 100) 8); [vm_compute; reflexivity | right; left | | ].
  - right. right. left.
  - right. right. left.
Defined.

Lemma expand_complete_witness :
  let p := set_relays sample [9; 7] in
  sample_ids p (1, 2) = [1; 2; 3] /\
  sample_ids (expand_relay_candidates p [(1, 3); (1, 2)] 200) (1, 2) = [1; 3; 7] /\
  inv (expand_relay_candidates p [(1, 3); (1, 2)] 200).
Proof.
  intros p. split; [vm_compute; reflexivity|]. split; [vm_compute; reflexivity|].
  apply (expand_complete p [(1, 3); (1, 2)] 200) with (k := (1, 2)).
  - eapply rtc_r; [exact sample_reachable | exact (stepped_op _ (SetRelays [9; 7]) I)].
  - exact sample_visits.
Defined.

Lemma request_idempotent_witness :
  let '(cs, q) := request sample 4 5 3 100 in
  path_id <$> cs = [6; 7; 8] /\
  let '(cs', q') := request q 4 5 2 3000 in cs' = cs /\ map q' = map q /\ seq q' = seq q.
Proof.
  pose proof (request_idempotent sample 4 5 3 2 100 3000 ltac:(lia) ltac:(unfold PATH_DEFAULT_TTL; lia)) as H.
  assert (E : path_id <$> fst (request sample 4 5 3 100) = [6; 7; 8]) by (vm_compute; reflexivity).
  destruct (request sample 4 5 3 100) as [cs q]. destruct H as (_ & _ & H).
  split; [exact E|]. apply H.
  replace (map sample !! (4, 5)) with (@None PathSet) by (vm_compute; reflexivity). exact I.
Defined.

Lemma roster_drop_unroutes_witness :
  sample_ids sample (1, 2) = [1; 2; 3] /\
  map (withdraw_relay sample [(1, 3); (1, 2)] 2) !! (1, 2) = None.
Proof.
  split; [vm_compute; reflexivity|].
  exact (roster_drop_unroutes sample [(1, 3); (1, 2)] 2 1 sample_reachable sample_visits).
Defined.

(** Expansion is not deterministic.  From one reachable state, two orders in which
    the hash map may be walked give one path different identifiers: replicas
    that apply the same roster change disagree on identifiers and path keys. *)
Theorem expand_order_dependent :
  let p := set_relays sample [7] in
  rtc stepped new p /\ visits p [(1, 2); (1, 3)] /\ visits p [(1, 3); (1, 2)] /\
  sample_ids (expand_relay_candidates p [(1, 2); (1, 3)] 200) (1, 2)
  <> sample_ids (expand_relay_candidates p [(1, 3); (1, 2)] 200) (1, 2).
Proof.
  intros p. split_and!.
  - eapply rtc_r; [exact sample_reachable | exact (stepped_op _ (SetRelays [7]) I)].
  - unfold visits. change (map p) with (map sample). rewrite <- sample_visits. apply Permutation_swap.
  - exact sample_visits.
  - vm_compute. discriminate.
Qed.

End PathService.
