(* ===== verification/RouteMap.v ===== *)
(** * The coordinator's route map (rill-coord/src/route_map.rs)

    Which node reaches which external prefix, as the nodes' BGP tables report
    it: increments are checked against the node's announced aggregates and a
    per-node limit, and a prefix that flaps is damped. *)

From S2P Require Import Prelude Net Route.

Module RouteMap.
Import Net Route.

#[export] Instance Prefix_countable : Countable Prefix.
Proof.
  refine (inj_countable' (fun p => (bits p, plen p, v4 p))
            (fun '(b, l, f) => mk_prefix b l f) _).
  by intros [].
Defined.

Definition ROUTE_MAP_MAX_PER_NODE : Z := 2000.
Definition FLAP_WINDOW_SECS : Z := 600.
Definition FLAP_LIMIT : nat := 3.

Record RouteSyncOutcome := mk_out {
  accepted : Z;
  rejected_coverage : Z;
  rejected_cap : Z;
  damped : Z;
  changed : bool
}.

Definition no_outcome : RouteSyncOutcome := mk_out 0 0 0 0 false.

Record RouteMapSnapshotEntry := mk_snap { prefix : Prefix; node_id : Z; next_hop : string }.

Abbreviation Key := (Prefix * Z)%type.

Record RouteMapService := mk_service {
  entries : gmap Key string;
  per_node : gmap Z Z;
  flaps : gmap Key (list Z);
  damped_until : gmap Key Z;
  version : Z
}.

Definition new : RouteMapService := mk_service ∅ ∅ ∅ ∅ 0.

Definition set_entries (s : RouteMapService) (m : gmap Key string) (p : gmap Z Z) : RouteMapService :=
  mk_service m p (flaps s) (damped_until s) (version s).
Definition set_flaps (s : RouteMapService) (m : gmap Key (list Z)) : RouteMapService :=
  mk_service (entries s) (per_node s) m (damped_until s) (version s).
Definition set_damped (s : RouteMapService) (m : gmap Key Z) : RouteMapService :=
  mk_service (entries s) (per_node s) (flaps s) m (version s).
Definition bump (s : RouteMapService) : RouteMapService :=
  mk_service (entries s) (per_node s) (flaps s) (damped_until s) (sat_add 64 (version s) 1).

Definition is_damped (s : RouteMapService) (k : Key) (now : Z) : bool :=
  match damped_until s !! k with Some until => bool_decide (now < until) | None => false end.

Definition present (s : RouteMapService) (k : Key) : bool := bool_decide (is_Some (entries s !! k)).

(** The timestamps of a key that are still in the window. *)
Definition recent (now : Z) (ts : list Z) : list Z :=
  List.filter (fun t => bool_decide (sat_sub now t <= FLAP_WINDOW_SECS)) ts.

Definition flip (s : RouteMapService) (node : Z) (p : Prefix) (now : Z) : bool * RouteMapService :=
  let ts := recent now (default [] (flaps s !! (p, node))) ++ [now] in
  (bool_decide (FLAP_LIMIT <= length ts)%nat, set_flaps s (<[(p, node) := ts]> (flaps s))).

Definition remove_entry (s : RouteMapService) (k : Key) : bool * RouteMapService :=
  match entries s !! k with
  | Some _ =>
      (true, set_entries s (delete k (entries s))
               (match per_node s !! k.2 with
                | Some n => <[k.2 := sat_sub n 1]> (per_node s)
                | None => per_node s
                end))
  | None => (false, s)
  end.

Definition start_damping (s : RouteMapService) (k : Key) (now : Z) : RouteMapService :=
  set_damped s (<[k := wrap 64 (now + FLAP_WINDOW_SECS)]> (damped_until s)).

Definition add_accepted (o : RouteSyncOutcome) :=
  mk_out (accepted o + 1) (rejected_coverage o) (rejected_cap o) (damped o) (changed o).
Definition add_coverage (o : RouteSyncOutcome) :=
  mk_out (accepted o) (rejected_coverage o + 1) (rejected_cap o) (damped o) (changed o).
Definition add_cap (o : RouteSyncOutcome) :=
  mk_out (accepted o) (rejected_coverage o) (rejected_cap o + 1) (damped o) (changed o).
Definition add_damped (o : RouteSyncOutcome) :=
  mk_out (accepted o) (rejected_coverage o) (rejected_cap o) (damped o + 1) (changed o).
Definition set_changed (o : RouteSyncOutcome) :=
  mk_out (accepted o) (rejected_coverage o) (rejected_cap o) (damped o) true.

(** [entries.insert] with the count of the node when the key is new. *)
Definition put (s : RouteMapService) (k : Key) (nh : string) : bool * RouteMapService :=
  match entries s !! k with
  | Some _ => (false, set_entries s (<[k := nh]> (entries s)) (per_node s))
  | None => (true, set_entries s (<[k := nh]> (entries s))
                     (<[k.2 := default 0 (per_node s !! k.2) + 1]> (per_node s)))
  end.

Section Sync.
Context (node : Z) (coverage : list Prefix) (max_per_node now : Z).

(** The body of the loop over [announced]. *)
Definition announce_one (so : RouteMapService * RouteSyncOutcome) (a : Prefix * string)
    : RouteMapService * RouteSyncOutcome :=
  let '(s, out) := so in
  let '(p, nh) := a in
  let k := (p, node) in
  if is_damped s k now then (s, add_damped out)
  else if negb (existsb (fun c => is_covered_by p c) coverage) then (s, add_coverage out)
  else
    let is_new := negb (present s k) in
    if is_new && bool_decide (max_per_node <= default 0 (per_node s !! node)) then (s, add_cap out)
    else
      let '(hit, s) := if is_new then flip s node p now else (false, s) in
      if hit then (start_damping s k now, add_damped out)
      else
        let '(fresh, s) := put s k nh in
        (s, add_accepted (if fresh then set_changed out else out)).

(** The body of the loop over [withdrawn]. *)
Definition withdraw_one (so : RouteMapService * RouteSyncOutcome) (p : Prefix)
    : RouteMapService * RouteSyncOutcome :=
  let '(s, out) := so in
  let k := (p, node) in
  if is_damped s k now then (s, add_damped out)
  else
    let '(hit, s) := if present s k then flip s node p now else (false, s) in
    let s := if hit then start_damping s k now else s in
    let '(gone, s) := remove_entry s k in
    (s, if gone then set_changed out else out).

Definition apply_sync (s : RouteMapService) (announced : list (Prefix * string)) (withdrawn : list Prefix)
    : RouteSyncOutcome * RouteMapService :=
  let '(s, out) := foldl withdraw_one (foldl announce_one (s, no_outcome) announced) withdrawn in
  (out, if changed out then bump s else s).
End Sync.

Definition of_node (node : Z) {V} (m : gmap Key V) : gmap Key V :=
  filter (fun kv => kv.1.2 = node) m.
Definition not_of_node (node : Z) {V} (m : gmap Key V) : gmap Key V :=
  filter (fun kv => kv.1.2 <> node) m.

Definition withdraw_node (s : RouteMapService) (node : Z) : bool * RouteMapService :=
  let kept := not_of_node node (entries s) in
  if decide (size kept = size (entries s)) then (false, set_entries s kept (per_node s))
  else (true, mk_service kept (delete node (per_node s)) (not_of_node node (flaps s))
                (not_of_node node (damped_until s)) (sat_add 64 (version s) 1)).

(** The snapshot walks a hash map ([order]) and sorts by text and node. *)
Definition snap_le (a b : RouteMapSnapshotEntry) : bool :=
  match String.compare (to_cidr (prefix a)) (to_cidr (prefix b)) with
  | Lt => true
  | Gt => false
  | Eq => bool_decide (node_id a <= node_id b)
  end.

Definition snapshot (s : RouteMapService) (order : list (Key * string)) : list RouteMapSnapshotEntry :=
  sort snap_le ((fun '((p, n), nh) => mk_snap p n nh) <$> order).

Definition len (s : RouteMapService) : nat := size (entries s).

Definition is_empty (s : RouteMapService) : bool := bool_decide (entries s = ∅).
Definition has (s : RouteMapService) (p : Prefix) (node : Z) : bool := present s (p, node).

(** ** What one report can do to one key *)

Definition flipped (s : RouteMapService) (k : Key) (now : Z) : list Z :=
  recent now (default [] (flaps s !! k)) ++ [now].

Inductive move (cover : Prefix -> bool) (max now : Z) (k : Key) : RouteMapService -> bool -> RouteMapService -> Prop :=
| move_none s : move cover max now k s false s
| move_refresh s nh :
    is_damped s k now = false -> cover k.1 = true -> is_Some (entries s !! k) ->
    move cover max now k s false (set_entries s (<[k := nh]> (entries s)) (per_node s))
| move_damp s :
    entries s !! k = None -> (FLAP_LIMIT <= length (flipped s k now))%nat ->
    move cover max now k s false
      (start_damping (set_flaps s (<[k := flipped s k now]> (flaps s))) k now)
| move_add s nh :
    is_damped s k now = false -> cover k.1 = true -> entries s !! k = None ->
    default 0 (per_node s !! k.2) < max -> (length (flipped s k now) < FLAP_LIMIT)%nat ->
    move cover max now k s true
      (set_entries (set_flaps s (<[k := flipped s k now]> (flaps s))) (<[k := nh]> (entries s))
         (<[k.2 := default 0 (per_node s !! k.2) + 1]> (per_node s)))
| move_remove s t :
    is_damped s k now = false -> is_Some (entries s !! k) ->
    t = set_flaps s (<[k := flipped s k now]> (flaps s)) ->
    move cover max now k s true
      (remove_entry (if bool_decide (FLAP_LIMIT <= length (flipped s k now))%nat
                     then start_damping t k now else t) k).2.

Lemma flip_flipped s n p now : flip s n p now =
  (bool_decide (FLAP_LIMIT <= length (flipped s (p, n) now))%nat,
   set_flaps s (<[(p, n) := flipped s (p, n) now]> (flaps s))).
Proof. reflexivity. Qed.

Lemma present_true s k : present s k = true <-> is_Some (entries s !! k).
Proof. apply bool_decide_eq_true. Qed.

Lemma present_false s k : present s k = false <-> entries s !! k = None.
Proof. unfold present. rewrite bool_decide_eq_false, <- eq_None_not_Some. done. Qed.

Section Moves.
Context (node : Z) (coverage : list Prefix) (max now : Z).
Let covered (p : Prefix) : bool := existsb (fun c => is_covered_by p c) coverage.

Lemma announce_one_move s out p nh s' out' :
  announce_one node coverage max now (s, out) (p, nh) = (s', out') ->
  exists c, move covered max now (p, node) s c s' /\ changed out' = changed out || c.
Proof.
  unfold announce_one. intros H.
  destruct (is_damped s (p, node) now) eqn:Ed.
  { injection H as <- <-. exists false. split; [constructor|]. cbn. by rewrite orb_false_r. }
  destruct (negb _) eqn:Ec in H.
  { injection H as <- <-. exists false. split; [constructor|]. cbn. by rewrite orb_false_r. }
  apply negb_false_iff in Ec.
  destruct (present s (p, node)) eqn:Ep; cbn [negb andb] in H.
  - apply present_true in Ep. unfold put in H. pose proof Ep as [v Hv]. rewrite Hv in H.
    injection H as <- <-. exists false. split; [by apply move_refresh|]. cbn. by rewrite orb_false_r.
  - apply present_false in Ep. destruct (bool_decide (max <= _)) eqn:Em.
    { injection H as <- <-. exists false. split; [constructor|]. cbn. by rewrite orb_false_r. }
    apply bool_decide_eq_false in Em. rewrite flip_flipped in H.
    destruct (bool_decide (FLAP_LIMIT <= _)%nat) eqn:Ef in H.
    + apply bool_decide_eq_true in Ef. injection H as <- <-. exists false.
      split; [by apply move_damp|]. cbn. by rewrite orb_false_r.
    + apply bool_decide_eq_false in Ef. unfold put in H. cbn [entries set_flaps] in H. rewrite Ep in H.
      injection H as <- <-. exists true. split; [apply (move_add covered); [exact Ed|exact Ec|exact Ep|cbn; lia|apply Nat.nle_gt; exact Ef]|].
      cbn. by rewrite orb_true_r.
Qed.

Lemma withdraw_one_move s out p s' out' :
  withdraw_one node now (s, out) p = (s', out') ->
  exists c, move covered max now (p, node) s c s' /\ changed out' = changed out || c.
Proof.
  unfold withdraw_one. intros H. destruct (is_damped s (p, node) now) eqn:Ed.
  { injection H as <- <-. exists false. split; [constructor|]. cbn. by rewrite orb_false_r. }
  destruct (present s (p, node)) eqn:Ep.
  - apply present_true in Ep. rewrite flip_flipped in H.
    pose proof (move_remove covered max now (p, node) s _ Ed Ep eq_refl) as Hm.
    destruct Ep as [v Hv].
    destruct (bool_decide (FLAP_LIMIT <= length (flipped s (p, node) now))%nat) eqn:Ef;
      unfold remove_entry, start_damping in H, Hm; cbn [entries set_flaps set_damped fst snd] in H, Hm;
      rewrite Hv in H, Hm; injection H as <- <-;
      (exists true; split; [exact Hm|]; cbn; by rewrite orb_true_r).
  - apply present_false in Ep. unfold remove_entry in H. rewrite Ep in H. injection H as <- <-.
    exists false. split; [constructor|]. by rewrite orb_false_r.
Qed.

(** A sequence of moves on keys of one node. *)
Inductive moves : RouteMapService -> bool -> RouteMapService -> Prop :=
| moves_nil s : moves s false s
| moves_cons p s c s' c' s'' :
    move covered max now (p, node) s c s' -> moves s' c' s'' -> moves s (c || c') s''.

Lemma moves_app s c s' c' s'' : moves s c s' -> moves s' c' s'' -> moves s (c || c') s''.
Proof.
  induction 1 as [|p s c0 s' c1 s''' Hm Hms IH]; [done|]. intros H.
  rewrite <- orb_assoc. econstructor; [exact Hm|]. by apply IH.
Qed.

Lemma foldl_moves {A} (f : RouteMapService * RouteSyncOutcome -> A -> RouteMapService * RouteSyncOutcome) :
  (forall s out a s' out', f (s, out) a = (s', out') ->
     exists p c, move covered max now (p, node) s c s' /\ changed out' = changed out || c) ->
  forall l s out s' out', foldl f (s, out) l = (s', out') ->
  exists c, moves s c s' /\ changed out' = changed out || c.
Proof.
  intros Hf l. induction l as [|a l IH]; intros s out s' out' H; cbn in H.
  { injection H as <- <-. exists false. split; [constructor|]. by rewrite orb_false_r. }
  destruct (f (s, out) a) as [s1 o1] eqn:E1. apply Hf in E1 as (p & c1 & Hm & Hc).
  apply IH in H as (c & Hms & Hc'). exists (c1 || c). split; [by econstructor|].
  by rewrite Hc', Hc, orb_assoc.
Qed.

(** A report is a sequence of moves, and then a new version if one of them
    added or removed an entry. *)
Lemma apply_sync_moves s ann wd out s' :
  apply_sync node coverage max now s ann wd = (out, s') ->
  exists t, moves s (changed out) t /\ s' = if changed out then bump t else t.
Proof.
  unfold apply_sync. intros H.
  destruct (foldl (announce_one node coverage max now) (s, no_outcome) ann) as [s1 o1] eqn:E1.
  apply foldl_moves in E1 as (c1 & Hm1 & Hc1).
  2: { intros s0 o [p nh] s2 o2 E. apply announce_one_move in E as (c & ? & ?). by exists p, c. }
  destruct (foldl (withdraw_one node now) (s1, o1) wd) as [s2 o2] eqn:E2.
  apply foldl_moves in E2 as (c2 & Hm2 & Hc2).
  2: { intros s0 o p s3 o3 E. apply withdraw_one_move in E as (c & ? & ?). by exists p, c. }
  injection H as <- <-. exists s2. split; [|done].
  rewrite Hc2, Hc1. cbn [no_outcome changed orb]. by eapply moves_app.
Qed.

(** An invariant of single moves is an invariant of reports. *)
Lemma apply_sync_inv (I : RouteMapService -> Prop) s ann wd out s' :
  (forall p s c s', move covered max now (p, node) s c s' -> I s -> I s') ->
  (forall s, I s -> I (bump s)) ->
  apply_sync node coverage max now s ann wd = (out, s') -> I s -> I s'.
Proof.
  intros Hm Hb H HI. apply apply_sync_moves in H as (t & Hms & ->).
  assert (I t) by (induction Hms; eauto). destruct (changed out); auto.
Qed.
End Moves.

(** ** The invariant *)

Definition count (n : Z) (s : RouteMapService) : Z := Z.of_nat (size (of_node n (entries s))).

Lemma of_node_insert {V} (n : Z) (k : Key) (v : V) m : m !! k = None ->
  size (of_node n (<[k := v]> m)) = (size (of_node n m) + if decide (k.2 = n) then 1 else 0)%nat.
Proof.
  intros Hk. unfold of_node. destruct (decide (k.2 = n)).
  - rewrite map_filter_insert_True by done. rewrite map_size_insert_None; [lia|].
    apply map_lookup_filter_None. by left.
  - rewrite map_filter_insert_False by done. rewrite delete_id by done. lia.
Qed.

Lemma of_node_refresh {V} (n : Z) (k : Key) (v w : V) m : m !! k = Some w ->
  size (of_node n (<[k := v]> m)) = size (of_node n m).
Proof.
  intros Hk. unfold of_node. destruct (decide (k.2 = n)).
  - rewrite map_filter_insert_True by done. apply map_size_insert_Some. exists w.
    by apply map_lookup_filter_Some.
  - rewrite map_filter_insert_False by done. rewrite map_filter_delete.
    rewrite delete_id; [done|]. apply map_lookup_filter_None. right. naive_solver.
Qed.

Lemma of_node_delete {V} (n : Z) (k : Key) (v : V) m : m !! k = Some v ->
  size (of_node n m) = (size (of_node n (delete k m)) + if decide (k.2 = n) then 1 else 0)%nat.
Proof.
  intros Hk. rewrite <- (insert_delete_id m k v Hk) at 1. apply of_node_insert, lookup_delete_eq.
Qed.

Lemma of_not_of_node {V} (n n' : Z) (m : gmap Key V) :
  of_node n (not_of_node n' m) = if decide (n = n') then ∅ else of_node n m.
Proof.
  unfold of_node, not_of_node. rewrite map_filter_filter. destruct (decide (n = n')) as [->|Hn].
  - apply map_empty_filter_2. by intros k v _ [].
  - apply map_filter_ext. intros k v _. naive_solver.
Qed.

Lemma not_of_node_same (n : Z) {V} (m : gmap Key V) :
  size (not_of_node n m) = size m -> not_of_node n m = m.
Proof.
  intros H. unfold not_of_node in *.
  pose proof (map_filter_subseteq (fun kv : Key * V => kv.1.2 <> n) m) as Hs.
  apply map_subseteq_size_eq; [exact Hs|]. lia.
Qed.

Record inv (cover : Z -> list Prefix) (max : Z) (s : RouteMapService) : Prop := {
  iv_count : forall n, default 0 (per_node s !! n) = count n s;
  iv_max : forall n, count n s <= max;
  iv_cover : forall p n, is_Some (entries s !! (p, n)) ->
    existsb (fun c => is_covered_by p c) (cover n) = true
}.

(** A key damped at [now] is not in the table. *)
Definition damped_out (now : Z) (s : RouteMapService) : Prop :=
  forall k, is_damped s k now = true -> entries s !! k = None.

Lemma is_damped_mono s k now now' : now <= now' -> is_damped s k now' = true -> is_damped s k now = true.
Proof.
  unfold is_damped. intros Hn. destruct (damped_until s !! k); [|done].
  rewrite !bool_decide_eq_true. lia.
Qed.

Lemma damped_out_later now now' s : now <= now' -> damped_out now s -> damped_out now' s.
Proof. intros Hn H k Hk. eauto using is_damped_mono. Qed.

Lemma inv_bump cover max s : inv cover max s -> inv cover max (bump s).
Proof. by intros []. Qed.

Section Preserve.
Context (cover : Z -> list Prefix) (max now : Z) (p0 : Prefix) (n0 : Z).
Let k0 : Key := (p0, n0).
Let covered (p : Prefix) : bool := existsb (fun c => is_covered_by p c) (cover n0).

Lemma inv_refresh s nh :
  covered p0 = true -> is_Some (entries s !! k0) ->
  inv cover max s -> inv cover max (set_entries s (<[k0 := nh]> (entries s)) (per_node s)).
Proof.
  intros Hc [v Hv] [H1 H2 H3].
  assert (Hn : forall n, count n (set_entries s (<[k0 := nh]> (entries s)) (per_node s)) = count n s)
    by (intros n; unfold count; cbn; by rewrite (of_node_refresh _ _ _ _ _ Hv)).
  split; intros; rewrite ?Hn; eauto.
  destruct (decide ((p, n) = k0)) as [[= -> ->]|Hk]; [done|].
  apply H3. cbn in H. by rewrite lookup_insert_ne in H by congruence.
Qed.

Lemma inv_add s nh fl :
  covered p0 = true -> entries s !! k0 = None ->
  default 0 (per_node s !! n0) < max -> inv cover max s ->
  inv cover max (set_entries (set_flaps s fl) (<[k0 := nh]> (entries s))
                       (<[n0 := default 0 (per_node s !! n0) + 1]> (per_node s))).
Proof.
  intros Hc Hk Hm [H1 H2 H3]. set (s' := set_entries _ _ _).
  assert (Hn : forall n, count n s' = count n s + if decide (n0 = n) then 1 else 0).
  { intros n. unfold count. cbn. rewrite of_node_insert by done. cbn. destruct (decide (n0 = n)); lia. }
  split; intros.
  - rewrite Hn. cbn. destruct (decide (n0 = n)) as [->|].
    + rewrite lookup_insert_eq. cbn. by rewrite H1.
    + rewrite lookup_insert_ne by done. by rewrite H1, Z.add_0_r.
  - rewrite Hn. specialize (H2 n). destruct (decide (n0 = n)) as [->|]; [|lia]. rewrite H1 in Hm. lia.
  - destruct (decide ((p, n) = k0)) as [[= -> ->]|Hk']; [done|].
    apply H3. cbn in H. by rewrite lookup_insert_ne in H by congruence.
Qed.

(** Neither the timestamps nor the damping table matter. *)
Lemma inv_flaps s fl : inv cover max s -> inv cover max (set_flaps s fl).
Proof. by intros []. Qed.

Lemma inv_damp s : inv cover max s -> inv cover max (start_damping s k0 now).
Proof. by intros []. Qed.

Lemma inv_remove s : inv cover max s -> inv cover max (remove_entry s k0).2.
Proof.
  intros HI. pose proof HI as [H1 H2 H3]. unfold remove_entry.
  destruct (entries s !! k0) as [v|] eqn:Hk; [cbn [snd]|done]. set (s' := set_entries _ _ _).
  assert (Hn : forall n, count n s = count n s' + if decide (n0 = n) then 1 else 0).
  { intros n. unfold count. cbn. rewrite (of_node_delete n k0 v) by done. cbn. destruct (decide (n0 = n)); lia. }
  assert (H0 : 1 <= default 0 (per_node s !! n0)).
  { rewrite H1, Hn, decide_True by done. unfold count. lia. }
  split; intros.
  - cbn. destruct (per_node s !! n0) as [c|] eqn:Hc; [|cbn in H0; lia]. cbn in H0.
    destruct (decide (n0 = n)) as [->|Hne].
    + rewrite lookup_insert_eq. cbn. specialize (Hn n). rewrite decide_True in Hn by done.
      specialize (H1 n). rewrite Hc in H1. cbn in H1. unfold sat_sub. lia.
    + rewrite lookup_insert_ne by done. specialize (Hn n). rewrite decide_False in Hn by done.
      rewrite H1. lia.
  - specialize (Hn n). specialize (H2 n). destruct (decide _); lia.
  - apply H3. cbn in H. destruct H as [w Hw]. apply lookup_delete_Some in Hw as [_ Hw]. eauto.
Qed.

Lemma inv_move s c s' : move covered max now k0 s c s' -> inv cover max s -> inv cover max s'.
Proof.
  destruct 1 as [|s nh Hd Hc Hk|s Hk Hf|s nh Hd Hc Hk Hm Hf|s t Hd Hk ->]; intros HI.
  - done.
  - by apply inv_refresh.
  - by apply inv_damp, inv_flaps.
  - by apply inv_add.
  - apply inv_remove. destruct (bool_decide _); [apply inv_damp|]; by apply inv_flaps.
Qed.

Lemma remove_entry_lookup s k k' :
  entries (remove_entry s k).2 !! k' = (if decide (k = k') then None else entries s !! k') /\
  flaps (remove_entry s k).2 = flaps s /\ damped_until (remove_entry s k).2 = damped_until s.
Proof.
  unfold remove_entry. destruct (entries s !! k) as [v|] eqn:E; cbn.
  - by destruct (decide (k = k')) as [->|]; [rewrite lookup_delete_eq|rewrite lookup_delete_ne].
  - by destruct (decide (k = k')) as [->|].
Qed.

Lemma damped_out_move s c s' : move covered max now k0 s c s' -> damped_out now s -> damped_out now s'.
Proof.
  intros Hm HD k. destruct Hm as [s|s nh Hd Hc Hk|s Hk Hf|s nh Hd Hc Hk Hm Hf|s t Hd Hk ->].
  - apply HD.
  - change (is_damped (set_entries _ _ _) k now) with (is_damped s k now). intros H. cbn.
    rewrite lookup_insert_ne; [by apply HD|congruence].
  - unfold is_damped. cbn. destruct (decide (k0 = k)) as [<-|Hne]; [done|]. rewrite lookup_insert_ne by done. apply HD.
  - change (is_damped (set_entries _ _ _) k now) with (is_damped s k now). intros H. cbn.
    rewrite lookup_insert_ne; [by apply HD|congruence].
  - set (u := if bool_decide _ then _ else _). unfold is_damped.
    destruct (remove_entry_lookup u k0 k) as (-> & _ & ->).
    destruct (decide (k0 = k)) as [|Hne]; [done|]. intros H.
    assert (entries u !! k = entries s !! k) as -> by (unfold u; by destruct (bool_decide _)).
    apply HD. unfold is_damped. revert H. unfold u. destruct (bool_decide _); cbn; [|done].
    by rewrite lookup_insert_ne by done.
Qed.
End Preserve.

Lemma inv_sync cover max now n s ann wd out s' :
  apply_sync n (cover n) max now s ann wd = (out, s') -> inv cover max s -> inv cover max s'.
Proof. intros H. eapply apply_sync_inv; [|apply inv_bump|exact H]. intros p t c t'. apply inv_move. Qed.

Lemma damped_out_sync cover max now n s ann wd out s' :
  apply_sync n (cover n) max now s ann wd = (out, s') -> damped_out now s -> damped_out now s'.
Proof. intros H. eapply apply_sync_inv; [|done|exact H]. intros p t c t'. apply damped_out_move. Qed.

Lemma route_withdraw_lookup n s (k : Key) :
  entries (withdraw_node s n).2 !! k = (if decide (k.2 = n) then None else entries s !! k) /\
  (is_Some (damped_until (withdraw_node s n).2 !! k) ->
   damped_until (withdraw_node s n).2 !! k = damped_until s !! k).
Proof.
  assert (Hk : not_of_node n (entries s) !! k = if decide (k.2 = n) then None else entries s !! k).
  { unfold not_of_node. rewrite map_lookup_filter. destruct (entries s !! k); cbn; [|by destruct (decide _)].
    destruct (decide (k.2 = n)); [by rewrite option_guard_False by (by intros [])|by rewrite option_guard_True]. }
  unfold withdraw_node. destruct (decide (size _ = _)); cbn; (split; [done|]); [done|].
  intros [u Hu]. rewrite Hu. by apply map_lookup_filter_Some in Hu as [-> _].
Qed.

Lemma inv_withdraw cover cover' max n s : 0 <= max -> (forall n', n' <> n -> cover' n' = cover n') ->
  inv cover max s -> inv cover' max (withdraw_node s n).2.
Proof.
  intros Hm Hcov [H1 H2 H3].
  assert (Hc : forall n', count n' (withdraw_node s n).2 = if decide (n' = n) then 0 else count n' s).
  { intros n'. unfold count. replace (entries (withdraw_node s n).2) with (not_of_node n (entries s))
      by (unfold withdraw_node; by destruct (decide (size _ = _))).
    rewrite of_not_of_node. by destruct (decide _). }
  split.
  - intros n'. rewrite Hc. unfold withdraw_node. destruct (decide (size _ = _)) as [Hs|Hs]; cbn.
    + rewrite H1. destruct (decide (n' = n)) as [->|]; [|done]. apply not_of_node_same in Hs.
      unfold count. rewrite <- Hs, of_not_of_node, decide_True by done. done.
    + destruct (decide (n' = n)) as [->|]; [by rewrite lookup_delete_eq|]. by rewrite lookup_delete_ne.
  - intros n'. rewrite Hc. by destruct (decide _).
  - intros p n'. destruct (route_withdraw_lookup n s (p, n')) as [-> _]. cbn.
    destruct (decide (n' = n)); [by intros []|]. intros Hp. rewrite Hcov by done. auto.
Qed.

Lemma damped_out_withdraw now n s : damped_out now s -> damped_out now (withdraw_node s n).2.
Proof.
  intros HD k Hk. destruct (route_withdraw_lookup n s k) as [-> Hd]. destruct (decide _); [done|].
  apply HD. unfold is_damped in *.
  destruct (damped_until (withdraw_node s n).2 !! k) as [u|] eqn:E; [|done]. by rewrite <- Hd.
Qed.

(** The invariant only looks at the coverage of nodes that have entries. *)
Lemma inv_cover_ext cover cover' max s :
  (forall n, is_Some (cover n !! 0%nat) -> cover' n = cover n) -> inv cover max s -> inv cover' max s.
Proof.
  intros Hc [H1 H2 H3]. split; [done..|]. intros p n Hp. specialize (H3 p n Hp). rewrite Hc; [done|].
  destruct (cover n); [done|eauto].
Qed.

(** ** Histories of reports *)

Record Sync := mk_sync { sy_node : Z; sy_announced : list (Prefix * string); sy_withdrawn : list Prefix; sy_now : Z }.

Definition sync (cover : Z -> list Prefix) (max : Z) (s : RouteMapService) (y : Sync) : RouteMapService :=
  (apply_sync (sy_node y) (cover (sy_node y)) max (sy_now y) s (sy_announced y) (sy_withdrawn y)).2.

(** States the coordinator can reach, with the time of the last report. *)
Inductive reachable (cover : Z -> list Prefix) (max : Z) : Z -> RouteMapService -> Prop :=
| reach_new t : reachable cover max t new
| reach_sync t s y : reachable cover max t s -> t <= sy_now y -> reachable cover max (sy_now y) (sync cover max s y)
| reach_withdraw t s n : reachable cover max t s -> reachable cover max t (withdraw_node s n).2.

Lemma route_reachable_inv cover max t s : 0 <= max -> reachable cover max t s -> inv cover max s /\ damped_out t s.
Proof.
  intros Hm. induction 1 as [t|t s y _ [IH ID] Ht|t s n _ [IH ID]].
  - split; [split; [done|done|intros p n [v Hv]; discriminate Hv]|done].
  - apply (damped_out_later _ _ _ Ht) in ID. unfold sync. destruct (apply_sync _ _ _ _ _ _ _) as [out s'] eqn:E.
    split; [by eapply inv_sync|by eapply damped_out_sync].
  - split; [by eapply inv_withdraw|by apply damped_out_withdraw].
Qed.

(** Whatever is reported, the counter of a node is the number of its entries,
    no node has more than the limit, every entry lies within the aggregates its
    node announced, and a damped prefix is not in the table. *)
Theorem route_map_gated (cover : Z -> list Prefix) (max t : Z) (s : RouteMapService)
  (Hmax : 0 <= max) (Hr : reachable cover max t s) :
  (forall n, default 0 (per_node s !! n) = count n s /\ count n s <= max) /\
  (forall p n, has s p n = true -> exists c, c ∈ cover n /\ is_covered_by p c = true) /\
  (forall p n, is_damped s (p, n) t = true -> has s p n = false).
Proof.
  destruct (route_reachable_inv _ _ _ _ Hmax Hr) as [[H1 H2 H3] H4]. split; [by split|]. split.
  - intros p n Hp. apply present_true, H3 in Hp. by apply existsb_elem.
  - intros p n Hd. apply present_false. auto.
Qed.

(** ** Damping *)

(** How often a key entered or left the table during a run of reports. *)
Fixpoint changes (cover : Z -> list Prefix) (max : Z) (k : Key) (s : RouteMapService) (l : list Sync) : nat :=
  match l with
  | [] => O
  | y :: l =>
      let s' := sync cover max s y in
      ((if eqb (present s k) (present s' k) then 0 else 1) + changes cover max k s' l)%nat
  end.

Definition since (t0 t : Z) : bool := bool_decide (t0 <= t).

(** The changes a key has left: [c] of them are on record. *)
Definition spent (t0 : Z) (k : Key) (c : nat) (s : RouteMapService) : Prop :=
  (c <= length (List.filter (since t0) (default [] (flaps s !! k))))%nat /\
  (c <= if present s k then 2 else 3)%nat.

Lemma recent_window t0 now ts : t0 <= now <= t0 + FLAP_WINDOW_SECS ->
  List.filter (since t0) (recent now ts) = List.filter (since t0) ts.
Proof.
  intros Hn. apply bfilter_bfilter. intros t. unfold since. rewrite !bool_decide_eq_true. unfold sat_sub, FLAP_WINDOW_SECS in *. lia.
Qed.

Lemma flipped_spent t0 now k c s : t0 <= now <= t0 + FLAP_WINDOW_SECS ->
  (c <= length (List.filter (since t0) (default [] (flaps s !! k))))%nat ->
  (S c <= length (List.filter (since t0) (flipped s k now)))%nat /\
  (S c <= length (flipped s k now))%nat.
Proof.
  intros Hn Hc. unfold flipped. rewrite List.filter_app, recent_window by done. cbn.
  unfold since at 2. rewrite bool_decide_eq_true_2 by lia. rewrite !length_app. cbn. split; [lia|].
  rewrite <- (recent_window t0 now) in Hc by done.
  pose proof (List.filter_length_le (since t0) (recent now (default [] (flaps s !! k)))). lia.
Qed.

(** One move spends what it changes. *)
Lemma spent_move cover max now k' s ch s' t0 k c : t0 <= now <= t0 + FLAP_WINDOW_SECS ->
  move cover max now k' s ch s' -> spent t0 k c s ->
  spent t0 k (c + if eqb (present s k) (present s' k) then 0 else 1) s'.
Proof.
  intros Hn Hm [H1 H2]. destruct (decide (k' = k)) as [->|Hne].
  - pose proof (flipped_spent t0 now k c s Hn H1) as [Hf Hl].
    destruct Hm as [s|s nh Hd Hc Hk|s Hk Hlim|s nh Hd Hc Hk Hmx Hlim|s t Hd Hk ->].
    + rewrite eqb_reflx, Nat.add_0_r. by split.
    + apply present_true in Hk. replace (present (set_entries _ _ _) k) with true
        by (symmetry; apply present_true; cbn; rewrite lookup_insert_eq; eauto).
      rewrite Hk in *. cbn [eqb]. rewrite Nat.add_0_r. split; [exact H1|].
      replace (present _ k) with true by (symmetry; apply present_true; cbn; rewrite lookup_insert_eq; eauto). lia.
    + apply present_false in Hk. change (present (start_damping _ _ _) k) with (present s k).
      rewrite eqb_reflx, Nat.add_0_r. split; [cbn; rewrite lookup_insert_eq; cbn; lia|].
      change (present (start_damping _ _ _) k) with (present s k). lia.
    + apply present_false in Hk. set (u := set_entries _ _ _).
      assert (present u k = true) as Hu by (apply present_true; cbn; rewrite lookup_insert_eq; eauto).
      unfold spent. rewrite Hk, Hu. cbn [eqb]. split; [unfold u; cbn [flaps set_entries set_flaps]; rewrite lookup_insert_eq; cbn [default id from_option]; lia|].
      unfold FLAP_LIMIT in Hlim. lia.
    + apply present_true in Hk. rewrite Hk in *. set (u := if bool_decide _ then _ else _).
      destruct (remove_entry_lookup u k k) as (He & Hfl & _). rewrite decide_True in He by done.
      apply present_false in He. unfold spent. rewrite He, Hfl. cbn [eqb]. split; [|lia].
      replace (flaps u !! k) with (Some (flipped s k now)); [cbn [default id from_option]; lia|].
      unfold u. destruct (bool_decide _); cbn; by rewrite lookup_insert_eq.
  - assert (Hp : entries s' !! k = entries s !! k /\ flaps s' !! k = flaps s !! k).
    { destruct Hm as [s|s nh Hd Hc Hk|s Hk Hlim|s nh Hd Hc Hk Hmx Hlim|s t Hd Hk ->]; cbn;
        rewrite ?lookup_insert_ne by done; try done.
      set (u := if bool_decide _ then _ else _).
      destruct (remove_entry_lookup u k' k) as (-> & -> & _). rewrite decide_False by done.
      unfold u. destruct (bool_decide _); cbn; by rewrite ?lookup_insert_ne by done. }
    destruct Hp as [He Hf]. assert (present s' k = present s k) as Hp by (unfold present; by rewrite He).
    unfold spent. rewrite Hp, Hf, eqb_reflx, Nat.add_0_r. by split.
Qed.

Lemma spent_weaken t0 k c c' s : (c' <= c)%nat -> spent t0 k c s -> spent t0 k c' s.
Proof. intros ? []. split; lia. Qed.

Lemma eqb_triangle (a b c : bool) :
  ((if eqb a c then 0 else 1) <= (if eqb a b then 0 else 1) + (if eqb b c then 0 else 1))%nat.
Proof. destruct a, b, c; cbn; lia. Qed.

Lemma spent_sync cover max s y t0 k c : t0 <= sy_now y <= t0 + FLAP_WINDOW_SECS ->
  spent t0 k c s ->
  spent t0 k (c + if eqb (present s k) (present (sync cover max s y) k) then 0 else 1) (sync cover max s y).
Proof.
  intros Hn Hs. unfold sync. destruct (apply_sync _ _ _ _ _ _ _) as [out s'] eqn:E. cbn [snd].
  apply apply_sync_moves in E as (t & Hms & ->).
  assert (Ht : spent t0 k (c + if eqb (present s k) (present t k) then 0 else 1) t).
  { revert c Hs. induction Hms as [s|p s c1 s' c2 s'' Hm Hms IH]; intros c Hs.
    - by rewrite eqb_reflx, Nat.add_0_r.
    - eapply spent_move in Hm; [|exact Hn|exact Hs]. apply IH in Hm. eapply spent_weaken; [|exact Hm].
      pose proof (eqb_triangle (present s k) (present s' k) (present s'' k)). lia. }
  destruct (changed out); exact Ht.
Qed.

(** However a node reports, within ten minutes one of its prefixes enters or
    leaves the table at most three times (unless the whole node is withdrawn). *)
Theorem flap_rate_bounded (cover : Z -> list Prefix) (max t0 : Z) (k : Key) (s : RouteMapService) (l : list Sync)
  (Hw : Forall (fun y => t0 <= sy_now y <= t0 + FLAP_WINDOW_SECS) l) :
  (changes cover max k s l <= FLAP_LIMIT)%nat.
Proof.
  assert (H : forall c s, spent t0 k c s -> (c + changes cover max k s l <= 3)%nat).
  { clear s. induction Hw as [|y l Hy Hl IH]; intros c s Hs; cbn [changes].
    - destruct Hs as [_ Hs]. destruct (present s k); lia.
    - pose proof (spent_sync cover max s y t0 k c Hy Hs) as Hs'. apply IH in Hs'. lia. }
  apply (H 0%nat). split; destruct (present s k); lia.
Qed.

Definition sample_cover (n : Z) : list Prefix := [sample_prefix 14].
Definition flap_history (t0 : Z) : list Sync :=
  [ mk_sync 7 [(sample_prefix 16, "fd00::1")] [] t0;
    mk_sync 7 [] [sample_prefix 16] (t0 + 10);
    mk_sync 7 [(sample_prefix 16, "fd00::1")] [] (t0 + 20);
    mk_sync 7 [(sample_prefix 16, "fd00::1")] [] (t0 + 599) ].

Lemma flap_rate_bounded_witness :
  let c := changes sample_cover 2000 (sample_prefix 16, 7) new (flap_history 1000) in
  c = 2%nat /\ (c <= FLAP_LIMIT)%nat.
Proof.
  split; [vm_compute; reflexivity|]. apply (flap_rate_bounded sample_cover 2000 1000).
  repeat constructor; vm_compute; discriminate.
Defined.

Lemma route_map_gated_witness :
  let s := foldl (sync sample_cover 2000) new (flap_history 1000) in
  is_damped s (sample_prefix 16, 7) 1599 = true /\ has s (sample_prefix 16) 7 = false.
Proof.
  split; [vm_compute; reflexivity|].
  refine (proj2 (proj2 (route_map_gated sample_cover 2000 1599 _ _ _)) (sample_prefix 16) 7 _);
    [lia| |vm_compute; reflexivity].
  apply (reach_sync _ _ 1020 _ (mk_sync 7 [(sample_prefix 16, "fd00::1")] [] 1599)); [|cbn; lia].
  apply (reach_sync _ _ 1010 _ (mk_sync 7 [(sample_prefix 16, "fd00::1")] [] 1020)); [|cbn; lia].
  apply (reach_sync _ _ 1000 _ (mk_sync 7 [] [sample_prefix 16] 1010)); [|cbn; lia].
  apply (reach_sync _ _ 0 _ (mk_sync 7 [(sample_prefix 16, "fd00::1")] [] 1000)); [|cbn; lia].
  constructor.
Defined.

(** ** Versions *)

Lemma sync_version node coverage max now s ann wd out s' :
  apply_sync node coverage max now s ann wd = (out, s') ->
  version s' = (if changed out then sat_add 64 (version s) 1 else version s) /\
  (changed out = false -> forall k, present s' k = present s k).
Proof.
  intros H. apply apply_sync_moves in H as (t & Hms & ->).
  assert (Hv : version t = version s /\ (changed out = false -> forall k, present t k = present s k)).
  { induction Hms as [s|p s c1 s' c2 s'' Hm Hms [IHv IHp]]; [done|]. rewrite IHv. split.
    - destruct Hm as [s| | | |s t Hd Hk ->]; try done. unfold remove_entry.
      destruct (bool_decide _); by destruct (entries _ !! _).
    - intros [Hc1 Hc2]%orb_false_iff k. rewrite IHp by done.
      destruct Hm as [s|s nh Hd Hc Hk|s Hk Hlim| |]; try done.
      unfold present. cbn. destruct (decide ((p, node) = k)) as [<-|Hne]; [|by rewrite lookup_insert_ne].
      rewrite lookup_insert_eq. rewrite !bool_decide_eq_true_2; eauto. }
  destruct Hv as [Hv Hp]. destruct (changed out); cbn; [by rewrite Hv|by rewrite Hv].
Qed.

(** Reporting a new next hop for a prefix in the table replaces it and leaves
    the version as it was. *)
Theorem next_hop_refresh_silent (node max now : Z) (coverage : list Prefix) (s : RouteMapService) (p : Prefix) (nh : string)
  (Hd : is_damped s (p, node) now = false) (Hc : existsb (fun c => is_covered_by p c) coverage = true)
  (Hp : has s p node = true) :
  let '(out, s') := apply_sync node coverage max now s [(p, nh)] [] in
  accepted out = 1 /\ changed out = false /\ version s' = version s /\
  entries s' = <[(p, node) := nh]> (entries s).
Proof.
  unfold apply_sync. cbn [foldl announce_one]. rewrite Hd, Hc. unfold has in Hp. rewrite Hp. cbn [negb andb].
  apply present_true in Hp as [v Hv]. unfold put. rewrite Hv. done.
Qed.

Lemma next_hop_refresh_silent_witness :
  let s := sync sample_cover 2000 new (mk_sync 7 [(sample_prefix 16, "fd00::1")] [] 1000) in
  let '(out, s') := apply_sync 7 (sample_cover 7) 2000 1001 s [(sample_prefix 16, "fd00::2")] [] in
  accepted out = 1 /\ changed out = false /\ version s' = version s /\
  entries s' = <[(sample_prefix 16, 7) := "fd00::2"]> (entries s).
Proof.
  apply (next_hop_refresh_silent 7 2000 1001 (sample_cover 7)); vm_compute; reflexivity.
Defined.
End RouteMap.
