(* ===== verification/Coordinator.v ===== *)
(** * The coordinator (rill-coord/src/domain.rs, coordinator/mod.rs)

    One process serves several isolated networks.  A [NetworkDomain] holds what
    belongs to one of them: registry, keys, paths, relay roster, access policy,
    route map; the [Coordinator] holds the domains and what is keyed by the
    globally unique node id: liveness, directory, telemetry, revocations.  Writing
    the store through ([persist]) has no effect on this state and is left out. *)

From S2P Require Import Prelude Crypto Net Route Control Registry AuthKey Coord PathService RouteMap.

Module Coordinator.
Import Net Route.

(** ** Networks *)

Definition NETWORK_ID_UNSET : Z := 0.
Definition RELAY_EXIT_MISS_ROUNDS : Z := 3.

(** One round of FNV-1a. *)
Definition fnv_round (hash b : Z) : Z := wrap 32 (Z.lxor hash b * 0x01000193).

Definition network_id_for (name : string) : Z :=
  let hash := foldl fnv_round 0x811c9dc5 (str_bytes name) in
  if decide (hash = NETWORK_ID_UNSET) then NETWORK_ID_UNSET + 1 else hash.

Record RelayRosterConfig := mk_relay_cfg { include : list Z; exclude : list Z; max_size : nat }.

Definition default_relay_max_size : nat := 8.
Definition default_relay_cfg : RelayRosterConfig := mk_relay_cfg [] [] default_relay_max_size.

Definition default_acl : Acl.AclPolicy := Acl.mk_policy false [] ∅.

Record NetworkDomain := mk_domain {
  network_id : Z;
  name : string;
  registry : Registry.Registry;
  keys : Keys.KeyManager;
  paths : PathService.PathService;
  roster : list Z;
  relay_cfg : RelayRosterConfig;
  exit_allow : gset Z;
  relay_rtt : gmap Z Z;
  relay_miss : gmap Z Z;
  acl : Acl.AclPolicy;
  route_map : RouteMap.RouteMapService;
  route_map_pushed : gmap Z Z
}.

Definition domain_new (name : string) (network_id : Z) (master_key : list Z) : NetworkDomain :=
  mk_domain network_id name (Registry.new network_id) (Keys.new master_key) PathService.new []
    default_relay_cfg ∅ ∅ ∅ default_acl RouteMap.new ∅.

Definition set_registry (d : NetworkDomain) (r : Registry.Registry) : NetworkDomain :=
  mk_domain (network_id d) (name d) r (keys d) (paths d) (roster d) (relay_cfg d) (exit_allow d)
    (relay_rtt d) (relay_miss d) (acl d) (route_map d) (route_map_pushed d).
Definition set_keys (d : NetworkDomain) (k : Keys.KeyManager) : NetworkDomain :=
  mk_domain (network_id d) (name d) (registry d) k (paths d) (roster d) (relay_cfg d) (exit_allow d)
    (relay_rtt d) (relay_miss d) (acl d) (route_map d) (route_map_pushed d).
Definition set_paths (d : NetworkDomain) (p : PathService.PathService) : NetworkDomain :=
  mk_domain (network_id d) (name d) (registry d) (keys d) p (roster d) (relay_cfg d) (exit_allow d)
    (relay_rtt d) (relay_miss d) (acl d) (route_map d) (route_map_pushed d).
Definition set_roster (d : NetworkDomain) (r : list Z) : NetworkDomain :=
  mk_domain (network_id d) (name d) (registry d) (keys d) (paths d) r (relay_cfg d) (exit_allow d)
    (relay_rtt d) (relay_miss d) (acl d) (route_map d) (route_map_pushed d).
Definition set_relay_cfg (d : NetworkDomain) (c : RelayRosterConfig) : NetworkDomain :=
  mk_domain (network_id d) (name d) (registry d) (keys d) (paths d) (roster d) c (exit_allow d)
    (relay_rtt d) (relay_miss d) (acl d) (route_map d) (route_map_pushed d).
Definition set_exits (d : NetworkDomain) (x : gset Z) : NetworkDomain :=
  mk_domain (network_id d) (name d) (registry d) (keys d) (paths d) (roster d) (relay_cfg d) x
    (relay_rtt d) (relay_miss d) (acl d) (route_map d) (route_map_pushed d).
Definition set_rtt (d : NetworkDomain) (r m : gmap Z Z) : NetworkDomain :=
  mk_domain (network_id d) (name d) (registry d) (keys d) (paths d) (roster d) (relay_cfg d) (exit_allow d)
    r m (acl d) (route_map d) (route_map_pushed d).
Definition set_acl (d : NetworkDomain) (a : Acl.AclPolicy) : NetworkDomain :=
  mk_domain (network_id d) (name d) (registry d) (keys d) (paths d) (roster d) (relay_cfg d) (exit_allow d)
    (relay_rtt d) (relay_miss d) a (route_map d) (route_map_pushed d).
Definition set_route_map (d : NetworkDomain) (r : RouteMap.RouteMapService) (p : gmap Z Z) : NetworkDomain :=
  mk_domain (network_id d) (name d) (registry d) (keys d) (paths d) (roster d) (relay_cfg d) (exit_allow d)
    (relay_rtt d) (relay_miss d) (acl d) r p.

(** [apply_roster]: whether the set changed, ignoring the order. *)
Definition apply_roster (d : NetworkDomain) (r : list Z) : bool * NetworkDomain :=
  (negb (bool_decide (sort Z.leb (roster d) = sort Z.leb r)),
   set_paths (set_roster d r) (PathService.set_relays (paths d) r)).

Definition entry (d : NetworkDomain) (node_id : Z) : option Registry.NodeEntry :=
  Registry.entries (registry d) !! node_id.

(** ** The coordinator *)

Record PeerTrafficView := mk_peer_traffic {
  pt_node_id : Z; tx_frames : Z; tx_bytes : Z; rx_frames : Z; rx_bytes : Z }.
Record DirectPairView := mk_direct_pair { dp_node_id : Z; dp_endpoint : string; dp_rtt_ms : Z }.
Record DropView := mk_drop { dv_node_id : Z; dv_count : Z }.
Record PathStatView := mk_path_stat {
  ps_node_id : Z; ps_path_id : Z; ps_frames : Z; gap_missing : Z; reorder : Z; ps_rtt_ms : Z }.
Record TelemetryView := mk_view {
  peers : list PeerTrafficView;
  drop_global : Z;
  drops : list DropView;
  direct : list DirectPairView;
  path_stats : list PathStatView;
  updated_at : Z
}.

Record Coordinator := mk_coord {
  domains : list NetworkDomain;
  liveness : Liveness.Liveness;
  directory : Directory.Directory;
  next_node_id : Z;
  telemetry : gmap Z TelemetryView;
  register_rejects : Z;
  revoked : gmap Z (Z * Z)
}.

Definition new : Coordinator := mk_coord [] Liveness.new Directory.new 1 ∅ 0 ∅.

Definition set_domains (c : Coordinator) (ds : list NetworkDomain) : Coordinator :=
  mk_coord ds (liveness c) (directory c) (next_node_id c) (telemetry c) (register_rejects c) (revoked c).
Definition set_liveness (c : Coordinator) (l : Liveness.Liveness) : Coordinator :=
  mk_coord (domains c) l (directory c) (next_node_id c) (telemetry c) (register_rejects c) (revoked c).
Definition set_directory (c : Coordinator) (d : Directory.Directory) : Coordinator :=
  mk_coord (domains c) (liveness c) d (next_node_id c) (telemetry c) (register_rejects c) (revoked c).
Definition set_next (c : Coordinator) (n : Z) : Coordinator :=
  mk_coord (domains c) (liveness c) (directory c) n (telemetry c) (register_rejects c) (revoked c).
Definition set_telemetry (c : Coordinator) (t : gmap Z TelemetryView) : Coordinator :=
  mk_coord (domains c) (liveness c) (directory c) (next_node_id c) t (register_rejects c) (revoked c).
Definition set_rejects (c : Coordinator) (n : Z) : Coordinator :=
  mk_coord (domains c) (liveness c) (directory c) (next_node_id c) (telemetry c) n (revoked c).
Definition set_revoked (c : Coordinator) (m : gmap Z (Z * Z)) : Coordinator :=
  mk_coord (domains c) (liveness c) (directory c) (next_node_id c) (telemetry c) (register_rejects c) m.

Definition bump_netmap (c : Coordinator) : Coordinator :=
  set_directory c (Directory.bump_netmap (directory c)).

Definition add_network (c : Coordinator) (nm : string) (master_key : list Z) : Z * Coordinator :=
  (network_id_for nm, set_domains c (domains c ++ [domain_new nm (network_id_for nm) master_key])).

(** *** Finding a domain *)

Definition by_name (nm : string) (d : NetworkDomain) : bool := bool_decide (name d = nm).
Definition by_id (id : Z) (d : NetworkDomain) : bool := bool_decide (network_id d = id).
Definition holds (node_id : Z) (d : NetworkDomain) : bool := bool_decide (is_Some (entry d node_id)).

Definition domain_by_name (c : Coordinator) (nm : string) : option NetworkDomain :=
  List.find (by_name nm) (domains c).

Definition domain_by_network_id (c : Coordinator) (id : Z) : option NetworkDomain :=
  List.find (by_id id) (domains c).

(** [Iterator::find_map]. *)
Fixpoint find_map {A B} (f : A -> option B) (l : list A) : option B :=
  match l with
  | [] => None
  | x :: l => match f x with Some y => Some y | None => find_map f l end
  end.

Definition network_of_node (c : Coordinator) (node_id : Z) : option Z :=
  e ← find_map (fun d => entry d node_id) (domains c);
  Some (Registry.network_id e).

Definition domain_of_node (c : Coordinator) (node_id : Z) : option NetworkDomain :=
  id ← network_of_node c node_id; domain_by_network_id c id.

(** [iter_mut().find(p)] and what is done to the domain found. *)
Fixpoint update_first (P : NetworkDomain -> bool) (f : NetworkDomain -> NetworkDomain)
    (l : list NetworkDomain) : list NetworkDomain :=
  match l with
  | [] => []
  | d :: l => if P d then f d :: l else d :: update_first P f l
  end.

Definition on_name (nm : string) (f : NetworkDomain -> NetworkDomain) (c : Coordinator) : Coordinator :=
  set_domains c (update_first (by_name nm) f (domains c)).
Definition on_id (id : Z) (f : NetworkDomain -> NetworkDomain) (c : Coordinator) : Coordinator :=
  set_domains c (update_first (by_id id) f (domains c)).

(** [domain_of_node_mut]. *)
Definition on_node (node_id : Z) (f : NetworkDomain -> NetworkDomain) (c : Coordinator) : Coordinator :=
  match network_of_node c node_id with Some id => on_id id f c | None => c end.

(** *** Management *)

Definition network_id_of (c : Coordinator) (node_id : Z) : option Z :=
  network_id <$> domain_of_node c node_id.

Definition network_names (c : Coordinator) : list string := name <$> domains c.

Definition add_auth_key_spec (c : Coordinator) (key : string) (spec : Registry.AuthKeySpec)
    : bool * Coordinator :=
  match AuthKey.parse_auth_key key with
  | Ok (network, _, _) =>
      match domain_by_name c network with
      | Some _ =>
          (true, on_name network (fun d => set_registry d (Registry.add_auth_key_spec (registry d) key spec)) c)
      | None => (false, c)
      end
  | _ => (false, c)
  end.

Definition add_auth_key (c : Coordinator) (key : string) (p : Registry.AuthKeyPolicy) : bool * Coordinator :=
  add_auth_key_spec c key (Registry.simple p).

Definition remove_auth_key (c : Coordinator) (key : string) : Coordinator :=
  match AuthKey.parse_auth_key key with
  | Ok (network, _, _) =>
      on_name network (fun d => set_registry d (Registry.remove_auth_key (registry d) key)) c
  | _ => c
  end.

Definition has_auth_key (c : Coordinator) (key : string) : bool :=
  existsb (fun d => Registry.contains_auth_key (registry d) key) (domains c).

Definition auth_key_list_for (c : Coordinator) (network : string) : list string :=
  match domain_by_name c network with
  | Some d => (map_to_list (Registry.auth_keys (registry d))).*1
  | None => []
  end.

Definition consumed_one_time_keys_for (c : Coordinator) (network : string) : list string :=
  match domain_by_name c network with Some d => Registry.consumed_one_time (registry d) | None => [] end.

Definition set_announce_whitelist (c : Coordinator) (network : string) (w : list Prefix) : Coordinator :=
  on_name network (fun d => set_registry d (Registry.set_announce_whitelist (registry d) w)) c.

Definition announce_whitelist (c : Coordinator) (network : string) : list string :=
  match domain_by_name c network with
  | Some d => to_cidr <$> Registry.announce_whitelist (registry d)
  | None => []
  end.

Definition set_acl_policy (c : Coordinator) (network : string) (policy : Acl.AclPolicy) : Coordinator :=
  match domain_by_name c network with
  | Some _ => bump_netmap (on_name network (fun d => set_acl d policy) c)
  | None => c
  end.

Definition acl_policy_of (c : Coordinator) (network_id : Z) : Acl.AclPolicy :=
  match domain_by_network_id c network_id with Some d => acl d | None => default_acl end.

Definition set_relay_constraints (c : Coordinator) (network : string) (cfg : RelayRosterConfig) : Coordinator :=
  on_name network (fun d => set_relay_cfg d cfg) c.

Definition set_protocol_version (c : Coordinator) (node_id v : Z) : Coordinator :=
  set_directory c (Directory.set_protocol_version (directory c) node_id v).
Definition set_build_version (c : Coordinator) (node_id : Z) (v : string) : Coordinator :=
  set_directory c (Directory.set_build_version (directory c) node_id v).

Definition store_telemetry (c : Coordinator) (node_id now : Z) (v : TelemetryView) : Coordinator :=
  set_telemetry c (<[node_id := mk_view (peers v) (drop_global v) (drops v) (direct v) (path_stats v) now]>
                     (telemetry c)).

(** *** Hash maps

    The order in which the code meets the entries of its hash maps; the theorems
    hold for every one. *)

Class HashOrder := {
  walk_nodes : gmap Z Registry.NodeEntry -> list Registry.NodeEntry;
  walk_paths : PathService.PathService -> list (Z * Z);
  walk_seen : gmap Z Z -> list Z
}.

Class HashOrderLaws (W : HashOrder) := {
  walk_nodes_perm : forall m, walk_nodes m ≡ₚ (map_to_list m).*2;
  walk_paths_visits : forall p, PathService.visits p (walk_paths p);
  walk_seen_perm : forall m, walk_seen m ≡ₚ (map_to_list m).*1
}.

#[export] Instance key_order : HashOrder := {
  walk_nodes m := (map_to_list m).*2;
  walk_paths p := (map_to_list (PathService.map p)).*1;
  walk_seen m := (map_to_list m).*1
}.

#[export] Instance key_order_laws : HashOrderLaws key_order.
Proof. split; intros; [reflexivity|unfold PathService.visits|]; reflexivity. Qed.

Definition CAPABILITY_RELAY : Z := 0x01.
Definition CAPABILITY_EXIT : Z := 0x08.
Definition CAPABILITY_BROADCAST : Z := 0x20.
Definition CAPABILITY_ACL : Z := 0x40.

Definition has_cap (cap : Z) (e : Registry.NodeEntry) : bool :=
  negb (bool_decide (Z.land (Registry.capabilities e) cap = 0)).

Definition REVOKE_ROTATION_WINDOW_SECS : Z := 60.

Record RegisterData := mk_reg { rd_node_id : Z; rd_network_id : Z; rd_binding : list Z; rd_log_id : Z * Z }.
Record KeyDistData := mk_keydist {
  to_node_id : Z; kd_key : list Z; kd_version : Z; kd_broadcast : option (list Z) }.
Record NodeInfo := mk_info {
  ni_node_id : Z;
  ni_network_id : Z;
  ni_static_pubkey : list Z;
  ni_capabilities : Z;
  ni_routes : list string;
  ni_endpoints : list string;
  ni_offline : bool;
  ni_protocol_version : Z;
  ni_identity_binding : list Z;
  ni_binding_log_id : Z * Z;
  ni_exit : bool
}.

(** *** Registration and keys *)

Section Ops.
Context `{W : HashOrder} `{P : Crypto.Primitives} `{S : Registry.IdentitySigner}.

(** What [register_inner] does with the registry's answer.  The counter of node ids
    wraps, as it does in a release build. *)
Definition commit (c : Coordinator) (network : string) (out : Registry.RegisterOutcome) (r : Registry.Registry)
    : Z * Coordinator :=
  let c := on_name network (fun d => set_registry d r) c in
  match out with
  | Registry.NewNode id => (id, bump_netmap (set_next c (wrap 32 (next_node_id c + 1))))
  | Registry.Existing id => (id, c)
  end.

(** [register_inner]; the coordinator is changed only when no error is returned. *)
Definition register_inner (c : Coordinator) (auth_key : string) (pk : list Z) (caps : Z) (routes : list string)
    (now : Z) (issuance : Z * Z) : outcome Registry.RegisterError (RegisterData * Coordinator) :=
  '(network, expiry, _) ← map_err (fun _ => Registry.InvalidAuthKey) (AuthKey.parse_auth_key auth_key);
  if bool_decide (expiry <> 0) && bool_decide (now > expiry) then Err Registry.InvalidAuthKey
  else if negb (existsb (by_name network) (domains c)) then Err Registry.InvalidAuthKey
  else
    d ← unwrap (domain_by_name c network);
    if Acl.enabled (acl d) && bool_decide (Z.land caps CAPABILITY_ACL = 0)
    then Err Registry.AclCapabilityRequired
    else
      '(out, r) ← Registry.register (registry d) auth_key pk caps routes (next_node_id c) issuance;
      let '(node_id, c) := commit c network out r in
      e ← unwrap (d ← domain_of_node c node_id; entry d node_id);
      Ok (mk_reg (Registry.node_id e) (Registry.network_id e) (Registry.identity_binding e)
            (Registry.binding_log_id e), c).

Definition register (c : Coordinator) (auth_key : string) (pk : list Z) (caps : Z) (routes : list string)
    (now : Z) (issuance : Z * Z) : outcome Registry.RegisterError RegisterData * Coordinator :=
  match register_inner c auth_key pk caps routes now issuance with
  | Ok (data, c') => (Ok data, c')
  | Err e => (Err e, set_rejects c (sat_add 64 (register_rejects c) 1))
  | Panic => (Panic, c)
  end.

Definition key_dist (c : Coordinator) (node_id : Z) : option KeyDistData :=
  d ← domain_of_node c node_id;
  e ← entry d node_id;
  Some (mk_keydist node_id (Keys.key_for (keys d) node_id) (Keys.key_version (keys d))
          (if has_cap CAPABILITY_BROADCAST e then Some (Keys.broadcast_key (keys d)) else None)).

Definition set_endpoints (c : Coordinator) (node_id : Z) (l s : list string) : Coordinator :=
  set_directory c (Directory.set_endpoints (directory c) node_id l s).

(** *** Paths *)

Definition request_paths (c : Coordinator) (source dest max now : Z)
    : list (PathService.PathCandidate * list Z) * Coordinator :=
  match domain_of_node c source, domain_of_node c dest with
  | Some sd, Some dd =>
      if decide (network_id sd <> network_id dd) then ([], c)
      else
        match domain_by_network_id c (network_id sd) with
        | Some d =>
            let '(cs, p) := PathService.request (paths d) source dest max now in
            ((fun x => (x, Keys.key_path_for (keys d) (PathService.path_id x) (PathService.path_epoch x))) <$> cs,
             on_id (network_id sd) (fun d => set_paths d p) c)
        | None => ([], c)
        end
  | _, _ => ([], c)
  end.

Definition take_path_events (c : Coordinator) (source : Z) : list PathService.PathEvent * Coordinator :=
  match domain_of_node c source with
  | Some d =>
      let '(evs, p) := PathService.take_events (paths d) source in
      (evs, on_node source (fun d => set_paths d p) c)
  | None => ([], c)
  end.

Definition key_path_for (c : Coordinator) (source path_id path_epoch : Z) : list Z :=
  match domain_of_node c source with
  | Some d => Keys.key_path_for (keys d) path_id path_epoch
  | None => replicate 32 0
  end.

(** *** Exits and relays *)

Definition cap_exits (d : NetworkDomain) : gset Z :=
  list_to_set (Registry.node_id <$>
    List.filter (has_cap CAPABILITY_EXIT) (walk_nodes (Registry.entries (registry d)))).

Definition set_exit_allow (c : Coordinator) (network : string) (allow : list Z) : Coordinator :=
  match domain_by_name c network with
  | None => c
  | Some d =>
      let new_allow : gset Z := list_to_set allow in
      let changed := negb (bool_decide (cap_exits d ∩ exit_allow d = cap_exits d ∩ new_allow)) in
      let c := on_name network (fun d => set_exits d new_allow) c in
      if changed then bump_netmap c else c
  end.

(** The counter of silent rounds is a [u32]: it is that of the source as long as a node has
    not been silent for 2^32 rounds in a row. *)
Definition record_rtt (d : NetworkDomain) (r : Z * option Z) : NetworkDomain :=
  match r.2 with
  | Some ms => set_rtt d (<[r.1 := ms]> (relay_rtt d)) (<[r.1 := 0]> (relay_miss d))
  | None => set_rtt d (relay_rtt d) (<[r.1 := default 0 (relay_miss d !! r.1) + 1]> (relay_miss d))
  end.

Definition record_relay_rtt_round (c : Coordinator) (network_id : Z) (results : list (Z * option Z))
    : Coordinator :=
  on_id network_id (fun d => foldl record_rtt d results) c.

(** The closures of [propose_relay_roster]. *)
Definition eligible (c : Coordinator) (d : NetworkDomain) (e : Registry.NodeEntry) : bool :=
  has_cap CAPABILITY_RELAY e && negb (bool_decide (Registry.node_id e ∈ exclude (relay_cfg d)))
  && negb (Liveness.is_offline (liveness c) (Registry.node_id e)).

Definition rtt_of (d : NetworkDomain) (node : Z) : Z := default (2 ^ 64 - 1) (relay_rtt d !! node).

Definition measured_healthy (d : NetworkDomain) (node : Z) : bool :=
  bool_decide (is_Some (relay_rtt d !! node))
  && bool_decide (default 0 (relay_miss d !! node) < RELAY_EXIT_MISS_ROUNDS).

Definition rtt_le (d : NetworkDomain) (a b : Z) : bool :=
  Z.ltb (rtt_of d a) (rtt_of d b) || (Z.eqb (rtt_of d a) (rtt_of d b) && Z.leb a b).

(** The body of the loop over [include]d nodes. *)
Definition add_included (d : NetworkDomain) (roster : list Z) (e : Registry.NodeEntry) : list Z :=
  if bool_decide (Registry.node_id e ∈ include (relay_cfg d))
     && negb (bool_decide (Registry.node_id e ∈ roster)) && measured_healthy d (Registry.node_id e)
  then roster ++ [Registry.node_id e] else roster.

Definition auto_roster (c : Coordinator) (d : NetworkDomain) : list Z :=
  take (max_size (relay_cfg d)) (sort (rtt_le d) (Registry.node_id <$>
    List.filter (fun e => Directory.public_direct (directory c) (Registry.node_id e)
                          && measured_healthy d (Registry.node_id e))
      (List.filter (eligible c d) (walk_nodes (Registry.entries (registry d)))))).

Definition propose_relay_roster (c : Coordinator) (network_id : Z) : list Z :=
  match domain_by_network_id c network_id with
  | None => []
  | Some d =>
      sort (rtt_le d) (foldl (add_included d) (auto_roster c d)
        (List.filter (eligible c d) (walk_nodes (Registry.entries (registry d)))))
  end.

Definition apply_relay_roster (c : Coordinator) (network_id : Z) (r : list Z) (now : Z) : bool * Coordinator :=
  match domain_by_network_id c network_id with
  | None => (false, c)
  | Some d =>
      let dropped := List.filter (fun x => negb (bool_decide (x ∈ r))) (roster d) in
      let '(changed, d) := apply_roster d r in
      let p := foldl (fun p n => PathService.withdraw_relay p (walk_paths p) n) (paths d) dropped in
      let p := PathService.expand_relay_candidates p (walk_paths p) now in
      let c := on_id network_id (fun _ => set_paths d p) c in
      (changed, if changed then bump_netmap c else c)
  end.

Definition relay_roster_for (c : Coordinator) (network_id : Z) : list Z :=
  match domain_by_network_id c network_id with Some d => roster d | None => [] end.

Definition relay_probe_targets (c : Coordinator) (network_id : Z) : list (Z * list string) :=
  match domain_by_network_id c network_id with
  | None => []
  | Some d =>
      (fun e => (Registry.node_id e, Directory.merged_endpoints_of (directory c) (Registry.node_id e))) <$>
      List.filter (fun e => negb (bool_decide (Registry.node_id e ∈ exclude (relay_cfg d))))
        (List.filter (has_cap CAPABILITY_RELAY) (walk_nodes (Registry.entries (registry d))))
  end.

(** *** The network map *)

Definition node_info (c : Coordinator) (d : NetworkDomain) (e : Registry.NodeEntry) : NodeInfo :=
  mk_info (Registry.node_id e) (Registry.network_id e) (Registry.static_pubkey e) (Registry.capabilities e)
    (Registry.routes e) (Directory.merged_endpoints_of (directory c) (Registry.node_id e))
    (Liveness.is_offline (liveness c) (Registry.node_id e))
    (Directory.protocol_version (directory c) (Registry.node_id e))
    (Registry.identity_binding e) (Registry.binding_log_id e)
    (has_cap CAPABILITY_EXIT e && bool_decide (Registry.node_id e ∈ exit_allow d)).

Definition netmap_snapshot (c : Coordinator) (network_id : Z) : list NodeInfo :=
  concat ((fun d => node_info c d <$> walk_nodes (Registry.entries (registry d))) <$>
    List.filter (by_id network_id) (domains c)).

Definition netmap_version (c : Coordinator) : Z := Directory.netmap_version (directory c).

(** *** Key rotation, liveness, revocation *)

Definition flush_domain (now : Z) (d : NetworkDomain) : bool * NetworkDomain :=
  let '(hit, k) := Keys.take_revoke_rotation (keys d) now in (hit, set_keys d k).

Definition flush_revoke_rotations (c : Coordinator) (now : Z) : bool * Coordinator :=
  let l := flush_domain now <$> domains c in
  (existsb fst l, set_domains c (l.*2)).

Definition rotate_master_key (c : Coordinator) (network : string) (new_master : list Z) : Coordinator :=
  on_name network (fun d => set_keys d (Keys.clear_revoke_rotation (Keys.rotate (keys d) new_master))) c.

(** A node that went offline takes its dynamic routes with it. *)
Definition drop_routes (node_id : Z) (d : NetworkDomain) : NetworkDomain :=
  set_route_map d (RouteMap.withdraw_node (route_map d) node_id).2 (delete node_id (route_map_pushed d)).

Definition heartbeat (c : Coordinator) (node_id now : Z) : bool * Coordinator :=
  let c := (flush_revoke_rotations c now).2 in
  let was_offline := Liveness.is_offline (liveness c) node_id in
  let l := (Liveness.heartbeat (liveness c) node_id now).2 in
  let '(newly, l) := Liveness.sweep l (walk_seen (Liveness.last_seen l)) now in
  let c := foldl (fun c id => on_node id (drop_routes id) c) (set_liveness c l) newly in
  (was_offline, if was_offline || negb (bool_decide (newly = [])) then bump_netmap c else c).

Definition mark_offline (c : Coordinator) (node_id : Z) : Coordinator :=
  if existsb (holds node_id) (domains c) then
    let '(marked, l) := Liveness.mark_offline (liveness c) node_id in
    if marked then bump_netmap (on_node node_id (drop_routes node_id) (set_liveness c l)) else c
  else c.

Definition reset_liveness_on_takeover (c : Coordinator) (now : Z) : Coordinator :=
  let es := concat ((fun d => walk_nodes (Registry.entries (registry d))) <$> domains c) in
  bump_netmap (set_liveness c
    (foldl (fun l e => (Liveness.heartbeat l (Registry.node_id e) now).2) (liveness c) es)).

(** What revoking does to the node's domain. *)
Definition revoke_in (node_id now : Z) (d : NetworkDomain) : NetworkDomain :=
  let d := set_registry d (Registry.revoke (registry d) node_id) in
  let d := set_paths d (PathService.withdraw_node (paths d) (walk_paths (paths d)) node_id) in
  let d := set_route_map d (RouteMap.withdraw_node (route_map d) node_id).2 ∅ in
  let d := if bool_decide (node_id ∈ roster d) then
             let r := Liveness.without node_id (roster d) in
             set_paths (set_roster d r) (PathService.set_relays (paths d) r)
           else d in
  set_keys d (Keys.arm_revoke_rotation (keys d) (wrap 64 (now + REVOKE_ROTATION_WINDOW_SECS))).

Definition revoke (c : Coordinator) (node_id now : Z) (log_id : Z * Z) : Coordinator :=
  let c := (flush_revoke_rotations c now).2 in
  if existsb (holds node_id) (domains c) then
    let c := set_domains c (update_first (holds node_id) (revoke_in node_id now) (domains c)) in
    let c := set_liveness c (Liveness.remove (liveness c) node_id) in
    let c := set_directory c (Directory.bump_netmap (Directory.remove_node (directory c) node_id)) in
    let c := set_telemetry c (delete node_id (telemetry c)) in
    set_revoked c (<[node_id := log_id]> (revoked c))
  else c.

(** *** Dynamic routes *)

Definition parse_routes (rs : list string) : list Prefix := omap (fun r => ok (parse r)) rs.

Definition coverage_of (d : NetworkDomain) (node_id : Z) : list Prefix :=
  match entry d node_id with Some e => parse_routes (Registry.routes e) | None => [] end.

Definition apply_route_sync (c : Coordinator) (node_id : Z) (announced : list (Prefix * string))
    (withdrawn : list Prefix) (now : Z) : option RouteMap.RouteSyncOutcome * Coordinator :=
  match domain_of_node c node_id with
  | None => (None, c)
  | Some d =>
      let '(out, r) := RouteMap.apply_sync node_id (coverage_of d node_id) RouteMap.ROUTE_MAP_MAX_PER_NODE now
                         (route_map d) announced withdrawn in
      (Some out, on_node node_id (fun d => set_route_map d r (route_map_pushed d)) c)
  end.

Definition take_route_map_push (c : Coordinator) (node_id : Z) (order : list (RouteMap.Key * string))
    : option (Z * list RouteMap.RouteMapSnapshotEntry) * Coordinator :=
  match domain_of_node c node_id with
  | None => (None, c)
  | Some d =>
      let version := RouteMap.version (route_map d) in
      if decide (route_map_pushed d !! node_id = Some version) then (None, c)
      else (Some (version, RouteMap.snapshot (route_map d) order),
            on_node node_id (fun d => set_route_map d (route_map d) (<[node_id := version]> (route_map_pushed d))) c)
  end.

(** *** Lookups *)

Definition node_entry (c : Coordinator) (node_id : Z) : option Registry.NodeEntry :=
  d ← domain_of_node c node_id; entry d node_id.

Definition node_id_by_pubkey (c : Coordinator) (pk : list Z) : option Z :=
  find_map (fun d => Registry.node_id_by_pubkey (registry d) pk) (domains c).

Definition static_pubkey_of (c : Coordinator) (node_id : Z) : option (list Z) :=
  Registry.static_pubkey <$> node_entry c node_id.

Definition identity_binding_of (c : Coordinator) (node_id : Z) : option (list Z) :=
  Registry.identity_binding <$> node_entry c node_id.

Definition binding_log_id_of (c : Coordinator) (node_id : Z) : option (Z * Z) :=
  Registry.binding_log_id <$> node_entry c node_id.

Definition revocation_of (c : Coordinator) (node_id : Z) : option (Z * Z) := revoked c !! node_id.

Definition key_version_for (c : Coordinator) (network : string) : Z :=
  match domain_by_name c network with Some d => Keys.key_version (keys d) | None => 0 end.

Definition auth_key_admissible (c : Coordinator) (auth_key : string) (now : Z) : bool :=
  match AuthKey.parse_auth_key auth_key with
  | Ok (network, expiry, _) =>
      if bool_decide (expiry <> 0) && bool_decide (now > expiry) then false
      else existsb (fun d => by_name network d && Registry.contains_auth_key (registry d) auth_key) (domains c)
  | _ => false
  end.

Definition resume_matches (c : Coordinator) (node_id caps : Z) (routes : list string) : bool :=
  match node_entry c node_id with
  | Some e => bool_decide (Registry.capabilities e = caps) && bool_decide (Registry.routes e = routes)
  | None => false
  end.

End Ops.
End Coordinator.
