(* ===== verification/CoordinatorInv.v ===== *)
(** * The coordinator's invariant

    What holds of the coordinator of [Coordinator] after any sequence of its
    calls, and what follows for the isolation of networks, for registration and
    for revocation. *)

From S2P Require Import Prelude Crypto Net Route Control Registry AuthKey Coord PathService RouteMap Coordinator.

Module CoordinatorInv.
Import Net Route Coordinator.

(** A domain of a coordinator whose next node id is [next]. *)
Record domain_ok (next : Z) (d : NetworkDomain) : Prop := {
  do_id : network_id d = network_id_for (name d);
  do_registry : Registry.wf (registry d);
  do_net : Registry.net_id (registry d) = network_id d;
  do_entry : forall id e, entry d id = Some e -> Registry.network_id e = network_id d /\ 1 <= id < next;
  do_keys : forall k, is_Some (Registry.auth_keys (registry d) !! k) \/ k ∈ Registry.consumed_one_time (registry d) ->
    exists x s, AuthKey.parse_auth_key k = Ok (name d, x, s);
  do_relays : PathService.relays (paths d) = roster d;
  do_paths : PathService.inv (paths d);
  do_routes : RouteMap.inv (coverage_of d) RouteMap.ROUTE_MAP_MAX_PER_NODE (route_map d)
}.

Record inv (c : Coordinator) : Prop := {
  in_domains : forall d, d ∈ domains c -> domain_ok (next_node_id c) d;
  in_ids : NoDup (network_id <$> domains c);
  in_unique : forall d d' id, d ∈ domains c -> d' ∈ domains c ->
    is_Some (entry d id) -> is_Some (entry d' id) -> d = d';
  in_revoked : forall id, is_Some (revoked c !! id) ->
    1 <= id < next_node_id c /\ forall d, d ∈ domains c -> entry d id = None;
  in_next : 1 <= next_node_id c
}.

(** ** Finding and replacing domains *)

Lemma update_first_spec P f l :
  match List.find P l with
  | None => update_first P f l = l
  | Some d => exists l1 l2, l = l1 ++ d :: l2 /\ update_first P f l = l1 ++ f d :: l2 /\ P d = true
  end.
Proof.
  induction l as [|x l IH]; cbn; [done|]. destruct (P x) eqn:E; [by exists [], l|].
  destruct (List.find P l) as [d|]; [|by rewrite IH].
  destruct IH as (l1 & l2 & -> & -> & ?). by exists (x :: l1), l2.
Qed.

Lemma update_first_map {B} (g : NetworkDomain -> B) P f l :
  (forall d, d ∈ l -> P d = true -> g (f d) = g d) -> g <$> update_first P f l = g <$> l.
Proof.
  intros H. pose proof (update_first_spec P f l) as Hs. destruct (List.find P l) as [d|]; [|by rewrite Hs].
  destruct Hs as (l1 & l2 & -> & -> & Hp). rewrite !fmap_app. cbn. rewrite H; [done| |done].
  apply elem_of_app. right. by left.
Qed.

Lemma find_by_id c id d : domain_by_network_id c id = Some d -> d ∈ domains c /\ network_id d = id.
Proof. intros [H1 H2]%find_Some_elem. split; [done|]. by apply bool_decide_eq_true in H2. Qed.

Lemma find_by_name c nm d : domain_by_name c nm = Some d -> d ∈ domains c /\ name d = nm.
Proof. intros [H1 H2]%find_Some_elem. split; [done|]. by apply bool_decide_eq_true in H2. Qed.

Lemma find_map_Some {A B} (f : A -> option B) l y : find_map f l = Some y -> exists x, x ∈ l /\ f x = Some y.
Proof.
  induction l as [|x l IH]; cbn; [done|]. destruct (f x) eqn:E.
  - intros [= <-]. exists x. split; [left|done].
  - intros (x' & Hx & ?)%IH. exists x'. split; [by right|done].
Qed.

Lemma find_map_None {A B} (f : A -> option B) l x : find_map f l = None -> x ∈ l -> f x = None.
Proof.
  induction l as [|z l IH]; cbn; [by inversion 2|]. destruct (f z) eqn:E; [done|].
  intros H [->|Hx]%elem_of_cons; auto.
Qed.

Section Lookup.
Context (c : Coordinator) (Hc : inv c).

Lemma by_id_elem d : d ∈ domains c -> domain_by_network_id c (network_id d) = Some d.
Proof.
  intros Hd. destruct (domain_by_network_id c (network_id d)) as [d'|] eqn:E.
  - apply find_by_id in E as [Hd' E]. f_equal. by eapply fmap_nodup_eq; [apply in_ids|..].
  - unfold domain_by_network_id in E. rewrite find_None in E. specialize (E d Hd).
    by apply bool_decide_eq_false in E.
Qed.

Lemma by_name_elem d : d ∈ domains c -> domain_by_name c (name d) = Some d.
Proof.
  intros Hd. destruct (domain_by_name c (name d)) as [d'|] eqn:E.
  - apply find_by_name in E as [Hd' E]. f_equal. eapply (fmap_nodup_eq network_id); [by apply in_ids|done..|].
    rewrite (do_id _ _ (in_domains c Hc d' Hd')), (do_id _ _ (in_domains c Hc d Hd)). by rewrite E.
  - unfold domain_by_name in E. rewrite find_None in E. specialize (E d Hd).
    by apply bool_decide_eq_false in E.
Qed.

(** The domain of a node is the one whose registry lists it. *)
Lemma domain_of_node_iff n d : domain_of_node c n = Some d <-> d ∈ domains c /\ is_Some (entry d n).
Proof.
  unfold domain_of_node, network_of_node. split.
  - destruct (find_map _ _) as [e|] eqn:E; [|done]. cbn.
    apply find_map_Some in E as (d' & Hd' & He). destruct (do_entry _ _ (in_domains c Hc d' Hd') n e He) as [-> _].
    rewrite by_id_elem by done. intros [= <-]. eauto.
  - intros [Hd [e He]]. destruct (find_map _ _) as [e'|] eqn:E.
    + apply find_map_Some in E as (d' & Hd' & He'). assert (d' = d) as -> by (eapply in_unique; eauto).
      cbn. destruct (do_entry _ _ (in_domains c Hc d Hd) n e' He') as [-> _]. by apply by_id_elem.
    + by rewrite (find_map_None _ _ _ E Hd) in He.
Qed.

Lemma domain_of_node_None n : domain_of_node c n = None <-> forall d, d ∈ domains c -> entry d n = None.
Proof.
  split.
  - intros H d Hd. apply eq_None_not_Some. intros He. by rewrite (proj2 (domain_of_node_iff n d)) in H.
  - intros H. destruct (domain_of_node c n) as [d|] eqn:E; [|done].
    apply domain_of_node_iff in E as [Hd He]. rewrite H in He by done. by destruct He.
Qed.

Lemma network_of_node_domain n d : domain_of_node c n = Some d -> network_of_node c n = Some (network_id d).
Proof.
  unfold domain_of_node. destruct (network_of_node c n) as [id|]; [|done]. cbn.
  intros [_ <-]%find_by_id. done.
Qed.
End Lookup.

(** ** Keeping the invariant *)

(** The parts of a domain the invariant looks at. *)
Definition core (d : NetworkDomain) :=
  (network_id d, name d, registry d, paths d, roster d, route_map d).

Lemma core_entry d d' id : core d' = core d -> entry d' id = entry d id.
Proof. unfold core, entry. intros E. congruence. Qed.

Lemma domain_ok_core next d d' : core d' = core d -> domain_ok next d -> domain_ok next d'.
Proof.
  intros E H. destruct d, d'. unfold core in E. cbn in E. simplify_eq. destruct H. by split.
Qed.

Lemma domain_ok_mono next next' d : next <= next' -> domain_ok next d -> domain_ok next' d.
Proof. intros Hn []. split; try done. intros id e He. destruct (do_entry0 id e He). split; [done|lia]. Qed.

Lemma inv_core c c' : core <$> domains c' = core <$> domains c ->
  next_node_id c' = next_node_id c -> revoked c' = revoked c -> inv c -> inv c'.
Proof.
  intros E En Er [H1 H2 H3 H4 H5].
  assert (Hd : forall d', d' ∈ domains c' -> exists d, d ∈ domains c /\ core d' = core d).
  { intros d' Hd'. assert (core d' ∈ core <$> domains c') as Hin by by apply list_elem_of_fmap_2.
    rewrite E in Hin. apply list_elem_of_fmap in Hin as (d & ? & ?). eauto. }
  assert (Hid : network_id <$> domains c' = network_id <$> domains c).
  { assert (Hp : forall l, network_id <$> l = (fun x => x.1.1.1.1.1) <$> (core <$> l))
      by (intros l; rewrite <- list_fmap_compose; done). by rewrite !Hp, E. }
  assert (H2' : NoDup (network_id <$> domains c')) by by rewrite Hid.
  split; rewrite ?En, ?Er; try done.
  - intros d' (d & Hd1 & Hc)%Hd. eapply domain_ok_core; [exact Hc|auto].
  - intros d1 d2 id Hd1 Hd2 He1 He2. eapply (fmap_nodup_eq network_id); [done..|].
    apply Hd in Hd1 as (e1 & Hd1 & Hc1). apply Hd in Hd2 as (e2 & Hd2 & Hc2).
    rewrite (core_entry _ _ _ Hc1) in He1. rewrite (core_entry _ _ _ Hc2) in He2.
    assert (e1 = e2) as <- by eauto. unfold core in *. congruence.
  - intros id Hi. destruct (H4 id Hi) as [? Hn]. split; [done|].
    intros d' (d & Hd1 & Hc)%Hd. rewrite (core_entry _ _ _ Hc). auto.
Qed.

(** Replacing one domain, registering at most the next node id. *)
Lemma inv_replace c l1 d l2 d' next : domains c = l1 ++ d :: l2 -> inv c -> next_node_id c <= next ->
  network_id d' = network_id d -> domain_ok next d' ->
  (forall id, is_Some (entry d' id) -> is_Some (entry d id) \/ id = next_node_id c) ->
  inv (set_next (set_domains c (l1 ++ d' :: l2)) next).
Proof.
  intros Hl Hc Hn Hid Hok Hnew. pose proof Hc as [H1 H2 H3 H4 H5].
  assert (Hin : forall x, x ∈ l1 ++ d' :: l2 -> x = d' \/ (x ∈ domains c /\ x ∈ l1 ++ l2)).
  { intros x. rewrite Hl, !elem_of_app, !elem_of_cons. tauto. }
  assert (Hd : d ∈ domains c) by (rewrite Hl; apply elem_of_app; right; left).
  assert (Hids : NoDup (network_id <$> l1 ++ d' :: l2))
    by (rewrite Hl in H2; rewrite fmap_app in *; cbn in *; by rewrite Hid).
  assert (Hother : forall x, x ∈ l1 ++ l2 -> x <> d).
  { intros x Hx ->. rewrite Hl, fmap_app in H2. cbn in H2.
    rewrite Permutation_app_comm in H2. cbn in H2. apply list.NoDup_cons in H2 as [H2 _]. apply H2.
    rewrite <- fmap_app. apply list_elem_of_fmap_2. rewrite elem_of_app in *. tauto. }
  assert (Hfresh : forall x, x ∈ domains c -> entry x (next_node_id c) = None).
  { intros x Hx. apply eq_None_not_Some. intros [e He]. destruct (do_entry _ _ (H1 x Hx) _ _ He). lia. }
  assert (Hclash : forall x id, x ∈ domains c -> x ∈ l1 ++ l2 -> is_Some (entry d' id) -> is_Some (entry x id) -> False).
  { intros x id Hx Hx' Hd' Hxe. destruct (Hnew id Hd') as [Hde | ->].
    - by apply (Hother x Hx'), (H3 x d id).
    - rewrite Hfresh in Hxe by done. by destruct Hxe. }
  split; cbn [domains set_next set_domains next_node_id revoked].
  - intros x [->|[Hx _]]%Hin; [done|]. eapply domain_ok_mono; [exact Hn|auto].
  - done.
  - intros x y id [->|[Hx Hx']]%Hin [->|[Hy Hy']]%Hin He1 He2; [done| | |eauto].
    + by destruct (Hclash y id).
    + by destruct (Hclash x id).
  - intros id Hi. destruct (H4 id Hi) as [Hr Hno]. split; [lia|].
    intros x [->|[Hx _]]%Hin; [|auto]. apply eq_None_not_Some. intros [He|He]%Hnew.
    + rewrite Hno in He by done. by destruct He.
    + lia.
  - lia.
Qed.

Lemma inv_update c P f next : inv c -> next_node_id c <= next ->
  (forall d, d ∈ domains c -> P d = true -> network_id (f d) = network_id d /\ domain_ok next (f d) /\
     forall id, is_Some (entry (f d) id) -> is_Some (entry d id) \/ id = next_node_id c) ->
  inv (set_next (set_domains c (update_first P f (domains c))) next).
Proof.
  intros Hc Hn Hf. pose proof (update_first_spec P f (domains c)) as Hs.
  destruct (List.find P (domains c)) as [d|].
  - destruct Hs as (l1 & l2 & Hl & -> & Hp). destruct (Hf d) as (H1 & H2 & H3); [|done|by eapply inv_replace].
    rewrite Hl. apply elem_of_app. right. left.
  - rewrite Hs. destruct Hc as [H1 H2 H3 H4 H5]. split; cbn; [|done|done| |lia].
    + intros d Hd. eapply domain_ok_mono; [exact Hn|auto].
    + intros id Hi. destruct (H4 id Hi). split; [lia|done].
Qed.

Lemma inv_same c c' : domains c' = domains c -> next_node_id c' = next_node_id c -> revoked c' = revoked c ->
  inv c -> inv c'.
Proof. intros E. apply inv_core. by rewrite E. Qed.

(** A change of a domain that registers nobody. *)
Lemma inv_update_keep c P f : inv c ->
  (forall d, d ∈ domains c -> P d = true -> network_id (f d) = network_id d /\
     domain_ok (next_node_id c) (f d) /\ forall id, is_Some (entry (f d) id) -> is_Some (entry d id)) ->
  inv (set_domains c (update_first P f (domains c))).
Proof.
  intros Hc Hf. eapply (inv_same (set_next (set_domains c (update_first P f (domains c))) (next_node_id c)));
    [done..|].
  apply inv_update; [done|lia|]. intros d Hd Hp. destruct (Hf d Hd Hp) as (? & ? & ?). eauto 10.
Qed.

(** A change of a domain that the invariant does not look at. *)
Lemma inv_cosmetic c P f : (forall d, core (f d) = core d) -> inv c ->
  inv (set_domains c (update_first P f (domains c))).
Proof. intros Hf. apply inv_core; [|done..]. cbn. apply update_first_map. auto. Qed.

(** *** One domain *)

Section Domain.
Context (next : Z) (d : NetworkDomain) (Hd : domain_ok next d).

Lemma domain_ok_registry r : Registry.wf r -> Registry.net_id r = Registry.net_id (registry d) ->
  Registry.entries r = Registry.entries (registry d) ->
  (forall k, is_Some (Registry.auth_keys r !! k) \/ k ∈ Registry.consumed_one_time r ->
     exists x s, AuthKey.parse_auth_key k = Ok (name d, x, s)) ->
  domain_ok next (set_registry d r).
Proof.
  intros Hw Hn He Hk. destruct Hd. split; cbn; try done.
  - congruence.
  - unfold entry. cbn. rewrite He. done.
  - eapply RouteMap.inv_cover_ext; [|done]. intros n _. unfold coverage_of, entry. cbn. by rewrite He.
Qed.

Lemma domain_ok_paths p : PathService.relays p = roster d -> PathService.inv p -> domain_ok next (set_paths d p).
Proof. intros Hr Hp. destruct Hd. by split. Qed.

Lemma domain_ok_roster r : domain_ok next (apply_roster d r).2.
Proof.
  destruct Hd. split; try done. cbn. by destruct do_paths0.
Qed.

Lemma domain_ok_route_map m pushed :
  RouteMap.inv (coverage_of d) RouteMap.ROUTE_MAP_MAX_PER_NODE m -> domain_ok next (set_route_map d m pushed).
Proof. intros Hm. destruct Hd. by split. Qed.

Lemma domain_ok_drop_routes n : domain_ok next (drop_routes n d).
Proof.
  apply domain_ok_route_map. eapply RouteMap.inv_withdraw; [done| |apply Hd]. done.
Qed.

End Domain.

(** *** The calls *)

Lemma inv_new : inv new.
Proof. split; cbn; try done; [by inversion 1|constructor|by inversion 1|]. intros id [x Hx]. by rewrite lookup_empty in Hx. Qed.

Lemma domain_new_ok next nm mk : domain_ok next (domain_new nm (network_id_for nm) mk).
Proof.
  split; [done|apply Registry.registry_new_wf|done|..].
  - intros id e He. discriminate He.
  - intros k [[x Hx]|Hk]; [discriminate Hx|by inversion Hk].
  - done.
  - apply PathService.new_inv.
  - split; [done|done|]. intros p n [x Hx]. discriminate Hx.
Qed.

Lemma inv_add_network c nm mk : network_id_for nm ∉ network_id <$> domains c -> inv c -> inv (add_network c nm mk).2.
Proof.
  intros Hnew [H1 H2 H3 H4 H5]. set (d := domain_new nm (network_id_for nm) mk).
  assert (Hd : forall id, entry d id = None) by (intros id; apply lookup_empty).
  split; cbn; try done.
  - intros x [Hx|Hx]%elem_of_app; [auto|]. apply list_elem_of_singleton in Hx as ->. apply domain_new_ok.
  - rewrite fmap_app, list.NoDup_app. split_and!; [done| |apply NoDup_singleton].
    intros x Hx Hx'. apply list_elem_of_singleton in Hx' as ->. done.
  - assert (Hin : forall x id, x ∈ domains c ++ [d] -> is_Some (entry x id) -> x ∈ domains c).
    { intros x id [Hx|Hx]%elem_of_app He; [done|]. apply list_elem_of_singleton in Hx as ->.
      rewrite Hd in He. by destruct He. }
    intros x y id Hx Hy He1 He2. eauto.
  - intros id Hi. destruct (H4 id Hi) as [? Hn]. split; [done|].
    intros x [Hx|Hx]%elem_of_app; [auto|]. apply list_elem_of_singleton in Hx as ->. apply Hd.
Qed.

Lemma inv_add_auth_key c k spec : inv c -> inv (add_auth_key_spec c k spec).2.
Proof.
  intros Hc. unfold add_auth_key_spec. destruct (AuthKey.parse_auth_key k) as [[[net x] s]|e|] eqn:Ek; [|done..].
  destruct (domain_by_name c net) as [d0|]; [|done]. apply inv_update_keep; [done|].
  intros d Hd Hp. apply bool_decide_eq_true in Hp. pose proof (in_domains c Hc d Hd) as Hok.
  assert (He : Registry.entries (Registry.add_auth_key_spec (registry d) k spec) = Registry.entries (registry d))
    by (unfold Registry.add_auth_key_spec; by case_decide).
  split; [done|]. split; [|unfold entry; cbn; by rewrite He].
  apply domain_ok_registry; [done| | |done|].
  - by apply Registry.add_key_preserves_wf, Hok.
  - unfold Registry.add_auth_key_spec. by case_decide.
  - intros k' Hk'. destruct (decide (k' = k)) as [->|Hne]; [by rewrite Hp; eauto|].
    apply (do_keys _ _ Hok). unfold Registry.add_auth_key_spec in Hk'. case_decide; [done|]. cbn in Hk'.
    by rewrite lookup_insert_ne in Hk' by done.
Qed.

Lemma inv_remove_auth_key c k : inv c -> inv (remove_auth_key c k).
Proof.
  intros Hc. unfold remove_auth_key. destruct (AuthKey.parse_auth_key k) as [[[net x] s]|e|]; [|done..].
  apply inv_update_keep; [done|]. intros d Hd _. pose proof (in_domains c Hc d Hd) as Hok.
  split; [done|]. split; [|done]. apply domain_ok_registry; [done| |done|done|].
  - pose proof (do_registry _ _ Hok) as []. split; cbn; try done. intros k' Hk'. apply lookup_delete_None. auto.
  - intros k' [[y Hy]|Hk']; apply (do_keys _ _ Hok); [|by right]. cbn in Hy.
    apply lookup_delete_Some in Hy as [_ Hy]. left. eauto.
Qed.

Lemma inv_whitelist c net w : Forall prefix_ok w -> inv c -> inv (set_announce_whitelist c net w).
Proof.
  intros Hw Hc. apply inv_update_keep; [done|]. intros d Hd _. pose proof (in_domains c Hc d Hd) as Hok.
  split; [done|]. split; [|done]. apply domain_ok_registry; [done| |done|done|apply Hok].
  pose proof (do_registry _ _ Hok) as []. by split.
Qed.

Section Calls.
Context `{W : HashOrder} `{!HashOrderLaws W} `{P : Crypto.Primitives} `{S : Registry.IdentitySigner}.

(** A registration that succeeds, in its network's domain. *)
Lemma register_domain next d k pk caps rs iss out r : 1 <= next -> domain_ok next d ->
  Registry.register (registry d) k pk caps rs next iss = Ok (out, r) ->
  domain_ok (next + 1) (set_registry d r) /\
  (forall id, is_Some (entry (set_registry d r) id) -> is_Some (entry d id) \/ id = next) /\
  match out with
  | Registry.NewNode id => id = next /\ entry (set_registry d r) id
      = Some (Registry.mk_node id (network_id d) pk caps rs (Registry.sign (Registry.binding_message id pk iss)) iss)
  | Registry.Existing id => r = registry d /\ exists e, entry d id = Some e /\ Registry.static_pubkey e = pk
  end.
Proof.
  intros Hn Hd Hr.
  assert (Hfresh : Registry.entries (registry d) !! next = None).
  { apply eq_None_not_Some. intros [e He]. destruct (do_entry _ _ Hd _ _ He). lia. }
  pose proof (Registry.register_preserves_wf _ _ _ _ _ _ _ _ _ (do_registry _ _ Hd) Hfresh Hr) as Hw.
  apply Registry.register_Ok in Hr as [(e & -> & -> & Hp & He & _)|(-> & Hp & _ & spec & Hk & ->)].
  - assert (set_registry d (registry d) = d) as -> by by destruct d. split; [eapply domain_ok_mono; [|exact Hd]; lia|].
    split; [by left|]. split; [done|]. apply (Registry.wf_pubkey _ (do_registry _ _ Hd)) in Hp as (e' & He' & ?). eauto.
  - set (e := Registry.mk_node _ _ _ _ _ _ _) in *. set (r := Registry.mk_registry _ _ _ _ _ _) in *.
    assert (Hent : forall id, entry (set_registry d r) id = if decide (id = next) then Some e else entry d id).
    { intros id. unfold entry. cbn. destruct (decide (id = next)) as [->|];
        [apply lookup_insert_eq|by apply lookup_insert_ne]. }
    split; [|split].
    + destruct Hd. split; cbn; try done.
      * intros id x. rewrite Hent. destruct (decide (id = next)) as [->|].
        -- intros [= <-]. cbn. split; [done|lia].
        -- intros Hx. destruct (do_entry0 id x Hx). split; [done|lia].
      * intros k'. case_bool_decide; [|by apply do_keys0].
        rewrite elem_of_app, list_elem_of_singleton. intros [[y Hy]|[Hc| ->]]; apply do_keys0; [left|by right|left; eauto].
        apply lookup_delete_Some in Hy as [_ Hy]. eauto.
      * eapply RouteMap.inv_cover_ext; [|exact do_routes0]. intros n. unfold coverage_of.
        rewrite Hent. destruct (decide (n = next)) as [->|]; [|done]. unfold entry. rewrite Hfresh. by intros [].
    + intros id. rewrite Hent. destruct (decide _); [by right|by left].
    + split; [done|]. rewrite Hent, decide_True by done. unfold e. by rewrite (do_net _ _ Hd).
Qed.

Lemma update_first_elem Q f l d : List.find Q l = Some d -> f d ∈ update_first Q f l.
Proof.
  intros H. pose proof (update_first_spec Q f l) as Hs. rewrite H in Hs.
  destruct Hs as (l1 & l2 & _ & -> & _). apply elem_of_app. right. left.
Qed.

Lemma by_name_inj c d d' : inv c -> d ∈ domains c -> d' ∈ domains c -> name d' = name d -> d' = d.
Proof.
  intros Hc Hd Hd' E. pose proof (by_name_elem c Hc d Hd). pose proof (by_name_elem c Hc d' Hd'). congruence.
Qed.

(** The state a registration leaves. *)
Lemma coord_commit_ok c d k pk caps rs iss out r : inv c -> next_node_id c < 2 ^ 32 - 1 -> d ∈ domains c ->
  Registry.register (registry d) k pk caps rs (next_node_id c) iss = Ok (out, r) ->
  let '(n, c') := commit c (name d) out r in
  inv c' /\ domain_of_node c' n = Some (set_registry d r) /\
  exists e, entry (set_registry d r) n = Some e /\ Registry.node_id e = n /\
    Registry.network_id e = network_id d /\ Registry.static_pubkey e = pk /\
    Registry.capabilities e = caps /\ Registry.routes e = rs /\
    (n = next_node_id c /\ Registry.binding_log_id e = iss /\
       Registry.identity_binding e = Registry.sign (Registry.binding_message n pk iss)
     \/ entry d n = Some e).
Proof.
  intros Hc Hmax Hd Er. pose proof (in_domains c Hc d Hd) as Hok. pose proof (in_next c Hc) as Hn.
  pose proof (register_domain _ _ _ _ _ _ _ _ _ Hn Hok Er) as (Hok' & Hnew & Hout).
  set (c1 := on_name (name d) (fun d => set_registry d r) c).
  assert (Hin : set_registry d r ∈ domains c1)
    by exact (update_first_elem (by_name (name d)) (fun d => set_registry d r) _ d (by_name_elem c Hc d Hd)).
  destruct out as [id|id]; cbn [commit]; fold c1; destruct Hout as [-> Hout].
  - rewrite wrap_small by (cbn; uint). set (c2 := bump_netmap _).
    assert (Hi2 : inv c2).
    { eapply (inv_same (set_next c1 (next_node_id c + 1))); [done..|]. apply inv_update; [done|lia|].
      intros d' Hd' Hp%bool_decide_eq_true. apply (by_name_inj c d d' Hc Hd Hd') in Hp as ->. auto. }
    split; [done|]. split; [apply domain_of_node_iff; [done|]; split; [exact Hin|by rewrite Hout]|].
    eexists. split; [exact Hout|]. split_and!; try done. by left.
  - destruct Hout as (e & He & Hpk).
    assert (Hi1 : inv c1).
    { apply (inv_core c); [|done..|done]. cbn. apply update_first_map.
      intros d' Hd' Hp%bool_decide_eq_true. apply (by_name_inj c d d' Hc Hd Hd') in Hp as ->. done. }
    split; [done|]. split; [apply domain_of_node_iff; [done|]; split; [exact Hin|by exists e]|].
    exists e. destruct (Registry.wf_entry _ (do_registry _ _ Hok) id e He) as [Hid _].
    destruct (do_entry _ _ Hok id e He) as [Hnet _].
    apply Registry.register_Ok in Er as [(e' & [= Hdef] & _ & _ & He2 & <- & <-)|[? _]]; [|done].
    rewrite <- Hdef in He2. unfold entry in *. rewrite He in He2. injection He2 as <-.
    split_and!; try done. by right.
Qed.

(** What a successful registration returns. *)
Lemma register_inner_ok c k pk caps rs now iss data c' :
  inv c -> next_node_id c < 2 ^ 32 - 1 -> register_inner c k pk caps rs now iss = Ok (data, c') ->
  inv c' /\ exists d x s,
    AuthKey.parse_auth_key k = Ok (name d, x, s) /\ d ∈ domains c /\
    (x = 0 \/ now <= x) /\ (Acl.enabled (acl d) = true -> Z.land caps CAPABILITY_ACL <> 0) /\
    rd_network_id data = network_id d /\
    exists e, node_entry c' (rd_node_id data) = Some e /\ Registry.static_pubkey e = pk /\
      Registry.capabilities e = caps /\ Registry.routes e = rs /\
      data = mk_reg (Registry.node_id e) (Registry.network_id e) (Registry.identity_binding e) (Registry.binding_log_id e) /\
      (rd_node_id data = next_node_id c /\ Registry.binding_log_id e = iss /\
         Registry.identity_binding e = Registry.sign (Registry.binding_message (rd_node_id data) pk iss)
       \/ entry d (rd_node_id data) = Some e).
Proof.
  intros Hc Hmax. unfold register_inner.
  destruct (AuthKey.parse_auth_key k) as [[[net x] s]|e|] eqn:Ek; [|done..]. step.
  destruct (_ && _) eqn:Ex; [done|]. destruct (negb _); [done|].
  destruct (domain_by_name c net) as [d|] eqn:Ed; [|done]. step.
  destruct (_ && _) eqn:Ea in |- *; [done|].
  destruct (Registry.register _ _ _ _ _ _ _) as [[out r]|e|] eqn:Er; [|done..]. step.
  apply find_by_name in Ed as [Hd <-]. pose proof (coord_commit_ok _ _ _ _ _ _ _ _ _ Hc Hmax Hd Er) as Hcm.
  destruct (commit c (name d) out r) as [n c2]. destruct Hcm as (Hi & Hdn & e & He & Hid & Hnet & Hpk & Hcap & Hrs & Hnew).
  rewrite Hdn. step. rewrite He. step. intros [= <- <-]. split; [done|]. exists d, x, s. split_and!; [done..| | | |].
  - apply andb_false_iff in Ex as [Ex|Ex]; apply bool_decide_eq_false in Ex; lia.
  - intros Hen. rewrite Hen in Ea. by apply bool_decide_eq_false in Ea.
  - done.
  - exists e. cbn [rd_node_id]. rewrite Hid. unfold node_entry. rewrite Hdn. step. by rewrite He.
Qed.

Lemma parse_auth_key_safe k : safe (AuthKey.parse_auth_key k).
Proof.
  unfold AuthKey.parse_auth_key. destruct (AuthKey.strip_prefix _ _); [|done]. step.
  destruct (split_once _ _) as [[a b]|]; [|done]. step. destruct (split_once _ _) as [[a' b']|]; [|done]. step.
  unfold AuthKey.validate_network. destruct (_ || _); [done|]. step.
  destruct (parse_uint _ _); [|done]. step. destruct (decide _); [done|].
  destruct (AuthKey.base32_decode _); [|done]. step. by destruct (decide _).
Qed.

Lemma register_inner_safe c k pk caps rs now iss :
  inv c -> next_node_id c < 2 ^ 32 - 1 -> safe (register_inner c k pk caps rs now iss).
Proof.
  intros Hc Hmax. unfold register_inner. pose proof (parse_auth_key_safe k).
  destruct (AuthKey.parse_auth_key k) as [[[net x] s]|e|]; [|done..]. step.
  destruct (_ && _); [done|]. destruct (existsb _ _) eqn:En; [|done]. cbn [negb].
  apply existsb_elem in En as (d & Hd & Hp). apply bool_decide_eq_true in Hp as <-.
  rewrite (by_name_elem c Hc d Hd). step. destruct (_ && _) in |- *; [done|].
  pose proof (Registry.register_safe (registry d) k pk caps rs (next_node_id c) iss
                (do_registry _ _ (in_domains c Hc d Hd))) as Hs.
  destruct (Registry.register _ _ _ _ _ _ _) as [[out r]|e|] eqn:Er; [|done..]. step.
  pose proof (coord_commit_ok _ _ _ _ _ _ _ _ _ Hc Hmax Hd Er) as Hcm.
  destruct (commit c (name d) out r) as [n c2]. destruct Hcm as (_ & -> & e & He & _). step. by rewrite He.
Qed.

Lemma inv_register c k pk caps rs now iss :
  inv c -> next_node_id c < 2 ^ 32 - 1 -> inv (register c k pk caps rs now iss).2.
Proof.
  intros Hc Hmax. unfold register. destruct (register_inner _ _ _ _ _ _ _) as [[data c']|e|] eqn:E;
    [|by apply (inv_same c)|done].
  by apply register_inner_ok in E as [? _].
Qed.

Lemma inv_on_id c id f : inv c ->
  (forall d, domain_by_network_id c id = Some d -> network_id (f d) = network_id d /\
     domain_ok (next_node_id c) (f d) /\ forall i, is_Some (entry (f d) i) -> is_Some (entry d i)) ->
  inv (on_id id f c).
Proof.
  intros Hc Hf. apply inv_update_keep; [done|]. intros d Hd Hp%bool_decide_eq_true. apply Hf.
  rewrite <- Hp. by apply by_id_elem.
Qed.

Lemma inv_on_node c n f : inv c ->
  (forall d, domain_of_node c n = Some d -> network_id (f d) = network_id d /\
     domain_ok (next_node_id c) (f d) /\ forall i, is_Some (entry (f d) i) -> is_Some (entry d i)) ->
  inv (on_node n f c).
Proof.
  intros Hc Hf. unfold on_node. destruct (network_of_node c n) as [id|] eqn:E; [|done].
  apply inv_on_id; [done|]. intros d Hd. apply Hf. unfold domain_of_node. rewrite E. exact Hd.
Qed.

Lemma inv_request_paths c s d mx now : inv c -> inv (request_paths c s d mx now).2.
Proof.
  intros Hc. unfold request_paths.
  destruct (domain_of_node c s) as [sd|]; [|done]. destruct (domain_of_node c d) as [dd|]; [|done].
  destruct (decide _); [done|]. destruct (domain_by_network_id c _) as [x|] eqn:Ex; [|done].
  pose proof (find_by_id _ _ _ Ex) as [Hx _]. pose proof (in_domains c Hc x Hx) as Hok.
  pose proof (PathService.request_good (paths x) s d mx now (do_paths _ _ Hok)) as [Hp _].
  pose proof (PathService.request_relays (paths x) s d mx now) as Hr.
  destruct (PathService.request _ _ _ _ _) as [cs p]. cbn [snd] in *.
  apply inv_on_id; [done|]. rewrite Ex. intros y [= <-]. split; [done|]. split; [|done].
  apply domain_ok_paths; [done| |done]. rewrite Hr. apply Hok.
Qed.

Lemma inv_take_path_events c s : inv c -> inv (take_path_events c s).2.
Proof.
  intros Hc. unfold take_path_events. destruct (domain_of_node c s) as [x|] eqn:Ex; [|done].
  pose proof (proj1 (domain_of_node_iff c Hc _ _) Ex) as [Hx _]. pose proof (in_domains c Hc x Hx) as Hok.
  pose proof (PathService.apply_good (paths x) (PathService.TakeEvents s) (do_paths _ _ Hok)) as [Hp _].
  cbn [PathService.apply] in Hp.
  assert (Hr : PathService.relays (PathService.take_events (paths x) s).2 = roster x) by apply Hok.
  destruct (PathService.take_events _ _) as [evs p]. cbn [snd] in *.
  apply inv_on_node; [done|]. rewrite Ex. intros y [= <-]. split; [done|]. split; [|done].
  by apply domain_ok_paths.
Qed.

Lemma roster_paths p dropped now : PathService.inv p ->
  let p1 := foldl (fun p n => PathService.withdraw_relay p (walk_paths p) n) p dropped in
  let p2 := PathService.expand_relay_candidates p1 (walk_paths p1) now in
  PathService.inv p2 /\ PathService.relays p2 = PathService.relays p.
Proof.
  intros Hp p1 p2.
  assert (H1 : PathService.good p p1).
  { apply (PathService.foldl_good (fun p n => PathService.withdraw_relay p (walk_paths p) n)).
    intros q n. exact (PathService.apply_good q (PathService.WithdrawRelay _ n)). }
  destruct (H1 Hp) as [Hp1 _]. destruct (PathService.apply_good p1 (PathService.Expand (walk_paths p1) now) Hp1) as [Hp2 _].
  split; [exact Hp2|]. unfold p2. rewrite PathService.expand_relays.
  apply PathService.foldl_relays. intros q n. apply PathService.withdraw_relay_relays.
Qed.

Lemma inv_apply_relay_roster c id r now : inv c -> inv (apply_relay_roster c id r now).2.
Proof.
  intros Hc. unfold apply_relay_roster. destruct (domain_by_network_id c id) as [x|] eqn:Ex; [|done].
  pose proof (find_by_id _ _ _ Ex) as [Hx _]. pose proof (in_domains c Hc x Hx) as Hok.
  pose proof (domain_ok_roster _ _ Hok r) as Hr. destruct (apply_roster x r) as [ch y] eqn:Ey.
  assert (Hy : network_id y = network_id x /\ forall i, entry y i = entry x i)
    by (unfold apply_roster in Ey; by injection Ey as _ <-).
  cbn [snd] in Hr. set (dropped := List.filter _ _).
  pose proof (roster_paths (paths y) dropped now (do_paths _ _ Hr)) as [Hp Hrel].
  set (p := PathService.expand_relay_candidates _ _ _) in *.
  assert (Hi : inv (on_id id (fun _ => set_paths y p) c)).
  { apply inv_on_id; [done|]. rewrite Ex. intros z [= <-]. split; [by apply Hy|].
    split; [apply domain_ok_paths; [done|by rewrite Hrel; apply Hr|done]|].
    intros i. destruct Hy as [_ Hy]. change (is_Some (entry y i) -> is_Some (entry x i)). by rewrite Hy. }
  cbn [snd]. destruct ch; [by eapply inv_same; [..|exact Hi]|done].
Qed.

Lemma flush_core now d : core (flush_domain now d).2 = core d.
Proof. unfold flush_domain. by destruct (Keys.take_revoke_rotation _ _). Qed.

Lemma inv_flush c now : inv c -> inv (flush_revoke_rotations c now).2.
Proof.
  apply inv_core; [|done..]. cbn. rewrite <- !list_fmap_compose. apply list_fmap_ext.
  intros i d _. apply flush_core.
Qed.

Lemma inv_drop_routes c n : inv c -> inv (on_node n (drop_routes n) c).
Proof.
  intros Hc. apply inv_on_node; [done|]. intros d Hd. apply (domain_of_node_iff c Hc) in Hd as [Hd _].
  split; [done|]. split; [|done]. by apply domain_ok_drop_routes, in_domains.
Qed.

Lemma inv_heartbeat c n now : inv c -> inv (heartbeat c n now).2.
Proof.
  intros Hc. unfold heartbeat. apply (inv_flush c now) in Hc.
  set (c1 := (flush_revoke_rotations c now).2) in *. destruct (Liveness.sweep _ _ _) as [newly l].
  assert (Hi : inv (foldl (fun c id => on_node id (drop_routes id) c) (set_liveness c1 l) newly)).
  { assert (H0 : inv (set_liveness c1 l)) by by apply (inv_same c1). revert H0. generalize (set_liveness c1 l).
    induction newly as [|x newly IH]; intros c0 H0; [done|]. cbn. by apply IH, inv_drop_routes. }
  cbn [snd]. destruct (_ || _); [by eapply inv_same; [..|exact Hi]|done].
Qed.

Lemma inv_mark_offline c n : inv c -> inv (mark_offline c n).
Proof.
  intros Hc. unfold mark_offline. destruct (existsb _ _); [|done].
  destruct (Liveness.mark_offline _ _) as [[] l]; [|done].
  eapply (inv_same (on_node n (drop_routes n) (set_liveness c l))); [done..|].
  apply inv_drop_routes. by apply (inv_same c).
Qed.

Lemma inv_route_sync c n ann wd now : inv c -> inv (apply_route_sync c n ann wd now).2.
Proof.
  intros Hc. unfold apply_route_sync. destruct (domain_of_node c n) as [d|] eqn:Ed; [|done].
  destruct (RouteMap.apply_sync _ _ _ _ _ _ _) as [out r] eqn:Es. cbn [snd].
  apply inv_on_node; [done|]. rewrite Ed. intros x [= <-]. split; [done|]. split; [|done].
  apply (domain_of_node_iff c Hc) in Ed as [Hd _]. pose proof (in_domains c Hc d Hd) as Hok.
  apply domain_ok_route_map; [done|]. eapply RouteMap.inv_sync; [exact Es|apply Hok].
Qed.

Lemma inv_route_push c n order : inv c -> inv (take_route_map_push c n order).2.
Proof.
  intros Hc. unfold take_route_map_push. destruct (domain_of_node c n) as [d|] eqn:Ed; [|done].
  destruct (decide _); [done|]. cbn [snd]. apply inv_on_node; [done|].
  rewrite Ed. intros x [= <-]. split; [done|]. split; [|done].
  apply (domain_of_node_iff c Hc) in Ed as [Hd _]. apply (domain_ok_core _ d); [done|by apply in_domains].
Qed.

(** *** Revocation *)

Lemma revoke_in_entry n now d id :
  entry (revoke_in n now d) id = if decide (id = n) then None else entry d id.
Proof.
  assert (Hr : registry (revoke_in n now d) = Registry.revoke (registry d) n)
    by (unfold revoke_in; by destruct (bool_decide _)).
  unfold entry. rewrite Hr. unfold Registry.revoke.
  destruct (Registry.entries (registry d) !! n) as [e|] eqn:E; cbn.
  - destruct (decide (id = n)) as [->|]; [apply lookup_delete_eq|by apply lookup_delete_ne].
  - by destruct (decide (id = n)) as [->|].
Qed.

Lemma revoke_in_parts n now d :
  network_id (revoke_in n now d) = network_id d /\ name (revoke_in n now d) = name d /\
  registry (revoke_in n now d) = Registry.revoke (registry d) n /\
  PathService.map (paths (revoke_in n now d))
    = PathService.map (PathService.withdraw_node (paths d) (walk_paths (paths d)) n) /\
  (n ∉ roster (revoke_in n now d)) /\
  route_map (revoke_in n now d) = (RouteMap.withdraw_node (route_map d) n).2 /\
  is_Some (Keys.pending_revoke_rotation (keys (revoke_in n now d))).
Proof.
  assert (Hk : forall k x, is_Some (Keys.pending_revoke_rotation (Keys.arm_revoke_rotation k x))).
  { intros k x. unfold Keys.arm_revoke_rotation. destruct (Keys.pending_revoke_rotation k) eqn:E; cbn; eauto. }
  unfold revoke_in. cbn [roster set_registry set_paths set_route_map].
  destruct (bool_decide_reflect (n ∈ roster d)) as [Hr|Hr]; cbn; split_and!; try done.
  unfold Liveness.without. intros [_ H]%elem_of_bfilter. by rewrite bool_decide_true in H.
Qed.

Lemma domain_ok_revoke next n now d : domain_ok next d -> domain_ok next (revoke_in n now d).
Proof.
  intros Hd. destruct (revoke_in_parts n now d) as (Hid & Hname & Hreg & Hmap & Hros & Hrm & _).
  pose proof (PathService.apply_good (paths d) (PathService.WithdrawNode (walk_paths (paths d)) n) (do_paths _ _ Hd)) as [Hp _].
  split; rewrite ?Hid, ?Hname, ?Hreg, ?Hrm.
  - apply Hd.
  - apply Registry.revoke_preserves_wf, Hd.
  - unfold Registry.revoke. destruct (Registry.entries _ !! n); apply Hd.
  - intros id e. rewrite revoke_in_entry. destruct (decide _); [done|]. apply Hd.
  - intros k Hk. apply (do_keys _ _ Hd). unfold Registry.revoke in Hk. by destruct (Registry.entries _ !! n).
  - unfold revoke_in. destruct (bool_decide _); cbn; [done|]. rewrite PathService.withdraw_node_relays. apply Hd.
  - cbn [PathService.apply] in Hp. unfold revoke_in. destruct (bool_decide _); cbn; [|exact Hp]. by destruct Hp.
  - eapply RouteMap.inv_withdraw; [done| |apply Hd]. intros n' Hn'. unfold coverage_of.
    by rewrite revoke_in_entry, decide_False.
Qed.

Lemma holds_true n d : holds n d = true <-> is_Some (entry d n).
Proof. apply bool_decide_eq_true. Qed.

Lemma inv_set_revoked c n log : inv c -> 1 <= n < next_node_id c ->
  (forall d, d ∈ domains c -> entry d n = None) -> inv (set_revoked c (<[n := log]> (revoked c))).
Proof.
  intros [] Hn Hd. split; try done. cbn. intros id [x Hx]. destruct (decide (id = n)) as [->|Hne]; [done|].
  rewrite lookup_insert_ne in Hx by done. eauto.
Qed.

(** Revoking a registered node: its domain is replaced by [revoke_in], the others
    do not know it. *)
Lemma revoke_domains c n now d : inv c -> d ∈ domains c -> is_Some (entry d n) ->
  exists l1 l2, domains c = l1 ++ d :: l2 /\
    update_first (holds n) (revoke_in n now) (domains c) = l1 ++ revoke_in n now d :: l2 /\
    forall x, x ∈ l1 ++ l2 -> entry x n = None /\ network_id x <> network_id d.
Proof.
  intros Hc Hd He. pose proof (update_first_spec (holds n) (revoke_in n now) (domains c)) as Hs.
  destruct (List.find (holds n) (domains c)) as [d'|] eqn:Ef.
  2: { rewrite find_None in Ef. specialize (Ef d Hd). apply holds_true in He. congruence. }
  apply find_Some_elem in Ef as [Hd' He'%holds_true].
  assert (d' = d) as -> by by eapply in_unique.
  destruct Hs as (l1 & l2 & Hl & Hu & _). exists l1, l2. split; [done|]. split; [done|]. intros x Hx.
  assert (Hxc : x ∈ domains c) by (rewrite Hl; rewrite elem_of_app in *; rewrite elem_of_cons; tauto).
  assert (Hne : network_id x <> network_id d).
  { intros E. pose proof (in_ids c Hc) as Hnd. rewrite Hl, fmap_app in Hnd. cbn in Hnd.
    rewrite Permutation_app_comm in Hnd. cbn in Hnd. apply list.NoDup_cons in Hnd as [Hnd _]. apply Hnd.
    rewrite <- E, <- fmap_app. apply list_elem_of_fmap_2. rewrite elem_of_app in *. tauto. }
  split; [|done]. apply eq_None_not_Some. intros Hx'. apply Hne. f_equal. by eapply in_unique.
Qed.

Lemma inv_revoke c n now log : inv c -> inv (revoke c n now log).
Proof.
  intros Hc. unfold revoke. apply (inv_flush c now) in Hc. set (c1 := (flush_revoke_rotations c now).2) in *.
  destruct (existsb _ _) eqn:Eh; [|done]. apply existsb_elem in Eh as (d & Hd & He%holds_true).
  destruct (revoke_domains c1 n now d Hc Hd He) as (l1 & l2 & Hl & Hu & Hother).
  apply inv_set_revoked; cbn [next_node_id domains set_telemetry set_directory set_liveness set_domains].
  - apply (inv_same (set_domains c1 (update_first (holds n) (revoke_in n now) (domains c1)))); [done..|].
    apply inv_update_keep; [done|]. intros x Hx _. split; [apply revoke_in_parts|].
    split; [by apply domain_ok_revoke, in_domains|]. intros id. rewrite revoke_in_entry. destruct (decide _); [by intros []|done].
  - destruct He as [e He]. by destruct (do_entry _ _ (in_domains c1 Hc d Hd) n e He).
  - intros x. rewrite Hu, elem_of_app, elem_of_cons. intros Hx.
    destruct Hx as [Hx|[->|Hx]]; [|by rewrite revoke_in_entry, decide_True|];
      apply Hother; rewrite elem_of_app; tauto.
Qed.

(** ** Histories *)

Inductive op :=
| AddNetwork (nm : string) (master_key : list Z)
| AddKey (k : string) (spec : Registry.AuthKeySpec)
| RemoveKey (k : string)
| SetWhitelist (net : string) (w : list Prefix)
| SetAcl (net : string) (policy : Acl.AclPolicy)
| SetRelayConstraints (net : string) (cfg : RelayRosterConfig)
| SetExitAllow (net : string) (allow : list Z)
| SetProtocolVersion (n v : Z)
| SetBuildVersion (n : Z) (v : string)
| StoreTelemetry (n now : Z) (v : TelemetryView)
| Register (k : string) (pk : list Z) (caps : Z) (rs : list string) (now : Z) (iss : Z * Z)
| SetEndpoints (n : Z) (l s : list string)
| RequestPaths (s d mx now : Z)
| TakePathEvents (s : Z)
| RecordRtt (id : Z) (results : list (Z * option Z))
| ApplyRelayRoster (id : Z) (r : list Z) (now : Z)
| Heartbeat (n now : Z)
| MarkOffline (n : Z)
| ResetLiveness (now : Z)
| Revoke (n now : Z) (log : Z * Z)
| FlushRotations (now : Z)
| RotateMasterKey (net : string) (k : list Z)
| RouteSync (n : Z) (ann : list (Prefix * string)) (wd : list Prefix) (now : Z)
| TakeRoutePush (n : Z) (order : list (RouteMap.Key * string)).

Definition apply (c : Coordinator) (o : op) : Coordinator :=
  match o with
  | AddNetwork nm mk => (add_network c nm mk).2
  | AddKey k spec => (add_auth_key_spec c k spec).2
  | RemoveKey k => remove_auth_key c k
  | SetWhitelist net w => set_announce_whitelist c net w
  | SetAcl net p => set_acl_policy c net p
  | SetRelayConstraints net cfg => set_relay_constraints c net cfg
  | SetExitAllow net allow => set_exit_allow c net allow
  | SetProtocolVersion n v => set_protocol_version c n v
  | SetBuildVersion n v => set_build_version c n v
  | StoreTelemetry n now v => store_telemetry c n now v
  | Register k pk caps rs now iss => (register c k pk caps rs now iss).2
  | SetEndpoints n l s => set_endpoints c n l s
  | RequestPaths s d mx now => (request_paths c s d mx now).2
  | TakePathEvents s => (take_path_events c s).2
  | RecordRtt id results => record_relay_rtt_round c id results
  | ApplyRelayRoster id r now => (apply_relay_roster c id r now).2
  | Heartbeat n now => (heartbeat c n now).2
  | MarkOffline n => mark_offline c n
  | ResetLiveness now => reset_liveness_on_takeover c now
  | Revoke n now log => revoke c n now log
  | FlushRotations now => (flush_revoke_rotations c now).2
  | RotateMasterKey net k => rotate_master_key c net k
  | RouteSync n ann wd now => (apply_route_sync c n ann wd now).2
  | TakeRoutePush n order => (take_route_map_push c n order).2
  end.

(** What the callers guarantee: networks with different ids (the configuration is
    refused otherwise), whitelists of parsed prefixes, node ids to spare. *)
Definition op_ok (c : Coordinator) (o : op) : Prop :=
  match o with
  | AddNetwork nm _ => network_id_for nm ∉ network_id <$> domains c
  | SetWhitelist _ w => Forall prefix_ok w
  | Register _ _ _ _ _ _ => next_node_id c < 2 ^ 32 - 1
  | _ => True
  end.

Inductive step : Coordinator -> Coordinator -> Prop :=
| step_op c o : op_ok c o -> step c (apply c o).

Lemma record_rtt_core rs : forall d, core (foldl record_rtt d rs) = core d.
Proof. induction rs as [|[n [r|]] rs IH]; intros d; cbn; [done|by rewrite IH..]. Qed.

Lemma coord_apply_inv c o : op_ok c o -> inv c -> inv (apply c o).
Proof.
  destruct o; cbn [apply op_ok]; intros Hok Hc.
  - by apply inv_add_network.
  - by apply inv_add_auth_key.
  - by apply inv_remove_auth_key.
  - by apply inv_whitelist.
  - unfold set_acl_policy. destruct (domain_by_name c net); [|done].
    eapply (inv_same (on_name net (fun d => set_acl d policy) c)); [done..|]. by apply inv_cosmetic.
  - by apply inv_cosmetic.
  - unfold set_exit_allow. destruct (domain_by_name c net); [|done].
    assert (Hi : inv (on_name net (fun d => set_exits d (list_to_set allow)) c)) by by apply inv_cosmetic.
    destruct (negb _); [by eapply inv_same; [..|exact Hi]|done].
  - by apply (inv_same c).
  - by apply (inv_same c).
  - by apply (inv_same c).
  - by apply inv_register.
  - by apply (inv_same c).
  - by apply inv_request_paths.
  - by apply inv_take_path_events.
  - apply inv_cosmetic; [|done]. intros d. apply record_rtt_core.
  - by apply inv_apply_relay_roster.
  - by apply inv_heartbeat.
  - by apply inv_mark_offline.
  - by apply (inv_same c).
  - by apply inv_revoke.
  - by apply inv_flush.
  - by apply inv_cosmetic.
  - by apply inv_route_sync.
  - by apply inv_route_push.
Qed.

Lemma steps_inv c c' : rtc step c c' -> inv c -> inv c'.
Proof. induction 1 as [|c1 c2 c3 [c0 o Ho] _ IH]; [done|]. intros Hc. by apply IH, coord_apply_inv. Qed.

Lemma coord_reachable_inv c : rtc step new c -> inv c.
Proof. intros H. by eapply steps_inv, inv_new. Qed.

(** ** Properties *)

(** C4: whatever calls a coordinator has served, its networks stay consistent and
    apart: node ids are globally unique and never reissued, every registry is
    well-formed and holds entries and keys of its own network only, the path
    service relays through exactly the nodes of the roster, dynamic routes belong to registered nodes
    and lie within their announcements; and registering does not panic.  The calls are
    those of [op], with what their callers see to ([op_ok]): a network is added under
    a name whose id no other network has, whitelists hold canonical prefixes, and a
    registration finds a node id left below 2^32 - 1.  The nodes of a roster are whatever
    list was applied. *)
Theorem coordinator_invariant (c : Coordinator) (Hr : rtc step new c) :
  inv c /\ forall k pk caps rs now iss, next_node_id c < 2 ^ 32 - 1 ->
    safe (register c k pk caps rs now iss).1.
Proof.
  pose proof (coord_reachable_inv c Hr) as Hc. split; [done|]. intros * Hn. unfold register.
  pose proof (register_inner_safe c k pk caps rs now iss Hc Hn) as Hs.
  destruct (register_inner _ _ _ _ _ _ _) as [[data c']|e|]; [done..|]. by destruct Hs.
Qed.

Lemma elem_of_walk m e : e ∈ walk_nodes m <-> exists id, m !! id = Some e.
Proof.
  rewrite walk_nodes_perm, list_elem_of_fmap. split.
  - intros ([id x] & -> & Hx%elem_of_map_to_list). eauto.
  - intros [id Hid]. exists (id, e). split; [done|]. by apply elem_of_map_to_list.
Qed.

Lemma elem_of_netmap c net info : inv c -> info ∈ netmap_snapshot c net <->
  exists d e, d ∈ domains c /\ network_id d = net /\ entry d (Registry.node_id e) = Some e /\ info = node_info c d e.
Proof.
  intros Hc. unfold netmap_snapshot. rewrite list_elem_of_In, in_concat. split.
  - intros (l & Hl & Hi). apply list_elem_of_In in Hl, Hi. apply list_elem_of_fmap in Hl as (d & -> & Hd).
    apply elem_of_bfilter in Hd as [Hd Hp%bool_decide_eq_true]. apply list_elem_of_fmap in Hi as (e & -> & He).
    apply elem_of_walk in He as [id He]. exists d, e. split_and!; try done. unfold entry.
    destruct (Registry.wf_entry _ (do_registry _ _ (in_domains c Hc d Hd)) id e He) as [-> _]. done.
  - intros (d & e & Hd & Hn & He & ->). eexists. rewrite <- !list_elem_of_In. split.
    + apply list_elem_of_fmap_2, elem_of_bfilter. split; [exact Hd|]. by apply bool_decide_eq_true.
    + apply list_elem_of_fmap_2, elem_of_walk. eauto.
Qed.

(** The entry of a node, wherever it is registered. *)
Lemma node_entry_iff c n e : inv c ->
  node_entry c n = Some e <-> exists d, d ∈ domains c /\ entry d n = Some e.
Proof.
  intros Hc. unfold node_entry. split.
  - destruct (domain_of_node c n) as [d|] eqn:E; [|done]. cbn. apply (domain_of_node_iff c Hc) in E as [? _]. eauto.
  - intros (d & Hd & He). rewrite (proj2 (domain_of_node_iff c Hc n d)) by eauto. done.
Qed.

Lemma node_entry_None c n : inv c -> node_entry c n = None <-> forall d, d ∈ domains c -> entry d n = None.
Proof.
  intros Hc. unfold node_entry. destruct (domain_of_node c n) as [d|] eqn:E; cbn.
  - apply (domain_of_node_iff c Hc) in E as [Hd He]. split; [|auto]. intros H. rewrite H in He. by destruct He.
  - split; [|done]. intros _. by apply (domain_of_node_None c Hc).
Qed.

Lemma filter_by_id c net d : inv c -> d ∈ domains c -> network_id d = net ->
  List.filter (by_id net) (domains c) = [d].
Proof.
  intros Hc Hd <-. apply list_elem_of_split in Hd as (l1 & l2 & Hl).
  pose proof (in_ids c Hc) as Hnd. rewrite Hl in *. rewrite List.filter_app. cbn [List.filter].
  unfold by_id at 2. rewrite bool_decide_true by done.
  rewrite fmap_app in Hnd. cbn in Hnd. apply list.NoDup_app in Hnd as (_ & H1 & H2).
  apply list.NoDup_cons in H2 as [H2 _].
  rewrite !(proj2 (bfilter_nil _ _)); [done| |]; apply not_true_iff_false; rewrite existsb_elem;
    intros (x & Hx & E%bool_decide_eq_true).
  - apply H2. rewrite <- E. by apply list_elem_of_fmap_2.
  - apply (H1 (network_id x)); [by apply list_elem_of_fmap_2|]. rewrite E. left.
Qed.

Lemma netmap_nodup c net : inv c -> NoDup (ni_node_id <$> netmap_snapshot c net).
Proof.
  intros Hc. unfold netmap_snapshot.
  destruct (List.filter (by_id net) (domains c)) as [|d l] eqn:E; [constructor|].
  assert (Hd : d ∈ List.filter (by_id net) (domains c)) by (rewrite E; left).
  apply elem_of_bfilter in Hd as [Hd Hp%bool_decide_eq_true].
  rewrite (filter_by_id c net d Hc Hd Hp) in E. injection E as <-. cbn.
  rewrite app_nil_r, <- list_fmap_compose. change (ni_node_id ∘ node_info c d) with Registry.node_id.
  rewrite walk_nodes_perm, <- list_fmap_compose.
  rewrite (list_fmap_ext _ fst); [apply NoDup_fst_map_to_list|].
  intros i [id e] He. apply list_elem_of_lookup_2, elem_of_map_to_list in He. cbn.
  by apply (Registry.wf_entry _ (do_registry _ _ (in_domains c Hc d Hd))) in He as [? _].
Qed.

(** C16: isolation.  The map of a network lists exactly the nodes registered in it,
    each once, and a path request between nodes that are not in one network
    yields nothing and changes nothing. *)
Theorem network_isolation (c : Coordinator) (net : Z) (Hr : rtc step new c) :
  NoDup (ni_node_id <$> netmap_snapshot c net) /\
  (forall n, n ∈ ni_node_id <$> netmap_snapshot c net <-> network_id_of c n = Some net) /\
  (forall info, info ∈ netmap_snapshot c net -> ni_network_id info = net) /\
  (forall s d mx now, network_id_of c s <> network_id_of c d \/ network_id_of c s = None ->
     request_paths c s d mx now = ([], c)).
Proof.
  pose proof (coord_reachable_inv c Hr) as Hc. split_and!.
  - by apply netmap_nodup.
  - intros n. rewrite list_elem_of_fmap. unfold network_id_of. split.
    + intros (info & -> & Hi). apply (elem_of_netmap c net info Hc) in Hi as (d & e & Hd & <- & He & ->).
      cbn. rewrite (proj2 (domain_of_node_iff c Hc _ d)); eauto.
    + destruct (domain_of_node c n) as [d|] eqn:E; [|done]. cbn. intros [= <-].
      apply (domain_of_node_iff c Hc) in E as [Hd [e He]].
      destruct (Registry.wf_entry _ (do_registry _ _ (in_domains c Hc d Hd)) n e He) as [<- _].
      exists (node_info c d e). split; [done|]. apply elem_of_netmap; eauto 10.
  - intros info (d & e & Hd & <- & He & ->)%(elem_of_netmap c net info Hc). cbn.
    by apply (do_entry _ _ (in_domains c Hc d Hd)) in He as [? _].
  - intros s d mx now. unfold network_id_of, request_paths.
    destruct (domain_of_node c s) as [sd|]; [|done]. destruct (domain_of_node c d) as [dd|]; [|done]. cbn.
    intros [H|H]; [|done]. by rewrite decide_True by congruence.
Qed.

(** Registration.  A call that fails changes nothing but the count of rejects;
    one that succeeds was made with a key that names the network, is not expired
    and carries the capability its access policy asks for, and leaves the node
    registered there under the given key, capabilities and routes: as a new node
    under the next id, or as the one that was there. *)
Theorem register_confined (c : Coordinator) (k : string) (pk : list Z) (caps : Z) (rs : list string) (now : Z) (iss : Z * Z)
  (Hr : rtc step new c) (Hn : next_node_id c < 2 ^ 32 - 1) :
  let '(res, c') := register c k pk caps rs now iss in
  match res with
  | Ok data => exists d x s e,
      AuthKey.parse_auth_key k = Ok (name d, x, s) /\ d ∈ domains c /\ (x = 0 \/ now <= x) /\
      (Acl.enabled (acl d) = true -> Z.land caps CAPABILITY_ACL <> 0) /\
      network_id_of c' (rd_node_id data) = Some (network_id d) /\
      node_entry c' (rd_node_id data) = Some e /\ Registry.static_pubkey e = pk /\
      Registry.capabilities e = caps /\ Registry.routes e = rs /\
      (rd_node_id data = next_node_id c \/ entry d (rd_node_id data) = Some e)
  | _ => c' = set_rejects c (sat_add 64 (register_rejects c) 1)
  end.
Proof.
  pose proof (coord_reachable_inv c Hr) as Hc. unfold register.
  pose proof (register_inner_safe c k pk caps rs now iss Hc Hn) as Hs.
  destruct (register_inner _ _ _ _ _ _ _) as [[data c']|e|] eqn:E; [|done|by destruct Hs].
  apply register_inner_ok in E as (Hc' & d & x & s & Hk & Hd & Hx & Ha & Hnet & e & He & Hpk & Hcap & Hrs & Hdata & Hnew); [|done..].
  exists d, x, s, e. split_and!; try done; [|naive_solver]. unfold network_id_of. apply (node_entry_iff _ _ _ Hc') in He as (d' & Hd' & He).
  rewrite (proj2 (domain_of_node_iff c' Hc' _ d')) by eauto. cbn. f_equal. rewrite <- Hnet, Hdata. cbn.
  by apply (do_entry _ _ (in_domains c' Hc' d' Hd')) in He as [? _].
Qed.

Lemma flush_entry c now n e : inv c -> node_entry c n = Some e ->
  exists d, d ∈ domains (flush_revoke_rotations c now).2 /\ entry d n = Some e.
Proof.
  intros Hc (d & Hd & He)%(node_entry_iff c n e Hc). exists (flush_domain now d).2. cbn. split.
  - rewrite <- list_fmap_compose. by apply (list_elem_of_fmap_2 (snd ∘ flush_domain now)).
  - by rewrite (core_entry _ _ _ (flush_core now d)).
Qed.

(** Only revocation writes a tombstone, and none is ever removed. *)
Lemma on_node_revoked c n f : revoked (on_node n f c) = revoked c.
Proof. unfold on_node. by destruct (network_of_node c n). Qed.

Lemma foldl_drop_revoked l : forall c, revoked (foldl (fun c id => on_node id (drop_routes id) c) c l) = revoked c.
Proof. induction l as [|x l IH]; intros c; cbn; [done|]. by rewrite IH, on_node_revoked. Qed.

Lemma register_revoked c k pk caps rs now iss : revoked (register c k pk caps rs now iss).2 = revoked c.
Proof.
  unfold register, register_inner. destruct (AuthKey.parse_auth_key k) as [[[net x] s]|e|]; [|done..]. step.
  destruct (_ && _); [done|]. destruct (negb _); [done|]. destruct (domain_by_name c net) as [d|]; [|done]. step.
  destruct (_ && _); [done|]. destruct (Registry.register _ _ _ _ _ _ _) as [[out r]|e|]; [|done..]. step.
  destruct (commit c net out r) as [n c2] eqn:Ec. assert (revoked c2 = revoked c) as Hc2
    by (unfold commit in Ec; destruct out; by injection Ec as _ <-).
  destruct (domain_of_node c2 n) as [d'|]; [|done]. step. by destruct (entry d' n).
Qed.

Lemma apply_revoked c o id : is_Some (revoked c !! id) -> is_Some (revoked (apply c o) !! id).
Proof.
  intros Hi. destruct o; cbn [apply]; try exact Hi.
  - unfold add_auth_key_spec. destruct (AuthKey.parse_auth_key k) as [[[net x] s]|e|]; [|exact Hi..].
    by destruct (domain_by_name c net).
  - unfold remove_auth_key. by destruct (AuthKey.parse_auth_key k) as [[[net x] s]|e|].
  - unfold set_acl_policy. by destruct (domain_by_name c net).
  - unfold set_exit_allow. destruct (domain_by_name c net); [|done]. by destruct (negb _).
  - by rewrite register_revoked.
  - unfold request_paths. destruct (domain_of_node c s); [|done]. destruct (domain_of_node c d); [|done].
    destruct (decide _); [done|]. destruct (domain_by_network_id c _); [|done]. by destruct (PathService.request _ _ _ _ _).
  - unfold take_path_events. destruct (domain_of_node c s); [|done]. destruct (PathService.take_events _ _).
    cbn. by rewrite on_node_revoked.
  - unfold apply_relay_roster. destruct (domain_by_network_id c id0); [|done]. cbn. by destruct (negb _).
  - unfold heartbeat. destruct (Liveness.sweep _ _ _) as [newly l]. cbn. destruct (_ || _); cbn; by rewrite foldl_drop_revoked.
  - unfold mark_offline. destruct (existsb _ _); [|done]. destruct (Liveness.mark_offline _ _) as [[] l]; [|done].
    cbn. by rewrite on_node_revoked.
  - unfold revoke. destruct (existsb _ _); [|done]. cbn. destruct (decide (n = id)) as [->|]; [rewrite lookup_insert_eq; eauto|].
    by rewrite lookup_insert_ne.
  - unfold apply_route_sync. destruct (domain_of_node c n); [|done]. destruct (RouteMap.apply_sync _ _ _ _ _ _ _).
    cbn. by rewrite on_node_revoked.
  - unfold take_route_map_push. destruct (domain_of_node c n); [|done]. destruct (decide _); [done|].
    cbn. by rewrite on_node_revoked.
Qed.

Lemma steps_revoked c c' id : rtc step c c' -> is_Some (revoked c !! id) -> is_Some (revoked c' !! id).
Proof. induction 1 as [|c1 c2 c3 [c0 o _] _ IH]; [done|]. intros Hi. by apply IH, apply_revoked. Qed.

(** C8: revocation reaches every component: the node leaves the registry and the
    network map and gets no keys, its endpoints, telemetry, roster place and
    dynamic routes are gone, no candidate path names it, a key rotation is due;
    and whatever is done later, its id is never registered again. *)
Theorem revoke_complete (c c2 : Coordinator) (n now : Z) (log : Z * Z) (e : Registry.NodeEntry)
  (Hr : rtc step new c) (He : node_entry c n = Some e) (Hs : rtc step (revoke c n now log) c2) :
  let c1 := revoke c n now log in
  revocation_of c1 n = Some log /\ node_entry c2 n = None /\ key_dist c1 n = None /\
  (forall net info, info ∈ netmap_snapshot c1 net -> ni_node_id info <> n) /\
  Directory.merged_endpoints_of (directory c1) n = [] /\ telemetry c1 !! n = None /\
  (forall d p, d ∈ domains c1 -> RouteMap.has (route_map d) p n = false) /\
  exists d, d ∈ domains c1 /\ network_id d = Registry.network_id e /\ (n ∉ roster d) /\
    is_Some (Keys.pending_revoke_rotation (keys d)) /\
    forall k st, PathService.map (paths d) !! k = Some st ->
      k.1 <> n /\ k.2 <> n /\ forall x, x ∈ PathService.candidates st -> n ∉ PathService.hops x.
Proof.
  intros c1. pose proof (coord_reachable_inv c Hr) as Hc. pose proof (inv_revoke c n now log Hc) as Hc1. fold c1 in Hc1.
  pose proof (steps_inv _ _ Hs Hc1) as Hc2. pose proof (inv_flush c now Hc) as Hf.
  destruct (flush_entry c now n e Hc He) as (d & Hd & Hde).
  assert (Hh : existsb (holds n) (domains (flush_revoke_rotations c now).2) = true)
    by (apply existsb_elem; exists d; split; [done|]; apply holds_true; eauto).
  assert (Hrev : revocation_of c1 n = Some log).
  { unfold revocation_of, c1, revoke. rewrite Hh. cbn. apply lookup_insert_eq. }
  assert (Hgone : forall c', inv c' -> is_Some (revoked c' !! n) -> node_entry c' n = None).
  { intros c' H1 H2. apply (node_entry_None c' n H1). by apply (in_revoked c' H1). }
  assert (Hn1 : node_entry c1 n = None) by (apply Hgone; [done|]; unfold revocation_of in Hrev; eauto).
  pose proof (proj1 (node_entry_None c1 n Hc1) Hn1) as Hno.
  split_and!.
  - done.
  - apply Hgone; [done|]. apply (steps_revoked _ _ _ Hs). unfold revocation_of in Hrev. eauto.
  - unfold key_dist. by rewrite (proj2 (domain_of_node_None c1 Hc1 n) Hno).
  - intros net info (d' & e' & Hd' & _ & He' & ->)%(elem_of_netmap c1 net info Hc1). cbn. intros E.
    rewrite E in He'. by rewrite Hno in He'.
  - unfold c1, revoke. rewrite Hh. unfold Directory.merged_endpoints_of. cbn. by rewrite lookup_delete_eq.
  - unfold c1, revoke. rewrite Hh. cbn. apply lookup_delete_eq.
  - intros d' p Hd'. apply RouteMap.present_false, eq_None_not_Some. intros Hp.
    apply (RouteMap.iv_cover _ _ _ (do_routes _ _ (in_domains c1 Hc1 d' Hd'))) in Hp.
    unfold coverage_of in Hp. by rewrite (Hno d' Hd') in Hp.
  - exists (revoke_in n now d). destruct (revoke_in_parts n now d) as (Hid & _ & _ & Hmap & Hros & _ & Hk).
    destruct (revoke_domains _ n now d Hf Hd ltac:(eauto)) as (l1 & l2 & _ & Hu & _).
    split_and!; [| |done|done|].
    + unfold c1, revoke. rewrite Hh. cbn [domains set_revoked set_telemetry set_directory set_liveness set_domains].
      rewrite Hu. apply elem_of_app. right. left.
    + rewrite Hid. by apply (do_entry _ _ (in_domains _ Hf d Hd)) in Hde as [-> _].
    + intros k st. rewrite Hmap. apply PathService.withdraw_node_clean, walk_paths_visits.
Qed.

(** ** Registrations last until they are revoked *)

(** The registered nodes, network by network. *)
Definition ents (c : Coordinator) : list (Z * gmap Z Registry.NodeEntry) :=
  (fun d => (network_id d, Registry.entries (registry d))) <$> domains c.

Lemma ents_entry c c' n e : inv c -> inv c' -> ents c `prefix_of` ents c' ->
  node_entry c n = Some e -> node_entry c' n = Some e.
Proof.
  intros Hc Hc' [k Hp] (d & Hd & He)%(node_entry_iff c n e Hc). apply (node_entry_iff c' n e Hc').
  assert (Hin : (network_id d, Registry.entries (registry d)) ∈ ents c').
  { rewrite Hp. apply elem_of_app. left. by apply (list_elem_of_fmap_2 (fun d => (network_id d, Registry.entries (registry d)))). }
  apply list_elem_of_fmap in Hin as (d' & E & Hd'). exists d'. split; [done|]. unfold entry in *. congruence.
Qed.

Lemma ents_update c Q f : (forall d, network_id (f d) = network_id d /\ Registry.entries (registry (f d)) = Registry.entries (registry d)) ->
  ents (set_domains c (update_first Q f (domains c))) = ents c.
Proof. intros Hf. apply update_first_map. intros d _ _. destruct (Hf d) as [-> ->]. done. Qed.

Lemma ents_on_node c n f : (forall d, network_id (f d) = network_id d /\ Registry.entries (registry (f d)) = Registry.entries (registry d)) ->
  ents (on_node n f c) = ents c.
Proof. intros Hf. unfold on_node. destruct (network_of_node c n); [by apply ents_update|done]. Qed.

Lemma ents_drop l : forall c, ents (foldl (fun c id => on_node id (drop_routes id) c) c l) = ents c.
Proof. induction l as [|x l IH]; intros c; cbn; [done|]. rewrite IH. by apply ents_on_node. Qed.

Lemma ents_flush c now : ents (flush_revoke_rotations c now).2 = ents c.
Proof.
  unfold ents. cbn. rewrite <- !list_fmap_compose. apply list_fmap_ext. intros i d _. cbn.
  unfold flush_domain. by destruct (Keys.take_revoke_rotation _ _).
Qed.

Lemma ents_mark c n : ents (mark_offline c n) = ents c.
Proof.
  unfold mark_offline. destruct (existsb _ _); [|done]. destruct (Liveness.mark_offline _ _) as [[] l]; [|done].
  change (ents (on_node n (drop_routes n) (set_liveness c l)) = ents c). by rewrite ents_on_node.
Qed.

(** The calls other than registering and revoking leave the registrations alone. *)
Lemma apply_ents c o : match o with Register _ _ _ _ _ _ | Revoke _ _ _ => True | _ => ents c `prefix_of` ents (apply c o) end.
Proof.
  assert (Heq : forall c', ents c' = ents c -> ents c `prefix_of` ents c') by by intros c' ->.
  destruct o; cbn [apply]; try exact I.
  - exists [(network_id_for nm, ∅)]. unfold ents. cbn. by rewrite fmap_app.
  - apply Heq. unfold add_auth_key_spec. destruct (AuthKey.parse_auth_key k) as [[[net x] s]|e|]; [|done..].
    destruct (domain_by_name c net); [|done]. apply ents_update. intros d. split; [done|]. cbn.
    unfold Registry.add_auth_key_spec. by case_decide.
  - apply Heq. unfold remove_auth_key. destruct (AuthKey.parse_auth_key k) as [[[net x] s]|e|]; [|done..]. by apply ents_update.
  - by apply Heq, ents_update.
  - apply Heq. unfold set_acl_policy. destruct (domain_by_name c net); [|done].
    change (ents (on_name net (fun d => set_acl d policy) c) = ents c). by apply ents_update.
  - by apply Heq, ents_update.
  - apply Heq. unfold set_exit_allow. destruct (domain_by_name c net); [|done].
    transitivity (ents (on_name net (fun d => set_exits d (list_to_set allow)) c)); [by destruct (negb _)|by apply ents_update].
  - by apply Heq.
  - by apply Heq.
  - by apply Heq.
  - by apply Heq.
  - apply Heq. unfold request_paths. destruct (domain_of_node c s); [|done]. destruct (domain_of_node c d); [|done].
    destruct (decide _); [done|]. destruct (domain_by_network_id c _); [|done].
    destruct (PathService.request _ _ _ _ _). by apply ents_update.
  - apply Heq. unfold take_path_events. destruct (domain_of_node c s); [|done]. destruct (PathService.take_events _ _).
    by apply ents_on_node.
  - apply Heq, ents_update. intros d. pose proof (record_rtt_core results d) as E. unfold core in E. split; congruence.
  - apply Heq. unfold apply_relay_roster. destruct (domain_by_network_id c id) as [d|] eqn:Ed; [|done]. cbn.
    set (p := PathService.expand_relay_candidates _ _ _).
    transitivity (ents (on_id id (fun _ => set_paths (set_paths (set_roster d r) (PathService.set_relays (paths d) r)) p) c));
      [by destruct (negb _)|].
    unfold ents. cbn. pose proof (update_first_spec (by_id id) (fun _ => set_paths (set_paths (set_roster d r) (PathService.set_relays (paths d) r)) p) (domains c)) as Hs.
    unfold domain_by_network_id in Ed. rewrite Ed in Hs. destruct Hs as (l1 & l2 & -> & -> & _). by rewrite !fmap_app.
  - apply Heq. unfold heartbeat. destruct (Liveness.sweep _ _ _) as [newly l]. cbn [snd].
    set (c0 := set_liveness _ l).
    transitivity (ents (foldl (fun c id => on_node id (drop_routes id) c) c0 newly)); [by destruct (_ || _)|].
    rewrite ents_drop. apply ents_flush.
  - apply Heq, ents_mark.
  - by apply Heq.
  - apply Heq, ents_flush.
  - by apply Heq, ents_update.
  - apply Heq. unfold apply_route_sync. destruct (domain_of_node c n); [|done]. destruct (RouteMap.apply_sync _ _ _ _ _ _ _).
    by apply ents_on_node.
  - apply Heq. unfold take_route_map_push. destruct (domain_of_node c n); [|done]. destruct (decide _); [done|]. by apply ents_on_node.
Qed.

Lemma update_first_other Q f l x d : List.find Q l = Some d -> x ∈ l -> x = d \/ x ∈ update_first Q f l.
Proof.
  intros H Hx. pose proof (update_first_spec Q f l) as Hs. rewrite H in Hs.
  destruct Hs as (l1 & l2 & -> & -> & _). rewrite elem_of_app, elem_of_cons in *. tauto.
Qed.

Lemma register_keeps c k pk caps rs now iss n e : inv c -> next_node_id c < 2 ^ 32 - 1 ->
  node_entry c n = Some e -> node_entry (register c k pk caps rs now iss).2 n = Some e.
Proof.
  intros Hc Hmax He. pose proof (inv_register c k pk caps rs now iss Hc Hmax) as Hc'.
  apply (node_entry_iff c n e Hc) in He as (d0 & Hd0 & He). revert Hc'.
  unfold register, register_inner. destruct (AuthKey.parse_auth_key k) as [[[net x] s]|er|];
    [step|intros Hc'; apply (node_entry_iff _ n e Hc'); by exists d0..].
  assert (Hsame : forall z, inv (set_rejects c z) -> node_entry (set_rejects c z) n = Some e)
    by (intros z Hz; apply (node_entry_iff _ n e Hz); by exists d0).
  destruct (_ && _); [apply Hsame|]. destruct (negb _); [apply Hsame|].
  destruct (domain_by_name c net) as [d|] eqn:Ed; [step|intros H; by apply (node_entry_iff _ n e H); exists d0].
  destruct (_ && _); [apply Hsame|].
  destruct (Registry.register _ _ _ _ _ _ _) as [[out r]|er|] eqn:Er;
    [step|apply Hsame|intros H; by apply (node_entry_iff _ n e H); exists d0].
  pose proof (find_by_name _ _ _ Ed) as [Hd <-]. pose proof (coord_commit_ok _ _ _ _ _ _ _ _ _ Hc Hmax Hd Er) as Hcm.
  destruct (commit c (name d) out r) as [m c2] eqn:Ec. destruct Hcm as (_ & -> & e2 & He2 & _). step. rewrite He2. step.
  intros Hc'. apply (node_entry_iff _ n e Hc'). cbn [snd].
  assert (Hdom : domains c2 = update_first (by_name (name d)) (fun d => set_registry d r) (domains c))
    by (unfold commit in Ec; destruct out; by injection Ec as _ <-).
  rewrite Hdom. destruct (update_first_other _ (fun d => set_registry d r) _ d0 d Ed Hd0) as [-> | Hin]; [|by exists d0].
  exists (set_registry d r). split; [exact (update_first_elem _ (fun d => set_registry d r) _ d Ed)|]. unfold entry. cbn.
  apply Registry.register_Ok in Er as [(_ & _ & -> & _)|(_ & _ & _ & spec & _ & ->)]; [done|]. cbn.
  rewrite lookup_insert_ne; [done|]. destruct (do_entry _ _ (in_domains c Hc d Hd) n e He). lia.
Qed.

Lemma revoke_keeps c n' now log n e : inv c -> n <> n' ->
  node_entry c n = Some e -> node_entry (revoke c n' now log) n = Some e.
Proof.
  intros Hc Hne He. pose proof (inv_revoke c n' now log Hc) as Hc'. pose proof (inv_flush c now Hc) as Hf.
  destruct (flush_entry c now n e Hc He) as (d & Hd & Hde). apply (node_entry_iff _ n e Hc'). unfold revoke.
  destruct (existsb _ _) eqn:Eh; [|by exists d]. cbn [domains set_revoked set_telemetry set_directory set_liveness set_domains].
  apply existsb_elem in Eh as (d1 & Hd1 & Hh%holds_true).
  destruct (revoke_domains _ n' now d1 Hf Hd1 Hh) as (l1 & l2 & Hl & -> & _). rewrite Hl in Hd.
  apply elem_of_app in Hd as [Hd|[->|Hd]%elem_of_cons].
  - exists d. split; [apply elem_of_app; by left|done].
  - exists (revoke_in n' now d1). split; [apply elem_of_app; right; left|]. by rewrite revoke_in_entry, decide_False.
  - exists d. split; [apply elem_of_app; right; by right|done].
Qed.

Lemma entry_stable c o n e : inv c -> op_ok c o -> node_entry c n = Some e ->
  node_entry (apply c o) n = Some e \/ is_Some (revoked (apply c o) !! n).
Proof.
  intros Hc Ho He. pose proof (coord_apply_inv c o Ho Hc) as Hc'. pose proof (apply_ents c o) as Hp.
  destruct o; try (left; exact (ents_entry c _ n e Hc Hc' Hp He)).
  - left. by apply register_keeps.
  - destruct (decide (n = n0)) as [->|Hne]; [right|left; by apply revoke_keeps].
    cbn [apply]. unfold revoke. destruct (flush_entry c now n0 e Hc He) as (d & Hd & Hde).
    assert (Hh : existsb (holds n0) (domains (flush_revoke_rotations c now).2) = true)
      by (apply existsb_elem; exists d; split; [done|]; apply holds_true; eauto).
    rewrite Hh. cbn. rewrite lookup_insert_eq. eauto.
Qed.
End Calls.

(** ** Samples *)

Section Samples.
Context `{W : HashOrder} `{P : Crypto.Primitives} `{S : Registry.IdentitySigner}.

(** [op_ok] as a test (whitelists, which need canonical prefixes, apart). *)
Definition op_okb (c : Coordinator) (o : op) : bool :=
  match o with
  | AddNetwork nm _ => bool_decide (network_id_for nm ∉ network_id <$> domains c)
  | SetWhitelist _ _ => false
  | Register _ _ _ _ _ _ => bool_decide (next_node_id c < 2 ^ 32 - 1)
  | _ => true
  end.

Fixpoint ops_okb (c : Coordinator) (os : list op) : bool :=
  match os with [] => true | o :: os => op_okb c o && ops_okb (apply c o) os end.

Lemma ops_reach os : forall c, ops_okb c os = true -> rtc step c (foldl apply c os).
Proof.
  induction os as [|o os IH]; intros c; cbn; [constructor|]. intros [Ho Hos]%andb_true_iff.
  eapply rtc_l; [|by apply IH]. apply step_op.
  destruct o; cbn in *; try done; by apply bool_decide_eq_true in Ho.
Qed.
End Samples.

#[local] Existing Instance Crypto.Toy.toy.
#[local] Existing Instance Registry.toy_signer.

Definition sample_key (net : string) : string :=
  match AuthKey.generate_auth_key 1000 (replicate 32 5) net 3600 with Ok k => k | _ => EmptyString end.

Definition sample_ops : list op :=
  [ AddNetwork "lab" (replicate 32 1); AddNetwork "corp" (replicate 32 2);
    AddKey (sample_key "lab") (Registry.simple Registry.Reusable);
    AddKey (sample_key "corp") (Registry.simple Registry.Reusable);
    Register (sample_key "lab") (replicate 32 11) 1 [] 2000 (1, 1);
    Register (sample_key "lab") (replicate 32 12) 0 [] 2000 (2, 1);
    Register (sample_key "corp") (replicate 32 13) 8 [] 2000 (3, 1);
    ApplyRelayRoster (network_id_for "lab") [1] 2000;
    RequestPaths 2 1 4 2000; SetEndpoints 1 ["10.0.0.1:1"] []; Heartbeat 1 2001 ].

Definition sample : Coordinator := foldl apply new sample_ops.

Lemma coord_sample_reachable : rtc step new sample.
Proof. apply ops_reach. vm_compute. reflexivity. Qed.

Lemma coordinator_invariant_witness :
  next_node_id sample = 4 /\ inv sample /\ forall k pk caps rs now iss, next_node_id sample < 2 ^ 32 - 1 ->
    safe (register sample k pk caps rs now iss).1.
Proof. split; [vm_compute; reflexivity|]. apply (coordinator_invariant sample coord_sample_reachable). Defined.

Lemma network_isolation_witness :
  let net := network_id_for "lab" in
  (network_id_of sample 1, network_id_of sample 3) = (Some net, Some (network_id_for "corp")) /\
  1 ∈ ni_node_id <$> netmap_snapshot sample net /\ request_paths sample 1 3 4 2001 = ([], sample).
Proof.
  intros net. split; [vm_compute; reflexivity|].
  destruct (network_isolation sample net coord_sample_reachable) as (_ & H1 & _ & H2). split.
  - apply H1. vm_compute. reflexivity.
  - apply H2. left. vm_compute. discriminate.
Defined.

Lemma register_confined_witness :
  let '(res, c') := register sample (sample_key "corp") (replicate 32 14) 8 [] 2000 (4, 1) in
  match res with
  | Ok data => network_id_of c' (rd_node_id data) = Some (network_id_for "corp")
  | _ => False
  end.
Proof.
  pose proof (register_confined sample (sample_key "corp") (replicate 32 14) 8 [] 2000 (4, 1) coord_sample_reachable
                ltac:(vm_compute; reflexivity)) as H.
  assert (E : rd_node_id <$> ok (register sample (sample_key "corp") (replicate 32 14) 8 [] 2000 (4, 1)).1 = Some 4)
    by (vm_compute; reflexivity).
  assert (Ek : AuthKey.parse_auth_key (sample_key "corp") = Ok ("corp", 4600, "AUCQKBIFAUCQKBIFAUCQKBIFAUCQKBIFAUCQKBIFAUCQKBIFAUCQ"))
    by (vm_compute; reflexivity).
  destruct (register _ _ _ _ _ _ _) as [[data|e|] c']; [|discriminate E..].
  destruct H as (d & x & s & e & Hk & Hd & _ & _ & -> & _). rewrite Ek in Hk. injection Hk as Hn _ _.
  f_equal. rewrite Hn. apply (do_id _ _ (in_domains _ (coord_reachable_inv _ coord_sample_reachable) d Hd)).
Defined.

Lemma revoke_complete_witness :
  let c1 := revoke sample 1 2002 (9, 2) in
  revocation_of c1 1 = Some (9, 2) /\ node_entry c1 1 = None /\
  exists d, d ∈ domains c1 /\ 1 ∉ roster d.
Proof.
  assert (E : Registry.network_id <$> node_entry sample 1 = Some (network_id_for "lab")) by (vm_compute; reflexivity).
  destruct (node_entry sample 1) as [e|] eqn:He; [|discriminate E].
  destruct (revoke_complete sample (revoke sample 1 2002 (9, 2)) 1 2002 (9, 2) e coord_sample_reachable He (rtc_refl _ _))
    as (H1 & H2 & _ & _ & _ & _ & _ & d & Hd & _ & Hr & _). eauto.
Defined.
End CoordinatorInv.
