(* ===== verification/Roster.v ===== *)
(** * Relay rosters and exits

    Which relays [propose_relay_roster] of the coordinator selects, and when
    [set_exit_allow] announces a change. *)

From S2P Require Import Prelude Crypto Net Route Control Registry AuthKey Coord PathService RouteMap Coordinator CoordinatorInv.

Module Roster.
Import Coordinator CoordinatorInv.

Section Order.
Context (d : NetworkDomain).

Lemma rtt_le_total x y : rtt_le d x y = false -> rtt_le d y x = true.
Proof. unfold rtt_le. lia. Qed.

Lemma rtt_le_trans x y z : rtt_le d x y = true -> rtt_le d y z = true -> rtt_le d x z = true.
Proof. unfold rtt_le. lia. Qed.

Lemma rtt_le_antisym x y : rtt_le d x y = true -> rtt_le d y x = true -> x = y.
Proof. unfold rtt_le. lia. Qed.

Lemma rtt_sort_unique l l' : l ≡ₚ l' -> sort (rtt_le d) l = sort (rtt_le d) l'.
Proof. apply sort_unique; [apply rtt_le_total|apply rtt_le_trans|]. intros x y _ _. apply rtt_le_antisym. Qed.
End Order.

(** The nodes the loop over [include] adds. *)
Definition wanted (d : NetworkDomain) (e : Registry.NodeEntry) : bool :=
  bool_decide (Registry.node_id e ∈ include (relay_cfg d)) && measured_healthy d (Registry.node_id e).

Lemma add_included_spec d es : forall r, NoDup r ->
  NoDup (foldl (add_included d) r es) /\
  forall n, n ∈ foldl (add_included d) r es <-> n ∈ r \/ exists e, e ∈ es /\ wanted d e = true /\ Registry.node_id e = n.
Proof.
  induction es as [|e es IH]; intros r Hr; cbn [foldl].
  { split; [done|]. intros n. split; [by left|]. intros [?|(e & He & _)]; [done|by inversion He]. }
  assert (Hr' : NoDup (add_included d r e) /\ forall n, n ∈ add_included d r e <->
            n ∈ r \/ (wanted d e = true /\ Registry.node_id e = n)).
  { unfold add_included, wanted. destruct (bool_decide (_ ∈ include _)), (measured_healthy d _);
      rewrite ?andb_false_r, ?andb_true_r; cbn [andb]; try (split; [done|]; intros n; split; [by left|naive_solver]).
    case_bool_decide as Hin; cbn [negb].
    - split; [done|]. intros n. split; [by left|]. intros [?|[_ <-]]; done.
    - split; [|intros n; rewrite elem_of_app, list_elem_of_singleton; naive_solver].
      rewrite list.NoDup_app. split_and!; [done| |apply NoDup_singleton].
      intros x Hx Hx'. apply list_elem_of_singleton in Hx' as ->. done. }
  destruct Hr' as [Hn Hm]. destruct (IH _ Hn) as [Hn' Hm']. split; [done|]. intros n.
  rewrite Hm', Hm. setoid_rewrite elem_of_cons. naive_solver.
Qed.

Section Propose.
Context `{W : HashOrder} `{!HashOrderLaws W}.

Definition picked (c : Coordinator) (d : NetworkDomain) : list Registry.NodeEntry :=
  List.filter (fun e => Directory.public_direct (directory c) (Registry.node_id e)
                        && measured_healthy d (Registry.node_id e))
    (List.filter (eligible c d) (walk_nodes (Registry.entries (registry d)))).

Lemma walk_ids_nodup d : Registry.wf (registry d) ->
  NoDup (Registry.node_id <$> walk_nodes (Registry.entries (registry d))).
Proof.
  intros Hw. rewrite walk_nodes_perm, <- list_fmap_compose. rewrite (list_fmap_ext _ fst); [apply NoDup_fst_map_to_list|].
  intros i [id e] He. apply list_elem_of_lookup_2, elem_of_map_to_list in He. cbn.
  by apply (Registry.wf_entry _ Hw) in He as [? _].
Qed.

Lemma auto_nodup c d : Registry.wf (registry d) -> NoDup (auto_roster c d).
Proof.
  intros Hw. eapply sublist_NoDup; [|apply sublist_take]. rewrite sort_perm.
  by apply bfilter_nodup, bfilter_nodup, walk_ids_nodup.
Qed.

Lemma auto_elem c d n : n ∈ auto_roster c d -> exists e, e ∈ picked c d /\ Registry.node_id e = n.
Proof.
  intros H. assert (Hn : n ∈ sort (rtt_le d) (Registry.node_id <$> picked c d))
    by (eapply elem_of_sublist; [exact H|apply sublist_take]).
  apply elem_of_sort, list_elem_of_fmap in Hn as (e & -> & He). eauto.
Qed.

End Propose.

(** The proposal does not depend on the order in which the registry's hash map
    is walked, so any two replicas with the same state propose the same. *)
Theorem propose_order_free (W1 W2 : HashOrder) (L1 : HashOrderLaws W1) (L2 : HashOrderLaws W2)
  (c : Coordinator) (net : Z) (Hc : inv c) :
  propose_relay_roster (W := W1) c net = propose_relay_roster (W := W2) c net.
Proof.
  unfold propose_relay_roster. destruct (domain_by_network_id c net) as [d|] eqn:Ed; [|done].
  apply find_by_id in Ed as [Hd _]. pose proof (do_registry _ _ (in_domains c Hc d Hd)) as Hw.
  set (m := Registry.entries (registry d)).
  assert (Hp : walk_nodes (HashOrder := W1) m ≡ₚ walk_nodes (HashOrder := W2) m)
    by (by rewrite !walk_nodes_perm).
  assert (Ha : auto_roster (W := W1) c d = auto_roster (W := W2) c d).
  { unfold auto_roster. f_equal. apply rtt_sort_unique. by apply fmap_Permutation, bfilter_perm, bfilter_perm. }
  apply rtt_sort_unique. rewrite Ha. pose proof (auto_nodup (W := W2) c d Hw) as Hn.
  destruct (add_included_spec d (List.filter (eligible c d) (walk_nodes (HashOrder := W1) m)) _ Hn) as [N1 M1].
  destruct (add_included_spec d (List.filter (eligible c d) (walk_nodes (HashOrder := W2) m)) _ Hn) as [N2 M2].
  apply NoDup_Permutation; [done..|]. intros n. rewrite M1, M2.
  pose proof (bfilter_perm (eligible c d) _ _ Hp) as Hpe. by setoid_rewrite Hpe.
Qed.

(** A proposed roster lists, by increasing round-trip time, registered relays
    of the network that are not excluded, are online, were measured and did not
    miss three rounds, and are either public or named by [include]; at most
    [max_size] of them without being named; and no named node that qualifies is
    left out. *)
Theorem propose_sound (c : Coordinator) (d : NetworkDomain) (net : Z) `{W : HashOrder} `{!HashOrderLaws W}
  (Hc : inv c) (Hd : domain_by_network_id c net = Some d) :
  let r := propose_relay_roster c net in
  NoDup r /\ Sorted.Sorted (le_rel (rtt_le d)) r /\
  (forall n, n ∈ r -> exists e, entry d n = Some e /\ has_cap CAPABILITY_RELAY e = true /\
     (n ∉ exclude (relay_cfg d)) /\ Liveness.is_offline (liveness c) n = false /\ measured_healthy d n = true /\
     (Directory.public_direct (directory c) n = true \/ n ∈ include (relay_cfg d))) /\
  (exists l, (length l <= max_size (relay_cfg d))%nat /\ forall n, n ∈ r -> n ∈ l \/ n ∈ include (relay_cfg d)) /\
  (forall n e, entry d n = Some e -> has_cap CAPABILITY_RELAY e = true -> n ∉ exclude (relay_cfg d) ->
     Liveness.is_offline (liveness c) n = false -> measured_healthy d n = true ->
     n ∈ include (relay_cfg d) -> n ∈ r).
Proof.
  intros r. pose proof (find_by_id _ _ _ Hd) as [Hin _]. pose proof (do_registry _ _ (in_domains c Hc d Hin)) as Hw.
  assert (Hr : r = sort (rtt_le d) (foldl (add_included d) (auto_roster c d)
            (List.filter (eligible c d) (walk_nodes (Registry.entries (registry d)))))).
  { unfold r, propose_relay_roster. by rewrite Hd. }
  destruct (add_included_spec d (List.filter (eligible c d) (walk_nodes (Registry.entries (registry d))))
              _ (auto_nodup c d Hw)) as [Hn Hm]. rewrite Hr.
  assert (He : forall e, e ∈ List.filter (eligible c d) (walk_nodes (Registry.entries (registry d))) ->
            entry d (Registry.node_id e) = Some e /\ has_cap CAPABILITY_RELAY e = true /\
            (Registry.node_id e ∉ exclude (relay_cfg d)) /\ Liveness.is_offline (liveness c) (Registry.node_id e) = false).
  { intros e [[id He]%elem_of_walk Hel]%elem_of_bfilter. unfold eligible in Hel.
    apply andb_true_iff in Hel as [[H1 H2%negb_true_iff%bool_decide_eq_false]%andb_true_iff H3%negb_true_iff].
    unfold entry. by destruct (Registry.wf_entry _ Hw id e He) as [<- _]. }
  split_and!.
  - by rewrite sort_perm.
  - apply sort_sorted; [apply rtt_le_total].
  - intros n. rewrite elem_of_sort, Hm. intros [(e & Hp & <-)%auto_elem|(e & Hp & Hwn & <-)].
    + apply elem_of_bfilter in Hp as [Hp [Hpub Hh]%andb_true_iff]. destruct (He e Hp) as (? & ? & ? & ?). exists e. tauto.
    + unfold wanted in Hwn. apply andb_true_iff in Hwn as [Hi%bool_decide_eq_true Hh].
      destruct (He e Hp) as (? & ? & ? & ?). exists e. tauto.
  - exists (auto_roster c d). split; [unfold auto_roster; rewrite length_take; lia|].
    intros n. rewrite elem_of_sort, Hm. intros [?|(e & _ & Hwn & <-)]; [by left|]. right.
    unfold wanted in Hwn. by apply andb_true_iff in Hwn as [Hi%bool_decide_eq_true _].
  - intros n e Hen Hcap Hex Hoff Hh Hi. rewrite elem_of_sort, Hm. right. exists e.
    destruct (Registry.wf_entry _ Hw n e Hen) as [Hid _]. split_and!; [| |done].
    + apply elem_of_bfilter. split; [apply elem_of_walk; eauto|]. unfold eligible.
      by rewrite Hcap, Hid, Hoff, bool_decide_false.
    + unfold wanted. rewrite Hid, Hh. by rewrite bool_decide_true.
Qed.

(** ** Exits *)

Section Exits.
Context `{W : HashOrder} `{!HashOrderLaws W}.

(** The exits the map of a network shows. *)
Definition shown_exits (c : Coordinator) (net : Z) : gset Z :=
  list_to_set (ni_node_id <$> List.filter ni_exit (netmap_snapshot c net)).

Lemma elem_of_cap_exits d n : Registry.wf (registry d) ->
  n ∈ cap_exits d <-> exists e, entry d n = Some e /\ has_cap CAPABILITY_EXIT e = true.
Proof.
  intros Hw. unfold cap_exits. rewrite elem_of_list_to_set, list_elem_of_fmap. split.
  - intros (e & -> & [[id He]%elem_of_walk Hx]%elem_of_bfilter). exists e. split; [|done].
    by destruct (Registry.wf_entry _ Hw id e He) as [-> _].
  - intros (e & He & Hx). exists e. destruct (Registry.wf_entry _ Hw n e He) as [-> _]. split; [done|].
    apply elem_of_bfilter. split; [|done]. apply elem_of_walk. eauto.
Qed.

Lemma shown_exits_cap c d : inv c -> d ∈ domains c -> shown_exits c (network_id d) = cap_exits d ∩ exit_allow d.
Proof.
  intros Hc Hd. pose proof (do_registry _ _ (in_domains c Hc d Hd)) as Hw. apply set_eq. intros n.
  unfold shown_exits. rewrite elem_of_list_to_set, list_elem_of_fmap, elem_of_intersection, elem_of_cap_exits by done.
  split.
  - intros (info & -> & [Hi Hx]%elem_of_bfilter).
    apply (elem_of_netmap c _ _ Hc) in Hi as (d' & e & Hd' & Hid & He & ->). cbn in *.
    assert (d' = d) as -> by (eapply (fmap_nodup_eq network_id); [by apply in_ids|done..]).
    apply andb_true_iff in Hx as [Hx Ha%bool_decide_eq_true]. eauto.
  - intros [(e & He & Hx) Ha]. destruct (Registry.wf_entry _ Hw n e He) as [Hid _].
    exists (node_info c d e). split; [by cbn|]. apply elem_of_bfilter. split.
    + apply (elem_of_netmap c _ _ Hc). exists d, e. by rewrite Hid.
    + cbn. rewrite Hx, Hid. by apply bool_decide_eq_true.
Qed.

(** Changing the authorised exits makes a new version of the network map
    exactly when the exits the map shows change. *)
Theorem exit_allow_announced (c : Coordinator) (d : NetworkDomain) (allow : list Z) (Hc : inv c) (Hd : d ∈ domains c) :
  let c' := set_exit_allow c (name d) allow in
  shown_exits c' (network_id d) = cap_exits d ∩ list_to_set allow /\
  netmap_version c' = netmap_version c + if decide (shown_exits c' (network_id d) = shown_exits c (network_id d)) then 0 else 1.
Proof.
  intros c'.
  set (f := fun d => set_exits d (list_to_set allow)).
  assert (Hi : inv (on_name (name d) f c)) by by apply inv_cosmetic.
  assert (Hfd : f d ∈ domains (on_name (name d) f c)) by (apply update_first_elem, (by_name_elem c Hc d Hd)).
  assert (Hs : shown_exits (on_name (name d) f c) (network_id d) = cap_exits d ∩ list_to_set allow)
    by exact (shown_exits_cap _ (f d) Hi Hfd).
  assert (Hb : shown_exits c' (network_id d) = cap_exits d ∩ list_to_set allow).
  { rewrite <- Hs. unfold c', set_exit_allow. rewrite (by_name_elem c Hc d Hd). by destruct (negb _). }
  split; [done|]. rewrite Hb, (shown_exits_cap c d Hc Hd).
  unfold c', set_exit_allow, netmap_version. rewrite (by_name_elem c Hc d Hd).
  destruct (decide (_ = cap_exits d ∩ exit_allow d)) as [E|E].
  - rewrite bool_decide_true by done. cbn. lia.
  - rewrite bool_decide_false by done. cbn. lia.
Qed.
End Exits.

(** ** Samples *)

#[local] Existing Instance Crypto.Toy.toy.
#[local] Existing Instance Registry.toy_signer.

(** The other way round. *)
Definition reverse_order : HashOrder := {|
  walk_nodes m := reverse ((map_to_list m).*2);
  walk_paths p := reverse ((map_to_list (PathService.map p)).*1);
  walk_seen m := reverse ((map_to_list m).*1)
|}.

Lemma reverse_order_laws : HashOrderLaws reverse_order.
Proof. split; intros; cbn; unfold PathService.visits; by rewrite reverse_Permutation. Qed.

Definition sample_relays : Coordinator :=
  foldl apply sample
    [ SetRelayConstraints "lab" (mk_relay_cfg [2] [] 8);
      Register (sample_key "lab") (replicate 32 21) 1 [] 2000 (5, 1);
      Register (sample_key "lab") (replicate 32 22) 1 [] 2000 (6, 1);
      SetEndpoints 1 ["198.51.100.1:9"] ["198.51.100.1:9"]; SetEndpoints 4 ["198.51.100.4:9"] ["198.51.100.4:9"];
      RecordRtt (network_id_for "lab") [(1, Some 30); (4, Some 20); (5, Some 10)] ].

Lemma sample_relays_inv : inv sample_relays.
Proof.
  eapply steps_inv; [|apply coord_reachable_inv, coord_sample_reachable]. apply ops_reach. vm_compute. reflexivity.
Qed.

Lemma propose_order_free_witness :
  propose_relay_roster (W := key_order) sample_relays (network_id_for "lab") = [4; 1] /\
  propose_relay_roster (W := reverse_order) sample_relays (network_id_for "lab") = [4; 1].
Proof.
  assert (E : propose_relay_roster (W := key_order) sample_relays (network_id_for "lab") = [4; 1])
    by (vm_compute; reflexivity).
  split; [exact E|].
  rewrite (propose_order_free reverse_order key_order reverse_order_laws key_order_laws _ _ sample_relays_inv). exact E.
Defined.

Lemma propose_sound_witness :
  exists d, domain_by_network_id sample_relays (network_id_for "lab") = Some d /\
    NoDup (propose_relay_roster sample_relays (network_id_for "lab")).
Proof.
  assert (E : name <$> domain_by_network_id sample_relays (network_id_for "lab") = Some "lab") by (vm_compute; reflexivity).
  destruct (domain_by_network_id sample_relays (network_id_for "lab")) as [d|] eqn:Ed; [|discriminate E].
  exists d. split; [reflexivity|]. exact (proj1 (propose_sound sample_relays d _ sample_relays_inv Ed)).
Defined.

Lemma exit_allow_announced_witness :
  exists d, d ∈ domains sample_relays /\ name d = "corp" /\
    netmap_version (set_exit_allow sample_relays "corp" [3]) = netmap_version sample_relays + 1.
Proof.
  assert (E : name <$> domain_by_name sample_relays "corp" = Some "corp") by (vm_compute; reflexivity).
  destruct (domain_by_name sample_relays "corp") as [d|] eqn:Ed; [|discriminate E].
  apply find_by_name in Ed as [Hd Hn]. exists d. split; [exact Hd|]. split; [exact Hn|].
  destruct (exit_allow_announced sample_relays d [3] sample_relays_inv Hd) as [_ H]. rewrite Hn in H.
  rewrite H. assert (Hid : network_id d = network_id_for "corp")
    by (rewrite <- Hn; apply (do_id _ _ (in_domains _ sample_relays_inv d Hd))).
  rewrite Hid, decide_False; [reflexivity|].
  assert (Hne : bool_decide (shown_exits (set_exit_allow sample_relays "corp" [3]) (network_id_for "corp")
                 = shown_exits sample_relays (network_id_for "corp")) = false) by (vm_compute; reflexivity).
  by apply bool_decide_eq_false in Hne.
Defined.
End Roster.
