(* ===== verification/Replica.v ===== *)
(** * Persistence and replication of the coordinator
      (rill-coord/src/coordinator/mod.rs, store/mod.rs, raft/machine.rs, raft/backend.rs)

    The durable snapshot of the coordinator and its restoration, the state machine
    that the Raft library drives with committed log entries, and the audit of
    identity bindings against it.  The Raft library itself, the encoding of
    snapshots (serde) and the transactional file (redb) are outside. *)

From S2P Require Import Prelude Crypto Net Route Control Registry AuthKey Coord PathService RouteMap Coordinator CoordinatorInv.

Module Replica.
Import Coordinator CoordinatorInv.

Definition STATE_SCHEMA : Z := 4.

Record CoordState := mk_state {
  schema : Z;
  st_next_node_id : Z;
  nodes : list Registry.NodeEntry;
  consumed_one_time_keys : list string;
  st_netmap_version : Z;
  key_versions : list (Z * Z);
  st_endpoints : list (Z * (list string * list string));
  path_maps : list (Z * (list ((Z * Z) * PathService.PathSet) * Z));
  relay_rosters : list (Z * list Z);
  pending_revoke_rotations : list (Z * Z);
  revoked_nodes : list (Z * (Z * Z))
}.

(** [sort_by_key] on an integer, and the order of strings. *)
Definition on_key {A} (f : A -> Z) (a b : A) : bool := Z.leb (f a) (f b).
Definition string_le (a b : string) : bool := String.leb a b.

Section Snapshot.
Context `{W : HashOrder}.

Definition all_nodes (ds : list NetworkDomain) : list Registry.NodeEntry :=
  concat ((fun d => walk_nodes (Registry.entries (registry d))) <$> ds).

Definition pending_of (d : NetworkDomain) : option (Z * Z) :=
  deadline ← Keys.pending_revoke_rotation (keys d); Some (network_id d, deadline).

Definition snapshot (c : Coordinator) : CoordState :=
  mk_state STATE_SCHEMA (next_node_id c)
    (sort (on_key Registry.node_id) (all_nodes (domains c)))
    (sort string_le (concat ((fun d => Registry.consumed_one_time (registry d)) <$> domains c)))
    (Directory.netmap_version (directory c))
    (sort (on_key fst) ((fun d => (network_id d, Keys.key_version (keys d))) <$> domains c))
    (sort (on_key fst) ((fun '(k, v) => (k, (Directory.local_ v, Directory.seen v))) <$>
       map_to_list (Directory.endpoints (directory c))))
    (sort (on_key fst) ((fun d => (network_id d, PathService.persistent (paths d))) <$> domains c))
    (sort (on_key fst) ((fun d => (network_id d, roster d)) <$> domains c))
    (sort (on_key fst) (omap pending_of (domains c)))
    (sort (on_key fst) (map_to_list (revoked c))).
End Snapshot.

(** *** Restoring *)

Inductive StoreError :=
| BadNextNodeId
| DuplicateNodeId
| DuplicatePubkey
| UnconfiguredNetwork
| MissingKeyVersion
| DuplicatePath
| Deserialize.

(** The checks over the node table, with the sets of ids and keys seen. *)
Fixpoint check_nodes (c : Coordinator) (ids : gset Z) (pks : gset (list Z)) (l : list Registry.NodeEntry)
    : outcome StoreError unit :=
  match l with
  | [] => Ok tt
  | n :: l =>
      if decide (Registry.node_id n ∈ ids) then Err DuplicateNodeId
      else if decide (Registry.static_pubkey n ∈ pks) then Err DuplicatePubkey
      else
        match domain_by_network_id c (Registry.network_id n) with
        | None => Err UnconfiguredNetwork
        | Some _ => check_nodes c ({[Registry.node_id n]} ∪ ids) ({[Registry.static_pubkey n]} ∪ pks) l
        end
  end.

(** The first pair of a table with the given network id. *)
Definition find_net {A} (id : Z) (l : list (Z * A)) : option A :=
  snd <$> List.find (fun p => bool_decide (p.1 = id)) l.

Fixpoint build_paths (m : gmap (Z * Z) PathService.PathSet) (l : list ((Z * Z) * PathService.PathSet))
    : outcome StoreError (gmap (Z * Z) PathService.PathSet) :=
  match l with
  | [] => Ok m
  | (k, s) :: l =>
      match m !! k with Some _ => Err DuplicatePath | None => build_paths (<[k := s]> m) l end
  end.

Definition key_of_network (nm : string) (k : string) : bool :=
  match AuthKey.parse_auth_key k with Ok (net, _, _) => bool_decide (net = nm) | _ => false end.

Definition restore_domain (st : CoordState) (d : NetworkDomain) : outcome StoreError NetworkDomain :=
  let domain_nodes := List.filter (fun n => bool_decide (Registry.network_id n = network_id d)) (nodes st) in
  let consumed := List.filter (key_of_network (name d)) (consumed_one_time_keys st) in
  let d := set_registry d (Registry.restore (registry d) domain_nodes consumed) in
  version ← ok_or MissingKeyVersion (find_net (network_id d) (key_versions st));
  let d := set_keys d (Keys.restore_version (keys d) version) in
  d ← match find_net (network_id d) (path_maps st) with
      | Some (l, seq) => m ← build_paths ∅ l; Ok (set_paths d (PathService.restore (paths d) m seq))
      | None => Ok d
      end;
  let d := match find_net (network_id d) (relay_rosters st) with
           | Some r => (apply_roster d r).2
           | None => d
           end in
  Ok (match find_net (network_id d) (pending_revoke_rotations st) with
      | Some deadline => set_keys d (Keys.restore_revoke_rotation (keys d) deadline)
      | None => d
      end).

Fixpoint restore_domains (st : CoordState) (l : list NetworkDomain) : outcome StoreError (list NetworkDomain) :=
  match l with
  | [] => Ok []
  | d :: l => d ← restore_domain st d; l ← restore_domains st l; Ok (d :: l)
  end.

(** [restore_state]; every caller drops the coordinator when an error is returned,
    so the state left by a failure is not described. *)
Definition restore_state (c : Coordinator) (st : CoordState) : outcome StoreError Coordinator :=
  let max_node := foldr Z.max 0 (Registry.node_id <$> nodes st) in
  if decide (st_next_node_id st = 0 \/ st_next_node_id st <= max_node) then Err BadNextNodeId
  else
    _ ← check_nodes c ∅ ∅ (nodes st);
    ds ← restore_domains st (domains c);
    let c := set_next (set_domains c ds) (st_next_node_id st) in
    let eps := list_to_map ((fun '(id, (l, s)) => (id, Directory.mk_endpoints l s)) <$> st_endpoints st) in
    let c := set_directory c (Directory.restore (directory c) (st_netmap_version st) eps) in
    Ok (set_revoked c (list_to_map (revoked_nodes st))).

(** ** The state machine *)

Definition LogId : Type := Z * Z.   (* index, term *)

Inductive CoordCommand :=
| CmdRegister (auth_key : string) (static_pubkey : list Z) (capabilities : Z) (routes : list string) (now : Z)
| CmdRevoke (node_id now : Z)
| CmdSetEndpoints (node_id : Z) (local_ seen : list string)
| CmdRequestPaths (source dest max now : Z)
| CmdSetRelayRoster (network_id : Z) (roster : list Z) (now : Z)
| CmdRotateMasterKey (network : string) (new_master_key : list Z)
| CmdFlushRevokeRotations (now : Z).

Inductive CoordCommandResult :=
| ResNoop
| ResRegister (r : outcome Registry.RegisterError RegisterData)
| ResRevoke (hit : bool)
| ResSetEndpoints
| ResRequestPaths (l : list (PathService.PathCandidate * list Z))
| ResSetRelayRoster (changed : bool)
| ResRotateMasterKey
| ResFlushRevokeRotations (rotated : bool).

Record MachineConfig := mk_config { networks : list (string * list Z) }.

Definition fresh_coordinator (cfg : MachineConfig) : Coordinator :=
  foldl (fun c '(nm, mk) => (add_network c nm mk).2) new (networks cfg).

(** The encoding of snapshots: serde reads back what it wrote. *)
Class Serde := { to_vec : CoordState -> list Z; from_slice : list Z -> option CoordState }.
Class SerdeLaws (D : Serde) := from_to_vec : forall st, from_slice (to_vec st) = Some st.

Section Machine.
Context {Membership : Type}.
Context `{W : HashOrder} `{P : Crypto.Primitives} `{S : Registry.IdentitySigner} `{D : Serde}.

Inductive EntryPayload := Blank | Normal (cmd : CoordCommand) | ChangeMembership (m : Membership).

Record Entry := mk_log_entry { log_id : LogId; payload : EntryPayload }.

Record SnapshotMeta := mk_meta { last_log_id : option LogId; meta_membership : option (LogId * Membership) }.

(** What the state file holds after a checkpoint. *)
Record Disk := mk_disk { disk_state : CoordState; disk_applied : option LogId; disk_membership : option (LogId * Membership) }.

Record CoordStateMachine := mk_machine {
  config : MachineConfig;
  coordinator : Coordinator;
  store : option (option Disk);   (* None: in memory; Some None: an empty file *)
  last_applied : option LogId;
  last_membership : option (LogId * Membership);
  current_snapshot : option (SnapshotMeta * list Z)
}.

Definition in_memory (cfg : MachineConfig) : CoordStateMachine :=
  mk_machine cfg (fresh_coordinator cfg) None None None None.

Definition open (cfg : MachineConfig) (file : option Disk) : outcome StoreError CoordStateMachine :=
  match file with
  | None => Ok (mk_machine cfg (fresh_coordinator cfg) (Some None) None None None)
  | Some k =>
      c ← restore_state (fresh_coordinator cfg) (disk_state k);
      Ok (mk_machine cfg c (Some file) (disk_applied k) (disk_membership k) None)
  end.

Definition checkpoint (m : CoordStateMachine) : CoordStateMachine :=
  match store m with
  | None => m
  | Some _ =>
      mk_machine (config m) (coordinator m)
        (Some (Some (mk_disk (snapshot (coordinator m)) (last_applied m) (last_membership m))))
        (last_applied m) (last_membership m) (current_snapshot m)
  end.

Definition apply_command (c : Coordinator) (cmd : CoordCommand) (id : LogId) : CoordCommandResult * Coordinator :=
  match cmd with
  | CmdRegister k pk caps rs now => let '(r, c) := register c k pk caps rs now id in (ResRegister r, c)
  | CmdRevoke n now =>
      let known := bool_decide (is_Some (static_pubkey_of c n)) in (ResRevoke known, revoke c n now id)
  | CmdSetEndpoints n l s => (ResSetEndpoints, set_endpoints c n l s)
  | CmdRequestPaths s d mx now => let '(l, c) := request_paths c s d mx now in (ResRequestPaths l, c)
  | CmdSetRelayRoster net r now => let '(b, c) := apply_relay_roster c net r now in (ResSetRelayRoster b, c)
  | CmdRotateMasterKey net k => (ResRotateMasterKey, rotate_master_key c net k)
  | CmdFlushRevokeRotations now => let '(b, c) := flush_revoke_rotations c now in (ResFlushRevokeRotations b, c)
  end.

(** One log entry. *)
Definition apply_entry (m : CoordStateMachine) (e : Entry) : CoordCommandResult * CoordStateMachine :=
  match payload e with
  | Blank => (ResNoop, mk_machine (config m) (coordinator m) (store m) (Some (log_id e)) (last_membership m) (current_snapshot m))
  | Normal cmd =>
      let '(r, c) := apply_command (coordinator m) cmd (log_id e) in
      (r, mk_machine (config m) c (store m) (Some (log_id e)) (last_membership m) (current_snapshot m))
  | ChangeMembership x =>
      (ResNoop, mk_machine (config m) (coordinator m) (store m) (Some (log_id e)) (Some (log_id e, x)) (current_snapshot m))
  end.

Fixpoint apply_entries (m : CoordStateMachine) (es : list Entry) : list CoordCommandResult * CoordStateMachine :=
  match es with
  | [] => ([], m)
  | e :: es =>
      let '(r, m) := apply_entry m e in
      let '(rs, m) := apply_entries m es in (r :: rs, m)
  end.

Definition apply_batch (m : CoordStateMachine) (es : list Entry) : list CoordCommandResult * CoordStateMachine :=
  let '(rs, m) := apply_entries m es in (rs, checkpoint m).

Definition install_snapshot (m : CoordStateMachine) (meta : SnapshotMeta) (data : list Z)
    : outcome StoreError CoordStateMachine :=
  st ← ok_or Deserialize (from_slice data);
  c ← restore_state (fresh_coordinator (config m)) st;
  Ok (checkpoint (mk_machine (config m) c (store m) (last_log_id meta) (meta_membership meta) (Some (meta, data)))).

Definition build_snapshot (m : CoordStateMachine) : (SnapshotMeta * list Z) * CoordStateMachine :=
  let s := (mk_meta (last_applied m) (last_membership m), to_vec (snapshot (coordinator m))) in
  (s, mk_machine (config m) (coordinator m) (store m) (last_applied m) (last_membership m) (Some s)).

(** ** The audit of bindings *)

Inductive AuditVerdict := Verified | Conflict | Behind | Unknown.

Definition verify_binding (node_id : Z) (pk binding : list Z) (issuance : Z * Z) : bool :=
  Registry.verify (Registry.binding_message node_id pk issuance) binding.

Definition applied_index (m : CoordStateMachine) : Z :=
  match last_applied m with Some id => id.1 | None => 0 end.

Definition audit_binding (m : CoordStateMachine) (node_id : Z) (pk binding : list Z) (anchor : Z * Z)
    : AuditVerdict * Z :=
  let c := coordinator m in
  (if negb (verify_binding node_id pk binding anchor) then Unknown
   else if bool_decide (is_Some (revocation_of c node_id)) then Unknown
   else if bool_decide (anchor.1 > applied_index m) then Behind
   else match node_entry c node_id with
        | Some e =>
            if bool_decide (Registry.binding_log_id e = anchor) && bool_decide (Registry.static_pubkey e = pk)
               && bool_decide (Registry.identity_binding e = binding)
            then Verified else Conflict
        | None => Conflict
        end,
   applied_index m).
End Machine.

(** ** Sorting and tables *)

Lemma string_le_trans a b c : string_le a b = true -> string_le b c = true -> string_le a c = true.
Proof.
  unfold string_le, String.leb. revert b c. induction a as [|x a IH]; intros [|y b] [|z c]; cbn; try done.
  specialize (IH b c). unfold Ascii.compare in *.
  destruct (N.compare_spec (Ascii.N_of_ascii x) (Ascii.N_of_ascii y)) as [E1|E1|E1]; try done;
    destruct (N.compare_spec (Ascii.N_of_ascii y) (Ascii.N_of_ascii z)) as [E2|E2|E2]; try done;
    destruct (N.compare_spec (Ascii.N_of_ascii x) (Ascii.N_of_ascii z)) as [E3|E3|E3]; try done; lia.
Qed.

Lemma string_sort_unique l l' : l ≡ₚ l' -> sort string_le l = sort string_le l'.
Proof.
  apply sort_unique.
  - intros x y. unfold string_le. destruct (String.leb_total x y); congruence.
  - apply string_le_trans.
  - intros x y _ _. apply String.leb_antisym.
Qed.

Lemma key_sort_unique {A} (f : A -> Z) l l' : NoDup (f <$> l) -> l ≡ₚ l' -> sort (on_key f) l = sort (on_key f) l'.
Proof.
  intros Hn. apply sort_unique; unfold on_key.
  - intros x y. lia.
  - intros x y z. lia.
  - intros x y Hx Hy H1 H2. eapply fmap_nodup_eq; [exact Hn|done..|lia].
Qed.

Lemma find_net_elem {A} id (v : A) l : NoDup l.*1 -> (id, v) ∈ l -> find_net id l = Some v.
Proof.
  intros Hn Hv. unfold find_net. destruct (List.find _ l) as [[id' v']|] eqn:E.
  - apply find_Some_elem in E as [Hin E%bool_decide_eq_true]. cbn in E. subst id'. cbn. f_equal.
    assert (H : (id, v') = (id, v)) by (eapply (fmap_nodup_eq fst); done). congruence.
  - rewrite find_None in E. specialize (E _ Hv). cbn in E. by apply bool_decide_eq_false in E.
Qed.

Lemma find_net_None {A} id (l : list (Z * A)) : id ∉ l.*1 -> find_net id l = None.
Proof.
  intros Hn. unfold find_net. destruct (List.find _ l) as [[id' v']|] eqn:E; [|done].
  apply find_Some_elem in E as [Hin E%bool_decide_eq_true]. destruct Hn. rewrite <- E. by apply list_elem_of_fmap_2.
Qed.

(** A table with one row per domain, as the snapshot stores it. *)
Lemma table_find {A} (f : NetworkDomain -> A) ds d : NoDup (network_id <$> ds) -> d ∈ ds ->
  find_net (network_id d) (sort (on_key fst) ((fun d => (network_id d, f d)) <$> ds)) = Some (f d).
Proof.
  intros Hn Hd. apply find_net_elem.
  - rewrite sort_perm, <- list_fmap_compose. done.
  - apply elem_of_sort. by apply (list_elem_of_fmap_2 (fun d => (network_id d, f d))).
Qed.

Lemma list_to_map_sort {A} (m : gmap Z A) : list_to_map (sort (on_key fst) (map_to_list m)) = m.
Proof.
  rewrite <- (list_to_map_to_list m) at 2. apply list_to_map_proper; [|apply sort_perm].
  rewrite sort_perm. apply NoDup_fst_map_to_list.
Qed.

Lemma nodup_concat {A B} (f : A -> list B) l : NoDup l -> (forall x, x ∈ l -> NoDup (f x)) ->
  (forall x y z, x ∈ l -> y ∈ l -> z ∈ f x -> z ∈ f y -> x = y) -> NoDup (concat (f <$> l)).
Proof.
  induction 1 as [|x l Hx Hn IH]; intros Hf Hd; cbn; [constructor|].
  rewrite list.NoDup_app. split_and!; [apply Hf; left| |apply IH].
  - intros z Hz Hc. apply list_elem_of_In, in_concat in Hc as (k & Hk & Hzk).
    apply list_elem_of_In in Hk, Hzk. apply list_elem_of_fmap in Hk as (y & -> & Hy).
    assert (x = y) as <- by (eapply Hd; [left|by right|exact Hz|exact Hzk]). done.
  - intros y Hy. apply Hf. by right.
  - intros y y' z Hy Hy'. apply Hd; by right.
Qed.

Lemma filter_concat_one {A B} (Q : B -> bool) (f : A -> list B) l d : d ∈ l ->
  NoDup l -> (forall x e, x ∈ l -> e ∈ f x -> Q e = true <-> x = d) ->
  List.filter Q (concat (f <$> l)) = f d.
Proof.
  intros Hd Hn HQ. apply list_elem_of_split in Hd as (l1 & l2 & ->).
  apply list.NoDup_app in Hn as (_ & H1 & [H2 _]%list.NoDup_cons).
  assert (Hnone : forall k, (forall x, x ∈ k -> x ∈ l1 ++ d :: l2 /\ x <> d) -> List.filter Q (concat (f <$> k)) = []).
  { intros k Hk. apply bfilter_nil, not_true_iff_false. rewrite existsb_elem. intros (e & He & Hq).
    apply list_elem_of_In, in_concat in He as (y & Hy & Hey). apply list_elem_of_In in Hy, Hey.
    apply list_elem_of_fmap in Hy as (x & -> & Hx). destruct (Hk x Hx) as [Hin Hne]. apply Hne. by apply (HQ x e). }
  rewrite fmap_app, concat_app, List.filter_app. cbn. rewrite List.filter_app.
  rewrite (Hnone l1), (Hnone l2); [|intros x Hx; split..].
  - cbn. rewrite app_nil_r. assert (Ha : forall e, e ∈ f d -> Q e = true).
    { intros e He. apply (HQ d e); [|done|done]. apply elem_of_app. right. left. }
    clear -Ha. induction (f d) as [|e k IH]; [done|]. cbn. rewrite Ha by left. f_equal. apply IH. intros e' He'. apply Ha. by right.
  - apply elem_of_app. right. by right.
  - intros ->. done.
  - apply elem_of_app. by left.
  - intros ->. apply (H1 d Hx). left.
Qed.

(** ** The round trip *)

(** The static keys of all networks are distinct. *)
Definition distinct_keys (c : Coordinator) : Prop :=
  forall n n' e e', node_entry c n = Some e -> node_entry c n' = Some e' ->
    Registry.static_pubkey e = Registry.static_pubkey e' -> n = n'.

(** A coordinator with the networks of [c] and nothing in them. *)
Definition fresh_of (c f : Coordinator) : Prop :=
  Forall2 (fun x d => exists mk, x = domain_new (name d) (network_id d) mk) (domains f) (domains c) /\
  liveness f = Liveness.new /\ directory f = Directory.new /\ telemetry f = ∅.

(** What a restored domain has of the one that was saved. *)
Record restored (d d' : NetworkDomain) : Prop := {
  rs_id : network_id d' = network_id d;
  rs_name : name d' = name d;
  rs_entries : Registry.entries (registry d') = Registry.entries (registry d);
  rs_pubkeys : Registry.pubkeys (registry d') = Registry.pubkeys (registry d);
  rs_auth_keys : Registry.auth_keys (registry d') = ∅;
  rs_whitelist : Registry.announce_whitelist (registry d') = [];
  rs_net : Registry.net_id (registry d') = network_id d;
  rs_consumed : Registry.consumed_one_time (registry d') ≡ₚ Registry.consumed_one_time (registry d);
  rs_version : Keys.key_version (keys d') = Keys.key_version (keys d);
  rs_pending : Keys.pending_revoke_rotation (keys d') = Keys.pending_revoke_rotation (keys d);
  rs_paths : PathService.map (paths d') = PathService.map (paths d);
  rs_seq : PathService.seq (paths d') = PathService.seq (paths d);
  rs_events : PathService.pending (paths d') = ∅;
  rs_relays : PathService.relays (paths d') = roster d;
  rs_roster : roster d' = roster d;
  rs_routes : route_map d' = RouteMap.new;
  rs_acl : acl d' = default_acl
}.

Lemma build_paths_ok l : NoDup l.*1 -> forall m, (forall k, k ∈ l.*1 -> m !! k = None) ->
  build_paths m l = Ok (list_to_map l ∪ m).
Proof.
  induction l as [|[k s] l IH]; cbn; intros Hn m Hm; [by rewrite (left_id_L ∅ (∪))|].
  apply list.NoDup_cons in Hn as [Hk Hn]. rewrite Hm by left. rewrite IH; [|done|].
  - f_equal. rewrite <- insert_union_r, insert_union_l; [done|]. by apply not_elem_of_list_to_map_1.
  - intros k' Hk'. rewrite lookup_insert_ne; [apply Hm; by right|congruence].
Qed.

Lemma check_nodes_ok c l : forall ids pks,
  NoDup (Registry.node_id <$> l) -> NoDup (Registry.static_pubkey <$> l) ->
  (forall n, n ∈ l -> (Registry.node_id n ∉ ids) /\ (Registry.static_pubkey n ∉ pks) /\
     is_Some (domain_by_network_id c (Registry.network_id n))) ->
  check_nodes c ids pks l = Ok tt.
Proof.
  induction l as [|n l IH]; intros ids pks H1 H2 H; cbn; [done|].
  apply list.NoDup_cons in H1 as [H1 H1']. apply list.NoDup_cons in H2 as [H2 H2'].
  destruct (H n) as (Ha & Hb & [d Hd]); [left|]. rewrite !decide_False by done. rewrite Hd.
  apply IH; [done..|]. intros x Hx. destruct (H x) as (Hc & He & Hf); [by right|].
  split_and!; [| |done]; rewrite elem_of_union, elem_of_singleton; intros [E|]; [|done| |done].
  - apply H1. rewrite <- E. by apply list_elem_of_fmap_2.
  - apply H2. rewrite <- E. by apply list_elem_of_fmap_2.
Qed.

Lemma nodup_of_fmap {A B} (g : A -> B) (l : list A) : NoDup (g <$> l) -> NoDup l.
Proof. apply NoDup_fmap_1. Qed.

Section RoundTrip.
Context `{W : HashOrder} `{!HashOrderLaws W}.
Context (c : Coordinator) (Hc : inv c).

Let st : CoordState := snapshot c.

Lemma domains_nodup : NoDup (domains c).
Proof. apply (nodup_of_fmap network_id), in_ids, Hc. Qed.

Lemma elem_of_all_nodes e : e ∈ all_nodes (domains c) <->
  exists d, d ∈ domains c /\ entry d (Registry.node_id e) = Some e.
Proof.
  unfold all_nodes. rewrite list_elem_of_In, in_concat. split.
  - intros (l & Hl & He). apply list_elem_of_In in Hl, He. apply list_elem_of_fmap in Hl as (d & -> & Hd).
    exists d. split; [done|]. apply elem_of_walk in He as [id He]. unfold entry.
    by destruct (Registry.wf_entry _ (do_registry _ _ (in_domains c Hc d Hd)) id e He) as [-> _].
  - intros (d & Hd & He). exists (walk_nodes (Registry.entries (registry d))). rewrite <- !list_elem_of_In. split.
    + by apply (list_elem_of_fmap_2 (fun d => walk_nodes (Registry.entries (registry d)))).
    + apply elem_of_walk. eauto.
Qed.

Lemma walk_nodup d : d ∈ domains c -> NoDup (walk_nodes (Registry.entries (registry d))).
Proof.
  intros Hd. rewrite walk_nodes_perm. apply (nodup_of_fmap Registry.node_id). rewrite <- list_fmap_compose.
  rewrite (list_fmap_ext _ fst); [apply NoDup_fst_map_to_list|].
  intros i [id e] He. apply list_elem_of_lookup_2, elem_of_map_to_list in He. cbn.
  by apply (Registry.wf_entry _ (do_registry _ _ (in_domains c Hc d Hd))) in He as [? _].
Qed.

Lemma all_nodes_nodup : NoDup (Registry.node_id <$> all_nodes (domains c)).
Proof.
  apply NoDup_fmap_2_strong.
  - intros e e' (d & Hd & He)%elem_of_all_nodes (d' & Hd' & He')%elem_of_all_nodes E.
    rewrite <- E in He'. assert (d = d') as <- by (eapply in_unique; eauto). congruence.
  - apply nodup_concat; [apply domains_nodup|apply walk_nodup|].
    intros x y e Hx Hy [id He]%elem_of_walk [id' He']%elem_of_walk.
    destruct (Registry.wf_entry _ (do_registry _ _ (in_domains c Hc x Hx)) id e He) as [Hi _].
    destruct (Registry.wf_entry _ (do_registry _ _ (in_domains c Hc y Hy)) id' e He') as [Hi' _].
    eapply in_unique; [done..| |]; [exists e; exact He|]. exists e. unfold entry. congruence.
Qed.

Lemma nodes_nodup : NoDup (Registry.node_id <$> nodes st).
Proof. unfold st, snapshot. cbn [nodes]. rewrite sort_perm. apply all_nodes_nodup. Qed.

Lemma nodes_checked f : distinct_keys c -> fresh_of c f -> check_nodes f ∅ ∅ (nodes st) = Ok tt.
Proof.
  intros Hk [Hf _]. apply check_nodes_ok.
  - apply nodes_nodup.
  - unfold st, snapshot. cbn [nodes]. rewrite sort_perm. apply NoDup_fmap_2_strong.
    + intros e e' (d & Hd & He)%elem_of_all_nodes (d' & Hd' & He')%elem_of_all_nodes E.
      assert (Hn : Registry.node_id e = Registry.node_id e').
      { apply (Hk _ _ e e'); [apply (node_entry_iff c _ _ Hc); eauto..|done]. }
      rewrite <- Hn in He'. assert (d = d') as <- by (eapply in_unique; eauto). congruence.
    + apply (nodup_of_fmap Registry.node_id), all_nodes_nodup.
  - intros e. unfold st, snapshot. cbn [nodes]. rewrite elem_of_sort, elem_of_all_nodes. intros (d & Hd & He).
    split_and!; [set_solver..|]. destruct (do_entry _ _ (in_domains c Hc d Hd) _ _ He) as [-> _].
    apply list_elem_of_lookup_1 in Hd as [i Hi]. destruct (Forall2_lookup_r _ _ _ _ _ Hf Hi) as (x & Hx & mk & ->).
    destruct (domain_by_network_id f (network_id d)) as [y|] eqn:E; [eauto|].
    unfold domain_by_network_id in E. rewrite find_None in E.
    specialize (E _ (list_elem_of_lookup_2 _ _ _ Hx)). by apply bool_decide_eq_false in E.
Qed.

Lemma next_checked : ~ (st_next_node_id st = 0 \/ st_next_node_id st <= foldr Z.max 0 (Registry.node_id <$> nodes st)).
Proof.
  assert (Hmax : forall l, (forall x, x ∈ l -> x < next_node_id c) -> foldr Z.max 0 l < next_node_id c).
  { pose proof (in_next c Hc). induction l as [|x l IH]; intros Hl; cbn; [lia|].
    pose proof (Hl x ltac:(left)). pose proof (IH ltac:(intros y Hy; apply Hl; by right)). lia. }
  pose proof (in_next c Hc). unfold st, snapshot. cbn [st_next_node_id nodes].
  specialize (Hmax (Registry.node_id <$> sort (on_key Registry.node_id) (all_nodes (domains c)))). intros [H0|H0]; [lia|].
  apply Z.le_ngt in H0. apply H0, Hmax. intros x Hx. apply list_elem_of_fmap in Hx as (e & -> & He).
  apply elem_of_sort, elem_of_all_nodes in He as (d & Hd & He).
  by destruct (do_entry _ _ (in_domains c Hc d Hd) _ _ He) as [_ [_ ?]].
Qed.

Lemma by_id_iff d x : d ∈ domains c -> x ∈ domains c -> network_id x = network_id d <-> x = d.
Proof. intros Hd Hx. split; [|by intros ->]. intros E. by eapply (fmap_nodup_eq network_id); [apply in_ids|..]. Qed.

Lemma domain_nodes d : d ∈ domains c ->
  List.filter (fun n => bool_decide (Registry.network_id n = network_id d)) (nodes st)
  ≡ₚ (map_to_list (Registry.entries (registry d))).*2.
Proof.
  intros Hd. unfold st, snapshot. cbn [nodes]. rewrite (bfilter_perm _ _ _ (sort_perm _ _)). unfold all_nodes.
  rewrite (filter_concat_one _ (fun d => walk_nodes (Registry.entries (registry d))) _ d Hd domains_nodup).
  - apply walk_nodes_perm.
  - intros x e Hx [id He]%elem_of_walk. rewrite bool_decide_eq_true.
    destruct (do_entry _ _ (in_domains c Hc x Hx) id e He) as [-> _]. by apply by_id_iff.
Qed.

Lemma domain_consumed d : d ∈ domains c ->
  List.filter (key_of_network (name d)) (consumed_one_time_keys st)
  ≡ₚ Registry.consumed_one_time (registry d).
Proof.
  intros Hd. unfold st, snapshot. cbn [consumed_one_time_keys]. rewrite (bfilter_perm _ _ _ (sort_perm _ _)).
  rewrite (filter_concat_one _ (fun d => Registry.consumed_one_time (registry d)) _ d Hd domains_nodup); [done|].
  intros x k Hx Hk. destruct (do_keys _ _ (in_domains c Hc x Hx) k (or_intror Hk)) as (y & s & Hp).
  unfold key_of_network. rewrite Hp, bool_decide_eq_true. split; [|by intros ->]. by apply (by_name_inj c d x Hc).
Qed.

Lemma pending_find d : d ∈ domains c ->
  find_net (network_id d) (pending_revoke_rotations st) = Keys.pending_revoke_rotation (keys d).
Proof.
  intros Hd. unfold st, snapshot. cbn [pending_revoke_rotations].
  assert (Hel : forall id v, (id, v) ∈ omap pending_of (domains c) ->
            exists x, x ∈ domains c /\ network_id x = id /\ Keys.pending_revoke_rotation (keys x) = Some v).
  { intros id v Hv. apply list_elem_of_omap in Hv as (x & Hx & Hp). unfold pending_of in Hp.
    destruct (Keys.pending_revoke_rotation (keys x)) eqn:E; [|done]. cbn in Hp. injection Hp as <- <-. eauto. }
  destruct (Keys.pending_revoke_rotation (keys d)) as [v|] eqn:E.
  - apply find_net_elem.
    + rewrite sort_perm. eapply sublist_NoDup; [apply (in_ids c Hc)|]. clear.
      induction (domains c) as [|x l IH]; cbn; [done|]. unfold pending_of at 1.
      destruct (Keys.pending_revoke_rotation (keys x)); cbn; by constructor.
    + apply elem_of_sort, list_elem_of_omap. exists d. split; [done|]. unfold pending_of. by rewrite E.
  - apply find_net_None. rewrite sort_perm. intros ([id v] & Ei & (x & Hx & Hid & Hp)%Hel)%list_elem_of_fmap.
    cbn in Ei. rewrite <- Ei in Hid. apply (by_id_iff d x Hd Hx) in Hid as ->. congruence.
Qed.

Lemma restore_domain_ok d mk : d ∈ domains c ->
  exists d', restore_domain st (domain_new (name d) (network_id d) mk) = Ok d' /\ restored d d'.
Proof.
  intros Hd. pose proof (in_domains c Hc d Hd) as Hok. unfold restore_domain.
  cbn [network_id name registry domain_new set_registry set_keys keys].
  set (r := Registry.restore _ _ _).
  assert (Hr : Registry.entries r = Registry.entries (registry d) /\ Registry.pubkeys r = Registry.pubkeys (registry d) /\
            Registry.consumed_one_time r ≡ₚ Registry.consumed_one_time (registry d) /\
            Registry.auth_keys r = ∅ /\ Registry.announce_whitelist r = [] /\ Registry.net_id r = network_id d).
  { destruct (Registry.restore_entries (registry d) (Registry.new (network_id d)) _ (do_registry _ _ Hok) (domain_nodes d Hd))
      as (H1 & H2 & _). unfold r, Registry.restore in *. destruct (foldl _ _ _) as [pks ents]. cbn in *.
    split_and!; try done. by apply domain_consumed. }
  rewrite (table_find (fun d => Keys.key_version (keys d)) _ d (in_ids c Hc) Hd : find_net _ (key_versions st) = _). step.
  rewrite (table_find (fun d => PathService.persistent (paths d)) _ d (in_ids c Hc) Hd : find_net _ (path_maps st) = _).
  unfold PathService.persistent. rewrite build_paths_ok; [|rewrite sort_perm; apply NoDup_fst_map_to_list|done].
  step. rewrite (right_id_L ∅ (∪)). cbn [network_id set_paths set_registry set_keys domain_new].
  rewrite (table_find roster _ d (in_ids c Hc) Hd : find_net _ (relay_rosters st) = _).
  cbn [apply_roster snd network_id set_paths set_roster set_registry set_keys domain_new].
  rewrite (pending_find d Hd : find_net _ (pending_revoke_rotations st) = _).
  destruct (PathService.restart_map (paths d)) as [Hm _]. unfold PathService.restart, PathService.persistent in Hm.
  cbn in Hm. destruct Hr as (H1 & H2 & H3 & H4 & H5 & H6).
  destruct (Keys.pending_revoke_rotation (keys d)) eqn:Ep; (eexists; split; [reflexivity|split; by cbn]).
Qed.

Lemma restore_domains_ok l ds : (forall d, d ∈ ds -> d ∈ domains c) ->
  Forall2 (fun x d => exists mk, x = domain_new (name d) (network_id d) mk) l ds ->
  exists l', restore_domains st l = Ok l' /\ Forall2 restored ds l'.
Proof.
  intros Hin. induction 1 as [|x d l ds [mk ->] Hl IH]; cbn; [by exists []|].
  destruct (restore_domain_ok d mk ltac:(apply Hin; left)) as (d' & -> & Hd'). step.
  destruct IH as (l' & -> & Hl'); [intros y Hy; apply Hin; by right|]. step. eauto.
Qed.
End RoundTrip.

(** *** The restored coordinator *)

Section Restored.
Context {A : Type} (R : NetworkDomain -> NetworkDomain -> Prop) (ds l : list NetworkDomain).

Lemma fmap_restored (f : NetworkDomain -> A) : Forall2 R ds l -> (forall d d', R d d' -> f d' = f d) -> f <$> l = f <$> ds.
Proof. intros H Hf. induction H as [|d d' ds' l' Hd _ IH]; [done|]. rewrite !fmap_cons. f_equal; auto. Qed.

Lemma omap_restored (f : NetworkDomain -> option A) : Forall2 R ds l -> (forall d d', R d d' -> f d' = f d) -> omap f l = omap f ds.
Proof.
  intros H Hf. induction H as [|d d' ds' l' Hd _ IH]; [done|]. cbn. rewrite (Hf _ _ Hd).
  destruct (f d); [f_equal|]; exact IH.
Qed.

Lemma concat_restored (f : NetworkDomain -> list A) : Forall2 R ds l -> (forall d d', R d d' -> f d' ≡ₚ f d) ->
  concat (f <$> l) ≡ₚ concat (f <$> ds).
Proof.
  intros H Hf. induction H as [|d d' ds' l' Hd _ IH]; [done|]. rewrite !fmap_cons. cbn [concat].
  by rewrite IH, (Hf _ _ Hd).
Qed.
End Restored.

Lemma endpoints_restored (m : gmap Z Directory.NodeEndpoints) :
  list_to_map ((fun '(id, (l, s)) => (id, Directory.mk_endpoints l s)) <$>
    sort (on_key fst) ((fun '(k, v) => (k, (Directory.local_ v, Directory.seen v))) <$> map_to_list m)) = m.
Proof.
  set (g := fun '(id, (l, s)) => (id, Directory.mk_endpoints l s)).
  set (h := fun '(k, v) => (k : Z, (Directory.local_ v, Directory.seen v))).
  assert (Hp : g <$> sort (on_key fst) (h <$> map_to_list m) ≡ₚ map_to_list m).
  { rewrite sort_perm, <- list_fmap_compose. rewrite (list_fmap_ext _ id); [by rewrite list_fmap_id|].
    by intros i [k []] _. }
  rewrite <- (list_to_map_to_list m) at 2. apply list_to_map_proper; [|exact Hp].
  rewrite Hp. apply NoDup_fst_map_to_list.
Qed.

Lemma restored_ok next d d' : domain_ok next d -> restored d d' -> domain_ok next d'.
Proof.
  intros [H1 [R1 R2 R3 R4] H3 H4 H5 H6 H7 H8] []. split.
  - congruence.
  - split; rewrite ?rs_entries0, ?rs_pubkeys0, ?rs_auth_keys0, ?rs_whitelist0; [done..|constructor].
  - congruence.
  - unfold entry. rewrite rs_entries0, rs_id0. done.
  - intros k. rewrite rs_auth_keys0, rs_consumed0, rs_name0. intros [[x Hx]|Hk]; [by rewrite lookup_empty in Hx|].
    apply H5. by right.
  - congruence.
  - destruct H7. split; rewrite ?rs_paths0, ?rs_seq0; try done. intros n q. rewrite rs_events0. by rewrite lookup_empty.
  - rewrite rs_routes0. split; [done|done|]. intros p n [x Hx]. discriminate Hx.
Qed.

Section Trip.
Context `{W : HashOrder} `{!HashOrderLaws W}.

Lemma inv_restored c c' : inv c -> Forall2 restored (domains c) (domains c') ->
  next_node_id c' = next_node_id c -> revoked c' = revoked c -> inv c'.
Proof.
  intros Hc HF En Er. pose proof Hc as [H1 H2 H3 H4 H5].
  assert (Hids : network_id <$> domains c' = network_id <$> domains c)
    by (eapply fmap_restored; [exact HF|]; intros d d' []; done).
  assert (Hd : forall d', d' ∈ domains c' -> exists d, d ∈ domains c /\ restored d d').
  { intros d' [i Hi]%list_elem_of_lookup_1. destruct (Forall2_lookup_r _ _ _ _ _ HF Hi) as (d & Hd & Hr).
    exists d. split; [by eapply list_elem_of_lookup_2|done]. }
  assert (He : forall d d' id, restored d d' -> entry d' id = entry d id)
    by (intros d d' id []; unfold entry; congruence).
  split; rewrite ?En, ?Er, ?Hids; try done.
  - intros d' (d & Hd1 & Hr)%Hd. eapply restored_ok; eauto.
  - intros x' y' id Hx Hy Hex Hey. eapply (fmap_nodup_eq network_id); [by rewrite Hids|done..|].
    apply Hd in Hx as (x & Hx & Rx). apply Hd in Hy as (y & Hy & Ry).
    rewrite (He _ _ _ Rx) in Hex. rewrite (He _ _ _ Ry) in Hey.
    rewrite (rs_id _ _ Rx), (rs_id _ _ Ry). f_equal. eauto.
  - intros id Hi. destruct (H4 id Hi) as [? Hn]. split; [done|]. intros d' (d & Hd1 & Hr)%Hd. rewrite (He _ _ _ Hr). auto.
Qed.

Lemma snapshot_restored c c' : Forall2 restored (domains c) (domains c') ->
  next_node_id c' = next_node_id c -> revoked c' = revoked c ->
  Directory.endpoints (directory c') = Directory.endpoints (directory c) ->
  Directory.netmap_version (directory c') = Directory.netmap_version (directory c) ->
  snapshot c' = snapshot c.
Proof.
  intros HF En Er Ee Ev. unfold snapshot. rewrite En, Er, Ee, Ev. unfold all_nodes. f_equal.
  - f_equal. f_equal. eapply fmap_restored; [exact HF|]. intros d d' []. by rewrite rs_entries0.
  - apply string_sort_unique. eapply concat_restored; [exact HF|]. intros d d' []. done.
  - f_equal. eapply fmap_restored; [exact HF|]. intros d d' []. by rewrite rs_id0, rs_version0.
  - f_equal. eapply fmap_restored; [exact HF|]. intros d d' []. unfold PathService.persistent. by rewrite rs_id0, rs_paths0, rs_seq0.
  - f_equal. eapply fmap_restored; [exact HF|]. intros d d' []. by rewrite rs_id0, rs_roster0.
  - f_equal. eapply omap_restored; [exact HF|]. intros d d' []. unfold pending_of. by rewrite rs_id0, rs_pending0.
Qed.

Lemma restore_ok c f : inv c -> distinct_keys c -> fresh_of c f ->
  exists c', restore_state f (snapshot c) = Ok c' /\ Forall2 restored (domains c) (domains c') /\
    next_node_id c' = next_node_id c /\ revoked c' = revoked c /\
    Directory.endpoints (directory c') = Directory.endpoints (directory c) /\
    Directory.netmap_version (directory c') = Directory.netmap_version (directory c).
Proof.
  intros Hc Hk Hf. unfold restore_state. rewrite decide_False by by apply next_checked.
  rewrite (nodes_checked c Hc f Hk Hf). step. pose proof Hf as [Hds _].
  destruct (restore_domains_ok c Hc _ _ (fun d H => H) Hds) as (l' & -> & HF). step.
  eexists. split; [reflexivity|]. cbn. split_and!; try done; [apply list_to_map_sort|apply endpoints_restored].
Qed.

Lemma node_entry_restored c c' n : inv c -> inv c' -> Forall2 restored (domains c) (domains c') ->
  node_entry c' n = node_entry c n.
Proof.
  intros Hc Hc' HF.
  assert (Hfwd : forall e, node_entry c n = Some e -> node_entry c' n = Some e).
  { intros e (d & Hd & He)%(node_entry_iff c n e Hc). apply (node_entry_iff c' n e Hc').
    apply list_elem_of_lookup_1 in Hd as [i Hi]. destruct (Forall2_lookup_l _ _ _ _ _ HF Hi) as (d' & Hd' & []).
    exists d'. split; [by eapply list_elem_of_lookup_2|]. unfold entry in *. congruence. }
  destruct (node_entry c n) as [e|] eqn:E; [auto|]. apply (node_entry_None c' n Hc'). intros d' Hd'.
  apply list_elem_of_lookup_1 in Hd' as [i Hi]. destruct (Forall2_lookup_r _ _ _ _ _ HF Hi) as (d & Hd & []).
  unfold entry. rewrite rs_entries0. apply list_elem_of_lookup_2 in Hd.
  exact (proj1 (node_entry_None c n Hc) E d Hd).
Qed.

(** C7: the durable state survives.  Restoring the snapshot of a coordinator whose
    nodes have distinct static keys, into a fresh one with the same networks,
    succeeds and gives a coordinator in a consistent state, with the same nodes
    and tombstones, whose snapshot is the one restored. *)
Theorem snapshot_restore (c f : Coordinator) (Hc : inv c) (Hk : distinct_keys c) (Hf : fresh_of c f) :
  exists c', restore_state f (snapshot c) = Ok c' /\ inv c' /\ snapshot c' = snapshot c /\
    forall n, node_entry c' n = node_entry c n /\ revocation_of c' n = revocation_of c n.
Proof.
  destruct (restore_ok c f Hc Hk Hf) as (c' & Hr & HF & En & Er & Ee & Ev).
  assert (Hc' : inv c') by by eapply inv_restored. exists c'. split_and!; [done..|by apply snapshot_restored|].
  intros n. split; [by apply node_entry_restored|]. unfold revocation_of. by rewrite Er.
Qed.

Lemma check_nodes_dup f l : forall ids pks n n' e e', l !! n = Some e -> l !! n' = Some e' -> n <> n' ->
  Registry.static_pubkey e = Registry.static_pubkey e' -> check_nodes f ids pks l <> Ok tt.
Proof.
  assert (Hin : forall l ids pks n, n ∈ l -> Registry.static_pubkey n ∈ pks -> check_nodes f ids pks l <> Ok tt).
  { clear l. induction l as [|x l IH]; intros ids pks n Hn Hp; [by inversion Hn|]. cbn.
    destruct (decide _); [done|]. destruct (decide _) as [|Hx]; [done|]. destruct (domain_by_network_id _ _); [|done].
    apply elem_of_cons in Hn as [->|Hn]; [done|]. eapply IH; [exact Hn|]. set_solver. }
  induction l as [|x l IH]; intros ids pks n n' e e' Hn Hn' Hne E; [done|]. cbn.
  destruct (decide _); [done|]. destruct (decide _) as [|Hx]; [done|]. destruct (domain_by_network_id _ _); [|done].
  destruct n as [|n], n' as [|n']; [done| | |].
  - injection Hn as ->. apply (Hin l _ _ e'); [by eapply list_elem_of_lookup_2|]. rewrite <- E. set_solver.
  - injection Hn' as ->. apply (Hin l _ _ e); [by eapply list_elem_of_lookup_2|]. rewrite E. set_solver.
  - apply (IH _ _ n n' e e'); [exact Hn|exact Hn'|congruence|exact E].
Qed.

(** The same static key may be registered in two networks, but the snapshot of
    such a coordinator cannot be restored, whatever networks are configured. *)
Theorem shared_key_unrestorable (c f : Coordinator) (n n' : Z) (e e' : Registry.NodeEntry)
  (Hc : inv c) (He : node_entry c n = Some e) (He' : node_entry c n' = Some e') (Hne : n <> n')
  (Hpk : Registry.static_pubkey e = Registry.static_pubkey e') :
  ok (restore_state f (snapshot c)) = None.
Proof.
  assert (Hel : forall m x, node_entry c m = Some x -> Registry.node_id x = m /\ x ∈ nodes (snapshot c)).
  { intros m x (d & Hd & Hx)%(node_entry_iff c m x Hc).
    destruct (Registry.wf_entry _ (do_registry _ _ (in_domains c Hc d Hd)) m x Hx) as [Hm _]. split; [done|].
    unfold snapshot. cbn [nodes]. apply elem_of_sort, (elem_of_all_nodes c Hc). exists d. by rewrite Hm. }
  destruct (Hel n e He) as [Hn [i Hi]%list_elem_of_lookup_1]. destruct (Hel n' e' He') as [Hn' [j Hj]%list_elem_of_lookup_1].
  unfold restore_state. destruct (decide _); [done|].
  destruct (check_nodes _ _ _ _) as [[]|x|] eqn:E; [|done..].
  destruct (check_nodes_dup f (nodes (snapshot c)) ∅ ∅ i j e e' Hi Hj); [|done|done].
  intros ->. rewrite Hj in Hi. injection Hi as ->. congruence.
Qed.
End Trip.

(** ** The state machine's properties *)

Lemma fresh_domains cfg : domains (fresh_coordinator cfg)
  = (fun '(nm, mk) => domain_new nm (network_id_for nm) mk) <$> networks cfg /\
  liveness (fresh_coordinator cfg) = Liveness.new /\ directory (fresh_coordinator cfg) = Directory.new /\
  telemetry (fresh_coordinator cfg) = ∅.
Proof.
  unfold fresh_coordinator. induction (networks cfg) as [|[nm mk] l IH] using rev_ind; [done|].
  rewrite foldl_app, fmap_app. destruct IH as (<- & H2 & H3 & H4). by cbn.
Qed.

Lemma fresh_of_config c cfg : inv c -> (networks cfg).*1 = name <$> domains c -> fresh_of c (fresh_coordinator cfg).
Proof.
  intros Hc Hn. destruct (fresh_domains cfg) as (H1 & H2 & H3 & H4). split; [|done]. rewrite H1.
  assert (Hid : forall d, d ∈ domains c -> network_id d = network_id_for (name d))
    by (intros d Hd; apply (do_id _ _ (in_domains c Hc d Hd))).
  clear -Hn Hid. revert Hn Hid. generalize (domains c). induction (networks cfg) as [|[nm mk] l IH]; intros [|d ds] Hn Hid; try done.
  cbn in *. injection Hn as -> Hn. constructor; [exists mk; by rewrite Hid by left|].
  apply IH; [done|]. intros x Hx. apply Hid. by right.
Qed.

(** What restoring leaves as the configuration had it. *)
Lemma restore_domain_config st d d' : restore_domain st d = Ok d' ->
  network_id d' = network_id d /\ name d' = name d /\ acl d' = acl d /\
  Registry.auth_keys (registry d') = Registry.auth_keys (registry d) /\
  Keys.master_key (keys d') = Keys.master_key (keys d).
Proof.
  unfold restore_domain. set (d1 := set_registry d _).
  assert (H1 : Registry.auth_keys (registry d1) = Registry.auth_keys (registry d))
    by (unfold d1; cbn; unfold Registry.restore; by destruct (foldl _ _ _)).
  destruct (find_net _ (key_versions st)) as [v|]; [|done]. step.
  destruct (find_net _ (path_maps st)) as [[l s]|];
    [destruct (build_paths ∅ l) as [m|e|]; [|done..]; step|step];
    destruct (find_net _ (relay_rosters st)) as [r|]; cbn [apply_roster snd];
    destruct (find_net _ (pending_revoke_rotations st)) as [dl|]; intros [= <-]; by cbn.
Qed.

Lemma restore_domains_elem st l l' d' : restore_domains st l = Ok l' -> d' ∈ l' ->
  exists d, d ∈ l /\ restore_domain st d = Ok d'.
Proof.
  revert l'. induction l as [|d l IH]; intros l' H Hd'; cbn in H; [injection H as <-; by inversion Hd'|].
  destruct (restore_domain st d) as [x|e|] eqn:Ex; [|done..]. step in H.
  destruct (restore_domains st l) as [k|e|] eqn:Ek; [|done..]. step in H. injection H as <-.
  apply elem_of_cons in Hd' as [->|Hd']; [exists d; split; [left|done]|].
  destruct (IH k eq_refl Hd') as (y & Hy & ?). exists y. split; [by right|done].
Qed.

Lemma restore_fresh_elem cfg st c d' : restore_state (fresh_coordinator cfg) st = Ok c -> d' ∈ domains c ->
  exists mk, (name d', mk) ∈ networks cfg /\ Keys.master_key (keys d') = mk /\
    acl d' = default_acl /\ Registry.auth_keys (registry d') = ∅.
Proof.
  unfold restore_state. destruct (decide _); [done|]. destruct (check_nodes _ _ _ _) as [u|e|]; [|done..]. step.
  destruct (restore_domains _ _) as [l|e|] eqn:El; [|done..]. step. intros [= <-] Hd'. cbn in Hd'.
  destruct (restore_domains_elem _ _ _ _ El Hd') as (d & Hd & Hr).
  destruct (fresh_domains cfg) as (Hf & _). rewrite Hf in Hd. apply list_elem_of_fmap in Hd as ([nm mk] & -> & Hin).
  apply restore_domain_config in Hr as (_ & Hn & Ha & Hk & Hm). exists mk. cbn in *. rewrite Hn, Ha, Hk, Hm. done.
Qed.

Section Properties.
Context {Membership : Type}.
Context `{W : HashOrder} `{!HashOrderLaws W} `{P : Crypto.Primitives} `{S : Registry.IdentitySigner} `{D : Serde} `{!SerdeLaws D}.
Implicit Types (m : CoordStateMachine (Membership := Membership)).

Lemma transfer_ok m1 m2
  (Hc : inv (coordinator m1)) (Hk : distinct_keys (coordinator m1))
  (Hn : (networks (config m2)).*1 = name <$> domains (coordinator m1)) :
  let '((meta, data), _) := build_snapshot m1 in
  exists m2', install_snapshot m2 meta data = Ok m2' /\
    snapshot (coordinator m2') = snapshot (coordinator m1) /\ last_applied m2' = last_applied m1 /\
    last_membership m2' = last_membership m1 /\ inv (coordinator m2') /\
    forall n, node_entry (coordinator m2') n = node_entry (coordinator m1) n.
Proof.
  cbn. unfold install_snapshot. rewrite from_to_vec. step.
  destruct (restore_ok (coordinator m1) _ Hc Hk (fresh_of_config _ _ Hc Hn)) as (c' & Hr & HF & En & Er & Ee & Ev).
  rewrite Hr. step. eexists. split; [reflexivity|]. set (m := mk_machine _ c' _ _ _ _).
  assert (Hm : coordinator (checkpoint m) = c' /\ last_applied (checkpoint m) = last_applied m1 /\
            last_membership (checkpoint m) = last_membership m1).
  { unfold checkpoint. by destruct (store m). }
  destruct Hm as (-> & -> & ->). assert (Hc' : inv c') by by eapply inv_restored.
  split_and!; [by apply snapshot_restored|done..|]. intros n. by apply node_entry_restored.
Qed.

(** A snapshot built by one replica and installed by another that is
    configured with the same networks arrives: the receiver has the same durable
    state, the same place in the log and the same nodes. *)
Theorem snapshot_transfer m1 m2
  (Hc : inv (coordinator m1)) (Hk : distinct_keys (coordinator m1))
  (Hn : (networks (config m2)).*1 = name <$> domains (coordinator m1)) :
  let '((meta, data), _) := build_snapshot m1 in
  exists m2', install_snapshot m2 meta data = Ok m2' /\
    snapshot (coordinator m2') = snapshot (coordinator m1) /\ last_applied m2' = last_applied m1 /\
    last_membership m2' = last_membership m1 /\ inv (coordinator m2') /\
    forall n, node_entry (coordinator m2') n = node_entry (coordinator m1) n.
Proof. exact (transfer_ok m1 m2 Hc Hk Hn). Qed.

(** A machine opened on the file of a checkpoint is where the checkpoint was. *)
Theorem reopen_checkpoint m
  (Hc : inv (coordinator m)) (Hk : distinct_keys (coordinator m)) (Hs : store m <> None)
  (Hn : (networks (config m)).*1 = name <$> domains (coordinator m)) :
  exists file m', store (checkpoint m) = Some file /\ open (config m) file = Ok m' /\
    snapshot (coordinator m') = snapshot (coordinator m) /\ last_applied m' = last_applied m /\
    last_membership m' = last_membership m /\ inv (coordinator m').
Proof.
  unfold checkpoint. destruct (store m) as [file|]; [|done].
  exists (Some (mk_disk (snapshot (coordinator m)) (last_applied m) (last_membership m))).
  destruct (restore_ok (coordinator m) _ Hc Hk (fresh_of_config _ _ Hc Hn)) as (c' & Hr & HF & En & Er & Ee & Ev).
  cbn [store]. unfold open. cbn [disk_state]. rewrite Hr. step. eexists. split; [reflexivity|]. split; [reflexivity|]. cbn.
  split_and!; [by apply snapshot_restored|done|done|by eapply inv_restored].
Qed.

(** A replica that has installed a snapshot has lost its configuration: it
    refuses every registration, its access policies are off, and its keys derive
    from the master keys the process was started with. *)
Theorem install_forgets_config m meta data m' (Hi : install_snapshot m meta data = Ok m') :
  (forall k pk caps rs now iss, (register (coordinator m') k pk caps rs now iss).1 = Err Registry.InvalidAuthKey) /\
  (forall net, Acl.enabled (acl_policy_of (coordinator m') net) = false) /\
  (forall d, d ∈ domains (coordinator m') -> (name d, Keys.master_key (keys d)) ∈ networks (config m)).
Proof.
  unfold install_snapshot in Hi. destruct (from_slice data) as [st|]; [|done]. step in Hi.
  destruct (restore_state _ st) as [c|e|] eqn:Er; [|done..]. step in Hi. injection Hi as <-.
  assert (Hm : coordinator (checkpoint (mk_machine (config m) c (store m) (last_log_id meta) (meta_membership meta)
            (Some (meta, data)))) = c) by (unfold checkpoint; cbn; by destruct (store m)). rewrite Hm.
  pose proof (fun d H => restore_fresh_elem (config m) st c d Er H) as Hd. split_and!.
  - intros. unfold register, register_inner. pose proof (parse_auth_key_safe k).
    destruct (AuthKey.parse_auth_key k) as [[[net x] s]|e|]; [|done..]. step.
    destruct (_ && _); [done|]. destruct (existsb _ _) eqn:En; [|done]. cbn [negb].
    destruct (domain_by_name c net) as [d|] eqn:Ed.
    + step. apply find_by_name in Ed as [Hin _]. destruct (Hd d Hin) as (mk & _ & _ & Ha & Hk). rewrite Ha. cbn [Acl.enabled default_acl andb].
      unfold Registry.register. by rewrite Hk.
    + apply existsb_elem in En as (d & Hin & Hp). unfold domain_by_name in Ed. rewrite find_None in Ed. by rewrite Ed in Hp.
  - intros net. unfold acl_policy_of. destruct (domain_by_network_id c net) as [d|] eqn:Ed; [|done].
    apply find_by_id in Ed as [Hin _]. by destruct (Hd d Hin) as (mk & _ & _ & -> & _).
  - intros d Hin. by destruct (Hd d Hin) as (mk & ? & -> & _).
Qed.

(** A command is one of the coordinator's calls. *)
Definition cmd_op (cmd : CoordCommand) (id : LogId) : op :=
  match cmd with
  | CmdRegister k pk caps rs now => Register k pk caps rs now id
  | CmdRevoke n now => Revoke n now id
  | CmdSetEndpoints n l s => SetEndpoints n l s
  | CmdRequestPaths s d mx now => RequestPaths s d mx now
  | CmdSetRelayRoster net r now => ApplyRelayRoster net r now
  | CmdRotateMasterKey net k => RotateMasterKey net k
  | CmdFlushRevokeRotations now => FlushRotations now
  end.

Lemma apply_command_op c cmd id : (apply_command c cmd id).2 = CoordinatorInv.apply c (cmd_op cmd id).
Proof.
  destruct cmd; cbn [apply_command cmd_op CoordinatorInv.apply]; try done.
  - by destruct (register _ _ _ _ _ _ _).
  - by destruct (request_paths _ _ _ _ _).
  - by destruct (apply_relay_roster _ _ _ _).
Qed.

(** Log entries applied in the order of their indices. *)
Definition entry_ok m (e : Entry (Membership := Membership)) : Prop :=
  applied_index m <= (log_id e).1 /\
  match payload e with Normal cmd => op_ok (coordinator m) (cmd_op cmd (log_id e)) | _ => True end.

Inductive logged : CoordStateMachine (Membership := Membership) -> list Entry -> CoordStateMachine -> Prop :=
| logged_nil m : logged m [] m
| logged_cons m e es m' : entry_ok m e -> logged (apply_entry m e).2 es m' -> logged m (e :: es) m'.

Lemma apply_entry_coord m e : coordinator (apply_entry m e).2 =
  match payload e with Normal cmd => CoordinatorInv.apply (coordinator m) (cmd_op cmd (log_id e)) | _ => coordinator m end /\
  applied_index (apply_entry m e).2 = (log_id e).1.
Proof.
  unfold apply_entry. destruct (payload e) as [|cmd|x]; [done| |done].
  rewrite <- apply_command_op. by destruct (apply_command _ _ _).
Qed.

Lemma logged_stable m es m' n e : logged m es m' -> inv (coordinator m) ->
  node_entry (coordinator m) n = Some e \/ is_Some (revoked (coordinator m) !! n) ->
  inv (coordinator m') /\ applied_index m <= applied_index m' /\
  (node_entry (coordinator m') n = Some e \/ is_Some (revoked (coordinator m') !! n)).
Proof.
  induction 1 as [m|m x es m' [Hi Hok] _ IH]; intros Hc He; [done|].
  destruct (apply_entry_coord m x) as [Hx Ha]. rewrite Hx, Ha in IH.
  assert (H1 : inv (match payload x with Normal cmd => CoordinatorInv.apply (coordinator m) (cmd_op cmd (log_id x)) | _ => coordinator m end))
    by (destruct (payload x); [done|by apply coord_apply_inv|done]).
  destruct IH as (H2 & H3 & H4); [exact H1| |split; [done|]; split; [lia|done]].
  destruct (payload x); [done| |done]. destruct He as [He|Hr]; [by apply entry_stable|right; by apply apply_revoked].
Qed.

(** A binding issued through the log is vouched for.  Whatever entries follow
    the one that registered a new node, the audit of the binding it returned
    gives [Verified], until the node is revoked, and [Unknown] from then on. *)
Theorem issued_binding_verified `{!Registry.SignerLaws S} m m1 m2 (id : LogId) (es : list Entry)
  (k : string) (pk : list Z) (caps : Z) (rs : list string) (now : Z) (data : RegisterData)
  (Hc : inv (coordinator m)) (Hroom : next_node_id (coordinator m) < 2 ^ 32 - 1)
  (Ha : apply_entry m (mk_log_entry id (Normal (CmdRegister k pk caps rs now))) = (ResRegister (Ok data), m1))
  (Hnew : rd_node_id data = next_node_id (coordinator m)) (Hl : logged m1 es m2) :
  (audit_binding m2 (rd_node_id data) pk (rd_binding data) (rd_log_id data)).1
  = if decide (is_Some (revoked (coordinator m2) !! rd_node_id data)) then Unknown else Verified.
Proof.
  unfold apply_entry in Ha. cbn [payload log_id apply_command] in Ha.
  destruct (register (coordinator m) k pk caps rs now id) as [r c'] eqn:Er. injection Ha as -> <-.
  unfold register in Er. destruct (register_inner _ _ _ _ _ _ _) as [[data' c1]|e|] eqn:Ei; [|done..].
  injection Er as -> ->.
  apply register_inner_ok in Ei as (Hc' & d & x & s & _ & Hd & _ & _ & _ & e & He & Hpk & _ & _ & Hdata & Hor); [|done..].
  destruct Hor as [(_ & Hlog & Hbind)|Hold].
  2: { destruct (do_entry _ _ (in_domains _ Hc d Hd) _ _ Hold). lia. }
  pose proof (logged_stable _ _ _ _ e Hl Hc' (or_introl He)) as (Hc2 & Hidx & Hst).
  assert (Hrd : rd_binding data = Registry.identity_binding e /\ rd_log_id data = id) by (rewrite Hdata; by cbn).
  destruct Hrd as [Hrb Hrl]. unfold audit_binding, revocation_of, verify_binding. cbn [fst].
  rewrite Hrb, Hbind, Hrl, Registry.verify_sign. cbn [negb].
  destruct (decide (is_Some (revoked (coordinator m2) !! rd_node_id data))) as [Hr|Hr].
  - by rewrite bool_decide_true.
  - rewrite bool_decide_false by done. cbn in Hidx. rewrite bool_decide_false by lia.
    destruct Hst as [-> |]; [|done]. rewrite Hlog, Hpk, Hbind. by rewrite !bool_decide_true.
Qed.

(** Heartbeats are not logged, and yet one that finds a rotation due changes
    the durable key version of the replica that serves it. *)
Theorem heartbeat_rotates_unlogged (c : Coordinator) (d : NetworkDomain) (n now deadline : Z)
  (Hc : inv c) (Hd : d ∈ domains c) (Hp : Keys.pending_revoke_rotation (keys d) = Some deadline) (Hdue : deadline <= now) :
  find_net (network_id d) (key_versions (snapshot c)) = Some (Keys.key_version (keys d)) /\
  find_net (network_id d) (key_versions (snapshot (heartbeat c n now).2)) = Some (wrap 32 (Keys.key_version (keys d) + 1)).
Proof.
  set (kv := fun d => (network_id d, Keys.key_version (keys d))).
  assert (Hkv : forall c', kv <$> domains (heartbeat c' n now).2 = kv <$> domains (flush_revoke_rotations c' now).2).
  { intros c'. unfold heartbeat. destruct (Liveness.sweep _ _ _) as [newly l]. cbn [snd].
    set (c0 := set_liveness _ l).
    transitivity (kv <$> domains (foldl (fun c id => on_node id (drop_routes id) c) c0 newly)); [by destruct (_ || _)|].
    transitivity (kv <$> domains c0); [|done]. generalize c0. induction newly as [|x l' IH]; intros c1; cbn; [done|].
    rewrite IH. unfold on_node. destruct (network_of_node c1 x); [|done]. by apply update_first_map. }
  split; [apply (table_find (fun d => Keys.key_version (keys d))); [by apply in_ids|done]|].
  unfold snapshot. cbn [key_versions]. fold kv. rewrite Hkv.
  set (d' := (flush_domain now d).2).
  assert (Hd' : d' ∈ domains (flush_revoke_rotations c now).2).
  { cbn. rewrite <- list_fmap_compose. by apply (list_elem_of_fmap_2 (snd ∘ flush_domain now)). }
  assert (Hv : network_id d' = network_id d /\ Keys.key_version (keys d') = wrap 32 (Keys.key_version (keys d) + 1)).
  { unfold d', flush_domain, Keys.take_revoke_rotation. rewrite Hp, decide_True by lia. done. }
  destruct Hv as [<- <-]. apply (table_find (fun d => Keys.key_version (keys d))); [|done].
  apply in_ids. by apply inv_flush.
Qed.
End Properties.

(** ** Samples *)

Module ToySerde.
#[export] Instance entry_eq_dec : EqDecision Registry.NodeEntry.
Proof. solve_decision. Defined.
#[export] Instance cand_eq_dec : EqDecision PathService.PathCandidate.
Proof. solve_decision. Defined.
#[export] Instance set_eq_dec : EqDecision PathService.PathSet.
Proof. solve_decision. Defined.
#[export] Instance state_eq_dec : EqDecision CoordState.
Proof. solve_decision. Defined.

#[export] Instance entry_countable : Countable Registry.NodeEntry.
Proof.
  refine (inj_countable' (fun e => (Registry.node_id e, Registry.network_id e, Registry.static_pubkey e,
            Registry.capabilities e, Registry.routes e, Registry.identity_binding e, Registry.binding_log_id e))
    (fun '(a, b, c, d, e, f, g) => Registry.mk_node a b c d e f g) _). by intros [].
Defined.
#[export] Instance cand_countable : Countable PathService.PathCandidate.
Proof.
  refine (inj_countable' (fun x => (PathService.path_id x, PathService.path_epoch x, PathService.hops x, PathService.expires_at x))
    (fun '(a, b, c, d) => PathService.mk_cand a b c d) _). by intros [].
Defined.
#[export] Instance set_countable : Countable PathService.PathSet.
Proof.
  refine (inj_countable' (fun x => (PathService.version x, PathService.candidates x, PathService.max x))
    (fun '(a, b, c) => PathService.mk_set a b c) _). by intros [].
Defined.
#[export] Instance state_countable : Countable CoordState.
Proof.
  refine (inj_countable' (fun x => (schema x, st_next_node_id x, nodes x, consumed_one_time_keys x,
            st_netmap_version x, key_versions x, st_endpoints x, path_maps x, relay_rosters x,
            pending_revoke_rotations x, revoked_nodes x))
    (fun '(a, b, c, d, e, f, g, h, i, j, k) => mk_state a b c d e f g h i j k) _). by intros [].
Defined.

#[export] Instance toy_serde : Serde := {|
  to_vec st := [Zpos (encode st)];
  from_slice l := match l with [Zpos p] => decode p | _ => None end
|}.

#[export] Instance toy_serde_laws : SerdeLaws toy_serde.
Proof. intros st. apply decode_encode. Qed.
End ToySerde.
Import ToySerde.

#[local] Existing Instance Crypto.Toy.toy.
#[local] Existing Instance Registry.toy_signer.
#[local] Existing Instance Registry.toy_signer_laws.

Lemma distinct_keys_nodup c : inv c -> NoDup (Registry.static_pubkey <$> nodes (snapshot c)) -> distinct_keys c.
Proof.
  intros Hc Hn n n' e e' He He' E.
  assert (Hel : forall m x, node_entry c m = Some x -> Registry.node_id x = m /\ x ∈ nodes (snapshot c)).
  { intros m x (d & Hd & Hx)%(node_entry_iff c m x Hc).
    destruct (Registry.wf_entry _ (do_registry _ _ (in_domains c Hc d Hd)) m x Hx) as [Hm _]. split; [done|].
    unfold snapshot. cbn [nodes]. apply elem_of_sort, (elem_of_all_nodes c Hc). exists d. by rewrite Hm. }
  destruct (Hel n e He) as [<- H1], (Hel n' e' He') as [<- H2]. f_equal. by eapply fmap_nodup_eq.
Qed.

Definition sample_config : MachineConfig := mk_config [("lab", replicate 32 1); ("corp", replicate 32 2)].

Lemma sample_inv : inv sample.
Proof. apply coord_reachable_inv, coord_sample_reachable. Qed.

Lemma sample_distinct : distinct_keys sample.
Proof.
  apply distinct_keys_nodup; [exact sample_inv|].
  apply (bool_decide_unpack _). vm_compute. exact I.
Qed.

Lemma sample_names : (networks sample_config).*1 = name <$> domains sample.
Proof. vm_compute. reflexivity. Qed.

Definition sample_machine : CoordStateMachine (Membership := unit) :=
  mk_machine sample_config sample (Some None) (Some (7, 1)) None None.

Lemma snapshot_restore_witness :
  exists c', restore_state (fresh_coordinator sample_config) (snapshot sample) = Ok c' /\ snapshot c' = snapshot sample.
Proof.
  destruct (snapshot_restore sample (fresh_coordinator sample_config) sample_inv sample_distinct
              (fresh_of_config _ _ sample_inv sample_names)) as (c' & H1 & _ & H2 & _). eauto.
Defined.

Definition sample_shared : Coordinator :=
  CoordinatorInv.apply sample (Register (sample_key "corp") (replicate 32 11) 8 [] 2000 (4, 1)).

Lemma sample_shared_inv : inv sample_shared.
Proof. apply coord_apply_inv; [vm_compute; reflexivity|exact sample_inv]. Qed.

Lemma shared_key_unrestorable_witness :
  ok (restore_state (fresh_coordinator sample_config) (snapshot sample_shared)) = None.
Proof.
  assert (E : (Registry.static_pubkey <$> node_entry sample_shared 1, Registry.static_pubkey <$> node_entry sample_shared 4)
              = (Some (replicate 32 11), Some (replicate 32 11))) by (vm_compute; reflexivity).
  destruct (node_entry sample_shared 1) as [e|] eqn:E1; [|discriminate E].
  destruct (node_entry sample_shared 4) as [e'|] eqn:E4; [|discriminate E].
  injection E as H1 H4.
  apply (shared_key_unrestorable sample_shared _ 1 4 e e' sample_shared_inv E1 E4); [lia|congruence].
Defined.

Lemma snapshot_transfer_witness :
  let '((meta, data), _) := build_snapshot sample_machine in
  exists m', install_snapshot (in_memory sample_config : CoordStateMachine (Membership := unit)) meta data = Ok m' /\
    last_applied m' = Some (7, 1).
Proof.
  pose proof (snapshot_transfer sample_machine (in_memory sample_config) sample_inv sample_distinct sample_names) as H.
  destruct (build_snapshot sample_machine) as [[meta data] m]. destruct H as (m' & H1 & _ & H2 & _). eauto.
Defined.

Lemma reopen_checkpoint_witness :
  exists file m', store (checkpoint sample_machine) = Some file /\ open sample_config file = Ok m' /\
    last_applied m' = Some (7, 1).
Proof.
  destruct (reopen_checkpoint sample_machine sample_inv sample_distinct ltac:(discriminate) sample_names)
    as (file & m' & H1 & H2 & _ & H3 & _). eauto.
Defined.

Lemma install_forgets_config_witness :
  (exists id, rd_node_id <$> ok (register sample (sample_key "lab") (replicate 32 31) 0 [] 2000 (8, 1)).1 = Some id) /\
  exists meta data m', install_snapshot sample_machine meta data = Ok m' /\
    (register (coordinator m') (sample_key "lab") (replicate 32 31) 0 [] 2000 (8, 1)).1 = Err Registry.InvalidAuthKey.
Proof.
  split; [exists 4; vm_compute; reflexivity|].
  pose proof (transfer_ok sample_machine sample_machine sample_inv sample_distinct sample_names) as H.
  destruct (build_snapshot sample_machine) as [[meta data] m]. destruct H as (m' & H1 & _).
  exists meta, data, m'. split; [exact H1|].
  exact (proj1 (install_forgets_config sample_machine meta data m' H1) _ _ _ _ _ _).
Defined.

Definition sample_entry : Entry (Membership := unit) :=
  mk_log_entry (8, 1) (Normal (CmdRegister (sample_key "lab") (replicate 32 31) 0 [] 2000)).

Lemma issued_binding_verified_witness :
  exists data m1, apply_entry sample_machine sample_entry = (ResRegister (Ok data), m1) /\
    (audit_binding (apply_entry m1 (mk_log_entry (9, 1) Blank)).2 (rd_node_id data) (replicate 32 31)
       (rd_binding data) (rd_log_id data)).1 = Verified.
Proof.
  destruct (apply_entry sample_machine sample_entry) as [r m1] eqn:E.
  assert (Hd : match r with ResRegister (Ok d) => Some (rd_node_id d) | _ => None end = Some 4 /\
               bool_decide (is_Some (revoked (coordinator m1) !! 4)) = false /\ applied_index m1 = 8).
  { replace r with (apply_entry sample_machine sample_entry).1 by by rewrite E.
    replace m1 with (apply_entry sample_machine sample_entry).2 by by rewrite E.
    split_and!; vm_compute; reflexivity. }
  destruct Hd as (Hd & Hr & Ha). destruct r as [|[data|e|]| | | | | |]; try discriminate Hd. injection Hd as Hd.
  exists data, m1. split; [reflexivity|].
  rewrite (issued_binding_verified sample_machine m1 _ (8, 1) [mk_log_entry (9, 1) Blank] (sample_key "lab")
             (replicate 32 31) 0 [] 2000 data sample_inv ltac:(vm_compute; reflexivity) E).
  - rewrite Hd, decide_False; [reflexivity|]. intros H. by rewrite bool_decide_true in Hr.
  - rewrite Hd. vm_compute. reflexivity.
  - apply logged_cons; [split; [cbn; lia|exact I]|apply logged_nil].
Defined.

Definition sample_revoked : Coordinator := revoke sample 1 2002 (9, 2).

Lemma heartbeat_rotates_unlogged_witness :
  exists id, find_net id (key_versions (snapshot sample_revoked)) = Some 1 /\
    find_net id (key_versions (snapshot (heartbeat sample_revoked 2 2100).2)) = Some 2.
Proof.
  assert (E : (fun d => (Keys.pending_revoke_rotation (keys d), Keys.key_version (keys d))) <$>
                domain_by_name sample_revoked "lab" = Some (Some 2062, 1)) by (vm_compute; reflexivity).
  destruct (domain_by_name sample_revoked "lab") as [d|] eqn:Ed; [|discriminate E].
  injection E as Hp Hv. apply find_by_name in Ed as [Hd _]. exists (network_id d).
  destruct (heartbeat_rotates_unlogged sample_revoked d 2 2100 2062 (inv_revoke _ _ _ _ sample_inv) Hd Hp ltac:(lia)) as [H1 H2].
  rewrite Hv in H1, H2. split; [exact H1|exact H2].
Defined.
End Replica.
