(* ===== verification/Messages.v ===== *)
(** * Control messages and their client (rill-mesh/src/control/{mod,client}.rs)

    The messages of rill-proto/proto/control.proto as records and one inductive
    type [ControlMsg]; how the bytes of a message are laid out is the business of
    the generated code, so a message that it cannot read is [Undecodable].  Then
    the client of a node: the requests it builds ([MeshClient]) and what it makes
    of each message of the coordinator ([read_event]). *)

From S2P Require Import Prelude Crypto Net Route Control AuthKey Dispatch.

Module Messages.
Import Net Route Control.

Definition PROTOCOL_VERSION : Z := 2.
Definition AUDIT_VERDICT_VERIFIED : Z := 0.
Definition AUDIT_VERDICT_CONFLICT : Z := 1.
Definition AUDIT_VERDICT_BEHIND : Z := 2.
Definition AUDIT_VERDICT_UNKNOWN : Z := 3.

(** ** Lists of node ids as bytes *)

Definition hops_bytes (hops : list Z) : list Z := mjoin (be_bytes 4 <$> hops).

(** [as_chunks::<4>].  What is left over is ignored, as in a release build. *)
Fixpoint chunks4 (l : list Z) : list (list Z) :=
  match l with
  | a :: b :: c :: d :: l => [a; b; c; d] :: chunks4 l
  | _ => []
  end.

Definition hops_to_vec (b : list Z) : list Z := be_val <$> chunks4 b.

(** ** Messages *)

Record RegisterRequest := mk_register {
  rq_auth_key : string;
  rq_static_pubkey : list Z;
  rq_capabilities : Z;
  rq_protocol_version : Z;
  rq_hostname : string;
  rq_routes : list string;
  rq_version : string
}.

Record RegisterResponse := mk_response {
  rs_node_id : Z;
  rs_network_id : Z;
  rs_identity_binding : list Z;
  rs_log_index : Z;
  rs_term : Z
}.

Record NetmapEntry := mk_netmap_entry {
  ne_node_id : Z;
  ne_network_id : Z;
  ne_static_pubkey : list Z;
  ne_endpoints : list string;
  ne_capabilities : Z;
  ne_routes : list string;
  ne_protocol_version : Z;
  ne_offline : bool;
  ne_identity_binding : list Z;
  ne_log_index : Z;
  ne_term : Z;
  ne_exit : bool
}.

Record AclRuleMsg := mk_rule_msg { rm_subjects : list string; rm_prefix : string; rm_deny : bool }.
Record AclGroupMsg := mk_group_msg { gm_name : string; gm_node_ids : list Z }.
Record AclPolicyMsg := mk_policy_msg { pm_enabled : bool; pm_rules : list AclRuleMsg; pm_groups : list AclGroupMsg }.

Record NetmapPush := mk_push {
  np_version : Z;
  np_entries : list NetmapEntry;
  np_relay_roster : list Z;
  np_acl : option AclPolicyMsg;
  np_replica_endpoints : list string
}.

Record KeyDist := mk_key_dist { kd_to : Z; kd_key : list Z; kd_key_version : Z; kd_broadcast_key : list Z }.

Record ChallengeMsg := mk_challenge { ch_eph_pub : list Z; ch_nonce : list Z; ch_issued_at : Z; ch_node_id : Z }.

Record CandidatePath := mk_candidate {
  cp_path_id : Z;
  cp_path_epoch : Z;
  cp_hops : list Z;
  cp_expires_at : Z;
  cp_key_path : list Z
}.

(** [PathResponse] and [PathUpdate], which have the same fields. *)
Record PathSetMsg := mk_path_set {
  pu_destination : Z;
  pu_candidates : list CandidatePath;
  pu_version : Z;
  pu_source : Z
}.

Record AuditRequest := mk_audit {
  au_node_id : Z;
  au_static_pubkey : list Z;
  au_binding : list Z;
  au_log_index : Z;
  au_term : Z
}.

Inductive ControlMsg :=
| REGISTER (r : RegisterRequest)
| REGISTER_RESPONSE (r : RegisterResponse)
| NETMAP_PUSH (p : NetmapPush)
| KEY_DIST (k : KeyDist)
| HEARTBEAT (telemetry : option Dispatch.TelemetryPayload)
| LEASE (granted : bool) (expires_at : Z)
| REVOKE (node_id : Z)
| LEADER_REDIRECT (leader_endpoint : string) (raft_term : Z)
| CHALLENGE (c : ChallengeMsg)
| CHALLENGE_ACK (node_id : Z) (tag : list Z)
| ENDPOINT_REPORT (endpoints seen : list string)
| PATH_REQUEST (destination max_candidates : Z)
| PATH_RESPONSE (p : PathSetMsg)
| PATH_UPDATE (p : PathSetMsg)
| PATH_WITHDRAW (destination path_id path_version : Z)
| PATH_PROBE (path_id nonce issued_at : Z)
| PATH_PROBE_RESPONSE (path_id nonce : Z)
| AUDIT_REQUEST (a : AuditRequest)
| AUDIT_RESPONSE (verdict applied_index : Z)
| ROUTE_SYNC (announced : list (string * string)) (withdrawn : list string)
| ROUTE_MAP (version : Z) (entries : list (string * Z * string)).

(** A frame of the channel: a message, or bytes that are not one. *)
Inductive envelope := Decoded (m : ControlMsg) | Undecodable.

(** ** Access rules on the wire *)

Definition subject_of (s : string) : option Acl.AclSubject :=
  match AuthKey.strip_prefix "node:" s with
  | Some id => Acl.Node <$> parse_uint (2 ^ 32 - 1) id
  | None =>
      match AuthKey.strip_prefix "group:" s with
      | Some EmptyString => None
      | Some name => Some (Acl.Group name)
      | None => if bool_decide (s = "any"%string) then Some Acl.Any else None
      end
  end.

Definition rule_of (r : AclRuleMsg) : option Acl.AclRule :=
  prefix ← ok (parse (rm_prefix r));
  let subjects := omap subject_of (rm_subjects r) in
  if bool_decide (subjects = []) && negb (bool_decide (rm_subjects r = [])) then None
  else Some (Acl.mk_rule subjects prefix (if rm_deny r then Acl.Deny else Acl.Allow)).

Definition acl_from_wire (p : AclPolicyMsg) : Acl.AclPolicy :=
  Acl.mk_policy (pm_enabled p) (omap rule_of (pm_rules p))
    (foldl (fun m g => <[gm_name g := hops_to_vec (gm_node_ids g)]> m) ∅ (pm_groups p)).

(** ** Events *)

Record NetmapNode := mk_node {
  n_node_id : Z;
  n_network_id : Z;
  n_static_pubkey : list Z;
  n_endpoints : list string;
  n_capabilities : Z;
  n_routes : list string;
  n_protocol_version : Z;
  n_offline : bool;
  n_identity_binding : list Z;
  n_binding_log_id : Z * Z;
  n_exit : bool
}.

Record NetmapData := mk_netmap {
  nm_version : Z;
  nm_entries : list NetmapNode;
  nm_relay_roster : list Z;
  nm_acl : option Acl.AclPolicy;
  nm_replica_endpoints : list string
}.

Record PathCandidateMsg := mk_path_candidate {
  pc_path_id : Z;
  pc_path_epoch : Z;
  pc_hops : list Z;
  pc_expires_at : Z;
  pc_key_path : list Z
}.

Inductive ControlEvent :=
| Registered (node_id network_id : Z) (identity_binding : list Z) (binding_log_id : Z * Z)
| Netmap (n : NetmapData)
| KeyDistributed (to_node_id : Z) (key : list Z) (key_version : Z) (broadcast_key : list Z)
| Lease (granted : bool) (expires_at : Z)
| Challenged (ack : ControlMsg)
| Revoked (node_id : Z)
| Paths (destination : Z) (candidates : list PathCandidateMsg) (version source : Z)
| PathWithdrawn (destination path_id : Z)
| LeaderRedirect (leader_endpoint : string) (raft_term : Z)
| RouteMapped (version : Z) (entries : list (string * Z * string)).

(** The errors of reading, told apart by what they say. *)
Inductive IoError := BadEnvelope | InvalidTransition | UnexpectedProbe | UnexpectedMessage.

(** ** The client *)

Record MeshLegConfig := mk_leg {
  coordinator_host : string;
  coordinator_port : Z;
  auth_key : string;
  leg_static_key : list Z;
  leg_capabilities : Z;
  announce_routes : list string
}.

Record MeshClient := mk_client { session : Session.ClientSession; static_key : list Z }.

(** [copy_from_slice] into an array of 32 bytes panics on any other length. *)
Definition copy32 {E} (b : list Z) : outcome E (list Z) :=
  if decide (length b = 32%nat) then Ok b else Panic.

Definition netmap_node (e : NetmapEntry) : outcome IoError NetmapNode :=
  pk ← copy32 (ne_static_pubkey e);
  Ok (mk_node (ne_node_id e) (ne_network_id e) pk (ne_endpoints e) (ne_capabilities e) (ne_routes e)
        (ne_protocol_version e) (ne_offline e) (ne_identity_binding e) (ne_log_index e, ne_term e) (ne_exit e)).

Fixpoint netmap_nodes (l : list NetmapEntry) : outcome IoError (list NetmapNode) :=
  match l with
  | [] => Ok []
  | e :: l => n ← netmap_node e; ns ← netmap_nodes l; Ok (n :: ns)
  end.

Definition path_candidate (c : CandidatePath) : PathCandidateMsg :=
  mk_path_candidate (cp_path_id c) (cp_path_epoch c) (hops_to_vec (cp_hops c)) (cp_expires_at c) (cp_key_path c).

Section Client.
Context `{P : Crypto.Primitives}.

Definition client_new (key : list Z) : MeshClient := mk_client Session.new key.

Definition with_node_id (key : list Z) (node_id : Z) : MeshClient :=
  mk_client (Session.restore Session.new node_id) key.

Definition static_pubkey (c : MeshClient) : list Z := Crypto.x25519_base (static_key c).

(** [env!("CARGO_PKG_VERSION")] is the argument [build]. *)
Definition register_request (build : string) (c : MeshClient) (cfg : MeshLegConfig) : ControlMsg :=
  REGISTER (mk_register (auth_key cfg) (static_pubkey c) (leg_capabilities cfg) PROTOCOL_VERSION ""
    (announce_routes cfg) build).

Definition challenge_ack (c : MeshClient) (ch : ChallengeMsg) : outcome IoError ControlMsg :=
  eph ← copy32 (ch_eph_pub ch);
  Ok (CHALLENGE_ACK (ch_node_id ch) (Challenge.compute_tag (static_key c) eph (ch_nonce ch) (ch_node_id ch))).

Definition heartbeat (telemetry : option Dispatch.TelemetryPayload) : ControlMsg := HEARTBEAT telemetry.
Definition path_request (destination : Z) : ControlMsg := PATH_REQUEST destination 4.
Definition route_sync (announced : list (string * string)) (withdrawn : list string) : ControlMsg :=
  ROUTE_SYNC announced withdrawn.
Definition endpoint_report (local_ seen : list string) : ControlMsg := ENDPOINT_REPORT local_ seen.

(** [ControlSession::connect]: the client and the request it starts with. *)
Definition connect (build : string) (cfg : MeshLegConfig) (previous : option Z) : MeshClient * ControlMsg :=
  let c := match previous with
           | Some n => with_node_id (leg_static_key cfg) n
           | None => client_new (leg_static_key cfg)
           end in
  (c, register_request build c cfg).

Definition read_event (c : MeshClient) (e : envelope) : outcome IoError ControlEvent * MeshClient :=
  match e with
  | Undecodable => (Err BadEnvelope, c)
  | Decoded m =>
      match m with
      | REGISTER_RESPONSE r =>
          match Session.handle (session c) (Session.RegisterOk (rs_node_id r)) with
          | (Ok _, s) =>
              (Ok (Registered (rs_node_id r) (rs_network_id r) (rs_identity_binding r) (rs_log_index r, rs_term r)),
               mk_client s (static_key c))
          | (Err _, s) => (Err InvalidTransition, mk_client s (static_key c))
          | (Panic, s) => (Panic, mk_client s (static_key c))
          end
      | NETMAP_PUSH p =>
          (ns ← netmap_nodes (np_entries p);
           Ok (Netmap (mk_netmap (np_version p) ns (np_relay_roster p) (acl_from_wire <$> np_acl p)
                         (np_replica_endpoints p))), c)
      | KEY_DIST k => (Ok (KeyDistributed (kd_to k) (kd_key k) (kd_key_version k) (kd_broadcast_key k)), c)
      | LEASE granted at_ => (Ok (Lease granted at_), c)
      | CHALLENGE ch => (ack ← challenge_ack c ch; Ok (Challenged ack), c)
      | REVOKE n => (Ok (Revoked n), c)
      | PATH_RESPONSE p | PATH_UPDATE p =>
          (Ok (Paths (pu_destination p) (path_candidate <$> pu_candidates p) (pu_version p) (pu_source p)), c)
      | PATH_WITHDRAW d id _ => (Ok (PathWithdrawn d id), c)
      | PATH_PROBE _ _ _ | PATH_PROBE_RESPONSE _ _ => (Err UnexpectedProbe, c)
      | LEADER_REDIRECT ep term => (Ok (LeaderRedirect ep term), c)
      | ROUTE_MAP v es => (Ok (RouteMapped v es), c)
      | _ => (Err UnexpectedMessage, c)
      end
  end.
End Client.

(** [audit_binding]: the one request of a connection of its own, and its reply. *)
Definition audit_request (node_id : Z) (pk binding : list Z) (anchor : Z * Z) : ControlMsg :=
  AUDIT_REQUEST (mk_audit node_id pk binding anchor.1 anchor.2).

Definition audit_reply (e : envelope) : outcome IoError (Z * Z) :=
  match e with
  | Decoded (AUDIT_RESPONSE verdict applied) => Ok (verdict, applied)
  | Decoded _ => Err UnexpectedMessage
  | Undecodable => Err BadEnvelope
  end.

(** ** Lemmas *)

Lemma chunks4_be hops : chunks4 (hops_bytes hops) = be_bytes 4 <$> hops.
Proof.
  induction hops as [|h hops IH]; [done|]. unfold hops_bytes in *. cbn [fmap list_fmap mjoin list_join].
  pose proof (length_be_bytes 4 h) as Hl. destruct (be_bytes 4 h) as [|a [|b [|c [|d [|]]]]]; try done.
  cbn [chunks4 app]. f_equal. exact IH.
Qed.

Lemma hops_roundtrip hops : Forall u32 hops -> hops_to_vec (hops_bytes hops) = hops.
Proof.
  intros H. unfold hops_to_vec. rewrite chunks4_be. induction H as [|h hops Hh _ IH]; [done|]. cbn. rewrite IH.
  f_equal. by apply be_val_be_bytes.
Qed.

End Messages.
