(* ===== verification/Server.v ===== *)
(** * The coordinator's end of the control channel
      (rill-mesh/src/control/server.rs, rill-coord/src/raft/backend.rs)

    [CoordBackend] is the access to the coordinator of one process, alone or as a
    member of a cluster; [handle_message] is what the server does with one
    message of a connection.  The handlers are written in a monad over the state
    of the server, that of the connection, and the messages written so far; an
    error closes the connection.  What comes from outside in one call is the
    record [Env]: clocks, random bytes, the verdicts of the rate limiters, whether
    writing works, and what the consensus library answers. *)

From Stdlib Require Import Ascii.
From S2P Require Import Prelude Crypto Net Probe Route Control Registry Coord PathService RouteMap Coordinator Replica Mesh Dispatch Messages.

Module Server.
Import Net Route Coordinator Replica Messages.

#[local] Existing Instance Acl.AclAction_eq_dec.
#[local] Existing Instance Mesh.IpAddr_countable.

(** ** The backend *)

Inductive Leadership := Leader | Follower (leader_endpoint : option string) (term : Z).

Inductive WriteError (E : Type) :=
| Local (e : E)
| Forward (leader_endpoint : option string)
| Raft.
Arguments Local {E}.
Arguments Forward {E}.
Arguments Raft {E}.

Section Handlers.
Context {Membership : Type}.
Context `{W : HashOrder} `{P : Crypto.Primitives} `{S : Registry.IdentitySigner} `{D : Serde}.

(** The answer to a proposal: the entries this replica applied before it, and the
    place of the command in the log; or why there is none. *)
Inductive ClientWrite :=
| Written (before : list (Entry (Membership := Membership))) (id : LogId)
| ForwardToLeader (leader_id : option Z)
| Fatal.

Record Metrics := mk_metrics { current_leader : option Z; current_term : Z }.

(** [members] lists the member table in the order the hash map is walked. *)
Inductive CoordBackend :=
| Single (c : Coordinator)
| Cluster (m : CoordStateMachine (Membership := Membership)) (members : list (Z * string)) (self_id : Z).

Definition coord (b : CoordBackend) : Coordinator :=
  match b with Single c => c | Cluster m _ _ => coordinator m end.

Definition set_coordinator (m : CoordStateMachine (Membership := Membership)) (c : Coordinator) :=
  mk_machine (config m) c (store m) (last_applied m) (last_membership m) (current_snapshot m).

(** [with_coord_mut]: a change that is not in the log. *)
Definition with_coord_mut (f : Coordinator -> Coordinator) (b : CoordBackend) : CoordBackend :=
  match b with
  | Single c => Single (f c)
  | Cluster m ms self => Cluster (set_coordinator m (f (coordinator m))) ms self
  end.

Definition member (ms : list (Z * string)) (id : Z) : option string :=
  snd <$> List.find (fun x => bool_decide (x.1 = id)) ms.

Definition leadership (b : CoordBackend) (x : Metrics) : Leadership :=
  match b with
  | Single _ => Leader
  | Cluster _ ms self =>
      match current_leader x with
      | Some id => if decide (id = self) then Leader else Follower (member ms id) (current_term x)
      | None => Follower None (current_term x)
      end
  end.

Definition backend_applied_index (b : CoordBackend) : Z :=
  match b with Single _ => 2 ^ 64 - 1 | Cluster m _ _ => applied_index m end.

Definition replica_endpoints (b : CoordBackend) : list string :=
  match b with Single _ => [] | Cluster _ ms _ => ms.*2 end.

Definition backend_audit (b : CoordBackend) (node_id : Z) (pk binding : list Z) (anchor : Z * Z) : AuditVerdict * Z :=
  match b with
  | Cluster m _ _ => audit_binding m node_id pk binding anchor
  | Single c =>
      (if negb (verify_binding node_id pk binding anchor) then Unknown
       else if bool_decide (is_Some (revocation_of c node_id)) then Unknown
       else if bool_decide (anchor.1 > 2 ^ 64 - 1) then Behind
       else match node_entry c node_id with
            | Some e =>
                if bool_decide (Registry.binding_log_id e = anchor) && bool_decide (Registry.static_pubkey e = pk)
                   && bool_decide (Registry.identity_binding e = binding)
                then Verified else Conflict
            | None => Conflict
            end, 2 ^ 64 - 1)
  end.

(** [propose], for a cluster: the result of the command, or the error. *)
Definition propose (m : CoordStateMachine (Membership := Membership)) (ms : list (Z * string)) (w : ClientWrite) (cmd : CoordCommand)
    : (CoordCommandResult + WriteError Empty_set) * CoordStateMachine (Membership := Membership) :=
  match w with
  | Written before id =>
      let m := (apply_entries m before).2 in
      let '(r, m) := apply_entry m (mk_log_entry id (Normal cmd)) in (inl r, m)
  | ForwardToLeader l => (inr (Forward (l ≫= member ms)), m)
  | Fatal => (inr Raft, m)
  end.

Definition into_err {E} (e : WriteError Empty_set) : WriteError E :=
  match e with Local i => match i with end | Forward l => Forward l | Raft => Raft end.

Definition register (b : CoordBackend) (w : ClientWrite) (auth_key : string) (pk : list Z) (caps : Z) (routes : list string) (now : Z)
    : outcome (WriteError Registry.RegisterError) RegisterData * CoordBackend :=
  match b with
  | Single c =>
      let '(r, c) := Coordinator.register c auth_key pk caps routes now (0, 0) in (map_err Local r, Single c)
  | Cluster m ms self =>
      let '(r, m) := propose m ms w (CmdRegister auth_key pk caps routes now) in
      (match r with
       | inl (ResRegister r) => map_err Local r
       | inl _ => Err Raft
       | inr e => Err (into_err e)
       end, Cluster m ms self)
  end.

Definition backend_revoke (b : CoordBackend) (w : ClientWrite) (node_id now : Z) : outcome (WriteError bool) bool * CoordBackend :=
  match b with
  | Single c => (Ok (bool_decide (is_Some (static_pubkey_of c node_id))), Single (revoke c node_id now (0, 0)))
  | Cluster m ms self =>
      let '(r, m) := propose m ms w (CmdRevoke node_id now) in
      (match r with
       | inl (ResRevoke hit) => Ok hit
       | inl _ => Err Raft
       | inr e => Err (into_err e)
       end, Cluster m ms self)
  end.

Definition backend_set_endpoints (b : CoordBackend) (w : ClientWrite) (node_id : Z) (local_ seen : list string)
    : outcome (WriteError unit) unit * CoordBackend :=
  match b with
  | Single c => (Ok tt, Single (set_endpoints c node_id local_ seen))
  | Cluster m ms self =>
      let '(r, m) := propose m ms w (CmdSetEndpoints node_id local_ seen) in
      (match r with
       | inl ResSetEndpoints => Ok tt
       | inl _ => Err Raft
       | inr e => Err (into_err e)
       end, Cluster m ms self)
  end.

Definition backend_apply_roster (b : CoordBackend) (w : ClientWrite) (network_id : Z) (roster : list Z) (now : Z)
    : outcome (WriteError bool) bool * CoordBackend :=
  match b with
  | Single c => let '(x, c) := apply_relay_roster c network_id roster now in (Ok x, Single c)
  | Cluster m ms self =>
      let '(r, m) := propose m ms w (CmdSetRelayRoster network_id roster now) in
      (match r with
       | inl (ResSetRelayRoster x) => Ok x
       | inl _ => Err Raft
       | inr e => Err (into_err e)
       end, Cluster m ms self)
  end.

Definition backend_request_paths (b : CoordBackend) (w : ClientWrite) (source dest max now : Z)
    : outcome (WriteError unit) (list (PathService.PathCandidate * list Z)) * CoordBackend :=
  match b with
  | Single c => let '(l, c) := request_paths c source dest max now in (Ok l, Single c)
  | Cluster m ms self =>
      let '(r, m) := propose m ms w (CmdRequestPaths source dest max now) in
      (match r with
       | inl (ResRequestPaths l) => Ok l
       | inl _ => Err Raft
       | inr e => Err (into_err e)
       end, Cluster m ms self)
  end.

Definition backend_rotate (b : CoordBackend) (w : ClientWrite) (network : string) (key : list Z)
    : outcome (WriteError unit) unit * CoordBackend :=
  match b with
  | Single c => (Ok tt, Single (rotate_master_key c network key))
  | Cluster m ms self =>
      let '(r, m) := propose m ms w (CmdRotateMasterKey network key) in
      (match r with
       | inl ResRotateMasterKey => Ok tt
       | inl _ => Err Raft
       | inr e => Err (into_err e)
       end, Cluster m ms self)
  end.

Definition backend_flush (b : CoordBackend) (w : ClientWrite) (now : Z) : outcome (WriteError bool) bool * CoordBackend :=
  match b with
  | Single c => let '(x, c) := flush_revoke_rotations c now in (Ok x, Single c)
  | Cluster m ms self =>
      let '(r, m) := propose m ms w (CmdFlushRevokeRotations now) in
      (match r with
       | inl (ResFlushRevokeRotations x) => Ok x
       | inl _ => Err Raft
       | inr e => Err (into_err e)
       end, Cluster m ms self)
  end.

(** ** Messages the server builds *)

Definition telemetry_view (t : Dispatch.TelemetryPayload) : TelemetryView :=
  mk_view
    ((fun '(n, p) => mk_peer_traffic n (Mesh.tx_frames p) (Mesh.tx_bytes p) (Mesh.rx_frames p) (Mesh.rx_bytes p))
       <$> Dispatch.tp_peers t)
    (Dispatch.tp_drop_global t)
    ((fun '(n, c) => mk_drop n c) <$> Dispatch.tp_drops t)
    ((fun '(n, ep, rtt) => mk_direct_pair n ep rtt) <$> Dispatch.tp_direct t)
    ((fun p => mk_path_stat (Dispatch.i_peer p) (Dispatch.i_path p) (Dispatch.i_frames p) (Dispatch.i_gap p)
                 (Dispatch.i_reorder p) (Dispatch.i_rtt p)) <$> Dispatch.tp_paths t)
    0.

Definition subject_msg (s : Acl.AclSubject) : string :=
  match s with
  | Acl.Any => "any"
  | Acl.Node id => "node:" +:+ dec id
  | Acl.Group name => "group:" +:+ name
  end.

Definition rule_msg (r : Acl.AclRule) : AclRuleMsg :=
  mk_rule_msg (subject_msg <$> Acl.subjects r) (to_cidr (Acl.object r)) (bool_decide (Acl.action r = Acl.Deny)).

(** The groups are written in the order the hash map is walked. *)
Definition acl_policy_message (p : Acl.AclPolicy) (order : list (string * list Z)) : AclPolicyMsg :=
  mk_policy_msg (Acl.enabled p) (rule_msg <$> Acl.rules p)
    ((fun '(n, ids) => mk_group_msg n (hops_bytes ids)) <$> order).

Definition netmap_entry (i : NodeInfo) : NetmapEntry :=
  mk_netmap_entry (ni_node_id i) (ni_network_id i) (ni_static_pubkey i) (ni_endpoints i) (ni_capabilities i)
    (ni_routes i) (ni_protocol_version i) (ni_offline i) (ni_identity_binding i) (ni_binding_log_id i).1
    (ni_binding_log_id i).2 (ni_exit i).

Definition netmap_push_message (c : Coordinator) (network_id : Z) (replicas : list string)
    (walk_groups : gmap string (list Z) -> list (string * list Z)) : NetmapPush :=
  let acl := acl_policy_of c network_id in
  mk_push (netmap_version c) (netmap_entry <$> netmap_snapshot c network_id) (relay_roster_for c network_id)
    (Some (acl_policy_message acl (walk_groups (Acl.groups acl)))) replicas.

Definition key_dist_message (c : Coordinator) (node_id : Z) : option KeyDist :=
  (fun d => mk_key_dist (Coordinator.to_node_id d) (Coordinator.kd_key d) (Coordinator.kd_version d) (default [] (Coordinator.kd_broadcast d))) <$> key_dist c node_id.

Definition candidate_msg (c : Coordinator) (source : Z) (x : PathService.PathCandidate) : CandidatePath :=
  mk_candidate (PathService.path_id x) (PathService.path_epoch x) (hops_bytes (PathService.hops x))
    (PathService.expires_at x) (key_path_for c source (PathService.path_id x) (PathService.path_epoch x)).

Definition path_event_msg (c : Coordinator) (e : PathService.PathEvent) : ControlMsg :=
  match e with
  | PathService.Update src dest set =>
      PATH_UPDATE (mk_path_set dest (candidate_msg c src <$> PathService.candidates set) (PathService.version set) src)
  | PathService.Withdraw dest id => PATH_WITHDRAW dest id 0
  end.

Definition route_map_msg (v : Z) (es : list RouteMap.RouteMapSnapshotEntry) : ControlMsg :=
  ROUTE_MAP v ((fun e => (to_cidr (RouteMap.prefix e), RouteMap.node_id e, RouteMap.next_hop e)) <$> es).

(** ** State *)

Definition REGISTER_LOCKOUT_FAILS : Z := 5.
Definition REGISTER_LOCKOUT_BASE : Z := 30 * 1000000000.
Definition REGISTER_LOCKOUT_MAX : Z := 3600 * 1000000000.
Definition HEARTBEAT_MIN_INTERVAL : Z := 5 * 1000000000.

Record PendingRegister := mk_pending {
  p_auth_key : string;
  p_capabilities : Z;
  p_routes : list string;
  p_protocol_version : Z;
  p_version : string;
  p_resume : bool
}.

Record ChallengeState := mk_challenge_state {
  c_eph_priv : list Z;
  c_nonce : list Z;
  c_issued_at : Z;
  c_node_id : Z;
  c_pubkey : list Z;
  c_pending : PendingRegister
}.

(** The token buckets of the server and the connection are in [Env]. *)
Record CoordinatorServer := mk_server {
  backend : CoordBackend;
  register_rejected : Rate.RateCounter;
  rate_limited : Rate.RateCounter;
  register_lockout : gmap IpAddr (Z * Z);
  heartbeat_min_interval : Z;
  drop_first_register_response : bool
}.

Record ConnectionState := mk_conn {
  registered : option Z;
  challenge : option ChallengeState;
  last_heartbeat : option Z
}.

Definition conn_default : ConnectionState := mk_conn None None None.

Definition server_new (b : CoordBackend) (now : Z) : CoordinatorServer :=
  mk_server b (Rate.new 1000000000 now) (Rate.new 1000000000 now) ∅ HEARTBEAT_MIN_INTERVAL false.

Definition arm_drop_first_register_response (s : CoordinatorServer) : CoordinatorServer :=
  mk_server (backend s) (register_rejected s) (rate_limited s) (register_lockout s) (heartbeat_min_interval s) true.

Record Env := mk_env {
  now : Z;                 (* monotonic, nanoseconds *)
  unix : Z;
  peer_ip : option IpAddr;
  msg_token : bool;
  register_allow : bool;
  eph_priv : list Z;
  nonce : list Z;
  write_ok : nat -> bool;  (* does the n-th write of the call work *)
  metrics : Metrics;
  client_write : ClientWrite;
  metrics_after : Metrics; (* after the proposal *)
  walk_groups : gmap string (list Z) -> list (string * list Z);
  walk_routes : RouteMap.RouteMapService -> list (RouteMap.Key * string)
}.

Inductive ServerError :=
| RateExceeded
| RegisterLocked
| RegisterRateLimited
| Decode
| VersionMismatch
| InvalidAuthKey
| UnexpectedAck
| UnknownNode
| PubkeyMismatch
| ChallengeFailed
| RegistrationChanged
| BindingMissing
| ResponseDropped
| AdmissionFailed (e : Registry.RegisterError)
| RaftUnavailable
| NotRegistered
| BadPrefix
| WriteFailed.

(** ** The monad *)

Record St := mk_st { srv : CoordinatorServer; conn : ConnectionState; out : list ControlMsg }.

Definition M (A : Type) : Type := St -> outcome ServerError A * St.

#[local] Instance M_ret : MRet M := fun A a s => (Ok a, s).
#[local] Instance M_bind : MBind M := fun A B f m s =>
  match m s with
  | (Ok a, s) => f a s
  | (Err e, s) => (Err e, s)
  | (Panic, s) => (Panic, s)
  end.

Definition fail {A} (e : ServerError) : M A := fun s => (Err e, s).
Definition lift {A} (o : outcome ServerError A) : M A := fun s => (o, s).
Definition gets {A} (f : St -> A) : M A := fun s => (Ok (f s), s).
Definition modify (f : St -> St) : M unit := fun s => (Ok tt, f s).
Definition require (b : bool) (e : ServerError) : M unit := if b then mret tt else fail e.

Definition set_srv (x : CoordinatorServer) (s : St) : St := mk_st x (conn s) (out s).
Definition set_conn (x : ConnectionState) (s : St) : St := mk_st (srv s) x (out s).
Definition set_backend (b : CoordBackend) (s : CoordinatorServer) : CoordinatorServer :=
  mk_server b (register_rejected s) (rate_limited s) (register_lockout s) (heartbeat_min_interval s) (drop_first_register_response s).
Definition set_lockout (l : gmap IpAddr (Z * Z)) (s : CoordinatorServer) : CoordinatorServer :=
  mk_server (backend s) (register_rejected s) (rate_limited s) l (heartbeat_min_interval s) (drop_first_register_response s).

Definition read_coord {A} (f : Coordinator -> A) : M A := gets (fun s => f (coord (backend (srv s)))).
Definition mut_coord (f : Coordinator -> Coordinator) : M unit :=
  modify (fun s => set_srv (set_backend (with_coord_mut f (backend (srv s))) (srv s)) s).

Definition tick_rejected : M unit := modify (fun s =>
  let x := srv s in
  set_srv (mk_server (backend x) (Rate.tick (register_rejected x)) (rate_limited x) (register_lockout x)
             (heartbeat_min_interval x) (drop_first_register_response x)) s).
Definition tick_limited : M unit := modify (fun s =>
  let x := srv s in
  set_srv (mk_server (backend x) (register_rejected x) (Rate.tick (rate_limited x)) (register_lockout x)
             (heartbeat_min_interval x) (drop_first_register_response x)) s).

(** ** Failed registrations *)

Definition register_locked (s : CoordinatorServer) (ip : IpAddr) (now : Z) : bool :=
  match register_lockout s !! ip with Some (_, until_) => bool_decide (now < until_) | None => false end.

Definition note_register_failure (s : CoordinatorServer) (ip : IpAddr) (now : Z) : CoordinatorServer :=
  let fails := match register_lockout s !! ip with Some (f, _) => sat_add 32 f 1 | None => 1 end in
  let until_ :=
    if decide (REGISTER_LOCKOUT_FAILS <= fails) then
      let shift := Z.min (fails - REGISTER_LOCKOUT_FAILS) 7 in
      now + Z.min (REGISTER_LOCKOUT_BASE * 2 ^ shift) REGISTER_LOCKOUT_MAX
    else now in
  set_lockout (<[ip := (fails, until_)]> (register_lockout s)) s.

(** ** Handlers *)

Section Call.
Context (e : Env).

Definition write (m : ControlMsg) : M unit := fun s =>
  if write_ok e (length (out s)) then (Ok tt, mk_st (srv s) (conn s) (out s ++ [m])) else (Err WriteFailed, s).

Fixpoint write_all (ms : list ControlMsg) : M unit :=
  match ms with [] => mret tt | m :: ms => _ ← write m; write_all ms end.

Definition note_failure : M unit := modify (fun s =>
  match peer_ip e with Some ip => set_srv (note_register_failure (srv s) ip (now e)) s | None => s end).

Definition lead (x : Metrics) : M Leadership := gets (fun s => leadership (backend (srv s)) x).

Definition write_leader_redirect (l : Leadership) : M unit :=
  match l with
  | Leader => mret tt
  | Follower ep term => write (LEADER_REDIRECT (default ""%string ep) term)
  end.

Definition push_snapshot (network_id : Z) : M unit :=
  replicas ← gets (fun s => replica_endpoints (backend (srv s)));
  push ← read_coord (fun c => netmap_push_message c network_id replicas (walk_groups e));
  _ ← write (NETMAP_PUSH push);
  ids ← read_coord (fun c => ni_node_id <$> netmap_snapshot c network_id);
  dists ← read_coord (fun c => omap (key_dist_message c) ids);
  write_all (KEY_DIST <$> dists).

Definition push_path_events (source : Z) : M unit :=
  events ← read_coord (fun c => (take_path_events c source).1);
  _ ← mut_coord (fun c => (take_path_events c source).2);
  msgs ← read_coord (fun c => path_event_msg c <$> events);
  write_all msgs.

Definition push_route_map (node : Z) : M unit :=
  let order c := match domain_of_node c node with Some d => walk_routes e (route_map d) | None => [] end in
  push ← read_coord (fun c => (take_route_map_push c node (order c)).1);
  _ ← mut_coord (fun c => (take_route_map_push c node (order c)).2);
  match push with
  | Some (v, es) => write (route_map_msg v es)
  | None => mret tt
  end.

(** *** Registration *)

Definition admission_gate : M unit :=
  match peer_ip e with
  | None => mret tt
  | Some ip =>
      locked ← gets (fun s => register_locked (srv s) ip (now e));
      if (locked : bool) then _ ← tick_limited; fail RegisterLocked
      else if register_allow e then mret tt
      else _ ← tick_limited; fail RegisterRateLimited
  end.

Definition requested_routes (r : RegisterRequest) : list string :=
  if bool_decide (rq_routes r = [])
  then List.filter (fun s => negb (bool_decide (s = ""%string))) (split "," (rq_hostname r))
  else rq_routes r.

(** [None]: the body is not a request. *)
Definition on_register (r : option RegisterRequest) : M unit :=
  l ← lead (metrics e);
  match l with
  | Follower _ _ => write_leader_redirect l
  | Leader =>
      _ ← admission_gate;
      match r with
      | None => fail Decode
      | Some r =>
          if decide (rq_protocol_version r <> PROTOCOL_VERSION) then _ ← tick_rejected; fail VersionMismatch
          else
            pubkey ← lift (copy32 (rq_static_pubkey r));
            let pending := mk_pending (rq_auth_key r) (rq_capabilities r) (requested_routes r) (rq_protocol_version r) (rq_version r) in
            known ← read_coord (fun c => node_id_by_pubkey c pubkey);
            '(node_id, p) ← match known with
              | Some n => mret (n, pending true)
              | None =>
                  good ← read_coord (fun c => auth_key_admissible c (rq_auth_key r) (unix e));
                  if (good : bool) then mret (0, pending false)
                  else _ ← note_failure; fail InvalidAuthKey
              end;
            let ch := mk_challenge_state (eph_priv e) (nonce e) (unix e) node_id pubkey p in
            _ ← write (CHALLENGE (mk_challenge (Crypto.x25519_base (eph_priv e)) (nonce e) (unix e) node_id));
            modify (fun s => set_conn (mk_conn (registered (conn s)) (Some ch) (last_heartbeat (conn s))) s)
      end
  end.

Definition set_registered (n : Z) : M unit := modify (fun s =>
  set_conn (mk_conn (Some n) (challenge (conn s)) (last_heartbeat (conn s))) s).

Definition note_versions (n version : Z) (build : string) : M unit :=
  _ ← mut_coord (fun c => set_protocol_version c n version);
  if decide (build = ""%string) then mret tt else mut_coord (fun c => set_build_version c n build).

(** A known node is back. *)
Definition resume (n : Z) (p : PendingRegister) : M unit :=
  same ← read_coord (fun c => resume_matches c n (p_capabilities p) (p_routes p));
  _ ← require same RegistrationChanged;
  _ ← set_registered n;
  _ ← mut_coord (fun c => (Coordinator.heartbeat c n (unix e)).2);
  _ ← note_versions n (p_protocol_version p) (p_version p);
  network_id ← read_coord (fun c => default 0 (network_id_of c n));
  binding ← read_coord (fun c => b ← identity_binding_of c n; l ← binding_log_id_of c n; Some (b, l));
  match binding with
  | None => fail BindingMissing
  | Some (b, id) =>
      _ ← write (REGISTER_RESPONSE (mk_response n network_id b id.1 id.2));
      push_snapshot network_id
  end.

(** A new node is admitted. *)
Definition admit_node (pk : list Z) (p : PendingRegister) : M unit :=
  b ← gets (fun s => backend (srv s));
  let '(r, b) := register b (client_write e) (p_auth_key p) pk (p_capabilities p) (p_routes p) (unix e) in
  _ ← modify (fun s => set_srv (set_backend b (srv s)) s);
  match r with
  | Ok data =>
      let n := rd_node_id data in
      _ ← modify (fun s => match peer_ip e with
                           | Some ip => set_srv (set_lockout (delete ip (register_lockout (srv s))) (srv s)) s
                           | None => s end);
      _ ← note_versions n (p_protocol_version p) (p_version p);
      dropped ← gets (fun s => drop_first_register_response (srv s));
      if (dropped : bool) then
        _ ← modify (fun s => let x := srv s in
              set_srv (mk_server (backend x) (register_rejected x) (rate_limited x) (register_lockout x)
                         (heartbeat_min_interval x) false) s);
        fail ResponseDropped
      else
        _ ← set_registered n;
        _ ← mut_coord (fun c => (Coordinator.heartbeat c n (unix e)).2);
        _ ← write (REGISTER_RESPONSE (mk_response n (rd_network_id data) (rd_binding data) (rd_log_id data).1 (rd_log_id data).2));
        network_id ← read_coord (fun c => default 0 (network_id_of c n));
        push_snapshot network_id
  | Err (Local x) => _ ← note_failure; _ ← tick_rejected; fail (AdmissionFailed x)
  | Err (Forward _) => l ← lead (metrics_after e); write_leader_redirect l
  | Err Raft => _ ← note_failure; _ ← tick_rejected; fail RaftUnavailable
  | Panic => lift Panic
  end.

Definition on_challenge_ack (tag : list Z) : M unit :=
  pending ← gets (fun s => challenge (conn s));
  match pending with
  | None => fail UnexpectedAck
  | Some ch =>
      _ ← (if p_resume (c_pending ch) then
             stored ← read_coord (fun c => static_pubkey_of c (c_node_id ch));
             match stored with
             | None => fail UnknownNode
             | Some pk => require (bool_decide (pk = c_pubkey ch)) PubkeyMismatch
             end
           else mret tt);
      _ ← require (Challenge.verify_tag (c_pubkey ch) (c_eph_priv ch) (c_nonce ch) (c_node_id ch) tag
                   && Challenge.within_window (c_issued_at ch) (unix e) 30) ChallengeFailed;
      _ ← modify (fun s => set_conn (mk_conn (registered (conn s)) None (last_heartbeat (conn s))) s);
      if p_resume (c_pending ch) then resume (c_node_id ch) (c_pending ch) else admit_node (c_pubkey ch) (c_pending ch)
  end.

(** *** The other messages *)

Definition on_heartbeat (t : option Dispatch.TelemetryPayload) : M unit :=
  reg ← gets (fun s => registered (conn s));
  match reg with
  | None => mret tt
  | Some n =>
      l ← lead (metrics e);
      match l with
      | Follower _ _ => write_leader_redirect l
      | Leader =>
          _ ← match t with
              | Some t => mut_coord (fun c => store_telemetry c n (unix e) (telemetry_view t))
              | None => mret tt
              end;
          early ← gets (fun s => match last_heartbeat (conn s) with
                                 | Some t => bool_decide (sat_sub (now e) t < heartbeat_min_interval (srv s))
                                 | None => false end);
          if (early : bool) then mret tt
          else
            _ ← modify (fun s => set_conn (mk_conn (registered (conn s)) (challenge (conn s)) (Some (now e))) s);
            _ ← mut_coord (fun c => (Coordinator.heartbeat c n (unix e)).2);
            network_id ← read_coord (fun c => default 0 (network_id_of c n));
            _ ← push_snapshot network_id;
            _ ← push_path_events n;
            _ ← push_route_map n;
            write (LEASE true (unix e + 60))
      end
  end.

Definition verdict_code (v : AuditVerdict) : Z :=
  match v with
  | Verified => AUDIT_VERDICT_VERIFIED
  | Conflict => AUDIT_VERDICT_CONFLICT
  | Behind => AUDIT_VERDICT_BEHIND
  | Unknown => AUDIT_VERDICT_UNKNOWN
  end.

Definition on_audit (a : AuditRequest) : M unit :=
  b ← gets (fun s => backend (srv s));
  if bool_decide (length (au_static_pubkey a) <> 32%nat) || bool_decide (length (au_binding a) <> 64%nat)
  then write (AUDIT_RESPONSE AUDIT_VERDICT_UNKNOWN (backend_applied_index b))
  else
    let '(v, applied) := backend_audit b (au_node_id a) (au_static_pubkey a) (au_binding a) (au_log_index a, au_term a) in
    write (AUDIT_RESPONSE (verdict_code v) applied).

Definition redirect_if_forwarded {E A} (r : outcome (WriteError E) A) : M unit :=
  match r with
  | Err (Forward _) => l ← lead (metrics_after e); write_leader_redirect l
  | Panic => lift Panic
  | _ => mret tt
  end.

Definition on_path_request (dest max : Z) : M unit :=
  reg ← gets (fun s => registered (conn s));
  match reg with
  | None => fail NotRegistered
  | Some source =>
      b ← gets (fun s => backend (srv s));
      let '(r, b) := backend_request_paths b (client_write e) source dest max (unix e) in
      _ ← modify (fun s => set_srv (set_backend b (srv s)) s);
      redirect_if_forwarded r
  end.

Definition on_endpoint_report (local_ seen : list string) : M unit :=
  reg ← gets (fun s => registered (conn s));
  match reg with
  | None => mret tt
  | Some n =>
      if bool_decide (local_ = []) && bool_decide (seen = []) then mret tt
      else
        b ← gets (fun s => backend (srv s));
        let '(r, b) := backend_set_endpoints b (client_write e) n local_ seen in
        _ ← modify (fun s => set_srv (set_backend b (srv s)) s);
        redirect_if_forwarded r
  end.

Fixpoint parse_all {A B} (f : A -> outcome PrefixError B) (l : list A) : outcome ServerError (list B) :=
  match l with
  | [] => Ok []
  | x :: l => y ← map_err (fun _ => BadPrefix) (f x); ys ← parse_all f l; Ok (y :: ys)
  end.

Definition on_route_sync (announced : list (string * string)) (withdrawn : list string) : M unit :=
  reg ← gets (fun s => registered (conn s));
  match reg with
  | None => fail NotRegistered
  | Some n =>
      l ← lead (metrics e);
      match l with
      | Follower _ _ => write_leader_redirect l
      | Leader =>
          ann ← lift (parse_all (fun '(p, nh) => x ← parse p; Ok (x, nh)) announced);
          wd ← lift (parse_all parse withdrawn);
          mut_coord (fun c => (apply_route_sync c n ann wd (unix e)).2)
      end
  end.

(** A message as the server gets it: [BadRegister] and [BadBody] are messages of
    a type it reads whose body is not one of that type. *)
Inductive incoming := Good (m : ControlMsg) | BadRegister | BadBody.

Definition dispatch (i : incoming) : M unit :=
  match i with
  | BadRegister => on_register None
  | BadBody => fail Decode
  | Good m =>
      match m with
      | REGISTER r => on_register (Some r)
      | CHALLENGE_ACK _ tag => on_challenge_ack tag
      | HEARTBEAT t => on_heartbeat t
      | AUDIT_REQUEST a => on_audit a
      | PATH_REQUEST dest max => on_path_request dest max
      | ENDPOINT_REPORT l s => on_endpoint_report l s
      | ROUTE_SYNC a w => on_route_sync a w
      | _ => mret tt
      end
  end.

Definition handle_message (i : incoming) : M unit :=
  if msg_token e then dispatch i else _ ← tick_limited; fail RateExceeded.
End Call.
End Handlers.
End Server.
