(* ===== verification/Channel.v ===== *)
(** * Both ends of the control channel

    What the server of [Server] lets a connection do, and what a client of
    [Messages] and the server achieve together. *)

From S2P Require Import Prelude Crypto Net Probe Route Control Registry AuthKey Coord PathService RouteMap Coordinator CoordinatorInv Replica Mesh Dispatch Messages Server.

Module Channel.
Import Net Route Coordinator CoordinatorInv Replica Messages Server.

#[local] Existing Instance Server.M_bind.
#[local] Existing Instance Server.M_ret.

Section Channel.
Context {Membership : Type}.
Context `{W : HashOrder} `{!HashOrderLaws W} `{P : Crypto.Primitives} `{S : Registry.IdentitySigner} `{D : Serde}.

Abbreviation St := (St (Membership := Membership)).
Abbreviation Env := (Env (Membership := Membership)).
Abbreviation CoordBackend := (CoordBackend (Membership := Membership)).

Implicit Types s : St.
Implicit Types e : Env.

(** ** Relations between the states before and after a handler *)

Definition pres {A} (R : St -> St -> Prop) (m : M A) : Prop := forall s, R s (m s).2.

Section Pres.
Context (R : St -> St -> Prop) `{!PreOrder R}.

Lemma pres_ret {A} (a : A) : pres R (mret a).
Proof. intros s. reflexivity. Qed.
Lemma pres_fail {A} x : pres R (fail (A := A) x).
Proof. intros s. reflexivity. Qed.
Lemma pres_lift {A} (o : outcome ServerError A) : pres R (lift o).
Proof. intros s. reflexivity. Qed.
Lemma pres_gets {A} (f : St -> A) : pres R (gets f).
Proof. intros s. reflexivity. Qed.
Lemma pres_read {A} (f : Coordinator -> A) : pres R (read_coord f).
Proof. intros s. reflexivity. Qed.
Lemma pres_modify f : (forall s, R s (f s)) -> pres R (modify f).
Proof. intros H s. apply H. Qed.
Lemma pres_require b x : pres R (require b x).
Proof. destruct b; intros s; reflexivity. Qed.
Lemma pres_bind {A B} (m : M A) (f : A -> M B) : pres R m -> (forall a, pres R (f a)) -> pres R (m ≫= f).
Proof.
  intros Hm Hf s. specialize (Hm s). unfold mbind, M_bind. destruct (m s) as [[a|x|] s1]; cbn in *; [|done..].
  etrans; [exact Hm|apply Hf].
Qed.
Lemma pres_bind_lift {A B} (o : outcome ServerError A) (f : A -> M B) :
  (forall a, o = Ok a -> pres R (f a)) -> pres R (lift o ≫= f).
Proof. intros H s. unfold mbind, M_bind, lift. destruct o as [a|x|]; [by apply H|reflexivity..]. Qed.
End Pres.

(** Running the first step. *)
Lemma run_gets {A B} (f : St -> A) (k : A -> M B) s : (gets f ≫= k) s = k (f s) s.
Proof. done. Qed.
Lemma run_read {A B} (f : Coordinator -> A) (k : A -> M B) s : (read_coord f ≫= k) s = k (f (coord (backend (srv s)))) s.
Proof. done. Qed.
Lemma run_modify {B} f (k : unit -> M B) s : (modify f ≫= k) s = k tt (f s).
Proof. done. Qed.

(** A handler built of steps that are related, by going through its text. *)
Ltac pres_walk leaf :=
  repeat first
    [ progress intros
    | simple apply pres_ret; [typeclasses eauto]
    | simple apply pres_fail; [typeclasses eauto]
    | simple apply pres_lift; [typeclasses eauto]
    | simple apply pres_gets; [typeclasses eauto]
    | simple apply pres_read; [typeclasses eauto]
    | simple apply pres_require; [typeclasses eauto]
    | match goal with
      | |- pres _ (_ ≫= _) =>
          first [simple apply pres_bind_lift; [typeclasses eauto|]|simple apply pres_bind; [typeclasses eauto| |]]
      | |- pres _ (match ?x with _ => _ end) => destruct x
      | |- pres _ (let '(_, _) := ?x in _) => destruct x
      end
    | solve [leaf] ].

(** *** Identity and challenge of the connection are left alone *)

Definition conn_same (s s' : St) : Prop :=
  registered (conn s') = registered (conn s) /\ challenge (conn s') = challenge (conn s).
#[local] Instance conn_same_pre : PreOrder conn_same.
Proof. split; [done|]. intros s1 s2 s3 [] []. split; congruence. Qed.

Lemma mut_conn f : pres conn_same (mut_coord f).
Proof. by apply pres_modify. Qed.
Lemma write_conn e m : pres conn_same (write e m).
Proof. intros s. unfold write. by destruct (write_ok _ _). Qed.
Lemma write_all_conn e ms : pres conn_same (write_all e ms).
Proof. induction ms; cbn [write_all]; pres_walk ltac:(first [apply write_conn|assumption]). Qed.
Lemma tick_conn : pres conn_same tick_limited /\ pres conn_same tick_rejected.
Proof. split; by apply pres_modify. Qed.
Lemma note_failure_conn e : pres conn_same (note_failure e).
Proof. apply pres_modify. intros s. by destruct (peer_ip e). Qed.
Lemma redirect_conn e l : pres conn_same (write_leader_redirect e l).
Proof. destruct l; cbn [write_leader_redirect]; pres_walk ltac:(apply write_conn). Qed.

Ltac conn_leaf := first
  [ simple apply mut_conn | simple apply write_conn | simple apply write_all_conn | simple apply (proj1 tick_conn) | simple apply (proj2 tick_conn)
  | simple apply note_failure_conn | simple apply redirect_conn | simple apply pres_modify; done ].

Lemma push_snapshot_conn e n : pres conn_same (push_snapshot e n).
Proof. unfold push_snapshot. pres_walk conn_leaf. Qed.
Lemma push_path_events_conn e n : pres conn_same (push_path_events e n).
Proof. unfold push_path_events. pres_walk conn_leaf. Qed.
Lemma push_route_map_conn e n : pres conn_same (push_route_map e n).
Proof. unfold push_route_map. pres_walk conn_leaf. Qed.
Lemma versions_conn n v b : pres conn_same (note_versions n v b).
Proof. unfold note_versions. pres_walk conn_leaf. Qed.
Lemma forwarded_conn e {E A} (r : outcome (WriteError E) A) : pres conn_same (redirect_if_forwarded e r).
Proof. unfold redirect_if_forwarded, lead. pres_walk conn_leaf. Qed.
Lemma gate_conn e : pres conn_same (admission_gate e).
Proof. unfold admission_gate. pres_walk conn_leaf. Qed.
Lemma heartbeat_conn e t : pres conn_same (on_heartbeat e t).
Proof.
  unfold on_heartbeat, lead.
  pres_walk ltac:(first [conn_leaf|simple apply push_snapshot_conn|simple apply push_path_events_conn|simple apply push_route_map_conn]).
Qed.

(** The messages that are neither a registration nor its answer. *)
Definition registers (i : incoming) : bool :=
  match i with Good (REGISTER _) | Good (CHALLENGE_ACK _ _) | BadRegister => true | _ => false end.

Lemma dispatch_conn e i : registers i = false -> pres conn_same (dispatch e i).
Proof.
  destruct i as [m| |]; cbn; [|done|intros _; apply pres_fail; apply _].
  destruct m; try done; intros _; cbn; try (apply pres_ret; apply _).
  - apply heartbeat_conn.
  - unfold on_endpoint_report. pres_walk ltac:(first [conn_leaf|simple apply forwarded_conn]).
  - unfold on_path_request. pres_walk ltac:(first [conn_leaf|simple apply forwarded_conn]).
  - unfold on_audit. pres_walk conn_leaf.
  - unfold on_route_sync, lead. pres_walk conn_leaf.
Qed.

(** A registration request leaves at most a challenge behind. *)
Definition challenged e (r : option RegisterRequest) (s s' : St) : Prop :=
  registered (conn s') = registered (conn s) /\
  (challenge (conn s') = challenge (conn s) \/
   exists ch q, challenge (conn s') = Some ch /\ r = Some q /\ c_pubkey ch = rq_static_pubkey q /\
     length (c_pubkey ch) = 32%nat /\ c_eph_priv ch = eph_priv e /\ c_nonce ch = nonce e /\ c_issued_at ch = unix e).
#[local] Instance challenged_pre e r : PreOrder (challenged e r).
Proof.
  split; [by split; auto|]. intros s1 s2 s3 [H1 H2] [H3 H4]. split; [congruence|].
  destruct H4 as [H4|?]; [|auto]. rewrite H4. destruct H2; auto.
Qed.

Lemma conn_challenged {A} e r (m : M A) : pres conn_same m -> pres (challenged e r) m.
Proof. intros H s. destruct (H s). split; auto. Qed.

Lemma register_conn e r : pres (challenged e r) (on_register e r).
Proof.
  unfold on_register, lead. pres_walk ltac:(first
    [apply conn_challenged; conn_leaf|apply conn_challenged, gate_conn]).
  match goal with H : copy32 _ = Ok _ |- _ => unfold copy32 in H; case_decide; [injection H as <-|done] end.
  apply pres_modify. intros s. split; [done|]. right. cbn. eauto 10.
Qed.


(** *** The coordinator changes by its own calls *)

Abbreviation coordinator_of s := (coord (backend (srv s))).

(** Calls that leave the registrations as they are. *)
Definition soft (o : op) : bool := match o with Register _ _ _ _ _ _ | Revoke _ _ _ | AddNetwork _ _ | SetWhitelist _ _ => false | _ => true end.

Inductive soft_step : Coordinator -> Coordinator -> Prop :=
| soft_op c o : soft o = true -> soft_step c (CoordinatorInv.apply c o).

Lemma soft_is_step c c' : rtc soft_step c c' -> rtc step c c'.
Proof.
  induction 1 as [|c1 c2 c3 [c0 o Ho] _ IH]; [reflexivity|]. eapply rtc_l; [|exact IH]. constructor. by destruct o.
Qed.

Lemma soft_keeps c c' n x : rtc soft_step c c' -> inv c -> node_entry c n = Some x -> node_entry c' n = Some x.
Proof.
  induction 1 as [|c1 c2 c3 [c0 o Ho] _ IH]; [done|]. intros Hc Hx.
  assert (Hok : op_ok c0 o) by by destruct o. apply IH; [by apply coord_apply_inv|].
  eapply ents_entry; [exact Hc|by apply coord_apply_inv| |exact Hx].
  pose proof (apply_ents c0 o) as H. by destruct o.
Qed.

Definition softly (s s' : St) : Prop := rtc soft_step (coordinator_of s) (coordinator_of s').
#[local] Instance softly_pre : PreOrder softly.
Proof. split; [intros s; unfold softly; reflexivity|]. intros s1 s2 s3 H1 H2. unfold softly in *. by etrans. Qed.

Lemma coord_mut f (b : CoordBackend) : coord (with_coord_mut f b) = f (coord b).
Proof. by destruct b. Qed.

Lemma mut_soft f o : soft o = true -> (forall c, f c = CoordinatorInv.apply c o) -> pres softly (mut_coord f).
Proof.
  intros Ho Hf. apply pres_modify. intros s. unfold softly. cbn. rewrite coord_mut, Hf. apply rtc_once. by constructor.
Qed.

Lemma same_coord {A} (m : M A) : (forall s, coordinator_of (m s).2 = coordinator_of s) -> pres softly m.
Proof. intros H s. unfold softly. rewrite H. reflexivity. Qed.

Lemma write_soft e m : pres softly (write e m).
Proof. apply same_coord. intros s. unfold write. by destruct (write_ok _ _). Qed.
Lemma write_all_soft e ms : pres softly (write_all e ms).
Proof. induction ms; cbn [write_all]; pres_walk ltac:(first [apply write_soft|assumption]). Qed.
Lemma redirect_soft e l : pres softly (write_leader_redirect e l).
Proof. destruct l; cbn [write_leader_redirect]; pres_walk ltac:(apply write_soft). Qed.
Lemma modify_soft f : (forall s, coordinator_of (f s) = coordinator_of s) -> pres softly (modify f).
Proof. intros H. by apply same_coord. Qed.
Lemma note_failure_soft e : pres softly (note_failure e).
Proof. apply modify_soft. intros s. by destruct (peer_ip e). Qed.

Lemma tick_soft : pres softly tick_limited /\ pres softly tick_rejected.
Proof. split; by apply modify_soft. Qed.

Ltac soft_leaf := first
  [ simple apply (proj1 tick_soft) | simple apply (proj2 tick_soft) | simple apply write_soft | simple apply write_all_soft | simple apply redirect_soft | simple apply note_failure_soft
  | simple apply modify_soft; intros; try done; by repeat case_match ].

Lemma push_snapshot_soft e n : pres softly (push_snapshot e n).
Proof. unfold push_snapshot. pres_walk soft_leaf. Qed.
Lemma push_path_events_soft e n : pres softly (push_path_events e n).
Proof.
  unfold push_path_events. pres_walk ltac:(first [soft_leaf|by apply (mut_soft _ (TakePathEvents n))]).
Qed.
Lemma push_route_map_soft e n : pres softly (push_route_map e n).
Proof.
  unfold push_route_map. pres_walk soft_leaf. intros s. unfold softly. cbn. rewrite coord_mut.
  apply rtc_once, (soft_op _ (TakeRoutePush n _)). done.
Qed.
Lemma heartbeat_call_soft n t : pres softly (mut_coord (fun c => (Coordinator.heartbeat c n t).2)).
Proof. by apply (mut_soft _ (Heartbeat n t)). Qed.
Lemma versions_soft n v b : pres softly (note_versions n v b).
Proof.
  unfold note_versions. pres_walk ltac:(first
    [soft_leaf|by apply (mut_soft _ (SetProtocolVersion n v))|by apply (mut_soft _ (SetBuildVersion n b))]).
Qed.
Lemma gate_soft e : pres softly (admission_gate e).
Proof. unfold admission_gate. pres_walk soft_leaf. Qed.
Lemma register_soft e r : pres softly (on_register e r).
Proof. unfold on_register, lead. pres_walk ltac:(first [soft_leaf|simple apply gate_soft]). Qed.
Lemma resume_soft e n p : pres softly (resume e n p).
Proof.
  unfold resume, set_registered. pres_walk ltac:(first
    [soft_leaf|simple apply heartbeat_call_soft|simple apply versions_soft|simple apply push_snapshot_soft]).
Qed.
Lemma heartbeat_soft e t : pres softly (on_heartbeat e t).
Proof.
  unfold on_heartbeat, lead. pres_walk ltac:(first
    [soft_leaf|simple apply heartbeat_call_soft|simple apply push_snapshot_soft|simple apply push_path_events_soft|simple apply push_route_map_soft
    |by eapply (mut_soft _ (StoreTelemetry _ _ _))]).
Qed.

(** *** Writes that go through the log *)

Abbreviation Machine := (CoordStateMachine (Membership := Membership)).

(** A write finds room for one more node, and entries applied before it are
    commands in the order of the log. *)
Definition room (b : CoordBackend) (w : ClientWrite (Membership := Membership)) : Prop :=
  match b, w with
  | Single c, _ => next_node_id c < 2 ^ 32 - 1
  | Cluster m _ _, Written before id => exists m1, logged m before m1 /\ next_node_id (coordinator m1) < 2 ^ 32 - 1
  | Cluster _ _ _, _ => True
  end.

Lemma logged_apply (m m' : Machine) es : logged m es m' ->
  (apply_entries m es).2 = m' /\ rtc step (coordinator m) (coordinator m').
Proof.
  induction 1 as [m|m x es m' [_ Hok] _ [IH1 IH2]]; [done|]. cbn. destruct (apply_entry_coord m x) as [Hx _].
  destruct (apply_entry m x) as [r m1]. cbn in *. destruct (apply_entries m1 es) as [rs m2]. split; [done|].
  rewrite Hx in IH2. destruct (payload x); [done| |done]. eapply rtc_l; [|exact IH2]. by constructor.
Qed.

Lemma propose_steps (m : Machine) ms w cmd : room (Cluster m ms 0) w ->
  rtc step (coordinator m) (coordinator (propose m ms w cmd).2).
Proof.
  destruct w as [before id|l|]; cbn [propose room snd]; [|reflexivity..]. intros (m1 & Hl & Hn).
  apply logged_apply in Hl as [-> Hs]. etrans; [exact Hs|]. apply rtc_once.
  pose proof (apply_entry_coord m1 (mk_log_entry id (Normal cmd))) as [Hx _].
  destruct (apply_entry m1 _) as [r m2]. cbn [payload log_id snd] in *. rewrite Hx. constructor. by destruct cmd.
Qed.

Lemma register_backend_ok (b b' : CoordBackend) w k pk caps rs now data : inv (coord b) -> room b w ->
  register b w k pk caps rs now = (Ok data, b') ->
  exists x, node_entry (coord b') (rd_node_id data) = Some x /\ Registry.static_pubkey x = pk.
Proof.
  intros Hc Hr. destruct b as [c|m ms self]; cbn in *.
  - unfold Coordinator.register. destruct (register_inner _ _ _ _ _ _ _) as [[d c']|x|] eqn:E; [|done..].
    intros [= -> <-]. apply register_inner_ok in E as (_ & _ & _ & _ & _ & _ & _ & _ & _ & x & Hx & Hpk & _); eauto.
  - destruct w as [before id|l|]; [|done..]. destruct Hr as (m1 & Hl & Hn). cbn [propose].
    apply logged_apply in Hl as [-> Hs]. cbn. unfold Coordinator.register.
    destruct (register_inner _ _ _ _ _ _ _) as [[d c']|x|] eqn:E; [|done..]. intros [= -> <-]. cbn.
    apply register_inner_ok in E as (_ & _ & _ & _ & _ & _ & _ & _ & _ & x & Hx & Hpk & _); eauto using steps_inv.
Qed.

Lemma register_backend_steps (b : CoordBackend) w k pk caps rs now : room b w ->
  rtc step (coord b) (coord (register b w k pk caps rs now).2).
Proof.
  destruct b as [c|m ms self]; cbn; intros Hr.
  - destruct (Coordinator.register _ _ _ _ _ _ _) as [r c'] eqn:E. cbn. apply rtc_once.
    replace c' with (CoordinatorInv.apply c (Register k pk caps rs now (0, 0))) by (cbn; by rewrite E). by constructor.
  - pose proof (propose_steps m ms w (CmdRegister k pk caps rs now) Hr) as H. by destruct (propose _ _ _ _).
Qed.

Lemma paths_backend_steps (b : CoordBackend) w x d mx now : room b w ->
  rtc step (coord b) (coord (backend_request_paths b w x d mx now).2).
Proof.
  destruct b as [c|m ms self]; cbn; intros Hr.
  - destruct (request_paths _ _ _ _ _) as [r c'] eqn:E. cbn. apply rtc_once.
    replace c' with (CoordinatorInv.apply c (RequestPaths x d mx now)) by (cbn; by rewrite E). by constructor.
  - pose proof (propose_steps m ms w (CmdRequestPaths x d mx now) Hr) as H. by destruct (propose _ _ _ _).
Qed.

Lemma endpoints_backend_steps (b : CoordBackend) w n l sn : room b w ->
  rtc step (coord b) (coord (backend_set_endpoints b w n l sn).2).
Proof.
  destruct b as [c|m ms self]; cbn; intros Hr.
  - apply rtc_once. by apply (step_op c (SetEndpoints n l sn)).
  - pose proof (propose_steps m ms w (CmdSetEndpoints n l sn) Hr) as H. by destruct (propose _ _ _ _).
Qed.

Lemma forwarded_soft e {E A} (r : outcome (WriteError E) A) : pres softly (redirect_if_forwarded e r).
Proof. unfold redirect_if_forwarded, lead. pres_walk soft_leaf. Qed.

(** *** Admission *)

(** Becoming the node [n], whose registration stays as it is. *)
Definition becomes n (s s' : St) : Prop :=
  challenge (conn s') = challenge (conn s) /\
  (registered (conn s') = registered (conn s) \/ registered (conn s') = Some n).
#[local] Instance becomes_pre n : PreOrder (becomes n).
Proof.
  split; [by split; auto|]. intros s1 s2 s3 [H1 H2] [H3 H4]. split; [congruence|].
  destruct H4 as [H4|?]; [|auto]. rewrite H4. destruct H2; auto.
Qed.
Lemma conn_becomes {A} n (m : M A) : pres conn_same m -> pres (becomes n) m.
Proof. intros H s. destruct (H s). split; auto. Qed.
Lemma set_registered_becomes n : pres (becomes n) (set_registered n).
Proof. apply pres_modify. intros s. split; [done|]. by right. Qed.

Ltac becomes_leaf := first
  [ simple apply set_registered_becomes
  | simple apply conn_becomes; first [conn_leaf|simple apply versions_conn|simple apply push_snapshot_conn] ].

Lemma resume_becomes e n p : pres (becomes n) (resume e n p).
Proof. unfold resume. pres_walk becomes_leaf. Qed.

(** What follows a successful registration. *)
Definition admitted e (p : PendingRegister) (data : RegisterData) : M unit :=
  let n := rd_node_id data in
  _ ← modify (fun s => match peer_ip e with
                       | Some ip => set_srv (set_lockout (delete ip (register_lockout (srv s))) (srv s)) s
                       | None => s end);
  _ ← note_versions n (p_protocol_version p) (p_version p);
  dropped ← gets (fun s => drop_first_register_response (srv s));
  if (dropped : bool) then
    _ ← modify (fun s => let x := srv s in
          set_srv (mk_server (backend x) (register_rejected x) (rate_limited x) (register_lockout x)
                     (heartbeat_min_interval x) false) s);
    fail ResponseDropped
  else
    _ ← set_registered n;
    _ ← mut_coord (fun c => (Coordinator.heartbeat c n (unix e)).2);
    _ ← write e (REGISTER_RESPONSE (mk_response n (rd_network_id data) (rd_binding data) (rd_log_id data).1 (rd_log_id data).2));
    network_id ← read_coord (fun c => default 0 (network_id_of c n));
    push_snapshot e network_id.

Lemma admitted_becomes e p data : pres (becomes (rd_node_id data)) (admitted e p data).
Proof.
  unfold admitted. pres_walk ltac:(first [becomes_leaf|apply conn_becomes, pres_modify; intros s; by destruct (peer_ip e)]).
Qed.
Lemma admitted_soft e p data : pres softly (admitted e p data).
Proof.
  unfold admitted, set_registered. pres_walk ltac:(first
    [soft_leaf|simple apply heartbeat_call_soft|simple apply versions_soft|simple apply push_snapshot_soft]).
Qed.

Lemma admit_eq e pk p s : admit_node e pk p s =
  let '(r, b) := register (backend (srv s)) (client_write e) (p_auth_key p) pk (p_capabilities p) (p_routes p) (unix e) in
  let s1 := set_srv (set_backend b (srv s)) s in
  match r with
  | Ok data => admitted e p data s1
  | Err (Local x) => (_ ← note_failure e; _ ← tick_rejected; fail (AdmissionFailed x)) s1
  | Err (Forward _) => (l ← lead (metrics_after e); write_leader_redirect e l) s1
  | Err Raft => (_ ← note_failure e; _ ← tick_rejected; fail RaftUnavailable) s1
  | Panic => (Panic, s1)
  end.
Proof.
  unfold admit_node. unfold mbind at 1, M_bind at 1. cbn [gets]. destruct (register _ _ _ _ _ _ _) as [r b].
  unfold mbind at 1, M_bind at 1. cbn [modify]. by destruct r as [data|[x|l|]|].
Qed.

(** Admission: the state after it, and whose connection this is. *)
Lemma admit_spec e pk p s : inv (coordinator_of s) -> room (backend (srv s)) (client_write e) ->
  let s' := (admit_node e pk p s).2 in
  rtc step (coordinator_of s) (coordinator_of s') /\ challenge (conn s') = challenge (conn s) /\
  (registered (conn s') = registered (conn s) \/
   exists n, registered (conn s') = Some n /\ static_pubkey_of (coordinator_of s') n = Some pk).
Proof.
  intros Hc Hr. rewrite admit_eq.
  pose proof (register_backend_steps _ _ (p_auth_key p) pk (p_capabilities p) (p_routes p) (unix e) Hr) as Hs.
  destruct (register _ _ _ _ _ _ _) as [r b] eqn:E. cbn [snd] in Hs. set (s1 := set_srv (set_backend b (srv s)) s).
  assert (G : forall (m : M unit), pres conn_same m -> pres softly m ->
    rtc step (coordinator_of s) (coordinator_of (m s1).2) /\ challenge (conn (m s1).2) = challenge (conn s) /\
    (registered (conn (m s1).2) = registered (conn s) \/
     exists n, registered (conn (m s1).2) = Some n /\ static_pubkey_of (coordinator_of (m s1).2) n = Some pk)).
  { intros m H1 H2. destruct (H1 s1) as [? ?]. pose proof (soft_is_step _ _ (H2 s1)). split_and!; [by etrans|done|by left]. }
  destruct r as [data|[x|l|]|].
  - destruct (register_backend_ok _ _ _ _ _ _ _ _ _ Hc Hr E) as (x & Hx & Hpk).
    pose proof (admitted_soft e p data s1) as H2. destruct (admitted_becomes e p data s1) as [Hch Hrg].
    pose proof (soft_is_step _ _ H2). split_and!; [by etrans|done|].
    destruct Hrg as [?|Hrg]; [by left|]. right. exists (rd_node_id data). split; [done|].
    unfold static_pubkey_of. rewrite (soft_keeps _ _ _ x H2); [by cbn; f_equal| |done]. by eapply steps_inv.
  - apply G; pres_walk ltac:(first [conn_leaf|soft_leaf]).
  - apply G; unfold lead; pres_walk ltac:(first [conn_leaf|soft_leaf]).
  - apply G; pres_walk ltac:(first [conn_leaf|soft_leaf]).
  - split_and!; [done..|by left].
Qed.

(** *** The answer to a challenge *)

(** The proof that the answer [tag], arriving at [now], is to the challenge [ch]. *)
Definition answered (ch : ChallengeState) (tag : list Z) (now : Z) : bool :=
  Challenge.verify_tag (c_pubkey ch) (c_eph_priv ch) (c_nonce ch) (c_node_id ch) tag
  && Challenge.within_window (c_issued_at ch) now 30.

Definition drop_challenge (s : St) : St :=
  set_conn (mk_conn (registered (conn s)) None (last_heartbeat (conn s))) s.

Lemma ack_eq e tag s : on_challenge_ack e tag s =
  match challenge (conn s) with
  | None => (Err UnexpectedAck, s)
  | Some ch =>
      let go :=
        if answered ch tag (unix e) then
          (if p_resume (c_pending ch) then resume e (c_node_id ch) (c_pending ch) else admit_node e (c_pubkey ch) (c_pending ch))
            (drop_challenge s)
        else (Err ChallengeFailed, s) in
      if p_resume (c_pending ch) then
        match static_pubkey_of (coordinator_of s) (c_node_id ch) with
        | None => (Err UnknownNode, s)
        | Some pk => if bool_decide (pk = c_pubkey ch) then go else (Err PubkeyMismatch, s)
        end
      else go
  end.
Proof.
  unfold on_challenge_ack. unfold mbind at 1, M_bind at 1. cbn [gets]. destruct (challenge (conn s)) as [ch|]; [|done].
  unfold mbind at 1, M_bind at 1. destruct (p_resume (c_pending ch)) eqn:Er.
  - unfold mbind at 1, M_bind at 1. cbn [read_coord gets].
    destruct (static_pubkey_of _ _) as [pk|]; [|done]. destruct (bool_decide _); [|done]. cbn [require mret M_ret].
    unfold mbind at 1, M_bind at 1. unfold answered. by destruct (_ && _).
  - cbn [mret M_ret]. unfold mbind at 1, M_bind at 1. unfold answered. by destruct (_ && _).
Qed.

(** Whose connection this is after the answer. *)
Lemma ack_spec e tag s : inv (coordinator_of s) -> room (backend (srv s)) (client_write e) ->
  let s' := (on_challenge_ack e tag s).2 in
  rtc step (coordinator_of s) (coordinator_of s') /\
  (challenge (conn s') = challenge (conn s) \/ challenge (conn s') = None) /\
  (registered (conn s') = registered (conn s) \/
   exists n ch, challenge (conn s) = Some ch /\ answered ch tag (unix e) = true /\
     registered (conn s') = Some n /\ static_pubkey_of (coordinator_of s') n = Some (c_pubkey ch)).
Proof.
  intros Hc Hr. cbv zeta. rewrite ack_eq.
  assert (Hidle : forall (x : ServerError), let s' := (Err (A := unit) x, s).2 in
    rtc step (coordinator_of s) (coordinator_of s') /\
    (challenge (conn s') = challenge (conn s) \/ challenge (conn s') = None) /\
    (registered (conn s') = registered (conn s) \/ exists n ch, challenge (conn s) = Some ch /\ answered ch tag (unix e) = true /\
       registered (conn s') = Some n /\ static_pubkey_of (coordinator_of s') n = Some (c_pubkey ch))) by (intros x; split; [reflexivity|]; by split; left).
  destruct (challenge (conn s)) as [ch|] eqn:Ech; [|apply (Hidle UnexpectedAck)]. cbv zeta.
  destruct (p_resume (c_pending ch)).
  - destruct (static_pubkey_of _ _) as [pk|] eqn:Epk; [|apply (Hidle UnknownNode)].
    case_bool_decide as Hpk; [|apply (Hidle PubkeyMismatch)]. destruct (answered ch tag (unix e)) eqn:Ea; [|apply (Hidle ChallengeFailed)]. subst pk.
    pose proof (resume_soft e (c_node_id ch) (c_pending ch) (drop_challenge s)) as H1.
    destruct (resume_becomes e (c_node_id ch) (c_pending ch) (drop_challenge s)) as [H2 H3].
    split; [by apply soft_is_step|]. split; [by right|]. destruct H3 as [H3|H3]; [by left|]. right.
    exists (c_node_id ch), ch. split_and!; try done. unfold static_pubkey_of in *.
    destruct (node_entry (coordinator_of s) (c_node_id ch)) as [x|] eqn:Ex; [|done]. cbn in Epk.
    by rewrite (soft_keeps _ _ _ x H1 Hc Ex).
  - destruct (answered ch tag (unix e)) eqn:Ea; [|apply (Hidle ChallengeFailed)].
    destruct (admit_spec e (c_pubkey ch) (c_pending ch) (drop_challenge s) Hc Hr) as (H1 & H2 & H3).
    split; [done|]. split; [by right|]. destruct H3 as [H3|(n & H3 & H4)]; [by left|]. right. by exists n, ch.
Qed.

(** *** One message *)

Lemma handle_eq e i s : handle_message e i s =
  if msg_token e then dispatch e i s else (Err RateExceeded, (tick_limited (Membership := Membership) s).2).
Proof. unfold handle_message. by destruct (msg_token e). Qed.

Lemma dispatch_steps e i s : inv (coordinator_of s) -> room (backend (srv s)) (client_write e) ->
  rtc step (coordinator_of s) (coordinator_of (dispatch e i s).2).
Proof.
  intros Hc Hr. assert (G : forall m : M unit, pres softly m -> rtc step (coordinator_of s) (coordinator_of (m s).2))
    by (intros m Hm; apply soft_is_step, Hm).
  assert (Hw : forall b' (m : M unit), rtc step (coordinator_of s) (coord b') -> pres softly m ->
    rtc step (coordinator_of s) (coordinator_of (m (set_srv (set_backend b' (srv s)) s)).2)).
  { intros b' m H1 Hm. etrans; [exact H1|]. apply soft_is_step, (Hm (set_srv (set_backend b' (srv s)) s)). }
  destruct i as [m| |]; cbn [dispatch]; [|apply G, register_soft|reflexivity].
  destruct m; try reflexivity.
  - apply G, register_soft.
  - apply G, heartbeat_soft.
  - by destruct (ack_spec e tag s Hc Hr).
  - unfold on_endpoint_report. unfold mbind at 1, M_bind at 1. cbn [gets].
    destruct (registered (conn s)) as [n|]; [|reflexivity]. destruct (_ && _); [reflexivity|].
    unfold mbind at 1, M_bind at 1. cbn [gets].
    pose proof (endpoints_backend_steps _ _ n endpoints seen Hr) as H1. destruct (backend_set_endpoints _ _ _ _ _) as [r b].
    unfold mbind at 1, M_bind at 1. cbn [modify]. apply Hw; [done|apply forwarded_soft].
  - unfold on_path_request. unfold mbind at 1, M_bind at 1. cbn [gets].
    destruct (registered (conn s)) as [n|]; [|reflexivity]. unfold mbind at 1, M_bind at 1. cbn [gets].
    pose proof (paths_backend_steps _ _ n destination max_candidates (unix e) Hr) as H1. destruct (backend_request_paths _ _ _ _ _ _) as [r b].
    unfold mbind at 1, M_bind at 1. cbn [modify]. apply Hw; [done|apply forwarded_soft].
  - apply G. unfold on_audit. pres_walk soft_leaf.
  - apply G. unfold on_route_sync, lead. pres_walk ltac:(first [soft_leaf|by eapply (mut_soft _ (RouteSync _ _ _ _))]).
Qed.

(** *** What a message leads to *)

(** A call of the coordinator, made in the state it has then. *)
Definition Call : Type := Coordinator -> op.

Definition perform (c : Coordinator) (l : list Call) : Coordinator := foldl (fun c k => CoordinatorInv.apply c (k c)) c l.

(** A command that goes through the log: alone it is one call, in a cluster it comes
    after the entries before it, and not at all when there is no place for it. *)
Definition log_calls (b : CoordBackend) (w : ClientWrite (Membership := Membership)) (cmd : CoordCommand) : list Call :=
  match b, w with
  | Single _, _ => [fun _ => cmd_op cmd (0, 0)]
  | Cluster _ _ _, Written before id =>
      omap (fun x => match payload x with Normal cmd => Some (fun _ => cmd_op cmd (log_id x)) | _ => None end) before
      ++ [fun _ => cmd_op cmd id]
  | Cluster _ _ _, _ => []
  end.

Definition version_calls (n : Z) (p : PendingRegister) : list Call :=
  (fun _ => SetProtocolVersion n (p_protocol_version p)) ::
  (if decide (p_version p = ""%string) then [] else [fun _ => SetBuildVersion n (p_version p)]).

(** The calls an answer to the challenge [ch] leads to. *)
Definition ack_calls e (ch : ChallengeState) (s : St) : list Call :=
  let p := c_pending ch in
  if p_resume p then
    let n := c_node_id ch in
    if bool_decide (static_pubkey_of (coordinator_of s) n = Some (c_pubkey ch))
       && resume_matches (coordinator_of s) n (p_capabilities p) (p_routes p)
    then (fun _ => Heartbeat n (unix e)) :: version_calls n p else []
  else
    log_calls (backend (srv s)) (client_write e) (CmdRegister (p_auth_key p) (c_pubkey ch) (p_capabilities p) (p_routes p) (unix e)) ++
    match (register (backend (srv s)) (client_write e) (p_auth_key p) (c_pubkey ch) (p_capabilities p) (p_routes p) (unix e)).1 with
    | Ok data => version_calls (rd_node_id data) p ++ [fun _ => Heartbeat (rd_node_id data) (unix e)]
    | _ => []
    end.

Definition route_order e (n : Z) (c : Coordinator) : list (RouteMap.Key * string) :=
  match domain_of_node c n with Some d => walk_routes e (route_map d) | None => [] end.

(** A heartbeat that comes sooner than it may. *)
Definition early e (s : St) : bool :=
  match last_heartbeat (conn s) with Some t => bool_decide (sat_sub (now e) t < heartbeat_min_interval (srv s)) | None => false end.

Definition leads e (s : St) : bool := match leadership (backend (srv s)) (metrics e) with Leader => true | _ => false end.

Definition beat_calls e (n : Z) (t : option Dispatch.TelemetryPayload) (s : St) : list Call :=
  (match t with Some t => [fun _ => StoreTelemetry n (unix e) (telemetry_view t)] | None => [] end) ++
  (if early e s then [] else [fun _ => Heartbeat n (unix e); fun _ => TakePathEvents n; fun c => TakeRoutePush n (route_order e n c)]).

Definition parsed (announced : list (string * string)) (withdrawn : list string) : outcome ServerError (list (Prefix * string) * list Prefix) :=
  ann ← parse_all (fun '(p, nh) => x ← parse p; Ok (x, nh)) announced; wd ← parse_all parse withdrawn; Ok (ann, wd).

(** The calls that are due when the message [i] arrives on the connection of [s]. *)
Definition due e (i : incoming) (s : St) : list Call :=
  if negb (msg_token e) then []
  else match i, registered (conn s) with
  | Good (CHALLENGE_ACK _ tag), _ =>
      match challenge (conn s) with
      | Some ch => if answered ch tag (unix e) then ack_calls e ch s else []
      | None => []
      end
  | Good (HEARTBEAT t), Some n => if leads e s then beat_calls e n t s else []
  | Good (ENDPOINT_REPORT l sn), Some n =>
      if bool_decide (l = []) && bool_decide (sn = []) then []
      else log_calls (backend (srv s)) (client_write e) (CmdSetEndpoints n l sn)
  | Good (PATH_REQUEST dest max), Some n => log_calls (backend (srv s)) (client_write e) (CmdRequestPaths n dest max (unix e))
  | Good (ROUTE_SYNC a w), Some n =>
      if leads e s then match parsed a w with Ok (ann, wd) => [fun _ => RouteSync n ann wd (unix e)] | _ => [] end else []
  | _, _ => []
  end.

(** From [s] the handler [m] makes the calls [l], or the first of them when it fails. *)
Definition makes {A} (l : list Call) (m : M A) (s : St) : Prop := exists l',
  l' `prefix_of` l /\ coordinator_of (m s).2 = perform (coordinator_of s) l' /\ forall a, (m s).1 = Ok a -> l' = l.

Lemma makes_quiet {A} (m : M A) s : coordinator_of (m s).2 = coordinator_of s -> makes [] m s.
Proof. intros H. by exists []. Qed.

Lemma makes_bind {A B} l1 l2 (m : M A) (f : A -> M B) s : makes l1 m s ->
  (forall a s1, m s = (Ok a, s1) -> makes l2 (f a) s1) -> makes (l1 ++ l2) (m ≫= f) s.
Proof.
  intros (l1' & Hp & Hc & Ho) Hf. unfold makes, mbind, M_bind. destruct (m s) as [[a|x|] s1] eqn:Em; cbn [fst snd] in *.
  - rewrite (Ho a eq_refl) in Hc. destruct (Hf a s1 eq_refl) as (l2' & Hp2 & Hc2 & Ho2). exists (l1 ++ l2').
    split; [by apply prefix_app|]. split; [rewrite Hc2, Hc; unfold perform; by rewrite foldl_app|]. intros y Hy. by rewrite (Ho2 y Hy).
  - exists l1'. split; [by apply prefix_app_r|]. done.
  - exists l1'. split; [by apply prefix_app_r|]. done.
Qed.

Lemma makes_before {A B} l (m : M A) (f : A -> M B) s : coordinator_of (m s).2 = coordinator_of s ->
  (forall a s1, m s = (Ok a, s1) -> makes l (f a) s1) -> makes l (m ≫= f) s.
Proof. intros H. apply (makes_bind []). by apply makes_quiet. Qed.

Lemma makes_mut {B} (k : Call) l f (g : unit -> M B) s : (forall c, f c = CoordinatorInv.apply c (k c)) ->
  makes l (g tt) (mut_coord f s).2 -> makes (k :: l) (mut_coord f ≫= g) s.
Proof.
  intros Hf Hg. apply (makes_bind [k] l).
  - exists [k]. split; [done|]. split; [|done]. cbn. by rewrite coord_mut, Hf.
  - intros a s1 [= <- <-]. exact Hg.
Qed.

(** The last step of a handler. *)
Lemma makes_mut_last (k : Call) f s : (forall c, f c = CoordinatorInv.apply c (k c)) -> makes [k] (mut_coord f) s.
Proof. intros Hf. exists [k]. split; [done|]. split; [|done]. cbn. by rewrite coord_mut, Hf. Qed.

(** Steps that make no call. *)
Definition quiet (s s' : St) : Prop := coordinator_of s' = coordinator_of s.
#[local] Instance quiet_pre : PreOrder quiet.
Proof. split; [done|]. intros s1 s2 s3 H1 H2. unfold quiet in *. congruence. Qed.

Lemma write_quiet e m : pres quiet (write e m).
Proof. intros s. unfold write. by destruct (write_ok _ _). Qed.
Lemma write_all_quiet e ms : pres quiet (write_all e ms).
Proof. induction ms; cbn [write_all]; pres_walk ltac:(first [apply write_quiet|assumption]). Qed.
Lemma redirect_quiet e l : pres quiet (write_leader_redirect e l).
Proof. destruct l; cbn [write_leader_redirect]; pres_walk ltac:(apply write_quiet). Qed.

Ltac quiet_leaf := first
  [ simple apply write_quiet | simple apply write_all_quiet | simple apply redirect_quiet
  | simple apply pres_modify; intros; unfold quiet; try done; by repeat case_match ].

Lemma push_snapshot_quiet e n : pres quiet (push_snapshot e n).
Proof. unfold push_snapshot. pres_walk quiet_leaf. Qed.
Lemma forwarded_quiet e {E A} (r : outcome (WriteError E) A) : pres quiet (redirect_if_forwarded e r).
Proof. unfold redirect_if_forwarded, lead. pres_walk quiet_leaf. Qed.
Lemma register_quiet e r : pres quiet (on_register e r).
Proof. unfold on_register, admission_gate, lead, tick_limited, tick_rejected, note_failure. pres_walk quiet_leaf. Qed.
Lemma audit_quiet e a : pres quiet (on_audit e a).
Proof. unfold on_audit. pres_walk quiet_leaf. Qed.

Lemma versions_make n p s : makes (version_calls n p) (note_versions n (p_protocol_version p) (p_version p)) s.
Proof.
  unfold version_calls, note_versions. apply (makes_mut (fun _ => SetProtocolVersion n (p_protocol_version p))); [done|].
  destruct (decide (p_version p = ""%string)); [by apply makes_quiet|]. by apply makes_mut_last.
Qed.

(** A handler that fails before the calls. *)
Lemma makes_fails {A} l (m : M A) s : coordinator_of (m s).2 = coordinator_of s -> (forall a, (m s).1 <> Ok a) -> makes l m s.
Proof. intros H1 H2. exists []. split; [apply prefix_nil|]. split; [done|]. intros a Ha. by destruct (H2 a). Qed.

Lemma makes_gets {A B} l (f : St -> A) (k : A -> M B) s : makes l (k (f s)) s -> makes l (gets f ≫= k) s.
Proof. done. Qed.

Lemma makes_skip {B} l g (k : unit -> M B) s : coordinator_of (g s) = coordinator_of s -> makes l (k tt) (g s) -> makes l (modify g ≫= k) s.
Proof. intros Hg Hk. apply makes_before; [done|]. by intros a s1 [= <- <-]. Qed.

Lemma resume_makes e n p s : makes (if resume_matches (coordinator_of s) n (p_capabilities p) (p_routes p)
  then (fun _ => Heartbeat n (unix e)) :: version_calls n p else []) (resume e n p) s.
Proof.
  unfold resume. apply makes_gets. destruct (resume_matches _ _ _ _); cbn [require]; [|by apply makes_quiet].
  apply makes_before; [done|]. intros ? ? [= <- <-]. apply makes_skip; [done|].
  apply (makes_mut (fun _ => Heartbeat n (unix e))); [done|]. rewrite <- (app_nil_r (version_calls n p)). apply makes_bind; [apply versions_make|].
  intros _ s1 _. apply makes_gets, makes_gets. destruct (_ ≫= _) as [[b id]|]; [|by apply makes_quiet].
  apply makes_before; [apply write_quiet|]. intros _ s2 _. apply makes_quiet, push_snapshot_quiet.
Qed.

Lemma admitted_makes e p data s : makes (version_calls (rd_node_id data) p ++ [fun _ => Heartbeat (rd_node_id data) (unix e)]) (admitted e p data) s.
Proof.
  unfold admitted. apply makes_skip; [by destruct (peer_ip e)|]. apply makes_bind; [apply versions_make|]. intros _ s1 _. apply makes_gets.
  destruct (drop_first_register_response _); [by apply makes_fails|]. apply makes_skip; [done|].
  apply (makes_mut (fun _ => Heartbeat (rd_node_id data) (unix e))); [done|].
  apply makes_before; [apply write_quiet|]. intros _ s2 _. apply makes_quiet, push_snapshot_quiet.
Qed.

Lemma entries_perform (m : Machine) es : coordinator (apply_entries m es).2 =
  perform (coordinator m) (omap (fun x => match payload x with Normal cmd => Some (fun _ => cmd_op cmd (log_id x)) | _ => None end) es).
Proof.
  revert m. induction es as [|x es IH]; intros m; [done|]. cbn [apply_entries]. destruct (apply_entry_coord m x) as [Hx _].
  destruct (apply_entry m x) as [r m1]. specialize (IH m1). destruct (apply_entries m1 es) as [rs m2]. cbn [snd] in *. rewrite IH, Hx.
  cbn [omap list_omap]. by destruct (payload x).
Qed.

Lemma propose_perform (m : Machine) ms self w cmd : coordinator (propose m ms w cmd).2 = perform (coordinator m) (log_calls (Cluster m ms self) w cmd).
Proof.
  destruct w as [before id|l|]; [|done..]. cbn [propose log_calls]. pose proof (apply_entry_coord (apply_entries m before).2 (mk_log_entry id (Normal cmd))) as [Hx _].
  destruct (apply_entry _ _) as [r m2]. cbn [snd payload log_id] in *. rewrite Hx, entries_perform. unfold perform. by rewrite foldl_app.
Qed.

Lemma register_perform (b : CoordBackend) w k pk caps rs now :
  coord (register b w k pk caps rs now).2 = perform (coord b) (log_calls b w (CmdRegister k pk caps rs now)).
Proof.
  destruct b as [c|m ms self]; cbn [register coord].
  - cbn. by destruct (Coordinator.register _ _ _ _ _ _ _).
  - rewrite <- (propose_perform m ms self). by destruct (propose _ _ _ _).
Qed.
Lemma paths_perform (b : CoordBackend) w x d mx now :
  coord (backend_request_paths b w x d mx now).2 = perform (coord b) (log_calls b w (CmdRequestPaths x d mx now)).
Proof.
  destruct b as [c|m ms self]; cbn [backend_request_paths coord].
  - cbn. by destruct (request_paths _ _ _ _ _).
  - rewrite <- (propose_perform m ms self). by destruct (propose _ _ _ _).
Qed.
Lemma endpoints_perform (b : CoordBackend) w n l sn :
  coord (backend_set_endpoints b w n l sn).2 = perform (coord b) (log_calls b w (CmdSetEndpoints n l sn)).
Proof.
  destruct b as [c|m ms self]; cbn [backend_set_endpoints coord]; [done|].
  rewrite <- (propose_perform m ms self). by destruct (propose _ _ _ _).
Qed.

Lemma admit_makes e pk p s :
  let w := register (backend (srv s)) (client_write e) (p_auth_key p) pk (p_capabilities p) (p_routes p) (unix e) in
  makes (log_calls (backend (srv s)) (client_write e) (CmdRegister (p_auth_key p) pk (p_capabilities p) (p_routes p) (unix e)) ++
    match w.1 with Ok data => version_calls (rd_node_id data) p ++ [fun _ => Heartbeat (rd_node_id data) (unix e)] | _ => [] end)
    (admit_node e pk p) s.
Proof.
  cbv zeta. unfold admit_node. apply makes_gets. pose proof (register_perform (backend (srv s)) (client_write e) (p_auth_key p) pk (p_capabilities p) (p_routes p) (unix e)) as Hr.
  destruct (register _ _ _ _ _ _ _) as [r b]. cbn [fst snd] in *. apply makes_bind.
  { eexists. split; [reflexivity|]. split; [exact Hr|done]. }
  intros _ s1 _. destruct r as [data|[x|l|]|].
  - apply admitted_makes.
  - unfold note_failure, tick_rejected. apply makes_skip; [by destruct (peer_ip e)|]. apply makes_skip; [done|]. by apply makes_quiet.
  - apply makes_gets, makes_quiet, redirect_quiet.
  - unfold note_failure, tick_rejected. apply makes_skip; [by destruct (peer_ip e)|]. apply makes_skip; [done|]. by apply makes_quiet.
  - by apply makes_quiet.
Qed.

Lemma ack_makes e id tag s : msg_token e = true -> makes (due e (Good (CHALLENGE_ACK id tag)) s) (on_challenge_ack e tag) s.
Proof.
  intros Ht. unfold due. rewrite Ht. cbn [negb]. unfold makes. rewrite ack_eq. destruct (challenge (conn s)) as [ch|]; [|by apply (makes_quiet (fail UnexpectedAck))].
  cbv zeta. destruct (answered ch tag (unix e)) eqn:Ea.
  2: { destruct (p_resume _); [|by apply (makes_quiet (fail ChallengeFailed))].
    destruct (static_pubkey_of _ _); [|by apply (makes_quiet (fail UnknownNode))]. destruct (bool_decide _); [by apply (makes_quiet (fail ChallengeFailed))|by apply (makes_quiet (fail PubkeyMismatch))]. }
  unfold ack_calls. destruct (p_resume (c_pending ch)) eqn:Ep.
  - destruct (static_pubkey_of (coordinator_of s) (c_node_id ch)) as [pk|] eqn:Epk.
    2: { rewrite bool_decide_false by done. by apply (makes_quiet (fail UnknownNode)). }
    destruct (decide (pk = c_pubkey ch)) as [->|Hne].
    + rewrite !bool_decide_true by done. apply (resume_makes e (c_node_id ch) (c_pending ch) (drop_challenge s)).
    + rewrite !bool_decide_false by congruence. by apply (makes_quiet (fail PubkeyMismatch)).
  - apply (admit_makes e (c_pubkey ch) (c_pending ch) (drop_challenge s)).
Qed.

Lemma heartbeat_makes e t s : msg_token e = true -> makes (due e (Good (HEARTBEAT t)) s) (on_heartbeat e t) s.
Proof.
  intros Ht. unfold due. rewrite Ht. cbn [negb]. unfold on_heartbeat. apply makes_gets. destruct (registered (conn s)) as [n|]; [|by apply makes_quiet].
  apply makes_gets. unfold leads. destruct (leadership _ _); [|apply makes_quiet, redirect_quiet]. unfold beat_calls. apply makes_bind.
  { destruct t as [t|]; [by apply makes_mut_last|by apply makes_quiet]. }
  intros a s1 Hs1. assert (Hconn : conn s1 = conn s /\ heartbeat_min_interval (srv s1) = heartbeat_min_interval (srv s)) by (destruct t; injection Hs1 as <- <-; done).
  apply makes_gets. destruct Hconn as [-> ->]. fold (early e s). destruct (early e s); [by apply makes_quiet|]. apply makes_skip; [done|].
  apply (makes_mut (fun _ => Heartbeat n (unix e))); [done|]. apply makes_gets. apply makes_before; [apply push_snapshot_quiet|]. intros _ s2 _.
  apply (makes_bind [_] [_]).
  { unfold push_path_events. apply makes_gets. apply (makes_mut (fun _ => TakePathEvents n)); [done|]. apply makes_gets, makes_quiet, write_all_quiet. }
  intros _ s3 _. apply (makes_bind [_] []).
  { unfold push_route_map. apply makes_gets. apply (makes_mut (fun c => TakeRoutePush n (route_order e n c))); [done|].
    destruct (fst _) as [[v es]|]; apply makes_quiet; [apply write_quiet|done]. }
  intros _ s4 _. apply makes_quiet, write_quiet.
Qed.

Lemma dispatch_makes e i s : msg_token e = true -> makes (due e i s) (dispatch e i) s.
Proof.
  intros Ht. destruct i as [m| |]; cbn [dispatch].
  2: { unfold due. rewrite Ht. apply makes_quiet, register_quiet. }
  2: { unfold due. rewrite Ht. by apply makes_quiet. }
  destruct m; try (by apply heartbeat_makes); try (by apply ack_makes); unfold due; rewrite Ht; cbn [negb]; try (by apply makes_quiet).
  - apply makes_quiet, register_quiet.
  - unfold on_endpoint_report. apply makes_gets. destruct (registered (conn s)) as [n|]; [|by apply makes_quiet]. destruct (_ && _); [by apply makes_quiet|].
    apply makes_gets. pose proof (endpoints_perform (backend (srv s)) (client_write e) n endpoints seen) as H. destruct (backend_set_endpoints _ _ _ _ _) as [r b].
    rewrite <- (app_nil_r (log_calls _ _ _)). apply makes_bind; [eexists; split; [reflexivity|]; split; [exact H|done]|]. intros _ s1 _. apply makes_quiet, forwarded_quiet.
  - unfold on_path_request. apply makes_gets. destruct (registered (conn s)) as [n|]; [|by apply makes_quiet].
    apply makes_gets. pose proof (paths_perform (backend (srv s)) (client_write e) n destination max_candidates (unix e)) as H. destruct (backend_request_paths _ _ _ _ _ _) as [r b].
    rewrite <- (app_nil_r (log_calls _ _ _)). apply makes_bind; [eexists; split; [reflexivity|]; split; [exact H|done]|]. intros _ s1 _. apply makes_quiet, forwarded_quiet.
  - apply makes_quiet, audit_quiet.
  - unfold on_route_sync. apply makes_gets. destruct (registered (conn s)) as [n|]; [|by apply makes_quiet].
    apply makes_gets. unfold leads. destruct (leadership _ _); [|apply makes_quiet, redirect_quiet]. unfold parsed.
    destruct (parse_all _ announced) as [ann|x|]; [|by apply makes_quiet..]. destruct (parse_all _ withdrawn) as [wd|x|]; [|by apply makes_quiet..].
    by apply (makes_mut_last (fun _ => RouteSync n ann wd (unix e))).
Qed.

(** C9: what a message does to the coordinator, alone or in a cluster.  It makes the
    calls that are due: a heartbeat stores the telemetry of the connection's own node
    and, unless it comes too soon, keeps the node alive and takes its events and routes;
    reports, path requests and route changes are those of the connection's own node, at
    the time of the wall clock; the answer to a challenge leads to calls only when its
    tag is right and in time, for the node whose key was challenged when it is known
    with that key and unchanged, and otherwise to one registration under the key and
    the routes of the request; any other message, and any message of a connection that
    is registered as nobody or beyond its rate, makes none.  A handler that fails has made the
    first of the calls; one that succeeds has made all of them.  And as long as node ids are not
    used up, the coordinator goes on to a state it can reach by its own calls and in
    which its invariant holds. *)
Theorem message_effect e (i : incoming) s
  (Hc : rtc step new (coordinator_of s)) (Hr : room (backend (srv s)) (client_write e)) :
  let '(r, s') := handle_message e i s in
  rtc step new (coordinator_of s') /\ inv (coordinator_of s') /\
  exists made, made `prefix_of` due e i s /\ coordinator_of s' = perform (coordinator_of s) made /\ (r = Ok tt -> made = due e i s).
Proof.
  assert (H : makes (due e i s) (handle_message e i) s).
  { unfold handle_message. destruct (msg_token e) eqn:Et; [by apply dispatch_makes|]. unfold due. rewrite Et. by apply makes_quiet. }
  assert (G : rtc step new (coordinator_of (handle_message e i s).2)).
  { etrans; [exact Hc|]. rewrite handle_eq. destruct (msg_token e); [|reflexivity]. apply dispatch_steps; [by apply coord_reachable_inv|done]. }
  unfold makes in H. destruct (handle_message e i s) as [r s']. cbn [fst snd] in *. split; [done|]. split; [by apply coord_reachable_inv|].
  destruct H as (l & Hp & Hl & Ho). exists l. split; [done|]. split; [done|]. intros ->. by apply (Ho tt).
Qed.

(** ** Who a connection belongs to *)

Record Step := mk_step { s_env : Env; s_msg : incoming; s_pre : St; s_post : St }.

(** The messages of one connection, oldest first, each handled in whatever state
    the rest of the server has by then, and the connection's state after them. *)
Inductive conn_trace : list Step -> ConnectionState -> Prop :=
| trace_nil : conn_trace [] conn_default
| trace_step tr e i s : conn_trace tr (conn s) -> inv (coordinator_of s) ->
    room (backend (srv s)) (client_write e) ->
    conn_trace (tr ++ [mk_step e i s (handle_message e i s).2]) (conn (handle_message e i s).2).

(** The challenge [ch] answers the registration request of the step [x]. *)
Definition issued (ch : ChallengeState) (x : Step) (q : RegisterRequest) : Prop :=
  s_msg x = Good (REGISTER q) /\ c_pubkey ch = rq_static_pubkey q /\ c_eph_priv ch = eph_priv (s_env x) /\
  c_nonce ch = nonce (s_env x) /\ c_issued_at ch = unix (s_env x).

Definition proven (tr : list Step) (n : Z) : Prop := exists tr1 x tr2 y tr3 q id tag ch,
  tr = tr1 ++ x :: tr2 ++ y :: tr3 /\ issued ch x q /\
  s_msg y = Good (CHALLENGE_ACK id tag) /\ answered ch tag (unix (s_env y)) = true /\
  static_pubkey_of (coordinator_of (s_post y)) n = Some (rq_static_pubkey q).

Lemma trace_inv tr cn : conn_trace tr cn ->
  (forall ch, challenge cn = Some ch -> exists tr1 x tr2 q, tr = tr1 ++ x :: tr2 /\ issued ch x q) /\
  (forall n, registered cn = Some n -> proven tr n).
Proof.
  induction 1 as [|tr e i s Htr [IH1 IH2] Hc Hr]; [by split|].
  set (x0 := mk_step e i s (handle_message e i s).2).
  assert (Hold : (forall ch, challenge (conn s) = Some ch -> exists tr1 x tr2 q, tr ++ [x0] = tr1 ++ x :: tr2 /\ issued ch x q) /\
                 (forall n, registered (conn s) = Some n -> proven (tr ++ [x0]) n)).
  { split.
    - intros ch Hch. destruct (IH1 ch Hch) as (tr1 & x & tr2 & q & -> & Hi). exists tr1, x, (tr2 ++ [x0]), q.
      by rewrite <- app_assoc.
    - intros n Hn. destruct (IH2 n Hn) as (tr1 & x & tr2 & y & tr3 & q & id & tag & ch & -> & Hi & Hm & Ha & Hp).
      exists tr1, x, tr2, y, (tr3 ++ [x0]), q, id, tag, ch. split; [|done]. by rewrite <- !app_assoc, app_comm_cons, <- app_assoc. }
  destruct Hold as [Ho1 Ho2].
  rewrite handle_eq. destruct (msg_token e) eqn:Et; [|done].
  destruct (registers i) eqn:Ei; [|destruct (dispatch_conn e i Ei s) as [-> ->]; done].
  assert (Hx0 : s_post x0 = (dispatch e i s).2) by (unfold x0; cbn [s_post]; by rewrite handle_eq, Et).
  destruct i as [[q| | | | | | | | |id tag| | | | | | | | | | |]| |]; try done; cbn [dispatch] in *.
  - destruct (register_conn e (Some q) s) as [-> [->|(ch & q' & -> & [= <-] & Hpk & _ & He & Hn & Hu)]]; [done|].
    split; [|done]. intros ch' [= <-]. exists tr, x0, [], q. split; [done|]. by repeat split.
  - destruct (ack_spec e tag s Hc Hr) as (_ & Hch & Hrg). split.
    + intros ch Hs. destruct Hch as [Hch|Hch]; rewrite Hch in Hs; [by apply Ho1|done].
    + intros n Hn. destruct Hrg as [Hrg|(n' & ch & Hch' & Ha & Hrg & Hp)]; rewrite Hrg in Hn; [by apply Ho2|].
      injection Hn as ->. destruct (IH1 ch Hch') as (tr1 & x & tr2 & q & -> & Hi).
      exists tr1, x, tr2, x0, [], q, id, tag, ch. split; [by rewrite <- app_assoc|]. split; [done|]. split; [done|].
      split; [done|]. rewrite Hx0, Hp. f_equal. by destruct Hi as (_ & -> & _).
  - destruct (register_conn e None s) as [-> [->|(ch & q' & _ & ? & _)]]; done.
Qed.

(** C5: a connection is registered as a node only after the holder of the node's
    static key has shown it.  There was a registration request on this very
    connection that named the public key the node is registered under, and later
    an answer, at most thirty seconds after it, that for every secret key behind
    that public key is the one computed from the secret and the fresh challenge
    of that request. *)
Theorem connection_authenticated `{PL : !Crypto.PrimitiveLaws P} (tr : list Step) (cn : ConnectionState) (n : Z)
  (Htr : conn_trace tr cn) (Hn : registered cn = Some n) :
  exists tr1 x tr2 y tr3 q id tag node,
    tr = tr1 ++ x :: tr2 ++ y :: tr3 /\ s_msg x = Good (REGISTER q) /\ s_msg y = Good (CHALLENGE_ACK id tag) /\
    static_pubkey_of (coordinator_of (s_post y)) n = Some (rq_static_pubkey q) /\
    unix (s_env y) <= sat_add 64 (unix (s_env x)) 30 /\
    forall sk, Crypto.x25519_base sk = rq_static_pubkey q ->
      tag = Challenge.compute_tag sk (Crypto.x25519_base (eph_priv (s_env x))) (nonce (s_env x)) node.
Proof.
  destruct (trace_inv tr cn Htr) as [_ H]. destruct (H n Hn) as (tr1 & x & tr2 & y & tr3 & q & id & tag & ch & -> & Hi & Hm & Ha & Hp).
  destruct Hi as (Hq & Hpk & Heph & Hno & Hu). exists tr1, x, tr2, y, tr3, q, id, tag, (c_node_id ch).
  apply andb_true_iff in Ha as [Hv Hw]. split_and!; try done.
  - unfold Challenge.within_window in Hw. apply bool_decide_eq_true in Hw. by rewrite <- Hu.
  - intros sk Hsk. rewrite Hpk, Heph, Hno, <- Hsk in Hv. by apply Challenge.verify_tag_exact in Hv.
Qed.

(** ** Connections that belong to nobody *)

(** Messages that tell of a network or its nodes. *)
Definition discloses (m : ControlMsg) : bool :=
  match m with
  | REGISTER_RESPONSE _ | NETMAP_PUSH _ | KEY_DIST _ | LEASE _ _ | PATH_RESPONSE _ | PATH_UPDATE _
  | PATH_WITHDRAW _ _ _ | ROUTE_MAP _ _ => true
  | _ => false
  end.

Definition inert (s s' : St) : Prop :=
  coordinator_of s' = coordinator_of s /\
  exists ms, out s' = out s ++ ms /\ Forall (fun m => discloses m = false) ms.
#[local] Instance inert_pre : PreOrder inert.
Proof.
  split; [intros s; split; [done|]; exists []; by rewrite app_nil_r|].
  intros s1 s2 s3 [H1 (l1 & H2 & H3)] [H4 (l2 & H5 & H6)]. split; [congruence|].
  exists (l1 ++ l2). rewrite H5, H2, app_assoc. split; [done|]. by apply Forall_app_2.
Qed.

Lemma modify_inert f : (forall s, coordinator_of (f s) = coordinator_of s /\ out (f s) = out s) -> pres inert (modify f).
Proof.
  intros H. apply pres_modify. intros s. destruct (H s) as [H1 H2]. split; [done|]. exists []. by rewrite app_nil_r.
Qed.
Lemma write_inert e m : discloses m = false -> pres inert (write e m).
Proof.
  intros Hm s. unfold write. destruct (write_ok _ _); [|reflexivity]. split; [done|]. exists [m]. split; [done|]. by fall.
Qed.
Lemma redirect_inert e l : pres inert (write_leader_redirect e l).
Proof. destruct l; cbn [write_leader_redirect]; pres_walk ltac:(by apply write_inert). Qed.
Lemma tick_inert : pres inert tick_limited /\ pres inert tick_rejected.
Proof. split; by apply modify_inert. Qed.
Lemma note_failure_inert e : pres inert (note_failure e).
Proof. apply modify_inert. intros s. by destruct (peer_ip e). Qed.

Ltac inert_leaf := first
  [ simple apply (proj1 tick_inert) | simple apply (proj2 tick_inert) | simple apply redirect_inert
  | simple apply note_failure_inert | simple apply write_inert; done | simple apply modify_inert; done ].

Lemma gate_inert e : pres inert (admission_gate e).
Proof. unfold admission_gate. pres_walk inert_leaf. Qed.
Lemma register_inert e r : pres inert (on_register e r).
Proof. unfold on_register, lead. pres_walk ltac:(first [inert_leaf|simple apply gate_inert]). Qed.

(** Who has not shown a key learns nothing and changes nothing.  On a
    connection that is not registered, a message leaves the coordinator as it is
    and is answered by nothing that tells of a network, unless it is an answer
    that proves the key of the challenge sent on this connection. *)
Theorem unregistered_inert e (i : incoming) s (Hu : registered (conn s) = None) :
  let s' := (handle_message e i s).2 in
  (coordinator_of s' = coordinator_of s /\
   exists ms, out s' = out s ++ ms /\ Forall (fun m => discloses m = false) ms) \/
  exists id tag ch, i = Good (CHALLENGE_ACK id tag) /\ challenge (conn s) = Some ch /\ answered ch tag (unix e) = true.
Proof.
  cbv zeta. rewrite handle_eq. destruct (msg_token e); [|left; apply (proj1 tick_inert)].
  destruct i as [m| |]; cbn [dispatch]; [|left; apply register_inert|left; apply inert_pre].
  destruct m; try (left; apply inert_pre).
  - left. apply register_inert.
  - left. unfold on_heartbeat. rewrite run_gets, Hu. apply inert_pre.
  - rewrite ack_eq. destruct (challenge (conn s)) as [ch|]; [|left; apply inert_pre].
    destruct (answered ch tag (unix e)) eqn:Ea; [right; by exists node_id, tag, ch|]. left. cbv zeta.
    destruct (p_resume _); [|apply inert_pre]. destruct (static_pubkey_of _ _) as [pk|]; [|apply inert_pre].
    destruct (bool_decide _); apply inert_pre.
  - left. unfold on_endpoint_report. rewrite run_gets, Hu. apply inert_pre.
  - left. unfold on_path_request. rewrite run_gets, Hu. apply inert_pre.
  - left. unfold on_audit. assert (H : pres inert (on_audit e a)); [|exact (H s)]. unfold on_audit. pres_walk inert_leaf.
  - left. unfold on_route_sync. rewrite run_gets, Hu. apply inert_pre.
Qed.

(** ** Panics *)

Definition msafe {A} (m : M A) : Prop := forall s, safe (m s).1.

Lemma msafe_bind {A B} (m : M A) (f : A -> M B) : msafe m -> (forall a, msafe (f a)) -> msafe (m ≫= f).
Proof.
  intros Hm Hf s. specialize (Hm s). unfold mbind, M_bind. destruct (m s) as [[a|x|] s1]; [apply Hf|done|done].
Qed.
Lemma msafe_write e m : msafe (write e m).
Proof. intros s. unfold write. by destruct (write_ok _ _). Qed.
Lemma msafe_if {A} (b : bool) (m1 m2 : M A) : msafe m1 -> msafe m2 -> msafe (if b then m1 else m2).
Proof. by destruct b. Qed.

Ltac msafe_walk :=
  repeat first
    [ progress intros
    | simple apply msafe_write
    | match goal with
      | |- msafe (_ ≫= _) => simple apply msafe_bind
      | |- msafe (match ?x with _ => _ end) => destruct x
      | |- msafe (let '(_, _) := ?x in _) => destruct x
      | |- msafe (fail _) => done
      | |- msafe (gets _) => done
      | |- msafe (read_coord _) => done
      | |- msafe (modify _) => done
      | |- msafe (mut_coord _) => done
      | |- msafe (mret _) => done
      | |- msafe (require ?b _) => by destruct b
      end ].

Lemma msafe_write_all e ms : msafe (write_all e ms).
Proof. induction ms; cbn [write_all]; msafe_walk. done. Qed.
Lemma msafe_redirect e l : msafe (write_leader_redirect e l).
Proof. destruct l; cbn [write_leader_redirect]; msafe_walk. Qed.
Lemma msafe_snapshot e n : msafe (push_snapshot e n).
Proof. unfold push_snapshot. msafe_walk. apply msafe_write_all. Qed.
Lemma msafe_versions n v b : msafe (note_versions n v b).
Proof. unfold note_versions. msafe_walk. Qed.

Lemma msafe_path_events e n : msafe (push_path_events e n).
Proof. unfold push_path_events. msafe_walk. apply msafe_write_all. Qed.
Lemma msafe_route_map e n : msafe (push_route_map e n).
Proof. unfold push_route_map. msafe_walk. Qed.
Lemma msafe_resume e n p : msafe (resume e n p).
Proof. unfold resume, set_registered. msafe_walk; first [apply msafe_versions|apply msafe_snapshot]. Qed.
Lemma msafe_admitted e p data : msafe (admitted e p data).
Proof. unfold admitted, set_registered. msafe_walk; first [apply msafe_versions|apply msafe_snapshot]. Qed.
Lemma msafe_heartbeat e t : msafe (on_heartbeat e t).
Proof.
  unfold on_heartbeat, lead.
  msafe_walk; first [apply msafe_redirect|apply msafe_snapshot|apply msafe_path_events|apply msafe_route_map].
Qed.
Lemma msafe_forwarded e {E A} (r : outcome (WriteError E) A) : safe r -> msafe (redirect_if_forwarded e r).
Proof. intros Hr. unfold redirect_if_forwarded, lead. destruct r as [a|[x|l|]|]; try done. msafe_walk. apply msafe_redirect. Qed.

Lemma register_backend_safe (b : CoordBackend) w k pk caps rs now : inv (coord b) -> room b w ->
  safe (register b w k pk caps rs now).1.
Proof.
  intros Hc Hr. destruct b as [c|m ms self]; cbn in *.
  - unfold Coordinator.register. pose proof (register_inner_safe c k pk caps rs now (0, 0) Hc Hr).
    by destruct (register_inner _ _ _ _ _ _ _) as [[d c']|x|].
  - destruct w as [before id|l|]; [|done..]. destruct Hr as (m1 & Hl & Hn). cbn [propose].
    apply logged_apply in Hl as [-> Hs]. cbn. unfold Coordinator.register.
    pose proof (register_inner_safe (coordinator m1) k pk caps rs now id (steps_inv _ _ Hs Hc) Hn).
    by destruct (register_inner _ _ _ _ _ _ _) as [[d c']|x|].
Qed.

Lemma paths_backend_safe (b : CoordBackend) w x d mx now : safe (backend_request_paths b w x d mx now).1.
Proof.
  destruct b as [c|m ms self]; cbn; [by destruct (request_paths _ _ _ _ _)|].
  destruct w as [before id|l|]; [|done..]. cbn [propose]. cbn. by destruct (request_paths _ _ _ _ _).
Qed.
Lemma endpoints_backend_safe (b : CoordBackend) w n l sn : safe (backend_set_endpoints b w n l sn).1.
Proof. destruct b as [c|m ms self]; cbn; [done|]. by destruct w as [before id|r|]. Qed.

Lemma parse_all_safe {A B} (f : A -> outcome PrefixError B) l : (forall a, safe (f a)) -> safe (parse_all f l).
Proof.
  intros Hf. induction l as [|x l IH]; [done|]. cbn [parse_all]. specialize (Hf x). destruct (f x); [|done..]. step.
  by destruct (parse_all f l).
Qed.

(** What is left of a registration request once the key was copied. *)
Lemma msafe_known e r pubkey : msafe (
  let pending := mk_pending (rq_auth_key r) (rq_capabilities r) (requested_routes r) (rq_protocol_version r) (rq_version r) in
  known ← read_coord (fun c => node_id_by_pubkey c pubkey);
  '(node_id, p) ← match known with
    | Some n => mret (n, pending true)
    | None =>
        good ← read_coord (fun c => auth_key_admissible c (rq_auth_key r) (unix e));
        if (good : bool) then mret (0, pending false)
        else _ ← note_failure e; fail InvalidAuthKey
    end;
  let ch := mk_challenge_state (eph_priv e) (nonce e) (unix e) node_id pubkey p in
  _ ← write e (CHALLENGE (mk_challenge (Crypto.x25519_base (eph_priv e)) (nonce e) (unix e) node_id));
  modify (fun s => set_conn (mk_conn (registered (conn s)) (Some ch) (last_heartbeat (conn s))) s)).
Proof. cbv zeta. msafe_walk. all: unfold note_failure; msafe_walk. Qed.

(** The gates a registration request has to pass. *)
Definition gate_open e s : bool :=
  match peer_ip e with
  | None => true
  | Some ip => negb (register_locked (srv s) ip (now e)) && register_allow e
  end.

Lemma gate_run e s :
  if gate_open e s then admission_gate e s = (Ok tt, s)
  else exists x s1, admission_gate e s = (Err x, s1).
Proof.
  unfold gate_open, admission_gate. destruct (peer_ip e) as [ip|]; [|done].
  rewrite run_gets. destruct (register_locked _ _ _); [by do 2 eexists|]. destruct (register_allow e); [done|by do 2 eexists].
Qed.

Lemma register_panic e r s : (on_register e r s).1 = Panic <->
  leadership (backend (srv s)) (metrics e) = Leader /\ gate_open e s = true /\
  exists q, r = Some q /\ rq_protocol_version q = PROTOCOL_VERSION /\ length (rq_static_pubkey q) <> 32%nat.
Proof.
  unfold on_register, lead. rewrite run_gets. destruct (leadership _ _) as [|ep t]; [|split; [|by intros [? _]]].
  2: { intros HP. exfalso. by apply (msafe_redirect e (Follower ep t) s). }
  unfold mbind at 1, M_bind at 1. pose proof (gate_run e s) as Hg. destruct (gate_open e s).
  2: { destruct Hg as (x & s1 & ->). split; [done|]. by intros (_ & ? & _). }
  rewrite Hg. destruct r as [q|]; [|split; [done|]; by intros (_ & _ & q & ? & _)].
  case_decide as Hv; [split; [done|]; by intros (_ & _ & q' & [= <-] & ? & _)|]. unfold mbind at 1, M_bind at 1. cbn [lift].
  unfold copy32. case_decide as Hl.
  - split; [|intros (_ & _ & q' & [= <-] & _ & ?); done]. intros HP. exfalso. by apply (msafe_known e q (rq_static_pubkey q) s).
  - split; [|done]. intros _. split; [done|]. split; [done|]. exists q. split; [done|]. split; [|done].
    destruct (decide (rq_protocol_version q = PROTOCOL_VERSION)); [done|]. by destruct Hv.
Qed.

Lemma ack_safe e tag s : inv (coordinator_of s) -> room (backend (srv s)) (client_write e) ->
  safe (on_challenge_ack e tag s).1.
Proof.
  intros Hc Hr. rewrite ack_eq. destruct (challenge (conn s)) as [ch|]; [|done]. cbv zeta.
  assert (H : safe (if answered ch tag (unix e) then
      (if p_resume (c_pending ch) then resume e (c_node_id ch) (c_pending ch) else admit_node e (c_pubkey ch) (c_pending ch)) (drop_challenge s)
    else (Err ChallengeFailed, s)).1).
  { destruct (answered _ _ _); [|done]. destruct (p_resume _); [apply msafe_resume|]. rewrite admit_eq.
    pose proof (register_backend_safe (backend (srv s)) (client_write e) (p_auth_key (c_pending ch)) (c_pubkey ch)
      (p_capabilities (c_pending ch)) (p_routes (c_pending ch)) (unix e) Hc Hr) as Hrs.
    change (backend (srv (drop_challenge s))) with (backend (srv s)).
    destruct (register _ _ _ _ _ _ _) as [[data|[x|l|]|] b]; [apply msafe_admitted|done| |done|done].
    unfold lead. rewrite run_gets. apply msafe_redirect. }
  destruct (p_resume _); [|done]. destruct (static_pubkey_of _ _); [|done]. by destruct (bool_decide _).
Qed.

Lemma parse_safe x : safe (parse x).
Proof.
  unfold parse. destruct (split_once _ _) as [[a l]|]; [|done]. step. destruct (parse_uint _ _); [|done]. step.
  destruct (parse_ip _); [|done]. step. apply ok_or_safe.
Qed.

Lemma route_sync_safe e a w : msafe (on_route_sync e a w).
Proof.
  intros s. unfold on_route_sync, lead. rewrite run_gets. destruct (registered _) as [n|]; [|done].
  rewrite run_gets. destruct (leadership _ _) as [|ep t]; [|apply msafe_redirect].
  unfold mbind at 1, M_bind at 1. cbn [lift].
  assert (H1 : safe (parse_all (fun '(p, nh) => x ← parse p; Ok (x, nh)) a)).
  { apply parse_all_safe. intros [p nh]. pose proof (parse_safe p). by destruct (parse p). }
  destruct (parse_all _ a) as [ann|x|]; [|done|done].
  unfold mbind at 1, M_bind at 1. cbn [lift]. pose proof (parse_all_safe parse w parse_safe) as H2.
  by destruct (parse_all _ w).
Qed.

Lemma dispatch_safe e i s : inv (coordinator_of s) -> room (backend (srv s)) (client_write e) ->
  (forall q, i <> Good (REGISTER q)) -> safe (dispatch e i s).1.
Proof.
  intros Hc Hr Hi. destruct i as [m| |]; [|intros (_ & _ & q & ? & _)%register_panic; done|done].
  destruct m; try done; cbn [dispatch].
  - by destruct (Hi r).
  - apply msafe_heartbeat.
  - by apply ack_safe.
  - unfold on_endpoint_report. rewrite run_gets. destruct (registered _) as [n|]; [|done].
    destruct (_ && _); [done|]. rewrite run_gets. pose proof (endpoints_backend_safe (backend (srv s)) (client_write e) n endpoints seen).
    destruct (backend_set_endpoints _ _ _ _ _) as [r b]. rewrite run_modify. by apply msafe_forwarded.
  - unfold on_path_request. rewrite run_gets. destruct (registered _) as [n|]; [|done].
    rewrite run_gets. pose proof (paths_backend_safe (backend (srv s)) (client_write e) n destination max_candidates (unix e)).
    destruct (backend_request_paths _ _ _ _ _ _) as [r b]. rewrite run_modify. by apply msafe_forwarded.
  - unfold on_audit. rewrite run_gets. destruct (_ || _); [apply msafe_write|].
    destruct (backend_audit _ _ _ _ _). apply msafe_write.
  - apply route_sync_safe.
Qed.

(** The only message that makes a handler panic.  With a sound coordinator,
    handling a message panics exactly when it is a registration request of the
    current version, let through by the gates of a leader, whose public key does
    not have 32 bytes; anyone who can open a connection can send one. *)
Theorem handler_panics e (i : incoming) s
  (Hc : inv (coordinator_of s)) (Hr : room (backend (srv s)) (client_write e)) :
  (handle_message e i s).1 = Panic <->
  msg_token e = true /\ leadership (backend (srv s)) (metrics e) = Leader /\ gate_open e s = true /\
  exists q, i = Good (REGISTER q) /\ rq_protocol_version q = PROTOCOL_VERSION /\ length (rq_static_pubkey q) <> 32%nat.
Proof.
  rewrite handle_eq. destruct (msg_token e); [|split; [done|by intros [? _]]]. split.
  - intros HP. destruct i as [m| |]; try (exfalso; refine (dispatch_safe e _ s Hc Hr _ HP); done).
    destruct m; try (exfalso; refine (dispatch_safe e _ s Hc Hr _ HP); done).
    apply register_panic in HP as (H1 & H2 & q & [= <-] & H3). eauto 10.
  - intros (_ & H1 & H2 & q & -> & H3). cbn [dispatch]. apply register_panic. eauto 10.
Qed.

(** ** Registering *)



Lemma write_run e m s : write_ok e (length (out s)) = true -> write e m s = (Ok tt, mk_st (srv s) (conn s) (out s ++ [m])).
Proof. unfold write. by intros ->. Qed.

Lemma write_all_run e ms : (forall k, write_ok e k = true) -> forall s,
  write_all e ms s = (Ok tt, mk_st (srv s) (conn s) (out s ++ ms)).
Proof.
  intros Hw. induction ms as [|m ms IH]; intros s; cbn [write_all].
  - rewrite app_nil_r. by destruct s.
  - unfold mbind, M_bind. rewrite write_run by done. rewrite IH. cbn. by rewrite <- app_assoc.
Qed.

Lemma push_snapshot_run e n s : (forall k, write_ok e k = true) -> exists push ks,
  push_snapshot e n s = (Ok tt, mk_st (srv s) (conn s) (out s ++ NETMAP_PUSH push :: (KEY_DIST <$> ks))).
Proof.
  intros Hw. unfold push_snapshot. rewrite run_gets, run_read. do 2 eexists. unfold mbind at 1, M_bind at 1.
  rewrite write_run by done. rewrite !run_read, write_all_run by done. cbn. by rewrite <- app_assoc.
Qed.









(** ** The map of the network *)

(** Subjects, groups and prefixes that can be written down. *)
Definition subject_ok (x : Acl.AclSubject) : Prop :=
  match x with Acl.Any => True | Acl.Node id => u32 id | Acl.Group name => name <> ""%string end.

Record policy_ok (p : Acl.AclPolicy) : Prop := {
  pk_subjects : Forall (fun r => Forall subject_ok (Acl.subjects r)) (Acl.rules p);
  pk_prefixes : Forall (fun r => parse (to_cidr (Acl.object r)) = Ok (Acl.object r)) (Acl.rules p);
  pk_groups : map_Forall (fun _ ids => Forall u32 ids) (Acl.groups p)
}.

Lemma parse_dec32 z : u32 z -> parse_uint (2 ^ 32 - 1) (dec z) = Some z.
Proof.
  intros Hz. unfold dec. destruct (AuthKey.show_digits_head 63 z EmptyString) as (c & x & E & Hc); [apply Hz|].
  pose proof (AuthKey.parse_show_digits 63 (2 ^ 32 - 1) z EmptyString) as Hp.
  rewrite E in *. unfold parse_uint. rewrite decide_False by done. rewrite Hp; [done| |uint].
  split; [apply Hz|]. eapply Z.lt_trans; [apply Hz|]. by vm_compute.
Qed.

Lemma subject_roundtrip x : subject_ok x -> subject_of (subject_msg x) = Some x.
Proof.
  destruct x as [|id|name]; intros H; [done| |].
  - unfold subject_of. cbn [subject_msg]. rewrite AuthKey.strip_prefix_app. by rewrite parse_dec32.
  - unfold subject_of. cbn [subject_msg]. replace (AuthKey.strip_prefix "node:" ("group:" +:+ name)) with (@None string) by done.
    rewrite AuthKey.strip_prefix_app. by destruct name.
Qed.

Lemma subjects_roundtrip l : Forall subject_ok l -> omap subject_of (subject_msg <$> l) = l.
Proof. induction 1 as [|x l Hx _ IH]; [done|]. cbn. rewrite subject_roundtrip by done. cbn. by rewrite IH. Qed.

Lemma rule_roundtrip r : Forall subject_ok (Acl.subjects r) -> parse (to_cidr (Acl.object r)) = Ok (Acl.object r) ->
  rule_of (rule_msg r) = Some r.
Proof.
  intros Hs Hp. unfold rule_of, rule_msg. cbn [rm_prefix rm_subjects rm_deny]. rewrite Hp. cbn [ok mbind option_bind].
  rewrite subjects_roundtrip by done. destruct r as [[|x l] p a]; cbn; destruct a; done.
Qed.

Lemma rules_roundtrip l : Forall (fun r => Forall subject_ok (Acl.subjects r)) l ->
  Forall (fun r => parse (to_cidr (Acl.object r)) = Ok (Acl.object r)) l -> omap rule_of (rule_msg <$> l) = l.
Proof.
  induction 1 as [|r l Hr _ IH]; [done|]. intros [Hp Hl]%Forall_cons_1.
  change (omap rule_of (rule_msg <$> (r :: l))) with (match rule_of (rule_msg r) with Some y => y :: omap rule_of (rule_msg <$> l) | None => omap rule_of (rule_msg <$> l) end).
  rewrite rule_roundtrip by done. by rewrite IH.
Qed.

Lemma acl_roundtrip p order : policy_ok p -> order ≡ₚ map_to_list (Acl.groups p) ->
  acl_from_wire (acl_policy_message p order) = p.
Proof.
  intros [H1 H2 H3] Ho. unfold acl_from_wire, acl_policy_message. cbn [pm_enabled pm_rules pm_groups].
  rewrite rules_roundtrip by done. destruct p as [en rs gs]. cbn in *. f_equal. rewrite foldl_fmap.
  assert (Hnd : NoDup (order.*1)) by (rewrite Ho; apply NoDup_fst_map_to_list).
  apply map_eq. intros k. apply option_eq. intros v.
  replace (foldl _ ∅ order) with (foldl (fun (m : gmap string (list Z)) x => <[x.1 := hops_to_vec (hops_bytes x.2)]> m) ∅ order)
    by (clear; generalize (∅ : gmap string (list Z)); induction order as [|[n ids] l IH]; intros m; cbn; [done|apply IH]).
  rewrite (foldl_insert_lookup fst (fun x => hops_to_vec (hops_bytes x.2))); [|done|by intros; apply lookup_empty].
  rewrite lookup_empty. split.
  - intros [([n ids] & Hx & <- & <-)|?]; [|done]. rewrite Ho in Hx. apply elem_of_map_to_list in Hx. cbn [fst snd].
    by rewrite hops_roundtrip by exact (H3 n ids Hx).
  - intros Hv. left. exists (k, v). split; [rewrite Ho; by apply elem_of_map_to_list|]. split; [done|].
    cbn [fst snd]. apply hops_roundtrip. exact (H3 k v Hv).
Qed.

(** What a node sees of a registered node. *)
Definition seen_as (i : NodeInfo) (n : NetmapNode) : Prop :=
  n_node_id n = ni_node_id i /\ n_network_id n = ni_network_id i /\ n_static_pubkey n = ni_static_pubkey i /\
  n_endpoints n = ni_endpoints i /\ n_capabilities n = ni_capabilities i /\ n_routes n = ni_routes i /\
  n_protocol_version n = ni_protocol_version i /\ n_offline n = ni_offline i /\
  n_identity_binding n = ni_identity_binding i /\ n_binding_log_id n = ni_binding_log_id i /\ n_exit n = ni_exit i.

Lemma nodes_roundtrip l : Forall (fun i => length (ni_static_pubkey i) = 32%nat) l ->
  exists ns, netmap_nodes (netmap_entry <$> l) = Ok ns /\ Forall2 seen_as l ns.
Proof.
  induction 1 as [|i l Hi _ (ns & IH & Hns)]; [by exists []|]. cbn [fmap list_fmap netmap_nodes]. unfold netmap_node at 1.
  cbn [ne_static_pubkey netmap_entry]. unfold copy32. rewrite decide_True by done. step. rewrite IH. step.
  eexists. split; [done|]. constructor; [|done]. unfold seen_as. cbn. destruct (ni_binding_log_id i). done.
Qed.

(** The map a node reads is the map the coordinator holds.  From the push for
    a network whose nodes have keys of 32 bytes and whose access rules can be
    written down, the client reads, entry by entry, the nodes of the network, the
    roster and the replicas, and an access policy equal to that of the network,
    so that node and coordinator decide alike. *)
Theorem netmap_faithful (client : MeshClient) (c : Coordinator) (net : Z) (replicas : list string)
  (walk : gmap string (list Z) -> list (string * list Z)) (Hwalk : forall m, walk m ≡ₚ map_to_list m)
  (Hk : Forall (fun i => length (ni_static_pubkey i) = 32%nat) (netmap_snapshot c net))
  (Hp : policy_ok (acl_policy_of c net)) :
  exists nm, read_event client (Decoded (NETMAP_PUSH (netmap_push_message c net replicas walk))) = (Ok (Netmap nm), client) /\
    nm_version nm = netmap_version c /\ Forall2 seen_as (netmap_snapshot c net) (nm_entries nm) /\
    nm_relay_roster nm = relay_roster_for c net /\ nm_replica_endpoints nm = replicas /\
    nm_acl nm = Some (acl_policy_of c net) /\
    forall from payload, Acl.allows_packet (default default_acl (nm_acl nm)) from payload = Acl.allows_packet (acl_policy_of c net) from payload.
Proof.
  destruct (nodes_roundtrip _ Hk) as (ns & Hns & Hf). cbn [read_event netmap_push_message np_entries np_acl np_version np_relay_roster np_replica_endpoints].
  rewrite Hns. step. eexists. split; [reflexivity|]. cbn [nm_version nm_entries nm_relay_roster nm_acl nm_replica_endpoints fmap option_fmap option_map].
  rewrite acl_roundtrip by (done || apply Hwalk). by split_and!.
Qed.

(** ** Repeated failures *)

(** How long the [k]-th failure in a row shuts an address out. *)
Definition lock_time (k : Z) : Z :=
  if decide (k < REGISTER_LOCKOUT_FAILS) then 0
  else Z.min (REGISTER_LOCKOUT_BASE * 2 ^ Z.min (k - REGISTER_LOCKOUT_FAILS) 7) REGISTER_LOCKOUT_MAX.

Abbreviation Srv := (CoordinatorServer (Membership := Membership)).

Definition failing (ip : IpAddr) (v : Srv) (ts : list Z) : Srv := foldl (fun v t => note_register_failure v ip t) v ts.

Lemma failing_count ip (v : Srv) ts t0 : register_lockout v !! ip = None -> Z.of_nat (length ts) + 1 < 2 ^ 32 ->
  register_lockout (failing ip v (ts ++ [t0])) !! ip = Some (Z.of_nat (length ts) + 1, t0 + lock_time (Z.of_nat (length ts) + 1)).
Proof.
  intros Hv. revert t0. induction ts as [|t ts IH] using rev_ind; intros t0 Hl.
  - unfold failing. cbn [app foldl]. unfold note_register_failure. rewrite Hv. cbn [register_lockout set_lockout].
    rewrite lookup_insert_eq, decide_False by (by vm_compute). f_equal. f_equal. cbn. unfold lock_time.
    rewrite decide_True by done. lia.
  - rewrite length_app in *. cbn [length] in *. unfold failing in *. rewrite foldl_app. cbn [foldl].
    unfold note_register_failure at 1. rewrite IH by lia. cbn [register_lockout set_lockout]. rewrite lookup_insert_eq.
    unfold sat_add. rewrite Z.min_l by lia. replace (Z.of_nat (length ts + 1)) with (Z.of_nat (length ts) + 1) by lia.
    f_equal. f_equal. unfold lock_time. destruct (decide (REGISTER_LOCKOUT_FAILS <= _)) as [H|H].
    + rewrite decide_False by lia. done.
    + rewrite decide_True by lia. lia.
Qed.

Lemma failing_other ip ip' (v : Srv) ts : ip' <> ip -> register_lockout (failing ip v ts) !! ip' = register_lockout v !! ip'.
Proof.
  intros Hne. revert v. induction ts as [|t ts IH]; intros v; [done|]. unfold failing in *. cbn [foldl]. rewrite IH.
  unfold note_register_failure. cbn. by rewrite lookup_insert_ne.
Qed.

(** Failed registrations shut an address out for longer and longer.  After k
    failures in a row the address is refused until thirty seconds, doubled for
    every failure beyond the fifth and never more than an hour, after the last
    one; fewer than five shut nobody out; other addresses do not notice; and while
    it lasts no request of that address gets past the gate, whatever it holds. *)
Theorem lockout_schedule (v : Srv) (ip : IpAddr) (ts : list Z) (t0 : Z)
  (Hv : register_lockout v !! ip = None) (Hl : Z.of_nat (length ts) + 1 < 2 ^ 32) :
  let v' := failing ip v (ts ++ [t0]) in
  (forall t, register_locked v' ip t = bool_decide (t < t0 + lock_time (Z.of_nat (length ts) + 1))) /\
  (Z.of_nat (length ts) + 1 < 5 -> forall t, t0 <= t -> register_locked v' ip t = false) /\
  lock_time (Z.of_nat (length ts) + 1) <= 3600 * 1000000000 /\
  (forall ip' t, ip' <> ip -> register_locked v' ip' t = register_locked v ip' t) /\
  (forall e q s, peer_ip e = Some ip -> register_locked (srv s) ip (now e) = true -> msg_token e = true ->
     leadership (backend (srv s)) (metrics e) = Leader ->
     (handle_message e (Good (REGISTER q)) s).1 = Err RegisterLocked /\
     coordinator_of (handle_message e (Good (REGISTER q)) s).2 = coordinator_of s).
Proof.
  cbv zeta. pose proof (failing_count ip v ts t0 Hv Hl) as H. split_and!.
  - intros t. unfold register_locked. by rewrite H.
  - intros H5 t Ht. unfold register_locked. rewrite H. unfold lock_time. rewrite decide_True by done. apply bool_decide_eq_false. lia.
  - unfold lock_time. destruct (decide _); [lia|]. apply Z.le_min_r.
  - intros ip' t Hne. unfold register_locked. by rewrite failing_other.
  - intros e q s Hip Hlk Ht Hld. rewrite handle_eq, Ht. cbn [dispatch]. unfold on_register, lead. rewrite run_gets, Hld.
    unfold mbind, M_bind. unfold admission_gate. rewrite Hip, run_gets, Hlk. done.
Qed.

(** ** What the channel does not do *)

(** The broadcast key is meant for nodes that ask for it, by their capabilities.
    A push carries it with the key of every node that did, so one such node is
    enough for all nodes of the network to get it. *)
Theorem broadcast_key_to_all e s (d : NetworkDomain) (x : Registry.NodeEntry) (m : Z)
  (Hc : inv (coordinator_of s)) (Hw : forall k, write_ok e k = true)
  (Hd : d ∈ domains (coordinator_of s)) (Hx : entry d m = Some x) (Hcap : has_cap CAPABILITY_BROADCAST x = true) :
  exists k, KEY_DIST k ∈ out (push_snapshot e (network_id d) s).2 /\ kd_broadcast_key k = Keys.broadcast_key (keys d).
Proof.
  assert (Hm : Registry.node_id x = m) by (by destruct (Registry.wf_entry _ (do_registry _ _ (in_domains _ Hc d Hd)) m x Hx)).
  set (kd := mk_key_dist m (Keys.key_for (keys d) m) (Keys.key_version (keys d)) (Keys.broadcast_key (keys d))).
  assert (Hk : key_dist_message (coordinator_of s) m = Some kd).
  { unfold key_dist_message, key_dist. rewrite (proj2 (domain_of_node_iff _ Hc m d)) by eauto. cbn. rewrite Hx. cbn. by rewrite Hcap. }
  exists kd. split; [|done]. unfold push_snapshot. rewrite run_gets, run_read. unfold mbind at 1, M_bind at 1.
  rewrite write_run by done. rewrite !run_read, write_all_run by done. cbn [snd out srv backend].
  apply elem_of_app. right. apply list_elem_of_fmap_2, list_elem_of_omap. exists m. split; [|exact Hk].
  apply list_elem_of_fmap. exists (node_info (coordinator_of s) d x). split; [by rewrite <- Hm|].
  apply (elem_of_netmap _ _ _ Hc). exists d, x. rewrite Hm. done.
Qed.

(** A node that reconnects with an identity the coordinator no longer has for its
    key cannot come back: the response with the new identity is an error to it,
    and it will try again with the old one. *)
Theorem stale_identity_refused (build : string) (cfg : MeshLegConfig) (old : Z) (r : RegisterResponse)
  (Hne : rs_node_id r <> old) :
  let client := (connect build cfg (Some old)).1 in
  read_event client (Decoded (REGISTER_RESPONSE r)) = (Err InvalidTransition, client).
Proof. cbn. by rewrite decide_False by congruence. Qed.

(** The heartbeat of a connection is answered by a lease even when the node behind
    it has been revoked. *)
Theorem revoked_keeps_lease e s (n : Z) (Hn : registered (conn s) = Some n)
  (Hrev : is_Some (revocation_of (coordinator_of s) n)) (Ht : msg_token e = true)
  (Hl : leadership (backend (srv s)) (metrics e) = Leader) (Hlast : last_heartbeat (conn s) = None)
  (Hw : forall k, write_ok e k = true) :
  exists s', handle_message e (Good (HEARTBEAT None)) s = (Ok tt, s') /\ LEASE true (unix e + 60) ∈ out s'.
Proof.
  rewrite handle_eq, Ht. cbn [dispatch]. unfold on_heartbeat, lead. rewrite run_gets, Hn, run_gets, Hl.
  unfold mbind at 1, M_bind at 1. cbn [mret M_ret]. rewrite run_gets, Hlast, run_modify. unfold mut_coord at 1.
  rewrite run_modify, run_read. unfold mbind at 1, M_bind at 1. edestruct (push_snapshot_run e) as (push & ks & ->); [done|].
  unfold push_path_events, push_route_map. unfold mbind at 1, M_bind at 1. rewrite run_read. unfold mut_coord at 1. rewrite run_modify, run_read, write_all_run by done.
  unfold mbind at 1, M_bind at 1. rewrite run_read. unfold mut_coord at 1. rewrite run_modify.
  destruct (fst _) as [[v es]|] in |- *.
  - rewrite write_run by done. rewrite write_run by done. eexists. split; [done|]. cbn [out].
    apply elem_of_app. right. by apply list_elem_of_singleton.
  - cbn [mret M_ret]. rewrite write_run by done. eexists. split; [done|]. cbn [out].
    apply elem_of_app. right. by apply list_elem_of_singleton.
Qed.
End Channel.

(** ** Samples *)

#[local] Existing Instance Crypto.Toy.toy.
#[local] Existing Instance Crypto.Toy.toy_laws.
#[local] Existing Instance Registry.toy_signer.

Definition sample_env (t : Z) : Env (Membership := unit) :=
  mk_env (t * 1000000000) t (Some (V4 [10; 0; 0; 9])) true true (replicate 32 21) (replicate 16 3) (fun _ => true)
    (mk_metrics None 0) Fatal (mk_metrics None 0) map_to_list (fun r => map_to_list (RouteMap.entries r)).

Definition sample_st : St (Membership := unit) := mk_st (server_new (Single sample) 0) conn_default [].

Definition sample_leg : MeshLegConfig := mk_leg "coord" 8443 (sample_key "lab") (replicate 32 30) 0 [].

Definition sample_request : ControlMsg := (connect "0.1" sample_leg None).2.

Definition sample_ack : ControlMsg :=
  CHALLENGE_ACK 0 (Challenge.compute_tag (replicate 32 30) (replicate 32 21) (replicate 16 3) 0).

(** After the request, and after the answer. *)
Definition sample_st1 : St (Membership := unit) := (handle_message (sample_env 2000) (Good sample_request) sample_st).2.
Definition sample_st2 : St (Membership := unit) := (handle_message (sample_env 2010) (Good sample_ack) sample_st1).2.

Lemma sample_coord_st1 : coord (backend (srv sample_st1)) = sample.
Proof. vm_compute. reflexivity. Qed.

Lemma sample_trace1 : conn_trace ([] ++ [mk_step (sample_env 2000) (Good sample_request) sample_st sample_st1]) (conn sample_st1).
Proof. refine (trace_step [] (sample_env 2000) (Good sample_request) sample_st trace_nil sample_inv _). vm_compute. reflexivity. Qed.

Lemma sample_trace : conn_trace
  (([] ++ [mk_step (sample_env 2000) (Good sample_request) sample_st sample_st1]) ++
   [mk_step (sample_env 2010) (Good sample_ack) sample_st1 sample_st2]) (conn sample_st2).
Proof.
  refine (trace_step _ (sample_env 2010) (Good sample_ack) sample_st1 sample_trace1 _ _).
  - rewrite sample_coord_st1. exact sample_inv.
  - vm_compute. reflexivity.
Qed.

Lemma connection_authenticated_witness :
  registered (conn sample_st2) = Some 4 /\
  exists (y : Step (Membership := unit)) q, static_pubkey_of (coord (backend (srv (s_post y)))) 4 = Some (rq_static_pubkey q).
Proof.
  assert (E : registered (conn sample_st2) = Some 4) by (vm_compute; reflexivity). split; [exact E|].
  destruct (connection_authenticated _ _ 4 sample_trace E) as (_ & _ & _ & y & _ & q & _ & _ & _ & _ & _ & _ & H & _). eauto.
Defined.

Lemma message_effect_witness :
  let s' := (handle_message (sample_env 2010) (Good sample_ack) sample_st1).2 in
  inv (coord (backend (srv s'))) /\ exists made, made `prefix_of` due (sample_env 2010) (Good sample_ack) sample_st1 /\
    coord (backend (srv s')) = perform (coord (backend (srv sample_st1))) made /\ length made = 4%nat.
Proof.
  pose proof (message_effect (sample_env 2010) (Good sample_ack) sample_st1) as H. cbv zeta.
  assert (Er : (handle_message (sample_env 2010) (Good sample_ack) sample_st1).1 = Ok tt) by (vm_compute; reflexivity).
  destruct (handle_message (sample_env 2010) (Good sample_ack) sample_st1) as [r s']. cbn [fst snd] in *.
  destruct H as (_ & Hi & made & Hp & Hm & Ho).
  - rewrite sample_coord_st1. exact coord_sample_reachable.
  - vm_compute. reflexivity.
  - split; [exact Hi|]. exists made. split; [exact Hp|]. split; [exact Hm|]. rewrite (Ho Er). vm_compute. reflexivity.
Defined.


Lemma unregistered_inert_witness :
  coord (backend (srv (handle_message (sample_env 2000) (Good (HEARTBEAT None)) sample_st).2)) = coord (backend (srv sample_st)).
Proof.
  destruct (unregistered_inert (sample_env 2000) (Good (HEARTBEAT None)) sample_st) as [[H _]|(id & tag & ch & H & _)].
  - reflexivity.
  - simple apply H.
  - discriminate H.
Defined.

Definition short_request : RegisterRequest := mk_register (sample_key "lab") [1; 2; 3] 0 2 "" [] "0.1".

Lemma handler_panics_witness :
  (handle_message (sample_env 2000) (Good (REGISTER short_request)) sample_st).1 = Panic.
Proof.
  apply (handler_panics (sample_env 2000) (Good (REGISTER short_request)) sample_st).
  - apply sample_inv.
  - vm_compute. reflexivity.
  - split; [reflexivity|]. split; [reflexivity|]. split; [vm_compute; reflexivity|]. exists short_request.
    split; [reflexivity|]. split; [reflexivity|]. discriminate.
Defined.




Lemma sample_acl : acl_policy_of sample (network_id_for "lab") = default_acl.
Proof. vm_compute. reflexivity. Qed.

Lemma netmap_faithful_witness : exists nm,
  (read_event (client_new (replicate 32 30))
     (Decoded (NETMAP_PUSH (netmap_push_message sample (network_id_for "lab") [] map_to_list)))).1 = Ok (Netmap nm) /\
  length (nm_entries nm) = 2%nat.
Proof.
  destruct (netmap_faithful (client_new (replicate 32 30)) sample (network_id_for "lab") [] map_to_list) as (nm & H & _ & Hf & _).
  - intros m. reflexivity.
  - apply (bool_decide_unpack _). vm_compute. exact I.
  - rewrite sample_acl. split; [constructor|constructor|]. intros n ids Hn. discriminate Hn.
  - exists nm. rewrite H. split; [reflexivity|]. rewrite <- (Forall2_length Hf). vm_compute. reflexivity.
Defined.

Lemma lockout_schedule_witness :
  register_locked (failing (Membership := unit) (V4 [10; 0; 0; 9]) (server_new (Single sample) 0) ([1; 2; 3; 4; 5] ++ [6]))
    (V4 [10; 0; 0; 9]) 60000000005 = true.
Proof.
  destruct (lockout_schedule (Membership := unit) (server_new (Single sample) 0) (V4 [10; 0; 0; 9]) [1; 2; 3; 4; 5] 6) as [H _].
  - reflexivity.
  - reflexivity.
  - rewrite H. vm_compute. reflexivity.
Defined.

End Channel.
