(* ===== verification/BgpWire.v ===== *)
(** * BGP messages (rill-dn42/src/wire/mod.rs)

    The eBGP message codec and the incremental frame reader.  Loops over a
    buffer are instances of [many]; a slice that is out of range is a [Panic]. *)

From S2P Require Import Prelude Net Frame Route.

Module BgpWire.
Import Net Route.

Definition BGP_VERSION : Z := 4.
Definition HEADER_LEN : nat := 19.
Definition MAX_MSG_LEN : Z := 4096.
Definition AS_TRANS : Z := 23456.
Definition TYPE_OPEN : Z := 1.
Definition TYPE_UPDATE : Z := 2.
Definition TYPE_NOTIFICATION : Z := 3.
Definition TYPE_KEEPALIVE : Z := 4.
Definition TYPE_ROUTE_REFRESH : Z := 5.
Definition AFI_IPV4 : Z := 1.
Definition AFI_IPV6 : Z := 2.
Definition SAFI_UNICAST : Z := 1.
Definition CAP_MP_BGP : Z := 1.
Definition CAP_ROUTE_REFRESH : Z := 2.
Definition CAP_FOUR_OCTET_AS : Z := 65.
Definition AS_SET : Z := 1.
Definition AS_SEQUENCE : Z := 2.

Inductive WireError :=
| BadMarker
| BadLength (n : Z)
| Truncated
| BadOpen
| BadUpdate
| UnknownWellKnown (ty : Z)
| TooLong
| BadType (ty : Z).

Inductive Capability :=
| MpBgp (afi safi : Z)
| CapRouteRefresh
| FourOctetAs (asn : Z).

Record OpenMsg := mk_open {
  as4 : Z;
  hold_time : Z;
  bgp_id : list Z;
  capabilities : list Capability
}.

Record Segment := mk_segment { set : bool; asns : list Z }.

Inductive PathAttr :=
| Origin (o : Z)
| AsPath (segs : list Segment)
| As4Path (segs : list Segment)
| NextHop (ip : list Z)
| Communities (cs : list Z)
| MpReach (afi safi : Z) (next_hop : IpAddr) (nlri : list Prefix)
| MpUnreach (afi safi : Z) (nlri : list Prefix).

Record UpdateMsg := mk_update {
  withdrawn : list Prefix;
  attrs : list PathAttr;
  announced : list Prefix
}.

Record NotificationMsg := mk_notification { code : Z; subcode : Z; data : list Z }.

Record RouteRefreshMsg := mk_refresh { rr_afi : Z; rr_safi : Z }.

Inductive Message :=
| Open (m : OpenMsg)
| Update (m : UpdateMsg)
| Notification (m : NotificationMsg)
| Keepalive
| RouteRefresh (m : RouteRefreshMsg).

#[export] Instance WireError_eq_dec : EqDecision WireError.
Proof. solve_decision. Defined.
#[export] Instance Capability_eq_dec : EqDecision Capability.
Proof. solve_decision. Defined.
#[export] Instance Segment_eq_dec : EqDecision Segment.
Proof. solve_decision. Defined.
#[export] Instance PathAttr_eq_dec : EqDecision PathAttr.
Proof. solve_decision. Defined.

(** ** Encoding *)

Definition cap_encode (c : Capability) : list Z :=
  match c with
  | MpBgp afi safi => [CAP_MP_BGP; 4] ++ be_bytes 2 afi ++ [0; safi]
  | CapRouteRefresh => [CAP_ROUTE_REFRESH; 0]
  | FourOctetAs asn => [CAP_FOUR_OCTET_AS; 4] ++ be_bytes 4 asn
  end.

(** Bytes of a prefix of [n] bits: [n / 8], rounded up. *)
Definition octets (n : Z) : nat := Z.to_nat (n / 8 + (if decide (n mod 8 = 0) then 0 else 1)).

Definition write_nlri (p : Prefix) : list Z :=
  plen p :: take (octets (plen p) `min` (if v4 p then 4 else 16)) (bits p).

Definition write_asn (wide : bool) (asn : Z) : list Z :=
  if wide then be_bytes 4 asn
  else if decide (asn > 65535) then be_bytes 2 AS_TRANS
  else be_bytes 2 (wrap 16 asn).

Definition write_segment (wide : bool) (s : Segment) : list Z :=
  (if set s then AS_SET else AS_SEQUENCE) :: wrap 8 (Z.of_nat (length (asns s))) ::
  mjoin (write_asn wide <$> asns s).

Definition write_segments (segs : list Segment) (wide : bool) : list Z :=
  mjoin (write_segment wide <$> segs).

(** The NLRI of a multiprotocol attribute: an IPv4 prefix is refused. *)
Definition write_mp_nlri (nlri : list Prefix) : outcome WireError (list Z) :=
  if existsb v4 nlri then Err BadUpdate else Ok (mjoin (write_nlri <$> nlri)).

Definition write_next_hop (next_hop : IpAddr) : list Z :=
  match next_hop with V4 ip => 4 :: ip | V6 ip => 16 :: ip end.

(** Value, type and whether the attribute is optional. *)
Definition attr_value (attr : PathAttr) : outcome WireError (list Z * Z * bool) :=
  match attr with
  | Origin o => Ok ([o], 1, false)
  | AsPath segs => Ok (write_segments segs true, 2, false)
  | As4Path segs => Ok (write_segments segs true, 17, true)
  | NextHop ip => Ok (ip, 3, false)
  | Communities cs => Ok (mjoin (be_bytes 4 <$> cs), 8, true)
  | MpReach afi safi next_hop nlri =>
      n ← write_mp_nlri nlri;
      Ok (be_bytes 2 afi ++ [safi] ++ write_next_hop next_hop ++ [0] ++ n, 14, true)
  | MpUnreach afi safi nlri =>
      n ← write_mp_nlri nlri;
      Ok (be_bytes 2 afi ++ [safi] ++ n, 15, true)
  end.

Definition attr_flags (attr : PathAttr) (optional : bool) : Z :=
  match attr with
  | As4Path _ => 0xC0
  | _ => if optional then 0x80 else 0x40
  end.

Definition write_attr (attr : PathAttr) : outcome WireError (list Z) :=
  '(value, ty, optional) ← attr_value attr;
  let flags := attr_flags attr optional in
  if decide (255 < length value)%nat
  then Ok ([Z.lor flags 0x10; ty] ++ be_bytes 2 (wrap 16 (Z.of_nat (length value))) ++ value)
  else Ok ([flags; ty; wrap 8 (Z.of_nat (length value))] ++ value).

Fixpoint write_attrs (l : list PathAttr) : outcome WireError (list Z) :=
  match l with
  | [] => Ok []
  | a :: l => x ← write_attr a; y ← write_attrs l; Ok (x ++ y)
  end.

(** What [encode] has appended after the header when it leaves the match, and
    the message type or the error it leaves with. *)
Definition encode_body (m : Message) : list Z * outcome WireError Z :=
  match m with
  | Open m =>
      let my_as := if decide (as4 m > 65535) then AS_TRANS else wrap 16 (as4 m) in
      let fixed := [BGP_VERSION] ++ be_bytes 2 my_as ++ be_bytes 2 (hold_time m) ++ bgp_id m in
      let caps := mjoin (cap_encode <$> capabilities m) in
      if decide (255 < length caps)%nat then (fixed, Err TooLong)
      else (fixed ++ [wrap 8 (Z.of_nat (length caps + 2)); 2; wrap 8 (Z.of_nat (length caps))] ++ caps,
            Ok TYPE_OPEN)
  | Update m =>
      if existsb (fun p => negb (v4 p)) (withdrawn m) || existsb (fun p => negb (v4 p)) (announced m)
      then ([], Err BadUpdate)
      else
        let w := mjoin (write_nlri <$> withdrawn m) in
        if decide (65535 < Z.of_nat (length w)) then ([], Err TooLong)
        else
          let out := be_bytes 2 (wrap 16 (Z.of_nat (length w))) ++ w in
          match write_attrs (attrs m) with
          | Ok a =>
              if decide (65535 < Z.of_nat (length a)) then (out, Err TooLong)
              else (out ++ be_bytes 2 (wrap 16 (Z.of_nat (length a))) ++ a ++
                    mjoin (write_nlri <$> announced m), Ok TYPE_UPDATE)
          | Err e => (out, Err e)
          | Panic => (out, Panic)
          end
  | Notification m => ([code m; subcode m] ++ data m, Ok TYPE_NOTIFICATION)
  | Keepalive => ([], Ok TYPE_KEEPALIVE)
  | RouteRefresh m => (be_bytes 2 (rr_afi m) ++ [0; rr_safi m], Ok TYPE_ROUTE_REFRESH)
  end.

(** The result and the output vector after the call. *)
Definition encode (m : Message) (out : list Z) : outcome WireError unit * list Z :=
  let '(body, r) := encode_body m in
  match r with
  | Ok ty =>
      let total := (HEADER_LEN + length body)%nat in
      if decide (MAX_MSG_LEN < Z.of_nat total) then (Err TooLong, out)
      else (Ok tt, out ++ replicate 16 255 ++ be_bytes 2 (wrap 16 (Z.of_nat total)) ++ [ty] ++ body)
  | Err e => (Err e, out ++ replicate HEADER_LEN 255 ++ body)
  | Panic => (Panic, out ++ replicate HEADER_LEN 255 ++ body)
  end.

(** ** Decoding *)

Definition read_nlri (v4 : bool) (buf : list Z) : outcome WireError (Prefix * list Z) :=
  match buf with
  | [] => Panic
  | bits :: rest =>
      let n := octets bits in
      if decide (length buf < 1 + n)%nat then Err Truncated
      else
        pbits ← Frame.Frame.copy_at (replicate 16 0) 0 (take n rest);
        prefix ← ok_or BadUpdate (Route.new pbits bits v4);
        Ok (prefix, drop n rest)
  end.

Definition read_nlris (buf : list Z) (v4 : bool) : outcome WireError (list Prefix) :=
  many (read_nlri v4) buf.

(** [chunks_exact] of a slice whose length is a multiple of [n]. *)
Fixpoint chunks (k n : nat) (l : list Z) : list (list Z) :=
  match k with
  | O => []
  | S k => take n l :: chunks k n (drop n l)
  end.

Definition read_segment (wide : bool) (buf : list Z) : outcome WireError (Segment * list Z) :=
  match buf with
  | kind :: count :: rest =>
      let asn_len := if wide then 4%nat else 2%nat in
      let n := (Z.to_nat count * asn_len)%nat in
      if decide (length buf < 2 + n)%nat then Err Truncated
      else Ok (mk_segment (bool_decide (kind = AS_SET))
                 (be_val <$> chunks (Z.to_nat count) asn_len (take n rest)), drop n rest)
  | _ => Err Truncated
  end.

Definition decode_segments_exact (buf : list Z) (wide : bool) : outcome WireError (list Segment) :=
  many (read_segment wide) buf.

Definition decode_next_hop (b : list Z) : outcome WireError IpAddr :=
  if decide (length b = 4%nat) then Ok (V4 b)
  else if decide (length b = 16%nat \/ length b = 32%nat) then
    let bits := take 16 b in
    if decide (take 12 bits = replicate 10 0 ++ [0xff; 0xff]) then Ok (V4 (drop 12 bits))
    else Ok (V6 bits)
  else Err BadUpdate.

Definition decode_mp_reach (v : list Z) : outcome WireError PathAttr :=
  match v with
  | a :: b :: safi :: nh_len :: rest =>
      let afi := be_val [a; b] in
      let n := Z.to_nat nh_len in
      if decide (length v < 4 + n + 1)%nat then Err Truncated
      else
        next_hop ← decode_next_hop (take n rest);
        nlri ← read_nlris (drop (n + 1) rest) (bool_decide (afi = AFI_IPV4));
        Ok (MpReach afi safi next_hop nlri)
  | _ => Err Truncated
  end.

Definition decode_mp_unreach (v : list Z) : outcome WireError PathAttr :=
  match v with
  | a :: b :: safi :: rest =>
      let afi := be_val [a; b] in
      nlri ← read_nlris rest (bool_decide (afi = AFI_IPV4));
      Ok (MpUnreach afi safi nlri)
  | _ => Err Truncated
  end.

(** What one attribute adds: an attribute, communities, or nothing. *)
Inductive AttrItem :=
| Push (a : PathAttr)
| Comm (cs : list Z)
| Skip.

(** [or_else]. *)
Definition or_else {A} (m : outcome WireError A) (n : outcome WireError A) : outcome WireError A :=
  match m with Err _ => n | _ => m end.

Definition attr_item (ty : Z) (optional : bool) (value : list Z) : outcome WireError AttrItem :=
  let unknown := if optional then Ok Skip else Err (UnknownWellKnown ty) in
  if decide (ty = 1) then
    match value with [o] => Ok (Push (Origin o)) | _ => unknown end
  else if decide (ty = 2) then
    segs ← or_else (decode_segments_exact value true) (decode_segments_exact value false);
    Ok (Push (AsPath segs))
  else if decide (ty = 3) then
    if decide (length value = 4%nat) then Ok (Push (NextHop value)) else unknown
  else if decide (ty = 8) then
    if decide (length value mod 4 = 0)%nat
    then Ok (Comm (be_val <$> chunks (length value / 4) 4 value)) else Err BadUpdate
  else if decide (ty = 14) then a ← decode_mp_reach value; Ok (Push a)
  else if decide (ty = 15) then a ← decode_mp_unreach value; Ok (Push a)
  else if decide (ty = 17) then
    segs ← decode_segments_exact value true; Ok (Push (As4Path segs))
  else unknown.

Definition read_attr (buf : list Z) : outcome WireError (AttrItem * list Z) :=
  match buf with
  | flags :: ty :: rest =>
      let ext := bool_decide (Z.land flags 0x10 <> 0) in
      let hdr := if ext then 4%nat else 3%nat in
      if decide (length buf < hdr)%nat then Err Truncated
      else
        let len := Z.to_nat (if ext then be_val (take 2 rest) else be_val (take 1 rest)) in
        if decide (length buf < hdr + len)%nat then Err Truncated
        else
          item ← attr_item ty (bool_decide (Z.land flags 0x80 <> 0)) (take len (drop hdr buf));
          Ok (item, drop (hdr + len) buf)
  | _ => Err Truncated
  end.

Fixpoint pushed (l : list AttrItem) : list PathAttr :=
  match l with
  | [] => []
  | Push a :: l => a :: pushed l
  | _ :: l => pushed l
  end.

Fixpoint communities (l : list AttrItem) : list Z :=
  match l with
  | [] => []
  | Comm cs :: l => cs ++ communities l
  | _ :: l => communities l
  end.

Definition decode_attrs (buf : list Z) : outcome WireError (list PathAttr) :=
  items ← many read_attr buf;
  let cs := communities items in
  Ok (pushed items ++ (if decide (cs = []) then [] else [Communities cs])).

Definition decode_update (body : list Z) : outcome WireError Message :=
  match body with
  | a :: b :: rest =>
      if decide (length body < 4)%nat then Err Truncated
      else
        let wlen := Z.to_nat (be_val [a; b]) in
        if decide (length body < 2 + wlen + 2)%nat then Err Truncated
        else
          withdrawn ← read_nlris (take wlen rest) true;
          let rest := drop wlen rest in
          let alen := Z.to_nat (be_val (take 2 rest)) in
          if decide (length body < 2 + wlen + 2 + alen)%nat then Err Truncated
          else
            attrs ← decode_attrs (take alen (drop 2 rest));
            announced ← read_nlris (drop alen (drop 2 rest)) true;
            Ok (Update (mk_update withdrawn attrs announced))
  | _ => Err Truncated
  end.

(** One capability; an unknown one is skipped. *)
Definition read_cap (caps : list Z) : outcome WireError (option Capability * list Z) :=
  match caps with
  | ty :: clen :: rest =>
      let n := Z.to_nat clen in
      if decide (length caps < 2 + n)%nat then Err BadOpen
      else
        let v := take n rest in
        let cap :=
          if decide (ty = CAP_MP_BGP /\ n = 4%nat) then
            match v with [a; b; _; s] => Some (MpBgp (be_val [a; b]) s) | _ => None end
          else if decide (ty = CAP_ROUTE_REFRESH /\ n = 0%nat) then Some CapRouteRefresh
          else if decide (ty = CAP_FOUR_OCTET_AS /\ n = 4%nat) then Some (FourOctetAs (be_val v))
          else None in
        Ok (cap, drop n rest)
  | _ => Err BadOpen
  end.

(** One optional parameter: its capabilities, none unless its type is 2. *)
Definition read_param (buf : list Z) : outcome WireError (list Capability * list Z) :=
  match buf with
  | ty :: plen :: rest =>
      let n := Z.to_nat plen in
      if decide (length buf < 2 + n)%nat then Err BadOpen
      else if decide (ty = 2) then
        caps ← many read_cap (take n rest);
        Ok (omap id (caps : list (option Capability)), drop n rest)
      else Ok ([], drop n rest)
  | _ => Err BadOpen
  end.

(** [as4] after the loop: the last four-octet AS capability, [my_as] without one. *)
Definition negotiated_as (my_as : Z) (caps : list Capability) : Z :=
  foldl (fun acc c => match c with FourOctetAs asn => asn | _ => acc end) my_as caps.

Definition decode_open (body : list Z) : outcome WireError Message :=
  match body with
  | _ :: a1 :: a2 :: h1 :: h2 :: i1 :: i2 :: i3 :: i4 :: opt_len :: rest =>
      let n := Z.to_nat opt_len in
      if decide (length body < 10 + n)%nat then Err Truncated
      else
        params ← many read_param (take n rest);
        let capabilities := mjoin params in
        Ok (Open (mk_open (negotiated_as (be_val [a1; a2]) capabilities) (be_val [h1; h2])
                    [i1; i2; i3; i4] capabilities))
  | _ => Err Truncated
  end.

Definition marker_ok (buf : list Z) : bool := forallb (fun b => bool_decide (b = 255)) (take 16 buf).

Definition decode (buf : list Z) : outcome WireError Message :=
  if decide (length buf < HEADER_LEN)%nat then Err Truncated
  else if negb (marker_ok buf) then Err BadMarker
  else
    let len := be_val (take 2 (drop 16 buf)) in
    if decide (Z.to_nat len <> length buf) then Err (BadLength len)
    else
      let body := drop HEADER_LEN buf in
      ty ← at_ buf 18;
      if decide (ty = TYPE_KEEPALIVE) then Ok Keepalive
      else if decide (ty = TYPE_OPEN) then decode_open body
      else if decide (ty = TYPE_UPDATE) then decode_update body
      else if decide (ty = TYPE_NOTIFICATION) then
        match body with
        | c :: s :: d => Ok (Notification (mk_notification c s d))
        | _ => Err Truncated
        end
      else if decide (ty = TYPE_ROUTE_REFRESH) then
        match body with
        | [a; b; _; s] => Ok (RouteRefresh (mk_refresh (be_val [a; b]) s))
        | _ => Err Truncated
        end
      else Err (BadType ty).

(** ** Frame reader

    [feed] returns the result, the buffer kept and the messages pushed. *)

Record FrameReader := mk_reader { buf : list Z }.

Fixpoint feed_loop (fuel : nat) (b : list Z) : outcome WireError unit * list Z * list Message :=
  if decide (length b < HEADER_LEN)%nat then (Ok tt, b, [])
  else if negb (marker_ok b) then (Err BadMarker, b, [])
  else
    let len := be_val (take 2 (drop 16 b)) in
    if decide (len < 19 \/ 4096 < len) then (Err (BadLength len), b, [])
    else
      let n := Z.to_nat len in
      if decide (length b < n)%nat then (Ok tt, b, [])
      else
        match fuel with
        | O => (Panic, b, [])
        | S fuel =>
            match decode (take n b) with
            | Ok m => let '(r, b', ms) := feed_loop fuel (drop n b) in (r, b', m :: ms)
            | Err e => (Err e, b, [])
            | Panic => (Panic, b, [])
            end
        end.

Definition feed (r : FrameReader) (d : list Z) : outcome WireError unit * FrameReader * list Message :=
  let b := buf r ++ d in
  let '(res, b', ms) := feed_loop (length b) b in
  (res, mk_reader b', ms).

(** ** Loop bodies consume *)

Lemma read_nlri_consumes f : consumes (read_nlri f).
Proof.
  intros [|b rest] p rest' H; [done|]. unfold read_nlri in H. case_decide as Hl; [done|].
  apply bind_Ok_inv in H as (pb & _ & H). apply bind_Ok_inv in H as (q & _ & [= _ <-]).
  exists (S (octets b)). split; [lia|]. split; [lia|done].
Qed.

Lemma read_segment_consumes w : consumes (read_segment w).
Proof.
  intros [|k [|c rest]] s rest' H; [done..|]. unfold read_segment in H. case_decide as Hl; [done|].
  injection H as _ <-. exists (2 + Z.to_nat c * if w then 4 else 2)%nat. split; [lia|]. split; [lia|done].
Qed.

Lemma read_cap_consumes : consumes read_cap.
Proof.
  intros [|k [|c rest]] s rest' H; [done..|]. unfold read_cap in H. case_decide as Hl; [done|].
  injection H as _ <-. exists (2 + Z.to_nat c)%nat. split; [lia|]. split; [lia|done].
Qed.

Lemma read_param_consumes : consumes read_param.
Proof.
  intros [|k [|c rest]] s rest' H; [done..|]. unfold read_param in H. case_decide as Hl; [done|].
  exists (2 + Z.to_nat c)%nat. split; [lia|]. split; [lia|].
  case_decide; [apply bind_Ok_inv in H as (cs & _ & H)|]; by injection H as _ <-.
Qed.

Lemma read_attr_consumes : consumes read_attr.
Proof.
  intros [|f [|ty rest]] it rest' H; [done..|]. unfold read_attr in H.
  case_decide as Hh; [done|]. case_decide as Hl; [done|].
  apply bind_Ok_inv in H as (x & _ & [= _ <-]). eexists. split; [|split; [|done]]; [|lia].
  case_match; lia.
Qed.

#[local] Hint Resolve read_nlri_consumes read_segment_consumes read_cap_consumes
  read_param_consumes read_attr_consumes : rill.

(** ** Reading back what was written *)

Lemma octets_spec n : u8 n -> n <= 8 * Z.of_nat (octets n) /\ 8 * Z.of_nat (octets n) < n + 8.
Proof.
  intros Hn. unfold octets. pose proof (Z.div_mod n 8). pose proof (Z.mod_pos_bound n 8).
  pose proof (Z.div_pos n 8). case_decide; uint.
Qed.

Lemma prefix_plen_u8 p : prefix_ok p -> u8 (plen p).
Proof. intros Hp. pose proof (pk_len p Hp). pose proof (max_len_bound (v4 p)). uint. Qed.

Lemma write_nlri_ok p : prefix_ok p -> write_nlri p = plen p :: take (octets (plen p)) (bits p).
Proof.
  intros Hp. unfold write_nlri. f_equal. f_equal. pose proof (pk_len p Hp) as Hl.
  pose proof (octets_spec (plen p) (prefix_plen_u8 p Hp)).
  destruct (v4 p); cbn in Hl; lia.
Qed.

Lemma octets_prefix p : prefix_ok p -> (octets (plen p) <= 16)%nat.
Proof.
  intros Hp. pose proof (pk_len p Hp) as Hl. pose proof (max_len_bound (v4 p)).
  pose proof (octets_spec (plen p) (prefix_plen_u8 p Hp)). lia.
Qed.

Lemma read_write_nlri p rest : prefix_ok p -> read_nlri (v4 p) (write_nlri p ++ rest) = Ok (p, rest).
Proof.
  intros Hp. rewrite write_nlri_ok by done. unfold read_nlri. cbn [app].
  pose proof (octets_prefix p Hp) as Ho. pose proof (pk_length p Hp) as Hl.
  pose proof (octets_spec (plen p) (prefix_plen_u8 p Hp)).
  set (n := octets (plen p)) in *. rewrite decide_False by len.
  assert (Htn : length (take n (bits p)) = n) by len.
  rewrite <- Htn at 1. rewrite take_app_length. unfold Frame.Frame.copy_at.
  rewrite Htn, decide_True by (rewrite length_replicate; lia). step.
  rewrite take_0, drop_replicate. cbn [app]. rewrite Nat.add_0_l.
  rewrite (canonical_tail p n) by (done || lia).
  rewrite new_self by done. step. do 2 f_equal. rewrite <- Htn at 1. by rewrite drop_app_length.
Qed.

Lemma read_write_nlris f ps : Forall (fun p => prefix_ok p /\ v4 p = f) ps ->
  read_nlris (mjoin (write_nlri <$> ps)) f = Ok ps.
Proof.
  intros Hps. rewrite list.Forall_forall in Hps. unfold read_nlris.
  rewrite (many_concat _ (read_nlri_consumes f) write_nlri id).
  - by rewrite list_fmap_id.
  - intros p rest [Hp <-]%Hps. by apply read_write_nlri.
  - done.
Qed.

(** [chunks_exact] inverts concatenation of chunks of one length. *)
Lemma chunks_concat n (ls : list (list Z)) :
  Forall (fun l => length l = n) ls -> chunks (length ls) n (mjoin ls) = ls.
Proof.
  induction 1 as [|l ls Hl _ IH]; [done|]. cbn [length chunks].
  change (mjoin (l :: ls)) with (l ++ mjoin ls). rewrite <- Hl, take_app_length, drop_app_length.
  by rewrite Hl, IH.
Qed.

Lemma length_concat {A} n (ls : list (list A)) :
  Forall (fun l => length l = n) ls -> length (mjoin ls) = (length ls * n)%nat.
Proof.
  induction 1 as [|l ls Hl _ IH]; [done|]. change (mjoin (l :: ls)) with (l ++ mjoin ls).
  rewrite length_app, IH. cbn. lia.
Qed.

Lemma be4_lengths (l : list Z) : Forall (fun x => length x = 4%nat) (be_bytes 4 <$> l).
Proof. apply Forall_fmap, Forall_true. intros. apply length_be_bytes. Qed.

Lemma be_val_be4 (l : list Z) : Forall u32 l -> be_val <$> (be_bytes 4 <$> l) = l.
Proof.
  induction 1 as [|x l Hx _ IH]; [done|]. cbn [fmap list_fmap].
  rewrite be_val_be_bytes by done. by rewrite IH.
Qed.

Definition segment_ok (s : Segment) : Prop := Forall u32 (asns s) /\ (length (asns s) <= 255)%nat.

Lemma read_write_segment s rest : segment_ok s ->
  read_segment true (write_segment true s ++ rest) = Ok (s, rest).
Proof.
  intros [Hu Hl]. unfold write_segment, read_segment. cbn [app write_asn].
  rewrite wrap_small by uint. rewrite Nat2Z.id.
  change (write_asn true) with (be_bytes 4).
  assert (Hlen : length (mjoin (be_bytes 4 <$> asns s)) = (length (asns s) * 4)%nat)
    by (rewrite (length_concat 4) by apply be4_lengths; by len).
  rewrite decide_False by len. rewrite <- Hlen, take_app_length, drop_app_length.
  rewrite <- (length_fmap (be_bytes 4) (asns s)), chunks_concat by apply be4_lengths.
  rewrite be_val_be4 by done. destruct s as [[] l]; done.
Qed.

Lemma read_write_segments segs : Forall segment_ok segs ->
  decode_segments_exact (write_segments segs true) true = Ok segs.
Proof.
  intros H. rewrite list.Forall_forall in H. unfold decode_segments_exact, write_segments.
  rewrite (many_concat _ (read_segment_consumes true) (write_segment true) id).
  - by rewrite list_fmap_id.
  - intros s rest Hs. by apply read_write_segment, H.
  - done.
Qed.

Lemma be_bytes_2 v : exists a b, be_bytes 2 v = [a; b].
Proof. unfold be_bytes. cbn. eauto. Qed.

Definition mapped_prefix : list Z := replicate 10 0 ++ [0xff; 0xff].

(** A next hop that is not an IPv4-mapped IPv6 address (those are read back as
    IPv4). *)
Definition next_hop_ok (a : IpAddr) : Prop :=
  match a with
  | V4 o => length o = 4%nat
  | V6 o => length o = 16%nat /\ take 12 o <> mapped_prefix
  end.

Definition mp_nlri_ok (nlri : list Prefix) : Prop :=
  Forall (fun p => prefix_ok p /\ v4 p = false) nlri.

Definition attr_ok (a : PathAttr) : Prop :=
  match a with
  | Origin _ => True
  | AsPath segs | As4Path segs => Forall segment_ok segs
  | NextHop ip => length ip = 4%nat
  | Communities cs => Forall u32 cs
  | MpReach afi _ nh nlri => u16 afi /\ afi <> AFI_IPV4 /\ next_hop_ok nh /\ mp_nlri_ok nlri
  | MpUnreach afi _ nlri => u16 afi /\ afi <> AFI_IPV4 /\ mp_nlri_ok nlri
  end.

Definition item_of (a : PathAttr) : AttrItem :=
  match a with Communities cs => Comm cs | _ => Push a end.

Lemma write_mp_nlri_ok nlri : mp_nlri_ok nlri ->
  write_mp_nlri nlri = Ok (mjoin (write_nlri <$> nlri)).
Proof.
  intros H. unfold write_mp_nlri. destruct (existsb v4 nlri) eqn:E; [|done].
  apply existsb_exists in E as (p & Hp & Hv). apply list_elem_of_In in Hp.
  eapply list.Forall_forall in H as [_ H]; [|done]. congruence.
Qed.

Lemma write_next_hop_ok nh : next_hop_ok nh ->
  exists n o, write_next_hop nh = Z.of_nat n :: o /\ length o = n /\ (n <= 16)%nat /\
    decode_next_hop o = Ok nh.
Proof.
  destruct nh as [o|o]; cbn [next_hop_ok write_next_hop].
  - intros Hl. exists 4%nat, o. split_and!; try done; [lia|]. unfold decode_next_hop. by rewrite decide_True.
  - intros [Hl Hm]. exists 16%nat, o. split_and!; try done. unfold decode_next_hop.
    rewrite decide_False, decide_True by lia. rewrite (take_ge o 16) by lia. by rewrite decide_False.
Qed.

Lemma decode_mp_reach_value afi safi nh nlri :
  attr_ok (MpReach afi safi nh nlri) ->
  decode_mp_reach (be_bytes 2 afi ++ [safi] ++ write_next_hop nh ++ [0] ++ mjoin (write_nlri <$> nlri))
  = Ok (MpReach afi safi nh nlri).
Proof.
  intros (Ha & Hne & Hnh & Hn). destruct (write_next_hop_ok nh Hnh) as (n & o & -> & Ho & _ & Hd).
  destruct (be_bytes_2 afi) as (a & b & E). rewrite E.
  cbn [app]. unfold decode_mp_reach. rewrite <- E, be_val_be_bytes, Nat2Z.id by done.
  rewrite decide_False by len. rewrite <- Ho, take_app_length, Hd. step.
  rewrite drop_app_ge by lia. replace (length o + 1 - length o)%nat with 1%nat by lia. cbn [skipn].
  rewrite bool_decide_eq_false_2 by done. rewrite drop_0. by rewrite (read_write_nlris false) by done.
Qed.

Lemma decode_mp_unreach_value afi safi nlri :
  attr_ok (MpUnreach afi safi nlri) ->
  decode_mp_unreach (be_bytes 2 afi ++ [safi] ++ mjoin (write_nlri <$> nlri))
  = Ok (MpUnreach afi safi nlri).
Proof.
  intros (Ha & Hne & Hn).
  destruct (be_bytes_2 afi) as (a & b & E). rewrite E.
  cbn [app]. unfold decode_mp_unreach. rewrite <- E, be_val_be_bytes by done.
  rewrite bool_decide_eq_false_2 by done. by rewrite (read_write_nlris false) by done.
Qed.

Lemma attr_item_value a v ty opt opt' : attr_ok a -> attr_value a = Ok (v, ty, opt) ->
  attr_item ty opt' v = Ok (item_of a).
Proof.
  intros Ha H. destruct a as [o|segs|segs|ip|cs|afi safi nh nlri|afi safi nlri]; cbn [attr_value] in H.
  - by injection H as <- <- <-.
  - injection H as <- <- <-. unfold attr_item. rewrite decide_False, decide_True by lia.
    by rewrite read_write_segments.
  - injection H as <- <- <-. unfold attr_item. rewrite !decide_False by lia. rewrite decide_True by done.
    by rewrite read_write_segments.
  - injection H as <- <- <-. unfold attr_item. rewrite !decide_False by lia. by rewrite !decide_True.
  - injection H as <- <- <-. unfold attr_item. rewrite !decide_False by lia. rewrite decide_True by done.
    assert (Hl : length (mjoin (be_bytes 4 <$> cs)) = (length cs * 4)%nat)
      by (rewrite (length_concat 4) by apply be4_lengths; by len).
    rewrite Hl, decide_True by (apply Nat.Div0.mod_mul). rewrite Nat.div_mul by lia.
    rewrite <- (length_fmap (be_bytes 4) cs), chunks_concat by apply be4_lengths.
    by rewrite be_val_be4.
  - rewrite write_mp_nlri_ok in H by apply Ha. apply Ok_inj in H.
    apply pair_equal_spec in H as [[<- <-]%pair_equal_spec <-].
    unfold attr_item. rewrite !decide_False by lia. rewrite decide_True by done.
    by rewrite decode_mp_reach_value.
  - rewrite write_mp_nlri_ok in H by apply Ha. apply Ok_inj in H.
    apply pair_equal_spec in H as [[<- <-]%pair_equal_spec <-].
    unfold attr_item. rewrite !decide_False by lia. rewrite decide_True by done.
    by rewrite decode_mp_unreach_value.
Qed.

Lemma attr_flags_ext a opt :
  Z.land (attr_flags a opt) 0x10 = 0 /\ Z.land (Z.lor (attr_flags a opt) 0x10) 0x10 <> 0.
Proof. destruct a, opt; cbn; split; (reflexivity || discriminate). Qed.

Lemma read_write_attr a b rest : attr_ok a -> write_attr a = Ok b -> Z.of_nat (length b) <= 65535 ->
  read_attr (b ++ rest) = Ok (item_of a, rest).
Proof.
  intros Ha H Hlen. unfold write_attr in H. apply bind_Ok_inv in H as ([[v ty] opt] & Hv & H).
  destruct (attr_flags_ext a opt) as [Hf0 Hf1]. case_decide as Hl; apply Ok_inj in H; subst b.
  - destruct (be_bytes_2 (wrap 16 (Z.of_nat (length v)))) as (x & y & E). rewrite E in *.
    unfold read_attr. rewrite <- !app_assoc. cbn [app firstn skipn].
    rewrite bool_decide_eq_true_2 by done. revert Hlen. cbn [app length]. intros Hlen.
    rewrite decide_False by lia. rewrite take_0, <- E, be_val_be_bytes, wrap_small, Nat2Z.id
      by (rewrite ?wrap_small; uint).
    rewrite decide_False by len. cbn [Nat.add skipn]. rewrite drop_0, take_app_length, drop_app_length.
    by erewrite attr_item_value.
  - unfold read_attr. cbn [app firstn skipn]. rewrite bool_decide_eq_false_2 by (rewrite Hf0; auto).
    rewrite wrap_small by uint. cbn [length].
    rewrite take_0, be_val_singleton, Nat2Z.id, !decide_False by len. cbn [Nat.add skipn]. rewrite drop_0, take_app_length, drop_app_length.
    by erewrite attr_item_value.
Qed.

Definition attr_bytes (a : PathAttr) : list Z := default [] (ok (write_attr a)).

Lemma write_attrs_Ok l b : write_attrs l = Ok b ->
  b = mjoin (attr_bytes <$> l) /\ Forall (fun a => write_attr a = Ok (attr_bytes a)) l.
Proof.
  revert b. induction l as [|a l IH]; intros b H; cbn [write_attrs] in H.
  { injection H as <-. split; [done|fall]. }
  apply bind_Ok_inv in H as (x & Ex & H). apply bind_Ok_inv in H as (y & Ey & H). apply Ok_inj in H.
  assert (Ha : attr_bytes a = x) by (unfold attr_bytes; by rewrite Ex).
  destruct (IH y Ey) as [-> HF]. subst b.
  change (mjoin (attr_bytes <$> a :: l)) with (attr_bytes a ++ mjoin (attr_bytes <$> l)).
  rewrite Ha. split; [done|]. apply Forall_cons_2; [by rewrite Ha|done].
Qed.

Lemma write_attr_nonempty a : write_attr a <> Ok [].
Proof.
  unfold write_attr. destruct (attr_value a) as [[[v ty] opt]|e|]; [|done..]. step. by case_decide.
Qed.

Lemma length_mjoin_elem (f : PathAttr -> list Z) l a : a ∈ l -> (length (f a) <= length (mjoin (f <$> l)))%nat.
Proof.
  induction 1 as [a l|a b l _ IH]; change (mjoin (f <$> ?x :: l)) with (f x ++ mjoin (f <$> l));
    rewrite length_app; lia.
Qed.

Definition is_comm (a : PathAttr) : bool := match a with Communities _ => true | _ => false end.

(** Attributes in the form the decoder gives: communities once, last, not empty. *)
Definition attrs_ok (l : list PathAttr) : Prop :=
  Forall attr_ok l /\
  exists pre cs, l = pre ++ (if decide (cs = []) then [] else [Communities cs]) /\
    Forall (fun a => is_comm a = false) pre.

Lemma items_pushed pre cs : Forall (fun a => is_comm a = false) pre ->
  let items := item_of <$> pre ++ (if decide (cs = []) then [] else [Communities cs]) in
  pushed items = pre /\ communities items = cs.
Proof.
  induction 1 as [|a pre Ha _ [IH1 IH2]]; cbn.
  - case_decide; cbn; [naive_solver|]. by rewrite app_nil_r.
  - destruct a; cbn in *; try done; (split; [f_equal|]); done.
Qed.

Lemma decode_write_attrs l b : attrs_ok l -> write_attrs l = Ok b -> Z.of_nat (length b) <= 65535 ->
  decode_attrs b = Ok l.
Proof.
  intros [Hok (pre & cs & Hl & Hpre)] Hw Hlen. destruct (write_attrs_Ok l b Hw) as [-> HF].
  rewrite list.Forall_forall in Hok, HF. unfold decode_attrs.
  rewrite (many_concat _ read_attr_consumes attr_bytes item_of).
  - step. subst l. destruct (items_pushed pre cs Hpre) as [-> ->]. done.
  - intros a rest Ha. apply read_write_attr; [by apply Hok|by apply HF|].
    pose proof (length_mjoin_elem attr_bytes l a Ha). lia.
  - intros a Ha E. apply (write_attr_nonempty a). rewrite HF, E; done.
Qed.

Definition cap_ok (c : Capability) : Prop :=
  match c with
  | MpBgp afi _ => u16 afi
  | CapRouteRefresh => True
  | FourOctetAs asn => u32 asn
  end.

Lemma read_cap_encode c rest : cap_ok c -> read_cap (cap_encode c ++ rest) = Ok (Some c, rest).
Proof.
  destruct c as [afi safi| |asn]; cbn [cap_ok cap_encode]; intros Hc.
  - destruct (be_bytes_2 afi) as (x & y & E). rewrite E. unfold read_cap. cbn [app length].
    rewrite decide_False by (cbn; lia). rewrite decide_True by done.
    change (Z.to_nat 4) with 4%nat. cbn [firstn skipn]. rewrite take_0, drop_0, <- E.
    by rewrite be_val_be_bytes.
  - unfold read_cap. cbn [app length]. rewrite decide_False by (cbn; lia).
    change (Z.to_nat 0) with 0%nat. rewrite decide_False by (cbn; intuition lia). by rewrite decide_True.
  - unfold read_cap. cbn [app]. change (Z.to_nat 4) with 4%nat. rewrite decide_False by len.
    rewrite decide_False, decide_False, decide_True by (cbn; intuition (try lia; done)).
    rewrite take_app_le, drop_app_ge by len. rewrite take_ge by len.
    replace (4 - _)%nat with 0%nat by len. by rewrite drop_0, be_val_be_bytes.
Qed.

Lemma cap_encode_nonempty c : cap_encode c <> [].
Proof. by destruct c. Qed.

Lemma read_caps caps : Forall cap_ok caps ->
  many read_cap (mjoin (cap_encode <$> caps)) = Ok (Some <$> caps).
Proof.
  intros H. rewrite list.Forall_forall in H. apply many_concat; [apply read_cap_consumes| |].
  - intros c rest Hc. by apply read_cap_encode, H.
  - intros. apply cap_encode_nonempty.
Qed.

Lemma omap_id_Some {A} (l : list A) : omap id (Some <$> l) = l.
Proof. induction l as [|x l IH]; [done|]. cbn. by rewrite IH. Qed.

(** Messages in the form the decoder gives. *)
Definition msg_ok (m : Message) : Prop :=
  match m with
  | Open m =>
      u32 (as4 m) /\ u16 (hold_time m) /\ length (bgp_id m) = 4%nat /\
      Forall cap_ok (capabilities m) /\ (length (mjoin (cap_encode <$> capabilities m)) <= 253)%nat /\
      negotiated_as (if decide (as4 m > 65535) then AS_TRANS else as4 m) (capabilities m) = as4 m
  | Update m =>
      Forall (fun p => prefix_ok p /\ v4 p = true) (withdrawn m) /\ attrs_ok (attrs m) /\
      Forall (fun p => prefix_ok p /\ v4 p = true) (announced m)
  | RouteRefresh m => u16 (rr_afi m)
  | Notification _ | Keepalive => True
  end.

Lemma decode_open_body m body : msg_ok (Open m) -> encode_body (Open m) = (body, Ok TYPE_OPEN) ->
  decode_open body = Ok (Open m).
Proof.
  intros (Has & Hh & Hid & Hc & Hl & Hneg) H. cbn [encode_body] in H.
  set (caps := mjoin (cap_encode <$> capabilities m)) in *.
  rewrite decide_False in H by lia. apply pair_equal_spec in H as [<- _].
  set (my := if decide (as4 m > 65535) then AS_TRANS else wrap 16 (as4 m)).
  assert (Hmy : my = if decide (as4 m > 65535) then AS_TRANS else as4 m)
    by (unfold my; case_decide; [done|]; apply wrap_small; uint).
  assert (Hmyu : u16 my) by (rewrite Hmy; case_decide; [|uint]; unfold AS_TRANS; uint).
  destruct (be_bytes_2 my) as (a1 & a2 & Ea). destruct (be_bytes_2 (hold_time m)) as (h1 & h2 & Eh).
  rewrite Ea, Eh, !wrap_small by uint. destruct (bgp_id m) as [|i1 [|i2 [|i3 [|i4 [|]]]]] eqn:Ei; try done.
  unfold decode_open. cbn [app].
  rewrite Nat2Z.id, decide_False by (cbn [length]; lia).
  rewrite take_ge by (cbn [length]; lia). rewrite many_unfold by (done || apply read_param_consumes).
  cbn [read_param]. rewrite Nat2Z.id, decide_False, decide_True by (cbn [length]; lia).
  rewrite take_ge, drop_ge by lia. unfold caps. rewrite read_caps by done. step. rewrite omap_id_Some.
  change (many read_param []) with (@Ok WireError _ ([] : list (list Capability))). step.
  cbn [mjoin list_join]. rewrite app_nil_r, <- Ea, <- Eh, !be_val_be_bytes, Hmy, Hneg by done.
  rewrite <- Ei. by destruct m.
Qed.

Lemma all_v4 ps : Forall (fun p => prefix_ok p /\ v4 p = true) ps ->
  existsb (fun p => negb (v4 p)) ps = false.
Proof.
  intros H. destruct (existsb _ ps) eqn:E; [|done].
  apply existsb_exists in E as (p & Hp%list_elem_of_In & Hv).
  eapply list.Forall_forall in H as [_ H]; [|done]. by rewrite H in Hv.
Qed.

Lemma decode_update_body m body : msg_ok (Update m) -> encode_body (Update m) = (body, Ok TYPE_UPDATE) ->
  decode_update body = Ok (Update m).
Proof.
  intros (Hw & Ha & Hn) H. cbn [encode_body] in H. rewrite !all_v4 in H by done. cbn [orb] in H.
  set (w := mjoin (write_nlri <$> withdrawn m)) in *. case_decide as Hwl; [done|].
  destruct (write_attrs (attrs m)) as [a|e|] eqn:Ea; [|done..]. case_decide as Hal; [done|].
  apply pair_equal_spec in H as [<- _].
  destruct (be_bytes_2 (wrap 16 (Z.of_nat (length w)))) as (x & y & Ex).
  rewrite Ex. unfold decode_update. cbn [app].
  rewrite decide_False by len.
  rewrite <- Ex, be_val_be_bytes, (wrap_small 16 (Z.of_nat (length w))), Nat2Z.id by (rewrite ?wrap_small; uint).
  rewrite decide_False by len. rewrite take_app_length, drop_app_length.
  assert (Hrw : read_nlris w true = Ok (withdrawn m)) by by apply (read_write_nlris true).
  rewrite Hrw. step.
  destruct (be_bytes_2 (wrap 16 (Z.of_nat (length a)))) as (p & q & Ep).
  rewrite Ep. cbn [app firstn skipn]. rewrite take_0, drop_0, <- Ep.
  rewrite be_val_be_bytes, wrap_small, Nat2Z.id by (rewrite ?wrap_small; uint).
  rewrite decide_False by len. rewrite take_app_length, drop_app_length.
  rewrite (decode_write_attrs (attrs m)) by (done || lia). step.
  rewrite (read_write_nlris true) by done. step. by destruct m.
Qed.

(** The body and type the header frames. *)
Lemma decode_framed ty body :
  Z.of_nat (HEADER_LEN + length body) <= 4096 ->
  decode (replicate 16 255 ++ be_bytes 2 (Z.of_nat (HEADER_LEN + length body)) ++ [ty] ++ body)
  = if decide (ty = TYPE_KEEPALIVE) then Ok Keepalive
    else if decide (ty = TYPE_OPEN) then decode_open body
    else if decide (ty = TYPE_UPDATE) then decode_update body
    else if decide (ty = TYPE_NOTIFICATION) then
      match body with
      | c :: s :: d => Ok (Notification (mk_notification c s d))
      | _ => Err Truncated
      end
    else if decide (ty = TYPE_ROUTE_REFRESH) then
      match body with
      | [a; b; _; s] => Ok (RouteRefresh (mk_refresh (be_val [a; b]) s))
      | _ => Err Truncated
      end
    else Err (BadType ty).
Proof.
  intros Hl. unfold HEADER_LEN in *. set (n := Z.of_nat _) in *.
  destruct (be_bytes_2 n) as (x & y & E). rewrite E. unfold decode.
  rewrite decide_False by (unfold HEADER_LEN; len).
  assert (Hd : drop 16 (replicate 16 255 ++ [x; y] ++ [ty] ++ body) = x :: y :: ty :: body) by done.
  assert (Hm : marker_ok (replicate 16 255 ++ [x; y] ++ [ty] ++ body) = true) by done.
  rewrite Hm, Hd. cbn [negb firstn]. rewrite <- E, be_val_be_bytes by (unfold n; uint).
  rewrite decide_False by (unfold n; len). done.
Qed.

(** C40: every message in normal form that the encoder accepts is decoded from its
    bytes to itself; the bytes are appended, what the output held is kept. *)
Theorem bgp_roundtrip (m : Message) (out out' : list Z)
  (Hm : msg_ok m) (Henc : encode m out = (Ok tt, out')) :
  exists b, out' = out ++ b /\ decode b = Ok m.
Proof.
  unfold encode in Henc. destruct (encode_body m) as [body [ty|e|]] eqn:Eb; [|done..].
  destruct (decide (MAX_MSG_LEN < _)) as [|Hl]; [done|]. apply pair_equal_spec in Henc as [_ <-].
  unfold MAX_MSG_LEN in Hl. eexists. split; [done|]. rewrite wrap_small by uint.
  rewrite decode_framed by lia.
  destruct m as [m|m|m| |m]; cbn [encode_body] in Eb.
  - assert (ty = TYPE_OPEN) as -> by (case_decide; congruence).
    rewrite decide_False, decide_True by done. by apply decode_open_body.
  - assert (ty = TYPE_UPDATE) as ->.
    { destruct (_ || _); [congruence|]. case_decide; [congruence|].
      destruct (write_attrs _); [|congruence..]. case_decide; congruence. }
    rewrite !decide_False, decide_True by done. by apply decode_update_body.
  - apply pair_equal_spec in Eb as [<- [= <-]]. by destruct m.
  - by apply pair_equal_spec in Eb as [<- [= <-]].
  - apply pair_equal_spec in Eb as [<- [= <-]]. destruct (be_bytes_2 (rr_afi m)) as (x & y & E).
    cbn in Hm. rewrite E. cbn [app]. rewrite !decide_False, decide_True by done.
    rewrite <- E, be_val_be_bytes by done. by destruct m.
Qed.

(** ** Panics *)

(** A length byte over 128 with at least 17 bytes after it. *)
Definition long_nlri (l : list Z) : Prop :=
  exists pre b post, l = pre ++ b :: post /\ 128 < b /\ (17 <= length post)%nat.

Lemma long_nlri_app_l l r : long_nlri l -> long_nlri (l ++ r).
Proof.
  intros (pre & b & post & -> & Hb & Hl). exists pre, b, (post ++ r). rewrite <- app_assoc.
  split; [done|]. split; [done|]. len.
Qed.

Lemma long_nlri_app_r l r : long_nlri r -> long_nlri (l ++ r).
Proof. intros (pre & b & post & -> & Hb). exists (l ++ pre), b, post. by rewrite <- app_assoc. Qed.

Lemma long_nlri_take n l : long_nlri (take n l) -> long_nlri l.
Proof. intros H. rewrite <- (take_drop n l). by apply long_nlri_app_l. Qed.

Lemma long_nlri_drop n l : long_nlri (drop n l) -> long_nlri l.
Proof. intros H. rewrite <- (take_drop n l). by apply long_nlri_app_r. Qed.

Lemma long_nlri_cons x l : long_nlri l -> long_nlri (x :: l).
Proof. apply (long_nlri_app_r [x]). Qed.

#[local] Hint Resolve long_nlri_take long_nlri_drop long_nlri_cons : rill.

Lemma octets_long n : (16 < octets n)%nat -> 128 < n.
Proof.
  unfold octets. intros H. pose proof (Z.div_mod n 8). pose proof (Z.mod_pos_bound n 8).
  revert H. case_decide; lia.
Qed.

Lemma read_nlri_panic f b : b <> [] -> read_nlri f b = Panic -> long_nlri b.
Proof.
  intros Hne H. destruct b as [|x rest]; [done|]. unfold read_nlri in H. case_decide as Hl; [done|].
  exists [], x, rest. apply bind_panic_inv in H as [H|(pb & _ & H)].
  - unfold Frame.Frame.copy_at in H. case_decide as Hd; [done|].
    assert (16 < octets x)%nat.
    { destruct (decide (16 < octets x)%nat); [done|]. exfalso. apply Hd. len. }
    split; [done|]. split; [by apply octets_long|]. cbn in Hl. lia.
  - by destruct (Route.new _ _ _).
Qed.

Lemma read_nlris_panic b f : read_nlris b f = Panic -> long_nlri b.
Proof.
  intros H. apply many_panic in H as (n & Hne & H); [|apply read_nlri_consumes].
  apply read_nlri_panic in H; eauto with rill.
Qed.

Lemma segments_safe b w : safe (decode_segments_exact b w).
Proof.
  intros H. apply many_panic in H as (n & _ & H); [|apply read_segment_consumes].
  destruct (drop n b) as [|x [|y l]]; [done..|]. unfold read_segment in H. by case_decide.
Qed.

Lemma next_hop_safe b : safe (decode_next_hop b).
Proof. unfold decode_next_hop. by repeat case_decide. Qed.

Lemma mp_reach_panic v : decode_mp_reach v = Panic -> long_nlri v.
Proof.
  destruct v as [|a [|b [|s [|n rest]]]]; try done. unfold decode_mp_reach. case_decide as Hc; [done|].
  intros H. apply bind_panic_inv in H as [H|(nh & _ & H)]; [by apply next_hop_safe in H|].
  apply bind_panic_inv in H as [H|(? & _ & H)]; [|done].
  apply read_nlris_panic in H. eauto 6 with rill.
Qed.

Lemma mp_unreach_panic v : decode_mp_unreach v = Panic -> long_nlri v.
Proof.
  destruct v as [|a [|b [|s rest]]]; try done. unfold decode_mp_unreach.
  intros H. apply bind_panic_inv in H as [H|(? & _ & H)]; [|done].
  apply read_nlris_panic in H. eauto 6 with rill.
Qed.

Lemma attr_item_panic ty opt v : attr_item ty opt v = Panic -> long_nlri v.
Proof.
  unfold attr_item. intros H.
  destruct (decide (ty = 1)); [by destruct v as [|? []], opt|].
  destruct (decide (ty = 2)).
  { apply bind_panic_inv in H as [H|(? & _ & H)]; [|done]. unfold or_else in H.
    destruct (decode_segments_exact v true) eqn:E; [done|by apply segments_safe in H|].
    by apply segments_safe in E. }
  destruct (decide (ty = 3)); [case_decide; [done|by destruct opt]|].
  destruct (decide (ty = 8)); [by case_decide|].
  destruct (decide (ty = 14)).
  { apply bind_panic_inv in H as [H|(? & _ & H)]; [|done]. by apply mp_reach_panic. }
  destruct (decide (ty = 15)).
  { apply bind_panic_inv in H as [H|(? & _ & H)]; [|done]. by apply mp_unreach_panic. }
  destruct (decide (ty = 17)); [|by destruct opt].
  apply bind_panic_inv in H as [H|(? & _ & H)]; [by apply segments_safe in H|done].
Qed.

Lemma decode_attrs_panic b : decode_attrs b = Panic -> long_nlri b.
Proof.
  unfold decode_attrs. intros H. apply bind_panic_inv in H as [H|(? & _ & H)]; [|done].
  apply many_panic in H as (n & _ & H); [|apply read_attr_consumes].
  apply (long_nlri_drop n). destruct (drop n b) as [|f [|ty rest]]; [done..|].
  unfold read_attr in H. case_decide; [done|]. case_decide; [done|].
  apply bind_panic_inv in H as [H|(? & _ & H)]; [|done].
  apply attr_item_panic in H. eauto with rill.
Qed.

Lemma decode_open_safe b : safe (decode_open b).
Proof.
  intros H. unfold decode_open in H. do 10 (destruct b as [|? b]; [done|]). case_decide; [done|].
  apply bind_panic_inv in H as [H|(? & _ & H)]; [|done].
  apply many_panic in H as (n & _ & H); [|apply read_param_consumes].
  destruct (drop n _) as [|x [|y l]]; [done..|]. unfold read_param in H. repeat case_decide; try done.
  apply bind_panic_inv in H as [H|(? & _ & H)]; [|done].
  apply many_panic in H as (k & _ & H); [|apply read_cap_consumes].
  destruct (drop k _) as [|x' [|y' l']]; [done..|]. unfold read_cap in H. by case_decide.
Qed.

Lemma decode_update_panic b : decode_update b = Panic -> long_nlri b.
Proof.
  unfold decode_update. destruct b as [|x [|y rest]]; [done..|].
  case_decide as Hc; [done|]. case_decide as Hc'; [done|].
  intros H. apply bind_panic_inv in H as [H|(? & _ & H)].
  - apply read_nlris_panic in H. eauto with rill.
  - revert H. case_decide as Hc''; [done|]. intros H.
    apply bind_panic_inv in H as [H|(? & _ & H)]; [apply decode_attrs_panic in H; eauto 10 with rill|].
    apply bind_panic_inv in H as [H|(? & _ & H)]; [apply read_nlris_panic in H; eauto 10 with rill|done].
Qed.

Lemma decode_panic b : decode b = Panic -> long_nlri b.
Proof.
  unfold decode. case_decide as Hl; [done|]. destruct (negb _); [done|]. case_decide as Hc; [done|].
  intros H. apply bind_panic_inv in H as [H|(ty & _ & H)].
  { unfold at_ in H. destruct (b !! 18%nat) eqn:E; [done|]. apply lookup_ge_None in E.
    unfold HEADER_LEN in Hl. lia. }
  destruct (decide (ty = TYPE_KEEPALIVE)); [done|].
  destruct (decide (ty = TYPE_OPEN)); [by apply decode_open_safe in H|].
  destruct (decide (ty = TYPE_UPDATE)); [apply decode_update_panic in H; eauto with rill|].
  destruct (decide (ty = TYPE_NOTIFICATION)); [by destruct (drop HEADER_LEN b) as [|? []]|].
  destruct (decide (ty = TYPE_ROUTE_REFRESH)); [|done].
  by destruct (drop HEADER_LEN b) as [|? [|? [|? [|? []]]]].
Qed.

(** The decoder panics on no message except those in which a byte over 128,
    where a prefix length is read, is followed by 17 bytes or more. *)
Theorem decode_panic_cause (b : list Z) (Hp : decode b = Panic) :
  exists pre len post, b = pre ++ len :: post /\ 128 < len /\ (17 <= length post)%nat.
Proof. exact (decode_panic b Hp). Qed.

(** An UPDATE without withdrawals or attributes and with one NLRI of [len] bits. *)
Definition nlri_message (len : Z) : list Z :=
  replicate 16 255 ++ be_bytes 2 56 ++ [TYPE_UPDATE] ++ [0; 0; 0; 0] ++ [len] ++ replicate 32 7.

Lemma decode_panic_cause_witness :
  exists pre len post, nlri_message 200 = pre ++ len :: post /\ 128 < len /\ (17 <= length post)%nat.
Proof. apply (decode_panic_cause (nlri_message 200)). vm_compute. reflexivity. Defined.

(** And it does panic on all of those lengths.  A peer that sends one
    UPDATE whose NLRI has a length byte of 129 to 255 makes the frame reader
    index past its 16-byte prefix buffer. *)
Theorem feed_panics_on_long_nlri (len : Z) (Hlen : 129 <= len <= 255) :
  (feed (mk_reader []) (nlri_message len)).1.1 = Panic.
Proof.
  assert (H : octets_all (fun n => negb (bool_decide (128 < n)) ||
     match (feed (mk_reader []) (nlri_message n)).1.1 with Panic => true | _ => false end) = true)
    by (vm_compute; reflexivity).
  eapply octets_all_spec in H; [|unfold is_uint; instantiate (1 := len); lia].
  rewrite bool_decide_eq_true_2 in H by lia. by destruct (feed _ _).1.1.
Qed.

Lemma feed_panics_on_long_nlri_witness : (feed (mk_reader []) (nlri_message 255)).1.1 = Panic.
Proof. apply (feed_panics_on_long_nlri 255). lia. Defined.

(** ** Decoded prefixes are canonical *)

Definition attr_nlri (a : PathAttr) : list Prefix :=
  match a with MpReach _ _ _ nlri | MpUnreach _ _ nlri => nlri | _ => [] end.

(** All prefixes an UPDATE mentions. *)
Definition update_prefixes (u : UpdateMsg) : list Prefix :=
  withdrawn u ++ announced u ++ mjoin (attr_nlri <$> attrs u).

Lemma octets_nonneg_len n : Frame.Frame.copy_at (E:=WireError) (replicate 16 0) 0 n =
  if decide (length n <= 16)%nat then Ok (n ++ replicate (16 - length n) 0) else Panic.
Proof.
  unfold Frame.Frame.copy_at. rewrite length_replicate, Nat.add_0_l. case_decide; [|done].
  by rewrite take_0, drop_replicate.
Qed.

Lemma read_nlris_ok b f ps : bytes b -> read_nlris b f = Ok ps -> Forall prefix_ok ps.
Proof.
  intros Hb. apply many_items; [apply read_nlri_consumes|]. intros n p rest H.
  assert (Hbn : bytes (drop n b)) by auto with rill.
  destruct (drop n b) as [|x l]; [done|]. apply Forall_cons_1 in Hbn as [Hx Hl].
  unfold read_nlri in H. case_decide as Hlen; [done|]. rewrite octets_nonneg_len in H.
  case_decide as H16; [|done]. step in H. destruct (Route.new _ x f) as [q|] eqn:En; [|done].
  step in H. injection H as <- _. apply new_ok in En; [tauto|len| |uint].
  apply bytes_app. split; auto with rill.
Qed.

Lemma attr_item_ok ty opt v a : bytes v -> attr_item ty opt v = Ok (Push a) -> Forall prefix_ok (attr_nlri a).
Proof.
  intros Hv H. unfold attr_item in H.
  destruct (decide (ty = 1)).
  { destruct v as [|? []]; [by destruct opt|by injection H as <-; fall|by destruct opt]. }
  destruct (decide (ty = 2)); [apply bind_Ok_inv in H as (? & _ & [= <-]); fall|].
  destruct (decide (ty = 3)); [case_decide; [injection H as <-; fall|by destruct opt]|].
  destruct (decide (ty = 8)); [by case_decide|].
  destruct (decide (ty = 14)).
  { apply bind_Ok_inv in H as (x & Hx & [= <-]). unfold decode_mp_reach in Hx.
    destruct v as [|b1 [|b2 [|b3 [|b4 v]]]]; try done. case_decide; [done|].
    apply bind_Ok_inv in Hx as (nh & _ & Hx). apply bind_Ok_inv in Hx as (ps & Hps & [= <-]).
    eapply read_nlris_ok; [|done]. do 4 (apply Forall_cons_1 in Hv as [_ Hv]). by apply bytes_drop. }
  destruct (decide (ty = 15)).
  { apply bind_Ok_inv in H as (x & Hx & [= <-]). unfold decode_mp_unreach in Hx.
    destruct v as [|b1 [|b2 [|b3 v]]]; try done. apply bind_Ok_inv in Hx as (ps & Hps & [= <-]).
    eapply read_nlris_ok; [|done]. by do 3 (apply Forall_cons_1 in Hv as [_ Hv]). }
  destruct (decide (ty = 17)); [apply bind_Ok_inv in H as (? & _ & [= <-]); fall|by destruct opt].
Qed.

Lemma decode_attrs_ok b l : bytes b -> decode_attrs b = Ok l -> Forall prefix_ok (mjoin (attr_nlri <$> l)).
Proof.
  intros Hb H. unfold decode_attrs in H. apply bind_Ok_inv in H as (items & Hi & [= <-]).
  assert (HF : Forall (fun it => forall a, it = Push a -> Forall prefix_ok (attr_nlri a)) items).
  { eapply many_items; [apply read_attr_consumes| |exact Hi]. intros n it rest H a ->.
    assert (Hbn : bytes (drop n b)) by auto with rill.
    destruct (drop n b) as [|f [|ty r]]; [done..|]. unfold read_attr in H.
    case_decide; [done|]. case_decide; [done|]. apply bind_Ok_inv in H as (x & Hx & [= -> _]).
    eapply attr_item_ok; [|done]. auto with rill. }
  rewrite fmap_app. rewrite join_app. apply Forall_app. split; [|case_decide; apply Forall_nil_2].
  clear Hi. induction HF as [|it items Hit _ IH]; [fall|]. destruct it; cbn [pushed]; [|apply IH..].
  change (mjoin (attr_nlri <$> a :: pushed items)) with (attr_nlri a ++ mjoin (attr_nlri <$> pushed items)).
  apply Forall_app. split; [by apply Hit|apply IH].
Qed.

Lemma decode_open_Ok b m : decode_open b = Ok m -> exists o, m = Open o.
Proof.
  unfold decode_open. do 10 (destruct b as [|? b]; [done|]). case_decide; [done|].
  intros Hd. apply bind_Ok_inv in Hd as (ps & _ & [= <-]). eauto.
Qed.

Lemma decode_update_ok b u : bytes b -> decode_update b = Ok (Update u) -> Forall prefix_ok (update_prefixes u).
Proof.
  intros Hb H. unfold decode_update in H. destruct b as [|x [|y rest]]; [done..|].
  case_decide; [done|]. case_decide; [done|]. apply bind_Ok_inv in H as (w & Hw & H).
  case_decide; [done|]. apply bind_Ok_inv in H as (l & Hl & H). apply bind_Ok_inv in H as (n & Hn & [= <-]).
  do 2 (apply Forall_cons_1 in Hb as [_ Hb]). unfold update_prefixes; cbn [withdrawn announced attrs].
  rewrite !Forall_app. split; [|split].
  - eapply read_nlris_ok; [|done]. by apply bytes_take.
  - eapply read_nlris_ok; [|done]. by do 3 apply bytes_drop.
  - eapply decode_attrs_ok; [|done]. by apply bytes_take; do 2 apply bytes_drop.
Qed.

Lemma decode_prefixes_ok b u : bytes b -> decode b = Ok (Update u) -> Forall prefix_ok (update_prefixes u).
Proof.
  intros Hb H. unfold decode in H. case_decide; [done|]. destruct (negb _); [done|].
  case_decide; [done|]. apply bind_Ok_inv in H as (ty & _ & H).
  destruct (decide (ty = TYPE_KEEPALIVE)); [done|].
  destruct (decide (ty = TYPE_OPEN)); [by apply decode_open_Ok in H as [? ?]|].
  destruct (decide (ty = TYPE_UPDATE)); [eapply decode_update_ok; [|done]; by apply bytes_drop|].
  destruct (decide (ty = TYPE_NOTIFICATION)); [by destruct (drop HEADER_LEN b) as [|? []]|].
  destruct (decide (ty = TYPE_ROUTE_REFRESH)); [|done].
  by destruct (drop HEADER_LEN b) as [|? [|? [|? [|? []]]]].
Qed.

(** ** The reader and the chunks it is fed *)

Definition frames (b : list Z) : outcome WireError unit * list Z * list Message := feed_loop (length b) b.

(** The length field of a buffer that holds a header. *)
Definition frame_len (b : list Z) : Z := be_val (take 2 (drop 16 b)).

Lemma feed_loop_enough b : forall n, (length b <= n)%nat -> feed_loop n b = frames b.
Proof.
  unfold frames. induction b as [b IH] using length_ind. intros n Hn.
  destruct (length b) as [|k] eqn:El; [by destruct b, n|].
  destruct n as [|n]; [lia|]. cbn [feed_loop].
  case_decide; [done|]. destruct (negb _); [done|]. case_decide as Hlen; [done|]. case_decide; [done|].
  destruct (decode _); [|done..].
  assert (Hd : (length (drop (Z.to_nat (frame_len b)) b) < S k)%nat) by (unfold frame_len; rewrite length_drop; lia).
  fold (frame_len b). rewrite (IH _ Hd n), (IH _ Hd k) by lia. done.
Qed.

(** The reader's loop, without fuel. *)
Lemma frames_unfold b :
  frames b
  = if decide (length b < HEADER_LEN)%nat then (Ok tt, b, [])
    else if negb (marker_ok b) then (Err BadMarker, b, [])
    else if decide (frame_len b < 19 \/ 4096 < frame_len b) then (Err (BadLength (frame_len b)), b, [])
    else if decide (length b < Z.to_nat (frame_len b))%nat then (Ok tt, b, [])
    else match decode (take (Z.to_nat (frame_len b)) b) with
         | Ok m => let '(r, b', ms) := frames (drop (Z.to_nat (frame_len b)) b) in (r, b', m :: ms)
         | Err e => (Err e, b, [])
         | Panic => (Panic, b, [])
         end.
Proof.
  unfold frames at 1. destruct (length b) as [|k] eqn:El.
  { cbn [feed_loop]. by rewrite El. }
  cbn [feed_loop]. rewrite El. fold (frame_len b).
  case_decide; [done|]. destruct (negb _); [done|]. case_decide as Hlen; [done|]. case_decide; [done|].
  destruct (decode _); [|done..]. rewrite feed_loop_enough; [done|]. rewrite length_drop. lia.
Qed.

(** Feeding more data resumes where the reader stopped. *)
Lemma frames_app b d :
  frames (b ++ d)
  = match frames b with
    | (Ok _, b', ms) => let '(r, b'', ms') := frames (b' ++ d) in (r, b'', ms ++ ms')
    | (r, b', ms) => (r, b' ++ d, ms)
    end.
Proof.
  induction b as [b IH] using length_ind. rewrite (frames_unfold b).
  destruct (decide (length b < HEADER_LEN)%nat) as [|H19]; [by destruct (frames (b ++ d)) as [[]]|].
  unfold HEADER_LEN in H19.
  assert (Hm : marker_ok (b ++ d) = marker_ok b) by (unfold marker_ok; by rewrite take_app_le by lia).
  assert (Hf : frame_len (b ++ d) = frame_len b).
  { unfold frame_len. rewrite drop_app_le, take_app_le by len. done. }
  destruct (negb (marker_ok b)) eqn:Em.
  { rewrite frames_unfold, decide_False, Hm, Em by (unfold HEADER_LEN; len). done. }
  destruct (decide (frame_len b < 19 \/ _)) as [Hb|Hb].
  { rewrite frames_unfold, decide_False, Hm, Em, Hf, decide_True by (unfold HEADER_LEN in *; len). done. }
  destruct (decide (length b < Z.to_nat (frame_len b))%nat) as [|Hl].
  { by destruct (frames (b ++ d)) as [[]]. }
  rewrite frames_unfold, decide_False, Hm, Em, Hf, decide_False, decide_False by (unfold HEADER_LEN in *; len).
  rewrite take_app_le, drop_app_le by lia.
  destruct (decode (take _ b)) as [m|e|]; [|done..].
  rewrite IH by (rewrite length_drop; lia).
  destruct (frames (drop _ b)) as [[[] b'] ms]; [|done..]. by destruct (frames (b' ++ d)) as [[]].
Qed.

(** A connection: chunks fed until the first error. *)
Fixpoint feed_all (r : FrameReader) (cs : list (list Z)) : outcome WireError unit * FrameReader * list Message :=
  match cs with
  | [] => (Ok tt, r, [])
  | c :: cs =>
      let '(res, r', ms) := feed r c in
      match res with
      | Ok _ => let '(res', r'', ms') := feed_all r' cs in (res', r'', ms ++ ms')
      | _ => (res, r', ms)
      end
  end.

(** What the reader keeps after a successful call holds no complete frame. *)
Lemma frames_idle b b' ms u : frames b = (Ok u, b', ms) -> frames b' = (Ok tt, b', []).
Proof.
  revert b' ms. induction b as [b IH] using length_ind. intros b' ms. rewrite frames_unfold.
  destruct (decide (length b < HEADER_LEN)%nat) as [Hs|].
  { intros [= _ <- <-]. by rewrite frames_unfold, decide_True. }
  destruct (negb (marker_ok b)) eqn:Em; [done|].
  destruct (decide (frame_len b < 19 \/ _)); [done|].
  destruct (decide (length b < Z.to_nat (frame_len b))%nat) as [Hl|Hl].
  { intros [= _ <- <-]. by rewrite frames_unfold, decide_False, Em, decide_False, decide_True. }
  destruct (decode _) as [m|e|]; [|done..].
  destruct (frames (drop _ b)) as [[r c] l] eqn:E. intros [= -> <- <-].
  eapply IH; [|exact E]. rewrite length_drop. lia.
Qed.

Lemma feed_all_frames b cs : frames b = (Ok tt, b, []) ->
  let '(r, b', ms) := frames (b ++ mjoin cs) in
  let '(r', rd, ms') := feed_all (mk_reader b) cs in
  r = r' /\ ms = ms' /\ (r = Ok tt -> rd = mk_reader b').
Proof.
  revert b. induction cs as [|c cs IH]; intros b Hb.
  { change (mjoin []) with (@nil Z). rewrite app_nil_r, Hb. cbn. done. }
  change (mjoin (c :: cs)) with (c ++ mjoin cs). rewrite app_assoc, frames_app.
  cbn [feed_all]. unfold feed. cbn [buf]. fold (frames (b ++ c)).
  destruct (frames (b ++ c)) as [[[[]|e|] b1] ms1] eqn:E1; [|done..].
  apply frames_idle in E1. specialize (IH b1 E1).
  destruct (frames (b1 ++ mjoin cs)) as [[r b2] ms2].
  destruct (feed_all (mk_reader b1) cs) as [[r' rd] ms']. destruct IH as (-> & -> & ?). done.
Qed.

(** The reader does not depend on how the stream was cut.  Feeding the chunks
    of a stream one after the other gives the messages and the first error that
    feeding the whole stream at once gives, and keeps the same bytes. *)
Theorem feed_chunking (cs : list (list Z)) :
  let '(r, rd, ms) := feed (mk_reader []) (mjoin cs) in
  let '(r', rd', ms') := feed_all (mk_reader []) cs in
  r = r' /\ ms = ms' /\ (r = Ok tt -> rd' = rd).
Proof.
  pose proof (feed_all_frames [] cs ltac:(done)) as H. unfold feed. cbn [buf].
  fold (frames ([] ++ mjoin cs)). destruct (frames ([] ++ mjoin cs)) as [[r b] ms]. exact H.
Qed.

Definition sample_update : Message :=
  Update (mk_update [sample_prefix 16]
    [Origin 0; AsPath [mk_segment false [4242420001; 65000]]; NextHop [172; 20; 0; 1];
     Communities [1; 2]] [sample_prefix 14]).

Lemma sample_update_ok : msg_ok sample_update.
Proof.
  split; [|split; [split|]]; try (fall; split; [apply sample_prefix_ok; auto|done]).
  - fall; cbn [attr_ok]; fall; try uint. split; [cbn [asns]; fall; uint|cbn; lia].
  - eexists [Origin 0; AsPath _; NextHop _], [1; 2]. split; [done|]. by fall.
Qed.

Lemma bgp_roundtrip_witness :
  exists b, (encode sample_update [7]).2 = [7] ++ b /\ decode b = Ok sample_update.
Proof.
  apply (bgp_roundtrip sample_update [7]); [exact sample_update_ok | vm_compute; reflexivity].
Defined.

End BgpWire.
