(* ===== verification/BgpFsm.v ===== *)
(** * BGP session state machine (rill-dn42/src/fsm/mod.rs)

    Events in, actions out.  [run] composes the handlers in the order the driver
    calls them; every handler returns the actions and the machine after it. *)

From S2P Require Import Prelude BgpWire.

Module BgpFsm.
Import BgpWire.

Definition ERR_OPEN : Z := 2.
Definition ERR_HOLD_TIMER : Z := 4.
Definition ERR_FSM : Z := 5.
Definition ERR_CEASE : Z := 6.
Definition SUB_BAD_PEER_AS : Z := 2.
Definition SUB_BAD_BGP_ID : Z := 3.
Definition SUB_UNSUPPORTED_CAPABILITY : Z := 7.
Definition SUB_MAX_PREFIXES : Z := 1.

Inductive State := Idle | Connect | OpenSent | OpenConfirm | Established.

#[export] Instance State_eq_dec : EqDecision State.
Proof. solve_decision. Defined.

Record LocalConfig := mk_config {
  l_as4 : Z;
  l_bgp_id : list Z;
  l_hold_time : Z;
  peer_as4 : option Z
}.

Inductive Action :=
| Send (m : Message)
| Close.

Record BgpFsm := mk_fsm {
  state : State;
  local : LocalConfig;
  negotiated_hold : Z
}.

Definition new (l : LocalConfig) : BgpFsm := mk_fsm Idle l (l_hold_time l).

Definition set_state (s : State) (f : BgpFsm) : BgpFsm := mk_fsm s (local f) (negotiated_hold f).

Definition keepalive_interval (f : BgpFsm) : option Z :=
  if decide (negotiated_hold f = 0) then None else Some (Z.max (negotiated_hold f / 3) 1).

Definition start (f : BgpFsm) : BgpFsm := set_state Connect f.

Definition notify (code subcode : Z) : Action := Send (Notification (mk_notification code subcode [])).

(** NOTIFICATION, Idle, close. *)
Definition refuse (f : BgpFsm) (code subcode : Z) : list Action * BgpFsm :=
  ([notify code subcode; Close], set_state Idle f).

Definition notify_fsm_error (f : BgpFsm) : list Action * BgpFsm := refuse f ERR_FSM 1.

Definition local_open (f : BgpFsm) : OpenMsg :=
  mk_open (l_as4 (local f)) (l_hold_time (local f)) (l_bgp_id (local f))
    [MpBgp AFI_IPV4 SAFI_UNICAST; MpBgp AFI_IPV6 SAFI_UNICAST; CapRouteRefresh;
     FourOctetAs (l_as4 (local f))].

Definition on_tcp_established (f : BgpFsm) : list Action * BgpFsm :=
  match state f with
  | Connect | Idle =>
      let f := mk_fsm OpenSent (local f) (l_hold_time (local f)) in
      ([Send (Open (local_open f))], f)
  | OpenSent | OpenConfirm | Established => notify_fsm_error f
  end.

Definition on_tcp_closed (f : BgpFsm) : BgpFsm := set_state Idle f.

Definition on_hold_timer (f : BgpFsm) : list Action * BgpFsm :=
  match state f with
  | OpenConfirm | Established => refuse f ERR_HOLD_TIMER 0
  | _ => ([], f)
  end.

Definition is_mp (c : Capability) : bool :=
  match c with
  | MpBgp afi safi =>
      bool_decide (safi = SAFI_UNICAST) && (bool_decide (afi = AFI_IPV4) || bool_decide (afi = AFI_IPV6))
  | _ => false
  end.
Definition is_as4 (c : Capability) : bool := match c with FourOctetAs _ => true | _ => false end.
Definition is_rr (c : Capability) : bool := match c with CapRouteRefresh => true | _ => false end.

Definition negotiate (local_hold peer_hold : Z) : Z :=
  if decide (local_hold = 0 \/ peer_hold = 0) then 0 else Z.min local_hold peer_hold.

Definition on_open (f : BgpFsm) (open : OpenMsg) : list Action * BgpFsm :=
  if decide (state f <> OpenSent) then notify_fsm_error f
  else if decide (0 < hold_time open /\ hold_time open < 3) then refuse f ERR_OPEN 6
  else if match peer_as4 (local f) with
          | Some expect => negb (bool_decide (as4 open = expect))
          | None => false
          end then refuse f ERR_OPEN SUB_BAD_PEER_AS
  else if decide (bgp_id open = [0; 0; 0; 0]) then refuse f ERR_OPEN SUB_BAD_BGP_ID
  else
    let has_mp := existsb is_mp (capabilities open) in
    let has_as4 := existsb is_as4 (capabilities open) in
    let has_rr := existsb is_rr (capabilities open) in
    if negb has_mp || negb has_as4 || negb has_rr then refuse f ERR_OPEN SUB_UNSUPPORTED_CAPABILITY
    else ([Send Keepalive],
          mk_fsm OpenConfirm (local f) (negotiate (l_hold_time (local f)) (hold_time open))).

Definition on_keepalive (f : BgpFsm) : list Action * BgpFsm :=
  match state f with
  | OpenConfirm => ([], set_state Established f)
  | Established => ([], f)
  | _ => notify_fsm_error f
  end.

Definition on_update (f : BgpFsm) : list Action * BgpFsm :=
  if decide (state f <> Established) then notify_fsm_error f else ([], f).

Definition on_message (f : BgpFsm) (m : Message) : list Action * BgpFsm :=
  match m with
  | Open o => on_open f o
  | Keepalive => on_keepalive f
  | Update _ => on_update f
  | Notification _ => ([Close], set_state Idle f)
  | RouteRefresh _ => if decide (state f = Established) then ([], f) else notify_fsm_error f
  end.

Definition cease (f : BgpFsm) : list Action * BgpFsm := ([notify ERR_CEASE 0], set_state Idle f).

Definition notify_max_prefix (f : BgpFsm) : list Action * BgpFsm := refuse f ERR_CEASE SUB_MAX_PREFIXES.

(** ** Runs *)

Inductive event :=
| Start
| TcpEstablished
| TcpClosed
| HoldTimer
| Msg (m : Message)
| Cease
| MaxPrefix.

Definition handle (f : BgpFsm) (e : event) : list Action * BgpFsm :=
  match e with
  | Start => ([], start f)
  | TcpEstablished => on_tcp_established f
  | TcpClosed => ([], on_tcp_closed f)
  | HoldTimer => on_hold_timer f
  | Msg m => on_message f m
  | Cease => cease f
  | MaxPrefix => notify_max_prefix f
  end.

Definition run (f : BgpFsm) (es : list event) : BgpFsm := foldl (fun f e => (handle f e).2) f es.

(** ** What an established session means *)

(** The OPEN is acceptable to the configuration. *)
Record acceptable (l : LocalConfig) (o : OpenMsg) : Prop := {
  acc_hold : hold_time o <= 0 \/ 3 <= hold_time o;
  acc_as : forall a, peer_as4 l = Some a -> as4 o = a;
  acc_id : bgp_id o <> [0; 0; 0; 0];
  acc_caps : existsb is_mp (capabilities o) = true /\ existsb is_as4 (capabilities o) = true /\
             existsb is_rr (capabilities o) = true
}.

(** Events an established session takes without leaving that state. *)
Definition quiet (e : event) : Prop :=
  match e with Msg Keepalive | Msg (Update _) | Msg (RouteRefresh _) => True | _ => False end.

Definition history (l : LocalConfig) (es : list event) (f : BgpFsm) : Prop :=
  match state f with
  | Idle | Connect => True
  | OpenSent => exists pre a, es = pre ++ TcpEstablished :: a /\ Forall (eq HoldTimer) a
  | OpenConfirm => exists pre a o, es = pre ++ TcpEstablished :: a ++ [Msg (Open o)] /\
      Forall (eq HoldTimer) a /\ acceptable l o /\
      negotiated_hold f = negotiate (l_hold_time l) (hold_time o)
  | Established => exists pre a o c, es = pre ++ TcpEstablished :: a ++ Msg (Open o) :: Msg Keepalive :: c /\
      Forall (eq HoldTimer) a /\ acceptable l o /\ Forall quiet c /\
      negotiated_hold f = negotiate (l_hold_time l) (hold_time o)
  end.

Lemma refuse_idle f c s : state (refuse f c s).2 = Idle /\ local (refuse f c s).2 = local f.
Proof. done. Qed.

Lemma on_open_cases f o :
  (state (on_open f o).2 = Idle /\ local (on_open f o).2 = local f) \/
  (state f = OpenSent /\ acceptable (local f) o /\
   (on_open f o).2 = mk_fsm OpenConfirm (local f) (negotiate (l_hold_time (local f)) (hold_time o))).
Proof.
  unfold on_open. case_decide as Hs; [by left|]. case_decide as Hh; [by left|].
  destruct (match peer_as4 (local f) with Some _ => _ | None => _ end) eqn:Ea; [by left|].
  case_decide as Hi; [by left|]. destruct (negb _ || negb _ || negb _) eqn:Ec; [by left|]. right.
  split; [by destruct (decide (state f = OpenSent))|]. split; [|done].
  rewrite !orb_false_iff, !negb_false_iff in Ec. split; [lia| |done|naive_solver].
  intros a Hp. rewrite Hp in Ea. by apply negb_false_iff, bool_decide_eq_true in Ea.
Qed.

Lemma local_handle f e : local (handle f e).2 = local f.
Proof.
  destruct e as [| | | |m| |]; cbn; try done.
  - unfold on_tcp_established. by destruct (state f).
  - unfold on_hold_timer. by destruct (state f).
  - destruct m as [o|u|n| |r]; cbn; try done.
    + destruct (on_open_cases f o) as [[_ ?]|(_ & _ & ->)]; done.
    + unfold on_update. by case_decide.
    + unfold on_keepalive. by destruct (state f).
    + by case_decide.
Qed.

Lemma history_step es f e : history (local f) es f ->
  history (local f) (es ++ [e]) (handle f e).2.
Proof.
  destruct f as [s l h]. unfold history. cbn [local state]. intros H.
  destruct e as [| | | |m| |]; cbn [handle]; try done.
  - unfold on_tcp_established; cbn [state]. destruct s; cbn; try done; exists es, []; by split; [|fall].
  - unfold on_hold_timer; cbn [state]. destruct s; cbn; try done.
    destruct H as (pre & a & -> & Ha). exists pre, (a ++ [HoldTimer]).
    rewrite <- app_assoc. split; [done|]. apply Forall_app. split; [done|fall].
  - destruct m as [o|u|n| |r]; cbn [on_message].
    + destruct (on_open_cases (mk_fsm s l h) o) as [[-> _]|(Hs & Hacc & ->)]; [done|]. cbn in Hs. subst s.
      destruct H as (pre & a & -> & Ha). cbn. exists pre, a, o. rewrite <- app_assoc. done.
    + unfold on_update; cbn [state]. case_decide as Hs; [done|]. destruct s; try done. cbn.
      destruct H as (pre & a & o & c & -> & ? & ? & ? & ?). exists pre, a, o, (c ++ [Msg (Update u)]).
      split; [by rewrite <- !app_assoc; cbn; rewrite <- app_assoc|].
      split_and!; try done. apply Forall_app. split; [done|fall].
    + done.
    + unfold on_keepalive; cbn [state]. destruct s; cbn; try done.
      * destruct H as (pre & a & o & -> & ? & ? & ?). exists pre, a, o, [].
        split; [by rewrite <- !app_assoc; cbn; rewrite <- app_assoc|]. split_and!; try done; fall.
      * destruct H as (pre & a & o & c & -> & ? & ? & ? & ?). exists pre, a, o, (c ++ [Msg Keepalive]).
        split; [by rewrite <- !app_assoc; cbn; rewrite <- app_assoc|].
        split_and!; try done. apply Forall_app. split; [done|fall].
    + case_decide as Hs; [|done]. cbn in Hs. subst s. cbn.
      destruct H as (pre & a & o & c & -> & ? & ? & ? & ?). exists pre, a, o, (c ++ [Msg (RouteRefresh r)]).
      split; [by rewrite <- !app_assoc; cbn; rewrite <- app_assoc|].
      split_and!; try done. apply Forall_app. split; [done|fall].
Qed.

Lemma run_history l es : local (run (new l) es) = l /\ history l es (run (new l) es).
Proof.
  unfold run. induction es as [|e es IH] using rev_ind; [done|]. rewrite foldl_snoc.
  set (f := foldl _ (new l) es) in *. clearbody f. destruct IH as [<- IH2].
  rewrite local_handle. split; [done|]. by apply history_step.
Qed.

(** A session is established only by a complete handshake.  In every run, an
    established machine has, since its last TCP connection, received exactly one
    OPEN, acceptable to the configuration, directly followed by a KEEPALIVE, and
    after that only KEEPALIVE, UPDATE and ROUTE-REFRESH messages; its hold time
    is the negotiated one. *)
Theorem established_handshake (l : LocalConfig) (es : list event)
  (He : state (run (new l) es) = Established) :
  exists pre a o c,
    es = pre ++ TcpEstablished :: a ++ Msg (Open o) :: Msg Keepalive :: c /\
    Forall (eq HoldTimer) a /\ acceptable l o /\ Forall quiet c /\
    negotiated_hold (run (new l) es) = negotiate (l_hold_time l) (hold_time o).
Proof. destruct (run_history l es) as [_ H]. unfold history in H. by rewrite He in H. Qed.

Definition sample_config : LocalConfig := mk_config 4242420001 [10; 0; 0; 1] 90 (Some 4242420002).
Definition sample_open : OpenMsg :=
  mk_open 4242420002 30 [10; 0; 0; 2] [MpBgp 2 1; CapRouteRefresh; FourOctetAs 4242420002].
Definition sample_events : list event :=
  [Start; TcpEstablished; HoldTimer; Msg (Open sample_open); Msg Keepalive; Msg Keepalive].

Lemma established_handshake_witness :
  exists pre a o c,
    sample_events = pre ++ TcpEstablished :: a ++ Msg (Open o) :: Msg Keepalive :: c /\
    Forall (eq HoldTimer) a /\ acceptable sample_config o /\ Forall quiet c /\
    negotiated_hold (run (new sample_config) sample_events)
    = negotiate (l_hold_time sample_config) (hold_time o).
Proof. apply (established_handshake sample_config sample_events). vm_compute. reflexivity. Defined.

(** A message ends the session exactly when the machine asks for the
    connection to be closed, and then its only output is at most one
    NOTIFICATION before the close. *)
Theorem close_iff_idle (f : BgpFsm) (m : Message) :
  let '(acts, f') := on_message f m in
  (state f' = Idle <-> Close ∈ acts) /\
  (Close ∈ acts -> acts = [Close] \/ exists n, acts = [Send (Notification n); Close]).
Proof.
  assert (Hrefuse : forall c s, let '(acts, f') := refuse f c s in
    (state f' = Idle <-> Close ∈ acts) /\
    (Close ∈ acts -> acts = [Close] \/ exists n, acts = [Send (Notification n); Close])).
  { intros. cbn. split; [split; [|done]; intros _; apply elem_of_cons; right; left|eauto]. }
  assert (Hgo : forall acts f', state f' <> Idle -> Close ∉ acts ->
    (state f' = Idle <-> Close ∈ acts) /\
    (Close ∈ acts -> acts = [Close] \/ exists n, acts = [Send (Notification n); Close])) by tauto.
  destruct m as [o|u|n| |r]; cbn [on_message].
  - unfold on_open. case_decide; [apply Hrefuse|]. case_decide; [apply Hrefuse|].
    destruct (match peer_as4 (local f) with Some _ => _ | None => _ end); [apply Hrefuse|].
    case_decide; [apply Hrefuse|]. destruct (negb _ || negb _ || negb _); [apply Hrefuse|].
    apply Hgo; [done|]. by rewrite list_elem_of_singleton.
  - unfold on_update. case_decide as Hs; [apply Hrefuse|]. apply Hgo; [|by inversion 1].
    destruct (state f); naive_solver.
  - split; [|eauto]. split; [left|done].
  - unfold on_keepalive. destruct (state f) eqn:Es; try apply Hrefuse; apply Hgo; cbn; try congruence; by inversion 1.
  - case_decide as Hs; [|apply Hrefuse]. apply Hgo; [congruence|by inversion 1].
Qed.

End BgpFsm.
