(* ===== verification/Rib.v ===== *)
(** * Import policy and routing table (rill-dn42/src/{policy,rib}/mod.rs)

    [Policy]: the checks an announced route passes, the prefix count.
    [Rib]: the paths of all peers per prefix, best-path selection and the stream
    of changes handed to the route engine. *)

From S2P Require Import Prelude Net Route BgpWire.

Module Policy.
Import Net Route.

Record BgpPath := mk_path {
  as_path : list Z;
  next_hop : option IpAddr;
  origin : Z;
  communities : list Z
}.

#[export] Instance BgpPath_eq_dec : EqDecision BgpPath.
Proof. solve_decision. Defined.

Definition path_len (p : BgpPath) : nat := length (as_path p).

Definition default_bogons : list Prefix :=
  omap (fun c => ok (parse c))
    ["0.0.0.0/8"; "127.0.0.0/8"; "169.254.0.0/16"; "192.168.0.0/16"; "100.64.0.0/10"; "224.0.0.0/4";
     "240.0.0.0/4"]%string ++
  omap (fun c => ok (parse c)) ["::/128"; "::1/128"; "fe80::/10"; "ff00::/8"; "2001:db8::/32"]%string.

Inductive ImportReject :=
| NotInWhitelist (p : string)
| Bogon (p : string)
| AsLoop (asn : Z)
| MissingNextHop
| MaxPrefixes (n : Z).

Record ImportPolicy := mk_policy {
  whitelist : list Prefix;
  bogons : list Prefix;
  own_as : Z;
  max_prefixes : option Z;
  accepted : Z
}.

Definition new (whitelist : list Prefix) (bogons : option (list Prefix)) (own_as : Z)
    (max_prefixes : option Z) : ImportPolicy :=
  mk_policy whitelist (default default_bogons bogons) own_as max_prefixes 0.

Definition set_accepted (p : ImportPolicy) (n : Z) : ImportPolicy :=
  mk_policy (whitelist p) (bogons p) (own_as p) (max_prefixes p) n.

Definition note_accepted (p : ImportPolicy) : outcome ImportReject ImportPolicy :=
  match max_prefixes p with
  | Some max =>
      if decide (accepted p >= max) then Err (MaxPrefixes max)
      else Ok (set_accepted p (wrap 32 (accepted p + 1)))
  | None => Ok (set_accepted p (wrap 32 (accepted p + 1)))
  end.

Definition note_withdrawn (p : ImportPolicy) : ImportPolicy := set_accepted p (sat_sub (accepted p) 1).

Definition over_limit (p : ImportPolicy) : bool :=
  match max_prefixes p with Some max => bool_decide (accepted p > max) | None => false end.

Definition admit_route (p : ImportPolicy) (prefix : Prefix) (path : BgpPath) : outcome ImportReject unit :=
  if decide (next_hop path = None) then Err MissingNextHop
  else if existsb (fun b => is_covered_by prefix b) (bogons p) then Err (Bogon (to_cidr prefix))
  else if negb (existsb (fun w => is_covered_by prefix w) (whitelist p))
  then Err (NotInWhitelist (to_cidr prefix))
  else if decide (own_as p ∈ as_path path) then Err (AsLoop (own_as p))
  else Ok tt.

(** The [ExportPolicy]: only the node's own prefixes are announced. *)
Record ExportPolicy := mk_export { own_prefixes : list Prefix }.

(** All of the policy but its counter. *)
Definition same_rules (p q : ImportPolicy) : Prop :=
  whitelist p = whitelist q /\ bogons p = bogons q /\ own_as p = own_as q /\
  max_prefixes p = max_prefixes q.

Lemma admit_same p q prefix path : same_rules p q -> admit_route p prefix path = admit_route q prefix path.
Proof. intros (H1 & H2 & H3 & _). unfold admit_route. by rewrite H1, H2, H3. Qed.

Lemma set_accepted_same p n : same_rules (set_accepted p n) p.
Proof. done. Qed.

Lemma note_accepted_Ok p q : note_accepted p = Ok q ->
  same_rules q p /\ accepted q = wrap 32 (accepted p + 1) /\
  forall max, max_prefixes p = Some max -> accepted p < max.
Proof.
  unfold note_accepted. destruct (max_prefixes p) as [max|] eqn:E.
  - case_decide; [done|]. intros [= <-]. split; [done|]. split; [done|]. intros ? [= <-]. lia.
  - intros [= <-]. done.
Qed.

Lemma same_rules_sym p q : same_rules p q -> same_rules q p.
Proof. unfold same_rules. naive_solver. Qed.

Lemma same_rules_trans p q r : same_rules p q -> same_rules q r -> same_rules p r.
Proof. unfold same_rules. intuition congruence. Qed.

End Policy.

Module Rib.
Import Net Route BgpWire Policy.

Inductive RouteChange :=
| Learned (prefix : Prefix) (path : BgpPath)
| Withdrawn (prefix : Prefix).

Abbreviation PfxKey := (list Z * Z * bool)%type.

Definition key (p : Prefix) : PfxKey := (bits p, plen p, v4 p).

Record PeerPaths := mk_peers {
  peers : list (string * BgpPath);
  best_peer : option string
}.

(** [path_len] first, then the peer's name. *)
Definition path_lt (a b : string * BgpPath) : bool :=
  if decide (path_len a.2 < path_len b.2)%nat then true
  else if decide (path_len b.2 < path_len a.2)%nat then false
  else String.ltb a.1 b.1.

Definition select_best (ps : list (string * BgpPath)) : option string := fst <$> min_by path_lt ps.

Abbreviation LocRib := (gmap PfxKey PeerPaths).

(** [find(|(p, _)| p == peer)] *)
Definition path_of (ps : list (string * BgpPath)) (peer : string) : option BgpPath :=
  snd <$> List.find (fun x => bool_decide (x.1 = peer)) ps.

Definition best (rib : LocRib) (prefix : Prefix) : option BgpPath :=
  e ← rib !! key prefix;
  b ← best_peer e;
  path_of (peers e) b.

(** Replaces the path of the first entry of [peer]. *)
Fixpoint replace_path (ps : list (string * BgpPath)) (peer : string) (path : BgpPath) :=
  match ps with
  | [] => []
  | (p, q) :: ps => if decide (p = peer) then (p, path) :: ps else (p, q) :: replace_path ps peer path
  end.

Definition push_learned (prefix : Prefix) (e : PeerPaths) : list RouteChange :=
  match best_peer e with
  | Some b => match path_of (peers e) b with Some path => [Learned prefix path] | None => [] end
  | None => []
  end.

Record ApplyOutcome := mk_outcome {
  changes : list RouteChange;
  rejected : list (string * ImportReject);
  max_prefix_exceeded : bool
}.

(** The running state of [apply]: table, policy and outcome so far. *)
Record apply_state := mk_apply { a_rib : LocRib; a_policy : ImportPolicy; a_out : ApplyOutcome }.

Definition add_changes (o : ApplyOutcome) (cs : list RouteChange) : ApplyOutcome :=
  mk_outcome (changes o ++ cs) (rejected o) (max_prefix_exceeded o).

(** One announcement. *)
Definition announce (peer : string) (st : apply_state) (prefix : Prefix) (path : BgpPath) : apply_state :=
  let o := a_out st in
  match admit_route (a_policy st) prefix path with
  | Err reason =>
      mk_apply (a_rib st) (a_policy st)
        (mk_outcome (changes o) (rejected o ++ [(to_cidr prefix, reason)]) (max_prefix_exceeded o))
  | _ =>
      let k := key prefix in
      let e := default (mk_peers [] None) (a_rib st !! k) in
      match path_of (peers e) peer with
      | Some slot =>
          if decide (slot = path) then mk_apply (<[k := e]> (a_rib st)) (a_policy st) o
          else
            let ps := replace_path (peers e) peer path in
            let e := mk_peers ps (select_best ps) in
            mk_apply (<[k := e]> (a_rib st)) (a_policy st) (add_changes o (push_learned prefix e))
      | None =>
          match note_accepted (a_policy st) with
          | Ok pol =>
              let ps := peers e ++ [(peer, path)] in
              let e := mk_peers ps (select_best ps) in
              mk_apply (<[k := e]> (a_rib st)) pol (add_changes o (push_learned prefix e))
          | _ =>
              (* the entry made by [or_default] stays *)
              mk_apply (<[k := e]> (a_rib st)) (a_policy st) (mk_outcome (changes o) (rejected o) true)
          end
      end
  end.

(** The loop over the announcements; it returns from [apply] once the limit is
    exceeded. *)
Fixpoint announce_all (peer : string) (st : apply_state) (l : list (Prefix * BgpPath)) : apply_state :=
  match l with
  | [] => st
  | (prefix, path) :: l =>
      let st := announce peer st prefix path in
      if max_prefix_exceeded (a_out st) then st else announce_all peer st l
  end.

Definition remove_one (rib : LocRib) (peer : string) (prefix : Prefix)
    : option (list RouteChange * LocRib) :=
  let k := key prefix in
  e ← rib !! k;
  let ps := List.filter (fun x => negb (bool_decide (x.1 = peer))) (peers e) in
  if decide (length ps = length (peers e)) then None
  else if decide (ps = []) then Some ([Withdrawn prefix], delete k rib)
  else
    let nb := select_best ps in
    if decide (nb = best_peer e) then Some ([], <[k := mk_peers ps (best_peer e)]> rib)
    else
      let e := mk_peers ps nb in
      Some (push_learned prefix e, <[k := e]> rib).

(** One withdrawal. *)
Definition withdraw (peer : string) (st : apply_state) (prefix : Prefix) : apply_state :=
  match remove_one (a_rib st) peer prefix with
  | Some (cs, rib) => mk_apply rib (note_withdrawn (a_policy st)) (add_changes (a_out st) cs)
  | None => st
  end.

(** *** The routes an UPDATE carries *)

Definition flat (segs : list Segment) : list Z := mjoin (asns <$> segs).

(** The attribute loop: the base path and the last unicast MP_REACH. *)
Definition scan_attr (acc : BgpPath * option (Z * IpAddr)) (a : PathAttr) : BgpPath * option (Z * IpAddr) :=
  let '(b, mp) := acc in
  match a with
  | Origin o => (mk_path (as_path b) (next_hop b) o (communities b), mp)
  | AsPath segs =>
      if decide (as_path b = []) then (mk_path (flat segs) (next_hop b) (origin b) (communities b), mp)
      else (b, mp)
  | As4Path segs =>
      if decide (flat segs = []) then (b, mp)
      else (mk_path (flat segs) (next_hop b) (origin b) (communities b), mp)
  | NextHop ip => (mk_path (as_path b) (Some (V4 ip)) (origin b) (communities b), mp)
  | Communities cs => (mk_path (as_path b) (next_hop b) (origin b) cs, mp)
  | MpReach afi safi nh _ => if decide (safi = 1) then (b, Some (afi, nh)) else (b, mp)
  | _ => (b, mp)
  end.

Definition extract_announced (u : UpdateMsg) : list (Prefix * BgpPath) :=
  let '(b, mp) := foldl scan_attr (mk_path [] None 2 [], None) (attrs u) in
  ((fun p => (p, b)) <$> announced u) ++
  match mp with
  | None => []
  | Some (afi, nh) =>
      let path := mk_path (as_path b) (Some nh) (origin b) (communities b) in
      mjoin ((fun a => match a with
                       | MpReach a safi _ nlri =>
                           if decide (safi = 1 /\ a = afi) then (fun p => (p, path)) <$> nlri else []
                       | _ => []
                       end) <$> attrs u)
  end.

Definition extract_withdrawn (u : UpdateMsg) : list Prefix :=
  withdrawn u ++
  mjoin ((fun a => match a with
                   | MpUnreach afi safi nlri =>
                       if decide ((afi = 1 \/ afi = 2) /\ safi = 1) then nlri else []
                   | _ => []
                   end) <$> attrs u).

Definition apply (rib : LocRib) (peer : string) (u : UpdateMsg) (pol : ImportPolicy) : apply_state :=
  let st := announce_all peer (mk_apply rib pol (mk_outcome [] [] false)) (extract_announced u) in
  if max_prefix_exceeded (a_out st) then st
  else foldl (withdraw peer) st (extract_withdrawn u).

(** The keys are visited in some order; an [expect] on a key that is not a
    canonical prefix is a panic. *)
Fixpoint purge_keys (peer : string) (st : apply_state) (ks : list PfxKey) : outcome Empty_set apply_state :=
  match ks with
  | [] => Ok st
  | k :: ks =>
      prefix ← unwrap (Route.new k.1.1 k.1.2 k.2);
      purge_keys peer (withdraw peer st prefix) ks
  end.

Definition purge_peer (rib : LocRib) (peer : string) (pol : ImportPolicy) (ks : list PfxKey)
    : outcome Empty_set apply_state :=
  purge_keys peer (mk_apply rib pol (mk_outcome [] [] false)) ks.

(** ** Abstraction: the routes of each peer *)

Definition routes (rib : LocRib) (peer : string) : gmap PfxKey BgpPath :=
  omap (fun e => path_of (peers e) peer) rib.

(** What the table's consumer should hold for a key. *)
Definition view (rib : LocRib) (k : PfxKey) : option BgpPath :=
  e ← rib !! k; b ← best_peer e; path_of (peers e) b.

Definition entry_ok (e : PeerPaths) : Prop := NoDup (peers e).*1 /\ best_peer e = select_best (peers e).

Definition rib_ok (rib : LocRib) : Prop := forall k e, rib !! k = Some e ->
  entry_ok e /\ exists p, prefix_ok p /\ key p = k.

Lemma key_inj p q : key p = key q -> p = q.
Proof. destruct p, q. unfold key; cbn. congruence. Qed.

Lemma lookup_routes rib peer k :
  routes rib peer !! k = (e ← rib !! k; path_of (peers e) peer).
Proof. apply lookup_omap. Qed.

Lemma path_of_cons x l q : path_of (x :: l) q = if decide (x.1 = q) then Some x.2 else path_of l q.
Proof. unfold path_of. cbn. by case_bool_decide; case_decide. Qed.

Lemma path_of_app l x q :
  path_of (l ++ [x]) q
  = match path_of l q with Some y => Some y | None => if decide (x.1 = q) then Some x.2 else None end.
Proof.
  induction l as [|y l IH]; cbn [app]; [by rewrite path_of_cons; case_decide|].
  rewrite !path_of_cons. destruct (decide (y.1 = q)); [done|]. exact IH.
Qed.

Lemma path_of_replace l peer path q slot : path_of l peer = Some slot ->
  path_of (replace_path l peer path) q = if decide (peer = q) then Some path else path_of l q.
Proof.
  induction l as [|[p r] l IH]; cbn [replace_path]; [done|]. rewrite path_of_cons; cbn [fst snd].
  destruct (decide (p = peer)) as [->|Hne].
  - intros _. rewrite path_of_cons; cbn [fst snd]. case_decide; [done|]. by rewrite path_of_cons, decide_False.
  - intros H. rewrite !path_of_cons; cbn [fst snd]. rewrite IH by done.
    destruct (decide (p = q)) as [->|]; [|done]. by rewrite decide_False.
Qed.

Lemma path_of_filter l peer q :
  path_of (List.filter (fun x => negb (bool_decide (x.1 = peer))) l) q
  = if decide (peer = q) then None else path_of l q.
Proof.
  induction l as [|x l IH]; [by cbn; case_decide|]. cbn [List.filter].
  case_bool_decide as Hx; cbn [negb]; rewrite !path_of_cons, IH; repeat case_decide; congruence.
Qed.

Lemma path_of_None l q : path_of l q = None <-> q ∉ l.*1.
Proof.
  induction l as [|x l IH]; [by split; [intros _; apply not_elem_of_nil|]|].
  rewrite path_of_cons. cbn [fmap list_fmap]. rewrite not_elem_of_cons.
  case_decide; [naive_solver|]. rewrite IH. naive_solver.
Qed.

Lemma path_of_elem l q path : path_of l q = Some path -> (q, path) ∈ l.
Proof.
  induction l as [|[p r] l IH]; [done|]. rewrite path_of_cons; cbn [fst snd]. case_decide as H.
  - intros [= ->]. subst. left.
  - intros E. right. auto.
Qed.

Lemma elem_path_of l q path : NoDup l.*1 -> (q, path) ∈ l -> path_of l q = Some path.
Proof.
  induction l as [|[p r] l IH]; [by inversion 2|]. rewrite path_of_cons; cbn [fst snd]. intros Hnd.
  inversion Hnd as [|? ? Hn Hnd']; subst. intros [[= -> ->]|H]%elem_of_cons; [by rewrite decide_True|].
  case_decide as E; [|auto]. subst. exfalso. apply Hn. by apply (list_elem_of_fmap_2 fst _ (q, path)).
Qed.

Lemma replace_fst l peer path : (replace_path l peer path).*1 = l.*1.
Proof. induction l as [|[p r] l IH]; [done|]. cbn [replace_path]. case_decide; [done|]. cbn. by rewrite IH. Qed.

Lemma filter_fst_nodup (f : string * BgpPath -> bool) l : NoDup l.*1 -> NoDup (List.filter f l).*1.
Proof.
  induction l as [|x l IH]; [done|]. cbn. intros Hnd. inversion Hnd as [|? ? Hn Hnd']; subst.
  destruct (f x); [|auto]. cbn. constructor; [|auto].
  intros (y & Hy & Hin)%list_elem_of_fmap. apply elem_of_bfilter in Hin as [Hin _].
  apply Hn. rewrite Hy. by apply list_elem_of_fmap_2.
Qed.

Lemma filter_length_same (f : string * BgpPath -> bool) l :
  length (List.filter f l) = length l -> List.filter f l = l.
Proof.
  induction l as [|x l IH]; [done|]. cbn. destruct (f x); cbn; [intros; f_equal; auto|].
  intros H. pose proof (List.filter_length_le f l). lia.
Qed.

(** The best path of a sound entry is one of its paths, and a shortest one. *)
Lemma entry_best e : entry_ok e ->
  match peers e with
  | [] => best_peer e = None
  | _ => exists b path, best_peer e = Some b /\ path_of (peers e) b = Some path /\
         forall q path', path_of (peers e) q = Some path' -> (path_len path <= path_len path')%nat
  end.
Proof.
  intros [Hnd Hb]. destruct (peers e) as [|x l] eqn:Ep; [done|]. rewrite <- Ep in *.
  destruct (min_by path_lt (peers e)) as [[b path]|] eqn:Em; [|by rewrite Ep in Em].
  unfold select_best in Hb. rewrite Em in Hb.
  apply (min_by_measure path_lt (fun y => path_len y.2)) in Em as [Hin Hle].
  - exists b, path. split; [done|]. split; [by apply elem_path_of|].
    intros q path' Hq%path_of_elem. apply (Hle _ Hq).
  - intros y z. unfold path_lt. repeat case_decide; intros; lia || done.
  - intros y z. unfold path_lt. repeat case_decide; intros; lia || done.
Qed.

(** *** Changing one entry *)

Definition entry_view (e : PeerPaths) : option BgpPath := b ← best_peer e; path_of (peers e) b.

Lemma routes_insert rib k e q j :
  routes (<[k := e]> rib) q !! j = if decide (k = j) then path_of (peers e) q else routes rib q !! j.
Proof.
  rewrite !lookup_routes. case_decide as H; [subst; by rewrite lookup_insert_eq|].
  by rewrite lookup_insert_ne.
Qed.

Lemma view_insert rib k e j :
  view (<[k := e]> rib) j = if decide (k = j) then entry_view e else view rib j.
Proof.
  unfold view. case_decide as H; [subst; by rewrite lookup_insert_eq|]. by rewrite lookup_insert_ne.
Qed.

Lemma rib_ok_insert rib p e : rib_ok rib -> prefix_ok p -> entry_ok e -> rib_ok (<[key p := e]> rib).
Proof. intros Hr Hp He k x [[<- <-]|[_ H]]%lookup_insert_Some; eauto. Qed.

Lemma rib_entry rib k : rib_ok rib -> entry_ok (default (mk_peers [] None) (rib !! k)).
Proof. intros Hr. destruct (rib !! k) eqn:E; [by apply (Hr k)|]. split; [constructor|done]. Qed.

Lemma view_default rib k : view rib k = entry_view (default (mk_peers [] None) (rib !! k)).
Proof. unfold view. by destruct (rib !! k). Qed.

(** *** The consumer of the change stream *)

Definition apply_change (v : gmap PfxKey BgpPath) (c : RouteChange) : gmap PfxKey BgpPath :=
  match c with
  | Learned p path => <[key p := path]> v
  | Withdrawn p => delete (key p) v
  end.

Definition in_sync (v : gmap PfxKey BgpPath) (rib : LocRib) : Prop := forall k, v !! k = view rib k.

Lemma sync_insert v rib p e : in_sync v rib -> entry_ok e -> peers e <> [] ->
  in_sync (foldl apply_change v (push_learned p e)) (<[key p := e]> rib).
Proof.
  intros Hv He Hne j. rewrite view_insert. pose proof (entry_best e He) as Hb.
  destruct (peers e) as [|x l] eqn:Ep; [done|]. rewrite <- Ep in *.
  destruct Hb as (b & path & Hb & Hp & _). unfold push_learned, entry_view. rewrite Hb. step.
  rewrite Hp. cbn [foldl apply_change]. case_decide as H; [subst; by rewrite lookup_insert_eq|]. rewrite lookup_insert_ne by done.
  apply Hv.
Qed.

Lemma sync_same v rib k e : in_sync v rib -> entry_view e = view rib k -> in_sync v (<[k := e]> rib).
Proof. intros Hv He j. rewrite view_insert. case_decide as H; [subst|]; rewrite Hv; done. Qed.

Lemma sync_delete v rib p : in_sync v rib -> in_sync (delete (key p) v) (delete (key p) rib).
Proof.
  intros Hv j. unfold view. destruct (decide (key p = j)) as [<-|H]; [by rewrite !lookup_delete_eq|].
  rewrite !lookup_delete_ne by done. apply Hv.
Qed.

(** *** One announcement *)

Lemma entry_ok_new ps : NoDup ps.*1 -> entry_ok (mk_peers ps (select_best ps)).
Proof. by split. Qed.

Lemma replace_ne ps peer path slot : path_of ps peer = Some slot -> replace_path ps peer path <> [].
Proof. destruct ps as [|[p r] ps]; [done|]. cbn. by case_decide. Qed.

Lemma routes_none rib peer k :
  routes rib peer !! k = path_of (peers (default (mk_peers [] None) (rib !! k))) peer.
Proof. rewrite lookup_routes. by destruct (rib !! k). Qed.

(** The effect of an announcement on table, routes, policy and consumer. *)
Record announced_ok (peer : string) (st st' : apply_state) (prefix : Prefix) (path : BgpPath) : Prop := {
  an_rib : rib_ok (a_rib st');
  an_other : forall q, q <> peer -> routes (a_rib st') q = routes (a_rib st) q;
  an_sync : exists cs, changes (a_out st') = changes (a_out st) ++ cs /\
    forall v, in_sync v (a_rib st) -> in_sync (foldl apply_change v cs) (a_rib st');
  an_case :
    (routes (a_rib st') peer = routes (a_rib st) peer /\ a_policy st' = a_policy st) \/
    (admit_route (a_policy st) prefix path = Ok tt /\
     routes (a_rib st') peer = <[key prefix := path]> (routes (a_rib st) peer) /\
     if decide (is_Some (routes (a_rib st) peer !! key prefix))
     then a_policy st' = a_policy st else note_accepted (a_policy st) = Ok (a_policy st'))
}.

Lemma routes_insert_eq rib peer k e path :
  path_of (peers e) peer = Some path -> routes (<[k := e]> rib) peer = <[k := path]> (routes rib peer).
Proof.
  intros H. apply map_eq. intros j. rewrite routes_insert. case_decide as Hj.
  - subst. by rewrite lookup_insert_eq.
  - by rewrite lookup_insert_ne.
Qed.

Lemma routes_insert_other rib q k e :
  path_of (peers e) q = routes rib q !! k -> routes (<[k := e]> rib) q = routes rib q.
Proof. intros H. apply map_eq. intros j. rewrite routes_insert. case_decide; congruence. Qed.

Lemma admit_cases p prefix path :
  admit_route p prefix path = Ok tt \/ exists e, admit_route p prefix path = Err e.
Proof. unfold admit_route. repeat case_match; eauto. Qed.

Lemma announce_ok peer st prefix path : rib_ok (a_rib st) -> prefix_ok prefix ->
  announced_ok peer st (announce peer st prefix path) prefix path.
Proof.
  intros Hr Hp. unfold announce.
  destruct (admit_cases (a_policy st) prefix path) as [Ea|[e Ea]]; rewrite Ea; cbn zeta.
  2:{ split; cbn [a_rib a_policy a_out changes add_changes]; try done; [|by left]. exists []. rewrite app_nil_r. done. }
  set (k := key prefix). set (e := default (mk_peers [] None) (a_rib st !! k)).
  assert (He : entry_ok e) by by apply rib_entry.
  assert (Hrt : forall q, routes (a_rib st) q !! k = path_of (peers e) q) by (intros; apply routes_none).
  destruct (path_of (peers e) peer) as [slot|] eqn:Es.
  - case_decide as Hslot.
    + subst slot. split; cbn [a_rib a_policy a_out changes add_changes]; [by apply rib_ok_insert|intros; by apply routes_insert_other| |].
      * exists []. rewrite app_nil_r. split; [done|]. intros v Hv. apply sync_same; [done|].
        symmetry. apply view_default.
      * left. split; [|done]. by apply routes_insert_other.
    + set (ps := replace_path (peers e) peer path).
      assert (He' : entry_ok (mk_peers ps (select_best ps))).
      { apply entry_ok_new. unfold ps. rewrite replace_fst. apply He. }
      split; cbn [a_rib a_policy a_out changes add_changes]; [by apply rib_ok_insert| | |].
      * intros q Hq. apply routes_insert_other. cbn [peers]. unfold ps.
        rewrite (path_of_replace _ _ _ _ slot), decide_False by (done || congruence). by rewrite Hrt.
      * eexists. split; [done|]. intros v Hv. apply sync_insert; [done|done|]. by eapply replace_ne.
      * right. split; [done|]. split; [|by rewrite decide_True by (rewrite Hrt, Es; eauto)].
        apply routes_insert_eq. cbn [peers]. unfold ps. by rewrite (path_of_replace _ _ _ _ slot), decide_True.
  - destruct (note_accepted (a_policy st)) as [pol|r|] eqn:En.
    + set (ps := peers e ++ [(peer, path)]).
      assert (He' : entry_ok (mk_peers ps (select_best ps))).
      { apply entry_ok_new. unfold ps. rewrite fmap_app. apply list.NoDup_app. split; [apply He|].
        apply path_of_None in Es. split; [|apply list.NoDup_singleton].
        intros x Hx ->%list_elem_of_singleton. done. }
      split; cbn [a_rib a_policy a_out changes add_changes]; [by apply rib_ok_insert| | |].
      * intros q Hq. apply routes_insert_other. cbn [peers]. unfold ps. rewrite path_of_app, Hrt. cbn [fst snd].
        rewrite decide_False by congruence. by destruct (path_of (peers e) q).
      * eexists. split; [done|]. intros v Hv. apply sync_insert; [done|done|].
        unfold ps; cbn [peers]. by destruct (peers e).
      * right. split; [done|]. split.
        -- apply routes_insert_eq. cbn [peers]. unfold ps. rewrite path_of_app, Es. cbn [fst snd]. by rewrite decide_True.
        -- rewrite decide_False by (rewrite Hrt, Es; by intros [? ?]). done.
    + split; cbn [a_rib a_policy a_out changes add_changes]; [by apply rib_ok_insert|intros; by apply routes_insert_other| |].
      * exists []. rewrite app_nil_r. split; [done|]. intros v Hv. apply sync_same; [done|].
        symmetry. apply view_default.
      * left. split; [|done]. by apply routes_insert_other.
    + unfold note_accepted in En. by repeat case_match.
Qed.

(** *** One withdrawal *)

Record withdrawn_ok (peer : string) (st st' : apply_state) (prefix : Prefix) : Prop := {
  wd_rib : rib_ok (a_rib st');
  wd_other : forall q, q <> peer -> routes (a_rib st') q = routes (a_rib st) q;
  wd_sync : exists cs, changes (a_out st') = changes (a_out st) ++ cs /\
    forall v, in_sync v (a_rib st) -> in_sync (foldl apply_change v cs) (a_rib st');
  wd_routes : routes (a_rib st') peer = delete (key prefix) (routes (a_rib st) peer);
  wd_policy : a_policy st'
    = if decide (is_Some (routes (a_rib st) peer !! key prefix))
      then note_withdrawn (a_policy st) else a_policy st
}.

Lemma withdrawn_nothing peer st prefix : rib_ok (a_rib st) ->
  routes (a_rib st) peer !! key prefix = None -> withdrawn_ok peer st st prefix.
Proof.
  intros Hr Hn. split; try done.
  - exists []. rewrite app_nil_r. done.
  - by rewrite delete_id.
  - rewrite decide_False; [done|]. rewrite Hn. by intros [? ?].
Qed.

Lemma routes_delete rib q k : routes (delete k rib) q = delete k (routes rib q).
Proof.
  apply map_eq. intros j. rewrite lookup_routes. destruct (decide (k = j)) as [->|H].
  - by rewrite !lookup_delete_eq.
  - rewrite !lookup_delete_ne by done. by rewrite lookup_routes.
Qed.

Lemma rib_ok_delete rib k : rib_ok rib -> rib_ok (delete k rib).
Proof. intros Hr j e [_ H]%lookup_delete_Some. eauto. Qed.

Lemma routes_insert_delete rib q k e :
  path_of (peers e) q = None -> routes (<[k := e]> rib) q = delete k (routes rib q).
Proof.
  intros H. apply map_eq. intros j. rewrite routes_insert. case_decide as Hj.
  - subst. by rewrite lookup_delete_eq.
  - by rewrite lookup_delete_ne.
Qed.

(** Dropping [peer] from a sound entry that holds it: what is left. *)
Lemma drop_peer_entry e peer slot :
  let ps := List.filter (fun x => negb (bool_decide (x.1 = peer))) (peers e) in
  entry_ok e -> path_of (peers e) peer = Some slot ->
  length ps <> length (peers e) /\ entry_ok (mk_peers ps (select_best ps)) /\
  (forall q, path_of ps q = if decide (peer = q) then None else path_of (peers e) q) /\
  (select_best ps = best_peer e -> best_peer e <> Some peer).
Proof.
  intros ps [Hnd Hb] Hslot. pose proof (path_of_filter (peers e) peer) as Hpo. fold ps in Hpo.
  split_and!; [| |done|].
  - intros Hl%filter_length_same. specialize (Hpo peer). fold ps in Hl. rewrite Hl, decide_True in Hpo by done.
    congruence.
  - apply entry_ok_new. by apply filter_fst_nodup.
  - intros <- Hp. unfold select_best in Hp. destruct (min_by path_lt ps) as [[b pa]|] eqn:Em; [|done].
    injection Hp as ->. apply min_by_elem in Em. unfold ps in Em. apply elem_of_bfilter in Em as [_ Hn].
    cbn in Hn. by rewrite bool_decide_eq_true_2 in Hn.
Qed.

Lemma withdraw_ok peer st prefix : rib_ok (a_rib st) -> prefix_ok prefix ->
  withdrawn_ok peer st (withdraw peer st prefix) prefix.
Proof.
  intros Hr Hp. unfold withdraw, remove_one. set (k := key prefix).
  pose proof (lookup_routes (a_rib st) peer k) as Hrt.
  destruct (a_rib st !! k) as [e|] eqn:Ek; [|by apply withdrawn_nothing]. step. step in Hrt.
  destruct (Hr k e Ek) as [He _].
  destruct (path_of (peers e) peer) as [slot|] eqn:Es.
  2:{ rewrite decide_True; [by apply withdrawn_nothing|]. f_equal.
      apply path_of_None in Es. clear -Es. induction (peers e) as [|x l IH]; [done|]. cbn in *.
      apply not_elem_of_cons in Es as [Hx Hl]. rewrite bool_decide_eq_false_2 by congruence. cbn.
      by rewrite IH. }
  destruct (drop_peer_entry e peer slot He Es) as (Hlen & He' & Hpo & Hbest).
  set (ps := List.filter _ (peers e)) in *. rewrite decide_False by done.
  assert (Hpol : note_withdrawn (a_policy st)
    = if decide (is_Some (routes (a_rib st) peer !! key prefix))
      then note_withdrawn (a_policy st) else a_policy st)
    by (rewrite decide_True; [done|]; fold k; rewrite Hrt; eauto).
  assert (Hoth : forall q, q <> peer -> path_of ps q = routes (a_rib st) q !! k).
  { intros q Hq. rewrite Hpo, decide_False by congruence. by rewrite lookup_routes, Ek. }
  destruct (decide (ps = [])) as [Hnil|Hnil].
  - split; cbn [a_rib a_policy a_out changes add_changes]; [by apply rib_ok_delete| | |apply routes_delete|done].
    + intros q Hq. rewrite routes_delete. apply delete_id. by rewrite <- Hoth, Hnil.
    + eexists. split; [done|]. intros v Hv. cbn [foldl apply_change]. by apply sync_delete.
  - destruct (decide (select_best ps = best_peer e)) as [Hnb|Hnb];
      (split; cbn [a_rib a_policy a_out changes add_changes];
        [apply rib_ok_insert; [done|done|]|intros q Hq; apply routes_insert_other; by apply Hoth| |
         apply routes_insert_delete; cbn [peers]; by rewrite Hpo, decide_True | done]).
    + by rewrite <- Hnb.
    + exists []. split; [done|]. intros v Hv. apply sync_same; [done|]. unfold entry_view, view.
      rewrite Ek. cbn [best_peer peers]. step. destruct (best_peer e) as [b|] eqn:Eb; [|done]. step.
      rewrite Hpo, decide_False; [done|]. intros <-. by apply Hbest.
    + done.
    + eexists. split; [done|]. intros v Hv. by apply sync_insert.
Qed.

(** ** The invariant of a peer's session *)

(** The counter is the number of the peer's routes, within the limit; every route
    has passed the policy. *)
Record peer_ok (peer : string) (pol : ImportPolicy) (rib : LocRib) : Prop := {
  po_count : forall m, max_prefixes pol = Some m -> u32 m ->
    accepted pol = Z.of_nat (size (routes rib peer)) /\ accepted pol <= m;
  po_admitted : forall p path, routes rib peer !! key p = Some path -> admit_route pol p path = Ok tt
}.

Lemma announce_peer_ok peer st prefix path :
  rib_ok (a_rib st) -> prefix_ok prefix -> peer_ok peer (a_policy st) (a_rib st) ->
  let st' := announce peer st prefix path in peer_ok peer (a_policy st') (a_rib st').
Proof.
  intros Hr Hp [Hc Ha] st'. destruct (announce_ok peer st prefix path Hr Hp) as [_ _ _ Hcase]. fold st' in Hcase.
  destruct Hcase as [[H1 H2]|(Had & H1 & H2)].
  { split; rewrite H1, H2; done. }
  assert (Hsame : same_rules (a_policy st') (a_policy st)).
  { case_decide; [by rewrite H2|]. by apply note_accepted_Ok in H2 as [? _]. }
  split.
  - intros m Hm Hu. pose proof Hsame as (_ & _ & _ & Hmax). rewrite Hmax in Hm.
    destruct (Hc m Hm Hu) as [Hcnt Hle]. rewrite H1. case_decide as Hs.
    + rewrite H2. destruct Hs as [old Hs]. rewrite map_size_insert_Some by eauto. done.
    + apply note_accepted_Ok in H2 as (_ & Hacc & Hlt). specialize (Hlt m Hm).
      rewrite map_size_insert_None by by apply eq_None_not_Some.
      rewrite Hacc, wrap_small by (unfold is_uint in *; lia). lia.
  - intros p q. rewrite H1. rewrite (admit_same _ _ _ _ Hsame).
    intros [[E <-]|[_ Hq]]%lookup_insert_Some; [|by apply Ha]. apply key_inj in E as <-. done.
Qed.

Lemma withdraw_peer_ok peer st prefix :
  rib_ok (a_rib st) -> prefix_ok prefix -> peer_ok peer (a_policy st) (a_rib st) ->
  let st' := withdraw peer st prefix in peer_ok peer (a_policy st') (a_rib st').
Proof.
  intros Hr Hp [Hc Ha] st'. destruct (withdraw_ok peer st prefix Hr Hp) as [_ _ _ H1 H2].
  fold st' in H1, H2. split.
  - intros m. rewrite H1, H2. case_decide as Hs.
    + intros Hm Hu. destruct (Hc m Hm Hu) as [Hcnt Hle]. destruct Hs as [x Hs].
      rewrite map_size_delete_Some by eauto. cbn [accepted note_withdrawn set_accepted].
      assert (size (routes (a_rib st) peer) <> 0%nat).
      { intros E%map_size_empty_inv. by rewrite E, lookup_empty in Hs. }
      unfold sat_sub. lia.
    + rewrite delete_id by by apply eq_None_not_Some. apply Hc.
  - intros p path. rewrite H1. intros [_ Hq]%lookup_delete_Some.
    rewrite (admit_same _ (a_policy st)); [by apply Ha|]. rewrite H2. by case_decide.
Qed.

(** What a call on behalf of [peer] keeps, from the table [rib0] and the
    consumer's state [v0] it started with. *)
Record session_inv (peer : string) (rib0 : LocRib) (v0 : gmap PfxKey BgpPath) (st : apply_state) : Prop := {
  si_rib : rib_ok (a_rib st);
  si_other : forall q, q <> peer -> routes (a_rib st) q = routes rib0 q;
  si_sync : in_sync (foldl apply_change v0 (changes (a_out st))) (a_rib st);
  si_peer : peer_ok peer (a_policy st) (a_rib st)
}.

Lemma announce_inv peer rib0 v0 st prefix path : prefix_ok prefix ->
  session_inv peer rib0 v0 st -> session_inv peer rib0 v0 (announce peer st prefix path).
Proof.
  intros Hp [Hr Ho Hs Hk]. destruct (announce_ok peer st prefix path Hr Hp) as [H1 H2 (cs & H3 & H4) _].
  split; [done| | |by apply announce_peer_ok].
  - intros q Hq. by rewrite H2, Ho.
  - rewrite H3, foldl_app. by apply H4.
Qed.

Lemma withdraw_inv peer rib0 v0 st prefix : prefix_ok prefix ->
  session_inv peer rib0 v0 st -> session_inv peer rib0 v0 (withdraw peer st prefix).
Proof.
  intros Hp [Hr Ho Hs Hk]. destruct (withdraw_ok peer st prefix Hr Hp) as [H1 H2 (cs & H3 & H4) _ _].
  split; [done| | |by apply withdraw_peer_ok].
  - intros q Hq. by rewrite H2, Ho.
  - rewrite H3, foldl_app. by apply H4.
Qed.

Lemma announce_all_inv peer rib0 v0 l : Forall (fun x => prefix_ok x.1) l -> forall st,
  session_inv peer rib0 v0 st -> session_inv peer rib0 v0 (announce_all peer st l).
Proof.
  induction 1 as [|[p path] l Hp _ IH]; intros st Hst; cbn [announce_all]; [done|].
  pose proof (announce_inv peer rib0 v0 st p path Hp Hst) as H'. case_match; [done|]. by apply IH.
Qed.

Lemma withdraw_all_inv peer rib0 v0 l : Forall prefix_ok l -> forall st,
  session_inv peer rib0 v0 st -> session_inv peer rib0 v0 (foldl (withdraw peer) st l).
Proof. induction 1 as [|p l Hp _ IH]; intros st Hst; cbn [foldl]; [done|]. by apply IH, withdraw_inv. Qed.

Lemma extract_announced_ok u : Forall prefix_ok (update_prefixes u) ->
  Forall (fun x => prefix_ok x.1) (extract_announced u).
Proof.
  intros H. unfold update_prefixes in H. rewrite !Forall_app in H. destruct H as (_ & Ha & Hn).
  unfold extract_announced. destruct (foldl scan_attr _ _) as [b mp]. apply Forall_app. split.
  - apply Forall_fmap. eapply Forall_impl; [|exact Ha]; done.
  - destruct mp as [[afi nh]|]; [|fall]. revert Hn. induction (attrs u) as [|a l IH]; intros Hn; [fall|].
    change (mjoin (attr_nlri <$> a :: l)) with (attr_nlri a ++ mjoin (attr_nlri <$> l)) in Hn.
    apply Forall_app in Hn as [Ha' Hl]. cbn [fmap list_fmap]. apply Forall_app. split; [|by apply IH].
    destruct a; try fall. case_decide; [|fall]. apply Forall_fmap. eapply Forall_impl; [|exact Ha']; done.
Qed.

Lemma extract_withdrawn_ok u : Forall prefix_ok (update_prefixes u) -> Forall prefix_ok (extract_withdrawn u).
Proof.
  intros H. unfold update_prefixes in H. rewrite !Forall_app in H. destruct H as (Hw & _ & Hn).
  unfold extract_withdrawn. apply Forall_app. split; [done|].
  revert Hn. induction (attrs u) as [|a l IH]; intros Hn; [fall|].
  change (mjoin (attr_nlri <$> a :: l)) with (attr_nlri a ++ mjoin (attr_nlri <$> l)) in Hn.
  apply Forall_app in Hn as [Ha' Hl]. cbn [fmap list_fmap]. apply Forall_app. split; [|by apply IH].
  destruct a; try fall. case_decide; [done|fall].
Qed.

Lemma session_inv_init peer rib v pol : rib_ok rib -> in_sync v rib -> peer_ok peer pol rib ->
  session_inv peer rib v (mk_apply rib pol (mk_outcome [] [] false)).
Proof. by split. Qed.

Lemma apply_inv rib peer u pol v : Forall prefix_ok (update_prefixes u) ->
  rib_ok rib -> in_sync v rib -> peer_ok peer pol rib ->
  session_inv peer rib v (apply rib peer u pol).
Proof.
  intros Hu Hr Hv Hp. unfold apply.
  pose proof (announce_all_inv peer rib v _ (extract_announced_ok u Hu) _ (session_inv_init peer rib v pol Hr Hv Hp)) as H.
  case_match; [done|]. apply withdraw_all_inv; [by apply extract_withdrawn_ok|done].
Qed.

(** Updates leave the rules of the policy alone. *)
Lemma announce_rules peer st prefix path :
  same_rules (a_policy (announce peer st prefix path)) (a_policy st).
Proof.
  unfold announce. destruct (admit_route _ _ _); try done; (destruct (path_of _ _); [by case_decide|]);
    destruct (note_accepted _) eqn:E; try done; by apply note_accepted_Ok in E as [? _].
Qed.

Lemma announce_all_rules peer l : forall st, same_rules (a_policy (announce_all peer st l)) (a_policy st).
Proof.
  induction l as [|[p path] l IH]; intros st; cbn [announce_all]; [done|].
  case_match; [apply announce_rules|]. eapply same_rules_trans; [apply IH|apply announce_rules].
Qed.

Lemma withdraw_all_rules peer l : forall st, same_rules (a_policy (foldl (withdraw peer) st l)) (a_policy st).
Proof.
  induction l as [|p l IH]; intros st; cbn [foldl]; [done|]. eapply same_rules_trans; [apply IH|].
  unfold withdraw. by destruct (remove_one _ _ _) as [[??]|].
Qed.

Lemma apply_rules rib peer u pol : same_rules (a_policy (apply rib peer u pol)) pol.
Proof.
  unfold apply. pose proof (announce_all_rules peer (extract_announced u) (mk_apply rib pol (mk_outcome [] [] false))) as H.
  case_match; [done|]. eapply same_rules_trans; [apply withdraw_all_rules|exact H].
Qed.

(** A purge goes through and leaves the peer without routes under the keys
    visited. *)
Lemma purge_keys_inv peer rib0 v0 ks : Forall (fun k => exists p, prefix_ok p /\ key p = k) ks -> forall st,
  session_inv peer rib0 v0 st ->
  exists st', purge_keys peer st ks = Ok st' /\ session_inv peer rib0 v0 st' /\
    forall k, routes (a_rib st') peer !! k = if decide (k ∈ ks) then None else routes (a_rib st) peer !! k.
Proof.
  induction 1 as [|k ks (p & Hp & <-) _ IH]; intros st Hst; cbn [purge_keys].
  { exists st. split; [done|]. split; [done|]. intros k. rewrite decide_False; [done|]. apply not_elem_of_nil. }
  unfold key at 1 2 3. cbn [fst snd]. rewrite new_self by done. step.
  destruct (IH _ (withdraw_inv peer rib0 v0 st p Hp Hst)) as (st' & -> & Hst' & Hk).
  exists st'. split; [done|]. split; [done|]. intros k. rewrite Hk.
  rewrite (wd_routes _ _ _ _ (withdraw_ok peer st p (si_rib _ _ _ _ Hst) Hp)).
  destruct (decide (k = key p)) as [->|Hne].
  - rewrite lookup_delete_eq. rewrite (decide_True (P:=key p ∈ key p :: ks)) by left. by case_decide.
  - rewrite lookup_delete_ne by done.
    destruct (decide (k ∈ ks)); [rewrite decide_True by by right|rewrite decide_False]; try done.
    by intros [?|?]%elem_of_cons.
Qed.

Lemma rib_keys_ok rib : rib_ok rib -> Forall (fun k => exists p, prefix_ok p /\ key p = k) (map_to_list rib).*1.
Proof.
  intros Hr. apply Forall_fmap, list.Forall_forall. intros [k e] Hk%elem_of_map_to_list. cbn.
  by apply (Hr k e).
Qed.

Lemma purge_peer_inv rib peer pol v : rib_ok rib -> in_sync v rib -> peer_ok peer pol rib ->
  exists st, purge_peer rib peer pol (map_to_list rib).*1 = Ok st /\ session_inv peer rib v st /\
    routes (a_rib st) peer = ∅.
Proof.
  intros Hr Hv Hp.
  destruct (purge_keys_inv peer rib v _ (rib_keys_ok rib Hr) _ (session_inv_init peer rib v pol Hr Hv Hp))
    as (st & E & Hst & Hk).
  exists st. split; [done|]. split; [done|]. apply map_eq. intros k. rewrite Hk, lookup_empty.
  case_decide as Hin; [done|]. cbn [a_rib]. rewrite lookup_routes. destruct (rib !! k) as [e|] eqn:E'; [|done].
  exfalso. apply Hin. apply list_elem_of_fmap. exists (k, e). split; [done|]. by apply elem_of_map_to_list.
Qed.

(** ** Runs: several peers on one table *)

Inductive rib_op :=
| OpUpdate (peer : string) (u : UpdateMsg)
| OpPurge (peer : string).

Record table := mk_table {
  t_rib : LocRib;
  t_policies : gmap string ImportPolicy;
  t_changes : list RouteChange
}.

Definition commit (t : table) (peer : string) (st : apply_state) : table :=
  mk_table (a_rib st) (<[peer := a_policy st]> (t_policies t)) (t_changes t ++ changes (a_out st)).

Definition table_step (t : table) (o : rib_op) : outcome Empty_set table :=
  match o with
  | OpUpdate peer u =>
      match t_policies t !! peer with
      | Some pol => Ok (commit t peer (apply (t_rib t) peer u pol))
      | None => Ok t
      end
  | OpPurge peer =>
      match t_policies t !! peer with
      | Some pol =>
          st ← purge_peer (t_rib t) peer pol (map_to_list (t_rib t)).*1;
          Ok (commit t peer st)
      | None => Ok t
      end
  end.

Fixpoint table_run (t : table) (os : list rib_op) : outcome Empty_set table :=
  match os with
  | [] => Ok t
  | o :: os => t ← table_step t o; table_run t os
  end.

Definition op_ok (o : rib_op) : Prop :=
  match o with OpUpdate _ u => Forall prefix_ok (update_prefixes u) | OpPurge _ => True end.

Record table_ok (t : table) : Prop := {
  tk_rib : rib_ok (t_rib t);
  tk_sync : in_sync (foldl apply_change ∅ (t_changes t)) (t_rib t);
  tk_peers : forall peer pol, t_policies t !! peer = Some pol -> peer_ok peer pol (t_rib t)
}.

Lemma peer_ok_routes peer pol rib rib' :
  routes rib' peer = routes rib peer -> peer_ok peer pol rib -> peer_ok peer pol rib'.
Proof. intros H [Hc Ha]. split; rewrite H; done. Qed.

Lemma commit_ok t peer st : table_ok t ->
  session_inv peer (t_rib t) (foldl apply_change ∅ (t_changes t)) st -> table_ok (commit t peer st).
Proof.
  intros [Hr Hs Hp] [Hr' Ho Hs' Hp']. split; cbn [commit t_rib t_changes t_policies]; [done| |].
  - by rewrite foldl_app.
  - intros q pol [[<- <-]|[Hne Hq]]%lookup_insert_Some; [done|].
    eapply peer_ok_routes; [by apply Ho|]. by apply Hp.
Qed.

Lemma table_step_ok t o : table_ok t -> op_ok o -> exists t', table_step t o = Ok t' /\ table_ok t'.
Proof.
  intros Ht Ho. destruct o as [peer u|peer]; cbn [table_step];
    (destruct (t_policies t !! peer) as [pol|] eqn:Ep; [|eauto]).
  - eexists. split; [done|]. apply commit_ok; [done|].
    apply apply_inv; [done|apply Ht|apply Ht|by apply Ht].
  - destruct (purge_peer_inv (t_rib t) peer pol (foldl apply_change ∅ (t_changes t)))
      as (st & -> & Hst & _); [apply Ht|apply Ht|by apply Ht|].
    step. eexists. split; [done|]. by apply commit_ok.
Qed.

Lemma table_run_ok os : Forall op_ok os -> forall t, table_ok t ->
  exists t', table_run t os = Ok t' /\ table_ok t'.
Proof.
  induction 1 as [|o os Ho _ IH]; intros t Ht; cbn [table_run]; [eauto|].
  destruct (table_step_ok t o Ht Ho) as (t' & -> & Ht'). step. by apply IH.
Qed.

(** An empty table for peers whose counters are at zero. *)
Definition table_new (pols : gmap string ImportPolicy) : table := mk_table ∅ pols [].

Lemma table_new_ok pols : (forall peer pol, pols !! peer = Some pol -> accepted pol = 0) -> table_ok (table_new pols).
Proof.
  intros H. split.
  - intros k e. cbn [table_new t_rib]. by rewrite lookup_empty.
  - intros k. unfold view. cbn [table_new t_changes t_rib foldl]. by rewrite !lookup_empty.
  - intros peer pol Hp. assert (Hempty : routes (∅ : LocRib) peer = ∅) by apply omap_empty. split.
    + intros m Hm Hu. cbn [t_rib table_new]. rewrite Hempty, map_size_empty, (H _ _ Hp). cbn. uint.
    + intros p path. cbn [t_rib table_new]. by rewrite Hempty, lookup_empty.
Qed.

(** ** Properties *)

(** C28: the change stream is a faithful copy of the table.  Whatever UPDATEs and
    purges of whatever peers are processed, in whatever order, nothing panics,
    and a consumer that installs every [Learned] and removes every [Withdrawn]
    holds, for every prefix, exactly the best path of the table. *)
Theorem change_stream_in_sync (pols : gmap string ImportPolicy) (os : list rib_op)
  (H0 : forall peer pol, pols !! peer = Some pol -> accepted pol = 0) (Hos : Forall op_ok os) :
  exists t, table_run (table_new pols) os = Ok t /\
    forall p, foldl apply_change ∅ (t_changes t) !! key p = best (t_rib t) p.
Proof.
  destruct (table_run_ok os Hos _ (table_new_ok pols H0)) as (t & E & Ht).
  exists t. split; [done|]. intros p. apply (tk_sync t Ht).
Qed.

(** Import control.  In every reachable table each peer's counter is the
    number of its routes and stays within its limit, and every route passed the
    policy: it has a next hop, avoids the node's own AS, lies inside a
    whitelisted prefix and inside no bogon. *)
Theorem import_control (pols : gmap string ImportPolicy) (os : list rib_op)
  (H0 : forall peer pol, pols !! peer = Some pol -> accepted pol = 0) (Hos : Forall op_ok os) :
  exists t, table_run (table_new pols) os = Ok t /\
    forall peer pol, t_policies t !! peer = Some pol ->
      (forall m, max_prefixes pol = Some m -> u32 m ->
         accepted pol = Z.of_nat (size (routes (t_rib t) peer)) /\ accepted pol <= m) /\
      (forall p path, routes (t_rib t) peer !! key p = Some path ->
         is_Some (next_hop path) /\ (own_as pol ∉ as_path path) /\
         (exists w, w ∈ whitelist pol /\ is_covered_by p w = true) /\
         (forall b, b ∈ bogons pol -> is_covered_by p b = false)).
Proof.
  destruct (table_run_ok os Hos _ (table_new_ok pols H0)) as (t & E & Ht).
  exists t. split; [done|]. intros peer pol Hp. destruct (tk_peers t Ht peer pol Hp) as [Hc Ha].
  split; [done|]. intros p path Hpath%Ha. unfold admit_route in Hpath.
  case_decide as Hn; [done|]. destruct (existsb _ (bogons pol)) eqn:Eb; [done|].
  destruct (existsb _ (whitelist pol)) eqn:Ew; [|done]. cbn [negb] in Hpath. case_decide as Hloop; [done|].
  split; [by destruct (next_hop path); [eauto|]|]. split; [done|]. split.
  - apply existsb_exists in Ew as (w & Hw & Hcov). exists w. by rewrite list_elem_of_In.
  - intros b Hb%list_elem_of_In. destruct (is_covered_by p b) eqn:Ec; [|done].
    rewrite <- Eb. symmetry. apply existsb_exists. eauto.
Qed.

(** Best-path selection.  In a sound table the best path of a prefix is a path
    of some peer, no peer has a shorter one, and there is none exactly when no
    peer has a path. *)
Theorem best_is_shortest (rib : LocRib) (p : Prefix) (Hr : rib_ok rib) :
  match best rib p with
  | Some path =>
      (exists peer, routes rib peer !! key p = Some path) /\
      forall q path', routes rib q !! key p = Some path' -> (path_len path <= path_len path')%nat
  | None => forall q, routes rib q !! key p = None
  end.
Proof.
  pose proof (fun q => lookup_routes rib q (key p)) as Hl. unfold best.
  destruct (rib !! key p) as [e|] eqn:E; [|done]. step. destruct (Hr _ _ E) as [He _]. pose proof (entry_best e He) as Hb.
  destruct (peers e) as [|x l] eqn:Ep; [rewrite Hb; intros q; by rewrite Hl; step; rewrite Ep|].
  rewrite <- Ep in *. destruct Hb as (b & path & Hb & Hp & Hle). rewrite Hb. step. rewrite Hp. split.
  - exists b. by rewrite Hl.
  - intros q path' Hq. rewrite Hl in Hq. by apply (Hle q).
Qed.

(** A session that goes down leaves nothing behind: purging a peer removes all
    its routes, sets its counter to zero and leaves the other peers' routes. *)
Theorem purge_removes_peer (rib : LocRib) (peer : string) (pol : ImportPolicy)
  (Hr : rib_ok rib) (Hp : peer_ok peer pol rib) :
  exists st, purge_peer rib peer pol (map_to_list rib).*1 = Ok st /\
    routes (a_rib st) peer = ∅ /\
    (forall m, max_prefixes (a_policy st) = Some m -> u32 m -> accepted (a_policy st) = 0) /\
    forall q, q <> peer -> routes (a_rib st) q = routes rib q.
Proof.
  set (v := omap entry_view rib : gmap PfxKey BgpPath).
  assert (Hv : in_sync v rib) by (intros k; unfold v, view; by rewrite lookup_omap).
  destruct (purge_peer_inv rib peer pol v Hr Hv Hp) as (st & E & [_ Ho _ [Hc _]] & Hempty).
  exists st. split_and!; try done. intros m Hm Hu. destruct (Hc m Hm Hu) as [-> _].
  by rewrite Hempty, map_size_empty.
Qed.

(** A rejected announcement changes nothing, not even for a prefix the peer
    announced before: the path it replaces stays in the table and stays best. *)
Theorem rejected_keeps_previous (peer : string) (st : apply_state) (p : Prefix) (path old : BgpPath)
  (reason : ImportReject)
  (Hold : routes (a_rib st) peer !! key p = Some old)
  (Hrej : admit_route (a_policy st) p path = Err reason) :
  let st' := announce peer st p path in
  a_rib st' = a_rib st /\ routes (a_rib st') peer !! key p = Some old /\
  changes (a_out st') = changes (a_out st).
Proof. unfold announce. by rewrite Hrej. Qed.

(** *** A concrete table *)

Definition sample_policy : ImportPolicy := Policy.new [sample_prefix 14] None 64512 (Some 2).

Definition sample_path_update : UpdateMsg :=
  mk_update [] [AsPath [mk_segment false [65001; 65002]]; NextHop [172; 20; 0; 9]] [sample_prefix 16].

Definition sample_ops : list rib_op :=
  [OpUpdate "a" sample_path_update; OpUpdate "b" sample_path_update; OpPurge "a"].

Definition sample_policies : gmap string ImportPolicy := {[ "a" := sample_policy; "b" := sample_policy ]}.

Lemma sample_ops_ok : Forall op_ok sample_ops.
Proof. fall; cbn; fall; apply sample_prefix_ok; auto. Qed.

Lemma sample_policies_zero peer pol : sample_policies !! peer = Some pol -> accepted pol = 0.
Proof.
  unfold sample_policies. intros [[_ <-]|[_ [_ <-]%lookup_singleton_Some]]%lookup_insert_Some; done.
Qed.

Lemma change_stream_in_sync_witness :
  exists t, table_run (table_new sample_policies) sample_ops = Ok t /\
    forall p, foldl apply_change ∅ (t_changes t) !! key p = best (t_rib t) p.
Proof.
  apply (change_stream_in_sync sample_policies sample_ops); [exact sample_policies_zero | exact sample_ops_ok].
Defined.

Lemma import_control_witness :
  exists t, table_run (table_new sample_policies) sample_ops = Ok t /\
    forall peer pol, t_policies t !! peer = Some pol ->
      (forall m, max_prefixes pol = Some m -> u32 m ->
         accepted pol = Z.of_nat (size (routes (t_rib t) peer)) /\ accepted pol <= m) /\
      (forall p path, routes (t_rib t) peer !! key p = Some path ->
         is_Some (next_hop path) /\ (own_as pol ∉ as_path path) /\
         (exists w, w ∈ whitelist pol /\ is_covered_by p w = true) /\
         (forall b, b ∈ bogons pol -> is_covered_by p b = false)).
Proof.
  apply (import_control sample_policies sample_ops); [exact sample_policies_zero | exact sample_ops_ok].
Defined.

(** The table after the first UPDATE. *)
Definition sample_state : apply_state := apply ∅ "a" sample_path_update sample_policy.

Lemma sample_state_inv : session_inv "a" ∅ ∅ sample_state.
Proof.
  pose proof (table_new_ok sample_policies sample_policies_zero) as [Hr Hs Hp].
  apply apply_inv; [fall; apply sample_prefix_ok; auto | done | done | by apply Hp].
Qed.

Lemma best_is_shortest_witness :
  match best (a_rib sample_state) (sample_prefix 16) with
  | Some path =>
      (exists peer, routes (a_rib sample_state) peer !! key (sample_prefix 16) = Some path) /\
      forall q path', routes (a_rib sample_state) q !! key (sample_prefix 16) = Some path' ->
        (path_len path <= path_len path')%nat
  | None => forall q, routes (a_rib sample_state) q !! key (sample_prefix 16) = None
  end.
Proof. apply (best_is_shortest (a_rib sample_state) (sample_prefix 16)). apply sample_state_inv. Defined.

Lemma purge_removes_peer_witness :
  exists st, purge_peer (a_rib sample_state) "a" (a_policy sample_state)
               (map_to_list (a_rib sample_state)).*1 = Ok st /\
    routes (a_rib st) "a" = ∅ /\
    (forall m, max_prefixes (a_policy st) = Some m -> u32 m -> accepted (a_policy st) = 0) /\
    forall q, q <> "a"%string -> routes (a_rib st) q = routes (a_rib sample_state) q.
Proof.
  apply (purge_removes_peer (a_rib sample_state) "a" (a_policy sample_state)); apply sample_state_inv.
Defined.

Definition looping_path : BgpPath := mk_path [65001; 64512] (Some (V4 [172; 20; 0; 9])) 2 [].

Lemma rejected_keeps_previous_witness :
  let st' := announce "a" sample_state (sample_prefix 16) looping_path in
  a_rib st' = a_rib sample_state /\
  routes (a_rib st') "a" !! key (sample_prefix 16)
  = Some (mk_path [65001; 65002] (Some (V4 [172; 20; 0; 9])) 2 []) /\
  changes (a_out st') = changes (a_out sample_state).
Proof.
  apply (rejected_keeps_previous "a" sample_state (sample_prefix 16) looping_path _ (AsLoop 64512));
    vm_compute; reflexivity.
Defined.

(** The limit leaves an entry without paths behind. *)
Example empty_entry_left :
  let st := apply ∅ "a" sample_path_update (Policy.new [sample_prefix 14] None 64512 (Some 0)) in
  max_prefix_exceeded (a_out st) = true /\ size (a_rib st) = 1%nat /\
  a_rib st !! key (sample_prefix 16) = Some (mk_peers [] None).
Proof. vm_compute. auto. Qed.

(** Any address family of MP_REACH is taken, only 1 and 2 of MP_UNREACH. *)
Example foreign_afi_announced (nh : IpAddr) (p : Prefix) :
  extract_announced (mk_update [] [MpReach 25 1 nh [p]] []) = [(p, mk_path [] (Some nh) 2 [])] /\
  extract_withdrawn (mk_update [] [MpUnreach 25 1 [p]] []) = [].
Proof. done. Qed.

End Rib.
