(* ===== verification/BgpSession.v ===== *)
(** * BGP session driver (rill-dn42/src/{session,tunnel}/mod.rs)

    One peer: a WireGuard tunnel, a TCP connection inside it, and the state
    machine, decoder, policy and table of the other files, driven by four kinds of
    wake-up ([wake]).  The WireGuard library is the class [Tunn], the user-space
    TCP stack the class [TcpStack]; what the task emits (datagrams, packets for
    the host, route events) is collected in [emitted].  Times are in
    milliseconds. *)

From stdpp Require Import relations.
From S2P Require Import Prelude Net Route BgpWire BgpFsm Rib.

Module BgpSession.
Import Net Route BgpWire BgpFsm.

Definition TUNNEL_MTU : Z := 1400.
Definition DIAL_INTERVAL : Z := 1000.
Definition TX_QUEUE_CAP : nat := 64.

(** [Instant::duration_since], which saturates. *)
Definition since (now t : Z) : Z := Z.max 0 (now - t).

(** ** The tunnel *)

Inductive TunnResult :=
| Done
| TunnErr
| WriteToNetwork (b : list Z)
| WriteToTunnelV4 (b : list Z)
| WriteToTunnelV6 (b : list Z).

Class Tunn := {
  tunn : Type;
  tunn_new : list Z -> list Z -> option (list Z) -> Z -> tunn;
  tunn_encapsulate : tunn -> list Z -> TunnResult * tunn;
  tunn_decapsulate : tunn -> option IpAddr -> list Z -> TunnResult * tunn;
  tunn_update_timers : tunn -> TunnResult * tunn;
  format_handshake_initiation : tunn -> bool -> TunnResult * tunn;
  tunn_established : tunn -> bool
}.

Record WgPeerKeys := mk_keys {
  own_private : list Z;
  peer_public : list Z;
  preshared : option (list Z);
  index : Z
}.

Record DecapOutcome := mk_decap { plaintext : option (list Z); to_send : list (list Z) }.

Section Tunnel.
Context `{T : Tunn}.

Record WgTunnel := mk_tunnel { tun : tunn }.

Definition tunnel_new (k : WgPeerKeys) : WgTunnel :=
  mk_tunnel (tunn_new (own_private k) (peer_public k) (preshared k) (index k)).

Definition ensure_initiated (w : WgTunnel) : list (list Z) * WgTunnel :=
  match format_handshake_initiation (tun w) false with
  | (WriteToNetwork b, t) => ([b], mk_tunnel t)
  | (_, t) => ([], mk_tunnel t)
  end.

Definition encapsulate (w : WgTunnel) (packet : list Z) : list (list Z) * WgTunnel :=
  match tunn_encapsulate (tun w) packet with
  | (WriteToNetwork b, t) => ([b], mk_tunnel t)
  | (_, t) => ensure_initiated (mk_tunnel t)
  end.

(** The turns of the loop of [decapsulate] after the first: [out] is what has been
    collected, [r] the answer of the call made last. *)
Fixpoint decap_loop (fuel : nat) (src : option IpAddr) (out : DecapOutcome) (r : TunnResult) (t : tunn)
    : option (DecapOutcome * WgTunnel) :=
  let next out :=
    match fuel with
    | O => None
    | S fuel => let '(r, t) := tunn_decapsulate t src [] in decap_loop fuel src out r t
    end in
  match r with
  | Done | TunnErr => Some (out, mk_tunnel t)
  | WriteToNetwork b => next (mk_decap (plaintext out) (to_send out ++ [b]))
  | WriteToTunnelV4 b | WriteToTunnelV6 b => next (mk_decap (Some b) (to_send out))
  end.

Definition decapsulate (fuel : nat) (w : WgTunnel) (src : option IpAddr) (datagram : list Z)
    : option (DecapOutcome * WgTunnel) :=
  let '(r, t) := tunn_decapsulate (tun w) src datagram in
  decap_loop fuel src (mk_decap None []) r t.

Fixpoint timer_loop (fuel : nat) (out : list (list Z)) (t : tunn) : option (list (list Z) * WgTunnel) :=
  match fuel with
  | O => None
  | S fuel =>
      match tunn_update_timers t with
      | (WriteToNetwork b, t) => timer_loop fuel (out ++ [b]) t
      | (_, t) => Some (out, mk_tunnel t)
      end
  end.

Definition update_timers (fuel : nat) (w : WgTunnel) : option (list (list Z) * WgTunnel) :=
  timer_loop fuel [] (tun w).

Definition session_established (w : WgTunnel) : bool := tunn_established (tun w).
End Tunnel.

(** ** Configuration and events *)

Record BgpSessionConfig := mk_bgp {
  local_as : Z;
  cfg_bgp_id : list Z;
  peer_as : Z;
  cfg_hold_time : Z;
  own_prefixes : list Prefix;
  whitelist : list Prefix;
  max_prefixes : option Z
}.

Record PeerConfig := mk_peer {
  name : string;
  active : bool;
  endpoint : IpAddr * Z;
  keys : WgPeerKeys;
  local_v4 : list Z;
  local_v6 : list Z;
  peer_v4 : list Z;
  peer_v6 : list Z;
  bgp_port : Z;
  local_bgp_port : Z;
  bgp : BgpSessionConfig
}.

Inductive RouteEvent :=
| SessionUp
| SessionDown
| Changes (cs : list Rib.RouteChange).

(** What the task does to the outside. *)
Inductive output :=
| UdpSend (d : list Z)
| PlaintextOut (p : list Z)
| Event (e : RouteEvent).

(** *** The queue between tunnel and stack *)

Record QueueDevice := mk_device { rx : list (list Z); tx : list (list Z) }.

(** [QueueRx::consume]: the packet the stack reads. *)
Definition rx_consume (d : QueueDevice) : list Z * QueueDevice :=
  match rx d with
  | [] => ([], d)
  | p :: l => (p, mk_device l (tx d))
  end.

(** [QueueTx::consume]: the stack fills a buffer of [len] zeros with [f]. *)
Definition tx_consume (d : QueueDevice) (len : nat) (f : list Z -> list Z) : QueueDevice :=
  mk_device (rx d) (tx d ++ [take len (f (replicate len 0))]).

Definition receive (d : QueueDevice) : bool := negb (bool_decide (rx d = [])).
Definition transmit (d : QueueDevice) : bool := negb (bool_decide (TX_QUEUE_CAP <= length (tx d))%nat).

Inductive Destiny := Netstack (p : list Z) | Data (p : list Z).

Definition classify (pkt v4 v6 : list Z) : option Destiny :=
  match pkt with
  | [] => None
  | v :: _ =>
      let ver := Z.shiftr v 4 in
      let to_self :=
        if bool_decide (ver = 4) && bool_decide (20 <= length pkt)%nat
        then Some (bool_decide (take 4 (drop 16 pkt) = v4))
        else if bool_decide (ver = 6) && bool_decide (40 <= length pkt)%nat
        then Some (bool_decide (take 16 (drop 24 pkt) = v6))
        else None in
      match to_self with
      | Some true => Some (Netstack pkt)
      | Some false => Some (Data pkt)
      | None => None
      end
  end.

(** ** The TCP stack *)

(** The states the driver tells apart. *)
Inductive TcpState := TcpEstablished | TcpClosed | TcpOther.

#[export] Instance TcpState_eq_dec : EqDecision TcpState.
Proof. solve_decision. Defined.

(** The interface with its one socket.  [poll] moves packets between the device
    and the socket; [recv_slice] takes what fits the buffer, [None] is an error;
    [send_slice] says how many bytes were taken; [connect] and [listen] leave the
    stack as it was when they fail. *)
Class TcpStack := {
  stack : Type;
  stack_new : Z -> list Z -> list Z -> stack;
  poll : stack -> Z -> QueueDevice -> stack * QueueDevice;
  tcp_state : stack -> TcpState;
  can_recv : stack -> bool;
  recv_slice : stack -> option (list Z) * stack;
  can_send : stack -> bool;
  send_slice : stack -> list Z -> nat * stack;
  abort : stack -> stack;
  listen : stack -> Z -> stack;
  connect : stack -> list Z -> Z -> list Z -> Z -> stack;
  (** [recv_queue]: bytes waiting to be read. *)
  recv_queue : stack -> nat
}.

(** Reading takes from the queue; dropping the connection does not add to it; what
    is read are bytes; a dropped connection is closed. *)
Class TcpLaws (S : TcpStack) := {
  recv_takes s b s' : recv_slice s = (Some b, s') -> (recv_queue s' + length b = recv_queue s)%nat;
  recv_bytes s b s' : recv_slice s = (Some b, s') -> bytes b;
  abort_queue s : (recv_queue (abort s) <= recv_queue s)%nat;
  abort_closed s : tcp_state (abort s) = TcpClosed;
  recv_state s b s' : recv_slice s = (b, s') -> tcp_state s' = tcp_state s
}.

(** Appends the bytes of a message to be sent; a message that cannot be encoded is
    left out, and closing is the caller's business. *)
Definition queue_action (act : Action) (out : list Z) : list Z :=
  match act with
  | Send m => match encode m [] with (Ok _, b) => out ++ b | _ => out end
  | Close => out
  end.

Definition export_messages (export : Policy.ExportPolicy) (cfg : PeerConfig) : list Message :=
  let p4 := List.filter v4 (Policy.own_prefixes export) in
  let p6 := List.filter (fun p => negb (v4 p)) (Policy.own_prefixes export) in
  let path := [mk_segment false [local_as (bgp cfg)]] in
  (if decide (p4 = []) then []
   else [Update (mk_update [] [Origin 0; AsPath path; NextHop (local_v4 cfg)] p4)]) ++
  (if decide (p6 = []) then []
   else [Update (mk_update [] [Origin 0; AsPath path; MpReach AFI_IPV6 SAFI_UNICAST (V6 (local_v6 cfg)) p6] [])]) ++
  [Update (mk_update [] [] [])].

(** The order in which the table's hash map is walked. *)
Class RibOrder := rib_keys : gmap Rib.PfxKey Rib.PeerPaths -> list Rib.PfxKey.
Class RibOrderLaws (Q : RibOrder) := rib_keys_all m : rib_keys m ≡ₚ (map_to_list m).*1.

Section Round.
Context `{T : Tunn} `{K : TcpStack} `{Q : RibOrder} (cfg : PeerConfig).

Record Round := mk_round {
  device : QueueDevice;
  sockets : stack;
  tunnel : WgTunnel;
  fsm : BgpFsm;
  policy : Policy.ImportPolicy;
  rib : gmap Rib.PfxKey Rib.PeerPaths;
  frame_reader : FrameReader;
  bgp_out : list Z;
  was_established : bool;
  ever_established : bool;
  open_sent : bool;
  last_rx : Z;
  last_keepalive : Z;
  last_dial : Z;
  started : Z;
  emitted : list output
}.

Definition set_device (r : Round) d := mk_round d (sockets r) (tunnel r) (fsm r) (policy r) (rib r) (frame_reader r)
  (bgp_out r) (was_established r) (ever_established r) (open_sent r) (last_rx r) (last_keepalive r) (last_dial r) (started r) (emitted r).
Definition set_sockets (r : Round) s := mk_round (device r) s (tunnel r) (fsm r) (policy r) (rib r) (frame_reader r)
  (bgp_out r) (was_established r) (ever_established r) (open_sent r) (last_rx r) (last_keepalive r) (last_dial r) (started r) (emitted r).
Definition set_tunnel (r : Round) t := mk_round (device r) (sockets r) t (fsm r) (policy r) (rib r) (frame_reader r)
  (bgp_out r) (was_established r) (ever_established r) (open_sent r) (last_rx r) (last_keepalive r) (last_dial r) (started r) (emitted r).
Definition set_fsm (r : Round) f := mk_round (device r) (sockets r) (tunnel r) f (policy r) (rib r) (frame_reader r)
  (bgp_out r) (was_established r) (ever_established r) (open_sent r) (last_rx r) (last_keepalive r) (last_dial r) (started r) (emitted r).
Definition set_rib (r : Round) b p := mk_round (device r) (sockets r) (tunnel r) (fsm r) p b (frame_reader r)
  (bgp_out r) (was_established r) (ever_established r) (open_sent r) (last_rx r) (last_keepalive r) (last_dial r) (started r) (emitted r).
Definition set_reader (r : Round) fr := mk_round (device r) (sockets r) (tunnel r) (fsm r) (policy r) (rib r) fr
  (bgp_out r) (was_established r) (ever_established r) (open_sent r) (last_rx r) (last_keepalive r) (last_dial r) (started r) (emitted r).
Definition set_out (r : Round) o := mk_round (device r) (sockets r) (tunnel r) (fsm r) (policy r) (rib r) (frame_reader r)
  o (was_established r) (ever_established r) (open_sent r) (last_rx r) (last_keepalive r) (last_dial r) (started r) (emitted r).
Definition set_up (r : Round) := mk_round (device r) (sockets r) (tunnel r) (fsm r) (policy r) (rib r) (frame_reader r)
  (bgp_out r) true true (open_sent r) (last_rx r) (last_keepalive r) (last_dial r) (started r) (emitted r).
Definition set_open (r : Round) b := mk_round (device r) (sockets r) (tunnel r) (fsm r) (policy r) (rib r) (frame_reader r)
  (bgp_out r) (was_established r) (ever_established r) b (last_rx r) (last_keepalive r) (last_dial r) (started r) (emitted r).
Definition set_last_rx (r : Round) t := mk_round (device r) (sockets r) (tunnel r) (fsm r) (policy r) (rib r) (frame_reader r)
  (bgp_out r) (was_established r) (ever_established r) (open_sent r) t (last_keepalive r) (last_dial r) (started r) (emitted r).
Definition set_last_keepalive (r : Round) t := mk_round (device r) (sockets r) (tunnel r) (fsm r) (policy r) (rib r) (frame_reader r)
  (bgp_out r) (was_established r) (ever_established r) (open_sent r) (last_rx r) t (last_dial r) (started r) (emitted r).
Definition set_last_dial (r : Round) t := mk_round (device r) (sockets r) (tunnel r) (fsm r) (policy r) (rib r) (frame_reader r)
  (bgp_out r) (was_established r) (ever_established r) (open_sent r) (last_rx r) (last_keepalive r) t (started r) (emitted r).
Definition emit (r : Round) (os : list output) := mk_round (device r) (sockets r) (tunnel r) (fsm r) (policy r) (rib r) (frame_reader r)
  (bgp_out r) (was_established r) (ever_established r) (open_sent r) (last_rx r) (last_keepalive r) (last_dial r) (started r) (emitted r ++ os).

Definition queue_actions (r : Round) (acts : list Action) : Round :=
  set_out r (foldl (fun out a => queue_action a out) (bgp_out r) acts).

Definition send_udp (r : Round) (sent : list (list Z) * WgTunnel) : Round :=
  emit (set_tunnel r sent.2) (UdpSend <$> sent.1).

Definition dial_if_needed (r : Round) (now : Z) : Round :=
  if decide (since now (last_dial r) < DIAL_INTERVAL) then r
  else
    let r := set_last_dial r now in
    set_sockets r (connect (sockets r) (peer_v4 cfg) (bgp_port cfg) (local_v4 cfg) (local_bgp_port cfg)).

(** [dial_if_needed] or [listen], as configured. *)
Definition reopen (r : Round) (now : Z) : Round :=
  if active cfg then dial_if_needed r now
  else set_sockets r (listen (sockets r) (bgp_port cfg)).

Definition local_config : LocalConfig :=
  mk_config (local_as (bgp cfg)) (cfg_bgp_id (bgp cfg)) (cfg_hold_time (bgp cfg)) (Some (peer_as (bgp cfg))).

Definition export : Policy.ExportPolicy := Policy.mk_export (own_prefixes (bgp cfg)).

(** [session_round] up to its loop. *)
Definition start_round (now : Z) : Round :=
  let r := mk_round (mk_device [] []) (stack_new (Z.lor (index (keys cfg)) 1) (local_v4 cfg) (local_v6 cfg))
    (tunnel_new (keys cfg)) (BgpFsm.new local_config)
    (Policy.new (whitelist (bgp cfg)) None (local_as (bgp cfg)) (max_prefixes (bgp cfg)))
    ∅ (mk_reader []) [] false false false now now (now - DIAL_INTERVAL) now [] in
  reopen r now.

(** *** One message *)

Definition apply_update (r : Round) (u : UpdateMsg) : Round :=
  let st := Rib.apply (rib r) (name cfg) u (policy r) in
  let r := set_rib r (Rib.a_rib st) (Rib.a_policy st) in
  let cs := Rib.changes (Rib.a_out st) in
  let r := if decide (cs = []) then r else emit r [Event (Changes cs)] in
  if Rib.max_prefix_exceeded (Rib.a_out st) then
    let '(acts, f) := notify_max_prefix (fsm r) in queue_actions (set_fsm r f) acts
  else r.

(** Actions of a message: queued, and [Close] drops the connection. *)
Definition act_on (r : Round) (act : Action) : Round :=
  let r := set_out r (queue_action act (bgp_out r)) in
  match act with
  | Close => set_sockets r (abort (sockets r))
  | Send _ => r
  end.

Definition on_msg (r : Round) (msg : Message) : Round :=
  let before := bool_decide (state (fsm r) = Established) in
  let r := match msg with Update u => if before then apply_update r u else r | _ => r end in
  let resend := match msg with RouteRefresh _ => before | _ => false end in
  let '(acts, f) := on_message (fsm r) msg in
  let r := foldl act_on (set_fsm r f) acts in
  if resend then queue_actions r (Send <$> export_messages export cfg) else r.

(** The loop that empties the socket; [None] when the fuel runs out.  A panic of
    the decoder ends the task. *)
Fixpoint drain (fuel : nat) (now : Z) (r : Round) : option (outcome Empty_set Round) :=
  if can_recv (sockets r) then
    match fuel with
    | O => None
    | S fuel =>
        match recv_slice (sockets r) with
        | (Some (x :: b), s) =>
            let r := set_last_rx (set_sockets r s) now in
            match feed (frame_reader r) (x :: b) with
            | (Ok _, fr, msgs) => drain fuel now (foldl on_msg (set_reader r fr) msgs)
            | (Err _, fr, _) => Some (Ok (set_sockets (set_reader r fr) (abort (sockets r))))
            | (Panic, _, _) => Some Panic
            end
        | (_, s) => Some (Ok (set_sockets r s))
        end
    end
  else Some (Ok r).

(** *** The wake-ups *)

Inductive wake :=
| UdpRecv (r : option (list Z * IpAddr)) (host_open : bool)
| Outbound (pkt : option (list Z))
| PollTick (now dial_now : Z)
| SlowTick (now : Z).

(** How a turn of the loop ends: go on, or leave [session_round]. *)
Inductive turn :=
| Go (r : Round)
| Return (r : Round).

Definition on_udp (fuel : nat) (r : Round) (d : option (list Z * IpAddr)) (host_open : bool) : option turn :=
  match d with
  | None => Some (Return r)
  | Some (buf, src) =>
      '(dec, w) ← decapsulate fuel (tunnel r) (Some src) buf;
      let r := emit (set_tunnel r w) (UdpSend <$> to_send dec) in
      Some (match plaintext dec with
            | None => Go r
            | Some pkt =>
                match classify pkt (local_v4 cfg) (local_v6 cfg) with
                | Some (Netstack p) => Go (set_device r (mk_device (rx (device r) ++ [p]) (tx (device r))))
                | Some (Data p) => if host_open then Go (emit r [PlaintextOut p]) else Return r
                | None => Go r
                end
            end)
  end.

Definition on_outbound (r : Round) (pkt : option (list Z)) : turn :=
  match pkt with
  | None => Return r
  | Some p => Go (send_udp r (encapsulate (tunnel r) p))
  end.

(** [iface.poll], and what the stack wants sent goes through the tunnel. *)
Definition poll_stack (r : Round) (now : Z) : Round :=
  let '(s, d) := poll (sockets r) (since now (started r)) (device r) in
  foldl (fun r p => send_udp r (encapsulate (tunnel r) p)) (set_device (set_sockets r s) (mk_device (rx d) [])) (tx d).

(** Queued BGP bytes are handed to the socket. *)
Definition flush_out (r : Round) : Round :=
  if bool_decide (tcp_state (sockets r) = TcpEstablished) && can_send (sockets r) && negb (bool_decide (bgp_out r = []))
  then set_out (set_sockets r (send_slice (sockets r) (bgp_out r)).2) []
  else r.

Definition report_up (r : Round) : Round :=
  if bool_decide (state (fsm r) = Established) && negb (was_established r)
  then emit (queue_actions (set_up r) (Send <$> export_messages export cfg)) [Event SessionUp]
  else r.

Definition open_once (r : Round) : Round :=
  if open_sent r then r
  else
    let '(acts, f) := on_tcp_established (fsm r) in
    queue_actions (set_fsm (set_open r true) f) acts.

Definition on_poll (fuel : nat) (r : Round) (now dial_now : Z) : option (outcome Empty_set Round) :=
  let r := poll_stack r now in
  o ← match tcp_state (sockets r) with
      | TcpEstablished => drain fuel now (open_once r)
      | TcpClosed => Some (Ok (reopen (set_open r false) dial_now))
      | TcpOther => Some (Ok r)
      end;
  Some (r ← o; Ok (report_up (flush_out r))).

(** The timers of an established session. *)
Definition session_timers (r : Round) (now : Z) : Round :=
  if decide (state (fsm r) = Established) then
    let r := match keepalive_interval (fsm r) with
             | Some i => if decide (i * 1000 <= since now (last_keepalive r))
                         then set_last_keepalive (queue_actions r [Send Keepalive]) now else r
             | None => r
             end in
    if decide (0 < negotiated_hold (fsm r) /\ negotiated_hold (fsm r) * 1000 <= since now (last_rx r)) then
      let '(acts, f) := on_hold_timer (fsm r) in queue_actions (set_fsm r f) acts
    else r
  else r.

Definition on_slow (fuel : nat) (r : Round) (now : Z) : option turn :=
  '(ds, w) ← update_timers fuel (tunnel r);
  let r := send_udp r (ds, w) in
  let r := if session_established (tunnel r) then r else send_udp r (ensure_initiated (tunnel r)) in
  Some (if negb (was_established r) && bool_decide (90000 <= since now (started r)) then Return r
        else Go (session_timers r now)).

(** The end of a session, looked for after every turn. *)
Definition after_turn (r : Round) : outcome Empty_set turn :=
  if bool_decide (state (fsm r) = Idle) && was_established r then
    st ← Rib.purge_peer (rib r) (name cfg) (policy r) (rib_keys (rib r));
    Ok (Return (emit (set_rib r (Rib.a_rib st) (Rib.a_policy st))
                  [Event (Changes (Rib.changes (Rib.a_out st))); Event SessionDown]))
  else Ok (Go r).

Definition turn_of (fuel : nat) (r : Round) (w : wake) : option (outcome Empty_set turn) :=
  match w with
  | UdpRecv d host_open => Ok <$> on_udp fuel r d host_open
  | Outbound pkt => Some (Ok (on_outbound r pkt))
  | PollTick now dial_now => o ← on_poll fuel r now dial_now; Some (r ← o; Ok (Go r))
  | SlowTick now => Ok <$> on_slow fuel r now
  end.

Definition round_step (fuel : nat) (r : Round) (w : wake) : option (outcome Empty_set turn) :=
  o ← turn_of fuel r w;
  Some (t ← o; match t with Go r => after_turn r | Return r => Ok (Return r) end).

(** A round up to its end or the end of the wake-ups given. *)
Fixpoint session_round (fuel : nat) (r : Round) (ws : list wake) : option (outcome Empty_set turn) :=
  match ws with
  | [] => Some (Ok (Go r))
  | w :: ws =>
      match round_step fuel r w with
      | Some (Ok (Go r)) => session_round fuel r ws
      | o => o
      end
  end.
End Round.

(** [run_peer]: the pause after a round and the next backoff. *)
Definition run_peer_pause (established : bool) (backoff : Z) : Z * Z :=
  let b := if established then 1000 else backoff in (b, Z.min (b * 2) 30000).

(** ** The loop over the socket *)

Section Drain.
Context `{T : Tunn} `{K : TcpStack} `{Q : RibOrder} `{!TcpLaws K} (cfg : PeerConfig).
Implicit Types r : Round.

(** What a message does to the socket is at most to drop it. *)
Definition same_or_aborted (s s' : stack) : Prop := rtc (fun a b => b = abort a) s s'.

Lemma aborted_queue s s' : same_or_aborted s s' -> (recv_queue s' <= recv_queue s)%nat.
Proof. induction 1 as [|a b c -> _ IH]; [lia|]. pose proof (abort_queue a). lia. Qed.

Lemma apply_update_sockets r u : sockets (apply_update cfg r u) = sockets r.
Proof.
  unfold apply_update. destruct (Rib.max_prefix_exceeded _); [|by case_decide].
  destruct (notify_max_prefix _) as [acts f] eqn:E. case_decide; done.
Qed.

Lemma acts_sockets acts r : same_or_aborted (sockets r) (sockets (foldl act_on r acts)).
Proof.
  revert r. induction acts as [|a acts IH]; intros r; cbn; [by apply rtc_refl|].
  destruct a; cbn; [apply (IH (set_out r _))|].
  eapply rtc_l; [reflexivity|]. apply (IH (set_sockets (set_out r _) _)).
Qed.

Lemma on_msg_sockets r m : same_or_aborted (sockets r) (sockets (on_msg cfg r m)).
Proof.
  unfold on_msg. set (r1 := match m with Update _ => _ | _ => r end).
  assert (H1 : sockets r1 = sockets r) by (subst r1; destruct m; try done; destruct (bool_decide _); [apply apply_update_sockets|done]).
  clearbody r1. destruct (on_message (fsm r1) m) as [acts f].
  pose proof (acts_sockets acts (set_fsm r1 f)) as H. cbn in H. rewrite H1 in H.
  destruct m; try exact H. destruct (bool_decide _); exact H.
Qed.

Lemma msgs_sockets ms r : same_or_aborted (sockets r) (sockets (foldl (on_msg cfg) r ms)).
Proof.
  revert r. induction ms as [|m ms IH]; intros r; cbn; [by apply rtc_refl|].
  unfold same_or_aborted in *. etrans; [apply on_msg_sockets|apply IH].
Qed.

(** The states in which the loop goes on to read. *)
Inductive drains (now : Z) : Round -> Round -> Prop :=
| drains_nil r : drains now r r
| drains_read r x b s fr msgs r' : can_recv (sockets r) = true -> recv_slice (sockets r) = (Some (x :: b), s) ->
    feed (frame_reader r) (x :: b) = (Ok tt, fr, msgs) ->
    drains now (foldl (on_msg cfg) (set_reader (set_last_rx (set_sockets r s) now) fr) msgs) r' -> drains now r r'.

(** It stops once the bytes that were waiting have been read, in no more turns than there
    were bytes; and a panic is one of the decoder on the bytes at hand. *)
Lemma drain_ends now n : forall r, (recv_queue (sockets r) < n)%nat -> exists o,
  (forall fuel, (n <= fuel)%nat -> drain cfg fuel now r = Some o) /\
  (o = Panic -> exists r2 b s fr msgs, drains now r r2 /\ recv_slice (sockets r2) = (Some b, s) /\ feed (frame_reader r2) b = (Panic, fr, msgs)).
Proof.
  induction n as [|n IH]; intros r Hn; [lia|].
  destruct (can_recv (sockets r)) eqn:Ec; [|exists (Ok r); split; [|done]; intros [|] _; cbn; by rewrite Ec].
  destruct (recv_slice (sockets r)) as [[[|x b]|] s] eqn:Er.
  1,3: eexists; split; [intros [|] ?; [lia|]; cbn; by rewrite Ec, Er|done].
  apply recv_takes in Er as Hq. cbn in Hq.
  set (r1 := set_last_rx (set_sockets r s) now).
  destruct (feed (frame_reader r1) (x :: b)) as [[res fr] msgs] eqn:Ef. change (frame_reader r1) with (frame_reader r) in Ef. destruct res as [[]|e|].
  - destruct (IH (foldl (on_msg cfg) (set_reader r1 fr) msgs)) as (o & Ho & Hp).
    { pose proof (aborted_queue _ _ (msgs_sockets msgs (set_reader r1 fr))) as Hle. cbn in Hle. lia. }
    exists o. split.
    + intros [|m] Hm; [lia|]. cbn. rewrite Ec, Er. fold r1. change (frame_reader r1) with (frame_reader r). rewrite Ef. apply Ho. lia.
    + intros E. destruct (Hp E) as (r2 & b2 & s2 & fr2 & ms2 & H1 & H2 & H3). exists r2, b2, s2, fr2, ms2. split; [|done]. by eapply drains_read.
  - eexists. split; [intros [|] ?; [lia|]; cbn; rewrite Ec, Er; fold r1; change (frame_reader r1) with (frame_reader r); by rewrite Ef|done].
  - exists Panic. split; [intros [|] ?; [lia|]; cbn; rewrite Ec, Er; fold r1; change (frame_reader r1) with (frame_reader r); by rewrite Ef|].
    intros _. exists r, (x :: b), s, fr, msgs. split; [constructor|done].
Qed.
End Drain.

(** ** What the consumer hears *)

Definition events_of (os : list output) : list RouteEvent :=
  omap (fun o => match o with Event e => Some e | _ => None end) os.

Definition changes_in (es : list RouteEvent) : list Rib.RouteChange :=
  mjoin ((fun e => match e with Changes cs => cs | _ => [] end) <$> es).

(** The routes a consumer of the events holds. *)
Definition heard (os : list output) : gmap Rib.PfxKey Policy.BgpPath :=
  foldl Rib.apply_change ∅ (changes_in (events_of os)).

(** The order of the events of a round: changes, up, changes, down. *)
Inductive monitor := Before | Up | Down | Bad.

Definition watch (m : monitor) (e : RouteEvent) : monitor :=
  match m, e with
  | Before, Changes _ => Before
  | Before, SessionUp => Up
  | Up, Changes _ => Up
  | Up, SessionDown => Down
  | _, _ => Bad
  end.

Lemma events_app a b : events_of (a ++ b) = events_of a ++ events_of b.
Proof. apply omap_app. Qed.

Lemma changes_app a b : changes_in (a ++ b) = changes_in a ++ changes_in b.
Proof. unfold changes_in. by rewrite fmap_app, join_app. Qed.

Lemma heard_app a b : heard (a ++ b) = foldl Rib.apply_change (heard a) (changes_in (events_of b)).
Proof. unfold heard. by rewrite events_app, changes_app, foldl_app. Qed.

Lemma events_udp ds : events_of (UdpSend <$> ds) = [].
Proof. by induction ds. Qed.

Section Inv.
Context `{T : Tunn} `{K : TcpStack} `{Q : RibOrder} `{!TcpLaws K} `{!RibOrderLaws Q} (cfg : PeerConfig).
Implicit Types r : Round.

Definition new_fsm : BgpFsm := BgpFsm.new (local_config cfg).

Definition was_up (f : BgpFsm) : Prop :=
  exists pre post, f = run new_fsm (pre ++ post) /\ state (run new_fsm pre) = Established.

Record inv (r : Round) : Prop := {
  iv_rib : Rib.rib_ok (rib r);
  iv_sync : Rib.in_sync (heard (emitted r)) (rib r);
  iv_peer : Rib.peer_ok (name cfg) (policy r) (rib r);
  iv_other : forall q, q <> name cfg -> Rib.routes (rib r) q = ∅;
  iv_rules : Policy.same_rules (policy r)
    (Policy.new (whitelist (bgp cfg)) None (local_as (bgp cfg)) (max_prefixes (bgp cfg)));
  iv_reader : bytes (buf (frame_reader r));
  iv_fsm : exists es, fsm r = run new_fsm es;
  iv_up : rib r <> ∅ \/ was_established r = true -> was_up (fsm r);
  iv_ever : ever_established r = was_established r;
  iv_watch : foldl watch Before (events_of (emitted r)) = if was_established r then Up else Before
}.

(** Steps that touch neither table nor events; the machine moves by its handlers. *)
Record quiet (r r' : Round) : Prop := {
  qt_rib : rib r' = rib r;
  qt_policy : policy r' = policy r;
  qt_events : events_of (emitted r') = events_of (emitted r);
  qt_was : was_established r' = was_established r;
  qt_ever : ever_established r' = ever_established r;
  qt_reader : bytes (buf (frame_reader r)) -> bytes (buf (frame_reader r'));
  qt_fsm : exists es, fsm r' = run (fsm r) es
}.

#[local] Instance quiet_preorder : PreOrder quiet.
Proof.
  split.
  - intros r. split; try done. by exists [].
  - intros r1 r2 r3 [A1 A2 A3 A4 A5 A6 [es1 A7]] [B1 B2 B3 B4 B5 B6 [es2 B7]].
    split; try congruence; [auto|]. exists (es1 ++ es2). unfold run in *. by rewrite foldl_app, <- A7.
Qed.

Lemma run_app f a b : run f (a ++ b) = run (run f a) b.
Proof. apply foldl_app. Qed.

Lemma was_up_run f es : was_up f -> was_up (run f es).
Proof. intros (pre & post & -> & H). exists pre, (post ++ es). split; [|done]. by rewrite app_assoc, (run_app _ (pre ++ post)). Qed.

Lemma quiet_inv r r' : quiet r r' -> inv r -> inv r'.
Proof.
  intros [A1 A2 A3 A4 A5 A6 [es A7]] []. assert (Hh : heard (emitted r') = heard (emitted r)) by (unfold heard; by rewrite A3).
  split; try (rewrite ?A1, ?A2, ?A4, ?A5, ?Hh, ?A3; solve [auto]).
  - destruct iv_fsm0 as [es0 E]. exists (es0 ++ es). by rewrite run_app, <- E.
  - rewrite A1, A4. intros H. rewrite A7. by apply was_up_run, iv_up0.
Qed.

Ltac still := split; try done; first [by exists [] | idtac].

Lemma quiet_queue r acts : quiet r (queue_actions r acts).
Proof. still. Qed.

Lemma quiet_fsm r e : quiet r (set_fsm r (handle (fsm r) e).2).
Proof. split; try done. by exists [e]. Qed.

Lemma quiet_handle r e acts f : handle (fsm r) e = (acts, f) -> quiet r (queue_actions (set_fsm r f) acts).
Proof. intros E. pose proof (quiet_fsm r e) as H. rewrite E in H. etrans; [exact H|apply quiet_queue]. Qed.

Lemma quiet_acts acts r : quiet r (foldl act_on r acts).
Proof.
  revert r. induction acts as [|a acts IH]; intros r; cbn [foldl]; [reflexivity|]. etrans; [|apply IH].
  destruct a; still.
Qed.

Lemma quiet_udp r s : quiet r (send_udp r s).
Proof. split; try done; [|by exists []]. cbn. by rewrite events_app, events_udp, app_nil_r. Qed.

Lemma quiet_reopen r now : quiet r (reopen cfg r now).
Proof. unfold reopen, dial_if_needed. destruct (active cfg); [case_decide|]; still. Qed.

Lemma quiet_open r : quiet r (open_once r).
Proof.
  unfold open_once. destruct (open_sent r); [reflexivity|].
  destruct (on_tcp_established (fsm r)) as [acts f] eqn:E.
  etrans; [|exact (quiet_handle (set_open r true) BgpFsm.TcpEstablished acts f E)]. still.
Qed.

Lemma quiet_flush r : quiet r (flush_out r).
Proof. unfold flush_out. destruct (_ && _ && _); still. Qed.

Lemma quiet_poll r now : quiet r (poll_stack r now).
Proof.
  unfold poll_stack. destruct (poll _ _ _) as [s d].
  assert (H : forall l r0, quiet r0 (foldl (fun r p => send_udp r (encapsulate (tunnel r) p)) r0 l)).
  { induction l as [|p l IH]; intros r0; cbn [foldl]; [reflexivity|]. etrans; [apply quiet_udp|apply IH]. }
  etrans; [|apply H]. still.
Qed.

Lemma quiet_timers r now : quiet r (session_timers r now).
Proof.
  unfold session_timers. case_decide; [|reflexivity].
  set (r1 := match keepalive_interval (fsm r) with Some _ => _ | None => r end).
  assert (H1 : quiet r r1) by (subst r1; destruct (keepalive_interval _); [case_decide|]; still).
  clearbody r1. destruct (decide (0 < negotiated_hold (fsm r1) /\ _)); [|exact H1].
  destruct (on_hold_timer (fsm r1)) as [acts f] eqn:E. etrans; [exact H1|]. exact (quiet_handle r1 HoldTimer acts f E).
Qed.

(** An UPDATE in an established session. *)
Lemma inv_applied r u : state (fsm r) = Established -> Forall prefix_ok (update_prefixes u) ->
  inv r -> inv (apply_update cfg r u).
Proof.
  intros He Hu Hi. pose proof Hi as [].
  destruct (Rib.apply_inv (rib r) (name cfg) u (policy r) _ Hu iv_rib0 iv_sync0 iv_peer0) as [Hr Ho Hs Hp].
  pose proof (Rib.apply_rules (rib r) (name cfg) u (policy r)) as Hrules.
  unfold apply_update. set (st := Rib.apply _ _ _ _) in *.
  set (r1 := if decide (Rib.changes (Rib.a_out st) = []) then _ else _).
  assert (H1 : inv r1).
  { assert (Hup : was_up (fsm r)).
    { destruct iv_fsm0 as [es E]. exists es, []. rewrite app_nil_r, <- E. done. }
    subst r1. case_decide as Hc; split; cbn -[Rib.routes heard events_of]; try done.
    - by rewrite Hc in Hs.
    - intros q Hq. by rewrite Ho, iv_other0.
    - by eapply Policy.same_rules_trans.
    - rewrite heard_app. cbn. unfold changes_in. cbn. by rewrite app_nil_r.
    - intros q Hq. by rewrite Ho, iv_other0.
    - by eapply Policy.same_rules_trans.
    - rewrite events_app, foldl_app, iv_watch0. cbn. by destruct (was_established r). }
  clearbody r1. destruct (Rib.max_prefix_exceeded _); [|done].
  destruct (notify_max_prefix (fsm r1)) as [acts f] eqn:E.
  eapply quiet_inv; [exact (quiet_handle r1 MaxPrefix acts f E)|done].
Qed.

Definition msg_prefixes_ok (m : Message) : Prop :=
  match m with Update u => Forall prefix_ok (update_prefixes u) | _ => True end.

Lemma inv_msg r m : msg_prefixes_ok m -> inv r -> inv (on_msg cfg r m).
Proof.
  intros Hm Hi. unfold on_msg. set (r1 := match m with Update _ => _ | _ => r end).
  assert (H1 : inv r1).
  { subst r1. destruct m; try done. destruct (bool_decide (state (fsm r) = Established)) eqn:E; [|done].
    apply bool_decide_eq_true in E. by apply inv_applied. }
  clearbody r1. destruct (on_message (fsm r1) m) as [acts f] eqn:E.
  assert (H2 : inv (foldl act_on (set_fsm r1 f) acts)).
  { eapply quiet_inv; [|exact H1]. pose proof (quiet_fsm r1 (Msg m)) as Hf. cbn [handle] in Hf. rewrite E in Hf.
    etrans; [exact Hf|apply quiet_acts]. }
  destruct m; try done. destruct (bool_decide _); [|done]. eapply quiet_inv; [apply quiet_queue|done].
Qed.

Lemma inv_msgs ms : Forall msg_prefixes_ok ms -> forall r, inv r -> inv (foldl (on_msg cfg) r ms).
Proof. induction 1 as [|m ms Hm _ IH]; intros r Hi; cbn [foldl]; [done|]. by apply IH, inv_msg. Qed.

(** What the decoder hands out of a stream of bytes. *)
Lemma feed_loop_ok n : forall b res b' ms, bytes b -> feed_loop n b = (res, b', ms) ->
  bytes b' /\ Forall msg_prefixes_ok ms.
Proof.
  induction n as [|n IH]; intros b res b' ms Hb; cbn [feed_loop].
  - repeat case_match; intros [= <- <- <-]; (split; [done|fall]).
  - destruct (decide _); [intros [= <- <- <-]; split; [done|fall]|].
    destruct (negb _); [intros [= <- <- <-]; split; [done|fall]|].
    destruct (decide _); [intros [= <- <- <-]; split; [done|fall]|].
    destruct (decide _); [intros [= <- <- <-]; split; [done|fall]|].
    set (k := Z.to_nat _). destruct (decode (take k b)) as [m|e|] eqn:Ed;
      [|intros [= <- <- <-]; split; [done|fall]..].
    destruct (feed_loop n (drop k b)) as [[res1 b1] ms1] eqn:Ef. intros [= <- <- <-].
    apply IH in Ef as [H1 H2]; [|by apply Forall_drop]. split; [done|]. constructor; [|done].
    destruct m; try done. eapply decode_prefixes_ok; [|exact Ed]. by apply Forall_take.
Qed.

Lemma inv_drain fuel now : forall r r', inv r -> drain cfg fuel now r = Some (Ok r') -> inv r'.
Proof.
  induction fuel as [|fuel IH]; intros r r' Hi; cbn [drain]; destruct (can_recv _); [done| | |].
  1,3: by intros [= <-].
  destruct (recv_slice (sockets r)) as [[[|x b]|] s] eqn:Er.
  1,3: intros [= <-]; eapply quiet_inv; [|exact Hi]; still.
  assert (H1 : inv (set_last_rx (set_sockets r s) now)) by (eapply quiet_inv; [|exact Hi]; still).
  set (r1 := set_last_rx _ _) in *. clearbody r1. apply recv_bytes in Er as Hb. unfold feed.
  destruct (feed_loop _ _) as [[res b'] ms] eqn:Ef.
  apply feed_loop_ok in Ef as [Hb' Hms]; [|apply Forall_app; split; [apply H1|done]].
  assert (H2 : inv (set_reader r1 (mk_reader b'))) by (eapply quiet_inv; [|exact H1]; split; try done; by exists []).
  destruct res as [u|e|]; [|intros [= <-]; eapply quiet_inv; [|exact H2]; still|done].
  intros H. eapply IH; [|exact H]. by apply inv_msgs.
Qed.

Lemma inv_report r : inv r -> inv (report_up cfg r).
Proof.
  intros Hi. unfold report_up. destruct (bool_decide _ && _) eqn:E; [|done].
  apply andb_true_iff in E as [He%bool_decide_eq_true Hw%negb_true_iff]. pose proof Hi as [].
  assert (Hup : was_up (fsm r)).
  { destruct iv_fsm0 as [es Ees]. exists es, []. rewrite app_nil_r, <- Ees. done. }
  split; cbn -[Rib.routes heard events_of]; try done.
  - rewrite heard_app. cbn. unfold changes_in. by cbn.
  - rewrite events_app, foldl_app, iv_watch0, Hw. done.
Qed.

Lemma inv_poll fuel r now dn r' : inv r -> on_poll cfg fuel r now dn = Some (Ok r') -> inv r'.
Proof.
  intros Hi. unfold on_poll. assert (H1 : inv (poll_stack r now)) by (eapply quiet_inv; [apply quiet_poll|done]).
  set (r1 := poll_stack r now) in *. clearbody r1.
  destruct (match tcp_state (sockets r1) with TcpEstablished => _ | _ => _ end) as [o|] eqn:E; cbn; [|done].
  destruct o as [r2|e|]; cbn; [|done..]. intros [= <-].
  apply inv_report. eapply quiet_inv; [apply quiet_flush|].
  destruct (tcp_state (sockets r1)).
  - eapply inv_drain; [|exact E]. eapply quiet_inv; [apply quiet_open|done].
  - injection E as <-. eapply quiet_inv; [|exact H1]. etrans; [|apply quiet_reopen]. still.
  - injection E as <-. done.
Qed.

Definition round_of (t : turn) : Round := match t with Go r | Return r => r end.

Lemma inv_turn fuel r w t : inv r -> turn_of cfg fuel r w = Some (Ok t) -> inv (round_of t).
Proof.
  intros Hi. destruct w as [d open|pkt|now dn|now]; cbn [turn_of].
  - destruct (on_udp _ _ _ _ _) as [t'|] eqn:E; [|done]. intros [= <-]. eapply quiet_inv; [|exact Hi].
    unfold on_udp in E. destruct d as [[buf src]|]; [|injection E as <-; reflexivity].
    destruct (decapsulate _ _ _ _) as [[dec w]|]; [|done]. injection E as <-.
    pose proof (quiet_udp r (to_send dec, w)) as H. unfold send_udp in H. cbn in H.
    set (r1 := emit _ _) in *. clearbody r1.
    destruct (plaintext dec) as [p|]; [|done]. destruct (classify _ _ _) as [[?|?]|]; cbn; [| |done].
    + etrans; [exact H|still].
    + destruct open; cbn; [|done]. etrans; [exact H|]. split; try done; [|by exists []]. cbn. by rewrite events_app, app_nil_r.
  - intros [= <-]. destruct pkt as [p|]; cbn; [|done]. eapply quiet_inv; [apply quiet_udp|done].
  - destruct (on_poll _ _ _ _ _) as [o|] eqn:E; cbn; [|done]. destruct o as [r'|e|]; cbn; [|done..].
    intros [= <-]. by eapply inv_poll.
  - destruct (on_slow _ _ _) as [t'|] eqn:E; [|done]. intros [= <-]. unfold on_slow in E.
    destruct (update_timers _ _) as [[ds w]|]; [|done]. injection E as <-.
    set (r1 := send_udp r (ds, w)). assert (H1 : quiet r r1) by apply quiet_udp. clearbody r1.
    set (r2 := if session_established _ then _ else _).
    assert (H2 : quiet r r2) by (subst r2; destruct (session_established _); [done|]; etrans; [exact H1|apply quiet_udp]).
    clearbody r2. destruct (_ && _); cbn; eapply quiet_inv; try exact Hi; [done|]. etrans; [exact H2|apply quiet_timers].
Qed.
End Inv.

Section Results.
Context `{T : Tunn} `{K : TcpStack} `{Q : RibOrder} `{!TcpLaws K} `{!RibOrderLaws Q} (cfg : PeerConfig).
Implicit Types r : Round.
#[local] Existing Instance quiet_preorder.

Definition import_policy : Policy.ImportPolicy :=
  Policy.new (whitelist (bgp cfg)) None (local_as (bgp cfg)) (max_prefixes (bgp cfg)).

(** With one peer, what the consumer holds are that peer's routes. *)
Lemma view_routes b n k path : Rib.rib_ok b -> (forall q, q <> n -> Rib.routes b q = ∅) ->
  Rib.view b k = Some path -> Rib.routes b n !! k = Some path.
Proof.
  intros Hb Ho. unfold Rib.view. rewrite Rib.lookup_routes. destruct (b !! k) as [e|] eqn:E; [|done]. cbn.
  destruct (Rib.best_peer e) as [q|]; [|done]. cbn. intros Hp. destruct (decide (q = n)) as [->|Hq]; [done|].
  exfalso. pose proof (Rib.lookup_routes b q k) as H. rewrite (Ho q Hq), lookup_empty, E in H. cbn in H. congruence.
Qed.

Lemma heard_routes r : inv cfg r -> heard (emitted r) ⊆ Rib.routes (rib r) (name cfg).
Proof.
  intros []. apply map_subseteq_spec. intros k path. rewrite (iv_sync cfg r ltac:(by split) k). by apply view_routes.
Qed.

Lemma heard_empty b n v : Rib.rib_ok b -> Rib.in_sync v b -> (forall q, q <> n -> Rib.routes b q = ∅) ->
  Rib.routes b n = ∅ -> v = ∅.
Proof.
  intros Hb Hv Ho Hn. apply map_eq. intros k. rewrite (Hv k), lookup_empty.
  destruct (Rib.view b k) as [path|] eqn:E; [|done]. apply (view_routes b n) in E; [|done..]. by rewrite Hn in E.
Qed.

Lemma purge_all b n pol v : Rib.rib_ok b -> Rib.in_sync v b -> Rib.peer_ok n pol b ->
  exists st, Rib.purge_peer b n pol (rib_keys b) = Ok st /\ Rib.session_inv n b v st /\ Rib.routes (Rib.a_rib st) n = ∅.
Proof.
  intros Hb Hv Hp.
  destruct (Rib.purge_keys_inv n b v (rib_keys b)) with (st := Rib.mk_apply b pol (Rib.mk_outcome [] [] false))
    as (st & E & Hst & Hk); [|by apply Rib.session_inv_init|].
  { rewrite rib_keys_all. by apply Rib.rib_keys_ok. }
  exists st. split; [done|]. split; [done|]. apply map_eq. intros k. rewrite Hk, lookup_empty.
  case_decide as Hin; [done|]. cbn [Rib.a_rib]. rewrite Rib.lookup_routes. destruct (b !! k) as [e|] eqn:E'; [|done].
  exfalso. apply Hin. rewrite rib_keys_all. apply list_elem_of_fmap. exists (k, e). split; [done|]. by apply elem_of_map_to_list.
Qed.

(** The state at the end of a session: all withdrawn. *)
Record ended (r : Round) : Prop := {
  en_heard : heard (emitted r) = ∅;
  en_watch : foldl watch Before (events_of (emitted r)) = Down;
  en_up : was_up cfg (fsm r)
}.

Lemma after_turn_spec r t : inv cfg r -> after_turn cfg r = Ok t ->
  match t with
  | Go r' => r' = r /\ (state (fsm r) <> Idle \/ was_established r = false)
  | Return r' => ended r'
  end.
Proof.
  intros Hi. pose proof Hi as []. unfold after_turn.
  destruct (bool_decide (state (fsm r) = Idle) && was_established r) eqn:E.
  - apply andb_true_iff in E as [_ Hw].
    destruct (purge_all (rib r) (name cfg) (policy r) _ iv_rib0 iv_sync0 iv_peer0) as (st & -> & [Hr Ho Hs _] & Hn).
    step. intros [= <-]. split; cbn -[heard events_of].
    + rewrite heard_app. cbn. unfold changes_in; cbn. rewrite app_nil_r.
      eapply heard_empty; [exact Hr|exact Hs| |exact Hn]. intros q Hq. by rewrite Ho, iv_other0.
    + rewrite events_app, foldl_app, iv_watch0, Hw. done.
    + apply iv_up0. by right.
  - intros [= <-]. split; [done|]. apply andb_false_iff in E as [E%bool_decide_eq_false|E]; auto.
Qed.

Lemma inv_step fuel r w t : inv cfg r -> round_step cfg fuel r w = Some (Ok t) ->
  match t with Go r' => inv cfg r' | Return r' => inv cfg r' \/ ended r' end.
Proof.
  intros Hi. unfold round_step. destruct (turn_of _ _ _ _) as [o|] eqn:E; cbn; [|done].
  destruct o as [t1|e|]; cbn; [|done..]. apply inv_turn in E; [|done..]. destruct t1 as [r1|r1]; cbn in E.
  - intros [= H]. apply after_turn_spec in H as H'; [|done]. destruct t; [|by right]. by destruct H' as [-> _].
  - intros [= <-]. by left.
Qed.

Lemma inv_round fuel ws : forall r t, inv cfg r -> session_round cfg fuel r ws = Some (Ok t) ->
  match t with Go r' => inv cfg r' | Return r' => inv cfg r' \/ ended r' end.
Proof.
  induction ws as [|w ws IH]; intros r t Hi; cbn [session_round]; [by intros [= <-]|].
  destruct (round_step cfg fuel r w) as [o|] eqn:E; [|done]. destruct o as [t1|e|]; [|done..].
  destruct t1 as [r1|r1].
  - intros H. eapply IH; [|exact H]. exact (inv_step fuel r w _ Hi E).
  - intros [= <-]. exact (inv_step fuel r w _ Hi E).
Qed.

Lemma start_inv now : inv cfg (start_round cfg now).
Proof.
  unfold start_round. eapply quiet_inv; [apply quiet_reopen|]. split; try done.
  - split; cbn.
    + intros m Hm Hu. unfold Rib.routes. rewrite omap_empty, map_size_empty. unfold is_uint in Hu. lia.
    + intros p path. unfold Rib.routes. by rewrite omap_empty, lookup_empty.
  - apply Forall_nil_2.
  - by exists [].
  - by intros [?|?].
Qed.

(** What a round has told its consumer. *)
Record told (r : Round) : Prop := {
  td_order : foldl watch Before (events_of (emitted r)) <> Bad;
  td_admitted : forall p path, heard (emitted r) !! Rib.key p = Some path -> Policy.admit_route import_policy p path = Ok tt;
  td_limit : forall m, max_prefixes (bgp cfg) = Some m -> u32 m -> Z.of_nat (size (heard (emitted r))) <= m;
  td_handshake : heard (emitted r) <> ∅ \/ SessionUp ∈ events_of (emitted r) -> exists es o,
    fsm r = run (new_fsm cfg) es /\ Msg (Open o) ∈ es /\ acceptable (local_config cfg) o;
  td_down : foldl watch Before (events_of (emitted r)) = Down -> heard (emitted r) = ∅
}.

Lemma watch_bad es : foldl watch Bad es = Bad.
Proof. by induction es. Qed.

Lemma watch_before es : SessionUp ∈ es -> foldl watch Before es <> Before.
Proof.
  induction es as [|e es IH]; [by inversion 1|]. intros [<-|H]%elem_of_cons; cbn.
  - assert (G : forall m, m <> Before -> foldl watch m es <> Before); [|by apply G].
    clear IH. induction es as [|e es IH]; intros m Hm; cbn; [done|]. apply IH. by destruct m, e.
  - destruct e; cbn; [| |by apply IH]; [|by rewrite watch_bad].
    assert (G : forall m, m <> Before -> foldl watch m es <> Before); [|by apply G].
    clear IH. clear H. induction es as [|e es IH]; intros m Hm; cbn; [done|]. apply IH. by destruct m, e.
Qed.

Lemma was_up_open f : was_up cfg f -> exists es o,
  f = run (new_fsm cfg) es /\ Msg (Open o) ∈ es /\ acceptable (local_config cfg) o.
Proof.
  intros (pre & post & -> & He). destruct (run_history (local_config cfg) pre) as [_ H].
  unfold history, new_fsm in *. rewrite He in H. destruct H as (p0 & a & o & c & -> & _ & Ho & _).
  eexists _, o. split; [reflexivity|]. split; [|done]. set_solver.
Qed.

Lemma inv_told r : inv cfg r -> told r.
Proof.
  intros Hi. pose proof (heard_routes r Hi) as Hsub. pose proof Hi as [].
  split; try (rewrite iv_watch0; by destruct (was_established r)).
  - intros p path Hp. rewrite <- (Policy.admit_same (policy r)) by done.
    apply (Rib.po_admitted _ _ _ iv_peer0). eapply lookup_weaken; [exact Hp|exact Hsub].
  - intros m Hm Hu. pose proof iv_rules0 as (_ & _ & _ & Hmax). cbn in Hmax. rewrite <- Hmax in Hm.
    destruct (Rib.po_count _ _ _ iv_peer0 m Hm Hu) as [Hc Hle]. apply map_subseteq_size in Hsub. lia.
  - intros H. apply was_up_open, iv_up0. destruct H as [H|H].
    + left. intros E. apply H. apply map_eq. intros k. rewrite (iv_sync0 k), E, lookup_empty. done.
    + right. apply watch_before in H. rewrite iv_watch0 in H. by destruct (was_established r).
Qed.

Lemma ended_told r : ended r -> told r.
Proof.
  intros [Hh Hw Hu]. split; rewrite ?Hh, ?Hw; try done.
  - intros m _ Hm. rewrite map_size_empty. unfold is_uint in Hm. lia.
  - intros _. by apply was_up_open.
Qed.

(** *** Panics come from the message decoder only *)

Definition decoder_panics : Prop := exists b, decode b = Panic /\ long_nlri b.

Lemma feed_loop_panic n : forall b b' ms, (length b <= n)%nat -> feed_loop n b = (Panic, b', ms) ->
  exists p m q, b = p ++ m ++ q /\ decode m = Panic /\ long_nlri m.
Proof.
  induction n as [|n IH]; intros b b' ms Hn; cbn [feed_loop].
  { rewrite decide_True by (unfold HEADER_LEN; lia). done. }
  destruct (decide _); [done|]. destruct (negb _); [done|]. destruct (decide _) as [|Hl]; [done|]. destruct (decide _) as [|Hk]; [done|].
  set (k := Z.to_nat _) in *. destruct (decode (take k b)) as [m|e|] eqn:Ed; [|done|].
  - destruct (feed_loop n (drop k b)) as [[res1 b1] ms1] eqn:Ef. intros [= -> <- <-].
    apply IH in Ef as (p & x & q & E & H); [|rewrite length_drop; lia]. exists (take k b ++ p), x, q. split; [|done].
    by rewrite <- app_assoc, <- E, take_drop.
  - intros _. exists [], (take k b), (drop k b). split; [by rewrite take_drop|]. split; [done|]. by apply decode_panic.
Qed.

Lemma drain_panic fuel now : forall r, drain cfg fuel now r = Some Panic -> decoder_panics.
Proof.
  induction fuel as [|fuel IH]; intros r; cbn [drain]; destruct (can_recv _); try done.
  destruct (recv_slice _) as [[[|x b]|] s]; try done. unfold feed.
  destruct (feed_loop _ _) as [[res b'] ms] eqn:Ef. destruct res as [u|e|]; [apply IH|done|]. intros _.
  apply feed_loop_panic in Ef as (p & m & q & _ & H); [by exists m|done].
Qed.

Lemma after_turn_safe r : inv cfg r -> after_turn cfg r <> Panic.
Proof.
  intros []. unfold after_turn. destruct (_ && _); [|done].
  destruct (purge_all (rib r) (name cfg) (policy r) _ iv_rib0 iv_sync0 iv_peer0) as (st & -> & _). done.
Qed.

Lemma step_panic fuel r w : inv cfg r -> round_step cfg fuel r w = Some Panic -> decoder_panics.
Proof.
  intros Hi. unfold round_step. destruct (turn_of cfg fuel r w) as [o|] eqn:E; cbn; [|done].
  destruct o as [t1|[]|]; cbn.
  - apply inv_turn in E; [|done..]. destruct t1 as [r1|r1]; cbn; [|done]. cbn in E. intros [= H]. by apply after_turn_safe in E.
  - intros _. destruct w as [d ho|pkt|now dn|now]; cbn [turn_of] in E.
    + by destruct (on_udp _ _ _ _ _).
    + done.
    + unfold on_poll in E. destruct (tcp_state _).
      * destruct (drain _ _ _ _) as [[r'|[]|]|] eqn:Ed; cbn in E; try done. by eapply drain_panic.
      * done.
      * done.
    + by destruct (on_slow _ _ _).
Qed.

(** What has arrived holds a message on which the decoder panics. *)
Definition poisoned (fr : FrameReader) (b : list Z) : Prop :=
  exists p m q, buf fr ++ b = p ++ m ++ q /\ decode m = Panic /\ long_nlri m.

Lemma feed_panic fr b fr' ms : feed fr b = (Panic, fr', ms) -> poisoned fr b.
Proof.
  unfold feed, poisoned. destruct (feed_loop _ _) as [[res b'] ms'] eqn:E. intros [= -> _ _]. by apply feed_loop_panic in E.
Qed.

(** C38: a turn that polls the socket ends.  On a state the session can be in, reading stops after
    no more turns than bytes were waiting: with that much fuel the turn has a result, and the
    result does not depend on the fuel.  It is the next state of the session, or its end; or a
    panic, and then the bytes read from the peer held a message with a prefix length over 128 on
    which the decoder panics. *)
Theorem poll_turn_ends r (now dial_now : Z) (Hi : inv cfg r) :
  let start := open_once (poll_stack r now) in
  exists o, (forall fuel, (recv_queue (sockets start) < fuel)%nat -> round_step cfg fuel r (PollTick now dial_now) = Some o) /\
  match o with
  | Ok (Go r') => inv cfg r'
  | Ok (Return r') => inv cfg r' \/ ended r'
  | Err e => False
  | Panic => exists r2 b s, drains cfg now start r2 /\ recv_slice (sockets r2) = (Some b, s) /\ poisoned (frame_reader r2) b
  end.
Proof.
  intros start.
  assert (Hd : exists o, (forall fuel, (recv_queue (sockets start) < fuel)%nat -> turn_of cfg fuel r (PollTick now dial_now) = Some o) /\
    (o = Panic -> exists r2 b s, drains cfg now start r2 /\ recv_slice (sockets r2) = (Some b, s) /\ poisoned (frame_reader r2) b)).
  { cbn [turn_of]. unfold on_poll. destruct (tcp_state _); [|by eexists; split; [done|]..].
    destruct (drain_ends cfg now (S (recv_queue (sockets start))) start ltac:(lia)) as (o & Ho & Hp).
    exists (r0 ← (r0 ← o; Ok (report_up cfg (flush_out r0))); Ok (Go r0)). split.
    - intros fuel Hf. fold start. by rewrite Ho by lia.
    - intros E. destruct o as [r0|[]|]; [done|]. destruct (Hp eq_refl) as (r2 & b & s & fr & ms & H1 & H2 & H3).
      exists r2, b, s. split; [done|]. split; [done|]. by eapply feed_panic. }
  destruct Hd as (o & Ho & Hp). exists (t ← o; match t with Go r => after_turn cfg r | Return r => Ok (Return r) end). split.
  { intros fuel Hf. unfold round_step. by rewrite Ho. }
  pose proof (Ho _ (Nat.lt_succ_diag_r _)) as E. destruct o as [t|[]|]; [|by apply Hp].
  assert (Hs : round_step cfg (S (recv_queue (sockets start))) r (PollTick now dial_now)
    = Some (match t with Go r => after_turn cfg r | Return r => Ok (Return r) end)) by (unfold round_step; by rewrite E).
  cbn [mbind outcome_bind]. apply inv_turn in E; [|done]. destruct t as [r1|r1]; cbn [round_of] in E; [|by left].
  pose proof (after_turn_safe r1 E) as Hn. destruct (after_turn cfg r1) as [t'|[]|]; [|done]. exact (inv_step _ _ _ _ Hi Hs).
Qed.

Lemma round_panic fuel ws : forall r, inv cfg r -> session_round cfg fuel r ws = Some Panic -> decoder_panics.
Proof.
  induction ws as [|w ws IH]; intros r Hi; cbn [session_round]; [done|].
  destruct (round_step cfg fuel r w) as [o|] eqn:E; [|done]. destruct o as [t1|[]|].
  - destruct t1 as [r1|r1]; [|done]. apply IH. exact (inv_step fuel r w _ Hi E).
  - intros _. by eapply step_panic.
Qed.

(** What the rest of the node hears of a session.  In every round, however the
    peer, the connection and the timers behave, the events come in the order
    changes, up, changes, down; every route held by a consumer passes the
    configured import policy and there are no more of them than the limit; no
    route and no [SessionUp] is seen before an acceptable OPEN of the peer; and
    after [SessionDown] the consumer holds nothing.  The task dies only by a
    panic of the message decoder. *)
Theorem session_told (fuel : nat) (now : Z) (ws : list wake) (o : outcome Empty_set turn)
  (Hrun : session_round cfg fuel (start_round cfg now) ws = Some o) :
  match o with
  | Ok t => told (round_of t)
  | Err e => False
  | Panic => decoder_panics
  end.
Proof.
  pose proof (start_inv now) as H0. destruct o as [t|[]|].
  - apply inv_round in Hrun; [|done]. destruct t as [r|r]; cbn; [by apply inv_told|].
    destruct Hrun; [by apply inv_told|by apply ended_told].
  - by eapply round_panic.
Qed.

(** A session whose peer falls silent ends.  The first slow tick that finds an
    established session without a byte for the negotiated hold time leaves the
    round, reports the session down and has withdrawn every route; a round that
    is not established is left after ninety seconds. *)
Theorem silent_peer_ends (fuel : nat) r (now : Z) (t : turn) (Hi : inv cfg r)
  (Hs : round_step cfg fuel r (SlowTick now) = Some (Ok t)) :
  (state (fsm r) = Established -> was_established r = true ->
   0 < negotiated_hold (fsm r) -> last_rx r + negotiated_hold (fsm r) * 1000 <= now ->
   exists r', t = Return r' /\ ended r') /\
  (was_established r = false -> started r + 90000 <= now -> exists r', t = Return r').
Proof.
  unfold round_step in Hs. cbn [turn_of] in Hs. unfold on_slow in Hs.
  destruct (update_timers _ _) as [[ds w]|]; [|done]. cbn -[send_udp] in Hs.
  set (r1 := send_udp r (ds, w)) in Hs.
  set (r2 := if session_established _ then _ else _) in Hs.
  assert (H2 : quiet r r2 /\ fsm r2 = fsm r /\ started r2 = started r /\ last_rx r2 = last_rx r).
  { subst r2 r1. destruct (session_established _); (split; [|done]); [apply quiet_udp|].
    etrans; apply quiet_udp. }
  clearbody r2. destruct H2 as (Hq & Hf & Hst & Hl).
  pose proof (quiet_inv cfg _ _ Hq Hi) as Hi2. pose proof (qt_was _ _ Hq) as Hw. split.
  - intros He Hwas Hh Hnow. rewrite Hw, Hwas in Hs. cbn [negb andb] in Hs.
    destruct (after_turn cfg (session_timers r2 now)) as [t1|e|] eqn:Ea; cbn in Hs; try discriminate.
    injection Hs as <-.
    assert (Hi3 : inv cfg (session_timers r2 now)) by (eapply quiet_inv; [apply quiet_timers|done]).
    apply after_turn_spec in Ea; [|done]. destruct t1 as [r'|r']; [|eauto].
    exfalso. destruct Ea as [_ [Ha|Ha]].
    + apply Ha. unfold session_timers. rewrite Hf, decide_True by done.
      set (r3 := match keepalive_interval (fsm r) with Some _ => _ | None => r2 end).
      assert (H3 : fsm r3 = fsm r /\ last_rx r3 = last_rx r)
        by (subst r3; destruct (keepalive_interval _); [case_decide|]; done).
      clearbody r3. destruct H3 as [-> ->]. rewrite decide_True by (unfold since; lia).
      unfold on_hold_timer. rewrite He. done.
    + rewrite (qt_was _ _ (quiet_timers r2 now)), Hw, Hwas in Ha. done.
  - intros Hwas Hnow. rewrite Hw, Hwas, Hst in Hs. rewrite bool_decide_true in Hs by (unfold since; lia).
    cbn in Hs. injection Hs as <-. eauto.
Qed.
End Results.

(** ** What the driver does not do *)

Section Gaps.
Context `{T : Tunn} `{K : TcpStack} `{Q : RibOrder} `{!TcpLaws K} `{!RibOrderLaws Q} (cfg : PeerConfig).
Implicit Types r : Round.
#[local] Existing Instance quiet_preorder.

(** A wake-up that is not the end of the host side. *)
Definition running (w : wake) : Prop :=
  match w with
  | UdpRecv None _ | UdpRecv _ false | Outbound None => False
  | _ => True
  end.

(** An established session without hold time whose socket is in [dead]. *)
Record stuck (dead : stack -> Prop) (r : Round) : Prop := {
  sk_dead : dead (sockets r);
  sk_state : state (fsm r) = Established;
  sk_hold : negotiated_hold (fsm r) = 0;
  sk_was : was_established r = true
}.

Lemma udp_same r s : sockets (send_udp r s) = sockets r /\ fsm (send_udp r s) = fsm r.
Proof. done. Qed.

Lemma poll_stack_same r now : sockets (poll_stack r now) = (poll (sockets r) (since now (started r)) (device r)).1 /\
  fsm (poll_stack r now) = fsm r.
Proof.
  unfold poll_stack. destruct (poll _ _ _) as [s d]. cbn.
  set (r0 := set_device _ _). assert (H : sockets r0 = s /\ fsm r0 = fsm r) by done. clearbody r0. revert r0 H.
  induction (tx d) as [|p l IH]; intros r0 H; cbn [foldl]; [done|]. by apply IH.
Qed.

Lemma stuck_turn dead fuel r w o : (forall s ts d, dead s -> tcp_state s = TcpOther /\ dead (poll s ts d).1) ->
  running w -> stuck dead r -> turn_of cfg fuel r w = Some o -> exists r', o = Ok (Go r') /\ quiet r r' /\ stuck dead r'.
Proof.
  intros Hd Hw [D1 D2 D3 D4] Ht. destruct w as [d ho|pkt|now dn|now]; cbn [turn_of] in Ht.
  - destruct d as [[buf src]|]; [|done]. destruct ho; [|done]. cbn in Ht.
    destruct (decapsulate _ _ _ _) as [[dec w]|]; [|done]. injection Ht as <-.
    pose proof (quiet_udp r (to_send dec, w)) as H. unfold send_udp in H. cbn in H.
    set (r1 := emit _ _) in *. assert (S1 : stuck dead r1) by done. clearbody r1.
    destruct (plaintext dec) as [p|]; [|by exists r1].
    destruct (classify _ _ _) as [[q|q]|]; [| |by exists r1]; (eexists; split; [reflexivity|]).
    + split; [etrans; [exact H|]; split; try done; by exists []|]. by destruct S1.
    + split; [etrans; [exact H|]|by destruct S1]. split; try done; [|by exists []]. cbn. by rewrite events_app, app_nil_r.
  - destruct pkt as [p|]; [|done]. injection Ht as <-. eexists. split; [reflexivity|]. split; [apply quiet_udp|done].
  - unfold on_poll in Ht. pose proof (quiet_poll r now) as Hq. destruct (poll_stack_same r now) as [E1 E2].
    set (r1 := poll_stack r now) in *.
    assert (S1 : stuck dead r1).
    { split; [rewrite E1; by apply Hd|by rewrite E2|by rewrite E2|by rewrite (qt_was _ _ Hq)]. }
    clearbody r1. destruct S1 as [S1 S2 S3 S4]. destruct (Hd _ 0 (device r1) S1) as [Hs _].
    rewrite Hs in Ht. cbn -[flush_out report_up] in Ht. injection Ht as <-. exists r1.
    assert (Ef : flush_out r1 = r1) by (unfold flush_out; by rewrite Hs).
    assert (Er : report_up cfg r1 = r1) by (unfold report_up; by rewrite S4, andb_false_r).
    by rewrite Ef, Er.
  - unfold on_slow in Ht. destruct (update_timers _ _) as [[ds w]|]; [|done]. cbn -[send_udp] in Ht.
    set (r1 := send_udp r (ds, w)) in Ht. set (r2 := if session_established _ then _ else _) in Ht.
    assert (H2 : quiet r r2 /\ stuck dead r2).
    { subst r2 r1. destruct (session_established _); (split; [|done]); [apply quiet_udp|]. etrans; apply quiet_udp. }
    clearbody r2. destruct H2 as [Hq [S1 S2 S3 S4]]. rewrite S4 in Ht. cbn [negb andb] in Ht. injection Ht as <-.
    unfold session_timers. rewrite decide_True by done. unfold keepalive_interval. rewrite (decide_True (P:=negotiated_hold _ = 0)) by done.
    rewrite decide_False by lia. by exists r2.
Qed.

(** A closed connection is not noticed.  When the peer has closed its side of
    the TCP connection and no hold time was negotiated, the session stays up: the
    round does not end, no event is sent and every route stays, however often the
    driver is woken. *)
Theorem half_closed_keeps_routes (dead : stack -> Prop) (fuel : nat) r (ws : list wake) (o : outcome Empty_set turn)
  (Hdead : forall s ts d, dead s -> tcp_state s = TcpOther /\ dead (poll s ts d).1)
  (Hr : stuck dead r) (Hws : Forall running ws) (Hrun : session_round cfg fuel r ws = Some o) :
  exists r', o = Ok (Go r') /\ rib r' = rib r /\ events_of (emitted r') = events_of (emitted r).
Proof.
  assert (G : exists r', o = Ok (Go r') /\ quiet r r' /\ stuck dead r').
  { revert r Hr Hrun. induction Hws as [|w ws Hw _ IH]; intros r Hr Hrun; cbn [session_round] in Hrun.
    { injection Hrun as <-. by exists r. }
    unfold round_step in Hrun. destruct (turn_of cfg fuel r w) as [o1|] eqn:E; [|done]. cbn in Hrun.
    destruct (stuck_turn dead fuel r w o1 Hdead Hw Hr E) as (r1 & -> & Hq & S1). cbn in Hrun.
    unfold after_turn in Hrun. pose proof S1 as []. rewrite sk_state0 in Hrun. cbn in Hrun.
    destruct (IH r1 S1 Hrun) as (r' & -> & Hq' & S'). exists r'. split; [done|]. split; [by etrans|done]. }
  destruct G as (r' & -> & [] & _). by exists r'.
Qed.

(** Routes can outlive their session.  A round that has announced routes but
    has not yet reported the session up (the peer sent its first UPDATE and closed
    within one turn) is left after ninety seconds without withdrawing them and
    without [SessionDown]. *)
Theorem early_close_leaks (fuel : nat) r (now : Z) (o : outcome Empty_set turn)
  (Hi : inv cfg r) (Hw : was_established r = false) (Hnow : started r + 90000 <= now)
  (Hs : round_step cfg fuel r (SlowTick now) = Some o) :
  exists r', o = Ok (Return r') /\ heard (emitted r') = heard (emitted r) /\
    SessionDown ∉ events_of (emitted r').
Proof.
  unfold round_step in Hs. cbn [turn_of] in Hs. unfold on_slow in Hs.
  destruct (update_timers _ _) as [[ds w]|]; [|done]. cbn -[send_udp] in Hs.
  set (r1 := send_udp r (ds, w)) in Hs. set (r2 := if session_established _ then _ else _) in Hs.
  assert (H2 : quiet r r2 /\ started r2 = started r).
  { subst r2 r1. destruct (session_established _); (split; [|done]); [apply quiet_udp|]. etrans; apply quiet_udp. }
  clearbody r2. destruct H2 as [Hq Hst]. rewrite (qt_was _ _ Hq), Hw, Hst in Hs.
  rewrite bool_decide_true in Hs by (unfold since; lia). cbn in Hs. injection Hs as <-.
  exists r2. split; [done|]. split; [unfold heard; by rewrite (qt_events _ _ Hq)|].
  rewrite (qt_events _ _ Hq). destruct Hi. rewrite Hw in iv_watch0. intros Hd.
  assert (G : forall es, SessionDown ∈ es -> foldl watch Before es <> Before); [|by apply (G _ Hd)].
  clear. assert (G : forall es m, m <> Before -> foldl watch m es <> Before).
  { induction es as [|e es IH]; intros m Hm; cbn; [done|]. apply IH. by destruct m, e. }
  induction es as [|e es IH]; [by inversion 1|]. intros [<-|H]%elem_of_cons; cbn; [by apply G|].
  destruct e; cbn; [by apply G..|by apply IH].
Qed.

(** A refusal is told to the wrong connection.  When an OPEN is refused, the
    NOTIFICATION is queued and the connection dropped before anything is sent;
    the next connection that comes up then starts with that NOTIFICATION, in
    front of the OPEN. *)
Theorem refusal_on_next_connection r r2 (o : OpenMsg) (code subcode : Z) (now dn : Z) (b : list Z)
  (Hst : state (fsm r) = OpenSent) (Hout : bgp_out r = [])
  (Href : on_open (fsm r) o = refuse (fsm r) code subcode)
  (Hb : encode (Notification (mk_notification code subcode [])) [] = (Ok tt, b))
  (* a later state, at the next connection *)
  (Hout2 : bgp_out r2 = bgp_out (on_msg cfg r (Open o))) (Hfsm2 : fsm r2 = fsm (on_msg cfg r (Open o)))
  (Hopen2 : open_sent r2 = false)
  (Hup : let s := (poll (sockets r2) (since now (started r2)) (device r2)).1 in
         tcp_state s = TcpEstablished /\ can_recv s = false /\ can_send s = true) :
  sockets (on_msg cfg r (Open o)) = abort (sockets r) /\
  exists r', (forall fuel, on_poll cfg fuel r2 now dn = Some (Ok r')) /\ exists rest,
    sockets r' = (send_slice (poll (sockets r2) (since now (started r2)) (device r2)).1 (b ++ rest)).2.
Proof.
  assert (E : on_msg cfg r (Open o) =
    set_sockets (set_out (set_out (set_fsm r (set_state Idle (fsm r))) b) b) (abort (sockets r))).
  { unfold on_msg. cbn [on_message]. rewrite Href. cbn -[encode]. by rewrite Hb, Hout. }
  rewrite E in Hout2, Hfsm2 |- *. cbn in Hout2, Hfsm2. split; [done|].
  assert (Hb0 : b <> []). { intros ->. cbn in Hb. by injection Hb. }
  unfold on_poll. destruct (poll_stack_same r2 now) as [E1 E2].
  assert (E3 : open_sent (poll_stack r2 now) = open_sent r2 /\ bgp_out (poll_stack r2 now) = bgp_out r2).
  { unfold poll_stack. destruct (poll _ _ _) as [s d]. cbn.
    set (r0 := set_device _ _). assert (H : open_sent r0 = open_sent r2 /\ bgp_out r0 = bgp_out r2) by done. clearbody r0. revert r0 H.
    induction (tx d) as [|p l IH]; intros r0 H; cbn [foldl]; [done|]. by apply IH. }
  set (r3 := poll_stack r2 now) in *. clearbody r3. destruct E3 as [E3 E4]. cbn zeta in Hup. rewrite <- E1 in Hup |- *.
  destruct Hup as (U1 & U2 & U3). rewrite U1.
  set (r4 := open_once r3).
  assert (H4 : sockets r4 = sockets r3 /\ exists rest, bgp_out r4 = b ++ rest).
  { subst r4. unfold open_once. rewrite E3, Hopen2, E2, Hfsm2. cbn -[encode]. split; [done|]. rewrite E4, Hout2.
    clear Hb. destruct (encode _ _) as [[u|e|] m]; [exists m|exists []; rewrite app_nil_r..]; reflexivity. }
  clearbody r4. destruct H4 as [S4 (rest & B4)].
  exists (report_up cfg (flush_out r4)). split.
  { intros [|fuel]; cbn [drain]; rewrite S4, U2; done. }
  exists rest. unfold flush_out. rewrite S4, U1, U3, B4. rewrite (bool_decide_false (b ++ rest = [])) by (intros [? _]%app_nil; done). cbn.
  unfold report_up. destruct (_ && _); done.
Qed.
End Gaps.

(** ** A scripted stack, and runs on it *)

Module ToyTcp.
#[export] Instance toy_tunn : Tunn := {|
  tunn := unit;
  tunn_new _ _ _ _ := tt;
  tunn_encapsulate t p := (WriteToNetwork p, t);
  tunn_decapsulate t _ b := (match b with [] => Done | _ => WriteToTunnelV4 b end, t);
  tunn_update_timers t := (Done, t);
  format_handshake_initiation t _ := (Done, t);
  tunn_established _ := true
|}.

(** Every poll takes the next line of the script: the state of the connection and
    the bytes that have arrived on it; at the end of the script nothing changes. *)
Record toy := mk_toy { ty_state : TcpState; ty_inbox : list Z; ty_sent : list (list Z); ty_script : list (TcpState * list Z) }.

Definition toy_bytes (b : list Z) : list Z := (fun z => wrap 8 z) <$> b.

Definition toy_stack (script : list (TcpState * list Z)) : TcpStack := {|
  stack := toy;
  stack_new _ _ _ := mk_toy TcpClosed [] [] script;
  poll s _ d := (match ty_script s with
                 | [] => s
                 | (st, b) :: l => mk_toy st (ty_inbox s ++ b) (ty_sent s) l
                 end, d);
  tcp_state := ty_state;
  can_recv s := negb (bool_decide (ty_inbox s = []));
  recv_slice s := (Some (toy_bytes (ty_inbox s)), mk_toy (ty_state s) [] (ty_sent s) (ty_script s));
  can_send _ := true;
  send_slice s b := (length b, mk_toy (ty_state s) (ty_inbox s) (ty_sent s ++ [b]) (ty_script s));
  abort s := mk_toy TcpClosed (ty_inbox s) (ty_sent s) (ty_script s);
  listen s _ := s;
  connect s _ _ _ _ := s;
  recv_queue s := length (ty_inbox s)
|}.

#[export] Instance toy_stack_laws script : TcpLaws (toy_stack script).
Proof.
  split; cbn; intros; simplify_eq; cbn; try done.
  - unfold toy_bytes. by rewrite length_fmap.
  - unfold toy_bytes. apply Forall_fmap, Forall_true. intros z. by apply wrap_uint.
Qed.

#[export] Instance toy_order : RibOrder := fun m => (map_to_list m).*1.
#[export] Instance toy_order_laws : RibOrderLaws toy_order.
Proof. by intros m. Qed.
End ToyTcp.
Import ToyTcp.

Definition bytes_of (m : Message) : list Z := (encode m []).2.

Definition sample_peer (hold : Z) : PeerConfig :=
  mk_peer "a" true (V4 [192; 0; 2; 1], 51820) (mk_keys [] [] None 1) [172; 20; 1; 1] (replicate 16 1) [172; 20; 1; 2] (replicate 16 2) 179 179
    (mk_bgp 64512 [10; 0; 0; 1] 4242420002 hold [] [sample_prefix 14] (Some 2)).

(** A whole session: OPEN, KEEPALIVE and an UPDATE; later the peer resets it. *)
Definition sample_script : list (TcpState * list Z) :=
  [(TcpEstablished, []);
   (TcpEstablished, bytes_of (Open sample_open) ++ bytes_of Keepalive);
   (TcpEstablished, bytes_of (Update Rib.sample_path_update))].

Definition sample_wakes : list wake := [PollTick 1000 1000; PollTick 1020 1020; PollTick 1040 1040].

Definition sample_round : option (outcome Empty_set turn) :=
  session_round (K := toy_stack sample_script) (sample_peer 30) 3 (start_round (K := toy_stack sample_script) (sample_peer 30) 0) sample_wakes.

Definition round_or {K : TcpStack} (dflt : Round) (o : option (outcome Empty_set turn)) : Round :=
  match o with Some (Ok t) => round_of t | _ => dflt end.

Section Witnesses.
Context (script : list (TcpState * list Z)) (hold : Z) (ws : list wake).

(** The state in which a scripted run goes on. *)
Definition toy_round : Round (T := toy_tunn) (K := toy_stack script) :=
  round_or (K := toy_stack script) (start_round (K := toy_stack script) (sample_peer hold) 0)
    (session_round (K := toy_stack script) (sample_peer hold) 3 (start_round (K := toy_stack script) (sample_peer hold) 0) ws).

Definition toy_goes_on : bool :=
  match session_round (K := toy_stack script) (sample_peer hold) 3 (start_round (K := toy_stack script) (sample_peer hold) 0) ws with
  | Some (Ok (Go _)) => true
  | _ => false
  end.

Lemma toy_round_inv : toy_goes_on = true -> inv (K := toy_stack script) (sample_peer hold) toy_round.
Proof.
  unfold toy_goes_on, toy_round. destruct (session_round _ _ _ _) as [[[r|r]|e|]|] eqn:E; try done. intros _.
  apply (inv_round (K := toy_stack script)) in E; [exact E|]. apply (start_inv (K := toy_stack script)).
Qed.
End Witnesses.

Lemma poll_turn_ends_witness : exists o, forall fuel,
  (recv_queue (sockets (open_once (poll_stack (toy_round sample_script 30 [PollTick 1000 1000]) 1020))) < fuel)%nat ->
  round_step (K := toy_stack sample_script) (sample_peer 30) fuel
    (toy_round sample_script 30 [PollTick 1000 1000]) (PollTick 1020 1020) = Some o.
Proof.
  assert (I : inv (K := toy_stack sample_script) (sample_peer 30) (toy_round sample_script 30 [PollTick 1000 1000]))
    by (apply toy_round_inv; vm_compute; reflexivity).
  destruct (poll_turn_ends (K := toy_stack sample_script) (Q := toy_order) (sample_peer 30) (toy_round sample_script 30 [PollTick 1000 1000]) 1020 1020 I)
    as (o & H & _).
  exists o. exact H.
Defined.

(** How a scripted turn ended, for evaluation. *)
Definition goes_on {K : TcpStack} (o : option (outcome Empty_set turn)) : bool :=
  match o with Some (Ok (Go _)) => true | _ => false end.
Definition returns {K : TcpStack} (o : option (outcome Empty_set turn)) : bool :=
  match o with Some (Ok (Return _)) => true | _ => false end.

#[local] Strategy expand [sample_round].

Lemma session_told_witness : exists r, sample_round = Some (Ok (Go r)) /\
  told (K := toy_stack sample_script) (sample_peer 30) r /\ heard (emitted r) <> ∅.
Proof.
  assert (B : goes_on (K := toy_stack sample_script) sample_round = true) by (vm_compute; reflexivity).
  assert (N : match sample_round with
              | Some (Ok (Go r)) => negb (bool_decide (heard (emitted (K := toy_stack sample_script) r) = ∅))
              | _ => false end = true)
    by (vm_compute; reflexivity).
  assert (H : forall o, sample_round = Some o -> match o with
    | Ok t => told (K := toy_stack sample_script) (sample_peer 30) (round_of t)
    | Err e => False | Panic => decoder_panics end)
    by (intros o E; exact (session_told (K := toy_stack sample_script) (Q := toy_order) (sample_peer 30) 3 0 sample_wakes o E)).
  destruct sample_round as [[[r|r]|e|]|]; try discriminate B. exists r. split; [reflexivity|].
  split; [exact (H _ eq_refl)|]. intros E. rewrite E in N. discriminate N.
Defined.

Definition silent_turn := round_step (K := toy_stack sample_script) (sample_peer 30) 3
  (toy_round sample_script 30 sample_wakes) (SlowTick 31040).

#[local] Strategy expand [silent_turn].

Lemma silent_peer_ends_witness : exists r', silent_turn = Some (Ok (Return r')) /\
  ended (K := toy_stack sample_script) (sample_peer 30) r'.
Proof.
  assert (B : returns (K := toy_stack sample_script) silent_turn = true) by (vm_compute; reflexivity).
  assert (I : inv (K := toy_stack sample_script) (sample_peer 30) (toy_round sample_script 30 sample_wakes))
    by (apply toy_round_inv; vm_compute; reflexivity).
  destruct silent_turn as [[[r|r]|e|]|] eqn:E; try discriminate B. exists r. split; [reflexivity|].
  destruct (silent_peer_ends (K := toy_stack sample_script) (Q := toy_order) (sample_peer 30) 3
    (toy_round sample_script 30 sample_wakes) 31040 (Return r) I E) as [H _].
  destruct H as (r' & [= ->] & H); [vm_compute; reflexivity..|vm_compute; discriminate|exact H].
Defined.

(** The peer closes its side. *)
Definition half_closed_script : list (TcpState * list Z) := sample_script ++ [(TcpOther, [])].
Definition half_closed : Round (T := toy_tunn) (K := toy_stack half_closed_script) :=
  toy_round half_closed_script 0 (sample_wakes ++ [PollTick 1060 1060]).
Definition later_wakes : list wake := [PollTick 1080 1080; SlowTick 900000; PollTick 900020 900020].
Definition half_closed_run := session_round (K := toy_stack half_closed_script) (sample_peer 0) 3 half_closed later_wakes.

#[local] Strategy expand [half_closed_run].

Lemma half_closed_keeps_routes_witness : exists r', half_closed_run = Some (Ok (Go r')) /\
  rib r' = rib half_closed /\ events_of (emitted r') = events_of (emitted half_closed).
Proof.
  assert (B : goes_on (K := toy_stack half_closed_script) half_closed_run = true) by (vm_compute; reflexivity).
  destruct half_closed_run as [o|] eqn:E; [|discriminate B].
  destruct (half_closed_keeps_routes (K := toy_stack half_closed_script) (Q := toy_order) (sample_peer 0)
    (fun s => ty_state s = TcpOther /\ ty_script s = []) 3 half_closed later_wakes o) as (r' & -> & H1 & H2).
  - intros s ts d [H1 H2]. cbn. rewrite H2. split; [exact H1|]. split; [exact H1|exact H2].
  - split; [split|..]; vm_compute; reflexivity.
  - repeat constructor.
  - exact E.
  - exists r'. split; [reflexivity|]. split; assumption.
Defined.

(** OPEN in one turn; KEEPALIVE, UPDATE and NOTIFICATION in the next. *)
Definition early_close_script : list (TcpState * list Z) :=
  [(TcpEstablished, []); (TcpEstablished, bytes_of (Open sample_open));
   (TcpEstablished, bytes_of Keepalive ++ bytes_of (Update Rib.sample_path_update) ++
                    bytes_of (Notification (mk_notification 6 0 [])))].
Definition early_close : Round (T := toy_tunn) (K := toy_stack early_close_script) := toy_round early_close_script 30 sample_wakes.
Definition early_close_turn := round_step (K := toy_stack early_close_script) (sample_peer 30) 3 early_close (SlowTick 90000).

#[local] Strategy expand [early_close_turn].

Lemma early_close_leaks_witness : exists r', early_close_turn = Some (Ok (Return r')) /\
  heard (emitted r') <> ∅ /\ SessionDown ∉ events_of (emitted r').
Proof.
  assert (B : returns (K := toy_stack early_close_script) early_close_turn = true) by (vm_compute; reflexivity).
  assert (N : negb (bool_decide (heard (emitted early_close) = ∅)) = true) by (vm_compute; reflexivity).
  assert (I : inv (K := toy_stack early_close_script) (sample_peer 30) early_close)
    by (apply toy_round_inv; vm_compute; reflexivity).
  destruct early_close_turn as [o|] eqn:E; [|discriminate B].
  destruct (early_close_leaks (K := toy_stack early_close_script) (Q := toy_order) (sample_peer 30) 3 early_close 90000 o I)
    as (r' & -> & H1 & H2).
  - vm_compute. reflexivity.
  - vm_compute. discriminate.
  - exact E.
  - exists r'. split; [reflexivity|]. split; [|exact H2]. intros H. rewrite H1 in H. rewrite H in N. discriminate N.
Defined.

(** An OPEN with the wrong AS number, then a new connection. *)
Definition bad_open : OpenMsg := mk_open 65001 30 [10; 0; 0; 2] [MpBgp 2 1; CapRouteRefresh; FourOctetAs 65001].
Definition refused_script : list (TcpState * list Z) :=
  [(TcpEstablished, []); (TcpEstablished, bytes_of (Open bad_open)); (TcpClosed, []); (TcpEstablished, [])].

Lemma refusal_on_next_connection_witness :
  let r := toy_round refused_script 30 [PollTick 1000 1000] in
  let r2 := toy_round refused_script 30 [PollTick 1000 1000; PollTick 1020 1020; PollTick 1040 1040] in
  sockets (on_msg (K := toy_stack refused_script) (sample_peer 30) r (Open bad_open)) = abort (TcpStack := toy_stack refused_script) (sockets r) /\
  exists r', (forall fuel, on_poll (K := toy_stack refused_script) (sample_peer 30) fuel r2 1060 1060 = Some (Ok r')) /\ exists rest,
    sockets r' = (send_slice (TcpStack := toy_stack refused_script)
      (poll (TcpStack := toy_stack refused_script) (sockets r2) (since 1060 (started r2)) (device r2)).1
      (bytes_of (Notification (mk_notification ERR_OPEN SUB_BAD_PEER_AS [])) ++ rest)).2.
Proof.
  intros r r2. apply (refusal_on_next_connection (K := toy_stack refused_script) (sample_peer 30) r r2 bad_open ERR_OPEN SUB_BAD_PEER_AS 1060 1060).
  - vm_compute. reflexivity.
  - vm_compute. reflexivity.
  - vm_compute. reflexivity.
  - vm_compute. reflexivity.
  - vm_compute. reflexivity.
  - vm_compute. reflexivity.
  - vm_compute. reflexivity.
  - vm_compute. done.
Defined.

(** ** Pauses between rounds *)

(** The backoff stays between one and thirty seconds, doubles from round to round
    that does not come up, and starts over after one that did. *)
Fixpoint pauses (backoff : Z) (rounds : list bool) : list Z :=
  match rounds with
  | [] => []
  | e :: rounds => let '(p, b) := run_peer_pause e backoff in p :: pauses b rounds
  end.

Lemma pauses_bounded rounds : forall b, 1000 <= b <= 30000 -> Forall (fun p => 1000 <= p <= 30000) (pauses b rounds).
Proof.
  induction rounds as [|e rounds IH]; intros b Hb; cbn; [fall|]. destruct e; constructor; try lia; apply IH; lia.
Qed.
End BgpSession.
