(* ===== verification/Packet.v ===== *)
(** * IP packets of the LAN side (rill-node/src/packet)

    Parsing of headers, clamping of the TCP maximum segment size with the
    incremental checksum of RFC 1624, and the forged "packet too big" messages.
    A packet is a list of bytes; indexing out of range panics. *)

From S2P Require Import Prelude Net Frame Mesh.

Module Packet.
Import Net.

Inductive TransportProto := Tcp | Udp | Icmp | Icmpv6 | Other (v : Z).

#[export] Instance TransportProto_eq_dec : EqDecision TransportProto.
Proof. solve_decision. Defined.

Record PacketInfo := mk_info { src : IpAddr; dst : IpAddr; proto : TransportProto; total_len : Z }.

Inductive PacketError := NotIp | Truncated.

Definition proto_from_u8 (v : Z) : TransportProto :=
  if decide (v = 6) then Tcp else if decide (v = 17) then Udp else if decide (v = 1) then Icmp
  else if decide (v = 58) then Icmpv6 else Other v.

Definition parse_v4 (buf : list Z) : outcome PacketError PacketInfo :=
  if decide (length buf < 20)%nat then Err Truncated
  else
    b0 ← at_ buf 0;
    let ihl := Z.to_nat (Z.land b0 0x0f * 4) in
    if decide (ihl < 20 \/ length buf < ihl)%nat then Err Truncated
    else
      s ← range buf 12 16;
      d ← range buf 16 20;
      p ← at_ buf 9;
      t ← range buf 2 4;
      Ok (mk_info (V4 s) (V4 d) (proto_from_u8 p) (be_val t)).

Definition parse_v6 (buf : list Z) : outcome PacketError PacketInfo :=
  if decide (length buf < 40)%nat then Err Truncated
  else
    s ← range buf 8 24;
    d ← range buf 24 40;
    p ← at_ buf 6;
    t ← range buf 4 6;
    Ok (mk_info (V6 s) (V6 d) (proto_from_u8 p) (40 + be_val t)).

Definition parse_packet (buf : list Z) : outcome PacketError PacketInfo :=
  match buf with
  | [] => Err NotIp
  | b :: _ =>
      if decide (Z.shiftr b 4 = 4) then parse_v4 buf
      else if decide (Z.shiftr b 4 = 6) then parse_v6 buf
      else Err NotIp
  end.

(** ** MTU *)

Definition WG_ENCAP_OVERHEAD_V4 : Z := 48.
Definition WG_ENCAP_OVERHEAD_V6 : Z := 68.
Definition DEFAULT_EGRESS_MTU : Z := 1500.
Definition TUN_CONSERVATIVE_MTU : Z := DEFAULT_EGRESS_MTU - Mesh.ENCAP_OVERHEAD_V6.

Definition mesh_frame_fits (inner_len : Z) (underlay_v6 : bool) (egress_mtu : Z) : bool :=
  let overhead := if underlay_v6 then Mesh.ENCAP_OVERHEAD_V6 else Mesh.ENCAP_OVERHEAD_V4 in
  bool_decide (sat_add 16 (wrap 16 inner_len) overhead <= egress_mtu).

(** ** Ones' complement arithmetic *)

(** The folding loop, on a sum of 32 bits: two turns are enough. *)
Fixpoint fold16 (fuel : nat) (s : Z) : Z :=
  if decide (Z.shiftr s 16 = 0) then s
  else match fuel with
       | O => s
       | S fuel => fold16 fuel (Z.land s 0xffff + Z.shiftr s 16)
       end.

Definition ones_complement_add (a b : Z) : Z := fold16 3 (a + b).

(** [!x] on 16 bits. *)
Definition not16 (x : Z) : Z := 65535 - x.

(** The sum over the 16-bit words, an odd last byte in the high half. *)
Fixpoint sum16 (data : list Z) : Z :=
  match data with
  | a :: b :: data => 256 * a + b + sum16 data
  | [a] => 256 * a
  | [] => 0
  end.

Definition checksum16 (data : list Z) : Z := not16 (fold16 3 (sum16 data)).

(** ** MSS clamping *)

(** [pkt[i..i+2].copy_from_slice(&v.to_be_bytes())] and its like. *)
Abbreviation put := (Frame.copy_at (E := Empty_set)).

Definition l3_proto (b0 : Z) : nat := if decide (Z.shiftr b0 4 = 4) then 9 else 6.

Definition l4_offset (pkt : list Z) : outcome Empty_set (option nat) :=
  b0 ← at_ pkt 0;
  Ok (if decide (Z.shiftr b0 4 = 4) then
        let ihl := Z.to_nat (Z.land b0 0x0f * 4) in
        if decide (20 <= ihl /\ ihl <= length pkt)%nat then Some ihl else None
      else if decide (Z.shiftr b0 4 = 6) then
        if decide (40 <= length pkt)%nat then Some 40%nat else None
      else None).

Definition is_tcp_syn (pkt : list Z) : outcome Empty_set bool :=
  o ← l4_offset pkt;
  match o with
  | None => Ok false
  | Some l4 =>
      if decide (l4 + 14 <= length pkt)%nat then
        b0 ← at_ pkt 0;
        p ← at_ pkt (l3_proto b0);
        if decide (p = 6) then
          f ← at_ pkt (l4 + 13);
          Ok (negb (bool_decide (Z.land f 0x02 = 0)))
        else Ok false
      else Ok false
  end.

(** The walk over the TCP options from [i] up to [stop]: where the last MSS option
    is.  Every turn moves on by at least one byte. *)
Fixpoint find_mss (fuel : nat) (pkt : list Z) (i stop : nat) (found : option nat) : outcome Empty_set (option nat) :=
  if decide (i + 1 < stop)%nat then
    match fuel with
    | O => Ok found
    | S fuel =>
        k ← at_ pkt i;
        if decide (k = 0) then Ok found
        else if decide (k = 1) then find_mss fuel pkt (i + 1) stop found
        else
          l ← at_ pkt (i + 1);
          let len := Z.to_nat l in
          if decide (len < 2 \/ stop < i + len)%nat then Ok found
          else find_mss fuel pkt (i + len) stop (if decide (k = 2 /\ len = 4%nat) then Some i else found)
    end
  else Ok found.

(** The rewriting itself: [at] is the place of the option. *)
Definition rewrite_mss (pkt : list Z) (l4 at_mss : nat) (max_mss : Z) : outcome Empty_set (bool * list Z) :=
  o ← range pkt (at_mss + 2) (at_mss + 4);
  let old := be_val o in
  if decide (old <= max_mss) then Ok (false, pkt)
  else
    pkt ← put pkt (at_mss + 2) (be_bytes 2 max_mss);
    let ck := (l4 + 16)%nat in
    h ← range pkt ck (ck + 2);
    let hc := be_val h in
    let hc := not16 (ones_complement_add (not16 hc) (ones_complement_add (not16 old) max_mss)) in
    pkt ← put pkt ck (be_bytes 2 hc);
    Ok (true, pkt).

Definition clamp_mss (pkt : list Z) (mtu : Z) : outcome Empty_set (bool * list Z) :=
  o ← l4_offset pkt;
  match o with
  | None => Ok (false, pkt)
  | Some l4 =>
      if decide (length pkt < l4 + 20)%nat then Ok (false, pkt)
      else
        syn ← is_tcp_syn pkt;
        if negb syn then Ok (false, pkt)
        else
          d ← at_ pkt (l4 + 12);
          let doff := (Z.to_nat (Z.shiftr d 4) * 4)%nat in
          if decide (doff < 20 \/ length pkt < l4 + doff)%nat then Ok (false, pkt)
          else
            b0 ← at_ pkt 0;
            let max := if decide (Z.shiftr b0 4 = 4) then Some (sat_sub mtu 40)
                       else if decide (Z.shiftr b0 4 = 6) then Some (sat_sub mtu 60) else None in
            match max with
            | None => Ok (false, pkt)
            | Some max_mss =>
                m ← find_mss (length pkt) pkt (l4 + 20) (l4 + doff) None;
                match m with
                | None => Ok (false, pkt)
                | Some at_mss => rewrite_mss pkt l4 at_mss max_mss
                end
            end
  end.

(** ** Packet too big *)

Definition v4_src (p : list Z) : option (list Z) :=
  if decide (20 <= length p)%nat then Some (take 4 (drop 12 p)) else None.
Definition v4_dst (p : list Z) : option (list Z) :=
  if decide (20 <= length p)%nat then Some (take 4 (drop 16 p)) else None.
Definition v6_src (p : list Z) : option (list Z) := get_range p 8 24.
Definition v6_dst (p : list Z) : option (list Z) := get_range p 24 40.

Definition icmpv6_checksum (ip6_header icmp : list Z) : Z :=
  checksum16 (take 32 (drop 8 ip6_header) ++ be_bytes 4 (wrap 32 (Z.of_nat (length icmp))) ++ [0; 0; 0; 58] ++ icmp).

(** The buffer of zeros is filled field by field; written here as the bytes in
    order, with the place of the checksum as an argument: the checksums are
    computed while their fields are still zero. *)
Definition ptb_header_v4 (total : nat) (s d ck : list Z) : list Z :=
  ([0x45; 0] ++ be_bytes 2 (wrap 16 (Z.of_nat total)) ++ be_bytes 2 0x5211 ++ [0; 0; 64; 1]) ++ ck ++ s ++ d.
Definition ptb_icmp_v4 (mtu : Z) (quote ck : list Z) : list Z :=
  [3; 4] ++ ck ++ [0; 0] ++ be_bytes 2 mtu ++ quote.

Definition build_ptb_v4 (inner : list Z) (next_hop_mtu : Z) : option (list Z) :=
  s ← v4_dst inner;
  d ← v4_src inner;
  b0 ← inner !! 0%nat;
  let ihl := Z.to_nat (Z.land b0 0x0f * 4) in
  let quote := take (ihl + 8) inner in
  let total := (20 + 8 + length quote)%nat in
  let ck := checksum16 (ptb_icmp_v4 next_hop_mtu quote [0; 0]) in
  let ip_ck := checksum16 (ptb_header_v4 total s d [0; 0]) in
  Some (ptb_header_v4 total s d (be_bytes 2 ip_ck) ++ ptb_icmp_v4 next_hop_mtu quote (be_bytes 2 ck)).

Definition ptb_header_v6 (payload_len : nat) (s d : list Z) : list Z :=
  [0x60; 0; 0; 0] ++ be_bytes 2 (wrap 16 (Z.of_nat payload_len)) ++ [58; 255] ++ s ++ d.
Definition ptb_icmp_v6 (mtu : Z) (quote ck : list Z) : list Z :=
  [2; 0] ++ ck ++ be_bytes 4 mtu ++ quote.

Definition build_ptb_v6 (inner : list Z) (next_hop_mtu : Z) : option (list Z) :=
  s ← v6_dst inner;
  d ← v6_src inner;
  let quote := take (1280 - 40 - 8) inner in
  let header := ptb_header_v6 (8 + length quote) s d in
  let ck := icmpv6_checksum header (ptb_icmp_v6 next_hop_mtu quote [0; 0]) in
  Some (header ++ ptb_icmp_v6 next_hop_mtu quote (be_bytes 2 ck)).

Definition build_ptb (inner : list Z) (next_hop_mtu : Z) : option (list Z) :=
  b ← inner !! 0%nat;
  if decide (Z.shiftr b 4 = 4) then build_ptb_v4 inner next_hop_mtu
  else if decide (Z.shiftr b 4 = 6) then build_ptb_v6 inner next_hop_mtu
  else None.

Definition endpoints (inner : list Z) : option (IpAddr * IpAddr) :=
  b ← inner !! 0%nat;
  if decide (Z.shiftr b 4 = 4) then s ← v4_src inner; d ← v4_dst inner; Some (V4 s, V4 d)
  else if decide (Z.shiftr b 4 = 6) then s ← v6_src inner; d ← v6_dst inner; Some (V6 s, V6 d)
  else None.

(** ** Lemmas on sums *)

Lemma land_ffff s : Z.land s 0xffff = s mod 65536.
Proof. change 0xffff with (Z.ones 16). by rewrite Z.land_ones by lia. Qed.

Lemma shiftr_16 s : Z.shiftr s 16 = s / 65536.
Proof. by rewrite Z.shiftr_div_pow2 by lia. Qed.

(** Folding reduces modulo 65535 and keeps a positive sum positive. *)
Lemma fold16_spec s : 0 <= s < 2 ^ 32 ->
  0 <= fold16 3 s <= 65535 /\ fold16 3 s mod 65535 = s mod 65535 /\ (0 < s -> 0 < fold16 3 s).
Proof.
  assert (G : forall n s, 0 <= s -> (s < 65536 \/ (0 < n)%nat /\ s <= 131070 \/ (1 < n)%nat /\ s < 2 ^ 32) ->
    0 <= fold16 n s <= 65535 /\ fold16 n s mod 65535 = s mod 65535 /\ (0 < s -> 0 < fold16 n s)).
  { induction n as [|n IH]; intros t Ht Hb; cbn [fold16]; rewrite ?land_ffff, ?shiftr_16.
    - pose proof (Z.div_small t 65536). case_decide; lia.
    - case_decide as Hd; [pose proof (Z.div_mod t 65536 ltac:(lia)); pose proof (Z.mod_pos_bound t 65536 ltac:(lia)); lia|].
      pose proof (Z.div_mod t 65536 ltac:(lia)). pose proof (Z.mod_pos_bound t 65536 ltac:(lia)).
      pose proof (Z.div_pos t 65536 ltac:(lia) ltac:(lia)).
      destruct (IH (t mod 65536 + t / 65536)) as (I1 & I2 & I3); [lia| |].
      { destruct Hb as [Hb|[[_ Hb]|[Hn Hb]]]; [by destruct Hd; apply Z.div_small| |].
        - left. assert (t / 65536 < 2) by (apply Z.div_lt_upper_bound; lia). lia.
        - right. left. split; [lia|]. assert (t / 65536 < 65536) by (apply Z.div_lt_upper_bound; lia). lia. }
      split; [done|]. split; [|intros; apply I3; lia]. rewrite I2.
      rewrite (Z.div_mod t 65536) at 3 by lia.
      replace (65536 * (t / 65536) + t mod 65536) with (t mod 65536 + t / 65536 + (t / 65536) * 65535) by lia.
      by rewrite Z_mod_plus_full. }
  intros Hs. apply G; [lia|]. right. right. split; lia.
Qed.

(** A checksum is zero exactly when the sum is a positive multiple of 65535. *)
Lemma checksum_zero data : 0 <= sum16 data < 2 ^ 32 ->
  checksum16 data = 0 <-> 0 < sum16 data /\ sum16 data mod 65535 = 0.
Proof.
  intros Hs. destruct (fold16_spec _ Hs) as (H1 & H2 & H3). unfold checksum16, not16. split.
  - intros E. assert (F : fold16 3 (sum16 data) = 65535) by lia. rewrite F in *.
    split; [|rewrite <- H2; by rewrite Z_mod_same_full].
    destruct (decide (sum16 data = 0)) as [E0|]; [|lia]. rewrite E0 in F. by vm_compute in F.
  - intros [Hp Hm]. rewrite Hm in H2. specialize (H3 Hp).
    destruct (decide (fold16 3 (sum16 data) = 65535)); [lia|]. rewrite Z.mod_small in H2; lia.
Qed.

Lemma sum16_app a b : Nat.Even (length a) -> sum16 (a ++ b) = sum16 a + sum16 b.
Proof.
  intros [k Hk]. revert a Hk. induction k as [|k IH]; intros a Hk.
  - destruct a; [done|cbn in Hk; lia].
  - destruct a as [|x [|y a]]; cbn in Hk; try lia. cbn [app sum16]. rewrite IH by lia. lia.
Qed.

Lemma sum16_be2 v : u16 v -> sum16 (be_bytes 2 v) = v.
Proof.
  intros H. assert (E : be_val (be_bytes 2 v) = v) by (apply be_val_be_bytes; exact H). rewrite <- E at 2.
  assert (L : length (be_bytes 2 v) = 2%nat) by apply length_be_bytes.
  destruct (be_bytes 2 v) as [|x [|y [|z l]]]; try discriminate L.
  change [x; y] with ([x] ++ [y]). rewrite be_val_app, !be_val_singleton. cbn. lia.
Qed.

Lemma sum16_bound data : bytes data -> 0 <= sum16 data <= 32768 * (Z.of_nat (length data) + 1).
Proof.
  assert (G : forall n data, (length data <= n)%nat -> bytes data -> 0 <= sum16 data <= 32768 * (Z.of_nat (length data) + 1)).
  { induction n as [|n IH]; intros l Hl Hb.
    - destruct l; [cbn; lia|cbn in Hl; lia].
    - destruct l as [|x [|y l]]; cbn [sum16 length].
      + cbn; lia.
      + inversion Hb as [|?? Hx]; subst. unfold is_uint in Hx. cbn. lia.
      + inversion Hb as [|?? Hx Hb1]; subst. inversion Hb1 as [|?? Hy Hb2]; subst. unfold is_uint in Hx, Hy.
        specialize (IH l ltac:(cbn in Hl; lia) Hb2). lia. }
  by apply (G (length data)).
Qed.

Lemma sum16_small data : bytes data -> Z.of_nat (length data) <= 65600 -> 0 <= sum16 data < 2 ^ 32.
Proof. intros Hb Hl. pose proof (sum16_bound data Hb). lia. Qed.

Lemma checksum16_u16 data : 0 <= sum16 data < 2 ^ 32 -> u16 (checksum16 data).
Proof. intros H. apply fold16_spec in H as (H & _). unfold checksum16, not16, is_uint. lia. Qed.

(** Filling in the checksum: the words around an empty field [a], [b] at an even
    offset, with the checksum of the whole in the field, sum up to zero. *)
Lemma checksum_filled a b : Nat.Even (length a) -> bytes a -> bytes b ->
  Z.of_nat (length a + length b) <= 65500 -> 0 < sum16 a + sum16 b ->
  checksum16 (a ++ be_bytes 2 (checksum16 (a ++ [0; 0] ++ b)) ++ b) = 0.
Proof.
  intros He Ha Hb Hl Hpos. set (s := a ++ [0; 0] ++ b).
  assert (Es : sum16 s = sum16 a + sum16 b) by (subst s; rewrite sum16_app by done; cbn; lia).
  assert (Bs : 0 <= sum16 s < 2 ^ 32).
  { apply sum16_small; [subst s|subst s; rewrite !length_app; cbn; lia].
    apply bytes_app; split; [done|]. apply bytes_app; split; [fall|done]. }
  assert (C : u16 (checksum16 s)) by by apply checksum16_u16.
  assert (E : sum16 (a ++ be_bytes 2 (checksum16 s) ++ b) = sum16 s + checksum16 s).
  { rewrite sum16_app by done. rewrite sum16_app by (rewrite length_be_bytes; by exists 1%nat). rewrite sum16_be2 by done. lia. }
  assert (0 <= sum16 (a ++ be_bytes 2 (checksum16 s) ++ b) < 2 ^ 32).
  { apply sum16_small; [|rewrite !length_app, length_be_bytes; lia].
    apply bytes_app; split; [done|]. apply bytes_app; split; [apply be_bytes_bytes|done]. }
  apply checksum_zero; [done|]. rewrite E. destruct (fold16_spec _ Bs) as (F1 & F2 & F3).
  unfold checksum16, not16, is_uint in *. split; [lia|].
  rewrite Z.add_sub_assoc, Zminus_mod, F2, <- Zminus_mod.
  replace (sum16 s + 65535 - sum16 s) with 65535 by lia. by rewrite Z_mod_same_full.
Qed.

(** ** Clamping *)

Lemma find_mss_bounds fuel pkt stop : forall i found a,
  find_mss fuel pkt i stop found = Ok (Some a) -> found = Some a \/ (i <= a /\ a + 4 <= stop)%nat.
Proof.
  induction fuel as [|fuel IH]; intros i found a; cbn [find_mss]; (case_decide; [|intros [= ->]; by left]).
  - intros [= ->]. by left.
  - destruct (at_ pkt i) as [k|[]|]; step; try done. repeat (case_decide; [by intros [= ->]; left|]).
    case_decide; [intros H'; apply IH in H' as [?|?]; [by left|right; lia]|].
    destruct (at_ pkt (i + 1)) as [l|[]|]; step; try done. case_decide; [by intros [= ->]; left|].
    intros H'. apply IH in H' as [H'|?]; [|right; lia]. case_decide; [|by left]. injection H' as <-. right. lia.
Qed.

Lemma find_mss_safe fuel pkt stop : (stop <= length pkt)%nat -> forall i found, safe (find_mss fuel pkt i stop found).
Proof.
  intros Hs. induction fuel as [|fuel IH]; intros i found; cbn [find_mss]; (case_decide; [|done]); [done|].
  apply bind_safe; [apply at_safe; lia|]. intros k _. case_decide; [done|]. case_decide; [apply IH|].
  apply bind_safe; [apply at_safe; lia|]. intros l _. case_decide; [done|]. apply IH.
Qed.

(** The options of a TCP header that ends at [stop]: [option_at i a] when the walk from [i],
    over padding (kind 1) and by the lengths of the other kinds, comes to an option at [a];
    kind 0 ends it. *)
Inductive option_at (pkt : list Z) (stop : nat) : nat -> nat -> Prop :=
| option_here i : option_at pkt stop i i
| option_pad i a : (i + 1 < stop)%nat -> pkt !! i = Some 1 -> option_at pkt stop (i + 1) a -> option_at pkt stop i a
| option_next i k l a : (i + 1 < stop)%nat -> pkt !! i = Some k -> k <> 0 -> k <> 1 -> pkt !! (i + 1)%nat = Some l ->
    (2 <= Z.to_nat l)%nat -> (i + Z.to_nat l <= stop)%nat -> option_at pkt stop (i + Z.to_nat l) a -> option_at pkt stop i a.

(** A segment-size option (kind 2, length 4). *)
Definition mss_at (pkt : list Z) (stop i a : nat) : Prop :=
  option_at pkt stop i a /\ (a + 4 <= stop)%nat /\ pkt !! a = Some 2 /\ pkt !! (a + 1)%nat = Some 4.

(** The last segment-size option of the segment at [l4]. *)
Definition last_mss (pkt : list Z) (l4 a : nat) : Prop :=
  exists d, pkt !! (l4 + 12)%nat = Some d /\
  let stop := (l4 + Z.to_nat (Z.shiftr d 4) * 4)%nat in
  (l4 + 20 <= stop <= length pkt)%nat /\ mss_at pkt stop (l4 + 20) a /\ forall b, mss_at pkt stop (l4 + 20) b -> (b <= a)%nat.

Lemma option_at_le pkt stop i a : option_at pkt stop i a -> (i <= a)%nat.
Proof. induction 1; lia. Qed.

Lemma mss_at_step pkt stop i a j : (forall b, option_at pkt stop i b -> b = i \/ option_at pkt stop j b) ->
  ~ (pkt !! i = Some 2 /\ pkt !! (i + 1)%nat = Some 4 /\ (i + 4 <= stop)%nat) -> mss_at pkt stop i a -> mss_at pkt stop j a.
Proof. intros H Hn (Ho & H4 & H2 & H1). destruct (H a Ho) as [->|Hj]; [by destruct Hn|]. by split. Qed.

Lemma find_mss_spec pkt stop fuel : forall i found r, (stop <= i + fuel)%nat -> find_mss fuel pkt i stop found = Ok r ->
  (exists a, r = Some a /\ mss_at pkt stop i a /\ forall b, mss_at pkt stop i b -> (b <= a)%nat) \/
  (r = found /\ forall b, ~ mss_at pkt stop i b).
Proof.
  assert (Hend : forall i, (forall b, option_at pkt stop i b -> b = i) ->
    ~ (pkt !! i = Some 2 /\ pkt !! (i + 1)%nat = Some 4 /\ (i + 4 <= stop)%nat) -> forall b, ~ mss_at pkt stop i b).
  { intros i H Hn b (Ho & H4 & H2 & H1). rewrite (H b Ho) in *. by destruct Hn. }
  induction fuel as [|fuel IH]; intros i found r Hf; cbn [find_mss]; case_decide as Hi; try lia.
  1,3: intros [= <-]; right; split; [done|]; apply Hend; [intros b Hb; destruct Hb; (done || lia)|lia].
  unfold at_. destruct (pkt !! i) as [k|] eqn:Ek; step; [|done].
  case_decide as H0; [intros [= <-]; right; split; [done|]; subst k; apply Hend; [intros b Hb; destruct Hb; simplify_eq; done|intros [? _]; congruence]|].
  case_decide as H1.
  - intros H. apply IH in H; [|lia]. subst k.
    assert (Hs : forall b, option_at pkt stop i b -> b = i \/ option_at pkt stop (i + 1) b)
      by (intros b Hb; destruct Hb; simplify_eq; auto).
    assert (Hn : ~ (pkt !! i = Some 2 /\ pkt !! (i + 1)%nat = Some 4 /\ (i + 4 <= stop)%nat)) by (intros [? _]; congruence).
    destruct H as [(a & -> & (Ho & Hr) & Hl)|[-> Hl]]; [left; exists a|right]; (split; [done|]).
    + split; [split; [by apply option_pad|done]|]. intros b Hb. by apply Hl, (mss_at_step _ _ i).
    + intros b Hb. by apply (Hl b), (mss_at_step _ _ i).
  - destruct (pkt !! (i + 1)%nat) as [l|] eqn:El; step; [|done]. case_decide as H2.
    { intros [= <-]. right. split; [done|]. apply Hend; [intros b Hb; destruct Hb; simplify_eq; (done || lia)|].
      intros (_ & H & ?). rewrite El in H. injection H as ->. lia. }
    intros H. apply IH in H; [|lia].
    assert (Hs : forall b, option_at pkt stop i b -> b = i \/ option_at pkt stop (i + Z.to_nat l) b)
      by (intros b Hb; destruct Hb; simplify_eq; auto).
    destruct H as [(a & -> & (Ho & Hr) & Hl)|[-> Hl]].
    + left. exists a. split; [done|]. split; [split; [eapply option_next; (done || lia)|done]|].
      intros b (Hb & Hb'). destruct (Hs b Hb) as [->|Hj]; [apply option_at_le in Ho; lia|]. by apply Hl.
    + case_decide as Hk.
      * left. exists i. assert (l = 4) as -> by lia. destruct Hk as [-> _]. split; [done|]. split.
        { split; [constructor|]. split; [lia|]. done. }
        intros b (Hb & Hb'). destruct (Hs b Hb) as [->|Hj]; [done|]. by destruct (Hl b).
      * right. split; [done|]. intros b Hb. apply (Hl b). revert Hb. apply mss_at_step; [done|].
        intros (? & ? & _). simplify_eq. by destruct Hk.
Qed.

Lemma copy_at_mid A m m' C : length m = length m' -> put (A ++ m ++ C) (length A) m' = Ok (A ++ m' ++ C).
Proof.
  intros H. unfold Frame.copy_at. rewrite decide_True by (rewrite !length_app; lia).
  rewrite take_app_length, <- H. do 3 f_equal. by rewrite app_assoc, <- length_app, drop_app_length.
Qed.

(** The parts of a packet around checksum and MSS field. *)
Record parts (pkt A ck B mss C : list Z) (l4 a : nat) : Prop := {
  pt_split : pkt = A ++ ck ++ B ++ mss ++ C;
  pt_A : length A = (l4 + 16)%nat;
  pt_ck : length ck = 2%nat;
  pt_B : (length B = a + 2 - (l4 + 18))%nat;
  pt_mss : length mss = 2%nat;
  pt_at : (l4 + 20 <= a)%nat
}.

Lemma parts_exist pkt l4 a : (l4 + 20 <= a)%nat -> (a + 4 <= length pkt)%nat ->
  exists A ck B mss C, parts pkt A ck B mss C l4 a.
Proof.
  intros H1 H2. exists (take (l4 + 16) pkt), (take 2 (drop (l4 + 16) pkt)),
    (take (a + 2 - (l4 + 18)) (drop (l4 + 18) pkt)), (take 2 (drop (a + 2) pkt)), (drop (a + 4) pkt).
  split; rewrite ?length_take, ?length_drop; try lia.
  rewrite <- (take_drop (l4 + 16) pkt) at 1. f_equal.
  rewrite <- (take_drop 2 (drop (l4 + 16) pkt)) at 1. f_equal. rewrite drop_drop.
  replace (l4 + 16 + 2)%nat with (l4 + 18)%nat by lia.
  rewrite <- (take_drop (a + 2 - (l4 + 18)) (drop (l4 + 18) pkt)) at 1. f_equal. rewrite drop_drop.
  replace (l4 + 18 + (a + 2 - (l4 + 18)))%nat with (a + 2)%nat by lia.
  rewrite <- (take_drop 2 (drop (a + 2) pkt)) at 1. f_equal. rewrite drop_drop. f_equal. lia.
Qed.

Definition new_checksum (hc old max : Z) : Z :=
  not16 (ones_complement_add (not16 hc) (ones_complement_add (not16 old) max)).

Lemma rewrite_mss_spec pkt A ck B mss C l4 a max : parts pkt A ck B mss C l4 a ->
  rewrite_mss pkt l4 a max =
    if decide (be_val mss <= max) then Ok (false, pkt)
    else Ok (true, A ++ be_bytes 2 (new_checksum (be_val ck) (be_val mss) max) ++ B ++ be_bytes 2 max ++ C).
Proof.
  intros [-> HA Hc HB Hm Ha]. unfold rewrite_mss.
  assert (E : A ++ ck ++ B ++ mss ++ C = (A ++ ck ++ B) ++ mss ++ C) by by rewrite <- !app_assoc.
  assert (L : length (A ++ ck ++ B) = (a + 2)%nat) by (rewrite !length_app; lia).
  rewrite E, (range_mid (A ++ ck ++ B) mss C) by lia. step. case_decide; [done|].
  rewrite <- L, copy_at_mid by (rewrite length_be_bytes; lia). step.
  rewrite <- !app_assoc, (range_mid A ck) by lia. step.
  rewrite <- HA, copy_at_mid by (rewrite length_be_bytes; lia). done.
Qed.

Lemma oca_spec a b : u16 a -> u16 b -> u16 (ones_complement_add a b) /\
  ones_complement_add a b mod 65535 = (a + b) mod 65535.
Proof.
  unfold is_uint, ones_complement_add. intros Ha Hb. destruct (fold16_spec (a + b)) as (H1 & H2 & _); [lia|].
  split; [lia|done].
Qed.

Lemma new_checksum_spec hc old max : u16 hc -> u16 old -> u16 max ->
  u16 (new_checksum hc old max) /\ (new_checksum hc old max + max) mod 65535 = (hc + old) mod 65535.
Proof.
  intros Hh Ho Hm. unfold new_checksum.
  assert (N : forall x, u16 x -> u16 (not16 x)) by (unfold is_uint, not16; lia).
  destruct (oca_spec (not16 old) max (N _ Ho) Hm) as [U1 E1].
  destruct (oca_spec (not16 hc) _ (N _ Hh) U1) as [U2 E2].
  set (x := ones_complement_add (not16 old) max) in *. set (y := ones_complement_add (not16 hc) x) in *.
  split; [by apply N|]. unfold not16 in *.
  rewrite Z.add_comm, Z.add_sub_assoc, Zminus_mod, E2, <- Zminus_mod.
  replace (max + 65535 - (65535 - hc + x)) with (max + hc - x) by lia.
  rewrite Zminus_mod, E1, <- Zminus_mod.
  replace (max + hc - (65535 - old + max)) with (hc + old + (-1) * 65535) by lia. by rewrite Z_mod_plus_full.
Qed.

(** The pseudo header of a TCP segment at [l4], and when its checksum holds. *)
Definition pseudo (pkt : list Z) (l4 : nat) : list Z :=
  let n := Z.of_nat (length pkt - l4) in
  if decide (Z.shiftr (default 0 (pkt !! 0%nat)) 4 = 4)
  then take 8 (drop 12 pkt) ++ [0; 6] ++ be_bytes 2 (wrap 16 n)
  else take 32 (drop 8 pkt) ++ be_bytes 4 (wrap 32 n) ++ [0; 0; 0; 6].

Definition tcp_valid (pkt : list Z) (l4 : nat) : Prop := checksum16 (pseudo pkt l4 ++ drop l4 pkt) = 0.

Lemma even_sum n m : Nat.Even n -> Nat.Even m -> Nat.Even (n + m).
Proof. intros [a ->] [b ->]. exists (a + b)%nat. lia. Qed.

Lemma l4_even pkt l4 : l4_offset pkt = Ok (Some l4) -> Nat.Even l4 /\ (20 <= l4 <= length pkt)%nat /\
  (Z.shiftr (default 0 (pkt !! 0%nat)) 4 <> 4 -> l4 = 40%nat).
Proof.
  unfold l4_offset, at_. destruct (pkt !! 0%nat) as [b0|]; [|done]. step. cbn [default].
  case_decide as H4.
  - case_decide; [|done]. intros [= <-]. split; [|split; [lia|done]].
    exists (Z.to_nat (Z.land b0 15) * 2)%nat. pose proof (Z.land_nonneg b0 15). lia.
  - repeat case_decide; try done. intros [= <-]. split; [by exists 20%nat|]. split; [lia|done].
Qed.

Lemma take_app_low {X} n (a b : list X) : (n <= length a)%nat -> take n (a ++ b) = take n a.
Proof. intros. rewrite take_app. replace (n - length a)%nat with 0%nat by lia. by rewrite app_nil_r. Qed.

Lemma drop_app_low {X} n (a b : list X) : (n <= length a)%nat -> drop n (a ++ b) = drop n a ++ b.
Proof. intros. rewrite drop_app. by replace (n - length a)%nat with 0%nat by lia. Qed.

(** Changing bytes behind the IP header does not change the pseudo header. *)
Lemma pseudo_same A X Y l4 : (20 <= l4)%nat -> length A = (l4 + 16)%nat -> length X = length Y ->
  (Z.shiftr (default 0 (A !! 0%nat)) 4 <> 4 -> l4 = 40%nat) ->
  pseudo (A ++ X) l4 = pseudo (A ++ Y) l4.
Proof.
  intros Hl HA HX H6. unfold pseudo. rewrite !lookup_app_l by lia. rewrite !length_app, HX.
  case_decide as H4.
  - rewrite !drop_app_low by lia. by rewrite !take_app_low by (rewrite length_drop; lia).
  - specialize (H6 H4). rewrite !drop_app_low by lia. by rewrite !take_app_low by (rewrite length_drop; lia).
Qed.

Lemma pseudo_even pkt l4 : (20 <= l4 <= length pkt)%nat ->
  (Z.shiftr (default 0 (pkt !! 0%nat)) 4 <> 4 -> l4 = 40%nat) -> bytes pkt ->
  Nat.Even (length (pseudo pkt l4)) /\ (length (pseudo pkt l4) <= 40)%nat /\ bytes (pseudo pkt l4).
Proof.
  intros Hl H6 Hb. unfold pseudo. case_decide as H4; rewrite !length_app, !length_be_bytes, length_take, length_drop; cbn [length].
  - replace (8 `min` (length pkt - 12))%nat with 8%nat by lia. split; [exists 6%nat; lia|]. split; [lia|].
    apply bytes_app; split; [apply bytes_take, bytes_drop, Hb|]. apply bytes_app; split; [fall; unfold is_uint; lia|apply be_bytes_bytes].
  - specialize (H6 H4). replace (32 `min` (length pkt - 8))%nat with 32%nat by lia. split; [exists 20%nat; lia|]. split; [lia|].
    apply bytes_app; split; [apply bytes_take, bytes_drop, Hb|]. apply bytes_app; split; [apply be_bytes_bytes|fall; unfold is_uint; lia].
Qed.

(** Replacing two words at even places by others with the same sum keeps a valid
    checksum valid. *)
Lemma checksum_words P ck B mss C ck' mss' :
  Nat.Even (length P) -> length ck = 2%nat -> Nat.Even (length B) -> length mss = 2%nat ->
  length ck' = 2%nat -> length mss' = 2%nat ->
  bytes (P ++ ck ++ B ++ mss ++ C) -> bytes (P ++ ck' ++ B ++ mss' ++ C) ->
  Z.of_nat (length (P ++ ck ++ B ++ mss ++ C)) <= 65600 ->
  (sum16 ck' + sum16 mss') mod 65535 = (sum16 ck + sum16 mss) mod 65535 -> 0 < sum16 mss' ->
  checksum16 (P ++ ck ++ B ++ mss ++ C) = 0 -> checksum16 (P ++ ck' ++ B ++ mss' ++ C) = 0.
Proof.
  intros HP Hc HB Hm Hc' Hm' Hb Hb' Hl Hsum Hpos.
  assert (E2 : forall l : list Z, length l = 2%nat -> Nat.Even (length l)) by (intros l ->; by exists 1%nat).
  assert (S : forall c m, length c = 2%nat -> length m = 2%nat ->
    sum16 (P ++ c ++ B ++ m ++ C) = sum16 P + sum16 c + sum16 B + sum16 m + sum16 C).
  { intros c m Hc0 Hm0. rewrite sum16_app by done. rewrite (sum16_app c) by auto. rewrite (sum16_app B) by done.
    rewrite (sum16_app m) by auto. lia. }
  assert (B1 := sum16_small _ Hb Hl).
  assert (B2 : 0 <= sum16 (P ++ ck' ++ B ++ mss' ++ C) < 2 ^ 32).
  { apply sum16_small; [done|]. rewrite !length_app in *. lia. }
  rewrite !checksum_zero by done. rewrite !S by done. intros [H0 Hz].
  apply bytes_app in Hb' as [Hb1 Hb']. apply bytes_app in Hb' as [Hb2 Hb']. apply bytes_app in Hb' as [Hb3 Hb'].
  apply bytes_app in Hb' as [Hb4 Hb5].
  pose proof (sum16_bound _ Hb1). pose proof (sum16_bound _ Hb2). pose proof (sum16_bound _ Hb3). pose proof (sum16_bound _ Hb5).
  split; [lia|]. replace (sum16 P + sum16 ck' + sum16 B + sum16 mss' + sum16 C)
    with (sum16 P + sum16 B + sum16 C + (sum16 ck' + sum16 mss')) by lia.
  rewrite Zplus_mod, Hsum, <- Zplus_mod. rewrite <- Hz. f_equal. lia.
Qed.

(** The largest segment size for an MTU: less the headers of IP and TCP. *)
Definition max_of (pkt : list Z) (mtu : Z) : Z :=
  sat_sub mtu (if decide (Z.shiftr (default 0 (pkt !! 0%nat)) 4 = 4) then 40 else 60).

(** The ways through [clamp_mss]. *)
Lemma clamp_mss_inv pkt mtu changed pkt' : clamp_mss pkt mtu = Ok (changed, pkt') ->
  (exists l4 a, l4_offset pkt = Ok (Some l4) /\ is_tcp_syn pkt = Ok true /\ last_mss pkt l4 a /\
     rewrite_mss pkt l4 a (max_of pkt mtu) = Ok (changed, pkt')) \/
  (changed = false /\ pkt' = pkt /\ forall l4 a, l4_offset pkt = Ok (Some l4) -> is_tcp_syn pkt = Ok true -> ~ last_mss pkt l4 a).
Proof.
  unfold clamp_mss. destruct (l4_offset pkt) as [[l4|]|[]|] eqn:El; step; try done; [|intros [= <- <-]; right; split_and!; done].
  assert (Hno : (forall a, ~ last_mss pkt l4 a) ->
    false = false /\ pkt = pkt /\ forall l5 a, Ok (Some l4) = Ok (E := Empty_set) (Some l5) -> is_tcp_syn pkt = Ok true -> ~ last_mss pkt l5 a)
    by (intros H; split_and!; try done; intros l5 a [= <-] _; apply H).
  case_decide as Hx; [intros [= <- <-]; right; apply Hno; intros a (d & _ & ? & _); lia|].
  destruct (is_tcp_syn pkt) as [[]|[]|] eqn:Es; step; cbn [negb]; try done; [|intros [= <- <-]; right; split_and!; done].
  unfold at_. destruct (pkt !! (l4 + 12)%nat) as [d|] eqn:Ed; step; [|done].
  case_decide as Hd; [intros [= <- <-]; right; apply Hno; intros a (d' & Ed' & H & _); simplify_eq; lia|].
  destruct (pkt !! 0%nat) as [b0|] eqn:E0; step; [|done].
  assert (Hm : (if decide (Z.shiftr b0 4 = 4) then Some (sat_sub mtu 40) else if decide (Z.shiftr b0 4 = 6) then Some (sat_sub mtu 60) else None) = Some (max_of pkt mtu)).
  { unfold l4_offset, at_ in El. rewrite E0 in El. revert El. step. unfold max_of. rewrite E0. cbn [default id].
    repeat case_decide; done. }
  rewrite Hm. destruct (find_mss _ _ _ _ _) as [o|[]|] eqn:Ef; step; [|done].
  apply find_mss_spec in Ef; [|lia]. destruct Ef as [(a & -> & Ha & Hl)|[-> Hl]].
  - intros H. left. exists l4, a. split_and!; try done. exists d. cbv zeta. split_and!; (done || lia).
  - intros [= <- <-]. right. apply Hno. intros a (d' & Ed' & _ & Ha & _). simplify_eq. by apply (Hl a).
Qed.

Lemma last_mss_bounds pkt l4 a : last_mss pkt l4 a -> (l4 + 20 <= a)%nat /\ (a + 4 <= length pkt)%nat.
Proof. intros (d & _ & H & (Ho & H4 & _) & _). apply option_at_le in Ho. lia. Qed.

(** The rewriting of the option at [a]. *)
Lemma rewritten (pkt pkt' : list Z) (l4 a : nat) (max : Z) : bytes pkt -> Z.of_nat (length pkt) <= 65535 -> u16 max -> 0 < max ->
  l4_offset pkt = Ok (Some l4) -> (l4 + 20 <= a)%nat -> (a + 4 <= length pkt)%nat -> rewrite_mss pkt l4 a max = Ok (true, pkt') ->
  length pkt' = length pkt /\
  take 2 (drop (a + 2) pkt') = be_bytes 2 max /\ max < be_val (take 2 (drop (a + 2) pkt)) /\
  (forall i, (i < l4 + 16 \/ l4 + 18 <= i < a + 2 \/ a + 4 <= i)%nat -> pkt' !! i = pkt !! i) /\
  (Nat.Even (a - l4) -> tcp_valid pkt l4 -> tcp_valid pkt' l4).
Proof.
  intros Hb Hlen Hmx Hpos Hl Ha1 Ha2 Hr.
  destruct (parts_exist pkt l4 a Ha1 Ha2) as (A & ck & B & mss & C & Hp).
  rewrite (rewrite_mss_spec _ _ _ _ _ _ _ _ _ Hp) in Hr. case_decide as Hle; [done|].
  assert (E' : pkt' = A ++ be_bytes 2 (new_checksum (be_val ck) (be_val mss) max) ++ B ++ be_bytes 2 max ++ C) by congruence.
  subst pkt'. clear Hr.
  destruct (l4_even pkt l4 Hl) as (He & Hl4 & H6). destruct Hp as [Es HA Hck HB Hm _].
  set (hc := new_checksum (be_val ck) (be_val mss) max).
  assert (Hbs := Hb). rewrite Es in Hbs.
  apply bytes_app in Hbs as [BA Hbs]. apply bytes_app in Hbs as [Bc Hbs]. apply bytes_app in Hbs as [BB Hbs].
  apply bytes_app in Hbs as [Bm BC].
  assert (Uck : u16 (be_val ck)) by by apply (be_val_bound 2).
  assert (Um : u16 (be_val mss)) by by apply (be_val_bound 2).
  destruct (new_checksum_spec (be_val ck) (be_val mss) max Uck Um Hmx) as [Uh Eh]. fold hc in Uh, Eh.
  assert (S2 : forall l, bytes l -> length l = 2%nat -> sum16 l = be_val l).
  { intros l Hbl Hll. rewrite <- (be_bytes_be_val 2 l) at 1 by done. apply sum16_be2. by apply (be_val_bound 2). }
  assert (LP : length (A ++ ck ++ B) = (a + 2)%nat) by (rewrite !length_app; lia).
  assert (LP' : length (A ++ be_bytes 2 hc ++ B) = (a + 2)%nat) by (rewrite !length_app, length_be_bytes; lia).
  split_and!.
  - rewrite Es, !length_app, !length_be_bytes. lia.
  - replace (A ++ be_bytes 2 hc ++ B ++ be_bytes 2 max ++ C) with ((A ++ be_bytes 2 hc ++ B) ++ be_bytes 2 max ++ C)
      by by rewrite <- !app_assoc.
    rewrite <- LP', drop_app_length. apply (take_app_length' (be_bytes 2 max)). by rewrite length_be_bytes.
  - rewrite Es. replace (A ++ ck ++ B ++ mss ++ C) with ((A ++ ck ++ B) ++ mss ++ C) by by rewrite <- !app_assoc.
    rewrite <- LP, drop_app_length, (take_app_length' mss) by done. lia.
  - intros i Hi. rewrite Es. destruct Hi as [Hi|[Hi|Hi]].
    + by rewrite !lookup_app_l by lia.
    + rewrite !(lookup_app_r A) by lia. rewrite (lookup_app_r ck), (lookup_app_r (be_bytes 2 hc)) by (rewrite ?length_be_bytes; lia).
      rewrite Hck, length_be_bytes. by rewrite !lookup_app_l by lia.
    + rewrite !(lookup_app_r A) by lia. rewrite (lookup_app_r ck), (lookup_app_r (be_bytes 2 hc)) by (rewrite ?length_be_bytes; lia).
      rewrite Hck, length_be_bytes, !(lookup_app_r B) by lia.
      rewrite (lookup_app_r mss), (lookup_app_r (be_bytes 2 max)) by (rewrite ?length_be_bytes; lia).
      by rewrite Hm, length_be_bytes.
  - intros Hev. unfold tcp_valid. rewrite Es.
    assert (H6' : Z.shiftr (default 0 (A !! 0%nat)) 4 <> 4 -> l4 = 40%nat) by (rewrite Es, lookup_app_l in H6 by lia; done).
    rewrite (pseudo_same A (be_bytes 2 hc ++ B ++ be_bytes 2 max ++ C) (ck ++ B ++ mss ++ C)); [| lia|done| |done].
    2: rewrite !length_app, !length_be_bytes; lia.
    destruct (pseudo_even pkt l4 Hl4 H6 Hb) as (PE & PL & PB). rewrite Es in PE, PL, PB.
    set (P := pseudo (A ++ ck ++ B ++ mss ++ C) l4) in *. clearbody P.
    rewrite !drop_app_low by lia. rewrite !(app_assoc P).
    intros Hv. eapply checksum_words; [..|exact Hv].
    + rewrite length_app, length_drop. apply even_sum; [done|]. rewrite HA. exists 8%nat. lia.
    + done.
    + rewrite HB. destruct Hev as [k Hk]. exists (k - 8)%nat. lia.
    + done.
    + apply length_be_bytes.
    + apply length_be_bytes.
    + repeat (apply bytes_app; split); try done; [by apply bytes_drop].
    + repeat (apply bytes_app; split); try done; [by apply bytes_drop|apply be_bytes_bytes..].
    + rewrite Es, !length_app in Hlen. rewrite !length_app, length_drop. lia.
    + rewrite !sum16_be2, !S2 by done. exact Eh.
    + by rewrite sum16_be2.
Qed.

(** C39: clamping a TCP SYN.  A packet that [clamp_mss] changes is a SYN with a segment-size
    option (kind 2, length 4); of the last one it has, the value, which was larger than the MTU
    allows, is now the largest the MTU allows, and no other byte has changed but those of the
    checksum; if the option starts at an even offset of the segment, a valid checksum is valid
    after the incremental update.  Otherwise the packet is as it was, and it is no SYN, or has no
    such option, or the value of its last one is small enough. *)
Theorem clamp_mss_correct (pkt pkt' : list Z) (mtu : Z) (changed : bool) (Hb : bytes pkt) (Hlen : Z.of_nat (length pkt) <= 65535)
  (Hmtu : 60 < mtu <= 65535) (Hc : clamp_mss pkt mtu = Ok (changed, pkt')) :
  if changed then
    exists l4 a, l4_offset pkt = Ok (Some l4) /\ is_tcp_syn pkt = Ok true /\ last_mss pkt l4 a /\
    length pkt' = length pkt /\
    take 2 (drop (a + 2) pkt') = be_bytes 2 (max_of pkt mtu) /\ max_of pkt mtu < be_val (take 2 (drop (a + 2) pkt)) /\
    (forall i, (i < l4 + 16 \/ l4 + 18 <= i < a + 2 \/ a + 4 <= i)%nat -> pkt' !! i = pkt !! i) /\
    (Nat.Even (a - l4) -> tcp_valid pkt l4 -> tcp_valid pkt' l4)
  else pkt' = pkt /\ forall l4 a, l4_offset pkt = Ok (Some l4) -> is_tcp_syn pkt = Ok true -> last_mss pkt l4 a ->
    be_val (take 2 (drop (a + 2) pkt)) <= max_of pkt mtu.
Proof.
  apply clamp_mss_inv in Hc as [(l4 & a & Hl & Hs & Ha & Hr)|(-> & -> & Hn)].
  2: { split; [done|]. intros l4 a Hl Hs Ha. by destruct (Hn l4 a Hl Hs). }
  destruct (last_mss_bounds _ _ _ Ha) as [Ha1 Ha2]. destruct changed.
  - exists l4, a. split; [done|]. split; [done|]. split; [done|].
    apply rewritten; [done..| | |done|done|done|done]; unfold is_uint, max_of, sat_sub; case_decide; lia.
  - destruct (parts_exist pkt l4 a Ha1 Ha2) as (A & ck & B & mss & C & Hp).
    rewrite (rewrite_mss_spec _ _ _ _ _ _ _ _ _ Hp) in Hr. case_decide as Hle; [|done]. injection Hr as <-. split; [done|].
    intros l5 b Hl5 _ Hb5. rewrite Hl in Hl5. injection Hl5 as <-.
    assert (b = a) as ->.
    { destruct Ha as (d & Ed & _ & Ha & Hmax), Hb5 as (d' & Ed' & _ & Hb5 & Hmax'). simplify_eq. apply Nat.le_antisymm; auto. }
    destruct Hp as [Es HA Hck HB Hm _]. assert (LP : length (A ++ ck ++ B) = (a + 2)%nat) by (rewrite !length_app; lia).
    assert (Eo : take 2 (drop (a + 2) pkt) = mss); [|by rewrite Eo].
    rewrite Es. replace (A ++ ck ++ B ++ mss ++ C) with ((A ++ ck ++ B) ++ mss ++ C) by by rewrite <- !app_assoc.
    rewrite <- LP, drop_app_length. by apply take_app_length'.
Qed.

(** ** Panics *)

Lemma parse_v4_safe pkt : safe (parse_v4 pkt).
Proof.
  unfold parse_v4. case_decide; [done|]. apply bind_safe; [apply at_safe; lia|]. intros b0 _. case_decide; [done|].
  do 2 (apply bind_safe; [apply range_safe; lia|]; intros ? _).
  apply bind_safe; [apply at_safe; lia|]. intros ? _. apply bind_safe; [apply range_safe; lia|done].
Qed.

Lemma parse_v6_safe pkt : safe (parse_v6 pkt).
Proof.
  unfold parse_v6. case_decide; [done|]. do 2 (apply bind_safe; [apply range_safe; lia|]; intros ? _).
  apply bind_safe; [apply at_safe; lia|]. intros ? _. apply bind_safe; [apply range_safe; lia|done].
Qed.

Lemma parse_packet_safe pkt : safe (parse_packet pkt).
Proof.
  unfold parse_packet. destruct pkt; [done|]. case_decide; [apply parse_v4_safe|]. case_decide; [apply parse_v6_safe|done].
Qed.

Lemma is_tcp_syn_safe pkt : pkt <> [] -> safe (is_tcp_syn pkt).
Proof.
  intros Hne. unfold is_tcp_syn, l4_offset. assert (0 < length pkt)%nat by (destruct pkt; [done|cbn; lia]).
  apply bind_safe; [apply bind_safe; [by apply at_safe|done]|]. intros o Ho. destruct o as [l4|]; [|done].
  assert (20 <= l4)%nat.
  { apply bind_Ok_inv in Ho as (b0 & _ & [= Ho]). repeat case_decide; simplify_eq; lia. }
  clear Ho. case_decide; [|done]. apply bind_safe; [by apply at_safe|]. intros b0 _.
  apply bind_safe; [apply at_safe; unfold l3_proto; case_decide; lia|]. intros p _. case_decide; [|done].
  apply bind_safe; [apply at_safe; lia|done].
Qed.

Lemma rewrite_mss_safe pkt l4 a max : (l4 + 20 <= a)%nat -> (a + 4 <= length pkt)%nat -> safe (rewrite_mss pkt l4 a max).
Proof.
  intros H1 H2. destruct (parts_exist pkt l4 a H1 H2) as (A & ck & B & mss & C & Hp).
  rewrite (rewrite_mss_spec _ _ _ _ _ _ _ _ _ Hp). by case_decide.
Qed.

(** The checks of a LAN packet hold for every packet but the empty one.
    Parsing never panics; the test for a SYN and the clamping panic exactly on the
    empty packet, where they read the first byte. *)
Theorem lan_packet_panics (pkt : list Z) (mtu : Z) :
  parse_packet pkt <> Panic /\
  (is_tcp_syn pkt = Panic <-> pkt = []) /\ (clamp_mss pkt mtu = Panic <-> pkt = []).
Proof.
  split; [apply parse_packet_safe|]. split; (split; [|by intros ->]); intros HP; destruct (decide (pkt = [])) as [|Hne]; try done; exfalso.
  - by eapply is_tcp_syn_safe.
  - revert HP. change (safe (clamp_mss pkt mtu)). unfold clamp_mss.
    assert (0 < length pkt)%nat by (destruct pkt; [done|cbn; lia]).
    apply bind_safe; [unfold l4_offset; apply bind_safe; [by apply at_safe|done]|]. intros [l4|] Ho; [|done].
    case_decide; [done|]. apply bind_safe; [by apply is_tcp_syn_safe|]. intros [] _; [|done]. cbn [negb].
    apply bind_safe; [apply at_safe; lia|]. intros d _. case_decide as Hd; [done|].
    apply bind_safe; [by apply at_safe|]. intros b0 _.
    destruct (if decide (Z.shiftr b0 4 = 4) then _ else _) as [m|]; [|done].
    apply bind_safe; [apply find_mss_safe; lia|]. intros [a|] Ha; [|done].
    apply find_mss_bounds in Ha as [?|Ha]; [done|]. apply rewrite_mss_safe; lia.
Qed.

(** ** Packet too big *)

Lemma wrap_len n : Z.of_nat n <= 65535 -> wrap 16 (Z.of_nat n) = Z.of_nat n.
Proof. intros. apply wrap_small. unfold is_uint. lia. Qed.

Lemma be_val_len n : Z.of_nat n <= 65535 -> be_val (be_bytes 2 (wrap 16 (Z.of_nat n))) = Z.of_nat n.
Proof. intros H. rewrite wrap_len by done. apply be_val_be_bytes. unfold is_uint. lia. Qed.

Lemma four (l : list Z) : length l = 4%nat -> exists a b c d, l = [a; b; c; d].
Proof. destruct l as [|a [|b [|c [|d [|]]]]]; try done. eauto. Qed.

Lemma two (l : list Z) : length l = 2%nat -> exists a b, l = [a; b].
Proof. destruct l as [|a [|b [|]]]; try done. eauto. Qed.

(** A message in answer to [inner]: from its destination to its source, quoting
    its beginning, with valid checksums. *)
Record ptb_ok (inner pkt : list Z) (mtu : Z) (s d : IpAddr) : Prop := {
  pb_parse : parse_packet pkt = Ok (mk_info d s (if is_ipv4 s then Icmp else Icmpv6) (Z.of_nat (length pkt)));
  pb_quote : exists icmp q, pkt = icmp ++ q /\ (length icmp = if is_ipv4 s then 28 else 48)%nat /\ q `prefix_of` inner;
  pb_short : (length pkt <= 1280)%nat;
  pb_sums : if is_ipv4 s then checksum16 (take 20 pkt) = 0 /\ checksum16 (drop 20 pkt) = 0
            else icmpv6_checksum (take 40 pkt) (drop 40 pkt) = 0
}.

Lemma ptb_v4_ok inner mtu pkt s d : bytes inner -> u16 mtu ->
  v4_src inner = Some s -> v4_dst inner = Some d -> build_ptb_v4 inner mtu = Some pkt ->
  ptb_ok inner pkt mtu (V4 s) (V4 d).
Proof.
  intros Hb Hm Hs Hd. unfold build_ptb_v4. rewrite Hs, Hd. step. destruct (inner !! 0%nat) as [b0|]; [|done]. step.
  set (q := take _ inner).
  assert (Lq : (length q <= 68)%nat).
  { subst q. rewrite length_take. assert (Z.land b0 15 < 16); [|lia].
    change 15 with (Z.ones 4). rewrite Z.land_ones by lia. by apply Z.mod_pos_bound. }
  assert (Bq : bytes q) by by apply bytes_take.
  assert (Pq : q `prefix_of` inner) by apply prefix_take.
  clearbody q. unfold v4_src, v4_dst in *. case_decide as Hlen; [|done].
  assert (Ls : length s = 4%nat /\ bytes s) by (injection Hs as <-; rewrite length_take, length_drop; split; [lia|by apply bytes_take, bytes_drop]).
  assert (Ld : length d = 4%nat /\ bytes d) by (injection Hd as <-; rewrite length_take, length_drop; split; [lia|by apply bytes_take, bytes_drop]).
  clear Hs Hd. destruct Ls as [Ls Bs], Ld as [Ld Bd].
  set (n := (20 + 8 + length q)%nat).
  set (ipck := checksum16 (ptb_header_v4 n d s [0; 0])). set (ick := checksum16 (ptb_icmp_v4 mtu q [0; 0])).
  intros E. assert (Ep : pkt = ptb_header_v4 n d s (be_bytes 2 ipck) ++ ptb_icmp_v4 mtu q (be_bytes 2 ick)) by congruence.
  clear E. assert (Lh : length (ptb_header_v4 n d s (be_bytes 2 ipck)) = 20%nat)
    by (unfold ptb_header_v4; rewrite !length_app, !length_be_bytes; cbn; lia).
  assert (Li : length (ptb_icmp_v4 mtu q (be_bytes 2 ick)) = (8 + length q)%nat)
    by (unfold ptb_icmp_v4; rewrite !length_app, !length_be_bytes; cbn; lia).
  assert (Lp : length pkt = n) by (subst pkt n; rewrite length_app, Lh, Li; lia).
  split; cbn [is_ipv4].
  - unfold parse_packet. subst pkt.
    destruct (two (be_bytes 2 (wrap 16 (Z.of_nat n))) (length_be_bytes 2 _)) as (l1 & l2 & EL).
    destruct (two (be_bytes 2 ipck) (length_be_bytes 2 _)) as (c1 & c2 & Ec).
    destruct (four s Ls) as (s1 & s2 & s3 & s4 & ->). destruct (four d Ld) as (d1 & d2 & d3 & d4 & ->).
    pose proof (be_val_len n ltac:(subst n; lia)) as Hn. rewrite EL in Hn.
    rewrite Lp. unfold ptb_header_v4 in *. rewrite EL, Ec in *. clear Lp Lh Li.
    change (be_bytes 2 0x5211) with [82; 17]. cbn [app].
    rewrite decide_True by done. unfold parse_v4.
    rewrite decide_False by (cbn [length]; lia). unfold at_. cbn [lookup list_lookup]. step.
    rewrite decide_False by (change (Z.to_nat _) with 20%nat; cbn [length]; lia).
    rewrite !range_Ok by (cbn [length]; lia). step. cbn [drop take Nat.sub]. by rewrite Hn.
  - exists (ptb_header_v4 n d s (be_bytes 2 ipck) ++ [3; 4] ++ be_bytes 2 ick ++ [0; 0] ++ be_bytes 2 mtu), q.
    split; [subst pkt; unfold ptb_icmp_v4; by rewrite <- !app_assoc|]. split; [|done].
    rewrite length_app, Lh, !length_app, !length_be_bytes. done.
  - lia.
  - subst pkt. rewrite (take_app_length' _ _ 20) by done. rewrite (drop_app_length' _ _ 20) by done. split.
    + subst ipck. unfold ptb_header_v4. apply checksum_filled.
      * rewrite !length_app, !length_be_bytes. by exists 5%nat.
      * repeat (apply bytes_app; split); try apply be_bytes_bytes; fall; unfold is_uint; lia.
      * by apply bytes_app.
      * rewrite !length_app, !length_be_bytes. cbn. lia.
      * assert (0 <= sum16 (d ++ s)) by by apply sum16_bound, bytes_app.
        assert (0 <= sum16 (be_bytes 2 (wrap 16 (Z.of_nat n)) ++ be_bytes 2 0x5211 ++ [0; 0; 64; 1])); [|cbn [sum16 app]; lia].
        apply sum16_bound. repeat (apply bytes_app; split); try apply be_bytes_bytes; fall; unfold is_uint; lia.
    + subst ick. unfold ptb_icmp_v4. apply (checksum_filled [3; 4]).
      * by exists 1%nat.
      * fall; unfold is_uint; lia.
      * repeat (apply bytes_app; split); try apply be_bytes_bytes; [fall; unfold is_uint; lia|done].
      * rewrite !length_app, length_be_bytes. cbn. lia.
      * assert (0 <= sum16 ([0; 0] ++ be_bytes 2 mtu ++ q)); [|cbn [sum16]; lia].
        apply sum16_bound. repeat (apply bytes_app; split); try apply be_bytes_bytes; [fall; unfold is_uint; lia|done].
Qed.

Lemma ptb_v6_ok inner mtu pkt s d : bytes inner -> u16 mtu ->
  v6_src inner = Some s -> v6_dst inner = Some d -> build_ptb_v6 inner mtu = Some pkt ->
  ptb_ok inner pkt mtu (V6 s) (V6 d).
Proof.
  intros Hb Hm Hs Hd. unfold build_ptb_v6. rewrite Hs, Hd. step. set (q := take _ inner).
  assert (Lq : (length q <= 1232)%nat) by (subst q; rewrite length_take; lia).
  assert (Bq : bytes q) by by apply bytes_take.
  assert (Pq : q `prefix_of` inner) by apply prefix_take.
  clearbody q. unfold v6_src, v6_dst, get_range in *. case_decide as H1; [|done]. case_decide as H2; [|done].
  assert (Ls : length s = 16%nat /\ bytes s) by (injection Hs as <-; rewrite length_take, length_drop; split; [lia|by apply bytes_take, bytes_drop]).
  assert (Ld : length d = 16%nat /\ bytes d) by (injection Hd as <-; rewrite length_take, length_drop; split; [lia|by apply bytes_take, bytes_drop]).
  clear Hs Hd. destruct Ls as [Ls Bs], Ld as [Ld Bd].
  set (n := (8 + length q)%nat). set (h := ptb_header_v6 n d s).
  set (ck := icmpv6_checksum h (ptb_icmp_v6 mtu q [0; 0])).
  intros E. assert (Ep : pkt = h ++ ptb_icmp_v6 mtu q (be_bytes 2 ck)) by congruence. clear E.
  assert (Lh : length h = 40%nat) by (subst h; unfold ptb_header_v6; rewrite !length_app, !length_be_bytes; cbn; lia).
  assert (Li : forall c, length c = 2%nat -> length (ptb_icmp_v6 mtu q c) = n)
    by (intros c Hc; unfold ptb_icmp_v6; rewrite !length_app, !length_be_bytes; cbn; lia).
  assert (Lp : length pkt = (40 + n)%nat) by (subst pkt; rewrite length_app, Lh, Li by apply length_be_bytes; lia).
  split; cbn [is_ipv4].
  - unfold parse_packet. rewrite Lp. subst pkt.
    pose proof (be_val_len n ltac:(subst n; lia)) as Hn.
    set (L := be_bytes 2 (wrap 16 (Z.of_nat n))) in *.
    assert (EL : exists x y, L = [x; y]) by (apply two; apply length_be_bytes). destruct EL as (x & y & EL).
    assert (Eh : h = 96 :: 0 :: 0 :: 0 :: x :: y :: 58 :: 255 :: d ++ s)
      by (subst h; unfold ptb_header_v6; fold L; by rewrite EL).
    rewrite EL in Hn. clear EL. set (tl := ptb_icmp_v6 mtu q (be_bytes 2 ck)). clearbody tl. rewrite Eh.
    cbn [app]. rewrite decide_False by done. rewrite decide_True by done. unfold parse_v6.
    rewrite decide_False by (cbn [length]; rewrite !length_app; lia).
    rewrite !range_Ok by (cbn [length]; rewrite !length_app; lia). step. unfold at_. cbn [lookup list_lookup]. step.
    change (drop 8 (96 :: _)) with ((d ++ s) ++ tl). change (drop 24 (96 :: _)) with (drop 16 ((d ++ s) ++ tl)).
    change (take (6 - 4) (drop 4 (96 :: _))) with [x; y].
    rewrite Hn, <- !app_assoc. change (24 - 8)%nat with 16%nat. change (40 - 24)%nat with 16%nat.
    rewrite (take_app_length' d) by done. rewrite (drop_app_length' d) by done.
    rewrite (take_app_length' s) by done. do 2 f_equal. lia.
  - exists (h ++ [2; 0] ++ be_bytes 2 ck ++ be_bytes 4 mtu), q.
    split; [subst pkt; unfold ptb_icmp_v6; by rewrite <- !app_assoc|]. split; [|done].
    rewrite length_app, Lh, !length_app, !length_be_bytes. done.
  - lia.
  - subst pkt. rewrite (take_app_length' _ _ 40) by done. rewrite (drop_app_length' _ _ 40) by done.
    unfold icmpv6_checksum. rewrite Li by apply length_be_bytes.
    assert (Eds : take 32 (drop 8 h) = d ++ s).
    { subst h. unfold ptb_header_v6.
      replace ([96; 0; 0; 0] ++ be_bytes 2 (wrap 16 (Z.of_nat n)) ++ [58; 255] ++ d ++ s)
        with (([96; 0; 0; 0] ++ be_bytes 2 (wrap 16 (Z.of_nat n)) ++ [58; 255]) ++ d ++ s) by by rewrite <- !app_assoc.
      rewrite drop_app_length' by (rewrite !length_app, length_be_bytes; done).
      apply firstn_all2. rewrite length_app. lia. }
    rewrite Eds. set (l4 := be_bytes 4 (wrap 32 (Z.of_nat n))).
    assert (Bl : bytes l4 /\ length l4 = 4%nat) by (subst l4; split; [apply be_bytes_bytes|apply length_be_bytes]).
    assert (F : forall c, (d ++ s) ++ l4 ++ [0; 0; 0; 58] ++ ptb_icmp_v6 mtu q c
      = (((d ++ s) ++ l4 ++ [0; 0; 0; 58]) ++ [2; 0]) ++ c ++ be_bytes 4 mtu ++ q)
      by (intros c; unfold ptb_icmp_v6; by rewrite <- !app_assoc).
    assert (Eck : ck = checksum16 ((((d ++ s) ++ l4 ++ [0; 0; 0; 58]) ++ [2; 0]) ++ [0; 0] ++ be_bytes 4 mtu ++ q)).
    { subst ck. unfold icmpv6_checksum. rewrite Eds, Li by done. fold l4. by rewrite F. }
    rewrite F, Eck. destruct Bl as [Bl Ll]. apply checksum_filled.
    + rewrite !length_app, Ls, Ld, Ll. by exists 21%nat.
    + repeat (apply bytes_app; split); try done; fall; unfold is_uint; lia.
    + apply bytes_app; split; [apply be_bytes_bytes|done].
    + rewrite !length_app, Ls, Ld, Ll, length_be_bytes. cbn. lia.
    + assert (0 <= sum16 (be_bytes 4 mtu ++ q)) by (apply sum16_bound, bytes_app; split; [apply be_bytes_bytes|done]).
      rewrite sum16_app by (rewrite !length_app, Ls, Ld, Ll; by exists 20%nat).
      assert (0 <= sum16 ((d ++ s) ++ l4 ++ [0; 0; 0; 58])); [|cbn [sum16]; lia].
      apply sum16_bound. repeat (apply bytes_app; split); try done; fall; unfold is_uint; lia.
Qed.

(** A forged "packet too big".  For every packet with readable addresses the
    message built in answer is a well-formed IP packet of at most 1280 bytes from
    the packet's destination to its source, carries ICMP of the right family,
    quotes the beginning of the packet, and all its checksums hold. *)
Theorem ptb_correct (inner : list Z) (mtu : Z) (s d : IpAddr)
  (Hb : bytes inner) (Hm : u16 mtu) (He : endpoints inner = Some (s, d)) :
  exists pkt, build_ptb inner mtu = Some pkt /\ ptb_ok inner pkt mtu s d.
Proof.
  unfold endpoints in He. unfold build_ptb. destruct (inner !! 0%nat) as [b|] eqn:E0; [|done]. step in He. step.
  destruct (decide (Z.shiftr b 4 = 4)).
  - destruct (v4_src inner) as [s'|] eqn:Es; [|done]. step in He. destruct (v4_dst inner) as [d'|] eqn:Ed; [|done].
    injection He as <- <-. destruct (build_ptb_v4 inner mtu) as [pkt|] eqn:Ep.
    + exists pkt. split; [done|]. by apply ptb_v4_ok.
    + unfold build_ptb_v4 in Ep. by rewrite Es, Ed, E0 in Ep.
  - destruct (decide (Z.shiftr b 4 = 6)); [|done].
    destruct (v6_src inner) as [s'|] eqn:Es; [|done]. step in He. destruct (v6_dst inner) as [d'|] eqn:Ed; [|done].
    injection He as <- <-. destruct (build_ptb_v6 inner mtu) as [pkt|] eqn:Ep.
    + exists pkt. split; [done|]. by apply ptb_v6_ok.
    + unfold build_ptb_v6 in Ep. by rewrite Es, Ed in Ep.
Qed.

(** *** Samples *)

(** A SYN over IPv4 with TCP options [opts] and a right checksum. *)
Definition sample_syn (opts : list Z) : list Z :=
  let total := 20 + 20 + Z.of_nat (length opts) in
  let ip := [0x45; 0] ++ be_bytes 2 total ++ [0; 0; 0; 0; 64; 6; 0; 0; 10; 42; 0; 1; 10; 43; 0; 1] in
  let tcp ck := [0x30; 0x39; 0; 80; 0; 0; 0; 1; 0; 0; 0; 0; 16 * (5 + Z.of_nat (length opts) / 4); 2; 0xff; 0xff] ++ ck ++ [0; 0] ++ opts in
  let pkt ck := ip ++ tcp ck in
  pkt (be_bytes 2 (checksum16 (pseudo (pkt [0; 0]) 20 ++ tcp [0; 0]))).

Lemma clamp_mss_correct_witness :
  let pkt := sample_syn [2; 4; 5; 180] in
  exists pkt', clamp_mss pkt TUN_CONSERVATIVE_MTU = Ok (true, pkt') /\ tcp_valid pkt 20 /\
  exists l4 a, l4_offset pkt = Ok (Some l4) /\ last_mss pkt l4 a /\
    take 2 (drop (a + 2) pkt') = be_bytes 2 (max_of pkt TUN_CONSERVATIVE_MTU).
Proof.
  intros pkt. eexists. split; [vm_compute; reflexivity|]. split; [vm_compute; reflexivity|].
  match goal with |- context [take 2 (drop _ ?q)] =>
    destruct (clamp_mss_correct pkt q TUN_CONSERVATIVE_MTU true) as (l4 & a & H1 & _ & H2 & _ & H3 & _) end.
  - apply (bool_decide_unpack (bytes pkt)). vm_compute. exact I.
  - vm_compute. discriminate.
  - vm_compute. split; [reflexivity|discriminate].
  - vm_compute. reflexivity.
  - exists l4, a. split; [exact H1|]. split; [exact H2|exact H3].
Defined.

Lemma ptb_correct_witness : exists pkt,
  build_ptb (sample_syn [2; 4; 5; 180]) 1314 = Some pkt /\
  ptb_ok (sample_syn [2; 4; 5; 180]) pkt 1314 (V4 [10; 42; 0; 1]) (V4 [10; 43; 0; 1]).
Proof.
  apply ptb_correct.
  - apply (bool_decide_unpack (bytes (sample_syn [2; 4; 5; 180]))). vm_compute. exact I.
  - vm_compute. split; [discriminate|reflexivity].
  - vm_compute. reflexivity.
Defined.

(** An MSS option at an odd offset loses the checksum.  With one padding byte
    before the option, which TCP allows, the two bytes of the value lie in two
    words of the sum; the update treats them as one word, and a packet with a
    valid checksum leaves with an invalid one. *)
Theorem clamp_mss_odd_breaks :
  let pkt := sample_syn [1; 2; 4; 5; 180; 0; 0; 0] in
  tcp_valid pkt 20 /\ exists pkt', clamp_mss pkt TUN_CONSERVATIVE_MTU = Ok (true, pkt') /\ ~ tcp_valid pkt' 20.
Proof.
  intros pkt. split; [vm_compute; reflexivity|]. eexists. split; [vm_compute; reflexivity|]. vm_compute. discriminate.
Qed.

(** A length that does not fit 16 bits is cut before the comparison. *)
Lemma mesh_frame_fits_wraps : mesh_frame_fits 65600 true 1500 = true.
Proof. reflexivity. Qed.
End Packet.
