(* ===== verification/RouteReport.v ===== *)
(** * Reports of learned routes (rill-node/src/runtime/route_report.rs and the
      event half of runtime/dn42.rs)

    What a node's BGP sessions learn goes into its routing engine at once and to
    the coordinator in batches.  [RouteReporter] collects the changes of a window,
    the last one per prefix; [flush] turns them into announcements and
    withdrawals.  The clock is read once per event of a session. *)

From S2P Require Import Prelude Net Route RouteMap BgpWire Rib BgpSession.

Module RouteReport.
Import Net Route.
#[local] Existing Instance RouteMap.Prefix_countable.

Definition ROUTE_REPORT_WINDOW : Z := 5 * 1000000000.

Inductive PendingChange := Announce (next_hop peer : string) | Withdraw.

Record RouteReporter := mk_reporter {
  pending : gmap Prefix PendingChange;
  reported : gmap Prefix (string * string);
  window : option Z
}.

Definition reporter_default : RouteReporter := mk_reporter ∅ ∅ None.

Definition note (r : RouteReporter) (now : Z) : RouteReporter :=
  match window r with
  | None => mk_reporter (pending r) (reported r) (Some now)
  | Some _ => r
  end.

Definition set_pending (r : RouteReporter) (p : Prefix) (c : PendingChange) : RouteReporter :=
  mk_reporter (<[p := c]> (pending r)) (reported r) (window r).

Definition learned (r : RouteReporter) (p : Prefix) (next_hop peer : string) (now : Z) : RouteReporter :=
  set_pending (note r now) p (Announce next_hop peer).

Definition withdrawn (r : RouteReporter) (p : Prefix) (now : Z) : RouteReporter :=
  set_pending (note r now) p Withdraw.

Definition note_if_pending (r : RouteReporter) (now : Z) : RouteReporter :=
  if decide (pending r = ∅) then r else note r now.

(** ** Order of the prefixes *)

Fixpoint bytes_lt (a b : list Z) : bool :=
  match a, b with
  | _, [] => false
  | [], _ :: _ => true
  | x :: a, y :: b => if decide (x < y) then true else if decide (y < x) then false else bytes_lt a b
  end.

(** The derived order, by the fields in turn. *)
Definition prefix_le (p q : Prefix) : bool :=
  if bytes_lt (bits p) (bits q) then true
  else if bytes_lt (bits q) (bits p) then false
  else if decide (plen p < plen q) then true
  else if decide (plen q < plen p) then false
  else negb (v4 p) || v4 q.

Definition walk {A} (m : gmap Prefix A) : list (Prefix * A) :=
  sort (fun x y => prefix_le x.1 y.1) (map_to_list m).

(** ** Sessions that end, connections that begin *)

Definition session_down (r : RouteReporter) (peer : string) (now : Z) : RouteReporter :=
  note_if_pending (foldl (fun r '(p, (_, owner)) =>
    if bool_decide (owner = peer) && bool_decide (pending r !! p = None) then set_pending r p Withdraw else r)
    r (walk (reported r))) now.

Definition resync_on_registered (r : RouteReporter) (now : Z) : RouteReporter :=
  note_if_pending (foldl (fun r '(p, (next_hop, peer)) => set_pending r p (Announce next_hop peer))
    r (walk (reported r))) now.

Definition is_due (r : RouteReporter) (now : Z) : bool :=
  match window r with Some start => bool_decide (ROUTE_REPORT_WINDOW <= sat_sub now start) | None => false end.

Definition has_pending (r : RouteReporter) : bool := negb (bool_decide (pending r = ∅)).

(** ** Flushing *)

(** What a flush collects: the new table and the two lists, oldest first. *)
Record Batch := mk_batch {
  table : gmap Prefix (string * string);
  announced : list (Prefix * string);
  gone : list Prefix
}.

Definition flush_one (g : RouteEngine) (b : Batch) (x : Prefix * PendingChange) : Batch :=
  let '(p, c) := x in
  match c with
  | Announce next_hop peer =>
      mk_batch (<[p := (next_hop, peer)]> (table b)) (announced b ++ [(p, next_hop)]) (gone b)
  | Withdraw =>
      match dn42_via g p with
      | Some peer =>
          match table b !! p with
          | Some (next_hop, _) => mk_batch (<[p := (next_hop, peer)]> (table b)) (announced b) (gone b)
          | None => b
          end
      | None => mk_batch (delete p (table b)) (announced b) (gone b ++ [p])
      end
  end.

Definition flush_batch (r : RouteReporter) (g : RouteEngine) : Batch :=
  foldl (flush_one g) (mk_batch (reported r) [] []) (walk (pending r)).

Definition flush (r : RouteReporter) (g : RouteEngine)
    : option (list (string * string) * list string) * RouteReporter :=
  if decide (pending r = ∅) then (None, mk_reporter (pending r) (reported r) None)
  else
    let b := flush_batch r g in
    (Some ((fun x => (to_cidr x.1, x.2)) <$> announced b, to_cidr <$> gone b), mk_reporter ∅ (table b) None).

(** ** Events of the sessions *)

Record Dn42PeerLeg := mk_leg {
  name : string;
  peer_v4 : list Z;
  peer_v6 : list Z;
  established : bool
}.

Definition dn42_entry (p : Prefix) (peer : string) : RouteEntry := mk_entry p Dn42 (ViaDn42 peer) None.

Definition dn42_change (peer : string) (now : Z) (s : RouteEngine * RouteReporter) (c : Rib.RouteChange)
    : RouteEngine * RouteReporter :=
  let '(g, r) := s in
  match c with
  | Rib.Learned p path =>
      (insert g (dn42_entry p peer),
       match Policy.next_hop path with Some nh => learned r p (show_ip nh) peer now | None => r end)
  | Rib.Withdrawn p => ((remove_dn42_route g p peer).2, withdrawn r p now)
  end.

Definition dn42_event (leg : Dn42PeerLeg) (now : Z) (s : RouteEngine * RouteReporter) (ev : BgpSession.RouteEvent)
    : outcome Empty_set (Dn42PeerLeg * (RouteEngine * RouteReporter)) :=
  let '(g, r) := s in
  let set_up b := mk_leg (name leg) (peer_v4 leg) (peer_v6 leg) b in
  match ev with
  | BgpSession.SessionUp =>
      h4 ← from_ip (V4 (peer_v4 leg));
      h6 ← from_ip (V6 (peer_v6 leg));
      Ok (set_up true, (insert (insert g (dn42_entry h4 (name leg))) (dn42_entry h6 (name leg)), r))
  | BgpSession.SessionDown =>
      Ok (set_up false, (remove_dn42_peer g (name leg), session_down r (name leg) now))
  | BgpSession.Changes cs => Ok (leg, foldl (dn42_change (name leg) now) s cs)
  end.

(** ** Folds over a walk *)

Lemma walk_perm {A} (t : gmap Prefix A) : walk t ≡ₚ map_to_list t.
Proof. apply sort_perm. Qed.

Lemma walk_keys_nodup {A} (t : gmap Prefix A) : NoDup (walk t).*1.
Proof. rewrite walk_perm. apply NoDup_fst_map_to_list. Qed.

(** A step that looks at one prefix only acts, over a walk, on each by itself. *)
Lemma walk_fold {S A B} (f : S -> Prefix * A -> S) (get : S -> Prefix -> B) (upd : Prefix -> A -> B -> B) t s q :
  (forall s p a, get (f s (p, a)) p = upd p a (get s p)) ->
  (forall s p a q, q <> p -> get (f s (p, a)) q = get s q) ->
  get (foldl f s (walk t)) q = match t !! q with Some a => upd q a (get s q) | None => get s q end.
Proof.
  intros Hp Hq.
  assert (Hskip : forall l s, q ∉ l.*1 -> get (foldl f s l) q = get s q).
  { induction l as [|[p b] l IH]; intros s' Hl; [done|]. cbn in Hl |- *. apply not_elem_of_cons in Hl as [Hl1 Hl2].
    rewrite IH by done. by apply Hq. }
  assert (Hin : forall a, (q, a) ∈ walk t <-> t !! q = Some a) by (intros a; by rewrite walk_perm, elem_of_map_to_list).
  pose proof (walk_keys_nodup t) as Hnd. destruct (t !! q) as [a|] eqn:E.
  - destruct (list_elem_of_split (walk t) (q, a)) as (l1 & l2 & Hw); [by apply Hin|]. rewrite Hw in Hnd |- *.
    rewrite fmap_app in Hnd. apply list.NoDup_app in Hnd as (_ & Hd & Hn2). cbn in Hd, Hn2. apply list.NoDup_cons in Hn2 as [Hn2 _].
    rewrite foldl_app. cbn [foldl]. rewrite Hskip, Hp by done. f_equal. apply Hskip. intros Hi. apply (Hd q Hi). by left.
  - apply Hskip. intros ([p a] & -> & Hi)%list_elem_of_fmap. by apply Hin in Hi.
Qed.

Lemma walk_fold_same {S A B} (f : S -> Prefix * A -> S) (get : S -> B) t s :
  (forall s x, get (f s x) = get s) -> get (foldl f s (walk t)) = get s.
Proof. intros H. revert s. induction (walk t) as [|x l IH]; intros s; [done|]. cbn. by rewrite IH. Qed.

(** ** What each operation does to a prefix *)

Lemma note_pending r now : pending (note r now) = pending r.
Proof. unfold note. by destruct (window r). Qed.
Lemma note_reported r now : reported (note r now) = reported r.
Proof. unfold note. by destruct (window r). Qed.
Lemma note_if_pending_same r now : pending (note_if_pending r now) = pending r /\ reported (note_if_pending r now) = reported r.
Proof. unfold note_if_pending. case_decide; [done|]. by rewrite note_pending, note_reported. Qed.

Lemma learned_pending r p nh peer now q :
  pending (learned r p nh peer now) !! q = if decide (q = p) then Some (Announce nh peer) else pending r !! q.
Proof. unfold learned. cbn. rewrite note_pending. case_decide; [subst; by simplify_map_eq|by rewrite lookup_insert_ne]. Qed.

Lemma learned_reported r p nh peer now : reported (learned r p nh peer now) = reported r.
Proof. apply note_reported. Qed.
Lemma withdrawn_reported r p now : reported (withdrawn r p now) = reported r.
Proof. apply note_reported. Qed.

Lemma withdrawn_pending r p now q :
  pending (withdrawn r p now) !! q = if decide (q = p) then Some Withdraw else pending r !! q.
Proof. unfold withdrawn. cbn. rewrite note_pending. case_decide; [subst; by simplify_map_eq|by rewrite lookup_insert_ne]. Qed.

Lemma session_down_spec r peer now :
  reported (session_down r peer now) = reported r /\
  forall q, pending (session_down r peer now) !! q =
    match pending r !! q with
    | Some c => Some c
    | None => match reported r !! q with
              | Some (_, o) => if decide (o = peer) then Some Withdraw else None
              | None => None
              end
    end.
Proof.
  unfold session_down. rewrite !(proj1 (note_if_pending_same _ _)), !(proj2 (note_if_pending_same _ _)). split.
  - apply (walk_fold_same _ reported). intros s [p [nh o]]. by destruct (_ && _).
  - intros q. rewrite (walk_fold _ (fun s q => pending s !! q)
      (fun _ '(_, o) x => if bool_decide (o = peer) && bool_decide (x = None) then Some Withdraw else x)).
    + destruct (reported r !! q) as [[nh o]|]; [|by destruct (pending r !! q)].
      destruct (pending r !! q) as [c|] eqn:E; [by rewrite andb_false_r|]. rewrite andb_true_r. by repeat case_decide; case_bool_decide.
    + intros s p [nh o]. destruct (_ && _); [|done]. cbn. by simplify_map_eq.
    + intros s p [nh o] q' Hne. destruct (_ && _); [|done]. cbn. by rewrite lookup_insert_ne.
Qed.

Lemma resync_spec r now :
  reported (resync_on_registered r now) = reported r /\
  forall q, pending (resync_on_registered r now) !! q =
    match reported r !! q with Some (nh, o) => Some (Announce nh o) | None => pending r !! q end.
Proof.
  unfold resync_on_registered. rewrite !(proj1 (note_if_pending_same _ _)), !(proj2 (note_if_pending_same _ _)). split.
  - apply (walk_fold_same _ reported). by intros s [p [nh o]].
  - intros q. rewrite (walk_fold _ (fun s q => pending s !! q) (fun _ '(nh, o) _ => Some (Announce nh o))).
    + by destruct (reported r !! q) as [[nh o]|].
    + intros s p [nh o]. cbn. by simplify_map_eq.
    + intros s p [nh o] q' Hne. cbn. by rewrite lookup_insert_ne.
Qed.

(** ** What the coordinator makes of a flush *)

(** The routes the coordinator has from this node, after the messages so far. *)
Abbreviation View := (gmap Prefix string).

Definition receive (v : View) (b : Batch) : View :=
  foldl (fun v p => delete p v) (foldl (fun v x => <[x.1 := x.2]> v) v (announced b)) (gone b).

Definition flushed (c : PendingChange) (via : option string) (old : option (string * string)) : option (string * string) :=
  match c, via with
  | Announce nh peer, _ => Some (nh, peer)
  | Withdraw, Some peer => (fun x => (x.1, peer)) <$> old
  | Withdraw, None => None
  end.

Lemma flush_table r g q :
  table (flush_batch r g) !! q =
    match pending r !! q with Some c => flushed c (dn42_via g q) (reported r !! q) | None => reported r !! q end.
Proof.
  unfold flush_batch. rewrite (walk_fold (flush_one g) (fun b q => table b !! q) (fun q c old => flushed c (dn42_via g q) old)).
  - done.
  - intros b p [nh o|]; cbn; [by simplify_map_eq|]. destruct (dn42_via g p) as [peer|]; cbn; [|by simplify_map_eq].
    destruct (table b !! p) as [[nh o]|] eqn:E; cbn; [by simplify_map_eq|done].
  - intros b p [nh o|] k Hk; cbn; [by rewrite lookup_insert_ne|]. destruct (dn42_via g p) as [peer|]; cbn; [|by rewrite lookup_delete_ne].
    destruct (table b !! p) as [[nh o]|] eqn:E; cbn; [by rewrite lookup_insert_ne|done].
Qed.

Lemma delete_all (l : list Prefix) (m : View) k :
  foldl (fun v p => delete p v) m l !! k = if decide (k ∈ l) then None else m !! k.
Proof.
  revert m. induction l as [|p l IH]; intros m; [done|]. cbn. rewrite IH.
  destruct (decide (k = p)) as [->|Hne]; [rewrite lookup_delete_eq; repeat case_decide; set_solver|].
  rewrite lookup_delete_ne by done. repeat case_decide; set_solver.
Qed.

(** The prefix [k] is not withdrawn in the batch and its last value is [x]. *)
Definition seen (v : View) (b : Batch) (k : Prefix) : bool * option string :=
  (bool_decide (k ∈ gone b), foldl (fun v x => <[x.1 := x.2]> v) v (announced b) !! k).

Lemma receive_seen v b k : receive v b !! k = if (seen v b k).1 then None else (seen v b k).2.
Proof. unfold receive. rewrite delete_all. cbn. by case_decide; case_bool_decide. Qed.

Lemma flush_view r g v q :
  receive v (flush_batch r g) !! q =
    match pending r !! q with
    | Some (Announce nh _) => Some nh
    | Some Withdraw => match dn42_via g q with Some _ => v !! q | None => None end
    | None => v !! q
    end.
Proof.
  rewrite receive_seen. unfold flush_batch.
  rewrite (walk_fold (flush_one g) (seen v) (fun q c '(w, x) =>
    match c with Announce nh _ => (w, Some nh) | Withdraw => (match dn42_via g q with Some _ => w | None => true end, x) end)).
  - unfold seen. cbn. rewrite bool_decide_eq_false_2 by apply not_elem_of_nil.
    destruct (pending r !! q) as [[nh o|]|]; cbn; [done| |done]. by destruct (dn42_via g q).
  - intros b p [nh o|]; unfold seen; cbn; [rewrite foldl_app; cbn; by simplify_map_eq|].
    destruct (dn42_via g p); [by destruct (table b !! p) as [[]|]|]. cbn. f_equal. apply bool_decide_eq_true_2. set_solver.
  - intros b p [nh o|] k Hk; unfold seen; cbn; [rewrite foldl_app; cbn; by rewrite lookup_insert_ne|].
    destruct (dn42_via g p); [by destruct (table b !! p) as [[]|]|]. cbn. f_equal. apply bool_decide_ext. set_solver.
Qed.

(** ** Routes in the engine *)

Definition supplies (g : RouteEngine) (p : Prefix) (peer : string) : Prop := dn42_entry p peer ∈ entries (Route.table g).

(** Every BGP route of the engine has the shape the node gives it. *)
Definition engine_ok (g : RouteEngine) : Prop :=
  forall e, e ∈ entries (Route.table g) -> source e = Dn42 -> exists peer, e = dn42_entry (prefix e) peer.

Lemma via_supplies g p peer : engine_ok g -> dn42_via g p = Some peer -> supplies g p peer.
Proof.
  intros Hg. unfold dn42_via. destruct (List.find _ _) as [e|] eqn:E; cbn; [|done].
  apply find_Some_elem in E as [Hi [H1 H2]%andb_true_iff]. apply bool_decide_eq_true in H1, H2.
  destruct (Hg e Hi H2) as [o Ho]. rewrite Ho. cbn. intros [= ->]. unfold supplies. rewrite <- H1, <- Ho. exact Hi.
Qed.

Lemma no_via g p : dn42_via g p = None -> engine_ok g -> forall peer, ~ supplies g p peer.
Proof.
  unfold dn42_via. destruct (List.find _ _) as [e|] eqn:E; cbn.
  - intros Hv Hg. apply find_Some_elem in E as [Hi [H1 H2]%andb_true_iff]. apply bool_decide_eq_true in H1, H2.
    destruct (Hg e Hi H2) as [o Ho]. by rewrite Ho in Hv.
  - intros _ _ peer Hi. eapply find_None in E; [|exact Hi]. cbn in E. by rewrite !bool_decide_eq_true_2 in E.
Qed.


Lemma supplies_insert g p peer q o :
  supplies (insert g (dn42_entry p peer)) q o <-> supplies g q o \/ (q = p /\ o = peer).
Proof.
  unfold supplies, insert. cbn. rewrite elem_of_app, list_elem_of_singleton. split; intros [H|H]; auto; right.
  - unfold dn42_entry in H. by simplify_eq.
  - by destruct H as [-> ->].
Qed.

Lemma engine_ok_insert g p peer : engine_ok g -> engine_ok (insert g (dn42_entry p peer)).
Proof. intros Hg e [Hi|Hi%list_elem_of_singleton]%elem_of_app Hs; [by apply Hg|]. subst e. by exists peer. Qed.

Lemma engine_ok_sub g g' : entries (Route.table g') ⊆ entries (Route.table g) -> engine_ok g -> engine_ok g'.
Proof. intros Hs Hg e Hi. apply Hg, Hs, Hi. Qed.

Lemma supplies_remove g p peer q o :
  supplies (remove_dn42_route g p peer).2 q o <-> supplies g q o /\ ~ (q = p /\ o = peer).
Proof.
  unfold supplies, remove_dn42_route, table_remove. cbn. rewrite elem_of_bfilter. cbn. apply and_iff_compat_l.
  rewrite negb_true_iff, <- not_true_iff_false, !andb_true_iff, !bool_decide_eq_true. intuition congruence.
Qed.

Lemma supplies_down g peer q o : supplies (remove_dn42_peer g peer) q o <-> supplies g q o /\ o <> peer.
Proof.
  unfold supplies, remove_dn42_peer, engine_remove_where, remove_where. cbn. rewrite elem_of_bfilter. cbn. apply and_iff_compat_l.
  unfold has. cbn. rewrite negb_true_iff, <- not_true_iff_false, andb_true_iff, !bool_decide_eq_true. intuition congruence.
Qed.

Lemma engine_ok_remove g p peer : engine_ok g -> engine_ok (remove_dn42_route g p peer).2.
Proof. apply engine_ok_sub. unfold remove_dn42_route, table_remove. cbn. intros e [? _]%elem_of_bfilter. done. Qed.

Lemma engine_ok_down g peer : engine_ok g -> engine_ok (remove_dn42_peer g peer).
Proof. apply engine_ok_sub. unfold remove_dn42_peer, engine_remove_where, remove_where. cbn. intros e [? _]%elem_of_bfilter. done. Qed.

Lemma from_ip_total a : exists p, from_ip a = Ok p.
Proof. unfold from_ip. destruct a; cbn; eauto. Qed.

#[local] Hint Resolve engine_ok_insert engine_ok_remove engine_ok_down : core.

(** ** Any number of sessions *)

Record Sys := mk_sys { eng : RouteEngine; rep : RouteReporter; view : View }.

(** The routes of a session that goes down have been withdrawn before (the driver
    of the session does it), and the table is announced again to a coordinator,
    the same or a new one, only when nothing about it is pending. *)
Inductive step : Sys -> Sys -> Prop :=
| step_event leg leg' now ev s g r :
    (ev = BgpSession.SessionDown -> forall p nh, pending (rep s) !! p <> Some (Announce nh (name leg))) ->
    dn42_event leg now (eng s, rep s) ev = Ok (leg', (g, r)) -> step s (mk_sys g r (view s))
| step_flush s :
    step s (mk_sys (eng s) (flush (rep s) (eng s)).2 (receive (view s) (flush_batch (rep s) (eng s))))
| step_resync s now (v : View) :
    (forall p, is_Some (reported (rep s) !! p) -> pending (rep s) !! p = None) -> v = view s \/ v = ∅ ->
    step s (mk_sys (eng s) (resync_on_registered (rep s) now) v).

Definition start (g : RouteEngine) : Sys := mk_sys g reporter_default ∅.

Record sound (s : Sys) : Prop := {
  so_engine : engine_ok (eng s);
  so_reported p nh o : pending (rep s) !! p = None -> reported (rep s) !! p = Some (nh, o) -> supplies (eng s) p o;
  so_pending p nh o : pending (rep s) !! p = Some (Announce nh o) -> supplies (eng s) p o;
  so_view p nh : view s !! p = Some nh -> exists o, reported (rep s) !! p = Some (nh, o)
}.

Lemma flush_reporter r g : (flush r g).2 = mk_reporter ∅ (table (flush_batch r g)) None.
Proof. unfold flush. case_decide as H; [|done]. cbn. unfold flush_batch. by rewrite H. Qed.

Lemma sound_learned s p nh peer now : sound s ->
  sound (mk_sys (insert (eng s) (dn42_entry p peer)) (learned (rep s) p nh peer now) (view s)).
Proof.
  intros []. split; cbn [eng rep view].
  - auto.
  - intros q x o. rewrite learned_pending, learned_reported, supplies_insert. case_decide; [done|]. eauto.
  - intros q x o. rewrite learned_pending, supplies_insert. case_decide; [intros [= -> ->]; auto|]. eauto.
  - intros q x. rewrite learned_reported. auto.
Qed.

Lemma sound_withdrawn s p peer now : sound s ->
  sound (mk_sys (remove_dn42_route (eng s) p peer).2 (withdrawn (rep s) p now) (view s)).
Proof.
  intros []. split; cbn [eng rep view].
  - auto.
  - intros q x o. rewrite withdrawn_pending, withdrawn_reported, supplies_remove. case_decide; [done|]. intros Hn Hr. split; [eauto|by intros [? _]].
  - intros q x o. rewrite withdrawn_pending, supplies_remove. case_decide; [done|]. intros Hp. split; [eauto|by intros [? _]].
  - intros q x. rewrite withdrawn_reported. auto.
Qed.

Lemma sound_insert s p peer : sound s -> sound (mk_sys (insert (eng s) (dn42_entry p peer)) (rep s) (view s)).
Proof. intros []. split; cbn [eng rep view]; [by auto| | |done]; intros q x o; rewrite supplies_insert; eauto. Qed.

Lemma sound_down s peer now : sound s -> (forall p nh, pending (rep s) !! p <> Some (Announce nh peer)) ->
  sound (mk_sys (remove_dn42_peer (eng s) peer) (session_down (rep s) peer now) (view s)).
Proof.
  intros [] Hd. destruct (session_down_spec (rep s) peer now) as [Hr Hp]. split; cbn [eng rep view].
  - auto.
  - intros q x o. rewrite Hp, Hr, supplies_down. destruct (pending (rep s) !! q) eqn:E; [done|]. intros Hn Ho. rewrite Ho in Hn.
    case_decide; [done|]. eauto.
  - intros q x o. rewrite Hp, supplies_down. destruct (pending (rep s) !! q) eqn:E.
    + intros [= ->]. split; [eauto|]. intros ->. by eapply Hd.
    + destruct (reported (rep s) !! q) as [[? ?]|]; [|done]. by case_decide.
  - intros q x. rewrite Hr. auto.
Qed.

Lemma sound_changes cs peer now s : sound s ->
  let x := foldl (dn42_change peer now) (eng s, rep s) cs in sound (mk_sys x.1 x.2 (view s)).
Proof.
  cbv zeta. revert s. induction cs as [|c cs IH]; intros s Hs; [by destruct s|]. cbn [foldl].
  destruct c as [p path|p]; cbn [dn42_change]; [destruct (Policy.next_hop path)|].
  - exact (IH (mk_sys _ _ (view s)) (sound_learned _ _ _ _ _ Hs)).
  - exact (IH (mk_sys _ _ (view s)) (sound_insert _ _ _ Hs)).
  - exact (IH (mk_sys _ _ (view s)) (sound_withdrawn _ _ _ _ Hs)).
Qed.

Lemma sound_event leg leg' now ev s g r : sound s ->
  (ev = BgpSession.SessionDown -> forall p nh, pending (rep s) !! p <> Some (Announce nh (name leg))) ->
  dn42_event leg now (eng s, rep s) ev = Ok (leg', (g, r)) -> sound (mk_sys g r (view s)).
Proof.
  intros Hs Hd. destruct ev as [| |cs]; cbn [dn42_event].
  - destruct (from_ip_total (V4 (peer_v4 leg))) as [h4 ->]. destruct (from_ip_total (V6 (peer_v6 leg))) as [h6 ->]. step.
    intros [= _ <- <-]. exact (sound_insert (mk_sys _ _ _) _ _ (sound_insert _ _ _ Hs)).
  - intros [= _ <- <-]. apply sound_down; auto.
  - intros [= _ H]. pose proof (sound_changes cs (name leg) now s Hs) as G. cbv zeta in G. by rewrite H in G.
Qed.

Lemma sound_flush s : sound s ->
  sound (mk_sys (eng s) (flush (rep s) (eng s)).2 (receive (view s) (flush_batch (rep s) (eng s)))).
Proof.
  intros []. rewrite flush_reporter. split; cbn [eng rep view pending reported]; [done| |by intros ? ? ?; rewrite lookup_empty|].
  - intros p nh o _. rewrite flush_table. destruct (pending (rep s) !! p) as [[x y|]|] eqn:E; cbn; [intros [= -> ->]; eauto| |eauto].
    destruct (dn42_via (eng s) p) as [peer|] eqn:Ev; cbn; [|done]. destruct (reported (rep s) !! p) as [[? ?]|]; cbn; [|done].
    intros [= _ <-]. by apply via_supplies.
  - intros p nh. rewrite flush_view, flush_table. destruct (pending (rep s) !! p) as [[x y|]|] eqn:E; cbn; [intros [= ->]; eauto| |eauto].
    destruct (dn42_via (eng s) p) as [peer|]; [|done]. intros Hv. destruct (so_view0 p nh Hv) as [o ->]. cbn. eauto.
Qed.

Lemma sound_resync s now v : sound s -> (forall p, is_Some (reported (rep s) !! p) -> pending (rep s) !! p = None) ->
  v = view s \/ v = ∅ -> sound (mk_sys (eng s) (resync_on_registered (rep s) now) v).
Proof.
  intros [] Hq Hv. destruct (resync_spec (rep s) now) as [Hr Hp]. split; cbn [eng rep view]; [done| | |].
  - intros p nh o. rewrite Hp, Hr. intros Hn Ho. by rewrite Ho in Hn.
  - intros p nh o. rewrite Hp. destruct (reported (rep s) !! p) as [[x y]|] eqn:E; [|eauto]. intros [= -> ->].
    apply (so_reported0 p nh o); [|done]. apply Hq. by rewrite E.
  - intros p nh. rewrite Hr. destruct Hv as [->| ->]; [auto|by rewrite lookup_empty].
Qed.

Lemma sound_steps s s' : rtc step s s' -> sound s -> sound s'.
Proof.
  induction 1 as [|s s1 s' H _ IH]; [done|]. intros Hs. apply IH.
  destruct H; [by eapply sound_event|by apply sound_flush|by apply sound_resync].
Qed.

Lemma sound_start g : engine_ok g -> sound (start g).
Proof. intros Hg. split; cbn; [done|..]; intros *; by rewrite ?lookup_empty. Qed.

(** A coordinator never keeps a route that no session supplies.  Whatever any
    number of BGP sessions learn and withdraw, however the changes are batched, and
    through failovers of the coordinator, every route it has from the node with no
    change pending is held by one of the node's sessions, and right after a flush
    that is every route it has. *)
Theorem reports_sound (g : RouteEngine) (s : Sys) (Hg : engine_ok g) (Hr : rtc step (start g) s) :
  (forall p nh, view s !! p = Some nh -> pending (rep s) !! p = None -> exists peer, supplies (eng s) p peer) /\
  let v := receive (view s) (flush_batch (rep s) (eng s)) in
  forall p nh, v !! p = Some nh -> exists peer, supplies (eng s) p peer.
Proof.
  pose proof (sound_steps _ _ Hr (sound_start g Hg)) as Hs. split.
  - destruct Hs. intros p nh Hv Hp. destruct (so_view0 p nh Hv) as [o Ho]. eauto.
  - cbv zeta. destruct (sound_flush _ Hs). rewrite flush_reporter in *. cbn in *. intros p nh Hv.
    destruct (so_view0 p nh Hv) as [o Ho]. exists o. eapply so_reported0; [by rewrite lookup_empty|exact Ho].
Qed.

(** ** One session *)

Section One.
Context (leg0 : Dn42PeerLeg).















End One.

(** ** What batching gets wrong *)

Definition sample_prefix : Prefix := mk_prefix ([172; 20; 1] ++ replicate 13 0) 24 true.
Definition supply (peer : string) : RouteEngine := insert engine_new (dn42_entry sample_prefix peer).

(** A route withdrawn shortly before the node registers again is announced again,
    and stays: the full report overwrites the pending withdrawal. *)
Theorem resync_resurrects :
  let r := (flush (learned reporter_default sample_prefix "10.0.0.1" "a" 0) (supply "a")).2 in
  let r := withdrawn r sample_prefix 10 in
  let '(out, r) := flush (resync_on_registered r 11) engine_new in
  out = Some ([("172.20.1.0/24", "10.0.0.1")%string], []) /\
  reported r !! sample_prefix = Some ("10.0.0.1", "a")%string /\ pending r = ∅.
Proof. vm_compute. repeat split. Qed.

(** A prefix that one session learns and another withdraws within a window is not
    announced at all, although the first still has it. *)
Theorem merge_loses :
  let r := withdrawn (learned reporter_default sample_prefix "10.0.0.1" "a" 0) sample_prefix 1 in
  let '(out, r) := flush r (supply "a") in
  out = Some ([], []) /\ reported r = ∅ /\ pending r = ∅ /\ dn42_via (supply "a") sample_prefix = Some "a"%string.
Proof. vm_compute. repeat split. Qed.

(** When another session takes over a prefix, the next hop of the old one stays
    announced. *)
Theorem takeover_keeps_next_hop :
  let r := (flush (learned reporter_default sample_prefix "10.0.0.1" "a" 0) (supply "a")).2 in
  let r := learned r sample_prefix "10.0.0.2" "b" 10 in
  let '(out, r) := flush (withdrawn r sample_prefix 11) (supply "b") in
  out = Some ([], []) /\ reported r !! sample_prefix = Some ("10.0.0.1", "b")%string.
Proof. vm_compute. repeat split. Qed.

(** ** Samples *)

Definition sample_leg : Dn42PeerLeg := mk_leg "a" [172; 20; 101; 2] (replicate 16 1) false.
Definition sample_path : Policy.BgpPath := Policy.mk_path [] (Some (V4 [10; 0; 0; 1])) 0 [].
Definition sample_changes : list Rib.RouteChange := [Rib.Learned sample_prefix sample_path].

Definition sample_after : RouteEngine * RouteReporter :=
  foldl (dn42_change "a" 5) (engine_new, reporter_default) sample_changes.

Lemma sample_step : step (start engine_new) (mk_sys sample_after.1 sample_after.2 ∅).
Proof. refine (step_event sample_leg sample_leg 5 (BgpSession.Changes sample_changes) (start engine_new) _ _ _ _); [done|reflexivity]. Qed.

Lemma sample_engine_ok : engine_ok engine_new.
Proof. intros e He. cbn in He. by apply not_elem_of_nil in He. Qed.

Lemma reports_sound_witness : exists peer, supplies sample_after.1 sample_prefix peer.
Proof.
  destruct (reports_sound engine_new _ sample_engine_ok (rtc_once _ _ sample_step)) as [_ H].
  apply (H sample_prefix "10.0.0.1"%string). vm_compute. reflexivity.
Defined.



End RouteReport.
