(* ===== verification/Json.v ===== *)
(** * JSON values (serde_json)

    The messages of the Tailscale protocol are JSON.  The texts are read and
    written by a library; here is what the program does with the values: the
    accessors it uses, and decoding into records by field name as the derived
    decoders do it.  An object is the list of its members in the order in which
    the library iterates over them. *)

From S2P Require Import Prelude.

Module Json.

(** [JFloat]: a number that is no integer, with its text. *)
Inductive json :=
| JNull
| JBool (b : bool)
| JNum (z : Z)
| JFloat (text : string)
| JStr (s : string)
| JArr (l : list json)
| JObj (l : list (string * json)).

Fixpoint member (l : list (string * json)) (name : string) : option json :=
  match l with
  | [] => None
  | (k, v) :: l => if decide (k = name) then Some v else member l name
  end.

(** [Value::get] with a name; [Value::pointer] with the names of its path. *)
Definition get (v : json) (name : string) : option json :=
  match v with JObj l => member l name | _ => None end.

Fixpoint pointer (v : json) (path : list string) : option json :=
  match path with
  | [] => Some v
  | n :: path => v ← get v n; pointer v path
  end.

Definition as_str (v : json) : option string := match v with JStr s => Some s | _ => None end.
Definition as_bool (v : json) : option bool := match v with JBool b => Some b | _ => None end.
Definition as_array (v : json) : option (list json) := match v with JArr l => Some l | _ => None end.
Definition as_object (v : json) : option (list (string * json)) := match v with JObj l => Some l | _ => None end.
Definition as_u64 (v : json) : option Z :=
  match v with JNum z => if decide (0 <= z < 2 ^ 64) then Some z else None | _ => None end.

(** ** Derived decoders: [None] is an error of the whole message. *)

Definition de_i64 (v : json) : option Z :=
  match v with JNum z => if decide (- 2 ^ 63 <= z < 2 ^ 63) then Some z else None | _ => None end.

Definition de_vec {A} (de : json -> option A) (v : json) : option (list A) :=
  match v with JArr l => mapM de l | _ => None end.

(** [Option<T>]: [null] is [None]. *)
Definition de_option {A} (de : json -> option A) (v : json) : option (option A) :=
  match v with JNull => Some None | _ => Some <$> de v end.

(** A field that must be there; one that defaults. *)
Definition field {A} (de : json -> option A) (v : json) (name : string) : option A :=
  x ← get v name; de x.

Definition field_or {A} (d : A) (de : json -> option A) (v : json) (name : string) : option A :=
  match get v name with Some x => de x | None => Some d end.

Lemma mapM_fmap {A B C} (f : A -> option B) (g : C -> A) (l : list C) : mapM f (g <$> l) = mapM (f ∘ g) l.
Proof. induction l as [|x l IH]; [done|]; cbn. rewrite IH; done. Qed.

Lemma mapM_all {A B} (f : A -> option B) (g : A -> B) (l : list A) : (forall x, x ∈ l -> f x = Some (g x)) ->
  mapM f l = Some (g <$> l).
Proof.
  induction l as [|x l IH]; intros H; [done|]; cbn. rewrite H by set_solver. cbn.
  rewrite IH by set_solver. done.
Qed.

Lemma de_strs (l : list string) : de_vec as_str (JArr (JStr <$> l)) = Some l.
Proof. unfold de_vec. rewrite mapM_fmap, (mapM_all _ Datatypes.id) by done. by rewrite list_fmap_id. Qed.
End Json.
