(* ===== verification/Tailnet.v ===== *)
(** * The Tailscale leg of a node (rill-node/src/runtime/ts2021.rs, the message
      types of rill-ts2021/src/tailcfg.rs)

    The node's side of the leg: the peers of the tailnet, the sources they accept
    and the routes announced to them; the snapshot of the network map with its
    full and incremental frames; and the table of WireGuard sessions of the data
    task; and the control task that feeds both.  A Rust string is its UTF-8 bytes,
    of which slicing must respect the character boundaries.  A message is decoded
    from the object that [Json] has for it. *)

From Stdlib Require Import Ascii.
From S2P Require Import Prelude Net Route AuthKey BgpSession Mesh Json.

Module Tailnet.
Import Net Route Mesh Json.

(** ** Keys as text *)

(** [format!("{b:02x}")] of each byte. *)
Fixpoint hex (bs : list Z) : string :=
  match bs with
  | [] => EmptyString
  | b :: bs => String (digit_char (b / 16)) (String (digit_char (b mod 16)) (hex bs))
  end.

Inductive KeyError := BadKeyPrefix | BadKeyLength | BadKeyHex.

(** Is there a character boundary before this byte?  Not inside a character. *)
Definition boundary (s : string) : bool :=
  match s with
  | EmptyString => true
  | String c _ => negb (bool_decide (128 <= code c < 192))
  end.

(** [u8::from_str_radix(_, 16)] of two bytes. *)
Definition radix16_2 (a b : ascii) : option Z :=
  if decide (a = "+"%char) then to_digit 16 b
  else x ← to_digit 16 a; y ← to_digit 16 b; Some (16 * x + y).

Fixpoint hex_pairs (n : nat) (s : string) : outcome KeyError (list Z) :=
  match n with
  | O => Ok []
  | S n =>
      match s with
      | String a (String b s') =>
          if boundary s && boundary s' then
            x ← ok_or BadKeyHex (radix16_2 a b);
            xs ← hex_pairs n s';
            Ok (x :: xs)
          else Panic
      | _ => Panic
      end
  end.

Definition parse_key_hex (prefix s : string) : outcome KeyError (list Z) :=
  match AuthKey.strip_prefix prefix s with
  | None => Err BadKeyPrefix
  | Some h => if decide (String.length h <> 64%nat) then Err BadKeyLength else hex_pairs 32 h
  end.

Definition parse_machine_public : string -> outcome KeyError (list Z) := parse_key_hex "mkey:".
Definition parse_node_public : string -> outcome KeyError (list Z) := parse_key_hex "nodekey:".
Definition parse_disco_public : string -> outcome KeyError (list Z) := parse_key_hex "discokey:".

(** [from_hex64] (ts2021.rs): the text of a key file; every byte a hexadecimal digit. *)
Definition from_hex64 (s : string) : option (list Z) :=
  if bool_decide (String.length s <> 64%nat) || negb (forallb (fun c => bool_decide (is_Some (to_digit 16 c))) (String.list_ascii_of_string s)) then None
  else match hex_pairs 32 s with Ok k => Some k | _ => None end.

(** ** Frames of the network map *)

Record NetPeer := mk_net_peer {
  np_nid : option Z;
  np_key : string;
  np_endpoints : list string;
  np_allowed : list string
}.

Record PeerPatch := mk_patch {
  pp_node_id : option Z;
  pp_key : option string;
  pp_endpoints : option (list string);
  pp_allowed : option (list string)
}.

(** [mr_node] has the addresses of the node itself. *)
Record MapResponse := mk_map {
  mr_node : option (list string);
  mr_peers : option (list NetPeer);
  mr_changed : option (list NetPeer);
  mr_removed : option (list Z);
  mr_patch : option (list PeerPatch);
  mr_derp : option json
}.

Definition de_net_node (v : json) : option (list string) := field_or [] (de_vec as_str) v "Addresses".

Definition de_net_peer (v : json) : option NetPeer :=
  n ← field_or None (de_option de_i64) v "ID";
  k ← field as_str v "Key";
  e ← field_or [] (de_vec as_str) v "Endpoints";
  a ← field_or [] (de_vec as_str) v "AllowedIPs";
  Some (mk_net_peer n k e a).

Definition de_patch (v : json) : option PeerPatch :=
  n ← field_or None (de_option de_i64) v "NodeID";
  k ← field_or None (de_option as_str) v "Key";
  e ← field_or None (de_option (de_vec as_str)) v "Endpoints";
  a ← field_or None (de_option (de_vec as_str)) v "AllowedIPs";
  Some (mk_patch n k e a).

Definition de_map_response (v : json) : option MapResponse :=
  n ← field_or None (de_option de_net_node) v "Node";
  p ← field_or None (de_option (de_vec de_net_peer)) v "Peers";
  c ← field_or None (de_option (de_vec de_net_peer)) v "PeersChanged";
  r ← field_or None (de_option (de_vec de_i64)) v "PeersRemoved";
  t ← field_or None (de_option (de_vec de_patch)) v "PeersChangedPatch";
  d ← field_or None (de_option Some) v "DERPMap";
  Some (mk_map n p c r t d).

Record DerpNode := mk_derp_node { region_id : Z; derp_hostname : string; derp_port : Z }.

(** The first node of the first region; [as u16] truncates. *)
Definition derp_node (m : MapResponse) : option DerpNode :=
  d ← mr_derp m;
  rs ← field as_object d "Regions";
  '(_, region) ← head rs;
  i ← field as_u64 region "RegionID";
  ns ← field as_array region "Nodes";
  node ← head ns;
  h ← field as_str node "HostName";
  p ← field as_u64 node "DERPPort";
  Some (mk_derp_node (wrap 16 i) h (wrap 16 p)).

Definition non_empty {A} (v : option (list A)) : bool :=
  match v with Some (_ :: _) => true | _ => false end.

Definition has_netmap_data (m : MapResponse) : bool :=
  bool_decide (is_Some (mr_node m)) || non_empty (mr_changed m) || non_empty (mr_removed m) || non_empty (mr_patch m).

(** ** The node's side *)

Record Ts2021Peer := mk_peer {
  id : string;
  nid : Z;
  key : list Z;
  endpoints : list SocketAddr;
  allowed_ips : list string
}.

(** [pokes] counts the changes of [advertise] the control task is told of. *)
Record Ts2021Leg := mk_ts_leg {
  advertise : list string;
  pokes : Z;
  static_advertise : list string;
  summarize_mesh : bool;
  self_addrs : list string;
  ts_peers : gmap string Ts2021Peer
}.

Definition has_peer (l : Ts2021Leg) (peer : string) : bool := bool_decide (is_Some (ts_peers l !! peer)).

Definition accepts_source (l : Ts2021Leg) (src : IpAddr) : bool :=
  existsb (fun cidr => match parse cidr with Ok p => matches p src | _ => false end) (self_addrs l ++ advertise l).

Definition push_new (l : list string) (x : string) : list string := if decide (x ∈ l) then l else l ++ [x].

Definition set_mesh_routes (l : Ts2021Leg) (mesh_routes : list string) : Ts2021Leg :=
  if negb (summarize_mesh l) then l
  else
    let merged := foldl push_new (static_advertise l) mesh_routes in
    if decide (advertise l = merged) then l
    else mk_ts_leg merged (pokes l + 1) (static_advertise l) (summarize_mesh l) (self_addrs l) (ts_peers l).

(** [str::ends_with] *)
Fixpoint ends_with (suffix s : string) : bool :=
  bool_decide (s = suffix) || match s with EmptyString => false | String _ s => ends_with suffix s end.

Definition is_exit (p : Ts2021Peer) : bool := existsb (ends_with "/0") (allowed_ips p).

Definition tailnet_entry (p : Prefix) (peer : string) : RouteEntry := mk_entry p Tailnet (ViaTailnet peer) None.

Definition insert_allowed (peer : string) (g : RouteEngine) (cidr : string) : RouteEngine :=
  if ends_with "/0" cidr then g
  else match parse cidr with Ok p => insert g (tailnet_entry p peer) | _ => g end.

Definition insert_peer (g : RouteEngine) (p : Ts2021Peer) : RouteEngine :=
  foldl (insert_allowed (id p)) (remove_tailnet_peer g (id p)) (allowed_ips p).

(** One event of [pump_ts2021]; [order] lists the old peers as the map is walked. *)
Definition on_ts_netmap (order : list string) (peers : list Ts2021Peer) (g : RouteEngine) (d : DefaultRouteResolver) (l : Ts2021Leg)
    : RouteEngine * DefaultRouteResolver * Ts2021Leg :=
  let fresh := id <$> peers in
  let g := foldl (fun g x => if decide (x ∈ fresh) then g else remove_tailnet_peer g x) g order in
  let d := set_tailnet_exits d (id <$> List.filter is_exit peers) in
  let g := foldl insert_peer g peers in
  (g, d, mk_ts_leg (advertise l) (pokes l) (static_advertise l) (summarize_mesh l) (self_addrs l)
           (foldl (fun m p => <[id p := p]> m) ∅ peers)).

(** ** The snapshot of the control task *)

Abbreviation Snapshot := (gmap Z Ts2021Peer).

Record DeltaStats := mk_stats { changed : Z; removed : Z; patched : Z }.

Definition parse_endpoints (l : list string) : list SocketAddr := omap parse_socket l.

(** Peers of a frame; one without an identifier gets the next negative one.  A
    peer whose key is not one is left out. *)
Fixpoint frame_peers (synth : Z) (ps : list NetPeer) : outcome Empty_set (list Ts2021Peer * Z) :=
  match ps with
  | [] => Ok ([], synth)
  | p :: ps =>
      match parse_node_public (np_key p) with
      | Ok k =>
          let '(n, synth) := match np_nid p with Some n => (n, synth) | None => (synth - 1, synth - 1) end in
          '(rest, synth) ← frame_peers synth ps;
          Ok (mk_peer (hex k) n k (parse_endpoints (np_endpoints p)) (np_allowed p) :: rest, synth)
      | Err _ => frame_peers synth ps
      | Panic => Panic
      end
  end.

Definition full_snapshot (peers : list Ts2021Peer) : Snapshot := foldl (fun m p => <[nid p := p]> m) ∅ peers.

Definition min_synth (s : Snapshot) : Z := map_fold (fun k _ acc => if decide (k < 0) then Z.min k acc else acc) 0 s.

Fixpoint remove_all (s : Snapshot) (ids : list Z) : Snapshot * Z :=
  match ids with
  | [] => (s, 0)
  | x :: ids =>
      let '(s', n) := remove_all (delete x s) ids in
      (s', match s !! x with Some _ => n + 1 | None => n end)
  end.

Definition patch_peer (p : Ts2021Peer) (c : PeerPatch) : outcome Empty_set Ts2021Peer :=
  '(i, k) ← match pp_key c with
            | None => Ok (id p, key p)
            | Some t =>
                match parse_node_public t with
                | Ok k => Ok (hex k, k)
                | Err _ => Ok (id p, key p)
                | Panic => Panic
                end
            end;
  Ok (mk_peer i (nid p) k
        (match pp_endpoints c with Some l => parse_endpoints l | None => endpoints p end)
        (default (allowed_ips p) (pp_allowed c))).

Fixpoint apply_patches (s : Snapshot) (cs : list PeerPatch) : outcome Empty_set (Snapshot * Z) :=
  match cs with
  | [] => Ok (s, 0)
  | c :: cs =>
      match pp_node_id c with
      | None => apply_patches s cs
      | Some n =>
          match s !! n with
          | None => apply_patches s cs
          | Some p =>
              p' ← patch_peer p c;
              '(s', k) ← apply_patches (<[n := p']> s) cs;
              Ok (s', k + 1)
          end
      end
  end.

Definition apply_delta (s : Snapshot) (m : MapResponse) : outcome Empty_set (option DeltaStats * Snapshot) :=
  if negb (non_empty (mr_changed m) || non_empty (mr_removed m) || non_empty (mr_patch m)) then Ok (None, s)
  else
    '(ps, _) ← frame_peers (min_synth s) (default [] (mr_changed m));
    let s := foldl (fun s p => <[nid p := p]> s) s ps in
    let '(s, gone) := remove_all s (default [] (mr_removed m)) in
    '(s, n) ← apply_patches s (default [] (mr_patch m));
    Ok (Some (mk_stats (Z.of_nat (length ps)) gone n), s).

(** What a frame makes of the snapshot and of the addresses of the node, and the
    peers it tells the node and the data task of, if any. *)
Definition apply_netmap (s : Snapshot) (addrs : list string) (m : MapResponse)
    : outcome Empty_set (option (list Ts2021Peer) * Snapshot * list string) :=
  match mr_peers m with
  | Some ps =>
      let addrs := default addrs (mr_node m) in
      '(peers, _) ← frame_peers 0 ps;
      Ok (Some peers, full_snapshot peers, addrs)
  | None =>
      '(stats, s) ← apply_delta s m;
      Ok (match stats with
          | Some _ => Some (sort (fun a b => bool_decide (nid a <= nid b)) (snd <$> map_to_list s))
          | None => None
          end, s, addrs)
  end.

(** ** The control task *)

(** Milliseconds. *)
Definition CONTROL_BACKOFF_MAX : Z := 300000.

(** What [run_control] waits for. *)
Inductive phase := Connecting | Opening | Holding.

Record Ctl := mk_ctl {
  at_phase : phase;
  backoff : Z;
  preferred_derp : option Z;
  snapshot : Snapshot;
  addrs : list string
}.

Definition ctl_new (addrs : list string) : Ctl := mk_ctl Connecting 1000 None ∅ addrs.

(** What it learns: how an attempt went, a frame of the stream (with the outcome of
    a connection to the relay, should it make one), the end of the stream, a change
    of the routes, the loss of the relay. *)
Inductive ctl_event :=
| Attempt (ok : bool)
| StreamOpen (ok : bool)
| NextNetmap (m : MapResponse) (derp_ok : bool)
| StreamClosed
| Poked
| DerpLost.

(** What it does: pauses, tells the node and the data task of the peers, hands over
    a relay, opens the stream, reports endpoints, relay and routes. *)
Inductive ctl_output :=
| Sleep (ms : Z)
| Told (peers : list Ts2021Peer)
| SetDerp (region : Z)
| OpenStream (routables : list string) (derp : option Z)
| Lite (routables : list string) (derp : option Z).

Definition ctl_at (c : Ctl) (p : phase) := mk_ctl p (backoff c) (preferred_derp c) (snapshot c) (addrs c).

(** [apply_netmap] for the relay: a new connection only when the region differs. *)
Definition apply_derp (pref : option Z) (m : MapResponse) (derp_ok : bool) (routables : list string) : list ctl_output * option Z :=
  match derp_node m with
  | None => ([], pref)
  | Some dn =>
      let '(o, pref) :=
        if decide (pref = Some (region_id dn)) then ([], pref)
        else if derp_ok then ([SetDerp (region_id dn)], Some (region_id dn))
        else ([], pref) in
      (o ++ [Lite routables pref], pref)
  end.

Definition on_netmap (c : Ctl) (m : MapResponse) (derp_ok : bool) (routables : list string) : outcome Empty_set (list ctl_output * Ctl) :=
  '(told, s, a) ← apply_netmap (snapshot c) (addrs c) m;
  let o := match told with Some ps => [Told ps] | None => [] end in
  let '(o', pref) :=
    match mr_peers m with
    | Some _ => apply_derp (preferred_derp c) m derp_ok routables
    | None => ([], preferred_derp c)
    end in
  Ok (o ++ o', mk_ctl Holding (backoff c) pref s a).

(** One wake-up of the task; [None] where it does not wait for the event.  The
    pause before a new attempt belongs to the step that leads to it. *)
Definition ctl_step (routables : list string) (c : Ctl) (e : ctl_event) : option (outcome Empty_set (list ctl_output * Ctl)) :=
  match at_phase c, e with
  | Connecting, Attempt false =>
      Some (Ok ([Sleep (backoff c)], mk_ctl Connecting (Z.min (backoff c * 2) CONTROL_BACKOFF_MAX) (preferred_derp c) (snapshot c) (addrs c)))
  | Connecting, Attempt true =>
      Some (Ok ([OpenStream routables (preferred_derp c)], mk_ctl Opening 1000 (preferred_derp c) (snapshot c) (addrs c)))
  | Opening, StreamOpen false => Some (Ok ([Sleep (backoff c)], ctl_at c Connecting))
  | Opening, StreamOpen true => Some (Ok ([], ctl_at c Holding))
  | Holding, NextNetmap m ok => Some (on_netmap c m ok routables)
  | Holding, StreamClosed => Some (Ok ([OpenStream routables (preferred_derp c)], ctl_at c Opening))
  | Holding, Poked => Some (Ok ([Lite routables (preferred_derp c)], c))
  | Holding, DerpLost => Some (Ok ([Sleep (backoff c)], mk_ctl Connecting (backoff c) None (snapshot c) (addrs c)))
  | _, _ => None
  end.

(** [None]: an event the task does not wait for; then a panic or what it did. *)
Fixpoint ctl_run (routables : list string) (c : Ctl) (es : list ctl_event) : option (outcome Empty_set (list ctl_output * Ctl)) :=
  match es with
  | [] => Some (Ok ([], c))
  | e :: es =>
      match ctl_step routables c e with
      | Some (Ok (o, c)) =>
          match ctl_run routables c es with
          | Some (Ok (o', c)) => Some (Ok (o ++ o', c))
          | r => r
          end
      | r => r
      end
  end.

(** ** Sessions of the data task *)

Definition index_of (s : string) : Z :=
  foldl (fun h b => wrap 32 (Z.lxor h b * 0x85ebca6b)) 0x9e3779b9 (str_bytes s).

Section Sessions.
Context `{T : BgpSession.Tunn}.

Record PeerSess := mk_sess {
  s_key : list Z;
  s_endpoints : list SocketAddr;
  s_allowed : list string;
  s_tunnel : BgpSession.WgTunnel
}.

Definition new_session (node_priv : list Z) (p : Ts2021Peer) : PeerSess :=
  mk_sess (key p) (endpoints p) (allowed_ips p)
    (BgpSession.tunnel_new (BgpSession.mk_keys node_priv (key p) None (index_of (id p)))).

Fixpoint merge_into (old fresh : gmap string PeerSess) (peers : list Ts2021Peer) (node_priv : list Z) : gmap string PeerSess :=
  match peers with
  | [] => fresh
  | p :: ps =>
      match old !! id p with
      | Some s => merge_into (delete (id p) old) (<[id p := mk_sess (s_key s) (endpoints p) (allowed_ips p) (s_tunnel s)]> fresh) ps node_priv
      | None => merge_into old (<[id p := new_session node_priv p]> fresh) ps node_priv
      end
  end.

Definition merge_sessions (old : gmap string PeerSess) (peers : list Ts2021Peer) (node_priv : list Z) : gmap string PeerSess :=
  merge_into old ∅ peers node_priv.

(** [Emit]: to which key and addresses, and the datagrams. *)
Definition Emit : Type := list Z * list SocketAddr * list (list Z).

(** [collect_timer]; [keys] lists the table as it is walked. *)
Fixpoint collect_timer (fuel : nat) (ss : gmap string PeerSess) (keys : list string) : option (list Emit * gmap string PeerSess) :=
  match keys with
  | [] => Some ([], ss)
  | x :: keys =>
      match ss !! x with
      | None => collect_timer fuel ss keys
      | Some s =>
          '(frames, w) ← BgpSession.update_timers fuel (s_tunnel s);
          '(out, ss) ← collect_timer fuel (<[x := mk_sess (s_key s) (s_endpoints s) (s_allowed s) w]> ss) keys;
          Some (if decide (frames = []) then out else (s_key s, s_endpoints s, frames) :: out, ss)
      end
  end.

(** The sessions in the order in which [decap_session] tries them. *)
Definition try_order (ss : gmap string PeerSess) (keys : list string) (by_key : option (list Z)) (by_addr : option SocketAddr) : list string :=
  match by_key, by_addr with
  | Some k, _ => [hex k]
  | None, Some a => List.filter (fun x => match ss !! x with Some s => bool_decide (a ∈ s_endpoints s) | None => false end) keys
  | None, None => []
  end ++ keys.

Fixpoint decap_try (fuel : nat) (ss : gmap string PeerSess) (order : list string) (src : option IpAddr) (datagram : list Z)
    : option (option (list Z) * list Emit * gmap string PeerSess) :=
  match order with
  | [] => Some (None, [], ss)
  | x :: order =>
      match ss !! x with
      | None => decap_try fuel ss order src datagram
      | Some s =>
          '(out, w) ← BgpSession.decapsulate fuel (s_tunnel s) src datagram;
          let ss := <[x := mk_sess (s_key s) (s_endpoints s) (s_allowed s) w]> ss in
          if bool_decide (BgpSession.plaintext out = None) && bool_decide (BgpSession.to_send out = [])
          then decap_try fuel ss order src datagram
          else Some (BgpSession.plaintext out, [(s_key s, s_endpoints s, BgpSession.to_send out)], ss)
      end
  end.

Definition decap_session (fuel : nat) (ss : gmap string PeerSess) (keys : list string) (by_key : option (list Z)) (by_addr : option SocketAddr)
    (datagram : list Z) : option (option (list Z) * list Emit * gmap string PeerSess) :=
  decap_try fuel ss (try_order ss keys by_key by_addr) (fst <$> by_addr) datagram.

(** Datagrams on the wire: to an address, or through the relay to a key. *)
Inductive wg_output := ToUdp (a : SocketAddr) (d : list Z) | ToDerp (k d : list Z).

Definition send_wg (derp : bool) (k : list Z) (eps : list SocketAddr) (d : list Z) : list wg_output :=
  ((fun a => ToUdp a d) <$> eps) ++ (if derp then [ToDerp k d] else []).

Definition send_emits (derp : bool) (es : list Emit) : list wg_output :=
  concat (List.map (fun '(k, eps, frames) => concat (List.map (send_wg derp k eps) frames)) es).

(** One packet for a peer, in [run_data_plane]. *)
Definition on_outbound (ss : gmap string PeerSess) (peer : string) (pkt : list Z) : list Emit * gmap string PeerSess :=
  match ss !! peer with
  | None => ([], ss)
  | Some s =>
      let '(frames, w) := BgpSession.encapsulate (s_tunnel s) pkt in
      (if decide (frames = []) then [] else [(s_key s, s_endpoints s, frames)],
       <[peer := mk_sess (s_key s) (s_endpoints s) (s_allowed s) w]> ss)
  end.

Record Data := mk_data { sessions : gmap string PeerSess; derp_up : bool; last_timer : Z }.

Inductive data_cmd := CmdSetPeers (peers : list Ts2021Peer) | CmdSetDerp.

Definition on_cmd (node_priv : list Z) (d : Data) (c : data_cmd) : Data :=
  match c with
  | CmdSetPeers ps => mk_data (merge_sessions (sessions d) ps node_priv) (derp_up d) (last_timer d)
  | CmdSetDerp => mk_data (sessions d) true (last_timer d)
  end.

Fixpoint drain_outbound (d : Data) (pkts : list (string * list Z)) : list wg_output * Data :=
  match pkts with
  | [] => ([], d)
  | (peer, pkt) :: pkts =>
      let '(es, ss) := on_outbound (sessions d) peer pkt in
      let '(o, d') := drain_outbound (mk_data ss (derp_up d) (last_timer d)) pkts in
      (send_emits (derp_up d) es ++ o, d')
  end.

(** What the receiving window of the relay gave: nothing, a packet, the end. *)
Inductive derp_recv := NoPacket | Packet (source data : list Z) | RecvErr.

(** A turn of [run_data_plane]: the commands, the packets, the timers, the relay.
    Gives what is sent, a plaintext for the node, and whether the loss of the relay
    is reported. *)
Definition data_turn (fuel : nat) (node_priv : list Z) (keys : gmap string PeerSess -> list string) (now : Z)
    (cmds : list data_cmd) (pkts : list (string * list Z)) (r : derp_recv) (d : Data)
    : option (list wg_output * option (list Z) * bool * Data) :=
  let d := foldl (on_cmd node_priv) d cmds in
  let '(o1, d) := drain_outbound d pkts in
  '(o2, d) ← (if decide (1000 <= BgpSession.since now (last_timer d))
              then '(es, ss) ← collect_timer fuel (sessions d) (keys (sessions d));
                   Some (send_emits (derp_up d) es, mk_data ss (derp_up d) now)
              else Some ([], d));
  if derp_up d then
    match r with
    | NoPacket => Some (o1 ++ o2, None, false, d)
    | Packet source data =>
        '(plain, es, ss) ← decap_session fuel (sessions d) (keys (sessions d)) (Some source) None data;
        Some (o1 ++ o2 ++ send_emits true es, plain, false, mk_data ss true (last_timer d))
    | RecvErr => Some (o1 ++ o2, None, true, mk_data (sessions d) false (last_timer d))
    end
  else Some (o1 ++ o2, None, false, d).

(** A datagram from the network, in [run_udp_recv]: what is sent goes back to where
    it came from. *)
Definition udp_recv (fuel : nat) (keys : gmap string PeerSess -> list string) (ss : gmap string PeerSess) (src : SocketAddr) (datagram : list Z)
    : option (list wg_output * option (list Z) * gmap string PeerSess) :=
  '(plain, es, ss) ← decap_session fuel ss (keys ss) None (Some src) datagram;
  Some (concat (List.map (fun e : Emit => List.map (ToUdp src) e.2) es), plain, ss).
End Sessions.

(** ** Keys *)

Lemma hex_length bs : String.length (hex bs) = (2 * length bs)%nat.
Proof. induction bs as [|b bs IH]; [done|]. cbn [hex String.length length]. rewrite IH. lia. Qed.

Definition byte_ok (b : Z) : bool :=
  bool_decide (radix16_2 (digit_char (b / 16)) (digit_char (b mod 16)) = Some b) && boundary (hex [b]).

Lemma byte_digits (b : Z) : is_uint 8 b -> radix16_2 (digit_char (b / 16)) (digit_char (b mod 16)) = Some b /\
  boundary (hex [b]) = true.
Proof.
  intros H. unfold is_uint in H.
  assert (Hall : forallb byte_ok (Z.of_nat <$> seq 0 256) = true) by (vm_compute; done).
  rewrite forallb_forall in Hall. specialize (Hall b).
  assert (byte_ok b = true) as [? ?]%andb_true_iff.
  { apply Hall, list_elem_of_In. rewrite <- (Z2Nat.id b) by lia. apply list_elem_of_fmap_2, elem_of_seq. lia. }
  by rewrite bool_decide_eq_true in *.
Qed.

Lemma boundary_hex bs : bytes bs -> boundary (hex bs) = true.
Proof. destruct bs as [|b bs]; [done|]. intros [Hb _]%Forall_cons_1. apply (byte_digits b Hb). Qed.

Lemma hex_pairs_hex bs : bytes bs -> hex_pairs (length bs) (hex bs) = Ok bs.
Proof.
  induction bs as [|b bs IH]; [done|]. intros [Hb Hbs]%Forall_cons_1.
  destruct (byte_digits b Hb) as [H1 H2]. cbn [length hex hex_pairs].
  change (boundary (String (digit_char (b / 16)) (String (digit_char (b mod 16)) (hex bs)))) with (boundary (hex [b])).
  rewrite H2, boundary_hex, H1 by done. step. rewrite IH by done. done.
Qed.

Lemma parse_key_hex_text (prefix : string) (k : list Z) : length k = 32%nat -> bytes k ->
  parse_key_hex prefix (String.append prefix (hex k)) = Ok k.
Proof.
  intros Hl Hk. unfold parse_key_hex. rewrite AuthKey.strip_prefix_app, decide_False.
  - rewrite <- Hl. by apply hex_pairs_hex.
  - rewrite hex_length. lia.
Qed.

(** ** Deltas, node by node *)

Definition patch_ref (p : Ts2021Peer) (c : PeerPatch) : Ts2021Peer :=
  let '(i, k) := match pp_key c with
                 | Some t => match parse_node_public t with Ok k => (hex k, k) | _ => (id p, key p) end
                 | None => (id p, key p)
                 end in
  mk_peer i (nid p) k (match pp_endpoints c with Some l => parse_endpoints l | None => endpoints p end)
    (default (allowed_ips p) (pp_allowed c)).

(** What a delta makes of one entry: the last change of the node, unless it is also
    removed, and then its patches in turn. *)
Definition delta_ref (ps : list Ts2021Peer) (gone : list Z) (cs : list PeerPatch) (old : option Ts2021Peer) (n : Z) : option Ts2021Peer :=
  let changed := match list.last (filter (fun p => nid p = n) ps) with Some p => Some p | None => old end in
  let kept := if decide (n ∈ gone) then None else changed in
  (fun p => foldl patch_ref p (filter (fun c => pp_node_id c = Some n) cs)) <$> kept.

Lemma patch_peer_ref p c p' : patch_peer p c = Ok p' -> p' = patch_ref p c.
Proof.
  unfold patch_peer, patch_ref. destruct (pp_key c) as [t|]; [destruct (parse_node_public t)|]; step; congruence.
Qed.

Lemma insert_changed (ps : list Ts2021Peer) (s : Snapshot) n :
  foldl (fun s p => <[nid p := p]> s) s ps !! n = match list.last (filter (fun p => nid p = n) ps) with Some p => Some p | None => s !! n end.
Proof.
  revert s. induction ps as [|p ps IH]; intros s; [done|]. cbn [foldl]. rewrite IH, filter_cons.
  destruct (decide (nid p = n)) as [<-|Hne].
  - rewrite lookup_insert_eq, last_cons. by destruct (list.last _).
  - by rewrite lookup_insert_ne by done.
Qed.

Lemma remove_all_lookup ids (s : Snapshot) n : (remove_all s ids).1 !! n = if decide (n ∈ ids) then None else s !! n.
Proof.
  revert s. induction ids as [|x ids IH]; intros s; [done|]. cbn [remove_all].
  specialize (IH (delete x s)). destruct (remove_all (delete x s) ids) as [s' k]. cbn [fst] in *. rewrite IH.
  destruct (decide (x = n)) as [<-|Hne].
  - rewrite lookup_delete_eq. repeat case_decide; set_solver.
  - rewrite lookup_delete_ne by done. repeat case_decide; set_solver.
Qed.

Lemma apply_patches_lookup cs (s s' : Snapshot) k n : apply_patches s cs = Ok (s', k) ->
  s' !! n = (fun p => foldl patch_ref p (filter (fun c => pp_node_id c = Some n) cs)) <$> s !! n.
Proof.
  revert s k. induction cs as [|c cs IH]; intros s k; cbn [apply_patches].
  { intros [= <- _]. by destruct (s !! n). }
  rewrite filter_cons. destruct (pp_node_id c) as [x|].
  2: { intros H. rewrite decide_False by done. eauto. }
  destruct (s !! x) as [p|] eqn:Hx.
  - destruct (patch_peer p c) as [p'|e|] eqn:Hp; [|destruct e|discriminate]. step.
    destruct (apply_patches (<[x:=p']> s) cs) as [[s1 k1]|e|] eqn:Hr; [|destruct e|discriminate]. step.
    intros [= <- _]. rewrite (IH _ _ Hr). apply patch_peer_ref in Hp as ->.
    destruct (decide (x = n)) as [<-|Hne].
    + rewrite lookup_insert_eq, Hx, decide_True by done. done.
    + rewrite lookup_insert_ne, decide_False by (congruence || done). done.
  - intros H. rewrite (IH _ _ H). case_decide as Hd; [|done]. injection Hd as ->. by rewrite Hx.
Qed.

Lemma apply_delta_lookup (s s' : Snapshot) m st : apply_delta s m = Ok (Some st, s') ->
  exists ps synth, frame_peers (min_synth s) (default [] (mr_changed m)) = Ok (ps, synth) /\
    forall n, s' !! n = delta_ref ps (default [] (mr_removed m)) (default [] (mr_patch m)) (s !! n) n.
Proof.
  unfold apply_delta. destruct (negb _); [discriminate|].
  destruct (frame_peers _ _) as [[ps synth]|e|]; [|destruct e|discriminate]. step.
  intros H. exists ps, synth. split; [done|]. intros n. unfold delta_ref. revert H.
  pose proof (remove_all_lookup (default [] (mr_removed m)) (foldl (fun s p => <[nid p := p]> s) s ps) n) as Hg.
  destruct (remove_all _ _) as [s1 gone]. cbn [fst] in Hg.
  destruct (apply_patches s1 _) as [[s2 k]|e|] eqn:Hp; [|destruct e|discriminate]. step.
  intros [= _ <-]. by rewrite (apply_patches_lookup _ _ _ _ n Hp), Hg, insert_changed.
Qed.

(** ** Routes *)

Definition allowed_entries (peer : string) (l : list string) : list RouteEntry :=
  omap (fun cidr => if ends_with "/0" cidr then None
                    else match parse cidr with Ok p => Some (tailnet_entry p peer) | _ => None end) l.

Definition peer_entries (p : Ts2021Peer) : list RouteEntry := allowed_entries (id p) (allowed_ips p).

(** Routes of a tailnet lead to peers of it. *)
Definition tailnet_ok (l : Ts2021Leg) (g : RouteEngine) : Prop :=
  forall e, e ∈ entries (table g) -> source e = Tailnet -> exists x, via e = ViaTailnet x /\ is_Some (ts_peers l !! x).

Definition of_peers (xs : list string) (e : RouteEntry) : bool := existsb (fun x => has Tailnet (ViaTailnet x) e) xs.

Definition keep (xs : list string) (g : RouteEngine) : list RouteEntry :=
  List.filter (fun e => negb (of_peers xs e)) (entries (table g)).

Lemma insert_allowed_entries peer l g :
  entries (table (foldl (insert_allowed peer) g l)) = entries (table g) ++ allowed_entries peer l.
Proof.
  revert g. induction l as [|c l IH]; intros g; cbn [foldl]; [by rewrite app_nil_r|].
  rewrite IH. unfold insert_allowed, allowed_entries. cbn [omap list_omap].
  destruct (ends_with "/0" c); [done|]. destruct (parse c); cbn; by rewrite <- ?app_assoc.
Qed.

Lemma filter_filter {A} (f h : A -> bool) (l : list A) : List.filter f (List.filter h l) = List.filter (fun x => h x && f x) l.
Proof. induction l as [|x l IH]; [done|]. cbn. destruct (h x); cbn; [destruct (f x)|]; cbn; by rewrite ?IH. Qed.

Lemma filter_same {A} (f h : A -> bool) (l : list A) : (forall x, x ∈ l -> f x = h x) -> List.filter f l = List.filter h l.
Proof. induction l as [|x l IH]; [done|]. cbn. intros H. rewrite H, IH by set_solver. done. Qed.

Lemma filter_all {A} (f : A -> bool) (l : list A) : (forall x, x ∈ l -> f x = true) -> List.filter f l = l.
Proof. induction l as [|x l IH]; [done|]. cbn. intros H. rewrite H, IH by set_solver. done. Qed.

Lemma of_peers_entry xs p e : e ∈ peer_entries p -> of_peers xs e = bool_decide (id p ∈ xs).
Proof.
  intros (c & _ & Hc)%list_elem_of_omap. destruct (ends_with "/0" c); [done|]. destruct (parse c); try done.
  injection Hc as <-. unfold of_peers, has, tailnet_entry. cbn [source via]. rewrite bool_decide_eq_true_2 by done. cbn [andb].
  apply Bool.eq_true_iff_eq. rewrite existsb_exists, bool_decide_eq_true. split.
  - intros (x & Hx & [= ->]%bool_decide_eq_true). by apply list_elem_of_In.
  - intros Hin. exists (id p). split; [by apply list_elem_of_In|]. by apply bool_decide_eq_true.
Qed.

Lemma remove_peers_keep xs g : keep [] (foldl remove_tailnet_peer g xs) = keep xs g.
Proof.
  revert g. induction xs as [|x xs IH]; intros g; [done|]. cbn [foldl]. rewrite IH. unfold keep. cbn.
  rewrite filter_filter. apply filter_same. intros e _. by rewrite negb_orb.
Qed.

Lemma insert_peers_entries ps g : NoDup (id <$> ps) ->
  entries (table (foldl insert_peer g ps)) = keep (id <$> ps) g ++ concat (peer_entries <$> ps).
Proof.
  revert g. induction ps as [|p ps IH]; intros g; cbn [foldl fmap list_fmap concat].
  { intros _. rewrite app_nil_r. symmetry. by apply filter_all. }
  intros [Hp Hn]%list.NoDup_cons. rewrite IH by done. unfold insert_peer, keep.
  rewrite insert_allowed_entries, List.filter_app, <- app_assoc. f_equal; [|f_equal].
  - cbn. rewrite filter_filter. apply filter_same. intros e _. by rewrite negb_orb.
  - apply filter_all. intros e He. rewrite (of_peers_entry _ _ _ He). by rewrite bool_decide_eq_false_2.
Qed.

(** After an event, the routes of the tailnet in the engine are those of the peers
    told of, and no other route has changed. *)
Lemma on_ts_netmap_routes order peers g d l : NoDup (id <$> peers) -> (forall x, x ∈ order <-> is_Some (ts_peers l !! x)) -> tailnet_ok l g ->
  entries (table (on_ts_netmap order peers g d l).1.1) =
    List.filter (fun e => negb (bool_decide (source e = Tailnet))) (entries (table g)) ++ concat (peer_entries <$> peers).
Proof.
  intros Hn Ho Hok. unfold on_ts_netmap. cbn [fst]. rewrite insert_peers_entries by done. f_equal.
  set (gone := List.filter (fun x => negb (bool_decide (x ∈ (id <$> peers)))) order).
  assert (Hg : forall xs g, foldl (fun g x => if decide (x ∈ id <$> peers) then g else remove_tailnet_peer g x) g xs =
    foldl remove_tailnet_peer g (List.filter (fun x => negb (bool_decide (x ∈ (id <$> peers)))) xs)).
  { induction xs as [|x xs IH]; intros g0; [done|]. cbn. case_decide; [rewrite bool_decide_eq_true_2 by done|rewrite bool_decide_eq_false_2 by done]; by rewrite IH. }
  rewrite Hg. fold gone.
  transitivity (List.filter (fun e => negb (of_peers (id <$> peers) e)) (keep gone g)).
  { rewrite <- (remove_peers_keep gone). unfold keep. rewrite filter_filter. by apply filter_same. }
  unfold keep. rewrite filter_filter. apply filter_same. intros e He.
  rewrite <- negb_orb. f_equal. apply Bool.eq_true_iff_eq. rewrite orb_true_iff, bool_decide_eq_true. unfold of_peers. rewrite !existsb_exists. split.
  - intros [(x & _ & Hx)|(x & _ & Hx)]; apply andb_true_iff in Hx as [Hx%bool_decide_eq_true _]; done.
  - intros Hs. destruct (Hok e He Hs) as (x & Hv & Hx).
    assert (Hhas : has Tailnet (ViaTailnet x) e = true) by (unfold has; rewrite !bool_decide_eq_true_2; done).
    destruct (decide (x ∈ id <$> peers)); [right|left]; exists x; split; try done; apply list_elem_of_In; [done|].
    apply list_elem_of_In; unfold gone; apply filter_In. split; [by apply list_elem_of_In, Ho|]. by rewrite bool_decide_eq_false_2.
Qed.

Lemma on_ts_netmap_ok order peers g d l : NoDup (id <$> peers) -> (forall x, x ∈ order <-> is_Some (ts_peers l !! x)) -> tailnet_ok l g ->
  tailnet_ok (on_ts_netmap order peers g d l).2 (on_ts_netmap order peers g d l).1.1.
Proof.
  intros Hn Ho Hok e. rewrite on_ts_netmap_routes by done. rewrite elem_of_app. intros [He|He] Hs.
  - apply list_elem_of_In, filter_In in He as [_ He]. by rewrite bool_decide_eq_true_2 in He.
  - apply list_elem_of_In, in_concat in He as (es & Hes & He). apply list_elem_of_In, list_elem_of_fmap in Hes as (p & -> & Hp).
    apply list_elem_of_In in He. exists (id p). split.
    + apply list_elem_of_omap in He as (c & _ & Hc). destruct (ends_with "/0" c); [done|]. destruct (parse c); try done. by injection Hc as <-.
    + exists p. cbn [on_ts_netmap snd ts_peers].
      apply (foldl_insert_lookup id Datatypes.id peers Hn ∅ (id p) p); [intros; apply lookup_empty|]. left. by exists p.
Qed.

(** ** Sessions *)

Section Merge.
Context `{T : BgpSession.Tunn}.

(** The session a peer has after a merge: its own, with the new addresses, or a new
    one. *)
Definition merged (old : gmap string PeerSess) (node_priv : list Z) (p : Ts2021Peer) : PeerSess :=
  match old !! id p with
  | Some s => mk_sess (s_key s) (endpoints p) (allowed_ips p) (s_tunnel s)
  | None => new_session node_priv p
  end.

Lemma merge_into_spec peers node_priv old fresh x : NoDup (id <$> peers) ->
  merge_into old fresh peers node_priv !! x =
    match List.find (fun p => bool_decide (id p = x)) peers with Some p => Some (merged old node_priv p) | None => fresh !! x end.
Proof.
  revert old fresh. induction peers as [|p ps IH]; intros old fresh; [done|].
  intros [Hp Hn]%list.NoDup_cons. cbn [merge_into List.find].
  assert (Hstep : forall old' fresh', (forall y, y <> id p -> old' !! y = old !! y) -> (forall y, y <> id p -> fresh' !! y = fresh !! y) ->
    fresh' !! id p = Some (merged old node_priv p) ->
    merge_into old' fresh' ps node_priv !! x =
      match (if bool_decide (id p = x) then Some p else List.find (fun p => bool_decide (id p = x)) ps) with
      | Some p => Some (merged old node_priv p) | None => fresh !! x end).
  { intros old' fresh' Ho Hf Hid. rewrite IH by done. case_bool_decide as Hx.
    - destruct (List.find _ ps) as [q|] eqn:Hq; [|by rewrite <- Hx].
      apply find_some in Hq as [Hq1%list_elem_of_In Hq2%bool_decide_eq_true]. destruct Hp. rewrite Hx, <- Hq2. by apply list_elem_of_fmap_2.
    - destruct (List.find _ ps) as [q|] eqn:Hq; [|apply Hf; congruence].
      apply find_some in Hq as [_ Hq2%bool_decide_eq_true]. unfold merged. rewrite Ho by congruence. done. }
  unfold merged in Hstep. destruct (old !! id p) as [s|] eqn:Hold; apply Hstep; intros;
    by rewrite ?lookup_delete_ne, ?lookup_insert_ne, ?lookup_insert_eq by done.
Qed.

Lemma merge_sessions_spec old peers node_priv x : NoDup (id <$> peers) ->
  merge_sessions old peers node_priv !! x = merged old node_priv <$> List.find (fun p => bool_decide (id p = x)) peers.
Proof. intros Hn. unfold merge_sessions. rewrite merge_into_spec by done. by destruct (List.find _ _). Qed.

Lemma find_peer (peers : list Ts2021Peer) p : NoDup (id <$> peers) -> p ∈ peers ->
  List.find (fun q => bool_decide (id q = id p)) peers = Some p.
Proof.
  induction peers as [|q ps IH]; [set_solver|]. intros [Hq Hn]%list.NoDup_cons. cbn [List.find]. intros [->|Hp]%elem_of_cons.
  - by rewrite bool_decide_eq_true_2.
  - rewrite bool_decide_eq_false_2; [by apply IH|]. intros E. destruct Hq. rewrite E. by apply list_elem_of_fmap_2.
Qed.

(** What a frame of the network map makes of the node.  When the control task
    tells of [peers], the routes of the tailnet become those of the prefixes the
    peers may use, default routes left out, and every other route stays as it was;
    the exits are the peers that offer a default route; and in the data task every
    peer has a session, with its tunnel untouched if it had one, and no one else
    has. *)
Theorem tailnet_installed (order : list string) (peers : list Ts2021Peer) (g : RouteEngine) (d : DefaultRouteResolver) (l : Ts2021Leg)
    (old : gmap string PeerSess) (node_priv : list Z)
    (Hn : NoDup (id <$> peers)) (Ho : forall x, x ∈ order <-> is_Some (ts_peers l !! x)) (Hok : tailnet_ok l g) :
  let '(g', d', l') := on_ts_netmap order peers g d l in
  let ss := merge_sessions old peers node_priv in
  entries (table g') = List.filter (fun e => negb (bool_decide (source e = Tailnet))) (entries (table g)) ++ concat (peer_entries <$> peers) /\
  tailnet_ok l' g' /\
  tailnet_exits d' = id <$> List.filter is_exit peers /\ mesh_exits d' = mesh_exits d /\
  (forall p, p ∈ peers -> has_peer l' (id p) = true /\ ss !! id p = Some (merged old node_priv p)) /\
  (forall p s, p ∈ peers -> old !! id p = Some s -> s_tunnel (merged old node_priv p) = s_tunnel s) /\
  (forall x, x ∉ (id <$> peers) -> has_peer l' x = false /\ ss !! x = None).
Proof.
  pose proof (on_ts_netmap_routes order peers g d l Hn Ho Hok) as Hr.
  pose proof (on_ts_netmap_ok order peers g d l Hn Ho Hok) as Hk.
  pose proof (fun x p => foldl_insert_lookup id Datatypes.id peers Hn ∅ x p (fun _ _ => lookup_empty _)) as Hl.
  destruct (on_ts_netmap order peers g d l) as [[g' d'] l'] eqn:E. injection E as _ <- <-.
  split; [done|]. split; [done|]. split; [done|]. split; [done|]. split; [|split].
  - intros p Hp. unfold has_peer. rewrite merge_sessions_spec, find_peer by done. split; [|done].
    apply bool_decide_eq_true. exists p. apply Hl. left. by exists p.
  - intros p s _ Hs. unfold merged. by rewrite Hs.
  - intros x Hx. rewrite merge_sessions_spec by done. split.
    + apply bool_decide_eq_false. intros [p Hp]. apply Hl in Hp as [(q & Hq & <- & _)|Hp]; [|by rewrite lookup_empty in Hp].
      destruct Hx. by apply list_elem_of_fmap_2.
    + destruct (List.find _ _) as [q|] eqn:Hq; [|done]. apply find_some in Hq as [Hq1%list_elem_of_In <-%bool_decide_eq_true].
      destruct Hx. by apply list_elem_of_fmap_2.
Qed.
End Merge.

(** ** Attempts to connect *)

(** The pauses of [n] failed attempts in a row, in seconds doubled up to five minutes. *)
Definition pauses (n : nat) : list Z := (fun i => Z.min (1000 * 2 ^ Z.of_nat i) CONTROL_BACKOFF_MAX) <$> seq 0 n.

Lemma ctl_failures routables c k n : at_phase c = Connecting -> backoff c = Z.min (1000 * 2 ^ Z.of_nat k) CONTROL_BACKOFF_MAX ->
  exists c', ctl_run routables c (replicate n (Attempt false)) =
    Some (Ok ((fun i => Sleep (Z.min (1000 * 2 ^ Z.of_nat i) CONTROL_BACKOFF_MAX)) <$> seq k n, c')) /\
    at_phase c' = Connecting /\ preferred_derp c' = preferred_derp c /\ snapshot c' = snapshot c /\
    backoff c' = Z.min (1000 * 2 ^ Z.of_nat (k + n)) CONTROL_BACKOFF_MAX.
Proof.
  revert c k. induction n as [|n IH]; intros c k Hp Hb; cbn [replicate ctl_run].
  { exists c. rewrite Nat.add_0_r. done. }
  unfold ctl_step. rewrite Hp. cbn [at_phase].
  destruct (IH (mk_ctl Connecting (Z.min (backoff c * 2) CONTROL_BACKOFF_MAX) (preferred_derp c) (snapshot c) (addrs c)) (S k)) as (c' & Hr & H1 & H2 & H3 & H4).
  - done.
  - cbn [backoff]. rewrite Hb. unfold CONTROL_BACKOFF_MAX. rewrite Nat2Z.inj_succ, Z.pow_succ_r by lia. lia.
  - rewrite Hr. exists c'. cbn [seq fmap list_fmap]. rewrite Hb. replace (k + S n)%nat with (S k + n)%nat by lia. done.
Qed.

(** A lost relay is not looked for again until a full frame comes: a delta leaves the
    preferred region as it is, and hands over no relay. *)
Lemma delta_leaves_relay c m ok routables o c' : mr_peers m = None -> on_netmap c m ok routables = Ok (o, c') ->
  preferred_derp c' = preferred_derp c /\ (forall x, x ∈ o -> exists ps, x = Told ps).
Proof.
  intros Hm. unfold on_netmap. destruct (apply_netmap _ _ _) as [[[told s] a]|e|]; [|destruct e|discriminate]. step.
  rewrite Hm. intros [= <- <-]. split; [done|]. rewrite app_nil_r. destruct told; set_solver.
Qed.

(** ** Samples *)

Definition sample_key (b : Z) : list Z := replicate 32 b.

Definition sample_text (b : Z) : string := String.append "nodekey:" (hex (sample_key b)).

Definition sample_net_peer (n b : Z) (ips : list string) : NetPeer := mk_net_peer (Some n) (sample_text b) [] ips.

Definition sample_peer (n b : Z) (ips : list string) : Ts2021Peer := mk_peer (hex (sample_key b)) n (sample_key b) [] ips.

(** A full frame, then a delta that changes one peer, removes another, and patches
    the key of a third. *)
Example sample_frames :
  let full := mk_map (Some []) (Some [sample_net_peer 1 0x11 ["10.1.0.0/24"]; sample_net_peer 2 0x22 []; sample_net_peer 3 0x33 []]) None None None None in
  let delta := mk_map None None (Some [sample_net_peer 1 0x11 ["10.2.0.0/24"]]) (Some [2]) (Some [mk_patch (Some 3) (Some (sample_text 0x44)) None None]) None in
  match apply_netmap ∅ [] full with
  | Ok (_, s, a) => match apply_netmap s a delta with Ok (told, _, _) => told | _ => None end
  | _ => None
  end = Some [sample_peer 1 0x11 ["10.2.0.0/24"]; sample_peer 3 0x44 []].
Proof. vm_compute. done. Qed.

(** A key of the right length whose characters are not all of one byte stops the
    task: it is cut inside a character.  And a sign is taken for a digit. *)
Example key_inside_character :
  parse_node_public (String.append "nodekey:a" (String (ascii_of_nat 195) (String (ascii_of_nat 169) (hex (replicate 30 0) +:+ "b")))) = Panic.
Proof. vm_compute. done. Qed.

Example key_with_sign : parse_node_public (String.append "nodekey:+f" (hex (replicate 31 0))) = Ok (15 :: replicate 31 0).
Proof. vm_compute. done. Qed.

Definition sample_leg : Ts2021Leg := mk_ts_leg [] 0 [] false [] {[ "aa" := mk_peer "aa" 7 [] [] [] ]}.

Definition sample_engine : RouteEngine := insert engine_new (tailnet_entry (mk_prefix (replicate 16 10) 128 false) "aa").

Lemma tailnet_installed_witness :
  let '(g', d', _) := on_ts_netmap ["aa"] [sample_peer 1 0x11 ["10.1.0.0/24"; "0.0.0.0/0"]] sample_engine (resolver_new []) sample_leg in
  length (entries (table g')) = 1%nat /\ tailnet_exits d' = [hex (sample_key 0x11)].
Proof.
  assert (H : NoDup (id <$> [sample_peer 1 0x11 ["10.1.0.0/24"; "0.0.0.0/0"]])) by apply NoDup_singleton.
  assert (Ho : forall x, x ∈ ["aa"] <-> is_Some (ts_peers sample_leg !! x)).
  { intros x. cbn [ts_peers sample_leg]. rewrite list_elem_of_singleton. split; [intros ->; by rewrite lookup_singleton_eq|].
    intros [y Hy]. by apply lookup_singleton_Some in Hy as [-> _]. }
  assert (Hok : tailnet_ok sample_leg sample_engine).
  { intros e He _. apply list_elem_of_singleton in He as ->. exists "aa". cbn [ts_peers sample_leg]. by rewrite lookup_singleton_eq. }
  pose proof (@tailnet_installed BgpSession.ToyTcp.toy_tunn _ _ _ (resolver_new []) _ ∅ [] H Ho Hok) as W.
  destruct (on_ts_netmap _ _ _ _ _) as [[g' d'] l']. destruct W as (W1 & _ & W2 & _). rewrite W1, W2. split; vm_compute; done.
Defined.
End Tailnet.
