(* ===== verification/TsServer.v ===== *)
(** * The Tailscale-compatible server (rill-ts2021/src/server)

    [TsRegistry]: the registry of registry.rs.  [Netmap]: the frames of netmap.rs as
    JSON values, and their envelope.  [TsControl]: the requests and the long-poll
    stream of control.rs, with the queue a subscriber has at the broadcast channel.
    [Derp]: the relay of derp.rs.  Texts of JSON values are a library's; the clock
    is an argument. *)

From Stdlib Require Import Ascii.
From S2P Require Import Prelude Net Route AuthKey BgpSession Mesh Json Tailnet.

Module TsRegistry.
Import Net Route.

(** ** Announced routes *)

Record RoutesWhitelist := mk_whitelist { wl_prefixes : list Prefix; allow_exit : bool }.

Inductive WhitelistError := DefaultRoute (r : string) | InvalidPrefix (r : string).

Definition is_default (r : string) : bool := bool_decide (r = "0.0.0.0/0") || bool_decide (r = "::/0").

Fixpoint parse_rules (rules : list string) : outcome WhitelistError (list Prefix) :=
  match rules with
  | [] => Ok []
  | r :: rules =>
      if is_default r then Err (DefaultRoute r)
      else match parse r with
           | Ok p => ps ← parse_rules rules; Ok (p :: ps)
           | Err _ => Err (InvalidPrefix r)
           | Panic => Panic
           end
  end.

Definition whitelist_parse (rules : list string) (allow_exit : bool) : outcome WhitelistError RoutesWhitelist :=
  ps ← parse_rules rules; Ok (mk_whitelist ps allow_exit).

Definition approves (w : RoutesWhitelist) (route : string) : bool :=
  if is_default route then allow_exit w
  else match parse route with Ok p => existsb (is_covered_by p) (wl_prefixes w) | _ => false end.

(** ** Nodes *)

Inductive Event := Delta (changed removed : list Z).

Record NodeEntry := mk_node {
  nid : Z;
  machine : list Z;
  node_key : list Z;
  disco_key : list Z;
  hostname : string;
  approved_routes : list string;
  announced_routes : list string;
  endpoints : list string;
  preferred_derp : option Z;
  online : bool;
  suffix : Z;
  created : Z;
  last_seen : Z
}.

Definition addresses (e : NodeEntry) : list string :=
  ["100.64.0." +:+ dec (suffix e) +:+ "/32"; "fd7a:115c:a1e0::" +:+ dec (suffix e) +:+ "/128"].

Inductive RegisterError := BadAuthKey (m : string) | BadNodeKey | NodeKeyTaken.

Record Registry := mk_registry {
  nodes : gmap Z NodeEntry;
  by_machine : gmap (list Z) Z;
  by_node_key : gmap (list Z) Z;
  next_id : Z;
  next_suffix : Z;
  auth_keys : list string;
  whitelist : RoutesWhitelist
}.

Definition registry_new (auth_keys : list string) (w : RoutesWhitelist) : Registry := mk_registry ∅ ∅ ∅ 1 1 auth_keys w.

Definition with_nodes (r : Registry) (m : gmap Z NodeEntry) : Registry :=
  mk_registry m (by_machine r) (by_node_key r) (next_id r) (next_suffix r) (auth_keys r) (whitelist r).

Definition admit_auth_key (r : Registry) (now : Z) (key : string) : outcome RegisterError unit :=
  body ← ok_or (BadAuthKey "not an lrk key") (AuthKey.strip_prefix "lrk-" key);
  '(network, tail) ← ok_or (BadAuthKey "malformed lrk key") (split_once "-" body);
  '(expiry, _) ← ok_or (BadAuthKey "malformed lrk key") (split_once "-" tail);
  expiry ← ok_or (BadAuthKey "malformed lrk expiry") (parse_uint (2 ^ 64 - 1) expiry);
  if bool_decide (expiry <> 0) && bool_decide (expiry < now) then Err (BadAuthKey "expired")
  else if bool_decide (key ∈ auth_keys r) then Ok tt
  else Err (BadAuthKey ("unknown key for network '" +:+ network +:+ "'")).

(** A new registration of a known machine keeps its number and address. *)
Definition renew (e : NodeEntry) (key : list Z) (host : string) (now : Z) : NodeEntry :=
  mk_node (nid e) (machine e) key (replicate 32 0) host [] [] (endpoints e) (preferred_derp e) true (suffix e) (created e) now.

Definition fresh_node (r : Registry) (mach key : list Z) (host : string) (now : Z) : NodeEntry :=
  mk_node (next_id r) mach key (replicate 32 0) host [] [] [] None true (next_suffix r) now now.

(** [register]: the number, the events sent, and the registry.  [next_id] is counted
    without end (64 bits), [next_suffix] in 32 bits. *)
Definition register (r : Registry) (now : Z) (mach key : list Z) (host auth_key : string)
    : outcome RegisterError (Z * list Event * Registry) :=
  _ ← admit_auth_key r now auth_key;
  if match by_node_key r !! key with
     | Some owner => match nodes r !! owner with Some n => negb (bool_decide (machine n = mach)) | None => false end
     | None => false
     end
  then Err NodeKeyTaken
  else
    '(n, r) ← match by_machine r !! mach with
              | Some n =>
                  e ← unwrap (nodes r !! n);
                  Ok (n, mk_registry (<[n := renew e key host now]> (nodes r)) (by_machine r)
                           (<[key := n]> (delete (node_key e) (by_node_key r))) (next_id r) (next_suffix r) (auth_keys r) (whitelist r))
              | None =>
                  let n := next_id r in
                  Ok (n, mk_registry (<[n := fresh_node r mach key host now]> (nodes r)) (<[mach := n]> (by_machine r))
                           (<[key := n]> (by_node_key r)) (next_id r + 1) (wrap 32 (next_suffix r + 1)) (auth_keys r) (whitelist r))
              end;
    Ok (n, [Delta [n] []], r).

Definition node_by_key (r : Registry) (key : list Z) : option Z := by_node_key r !! key.

Definition get (r : Registry) (n : Z) : option NodeEntry := nodes r !! n.

Definition snapshot (r : Registry) : list NodeEntry :=
  sort (fun a b => bool_decide (nid a <= nid b)) (snd <$> map_to_list (nodes r)).

Definition map_updated (w : RoutesWhitelist) (e : NodeEntry) (now : Z) (disco : option (list Z)) (eps routable : list string) (derp : option Z) : NodeEntry :=
  let same := bool_decide (announced_routes e = routable) in
  mk_node (nid e) (machine e) (node_key e) (default (disco_key e) disco) (hostname e)
    (if same then approved_routes e else List.filter (approves w) routable)
    (if same then announced_routes e else routable)
    eps derp true (suffix e) (created e) now.

Definition apply_map_update (r : Registry) (now n : Z) (disco : option (list Z)) (eps routable : list string) (derp : option Z)
    : list Event * Registry :=
  match nodes r !! n with
  | None => ([], r)
  | Some e =>
      let e' := map_updated (whitelist r) e now disco eps routable derp in
      (if decide (approved_routes e' = approved_routes e) then [] else [Delta [n] []], with_nodes r (<[n := e']> (nodes r)))
  end.

Definition set_online (e : NodeEntry) (b : bool) (now : Z) : NodeEntry :=
  mk_node (nid e) (machine e) (node_key e) (disco_key e) (hostname e) (approved_routes e) (announced_routes e)
    (endpoints e) (preferred_derp e) b (suffix e) (created e) now.

Definition mark_online (r : Registry) (now n : Z) (b : bool) : list Event * Registry :=
  match nodes r !! n with
  | None => ([], r)
  | Some e =>
      if decide (online e = b) then ([], r) else ([Delta [n] []], with_nodes r (<[n := set_online e b now]> (nodes r)))
  end.

(** [evict]; [values] lists the nodes as the map is walked. *)
Definition evict (r : Registry) (values : list NodeEntry) (host : string) : bool * list Event * Registry :=
  match List.find (fun e => bool_decide (hostname e = host)) values with
  | None => (false, [], r)
  | Some v =>
      let n := nid v in
      match nodes r !! n with
      | None => (false, [], r)
      | Some e =>
          (true, [Delta [] [n]],
           mk_registry (delete n (nodes r)) (delete (machine e) (by_machine r)) (delete (node_key e) (by_node_key r))
             (next_id r) (next_suffix r) (auth_keys r) (whitelist r))
      end
  end.

(** ** Every operation, and the invariant over them *)

Inductive op :=
| OpRegister (mach key : list Z) (host auth_key : string)
| OpMap (n : Z) (disco : option (list Z)) (eps routable : list string) (derp : option Z)
| OpOnline (n : Z) (b : bool)
| OpEvict (values : list NodeEntry) (host : string).

Definition reg_op (now : Z) (r : Registry) (o : op) : outcome Empty_set (list Event * Registry) :=
  match o with
  | OpRegister mach key host auth =>
      match register r now mach key host auth with
      | Ok (_, evs, r) => Ok (evs, r)
      | Err _ => Ok ([], r)
      | Panic => Panic
      end
  | OpMap n disco eps routable derp => Ok (apply_map_update r now n disco eps routable derp)
  | OpOnline n b => Ok (mark_online r now n b)
  | OpEvict values host => let '(_, evs, r) := evict r values host in Ok (evs, r)
  end.

Definition key_ok (k : list Z) : Prop := length k = 32%nat /\ bytes k.

(** The keys of an operation have the type of the source; a walk over the nodes gives
    nodes. *)
Definition op_ok (r : Registry) (o : op) : Prop :=
  match o with
  | OpRegister _ key _ _ => key_ok key
  | OpEvict values _ => forall e, e ∈ values -> nodes r !! nid e = Some e
  | _ => True
  end.

(** What the registry keeps of a node: its number and address, that it is the node of
    its machine and of its key, and that its routes were announced and approved. *)
Record node_ok (r : Registry) (n : Z) (e : NodeEntry) : Prop := {
  ok_nid : nid e = n;
  ok_range : 1 <= n < next_id r;
  ok_suffix : suffix e = wrap 32 n;
  ok_key : key_ok (node_key e);
  ok_machine : by_machine r !! machine e = Some n;
  ok_node_key : by_node_key r !! node_key e = Some n;
  ok_routes : Forall (fun x => x ∈ announced_routes e /\ approves (whitelist r) x = true) (approved_routes e)
}.

Record reg_ok (r : Registry) : Prop := {
  ok_nodes : forall n e, nodes r !! n = Some e -> node_ok r n e;
  ok_by_machine : forall m n, by_machine r !! m = Some n -> exists e, nodes r !! n = Some e /\ machine e = m;
  ok_by_key : forall k n, by_node_key r !! k = Some n -> exists e, nodes r !! n = Some e /\ node_key e = k;
  ok_next : 1 <= next_id r /\ next_suffix r = wrap 32 (next_id r)
}.

Lemma reg_ok_new keys w : reg_ok (registry_new keys w).
Proof. split; cbn; [by intros ? ? ?%lookup_empty_Some..|]. split; [lia|done]. Qed.

(** A change of one node that leaves number, machine, keys and routes as they must be. *)
Lemma reg_ok_update r n e e' : reg_ok r -> nodes r !! n = Some e -> nid e' = nid e -> suffix e' = suffix e -> machine e' = machine e ->
  node_key e' = node_key e -> Forall (fun x => x ∈ announced_routes e' /\ approves (whitelist r) x = true) (approved_routes e') ->
  reg_ok (with_nodes r (<[n := e']> (nodes r))).
Proof.
  intros Hr He Hid Hsu Hm Hk Hro. pose proof (ok_nodes r Hr n e He) as [? ? ? ? ? ? _].
  split; cbn; [| | |apply Hr].
  - intros m f. destruct (decide (m = n)) as [->|Hne].
    + rewrite lookup_insert_eq. intros [= <-]. split; cbn; by rewrite ?Hid, ?Hsu, ?Hm, ?Hk.
    + rewrite lookup_insert_ne by done. intros Hf. by destruct (ok_nodes r Hr m f Hf); split.
  - intros k m (f & Hf & <-)%(ok_by_machine r Hr). destruct (decide (m = n)) as [->|Hne].
    + exists e'. rewrite lookup_insert_eq. split; [done|congruence].
    + exists f. by rewrite lookup_insert_ne.
  - intros k m (f & Hf & <-)%(ok_by_key r Hr). destruct (decide (m = n)) as [->|Hne].
    + exists e'. rewrite lookup_insert_eq. split; [done|congruence].
    + exists f. by rewrite lookup_insert_ne.
Qed.

Lemma reg_ok_map r now n disco eps routable derp : reg_ok r -> reg_ok (apply_map_update r now n disco eps routable derp).2.
Proof.
  intros Hr. unfold apply_map_update. destruct (nodes r !! n) as [e|] eqn:He; [|done]. cbn [snd].
  apply (reg_ok_update r n e); try done. cbn. case_bool_decide as Hs.
  - apply (ok_routes r n e), (ok_nodes r Hr n e He).
  - apply Forall_forall. intros x Hx. apply filter_In in Hx as [Hx1 Hx2]. by rewrite list_elem_of_In.
Qed.

Lemma reg_ok_online r now n b : reg_ok r -> reg_ok (mark_online r now n b).2.
Proof.
  intros Hr. unfold mark_online. destruct (nodes r !! n) as [e|] eqn:He; [|done]. case_decide; [done|]. cbn [snd].
  apply (reg_ok_update r n e); try done. by destruct (ok_nodes r Hr n e He).
Qed.

Lemma reg_ok_evict r values host : reg_ok r -> (forall e, e ∈ values -> nodes r !! nid e = Some e) -> reg_ok (evict r values host).2.
Proof.
  intros Hr Hv. unfold evict. destruct (List.find _ values) as [v|] eqn:Hf; [|done].
  apply find_some in Hf as [Hin%list_elem_of_In _]. rewrite (Hv v Hin). cbn [snd].
  pose proof (ok_nodes r Hr _ _ (Hv v Hin)) as [? ? ? ? Hm Hk ?].
  assert (Hother : forall m f, m <> nid v -> nodes r !! m = Some f -> machine f <> machine v /\ node_key f <> node_key v).
  { intros m f Hne Hfm. pose proof (ok_nodes r Hr m f Hfm) as [_ _ _ _ H1 H2 _]. split; intros E; congruence. }
  split; cbn; [| | |apply Hr].
  - intros m f [Hne Hfm]%lookup_delete_Some. destruct (Hother m f) as [? ?]; [done..|].
    destruct (ok_nodes r Hr m f Hfm). split; cbn; rewrite ?lookup_delete_ne; done.
  - intros k m [Hne (f & Hfm & <-)%(ok_by_machine r Hr)]%lookup_delete_Some. exists f. rewrite lookup_delete_ne; [done|]. intros <-.
    rewrite (Hv v Hin) in Hfm. congruence.
  - intros k m [Hne (f & Hfm & <-)%(ok_by_key r Hr)]%lookup_delete_Some. exists f. rewrite lookup_delete_ne; [done|]. intros <-.
    rewrite (Hv v Hin) in Hfm. congruence.
Qed.

Lemma reg_ok_renew r n e key host now : reg_ok r -> nodes r !! n = Some e -> key_ok key ->
  (forall m, by_node_key r !! key = Some m -> m = n) ->
  reg_ok (mk_registry (<[n := renew e key host now]> (nodes r)) (by_machine r) (<[key := n]> (delete (node_key e) (by_node_key r)))
            (next_id r) (next_suffix r) (auth_keys r) (whitelist r)).
Proof.
  intros Hr He Hk Hown. pose proof (ok_nodes r Hr n e He) as [? ? ? ? Hm Hkey _].
  assert (Hother : forall m f, m <> n -> nodes r !! m = Some f -> node_key f <> key /\ node_key f <> node_key e).
  { intros m f Hne Hf. pose proof (ok_nodes r Hr m f Hf) as [_ _ _ _ _ H2 _]. split; intros E.
    - destruct Hne. apply Hown. congruence.
    - congruence. }
  split; cbn; [| | |apply Hr].
  - intros m f. destruct (decide (m = n)) as [->|Hne].
    + rewrite lookup_insert_eq. intros [= <-]. split; cbn; try done. by rewrite lookup_insert_eq.
    + rewrite lookup_insert_ne by done. intros Hf. destruct (Hother m f Hne Hf) as [? ?]. destruct (ok_nodes r Hr m f Hf).
      split; cbn; try done. by rewrite lookup_insert_ne, lookup_delete_ne by done.
  - intros k m (f & Hf & <-)%(ok_by_machine r Hr). destruct (decide (m = n)) as [->|Hne].
    + eexists. rewrite lookup_insert_eq. split; [done|]. cbn. congruence.
    + exists f. by rewrite lookup_insert_ne.
  - intros k m. rewrite lookup_insert_Some. intros [[<- <-]|[Hne1 [Hne2 (f & Hf & <-)%(ok_by_key r Hr)]%lookup_delete_Some]].
    + eexists. by rewrite lookup_insert_eq.
    + destruct (decide (m = n)) as [->|Hne]; [congruence|]. exists f. by rewrite lookup_insert_ne.
Qed.

Lemma reg_ok_fresh r mach key host now : reg_ok r -> key_ok key -> by_machine r !! mach = None -> by_node_key r !! key = None ->
  reg_ok (mk_registry (<[next_id r := fresh_node r mach key host now]> (nodes r)) (<[mach := next_id r]> (by_machine r))
            (<[key := next_id r]> (by_node_key r)) (next_id r + 1) (wrap 32 (next_suffix r + 1)) (auth_keys r) (whitelist r)).
Proof.
  intros Hr Hk Hmach Hkey. destruct (ok_next r Hr) as [Hn1 Hn2].
  assert (Hlt : forall m f, nodes r !! m = Some f -> m <> next_id r).
  { intros m f Hf ->. pose proof (ok_range _ _ _ (ok_nodes r Hr _ f Hf)). lia. }
  split; cbn.
  - intros m f. destruct (decide (m = next_id r)) as [->|Hne].
    + rewrite lookup_insert_eq. intros [= <-]. split; cbn; rewrite ?lookup_insert_eq; try done; lia.
    + rewrite lookup_insert_ne by done. intros Hf. destruct (ok_nodes r Hr m f Hf) as [? ? ? ? Hm Hfk ?].
      split; cbn; try done; [lia|..]; rewrite lookup_insert_ne; try done; congruence.
  - intros k m. rewrite lookup_insert_Some. intros [[<- <-]|[_ (f & Hf & <-)%(ok_by_machine r Hr)]].
    + eexists. by rewrite lookup_insert_eq.
    + exists f. rewrite lookup_insert_ne by (by apply not_eq_sym, (Hlt m f)). done.
  - intros k m. rewrite lookup_insert_Some. intros [[<- <-]|[_ (f & Hf & <-)%(ok_by_key r Hr)]].
    + eexists. by rewrite lookup_insert_eq.
    + exists f. rewrite lookup_insert_ne by (by apply not_eq_sym, (Hlt m f)). done.
  - split; [lia|]. rewrite Hn2. unfold wrap. by rewrite Zplus_mod_idemp_l.
Qed.

(** What [register] does to a registry in order: it never stops at the entry it takes
    for granted; it refuses a foreign key; a known machine keeps its entry, a new one
    gets the next number. *)
Lemma register_cases r now mach key host auth : reg_ok r ->
  (exists e, register r now mach key host auth = Err e) \/
  (exists n e, by_machine r !! mach = Some n /\ nodes r !! n = Some e /\ (forall m, by_node_key r !! key = Some m -> m = n) /\
    register r now mach key host auth =
      Ok (n, [Delta [n] []], mk_registry (<[n := renew e key host now]> (nodes r)) (by_machine r)
        (<[key := n]> (delete (node_key e) (by_node_key r))) (next_id r) (next_suffix r) (auth_keys r) (whitelist r))) \/
  (by_machine r !! mach = None /\ by_node_key r !! key = None /\
    register r now mach key host auth =
      Ok (next_id r, [Delta [next_id r] []], mk_registry (<[next_id r := fresh_node r mach key host now]> (nodes r)) (<[mach := next_id r]> (by_machine r))
        (<[key := next_id r]> (by_node_key r)) (next_id r + 1) (wrap 32 (next_suffix r + 1)) (auth_keys r) (whitelist r))).
Proof.
  intros Hr. unfold register. destruct (admit_auth_key r now auth) as [u|e|] eqn:Ha; step; [|eauto|].
  2: { exfalso. revert Ha. unfold admit_auth_key. destruct (AuthKey.strip_prefix _ _) as [b|]; step; [|done].
       destruct (split_once _ b) as [[nw tl]|]; step; [|done]. destruct (split_once _ tl) as [[ex se]|]; step; [|done].
       destruct (parse_uint _ _); step; [|done]. repeat (destruct (_ && _) || case_bool_decide); done. }
  assert (Hkey : forall m, by_node_key r !! key = Some m -> exists f, nodes r !! m = Some f /\ node_key f = key) by (intros; by apply Hr).
  destruct (by_node_key r !! key) as [m|] eqn:Hk.
  - destruct (Hkey m eq_refl) as (f & Hf & Hfk). rewrite Hf. case_bool_decide as Hm; cbn [negb]; [|eauto].
    pose proof (ok_machine _ _ _ (ok_nodes r Hr m f Hf)) as Hbm. rewrite Hm in Hbm. rewrite Hbm, Hf. step.
    right. left. exists m, f. split; [done|]. split; [done|]. split; [congruence|done].
  - destruct (by_machine r !! mach) as [n|] eqn:Hm.
    + destruct (ok_by_machine r Hr mach n Hm) as (e & He & _). rewrite He. step. right. left. exists n, e. done.
    + right. right. done.
Qed.

Lemma reg_ok_register r now mach key host auth n evs r' : reg_ok r -> key_ok key ->
  register r now mach key host auth = Ok (n, evs, r') -> reg_ok r'.
Proof.
  intros Hr Hk. destruct (register_cases r now mach key host auth Hr) as [[e ->]|[(m & e & Hm & He & Hown & ->)|(Hm & Hown & ->)]]; [done|..].
  - intros [= _ _ <-]. by apply reg_ok_renew.
  - intros [= _ _ <-]. by apply reg_ok_fresh.
Qed.

Lemma reg_op_ok now r o : reg_ok r -> op_ok r o -> exists evs r', reg_op now r o = Ok (evs, r') /\ reg_ok r'.
Proof.
  intros Hr Ho. destruct o as [mach key host auth|n disco eps routable derp|n b|values host]; cbn [reg_op].
  - pose proof (fun n evs r' => reg_ok_register r now mach key host auth n evs r' Hr Ho) as H.
    destruct (register_cases r now mach key host auth Hr) as [[e E]|[(m & e & _ & _ & _ & E)|(_ & _ & E)]]; rewrite E in *; eauto.
  - pose proof (reg_ok_map r now n disco eps routable derp Hr). destruct (apply_map_update _ _ _ _ _ _ _). eauto.
  - pose proof (reg_ok_online r now n b Hr). destruct (mark_online _ _ _ _). eauto.
  - pose proof (reg_ok_evict r values host Hr Ho). destruct (evict _ _ _) as [[? ?] ?]. eauto.
Qed.

Inductive reg_step (r : Registry) : Registry -> Prop :=
| RegStep now o evs r' : op_ok r o -> reg_op now r o = Ok (evs, r') -> reg_step r r'.

Lemma reg_op_whitelist now r o evs r' : reg_op now r o = Ok (evs, r') -> whitelist r' = whitelist r.
Proof.
  destruct o as [mach key host auth|n disco eps routable derp|n b|values host]; cbn [reg_op].
  - unfold register. destruct (admit_auth_key _ _ _); step; [|congruence|done].
    destruct (match by_node_key r !! key with Some _ => _ | None => _ end); [by intros [= _ <-]|].
    destruct (by_machine r !! mach) as [n|]; [destruct (nodes r !! n)|]; step; by intros [= _ <-].
  - unfold apply_map_update. destruct (nodes r !! n); by intros [= _ <-].
  - unfold mark_online. destruct (nodes r !! n); [case_decide|]; by intros [= _ <-].
  - unfold evict. destruct (List.find _ _) as [v|]; [destruct (nodes r !! nid v)|]; by intros [= _ <-].
Qed.

Lemma reg_steps_ok keys w r : rtc reg_step (registry_new keys w) r -> reg_ok r /\ whitelist r = w.
Proof.
  intros H. cut (forall a, rtc reg_step a r -> reg_ok a -> reg_ok r /\ whitelist r = whitelist a).
  { intros Hc. by apply (Hc _ H), reg_ok_new. }
  clear. intros a H. induction H as [|a b r [now o evs b' Ho He] _ IH]; [done|]. intros Ha.
  destruct (reg_op_ok now a o Ha Ho) as (evs' & r' & He' & Hr'). rewrite He in He'. injection He' as <- <-.
  destruct (IH Hr') as [? ->]. split; [done|]. by apply (reg_op_whitelist _ _ _ _ _ He).
Qed.

(** C27: the registry of the Tailscale-compatible server is sound after any sequence
    of registrations, map requests, changes of presence and evictions.  No operation
    stops the server; no two nodes share a machine, a node key or, among the first
    [2^32], an address; every route a node is credited with was announced by it and
    is approved by the white list; and a machine that registers again keeps its
    number and its address. *)
Theorem ts_registry_sound (keys : list string) (w : RoutesWhitelist) (r : Registry) (Hr : rtc reg_step (registry_new keys w) r) :
  (forall now o, op_ok r o -> exists evs r', reg_op now r o = Ok (evs, r')) /\
  (forall n m e f, nodes r !! n = Some e -> nodes r !! m = Some f -> n <> m ->
     machine e <> machine f /\ node_key e <> node_key f /\ (next_id r <= 2 ^ 32 -> suffix e <> suffix f)) /\
  (forall n e x, nodes r !! n = Some e -> x ∈ approved_routes e -> x ∈ announced_routes e /\ approves w x = true) /\
  (forall now mach key host auth n e n' evs r', by_machine r !! mach = Some n -> nodes r !! n = Some e ->
     register r now mach key host auth = Ok (n', evs, r') ->
     n' = n /\ exists e', nodes r' !! n = Some e' /\ addresses e' = addresses e /\ node_key e' = key).
Proof.
  destruct (reg_steps_ok keys w r Hr) as [Hok <-]. split; [|split; [|split]].
  - intros now o Ho. destruct (reg_op_ok now r o Hok Ho) as (evs & r' & E & _). eauto.
  - intros n m e f He Hf Hne. destruct (ok_nodes r Hok n e He) as [? ? Hs1 ? Hm1 Hk1 ?]. destruct (ok_nodes r Hok m f Hf) as [? ? Hs2 ? Hm2 Hk2 ?].
    split; [congruence|]. split; [congruence|]. intros Hlt. rewrite Hs1, Hs2. unfold wrap. rewrite !Z.mod_small by lia. done.
  - intros n e x He Hx. pose proof (ok_routes _ _ _ (ok_nodes r Hok n e He)) as Hf. rewrite Forall_forall in Hf. by apply Hf, list_elem_of_In.
  - intros now mach key host auth n e n' evs r' Hm He Hreg.
    destruct (register_cases r now mach key host auth Hok) as [[x E]|[(k & f & Hk & Hf & _ & E)|(Hk & _ & E)]]; rewrite E in Hreg; [done| |congruence].
    injection Hreg as <- _ <-. assert (k = n) as -> by congruence. split; [done|]. eexists. cbn. rewrite lookup_insert_eq. split; [done|]. split; [|done].
    rewrite He in Hf. by injection Hf as <-.
Qed.

(** *** Samples *)

Definition sample_auth : string := "lrk-lab-0-" +:+ String.string_of_list_ascii (replicate 52 "A"%char).

Definition sample_whitelist : RoutesWhitelist := mk_whitelist [mk_prefix ([10; 42] ++ replicate 14 0) 16 true] false.

Definition sample_registry : Registry := registry_new [sample_auth] sample_whitelist.

Definition key32 (b : Z) : list Z := replicate 32 b.

Definition sample_registered : Registry :=
  match reg_op 100 sample_registry (OpRegister (key32 1) (key32 2) "a" sample_auth) with Ok (_, r) => r | _ => sample_registry end.

Lemma sample_reg_step : reg_step sample_registry sample_registered.
Proof.
  apply (RegStep _ 100 (OpRegister (key32 1) (key32 2) "a" sample_auth) [Delta [1] []]); [|vm_compute; done].
  split; [done|]. repeat constructor; lia.
Qed.

Lemma ts_registry_sound_witness :
  exists evs r', reg_op 200 sample_registered (OpRegister (key32 1) (key32 9) "a" sample_auth) = Ok (evs, r').
Proof.
  apply (ts_registry_sound [sample_auth] sample_whitelist sample_registered (rtc_once _ _ sample_reg_step)).
  split; [done|]. repeat constructor; lia.
Defined.

(** Numbers above 255 give no IPv4 address, and those from 10000 no IPv6 address. *)
Example addresses_run_out :
  let a n := addresses (fresh_node (mk_registry ∅ ∅ ∅ n n [] sample_whitelist) [] [] "" 0) in
  (parse <$> a 255, parse <$> a 256, parse <$> a 10000) =
  ([Ok (mk_prefix ([100; 64; 0; 255] ++ replicate 12 0) 32 true); Ok (mk_prefix ([253; 122; 17; 92; 161; 224] ++ replicate 8 0 ++ [2; 85]) 128 false)],
   [Err BadCidr; Ok (mk_prefix ([253; 122; 17; 92; 161; 224] ++ replicate 8 0 ++ [2; 86]) 128 false)],
   [Err BadCidr; Err BadCidr]).
Proof. vm_compute. done. Qed.

(** New endpoints, a new discovery key and a node that is back are told to no one:
    the routes are all that an update is compared by. *)
Lemma silent_update r now n disco eps routable derp e : nodes r !! n = Some e -> announced_routes e = routable ->
  (apply_map_update r now n disco eps routable derp).1 = [].
Proof. intros He Hr. unfold apply_map_update. rewrite He. cbn. rewrite bool_decide_eq_true_2 by done. by rewrite decide_True. Qed.

Lemma back_online_silent r now now' n disco eps routable derp e : nodes r !! n = Some e -> announced_routes e = routable -> online e = false ->
  let '(evs, r') := apply_map_update r now n disco eps routable derp in
  evs = [] /\ (mark_online r' now' n true).1 = [] /\ (online <$> nodes r' !! n) = Some true.
Proof.
  intros He Hr Ho. pose proof (silent_update r now n disco eps routable derp e He Hr) as Hs.
  unfold apply_map_update in *. rewrite He in *. cbn [fst] in Hs. split; [done|]. unfold mark_online. cbn.
  rewrite lookup_insert_eq. cbn. done.
Qed.
End TsRegistry.

Module Netmap.
Import Net Json TsRegistry.

Record NetmapCtx := mk_ctx {
  user : string;
  dns_domain : string;
  domain : string;
  derp_region : Z;
  derp_hostname : string;
  derp_port : Z
}.

(** ** Times *)

(** Year, month and day of a day of an era of 400 years ([i64]; nothing here is
    negative). *)
Definition civil_in (era doe : Z) : Z * Z * Z :=
  let yoe := (doe - doe / 1460 + doe / 36524 - doe / 146096) / 365 in
  let y := yoe + era * 400 in
  let doy := doe - (365 * yoe + yoe / 4 - yoe / 100) in
  let mp := (5 * doy + 2) / 153 in
  let d := doy - (153 * mp + 2) / 5 + 1 in
  let m := if decide (mp < 10) then mp + 3 else mp - 9 in
  (if decide (m <= 2) then y + 1 else y, m, d).

(** The same of a number of days since 1970. *)
Definition civil (days : Z) : Z * Z * Z :=
  let z := days + 719468 in civil_in (z / 146097) (z mod 146097).

(** [{:0w}] of a number that is not negative. *)
Definition pad (w : nat) (z : Z) : string :=
  let s := dec z in String.string_of_list_ascii (replicate (w - String.length s) "0"%char) +:+ s.

Definition rfc3339 (unix : Z) : string :=
  let secs := unix mod 86400 in
  let '(y, m, d) := civil (unix / 86400) in
  pad 4 y +:+ "-" +:+ pad 2 m +:+ "-" +:+ pad 2 d +:+ "T" +:+ pad 2 (secs / 3600) +:+ ":" +:+ pad 2 ((secs / 60) mod 60) +:+ ":" +:+ pad 2 (secs mod 60) +:+ "Z".

Example rfc3339_1 : (rfc3339 0, rfc3339 1800000000, rfc3339 951782400) =
  ("1970-01-01T00:00:00Z", "2027-01-15T08:00:00Z", "2000-02-29T00:00:00Z").
Proof. vm_compute. done. Qed.

(** ** Frames *)

Definition strs (l : list string) : json := JArr (JStr <$> l).

Definition hex : list Z -> string := Tailnet.hex.

Definition node_json (e : NodeEntry) (ctx : NetmapCtx) : json :=
  JObj [
    ("ID", JNum (nid e));
    ("StableID", JStr (dec (nid e)));
    ("Name", JStr (hostname e +:+ "." +:+ user ctx +:+ "." +:+ dns_domain ctx +:+ "."));
    ("User", JNum 1);
    ("Key", JStr ("nodekey:" +:+ hex (node_key e)));
    ("Machine", JStr ("mkey:" +:+ hex (machine e)));
    ("DiscoKey", JStr ("discokey:" +:+ hex (disco_key e)));
    ("Addresses", strs (addresses e));
    ("AllowedIPs", strs (addresses e ++ approved_routes e));
    ("Endpoints", strs (endpoints e));
    ("HomeDERP", JNum (default (derp_region ctx) (preferred_derp e)));
    ("Hostinfo", JObj [("Hostname", JStr (hostname e)); ("RoutableIPs", strs (announced_routes e))]);
    ("Created", JStr (rfc3339 (created e)));
    ("LastSeen", JStr (rfc3339 (last_seen e)));
    ("Cap", JNum 141);
    ("Online", JBool (online e));
    ("MachineAuthorized", JBool true);
    ("PrimaryRoutes", strs (approved_routes e));
    ("CapMap", JObj [
       ("default-auto-update", JArr [JBool false]);
       ("https://tailscale.com/cap/file-sharing", JArr []);
       ("https://tailscale.com/cap/is-admin", JArr []);
       ("https://tailscale.com/cap/ssh", JArr [])])
  ].

Definition derp_map (ctx : NetmapCtx) : json :=
  JObj [("Regions", JObj [(dec (derp_region ctx), JObj [
    ("RegionID", JNum (derp_region ctx));
    ("RegionCode", JStr (derp_hostname ctx));
    ("RegionName", JStr "landscape-rill embedded DERP");
    ("Nodes", JArr [JObj [
       ("Name", JStr (dec (derp_region ctx)));
       ("RegionID", JNum (derp_region ctx));
       ("HostName", JStr (derp_hostname ctx));
       ("DERPPort", JNum (derp_port ctx));
       ("STUNPort", JNum (-1))]])])])].

Definition full_frame (self : NodeEntry) (peers : list NodeEntry) (ctx : NetmapCtx) (now : Z) : json :=
  JObj [
    ("Node", node_json self ctx);
    ("Peers", JArr ((fun p => node_json p ctx) <$> peers));
    ("DERPMap", derp_map ctx);
    ("DNSConfig", JObj [("Domains", strs [dns_domain ctx])]);
    ("Domain", JStr (domain ctx));
    ("PacketFilters", JObj [("base", JArr [JObj [
       ("SrcIPs", strs ["*"]);
       ("DstPorts", JArr [JObj [("IP", JStr "*"); ("Ports", JObj [("First", JNum 0); ("Last", JNum 65535)])]])]])]);
    ("UserProfiles", JArr [JObj [("ID", JNum 1); ("LoginName", JStr (user ctx)); ("DisplayName", JStr (user ctx))]]);
    ("ControlTime", JStr (rfc3339 now))
  ].

Definition delta_frame (changed : list NodeEntry) (removed : list Z) (ctx : NetmapCtx) (now : Z) : json :=
  JObj ([("ControlTime", JStr (rfc3339 now))]
    ++ (if decide (changed = []) then [] else [("PeersChanged", JArr ((fun p => node_json p ctx) <$> changed))])
    ++ (if decide (removed = []) then [] else [("PeersRemoved", JArr (JNum <$> removed))])).

Definition keepalive_frame (now : Z) : json := JObj [("KeepAlive", JBool true); ("ControlTime", JStr (rfc3339 now))].

Definition key_response (noise_pub : list Z) : json := JObj [("publicKey", JStr ("mkey:" +:+ hex noise_pub))].

Definition login (name : string) : list (string * json) := [("ID", JNum 1); ("LoginName", JStr name); ("DisplayName", JStr name)].

Definition register_response_ok (ctx : NetmapCtx) : json :=
  JObj [
    ("User", JObj (login (user ctx) ++ [("ProfilePicURL", JStr ""); ("Roles", JNull); ("LoginProvider", JNull)]));
    ("Login", JObj (login (user ctx)));
    ("NodeKeyExpired", JBool false);
    ("MachineAuthorized", JBool true);
    ("AuthURL", JStr "");
    ("Error", JStr "")
  ].

Definition register_response_err (msg : string) : json :=
  JObj [
    ("User", JObj (login ""));
    ("Login", JObj (login ""));
    ("NodeKeyExpired", JBool false);
    ("MachineAuthorized", JBool false);
    ("AuthURL", JStr "");
    ("Error", JStr msg)
  ].

(** What the client reads of the answer. *)
Record RegisterResponse := mk_response { auth_url : string; error : string; machine_authorized : bool }.

Definition de_register_response (v : json) : option RegisterResponse :=
  _ ← field Some v "User";
  _ ← field Some v "Login";
  _ ← field as_bool v "NodeKeyExpired";
  m ← field as_bool v "MachineAuthorized";
  u ← field as_str v "AuthURL";
  e ← field as_str v "Error";
  Some (mk_response u e m).

Definition is_success (r : RegisterResponse) : bool := bool_decide (error r = "") && bool_decide (auth_url r = "").

(** *** Envelopes; [data] is the text of the value. *)

(** One block of a [zstd] frame, not compressed. *)
Definition zstd_raw_frame (data : list Z) : outcome Empty_set (list Z) :=
  let n := Z.of_nat (length data) in
  if decide (2 ^ 17 <= n) then Panic
  else Ok ([0x28; 0xB5; 0x2F; 0xFD; 0xA0] ++ le_bytes 4 n ++ take 3 (le_bytes 4 (Z.lor (wrap 32 (Z.shiftl n 3)) 1)) ++ data).

Definition frame (data : list Z) (compress : bool) : outcome Empty_set (list Z) :=
  payload ← (if compress then zstd_raw_frame data else Ok data);
  Ok (le_bytes 4 (Z.of_nat (length payload)) ++ payload).

Definition EARLY_PAYLOAD_MAGIC : list Z := [0xff; 0xff; 0xff; 84; 83].

Definition early_payload (data : list Z) : list Z := EARLY_PAYLOAD_MAGIC ++ be_bytes 4 (Z.of_nat (length data)) ++ data.

Definition MAX_EARLY_PAYLOAD_LEN : Z := 64 * 1024.

(** [read_early_payload] of the client, on the bytes that have come in: [None] while
    they are not enough; the text and what follows it. *)
Definition read_early_payload (bs : list Z) : option (outcome unit (list Z * list Z)) :=
  if decide (length bs < 9)%nat then None
  else if decide (take 5 bs <> EARLY_PAYLOAD_MAGIC) then Some (Err tt)
  else
    let len := be_val (take 4 (drop 5 bs)) in
    if decide (MAX_EARLY_PAYLOAD_LEN < len) then Some (Err tt)
    else if decide (Z.of_nat (length (drop 9 bs)) < len) then None
    else Some (Ok (take (Z.to_nat len) (drop 9 bs), drop (Z.to_nat len) (drop 9 bs))).

Lemma read_early data rest : Z.of_nat (length data) <= MAX_EARLY_PAYLOAD_LEN ->
  read_early_payload (early_payload data ++ rest) = Some (Ok (data, rest)).
Proof.
  intros Hl. unfold early_payload, read_early_payload. rewrite <- !app_assoc.
  assert (H4 : length (be_bytes 4 (Z.of_nat (length data))) = 4%nat) by apply length_be_bytes.
  rewrite decide_False by (rewrite !length_app, H4; cbn; lia). rewrite take_app_length', drop_app_length' by done.
  rewrite decide_False by auto. rewrite take_app_length' by done.
  replace (drop 9 (EARLY_PAYLOAD_MAGIC ++ be_bytes 4 (Z.of_nat (length data)) ++ data ++ rest)) with (data ++ rest).
  2: { rewrite <- (drop_drop _ 4 5), (drop_app_length' EARLY_PAYLOAD_MAGIC), drop_app_length' by done. done. }
  rewrite be_val_be_bytes by (unfold MAX_EARLY_PAYLOAD_LEN in Hl; uint). rewrite decide_False by lia.
  rewrite decide_False by (rewrite length_app; lia). by rewrite Nat2Z.id, take_app_length, drop_app_length.
Qed.

(** ** Requests of the client (tailcfg.rs) *)

Definition CURRENT_CAP_VERSION : Z := 141.

Definition register_request (node_key : list Z) (auth_key host : string) : json :=
  JObj [
    ("Version", JNum CURRENT_CAP_VERSION);
    ("NodeKey", JStr ("nodekey:" +:+ hex node_key));
    ("Auth", JObj [("AuthKey", JStr auth_key)]);
    ("Hostinfo", JObj [("Hostname", JStr host)])
  ].

Definition hostinfo (host : string) (derp : option Z) (routable : list string) : json :=
  JObj ([("Hostname", JStr host)]
    ++ match derp with Some d => [("NetInfo", JObj [("PreferredDERP", JNum d)])] | None => [] end
    ++ (if decide (routable = []) then [] else [("RoutableIPs", strs routable)])).

Definition map_request (node_key disco_key : list Z) (host : string) (eps : list string) (stream : bool) (derp : option Z) (routable : list string) : json :=
  JObj [
    ("Version", JNum CURRENT_CAP_VERSION);
    ("NodeKey", JStr ("nodekey:" +:+ hex node_key));
    ("DiscoKey", JStr ("discokey:" +:+ hex disco_key));
    ("Hostinfo", hostinfo host derp routable);
    ("Endpoints", strs eps);
    ("Stream", JBool stream);
    ("OmitPeers", JBool false);
    ("KeepAlive", JBool true)
  ].

Definition map_endpoints_update (node_key disco_key : list Z) (host : string) (eps : list string) (derp : option Z) (routable : list string) : json :=
  JObj [
    ("Version", JNum CURRENT_CAP_VERSION);
    ("NodeKey", JStr ("nodekey:" +:+ hex node_key));
    ("DiscoKey", JStr ("discokey:" +:+ hex disco_key));
    ("Hostinfo", hostinfo host derp routable);
    ("Endpoints", strs eps);
    ("Stream", JBool false);
    ("OmitPeers", JBool true)
  ].
End Netmap.

Module TsControl.
Import Net Json TsRegistry Netmap.

(** ** Requests *)

(** The text of an error, [Display] of [RegisterError]. *)
Definition error_text (e : RegisterError) : string :=
  match e with
  | BadAuthKey m => "auth key rejected: " +:+ m
  | BadNodeKey => "invalid NodeKey"
  | NodeKeyTaken => "node key already registered by another machine"
  end.

(** [Result::ok] of something that may panic. *)
Definition ok {E A} (o : outcome E A) : outcome Empty_set (option A) :=
  match o with Ok a => Ok (Some a) | Err _ => Ok None | Panic => Panic end.

Definition str_at (v : json) (path : list string) : option string := pointer v path ≫= as_str.

(** A status and a body, if any. *)
Inductive response := Status (code : Z) | Answer (body : json) | Stream (n : Z) (compress : bool).

(** [handle_register] after the body was read: [None] when it is no JSON. *)
Definition handle_register (r : Registry) (ctx : NetmapCtx) (now : Z) (mach : list Z) (body : option json)
    : outcome Empty_set (response * list Event * Registry) :=
  match body with
  | None => Ok (Answer (register_response_err "malformed RegisterRequest"), [], r)
  | Some v =>
      key ← match str_at v ["NodeKey"] with Some s => ok (Tailnet.parse_node_public s) | None => Ok None end;
      match key with
      | None => Ok (Answer (register_response_err "invalid NodeKey"), [], r)
      | Some key =>
          let auth_key := default "" (str_at v ["Auth"; "AuthKey"]) in
          let host := match str_at v ["Hostinfo"; "Hostname"] with Some "" | None => "unnamed" | Some h => h end in
          match register r now mach key host auth_key with
          | Ok (_, evs, r) => Ok (Answer (register_response_ok ctx), evs, r)
          | Err e => Ok (Answer (register_response_err (error_text e)), [], r)
          | Panic => Panic
          end
      end
  end.

Record MapRequest := mk_request {
  rq_node_key : list Z;
  rq_disco_key : option (list Z);
  rq_endpoints : list string;
  rq_routable : list string;
  rq_derp : option Z;
  rq_stream : bool;
  rq_compress : bool
}.

Definition strings_at (v : json) (path : list string) : list string :=
  match pointer v path with Some (JArr l) => omap as_str l | _ => [] end.

Definition parse_map_request (body : option json) : outcome Empty_set (option MapRequest) :=
  match body ≫= (fun v => s ← field as_str v "NodeKey"; Some (v, s)) with
  | None => Ok None
  | Some (v, s) =>
      key ← ok (Tailnet.parse_node_public s);
      match key with
      | None => Ok None
      | Some key =>
          disco ← match field as_str v "DiscoKey" with Some s => ok (Tailnet.parse_disco_public s) | None => Ok None end;
          Ok (Some (mk_request key disco (strings_at v ["Endpoints"]) (strings_at v ["Hostinfo"; "RoutableIPs"])
            (d ← pointer v ["Hostinfo"; "NetInfo"; "PreferredDERP"]; d ← as_u64 d; if decide (d < 2 ^ 16) then Some d else None)
            (default false (field as_bool v "Stream"))
            (bool_decide (field as_str v "Compress" = Some "zstd"))))
      end
  end.

(** [handle_map] up to the long poll: the node of the key must be one of the machine
    of the connection. *)
Definition handle_map (r : Registry) (now : Z) (mach : list Z) (body : option json) : outcome Empty_set (response * list Event * Registry) :=
  m ← parse_map_request body;
  match m with
  | None => Ok (Status 400, [], r)
  | Some m =>
      match (n ← node_by_key r (rq_node_key m); e ← get r n; if decide (machine e = mach) then Some n else None) with
      | None => Ok (Status 401, [], r)
      | Some n =>
          let '(evs, r) := apply_map_update r now n (rq_disco_key m) (rq_endpoints m) (rq_routable m) (rq_derp m) in
          Ok (if rq_stream m then Stream n (rq_compress m) else Status 200, evs, r)
      end
  end.

(** *** The server understands the client *)

Lemma omap_strs (l : list string) : omap as_str (JStr <$> l) = l.
Proof. induction l as [|x l IH]; [done|]. cbn. by f_equal. Qed.

Lemma ok_key prefix k : key_ok k -> ok (Tailnet.parse_key_hex prefix (prefix +:+ hex k)) = Ok (Some k).
Proof. intros [Hl Hb]. unfold ok, hex. by rewrite Tailnet.parse_key_hex_text. Qed.

Lemma map_request_parse k d host eps stream derp routable : key_ok k -> key_ok d -> (forall p, derp = Some p -> 0 <= p < 2 ^ 16) ->
  parse_map_request (Some (map_request k d host eps stream derp routable)) = Ok (Some (mk_request k (Some d) eps routable derp stream false)).
Proof.
  intros Hk Hd Hp. unfold parse_map_request, map_request.
  change (Some _ ≫= _) with (Some (map_request k d host eps stream derp routable, "nodekey:" +:+ hex k)). cbv iota.
  unfold Tailnet.parse_node_public. rewrite ok_key by done. step.
  change (field as_str (map_request k d host eps stream derp routable) "DiscoKey") with (Some ("discokey:" +:+ hex d)). cbv iota.
  unfold Tailnet.parse_disco_public. rewrite ok_key by done. step.
  change (strings_at (map_request k d host eps stream derp routable) ["Endpoints"]) with (omap as_str (JStr <$> eps)). rewrite omap_strs.
  assert (Hr : strings_at (map_request k d host eps stream derp routable) ["Hostinfo"; "RoutableIPs"] = routable).
  { unfold strings_at, map_request, hostinfo. destruct derp; case_decide as E; try (rewrite E; reflexivity);
      match goal with |- ?l = _ => change l with (omap as_str (JStr <$> routable)) end; apply omap_strs. }
  rewrite Hr. change (field as_bool (map_request k d host eps stream derp routable) "Stream") with (Some stream).
  change (field as_str (map_request k d host eps stream derp routable) "Compress") with (@None string).
  do 3 f_equal. destruct derp as [p|]; [|unfold map_request, hostinfo; case_decide; reflexivity].
  specialize (Hp p eq_refl). change (pointer _ _) with (Some (JNum p)). cbn. rewrite decide_True by lia. cbn. by rewrite decide_True by lia.
Qed.

(** ** Streams *)

(** The first section of [serve_long_poll]: the initial frame. *)
Definition initial_frame (r : Registry) (ctx : NetmapCtx) (now n : Z) : outcome Empty_set (json * list Event * Registry) :=
  self ← unwrap (get r n);
  let peers := List.filter (fun e => negb (bool_decide (nid e = n))) (snapshot r) in
  let '(evs, r) := mark_online r now n true in
  Ok (full_frame self peers ctx now, evs, r).

Definition snapshot_except (r : Registry) (n : Z) : outcome Empty_set (NodeEntry * list NodeEntry) :=
  self ← unwrap (get r n);
  Ok (self, List.filter (fun e => negb (bool_decide (nid e = n))) (snapshot r)).

(** A receiver of the broadcast channel: what it has not read, and whether it has
    lost some of it. *)
Record Sub := mk_sub { queue : list Event; lagged : bool }.

Definition CHANNEL : nat := 64.

Definition push (s : Sub) (e : Event) : Sub :=
  if decide (length (queue s) < CHANNEL)%nat then mk_sub (queue s ++ [e]) (lagged s)
  else mk_sub (tail (queue s) ++ [e]) true.

(** One turn of the loop on [events.recv()]: a frame to send, if any; [None] when
    there is nothing to read. *)
Definition on_event (r : Registry) (ctx : NetmapCtx) (now n : Z) (s : Sub) : option (outcome Empty_set (option json * Sub)) :=
  if lagged s then
    Some ('(self, peers) ← snapshot_except r n; Ok (Some (full_frame self peers ctx now), mk_sub (queue s) false))
  else
    match queue s with
    | [] => None
    | Delta changed removed :: q =>
        let changed := List.filter (fun c => negb (bool_decide (c = n))) changed in
        if bool_decide (changed = []) && bool_decide (removed = []) then Some (Ok (None, mk_sub q false))
        else Some (Ok (Some (delta_frame (omap (get r) changed) removed ctx now), mk_sub q false))
    end.
End TsControl.

Module TsConfig.
Import Net TsRegistry.

(** ** The configuration of the server (server/mod.rs), as far as it is checked *)

Record ServerConfig := mk_config {
  network : string;
  cfg_hostname : string;
  listen_addr : string;
  cfg_auth_keys : list string;
  routes_whitelist : list string;
  cfg_allow_exit : bool
}.

Inductive ConfigError := BadListenAddr | EmptyHostname | BadWhitelist | NotLrk | MalformedKey | OtherNetwork | MalformedExpiry.

(** The expiry of a key that is configured. *)
Definition check_key (net k : string) : outcome ConfigError Z :=
  body ← ok_or NotLrk (AuthKey.strip_prefix "lrk-" k);
  '(network, tail) ← ok_or MalformedKey (split_once "-" body);
  if decide (network <> net) then Err OtherNetwork
  else ok_or MalformedExpiry ('(e, _) ← split_once "-" tail; parse_uint (2 ^ 64 - 1) e).

Fixpoint check_keys (net : string) (ks : list string) : outcome ConfigError unit :=
  match ks with
  | [] => Ok tt
  | k :: ks => _ ← check_key net k; check_keys net ks
  end.

Definition validate (c : ServerConfig) : outcome ConfigError unit :=
  _ ← ok_or BadListenAddr (parse_socket (listen_addr c));
  if decide (cfg_hostname c = "") then Err EmptyHostname
  else
    match whitelist_parse (routes_whitelist c) (cfg_allow_exit c) with
    | Ok _ => check_keys (network c) (cfg_auth_keys c)
    | Err _ => Err BadWhitelist
    | Panic => Panic
    end.

Definition derp_port (c : ServerConfig) : Z := match parse_socket (listen_addr c) with Some (_, p) => p | None => 8443 end.

(** The registry a valid configuration starts with. *)
Definition from_config (c : ServerConfig) : outcome ConfigError Registry :=
  _ ← validate c;
  match whitelist_parse (routes_whitelist c) (cfg_allow_exit c) with
  | Ok w => Ok (registry_new (cfg_auth_keys c) w)
  | Err _ => Err BadWhitelist
  | Panic => Panic
  end.

(** A key of a valid configuration admits until it expires. *)
Lemma check_keys_in net ks k : check_keys net ks = Ok tt -> k ∈ ks -> exists e, check_key net k = Ok e.
Proof.
  induction ks as [|x ks IH]; [set_solver|]. cbn [check_keys]. destruct (check_key net x) as [e| |] eqn:E; step; [|done..].
  intros H [->|Hk]%elem_of_cons; [eauto|auto].
Qed.

(** A server that starts from a configuration admits with every key of it, until
    the time the key names, and with no other key. *)
Theorem configured_keys_admit (c : ServerConfig) (r : Registry) (k : string) (now : Z) (Hc : from_config c = Ok r) :
  (k ∈ cfg_auth_keys c -> exists e, check_key (network c) k = Ok e /\ (e = 0 \/ now <= e -> admit_auth_key r now k = Ok tt)) /\
  (k ∉ cfg_auth_keys c -> exists m, admit_auth_key r now k = Err (BadAuthKey m)).
Proof.
  unfold from_config in Hc. destruct (validate c) as [[]|e|] eqn:Hv; step in Hc; [|done..].
  assert (Hr : auth_keys r = cfg_auth_keys c /\ check_keys (network c) (cfg_auth_keys c) = Ok tt).
  { unfold validate in Hv. destruct (parse_socket _); step in Hv; [|done]. case_decide; [done|].
    destruct (whitelist_parse _ _); [|done..]. by injection Hc as <-. }
  destruct Hr as [Hkeys Hck]. split.
  - intros Hk. destruct (check_keys_in _ _ k Hck Hk) as [e He]. exists e. split; [done|]. intros Hexp.
    unfold check_key in He. unfold admit_auth_key. destruct (AuthKey.strip_prefix "lrk-" k) as [b|]; step in He; [|done]. step.
    destruct (split_once "-" b) as [[net tl]|]; step in He; [|done]. step. case_decide; [done|].
    destruct (split_once "-" tl) as [[ex se]|]; step in He; [|done]. step. destruct (parse_uint _ ex) as [v|]; step in He; [|done].
    injection He as ->. step. rewrite Hkeys, (bool_decide_eq_true_2 (k ∈ _)) by done.
    destruct Hexp as [->|Hle]; [done|]. rewrite (bool_decide_eq_false_2 (e < now)) by lia. by rewrite andb_false_r.
  - intros Hk. unfold admit_auth_key. destruct (AuthKey.strip_prefix "lrk-" k) as [b|]; step; [|eauto].
    destruct (split_once "-" b) as [[net tl]|]; step; [|eauto]. destruct (split_once "-" tl) as [[ex se]|]; step; [|eauto].
    destruct (parse_uint _ ex); step; [|eauto]. rewrite Hkeys, (bool_decide_eq_false_2 (k ∈ _)) by done. destruct (_ && _); eauto.
Qed.

Lemma configured_keys_admit_witness : exists e, check_key "lab" sample_auth = Ok e /\ (e = 0 \/ 5 <= e ->
  admit_auth_key (registry_new [sample_auth] (mk_whitelist [] false)) 5 sample_auth = Ok tt).
Proof.
  apply (configured_keys_admit (mk_config "lab" "h" "10.0.0.1:443" [sample_auth] [] false)); [vm_compute; done|].
  cbn. left.
Defined.
End TsConfig.
