(* ===== verification/TsSync.v ===== *)
(** * From the registry of the server to the peers of a client

    A stream of the Tailscale-compatible server (rill-ts2021/src/server/control.rs)
    and the control task of a node at its other end
    (rill-node/src/runtime/ts2021.rs) together: the frames the server makes are
    decoded and applied by the client, while the registry goes on changing.  Once
    the stream has caught up, what the client holds is what the registry holds. *)

From stdpp Require Import relations.
From S2P Require Import Prelude Net Route AuthKey BgpSession Mesh Json Tailnet TsServer.

Module TsSync.
Import Json TsRegistry Netmap TsControl.

(** ** Frames, decoded *)

Definition net_peer_of (e : NodeEntry) : Tailnet.NetPeer :=
  Tailnet.mk_net_peer (Some (nid e)) ("nodekey:" +:+ hex (node_key e)) (endpoints e) (addresses e ++ approved_routes e).

Definition peer_of (e : NodeEntry) : Tailnet.Ts2021Peer :=
  Tailnet.mk_peer (hex (node_key e)) (nid e) (node_key e) (Tailnet.parse_endpoints (endpoints e)) (addresses e ++ approved_routes e).

Definition i64 (n : Z) : Prop := - 2 ^ 63 <= n < 2 ^ 63.

Lemma de_i64_num n : i64 n -> de_i64 (JNum n) = Some n.
Proof. intros H. cbn. by rewrite decide_True. Qed.

Lemma de_node e ctx : i64 (nid e) -> Tailnet.de_net_peer (node_json e ctx) = Some (net_peer_of e).
Proof.
  intros Hi. unfold Tailnet.de_net_peer. change (field_or None (de_option de_i64) (node_json e ctx) "ID") with (Some <$> de_i64 (JNum (nid e))).
  rewrite de_i64_num by done. cbn [fmap option_fmap option_map mbind option_bind].
  change (field as_str (node_json e ctx) "Key") with (Some ("nodekey:" +:+ hex (node_key e))). cbn [mbind option_bind].
  change (field_or [] (de_vec as_str) (node_json e ctx) "Endpoints") with (de_vec as_str (JArr (JStr <$> endpoints e))).
  rewrite de_strs. cbn [mbind option_bind].
  change (field_or [] (de_vec as_str) (node_json e ctx) "AllowedIPs") with (de_vec as_str (JArr (JStr <$> (addresses e ++ approved_routes e)))).
  rewrite de_strs. done.
Qed.

Lemma de_nodes es ctx : Forall (fun e => i64 (nid e)) es ->
  de_vec Tailnet.de_net_peer (JArr ((fun p => node_json p ctx) <$> es)) = Some (net_peer_of <$> es).
Proof.
  intros H. unfold de_vec. rewrite mapM_fmap. apply mapM_all. intros e He. apply de_node.
  rewrite Forall_forall in H. by apply H, list_elem_of_In.
Qed.

Lemma de_full self peers ctx now : Forall (fun e => i64 (nid e)) peers ->
  Tailnet.de_map_response (full_frame self peers ctx now) =
    Some (Tailnet.mk_map (Some (addresses self)) (Some (net_peer_of <$> peers)) None None None (Some (derp_map ctx))).
Proof.
  intros Hp. unfold Tailnet.de_map_response.
  change (field_or None (de_option Tailnet.de_net_node) (full_frame self peers ctx now) "Node")
    with (Some <$> de_vec as_str (JArr (JStr <$> addresses self))).
  rewrite de_strs. cbn [fmap option_fmap option_map mbind option_bind].
  change (field_or None (de_option (de_vec Tailnet.de_net_peer)) (full_frame self peers ctx now) "Peers")
    with (Some <$> de_vec Tailnet.de_net_peer (JArr ((fun p => node_json p ctx) <$> peers))).
  rewrite de_nodes by done. done.
Qed.



Lemma frame_peers_of es synth : Forall (fun e => key_ok (node_key e)) es ->
  Tailnet.frame_peers synth (net_peer_of <$> es) = Ok (peer_of <$> es, synth).
Proof.
  induction es as [|e es IH]; [done|]. intros [[Hl Hb] Hes]%Forall_cons_1. cbn [fmap list_fmap Tailnet.frame_peers].
  unfold Tailnet.parse_node_public. cbn [Tailnet.np_key net_peer_of]. unfold hex at 1. rewrite Tailnet.parse_key_hex_text by done.
  cbn [Tailnet.np_nid net_peer_of]. rewrite IH by done. done.
Qed.

(** ** The client *)

Record Client := mk_client { snap : Tailnet.Snapshot; addrs : list string }.

(** A frame from the stream ([next_netmap], then [apply_netmap]); [Err] ends it. *)
Definition client_frame (c : Client) (v : json) : outcome unit Client :=
  match Tailnet.de_map_response v with
  | None => Err tt
  | Some m =>
      if Tailnet.has_netmap_data m
      then match Tailnet.apply_netmap (snap c) (addrs c) m with
           | Ok (_, s, a) => Ok (mk_client s a)
           | Err e => match e with end
           | Panic => Panic
           end
      else Ok c
  end.

Definition entry_ok (e : NodeEntry) : Prop := i64 (nid e) /\ key_ok (node_key e).

Lemma entry_ok_parts es : Forall entry_ok es -> Forall (fun e => i64 (nid e)) es /\ Forall (fun e => key_ok (node_key e)) es.
Proof. rewrite !Forall_forall. intros H. split; intros e He; by apply H. Qed.

Lemma client_full c self peers ctx now : Forall entry_ok peers ->
  client_frame c (full_frame self peers ctx now) = Ok (mk_client (Tailnet.full_snapshot (peer_of <$> peers)) (addresses self)).
Proof.
  intros [H1 H2]%entry_ok_parts. unfold client_frame. rewrite de_full by done. cbn. rewrite frame_peers_of by done. done.
Qed.

Lemma full_snapshot_lookup es n : NoDup (nid <$> es) ->
  Tailnet.full_snapshot (peer_of <$> es) !! n = peer_of <$> List.find (fun e => bool_decide (nid e = n)) es.
Proof.
  intros Hn. unfold Tailnet.full_snapshot. apply option_eq. intros p.
  assert (Hn' : NoDup (Tailnet.nid <$> (peer_of <$> es))) by (by rewrite <- list_fmap_compose).
  rewrite (foldl_insert_lookup Tailnet.nid Datatypes.id _ Hn' ∅ n p); [|intros; apply lookup_empty]. split.
  - intros [(q & (e & -> & He)%list_elem_of_fmap & <- & <-)|H]; [|by rewrite lookup_empty in H].
    cbn [Tailnet.nid peer_of Datatypes.id]. destruct (List.find _ es) as [f|] eqn:Hf.
    + apply find_some in Hf as [Hf%list_elem_of_In Hid%bool_decide_eq_true]. cbn. do 2 f_equal.
      apply list_elem_of_lookup in He as [i Hi], Hf as [j Hj].
      assert (i = j) as -> by (eapply (NoDup_lookup (nid <$> es)); [done|rewrite list_lookup_fmap, Hi; done|rewrite list_lookup_fmap, Hj; cbn; congruence]).
      congruence.
    + eapply find_none in Hf; [|by apply list_elem_of_In]. by rewrite bool_decide_eq_true_2 in Hf.
  - destruct (List.find _ es) as [f|] eqn:Hf; [|done]. intros [= <-]. left. apply find_some in Hf as [Hf%list_elem_of_In Hid%bool_decide_eq_true].
    exists (peer_of f). split; [by apply list_elem_of_fmap_2|done].
Qed.




(** ** The two together *)

(** What the routes and the sessions of the client are made of; the endpoints are not
    part of it. *)
Definition view (p : Tailnet.Ts2021Peer) : Z * list Z * list string := (Tailnet.nid p, Tailnet.key p, Tailnet.allowed_ips p).

Definition node_view (e : NodeEntry) : Z * list Z * list string := view (peer_of e).

Definition agree (c : Client) (r : Registry) (m : Z) : Prop := view <$> snap c !! m = node_view <$> nodes r !! m.

Record Sys := mk_sys { reg : Registry; sub : Sub; client : Client }.

(** ** What an operation of the registry tells *)

Definition changes (e : Event) : list Z := let 'Delta c _ := e in c.
Definition removes (e : Event) : list Z := let 'Delta _ r := e in r.
Definition mentions (e : Event) : list Z := changes e ++ removes e.

Record op_effect (r : Registry) (evs : list Event) (r' : Registry) : Prop := {
  eff_one : evs = [] \/ exists e, evs = [e];
  eff_view : forall m, (forall e, e ∈ evs -> m ∉ mentions e) -> node_view <$> nodes r' !! m = node_view <$> nodes r !! m;
  eff_removed : forall e m, e ∈ evs -> m ∈ removes e -> nodes r' !! m = None /\ 1 <= m < next_id r';
  eff_changed : forall e m, e ∈ evs -> m ∈ changes e -> is_Some (nodes r' !! m);
  eff_gone : forall m, is_Some (nodes r !! m) -> nodes r' !! m = None -> exists e, e ∈ evs /\ m ∈ removes e;
  eff_next : next_id r <= next_id r';
  eff_stays : forall m, nodes r !! m = None -> m < next_id r -> nodes r' !! m = None
}.

Lemma effect_none r : op_effect r [] r.
Proof.
  split; try done; [by left|intros ? ? ?%elem_of_nil; done..|]. intros m [e He] Hn. congruence.
Qed.

(** One node changed, told of when its view did. *)
Lemma effect_update r n e e' (evs : list Event) : nodes r !! n = Some e -> evs = [Delta [n] []] \/ (evs = [] /\ node_view e' = node_view e) ->
  op_effect r evs (with_nodes r (<[n := e']> (nodes r))).
Proof.
  intros He Hev.
  assert (Hsome : forall m, <[n := e']> (nodes r) !! m = None -> nodes r !! m = None).
  { intros m [H _]%lookup_insert_None. done. }
  split; cbn; try lia.
  - destruct Hev as [->|[-> _]]; eauto.
  - intros m Hm. destruct (decide (m = n)) as [->|Hne]; [|by rewrite lookup_insert_ne].
    rewrite lookup_insert_eq, He. destruct Hev as [->|[-> Hv]]; [|cbn; congruence].
    destruct (Hm (Delta [n] [])); set_solver.
  - intros x m Hx Hm. destruct Hev as [->|[-> _]]; [apply list_elem_of_singleton in Hx as ->|]; set_solver.
  - intros x m Hx Hm. destruct Hev as [->|[-> _]]; [|set_solver]. apply list_elem_of_singleton in Hx as ->. apply list_elem_of_singleton in Hm as ->.
    by rewrite lookup_insert_eq.
  - intros m [f Hf] Hn%Hsome. congruence.
  - intros m Hm _. rewrite lookup_insert_ne; congruence.
Qed.

Lemma effect_renew r n e e' byk : nodes r !! n = Some e ->
  op_effect r [Delta [n] []] (mk_registry (<[n := e']> (nodes r)) (by_machine r) byk (next_id r) (next_suffix r) (auth_keys r) (whitelist r)).
Proof. intros He. destruct (effect_update r n e e' [Delta [n] []] He (or_introl eq_refl)). by split. Qed.

Lemma effect_fresh r e bym byk k s : reg_ok r -> nid e = next_id r -> k = next_id r + 1 ->
  op_effect r [Delta [next_id r] []] (mk_registry (<[next_id r := e]> (nodes r)) bym byk k s (auth_keys r) (whitelist r)).
Proof.
  intros Hr Hid ->. split; cbn; try lia.
  - eauto.
  - intros m Hm. rewrite lookup_insert_ne; [done|]. intros <-. destruct (Hm (Delta [next_id r] [])); set_solver.
  - intros x m ->%list_elem_of_singleton. set_solver.
  - intros x m ->%list_elem_of_singleton ->%list_elem_of_singleton. by rewrite lookup_insert_eq.
  - intros m [f Hf] [Hn _]%lookup_insert_None. congruence.
  - intros m Hm Hlt. rewrite lookup_insert_ne by lia. done.
Qed.

Lemma effect_evict r n e bym byk : reg_ok r -> nodes r !! n = Some e ->
  op_effect r [Delta [] [n]] (mk_registry (delete n (nodes r)) bym byk (next_id r) (next_suffix r) (auth_keys r) (whitelist r)).
Proof.
  intros Hr He. pose proof (ok_range _ _ _ (ok_nodes r Hr n e He)). split; cbn; try lia.
  - eauto.
  - intros m Hm. rewrite lookup_delete_ne; [done|]. intros <-. destruct (Hm (Delta [] [n])); set_solver.
  - intros x m ->%list_elem_of_singleton ->%list_elem_of_singleton. by rewrite lookup_delete_eq.
  - intros x m ->%list_elem_of_singleton. set_solver.
  - intros m [f Hf] [->|Hn]%lookup_delete_None; [|congruence]. exists (Delta [] [m]). split; set_solver.
  - intros m Hm _. apply lookup_delete_None. by right.
Qed.

Lemma reg_op_effect now r o evs r' : reg_ok r -> op_ok r o -> reg_op now r o = Ok (evs, r') -> op_effect r evs r'.
Proof.
  intros Hr Ho. destruct o as [mach key host auth|n disco eps routable derp|n b|values host]; cbn [reg_op].
  - destruct (register_cases r now mach key host auth Hr) as [[e ->]|[(m & e & _ & He & _ & ->)|(_ & _ & ->)]]; intros [= <- <-].
    + apply effect_none.
    + by eapply effect_renew.
    + by apply effect_fresh.
  - unfold apply_map_update. destruct (nodes r !! n) as [e|] eqn:He; intros [= <- <-]; [|apply effect_none].
    eapply effect_update; [done|]. case_decide as Hd; [right|by left]. split; [done|].
    transitivity (nid e, node_key e, addresses e ++ approved_routes (map_updated (whitelist r) e now disco eps routable derp)); [done|].
    apply (f_equal (fun x => (nid e, node_key e, addresses e ++ x))), Hd.
  - unfold mark_online. destruct (nodes r !! n) as [e|] eqn:He; [case_decide|]; intros [= <- <-]; [apply effect_none| |apply effect_none].
    eapply effect_update; eauto.
  - unfold evict. destruct (List.find _ values) as [v|] eqn:Hf; [|intros [= <- <-]; apply effect_none].
    apply find_some in Hf as [Hin%list_elem_of_In _]. cbn in Ho. rewrite (Ho v Hin). intros [= <- <-]. by eapply effect_evict, Ho.
Qed.

Section Stream.
(** The node at the other end. *)
Context (n : Z) (ctx : NetmapCtx).


(** The stream opens and is subscribed with nothing in between. *)
Definition opened (now : Z) (r0 : Registry) (c0 : Client) (s : Sys) : Prop :=
  exists v evs, initial_frame r0 ctx now n = Ok (v, evs, reg s) /\ client_frame c0 v = Ok (client s) /\ sub s = mk_sub [] false.

(** All that is pending, event by event, with the registry left alone. *)
Fixpoint catch_up (fuel : nat) (now : Z) (s : Sys) : outcome unit Sys :=
  match on_event (reg s) ctx now n (sub s), fuel with
  | None, _ => Ok s
  | Some _, O => Err tt
  | Some (Ok (v, sub')), S fuel =>
      c ← match v with Some v => client_frame (client s) v | None => Ok (client s) end;
      catch_up fuel now (mk_sys (reg s) sub' c)
  | Some (Err e), _ => match e with end
  | Some Panic, _ => Panic
  end.

(** The invariant: what no pending event mentions agrees; a removed node is gone for
    good; a change of a node that is gone is followed by its removal. *)
Record sync (s : Sys) : Prop := {
  sync_reg : reg_ok (reg s);
  sync_width : next_id (reg s) < 2 ^ 63;
  sync_self : snap (client s) !! n = None;
  sync_agree : lagged (sub s) = false -> forall m, m <> n -> (forall e, e ∈ queue (sub s) -> m ∉ mentions e) -> agree (client s) (reg s) m;
  sync_removed : forall e m, e ∈ queue (sub s) -> m ∈ removes e -> nodes (reg s) !! m = None /\ 1 <= m < next_id (reg s);
  sync_gone : forall q1 e q2 m, queue (sub s) = q1 ++ e :: q2 -> m ∈ changes e -> nodes (reg s) !! m = None ->
    exists e', e' ∈ q2 /\ m ∈ removes e'
}.

(** *** The invariant is kept *)



(** The nodes told of in a full frame. *)
Definition others (r : Registry) : list NodeEntry := List.filter (fun e => negb (bool_decide (nid e = n))) (snapshot r).

Lemma elem_of_others r e : reg_ok r -> e ∈ others r <-> nodes r !! nid e = Some e /\ nid e <> n.
Proof.
  intros Hr. unfold others. rewrite list_elem_of_In, filter_In, <- list_elem_of_In. rewrite negb_true_iff, bool_decide_eq_false.
  unfold snapshot. rewrite elem_of_sort, list_elem_of_fmap. split.
  - intros [([m f] & -> & H%elem_of_map_to_list) Hne]. cbn in *. pose proof (ok_nid _ _ _ (ok_nodes r Hr m f H)) as E. rewrite E in *. done.
  - intros [H Hne]. split; [|done]. exists (nid e, e). split; [done|]. by apply elem_of_map_to_list.
Qed.

Lemma nodup_others r : reg_ok r -> NoDup (nid <$> others r).
Proof.
  intros Hr. assert (Hs : NoDup (nid <$> snapshot r)).
  { unfold snapshot. rewrite (sort_perm _ _), <- list_fmap_compose.
    assert (Hk : (nid ∘ snd <$> map_to_list (nodes r)) = (fst <$> map_to_list (nodes r))).
    { apply list_fmap_ext. intros i [m f] H%list_elem_of_lookup_2%elem_of_map_to_list. cbn. by destruct (ok_nodes r Hr m f H). }
    rewrite Hk. apply NoDup_fst_map_to_list. }
  unfold others. revert Hs. generalize (snapshot r). induction l as [|e l IH]; [done|]. cbn [fmap list_fmap List.filter].
  intros [H1 H2]%list.NoDup_cons. destruct (negb _); [|by apply IH]. cbn. apply list.NoDup_cons. split; [|by apply IH].
  intros (f & Hf & Hin)%list_elem_of_fmap. apply list_elem_of_In, filter_In in Hin as [Hin%list_elem_of_In _].
  destruct H1. rewrite Hf. by apply list_elem_of_fmap_2.
Qed.

Lemma entries_ok r (es : list NodeEntry) : reg_ok r -> next_id r < 2 ^ 63 -> (forall e, e ∈ es -> nodes r !! nid e = Some e) -> Forall entry_ok es.
Proof.
  intros Hr Hw H. apply Forall_forall. intros e He%list_elem_of_In. destruct (ok_nodes r Hr _ e (H e He)) as [? ? ? ? _ _ _].
  split; [|done]. unfold i64. lia.
Qed.

Lemma full_agree r self now c : reg_ok r -> next_id r < 2 ^ 63 ->
  exists c', client_frame c (full_frame self (others r) ctx now) = Ok c' /\ snap c' !! n = None /\ forall m, m <> n -> agree c' r m.
Proof.
  intros Hr Hw. rewrite client_full; [|apply (entries_ok r); [done..|]; by intros e [? _]%elem_of_others].
  eexists. split; [done|]. cbn [snap].
  assert (Hf : forall m, List.find (fun e => bool_decide (nid e = m)) (others r) = if decide (m = n) then None else nodes r !! m).
  { intros m. destruct (List.find _ (others r)) as [e|] eqn:Hf.
    - apply find_some in Hf as [He%list_elem_of_In Hm%bool_decide_eq_true]. apply elem_of_others in He as [He Hne]; [|done].
      rewrite decide_False by congruence. congruence.
    - case_decide; [done|]. destruct (nodes r !! m) as [e|] eqn:He; [|done]. pose proof (ok_nid _ _ _ (ok_nodes r Hr m e He)) as Hid.
      assert (Hin : e ∈ others r) by (apply elem_of_others; [done|]; by rewrite Hid).
      apply list_elem_of_In, (find_none _ _ Hf) in Hin. by rewrite bool_decide_eq_true_2 in Hin. }
  pose proof (nodup_others r Hr). split.
  - rewrite full_snapshot_lookup, Hf, decide_True by done. done.
  - intros m Hne. unfold agree. cbn [snap]. rewrite full_snapshot_lookup, Hf, decide_False by done. by destruct (nodes r !! m).
Qed.



Lemma sync_opened now r0 c0 s : reg_ok r0 -> next_id r0 < 2 ^ 63 -> opened now r0 c0 s -> sync s.
Proof.
  intros Hr Hw (v & evs & Hi & Hc & Hsub). unfold initial_frame in Hi. destruct (get r0 n) as [self|] eqn:Hn; step in Hi; [|done].
  pose proof (reg_ok_online r0 now n true Hr) as Hr'.
  pose proof (reg_op_effect now r0 (OpOnline n true)) as Heff. cbn [reg_op] in Heff.
  destruct (mark_online r0 now n true) as [evs' r'] eqn:Hm. injection Hi as Hv _ Hreg. cbn [snd] in Hr'.
  specialize (Heff evs' r' Hr I eq_refl).
  assert (Hvw : forall m, node_view <$> nodes r' !! m = node_view <$> nodes r0 !! m /\ next_id r' = next_id r0).
  { intros m. unfold mark_online in Hm. unfold get in Hn. rewrite Hn in Hm. case_decide; injection Hm as _ <-; [done|]. cbn. split; [|done].
    destruct (decide (m = n)) as [->|Hne]; [by rewrite lookup_insert_eq, Hn|by rewrite lookup_insert_ne]. }
  destruct (full_agree r0 self now c0 Hr Hw) as (c' & Hc' & Hself & Hag). rewrite <- Hv in Hc. unfold others in Hc'. rewrite Hc' in Hc. injection Hc as Hc.
  split; rewrite ?Hsub; cbn; rewrite <- ?Hreg, <- ?Hc; try done.
  - by rewrite (proj2 (Hvw 0)).
  - intros _ m Hne _. unfold agree. rewrite (proj1 (Hvw m)). by apply Hag.
  - set_solver.
  - by intros [|].
Qed.





(** Between the initial frame and the subscription nothing is recorded: an operation
    that falls there and changes what is to be told of a node leaves the client
    without it, with nothing pending. *)
Theorem gap_loses (now now' : Z) (r0 r1 r2 : Registry) (c0 c1 : Client) (v : json) (evs evs' : list Event) (o : op) (m : Z)
    (Hr : reg_ok r0) (Hw : next_id r0 < 2 ^ 63) (Hi : initial_frame r0 ctx now n = Ok (v, evs, r1)) (Hc : client_frame c0 v = Ok c1)
    (Ho : reg_op now' r1 o = Ok (evs', r2)) (Hm : m <> n) (Hd : node_view <$> nodes r2 !! m <> node_view <$> nodes r1 !! m) :
  let s := mk_sys r2 (mk_sub [] false) c1 in
  catch_up 0 now' s = Ok s /\ view <$> snap c1 !! m <> node_view <$> nodes r2 !! m.
Proof.
  intros s. split; [done|].
  assert (Hs : sync (mk_sys r1 (mk_sub [] false) c1)) by (apply (sync_opened now r0 c0); [done..|]; by exists v, evs).
  rewrite (sync_agree _ Hs); cbn; [congruence|done|done|set_solver].
Qed.

(** A subscriber that has lagged behind and is no longer registered stops. *)
Lemma evicted_stops r now q : nodes r !! n = None -> on_event r ctx now n (mk_sub q true) = Some Panic.
Proof. intros Hn. unfold on_event, snapshot_except, get. cbn. by rewrite Hn. Qed.
End Stream.

(** ** Samples *)









End TsSync.
