(* ===== verification/TsWire.v ===== *)
(** * The bytes of the Tailscale protocol (rill-ts2021/src)

    [Base64] (base64.rs); [Controlbase]: frames, handshake, session and stream of
    controlbase/{wire,handshake,stream}.rs over an AEAD and a Noise implementation
    that are parameters; [DerpWire]: the frames of derp.rs and server/derp.rs with
    the relay; [MapFrames]: the frames of the long poll. *)

From Stdlib Require Import Ascii.
From S2P Require Import Prelude Crypto Net.

Module Base64.

Definition ALPHABET : list Z := (fun c => Z.of_nat (nat_of_ascii c)) <$>
  String.list_ascii_of_string "ABCDEFGHIJKLMNOPQRSTUVWXYZabcdefghijklmnopqrstuvwxyz0123456789+/".

(** [ALPHABET[v]]; every index below is masked to 6 bits. *)
Definition symbol (v : Z) : Z := default 0 (ALPHABET !! Z.to_nat v).

Definition PAD : Z := 61.

(** One chunk of up to three bytes; [k] of them are there. *)
Definition encode_chunk (k : nat) (b0 b1 b2 : Z) : list Z :=
  let n := Z.lor (Z.lor (Z.shiftl b0 16) (Z.shiftl b1 8)) b2 in
  [symbol (Z.land (Z.shiftr n 18) 63);
   symbol (Z.land (Z.shiftr n 12) 63);
   if decide (1 < k)%nat then symbol (Z.land (Z.shiftr n 6) 63) else PAD;
   if decide (2 < k)%nat then symbol (Z.land n 63) else PAD].

Fixpoint encode (data : list Z) : list Z :=
  match data with
  | [] => []
  | [b0] => encode_chunk 1 b0 0 0
  | [b0; b1] => encode_chunk 2 b0 b1 0
  | b0 :: b1 :: b2 :: data => encode_chunk 3 b0 b1 b2 ++ encode data
  end.

Definition value (c : Z) : option Z :=
  if decide (65 <= c <= 90) then Some (c - 65)
  else if decide (97 <= c <= 122) then Some (c - 97 + 26)
  else if decide (48 <= c <= 57) then Some (c - 48 + 52)
  else if decide (c = 43) then Some 62
  else if decide (c = 47) then Some 63
  else None.

Fixpoint read_values (n : Z) (cs : list Z) : option Z :=
  match cs with
  | [] => Some n
  | c :: cs => v ← value c; read_values (Z.lor (Z.shiftl n 6) v) cs
  end.

Definition decode_quad (is_last : bool) (quad : list Z) : option (list Z) :=
  let pad := length (filter (fun c => c = PAD) quad) in
  if bool_decide (2 < pad)%nat || (negb is_last && bool_decide (0 < pad)%nat)
     || (is_last && bool_decide (0 < pad)%nat && existsb (fun c => negb (bool_decide (c = PAD))) (drop (4 - pad) quad))
  then None
  else
    n ← read_values 0 (take (4 - pad) quad);
    let n := Z.shiftl n (6 * Z.of_nat pad) in
    Some ([wrap 8 (Z.shiftr n 16)]
          ++ (if decide (pad < 2)%nat then [wrap 8 (Z.shiftr n 8)] else [])
          ++ (if decide (pad < 1)%nat then [wrap 8 n] else [])).

Fixpoint decode_quads (s : list Z) : option (list Z) :=
  match s with
  | a :: b :: c :: d :: s =>
      q ← decode_quad (bool_decide (s = [])) [a; b; c; d];
      rest ← decode_quads s;
      Some (q ++ rest)
  | _ => Some []
  end.

Definition decode (s : list Z) : option (list Z) :=
  if decide (length s mod 4 <> 0)%nat then None else decode_quads s.

(** ** Round trip *)

Definition u6 (v : Z) : Prop := 0 <= v < 64.

Definition symbols_ok (v : Z) : bool := bool_decide (value (symbol v) = Some v) && negb (bool_decide (symbol v = PAD)).

Lemma symbol_value v : u6 v -> value (symbol v) = Some v /\ symbol v <> PAD.
Proof.
  intros Hv. unfold u6 in Hv.
  assert (Hall : forallb symbols_ok (Z.of_nat <$> seq 0 64) = true) by (vm_compute; done).
  rewrite forallb_forall in Hall. assert (H : symbols_ok v = true).
  { apply Hall, list_elem_of_In. rewrite <- (Z2Nat.id v) by lia. apply list_elem_of_fmap_2, elem_of_seq. lia. }
  apply andb_true_iff in H as [H1%bool_decide_eq_true H2%negb_true_iff%bool_decide_eq_false]. done.
Qed.

Lemma lor_shift x k v : 0 <= k -> 0 <= v < 2 ^ k -> Z.lor (Z.shiftl x k) v = x * 2 ^ k + v.
Proof.
  intros Hk Hv. assert (Hl : Z.land (Z.shiftl x k) v = 0).
  { apply Z.bits_inj'. intros i Hi. rewrite Z.land_spec, Z.bits_0. destruct (decide (i < k)).
    - by rewrite Z.shiftl_spec_low by lia.
    - destruct (decide (v = 0)) as [->|]; [by rewrite Z.bits_0, andb_false_r|].
      rewrite (Z.bits_above_log2 v i); [apply andb_false_r|lia|].
      apply Z.log2_lt_pow2; [lia|]. apply Z.lt_le_trans with (2 ^ k); [lia|]. apply Z.pow_le_mono_r; lia. }
  pose proof (Z.add_lor_land (Z.shiftl x k) v) as E. rewrite Hl, Z.shiftl_mul_pow2 in * by lia. lia.
Qed.

Lemma land_63 z : Z.land z 63 = z mod 64.
Proof. change 63 with (Z.ones 6). by rewrite Z.land_ones by lia. Qed.

(** The number of a chunk, and its six-bit digits. *)
Lemma chunk_number b0 b1 b2 : u8 b0 -> u8 b1 -> u8 b2 ->
  Z.lor (Z.lor (Z.shiftl b0 16) (Z.shiftl b1 8)) b2 = b0 * 65536 + b1 * 256 + b2.
Proof.
  intros H0 H1 H2.
  assert (0 <= b0 < 256 /\ 0 <= b1 < 2 ^ 8 /\ 0 <= b2 < 2 ^ 8) as (? & ? & ?) by (repeat split; uint).
  replace (Z.lor (Z.shiftl b0 16) (Z.shiftl b1 8)) with (Z.shiftl (Z.lor (Z.shiftl b0 8) b1) 8).
  - rewrite lor_shift, lor_shift by lia. lia.
  - rewrite Z.shiftl_lor, Z.shiftl_shiftl by lia. done.
Qed.

Definition digits (n : Z) : list Z := [n / 262144 mod 64; n / 4096 mod 64; n / 64 mod 64; n mod 64].

Lemma digits_u6 n : Forall u6 (digits n).
Proof. repeat constructor; apply Z.mod_pos_bound; lia. Qed.

Lemma encode_chunk_eq k b0 b1 b2 : u8 b0 -> u8 b1 -> u8 b2 ->
  encode_chunk k b0 b1 b2 =
    let n := b0 * 65536 + b1 * 256 + b2 in
    [symbol (n / 262144 mod 64); symbol (n / 4096 mod 64);
     if decide (1 < k)%nat then symbol (n / 64 mod 64) else PAD; if decide (2 < k)%nat then symbol (n mod 64) else PAD].
Proof.
  intros H0 H1 H2. unfold encode_chunk. rewrite chunk_number by done. cbv zeta. rewrite !land_63, !Z.shiftr_div_pow2 by lia. done.
Qed.

Lemma read_symbols n vs : Forall u6 vs -> read_values n (symbol <$> vs) = Some (foldl (fun n v => n * 64 + v) n vs).
Proof.
  revert n. induction vs as [|v vs IH]; intros n; [done|]. intros [Hv Hvs]%Forall_cons_1. cbn [fmap list_fmap read_values foldl].
  rewrite (proj1 (symbol_value v Hv)). cbn [mbind option_bind]. rewrite lor_shift by (unfold u6 in Hv; lia). by apply IH.
Qed.

Lemma no_pad vs : Forall u6 vs -> filter (fun c => c = PAD) (symbol <$> vs) = [].
Proof.
  induction vs as [|v vs IH]; [done|]. intros [Hv Hvs]%Forall_cons_1. cbn [fmap list_fmap]. rewrite filter_cons.
  rewrite decide_False; [by apply IH|]. apply (symbol_value v Hv).
Qed.

(** The digits of a number, those of the padding left out, give back its bytes. *)
Lemma chunk_back k pad b0 b1 b2 : u8 b0 -> u8 b1 -> u8 b2 -> (1 <= k <= 3)%nat -> (k + pad = 3)%nat ->
  ((k <= 2)%nat -> b2 = 0) -> ((k <= 1)%nat -> b1 = 0) ->
  let n := foldl (fun n v => n * 64 + v) 0 (take (S k) (digits (b0 * 65536 + b1 * 256 + b2))) * 2 ^ (6 * Z.of_nat pad) in
  Some ([wrap 8 (n / 2 ^ 16)] ++ (if decide (pad < 2)%nat then [wrap 8 (n / 2 ^ 8)] else []) ++ (if decide (pad < 1)%nat then [wrap 8 n] else [])) =
  Some (take k [b0; b1; b2]).
Proof.
  intros H0 H1 H2 Hk Hp Hk2 Hk1 n.
  assert (0 <= b0 < 256 /\ 0 <= b1 < 256 /\ 0 <= b2 < 256) as (? & ? & ?) by (repeat split; uint).
  assert (Hn : n = b0 * 65536 + b1 * 256 + b2).
  { unfold n, digits. clear n.
    destruct k as [|[|[|[|k]]]]; [lia| | | |lia];
      [assert (pad = 2%nat) as -> by lia; rewrite Hk2, Hk1 by lia|assert (pad = 1%nat) as -> by lia; rewrite Hk2 by lia|assert (pad = 0%nat) as -> by lia];
      cbn [take foldl Z.of_nat Z.mul Z.pow Pos.of_succ_nat Pos.succ]; Z.to_euclidean_division_equations; lia. }
  assert (E : wrap 8 (n / 2 ^ 16) = b0 /\ wrap 8 (n / 2 ^ 8) = b1 /\ wrap 8 n = b2).
  { rewrite Hn. unfold wrap. change (2 ^ 16) with 65536. change (2 ^ 8) with 256. Z.to_euclidean_division_equations; lia. }
  destruct E as (-> & -> & ->). destruct k as [|[|[|[|k]]]]; try lia; [rewrite !decide_False by lia|rewrite decide_True, decide_False by lia|rewrite !decide_True by lia]; done.
Qed.

(** A chunk comes back, in the last place or, if it is full, anywhere. *)
Lemma decode_chunk last k b0 b1 b2 : u8 b0 -> u8 b1 -> u8 b2 -> (k = 3%nat \/ last = true) -> (1 <= k <= 3)%nat ->
  ((k <= 2)%nat -> b2 = 0) -> ((k <= 1)%nat -> b1 = 0) ->
  decode_quad last (encode_chunk k b0 b1 b2) = Some (take k [b0; b1; b2]).
Proof.
  intros H0 H1 H2 Hl Hk Hk2 Hk1. rewrite encode_chunk_eq by done. set (n := b0 * 65536 + b1 * 256 + b2). cbv zeta.
  pose proof (digits_u6 n) as Hd. unfold digits in Hd.
  assert (Hq : exists pad vs, (k + pad = 3)%nat /\ vs = take (S k) (digits n) /\
    [symbol (n / 262144 mod 64); symbol (n / 4096 mod 64); if decide (1 < k)%nat then symbol (n / 64 mod 64) else PAD;
     if decide (2 < k)%nat then symbol (n mod 64) else PAD] = (symbol <$> vs) ++ replicate pad PAD).
  { destruct k as [|[|[|[|k]]]]; try lia; [exists 2%nat|exists 1%nat|exists 0%nat]; eexists; (split; [lia|]); (split; [done|]); done. }
  destruct Hq as (pad & vs & Hpad & Hvs & ->).
  assert (Hv6 : Forall u6 vs) by (rewrite Hvs; by apply Forall_take).
  assert (Hlen : length vs = S k) by (rewrite Hvs, length_take; cbn; lia).
  unfold decode_quad. rewrite list.filter_app, no_pad by done. cbn [app].
  assert (Hf : filter (fun c => c = PAD) (replicate pad PAD) = replicate pad PAD) by (clear; induction pad; [done|]; cbn [replicate]; rewrite filter_cons, decide_True by done; by f_equal).
  rewrite Hf, length_replicate. rewrite take_app_length', drop_app_length' by (rewrite length_fmap; lia).
  assert (Hex : existsb (fun c => negb (bool_decide (c = PAD))) (replicate pad PAD) = false) by (clear; induction pad as [|p IH]; [done|]; cbn [replicate existsb]; by rewrite IH, bool_decide_eq_true_2).
  rewrite Hex, read_symbols by done. rewrite !andb_false_r, orb_false_r.
  rewrite bool_decide_eq_false_2 by lia. cbn [orb].
  assert (Hx : negb last && bool_decide (0 < pad)%nat = false) by (destruct Hl as [->| ->]; [rewrite bool_decide_eq_false_2 by lia; apply andb_false_r|done]).
  rewrite Hx. cbn [mbind option_bind]. rewrite Hvs, Z.shiftl_mul_pow2, !Z.shiftr_div_pow2 by lia.
  clear Hx Hex Hf Hlen Hv6 Hvs Hd Hl. apply chunk_back; [done..|lia].
Qed.

Lemma decode_quads_encode data : bytes data -> decode_quads (encode data) = Some data.
Proof.
  enough (H : forall n data, (length data <= n)%nat -> bytes data -> decode_quads (encode data) = Some data) by eauto.
  induction n as [|n IH]; intros [|b0 [|b1 [|b2 l]]]; cbn [length]; try lia; try done; intros Hn Hb.
  - apply Forall_cons_1 in Hb as [H0 _]. cbn [encode encode_chunk decode_quads]. fold (encode_chunk 1 b0 0 0).
    rewrite bool_decide_eq_true_2, decode_chunk by (done || uint || lia || auto). done.
  - apply Forall_cons_1 in Hb as [H0 [H1 _]%Forall_cons_1]. cbn [encode encode_chunk decode_quads]. fold (encode_chunk 2 b0 b1 0).
    rewrite bool_decide_eq_true_2, decode_chunk by (done || uint || lia || auto). done.
  - apply Forall_cons_1 in Hb as [H0 [H1 [H2 Hl]%Forall_cons_1]%Forall_cons_1]. cbn [encode].
    unfold encode_chunk at 1. cbn [app decode_quads]. fold (encode_chunk 3 b0 b1 b2).
    rewrite decode_chunk, IH by (done || lia || auto). done.
Qed.

Lemma encode_quads data : (length (encode data) mod 4 = 0)%nat.
Proof.
  enough (H : forall n data, (length data <= n)%nat -> exists k, length (encode data) = (k * 4)%nat).
  { destruct (H _ data (Nat.le_refl _)) as [k ->]. by rewrite Nat.Div0.mod_mul. }
  induction n as [|n IH]; intros [|b0 [|b1 [|b2 l]]] Hn; cbn [length] in Hn; try lia; [by exists 0%nat|by exists 0%nat|by exists 1%nat|by exists 1%nat|].
  destruct (IH l) as [k Hk]; [lia|]. exists (S k). cbn [encode]. rewrite length_app, Hk. cbn. lia.
Qed.

(** Every message put into the text of a header comes back from it. *)
Theorem base64_roundtrip (data : list Z) (Hb : bytes data) : decode (encode data) = Some data.
Proof. unfold decode. rewrite decide_False by (rewrite encode_quads; lia). by apply decode_quads_encode. Qed.

Lemma base64_roundtrip_witness : decode (encode [102; 111; 111; 98]) = Some [102; 111; 111; 98].
Proof. apply base64_roundtrip. repeat constructor; lia. Defined.

(** Bits that the padding leaves over are not looked at. *)
Example base64_not_canonical : decode [90; 103; 61; 61] = decode [90; 104; 61; 61].
Proof. vm_compute. done. Qed.
End Base64.

Module Controlbase.
Import Crypto.

(** ** Frames (wire.rs) *)

Inductive ControlbaseError := Noise | MalformedFrame | WrongStep | ServerError (text : list Z) | Desync.

Definition MSG_TYPE_INITIATION : Z := 1.
Definition MSG_TYPE_RESPONSE : Z := 2.
Definition MSG_TYPE_ERROR : Z := 3.
Definition MSG_TYPE_RECORD : Z := 4.

Definition INITIATION_HEADER_LEN : nat := 5.
Definition HEADER_LEN : nat := 3.
Definition INITIATION_NOISE_BODY_LEN : nat := 96.
Definition INITIATION_FRAME_LEN : nat := 101.
Definition RESPONSE_NOISE_BODY_LEN : nat := 48.
Definition RESPONSE_FRAME_LEN : nat := 51.
Definition MAX_MESSAGE_SIZE : nat := 4096.
Definition MAX_CIPHERTEXT_SIZE : nat := 4093.
Definition AEAD_TAG_LEN : nat := 16.
Definition MAX_PLAINTEXT_SIZE : nat := 4077.

(** Type and length. *)
Definition parse_header (header : list Z) : outcome ControlbaseError (Z * nat) :=
  match header with
  | t :: hi :: lo :: _ => Ok (t, Z.to_nat (hi * 256 + lo))
  | _ => Err MalformedFrame
  end.

Definition encode_initiation (version : Z) (noise_body : list Z) : list Z :=
  be_bytes 2 version ++ [MSG_TYPE_INITIATION] ++ be_bytes 2 (Z.of_nat INITIATION_NOISE_BODY_LEN) ++ noise_body.

Definition encode_record_header (ciphertext_len : nat) : list Z :=
  [MSG_TYPE_RECORD; wrap 8 (Z.shiftr (Z.of_nat ciphertext_len) 8); wrap 8 (Z.of_nat ciphertext_len)].

Definition encode_response (noise_body : list Z) : list Z :=
  [MSG_TYPE_RESPONSE] ++ be_bytes 2 (Z.of_nat RESPONSE_NOISE_BODY_LEN) ++ noise_body.

Definition parse_record_header (header : list Z) : outcome ControlbaseError nat :=
  '(t, len) ← parse_header header;
  if bool_decide (t <> MSG_TYPE_RECORD) || bool_decide (MAX_CIPHERTEXT_SIZE < len)%nat then Err MalformedFrame else Ok len.

(** ** Sessions (handshake.rs) *)

Definition INVALID_NONCE : Z := 2 ^ 64 - 1.

Definition record_nonce (counter : Z) : list Z := replicate 4 0 ++ be_bytes 8 counter.

Record Session := mk_session {
  tx_cipher : list Z;
  rx_cipher : list Z;
  version : Z;
  handshake_hash : list Z;
  peer : list Z;
  tx_nonce : Z;
  rx_nonce : Z;
  rx_failed : bool
}.

Definition from_raw_keys (tx_key rx_key : list Z) (v : Z) : Session :=
  mk_session tx_key rx_key v (replicate 32 0) (replicate 32 0) 0 0 false.

Definition set_peer (s : Session) (p : list Z) : Session :=
  mk_session (tx_cipher s) (rx_cipher s) (version s) (handshake_hash s) p (tx_nonce s) (rx_nonce s) (rx_failed s).

Definition set_tx (s : Session) (k : Z) : Session :=
  mk_session (tx_cipher s) (rx_cipher s) (version s) (handshake_hash s) (peer s) k (rx_nonce s) (rx_failed s).

Definition set_rx (s : Session) (k : Z) (failed : bool) : Session :=
  mk_session (tx_cipher s) (rx_cipher s) (version s) (handshake_hash s) (peer s) (tx_nonce s) k failed.

Section Aead.
Context `{P : Primitives}.

(** The tag follows the ciphertext. *)
Definition encrypt (key nonce msg : list Z) : option (list Z) :=
  '(c, t) ← aead_encrypt key nonce [] msg; Some (c ++ t).

Definition decrypt (key nonce data : list Z) : option (list Z) :=
  let k := (length data - AEAD_TAG_LEN)%nat in
  aead_decrypt key nonce [] (take k data) (drop k data).

(** [plaintext.chunks(size)] *)
Fixpoint chunks (fuel : nat) (size : nat) (l : list Z) : list (list Z) :=
  match fuel, l with
  | S fuel, _ :: _ => take size l :: chunks fuel size (drop size l)
  | _, _ => []
  end.

(** [seal], chunk by chunk; what was written stays counted when a chunk fails. *)
Fixpoint seal_chunks (s : Session) (cs : list (list Z)) : outcome ControlbaseError (list Z) * Session :=
  match cs with
  | [] => (Ok [], s)
  | c :: cs =>
      if decide (tx_nonce s = INVALID_NONCE) then (Err Desync, s)
      else match encrypt (tx_cipher s) (record_nonce (tx_nonce s)) c with
           | None => (Err MalformedFrame, s)
           | Some ct =>
               let '(r, s) := seal_chunks (set_tx s (tx_nonce s + 1)) cs in
               (out ← r; Ok (encode_record_header (length ct) ++ ct ++ out), s)
           end
  end.

Definition seal (s : Session) (plaintext : list Z) : outcome ControlbaseError (list Z) * Session :=
  seal_chunks s (chunks (length plaintext) MAX_PLAINTEXT_SIZE plaintext).

(** [open]: every error but the first poisons the receiving side. *)
Definition open (s : Session) (frame : list Z) : outcome ControlbaseError (list Z) * Session :=
  if rx_failed s then (Err Desync, s)
  else
    let fail e := (Err e, set_rx s (rx_nonce s) true) in
    match parse_record_header frame with
    | Err e => fail e
    | Panic => (Panic, s)
    | Ok len =>
        if decide (length frame <> HEADER_LEN + len)%nat then fail MalformedFrame
        else if decide (len < AEAD_TAG_LEN)%nat then fail MalformedFrame
        else if decide (rx_nonce s = INVALID_NONCE) then fail Desync
        else match decrypt (rx_cipher s) (record_nonce (rx_nonce s)) (drop HEADER_LEN frame) with
             | Some plaintext => (Ok plaintext, set_rx s (rx_nonce s + 1) false)
             | None => fail Desync
             end
    end.
End Aead.

(** ** Handshakes (handshake.rs) *)

(** The Noise implementation for the pattern IK, with empty payloads; every call may
    fail.  Arguments of the builders: the randomness of the ephemeral key, the
    prologue, the peer's public key (initiator), the own secret. *)
Class NoiseIK := {
  ik_state : Type;
  ik_public : list Z -> list Z;
  ik_initiator : list Z -> list Z -> list Z -> list Z -> option ik_state;
  ik_responder : list Z -> list Z -> list Z -> option ik_state;
  (* into a buffer of the given size *)
  ik_write : ik_state -> nat -> option (list Z * ik_state);
  ik_read : ik_state -> list Z -> option ik_state;
  ik_remote_static : ik_state -> option (list Z);
  ik_hash : ik_state -> list Z;
  ik_split : ik_state -> list Z * list Z
}.

(** Two parties that agree on the prologue and on the key of the responder complete
    the exchange: messages of the sizes of the pattern, the initiator's key known to
    the responder, and the same keys in the end. *)
Class NoiseIKLaws (N : NoiseIK) := {
  ik_complete ea eb prologue a b : length a = 32%nat -> length b = 32%nat ->
    exists i0 i1 i2 r0 r1 r2 m1 m2,
      ik_initiator ea prologue (ik_public b) a = Some i0 /\ ik_write i0 INITIATION_NOISE_BODY_LEN = Some (m1, i1) /\ length m1 = INITIATION_NOISE_BODY_LEN /\
      ik_responder eb prologue b = Some r0 /\ ik_read r0 m1 = Some r1 /\ ik_remote_static r1 = Some (ik_public a) /\
      ik_write r1 RESPONSE_NOISE_BODY_LEN = Some (m2, r2) /\ length m2 = RESPONSE_NOISE_BODY_LEN /\
      ik_read i1 m2 = Some i2 /\ ik_split i2 = ik_split r2;
  ik_public_length a : length a = 32%nat -> length (ik_public a) = 32%nat
}.

(** ["Tailscale Control Protocol v{version}"] *)
Definition protocol_version_prologue (v : Z) : list Z :=
  (fun c => Z.of_nat (nat_of_ascii c)) <$> String.list_ascii_of_string ("Tailscale Control Protocol v" +:+ Net.dec v).

Section Handshake.
Context `{N : NoiseIK}.

Record ClientHandshake := mk_hs { state : option ik_state; control_key : list Z; hs_version : Z; init_written : bool }.

Definition client_new (eph machine_key control_key : list Z) (v : Z) : outcome ControlbaseError ClientHandshake :=
  st ← ok_or Noise (ik_initiator eph (protocol_version_prologue v) control_key machine_key);
  Ok (mk_hs (Some st) control_key v false).

Definition write_initiation (h : ClientHandshake) : outcome ControlbaseError (list Z) * ClientHandshake :=
  if init_written h then (Err WrongStep, h)
  else match state h with
       | None => (Err WrongStep, h)
       | Some st =>
           match ik_write st INITIATION_NOISE_BODY_LEN with
           | None => (Err Noise, h)
           | Some (body, st) =>
               let h := mk_hs (Some st) (control_key h) (hs_version h) false in
               if decide (length body <> INITIATION_NOISE_BODY_LEN) then (Err MalformedFrame, h)
               else (Ok (encode_initiation (hs_version h) body), mk_hs (Some st) (control_key h) (hs_version h) true)
           end
       end.

Definition complete (h : ClientHandshake) (frame : list Z) : outcome ControlbaseError Session * ClientHandshake :=
  if negb (init_written h) then (Err WrongStep, h)
  else match state h with
       | None => (Err WrongStep, h)
       | Some st =>
           let h := mk_hs None (control_key h) (hs_version h) true in
           ('(t, len) ← parse_header frame;
            if decide (t = MSG_TYPE_RESPONSE) then
              if bool_decide (length frame <> RESPONSE_FRAME_LEN) || bool_decide (len <> RESPONSE_NOISE_BODY_LEN) then Err MalformedFrame
              else
                st ← ok_or Noise (ik_read st (drop HEADER_LEN frame));
                let '(k1, k2) := ik_split st in
                Ok (mk_session k1 k2 (hs_version h) (ik_hash st) (control_key h) 0 0 false)
            else if decide (t = MSG_TYPE_ERROR) then Err (ServerError (drop HEADER_LEN frame))
            else Err MalformedFrame, h)
       end.

(** [finish_handshake] (stream.rs), on the bytes that have come in: [None] while they
    are not enough; the result and the bytes that follow. *)
Definition finish_handshake (bs : list Z) (h : ClientHandshake) : option (outcome ControlbaseError Session * ClientHandshake * list Z) :=
  if decide (length bs < HEADER_LEN)%nat then None
  else
    match parse_header (take HEADER_LEN bs) with
    | Ok (t, len) =>
        if decide (MAX_MESSAGE_SIZE < HEADER_LEN + len)%nat then Some (Err MalformedFrame, h, drop HEADER_LEN bs)
        else if decide (t = MSG_TYPE_RESPONSE) then
          if decide (len <> RESPONSE_NOISE_BODY_LEN) then Some (Err MalformedFrame, h, drop HEADER_LEN bs)
          else if decide (length bs < RESPONSE_FRAME_LEN)%nat then None
          else let '(r, h) := complete h (take RESPONSE_FRAME_LEN bs) in Some (r, h, drop RESPONSE_FRAME_LEN bs)
        else if decide (t = MSG_TYPE_ERROR) then
          if decide (length bs < HEADER_LEN + len)%nat then None
          else Some (Err (ServerError (take len (drop HEADER_LEN bs))), h, drop (HEADER_LEN + len) bs)
        else Some (Err MalformedFrame, h, drop HEADER_LEN bs)
    | Err e => Some (Err e, h, drop HEADER_LEN bs)
    | Panic => Some (Panic, h, drop HEADER_LEN bs)
    end.

(** The answer of a server, followed by anything, is read as a whole. *)
Lemma finish_response body rest h : length body = RESPONSE_NOISE_BODY_LEN ->
  finish_handshake (encode_response body ++ rest) h = Some ((complete h (encode_response body)).1, (complete h (encode_response body)).2, rest).
Proof.
  intros Hl. assert (Hlen : length (encode_response body) = RESPONSE_FRAME_LEN) by (unfold encode_response; rewrite !length_app, Hl; done).
  unfold finish_handshake. rewrite decide_False by (rewrite length_app, Hlen; unfold HEADER_LEN, RESPONSE_FRAME_LEN; lia).
  change (parse_header (take HEADER_LEN (encode_response body ++ rest))) with (@Ok ControlbaseError _ (MSG_TYPE_RESPONSE, RESPONSE_NOISE_BODY_LEN)). cbv beta iota.
  rewrite decide_False by (unfold MAX_MESSAGE_SIZE, HEADER_LEN, RESPONSE_NOISE_BODY_LEN; lia). rewrite decide_True by done. rewrite decide_False by auto.
  rewrite decide_False by (rewrite length_app, Hlen; lia). rewrite take_app_length', drop_app_length' by done. by destruct (complete h _).
Qed.

(** [ServerHandshake::respond]: the answer, the session and the machine. *)
Definition respond (eph control_key_priv init_frame : list Z) : outcome ControlbaseError (list Z * Session * list Z) :=
  match init_frame with
  | v1 :: v0 :: rest =>
      if decide (length init_frame <> INITIATION_FRAME_LEN) then Err MalformedFrame
      else
        let v := v1 * 256 + v0 in
        '(t, len) ← parse_header rest;
        if bool_decide (t <> MSG_TYPE_INITIATION) || bool_decide (len <> INITIATION_NOISE_BODY_LEN) then Err MalformedFrame
        else
          st ← ok_or Noise (ik_responder eph (protocol_version_prologue v) control_key_priv);
          st ← ok_or Noise (ik_read st (drop INITIATION_HEADER_LEN init_frame));
          machine ← ok_or MalformedFrame (s ← ik_remote_static st; if decide (length s = 32%nat) then Some s else None);
          '(body, st) ← ok_or Noise (ik_write st RESPONSE_NOISE_BODY_LEN);
          if decide (length body <> RESPONSE_NOISE_BODY_LEN) then Err MalformedFrame
          else
            let '(k1, k2) := ik_split st in
            Ok (encode_response body, set_peer (from_raw_keys k2 k1 v) machine, machine)
  | _ => Err MalformedFrame
  end.

(** *** Client and server agree *)

Lemma be_bytes_pair v : 0 <= v < 2 ^ 16 -> be_bytes 2 v = [v / 256; v mod 256] /\ v / 256 * 256 + v mod 256 = v.
Proof.
  intros Hv. change (be_bytes 2 v) with [v / 256 mod 256; v mod 256]. change (2 ^ 16) with 65536 in Hv.
  rewrite (Z.mod_small (v / 256)) by (Z.to_euclidean_division_equations; lia). split; [done|]. Z.to_euclidean_division_equations; lia.
Qed.

(** A client that knows the key of the server and a server that gets its first
    message end up with the same session: each writes under the key the other reads
    with, from nonce zero, for the version the client named, and the server has the
    client's machine key. *)
Theorem ts_handshake_agrees `{!NoiseIKLaws N} (ea eb machine_key server_key : list Z) (v : Z)
    (Hm : length machine_key = 32%nat) (Hs : length server_key = 32%nat) (Hv : 0 <= v < 2 ^ 16) :
  exists h0 init h1 resp ss cs h2,
    client_new ea machine_key (ik_public server_key) v = Ok h0 /\
    write_initiation h0 = (Ok init, h1) /\ length init = INITIATION_FRAME_LEN /\
    respond eb server_key init = Ok (resp, ss, ik_public machine_key) /\
    complete h1 resp = (Ok cs, h2) /\ state h2 = None /\
    tx_cipher cs = rx_cipher ss /\ rx_cipher cs = tx_cipher ss /\
    (tx_nonce cs, rx_nonce cs, tx_nonce ss, rx_nonce ss) = (0, 0, 0, 0) /\ rx_failed cs = false /\ rx_failed ss = false /\
    version cs = v /\ version ss = v /\ peer cs = ik_public server_key /\ peer ss = ik_public machine_key.
Proof.
  destruct (ik_complete ea eb (protocol_version_prologue v) machine_key server_key Hm Hs)
    as (i0 & i1 & i2 & r0 & r1 & r2 & m1 & m2 & Hi & Hw1 & Hl1 & Hr & Hrd & Hst & Hw2 & Hl2 & Hrd2 & Hsp).
  destruct (be_bytes_pair v Hv) as [Hb Hbv]. destruct (ik_split r2) as [k1 k2] eqn:Hk.
  unfold client_new. rewrite Hi. step. eexists _, _, _. eexists _, _, _, _. split; [done|].
  unfold write_initiation. cbn [init_written state]. rewrite Hw1. rewrite decide_False by lia. split; [done|].
  cbn [hs_version]. unfold encode_initiation. rewrite Hb, !length_app. split; [cbn; rewrite Hl1; done|].
  unfold respond. cbn [app]. rewrite decide_False by (cbn [length]; rewrite length_app, length_be_bytes, Hl1; auto).
  rewrite Hbv.
  change (parse_header (MSG_TYPE_INITIATION :: be_bytes 2 (Z.of_nat INITIATION_NOISE_BODY_LEN) ++ m1)) with (@Ok ControlbaseError _ (MSG_TYPE_INITIATION, INITIATION_NOISE_BODY_LEN)).
  step. rewrite !bool_decide_eq_false_2 by auto. cbn [orb]. rewrite Hr. step.
  change (drop INITIATION_HEADER_LEN (v / 256 :: v mod 256 :: MSG_TYPE_INITIATION :: be_bytes 2 (Z.of_nat INITIATION_NOISE_BODY_LEN) ++ m1)) with m1.
  rewrite Hrd. step. rewrite Hst. step. rewrite decide_True by (by apply ik_public_length). step. rewrite Hw2. step. rewrite decide_False by lia.
  rewrite Hk. split; [done|].
  unfold complete. cbn [init_written state negb]. unfold encode_response.
  change (parse_header ([MSG_TYPE_RESPONSE] ++ be_bytes 2 (Z.of_nat RESPONSE_NOISE_BODY_LEN) ++ m2)) with (@Ok ControlbaseError _ (MSG_TYPE_RESPONSE, RESPONSE_NOISE_BODY_LEN)).
  step. rewrite decide_True by done. rewrite !bool_decide_eq_false_2; [|auto|rewrite !length_app, Hl2; auto]. cbn [orb].
  change (drop HEADER_LEN ([MSG_TYPE_RESPONSE] ++ be_bytes 2 (Z.of_nat RESPONSE_NOISE_BODY_LEN) ++ m2)) with m2.
  rewrite Hrd2. step. rewrite Hsp. done.
Qed.
End Handshake.

(** ** Streams (stream.rs) *)

(** What has come in from below, in the pieces in which a read hands it over, and
    whether the other end has closed. *)
Record Io := mk_io { pieces : list (list Z); closed : bool }.

Inductive io_result := Bytes (b : list Z) | IoPending | IoEof.

Definition io_read (io : Io) (cap : nat) : io_result * Io :=
  match pieces io with
  | [] => (if closed io then IoEof else IoPending, io)
  | p :: ps =>
      let rest := drop cap p in
      (Bytes (take cap p), mk_io (if decide (rest = []) then ps else rest :: ps) (closed io))
  end.

Inductive RxStage := Header | Body.

(** [hdr] and [frame] are the filled parts of the buffers; [frame_len] is the length
    of the second. *)
Record RxState := mk_rx {
  plain : list Z;
  pos : nat;
  stage : RxStage;
  hdr : list Z;
  frame : list Z;
  frame_len : nat;
  eof : bool
}.

Definition rx_new : RxState := mk_rx [] 0 Header [] [] 0 false.

Inductive poll (A : Type) := Ready (a : A) | Pending | Failed.
Arguments Ready {A}. Arguments Pending {A}. Arguments Failed {A}.

Section Stream.
Context `{P : Primitives}.

Record Rx := mk_rxs { rx_io : Io; rx_session : Session; rx : RxState }.

Definition with_hdr (r : RxState) (h : list Z) := mk_rx (plain r) (pos r) (stage r) h (frame r) (frame_len r) (eof r).
Definition with_frame (r : RxState) (f : list Z) := mk_rx (plain r) (pos r) (stage r) (hdr r) f (frame_len r) (eof r).

(** [poll_fill_rx]; [None] when the fuel is not enough. *)
Fixpoint poll_fill_rx (fuel : nat) (x : Rx) : option (poll unit * Rx) :=
  match fuel with
  | O => None
  | S fuel =>
      let r := rx x in
      match stage r with
      | Header =>
          if decide (length (hdr r) < HEADER_LEN)%nat then
            match io_read (rx_io x) (HEADER_LEN - length (hdr r)) with
            | (Bytes b, io) => poll_fill_rx fuel (mk_rxs io (rx_session x) (with_hdr r (hdr r ++ b)))
            | (IoPending, io) => Some (Pending, mk_rxs io (rx_session x) r)
            | (IoEof, io) =>
                if decide (hdr r = [])
                then Some (Ready tt, mk_rxs io (rx_session x) (mk_rx (plain r) (pos r) Header (hdr r) (frame r) (frame_len r) true))
                else Some (Failed, mk_rxs io (rx_session x) r)
            end
          else
            match parse_record_header (hdr r) with
            | Ok len => poll_fill_rx fuel (mk_rxs (rx_io x) (rx_session x) (mk_rx (plain r) (pos r) Body (hdr r) (hdr r) (HEADER_LEN + len) (eof r)))
            | _ => Some (Failed, x)
            end
      | Body =>
          if decide (length (frame r) < frame_len r)%nat then
            match io_read (rx_io x) (frame_len r - length (frame r)) with
            | (Bytes b, io) => poll_fill_rx fuel (mk_rxs io (rx_session x) (with_frame r (frame r ++ b)))
            | (IoPending, io) => Some (Pending, mk_rxs io (rx_session x) r)
            | (IoEof, io) => Some (Failed, mk_rxs io (rx_session x) r)
            end
          else
            match open (rx_session x) (frame r) with
            | (Ok p, s) =>
                let x := mk_rxs (rx_io x) s (mk_rx p 0 Header [] [] 0 (eof r)) in
                if decide (p = []) then poll_fill_rx fuel x else Some (Ready tt, x)
            | (_, s) => Some (Failed, mk_rxs (rx_io x) s (mk_rx (plain r) (pos r) Body (hdr r) [] 0 (eof r)))
            end
      end
  end.

(** [poll_read] into a buffer with room for [cap] bytes: the bytes it gets. *)
Definition poll_read (fuel : nat) (cap : nat) (x : Rx) : option (poll (list Z) * Rx) :=
  let deliver (x : Rx) :=
    let r := rx x in
    if decide (length (plain r) <= pos r)%nat then Some (Ready [], x)
    else
      let n := min cap (length (plain r) - pos r) in
      let b := take n (drop (pos r) (plain r)) in
      let '(p, k) := if decide (pos r + n = length (plain r))%nat then ([], 0%nat) else (plain r, (pos r + n)%nat) in
      Some (Ready b, mk_rxs (rx_io x) (rx_session x) (mk_rx p k (stage r) (hdr r) (frame r) (frame_len r) (eof r))) in
  if bool_decide (length (plain (rx x)) <= pos (rx x))%nat && negb (eof (rx x)) then
    '(o, x) ← poll_fill_rx fuel x;
    match o with
    | Ready _ => deliver x
    | Pending => Some (Pending, x)
    | Failed => Some (Failed, x)
    end
  else deliver x.

(** The sending side: bytes sealed and not yet written. *)
Record Tx := mk_tx { tx_session : Session; tx_pending : list Z; tx_pos : nat }.

(** What the writes below do, one after the other: take some bytes, or not now. *)
Inductive accept := Takes (n : nat) | TakesLater | TakesNever.

(** [poll_flush]: the bytes written and what is left of the accepts. *)
Fixpoint poll_flush (acs : list accept) (t : Tx) : poll unit * list Z * Tx * list accept :=
  if decide (tx_pos t < length (tx_pending t))%nat then
    match acs with
    | [] | TakesLater :: _ => (Pending, [], t, tail acs)
    | TakesNever :: acs => (Failed, [], t, acs)
    | Takes n :: acs =>
        let rest := drop (tx_pos t) (tx_pending t) in
        let n := min n (length rest) in
        if decide (n = 0)%nat then (Failed, [], t, acs)
        else
          let '(o, out, t', acs') := poll_flush acs (mk_tx (tx_session t) (tx_pending t) (tx_pos t + n)) in
          (o, take n rest ++ out, t', acs')
    end
  else (Ready tt, [], mk_tx (tx_session t) [] 0, acs).

(** [poll_write]: how much was taken (all of it, unless there is an error). *)
Definition poll_write (acs : list accept) (buf : list Z) (t : Tx) : poll nat * list Z * Tx * list accept :=
  if decide (buf = []) then (Ready 0%nat, [], t, acs)
  else match seal (tx_session t) buf with
       | (Ok sealed, s) =>
           let '(o, out, t, acs) := poll_flush acs (mk_tx s (tx_pending t ++ sealed) (tx_pos t)) in
           (match o with Failed => Failed | _ => Ready (length buf) end, out, t, acs)
       | (_, s) => (Failed, [], mk_tx s (tx_pending t) (tx_pos t), acs)
       end.

(** *** Records on the wire *)

Context `{HP : !PrimitiveLaws P}.

(** The bytes of records under [key] from nonce [k] on, up to [k'], and the text. *)
Inductive wire (key : list Z) : Z -> list Z -> list Z -> Z -> Prop :=
| wire_nil k : wire key k [] [] k
| wire_cons k c ct bs ps k' :
    (length c <= MAX_PLAINTEXT_SIZE)%nat -> bytes c -> k < INVALID_NONCE -> encrypt key (record_nonce k) c = Some ct ->
    wire key (k + 1) bs ps k' -> wire key k (encode_record_header (length ct) ++ ct ++ bs) (c ++ ps) k'.

Lemma wire_app key k b1 p1 k1 b2 p2 k2 : wire key k b1 p1 k1 -> wire key k1 b2 p2 k2 -> wire key k (b1 ++ b2) (p1 ++ p2) k2.
Proof. induction 1 as [|? ? ? ? ? ? ? ? ? ? ? IH]; [done|]. intros Hw. rewrite <- !app_assoc. econstructor; eauto. Qed.

Lemma encrypt_length key n c ct : encrypt key n c = Some ct -> length ct = (length c + AEAD_TAG_LEN)%nat.
Proof.
  unfold encrypt. destruct (aead_encrypt key n [] c) as [[c' t]|] eqn:E; [|done]. cbn. intros [= <-].
  apply aead_encrypt_length in E as [E1 E2]. rewrite length_app, E1, E2. done.
Qed.

Lemma decrypt_encrypt key n c ct : bytes c -> encrypt key n c = Some ct -> decrypt key n ct = Some c.
Proof.
  intros Hb E. pose proof (encrypt_length _ _ _ _ E) as Hl. unfold encrypt in E.
  destruct (aead_encrypt key n [] c) as [[c' t]|] eqn:E'; [|done]. cbn in E. injection E as <-.
  pose proof (aead_encrypt_length _ _ _ _ _ _ E') as [H1 H2]. unfold decrypt.
  rewrite Hl. replace (length c + AEAD_TAG_LEN - AEAD_TAG_LEN)%nat with (length c') by lia.
  rewrite take_app_length, drop_app_length. by eapply aead_decrypt_encrypt.
Qed.

Lemma record_header_parse n rest : (n <= MAX_CIPHERTEXT_SIZE)%nat -> parse_record_header (encode_record_header n ++ rest) = Ok n.
Proof.
  intros Hn. unfold parse_record_header, encode_record_header. cbn [app parse_header]. step.
  assert (E : Z.to_nat (wrap 8 (Z.shiftr (Z.of_nat n) 8) * 256 + wrap 8 (Z.of_nat n)) = n).
  { rewrite Z.shiftr_div_pow2 by lia. unfold wrap, MAX_CIPHERTEXT_SIZE in *. change (2 ^ 8) with 256. Z.to_euclidean_division_equations; lia. }
  rewrite E, !bool_decide_eq_false_2 by (auto || lia). done.
Qed.

Lemma open_record s c ct : rx_failed s = false -> rx_nonce s < INVALID_NONCE -> bytes c -> (length c <= MAX_PLAINTEXT_SIZE)%nat ->
  encrypt (rx_cipher s) (record_nonce (rx_nonce s)) c = Some ct ->
  open s (encode_record_header (length ct) ++ ct) = (Ok c, set_rx s (rx_nonce s + 1) false).
Proof.
  intros Hf Hn Hb Hc E. pose proof (encrypt_length _ _ _ _ E) as Hl. unfold open.
  rewrite Hf, record_header_parse by (unfold MAX_CIPHERTEXT_SIZE, MAX_PLAINTEXT_SIZE, AEAD_TAG_LEN in *; lia).
  rewrite decide_False by (rewrite length_app; cbn; lia). rewrite decide_False by lia. rewrite decide_False by lia.
  change (drop HEADER_LEN (encode_record_header (length ct) ++ ct)) with ct. by rewrite (decrypt_encrypt _ _ _ _ Hb E).
Qed.

(** *** Sealing *)

Lemma chunks_spec fuel size l : (0 < size)%nat -> (length l <= fuel)%nat ->
  concat (chunks fuel size l) = l /\ Forall (fun c => length c <= size)%nat (chunks fuel size l).
Proof.
  intros Hs. revert l. induction fuel as [|fuel IH]; intros [|a l] Hl; cbn in Hl; try lia; try done.
  cbn [chunks concat]. destruct (IH (drop size (a :: l))) as [H1 H2]; [rewrite length_drop; cbn; lia|].
  rewrite H1, take_drop. split; [done|]. constructor; [rewrite length_take; lia|done].
Qed.

Lemma seal_chunks_wire cs s out s' : Forall bytes cs -> Forall (fun c => length c <= MAX_PLAINTEXT_SIZE)%nat cs -> 0 <= tx_nonce s <= INVALID_NONCE ->
  seal_chunks s cs = (Ok out, s') ->
  wire (tx_cipher s) (tx_nonce s) out (concat cs) (tx_nonce s') /\ tx_cipher s' = tx_cipher s /\ rx_failed s' = rx_failed s /\ 0 <= tx_nonce s' <= INVALID_NONCE.
Proof.
  revert s out. induction cs as [|c cs IH]; intros s out; cbn [seal_chunks concat].
  { intros _ _ Hn [= <- <-]. split; [constructor|done]. }
  intros [Hb Hbs]%Forall_cons_1 [Hc Hcs]%Forall_cons_1 Hn. case_decide as Hd; [done|].
  destruct (encrypt _ _ c) as [ct|] eqn:E; [|done].
  destruct (seal_chunks (set_tx s (tx_nonce s + 1)) cs) as [[out'|e|] s1] eqn:Hs; step; try done.
  intros [= <- <-]. destruct (IH (set_tx s (tx_nonce s + 1)) out' Hbs Hcs) as (H1 & H2 & H3 & H4); [cbn; lia|done|]. cbn in H1, H2, H3.
  split; [|done]. econstructor; try done. lia.
Qed.

Lemma seal_wire s p out s' : bytes p -> 0 <= tx_nonce s <= INVALID_NONCE -> seal s p = (Ok out, s') ->
  wire (tx_cipher s) (tx_nonce s) out p (tx_nonce s') /\ tx_cipher s' = tx_cipher s /\ 0 <= tx_nonce s' <= INVALID_NONCE.
Proof.
  intros Hb Hn Hs. unfold seal in Hs.
  destruct (chunks_spec (length p) MAX_PLAINTEXT_SIZE p) as [H1 H2]; [unfold MAX_PLAINTEXT_SIZE; lia|done|].
  apply seal_chunks_wire in Hs as (Hw & Hc & _ & Hr); [|rewrite <- H1 in Hb; revert Hb|done..].
  - rewrite H1 in Hw. done.
  - generalize (chunks (length p) MAX_PLAINTEXT_SIZE p). clear. induction l as [|c l IH]; [done|]. cbn. intros [? ?]%Forall_app. constructor; auto.
Qed.

(** *** Receiving *)

(** The part of a record that has been read. *)
Definition buffered (r : RxState) : list Z := match stage r with Header => hdr r | Body => frame r end.

Definition stage_ok (r : RxState) : Prop :=
  match stage r with
  | Header => (length (hdr r) <= HEADER_LEN)%nat
  | Body => exists len, parse_record_header (hdr r) = Ok len /\ take HEADER_LEN (frame r) = hdr r /\ length (hdr r) = HEADER_LEN /\
      frame_len r = (HEADER_LEN + len)%nat /\ (length (frame r) <= frame_len r)%nat
  end.

(** What the receiver holds, what has arrived and what is to come ([future]) are
    records of the text that is still to be delivered. *)
Record receiving (key : list Z) (x : Rx) (future todo : list Z) : Prop := {
  rc_key : rx_cipher (rx_session x) = key;
  rc_live : rx_failed (rx_session x) = false;
  rc_eof : eof (rx x) = false;
  rc_open : closed (rx_io x) = false;
  rc_pieces : Forall (fun p => p <> []) (pieces (rx_io x));
  rc_stage : stage_ok (rx x);
  rc_pos : (pos (rx x) <= length (plain (rx x)))%nat;
  rc_wire : exists ps k', wire key (rx_nonce (rx_session x)) (buffered (rx x) ++ concat (pieces (rx_io x)) ++ future) ps k' /\
    todo = drop (pos (rx x)) (plain (rx x)) ++ ps
}.

Lemma io_read_bytes io cap : (0 < cap)%nat -> closed io = false -> Forall (fun p => p <> []) (pieces io) ->
  (pieces io = [] /\ io_read io cap = (IoPending, io)) \/
  (exists b io', io_read io cap = (Bytes b, io') /\ b <> [] /\ (length b <= cap)%nat /\ closed io' = false /\
     Forall (fun p => p <> []) (pieces io') /\ concat (pieces io) = b ++ concat (pieces io')).
Proof.
  intros Hc Hcl Hp. unfold io_read. destruct (pieces io) as [|p ps]; [left; by rewrite Hcl|right].
  apply Forall_cons_1 in Hp as [Hp Hps]. eexists _, _. split; [done|]. cbn [pieces closed]. split; [|split; [|split; [done|]]].
  - destruct p, cap; done || lia.
  - rewrite length_take. lia.
  - case_decide as Hd; cbn [concat].
    + split; [done|]. by rewrite <- (take_drop cap p) at 1; rewrite Hd, app_nil_r.
    + split; [by constructor|]. by rewrite app_assoc, take_drop.
Qed.

(** Bytes on the wire start with a record. *)
Lemma wire_inv key k bs ps k' : wire key k bs ps k' -> bs <> [] ->
  exists c ct bs' ps', bs = encode_record_header (length ct) ++ ct ++ bs' /\ ps = c ++ ps' /\ (length c <= MAX_PLAINTEXT_SIZE)%nat /\ bytes c /\
    k < INVALID_NONCE /\ encrypt key (record_nonce k) c = Some ct /\ wire key (k + 1) bs' ps' k'.
Proof. intros Hw Hne. destruct Hw; [done|]. eexists _, _, _, _. eauto 10. Qed.

Definition measure (x : Rx) : nat :=
  3 * length (concat (pieces (rx_io x))) + 2 * length (buffered (rx x)) + match stage (rx x) with Header => 1 | Body => 0 end.

(** Bytes moved from below into a buffer change nothing else. *)
Lemma receiving_move key x io' r' future todo : receiving key x future todo -> closed io' = false -> Forall (fun p => p <> []) (pieces io') ->
  stage_ok r' -> eof r' = false -> pos r' = pos (rx x) -> plain r' = plain (rx x) ->
  buffered r' ++ concat (pieces io') = buffered (rx x) ++ concat (pieces (rx_io x)) ->
  receiving key (mk_rxs io' (rx_session x) r') future todo.
Proof.
  intros [Hk Hlive Heof Hop Hp Hst Hpos (ps & k' & Hw & Htodo)] Hc Hps Hst' He Hpo Hpl Hb. split; cbn; try done.
  - by rewrite Hpo, Hpl.
  - exists ps, k'. by rewrite Hpo, Hpl, app_assoc, Hb, <- app_assoc.
Qed.

Definition held (x : Rx) : nat := length (buffered (rx x)) + length (concat (pieces (rx_io x))).

(** All that has arrived is used up, in the middle of a record or before one. *)
Definition waiting (x : Rx) : Prop :=
  pieces (rx_io x) = [] /\ (length (plain (rx x)) <= pos (rx x))%nat /\
  match stage (rx x) with Header => (length (hdr (rx x)) < HEADER_LEN)%nat | Body => (length (frame (rx x)) < frame_len (rx x))%nat end.

(** One turn of the loop goes on with less to do, or ends it. *)
Definition turn_ok (key : list Z) (x : Rx) (future todo : list Z) : Prop :=
  (exists x', (forall fuel, poll_fill_rx (S fuel) x = poll_fill_rx fuel x') /\ receiving key x' future todo /\
     (length (plain (rx x')) <= pos (rx x'))%nat /\ (measure x' < measure x)%nat /\ (held x' <= held x)%nat) \/
  (exists o x', (forall fuel, poll_fill_rx (S fuel) x = Some (o, x')) /\ receiving key x' future todo /\ (held x' <= held x)%nat /\
     ((o = Ready tt /\ (pos (rx x') < length (plain (rx x')))%nat) \/
      (o = Pending /\ waiting x'))).

Lemma turn_header key x future todo : receiving key x future todo -> (length (plain (rx x)) <= pos (rx x))%nat -> stage (rx x) = Header ->
  (length (hdr (rx x)) < HEADER_LEN)%nat -> turn_ok key x future todo.
Proof.
  intros R Hpl Hs Hh. destruct x as [io s r]. cbn [rx] in *.
  destruct (io_read_bytes io (HEADER_LEN - length (hdr r))) as [[Hnil E]|(b & io' & E & Hb & Hlb & Hcl & Hp & Hcat)]; [lia|apply R..| |].
  - right. exists Pending, (mk_rxs io s r). split; [|split; [done|]; split; [done|]; right; split; [done|]; unfold waiting; cbn; by rewrite Hs].
    intros fuel. cbn [poll_fill_rx rx rx_io rx_session]. by rewrite Hs, decide_True, E by done.
  - left. exists (mk_rxs io' s (with_hdr r (hdr r ++ b))). split; [|split; [|split; [done|]]].
    + intros fuel. cbn [poll_fill_rx rx rx_io rx_session]. by rewrite Hs, decide_True, E by done.
    + apply (receiving_move key (mk_rxs io s r)); try done; [|apply R|]; unfold stage_ok, buffered; cbn; rewrite Hs; [rewrite length_app; lia|].
      rewrite Hcat. by rewrite app_assoc.
    + assert (0 < length b)%nat by (destruct b; [done|cbn; lia]). unfold measure, held, buffered. cbn. rewrite Hs, Hcat, !length_app. lia.
Qed.

Lemma turn_parse key x future todo : receiving key x future todo -> (length (plain (rx x)) <= pos (rx x))%nat -> stage (rx x) = Header ->
  length (hdr (rx x)) = HEADER_LEN -> turn_ok key x future todo.
Proof.
  intros R Hpl Hs Hh. destruct x as [io s r]. cbn [rx] in *.
  destruct (rc_wire _ _ _ _ R) as (ps & k' & Hw & Htodo). cbn [rx rx_io rx_session] in *. unfold buffered in Hw. rewrite Hs in Hw.
  destruct (wire_inv _ _ _ _ _ Hw) as (c & ct & bs' & ps' & Heq & _ & Hc & _ & _ & He & _).
  { intros E%app_nil. destruct E as [E _]. rewrite E in Hh. done. }
  assert (Hhdr : hdr r = encode_record_header (length ct)).
  { apply (f_equal (take HEADER_LEN)) in Heq. rewrite <- Hh, take_app_length, Hh in Heq. done. }
  pose proof (encrypt_length _ _ _ _ He) as Hl.
  assert (Hparse : parse_record_header (hdr r) = Ok (length ct)).
  { rewrite Hhdr, <- (app_nil_r (encode_record_header _)). apply record_header_parse. unfold MAX_CIPHERTEXT_SIZE, MAX_PLAINTEXT_SIZE, AEAD_TAG_LEN in *. lia. }
  left. exists (mk_rxs io s (mk_rx (plain r) (pos r) Body (hdr r) (hdr r) (HEADER_LEN + length ct) (eof r))). split; [|split; [|split; [done|]]].
  - intros fuel. cbn [poll_fill_rx rx rx_io rx_session]. by rewrite Hs, decide_False, Hparse by lia.
  - apply (receiving_move key (mk_rxs io s r)); try done; try apply R.
    + exists (length ct). cbn [hdr frame frame_len]. rewrite take_ge by (rewrite Hh; lia). split; [done|]. split; [done|]. split; [done|]. split; [done|lia].
    + unfold buffered. cbn. by rewrite Hs.
  - unfold measure, held, buffered. cbn. rewrite Hs. lia.
Qed.

Lemma turn_body key x future todo : receiving key x future todo -> (length (plain (rx x)) <= pos (rx x))%nat -> stage (rx x) = Body ->
  (length (frame (rx x)) < frame_len (rx x))%nat -> turn_ok key x future todo.
Proof.
  intros R Hpl Hs Hh. destruct x as [io s r]. cbn [rx] in *.
  destruct (io_read_bytes io (frame_len r - length (frame r))) as [[Hnil E]|(b & io' & E & Hb & Hlb & Hcl & Hp & Hcat)]; [lia|apply R..| |].
  - right. exists Pending, (mk_rxs io s r). split; [|split; [done|]; split; [done|]; right; split; [done|]; unfold waiting; cbn; by rewrite Hs].
    intros fuel. cbn [poll_fill_rx rx rx_io rx_session]. by rewrite Hs, decide_True, E by done.
  - left. exists (mk_rxs io' s (with_frame r (frame r ++ b))). split; [|split; [|split; [done|]]].
    + intros fuel. cbn [poll_fill_rx rx rx_io rx_session]. by rewrite Hs, decide_True, E by done.
    + pose proof (rc_stage _ _ _ _ R) as Hst. unfold stage_ok in Hst. cbn [rx] in Hst. rewrite Hs in Hst. destruct Hst as (len & H1 & H2 & H3 & H4 & H5).
      assert (Hlen : (HEADER_LEN <= length (frame r))%nat) by (apply (f_equal length) in H2; rewrite length_take in H2; lia).
      apply (receiving_move key (mk_rxs io s r)); try done; [|apply R|]; unfold stage_ok, buffered; cbn; rewrite Hs.
      * exists len. rewrite take_app_le, length_app by done. split; [done|]. split; [done|]. split; [done|]. split; [done|lia].
      * rewrite Hcat. by rewrite app_assoc.
    + assert (0 < length b)%nat by (destruct b; [done|cbn; lia]). unfold measure, held, buffered. cbn. rewrite Hs, Hcat, !length_app. lia.
Qed.

Lemma turn_open key x future todo : receiving key x future todo -> (length (plain (rx x)) <= pos (rx x))%nat -> stage (rx x) = Body ->
  (frame_len (rx x) <= length (frame (rx x)))%nat -> turn_ok key x future todo.
Proof.
  intros R Hpl Hs Hh. destruct x as [io s r]. destruct R as [Hk Hlive Heof Hop Hp Hst Hpos (ps & k' & Hw & Htodo)]. cbn [rx rx_io rx_session] in *.
  rewrite drop_ge in Htodo by done. cbn [app] in Htodo. subst todo.
  unfold stage_ok in Hst. unfold buffered in Hw. rewrite Hs in Hst, Hw. destruct Hst as (len & H1 & H2 & H3 & H4 & H5).
  destruct (wire_inv _ _ _ _ _ Hw) as (c & ct & bs' & ps' & Heq & -> & Hc & Hb & Hn & He & Hw').
  { intros E%app_nil. destruct E as [E _]. rewrite E in H2. rewrite <- H2 in H3. done. }
  pose proof (encrypt_length _ _ _ _ He) as Hl.
  assert (Hlen : (HEADER_LEN <= length (frame r))%nat) by (apply (f_equal length) in H2; rewrite length_take in H2; lia).
  assert (Hhdr : hdr r = encode_record_header (length ct)).
  { rewrite <- H2. apply (f_equal (take HEADER_LEN)) in Heq. rewrite take_app_le in Heq by done. done. }
  assert (len = length ct) as ->.
  { rewrite Hhdr, <- (app_nil_r (encode_record_header _)), record_header_parse in H1 by (unfold MAX_CIPHERTEXT_SIZE, MAX_PLAINTEXT_SIZE, AEAD_TAG_LEN in *; lia).
    congruence. }
  rewrite (app_assoc (encode_record_header _)) in Heq. apply app_inj_1 in Heq as [Hfr Hrest]; [|rewrite length_app; change (length (encode_record_header (length ct))) with HEADER_LEN; lia].
  assert (Hopen : open s (frame r) = (Ok c, set_rx s (rx_nonce s + 1) false)) by (rewrite Hfr; apply open_record; congruence || done).
  set (x' := mk_rxs io (set_rx s (rx_nonce s + 1) false) (mk_rx c 0 Header [] [] 0 (eof r))).
  assert (R' : receiving key x' future (c ++ ps')).
  { split; cbn; try done; [unfold stage_ok; cbn; lia|lia|]. exists ps', k'. rewrite drop_0. unfold buffered. cbn. by rewrite Hrest. }
  assert (Hless : (measure x' < measure (mk_rxs io s r))%nat /\ (held x' <= held (mk_rxs io s r))%nat).
  { unfold measure, held, buffered. cbn. rewrite Hs. unfold HEADER_LEN in *. lia. }
  assert (Hrun : forall fuel, poll_fill_rx (S fuel) (mk_rxs io s r) = if decide (c = []) then poll_fill_rx fuel x' else Some (Ready tt, x')).
  { intros fuel. cbn [poll_fill_rx rx rx_io rx_session]. by rewrite Hs, decide_False, Hopen by lia. }
  destruct (decide (c = [])) as [->|Hne].
  - left. exists x'. split; [done|]. split; [done|]. split; [done|]. apply Hless.
  - right. exists (Ready tt), x'. split; [done|]. split; [done|]. split; [apply Hless|]. left. split; [done|]. cbn. destruct c; [done|cbn; lia].
Qed.

Lemma turns key x future todo : receiving key x future todo -> (length (plain (rx x)) <= pos (rx x))%nat -> turn_ok key x future todo.
Proof.
  intros R Hpl. pose proof (rc_stage _ _ _ _ R) as Hst. unfold stage_ok in Hst. destruct (stage (rx x)) eqn:Hs.
  - destruct (decide (length (hdr (rx x)) < HEADER_LEN)%nat); [by apply turn_header|]. apply turn_parse; try done. lia.
  - destruct (decide (length (frame (rx x)) < frame_len (rx x))%nat); [by apply turn_body|]. apply turn_open; try done. lia.
Qed.

Lemma fill_ok key fuel x future todo : receiving key x future todo -> (length (plain (rx x)) <= pos (rx x))%nat -> (measure x < fuel)%nat ->
  exists o x', poll_fill_rx fuel x = Some (o, x') /\ receiving key x' future todo /\ (held x' <= held x)%nat /\
    ((o = Ready tt /\ (pos (rx x') < length (plain (rx x')))%nat) \/
     (o = Pending /\ waiting x')).
Proof.
  revert x. induction fuel as [|fuel IH]; intros x R Hpl Hf; [lia|].
  destruct (turns key x future todo R Hpl) as [(x1 & E & R1 & Hpl1 & Hm & Hh)|(o & x1 & E & R1 & Hh & Ho)].
  - destruct (IH x1 R1 Hpl1) as (o & x' & E' & R' & Hh' & Ho); [lia|]. exists o, x'. rewrite E. split; [done|]. split; [done|]. split; [lia|done].
  - exists o, x1. rewrite E. done.
Qed.

(** A read of the stream delivers what comes next, and has to wait only when all that
    has arrived is used up. *)
Lemma read_ok key fuel cap x future todo : receiving key x future todo -> (measure x < fuel)%nat -> (0 < cap)%nat ->
  exists o x', poll_read fuel cap x = Some (o, x') /\ (held x' <= held x)%nat /\
    ((exists b todo', o = Ready b /\ b <> [] /\ todo = b ++ todo' /\ receiving key x' future todo') \/
     (o = Pending /\ receiving key x' future todo /\ waiting x')).
Proof.
  intros R Hf Hcap.
  assert (Hdel : forall y, receiving key y future todo -> (pos (rx y) < length (plain (rx y)))%nat ->
    exists b todo', let n := min cap (length (plain (rx y)) - pos (rx y)) in
      b = take n (drop (pos (rx y)) (plain (rx y))) /\ b <> [] /\ todo = b ++ todo' /\
      receiving key (let '(p, k) := if decide (pos (rx y) + n = length (plain (rx y)))%nat then ([], 0%nat) else (plain (rx y), (pos (rx y) + n)%nat) in
        mk_rxs (rx_io y) (rx_session y) (mk_rx p k (stage (rx y)) (hdr (rx y)) (frame (rx y)) (frame_len (rx y)) (eof (rx y)))) future todo').
  { intros y [Hk Hlive Heof Hop Hp Hst Hpos (ps & k' & Hw & Htodo)] Hlt. eexists _, (drop (pos (rx y) + min cap (length (plain (rx y)) - pos (rx y))) (plain (rx y)) ++ ps).
    split; [done|]. set (n := min _ _). split; [|split].
    - intros E%(f_equal length). rewrite length_take, length_drop in E. cbn in E. lia.
    - rewrite Htodo, app_assoc. f_equal. rewrite <- drop_drop, take_drop. done.
    - case_decide as Hd; split; cbn; try done; try lia; exists ps, k'; (split; [done|]); [by rewrite drop_ge by lia|done]. }
  unfold poll_read. rewrite (rc_eof _ _ _ _ R), andb_true_r. case_bool_decide as Hpl.
  - destruct (fill_ok key fuel x future todo R Hpl Hf) as (o & x' & -> & R' & Hh & [[-> Hlt]|[-> Hwait]]); cbn [mbind option_bind].
    + destruct (Hdel x' R' Hlt) as (b & todo' & Hb & Hne & Ht & Hr). rewrite decide_False by lia. cbv zeta in *.
      rewrite <- Hb. destruct (decide (pos (rx x') + _ = _)%nat); (eexists _, _; split; [done|]; split; [done|]; left; exists b, todo'; done).
    + eexists _, _. split; [done|]. split; [done|]. right. done.
  - destruct (Hdel x R) as (b & todo' & Hb & Hne & Ht & Hr); [lia|]. rewrite decide_False by lia. cbv zeta in *.
    rewrite (rc_eof _ _ _ _ R) in Hr. rewrite <- Hb. destruct (decide (pos (rx x) + _ = _)%nat); (eexists _, _; split; [done|]; split; [done|]; left; exists b, todo'; done).
Qed.

(** *** Sending *)

(** A sequence of writes, each with what the connection below takes meanwhile: the
    bytes that went out.  [None] when one of them fails. *)
Fixpoint write_all (ws : list (list accept * list Z)) (t : Tx) : option (list Z * Tx) :=
  match ws with
  | [] => Some ([], t)
  | (acs, buf) :: ws =>
      match poll_write acs buf t with
      | (Ready _, out, t, _) => '(rest, t) ← write_all ws t; Some (out ++ rest, t)
      | _ => None
      end
  end.

Lemma flush_out acs t : (tx_pos t <= length (tx_pending t))%nat ->
  match poll_flush acs t with
  | (o, out, t', _) => tx_session t' = tx_session t /\ (tx_pos t' <= length (tx_pending t'))%nat /\
      drop (tx_pos t) (tx_pending t) = out ++ drop (tx_pos t') (tx_pending t')
  end.
Proof.
  revert t. induction acs as [|a acs IH]; intros t Hp; cbn [poll_flush]; case_decide as Hd; try done.
  1, 3: cbn; split; [done|]; split; [lia|]; by rewrite drop_ge by lia.
  destruct a as [n| |]; try done. case_decide as Hn; [done|]. set (k := min n _) in *.
  specialize (IH (mk_tx (tx_session t) (tx_pending t) (tx_pos t + k))). cbn [tx_session tx_pending tx_pos] in IH.
  destruct (poll_flush acs _) as [[[o out] t'] acs']. destruct IH as (H1 & H2 & H3); [unfold k; rewrite length_drop; lia|].
  split; [done|]. split; [done|]. rewrite <- app_assoc, <- H3, <- drop_drop, take_drop. done.
Qed.

(** Whatever has been written, the rest of it waits in the buffer, in order. *)
Lemma write_all_wire ws t out t' : Forall (fun w => bytes w.2) ws -> 0 <= tx_nonce (tx_session t) <= INVALID_NONCE ->
  (tx_pos t <= length (tx_pending t))%nat -> write_all ws t = Some (out, t') ->
  exists bs, wire (tx_cipher (tx_session t)) (tx_nonce (tx_session t)) bs (concat (snd <$> ws)) (tx_nonce (tx_session t')) /\
    drop (tx_pos t) (tx_pending t) ++ bs = out ++ drop (tx_pos t') (tx_pending t').
Proof.
  revert t out. induction ws as [|[acs buf] ws IH]; intros t out; cbn [write_all].
  { intros _ _ _ [= <- <-]. exists []. split; [constructor|]. by rewrite app_nil_r. }
  intros [Hb Hbs]%Forall_cons_1 Hn Hp. cbn in Hb. unfold poll_write. case_decide as Hnil.
  { subst buf. destruct (write_all ws t) as [[rest t1]|] eqn:E; [|done]. cbn. intros [= <- <-]. by apply (IH t). }
  destruct (seal (tx_session t) buf) as [[sealed|e|] s] eqn:Hs; [|done..].
  destruct (seal_wire _ _ _ _ Hb Hn Hs) as (Hw & Hc & Hn').
  pose proof (flush_out acs (mk_tx s (tx_pending t ++ sealed) (tx_pos t))) as Hf.
  destruct (poll_flush acs _) as [[[o out1] t1] acs']. cbn [tx_session tx_pending tx_pos] in Hf.
  destruct Hf as (H1 & H2 & H3); [rewrite length_app; lia|].
  assert (Hrun : match o with Failed => None | _ => '(rest, t) ← write_all ws t1; Some (out1 ++ rest, t) end = Some (out, t') ->
    exists rest, write_all ws t1 = Some (rest, t') /\ out = out1 ++ rest).
  { destruct o; [| |done]; destruct (write_all ws t1) as [[rest t2]|]; cbn; [|done| |done]; intros [= <- <-]; eauto. }
  intros Hr. destruct Hrun as (rest & Hrest & ->); [by destruct o|].
  destruct (IH t1 rest Hbs) as (bs & Hbs1 & Hbs2); [by rewrite H1|done|done|]. rewrite H1, Hc in Hbs1.
  exists (sealed ++ bs). split; [cbn; by eapply wire_app|].
  rewrite drop_app_le in H3 by done. by rewrite app_assoc, H3, <- !app_assoc, Hbs2.
Qed.

(** *** From end to end *)

Inductive rx_event := Arrives (p : list Z) | Reads (cap : nat).

Fixpoint run_rx (fuel : nat) (x : Rx) (evs : list rx_event) : option (list (poll (list Z)) * Rx) :=
  match evs with
  | [] => Some ([], x)
  | Arrives p :: evs => run_rx fuel (mk_rxs (mk_io (pieces (rx_io x) ++ [p]) (closed (rx_io x))) (rx_session x) (rx x)) evs
  | Reads cap :: evs =>
      '(o, x) ← poll_read fuel cap x;
      '(os, x) ← run_rx fuel x evs;
      Some (o :: os, x)
  end.

Definition arrived (evs : list rx_event) : list Z := concat (omap (fun e => match e with Arrives p => Some p | Reads _ => None end) evs).

Definition collected (os : list (poll (list Z))) : list Z := concat (omap (fun o => match o with Ready b => Some b | _ => None end) os).

Definition event_ok (e : rx_event) : Prop := match e with Arrives p => p <> [] | Reads cap => (0 < cap)%nat end.

Lemma waiting_done key x todo : receiving key x [] todo -> waiting x -> todo = [].
Proof.
  intros R (Hnil & Hpl & Hinc). destruct (rc_wire _ _ _ _ R) as (ps & k' & Hw & ->). rewrite drop_ge by done. cbn [app].
  rewrite Hnil in Hw. cbn [concat app] in Hw. rewrite app_nil_r in Hw. destruct (decide (buffered (rx x) = [])) as [E|Hne].
  { rewrite E in Hw. by inversion Hw. }
  destruct (wire_inv _ _ _ _ _ Hw Hne) as (c & ct & bs & ps' & Heq & _ & Hc & _ & _ & He & _). exfalso.
  pose proof (rc_stage _ _ _ _ R) as Hst. unfold stage_ok in Hst. unfold buffered in Heq. destruct (stage (rx x)).
  - apply (f_equal length) in Heq. rewrite length_app in Heq. change (length (encode_record_header (length ct))) with HEADER_LEN in Heq. lia.
  - destruct Hst as (len & H1 & H2 & H3 & H4 & H5). pose proof (encrypt_length _ _ _ _ He) as Hl.
    rewrite <- H2, Heq in H1. change (take HEADER_LEN (encode_record_header (length ct) ++ ct ++ bs)) with (encode_record_header (length ct)) in H1.
    rewrite <- (app_nil_r (encode_record_header _)), record_header_parse in H1 by (unfold MAX_CIPHERTEXT_SIZE, MAX_PLAINTEXT_SIZE, AEAD_TAG_LEN in *; lia).
    injection H1 as <-. apply (f_equal length) in Heq. rewrite !length_app in Heq. change (length (encode_record_header (length ct))) with HEADER_LEN in Heq. lia.
Qed.

Lemma run_rx_ok key evs fuel x future todo rest : Forall event_ok evs -> receiving key x future todo -> future = arrived evs ++ rest ->
  (3 * (held x + length (arrived evs)) + 1 < fuel)%nat ->
  exists os x' todo', run_rx fuel x evs = Some (os, x') /\ Forall (fun o => o <> Failed) os /\
    todo = collected os ++ todo' /\ receiving key x' rest todo' /\ (held x' <= held x + length (arrived evs))%nat.
Proof.
  revert x future todo. induction evs as [|[p|cap] evs IH]; intros x future todo He R Hfut Hf; cbn [run_rx].
  - exists [], x, todo. cbn in Hfut. subst rest. split; [done|]. split; [done|]. split; [done|]. split; [done|lia].
  - apply Forall_cons_1 in He as [Hp He]. cbn in Hp. unfold arrived in Hfut, Hf |- *. cbn [omap list_omap concat] in Hfut, Hf |- *.
    fold (arrived evs) in Hfut, Hf |- *.
    set (x1 := mk_rxs _ _ _). assert (Hh : held x1 = (held x + length p)%nat).
    { unfold held, x1. cbn. rewrite concat_app, length_app. cbn. rewrite app_nil_r. lia. }
    destruct (IH x1 (arrived evs ++ rest) todo He) as (os & x' & todo' & H1 & H2 & H3 & H4 & H5); [|done|rewrite length_app in Hf; lia|].
    + destruct R as [Hk Hlive Heof Hop Hps Hst Hpos (ps & k' & Hw & Htodo)]. split; cbn; try done; [apply Forall_app; auto|].
      exists ps, k'. rewrite concat_app. cbn [concat]. rewrite app_nil_r, <- (app_assoc (concat _)). rewrite Hfut, <- app_assoc in Hw. done.
    + exists os, x', todo'. rewrite length_app. split; [done|]. split; [done|]. split; [done|]. split; [done|lia].
  - apply Forall_cons_1 in He as [Hp He]. cbn in Hp. change (arrived (Reads cap :: evs)) with (arrived evs) in *.
    assert (Hm : (measure x <= 3 * held x + 1)%nat) by (unfold measure, held; destruct (stage (rx x)); lia).
    destruct (read_ok key fuel cap x future todo R) as (o & x1 & E & Hh & Ho); [lia|done|]. rewrite E. cbn [mbind option_bind].
    destruct Ho as [(b & todo1 & -> & Hb & -> & R1)|(-> & R1 & _)].
    + destruct (IH x1 future todo1 He R1 Hfut) as (os & x' & todo' & -> & H2 & -> & H4 & H5); [lia|]. cbn [mbind option_bind].
      eexists _, _, todo'. split; [done|]. split; [by constructor|]. split; [|split; [done|lia]]. unfold collected. cbn. by rewrite app_assoc.
    + destruct (IH x1 future todo He R1 Hfut) as (os & x' & todo' & -> & H2 & -> & H4 & H5); [lia|]. cbn [mbind option_bind].
      eexists _, _, todo'. split; [done|]. split; [by constructor|]. split; [done|]. split; [done|lia].
Qed.

(** C26: an encrypted stream is transparent.  Texts are written at one end, taken by
    the connection below in any portions; the bytes arrive at the other end, which
    holds the other half of the session, in any pieces and between reads of any sizes.
    No read fails, what the reads deliver is the beginning of what was written, and
    when all that was written has gone out and arrived, a read that has to wait has
    nothing left to deliver. *)
Theorem noise_stream_transparent (ts rs : Session) (ws : list (list accept * list Z)) (out rest : list Z) (t : Tx) (evs : list rx_event) (fuel : nat)
    (Hkey : rx_cipher rs = tx_cipher ts) (Htn : tx_nonce ts = 0) (Hrn : rx_nonce rs = 0) (Hlive : rx_failed rs = false)
    (Hws : Forall (fun w => bytes w.2) ws) (Hout : write_all ws (mk_tx ts [] 0) = Some (out, t))
    (Hevs : Forall event_ok evs) (Harr : out = arrived evs ++ rest) (Hfuel : (3 * length (arrived evs) + 1 < fuel)%nat) :
  exists os x todo, run_rx fuel (mk_rxs (mk_io [] false) rs rx_new) evs = Some (os, x) /\ Forall (fun o => o <> Failed) os /\
    concat (snd <$> ws) = collected os ++ todo /\
    (rest = [] -> drop (tx_pos t) (tx_pending t) = [] -> forall cap x', (0 < cap)%nat -> poll_read fuel cap x = Some (Pending, x') -> todo = []).
Proof.
  destruct (write_all_wire ws (mk_tx ts [] 0) out t Hws) as (bs & Hw & Hbs); cbn in *; [rewrite Htn; unfold INVALID_NONCE; lia|lia|done|].
  set (x0 := mk_rxs (mk_io [] false) rs rx_new).
  assert (R : receiving (tx_cipher ts) x0 bs (concat (snd <$> ws))).
  { split; cbn; try done; [unfold stage_ok; cbn; lia|]. eexists _, _. rewrite Hrn, <- Htn. split; [done|done]. }
  destruct (run_rx_ok (tx_cipher ts) evs fuel x0 bs (concat (snd <$> ws)) (rest ++ drop (tx_pos t) (tx_pending t)) Hevs R)
    as (os & x & todo & H1 & H2 & H3 & H4 & H5); [by rewrite Hbs, Harr, <- app_assoc|done|].
  exists os, x, todo. split; [done|]. split; [done|]. split; [done|]. intros -> Hp cap x' Hcap Hread. rewrite Hp in H4. cbn [app] in H4.
  assert (Hm : (measure x <= 3 * held x + 1)%nat) by (unfold measure, held; destruct (stage (rx x)); lia).
  change (held x0) with 0%nat in H5.
  destruct (read_ok (tx_cipher ts) fuel cap x [] todo H4) as (o & x1 & E & _ & Ho); [lia|done|].
  rewrite Hread in E. injection E as <- <-. destruct Ho as [(b & td & Hbad & _)|(_ & R1 & Hwait)]; [done|]. by eapply waiting_done.
Qed.

(** Errors: once a record fails, no later one is accepted; but the sending side goes
    on. *)
Lemma desync_for_good s f : rx_failed s = true -> open s f = (Err Desync, s).
Proof. intros H. unfold open. by rewrite H. Qed.

Lemma open_error_fails s f e s' : open s f = (Err e, s') -> rx_failed s' = true.
Proof.
  unfold open. destruct (rx_failed s) eqn:Hf; [intros [= _ <-]; done|]. destruct (parse_record_header f); [|intros [= _ <-]; done|done].
  repeat (case_decide; [intros [= _ <-]; done|]). destruct (decrypt _ _ _); [done|]. intros [= _ <-]. done.
Qed.

Lemma seal_after_failure s b k : (seal (set_rx s k true) b).1 = (seal (set_rx s k false) b).1.
Proof.
  unfold seal. generalize (chunks (length b) MAX_PLAINTEXT_SIZE b). intros l. revert s. induction l as [|c l IH]; intros s; [done|].
  cbn [seal_chunks set_rx set_tx tx_nonce tx_cipher]. case_decide; [done|]. destruct (encrypt _ _ c) as [ct|]; [|done].
  specialize (IH (set_tx s (tx_nonce s + 1))). cbn [set_tx set_rx tx_cipher rx_cipher version handshake_hash peer tx_nonce rx_nonce rx_failed] in IH.
  destruct (seal_chunks _ l) as [r1 s1], (seal_chunks _ l) as [r2 s2] in IH |- *. cbn in *. by rewrite IH.
Qed.
End Stream.

(** ** Samples *)

Module ToyIK.
(** Keys are their own public keys; a message carries the key of its sender. *)
Record toy_ik := mk_toy_ik { own : list Z; other : option (list Z) }.

#[export] Instance toy_noise_ik : NoiseIK := {|
  ik_state := toy_ik;
  ik_public k := k;
  ik_initiator _ _ remote priv := Some (mk_toy_ik priv (Some remote));
  ik_responder _ _ priv := Some (mk_toy_ik priv None);
  ik_write st n := Some (take n (own st ++ replicate n 0), st);
  ik_read st m := Some (match other st with Some _ => st | None => mk_toy_ik (own st) (Some (take 32 m)) end);
  ik_remote_static st := other st;
  ik_hash _ := replicate 32 0;
  ik_split _ := (replicate 32 1, replicate 32 2)
|}.

#[export] Instance toy_ik_laws : NoiseIKLaws toy_noise_ik.
Proof.
  split; [|done]. intros ea eb prologue a b Ha Hb. cbn. eexists _, _, _, _, _, _. eexists _, _. split; [done|]. split; [done|].
  assert (Hl : length (take INITIATION_NOISE_BODY_LEN (a ++ replicate INITIATION_NOISE_BODY_LEN 0)) = INITIATION_NOISE_BODY_LEN) by (rewrite length_take, length_app, length_replicate; lia).
  split; [done|]. split; [done|]. cbn. split; [done|]. cbn. split.
  { f_equal. rewrite take_take, take_app_le by (unfold INITIATION_NOISE_BODY_LEN; cbn; lia). apply take_ge. cbn. lia. }
  split; [done|]. split; [rewrite length_take, length_app, Hb; done|]. done.
Qed.
End ToyIK.

Import Toy ToyIK.

Lemma ts_handshake_agrees_witness : exists resp ss, respond [] (replicate 32 7) (encode_initiation 141 (replicate 32 5 ++ replicate 64 0)) =
  Ok (resp, ss, replicate 32 5) /\ tx_cipher ss = replicate 32 2.
Proof.
  destruct (ts_handshake_agrees [] [] (replicate 32 5) (replicate 32 7) 141) as (h0 & init & h1 & resp & ss & cs & h2 & H1 & H2 & _ & H3 & _); [done|done|lia|].
  vm_compute in H1. injection H1 as <-. vm_compute in H2. injection H2 as <- _. exists resp, ss. split; [exact H3|].
  vm_compute in H3. by injection H3 as _ <-.
Defined.

Definition sample_session : Session := from_raw_keys (replicate 32 1) (replicate 32 1) 141.

Definition sample_sent : list Z :=
  match write_all [([Takes 5], [1; 2; 3]); ([Takes 100], [4; 5])] (mk_tx sample_session [] 0) with Some (b, _) => b | None => [] end.

Lemma noise_stream_transparent_witness :
  exists os x, run_rx 200 (mk_rxs (mk_io [] false) sample_session rx_new) [Arrives sample_sent; Reads 2; Reads 100; Reads 100; Reads 100] = Some (os, x) /\
    [1; 2; 3; 4; 5] = collected os.
Proof.
  destruct (noise_stream_transparent sample_session sample_session [([Takes 5], [1; 2; 3]); ([Takes 100], [4; 5])] sample_sent []
    (mk_tx (set_tx sample_session 2) [] 0) [Arrives sample_sent; Reads 2; Reads 100; Reads 100; Reads 100] 200) as (os & x & todo & H1 & _ & H2 & H3).
  - done.
  - done.
  - done.
  - done.
  - repeat constructor; lia.
  - vm_compute. done.
  - repeat constructor; try (cbn; lia). vm_compute. done.
  - vm_compute. done.
  - vm_compute. lia.
  - exists os, x. split; [exact H1|]. rewrite (H3 eq_refl eq_refl 1%nat x) in H2; [by rewrite app_nil_r in H2|lia|].
    vm_compute in H1. injection H1 as _ <-. vm_compute. done.
Defined.
End Controlbase.
