(* ===== verification/TsRelay.v ===== *)
(** * The relay of the Tailscale protocol, and the frames of the long poll

    [Derp]: the frames of rill-ts2021/src/derp.rs, the client that sends and receives
    packets through the relay, and the relay itself (server/derp.rs): sessions
    register under the key they prove to hold, and packets go to the session of the
    key they name.  [MapFrames]: how the client cuts the body of the long poll into
    the frames the server wrote (ts2021.rs, server/netmap.rs). *)

From Stdlib Require Import Ascii.
From stdpp Require Import relations.
From S2P Require Import Prelude Net Route AuthKey Json Tailnet TsServer TsWire.

Module Derp.

(** ** Frames *)

Definition FRAME_SERVER_KEY : Z := 0x01.
Definition FRAME_CLIENT_INFO : Z := 0x02.
Definition FRAME_SERVER_INFO : Z := 0x03.
Definition FRAME_SEND_PACKET : Z := 0x04.
Definition FRAME_RECV_PACKET : Z := 0x05.
Definition FRAME_KEEP_ALIVE : Z := 0x06.
Definition FRAME_NOTE_PREFERRED_DERP : Z := 0x07.
Definition FRAME_PING : Z := 0x12.
Definition FRAME_PONG : Z := 0x13.

Definition DERP_MAGIC : list Z := [0x44; 0x45; 0x52; 0x50; 0xf0; 0x9f; 0x94; 0x91].
Definition NONCE_LEN : nat := 24.
Definition KEY_LEN : nat := 32.
Definition MAX_FRAME : Z := 1024 * 1024.

Inductive DerpError := FrameTooLarge | InvalidGreeting | ShortPacket | BoxFailed.

(** [write_frame], and [build_recv_frame], [build_pong_frame] of the server. *)
Definition write_frame (t : Z) (payload : list Z) : list Z := [t] ++ be_bytes 4 (Z.of_nat (length payload)) ++ payload.

(** [read_frame] from the bytes that have come in: [None] while they are not enough;
    the frame and the bytes after it. *)
Definition read_frame (bs : list Z) : option (outcome DerpError (Z * list Z * list Z)) :=
  match bs with
  | t :: rest =>
      if decide (length rest < 4)%nat then None
      else
        let len := be_val (take 4 rest) in
        if decide (MAX_FRAME < len) then Some (Err FrameTooLarge)
        else
          let body := drop 4 rest in
          if decide (Z.of_nat (length body) < len) then None
          else Some (Ok (t, take (Z.to_nat len) body, drop (Z.to_nat len) body))
  | [] => None
  end.

Lemma read_write_frame t payload rest : Z.of_nat (length payload) <= MAX_FRAME ->
  read_frame (write_frame t payload ++ rest) = Some (Ok (t, payload, rest)).
Proof.
  intros Hl. unfold write_frame, read_frame. cbn [app]. rewrite <- app_assoc.
  assert (H4 : length (be_bytes 4 (Z.of_nat (length payload))) = 4%nat) by apply length_be_bytes.
  rewrite decide_False by (rewrite length_app, H4; lia).
  rewrite (take_app_le _ _ 4), (take_ge (be_bytes 4 _)) by (rewrite H4; lia).
  rewrite be_val_be_bytes by (unfold MAX_FRAME in Hl; uint). rewrite decide_False by lia.
  rewrite drop_app_length' by done. rewrite decide_False by (rewrite length_app; lia).
  rewrite Nat2Z.id, take_app_length, drop_app_length. done.
Qed.

(** ** The client *)

(** [nacl_box] of the library: the shared key of a public and a secret one, sealing and
    opening under a nonce. *)
Class NaclBox := {
  box_new : list Z -> list Z -> list Z;
  box_seal : list Z -> list Z -> list Z -> option (list Z);
  box_open : list Z -> list Z -> list Z -> option (list Z)
}.

Section Client.
Context `{B : NaclBox}.

(** The greeting of the server: its key. *)
Definition read_greeting (t : Z) (payload : list Z) : outcome DerpError (list Z) :=
  if bool_decide (t <> FRAME_SERVER_KEY) || bool_decide (length payload < length DERP_MAGIC + KEY_LEN)%nat
     || bool_decide (take (length DERP_MAGIC) payload <> DERP_MAGIC)
  then Err InvalidGreeting
  else Ok (take KEY_LEN (drop (length DERP_MAGIC) payload)).

(** The frame the client answers with; [info] is the text of its version. *)
Definition client_info (client_pub client_priv server_key nonce info : list Z) : outcome DerpError (list Z) :=
  boxed ← ok_or BoxFailed (box_seal (box_new server_key client_priv) nonce info);
  Ok (write_frame FRAME_CLIENT_INFO (client_pub ++ nonce ++ boxed)).

Definition send (dst pkt : list Z) : list Z := write_frame FRAME_SEND_PACKET (dst ++ pkt).

Definition keepalive : list Z := write_frame FRAME_KEEP_ALIVE [].
End Client.

Record ReceivedPacket := mk_packet { source : list Z; data : list Z }.

(** One frame in the loop of [recv]: a packet, an error, or what is written before the
    next one. *)
Definition recv_frame (t : Z) (payload : list Z) : outcome DerpError ReceivedPacket + list Z :=
  if decide (t = FRAME_RECV_PACKET) then
    inl (if decide (length payload < KEY_LEN)%nat then Err ShortPacket else Ok (mk_packet (take KEY_LEN payload) (drop KEY_LEN payload)))
  else if decide (t = FRAME_PING) then
    inr (if decide (8 <= length payload)%nat then write_frame FRAME_PONG (take 8 payload) else [])
  else inr [].

(** [recv]: the result, what was written and the bytes left; [None] when it waits.
    Every frame has five bytes at least, so the length of the input is fuel enough. *)
Fixpoint recv (fuel : nat) (bs : list Z) : option (outcome DerpError ReceivedPacket * list Z * list Z) :=
  match fuel with
  | O => None
  | S fuel =>
      match read_frame bs with
      | None => None
      | Some (Ok (t, payload, rest)) =>
          match recv_frame t payload with
          | inl r => Some (r, [], rest)
          | inr w => '(r, w', rest) ← recv fuel rest; Some (r, w ++ w', rest)
          end
      | Some (Err e) => Some (Err e, [], bs)
      | Some Panic => Some (Panic, [], bs)
      end
  end.

(** ** The relay *)

(** A connection is known by a number; the queue to its writer holds 64 frames. *)
Record DerpHub := mk_hub {
  hub : gmap (list Z) Z;
  queues : gmap Z (list (list Z));
  proven : gmap Z (list Z)
}.

Definition QUEUE : nat := 64.

Section Server.
Context `{B : NaclBox}.

Definition greeting (derp_pub : list Z) : list Z := write_frame FRAME_SERVER_KEY (DERP_MAGIC ++ derp_pub).

(** The client info frame of a new connection: the key it has proven to hold. *)
Definition check_client_info (derp_priv : list Z) (t : Z) (payload : list Z) : option (list Z) :=
  if bool_decide (t <> FRAME_CLIENT_INFO) || bool_decide (length payload < KEY_LEN + NONCE_LEN + 16)%nat then None
  else
    let client_pub := take KEY_LEN payload in
    let boxed := drop KEY_LEN payload in
    _ ← box_open (box_new client_pub derp_priv) (take NONCE_LEN boxed) (drop NONCE_LEN boxed);
    Some client_pub.

Definition register (h : DerpHub) (conn : Z) (client_pub : list Z) : DerpHub :=
  mk_hub (<[client_pub := conn]> (hub h)) (<[conn := []]> (queues h)) (<[conn := client_pub]> (proven h)).

(** [get(key).is_some_and(|tx| tx.try_send(frame).is_ok())] *)
Definition try_send (h : DerpHub) (key frame : list Z) : DerpHub :=
  match hub h !! key with
  | None => h
  | Some conn =>
      match queues h !! conn with
      | Some q => if decide (length q < QUEUE)%nat then mk_hub (hub h) (<[conn := q ++ [frame]]> (queues h)) (proven h) else h
      | None => h
      end
  end.

(** A frame on connection [conn], in the loop of [serve_derp]. *)
Definition on_frame (h : DerpHub) (conn t : Z) (payload : list Z) : DerpHub :=
  match proven h !! conn with
  | None => h
  | Some client_pub =>
      if bool_decide (t = FRAME_SEND_PACKET) && bool_decide (KEY_LEN < length payload)%nat
      then try_send h (take KEY_LEN payload) (write_frame FRAME_RECV_PACKET (client_pub ++ drop KEY_LEN payload))
      else if bool_decide (t = FRAME_PING) && bool_decide (8 <= length payload)%nat
      then try_send h client_pub (write_frame FRAME_PONG (take 8 payload))
      else h
  end.

(** The end of a connection: the entry of its key goes, whoever it is by now. *)
Definition on_end (h : DerpHub) (conn : Z) : DerpHub :=
  match proven h !! conn with
  | None => h
  | Some client_pub => mk_hub (delete client_pub (hub h)) (delete conn (queues h)) (delete conn (proven h))
  end.

Definition hub_new : DerpHub := mk_hub ∅ ∅ ∅.

(** The writer of a connection takes the next frame. *)
Definition on_write (h : DerpHub) (conn : Z) : DerpHub :=
  match queues h !! conn with
  | Some (_ :: q) => mk_hub (hub h) (<[conn := q]> (queues h)) (proven h)
  | _ => h
  end.

(** *** Runs *)

Context (derp_priv : list Z).

Inductive derp_step (h : DerpHub) : DerpHub -> Prop :=
| Connects conn t payload key :
    proven h !! conn = None -> check_client_info derp_priv t payload = Some key -> derp_step h (register h conn key)
| Frames conn t payload : derp_step h (on_frame h conn t payload)
| Writes conn : derp_step h (on_write h conn)
| Ends conn : derp_step h (on_end h conn).

(** A key that some client has shown to hold: a box made with it opened. *)
Definition authentic (key : list Z) : Prop := exists t payload, check_client_info derp_priv t payload = Some key.

Definition frame_ok (f : list Z) : Prop :=
  (exists b, f = write_frame FRAME_PONG b) \/ (exists src pkt, f = write_frame FRAME_RECV_PACKET (src ++ pkt) /\ authentic src).

Record hub_ok (h : DerpHub) : Prop := {
  hub_proven : forall key conn, hub h !! key = Some conn -> proven h !! conn = Some key;
  hub_queue : forall conn q, queues h !! conn = Some q -> is_Some (proven h !! conn) /\ Forall frame_ok q /\ (length q <= QUEUE)%nat;
  hub_auth : forall conn key, proven h !! conn = Some key -> authentic key
}.

Lemma check_length t payload key : check_client_info derp_priv t payload = Some key -> length key = KEY_LEN.
Proof.
  unfold check_client_info. destruct (_ || _) eqn:E; [done|]. apply orb_false_iff in E as [_ E%bool_decide_eq_false].
  destruct (box_open _ _ _); [|done]. cbn. intros [= <-]. rewrite length_take. unfold KEY_LEN, NONCE_LEN in *. lia.
Qed.

Lemma try_send_ok h key f : hub_ok h -> frame_ok f -> hub_ok (try_send h key f).
Proof.
  intros Hh Hf. unfold try_send. destruct (hub h !! key) as [conn|]; [|done]. destruct (queues h !! conn) as [q|] eqn:Hq; [|done].
  case_decide as Hd; [|done]. split; cbn; [apply Hh| |apply Hh]. intros c q'. destruct (decide (c = conn)) as [->|Hne].
  - rewrite lookup_insert_eq. intros [= <-]. destruct (hub_queue h Hh conn q Hq) as (H1 & H2 & H3). split; [done|].
    rewrite length_app. cbn. split; [|lia]. apply Forall_app. split; [done|]. by constructor.
  - rewrite lookup_insert_ne by done. apply Hh.
Qed.

Lemma hub_ok_step h h' : hub_ok h -> derp_step h h' -> hub_ok h'.
Proof.
  intros Hh [conn t payload key Hnew Hk|conn t payload|conn|conn].
  - split; cbn.
    + intros k c. rewrite lookup_insert_Some. intros [[<- <-]|[Hne Hc]]; [by rewrite lookup_insert_eq|].
      apply Hh in Hc. rewrite lookup_insert_ne; [done|]. congruence.
    + intros c q. rewrite lookup_insert_Some. intros [[<- <-]|[Hne Hc]].
      * rewrite lookup_insert_eq. split; [done|]. split; [done|cbn; lia].
      * rewrite lookup_insert_ne by done. by apply Hh.
    + intros c k. rewrite lookup_insert_Some. intros [[<- <-]|[Hne Hc]]; [by exists t, payload|by eapply Hh].
  - unfold on_frame. destruct (proven h !! conn) as [k|] eqn:Hk; [|done]. destruct (_ && _); [|destruct (_ && _); [|done]]; apply try_send_ok; try done.
    + right. eexists _, _. split; [done|]. by eapply Hh.
    + left. eauto.
  - unfold on_write. destruct (queues h !! conn) as [[|f q]|] eqn:Hq; try done. split; cbn; [apply Hh| |apply Hh].
    intros c q'. destruct (decide (c = conn)) as [->|Hne].
    + rewrite lookup_insert_eq. intros [= <-]. destruct (hub_queue h Hh conn _ Hq) as (H1 & [_ H2]%Forall_cons_1 & H3). cbn in H3. split; [done|]. split; [done|lia].
    + rewrite lookup_insert_ne by done. apply Hh.
  - unfold on_end. destruct (proven h !! conn) as [k|] eqn:Hk; [|done]. split; cbn.
    + intros key c [Hne Hc]%lookup_delete_Some. apply Hh in Hc. rewrite lookup_delete_ne; [done|]. congruence.
    + intros c q [Hne Hc]%lookup_delete_Some. rewrite lookup_delete_ne by done. by apply Hh.
    + intros c key [Hne Hc]%lookup_delete_Some. by eapply Hh.
Qed.

(** A relayed packet names its true sender.  In every run of the relay, each frame
    that waits for a connection is an answer to a ping or a packet whose source, as the
    receiving client reads it, is a key for which a client has opened a box, that is,
    has shown to hold the secret; and no queue is longer than its bound. *)
Theorem derp_source_proven (h : DerpHub) (conn : Z) (q : list (list Z)) (f rest : list Z) (pkt : ReceivedPacket)
    (Hr : rtc derp_step hub_new h) (Hq : queues h !! conn = Some q) (Hf : f ∈ q)
    (Hlen : Z.of_nat (length f) <= MAX_FRAME) (Hp : recv 1 f = Some (Ok pkt, [], rest)) :
  authentic (source pkt) /\ (length q <= QUEUE)%nat.
Proof.
  assert (Hok : hub_ok h).
  { assert (H0 : hub_ok hub_new) by (split; cbn; by intros ? ? ?%lookup_empty_Some). clear -Hr H0. induction Hr as [|a b c Hab _ IH]; [done|]. apply IH. by eapply hub_ok_step. }
  destruct (hub_queue h Hok conn q Hq) as (_ & HF & Hlq). split; [|done]. rewrite Forall_forall in HF. apply list_elem_of_In, HF in Hf.
  cbn [recv] in Hp. destruct Hf as [[b ->]|(src & p & -> & Ha)].
  - rewrite <- (app_nil_r (write_frame _ _)), read_write_frame in Hp by (unfold write_frame in Hlen; rewrite !length_app in Hlen; lia). done.
  - rewrite <- (app_nil_r (write_frame _ _)), read_write_frame in Hp by (unfold write_frame in Hlen; rewrite !length_app, length_be_bytes in Hlen; rewrite length_app; cbn in Hlen; lia).
    unfold recv_frame in Hp. rewrite decide_True in Hp by done. destruct Ha as (t & payload & Hc). pose proof (check_length _ _ _ Hc) as Hl.
    rewrite decide_False in Hp by (rewrite length_app; lia). injection Hp as <- _. cbn [source]. rewrite take_app_length' by done. by exists t, payload.
Qed.

(** A packet sent to a key is delivered to the connection of that key: the frame
    the client writes is read by the relay, put into the queue of the addressee with
    the sender's key in front, and read there as that packet from that sender. *)
Theorem derp_delivers (h : DerpHub) (ca cb : Z) (ka kb pkt : list Z) (q : list (list Z))
    (Ha : proven h !! ca = Some ka) (Hb : hub h !! kb = Some cb) (Hq : queues h !! cb = Some q) (Hroom : (length q < QUEUE)%nat)
    (Hla : length ka = KEY_LEN) (Hlb : length kb = KEY_LEN) (Hp : pkt <> []) (Hlen : Z.of_nat (KEY_LEN + length pkt) <= MAX_FRAME) :
  exists t payload f, read_frame (send kb pkt) = Some (Ok (t, payload, [])) /\
    queues (on_frame h ca t payload) !! cb = Some (q ++ [f]) /\ recv 1 f = Some (Ok (mk_packet ka pkt), [], []).
Proof.
  exists FRAME_SEND_PACKET, (kb ++ pkt), (write_frame FRAME_RECV_PACKET (ka ++ pkt)). split; [|split].
  - unfold send. rewrite <- (app_nil_r (write_frame _ _)). apply read_write_frame. rewrite length_app, Hlb. lia.
  - unfold on_frame. rewrite Ha. rewrite (bool_decide_eq_true_2 (FRAME_SEND_PACKET = _)) by done.
    rewrite bool_decide_eq_true_2 by (rewrite length_app, Hlb; destruct pkt; [done|cbn [length]; lia]).
    cbn [andb]. rewrite take_app_length', drop_app_length' by done. unfold try_send. rewrite Hb, Hq, decide_True by done. cbn. by rewrite lookup_insert_eq.
  - cbn [recv]. rewrite <- (app_nil_r (write_frame _ _)), read_write_frame by (rewrite length_app, Hla; lia).
    unfold recv_frame. rewrite decide_True by done. rewrite decide_False by (rewrite length_app; lia).
    rewrite take_app_length', drop_app_length' by done. done.
Qed.

(** The end of a connection takes away the entry of its key even when another
    connection of the same key has taken its place: that one gets nothing more. *)
Theorem end_unhooks_successor (h : DerpHub) (old new : Z) (key f : list Z)
    (Ho : proven h !! old = Some key) (Hne : old <> new) (Hn : proven h !! new = None) :
  let h1 := register h new key in
  let h2 := on_end h1 old in
  hub h1 !! key = Some new /\ proven h2 !! new = Some key /\ try_send h2 key f = h2.
Proof.
  unfold on_end, register, try_send. cbn. rewrite lookup_insert_eq, lookup_insert_ne, Ho by done. cbn.
  rewrite lookup_delete_ne, lookup_insert_eq, lookup_delete_eq by done. done.
Qed.
End Server.

(** ** Samples *)

Module ToyBox.
(** Public and secret key are the same; a box is the key and the text. *)
#[export] Instance toy_box : NaclBox := {|
  box_new p k := p ++ k;
  box_seal k n m := Some (k ++ n ++ m);
  box_open k n c := if decide (take (length (k ++ n)) c = k ++ n) then Some (drop (length (k ++ n)) c) else None
|}.
End ToyBox.
Import ToyBox.

Definition key32 (b : Z) : list Z := replicate 32 b.

Definition sample_info (b : Z) : list Z := key32 b ++ replicate 24 0 ++ ((key32 b ++ key32 9) ++ replicate 24 0 ++ [123]).

Definition sample_hub : DerpHub := register (register hub_new 1 (key32 1)) 2 (key32 2).

Definition sample_busy : DerpHub := on_frame sample_hub 1 FRAME_SEND_PACKET (key32 2 ++ [7; 8]).

Lemma sample_runs : rtc (derp_step (key32 9)) hub_new sample_busy.
Proof.
  eapply rtc_l; [apply (Connects (key32 9) _ 1 FRAME_CLIENT_INFO (sample_info 1) (key32 1)); [done|vm_compute; done]|].
  eapply rtc_l; [apply (Connects (key32 9) _ 2 FRAME_CLIENT_INFO (sample_info 2) (key32 2)); [vm_compute; done|vm_compute; done]|].
  apply rtc_once, Frames.
Qed.

Lemma derp_source_proven_witness : authentic (key32 9) (key32 1).
Proof.
  apply (derp_source_proven (key32 9) sample_busy 2 [write_frame FRAME_RECV_PACKET (key32 1 ++ [7; 8])]
    (write_frame FRAME_RECV_PACKET (key32 1 ++ [7; 8])) [] (mk_packet (key32 1) [7; 8])).
  - apply sample_runs.
  - vm_compute. done.
  - left.
  - vm_compute. done.
  - vm_compute. done.
Defined.

Lemma derp_delivers_witness :
  exists t payload f, read_frame (send (key32 2) [7; 8]) = Some (Ok (t, payload, [])) /\
    queues (on_frame sample_hub 1 t payload) !! 2 = Some ([] ++ [f]) /\ recv 1 f = Some (Ok (mk_packet (key32 1) [7; 8]), [], []).
Proof. apply (derp_delivers sample_hub 1 2 (key32 1) (key32 2) [7; 8] []); vm_compute; done || lia. Defined.
End Derp.

Module MapFrames.

Definition MAX_MAP_FRAME : Z := 1024 * 1024.

Inductive MapError := Closed | TooLarge.

(** [BodyReader]: the chunks of the body that have come in, the first of which is
    [cur].  [read_exact] of [n] bytes: what is read and what is left; [None] while it
    waits.  Every chunk is taken once, so their number is fuel enough. *)
Fixpoint read_exact (chunks : list (list Z)) (ended : bool) (n : nat) : option (outcome MapError (list Z * list (list Z))) :=
  match n with
  | O => Some (Ok ([], chunks))
  | S _ =>
      match chunks with
      | [] => if ended then Some (Err Closed) else None
      | c :: chunks =>
          let k := min n (length c) in
          if decide (n <= length c)%nat then Some (Ok (take n c, drop n c :: chunks))
          else
            r ← read_exact chunks ended (n - k);
            Some ('(b, rest) ← r; Ok (c ++ b, rest))
      end
  end.

(** One turn of [next_netmap]: the text of the next frame. *)
Definition next_frame (chunks : list (list Z)) (ended : bool) : option (outcome MapError (list Z * list (list Z))) :=
  r ← read_exact chunks ended 4;
  match r with
  | Ok (hd, rest) =>
      let len := le_val hd in
      if decide (MAX_MAP_FRAME < len) then Some (Err TooLarge) else read_exact rest ended (Z.to_nat len)
  | Err e => Some (Err e)
  | Panic => Some Panic
  end.

Lemma read_exact_spec chunks ended n : (n <= length (concat chunks))%nat ->
  exists rest, read_exact chunks ended n = Some (Ok (take n (concat chunks), rest)) /\ concat rest = drop n (concat chunks).
Proof.
  revert n. induction chunks as [|c chunks IH]; intros [|n] Hn; cbn [read_exact].
  - by exists [].
  - cbn in Hn. lia.
  - by exists (c :: chunks).
  - cbn [concat] in *. rewrite length_app in Hn. case_decide as Hd.
    + eexists. split; [by rewrite take_app_le by lia|]. cbn [concat]. by rewrite drop_app_le by lia.
    + rewrite Nat.min_r by lia. destruct (IH (S n - length c)%nat) as (rest & -> & Hrest); [lia|]. cbn [mbind option_bind]. step.
      eexists. split; [by rewrite take_app_ge by lia|]. rewrite drop_app_ge by lia. done.
Qed.

(** Texts as the server frames them, one after the other. *)
Fixpoint frames (texts : list (list Z)) : list Z :=
  match texts with
  | [] => []
  | t :: texts => (le_bytes 4 (Z.of_nat (length t)) ++ t) ++ frames texts
  end.

Lemma frame_text t : Netmap.frame t false = Ok (le_bytes 4 (Z.of_nat (length t)) ++ t).
Proof. done. Qed.

Fixpoint next_frames (n : nat) (chunks : list (list Z)) : option (outcome MapError (list (list Z))) :=
  match n with
  | O => Some (Ok [])
  | S n =>
      r ← next_frame chunks false;
      match r with
      | Ok (t, rest) => rs ← next_frames n rest; Some (ts ← rs; Ok (t :: ts))
      | Err e => Some (Err e)
      | Panic => Some Panic
      end
  end.

(** The frames of the server come out of the body as they went in, whatever the chunks
    in which it arrives. *)
Lemma map_frames_chunking (texts : list (list Z)) (chunks : list (list Z)) :
  Forall (fun t => Z.of_nat (length t) <= MAX_MAP_FRAME) texts -> concat chunks = frames texts -> next_frames (length texts) chunks = Some (Ok texts).
Proof.
  revert chunks. induction texts as [|t texts IH]; intros chunks HF Hc; [done|]. apply Forall_cons_1 in HF as [Ht HF]. cbn [length next_frames frames] in *.
  assert (H4 : length (le_bytes 4 (Z.of_nat (length t))) = 4%nat) by apply length_le_bytes.
  unfold next_frame. destruct (read_exact_spec chunks false 4) as (r1 & -> & H1); [rewrite Hc, !length_app, H4; lia|]. cbn [mbind option_bind].
  assert (Hhd : take 4 (concat chunks) = le_bytes 4 (Z.of_nat (length t))) by (rewrite Hc, <- app_assoc, take_app_length' by done; done).
  rewrite Hhd, le_val_le_bytes by (unfold MAX_MAP_FRAME in Ht; uint). rewrite decide_False by lia. rewrite Nat2Z.id.
  rewrite Hc, <- app_assoc, drop_app_length' in H1 by done.
  destruct (read_exact_spec r1 false (length t)) as (r2 & -> & H2); [rewrite H1, length_app; lia|]. cbn [mbind option_bind].
  rewrite H1, take_app_length, drop_app_length in *. by rewrite (IH r2 HF H2).
Qed.

(** A map of 128 KiB or more stops the task that would send it compressed, although
    the client takes frames eight times as long. *)
Lemma big_map_stops t : 2 ^ 17 <= Z.of_nat (length t) -> Netmap.frame t true = Panic.
Proof. intros H. unfold Netmap.frame, Netmap.zstd_raw_frame. by rewrite decide_True. Qed.
End MapFrames.
