(* ===== verification/Node.v ===== *)
(** * The runtime of a node (rill-node/src/runtime/{mod,control,lan,dn42,probe,reconnect}.rs)

    The state of a node is [Node]: the mesh with its tables, the routing engine, the
    session of the control channel, the legs to dn42 and to a tailnet, timers and
    counters.  Every handler is a function from the state to the state; what it
    sends goes to a log, one per way out: [sent] to the coordinator, [lan_out] to
    the local network, [dn42_out] and [tailnet_out] to the legs, [wire] of the mesh
    to the other nodes, [spawned] for the audits started.  A turn of the loop reads
    the clock once ([now] of the mesh environment) and gets the answers of the
    sockets, channels and the token bucket from [Env]. *)

From Stdlib Require Import Ascii.
From S2P Require Import Prelude Replay Crypto Frame Handshake Probe Net Mesh Dispatch Route Control Registry AuthKey Messages Packet RouteMap BgpWire Rib BgpSession RouteReport Json Tailnet.

Module Node.
Import Crypto Net Route Mesh Dispatch.
#[local] Existing Instance RouteMap.Prefix_countable.

(** ** Reconnecting *)

Definition SECOND : Z := 1000000000.
Definition RECONNECT_INITIAL_BACKOFF : Z := 1 * SECOND.
Definition RECONNECT_MAX_BACKOFF : Z := 300 * SECOND.

Record ReconnectPolicy := mk_policy { backoff : Z }.

Definition policy_new : ReconnectPolicy := mk_policy RECONNECT_INITIAL_BACKOFF.

Definition on_connect (p : ReconnectPolicy) : ReconnectPolicy := p.

Definition on_registered (p : ReconnectPolicy) : ReconnectPolicy := mk_policy RECONNECT_INITIAL_BACKOFF.

Definition on_disconnect (p : ReconnectPolicy) : Z * ReconnectPolicy :=
  (backoff p, mk_policy (Z.min (backoff p * 2) RECONNECT_MAX_BACKOFF)).

(** ** Constants *)

Definition HANDSHAKE_RETRY_INTERVAL : Z := 2 * SECOND.
Definition MULTICAST_REWRITE_GUARD : Z := 2 * SECOND.
Definition PATH_REQUEST_PENDING_MAX : nat := 256.
Definition PROBE_PERIOD : Z := 30 * SECOND.
Definition PROBE_MAX_BACKOFF : Z := 300 * SECOND.
Definition CAPABILITY_ACL : Z := 0x40.

Inductive LanOutcome :=
| Sent (peer : Z)
| SentDn42 (peer : string)
| SentTailnet (peer : string)
| Handshaking (peer : Z)
| Flooded (peers : Z)
| Local
| LanDropped.

Record RelayEntry := mk_relay { relay_endpoint : SocketAddr; relay_node : option Z; confirmed : bool }.

Record AuditOutcome := mk_audit_outcome { ao_node : Z; ao_anchor : Z * Z; ao_verdict : Z }.

(** [VerifyingKey] of the signature library. *)
Class VerifyingKeys := {
  VerifyingKey : Type;
  key_from_bytes : list Z -> option VerifyingKey;
  verify_strict : VerifyingKey -> list Z -> list Z -> bool
}.

Section Runtime.
Context `{P : Primitives} `{N : Handshake.NoiseProtocol} `{V : VerifyingKeys}.

(** ** State *)

Record Conf := mk_conf {
  coordinator_url : string;
  static_key_seed : list Z;
  coord_signing_pubkey : list Z;
  auth_key : string;
  capabilities : Z;
  announce_routes : list string;
  dn42_announces : list string;
  heartbeat_interval : Z;
  data_heartbeat_interval : Z;
  data_heartbeat_misses : Z;
  rekey_interval : Z;
  tun_mtu : option Z;
  advertise_ips : list IpAddr;
  mesh_local : option SocketAddr;
  underlay_tcp : bool;
  echo_target : option (string * Z)
}.

(** The control channel. *)
Record Ctl := mk_ctl {
  control : option Messages.MeshClient;
  coord_override : option string;
  node_id : option Z;
  network_id : Z;
  lease_expires_at : option Z;
  reconnect : ReconnectPolicy;
  connect_failed : Rate.RateCounter;
  sent : list Messages.ControlMsg
}.

(** What the network map left. *)
Record View := mk_view {
  netmap_peers : gset Z;
  peer_endpoints : gmap Z (list SocketAddr);
  relays : list RelayEntry;
  acl : Acl.AclPolicy;
  key_versions : gmap Z Z;
  node_broadcast_key : option (list Z);
  pending_path_requests : list Z;
  path_requested : gset Z
}.

Record Timers := mk_timers {
  last_control_heartbeat : Z;
  last_data_heartbeat : Z;
  next_rekey : Z;
  last_probe : Z
}.

Record Live := mk_live {
  peer_heartbeats : gmap Z Z;
  last_handshake_attempt : gmap Z Z;
  recent_multicast_writes : gmap (IpAddr * IpAddr * Z) Z;
  rejected_stats : gmap Z Rate.RateCounter;
  probe_backoff : gmap SocketAddr (Z * Z);
  echoed_endpoints : list SocketAddr
}.

Record Audits := mk_audits {
  audit_endpoints : list string;
  audit_cursor : Z;
  audited_claims : gmap Z (Z * Z);
  ca_pem : option (list Z);
  spawned : list (string * Z * BindingClaim)
}.

Record Legs := mk_legs {
  dn42_peers : list RouteReport.Dn42PeerLeg;
  route_report : RouteReport.RouteReporter;
  ts2021 : option Tailnet.Ts2021Leg;
  dn42_out : list (string * list Z);
  tailnet_out : list (string * list Z);
  lan_out : list (list Z)
}.

Record Node := mk_node {
  conf : Conf;
  mesh : MeshData;
  engine : RouteEngine;
  default_route : DefaultRouteResolver;
  ctl : Ctl;
  view : View;
  timers : Timers;
  live : Live;
  audits : Audits;
  legs : Legs
}.

(** What the world answers during a turn.  [bucket] gives the verdicts of the token
    bucket in the order they are asked for, [nonces] the random numbers of the
    probes, [ask] the order of a walk over the sessions. *)
Record Env := mk_nenv {
  menv : Mesh.Env;
  control_send : Messages.ControlMsg -> bool;
  dn42_send : string -> bool;
  tailnet_send : string -> bool;
  read_ca : option (list Z);
  resolve_echo : string -> Z -> option IpAddr;
  bucket : nat -> bool;
  nonces : nat -> Z;
  session_walk : list Z
}.

Definition set_mesh (n : Node) (x : MeshData) : Node :=
  mk_node (conf n) x (engine n) (default_route n) (ctl n) (view n) (timers n) (live n) (audits n) (legs n).
Definition set_engine (n : Node) (x : RouteEngine) : Node :=
  mk_node (conf n) (mesh n) x (default_route n) (ctl n) (view n) (timers n) (live n) (audits n) (legs n).
Definition set_default_route (n : Node) (x : DefaultRouteResolver) : Node :=
  mk_node (conf n) (mesh n) (engine n) x (ctl n) (view n) (timers n) (live n) (audits n) (legs n).
Definition set_ctl (n : Node) (x : Ctl) : Node :=
  mk_node (conf n) (mesh n) (engine n) (default_route n) x (view n) (timers n) (live n) (audits n) (legs n).
Definition set_view (n : Node) (x : View) : Node :=
  mk_node (conf n) (mesh n) (engine n) (default_route n) (ctl n) x (timers n) (live n) (audits n) (legs n).
Definition set_timers (n : Node) (x : Timers) : Node :=
  mk_node (conf n) (mesh n) (engine n) (default_route n) (ctl n) (view n) x (live n) (audits n) (legs n).
Definition set_live (n : Node) (x : Live) : Node :=
  mk_node (conf n) (mesh n) (engine n) (default_route n) (ctl n) (view n) (timers n) x (audits n) (legs n).
Definition set_audits (n : Node) (x : Audits) : Node :=
  mk_node (conf n) (mesh n) (engine n) (default_route n) (ctl n) (view n) (timers n) (live n) x (legs n).
Definition set_legs (n : Node) (x : Legs) : Node :=
  mk_node (conf n) (mesh n) (engine n) (default_route n) (ctl n) (view n) (timers n) (live n) (audits n) x.

Definition set_control (n : Node) (x : option Messages.MeshClient) : Node :=
  let c := ctl n in
  set_ctl n (mk_ctl x (coord_override c) (node_id c) (network_id c) (lease_expires_at c) (reconnect c) (connect_failed c) (sent c)).
Definition set_override (n : Node) (x : option string) : Node :=
  let c := ctl n in
  set_ctl n (mk_ctl (control c) x (node_id c) (network_id c) (lease_expires_at c) (reconnect c) (connect_failed c) (sent c)).
Definition set_lease (n : Node) (x : option Z) : Node :=
  let c := ctl n in
  set_ctl n (mk_ctl (control c) (coord_override c) (node_id c) (network_id c) x (reconnect c) (connect_failed c) (sent c)).
Definition set_reconnect (n : Node) (x : ReconnectPolicy) : Node :=
  let c := ctl n in
  set_ctl n (mk_ctl (control c) (coord_override c) (node_id c) (network_id c) (lease_expires_at c) x (connect_failed c) (sent c)).
Definition set_connect_failed (n : Node) (x : Rate.RateCounter) : Node :=
  let c := ctl n in
  set_ctl n (mk_ctl (control c) (coord_override c) (node_id c) (network_id c) (lease_expires_at c) (reconnect c) x (sent c)).
Definition set_identity (n : Node) (id net : Z) : Node :=
  let c := ctl n in
  set_ctl n (mk_ctl (control c) (coord_override c) (Some id) net (lease_expires_at c) (reconnect c) (connect_failed c) (sent c)).
Definition log_sent (n : Node) (m : Messages.ControlMsg) : Node :=
  let c := ctl n in
  set_ctl n (mk_ctl (control c) (coord_override c) (node_id c) (network_id c) (lease_expires_at c) (reconnect c) (connect_failed c) (sent c ++ [m])).

Definition set_heartbeats (n : Node) x : Node :=
  let l := live n in
  set_live n (mk_live x (last_handshake_attempt l) (recent_multicast_writes l) (rejected_stats l) (probe_backoff l) (echoed_endpoints l)).
Definition set_attempts (n : Node) x : Node :=
  let l := live n in
  set_live n (mk_live (peer_heartbeats l) x (recent_multicast_writes l) (rejected_stats l) (probe_backoff l) (echoed_endpoints l)).
Definition set_multicast (n : Node) x : Node :=
  let l := live n in
  set_live n (mk_live (peer_heartbeats l) (last_handshake_attempt l) x (rejected_stats l) (probe_backoff l) (echoed_endpoints l)).
Definition set_rejected (n : Node) x : Node :=
  let l := live n in
  set_live n (mk_live (peer_heartbeats l) (last_handshake_attempt l) (recent_multicast_writes l) x (probe_backoff l) (echoed_endpoints l)).
Definition set_backoff (n : Node) x : Node :=
  let l := live n in
  set_live n (mk_live (peer_heartbeats l) (last_handshake_attempt l) (recent_multicast_writes l) (rejected_stats l) x (echoed_endpoints l)).
Definition set_echoed (n : Node) x : Node :=
  let l := live n in
  set_live n (mk_live (peer_heartbeats l) (last_handshake_attempt l) (recent_multicast_writes l) (rejected_stats l) (probe_backoff l) x).

Definition set_route_report (n : Node) x : Node :=
  let l := legs n in set_legs n (mk_legs (dn42_peers l) x (ts2021 l) (dn42_out l) (tailnet_out l) (lan_out l)).
Definition set_dn42_peers (n : Node) x : Node :=
  let l := legs n in set_legs n (mk_legs x (route_report l) (ts2021 l) (dn42_out l) (tailnet_out l) (lan_out l)).
Definition set_ts2021 (n : Node) x : Node :=
  let l := legs n in set_legs n (mk_legs (dn42_peers l) (route_report l) x (dn42_out l) (tailnet_out l) (lan_out l)).
Definition emit_dn42 (n : Node) (peer : string) (pkt : list Z) : Node :=
  let l := legs n in set_legs n (mk_legs (dn42_peers l) (route_report l) (ts2021 l) (dn42_out l ++ [(peer, pkt)]) (tailnet_out l) (lan_out l)).
Definition emit_tailnet (n : Node) (peer : string) (pkt : list Z) : Node :=
  let l := legs n in set_legs n (mk_legs (dn42_peers l) (route_report l) (ts2021 l) (dn42_out l) (tailnet_out l ++ [(peer, pkt)]) (lan_out l)).
Definition emit_lan (n : Node) (pkt : list Z) : Node :=
  let l := legs n in set_legs n (mk_legs (dn42_peers l) (route_report l) (ts2021 l) (dn42_out l) (tailnet_out l) (lan_out l ++ [pkt])).

(** ** The local network (lan.rs) *)

(** [IpAddr::is_multicast] *)
Definition is_multicast (a : IpAddr) : bool :=
  match a with
  | V4 (b :: _) => bool_decide (224 <= b <= 239)
  | V6 (b :: _) => bool_decide (b = 0xff)
  | _ => false
  end.

Definition addr_bytes (a : IpAddr) : list Z := match a with V4 o => o | V6 o => o end.

Definition proto_number (p : Packet.TransportProto) : Z :=
  match p with
  | Packet.Tcp => 6 | Packet.Udp => 17 | Packet.Icmp => 1 | Packet.Icmpv6 => 58 | Packet.Other v => v
  end.

Definition flow_hash (i : Packet.PacketInfo) : Z :=
  let h := foldl (fun h b => wrap 64 (Z.lxor h b * 0x00000100000001b3)) 0xcbf29ce484222325
             (addr_bytes (Packet.src i) ++ addr_bytes (Packet.dst i)) in
  Z.lxor h (proto_number (Packet.proto i)).

(** The packet with its MSS clamped when it is a SYN. *)
Definition clamp_syn (mtu : Z) (pkt : list Z) : outcome Empty_set (list Z) :=
  syn ← Packet.is_tcp_syn pkt;
  if syn : bool then '(b, pkt') ← Packet.clamp_mss pkt mtu; Ok (if b : bool then pkt' else pkt) else Ok pkt.

(** [recent_multicast_writes.retain(..)] *)
Definition retain_recent (n : Node) (t : Z) : Node :=
  set_multicast n (filter (fun x => sat_sub t x.2 < MULTICAST_REWRITE_GUARD) (recent_multicast_writes (live n))).

Definition fingerprint (i : Packet.PacketInfo) : IpAddr * IpAddr * Z := (Packet.src i, Packet.dst i, Packet.total_len i).

Definition write_lan (e : Env) (n : Node) (payload : list Z) : outcome Empty_set Node :=
  match tun_mtu (conf n) with
  | None => Ok n
  | Some mtu =>
      payload ← clamp_syn (Z.min mtu Packet.TUN_CONSERVATIVE_MTU) payload;
      let n := emit_lan n payload in
      match Packet.parse_packet payload with
      | Ok info =>
          if is_multicast (Packet.dst info) then
            let n := retain_recent n (now (menv e)) in
            Ok (set_multicast n (<[fingerprint info := now (menv e)]> (recent_multicast_writes (live n))))
          else Ok n
      | Err _ => Ok n
      | Panic => Panic
      end
  end.

Definition find_leg (n : Node) (name : string) : option RouteReport.Dn42PeerLeg :=
  List.find (fun l => bool_decide (RouteReport.name l = name)) (dn42_peers (legs n)).

(** The predicate both lookups use. *)
Definition reachable (n : Node) (src : IpAddr) (via : RouteVia) : bool :=
  match via with
  | ViaMesh _ => true
  | ViaDn42 name => match find_leg n name with Some l => RouteReport.established l | None => false end
  | ViaTailnet id =>
      match ts2021 (legs n) with
      | Some l => Tailnet.has_peer l id && Tailnet.accepts_source l src
      | None => false
      end
  | ViaDirect _ => true
  end.

Definition send_dn42 (e : Env) (n : Node) (name : string) (pkt : list Z) : bool * Node :=
  match find_leg n name with
  | None => (false, n)
  | Some l => if dn42_send e (RouteReport.name l) then (true, emit_dn42 n (RouteReport.name l) pkt) else (false, n)
  end.

Definition send_tailnet (e : Env) (n : Node) (id : string) (pkt : list Z) : bool * Node :=
  match ts2021 (legs n) with
  | Some _ => if tailnet_send e id then (true, emit_tailnet n id pkt) else (false, n)
  | None => (false, n)
  end.

Definition has_session (n : Node) (peer : Z) : bool := bool_decide (is_Some (sessions (hs (mesh n)) !! peer)).

(** A packet for a peer without a session: an attempt that got no answer counts
    against its path and is given up, then the handshake is opened. *)
Definition lan_handshake (e : Env) (n : Node) (peer : Z) : outcome Empty_set (LanOutcome * Node) :=
  let me := menv e in
  let n :=
    match last_handshake_attempt (live n) !! peer with
    | Some t =>
        if decide (sat_sub (now me) t >= HANDSHAKE_RETRY_INTERVAL)
        then set_mesh n (drop_initiator (miss_endpoint me (path_miss_peer (mesh n) peer) peer) peer) else n
    | None => n
    end in
  match initiate_handshake me (mesh n) peer with
  | (Ok (Some msg1), m) =>
      let '(hop, m) := path_first_hop me m peer in
      match send_to_node_hop me m peer hop msg1 with
      | (HopSent, m) =>
          let n := set_mesh n m in
          Ok (Handshaking peer, set_attempts n (<[peer := now me]> (last_handshake_attempt (live n))))
      | (_, m) => Ok (Handshaking peer, set_mesh n (drop_initiator m peer))
      end
  | (Ok None, m) => Ok (Handshaking peer, set_mesh n m)
  | (Err _, m) => Ok (LanDropped, set_mesh n m)
  | (Panic, _) => Panic
  end.

(** A packet for a peer with a session; too big a frame is answered with a packet
    too big to the sender. *)
Definition lan_data (e : Env) (n : Node) (peer : Z) (info : Packet.PacketInfo) (pkt : list Z)
    : outcome Empty_set (LanOutcome * Node) :=
  let me := menv e in
  match build_data_frame me (mesh n) peer pkt (flow_hash info) with
  | (Ok (frame, first_hop), m) =>
      match send_to_node_hop me m peer first_hop frame with
      | (HopSent, m) => Ok (Sent peer, set_mesh n m)
      | (HopErr true, m) =>
          let '(mtu, m) := take_ptb_mtu m in
          let n := set_mesh n m in
          match Packet.build_ptb pkt (default Packet.TUN_CONSERVATIVE_MTU mtu) with
          | Some ptb => n ← write_lan e n ptb; Ok (LanDropped, n)
          | None => Ok (LanDropped, n)
          end
      | (_, m) => Ok (LanDropped, set_mesh n m)
      end
  | (Err _, m) => Ok (LanDropped, set_mesh n m)
  | (Panic, _) => Panic
  end.

(** Where a packet of the local network goes: the best route, else an exit. *)
Definition lan_via (n : Node) (info : Packet.PacketInfo) : option RouteVia :=
  match lookup_best (engine n) (Packet.dst info) (fun x => reachable n (Packet.src info) (via x)) with
  | Some x => Some (via x)
  | None => resolve (default_route n) (reachable n (Packet.src info))
  end.

Definition lan_dispatch (e : Env) (n : Node) (v : RouteVia) (info : Packet.PacketInfo) (pkt : list Z)
    : outcome Empty_set (LanOutcome * Node) :=
  match v with
  | ViaMesh peer => if has_session n peer then lan_data e n peer info pkt else lan_handshake e n peer
  | ViaDn42 name => let '(ok, n) := send_dn42 e n name pkt in Ok (if ok : bool then SentDn42 name else LanDropped, n)
  | ViaTailnet id => let '(ok, n) := send_tailnet e n id pkt in Ok (if ok : bool then SentTailnet id else LanDropped, n)
  | ViaDirect _ => Ok (Local, n)
  end.

Definition pump_lan_packet (e : Env) (n : Node) (packet : list Z) : outcome Empty_set (LanOutcome * Node) :=
  pkt ← clamp_syn (Z.min (default Packet.TUN_CONSERVATIVE_MTU (tun_mtu (conf n))) Packet.TUN_CONSERVATIVE_MTU) packet;
  match Packet.parse_packet pkt with
  | Err _ => Ok (LanDropped, n)
  | Panic => Panic
  | Ok info =>
      if is_multicast (Packet.dst info) then
        let n := retain_recent n (now (menv e)) in
        if decide (is_Some (recent_multicast_writes (live n) !! fingerprint info)) then Ok (Local, n)
        else let '(peers, m) := flood (menv e) (mesh n) pkt in Ok (Flooded peers, set_mesh n m)
      else
        match lan_via n info with
        | None => Ok (LanDropped, n)
        | Some v => lan_dispatch e n v info pkt
        end
  end.

(** ** Between the legs *)

Inductive TransitFrom := FromMesh | FromDn42 | FromTailnet.

#[export] Instance TransitFrom_eq_dec : EqDecision TransitFrom.
Proof. solve_decision. Defined.

Definition transit_mesh (e : Env) (n : Node) (peer : Z) (info : Packet.PacketInfo) (pkt : list Z)
    : outcome Empty_set (bool * Node) :=
  if negb (has_session n peer) then Ok (false, n)
  else
    match build_data_frame (menv e) (mesh n) peer pkt (flow_hash info) with
    | (Ok (frame, first_hop), m) =>
        match send_to_node_hop (menv e) m peer first_hop frame with
        | (HopSent, m) => Ok (true, set_mesh n m)
        | (_, m) => Ok (false, set_mesh n m)
        end
    | (Err _, m) => Ok (false, set_mesh n m)
    | (Panic, _) => Panic
    end.

Definition transit_edge (e : Env) (n : Node) (v : RouteVia) (from : TransitFrom) (info : Packet.PacketInfo) (pkt : list Z)
    : outcome Empty_set (bool * Node) :=
  match v, from with
  | ViaDn42 name, (FromMesh | FromTailnet) => Ok (send_dn42 e n name pkt)
  | ViaMesh peer, (FromDn42 | FromTailnet) => transit_mesh e n peer info pkt
  | ViaTailnet id, FromMesh => Ok (send_tailnet e n id pkt)
  | ViaTailnet _, FromTailnet => Ok (true, n)
  | ViaTailnet _, FromDn42 => Ok (false, n)
  | ViaDirect _, _ => Ok (false, n)
  | _, _ => Ok (false, n)
  end.

Definition forward_transit (e : Env) (n : Node) (packet : list Z) (from : TransitFrom) : outcome Empty_set (bool * Node) :=
  match Packet.parse_packet packet with
  | Err _ => Ok (false, n)
  | Panic => Panic
  | Ok info =>
      if is_multicast (Packet.dst info) then Ok (false, n)
      else
        match lookup_best (engine n) (Packet.dst info) (fun x => reachable n (Packet.src info) (via x)) with
        | None => Ok (false, n)
        | Some x => transit_edge e n (via x) from info packet
        end
  end.

(** What arrives on a leg is passed on, or else delivered locally. *)
Definition deliver_from (e : Env) (from : TransitFrom) (n : Node) (packet : list Z) : outcome Empty_set Node :=
  '(sent, n) ← forward_transit e n packet from;
  if sent : bool then Ok n else write_lan e n packet.

Definition deliver_all (e : Env) (from : TransitFrom) : Node -> list (list Z) -> outcome Empty_set Node :=
  fix go n pkts := match pkts with [] => Ok n | p :: pkts => n ← deliver_from e from n p; go n pkts end.

(** ** The control channel (control.rs) *)

(** [control.send_envelope(..).await.is_ok()], on a session that is there. *)
Definition send_envelope (e : Env) (n : Node) (m : Messages.ControlMsg) : bool * Node :=
  if control_send e m then (true, log_sent n m) else (false, n).

Definition report_endpoints (e : Env) (n : Node) : Node :=
  match control (ctl n), mesh_local (conf n) with
  | Some _, Some addr =>
      let local := (fun ip => show_socket (ip, snd addr)) <$> advertise_ips (conf n) in
      let local := if decide (local = []) then [show_socket addr] else local in
      (send_envelope e n (Messages.endpoint_report local (show_socket <$> echoed_endpoints (live n)))).2
  | _, _ => n
  end.

(** The audit of a binding is started against the next replica of the rotation. *)
Definition queue_binding_audit (e : Env) (n : Node) (id : Z) (claim : BindingClaim) : Node :=
  let a := audits n in
  if decide (audited_claims a !! id = Some (anchor claim)) then n
  else if decide (audit_endpoints a = []) then n
  else
    match (match ca_pem a with Some pem => Some pem | None => read_ca e end) with
    | None => n
    | Some pem =>
        match audit_endpoints a !! Z.to_nat (audit_cursor a mod Z.of_nat (length (audit_endpoints a))) with
        | None => n
        | Some endpoint =>
            set_audits n (mk_audits (audit_endpoints a) (wrap 64 (audit_cursor a + 1)) (audited_claims a) (Some pem)
              (spawned a ++ [(endpoint, id, claim)]))
        end
    end.

Definition audit_own (e : Env) (n : Node) : Node :=
  match local_binding_claim (mesh n) with Some own => queue_binding_audit e n 0 own | None => n end.

Definition audit_entry (e : Env) (n : Node) (x : Messages.NetmapNode) : Node :=
  if decide (Messages.n_identity_binding x = [] \/
             audited_claims (audits n) !! Messages.n_node_id x = Some (Messages.n_binding_log_id x)) then n
  else queue_binding_audit e n (Messages.n_node_id x)
         (mk_claim (Messages.n_static_pubkey x) (Messages.n_identity_binding x) (Messages.n_binding_log_id x)).

Definition record_audit (n : Node) (o : AuditOutcome) : Node :=
  let a := audits n in
  set_audits n (mk_audits (audit_endpoints a) (audit_cursor a) (<[ao_node o := ao_anchor o]> (audited_claims a)) (ca_pem a) (spawned a)).

Definition on_audit (n : Node) (o : AuditOutcome) : Node :=
  if decide (ao_verdict o = Messages.AUDIT_VERDICT_VERIFIED) then record_audit n o
  else if decide (ao_verdict o = Messages.AUDIT_VERDICT_CONFLICT) then
    let n := if decide (ao_node o = 0) then n
             else set_mesh n (remove_peer_static (drop_session (mesh n) (ao_node o)) (ao_node o)) in
    record_audit n o
  else n.

Definition pump_audits (n : Node) (os : list AuditOutcome) : Node := foldl on_audit n os.

Definition request_paths_for (v : View) (dest : Z) : View :=
  mk_view (netmap_peers v) (peer_endpoints v) (relays v) (acl v) (key_versions v) (node_broadcast_key v)
    (if bool_decide (dest ∉ pending_path_requests v) && bool_decide (length (pending_path_requests v) < PATH_REQUEST_PENDING_MAX)%nat
     then pending_path_requests v ++ [dest] else pending_path_requests v)
    ({[ dest ]} ∪ path_requested v).

(** *** A network map *)

(** What the loop over the entries collects, with the state it changes. *)
Record Fill := mk_fill {
  f_mesh : MeshData;
  f_engine : RouteEngine;
  f_view : View;
  fresh : gset Z;
  endpoints : gmap Z (list SocketAddr);
  mesh_routes : list string;
  exits : list Z;
  self_exit : bool
}.

Definition mesh_entry (p : Prefix) (peer : Z) : RouteEntry := mk_entry p Mesh (ViaMesh peer) None.

Definition fill_route (peer : Z) (x : list string * RouteEngine) (route : string) : list string * RouteEngine :=
  match parse route with
  | Ok p => (Tailnet.push_new x.1 route, insert x.2 (mesh_entry p peer))
  | _ => x
  end.

Definition fill_entry (me : option Z) (f : Fill) (x : Messages.NetmapNode) : Fill :=
  let id := Messages.n_node_id x in
  if decide (Some id = me) then
    mk_fill (f_mesh f) (f_engine f) (f_view f) (fresh f) (endpoints f) (mesh_routes f) (exits f) (Messages.n_exit x)
  else
    let addrs := omap parse_socket (Messages.n_endpoints x) in
    let m := set_peer_static (f_mesh f) id (Messages.n_static_pubkey x) in
    let m := set_peer_capabilities m id (Messages.n_capabilities x) in
    let m := set_endpoints m id addrs in
    let '(rs, g) := if Messages.n_offline x then (mesh_routes f, remove_dyn_dn42_node (f_engine f) id)
                    else foldl (fill_route id) (mesh_routes f, f_engine f) (Messages.n_routes x) in
    mk_fill m g
      (if decide (2 <= Messages.n_protocol_version x) then request_paths_for (f_view f) id else f_view f)
      ({[ id ]} ∪ fresh f) (<[id := addrs]> (endpoints f)) rs
      (if Messages.n_exit x && negb (Messages.n_offline x) then exits f ++ [id] else exits f) (self_exit f).

Definition drop_stale_mesh (m : MeshData) (id : Z) : MeshData :=
  let m := remove_peer_static m id in
  let m := remove_endpoint m id in
  let m := remove_peer_capabilities m id in
  let m := drop_session m id in
  remove_paths_for m id.

Definition drop_stale_engine (g : RouteEngine) (id : Z) : RouteEngine := remove_dyn_dn42_node (remove_mesh_node g id) id.

Definition confirmed_before (old : list RelayEntry) (id : Z) (a : SocketAddr) : bool :=
  existsb (fun r => bool_decide (relay_node r = Some id) && bool_decide (relay_endpoint r = a) && confirmed r) old.

Definition new_relays (old : list RelayEntry) (eps : gmap Z (list SocketAddr)) (roster : list Z) : list RelayEntry :=
  '(id, addrs) ← omap (fun id => addrs ← eps !! id; Some (id, addrs)) roster;
  (fun a => mk_relay a (Some id) (confirmed_before old id a)) <$> addrs.

Definition relay_owners (rs : list RelayEntry) : gmap SocketAddr Z :=
  foldl (fun m r => match relay_node r with Some id => <[relay_endpoint r := id]> m | None => m end) ∅ rs.

(** The endpoints of the confirmed relays, the node's own left out. *)
Definition fallbacks (me : option Z) (rs : list RelayEntry) : list SocketAddr :=
  relay_endpoint <$> List.filter (fun r => confirmed r && negb (bool_decide (relay_node r = me))) rs.

Definition push_addr (l : list SocketAddr) (a : SocketAddr) : list SocketAddr := if decide (a ∈ l) then l else l ++ [a].

Definition apply_relay_endpoints (n : Node) : Node :=
  let rs := fallbacks (node_id (ctl n)) (relays (view n)) in
  set_mesh n (foldl (fun m x => set_endpoints m x.1 (foldl push_addr x.2 rs)) (mesh n) (map_to_list (peer_endpoints (view n)))).

Definition apply_netmap (n : Node) (nm : Messages.NetmapData) : Node :=
  let v := view n in
  let v := mk_view (netmap_peers v) (peer_endpoints v) (relays v) (default (Acl.mk_policy false [] ∅) (Messages.nm_acl nm))
             (key_versions v) (node_broadcast_key v) (pending_path_requests v) (path_requested v) in
  let f := foldl (fill_entry (node_id (ctl n)))
             (mk_fill (mesh n) (reset_mesh_routes (engine n)) v ∅ ∅ [] [] false) (Messages.nm_entries nm) in
  let stale := elements (netmap_peers v ∖ fresh f) in
  let m := foldl drop_stale_mesh (f_mesh f) stale in
  let g := foldl drop_stale_engine (f_engine f) stale in
  let v := f_view f in
  let rs := new_relays (relays v) (endpoints f) (Messages.nm_relay_roster nm) in
  let v := mk_view (fresh f) (endpoints f) rs (acl v) (key_versions v) (node_broadcast_key v)
             (pending_path_requests v) (path_requested v) in
  let n := set_view (set_engine (set_mesh n m) g) v in
  let n := set_default_route n (set_mesh_exits (default_route n) (exits f) (self_exit f)) in
  let n := set_ts2021 n ((fun l => Tailnet.set_mesh_routes l (mesh_routes f)) <$> ts2021 (legs n)) in
  let n := set_mesh n (set_relay_owners (mesh n) (relay_owners rs)) in
  apply_relay_endpoints n.

(** *** The other events *)

Definition on_client (n : Node) (f : Session.ClientSession -> Session.ClientSession) : Node :=
  match control (ctl n) with
  | Some c => set_control n (Some (Messages.mk_client (f (Messages.session c)) (Messages.static_key c)))
  | None => n
  end.

(** A map after a challenge says that the challenge was passed. *)
Definition on_challenge_ok (n : Node) : Node :=
  on_client n (fun s => match Session.state s with
                        | Session.Reconnecting _ => (Session.handle s Session.ChallengeOk).2
                        | _ => s
                        end).

Definition verify_binding (vk : VerifyingKey) (id : Z) (pk binding : list Z) (issuance : Z * Z) : bool :=
  bool_decide (length binding = 64%nat) && verify_strict vk (Registry.binding_message id pk issuance) binding.

Definition install_path_keys (m : MeshData) (cs : list Messages.PathCandidateMsg) : MeshData :=
  foldl (fun m c => if decide (length (Messages.pc_key_path c) = 32%nat)
                    then set_key_path m (Messages.pc_path_id c) (Messages.pc_key_path c) else m) m cs.

Definition path_of (c : Messages.PathCandidateMsg) : PathEntry :=
  mk_path (Messages.pc_path_id c) (Messages.pc_path_epoch c) (Messages.pc_hops c) (Messages.pc_expires_at c).

Definition set_pending (n : Node) (x : list Z) : Node :=
  let v := view n in
  set_view n (mk_view (netmap_peers v) (peer_endpoints v) (relays v) (acl v) (key_versions v) (node_broadcast_key v) x (path_requested v)).

Definition on_paths (n : Node) (dest : Z) (cs : list Messages.PathCandidateMsg) (source : Z) : Node :=
  let n := set_mesh n (install_path_keys (mesh n) cs) in
  if decide (source = default (2 ^ 32 - 1) (node_id (ctl n))) then
    set_pending (set_mesh n (set_paths (mesh n) dest (path_of <$> cs)))
      (List.filter (fun d => bool_decide (d <> dest)) (pending_path_requests (view n)))
  else
    match node_id (ctl n) with
    | Some me => set_mesh n (foldl (fun m c => if decide (me ∈ Messages.pc_hops c) then set_forward_path m (path_of c) else m) (mesh n) cs)
    | None => n
    end.

Definition on_revoked (n : Node) (id : Z) : Node :=
  let m := drop_session (mesh n) id in
  let m := remove_peer_static m id in
  let m := remove_key_dst m id in
  let m := remove_endpoint m id in
  let m := remove_peer_capabilities m id in
  let m := remove_paths_for m id in
  let n := set_engine (set_mesh n m) (drop_stale_engine (engine n) id) in
  let v := view n in
  let n := set_view n (mk_view (netmap_peers v ∖ {[ id ]}) (peer_endpoints v) (relays v) (acl v) (key_versions v)
                         (node_broadcast_key v) (pending_path_requests v) (path_requested v)) in
  let n := set_heartbeats n (delete id (peer_heartbeats (live n))) in
  on_client n (fun s => (Session.handle s (Session.Revoked id)).2).

Definition dyn_entry (p : Prefix) (peer : Z) : RouteEntry := mk_entry p DynDn42 (ViaMesh peer) None.

Definition on_route_map (n : Node) (entries : list (string * Z * string)) : Node :=
  let me := default (2 ^ 32 - 1) (node_id (ctl n)) in
  set_engine n (foldl (fun g '(cidr, id, _) =>
      if decide (id = me) then g
      else match parse cidr with Ok p => insert g (dyn_entry p id) | _ => g end)
    (reset_dyn_dn42_routes (engine n)) entries).

Definition on_key_dist (n : Node) (to : Z) (key : list Z) (ver : Z) (bk : list Z) : Node :=
  let n := if decide (length key = 32%nat) then
             let v := view n in
             set_view (set_mesh n (set_key_dst (mesh n) to key))
               (mk_view (netmap_peers v) (peer_endpoints v) (relays v) (acl v) (<[to := ver]> (key_versions v))
                  (node_broadcast_key v) (pending_path_requests v) (path_requested v))
           else n in
  if decide (length bk = 32%nat) then
    let v := view n in
    set_view (set_mesh n (set_broadcast_key (mesh n) bk))
      (mk_view (netmap_peers v) (peer_endpoints v) (relays v) (acl v) (key_versions v) (Some bk)
         (pending_path_requests v) (path_requested v))
  else n.

Inductive NodeError := BadVerifyingKey | SendFailed.

Definition set_audit_endpoints (n : Node) (l : list string) : Node :=
  let a := audits n in set_audits n (mk_audits l (audit_cursor a) (audited_claims a) (ca_pem a) (spawned a)).

Definition on_registered_event (e : Env) (n : Node) (id net : Z) (binding : list Z) (issuance : Z * Z)
    : outcome NodeError unit * Node :=
  let n := set_identity n id net in
  let n := set_mesh n (set_self_node_id (mesh n) id) in
  let n := set_reconnect n (on_registered (reconnect (ctl n))) in
  let n := set_mesh n (set_handshake_context (mesh n)
             (mk_ctx net Frame.VERSION (static_key_seed (conf n)) binding issuance)) in
  match key_from_bytes (coord_signing_pubkey (conf n)) with
  | None => (Err BadVerifyingKey, n)
  | Some vk =>
      let n := set_mesh n (set_binding_verifier (mesh n) (fun i pk b log_index term => verify_binding vk i pk b (log_index, term))) in
      let n := audit_own e n in
      let n := report_endpoints e n in
      (Ok tt, set_route_report n (RouteReport.resync_on_registered (route_report (legs n)) (now (menv e))))
  end.

Definition on_netmap_event (e : Env) (n : Node) (nm : Messages.NetmapData) : Node :=
  let n := on_challenge_ok n in
  let n := set_audit_endpoints n (Messages.nm_replica_endpoints nm) in
  let n := audit_own e n in
  let n := foldl (audit_entry e) n (Messages.nm_entries nm) in
  apply_netmap n nm.

Definition handle_control_event (e : Env) (n : Node) (ev : Messages.ControlEvent) : outcome NodeError unit * Node :=
  match ev with
  | Messages.Registered id net binding issuance => on_registered_event e n id net binding issuance
  | Messages.Netmap nm => (Ok tt, on_netmap_event e n nm)
  | Messages.KeyDistributed to key ver bk => (Ok tt, on_key_dist n to key ver bk)
  | Messages.Lease granted expires_at => (Ok tt, if granted then set_lease n (Some expires_at) else n)
  | Messages.Challenged ack =>
      match control (ctl n) with
      | Some _ => let '(ok, n) := send_envelope e n ack in (if ok : bool then Ok tt else Err SendFailed, n)
      | None => (Ok tt, n)
      end
  | Messages.Revoked id => (Ok tt, on_revoked n id)
  | Messages.Paths dest cs _ source => (Ok tt, on_paths n dest cs source)
  | Messages.PathWithdrawn dest id => (Ok tt, set_mesh n (withdraw_path (mesh n) dest id))
  | Messages.LeaderRedirect endpoint _ =>
      let n := if decide (endpoint = "") then n else set_override n (Some (String.append "https://" endpoint)) in
      (Ok tt, set_control n None)
  | Messages.RouteMapped _ entries => (Ok tt, on_route_map n entries)
  end.

(** ** Probes (probe.rs) *)

(** [String::from_utf8] accepts exactly the byte strings that are UTF-8; an address
    is ASCII, so a payload parses only when all its bytes are. *)
Definition text_of (payload : list Z) : option string :=
  if decide (Forall (fun b => 0 <= b < 128) payload)
  then Some (String.string_of_list_ascii ((fun b => ascii_of_nat (Z.to_nat b)) <$> payload)) else None.

Fixpoint confirm (endpoint : SocketAddr) (rs : list RelayEntry) : option (bool * list RelayEntry) :=
  match rs with
  | [] => None
  | r :: rs =>
      if decide (relay_endpoint r = endpoint)
      then Some (negb (confirmed r), mk_relay (relay_endpoint r) (relay_node r) true :: rs)
      else '(b, rs) ← confirm endpoint rs; Some (b, r :: rs)
  end.

Definition set_relays (n : Node) (x : list RelayEntry) : Node :=
  let v := view n in
  set_view n (mk_view (netmap_peers v) (peer_endpoints v) x (acl v) (key_versions v) (node_broadcast_key v)
    (pending_path_requests v) (path_requested v)).

Definition handle_probe_pong (e : Env) (n : Node) (endpoint : SocketAddr) (payload : list Z) : Node :=
  let n := set_backoff n (delete endpoint (probe_backoff (live n))) in
  if decide (payload <> []) then
    match text_of payload ≫= parse_socket with
    | None => n
    | Some addr =>
        if decide (addr ∈ echoed_endpoints (live n)) then n
        else report_endpoints e (set_echoed n (echoed_endpoints (live n) ++ [addr]))
    end
  else
    let n := set_mesh n (note_probe_ok (menv e) (mesh n) endpoint) in
    match confirm endpoint (relays (view n)) with
    | Some (true, rs) => apply_relay_endpoints (set_relays n rs)
    | _ => n
    end.

(** The state of a round of probes: the node, how often the bucket was asked and how
    many random numbers were drawn. *)
Record Round := mk_round { r_node : Node; asked : nat; drawn : nat }.

Definition with_nonce (me : Mesh.Env) (x : Z) : Mesh.Env :=
  Mesh.mk_env (now_unix me) (now me) (seed me) (random_salt me) (send_frame me) (path_mtu me) (flood_token me)
    (pong_allow me) x (unix_millis me) (Mesh.walk me).

Definition probe_send_gate (e : Env) (r : Round) (endpoint : SocketAddr) (t : Z) : bool * Round :=
  let blocked := match probe_backoff (live (r_node r)) !! endpoint with Some (_, due) => bool_decide (t < due) | None => false end in
  if blocked then (false, r) else (bucket e (asked r), mk_round (r_node r) (S (asked r)) (drawn r)).

Definition probe_one (e : Env) (id t : Z) (r : Round) (x : Z * SocketAddr) : Round :=
  let '(to, endpoint) := x in
  match probe_send_gate e r endpoint t with
  | (false, r) => r
  | (true, r) =>
      let n := r_node r in
      mk_round (set_mesh n (send_probe_ping (with_nonce (menv e) (nonces e (drawn r))) (mesh n) endpoint id to).2)
        (asked r) (S (drawn r))
  end.

Definition probe_delay (miss : Z) : Z := Z.min (PROBE_PERIOD * Z.shiftl 1 (Z.min miss 4)) PROBE_MAX_BACKOFF.

(** A probe of the last round that got no answer. *)
Definition probe_missed (me : Mesh.Env) (t : Z) (n : Node) (x : Z * SocketAddr) : Node :=
  let ep := x.2 in
  let n := set_mesh n (note_probe_miss me (mesh n) ep) in
  let miss := match probe_backoff (live n) !! ep with Some (m, _) => sat_add 32 m 1 | None => 1 end in
  set_backoff n (<[ep := (miss, t + probe_delay miss)]> (probe_backoff (live n))).

Fixpoint probe_paths (e : Env) (r : Round) (ts : list (Z * Z * Z)) : outcome Empty_set Round :=
  match ts with
  | [] => Ok r
  | (dest, path, hop) :: ts =>
      if bucket e (asked r) then
        let n := r_node r in
        let '(o, m) := send_path_probe (with_nonce (menv e) (nonces e (drawn r))) (mesh n) dest path hop in
        _ ← o;
        probe_paths e (mk_round (set_mesh n m) (S (asked r)) (S (drawn r))) ts
      else Ok r
  end.

(** The echo of the coordinator: [None] when its name does not resolve. *)
Definition probe_echo (e : Env) (id t : Z) (r : Round) : option Round :=
  if underlay_tcp (conf (r_node r)) then Some r
  else match echo_target (conf (r_node r)) with
       | None => Some r
       | Some (host, port) =>
           ip ← resolve_echo e host port;
           Some (probe_one e id t r (0, (ip, port)))
       end.

Definition peer_probes (m : MeshData) : list (Z * SocketAddr) :=
  '(peer, addrs) ← map_to_list (endpoint_table (cfg m)); (fun a => (peer, a)) <$> addrs.

Definition relay_probes (rs : list RelayEntry) : list (Z * SocketAddr) :=
  omap (fun r => id ← relay_node r; Some (id, relay_endpoint r)) (List.filter (fun r => negb (confirmed r)) rs).

Definition set_last_probe (n : Node) (t : Z) : Node :=
  let x := timers n in set_timers n (mk_timers (last_control_heartbeat x) (last_data_heartbeat x) (next_rekey x) t).

Definition pump_probes (e : Env) (n : Node) : outcome Empty_set Node :=
  let me := menv e in
  let t := now me in
  if decide (sat_sub t (last_probe (timers n)) < PROBE_PERIOD) then Ok n
  else
    let n := set_last_probe n t in
    let n := set_mesh n (poll_path_probe_timeouts me (mesh n)) in
    let '(missed, m) := take_pending_probes (mesh n) in
    let n := foldl (probe_missed me t) (set_mesh n m) missed in
    match node_id (ctl n) with
    | None => Ok n
    | Some id =>
        match probe_echo e id t (mk_round n 0 0) with
        | None => Ok n
        | Some r =>
            let r := foldl (probe_one e id t) r (peer_probes (mesh (r_node r))) in
            let r := foldl (probe_one e id t) r (relay_probes (relays (view (r_node r)))) in
            r ← probe_paths e r (idle_path_probe_targets me (mesh (r_node r)));
            Ok (r_node r)
        end
    end.

(** ** Events of the mesh *)

Definition heard (n : Node) (peer : Z) : Node := set_heartbeats n (<[peer := 0]> (peer_heartbeats (live n))).

Definition note_rejected (e : Env) (n : Node) (peer : Z) : Node :=
  if decide (peer ∈ netmap_peers (view n)) then
    let rc := default (Rate.new DROP_STATS_PERIOD (now (menv e))) (rejected_stats (live n) !! peer) in
    set_rejected n (<[peer := Rate.tick rc]> (rejected_stats (live n)))
  else n.

Definition acl_deliver (e : Env) (n : Node) (from : Z) (payload : list Z) : option (list Z) * Node :=
  if Acl.allows_packet (acl (view n)) from payload then (Some payload, n)
  else (None, set_mesh n (note_drop (menv e) (mesh n) (Some from))).

Definition handle_mesh_event (e : Env) (n : Node) (ev : IncomingEvent) : outcome Empty_set (option (list Z) * Node) :=
  match ev with
  | Established peer =>
      let n := heard n peer in
      Ok (None, match binding_claims (hs (mesh n)) !! peer with
                | Some claim => queue_binding_audit e n peer claim
                | None => n
                end)
  | Rejected peer _ => Ok (None, note_rejected e n peer)
  | Data from payload => Ok (acl_deliver e (heard n from) from payload)
  | Broadcast from payload => Ok (Some payload, heard n from)
  | Heartbeat from => Ok (None, heard n from)
  | ProbePong _ endpoint payload => Ok (None, handle_probe_pong e n endpoint payload)
  | Responded _ | Relayed _ | ProbePing _ | PathProbeRtt _ _ _ | PathProbeServed _ | Dropped _ => Ok (None, n)
  | Panicked => Panic
  end.

(** A datagram from the underlay, in [run] and while waiting. *)
Definition on_datagram (e : Env) (n : Node) (from : SocketAddr) (frame : list Z) : outcome Empty_set Node :=
  let '(ev, m) := handle_incoming (menv e) (mesh n) from frame in
  '(payload, n) ← handle_mesh_event e (set_mesh n m) ev;
  match payload with
  | None => Ok n
  | Some p => deliver_from e FromMesh n p
  end.

(** ** The legs *)

Fixpoint leg_events (t : Z) (leg : RouteReport.Dn42PeerLeg) (s : RouteEngine * RouteReport.RouteReporter)
    (evs : list BgpSession.RouteEvent) : outcome Empty_set (RouteReport.Dn42PeerLeg * (RouteEngine * RouteReport.RouteReporter)) :=
  match evs with
  | [] => Ok (leg, s)
  | ev :: evs => '(leg, s) ← RouteReport.dn42_event leg t s ev; leg_events t leg s evs
  end.

(** The loop over the legs: events first, then the packets each has received. *)
Fixpoint drain_legs (t : Z) (ls : list RouteReport.Dn42PeerLeg) (inputs : list (list BgpSession.RouteEvent * list (list Z)))
    (s : RouteEngine * RouteReport.RouteReporter)
    : outcome Empty_set (list RouteReport.Dn42PeerLeg * list (list Z) * (RouteEngine * RouteReport.RouteReporter)) :=
  match ls with
  | [] => Ok ([], [], s)
  | leg :: ls =>
      let '(evs, pkts) := default ([], []) (head inputs) in
      '(leg, s) ← leg_events t leg s evs;
      '(ls, inbound, s) ← drain_legs t ls (tail inputs) s;
      Ok (leg :: ls, pkts ++ inbound, s)
  end.

(** [inputs] is what the channels of the legs hold, leg by leg. *)
Definition pump_dn42 (e : Env) (n : Node) (inputs : list (list BgpSession.RouteEvent * list (list Z))) : outcome Empty_set Node :=
  '(ls, inbound, (g, r)) ← drain_legs (now (menv e)) (dn42_peers (legs n)) inputs (engine n, route_report (legs n));
  deliver_all e FromDn42 (set_route_report (set_dn42_peers (set_engine n g) ls) r) inbound.

(** A frame of the tailnet, with the order in which the old peers are walked. *)
Definition ts_frame (n : Node) (x : list string * list Tailnet.Ts2021Peer) : Node :=
  match ts2021 (legs n) with
  | None => n
  | Some l =>
      let '(g, d, l) := Tailnet.on_ts_netmap x.1 x.2 (engine n) (default_route n) l in
      set_ts2021 (set_default_route (set_engine n g) d) (Some l)
  end.

Definition pump_ts2021 (e : Env) (n : Node) (frames : list (list string * list Tailnet.Ts2021Peer)) (inbound : list (list Z))
    : outcome Empty_set Node :=
  match ts2021 (legs n) with
  | None => Ok n
  | Some _ => deliver_all e FromTailnet (foldl ts_frame n frames) inbound
  end.

(** ** Timers *)

Record TimerInput := mk_timer_input {
  ti_dn42 : list (list BgpSession.RouteEvent * list (list Z));
  ti_frames : list (list string * list Tailnet.Ts2021Peer);
  ti_tailnet : list (list Z);
  ti_audits : list AuditOutcome
}.

Definition lease_watchdog (e : Env) (n : Node) : Node :=
  match control (ctl n), lease_expires_at (ctl n) with
  | Some _, Some t => if decide (now_unix (menv e) > t) then set_control (set_lease n None) None else n
  | _, _ => n
  end.

Fixpoint send_path_requests (e : Env) (n : Node) (dests : list Z) : Node :=
  match dests with
  | [] => n
  | d :: dests =>
      match send_envelope e n (Messages.path_request d) with
      | (true, n) => send_path_requests e n dests
      | (false, n) => set_control n None
      end
  end.

Definition set_last_control (n : Node) (t : Z) : Node :=
  let x := timers n in set_timers n (mk_timers t (last_data_heartbeat x) (next_rekey x) (last_probe x)).

Definition control_heartbeat (e : Env) (n : Node) : Node :=
  let t := now (menv e) in
  if decide (sat_sub t (last_control_heartbeat (timers n)) < heartbeat_interval (conf n)) then n
  else
    let n := set_last_control n t in
    let n :=
      match control (ctl n) with
      | None => n
      | Some _ =>
          let '(tele, m) := take_telemetry (mesh n) in
          match send_envelope e (set_mesh n m) (Messages.heartbeat (Some tele)) with
          | (true, n) => n
          | (false, n) => set_control n None
          end
      end in
    match control (ctl n) with
    | None => n
    | Some _ => send_path_requests e n (pending_path_requests (view n))
    end.

(** The heartbeat to a peer, along the first hop of its path. *)
Definition beat_frame (me : Mesh.Env) (m : MeshData) (peer : Z) : outcome Empty_set MeshData :=
  match build_heartbeat_frame m peer with
  | (Ok frame, m) =>
      let '(hop, m) := path_first_hop me m peer in
      Ok (send_to_node_hop me m peer hop frame).2
  | (Err _, m) => Ok m
  | (Panic, _) => Panic
  end.

(** One peer of the loop of data heartbeats.  The counter is a [u32]; it is dropped when it
    reaches the limit, itself a [u32], so it does not overflow. *)
Definition beat_peer (e : Env) (n : Node) (peer : Z) : outcome Empty_set Node :=
  let me := menv e in
  let miss := default 0 (peer_heartbeats (live n) !! peer) + 1 in
  let n := set_heartbeats n (<[peer := miss]> (peer_heartbeats (live n))) in
  m ← beat_frame me (miss_endpoint me (path_miss_peer (mesh n) peer) peer) peer;
  Ok (if decide (data_heartbeat_misses (conf n) <= miss)
      then set_heartbeats (set_mesh n (drop_session m peer)) (delete peer (peer_heartbeats (live n)))
      else set_mesh n m).

Fixpoint beat_peers (e : Env) (n : Node) (peers : list Z) : outcome Empty_set Node :=
  match peers with
  | [] => Ok n
  | p :: peers => n ← beat_peer e n p; beat_peers e n peers
  end.

Definition set_last_data (n : Node) (t : Z) : Node :=
  let x := timers n in set_timers n (mk_timers (last_control_heartbeat x) t (next_rekey x) (last_probe x)).

Definition data_heartbeat (e : Env) (n : Node) : outcome Empty_set Node :=
  let t := now (menv e) in
  if decide (sat_sub t (last_data_heartbeat (timers n)) < data_heartbeat_interval (conf n)) then Ok n
  else beat_peers e (set_last_data n t) (session_walk e).

Definition set_next_rekey (n : Node) (t : Z) : Node :=
  let x := timers n in set_timers n (mk_timers (last_control_heartbeat x) (last_data_heartbeat x) t (last_probe x)).

Definition rekey_sessions (e : Env) (n : Node) : Node :=
  let t := now (menv e) in
  if decide (t < next_rekey (timers n)) then n
  else
    let n := set_next_rekey n (t + rekey_interval (conf n)) in
    set_mesh n (set_sessions (mesh n) ((fun s => Handshake.rekey s t) <$> sessions (hs (mesh n)))).

Definition flush_reports (e : Env) (n : Node) : Node :=
  match control (ctl n) with
  | None => n
  | Some _ =>
      if RouteReport.is_due (route_report (legs n)) (now (menv e)) then
        let '(o, r) := RouteReport.flush (route_report (legs n)) (engine n) in
        let n := set_route_report n r in
        match o with
        | Some (announced, withdrawn) =>
            if decide (announced = [] /\ withdrawn = []) then n
            else match send_envelope e n (Messages.route_sync announced withdrawn) with
                 | (true, n) => n
                 | (false, n) => set_control n None
                 end
        | None => n
        end
      else n
  end.

Definition pump_fail_summaries (e : Env) (n : Node) : Node :=
  let t := now (menv e) in
  let n := set_connect_failed n (Rate.poll (connect_failed (ctl n)) t).2 in
  let n := set_mesh n (poll_drop_stats (menv e) (mesh n)).2 in
  set_rejected n (filter (fun x => Rate.has_pending x.2 = true) ((fun rc => (Rate.poll rc t).2) <$> rejected_stats (live n))).

Definition pump_timers (e : Env) (n : Node) (i : TimerInput) : outcome Empty_set Node :=
  n ← pump_dn42 e n (ti_dn42 i);
  n ← pump_ts2021 e n (ti_frames i) (ti_tailnet i);
  let n := pump_audits n (ti_audits i) in
  let n := lease_watchdog e n in
  let n := control_heartbeat e n in
  n ← data_heartbeat e n;
  let n := rekey_sessions e n in
  let n := flush_reports e n in
  n ← pump_probes e n;
  Ok (pump_fail_summaries e n).

(** ** Connecting *)

(** [parse_url] and the leg of [establish_control]. *)
Definition parse_url (url : string) : option (string * Z) :=
  rest ← AuthKey.strip_prefix "https://" url;
  match rsplit_once ":" rest with
  | Some (h, p) => port ← parse_uint 65535 p; Some (h, port)
  | None => Some (rest, 8443)
  end.

Definition establish_leg (c : Conf) (url : string) : option Messages.MeshLegConfig :=
  '(host, port) ← parse_url url;
  Some (Messages.mk_leg host port (auth_key c) (static_key_seed c) (Z.lor (capabilities c) CAPABILITY_ACL)
          (announce_routes c ++ dn42_announces c)).

Definition connect_url (n : Node) : string := default (coordinator_url (conf n)) (coord_override (ctl n)).

(** The end of an attempt to connect, in [connect_control] and in [run]. *)
Definition connected (n : Node) (c : Messages.MeshClient) : Node :=
  let n := set_lease (set_control n (Some c)) None in
  set_reconnect n (on_connect (reconnect (ctl n))).

Definition connect_error (n : Node) : Z * Node :=
  let n := set_connect_failed n (Rate.tick (connect_failed (ctl n))) in
  let n := set_override n None in
  let '(wait, p) := on_disconnect (reconnect (ctl n)) in
  (wait, set_reconnect n p).

Definition control_lost (n : Node) : Z * Node :=
  let n := set_control n None in
  let '(wait, p) := on_disconnect (reconnect (ctl n)) in
  (wait, set_reconnect n p).

(** ** The loop *)

(** Where [run] is: waiting for the task that connects, waiting out a backoff, in
    its [select!], or done. *)
Inductive Phase := Connecting | Waiting (remaining : Z) | Serving | Stopped.

Definition SLICE : Z := 100 * 1000000.

Inductive Input :=
| InConnect (c : option Messages.MeshClient)
| InDatagram (from : SocketAddr) (frame : list Z) (i : TimerInput)
| InPacket (pkt : list Z) (i : TimerInput)
| InControl (ev : option Messages.ControlEvent)
| InTimer (i : TimerInput)
| InShutdown.

(** A packet of the tun device, which is read only when there is one. *)
Definition on_tun (e : Env) (n : Node) (pkt : list Z) : outcome Empty_set Node :=
  match tun_mtu (conf n) with
  | None => Ok n
  | Some _ => '(_, n) ← pump_lan_packet e n pkt; Ok n
  end.

(** A slice of [sleep_with_timers]: one input of the data plane, or none. *)
Definition slice (e : Env) (n : Node) (x : Input) : outcome Empty_set Node :=
  let after n i := n ← pump_dn42 e n (ti_dn42 i); pump_timers e n (mk_timer_input [] (ti_frames i) (ti_tailnet i) (ti_audits i)) in
  match x with
  | InDatagram from frame i => n ← on_datagram e n from frame; after n i
  | InPacket pkt i => n ← on_tun e n pkt; after n i
  | InTimer i => after n i
  | _ => Ok n
  end.

(** After a turn the loop starts over: without a session it connects. *)
Definition again (n : Node) : Phase * Node :=
  (match control (ctl n) with Some _ => Serving | None => Connecting end, n).

Definition wait_for (x : Z * Node) : Phase * Node := (Waiting x.1, x.2).

Definition run_step (e : Env) (s : Phase * Node) (x : Input) : outcome Empty_set (Phase * Node) :=
  let '(p, n) := s in
  match p, x with
  | Stopped, _ => Ok s
  | _, InShutdown => Ok (Stopped, set_control n None)
  | Connecting, InConnect (Some c) => Ok (Serving, connected n c)
  | Connecting, InConnect None => Ok (wait_for (connect_error n))
  | Connecting, (InDatagram _ _ _ | InPacket _ _ | InTimer _) => n ← slice e n x; Ok (Connecting, n)
  | Waiting r, (InDatagram _ _ _ | InPacket _ _ | InTimer _) =>
      n ← slice e n x;
      let r := r - Z.min r SLICE in
      Ok (if decide (0 < r) then (Waiting r, n) else again n)
  | Serving, InDatagram from frame _ => n ← on_datagram e n from frame; Ok (again n)
  | Serving, InControl (Some ev) => Ok (again (handle_control_event e n ev).2)
  | Serving, InControl None => Ok (wait_for (control_lost n))
  | Serving, InPacket pkt _ => n ← on_tun e n pkt; Ok (again n)
  | Serving, InTimer i => n ← pump_timers e n i; Ok (again n)
  | _, _ => Ok s
  end.

(** [insert_lan_routes], from the addresses of the tun device as text. *)
Definition insert_lan_routes (g : RouteEngine) (name : string) (addrs : list (IpAddr * Z)) : RouteEngine :=
  foldl (fun g '(a, l) =>
    match parse (String.append (show_ip a) (String.append "/" (dec l))) with
    | Ok p => insert g (mk_entry p Lan (ViaDirect name) None)
    | _ => g
    end) g addrs.

(** [Node::new], once sockets, device and legs are there: [dev] is the tun device with
    its addresses, [ls] and [ts] the legs. *)
Definition node_new (c : Conf) (preference : list ExitSource) (dev : option (string * list (IpAddr * Z)))
    (ls : list RouteReport.Dn42PeerLeg) (ts : option Tailnet.Ts2021Leg) (t : Z) : Node :=
  mk_node c (bind_underlay t 0)
    (match dev with Some (name, addrs) => insert_lan_routes engine_new name addrs | None => engine_new end)
    (resolver_new preference)
    (mk_ctl None None None 0 None policy_new (Rate.new DROP_STATS_PERIOD t) [])
    (mk_view ∅ ∅ [] (Acl.mk_policy false [] ∅) ∅ None [] ∅)
    (mk_timers t t (t + rekey_interval c) t) (mk_live ∅ ∅ ∅ ∅ ∅ []) (mk_audits [] 0 ∅ None [])
    (mk_legs ls RouteReport.reporter_default ts [] [] []).

End Runtime.

End Node.
