(* ===== verification/NodeLan.v ===== *)
(** * What passes through a node

    Theorems on the packets a node moves between the local network, the mesh, dn42
    and a tailnet ([Node.pump_lan_packet], [Node.forward_transit], [Node.on_datagram]):
    which way out a packet takes, that it is never sent back where it came from,
    that the access policy stands before every way out, and that a packet read from
    one local network is written to the other, over any chain of relays. *)

From stdpp Require Import relations.
From S2P Require Import Prelude Replay Crypto Frame Handshake Probe Net Mesh Dispatch MeshRun Route Control Registry Messages Packet RouteMap RouteReport Json Tailnet Node.

Module NodeLan.
Import Crypto Net Route Mesh Dispatch Node.

Ltac cases := repeat (case_match; try done).

Section Lan.
Context `{P : Primitives} `{N : Handshake.NoiseProtocol} `{V : VerifyingKeys}.

(** ** What the mesh puts on the wire *)

Lemma wire_path_miss_peer m dest : wire (lnk (path_miss_peer m dest)) = wire (lnk m).
Proof. unfold path_miss_peer. destruct (path_table (pths m) !! dest) as [[|]|]; cbn; by destruct (_ !! dest). Qed.

Lemma wire_try_send e to frame addrs : forall m last,
  let '(ok, _, m') := try_send e m to frame addrs last in
  if ok : bool then exists a, a ∈ addrs /\ wire (lnk m') = wire (lnk m) ++ [(a, frame)] else wire (lnk m') = wire (lnk m).
Proof.
  induction addrs as [|a addrs IH]; intros m last; cbn; [done|].
  assert (H : forall m last, let '(ok, _, m') := try_send e m to frame addrs last in
    if ok : bool then exists b, b ∈ a :: addrs /\ wire (lnk m') = wire (lnk m) ++ [(b, frame)] else wire (lnk m') = wire (lnk m)).
  { intros m0 last0. specialize (IH m0 last0). destruct (try_send _ _ _ _ _ _) as [[[] ?] ?]; [|done]. destruct IH as (b & Hb & ?). exists b. split; [by right|done]. }
  destruct (send_frame e a frame) as [|[]]; [exists a; split; [by left|done]| |apply H].
  apply (H (set_ptb m (inner_mtu e a)) (Some a)).
Qed.

(** The node a frame for [to] is handed to. *)
Definition hop_of (m : MeshData) (to : Z) (first_hop : option Z) : Z :=
  match first_hop with Some h => if decide (h <> self_node_id (cfg m)) then h else to | None => to end.

(** A frame is sent once, to an address of the hop, or not at all. *)
Lemma wire_send e m to hop frame :
  let '(r, m') := send_to_node_hop e m to hop frame in
  match r with
  | HopSent => exists addrs a, endpoint_table (cfg m) !! hop_of m to hop = Some addrs /\ a ∈ addrs /\ wire (lnk m') = wire (lnk m) ++ [(a, frame)]
  | _ => wire (lnk m') = wire (lnk m)
  end.
Proof.
  unfold send_to_node_hop. cbv zeta. change (cfg (set_ptb m None)) with (cfg m). fold (hop_of m to hop).
  destruct (endpoint_table (cfg m) !! hop_of m to hop) as [addrs|]; [|done].
  set (m0 := set_ptb m None). set (l := order_endpoints _ _ _ _).
  assert (Hl : forall a, a ∈ l -> a ∈ addrs).
  { intros a. unfold l, order_endpoints. rewrite elem_of_sort. destruct (Frame.decode frame); [|done..]. destruct (decide _); [|done].
    unfold retain_hop_endpoints. by intros [? _]%elem_of_bfilter. }
  pose proof (wire_try_send e to frame l m0 None) as H.
  destruct (try_send e m0 to frame l None) as [[[] last] m1]; [destruct H as (a & Ha & H); exists addrs, a; auto|].
  destruct last as [a|]; [destruct (endpoint_owner _ _ _)|]; cbn; by rewrite wire_path_miss_peer.
Qed.

Lemma pick_path_wire e m dest flow : wire (lnk (pick_path e m dest flow).2) = wire (lnk m).
Proof. unfold pick_path. destruct (path_table _ !! dest); [|done]. destruct (decide _); [done|]. by destruct (_ !! _). Qed.

Lemma build_typed_wire m to path pt payload : wire (lnk (build_typed_frame m to path pt payload).2) = wire (lnk m).
Proof. unfold build_typed_frame. repeat (case_match; try done). Qed.

Lemma build_data_wire e m to payload flow : wire (lnk (build_data_frame e m to payload flow).2) = wire (lnk m).
Proof.
  unfold build_data_frame. pose proof (pick_path_wire e m to flow) as H. destruct (pick_path e m to flow) as [p m1].
  pose proof (build_typed_wire m1 to (match p with Some p => path_id p | None => Frame.PATH_ID_DEFAULT end) Frame.packet_type.UNICAST payload) as H'.
  destruct (build_typed_frame m1 to _ _ payload) as [f m2]. cbn [snd] in *. congruence.
Qed.

Lemma build_data_cfg e m to payload flow : cfg (build_data_frame e m to payload flow).2 = cfg m.
Proof.
  unfold build_data_frame. destruct (pick_path_keeps e m to flow) as [_ H]. destruct (pick_path e m to flow) as [p m1]. cbn [snd] in H.
  rewrite <- H. unfold build_typed_frame. repeat (case_match; simplify_eq; try done).
Qed.

(** ** Ways out *)

(** Everything a node has put out towards the mesh, dn42, the tailnet and the local
    network. *)
Record Outputs := mk_out {
  o_mesh : list (SocketAddr * list Z);
  o_dn42 : list (string * list Z);
  o_tailnet : list (string * list Z);
  o_lan : list (list Z)
}.

Definition outputs (n : Node) : Outputs :=
  mk_out (wire (lnk (mesh n))) (dn42_out (legs n)) (tailnet_out (legs n)) (lan_out (legs n)).


(** The leg a route leads to. *)
Definition leg_of (v : RouteVia) : option TransitFrom :=
  match v with
  | ViaMesh _ => Some FromMesh
  | ViaDn42 _ => Some FromDn42
  | ViaTailnet _ => Some FromTailnet
  | ViaDirect _ => None
  end.




















(** ** The access policy *)

Lemma report_endpoints_legs e n : legs (report_endpoints e n) = legs n /\ view (report_endpoints e n) = view n.
Proof. unfold report_endpoints, send_envelope. repeat (case_match; try done). Qed.

Lemma queue_audit_keeps e n id claim : legs (queue_binding_audit e n id claim) = legs n /\ view (queue_binding_audit e n id claim) = view n /\
  mesh (queue_binding_audit e n id claim) = mesh n.
Proof. unfold queue_binding_audit. cbv zeta. repeat (case_match; try done). Qed.

Lemma probe_pong_legs e n endpoint payload : legs (handle_probe_pong e n endpoint payload) = legs n.
Proof.
  unfold handle_probe_pong. cbv zeta. destruct (decide _).
  - destruct (_ ≫= _) as [addr|]; [|done]. destruct (decide _); [done|]. by rewrite (proj1 (report_endpoints_legs e _)).
  - destruct (confirm _ _) as [[[] ?]|]; done.
Qed.

(** The session frames of a peer are the only source of its data. *)
Lemma relay_hs e m frame : hs (relay e m frame).2 = hs m.
Proof.
  assert (Hf : forall ids m f, hs (flood_send e m f ids).2 = hs m).
  { induction ids as [|id ids IH]; intros m0 f; cbn; [done|]. destruct (_ ≫= _) as [a|]; [|apply IH].
    specialize (IH (emit m0 a f) f). by destruct (flood_send e (emit m0 a f) f ids). }
  unfold relay. destruct (decide _); [done|]. destruct (Frame.decode frame) as [h| |]; [|done..].
  cbv zeta. destruct (decide _); [done|]. destruct (decide _); [|cases].
  unfold relay_broadcast. cases. cbn [snd].
  match goal with H : flood_send ?e ?m ?f ?l = _ |- _ => pose proof (Hf l m f) as H'; rewrite H in H' end. done.
Qed.

Lemma demote_hs e m from : hs (demote_direct_endpoints e m from) = hs m.
Proof. unfold demote_direct_endpoints. generalize (List.filter (fun a => bool_decide (endpoint_owner_preferring e m a from = Some from)) (default [] (endpoint_table (cfg m) !! from))).
  intros l. revert m. induction l as [|a l IH]; intros m; cbn; [done|]. by rewrite IH. Qed.

Lemma ingress_hs m from : hs (apply_ingress_health m from) = hs m.
Proof.
  unfold apply_ingress_health. destruct (_ !! from); [|done]. destruct (_ !! from) as [ps|]; [|done].
  revert m. induction ps as [|p ps IH]; intros m; cbn [foldl]; [done|]. rewrite IH. by destruct (decide _).
Qed.

Lemma session_frame_data e m src frame hb from payload :
  (handle_session_frame e m src frame hb).1 = Data from payload -> is_Some (sessions (hs m) !! from).
Proof.
  unfold handle_session_frame. destruct (Frame.decode frame) as [h| |]; [|done..]. destruct (if decide _ then _ else _); [|done].
  destruct (sessions (hs m) !! src) as [s|] eqn:E; [|done]. intros H.
  assert (src = from) as -> by (revert H; cases; by intros [= -> _]). by exists s.
Qed.

Lemma deliver_data e m src addr frame from payload :
  (deliver e m src addr frame).1 = Data from payload -> is_Some (sessions (hs m) !! from).
Proof.
  unfold deliver. rewrite <- (ingress_hs m src). set (m1 := apply_ingress_health m src). unfold dispatch_delivered.
  destruct (Frame.decode frame) as [h| |]; [|done..].
  destruct (decide _); [|destruct (decide _); [|destruct (decide _); [|destruct (decide _); [|destruct (decide _)]]]].
  - destruct (Frame.frame_payload frame) as [p|]; [|done]. unfold handle_handshake.
    destruct (decide _); [|destruct (decide _); [|destruct (decide _)]]; [unfold handle_msg1|unfold handle_msg2|unfold handle_msg3|done]; cases.
  - intros H. eapply (session_frame_data e m1 src frame false). by destruct (handle_session_frame e m1 src frame false).
  - intros H. eapply (session_frame_data e m1 src frame true). by destruct (handle_session_frame e m1 src frame true).
  - unfold handle_broadcast_frame. cases.
  - destruct (Frame.frame_payload frame) as [p|]; [|done]. unfold handle_path_probe. cases.
  - done.
Qed.

Lemma data_session e m addr frame from payload :
  (handle_incoming e m addr frame).1 = Data from payload -> is_Some (sessions (hs m) !! from).
Proof.
  unfold handle_incoming. destruct (match head frame with Some _ => _ | None => _ end).
  2:{ unfold handle_probe. cases. }
  unfold handle_frame. pose proof (relay_hs e m frame) as Hr. destruct (relay e m frame) as [[[to|src|src l|r] f] m1]; cbn [snd] in Hr; [done| | |done].
  - intros H%deliver_data. revert H. destruct (endpoint_owner_preferring _ _ _ _) as [i|]; [|by rewrite <- Hr].
    destruct (decide _); [rewrite demote_hs|]; rewrite <- Hr; unfold note_endpoint_ok; by case_match.
  - intros H%deliver_data. revert H. destruct (endpoint_owner _ _ _) as [i|]; rewrite <- Hr; [|done]. unfold note_endpoint_ok; by case_match.
Qed.


(** The event of a datagram hands a payload up in two cases only. *)
Lemma mesh_event_payload e n ev o n' : handle_mesh_event e n ev = Ok (o, n') ->
  legs n' = legs n /\
  forall p, o = Some p -> view n' = view n /\ conf n' = conf n /\ engine n' = engine n /\ mesh n' = mesh n /\
    exists from, (ev = Data from p /\ Acl.allows_packet (acl (view n)) from p = true) \/ ev = Broadcast from p.
Proof.
  unfold handle_mesh_event. intros H. destruct ev; try (injection H as <- <-; done); try done.
  - unfold acl_deliver in H. cbn [view heard set_heartbeats set_live] in H. destruct (Acl.allows_packet (acl (view n)) from payload) eqn:Ha; injection H as <- <-; [|done].
    split; [done|]. intros p [= <-]. repeat (split; [done|]). exists from. by left.
  - injection H as <- <-. split; [|done]. destruct (binding_claims _ !! peer) as [c|]; [|done].
    by destruct (queue_audit_keeps e (heard n peer) peer c) as [-> _].
  - injection H as <- <-. split; [|done]. unfold note_rejected. by destruct (decide _).
  - injection H as <- <-. split; [done|]. intros p [= <-]. repeat (split; [done|]). exists from. by right.
  - injection H as <- <-. split; [|done]. apply probe_pong_legs.
Qed.

(** C22: the access policy stands before every way out.  While a policy is enabled, what
    a datagram makes a node put out on the local network, to dn42 or to the tailnet
    is either the payload of a frame of a session, whose peer the first matching rule
    allows to reach the packet's destination, or the payload of a broadcast. *)
Theorem acl_gate (e : Env) (n n' : Node) (addr : SocketAddr) (frame : list Z)
    (Hen : Acl.enabled (acl (view n)) = true) (H : on_datagram e n addr frame = Ok n')
    (Hout : (dn42_out (legs n'), tailnet_out (legs n'), lan_out (legs n')) <> (dn42_out (legs n), tailnet_out (legs n), lan_out (legs n))) :
  exists from payload, deliver_from e FromMesh (heard (set_mesh n (handle_incoming (menv e) (mesh n) addr frame).2) from) payload = Ok n' /\
    ((handle_incoming (menv e) (mesh n) addr frame).1 = Broadcast from payload \/
     ((handle_incoming (menv e) (mesh n) addr frame).1 = Data from payload /\ is_Some (sessions (hs (mesh n)) !! from) /\
      exists dst pre r post, Acl.packet_dst payload = Some dst /\ Acl.rules (acl (view n)) = pre ++ r :: post /\
        Acl.hits (acl (view n)) from dst r = true /\ Acl.action r = Acl.Allow /\
        Forall (fun r' => Acl.hits (acl (view n)) from dst r' = false) pre)).
Proof.
  unfold on_datagram in H. pose proof (data_session (menv e) (mesh n) addr frame) as Hs.
  destruct (handle_incoming (menv e) (mesh n) addr frame) as [ev m]. cbn [fst snd] in *.
  apply bind_Ok_inv in H as ([o n1] & He & H). destruct (mesh_event_payload _ _ _ _ _ He) as [Hl Hp].
  destruct o as [p|]; [|injection H as <-; by rewrite Hl in Hout].
  destruct (Hp p eq_refl) as (_ & _ & _ & _ & from & [[-> Ha]| ->]); exists from, p.
  - cbn in He. unfold acl_deliver in He. cbn [view heard set_heartbeats set_live set_mesh] in He, Ha. rewrite Ha in He. injection He as <-.
    split; [done|]. right. split; [done|]. split; [by apply (Hs from p)|]. by apply Acl.acl_first_match.
  - injection He as <-. split; [done|by left].
Qed.

(** ** Clamping keeps what a packet is *)

Lemma range_take {E} (l l' : list Z) (k a b : nat) : take k l' = take k l -> length l' = length l -> (b <= k)%nat ->
  range (E := E) l' a b = range l a b.
Proof.
  intros Ht Hl Hb. unfold range. rewrite Hl. destruct (decide _); [|done]. f_equal.
  assert (Hd : forall x : list Z, take (b - a) (drop a x) = drop a (take b (take k x))).
  { intros x. rewrite take_take, Nat.min_l by lia. symmetry. apply skipn_firstn_comm. }
  rewrite !Hd. by rewrite Ht.
Qed.

Lemma at_take {E} (l l' : list Z) (k i : nat) : take k l' = take k l -> (i < k)%nat -> at_ (E := E) l' i = at_ l i.
Proof.
  intros Ht Hi. unfold at_. assert (Hx : forall x : list Z, x !! i = take k x !! i) by (intros; rewrite lookup_take_lt by lia; done).
  by rewrite (Hx l'), (Hx l), Ht.
Qed.

Lemma parse_same pkt pkt' l4 : Packet.l4_offset pkt = Ok (Some l4) -> length pkt' = length pkt -> take l4 pkt' = take l4 pkt ->
  Packet.parse_packet pkt' = Packet.parse_packet pkt.
Proof.
  intros Ho Hl Ht. destruct (Packet.l4_even pkt l4 Ho) as (_ & Hb & _).
  unfold Packet.l4_offset in Ho. apply bind_Ok_inv in Ho as (b0 & H0 & [= Ho]).
  assert (H0' : at_ (E := Empty_set) pkt' 0 = Ok b0) by (rewrite <- H0; apply (at_take _ _ l4); [done|lia]).
  apply at_Ok in H0, H0'. destruct pkt as [|x r], pkt' as [|x' r']; try done. injection H0 as ->. injection H0' as ->.
  unfold Packet.parse_packet. destruct (decide (Z.shiftr b0 4 = 4)).
  - unfold Packet.parse_v4. rewrite Hl, !(range_take _ _ l4 _ _ Ht Hl), !(at_take _ _ l4 _ Ht) by lia. done.
  - destruct (decide (Z.shiftr b0 4 = 6)); [|done]. case_decide; [|done]. injection Ho as <-.
    unfold Packet.parse_v6. rewrite Hl, !(range_take _ _ 40 _ _ Ht Hl), !(at_take _ _ 40 _ Ht) by lia. done.
Qed.

Lemma clamp_syn_same mtu pkt pkt' : clamp_syn mtu pkt = Ok pkt' ->
  Packet.parse_packet pkt' = Packet.parse_packet pkt /\ length pkt' = length pkt /\ pkt <> [].
Proof.
  unfold clamp_syn. intros (syn & Hs & H)%bind_Ok_inv.
  assert (Hne : pkt <> []) by (by intros ->). destruct syn; [|by injection H as <-].
  apply bind_Ok_inv in H as ([[] p] & Hc & [= <-]); [|done].
  destruct (Packet.clamp_mss_inv _ _ _ _ Hc) as [(l4 & a & Ho & _ & [H1 H2]%Packet.last_mss_bounds & Hr)|[? _]]; [|done]. set (max := Packet.max_of pkt mtu) in *.
  destruct (Packet.parts_exist pkt l4 a H1 H2) as (A & ck & B & mss & C & Hp).
  rewrite (Packet.rewrite_mss_spec _ _ _ _ _ _ _ _ _ Hp) in Hr. destruct (decide _); [done|]. injection Hr as <-.
  destruct Hp as [Heq HA Hck HB Hm _].
  assert (Hl : length (A ++ be_bytes 2 (Packet.new_checksum (be_val ck) (be_val mss) max) ++ B ++ be_bytes 2 max ++ C) = length pkt)
    by (rewrite Heq; len).
  split; [|done]. apply (parse_same _ _ l4); [done|done|]. rewrite Heq, !(Packet.take_app_low l4 A) by lia. done.
Qed.

Lemma clamp_syn_safe mtu pkt : pkt <> [] -> exists pkt', clamp_syn mtu pkt = Ok pkt'.
Proof.
  intros Hne. destruct (Packet.lan_packet_panics pkt mtu) as (_ & Hs & Hc). unfold clamp_syn.
  destruct (Packet.is_tcp_syn pkt) as [[]|[]|]; step; [|by eexists|by destruct Hne; apply Hs].
  destruct (Packet.clamp_mss pkt mtu) as [[b p]|[]|]; step; [by eexists|by destruct Hne; apply Hc].
Qed.

(** An echo is not flooded again.  The multicast packet a node has written to its
    local network, read back within two seconds, is left alone: nothing goes out. *)
Theorem multicast_echo (e e' : Env) (n n1 n2 : Node) (payload w : list Z) (info : Packet.PacketInfo)
    (Hw : write_lan e n payload = Ok n1) (Ho : lan_out (legs n1) = lan_out (legs n) ++ [w])
    (Hi : Packet.parse_packet w = Ok info) (Hm : is_multicast (Packet.dst info) = true)
    (Hr : recent_multicast_writes (live n2) = recent_multicast_writes (live n1))
    (Ht : now (menv e') - now (menv e) < MULTICAST_REWRITE_GUARD) :
  exists n3, pump_lan_packet e' n2 w = Ok (Local, n3) /\ outputs n3 = outputs n2.
Proof.
  unfold write_lan in Hw. destruct (tun_mtu (conf n)) as [mtu|].
  2:{ injection Hw as <-. apply (f_equal length) in Ho. rewrite length_app in Ho. cbn in Ho. lia. }
  apply bind_Ok_inv in Hw as (w' & Hc & Hw).
  assert (w' = w) as ->.
  { assert (Hx : lan_out (legs n1) = lan_out (legs n) ++ [w']) by (destruct (Packet.parse_packet w'); [destruct (is_multicast _)|..]; try done; by injection Hw as <-).
    rewrite Hx in Ho. by apply app_inv_head in Ho as [= ->]. }
  rewrite Hi, Hm in Hw. injection Hw as <-. cbn in Hr.
  destruct (clamp_syn_safe (Z.min (default Packet.TUN_CONSERVATIVE_MTU (tun_mtu (conf n2))) Packet.TUN_CONSERVATIVE_MTU) w) as (w2 & Hc2).
  { intros ->. done. }
  destruct (clamp_syn_same _ _ _ Hc2) as (Hp2 & _ & _). unfold pump_lan_packet. rewrite Hc2. step. rewrite Hp2, Hi, Hm.
  eexists. rewrite decide_True; [done|]. exists (now (menv e)). cbn. rewrite Hr. apply map_lookup_filter_Some. split; [by rewrite lookup_insert_eq|].
  cbn. unfold sat_sub. unfold MULTICAST_REWRITE_GUARD, SECOND in *. lia.
Qed.

(** ** From one local network to the other *)

(** An address of the hop takes whatever is sent. *)
Definition link_up (e : Mesh.Env) (m : MeshData) (hop : Z) : Prop :=
  exists addrs a, endpoint_table (cfg m) !! hop = Some addrs /\ a ∈ addrs /\
    (forall o, relay_endpoint_owner (cfg m) !! a = Some o -> o = hop) /\ (forall f, send_frame e a f = SendOk).

Lemma try_send_up e to frame a : send_frame e a frame = SendOk -> forall addrs m last, a ∈ addrs ->
  exists last' m', try_send e m to frame addrs last = (true, last', m').
Proof.
  intros Hs addrs. induction addrs as [|b addrs IH]; intros m last Ha; [by apply elem_of_nil in Ha|]. cbn.
  destruct (send_frame e b frame) eqn:Hb; [by eexists _, _|].
  apply elem_of_cons in Ha as [->|Ha]; [congruence|]. by apply IH.
Qed.

Lemma send_up e m to hop frame : link_up e m hop -> hop <> self_node_id (cfg m) ->
  exists m', send_to_node_hop e m to (Some hop) frame = (HopSent, m').
Proof.
  intros (addrs & a & Hep & Ha & Ho & Hs) Hne. unfold send_to_node_hop. cbn [cfg set_ptb with_links]. rewrite decide_True by done. rewrite Hep.
  match goal with |- context [try_send e ?m0 to frame ?l None] => destruct (try_send_up e to frame a (Hs frame) l m0 None) as (x & m' & ->) end.
  - unfold order_endpoints. apply elem_of_sort.
    assert (a ∈ retain_hop_endpoints (set_ptb m None) hop addrs).
    { unfold retain_hop_endpoints. apply elem_of_bfilter. split; [done|]. cbn [cfg set_ptb with_links].
      destruct (relay_endpoint_owner (cfg m) !! a) as [o|] eqn:Eo; [|done]. apply bool_decide_eq_true. by apply Ho. }
    destruct (Frame.decode frame); [destruct (decide _)|..]; done.
  - by eexists.
Qed.

(** The packet is for this node: no route leads on to another leg. *)
Definition ends_here (n : Node) (info : Packet.PacketInfo) : Prop :=
  match lookup_best (engine n) (Packet.dst info) (fun x => reachable n (Packet.src info) (via x)) with
  | Some x => leg_of (via x) = None \/ leg_of (via x) = Some FromMesh
  | None => True
  end.

Lemma ends_here_local e n pkt info : Packet.parse_packet pkt = Ok info -> ends_here n info ->
  exists n', forward_transit e n pkt FromMesh = Ok (false, n') /\ n' = n.
Proof.
  intros Hi He. exists n. split; [|done]. unfold forward_transit, ends_here in *. rewrite Hi. destruct (is_multicast _); [done|].
  destruct (lookup_best _ _ _) as [x|]; [|done]. unfold transit_edge. destruct (via x); cbn in He; destruct He; done.
Qed.

Lemma write_lan_ok e n payload mtu : tun_mtu (conf n) = Some mtu -> payload <> [] ->
  exists w n', clamp_syn (Z.min mtu Packet.TUN_CONSERVATIVE_MTU) payload = Ok w /\ write_lan e n payload = Ok n' /\
    lan_out (legs n') = lan_out (legs n) ++ [w].
Proof.
  intros Hm Hne. destruct (clamp_syn_safe (Z.min mtu Packet.TUN_CONSERVATIVE_MTU) payload Hne) as (w & Hc).
  unfold write_lan. rewrite Hm, Hc. step. exists w.
  destruct (Packet.parse_packet w) as [i|x|] eqn:Hp; [destruct (is_multicast _)| |by destruct (Packet.parse_packet_safe w)]; eexists; done.
Qed.

Context `{PL : !PrimitiveLaws P}.

(** C10: from local network to local network.  A packet read from the local network of
    one node, whose best route leads to a peer with a session, is sent as one frame;
    carried over the relays of the chosen path, it is written to the local network
    of the peer, the same packet but for the segment sizes that the two ends clamp,
    if the peer's policy allows it and no route there leads on. *)
Theorem lan_to_lan (ea eb : Env) (na nb : Node) (ms1 : MeshData) (addr : SocketAddr) (rs : list (Mesh.Env * SocketAddr * MeshData))
    (packet pkt key : list Z) (info : Packet.PacketInfo) (p : PathEntry) (to hop mtu : Z) (s r : Handshake.Session)
    (Hclamp : clamp_syn (Z.min (default Packet.TUN_CONSERVATIVE_MTU (tun_mtu (conf na))) Packet.TUN_CONSERVATIVE_MTU) packet = Ok pkt)
    (Hinfo : Packet.parse_packet packet = Ok info) (Huni : is_multicast (Packet.dst info) = false)
    (Hvia : lan_via na info = Some (ViaMesh to))
    (Hpick : pick_path (menv ea) (mesh na) to (flow_hash info) = (Some p, ms1))
    (Hid : path_id p <> Frame.PATH_ID_DEFAULT /\ u64 (path_id p))
    (Hhop : head (hops p) = Some hop) (Hself : hop <> self_node_id (cfg (mesh na))) (Hup : link_up (menv ea) (mesh na) hop)
    (Hk : key_path_table (pths (mesh na)) !! path_id p = Some key)
    (Hrelays : forall i e a m, rs !! i = Some (e, a, m) -> MeshRun.on_path e m to (path_id p) key (hops p) i)
    (Hlast : hops p !! length rs = Some to) (Hnd : NoDup (hops p)) (Hn : (length rs <= 64)%nat)
    (Hto : self_node_id (cfg (mesh nb)) = to) (Hto' : to <> Frame.BROADCAST_NODE_ID /\ u32 to)
    (Hfrom : u32 (self_node_id (cfg (mesh na)))) (Hkr : key_path_table (pths (mesh nb)) !! path_id p = Some key)
    (Hs : sessions (hs (mesh na)) !! to = Some s) (Hr : sessions (hs (mesh nb)) !! self_node_id (cfg (mesh na)) = Some r)
    (Hws : Handshake.session_wf s) (Hwr : Handshake.session_wf r) (Hpair : Handshake.paired (Handshake.keys s) (Handshake.keys r))
    (Hfresh : Replay.below (Handshake.rx_window r) (Handshake.tx_counter s))
    (Hb : bytes pkt) (Hl : Z.of_nat (length packet + Frame.TAG_LEN) < 2 ^ 16)
    (Hacl : Acl.allows_packet (acl (view nb)) (self_node_id (cfg (mesh na))) pkt = true)
    (Hend : ends_here nb info) (Hmtu : tun_mtu (conf nb) = Some mtu) :
  exists na' frame a frame' nb' w,
    pump_lan_packet ea na packet = Ok (Sent to, na') /\ wire (lnk (mesh na')) = wire (lnk (mesh na)) ++ [(a, frame)] /\
    MeshRun.carry frame rs = Some frame' /\
    on_datagram eb nb addr frame' = Ok nb' /\ lan_out (legs nb') = lan_out (legs nb) ++ [w] /\
    clamp_syn (Z.min mtu Packet.TUN_CONSERVATIVE_MTU) pkt = Ok w /\ Packet.parse_packet w = Ok info /\ length w = length packet.
Proof.
  destruct (clamp_syn_same _ _ _ Hclamp) as (Hpi & Hlen & Hne). rewrite Hinfo in Hpi. rewrite <- Hlen in Hl.
  destruct (MeshRun.path_delivery (menv ea) (menv eb) (mesh na) (mesh nb) ms1 addr rs to (flow_hash info) p key pkt s r)
    as (frame & ms2 & frame' & Hbuild & Hcarry & Hrecv); try done.
  destruct (send_up (menv ea) ms2 to hop frame) as (m' & Hsend).
  { pose proof (build_data_cfg (menv ea) (mesh na) to pkt (flow_hash info)) as Hc. rewrite Hbuild in Hc. cbn [snd] in Hc. unfold link_up. by rewrite Hc. }
  { pose proof (build_data_cfg (menv ea) (mesh na) to pkt (flow_hash info)) as Hc. rewrite Hbuild in Hc. cbn [snd] in Hc. by rewrite Hc. }
  pose proof (wire_send (menv ea) ms2 to (Some hop) frame) as Hwire. rewrite Hsend in Hwire. destruct Hwire as (addrs0 & a & _ & _ & Hwire).
  pose proof (build_data_wire (menv ea) (mesh na) to pkt (flow_hash info)) as Hw0. rewrite Hbuild in Hw0. cbn [snd] in Hw0. rewrite Hw0 in Hwire.
  destruct (handle_incoming (menv eb) (mesh nb) addr frame') as [ev mb] eqn:Hin. cbn [fst] in Hrecv. subst ev.
  set (nb1 := heard (set_mesh nb mb) (self_node_id (cfg (mesh na)))).
  assert (Hpne : pkt <> []) by (intros ->; by destruct packet).
  destruct (write_lan_ok eb nb1 pkt mtu Hmtu Hpne) as (w & nb' & Hw & Hwr' & Hlo).
  destruct (clamp_syn_same _ _ _ Hw) as (Hpw & Hlw & _).
  exists (set_mesh na m'), frame, a, frame', nb', w. split_and!; try done; [| |congruence|congruence].
  - unfold pump_lan_packet. rewrite Hclamp. step. rewrite Hpi, Huni, Hvia. cbn [lan_dispatch]. unfold has_session. rewrite Hs.
    rewrite bool_decide_true by done. unfold lan_data. rewrite Hbuild, Hhop, Hsend. done.
  - unfold on_datagram. rewrite Hin. cbn [handle_mesh_event]. step. unfold acl_deliver. fold nb1.
    change (acl (view nb1)) with (acl (view nb)). rewrite Hacl. unfold deliver_from.
    by destruct (ends_here_local eb nb1 pkt info) as (n' & -> & ->); [congruence|exact Hend|].
Qed.

End Lan.

(** ** Concrete nodes *)

Section Samples.
Import Toy Handshake.ToyNoise.

Definition sample_verifier : VerifyingKeys :=
  {| VerifyingKey := unit; key_from_bytes := fun _ => Some tt; verify_strict := fun _ _ _ => true |}.
#[local] Existing Instance sample_verifier.

Definition sample_conf : Conf :=
  mk_conf "https://coord" (replicate 32 1) (replicate 32 2) "" 0 [] [] SECOND (5 * SECOND) 3 (86400 * SECOND)
    (Some 1500) [] None false None.

Definition no_acl : Acl.AclPolicy := Acl.mk_policy false [] ∅.

Definition sample_runtime (m : MeshData) (g : RouteEngine) (policy : Acl.AclPolicy) (ls : list RouteReport.Dn42PeerLeg) : Node :=
  mk_node sample_conf m g (resolver_new [])
    (mk_ctl None None (Some (self_node_id (cfg m))) 7 None policy_new (Rate.new DROP_STATS_PERIOD 0) [])
    (mk_view ∅ ∅ [] policy ∅ None [] ∅) (mk_timers 0 0 (86400 * SECOND) 0) (mk_live ∅ ∅ ∅ ∅ ∅ [])
    (mk_audits [] 0 ∅ None []) (mk_legs ls RouteReport.reporter_default None [] [] []).

Definition sample_turn : Env :=
  mk_nenv sample_env (fun _ => true) (fun _ => true) (fun _ => true) None (fun _ _ => None) (fun _ => true) (fun i => Z.of_nat i) [].

(** A packet from 10.9.0.1 to 10.1.0.5. *)
Definition sample_packet : list Z := [0x45; 0; 0; 20; 0; 0; 0; 0; 64; 17; 0; 0; 10; 9; 0; 1; 10; 1; 0; 5].
Definition sample_info : Packet.PacketInfo := Packet.mk_info (V4 [10; 9; 0; 1]) (V4 [10; 1; 0; 5]) Packet.Udp 20.

Definition sample_prefix : Prefix := mk_prefix ([10; 1] ++ replicate 14 0) 16 true.

Definition via_mesh (peer : Z) : RouteEngine := insert engine_new (mesh_entry sample_prefix peer).

Definition sample_a : Node := sample_runtime MeshRun.sample_sender (via_mesh 3) no_acl [].
Definition sample_b : Node := sample_runtime MeshRun.sample_receiver engine_new no_acl [].

Lemma lan_to_lan_witness : exists na' frame a frame' nb' w,
    pump_lan_packet sample_turn sample_a sample_packet = Ok (Sent 3, na') /\
    wire (lnk (mesh na')) = wire (lnk (mesh sample_a)) ++ [(a, frame)] /\
    MeshRun.carry frame [(sample_env, sample_addr 1, sample_node 2)] = Some frame' /\
    on_datagram sample_turn sample_b (sample_addr 2) frame' = Ok nb' /\ lan_out (legs nb') = lan_out (legs sample_b) ++ [w] /\
    clamp_syn (Z.min 1500 Packet.TUN_CONSERVATIVE_MTU) sample_packet = Ok w /\ Packet.parse_packet w = Ok sample_info /\
    length w = length sample_packet.
Proof.
  apply (lan_to_lan sample_turn sample_turn sample_a sample_b (snd (pick_path sample_env MeshRun.sample_sender 3 (flow_hash sample_info)))
    (sample_addr 2) [(sample_env, sample_addr 1, sample_node 2)] sample_packet sample_packet (replicate 32 50) sample_info
    (mk_path 50 1 [2; 3] 0) 3 2 1500
    (Handshake.session_new 3 Handshake.sample_keys) (Handshake.session_new 1 Handshake.sample_peer_keys)).
  - reflexivity.
  - reflexivity.
  - reflexivity.
  - vm_compute. reflexivity.
  - reflexivity.
  - split; [discriminate|vm_compute; split; congruence].
  - reflexivity.
  - discriminate.
  - exists [sample_addr 2], (sample_addr 2). split; [reflexivity|]. split; [left|]. split; [vm_compute; discriminate|reflexivity].
  - reflexivity.
  - intros [|i] e a m; [|done]. intros [= <- <- <-]. split; [exact MeshRun.sample_lossless|reflexivity|reflexivity| |].
    + eexists. split; reflexivity.
    + exists 3, [sample_addr 3]. split; [reflexivity|]. split; [reflexivity|]. vm_compute. discriminate.
  - reflexivity.
  - apply (bool_decide_unpack _). vm_compute. exact I.
  - cbn. lia.
  - reflexivity.
  - split; [discriminate|vm_compute; split; congruence].
  - vm_compute. split; congruence.
  - reflexivity.
  - reflexivity.
  - reflexivity.
  - apply Handshake.session_new_wf.
  - apply Handshake.session_new_wf.
  - split; [|split]; reflexivity.
  - apply Replay.new_below.
  - apply (bool_decide_unpack _). vm_compute. exact I.
  - vm_compute. reflexivity.
  - reflexivity.
  - vm_compute. exact I.
  - reflexivity.
Defined.

(** Node 1 with a session of dn42 to the peer "b", which has told it of 10.1.0.0/16,
    and node 3 with a route there over the mesh by node 1. *)
Definition sample_up : RouteReport.Dn42PeerLeg := RouteReport.mk_leg "b" [172; 20; 0; 2] (replicate 16 1) true.

Definition sample_c : Node :=
  sample_runtime MeshRun.sample_sender (insert engine_new (RouteReport.dn42_entry sample_prefix "b")) no_acl [sample_up].

Definition sample_d : Node := sample_runtime MeshRun.sample_receiver (via_mesh 1) no_acl [].

Definition state_of (o : outcome Empty_set Node) : Node := match o with Ok n => n | _ => sample_b end.

Lemma ok_state (o : outcome Empty_set Node) : bool_decide (is_Some (ok o)) = true -> o = Ok (state_of o).
Proof. by destruct o as [|[]|]. Qed.

Definition data_of (ev : IncomingEvent) : option (Z * list Z) := match ev with Data from p => Some (from, p) | _ => None end.


(** The legs of two nodes can form a loop: a packet node 1 passes from the mesh to dn42
    is passed back from dn42 to the mesh by node 3, to node 1, with nothing in the
    packet counted down. *)
Example transit_cycle :
  let n1 := state_of (deliver_from sample_turn FromMesh sample_c sample_packet) in
  let n3 := state_of (deliver_from sample_turn FromDn42 sample_d sample_packet) in
  dn42_out (legs n1) = [("b", sample_packet)] /\ lan_out (legs n1) = [] /\
  exists frame, wire (lnk (mesh n3)) = [(sample_addr 1, frame)] /\ lan_out (legs n3) = [] /\
    data_of (handle_incoming sample_env MeshRun.sample_sender (sample_addr 3) frame).1 = Some (3, sample_packet).
Proof.
  split; [vm_compute; reflexivity|]. split; [vm_compute; reflexivity|].
  exists (match wire (lnk (mesh (state_of (deliver_from sample_turn FromDn42 sample_d sample_packet)))) with (_, f) :: _ => f | [] => [] end).
  split; [vm_compute; reflexivity|]. split; vm_compute; reflexivity.
Qed.

(** A policy that lets node 1 reach 10.1.0.0/16 and nothing else pass. *)
Definition sample_acl : Acl.AclPolicy := Acl.mk_policy true [Acl.mk_rule [Acl.Node 1] sample_prefix Acl.Allow] ∅.

Definition sample_e : Node := sample_runtime MeshRun.sample_receiver engine_new sample_acl [].

Definition frame_of (o : outcome SendError (list Z * option Z) * MeshData) : list Z :=
  match o.1 with Ok (f, _) => f | _ => [] end.

Definition sample_frame : list Z := frame_of (build_data_frame sample_env MeshRun.sample_sender 3 sample_packet 0).

Lemma acl_gate_witness : exists n' from payload dst, on_datagram sample_turn sample_e (sample_addr 2) sample_frame = Ok n' /\
  lan_out (legs n') = [sample_packet] /\
  (handle_incoming sample_env MeshRun.sample_receiver (sample_addr 2) sample_frame).1 = Data from payload /\
  Acl.packet_dst payload = Some dst.
Proof.
  set (n' := state_of (on_datagram sample_turn sample_e (sample_addr 2) sample_frame)).
  assert (H : on_datagram sample_turn sample_e (sample_addr 2) sample_frame = Ok n') by (apply ok_state; vm_compute; reflexivity).
  assert (Hl : lan_out (legs n') = [sample_packet]) by (vm_compute; reflexivity).
  assert (Hd : data_of (handle_incoming (menv sample_turn) (mesh sample_e) (sample_addr 2) sample_frame).1 = Some (1, sample_packet)) by (vm_compute; reflexivity).
  clearbody n'. destruct (acl_gate sample_turn sample_e n' (sample_addr 2) sample_frame) as (from & payload & _ & [Hb|(Hev & _ & dst & _ & _ & _ & Hdst & _)]).
  - reflexivity.
  - exact H.
  - rewrite Hl. discriminate.
  - rewrite Hb in Hd. discriminate Hd.
  - exists n', from, payload, dst. split; [exact H|]. split; [exact Hl|]. split; [exact Hev|exact Hdst].
Defined.

(** Broadcasts are not subject to the policy: one that allows nothing lets the payload
    of a broadcast through to the local network, though it is a packet for a host. *)
Example acl_broadcast_passes :
  let closed := sample_runtime MeshRun.sample_receiver engine_new (Acl.mk_policy true [] ∅) [] in
  let frame := match (build_broadcast_frame (sample_node 1) sample_packet).1 with Ok f => f | _ => [] end in
  Acl.allows_packet (acl (view closed)) 1 sample_packet = false /\
  lan_out (legs (state_of (on_datagram sample_turn closed (sample_addr 1) frame))) = [sample_packet].
Proof. split; [reflexivity|]. vm_compute. reflexivity. Qed.

(** A frame with an empty payload stops the node when it has a local network: the
    first byte of the packet is read without a check. *)
Example empty_payload_panics :
  let frame := frame_of (build_data_frame sample_env MeshRun.sample_sender 3 [] 0) in
  match on_datagram sample_turn sample_b (sample_addr 2) frame with Panic => true | _ => false end = true.
Proof. vm_compute. reflexivity. Qed.

Definition sample_multicast : list Z := [0x45; 0; 0; 20; 0; 0; 0; 0; 64; 17; 0; 0; 10; 9; 0; 1; 224; 0; 0; 5].

Lemma multicast_echo_witness : exists n1 n3, write_lan sample_turn sample_b sample_multicast = Ok n1 /\
  pump_lan_packet sample_turn n1 sample_multicast = Ok (Local, n3).
Proof.
  set (n1 := state_of (write_lan sample_turn sample_b sample_multicast)).
  assert (H : write_lan sample_turn sample_b sample_multicast = Ok n1) by (apply ok_state; vm_compute; reflexivity).
  assert (Ho : lan_out (legs n1) = lan_out (legs sample_b) ++ [sample_multicast]) by (vm_compute; reflexivity).
  clearbody n1. destruct (multicast_echo sample_turn sample_turn sample_b n1 n1 sample_multicast sample_multicast
    (Packet.mk_info (V4 [10; 9; 0; 1]) (V4 [224; 0; 0; 5]) Packet.Udp 20)) as (n3 & Hp & _).
  - exact H.
  - exact Ho.
  - reflexivity.
  - reflexivity.
  - reflexivity.
  - reflexivity.
  - exists n1, n3. split; [exact H|exact Hp].
Defined.

End Samples.
End NodeLan.
