(* ===== verification/NodeMap.v ===== *)
(** * What the coordinator makes of a node

    Theorems on the events of the control channel and the timers ([Node.handle_control_event],
    [Node.data_heartbeat]): a network map replaces what the one before left, what an
    audit found is forgotten by the next map, and silent sessions end. *)

From stdpp Require Import relations.
From S2P Require Import Prelude Replay Crypto Frame Handshake Probe Net Mesh Dispatch MeshRun Route Control Registry Messages Packet RouteMap BgpSession RouteReport Json Tailnet Node NodeLan.

Module NodeMap.
Import Crypto Net Route Mesh Dispatch Messages Node.

Section Map.
Context `{P : Primitives} `{N : Handshake.NoiseProtocol} `{V : VerifyingKeys}.

(** ** A network map *)

(** The entries of the other nodes. *)
Definition others (me : option Z) (l : list NetmapNode) : list NetmapNode :=
  List.filter (fun x => bool_decide (Some (n_node_id x) <> me)) l.

(** The routes an entry stands for. *)
Definition route_entries (x : NetmapNode) : list RouteEntry :=
  if n_offline x then [] else omap (fun r => match parse r with Ok p => Some (mesh_entry p (n_node_id x)) | _ => None end) (n_routes x).

Definition from_source (s : RouteSource) (g : RouteEngine) : list RouteEntry :=
  List.filter (fun e => bool_decide (source e = s)) (entries (table g)).

Lemma from_source_remove s pred g : (forall e, source e = s -> pred e = false) ->
  from_source s (engine_remove_where g pred) = from_source s g.
Proof.
  intros H. unfold from_source. cbn. rewrite Tailnet.filter_filter. apply Tailnet.filter_same. intros e _.
  case_bool_decide as Hs; [by rewrite H|by rewrite andb_false_r].
Qed.

Lemma has_other s s' v e : source e = s -> s <> s' -> has s' v e = false.
Proof. intros <- Hne. unfold has. by rewrite bool_decide_eq_false_2. Qed.

Lemma fill_routes_spec peer rs : forall l g,
  let '(_, g') := foldl (fill_route peer) (l, g) rs in
  entries (table g') = entries (table g) ++ omap (fun r => match parse r with Ok p => Some (mesh_entry p peer) | _ => None end) rs.
Proof.
  induction rs as [|r rs IH]; intros l g; cbn; [by rewrite app_nil_r|].
  unfold fill_route at 2. cbn. destruct (parse r) as [p| |]; [|apply IH..].
  specialize (IH (Tailnet.push_new l r) (insert g (mesh_entry p peer))). destruct (foldl _ _ rs) as [l' g'].
  rewrite IH. cbn. by rewrite <- app_assoc.
Qed.

Lemma omap_source peer rs s : List.filter (fun e => bool_decide (source e = s))
    (omap (fun r => match parse r with Ok p => Some (mesh_entry p peer) | _ => None end) rs) =
  if decide (s = Mesh) then omap (fun r => match parse r with Ok p => Some (mesh_entry p peer) | _ => None end) rs else [].
Proof.
  induction rs as [|r rs IH]; cbn; [by destruct (decide _)|]. destruct (parse r) as [p| |]; [|done..]. cbn.
  destruct (decide (s = Mesh)) as [->|Hne]; [by rewrite bool_decide_eq_true_2, IH|].
  by rewrite bool_decide_eq_false_2, IH by (intros E; by destruct Hne).
Qed.

(** The state of the loop over the entries, from its start. *)
Section Fill.
Context (me : option Z).

Lemma fill_statics l f :
  peer_statics (cfg (f_mesh (foldl (fill_entry me) f l))) =
    foldl (fun m x => <[n_node_id x := n_static_pubkey x]> m) (peer_statics (cfg (f_mesh f))) (others me l) /\
  peer_capabilities (cfg (f_mesh (foldl (fill_entry me) f l))) =
    foldl (fun m x => <[n_node_id x := n_capabilities x]> m) (peer_capabilities (cfg (f_mesh f))) (others me l) /\
  hs (f_mesh (foldl (fill_entry me) f l)) = hs (f_mesh f).
Proof.
  revert f. induction l as [|x l IH]; intros f; [done|]. cbn [foldl]. destruct (IH (fill_entry me f x)) as (-> & -> & ->).
  unfold fill_entry. cbn [others List.filter]. destruct (decide _) as [E|E].
  - rewrite bool_decide_eq_false_2 by tauto. done.
  - rewrite bool_decide_eq_true_2 by done. destruct (if n_offline x then _ else _) as [rs g]. cbn [f_mesh foldl].
    unfold set_endpoints. destruct (List.filter usable _); done.
Qed.

Lemma fill_one_engine x f s : s <> DynDn42 -> Some (n_node_id x) <> me ->
  from_source s (f_engine (fill_entry me f x)) = from_source s (f_engine f) ++ (if decide (s = Mesh) then route_entries x else []).
Proof.
  intros Hs Hme. unfold fill_entry, route_entries. rewrite decide_False by done. destruct (n_offline x).
  - cbn [f_engine]. unfold remove_dyn_dn42_node. rewrite from_source_remove by (intros e He; by apply (has_other s)).
    destruct (decide _); by rewrite app_nil_r.
  - pose proof (fill_routes_spec (n_node_id x) (n_routes x) (mesh_routes f) (f_engine f)) as Hr.
    destruct (foldl _ (mesh_routes f, f_engine f) _) as [rs g]. cbn [f_engine]. unfold from_source. by rewrite Hr, List.filter_app, omap_source.
Qed.

Lemma fill_engine l f s : s <> DynDn42 ->
  from_source s (f_engine (foldl (fill_entry me) f l)) =
    from_source s (f_engine f) ++ (if decide (s = Mesh) then concat (route_entries <$> others me l) else []).
Proof.
  intros Hs. revert f. induction l as [|x l IH]; intros f; cbn [foldl others List.filter].
  { cbn. destruct (decide _); by rewrite app_nil_r. }
  rewrite IH. destruct (decide (Some (n_node_id x) = me)) as [E|E].
  - rewrite bool_decide_eq_false_2 by tauto. unfold fill_entry. by rewrite decide_True.
  - rewrite bool_decide_eq_true_2, fill_one_engine by done. cbn [fmap list_fmap concat]. rewrite <- app_assoc. by destruct (decide (s = Mesh)).
Qed.

Lemma fill_sets l f :
  let f' := foldl (fill_entry me) f l in
  fresh f' = list_to_set (n_node_id <$> others me l) ∪ fresh f /\
  endpoints f' = foldl (fun m x => <[n_node_id x := omap parse_socket (n_endpoints x)]> m) (endpoints f) (others me l) /\
  exits f' = exits f ++ (n_node_id <$> List.filter (fun x => n_exit x && negb (n_offline x)) (others me l)) /\
  Node.self_exit f' = foldl (fun b x => if decide (Some (n_node_id x) = me) then n_exit x else b) (Node.self_exit f) l /\
  acl (f_view f') = acl (f_view f) /\ relays (f_view f') = relays (f_view f).
Proof.
  revert f. induction l as [|x l IH]; intros f; cbn [foldl others List.filter].
  { cbn. rewrite app_nil_r. split_and!; try done. set_solver. }
  cbv zeta in IH |- *. destruct (IH (fill_entry me f x)) as (-> & -> & -> & -> & -> & ->). clear IH.
  unfold fill_entry. destruct (decide (Some (n_node_id x) = me)) as [E|E].
  - rewrite bool_decide_eq_false_2 by tauto. done.
  - rewrite bool_decide_eq_true_2 by done. destruct (if n_offline x then _ else _) as [rs g].
    cbn [fresh endpoints exits Node.self_exit f_view foldl List.filter fmap list_fmap list_to_set].
    split_and!; try done; [set_solver| |by destruct (decide _)..].
    unfold others. destruct (n_exit x && negb (n_offline x)); cbn; by rewrite <- ?app_assoc.
Qed.

End Fill.

(** *** Nodes that are gone *)

Lemma remove_paths_keeps m dest : cfg (remove_paths_for m dest) = cfg m /\ hs (remove_paths_for m dest) = hs m.
Proof.
  unfold remove_paths_for. destruct (path_table (pths m) !! dest) as [ps|]; [|done].
  assert (H : forall ps m, cfg (foldl (fun m p => remove_key_path m (path_id p)) m ps) = cfg m /\
    hs (foldl (fun m p => remove_key_path m (path_id p)) m ps) = hs m).
  { clear. induction ps as [|p ps IH]; intros m; [done|]. cbn [foldl]. by destruct (IH (remove_key_path m (path_id p))) as [-> ->]. }
  by destruct (H ps (put_paths m (delete dest (path_table (pths m))))) as [-> ->].
Qed.

Lemma drop_stale_spec l : forall m p,
  peer_statics (cfg (foldl drop_stale_mesh m l)) !! p = (if decide (p ∈ l) then None else peer_statics (cfg m) !! p) /\
  peer_capabilities (cfg (foldl drop_stale_mesh m l)) !! p = (if decide (p ∈ l) then None else peer_capabilities (cfg m) !! p) /\
  sessions (hs (foldl drop_stale_mesh m l)) !! p = (if decide (p ∈ l) then None else sessions (hs m) !! p).
Proof.
  induction l as [|x l IH]; intros m p; [done|]. cbn [foldl].
  destruct (IH (drop_stale_mesh m x) p) as (-> & -> & ->). unfold drop_stale_mesh.
  match goal with |- context [remove_paths_for ?m0 x] => destruct (remove_paths_keeps m0 x) as [-> ->] end. cbn.
  destruct (decide (p ∈ l)) as [Hl|Hl]; [by rewrite !decide_True by (by right)|].
  destruct (decide (p = x)) as [->|Hx]; [by rewrite !lookup_delete_eq, !decide_True by left|].
  rewrite !lookup_delete_ne by done. by rewrite !decide_False by (rewrite elem_of_cons; tauto).
Qed.

Lemma drop_stale_engine_spec s l : forall g, s <> DynDn42 ->
  (s = Mesh -> forall e, e ∈ from_source Mesh g -> forall x, x ∈ l -> via e <> ViaMesh x) ->
  from_source s (foldl drop_stale_engine g l) = from_source s g.
Proof.
  induction l as [|x l IH]; intros g Hs H; [done|]. cbn [foldl].
  assert (Hx : from_source s (drop_stale_engine g x) = from_source s g).
  { unfold drop_stale_engine, remove_dyn_dn42_node, remove_mesh_node. rewrite from_source_remove by (intros e He; by apply (has_other s)).
    destruct (decide (s = Mesh)) as [->|Hne]; [|apply from_source_remove; intros e He; by apply (has_other s)].
    unfold from_source at 1. cbn. rewrite Tailnet.filter_filter. apply Tailnet.filter_same. intros e He.
    unfold has. case_bool_decide as Hm; [|done]. cbn [andb]. rewrite bool_decide_eq_false_2; [done|].
    apply (H eq_refl); [|by left]. unfold from_source. apply elem_of_bfilter. split; [done|]. by apply bool_decide_eq_true. }
  rewrite IH; [done|done|]. intros -> e. rewrite Hx. intros He y Hy. apply (H eq_refl e He). by right.
Qed.

Lemma relay_endpoints_keeps n : let n' := apply_relay_endpoints n in
  engine n' = engine n /\ default_route n' = default_route n /\ view n' = view n /\ legs n' = legs n /\ ctl n' = ctl n /\
  hs (mesh n') = hs (mesh n) /\ peer_statics (cfg (mesh n')) = peer_statics (cfg (mesh n)) /\
  peer_capabilities (cfg (mesh n')) = peer_capabilities (cfg (mesh n)).
Proof.
  unfold apply_relay_endpoints. cbv zeta. cbn. split_and!; try done.
  all: generalize (map_to_list (peer_endpoints (view n))), (mesh n).
  all: induction l as [|x l IH]; intros m; [done|]; cbn [foldl]; rewrite IH; unfold set_endpoints; by destruct (List.filter usable _).
Qed.

(** *** Endpoints in use *)

(** A list of addresses replaces the one in use unless none of them can be used. *)
Definition place (t : gmap Z (list SocketAddr)) (x : Z * list SocketAddr) : gmap Z (list SocketAddr) :=
  match List.filter usable x.2 with [] => t | l => <[x.1 := l]> t end.

Definition placed (addrs : list SocketAddr) (old : option (list SocketAddr)) : option (list SocketAddr) :=
  match List.filter usable addrs with [] => old | l => Some l end.

Lemma set_endpoints_place m p addrs : endpoint_table (cfg (set_endpoints m p addrs)) = place (endpoint_table (cfg m)) (p, addrs).
Proof. unfold set_endpoints, place. cbn [fst snd]. by destruct (List.filter usable addrs). Qed.

Lemma place_out l : forall t p, p ∉ l.*1 -> foldl place t l !! p = t !! p.
Proof.
  induction l as [|[q a] l IH]; intros t p Hp; [done|]. cbn [foldl]. rewrite IH by set_solver. unfold place. cbn [fst snd].
  destruct (List.filter usable a); [done|]. apply lookup_insert_ne. set_solver.
Qed.

Lemma place_in l : NoDup l.*1 -> forall t p a, (p, a) ∈ l -> foldl place t l !! p = placed a (t !! p).
Proof.
  induction l as [|[q b] l IH]; intros Hnd t p a Hin; [by apply elem_of_nil in Hin|]. cbn [foldl]. cbn in Hnd. apply list.NoDup_cons in Hnd as [Hq Hnd].
  apply elem_of_cons in Hin as [[= <- <-]|Hin].
  - rewrite place_out by done. unfold place, placed. cbn [fst snd]. destruct (List.filter usable a); [done|apply lookup_insert_eq].
  - rewrite (IH Hnd _ _ _ Hin). f_equal. unfold place. cbn [fst snd]. destruct (List.filter usable b); [done|]. apply lookup_insert_ne. intros ->.
    apply Hq, (list_elem_of_fmap_2 fst _ _ Hin).
Qed.

Lemma fst_pairs {A B C} (f : A -> B) (g : A -> C) l : ((fun x => (f x, g x)) <$> l).*1 = f <$> l.
Proof. by rewrite <- list_fmap_compose. Qed.

Lemma fill_endpoints me l : forall f, endpoint_table (cfg (f_mesh (foldl (fill_entry me) f l))) =
  foldl place (endpoint_table (cfg (f_mesh f))) ((fun x => (n_node_id x, omap parse_socket (n_endpoints x))) <$> others me l).
Proof.
  induction l as [|x l IH]; intros f; [done|]. cbn [foldl]. rewrite IH. unfold fill_entry. cbn [others List.filter]. destruct (decide _) as [E|E].
  - by rewrite bool_decide_eq_false_2 by tauto.
  - rewrite bool_decide_eq_true_2 by done. destruct (if n_offline x then _ else _) as [rs g]. cbn [f_mesh fmap list_fmap foldl]. by rewrite set_endpoints_place.
Qed.

Lemma drop_stale_endpoints l : forall m p,
  endpoint_table (cfg (foldl drop_stale_mesh m l)) !! p = if decide (p ∈ l) then None else endpoint_table (cfg m) !! p.
Proof.
  induction l as [|x l IH]; intros m p; [done|]. cbn [foldl]. rewrite IH. unfold drop_stale_mesh.
  match goal with |- context [remove_paths_for ?m0 x] => destruct (remove_paths_keeps m0 x) as [-> _] end. cbn.
  destruct (decide (p ∈ l)) as [Hl|Hl]; [by rewrite decide_True by (by right)|].
  destruct (decide (p = x)) as [->|Hx]; [by rewrite lookup_delete_eq, decide_True by left|].
  rewrite lookup_delete_ne by done. by rewrite decide_False by (rewrite elem_of_cons; tauto).
Qed.

Lemma relay_endpoints_place n : let rs := fallbacks (node_id (ctl n)) (relays (view n)) in
  endpoint_table (cfg (mesh (apply_relay_endpoints n))) =
  foldl place (endpoint_table (cfg (mesh n))) ((fun x => (x.1, foldl push_addr x.2 rs)) <$> map_to_list (peer_endpoints (view n))).
Proof.
  unfold apply_relay_endpoints. cbn. generalize (map_to_list (peer_endpoints (view n))), (mesh n).
  induction l as [|x l IH]; intros m; [done|]. cbn [foldl fmap list_fmap]. by rewrite IH, set_endpoints_place.
Qed.

(** The addresses of an entry stay when those of the relays are added. *)
Lemma push_addrs_usable rs : forall addrs, List.filter usable (foldl push_addr addrs rs) = [] -> List.filter usable addrs = [].
Proof.
  induction rs as [|a rs IH]; intros addrs; [done|]. cbn [foldl]. intros H%IH. revert H. unfold push_addr. destruct (decide _); [done|].
  rewrite List.filter_app. by intros [H _]%app_eq_nil.
Qed.

(** *** Routes learnt from other nodes *)

(** A route through one of these nodes. *)
Definition through (ids : list Z) (r : RouteEntry) : bool := existsb (fun p => bool_decide (via r = ViaMesh p)) ids.

Lemma dyn_remove g p : from_source DynDn42 (remove_dyn_dn42_node g p) = List.filter (fun r => negb (through [p] r)) (from_source DynDn42 g).
Proof.
  unfold from_source, remove_dyn_dn42_node. cbn. rewrite !Tailnet.filter_filter. apply Tailnet.filter_same. intros r _.
  unfold has. case_bool_decide; cbn; [|done]. by rewrite orb_false_r, andb_true_r.
Qed.

Lemma through_app a b r : through (a ++ b) r = through a r || through b r.
Proof. apply existsb_app. Qed.

Lemma not_through a b l : List.filter (fun r => negb (through b r)) (List.filter (fun r => negb (through a r)) l) = List.filter (fun r => negb (through (a ++ b) r)) l.
Proof. rewrite Tailnet.filter_filter. apply Tailnet.filter_same. intros r _. by rewrite through_app, negb_orb. Qed.

Lemma fill_dyn me l : forall f, from_source DynDn42 (f_engine (foldl (fill_entry me) f l)) =
  List.filter (fun r => negb (through (n_node_id <$> List.filter n_offline (others me l)) r)) (from_source DynDn42 (f_engine f)).
Proof.
  induction l as [|x l IH]; intros f; [by rewrite Tailnet.filter_all|]. cbn [foldl]. rewrite IH. clear IH. unfold fill_entry. cbn [others List.filter]. destruct (decide _) as [E|E].
  - by rewrite bool_decide_eq_false_2 by tauto.
  - rewrite bool_decide_eq_true_2 by done. cbn [List.filter]. destruct (n_offline x) eqn:Eo.
    + cbn [f_engine]. rewrite dyn_remove, not_through. done.
    + pose proof (fill_routes_spec (n_node_id x) (n_routes x) (mesh_routes f) (f_engine f)) as Hr.
      destruct (foldl _ (mesh_routes f, f_engine f) _) as [rs g]. cbn [f_engine]. f_equal. unfold from_source.
      by rewrite Hr, List.filter_app, omap_source, decide_False, app_nil_r by done.
Qed.

Lemma drop_stale_dyn l : forall g, from_source DynDn42 (foldl drop_stale_engine g l) = List.filter (fun r => negb (through l r)) (from_source DynDn42 g).
Proof.
  induction l as [|x l IH]; intros g; [by rewrite Tailnet.filter_all|]. cbn [foldl]. rewrite IH. unfold drop_stale_engine. rewrite dyn_remove.
  unfold remove_mesh_node. rewrite from_source_remove by (intros e He; by apply (has_other DynDn42)). apply (not_through [x] l).
Qed.

(** The static keys and capabilities a node holds are of nodes of its map only. *)
Record peers_ok (n : Node) : Prop := {
  po_statics : forall p, is_Some (peer_statics (cfg (mesh n)) !! p) -> p ∈ netmap_peers (view n);
  po_capabilities : forall p, is_Some (peer_capabilities (cfg (mesh n)) !! p) -> p ∈ netmap_peers (view n)
}.

(** What a node holds when its tables are those of a network map. *)
Record holds_map (me : option Z) (nm : NetmapData) (n : Node) : Prop := {
  hm_peers : netmap_peers (view n) = list_to_set (n_node_id <$> others me (nm_entries nm));
  hm_statics : forall x, x ∈ others me (nm_entries nm) -> peer_statics (cfg (mesh n)) !! n_node_id x = Some (n_static_pubkey x);
  hm_capabilities : forall x, x ∈ others me (nm_entries nm) -> peer_capabilities (cfg (mesh n)) !! n_node_id x = Some (n_capabilities x);
  hm_only : forall p, p ∉ netmap_peers (view n) -> peer_statics (cfg (mesh n)) !! p = None /\ peer_capabilities (cfg (mesh n)) !! p = None;
  hm_routes : from_source Mesh (engine n) = concat (route_entries <$> others me (nm_entries nm));
  hm_exits : mesh_exits (default_route n) = n_node_id <$> List.filter (fun x => n_exit x && negb (n_offline x)) (others me (nm_entries nm));
  hm_acl : acl (view n) = default (Acl.mk_policy false [] ∅) (nm_acl nm);
  hm_endpoints : forall x, x ∈ others me (nm_entries nm) -> peer_endpoints (view n) !! n_node_id x = Some (omap parse_socket (n_endpoints x))
}.

Lemma others_nodup me l : NoDup (n_node_id <$> l) -> NoDup (n_node_id <$> others me l).
Proof. apply bfilter_nodup. Qed.

Lemma elem_others_ids me l p : p ∈ (list_to_set (n_node_id <$> others me l) : gset Z) <-> exists x, x ∈ others me l /\ n_node_id x = p.
Proof.
  rewrite elem_of_list_to_set, list_elem_of_fmap. split; intros (x & H1 & H2); by exists x.
Qed.

Lemma route_entries_via x e : e ∈ route_entries x -> via e = ViaMesh (n_node_id x).
Proof.
  unfold route_entries. destruct (n_offline x); [by intros ?%elem_of_nil|]. intros (r & _ & Hr)%list_elem_of_omap.
  destruct (parse r); try done. by injection Hr as <-.
Qed.

Section Apply.
Context (n : Node) (nm : NetmapData) (Hok : peers_ok n).
#[local] Abbreviation me := (node_id (ctl n)).
#[local] Abbreviation ids := (list_to_set (n_node_id <$> others me (nm_entries nm)) : gset Z).
#[local] Abbreviation stale := (elements (netmap_peers (view n) ∖ ids)).
#[local] Abbreviation filling get t := (foldl (fun m x => <[n_node_id x := get x]> m) t (others me (nm_entries nm))).

Lemma not_stale x : x ∈ others me (nm_entries nm) -> n_node_id x ∉ stale.
Proof. intros Hx. rewrite elem_of_elements, elem_of_difference. intros [_ H]. apply H, elem_others_ids. by exists x. Qed.

(** A table filled from the entries, after the nodes that are gone were dropped. *)
Lemma filled {A} (get : NetmapNode -> A) (t : gmap Z A) x : NoDup (n_node_id <$> nm_entries nm) -> x ∈ others me (nm_entries nm) ->
  (if decide (n_node_id x ∈ stale) then None else filling get t !! n_node_id x) = Some (get x).
Proof.
  intros Hn Hx. rewrite decide_False by by apply not_stale. apply (foldl_insert_in n_node_id get); [by apply others_nodup|done].
Qed.

Lemma filled_only {A} (get : NetmapNode -> A) (t : gmap Z A) p : (forall p, is_Some (t !! p) -> p ∈ netmap_peers (view n)) -> p ∉ ids ->
  (if decide (p ∈ stale) then None else filling get t !! p) = None.
Proof.
  intros Ht Hp. destruct (decide (p ∈ stale)) as [|Hs]; [done|]. rewrite (foldl_insert_out n_node_id get) by (by rewrite elem_of_list_to_set in Hp).
  destruct (t !! p) eqn:E; [|done]. destruct Hs. rewrite elem_of_elements, elem_of_difference. split; [|done]. apply Ht. by rewrite E.
Qed.

(** The tables after a map, in terms of those before. *)
Lemma apply_netmap_tables : let n' := apply_netmap n nm in
  netmap_peers (view n') = ids /\
  (forall p, peer_statics (cfg (mesh n')) !! p = if decide (p ∈ stale) then None else filling n_static_pubkey (peer_statics (cfg (mesh n))) !! p) /\
  (forall p, peer_capabilities (cfg (mesh n')) !! p = if decide (p ∈ stale) then None else filling n_capabilities (peer_capabilities (cfg (mesh n))) !! p) /\
  (forall p, sessions (hs (mesh n')) !! p = if decide (p ∈ stale) then None else sessions (hs (mesh n)) !! p) /\
  (forall s, s <> DynDn42 -> from_source s (engine n') = if decide (s = Mesh) then concat (route_entries <$> others me (nm_entries nm)) else from_source s (engine n)) /\
  mesh_exits (default_route n') = n_node_id <$> List.filter (fun x => n_exit x && negb (n_offline x)) (others me (nm_entries nm)) /\
  acl (view n') = default (Acl.mk_policy false [] ∅) (nm_acl nm) /\
  peer_endpoints (view n') = filling (fun x => omap parse_socket (n_endpoints x)) ∅.
Proof.
  unfold apply_netmap. cbv zeta.
  match goal with |- context [foldl (fill_entry ?i) ?f ?l] => set (f0 := f); set (f1 := foldl (fill_entry i) f0 l) end.
  destruct (fill_statics me (nm_entries nm) f0) as (Hst & Hcap & Hhs). fold f1 in Hst, Hcap, Hhs.
  destruct (fill_sets me (nm_entries nm) f0) as (Hfr & Hep & Hex & Hse & Hacl & Hrel). fold f1 in Hfr, Hep, Hex, Hse, Hacl, Hrel.
  pose proof (fun s => fill_engine me (nm_entries nm) f0 s) as Hg. fold f1 in Hg. cbn in Hst, Hcap, Hhs, Hfr, Hep, Hex, Hacl.
  rewrite union_empty_r_L in Hfr.
  match goal with |- context [apply_relay_endpoints ?x] => pose proof (relay_endpoints_keeps x) as Hk; set (n2 := x) in * end.
  cbv zeta in Hk. destruct Hk as (K1 & K2 & K3 & _ & _ & K4 & K5 & K6). rewrite K1, K2, K3, K4, K5, K6.
  assert (Hstale : elements (netmap_peers (view n) ∖ fresh f1) = stale) by by rewrite Hfr.
  assert (Hpk : forall p, peer_statics (cfg (mesh n2)) !! p = (if decide (p ∈ stale) then None else peer_statics (cfg (f_mesh f1)) !! p) /\
    peer_capabilities (cfg (mesh n2)) !! p = (if decide (p ∈ stale) then None else peer_capabilities (cfg (f_mesh f1)) !! p) /\
    sessions (hs (mesh n2)) !! p = (if decide (p ∈ stale) then None else sessions (hs (f_mesh f1)) !! p)).
  { intros p. unfold n2. cbn [mesh set_mesh set_ts2021 set_legs set_default_route set_view set_engine netmap_peers].
    rewrite Hstale. cbn [cfg set_relay_owners with_cfg peer_statics peer_capabilities hs]. apply drop_stale_spec. }
  rewrite Hst, Hcap, Hhs in Hpk.
  split; [exact Hfr|]. split; [apply Hpk|]. split; [apply Hpk|]. split; [apply Hpk|]. split; [|by split].
  assert (Hmesh : from_source Mesh (f_engine f1) = concat (route_entries <$> others me (nm_entries nm))).
  { rewrite Hg, decide_True by done. unfold f0. cbn [f_engine]. unfold from_source at 1. cbn. rewrite Tailnet.filter_filter.
    rewrite (Tailnet.filter_same _ (fun _ => false)) by (intros e _; apply andb_negb_l). by induction (entries _). }
  intros s Hs. unfold n2. cbn [engine set_mesh set_ts2021 set_legs set_default_route set_view set_engine netmap_peers].
  rewrite Hstale, drop_stale_engine_spec; [|done|].
  - destruct (decide (s = Mesh)) as [->|Hne]; [done|]. rewrite Hg, decide_False, app_nil_r by done. unfold f0. cbn [f_engine].
    apply from_source_remove. intros e He. apply bool_decide_eq_false_2. congruence.
  - intros _ e He x Hx Hv. rewrite Hmesh in He. apply list_elem_of_In, in_concat in He as (l & Hl%list_elem_of_In & He%list_elem_of_In). apply list_elem_of_fmap in Hl as (y & -> & Hy).
    apply route_entries_via in He. rewrite He in Hv. injection Hv as <-. by apply (not_stale y).
Qed.

(** The endpoints in use and the routes learnt from other nodes after a map. *)
Lemma apply_netmap_uses (Hn : NoDup (n_node_id <$> nm_entries nm)) : let n' := apply_netmap n nm in
  relays (view n') = new_relays (relays (view n)) (peer_endpoints (view n')) (nm_relay_roster nm) /\
  (forall x, x ∈ others me (nm_entries nm) -> endpoint_table (cfg (mesh n')) !! n_node_id x =
     placed (foldl push_addr (omap parse_socket (n_endpoints x)) (fallbacks me (relays (view n')))) (endpoint_table (cfg (mesh n)) !! n_node_id x)) /\
  (forall p, p ∉ ids -> endpoint_table (cfg (mesh n')) !! p = if decide (p ∈ stale) then None else endpoint_table (cfg (mesh n)) !! p) /\
  from_source DynDn42 (engine n') = List.filter (fun r => negb (through ((n_node_id <$> List.filter n_offline (others me (nm_entries nm))) ++ stale) r)) (from_source DynDn42 (engine n)).
Proof.
  destruct apply_netmap_tables as (_ & _ & _ & _ & _ & _ & _ & Hpe). revert Hpe. unfold apply_netmap. cbv zeta.
  match goal with |- context [foldl (fill_entry ?i) ?f ?l] => set (f0 := f); set (f1 := foldl (fill_entry i) f0 l) end.
  destruct (fill_sets me (nm_entries nm) f0) as (Hfr & Hep & _ & _ & _ & Hrel). fold f1 in Hfr, Hep, Hrel. cbn in Hfr, Hep, Hrel. rewrite union_empty_r_L in Hfr.
  pose proof (fill_endpoints me (nm_entries nm) f0) as Ht. pose proof (fill_dyn me (nm_entries nm) f0) as Hd. fold f1 in Ht, Hd.
  match goal with |- context [apply_relay_endpoints ?x] => pose proof (relay_endpoints_keeps x) as Hk; pose proof (relay_endpoints_place x) as Hpl; set (n2 := x) in * end.
  cbv zeta in Hk. destruct Hk as (K1 & _ & K3 & _). rewrite K1, K3. cbv zeta in Hpl. intros Hpe.
  assert (Hstale : elements (netmap_peers (view n) ∖ fresh f1) = stale) by by rewrite Hfr.
  assert (Et : forall p, endpoint_table (cfg (mesh n2)) !! p = if decide (p ∈ stale) then None else
    foldl place (endpoint_table (cfg (mesh n))) ((fun x => (n_node_id x, omap parse_socket (n_endpoints x))) <$> others me (nm_entries nm)) !! p).
  { intros p. unfold n2. cbn [mesh set_mesh set_ts2021 set_legs set_default_route set_view set_engine netmap_peers]. rewrite Hstale.
    cbn [cfg set_relay_owners with_cfg endpoint_table]. rewrite drop_stale_endpoints. by rewrite Ht. }
  split; [unfold n2; cbn; by rewrite Hrel|]. rewrite Hpl. change (node_id (ctl n2)) with me. split; [|split].
  - intros x Hx. assert (Hin : peer_endpoints (view n2) !! n_node_id x = Some (omap parse_socket (n_endpoints x))).
    { rewrite Hpe. apply (foldl_insert_in n_node_id (fun x => omap parse_socket (n_endpoints x))); [by apply others_nodup|done]. }
    rewrite (place_in _) with (a := foldl push_addr (omap parse_socket (n_endpoints x)) (fallbacks me (relays (view n2)))).
    2: { rewrite <- list_fmap_compose. apply NoDup_fst_map_to_list. }
    2: { apply list_elem_of_fmap. exists (n_node_id x, omap parse_socket (n_endpoints x)). split; [done|]. by apply elem_of_map_to_list. }
    rewrite Et, decide_False by by apply not_stale. rewrite (place_in _) with (a := omap parse_socket (n_endpoints x)).
    2: { rewrite fst_pairs. by apply others_nodup. }
    2: { apply list_elem_of_fmap. by exists x. }
    unfold placed. destruct (List.filter usable (foldl push_addr _ _)) eqn:E; [|done]. by rewrite (push_addrs_usable _ _ E).
  - intros p Hp. rewrite place_out.
    + rewrite Et. destruct (decide (p ∈ stale)); [done|]. rewrite place_out; [done|]. rewrite fst_pairs. by rewrite elem_of_list_to_set in Hp.
    + rewrite <- list_fmap_compose. intros ([q a] & -> & Hq%elem_of_map_to_list)%list_elem_of_fmap. rewrite Hpe in Hq. cbn in Hp.
      rewrite (foldl_insert_out n_node_id (fun x => omap parse_socket (n_endpoints x))) in Hq by (by rewrite elem_of_list_to_set in Hp). by rewrite lookup_empty in Hq.
  - unfold n2. cbn [engine set_mesh set_ts2021 set_legs set_default_route set_view set_engine netmap_peers]. rewrite Hstale, drop_stale_dyn, Hd, not_through.
    f_equal. unfold f0. cbn [f_engine]. apply from_source_remove. intros e He. apply bool_decide_eq_false_2. congruence.
Qed.

Lemma apply_netmap_peers : peers_ok (apply_netmap n nm).
Proof.
  destruct apply_netmap_tables as (Hp & Hs & Hc & _). destruct Hok as [H1 H2].
  split; intros p; rewrite Hp, ?Hs, ?Hc; destruct (decide (p ∈ ids)) as [|Hout]; try done; rewrite filled_only by done; by intros [].
Qed.

Lemma apply_netmap_holds (Hn : NoDup (n_node_id <$> nm_entries nm)) : let n' := apply_netmap n nm in
  holds_map me nm n' /\ peers_ok n' /\
  (forall s, s <> Mesh -> s <> DynDn42 -> from_source s (engine n') = from_source s (engine n)) /\
  (forall p, sessions (hs (mesh n')) !! p = if decide (p ∈ netmap_peers (view n) /\ p ∉ netmap_peers (view n')) then None else sessions (hs (mesh n)) !! p).
Proof.
  intros n'. destruct apply_netmap_tables as (Hp & Hs & Hc & Hse & Hr & Hx & Ha & He). fold n' in Hp, Hs, Hc, Hse, Hr, Hx, Ha, He.
  destruct Hok as [H1 H2]. split; [|split; [apply apply_netmap_peers|split]].
  - split; try done.
    + intros x Hin. rewrite Hs. by apply filled.
    + intros x Hin. rewrite Hc. by apply filled.
    + intros p. rewrite Hp. intros Hout. rewrite Hs, Hc, !filled_only by done. done.
    + by rewrite Hr, decide_True by done.
    + intros x Hin. rewrite He. apply (foldl_insert_in n_node_id (fun x => omap parse_socket (n_endpoints x))); [by apply others_nodup|done].
  - intros s Hs1 Hs2. by rewrite Hr, decide_False by done.
  - intros p. rewrite Hse, Hp. apply decide_ext. by rewrite elem_of_elements, elem_of_difference.
Qed.

End Apply.

(** What comes before the map is applied leaves all tables alone. *)
Lemma audits_keep e n l : let n' := foldl (audit_entry e) n l in
  mesh n' = mesh n /\ view n' = view n /\ engine n' = engine n /\ default_route n' = default_route n /\ ctl n' = ctl n /\ legs n' = legs n /\
  conf n' = conf n /\ live n' = live n.
Proof.
  cbv zeta. revert n. induction l as [|x l IH]; intros n; [done|]. cbn [foldl].
  assert (H : let n' := audit_entry e n x in mesh n' = mesh n /\ view n' = view n /\ engine n' = engine n /\ default_route n' = default_route n /\
    ctl n' = ctl n /\ legs n' = legs n /\ conf n' = conf n /\ live n' = live n).
  { cbv zeta. unfold audit_entry, queue_binding_audit. cbv zeta. repeat (case_match; try done). }
  cbv zeta in H. destruct H as (H1 & H2 & H3 & H4 & H5 & H6 & H7 & H8), (IH (audit_entry e n x)) as (-> & -> & -> & -> & -> & -> & -> & ->). done.
Qed.

Lemma audit_own_keep e n : let n' := audit_own e n in
  mesh n' = mesh n /\ view n' = view n /\ engine n' = engine n /\ default_route n' = default_route n /\ ctl n' = ctl n /\ legs n' = legs n /\
  conf n' = conf n /\ live n' = live n.
Proof. cbv zeta. unfold audit_own, queue_binding_audit. cbv zeta. repeat (case_match; try done). Qed.

Lemma challenge_ok_keep n : let n' := on_challenge_ok n in
  mesh n' = mesh n /\ view n' = view n /\ engine n' = engine n /\ default_route n' = default_route n /\ node_id (ctl n') = node_id (ctl n) /\ legs n' = legs n /\
  conf n' = conf n /\ live n' = live n /\ reconnect (ctl n') = reconnect (ctl n) /\ (control (ctl n') = None <-> control (ctl n) = None).
Proof. cbv zeta. unfold on_challenge_ok, on_client. destruct (control (ctl n)) eqn:E; [|by rewrite E]. by cbn. Qed.

Definition before_map (e : Env) (n : Node) (nm : NetmapData) : Node :=
  foldl (audit_entry e) (audit_own e (set_audit_endpoints (on_challenge_ok n) (nm_replica_endpoints nm))) (nm_entries nm).

Lemma before_map_keep e n nm : let n' := before_map e n nm in
  mesh n' = mesh n /\ view n' = view n /\ engine n' = engine n /\ default_route n' = default_route n /\ node_id (ctl n') = node_id (ctl n) /\ legs n' = legs n /\
  conf n' = conf n /\ live n' = live n /\ reconnect (ctl n') = reconnect (ctl n) /\ (control (ctl n') = None <-> control (ctl n) = None).
Proof.
  cbv zeta. unfold before_map.
  match goal with |- context [foldl (audit_entry e) ?x ?l] => destruct (audits_keep e x l) as (-> & -> & -> & -> & -> & -> & -> & ->) end.
  match goal with |- context [audit_own e ?x] => destruct (audit_own_keep e x) as (-> & -> & -> & -> & -> & -> & -> & ->) end.
  apply (challenge_ok_keep n).
Qed.

(** C13: a network map replaces the one before.  For a map that names every node once, a
    node's identities, capabilities, mesh routes, exits and policy, and the endpoints it
    remembers, are afterwards those of the entries of the other nodes and nothing else,
    whatever it held before.  The endpoints in use for a node of the map are its usable
    ones followed by those of the confirmed relays, but when there are none at all those
    of before stay; a node that left the map has none, and other nodes keep theirs.  Routes
    from other sources are as they were, except that those learnt from other nodes of
    the mesh are gone when the node left the map or is off line.  Of the sessions
    exactly those with nodes that left the map are gone. *)
Theorem netmap_applied (e : Env) (n : Node) (nm : NetmapData) (Hn : NoDup (n_node_id <$> nm_entries nm)) (Hok : peers_ok n) :
  let n' := (handle_control_event e n (Netmap nm)).2 in
  let me := node_id (ctl n) in
  let left p := p ∈ netmap_peers (view n) /\ p ∉ netmap_peers (view n') in
  holds_map me nm n' /\ peers_ok n' /\
  relays (view n') = new_relays (relays (view n)) (peer_endpoints (view n')) (nm_relay_roster nm) /\
  (forall x, x ∈ others me (nm_entries nm) -> endpoint_table (cfg (mesh n')) !! n_node_id x =
     placed (foldl push_addr (omap parse_socket (n_endpoints x)) (fallbacks me (relays (view n')))) (endpoint_table (cfg (mesh n)) !! n_node_id x)) /\
  (forall p, p ∉ netmap_peers (view n') -> endpoint_table (cfg (mesh n')) !! p = if decide (left p) then None else endpoint_table (cfg (mesh n)) !! p) /\
  (forall s, s <> Mesh -> s <> DynDn42 -> from_source s (engine n') = from_source s (engine n)) /\
  from_source DynDn42 (engine n') = List.filter (fun r => negb (through ((n_node_id <$> List.filter n_offline (others me (nm_entries nm)))
     ++ elements (netmap_peers (view n) ∖ netmap_peers (view n'))) r)) (from_source DynDn42 (engine n)) /\
  (forall p, sessions (hs (mesh n')) !! p = if decide (left p) then None else sessions (hs (mesh n)) !! p).
Proof.
  cbn [handle_control_event snd]. unfold on_netmap_event. fold (before_map e n nm). cbv zeta.
  destruct (before_map_keep e n nm) as (Hm & Hv & Hg & _ & Hid & _). rewrite <- Hid, <- Hg, <- Hv, <- Hm.
  assert (Hb : peers_ok (before_map e n nm)) by (destruct Hok as [H1 H2]; split; by rewrite Hm, Hv).
  destruct (apply_netmap_holds (before_map e n nm) nm Hb Hn) as (H1 & H2 & H3 & H4). destruct (apply_netmap_uses (before_map e n nm) nm Hn) as (U1 & U2 & U3 & U4).
  pose proof (hm_peers _ _ _ H1) as Hp. do 4 (split; [done|]). split; [|split; [done|split; [by rewrite Hp|done]]].
  intros p. rewrite Hp. intros Hout. rewrite U3 by done. apply decide_ext. by rewrite elem_of_elements, elem_of_difference.
Qed.

(** ** Audits *)

Lemma on_audit_peers n o : peers_ok n -> peers_ok (on_audit n o).
Proof.
  intros [H1 H2]. unfold on_audit. repeat case_decide; try done. split; cbn; intros p; [|apply H2].
  intros [x Hx]. apply H1. rewrite lookup_delete_Some in Hx. destruct Hx as [_ Hx]. by exists x.
Qed.

Lemma queue_audit_spawned e n id claim ep p c : (ep, p, c) ∈ spawned (audits (queue_binding_audit e n id claim)) ->
  (ep, p, c) ∈ spawned (audits n) \/ p = id /\ audited_claims (audits n) !! id <> Some (anchor claim).
Proof.
  unfold queue_binding_audit. cbv zeta. destruct (decide _) as [|Ha]; [by left|]. repeat (case_match; try by left).
  all: cbn; intros [?|Hin]%elem_of_app; [by left|]; apply list_elem_of_singleton in Hin; injection Hin as _ -> _; by right.
Qed.

Lemma queue_audit_audited e n id claim : audited_claims (audits (queue_binding_audit e n id claim)) = audited_claims (audits n).
Proof. unfold queue_binding_audit. cbv zeta. repeat (case_match; try done). Qed.

Lemma audit_entries_spawned e p l ep c : forall n,
  (forall x, x ∈ l -> n_node_id x = p -> audited_claims (audits n) !! p = Some (n_binding_log_id x)) ->
  (ep, p, c) ∈ spawned (audits (foldl (audit_entry e) n l)) -> (ep, p, c) ∈ spawned (audits n).
Proof.
  induction l as [|x l IH]; intros n Hx; [done|]. cbn [foldl]. intros H%IH.
  - revert H. unfold audit_entry. destruct (decide _) as [|Hd]; [done|]. intros [?|[-> Ha]]%queue_audit_spawned; [done|].
    destruct Hd. right. apply Hx; [by left|done].
  - intros y Hy Hid. unfold audit_entry. destruct (decide _); [apply Hx; [by right|done]|].
    rewrite queue_audit_audited. apply Hx; [by right|done].
Qed.

(** A conflict found by an audit does not last: the peer's identity and session are
    dropped, and the next network map that names it with the same anchor puts the
    identity back and starts no audit of it. *)
Theorem conflict_undone (e : Env) (n : Node) (nm : NetmapData) (x : NetmapNode) (Hn : NoDup (n_node_id <$> nm_entries nm)) (Hok : peers_ok n)
    (Hx : x ∈ others (node_id (ctl n)) (nm_entries nm)) (H0 : n_node_id x <> 0) :
  let o := mk_audit_outcome (n_node_id x) (n_binding_log_id x) AUDIT_VERDICT_CONFLICT in
  let n1 := on_audit n o in
  let n2 := (handle_control_event e n1 (Netmap nm)).2 in
  peer_statics (cfg (mesh n1)) !! n_node_id x = None /\ sessions (hs (mesh n1)) !! n_node_id x = None /\
  peer_statics (cfg (mesh n2)) !! n_node_id x = Some (n_static_pubkey x) /\
  forall ep c, (ep, n_node_id x, c) ∈ spawned (audits n2) -> (ep, n_node_id x, c) ∈ spawned (audits n1).
Proof.
  intros o n1 n2. assert (E : n1 = record_audit (set_mesh n (remove_peer_static (drop_session (mesh n) (n_node_id x)) (n_node_id x))) o).
  { unfold n1, on_audit. cbn [ao_verdict ao_node o]. by rewrite !decide_False, decide_True, decide_False by done. }
  split; [rewrite E; apply lookup_delete_eq|]. split; [rewrite E; apply lookup_delete_eq|].
  assert (Hid : node_id (ctl n1) = node_id (ctl n)) by by rewrite E. split.
  - destruct (apply_netmap_holds (before_map e n1 nm) nm) as (Hh & _); [|done|].
    { destruct (before_map_keep e n1 nm) as (Hm & Hv & _). destruct (on_audit_peers n o Hok) as [A B]. fold n1 in A, B. split; by rewrite Hm, Hv. }
    destruct (before_map_keep e n1 nm) as (_ & _ & _ & _ & Hi & _). rewrite Hi, Hid in Hh. by apply (hm_statics _ _ _ Hh).
  - intros ep c Hin. unfold n2 in Hin. cbn [handle_control_event snd] in Hin. unfold on_netmap_event in Hin. fold (before_map e n1 nm) in Hin.
    assert (Ha : audits (apply_netmap (before_map e n1 nm) nm) = audits (before_map e n1 nm)) by done. rewrite Ha in Hin.
    apply audit_entries_spawned in Hin.
    + assert (Hs : spawned (audits (set_audit_endpoints (on_challenge_ok n1) (nm_replica_endpoints nm))) = spawned (audits n1)) by (unfold on_challenge_ok, on_client; by destruct (control _)).
      unfold audit_own in Hin. destruct (local_binding_claim _); [|by rewrite Hs in Hin].
      apply queue_audit_spawned in Hin as [Hin|[? _]]; [|done]. by rewrite Hs in Hin.
    + intros y Hy Hyid. assert (y = x) as ->.
      { unfold others in Hx. apply elem_of_bfilter in Hx as [Hx _]. by apply (fmap_nodup_eq n_node_id _ _ _ Hn). }
      assert (Hs : audited_claims (audits (audit_own e (set_audit_endpoints (on_challenge_ok n1) (nm_replica_endpoints nm)))) = audited_claims (audits n1)).
      { unfold audit_own. destruct (local_binding_claim _); [rewrite queue_audit_audited|]; unfold on_challenge_ok, on_client; by destruct (control (ctl n1)). }
      rewrite Hs, E. apply lookup_insert_eq.
Qed.

(** ** Silent sessions *)

Lemma miss_endpoint_keeps e m dest : cfg (miss_endpoint e m dest) = cfg m /\ hs (miss_endpoint e m dest) = hs m.
Proof. unfold miss_endpoint. by destruct (_ ≫= _) as [[]|]. Qed.

(** What a frame to a peer does to the sessions: the one of the peer stays. *)
Lemma build_typed_sessions m to path pt payload :
  cfg (build_typed_frame m to path pt payload).2 = cfg m /\
  forall q, is_Some (sessions (hs (build_typed_frame m to path pt payload).2) !! q) <-> is_Some (sessions (hs m) !! q).
Proof.
  unfold build_typed_frame. destruct (sessions (hs m) !! to) as [s|] eqn:Es; [|done]. destruct (if decide _ then _ else _) as [k|]; [|done].
  destruct (Handshake.next_seq s) as [q s']. split; [done|]. intros p. cbn. destruct (decide (p = to)) as [->|Hne].
  - by rewrite lookup_insert_eq, Es.
  - by rewrite lookup_insert_ne.
Qed.

Definition count (n : Node) (p : Z) : Z := default 0 (peer_heartbeats (live n) !! p).

Lemma beat_frame_keeps e m p m' : beat_frame e m p = Ok m' ->
  cfg m' = cfg m /\ forall q, is_Some (sessions (hs m') !! q) <-> is_Some (sessions (hs m) !! q).
Proof.
  unfold beat_frame. pose proof (build_typed_sessions m p Frame.PATH_ID_DEFAULT Frame.packet_type.HEARTBEAT []) as Hb. fold (build_heartbeat_frame m p) in Hb.
  destruct (build_heartbeat_frame m p) as [[frame|x|] m1]; cbn [snd] in Hb; [|by intros [= <-]|done].
  destruct (first_hop_keeps e m1 p) as [F1 F2]. destruct (path_first_hop e m1 p) as [hop m2]. cbn [snd] in F1, F2.
  destruct (send_to_node_hop_keeps e m2 p hop frame) as [S1 S2]. intros Hm%Ok_inj. by rewrite <- Hm, S1, S2, F1, F2.
Qed.

(** The mesh a heartbeat starts from. *)
Lemma beat_start e m p : let m' := miss_endpoint e (path_miss_peer m p) p in cfg m' = cfg m /\ hs m' = hs m.
Proof.
  cbv zeta. destruct (miss_endpoint_keeps e (path_miss_peer m p) p) as [-> ->]. destruct (path_miss_peer_keeps m p) as [-> ->]. done.
Qed.

Lemma beat_peer_spec e n p n' : beat_peer e n p = Ok n' ->
  conf n' = conf n /\ timers n' = timers n /\ cfg (mesh n') = cfg (mesh n) /\
  (forall q, q <> p -> peer_heartbeats (live n') !! q = peer_heartbeats (live n) !! q /\
     (is_Some (sessions (hs (mesh n')) !! q) <-> is_Some (sessions (hs (mesh n)) !! q))) /\
  (if decide (data_heartbeat_misses (conf n) <= count n p + 1)
   then sessions (hs (mesh n')) !! p = None /\ peer_heartbeats (live n') !! p = None
   else (is_Some (sessions (hs (mesh n')) !! p) <-> is_Some (sessions (hs (mesh n)) !! p)) /\ peer_heartbeats (live n') !! p = Some (count n p + 1)).
Proof.
  unfold beat_peer. cbv zeta. fold (count n p). intros (m & Hm & H)%bind_Ok_inv.
  apply beat_frame_keeps in Hm as [Hc Hs]. cbn [mesh set_heartbeats set_live] in Hc, Hs. destruct (beat_start (menv e) (mesh n) p) as [Hc0 Hh0].
  rewrite Hc0 in Hc. rewrite Hh0 in Hs. apply Ok_inj in H. subst n'. cbn [conf set_heartbeats set_live].
  destruct (decide _) as [Hd|Hd]; cbn; (split; [done|]); (split; [done|]); (split; [done|]); split.
  - intros q Hq. rewrite !lookup_delete_ne, lookup_insert_ne by done. by split.
  - by rewrite !lookup_delete_eq.
  - intros q Hq. rewrite lookup_insert_ne by done. by split.
  - rewrite lookup_insert_eq. by split.
Qed.

Section Silent.
Context `{PL : !PrimitiveLaws P}.

(** The numbers in the frames have their widths. *)
Definition mesh_ok (m : MeshData) : Prop :=
  u32 (self_node_id (cfg m)) /\ forall q s, sessions (hs m) !! q = Some s -> u32 q /\ u32 (Handshake.tx_counter s).

Lemma build_heartbeat_ok m p : mesh_ok m -> (build_heartbeat_frame m p).1 <> Panic /\ mesh_ok (build_heartbeat_frame m p).2.
Proof.
  intros [Hu Hs]. unfold build_heartbeat_frame, build_typed_frame. destruct (sessions (hs m) !! p) as [s|] eqn:E; [|done].
  destruct (if decide _ then _ else _) as [k|]; [|done]. destruct (Hs p s E) as [Hp Hc]. cbn [Handshake.next_seq fst snd]. split.
  - match goal with |- map_err _ (Frame.build_frame ?h ?a ?b ?c ?d) <> _ => destruct (Frame.build_frame_spec h a b c d) as (ct & tag & _ & _ & _ & ->) end; [|cbn; unfold aead_max; lia|done].
    split; cbn; try done; try (unfold is_uint; lia). by apply (Forall_replicate _ 16).
  - split; [done|]. intros q s'. cbn. rewrite lookup_insert_Some. intros [[<- <-]|[_ ?]]; [|by apply Hs]. split; [done|]. cbn. apply wrap_uint. lia.
Qed.

Lemma beat_frame_total e m p : mesh_ok m -> exists m', beat_frame e m p = Ok m' /\ mesh_ok m'.
Proof.
  intros Hm. unfold beat_frame. destruct (build_heartbeat_ok m p Hm) as [Hp Hok].
  destruct (build_heartbeat_frame m p) as [[frame|x|] m1]; cbn [fst snd] in *; [|by exists m1|done].
  destruct (first_hop_keeps e m1 p) as [F1 F2]. destruct (path_first_hop e m1 p) as [hop m2]. cbn [snd] in F1, F2.
  destruct (send_to_node_hop_keeps e m2 p hop frame) as [S1 S2]. eexists. split; [done|]. unfold mesh_ok. by rewrite S1, S2, F1, F2.
Qed.

Lemma beat_peer_total e n p : mesh_ok (mesh n) -> exists n', beat_peer e n p = Ok n' /\ mesh_ok (mesh n').
Proof.
  intros Hm. unfold beat_peer. cbv zeta. cbn [mesh set_heartbeats set_live].
  destruct (beat_frame_total (menv e) (miss_endpoint (menv e) (path_miss_peer (mesh n) p) p) p) as (m & Hf & Hok).
  { destruct (beat_start (menv e) (mesh n) p) as [H1 H2]. unfold mesh_ok. by rewrite H1, H2. }
  rewrite Hf. step. eexists. split; [done|]. destruct (decide _); [|done]. destruct Hok as [Hu Hs]. split; [done|].
  intros q s Hq. cbn in Hq. apply lookup_delete_Some in Hq as [_ Hq]. by apply Hs.
Qed.

(** A round of heartbeats: every peer with a session once. *)
Record round (e : Env) (n : Node) : Prop := {
  rd_due : data_heartbeat_interval (conf n) <= sat_sub (now (menv e)) (last_data_heartbeat (timers n));
  rd_nodup : NoDup (session_walk e);
  rd_walk : forall q, q ∈ session_walk e <-> is_Some (sessions (hs (mesh n)) !! q)
}.

Lemma beat_peers_spec e p l : forall n n', NoDup l -> beat_peers e n l = Ok n' -> conf n' = conf n /\
  (if decide (p ∈ l)
   then if decide (data_heartbeat_misses (conf n) <= count n p + 1)
        then sessions (hs (mesh n')) !! p = None /\ peer_heartbeats (live n') !! p = None
        else (is_Some (sessions (hs (mesh n')) !! p) <-> is_Some (sessions (hs (mesh n)) !! p)) /\ peer_heartbeats (live n') !! p = Some (count n p + 1)
   else peer_heartbeats (live n') !! p = peer_heartbeats (live n) !! p /\
        (is_Some (sessions (hs (mesh n')) !! p) <-> is_Some (sessions (hs (mesh n)) !! p))).
Proof.
  induction l as [|q l IH]; intros n n' Hn; cbn [beat_peers]; [intros [= <-]; done|].
  apply list.NoDup_cons in Hn as [Hq Hn]. intros (n1 & H1 & H)%bind_Ok_inv.
  apply beat_peer_spec in H1 as (C1 & _ & _ & O1 & P1). apply IH in H as [C2 H2]; [|done]. rewrite C1 in C2, H2. split; [done|].
  destruct (decide (p = q)) as [->|Hne].
  - rewrite decide_False in H2 by done. rewrite decide_True by left. destruct H2 as [Hh Hs], (decide (_ <= _)), P1 as [P1 P2].
    + rewrite Hh. split; [|done]. apply eq_None_not_Some. rewrite Hs, P1. by intros [].
    + rewrite Hh, Hs. by split.
  - clear P1. destruct (O1 p Hne) as [Hh Hs]. unfold count in *. rewrite Hh in H2.
    destruct (decide (p ∈ l)); [rewrite decide_True by (by right)|rewrite decide_False by (rewrite elem_of_cons; tauto)].
    + destruct (decide (_ <= _)); [done|]. by rewrite <- Hs.
    + by rewrite <- Hs.
Qed.

Lemma beat_peers_total e l : forall n, mesh_ok (mesh n) -> exists n', beat_peers e n l = Ok n' /\ mesh_ok (mesh n').
Proof.
  induction l as [|q l IH]; intros n Hn; cbn [beat_peers]; [by exists n|].
  destruct (beat_peer_total e n q Hn) as (n1 & -> & H1). step. by apply IH.
Qed.

(** Time goes by without a frame of [p]: rounds of heartbeats, [k] of them, and
    anything in between that leaves its counter and its session alone. *)
Inductive silent (p : Z) : nat -> Node -> Node -> Prop :=
| SilentNow n : silent p 0 n n
| SilentOther k n n1 n2 : silent p k n n1 -> conf n2 = conf n1 -> mesh_ok (mesh n2) ->
    peer_heartbeats (live n2) !! p = peer_heartbeats (live n1) !! p ->
    (is_Some (sessions (hs (mesh n2)) !! p) <-> is_Some (sessions (hs (mesh n1)) !! p)) -> silent p k n n2
| SilentRound k n n1 n2 e : silent p k n n1 -> round e n1 -> data_heartbeat e n1 = Ok n2 -> silent p (S k) n n2.

Lemma data_heartbeat_round e n : round e n -> data_heartbeat e n = beat_peers e (set_last_data n (now (menv e))) (session_walk e).
Proof. intros [Hd _ _]. unfold data_heartbeat. by rewrite decide_False by lia. Qed.

(** C23: silence ends a session.  From the moment a peer was last heard, its session
    stays through every round of heartbeats but the last the limit allows, and is
    gone after that one; and every round returns. *)
Theorem silent_session_dropped (p : Z) (k : nat) (n n' : Node)
    (Hs : is_Some (sessions (hs (mesh n)) !! p)) (Hh : peer_heartbeats (live n) !! p = Some 0) (Hok : mesh_ok (mesh n))
    (Hm : 1 <= data_heartbeat_misses (conf n)) (Hrun : silent p k n n') :
  (is_Some (sessions (hs (mesh n')) !! p) <-> Z.of_nat k < data_heartbeat_misses (conf n)) /\
  (forall e, round e n' -> exists n2, data_heartbeat e n' = Ok n2).
Proof.
  enough (conf n' = conf n /\ mesh_ok (mesh n') /\
    if decide (Z.of_nat k < data_heartbeat_misses (conf n))
    then is_Some (sessions (hs (mesh n')) !! p) /\ peer_heartbeats (live n') !! p = Some (Z.of_nat k)
    else sessions (hs (mesh n')) !! p = None) as (_ & Hmo & H).
  { split; [destruct (decide _); [tauto|rewrite H; split; [by intros []|lia]]|].
    intros e Hr. rewrite (data_heartbeat_round e n' Hr). destruct (beat_peers_total e (session_walk e) (set_last_data n' (now (menv e))) Hmo) as (n2 & -> & _). by exists n2. }
  induction Hrun as [n|k n n1 n2 _ IH Hc Hok' Hh2 Hs2|k n n1 n2 e _ IH Hr Hd].
  - split; [done|]. split; [done|]. by rewrite decide_True by lia.
  - destruct (IH Hs Hh Hok Hm) as (Hc1 & _ & H). split; [congruence|]. split; [done|].
    destruct (decide _); [by rewrite Hh2, Hs2|]. apply eq_None_not_Some. rewrite Hs2, H. by intros [].
  - destruct (IH Hs Hh Hok Hm) as (Hc1 & Hmo & H). rewrite (data_heartbeat_round e n1 Hr) in Hd.
    destruct (beat_peers_total e (session_walk e) (set_last_data n1 (now (menv e))) Hmo) as (n2' & Hd' & Hmo'). rewrite Hd in Hd'. injection Hd' as <-.
    apply (beat_peers_spec e p) in Hd as [Hc2 Hp]; [|apply Hr]. cbn in Hc2. split; [congruence|]. split; [done|].
    cbn in Hp. rewrite Hc1 in Hp. unfold count in Hp. cbn in Hp.
    destruct (decide (Z.of_nat k < _)) as [Hk|Hk].
    + destruct H as [Hse Hhe]. rewrite decide_True in Hp by by apply (rd_walk e n1 Hr). rewrite Hhe in Hp. cbn in Hp.
      destruct (decide (_ <= _)); [rewrite decide_False by lia; by destruct Hp|]. rewrite decide_True by lia.
      destruct Hp as [Hp1 Hp2]. split; [by apply Hp1|]. rewrite Hp2. f_equal. lia.
    + rewrite decide_False in Hp; [|rewrite (rd_walk e n1 Hr), H; by intros []]. rewrite decide_False by lia.
      apply eq_None_not_Some. destruct Hp as [_ Hp]. rewrite Hp, H. by intros [].
Qed.

End Silent.

End Map.

(** ** Concrete maps and rounds *)

Section Samples.
Import NodeLan Toy Handshake.ToyNoise.
#[local] Existing Instance sample_verifier.

(** Node 1, which knows nodes 2 and 3 and has a session with 3; the map has lost 3. *)
Definition sample_member : Node :=
  set_view sample_a (mk_view {[ 1; 2; 3 ]} ∅ [] no_acl ∅ None [] ∅).
Definition sample_map : NetmapData :=
  mk_netmap 8 [Messages.mk_node 1 7 (replicate 32 4) [] 0 [] 1 false [] (0, 0) false;
               Messages.mk_node 2 7 (replicate 32 8) ["10.0.0.2:7000"] 0 ["10.2.0.0/16"] 1 false [] (3, 4) true] [] None [].

Lemma netmap_applied_witness : let n' := (handle_control_event sample_turn sample_member (Netmap sample_map)).2 in
  holds_map (Some 1) sample_map n' /\ sessions (hs (mesh n')) !! 3 = None.
Proof.
  assert (Hok : peers_ok sample_member).
  { assert (H1 : map_Forall (fun p _ => p ∈ netmap_peers (view sample_member)) (peer_statics (cfg (mesh sample_member)))) by (apply (bool_decide_unpack _); vm_compute; exact I).
    assert (H2 : map_Forall (fun p _ => p ∈ netmap_peers (view sample_member)) (peer_capabilities (cfg (mesh sample_member)))) by (apply (bool_decide_unpack _); vm_compute; exact I).
    split; intros p [x Hx]; [exact (H1 p x Hx)|exact (H2 p x Hx)]. }
  destruct (netmap_applied sample_turn sample_member sample_map) as (H1 & _ & _ & _ & _ & _ & _ & H2); [|exact Hok|].
  { apply (bool_decide_unpack _). vm_compute. exact I. }
  split; [exact H1|]. rewrite H2. rewrite decide_True; [reflexivity|]. split; [apply (bool_decide_unpack _); vm_compute; exact I|].
  rewrite (hm_peers _ _ _ H1). apply (bool_decide_unpack _). vm_compute. exact I.
Defined.

(** A session dropped after one silent round, five seconds after the last. *)
Definition sample_strict : Node :=
  mk_node (mk_conf "https://coord" (replicate 32 1) (replicate 32 2) "" 0 [] [] SECOND (5 * SECOND) 1 (86400 * SECOND) (Some 1500) [] None false None)
    (mesh sample_a) (engine sample_a) (default_route sample_a) (ctl sample_a) (view sample_a) (timers sample_a)
    (mk_live {[ 3 := 0 ]} ∅ ∅ ∅ ∅ []) (audits sample_a) (legs sample_a).
Definition sample_beat : Env :=
  mk_nenv (Mesh.mk_env 1000 (5 * SECOND) [] 77 (fun _ _ => SendOk) (fun _ => None) true true 5 0 [1; 2; 3])
    (fun _ => true) (fun _ => true) (fun _ => true) None (fun _ _ => None) (fun _ => true) (fun i => Z.of_nat i) [3].

Lemma silent_session_dropped_witness : exists n', data_heartbeat sample_beat sample_strict = Ok n' /\ sessions (hs (mesh n')) !! 3 = None.
Proof.
  assert (Hs : sessions (hs (mesh sample_strict)) = {[ 3 := Handshake.session_new 3 Handshake.sample_keys ]}) by reflexivity.
  assert (Hr : round sample_beat sample_strict).
  { split; [vm_compute; discriminate|apply NoDup_singleton|]. intros q. rewrite Hs. cbn [session_walk sample_beat].
    rewrite list_elem_of_singleton, lookup_singleton_is_Some. split; congruence. }
  assert (Hok : mesh_ok (mesh sample_strict)).
  { split; [vm_compute; split; congruence|]. rewrite Hs. intros q s [<- <-]%lookup_singleton_Some. split; vm_compute; split; congruence. }
  assert (H3 : is_Some (sessions (hs (mesh sample_strict)) !! 3)) by (rewrite Hs; eexists; reflexivity).
  assert (Hh : peer_heartbeats (live sample_strict) !! 3 = Some 0) by reflexivity.
  assert (Hm : 1 <= data_heartbeat_misses (conf sample_strict)) by (vm_compute; discriminate).
  destruct (silent_session_dropped 3 0 sample_strict sample_strict H3 Hh Hok Hm (SilentNow 3 sample_strict)) as [_ Ht].
  destruct (Ht sample_beat Hr) as [n' Hn']. exists n'. split; [exact Hn'|].
  destruct (silent_session_dropped 3 1 sample_strict n' H3 Hh Hok Hm (SilentRound 3 0 _ _ _ _ (SilentNow 3 sample_strict) Hr Hn')) as [[H _] _].
  apply eq_None_not_Some. intros K%H. revert K. vm_compute. discriminate.
Defined.

End Samples.

End NodeMap.
