(* ===== verification/NodeInv.v ===== *)
(** * The invariant of a node over its loop

    Every turn of [Node.run_step] keeps the state of a node in order: the static keys and
    capabilities it holds are of nodes of its map only, its list of wanted paths stays small and free of
    repetitions, its counters of silence stay below the limit, its backoff is one of
    the schedule, and the loop reads from the control channel only while there is
    one. *)

From stdpp Require Import relations.
From S2P Require Import Prelude Replay Crypto Frame Handshake Probe Net Mesh Dispatch MeshRun Route Control Registry Messages Packet RouteMap BgpSession RouteReport Json Tailnet Node NodeLan NodeMap.

Module NodeInv.
Import Crypto Net Route Mesh Dispatch Messages Node NodeLan NodeMap.

Section Inv.
Context `{P : Primitives} `{N : Handshake.NoiseProtocol} `{V : VerifyingKeys}.

(** ** The data plane leaves the configuration of the mesh alone *)

Lemma cfg_initiate e m peer : cfg (initiate_handshake e m peer).2 = cfg m.
Proof. unfold initiate_handshake. cases. Qed.

Lemma cfg_send_to_node e m to frame : cfg (send_to_node e m to frame).2 = cfg m.
Proof. unfold send_to_node, send_first. repeat (case_match; simplify_eq; try done). Qed.

Lemma cfg_flood e m payload : cfg (flood e m payload).2 = cfg m.
Proof.
  unfold flood. destruct (flood_token e); [|done].
  assert (Hb : cfg (build_broadcast_frame m payload).2 = cfg m) by (unfold build_broadcast_frame; by case_match).
  destruct (build_broadcast_frame m payload) as [[frame|x|] m1]; cbn [snd] in Hb; [|done..]. rewrite <- Hb.
  generalize (flood_targets e m1 (self_node_id (cfg m1))), 0. clear. intros l. revert m1.
  induction l as [|p l IH]; intros m k; [done|]. cbn [foldl]. pose proof (cfg_send_to_node e m p frame) as H.
  destruct (send_to_node e m p frame) as [[] m']; cbn [snd] in H; by rewrite IH.
Qed.

Lemma cfg_relay e m frame : cfg (relay e m frame).2 = cfg m.
Proof.
  assert (Hf : forall ids m f, cfg (flood_send e m f ids).2 = cfg m).
  { induction ids as [|id ids IH]; intros m0 f; cbn; [done|]. destruct (_ ≫= _) as [a|]; [|apply IH].
    specialize (IH (emit m0 a f) f). by destruct (flood_send e (emit m0 a f) f ids). }
  unfold relay. destruct (decide _); [done|]. destruct (Frame.decode frame) as [h| |]; [|done..].
  cbv zeta. destruct (decide _); [done|]. destruct (decide _); [|cases].
  unfold relay_broadcast. cases. cbn [snd].
  match goal with H : flood_send ?e ?m ?f ?l = _ |- _ => pose proof (Hf l m f) as H'; rewrite H in H' end. done.
Qed.

Lemma cfg_handshake e m from payload : cfg (handle_handshake e m from payload).2 = cfg m.
Proof.
  unfold handle_handshake. destruct (decide _); [|destruct (decide _); [|destruct (decide _); [|done]]].
  - unfold handle_msg1. destruct (resolve_collision m from) as [m0|] eqn:Er; [|done].
    assert (H0 : cfg m0 = cfg m) by (revert Er; unfold resolve_collision; cases; by intros [= <-]).
    rewrite <- H0. cases; cbn [snd];
      match goal with H : send_response ?e ?m ?t ?p = _ |- _ => destruct (send_response_keeps e m t p) as [_ H']; by rewrite H in H' end.
  - unfold handle_msg2. cases; cbn [snd];
    match goal with H : path_first_hop ?e ?m ?t = _, H2 : send_to_node_hop ?e ?m' ?t' ?h ?f = _ |- _ =>
      destruct (first_hop_keeps e m t) as [_ H']; rewrite H in H'; destruct (send_to_node_hop_keeps e m' t' h f) as [_ H''];
      rewrite H2 in H''; exact (eq_trans H'' H') end.
  - unfold handle_msg3. cases.
Qed.

Lemma cfg_session_frame e m from frame hb : cfg (handle_session_frame e m from frame hb).2 = cfg m.
Proof. unfold handle_session_frame, note_path_frame. cases. Qed.

Lemma cfg_note_drop e m from : cfg (note_drop e m from) = cfg m.
Proof. unfold note_drop, drop_at_peer, drop_global. cases. Qed.

Lemma cfg_path_probe e m addr h payload : cfg (handle_path_probe e m addr h payload).2 = cfg m.
Proof.
  unfold handle_path_probe, send_along_path, send_first. cbv zeta. destruct (Frame.probe_decode payload) as [p|]; [|apply cfg_note_drop].
  destruct (Frame.response p).
  - destruct (path_probe_pending (tel m) !! _) as [[[]]|]; [|apply cfg_note_drop]. by destruct (path_stats _ !! _).
  - repeat (case_match; simplify_eq; try done).
Qed.

Lemma cfg_ingress m from : cfg (apply_ingress_health m from) = cfg m.
Proof.
  unfold apply_ingress_health. destruct (_ !! from); [|done]. destruct (_ !! from) as [ps|]; [|done].
  revert m. induction ps as [|p ps IH]; intros m; cbn [foldl]; [done|]. rewrite IH. by destruct (decide _).
Qed.

Lemma cfg_demote e m from : cfg (demote_direct_endpoints e m from) = cfg m.
Proof.
  unfold demote_direct_endpoints. generalize (List.filter (fun a => bool_decide (endpoint_owner_preferring e m a from = Some from)) (default [] (endpoint_table (cfg m) !! from))).
  intros l. revert m. induction l as [|a l IH]; intros m; cbn; [done|]. by rewrite IH.
Qed.

Lemma cfg_deliver e m src addr frame : cfg (deliver e m src addr frame).2 = cfg m.
Proof.
  unfold deliver. set (m1 := apply_ingress_health m src). assert (H1 : cfg m1 = cfg m) by apply cfg_ingress. rewrite <- H1. clearbody m1.
  assert (H : cfg (dispatch_delivered e m1 src addr frame).2 = cfg m1).
  { unfold dispatch_delivered. destruct (Frame.decode frame) as [h| |]; [|done..]. repeat case_decide; try done.
    - destruct (Frame.frame_payload frame); [apply cfg_handshake|done].
    - apply cfg_session_frame.
    - apply cfg_session_frame.
    - unfold handle_broadcast_frame. cases.
    - destruct (Frame.frame_payload frame); [apply cfg_path_probe|done]. }
  destruct (dispatch_delivered e m1 src addr frame) as [ev m2]. cbn [snd] in *. destruct ev; rewrite ?cfg_note_drop; done.
Qed.

Lemma cfg_endpoint_ok m owner addr : cfg (note_endpoint_ok m owner addr) = cfg m.
Proof. unfold note_endpoint_ok. by case_match. Qed.

Lemma cfg_incoming e m addr frame : cfg (handle_incoming e m addr frame).2 = cfg m.
Proof.
  unfold handle_incoming. destruct (match head frame with Some _ => _ | None => _ end).
  - unfold handle_frame. pose proof (cfg_relay e m frame) as Hr. destruct (relay e m frame) as [[[to|src|src l|r] f] m1]; cbn [snd] in Hr; [done| | |].
    + rewrite cfg_deliver. destruct (endpoint_owner_preferring _ _ _ _) as [i|]; [|done].
      destruct (decide _); [rewrite cfg_demote|]; by rewrite cfg_endpoint_ok.
    + rewrite cfg_deliver. destruct (endpoint_owner _ _ _) as [i|]; [by rewrite cfg_endpoint_ok|done].
    + cbn [snd]. by rewrite cfg_note_drop.
  - destruct (_ && _); [|apply cfg_note_drop]. unfold handle_probe. destruct (Probe.decode frame) as [pr|]; [|apply cfg_note_drop].
    destruct (decide (Probe.packet_type pr = Probe.PING)); [cases|]. destruct (decide (Probe.packet_type pr = Probe.PONG)); [|apply cfg_note_drop].
    destruct (probe_pending (tel m) !! _) as [[[]]|]; [done|apply cfg_note_drop].
Qed.

(** ** What most turns keep *)

(** The counters of silence are below the limit. *)
Definition beats_ok (n : Node) : Prop :=
  1 <= data_heartbeat_misses (conf n) /\ forall p c, peer_heartbeats (live n) !! p = Some c -> 0 <= c < data_heartbeat_misses (conf n).

Record keeps (n n' : Node) : Prop := {
  k_conf : conf n' = conf n;
  k_statics : forall p, is_Some (peer_statics (cfg (mesh n')) !! p) -> is_Some (peer_statics (cfg (mesh n)) !! p);
  k_caps : forall p, is_Some (peer_capabilities (cfg (mesh n')) !! p) -> is_Some (peer_capabilities (cfg (mesh n)) !! p);
  k_peers : netmap_peers (view n') = netmap_peers (view n);
  k_pending : pending_path_requests (view n') = pending_path_requests (view n);
  k_requested : path_requested (view n') = path_requested (view n);
  k_reconnect : reconnect (ctl n') = reconnect (ctl n);
  k_control : control (ctl n') = control (ctl n) \/ control (ctl n') = None;
  k_beats : beats_ok n -> beats_ok n'
}.

#[local] Instance keeps_refl : Reflexive keeps.
Proof. intros n. split; auto. Qed.

#[local] Instance keeps_trans : Transitive keeps.
Proof.
  intros a b c [? H1 H2 ? ? ? ? Hc ?] [? H1' H2' ? ? ? ? Hc' ?]. split; try congruence; auto.
  destruct Hc' as [Hc'|Hc']; [|by right]. destruct Hc; [left|right]; congruence.
Qed.

(** A change of the mesh that leaves its configuration alone, and of nothing else. *)
Lemma keeps_mesh n m : cfg m = cfg (mesh n) -> keeps n (set_mesh n m).
Proof. intros H. split; cbn; rewrite ?H; auto. Qed.

Lemma keeps_legs n l : keeps n (set_legs n l).
Proof. split; auto. Qed.

Lemma keeps_engine n g : keeps n (set_engine n g).
Proof. split; auto. Qed.

Lemma keeps_default n d : keeps n (set_default_route n d).
Proof. split; auto. Qed.

Lemma keeps_timers n x : keeps n (set_timers n x).
Proof. split; auto. Qed.

Lemma keeps_audits n x : keeps n (set_audits n x).
Proof. split; auto. Qed.

(** A change of what the node observes, the counters of silence apart. *)
Lemma keeps_live n x : peer_heartbeats x = peer_heartbeats (live n) -> keeps n (set_live n x).
Proof. intros H. split; auto. intros [H1 H2]. split; [done|]. cbn. by rewrite H. Qed.

Lemma keeps_drop_control n : keeps n (set_control n None).
Proof. split; auto. Qed.

Lemma keeps_log n m : keeps n (log_sent n m).
Proof. split; auto. Qed.

Lemma keeps_send e n m : keeps n (send_envelope e n m).2.
Proof. unfold send_envelope. destruct (control_send e m); [apply keeps_log|done]. Qed.

Lemma keeps_heard n p : keeps n (heard n p).
Proof.
  split; auto. intros [H1 H2]. split; [done|]. intros q c. cbn. rewrite lookup_insert_Some. intros [[_ <-]|[_ ?]]; [lia|by eapply H2].
Qed.

Lemma keeps_queue e n id claim : keeps n (queue_binding_audit e n id claim).
Proof. unfold queue_binding_audit. cbv zeta. repeat (case_match; try done). all: apply keeps_audits. Qed.

Lemma keeps_report e n : keeps n (report_endpoints e n).
Proof. unfold report_endpoints. repeat (case_match; try done). all: apply keeps_send. Qed.

Lemma keeps_on_audit n o : keeps n (on_audit n o).
Proof.
  unfold on_audit. repeat case_decide; try done; try apply keeps_audits.
  etrans; [|apply keeps_audits]. split; auto. intros p. cbn. intros [x [_ Hx]%lookup_delete_Some]. by exists x.
Qed.

Lemma keeps_foldl {A} (f : Node -> A -> Node) l : (forall n x, keeps n (f n x)) -> forall n, keeps n (foldl f n l).
Proof. intros H. induction l as [|x l IH]; intros n; [done|]. cbn. etrans; [apply H|apply IH]. Qed.

Lemma keeps_write_lan e n payload n' : write_lan e n payload = Ok n' -> keeps n n'.
Proof.
  unfold write_lan. destruct (tun_mtu (conf n)); [|by intros [= <-]]. intros (w & _ & H)%bind_Ok_inv.
  assert (K : keeps n (emit_lan n w)) by apply keeps_legs.
  destruct (Packet.parse_packet w) as [i|x|]; [destruct (is_multicast _)| |done]; injection H as <-; try done.
  etrans; [exact K|]. etrans; [|by apply keeps_live]. by apply (keeps_live (emit_lan n w)).
Qed.

Lemma keeps_transit e n pkt from b n' : forward_transit e n pkt from = Ok (b, n') -> keeps n n'.
Proof.
  unfold forward_transit. intros H. destruct (Packet.parse_packet pkt) as [i|x|]; [|by injection H as _ <-|done].
  destruct (is_multicast _); [by injection H as _ <-|]. destruct (lookup_best _ _ _) as [x|]; [|by injection H as _ <-].
  assert (K1 : forall name, keeps n (send_dn42 e n name pkt).2) by (intros name; unfold send_dn42; repeat (case_match; try done); apply keeps_legs).
  assert (K2 : forall id, keeps n (send_tailnet e n id pkt).2) by (intros id; unfold send_tailnet; repeat (case_match; try done); apply keeps_legs).
  assert (K3 : forall peer, transit_mesh e n peer i pkt = Ok (b, n') -> keeps n n').
  { intros peer. unfold transit_mesh. destruct (negb _); [by intros [= _ <-]|].
    pose proof (build_data_cfg (menv e) (mesh n) peer pkt (flow_hash i)) as Hc. destruct (build_data_frame _ _ _ _ _) as [[[f h]|y|] m]; cbn [snd] in Hc; [| |done].
    - destruct (send_to_node_hop_keeps (menv e) m peer h f) as [_ Hs]. destruct (send_to_node_hop _ m peer h f) as [[] m2]; cbn [snd] in Hs;
        intros [= _ <-]; apply keeps_mesh; congruence.
    - intros [= _ <-]. by apply keeps_mesh. }
  unfold transit_edge in H. destruct (via x) as [peer|name|id|dev], from; try (by injection H as _ <-); try (by apply (K3 peer)).
  all: try (specialize (K1 name); destruct (send_dn42 e n name pkt); apply Ok_inj in H; by simplify_eq).
  all: specialize (K2 id); destruct (send_tailnet e n id pkt); apply Ok_inj in H; by simplify_eq.
Qed.

Lemma keeps_deliver e from n pkt n' : deliver_from e from n pkt = Ok n' -> keeps n n'.
Proof.
  unfold deliver_from. intros ([b n1] & H1%keeps_transit & H)%bind_Ok_inv. etrans; [exact H1|].
  destruct b; [by injection H as <-|by eapply keeps_write_lan].
Qed.

Lemma keeps_deliver_all e from pkts : forall n n', deliver_all e from n pkts = Ok n' -> keeps n n'.
Proof.
  induction pkts as [|p pkts IH]; intros n n'; cbn; [by intros [= <-]|]. intros (n1 & H1%keeps_deliver & H)%bind_Ok_inv. etrans; [exact H1|by apply IH].
Qed.

(** ** The data plane *)

Lemma keeps_lan_data e n peer i pkt o n' : lan_data e n peer i pkt = Ok (o, n') -> keeps n n'.
Proof.
  unfold lan_data. pose proof (build_data_cfg (menv e) (mesh n) peer pkt (flow_hash i)) as Hc.
  destruct (build_data_frame _ _ _ _ _) as [[[f h]|y|] m]; cbn [snd] in Hc; [|intros [= _ <-]; by apply keeps_mesh|done].
  destruct (send_to_node_hop_keeps (menv e) m peer h f) as [_ Hs]. destruct (send_to_node_hop _ m peer h f) as [[| |[]] m2]; cbn [snd] in Hs;
    try (intros [= _ <-]; apply keeps_mesh; congruence).
  cbn. assert (K : keeps n (set_mesh n (set_ptb m2 None))) by (apply keeps_mesh; cbn; congruence).
  destruct (Packet.build_ptb _ _) as [ptb|]; [|by intros [= _ <-]]. intros (n1 & H1%keeps_write_lan & [= _ <-])%bind_Ok_inv. by etrans.
Qed.

Lemma keeps_lan_handshake e n peer o n' : lan_handshake e n peer = Ok (o, n') -> keeps n n'.
Proof.
  unfold lan_handshake. cbv zeta. match goal with |- context [initiate_handshake _ (mesh ?x)] => set (n0 := x) end.
  assert (K0 : keeps n n0).
  { unfold n0. destruct (_ !! peer); [|done]. destruct (decide _); [|done]. apply keeps_mesh. cbn.
    destruct (beat_start (menv e) (mesh n) peer) as [H _]. exact H. }
  intros H. etrans; [exact K0|]. clearbody n0. clear K0. pose proof (cfg_initiate (menv e) (mesh n0) peer) as Hc.
  destruct (initiate_handshake _ _ _) as [[[msg|]|x|] m]; cbn [snd] in Hc; [|by injection H as _ <-; apply keeps_mesh..|done].
  destruct (first_hop_keeps (menv e) m peer) as [_ Hf]. destruct (path_first_hop _ m peer) as [hop m1]. cbn [snd] in Hf.
  destruct (send_to_node_hop_keeps (menv e) m1 peer hop msg) as [_ Hs]. destruct (send_to_node_hop _ m1 peer hop msg) as [r m2]. cbn [snd] in Hs.
  destruct r; injection H as _ <-; [|apply keeps_mesh; cbn; congruence..].
  etrans; [|by apply (keeps_live (set_mesh n0 m2))]. apply keeps_mesh. congruence.
Qed.

Lemma keeps_lan e n pkt o n' : pump_lan_packet e n pkt = Ok (o, n') -> keeps n n'.
Proof.
  unfold pump_lan_packet. intros (w & _ & H)%bind_Ok_inv. destruct (Packet.parse_packet w) as [i|x|]; [|by injection H as _ <-|done].
  destruct (is_multicast _).
  - assert (K : keeps n (retain_recent n (now (menv e)))) by (by apply keeps_live).
    destruct (decide _); [by injection H as _ <-|]. pose proof (cfg_flood (menv e) (mesh (retain_recent n (now (menv e)))) w) as Hf.
    destruct (flood _ _ w) as [k m]. injection H as _ <-. etrans; [exact K|by apply keeps_mesh].
  - destruct (lan_via n i) as [v|]; [|by injection H as _ <-]. unfold lan_dispatch in H. destruct v as [peer|name|id|dev].
    + destruct (has_session n peer); [by eapply keeps_lan_data|by eapply keeps_lan_handshake].
    + unfold send_dn42 in H. repeat (case_match; simplify_eq; try done). all: apply keeps_legs.
    + unfold send_tailnet in H. repeat (case_match; simplify_eq; try done). all: apply keeps_legs.
    + by injection H as _ <-.
Qed.

Lemma keeps_relay_endpoints n : keeps n (apply_relay_endpoints n).
Proof.
  destruct (relay_endpoints_keeps n) as (_ & _ & Hv & _ & Hc & _ & Hs & Hp). split; rewrite ?Hv, ?Hc, ?Hs, ?Hp; auto.
Qed.

Lemma cfg_probe_ok e m a : cfg (note_probe_ok e m a) = cfg m.
Proof. unfold note_probe_ok. destruct (endpoint_owner e m a); [apply cfg_endpoint_ok|done]. Qed.

Lemma keeps_pong e n endpoint payload : keeps n (handle_probe_pong e n endpoint payload).
Proof.
  unfold handle_probe_pong. cbv zeta. set (n1 := set_backoff n (delete endpoint (probe_backoff (live n)))).
  assert (K : keeps n n1) by (by apply keeps_live). etrans; [exact K|]. clearbody n1. destruct (decide _).
  - destruct (_ ≫= _) as [a|]; [|done]. destruct (decide _); [done|]. etrans; [|apply keeps_report]. by apply keeps_live.
  - etrans; [apply (keeps_mesh n1), cfg_probe_ok|]. destruct (confirm _ _) as [[[] rs]|]; try done.
    etrans; [|apply keeps_relay_endpoints]. split; auto.
Qed.

Lemma keeps_mesh_event e n ev o n' : handle_mesh_event e n ev = Ok (o, n') -> keeps n n'.
Proof.
  unfold handle_mesh_event. intros H. destruct ev; try (by injection H as _ <-); try done.
  - unfold acl_deliver in H. destruct (Acl.allows_packet _ _ _); injection H as _ <-; [apply keeps_heard|].
    etrans; [apply (keeps_heard n from)|]. apply (keeps_mesh (heard n from)), (cfg_note_drop (menv e) (mesh n) (Some from)).
  - injection H as _ <-. apply keeps_heard.
  - injection H as _ <-. etrans; [apply keeps_heard|]. destruct (_ !! peer); [apply keeps_queue|done].
  - injection H as _ <-. unfold note_rejected. destruct (decide _); [by apply keeps_live|done].
  - injection H as _ <-. apply keeps_heard.
  - injection H as _ <-. apply keeps_pong.
Qed.

Lemma keeps_datagram e n addr frame n' : on_datagram e n addr frame = Ok n' -> keeps n n'.
Proof.
  unfold on_datagram. pose proof (cfg_incoming (menv e) (mesh n) addr frame) as Hc. destruct (handle_incoming _ _ addr frame) as [ev m]. cbn [snd] in Hc.
  intros ([o n1] & H1%keeps_mesh_event & H)%bind_Ok_inv. etrans; [by apply (keeps_mesh n m)|]. etrans; [exact H1|].
  destruct o; [by eapply keeps_deliver|by injection H as <-].
Qed.

(** ** The timers *)

Lemma keeps_dn42 e n inputs n' : pump_dn42 e n inputs = Ok n' -> keeps n n'.
Proof.
  unfold pump_dn42. intros ([[ls inbound] [g r]] & _ & H%keeps_deliver_all)%bind_Ok_inv.
  etrans; [|exact H]. etrans; [apply (keeps_engine n g)|]. etrans; [|apply keeps_legs]. apply keeps_legs.
Qed.

Lemma keeps_ts2021 e n frames inbound n' : pump_ts2021 e n frames inbound = Ok n' -> keeps n n'.
Proof.
  unfold pump_ts2021. destruct (ts2021 (legs n)); [|by intros [= <-]]. intros H%keeps_deliver_all. etrans; [|exact H].
  apply keeps_foldl. clear. intros n x. unfold ts_frame. destruct (ts2021 (legs n)) as [l|]; [|done].
  destruct (Tailnet.on_ts_netmap _ _ _ _ l) as [[g d] l']. etrans; [apply (keeps_engine n g)|]. etrans; [|apply keeps_legs]. apply keeps_default.
Qed.

Lemma keeps_watchdog e n : keeps n (lease_watchdog e n).
Proof.
  unfold lease_watchdog. destruct (control (ctl n)); [|done]. destruct (lease_expires_at (ctl n)); [|done]. destruct (decide _); [|done].
  split; auto.
Qed.

Lemma keeps_path_requests e l : forall n, keeps n (send_path_requests e n l).
Proof.
  induction l as [|d l IH]; intros n; [done|]. cbn. pose proof (keeps_send e n (path_request d)) as K.
  destruct (send_envelope e n (path_request d)) as [[] n1]; cbn [snd] in K; (etrans; [exact K|]); [apply IH|apply keeps_drop_control].
Qed.

Lemma cfg_telemetry m : cfg (take_telemetry m).2 = cfg m.
Proof. unfold take_telemetry, take_path_stats. done. Qed.

Lemma keeps_control_heartbeat e n : keeps n (control_heartbeat e n).
Proof.
  unfold control_heartbeat. cbv zeta. destruct (decide _); [done|]. set (n1 := set_last_control n (now (menv e))).
  assert (K1 : keeps n n1) by apply keeps_timers. etrans; [exact K1|]. clearbody n1.
  match goal with |- context [send_path_requests e ?x _] => set (n2 := x) end.
  assert (K2 : keeps n1 n2).
  { unfold n2. destruct (control (ctl n1)) as [cl|]; [|done]. pose proof (cfg_telemetry (mesh n1)) as Hc. destruct (take_telemetry (mesh n1)) as [tele m]. cbn [snd] in Hc.
    pose proof (keeps_send e (set_mesh n1 m) (heartbeat (Some tele))) as K. etrans; [by apply (keeps_mesh n1 m)|].
    destruct (send_envelope _ _ _) as [[] n3]; cbn [snd] in K; [done|]. etrans; [exact K|apply keeps_drop_control]. }
  etrans; [exact K2|]. destruct (control (ctl n2)); [apply keeps_path_requests|done].
Qed.

Lemma keeps_beat e n p n' : beat_peer e n p = Ok n' -> keeps n n'.
Proof.
  intros H. pose proof (beat_peer_spec e n p n' H) as (Hc & _ & Hm & Ho & Hp).
  unfold beat_peer in H. cbv zeta in H. apply bind_Ok_inv in H as (m & _ & H%Ok_inj).
  assert (Hv : view n' = view n /\ ctl n' = ctl n) by (clear Hp Ho; rewrite <- H; by destruct (decide _)). destruct Hv as [Hv Hk].
  split; rewrite ?Hc, ?Hm, ?Hv, ?Hk; auto. intros [H1 H2]. split; [by rewrite Hc|]. rewrite Hc. intros q c Hq.
  destruct (decide (q = p)) as [->|Hne]; [|destruct (Ho q Hne) as [Hq' _]; rewrite Hq' in Hq; by eapply H2].
  destruct (decide (_ <= _)) as [|Hlt]; destruct Hp as [_ Hp]; [congruence|]. rewrite Hp in Hq. injection Hq as <-.
  unfold count in *. destruct (peer_heartbeats (live n) !! p) as [x|] eqn:E; cbn in *; [specialize (H2 p x E)|]; lia.
Qed.

Lemma keeps_beats e l : forall n n', beat_peers e n l = Ok n' -> keeps n n'.
Proof.
  induction l as [|p l IH]; intros n n'; cbn; [by intros [= <-]|]. intros (m & H1%keeps_beat & H)%bind_Ok_inv. etrans; [exact H1|by apply IH].
Qed.

Lemma keeps_data_heartbeat e n n' : data_heartbeat e n = Ok n' -> keeps n n'.
Proof.
  unfold data_heartbeat. cbv zeta. destruct (decide _); [by intros [= <-]|]. intros H%keeps_beats. etrans; [|exact H]. apply keeps_timers.
Qed.

Lemma keeps_flush e n : keeps n (flush_reports e n).
Proof.
  unfold flush_reports. destruct (control (ctl n)); [|done]. destruct (RouteReport.is_due _ _); [|done]. destruct (RouteReport.flush _ _) as [o r].
  set (n1 := set_route_report n r). assert (K1 : keeps n n1) by apply keeps_legs. destruct o as [[a w]|]; [|done].
  destruct (decide _); [done|]. etrans; [exact K1|]. pose proof (keeps_send e n1 (route_sync a w)) as K. clearbody n1.
  destruct (send_envelope _ _ _) as [[] n3]; cbn [snd] in K; [done|]. etrans; [exact K|apply keeps_drop_control].
Qed.

(** *** Probes *)

Lemma cfg_probe_ping e m a from to : cfg (send_probe_ping e m a from to).2 = cfg m.
Proof. unfold send_probe_ping. cases. Qed.

Lemma cfg_path_probe_send e m dest path hop : cfg (send_path_probe e m dest path hop).2 = cfg m.
Proof. unfold send_path_probe, send_first. cbv zeta. repeat (case_match; simplify_eq; try done). Qed.

Lemma cfg_probe_timeouts e m : cfg (poll_path_probe_timeouts e m) = cfg m.
Proof.
  unfold poll_path_probe_timeouts. generalize (List.filter (fun x : Z * (Z * Z * Z) => bool_decide (sat_sub (now e) (snd (snd x)) > PATH_PROBE_TIMEOUT)) (map_to_list (path_probe_pending (tel m)))).
  intros l. revert m. induction l as [|[k [[d p] t]] l IH]; intros m; [done|]. cbn. by rewrite IH.
Qed.

Lemma keeps_probe_one e id t r x : keeps (r_node r) (r_node (probe_one e id t r x)).
Proof.
  unfold probe_one, probe_send_gate. destruct x as [to a]. destruct (match _ !! a with Some _ => _ | None => _ end); [done|].
  destruct (bucket e (asked r)); [|done]. cbn [r_node]. apply keeps_mesh, cfg_probe_ping.
Qed.

Lemma keeps_probe_all e id t l : forall r, keeps (r_node r) (r_node (foldl (probe_one e id t) r l)).
Proof. induction l as [|x l IH]; intros r; [done|]. cbn [foldl]. etrans; [apply keeps_probe_one|apply IH]. Qed.

Lemma keeps_probe_paths e l : forall r r', probe_paths e r l = Ok r' -> keeps (r_node r) (r_node r').
Proof.
  induction l as [|[[d p] h] l IH]; intros r r'; cbn [probe_paths]; [by intros [= <-]|]. destruct (bucket e (asked r)); [|by intros [= <-]].
  pose proof (cfg_path_probe_send (with_nonce (menv e) (nonces e (drawn r))) (mesh (r_node r)) d p h) as Hc.
  destruct (send_path_probe _ _ d p h) as [o m]. cbn [snd] in Hc. intros (_ & _ & H%IH)%bind_Ok_inv. etrans; [|exact H]. by apply keeps_mesh.
Qed.

Lemma keeps_missed e t n x : keeps n (probe_missed e t n x).
Proof.
  unfold probe_missed. cbv zeta. etrans; [apply (keeps_mesh n)|by apply keeps_live]. unfold note_probe_miss. by case_match.
Qed.

Lemma keeps_echo e id t r r' : probe_echo e id t r = Some r' -> keeps (r_node r) (r_node r').
Proof.
  unfold probe_echo. destruct (underlay_tcp _); [by intros [= <-]|]. destruct (echo_target _) as [[h p]|]; [|by intros [= <-]].
  destruct (resolve_echo e h p) as [ip|]; [|done]. intros H. injection H as <-. exact (keeps_probe_one e id t r (0, (ip, p))).
Qed.

Lemma keeps_probes e n n' : pump_probes e n = Ok n' -> keeps n n'.
Proof.
  unfold pump_probes. cbv zeta. destruct (decide _); [by intros [= <-]|]. set (n1 := set_last_probe n (now (menv e))).
  assert (K1 : keeps n n1) by apply keeps_timers. intros H. etrans; [exact K1|]. clearbody n1. clear K1.
  set (n2 := set_mesh n1 (poll_path_probe_timeouts (menv e) (mesh n1))) in *.
  assert (K2 : keeps n1 n2) by (apply keeps_mesh, cfg_probe_timeouts). etrans; [exact K2|]. clearbody n2. clear K2.
  destruct (take_pending_probes (mesh n2)) as [missed m] eqn:Ht.
  match type of H with context [node_id (ctl ?x)] => set (n3 := x) in * end.
  assert (K3 : keeps n2 n3).
  { unfold n3. etrans; [apply (keeps_mesh n2 m); by injection Ht as _ <-|]. apply keeps_foldl. intros. apply keeps_missed. }
  etrans; [exact K3|]. clearbody n3. destruct (node_id (ctl n3)) as [id|]; [|by injection H as <-].
  destruct (probe_echo e id (now (menv e)) (mk_round n3 0 0)) as [r|] eqn:He; [|by injection H as <-].
  assert (K4 : keeps n3 (r_node r)).
  { by apply keeps_echo in He. }
  etrans; [exact K4|]. apply bind_Ok_inv in H as (r' & Hp%keeps_probe_paths & [= <-]).
  etrans; [|exact Hp]. etrans; [|apply keeps_probe_all]. apply keeps_probe_all.
Qed.

Lemma cfg_drop_stats e m : cfg (poll_drop_stats e m).2 = cfg m.
Proof. unfold poll_drop_stats. repeat (case_match; try done). Qed.

Lemma keeps_summaries e n : keeps n (pump_fail_summaries e n).
Proof.
  unfold pump_fail_summaries. cbv zeta. etrans; [|by apply keeps_live].
  assert (K : keeps n (set_connect_failed n (Rate.poll (connect_failed (ctl n)) (now (menv e))).2)) by (split; auto).
  etrans; [exact K|]. apply keeps_mesh, cfg_drop_stats.
Qed.

Lemma keeps_rekey e n : keeps n (rekey_sessions e n).
Proof. unfold rekey_sessions. cbv zeta. destruct (decide _); [done|]. etrans; [apply keeps_timers|]. by apply keeps_mesh. Qed.

Lemma keeps_pump_timers e n i n' : pump_timers e n i = Ok n' -> keeps n n'.
Proof.
  unfold pump_timers. intros (n1 & H1%keeps_dn42 & H)%bind_Ok_inv. etrans; [exact H1|].
  apply bind_Ok_inv in H as (n2 & H2%keeps_ts2021 & H). etrans; [exact H2|].
  apply bind_Ok_inv in H as (n3 & H3%keeps_data_heartbeat & H). etrans; [|etrans; [exact H3|]].
  - etrans; [|apply keeps_control_heartbeat]. etrans; [|apply keeps_watchdog]. apply keeps_foldl, keeps_on_audit.
  - apply bind_Ok_inv in H as (n4 & H4%keeps_probes & [= <-]). etrans; [|apply keeps_summaries]. etrans; [|exact H4].
    etrans; [|apply keeps_flush]. apply keeps_rekey.
Qed.

Lemma keeps_tun e n pkt n' : on_tun e n pkt = Ok n' -> keeps n n'.
Proof.
  unfold on_tun. destruct (tun_mtu (conf n)); [|by intros [= <-]]. by intros ([o n1] & H1%keeps_lan & [= <-])%bind_Ok_inv.
Qed.

Lemma keeps_slice e n x n' : slice e n x = Ok n' -> keeps n n'.
Proof.
  assert (Ha : forall m i m', (m ← pump_dn42 e m (ti_dn42 i); pump_timers e m (mk_timer_input [] (ti_frames i) (ti_tailnet i) (ti_audits i))) = Ok m' -> keeps m m').
  { intros m i m' (m1 & H1%keeps_dn42 & H%keeps_pump_timers)%bind_Ok_inv. by etrans. }
  unfold slice. destruct x; try (by intros [= <-]).
  - intros (m & H1%keeps_datagram & H%Ha)%bind_Ok_inv. by etrans.
  - intros (m & H1%keeps_tun & H%Ha)%bind_Ok_inv. by etrans.
  - apply Ha.
Qed.

(** ** The invariant *)

(** The paths asked for and not yet had. *)
Record paths_ok (v : View) : Prop := {
  pa_nodup : NoDup (pending_path_requests v);
  pa_max : (length (pending_path_requests v) <= PATH_REQUEST_PENDING_MAX)%nat;
  pa_requested : forall d, d ∈ pending_path_requests v -> d ∈ path_requested v
}.

(** The waits of the schedule: a second, doubled up to five minutes. *)
Definition scheduled (w : Z) : Prop := exists k : nat, w = Z.min (2 ^ Z.of_nat k * SECOND) RECONNECT_MAX_BACKOFF.

Record node_ok (n : Node) : Prop := {
  no_peers : peers_ok n;
  no_paths : paths_ok (view n);
  no_beats : beats_ok n;
  no_backoff : scheduled (backoff (reconnect (ctl n)))
}.

(** The session of the control channel is there when the loop reads from it. *)
Definition phase_ok (s : Phase * Node) : Prop :=
  match s.1 with
  | Serving => is_Some (control (ctl s.2))
  | Connecting | Stopped => control (ctl s.2) = None
  | Waiting r => control (ctl s.2) = None /\ 0 < r <= RECONNECT_MAX_BACKOFF
  end.

Lemma node_ok_keeps n n' : keeps n n' -> node_ok n -> node_ok n'.
Proof.
  intros [? H1 H2 Hp Hpe Hre Hrc _ Hb] [[A B] [C D E] F G]. split; [split|split|auto|]; rewrite ?Hp, ?Hpe, ?Hre, ?Hrc; try done.
  - intros p Hx. by apply A, H1.
  - intros p Hx. by apply B, H2.
Qed.

Lemma scheduled_bounds w : scheduled w -> 0 < w <= RECONNECT_MAX_BACKOFF.
Proof. intros [k ->]. unfold RECONNECT_MAX_BACKOFF, SECOND. assert (0 < 2 ^ Z.of_nat k) by (apply Z.pow_pos_nonneg; lia). lia. Qed.

Lemma scheduled_next w : scheduled w -> scheduled (Z.min (w * 2) RECONNECT_MAX_BACKOFF).
Proof.
  intros [k ->]. exists (S k). rewrite Nat2Z.inj_succ, Z.pow_succ_r by lia. unfold RECONNECT_MAX_BACKOFF, SECOND. lia.
Qed.

Lemma scheduled_first : scheduled RECONNECT_INITIAL_BACKOFF.
Proof. by exists 0%nat. Qed.

Lemma paths_ok_request v d : paths_ok v -> paths_ok (request_paths_for v d).
Proof.
  intros [Hn Hm Hr]. unfold request_paths_for. split; cbn.
  - destruct (_ && _) eqn:E; [|done]. apply andb_prop in E as [E%bool_decide_eq_true _]. apply list.NoDup_app. split; [done|]. split; [set_solver|apply NoDup_singleton].
  - destruct (_ && _) eqn:E; [|done]. apply andb_prop in E as [_ E%bool_decide_eq_true]. rewrite length_app. cbn. lia.
  - intros x. destruct (_ && _); set_solver.
Qed.

Lemma paths_ok_fill me l : forall f, paths_ok (f_view f) -> paths_ok (f_view (foldl (fill_entry me) f l)).
Proof.
  induction l as [|x l IH]; intros f Hf; [done|]. cbn [foldl]. apply IH. unfold fill_entry. destruct (decide _); [done|].
  destruct (if n_offline x then _ else _). cbn [f_view]. destruct (decide _); [by apply paths_ok_request|done].
Qed.

Lemma paths_ok_netmap n nm : paths_ok (view n) -> paths_ok (view (apply_netmap n nm)).
Proof.
  intros [A B C]. unfold apply_netmap. cbv zeta. match goal with |- context [apply_relay_endpoints ?x] => destruct (relay_endpoints_keeps x) as (_ & _ & -> & _) end.
  match goal with |- context [foldl (fill_entry ?i) ?f ?l] => pose proof (paths_ok_fill i l f) as H; destruct H as [A' B' C'] end; [by split|]. by split.
Qed.

Lemma apply_netmap_rest n nm : let n' := apply_netmap n nm in
  conf n' = conf n /\ live n' = live n /\ reconnect (ctl n') = reconnect (ctl n) /\ control (ctl n') = control (ctl n).
Proof. done. Qed.

Lemma set_control_ok n x : node_ok n -> node_ok (set_control n x).
Proof. intros [[A B] C [F1 F2] G]. split; [by split|done|by split|done]. Qed.

(** A peer is taken out of the tables. *)
Lemma revoked_ok n id : node_ok n -> node_ok (on_revoked n id).
Proof.
  intros [[A B] [C D E] [F1 F2] G]. unfold on_revoked. cbv zeta.
  match goal with |- context [remove_paths_for ?m id] => destruct (remove_paths_keeps m id) as [Hc _]; set (m0 := m) in *; set (m1 := remove_paths_for m0 id) in * end.
  match goal with |- node_ok (on_client ?x _) => set (n1 := x) end.
  assert (K : node_ok n1).
  { split; [split|by split| |done].
    - intros p Hp. cbn in Hp. rewrite Hc in Hp. cbn in Hp. destruct Hp as [k [Hne Hk]%lookup_delete_Some]. cbn. apply elem_of_difference.
      split; [apply A; by exists k|]. rewrite elem_of_singleton. congruence.
    - intros p Hp. cbn in Hp. rewrite Hc in Hp. cbn in Hp. destruct Hp as [k [Hne Hk]%lookup_delete_Some]. cbn. apply elem_of_difference.
      split; [apply B; by exists k|]. rewrite elem_of_singleton. congruence.
    - split; [done|]. intros p c. cbn. intros [_ Hp]%lookup_delete_Some. by eapply F2. }
  clearbody n1. unfold on_client. destruct (control (ctl n1)); [|done]. by apply set_control_ok.
Qed.

Lemma cfg_path_keys m cs : cfg (install_path_keys m cs) = cfg m.
Proof. unfold install_path_keys. revert m. induction cs as [|c cs IH]; intros m; [done|]. cbn. rewrite IH. by destruct (decide _). Qed.

Lemma on_paths_ok n dest cs source : node_ok n -> node_ok (on_paths n dest cs source).
Proof.
  intros H. unfold on_paths. cbv zeta. set (n1 := set_mesh n (install_path_keys (mesh n) cs)).
  assert (K : node_ok n1) by (eapply node_ok_keeps, H; apply keeps_mesh, cfg_path_keys). clearbody n1. destruct (decide _).
  - destruct K as [A [C D E] F G]. split; [by destruct A; split| |by destruct F; split|done]. cbn. split; cbn.
    + by eapply sublist_NoDup, bfilter_sublist.
    + etrans; [apply sublist_length, bfilter_sublist|done].
    + intros x [Hx _]%elem_of_bfilter. by apply E.
  - destruct (node_id (ctl n1)) as [me|]; [|done]. eapply node_ok_keeps, K. apply keeps_mesh. generalize (mesh n1). clear.
    induction cs as [|c cs IH]; intros m; [done|]. cbn. rewrite IH. by destruct (decide _).
Qed.

Lemma withdraw_cfg m dest id : cfg (withdraw_path m dest id) = cfg m.
Proof. unfold withdraw_path. cbv zeta. repeat (case_match; try done). Qed.

Lemma key_dist_ok n to key ver bk : node_ok n -> node_ok (on_key_dist n to key ver bk).
Proof.
  assert (K : forall n m v, peer_statics (cfg m) = peer_statics (cfg (mesh n)) -> peer_capabilities (cfg m) = peer_capabilities (cfg (mesh n)) ->
    netmap_peers v = netmap_peers (view n) -> pending_path_requests v = pending_path_requests (view n) -> path_requested v = path_requested (view n) ->
    node_ok n -> node_ok (set_view (set_mesh n m) v)).
  { intros m0 m v H1 H2 H3 H4 H5 [[A B] [C D E] F G]. split; [split|split|done|done]; cbn; rewrite ?H1, ?H2, ?H3, ?H4, ?H5; done. }
  intros H. unfold on_key_dist. cbv zeta. destruct (decide (length key = _)); destruct (decide _); try done; try (by apply K). apply K; try done. by apply K.
Qed.

(** Every event of the control channel keeps the order of the node. *)
Lemma control_event_ok e n ev : node_ok n -> node_ok (handle_control_event e n ev).2.
Proof.
  intros H. destruct ev; cbn [handle_control_event snd].
  - unfold on_registered_event. cbv zeta.
    match goal with |- context [key_from_bytes (coord_signing_pubkey (conf ?x))] => set (n1 := x) end.
    assert (K : node_ok n1) by (destruct H as [[A B] C [F1 F2] G]; split; [by split|done|by split|apply scheduled_first]).
    clearbody n1. destruct (key_from_bytes _) as [vk|]; [|done]. cbn [snd]. eapply node_ok_keeps; [apply keeps_legs|].
    eapply node_ok_keeps; [apply keeps_report|]. unfold audit_own. destruct (local_binding_claim _); [eapply node_ok_keeps; [apply keeps_queue|]|];
      (eapply node_ok_keeps, K; by split; auto).
  - unfold on_netmap_event. fold (before_map e n n0). destruct (before_map_keep e n n0) as (Hm & Hv & _ & _ & _ & _ & Hc & Hl & Hr & _).
    set (n1 := before_map e n n0) in *. destruct H as [[A B] C [F1 F2] G]. destruct (apply_netmap_rest n1 n0) as (Rc & Rl & Rr & _).
    split; [apply apply_netmap_peers; split; by rewrite Hm, Hv|apply paths_ok_netmap; by rewrite Hv| |by rewrite Rr, Hr].
    split; by rewrite Rc, ?Rl, Hc, ?Hl.
  - by apply key_dist_ok.
  - destruct granted; [|done]. eapply node_ok_keeps, H. by split; auto.
  - destruct (control (ctl n)); [|done]. pose proof (keeps_send e n ack) as K. destruct (send_envelope e n ack) as [[] n1]; by eapply node_ok_keeps.
  - by apply revoked_ok.
  - by apply on_paths_ok.
  - eapply node_ok_keeps, H. apply keeps_mesh, withdraw_cfg.
  - eapply node_ok_keeps; [apply keeps_drop_control|]. destruct (decide _); [done|]. eapply node_ok_keeps, H. by split; auto.
  - eapply node_ok_keeps, H. apply keeps_engine.
Qed.

(** ** The loop *)

Lemma again_ok n : node_ok n -> node_ok (again n).2 /\ phase_ok (again n).
Proof. intros H. unfold again, phase_ok. cbn [fst snd]. split; [done|]. by destruct (control (ctl n)) eqn:E. Qed.

Lemma slice_ok e n x n' : slice e n x = Ok n' -> node_ok n -> control (ctl n) = None -> node_ok n' /\ control (ctl n') = None.
Proof.
  intros K%keeps_slice H Hc. split; [by eapply node_ok_keeps|]. destruct (k_control _ _ K); congruence.
Qed.

(** The end of a session or of an attempt: the wait of the schedule, and the next one. *)
Lemma wait_ok n w p : on_disconnect (reconnect (ctl n)) = (w, p) -> node_ok n -> control (ctl n) = None ->
  node_ok (set_reconnect n p) /\ phase_ok (Waiting w, set_reconnect n p).
Proof.
  intros [= <- <-] [[A B] C [F1 F2] G] Hc. split; [split; [by split|done|by split|by apply scheduled_next]|]. split; [done|by apply scheduled_bounds].
Qed.

Lemma run_step_ok e s x s' : run_step e s x = Ok s' -> node_ok s.2 -> phase_ok s -> node_ok s'.2 /\ phase_ok s'.
Proof.
  destruct s as [p n]. intros H Hn Hp. cbn [fst snd] in *.
  assert (Hstop : node_ok (set_control n None) /\ phase_ok (Stopped, set_control n None)) by (split; [by apply set_control_ok|done]).
  assert (Hag : forall n', keeps n n' -> node_ok (again n').2 /\ phase_ok (again n')) by (intros n' K; apply again_ok; by eapply node_ok_keeps).
  unfold run_step in H. destruct p as [|r| |].
  - destruct x; try (apply Ok_inj in H; subst s'; done).
    + destruct c as [c|]; apply Ok_inj in H; subst s'.
      * split; [destruct Hn as [[A B] C [F1 F2] G]; split; [by split|done|by split|done]|by exists c].
      * unfold connect_error. destruct (on_disconnect _) as [w q] eqn:Ew. apply (wait_ok _ w q Ew); [|done].
        destruct Hn as [[A B] C [F1 F2] G]. split; [by split|done|by split|done].
    + apply bind_Ok_inv in H as (n' & Hs & H%Ok_inj). subst s'. by apply (slice_ok _ _ _ _ Hs).
    + apply bind_Ok_inv in H as (n' & Hs & H%Ok_inj). subst s'. by apply (slice_ok _ _ _ _ Hs).
    + apply bind_Ok_inv in H as (n' & Hs & H%Ok_inj). subst s'. by apply (slice_ok _ _ _ _ Hs).
  - destruct Hp as [Hc Hr]. cbn [fst snd] in Hc, Hr.
    assert (Hw : forall n', node_ok n' -> control (ctl n') = None ->
      let s := if decide (0 < r - Z.min r SLICE) then (Waiting (r - Z.min r SLICE), n') else again n' in node_ok s.2 /\ phase_ok s).
    { intros n' Hn' Hc'. cbv zeta. destruct (decide _); [|by apply again_ok]. split; [done|]. split; [done|]. cbn [fst]. unfold SLICE in *. lia. }
    destruct x; try (apply Ok_inj in H; subst s'; done).
    all: apply bind_Ok_inv in H as (n' & Hs & H%Ok_inj); subst s'; destruct (slice_ok _ _ _ _ Hs Hn Hc); by apply Hw.
  - destruct x; try (apply Ok_inj in H; subst s'; done).
    + apply bind_Ok_inv in H as (n' & K%keeps_datagram & H%Ok_inj). subst s'. by apply Hag.
    + apply bind_Ok_inv in H as (n' & K%keeps_tun & H%Ok_inj). subst s'. by apply Hag.
    + destruct ev as [ev|]; apply Ok_inj in H; subst s'; [by apply again_ok, control_event_ok|].
      unfold control_lost. destruct (on_disconnect _) as [w q] eqn:Ew. apply (wait_ok _ w q Ew); [by apply set_control_ok|done].
    + apply bind_Ok_inv in H as (n' & K%keeps_pump_timers & H%Ok_inj). subst s'. by apply Hag.
  - apply Ok_inj in H. by subst s'.
Qed.

Definition turn (s s' : Phase * Node) : Prop := exists e x, run_step e s x = Ok s'.

(** C11: the order of a node over its whole run.  From its creation on, through any
    sequence of events of the control channel, datagrams, packets, timers, failed
    and successful connections: the identities and capabilities it holds are of nodes
    of its current map; the paths it asks for are at most 256, each once; the
    counters of silence are below the limit; the wait before a reconnect is a second
    doubled up to five minutes; and it reads from the control channel only while it
    has a session. *)
Theorem node_invariant (c : Conf) (preference : list ExitSource) (dev : option (string * list (IpAddr * Z)))
    (ls : list RouteReport.Dn42PeerLeg) (ts : option Tailnet.Ts2021Leg) (t : Z) (s : Phase * Node)
    (Hm : 1 <= data_heartbeat_misses c) (Hrun : rtc turn (Connecting, node_new c preference dev ls ts t) s) :
  node_ok s.2 /\ phase_ok s.
Proof.
  assert (H0 : node_ok (node_new c preference dev ls ts t)).
  { split; [split|split|split|]; cbn; try done; try (by intros ? [? ?%lookup_empty_Some]); try (by intros ? ? ?%lookup_empty_Some).
    - apply NoDup_nil_2.
    - lia.
    - by intros ? ?%elem_of_nil.
    - apply scheduled_first. }
  assert (H1 : phase_ok (Connecting, node_new c preference dev ls ts t)) by done.
  revert H0 H1. remember (Connecting, node_new c preference dev ls ts t) as s0. intros H0 H1.
  assert (H0' : node_ok s0.2) by by rewrite Heqs0. clear Heqs0 H0.
  induction Hrun as [s|s s1 s2 (e & x & Hs) _ IH]; [done|]. destruct (run_step_ok e s x s1 Hs H0' H1). by apply IH.
Qed.

(** A redirect, or a lease that ran out, makes the loop connect again at once: the
    backoff is neither waited for nor advanced. *)
Theorem no_backoff_on_redirect (e : Env) (n : Node) (ep : string) (term : Z) :
  exists n', run_step e (Serving, n) (InControl (Some (LeaderRedirect ep term))) = Ok (Connecting, n') /\
    reconnect (ctl n') = reconnect (ctl n) /\
    connect_url n' = if decide (ep = "") then connect_url n else String.append "https://" ep.
Proof.
  eexists. split; [reflexivity|]. unfold handle_control_event. destruct (decide (ep = "")); (split; [reflexivity|]); reflexivity.
Qed.

Theorem no_backoff_on_lease (e : Env) (n : Node) (t : Z) (Hl : lease_expires_at (ctl n) = Some t) (Ht : now_unix (menv e) > t) :
  control (ctl (lease_watchdog e n)) = None /\ (again (lease_watchdog e n)).1 = Connecting /\
  reconnect (ctl (lease_watchdog e n)) = reconnect (ctl n).
Proof.
  assert (Hc : control (ctl (lease_watchdog e n)) = None).
  { unfold lease_watchdog. destruct (control (ctl n)) eqn:E; [|done]. by rewrite Hl, decide_True. }
  split; [done|]. split; [unfold again; by rewrite Hc|].
  unfold lease_watchdog. destruct (control (ctl n)); [|done]. by rewrite Hl, decide_True.
Qed.

(** The waits after failures in a row: one second, two, four, up to five minutes. *)
Fixpoint waits (k : nat) (p : ReconnectPolicy) : list Z :=
  match k with O => [] | S k => (on_disconnect p).1 :: waits k (on_disconnect p).2 end.

Theorem backoff_schedule (k i : nat) (Hi : (i < k)%nat) :
  waits k (on_registered policy_new) !! i = Some (Z.min (2 ^ Z.of_nat i * SECOND) RECONNECT_MAX_BACKOFF).
Proof.
  assert (H : forall k j i, (i < k)%nat -> waits k (mk_policy (Z.min (2 ^ Z.of_nat j * SECOND) RECONNECT_MAX_BACKOFF)) !! i =
    Some (Z.min (2 ^ Z.of_nat (j + i) * SECOND) RECONNECT_MAX_BACKOFF)).
  { clear. induction k as [|k IH]; intros j i Hi; [lia|]. cbn [waits]. destruct i as [|i]; cbn [lookup list_lookup].
    - cbn. by rewrite Nat.add_0_r.
    - cbn [on_disconnect snd backoff]. replace (Z.min (Z.min (2 ^ Z.of_nat j * SECOND) RECONNECT_MAX_BACKOFF * 2) RECONNECT_MAX_BACKOFF)
        with (Z.min (2 ^ Z.of_nat (S j) * SECOND) RECONNECT_MAX_BACKOFF).
      + replace (j + S i)%nat with (S j + i)%nat by lia. apply IH. lia.
      + rewrite Nat2Z.inj_succ, Z.pow_succ_r by lia. unfold RECONNECT_MAX_BACKOFF, SECOND. lia. }
  apply (H k 0%nat i Hi).
Qed.

End Inv.

(** ** A concrete run *)

Section Samples.
Import Toy Handshake.ToyNoise.
#[local] Existing Instance sample_verifier.

Definition sample_client : MeshClient := mk_client Control.Session.new (replicate 32 1).
Definition sample_start : Node := node_new sample_conf [] None [] None 0.
Definition sample_end : Phase * Node :=
  again (handle_control_event sample_turn (connected sample_start sample_client) (Netmap sample_map)).2.

(** A node which connects and is given its first map. *)
Lemma node_invariant_witness : rtc turn (Connecting, sample_start) sample_end /\ node_ok sample_end.2 /\ phase_ok sample_end.
Proof.
  assert (H : rtc turn (Connecting, sample_start) sample_end).
  { apply rtc_l with (Serving, connected sample_start sample_client); [exists sample_turn, (InConnect (Some sample_client)); reflexivity|].
    apply rtc_once. exists sample_turn, (InControl (Some (Netmap sample_map))). reflexivity. }
  split; [exact H|]. apply (node_invariant sample_conf [] None [] None 0); [|exact H]. vm_compute. discriminate.
Defined.

End Samples.

End NodeInv.
