(* ===== verification/CoordConfig.v ===== *)
(** * The configuration of a coordinator (rill-coord/src/config, status.rs)

    The configuration as it is after deserialization, its checks, what it does to a
    running coordinator when it is applied or reloaded, and the password of the status
    page.  Strings are their UTF-8 bytes. *)

From Stdlib Require Import Ascii.
From S2P Require Import Prelude Crypto Net Route Control Registry AuthKey Coord PathService RouteMap Coordinator CoordinatorInv.

Module CoordConfig.
Import Net Route Coordinator CoordinatorInv.

(** ** Hexadecimal text *)

(** [u8::from_str_radix] of two characters, which takes a sign. *)
Definition hex_byte (a b : ascii) : option Z :=
  if decide (a = "+"%char) then to_digit 16 b
  else hi ← to_digit 16 a; lo ← to_digit 16 b; Some (16 * hi + lo).

(** Whether a slice may end before this. *)
Definition at_boundary (l : list ascii) : bool := match l with [] => true | c :: _ => AuthKey.is_boundary c end.

(** Two characters at a time; slicing a character apart panics, and a last single
    character is left alone. *)
Fixpoint hex_pairs (l : list ascii) : outcome unit (list Z) :=
  match l with
  | a :: b :: l =>
      if negb (at_boundary l) then Panic
      else v ← ok_or tt (hex_byte a b); vs ← hex_pairs l; Ok (v :: vs)
  | _ => Ok []
  end.

(** [hex32::decode] and [hex32::deserialize]. *)
Definition hex_decode (s : string) : outcome unit (list Z) :=
  if decide (String.length s mod 2 <> 0)%nat then Err tt else hex_pairs (String.list_ascii_of_string s).

Definition hex32 (s : string) : outcome unit (list Z) :=
  b ← hex_decode s; if decide (length b = 32%nat) then Ok b else Err tt.

(** ** The password of the status page *)

Definition PBKDF2_MIN_ITERATIONS : Z := 10000.
Definition PBKDF2_MIN_SALT : nat := 16.

Inductive StatusAuthError := BadHashFormat | BadHex | FewIterations | ShortSalt | HashLength.

Record PasswordHash := mk_hash { iterations : Z; salt : list Z; hash : list Z }.

Definition decode_part (s : string) : outcome StatusAuthError (list Z) :=
  map_err (fun _ => BadHex) (hex_pairs (String.list_ascii_of_string s)).

Definition parse_password_hash (s : string) : outcome StatusAuthError PasswordHash :=
  rest ← ok_or BadHashFormat (AuthKey.strip_prefix "pbkdf2-sha256$" s);
  match split "$" rest with
  | it :: parts =>
      it ← ok_or BadHashFormat (parse_uint (2 ^ 32 - 1) it);
      match parts with
      | [salt_hex; hash_hex] =>
          salt ← decode_part salt_hex;
          hash ← decode_part hash_hex;
          if decide (it < PBKDF2_MIN_ITERATIONS) then Err FewIterations
          else if decide (length salt < PBKDF2_MIN_SALT)%nat then Err ShortSalt
          else if decide (length hash <> 32%nat) then Err HashLength
          else Ok (mk_hash it salt hash)
      | _ => Err BadHashFormat
      end
  | [] => Err BadHashFormat
  end.

Section Pbkdf2.
Context `{P : Crypto.Primitives}.

Definition xor_bytes (a b : list Z) : list Z := zip_with Z.lxor a b.

(** The rounds after the first of a block: [u] is the last output, [acc] their sum. *)
Fixpoint pbkdf2_rounds (password : list Z) (k : nat) (u acc : list Z) : list Z :=
  match k with
  | O => acc
  | S k => let u := Crypto.hmac password u in pbkdf2_rounds password k u (xor_bytes acc u)
  end.

Definition pbkdf2_block (password salt : list Z) (iterations : Z) (block : Z) : list Z :=
  let u := Crypto.hmac password (salt ++ be_bytes 4 block) in
  pbkdf2_rounds password (Z.to_nat (iterations - 1)) u u.

Definition pbkdf2_sha256 (password salt : list Z) (iterations : Z) (dk_len : nat) : list Z :=
  let blocks := Z.of_nat <$> seq 1 ((dk_len + 31) / 32) in
  take dk_len (mjoin (pbkdf2_block password salt iterations <$> blocks)).

Definition constant_time_eq (a b : list Z) : bool :=
  if decide (length a <> length b) then false
  else bool_decide (foldl (fun acc '(x, y) => Z.lor acc (Z.lxor x y)) 0 (zip a b) = 0).

Definition verify_password (h : PasswordHash) (password : string) : bool :=
  constant_time_eq (pbkdf2_sha256 (str_bytes password) (salt h) (iterations h) (length (hash h))) (hash h).

End Pbkdf2.

(** ** The sections of the configuration *)

Record AclRuleConfig := mk_rule_cfg { rc_subjects : list string; rc_prefix : string; rc_action : string }.
Record AclConfig := mk_acl_cfg { ac_enabled : bool; ac_groups : gmap string (list Z); ac_rules : list AclRuleConfig }.
Record AuthKeyConfig := mk_key_cfg { ak_key : string; ak_policy : string; ak_tag : option string }.
Record ClusterMember := mk_member { m_id : Z; m_addr : string; m_advertise : string }.
Record ClusterConfig := mk_cluster { cl_node_id : Z; raft_listen_addr : string; members : list ClusterMember; ca_cert_path : string }.
Record StatusConfig := mk_status { st_listen_addr : string; password_hash : string }.

Record NetworkConfig := mk_net_cfg {
  nc_name : string;
  nc_master_key : list Z;
  nc_auth_keys : list AuthKeyConfig;
  nc_announce_whitelist : list string;
  nc_acl : AclConfig;
  nc_relay : RelayRosterConfig;
  nc_exits : list Z
}.

Record CoordConfig := mk_config {
  listen_addr : string;
  signing_seed : list Z;
  storage_path : option string;
  udp_listen_addr : option string;
  networks : list NetworkConfig;
  status : option StatusConfig;
  cluster : option ClusterConfig
}.

Inductive ConfigError :=
| BadAclPrefix (s : string) | BadAclSubject (s : string) | UnknownAclGroup (s : string) | NoAclSubjects | BadAclAction (s : string)
| BadRaftListenAddr (s : string) | NoMembers | DuplicateMember (id : Z) | BadMemberAddr (s : string) | NotAMember (id : Z) | EmptyCaPath
| BadListenAddr (s : string) | NoNetworks | BadName (e : AuthKey.AuthKeyError) | DuplicateNetwork (s : string) | NetworkIdCollision (s : string)
| BadAuthKey (e : AuthKey.AuthKeyError) | AuthKeyNetworkMismatch (key segment : string) | BadPolicy (s : string) | BadWhitelistPrefix (s : string)
| ZeroRelays (s : string) | RelayInBoth (s : string) (id : Z) | DuplicateExits (s : string)
| EmptyStoragePath | BadUdpListenAddr (s : string) | ClusterNeedsStorage | BadStatusAddr (s : string) | BadPasswordHash (e : StatusAuthError).

(** *** Access rules *)

Definition to_subject (groups : gmap string (list Z)) (s : string) : outcome ConfigError Acl.AclSubject :=
  if decide (s = "any"%string) then Ok Acl.Any
  else
    match AuthKey.strip_prefix "node:" s with
    | Some id => id ← ok_or (BadAclSubject s) (parse_uint (2 ^ 32 - 1) id); Ok (Acl.Node id)
    | None =>
        match AuthKey.strip_prefix "group:" s with
        | Some name =>
            if bool_decide (name = ""%string) || bool_decide (groups !! name = None) then Err (UnknownAclGroup s)
            else Ok (Acl.Group name)
        | None => Err (BadAclSubject s)
        end
    end.

(** [collect] into a [Result]: the first error ends it. *)
Fixpoint collect {E A B} (f : A -> outcome E B) (l : list A) : outcome E (list B) :=
  match l with
  | [] => Ok []
  | x :: l => y ← f x; ys ← collect f l; Ok (y :: ys)
  end.

Definition to_rule (groups : gmap string (list Z)) (r : AclRuleConfig) : outcome ConfigError Acl.AclRule :=
  prefix ← map_err (fun _ => BadAclPrefix (rc_prefix r)) (parse (rc_prefix r));
  subjects ← collect (to_subject groups) (rc_subjects r);
  if decide (subjects = []) then Err NoAclSubjects
  else
    action ← (if decide (rc_action r = "allow"%string) then Ok Acl.Allow
              else if decide (rc_action r = "deny"%string) then Ok Acl.Deny
              else Err (BadAclAction (rc_action r)));
    Ok (Acl.mk_rule subjects prefix action).

Definition to_policy (a : AclConfig) : outcome ConfigError Acl.AclPolicy :=
  rules ← collect (to_rule (ac_groups a)) (ac_rules a);
  Ok (Acl.mk_policy (ac_enabled a) rules (ac_groups a)).

(** *** The cluster *)

(** [str::trim] leaves nothing: the characters of Unicode's [White_Space]. *)
Fixpoint is_blank (l : list ascii) : bool :=
  match l with
  | [] => true
  | a :: l =>
      if bool_decide (9 <= code a <= 13) || bool_decide (code a = 32) then is_blank l
      else
        match l with
        | b :: l =>
            if bool_decide (code a = 0xc2) && (bool_decide (code b = 0x85) || bool_decide (code b = 0xa0)) then is_blank l
            else
              match l with
              | c :: l =>
                  let x := (code a, code b, code c) in
                  (bool_decide (x = (0xe1, 0x9a, 0x80)) || bool_decide (x = (0xe2, 0x81, 0x9f)) || bool_decide (x = (0xe3, 0x80, 0x80))
                   || bool_decide ((code a, code b) = (0xe2, 0x80)) &&
                      (bool_decide (0x80 <= code c <= 0x8a) || bool_decide (code c ∈ [0xa8; 0xa9; 0xaf])))
                  && is_blank l
              | [] => false
              end
        | [] => false
        end
  end.

Definition trim_is_empty (s : string) : bool := is_blank (String.list_ascii_of_string s).

Definition check_member_addr (addr : string) : outcome ConfigError unit :=
  '(_, port) ← ok_or (BadMemberAddr addr) (rsplit_once ":" addr);
  _ ← ok_or (BadMemberAddr addr) (parse_uint 65535 port);
  Ok tt.

Fixpoint check_members (seen : gset Z) (ms : list ClusterMember) : outcome ConfigError unit :=
  match ms with
  | [] => Ok tt
  | m :: ms =>
      if decide (m_id m ∈ seen) then Err (DuplicateMember (m_id m))
      else
        _ ← check_member_addr (m_addr m);
        _ ← check_member_addr (m_advertise m);
        check_members ({[ m_id m ]} ∪ seen) ms
  end.

Definition validate_cluster (c : ClusterConfig) : outcome ConfigError unit :=
  _ ← ok_or (BadRaftListenAddr (raft_listen_addr c)) (parse_socket (raft_listen_addr c));
  if decide (members c = []) then Err NoMembers
  else
    _ ← check_members ∅ (members c);
    if decide (cl_node_id c ∉ m_id <$> members c) then Err (NotAMember (cl_node_id c))
    else if trim_is_empty (ca_cert_path c) then Err EmptyCaPath
    else Ok tt.

(** [str::strip_suffix]. *)
Definition strip_suffix (p s : string) : option string :=
  let rev s := String.string_of_list_ascii (reverse (String.list_ascii_of_string s)) in
  rev <$> AuthKey.strip_prefix (rev p) (rev s).

Definition raft_storage_paths (storage_path : string) : string * string :=
  let stem := default storage_path (strip_suffix ".redb" storage_path) in
  (stem +:+ "-raftlog.redb", stem +:+ "-raftstate.redb").

(** *** The checks *)

Fixpoint check_auth_keys (segment : string) (aks : list AuthKeyConfig) : outcome ConfigError unit :=
  match aks with
  | [] => Ok tt
  | ak :: aks =>
      '(net, _, _) ← map_err BadAuthKey (AuthKey.parse_auth_key (ak_key ak));
      if decide (net <> segment) then Err (AuthKeyNetworkMismatch net segment)
      else if decide (ak_policy ak <> "onetime"%string /\ ak_policy ak <> "reusable"%string) then Err (BadPolicy (ak_policy ak))
      else check_auth_keys segment aks
  end.

Fixpoint check_prefixes (ws : list string) : outcome ConfigError unit :=
  match ws with
  | [] => Ok tt
  | w :: ws => _ ← map_err (fun _ => BadWhitelistPrefix w) (parse w); check_prefixes ws
  end.

(** One pass of the loop over the networks, after the names are found fresh. *)
Definition check_network (n : NetworkConfig) : outcome ConfigError unit :=
  _ ← check_auth_keys (nc_name n) (nc_auth_keys n);
  _ ← check_prefixes (nc_announce_whitelist n);
  _ ← to_policy (nc_acl n);
  if decide (max_size (nc_relay n) = 0%nat) then Err (ZeroRelays (nc_name n))
  else
    match List.find (fun i => bool_decide (i ∈ exclude (nc_relay n))) (include (nc_relay n)) with
    | Some id => Err (RelayInBoth (nc_name n) id)
    | None => if decide (length (nc_exits n) <> size (list_to_set (nc_exits n) : gset Z)) then Err (DuplicateExits (nc_name n)) else Ok tt
    end.

Fixpoint check_networks (names : gset string) (ids : gset Z) (ns : list NetworkConfig) : outcome ConfigError unit :=
  match ns with
  | [] => Ok tt
  | n :: ns =>
      _ ← map_err BadName (AuthKey.validate_network (nc_name n));
      if decide (nc_name n ∈ names) then Err (DuplicateNetwork (nc_name n))
      else if decide (network_id_for (nc_name n) ∈ ids) then Err (NetworkIdCollision (nc_name n))
      else
        _ ← check_network n;
        check_networks ({[ nc_name n ]} ∪ names) ({[ network_id_for (nc_name n) ]} ∪ ids) ns
  end.

Definition validate (c : CoordConfig) : outcome ConfigError unit :=
  _ ← ok_or (BadListenAddr (listen_addr c)) (parse_socket (listen_addr c));
  if decide (networks c = []) then Err NoNetworks
  else
    _ ← check_networks ∅ ∅ (networks c);
    if (match storage_path c with Some p => trim_is_empty p | None => false end) then Err EmptyStoragePath
    else
      _ ← (match udp_listen_addr c with
           | Some a => _ ← ok_or (BadUdpListenAddr a) (parse_socket a); Ok tt
           | None => Ok tt
           end);
      _ ← (match cluster c with
           | Some cl => if decide (storage_path c = None) then Err ClusterNeedsStorage else validate_cluster cl
           | None => Ok tt
           end);
      match status c with
      | Some s =>
          _ ← ok_or (BadStatusAddr (st_listen_addr s)) (parse_socket (st_listen_addr s));
          _ ← map_err BadPasswordHash (parse_password_hash (password_hash s));
          Ok tt
      | None => Ok tt
      end.

(** ** Applying it *)

Section Apply.
Context `{W : HashOrder}.

Definition key_spec (ak : AuthKeyConfig) : Registry.AuthKeySpec :=
  Registry.mk_spec (if decide (ak_policy ak = "onetime"%string) then Registry.OneTime else Registry.Reusable) (ak_tag ak).

Definition add_key (c : Coordinator) (ak : AuthKeyConfig) : Coordinator := (add_auth_key_spec c (ak_key ak) (key_spec ak)).2.

Definition drop_key (aks : list AuthKeyConfig) (c : Coordinator) (k : string) : Coordinator :=
  if existsb (fun ak => bool_decide (ak_key ak = k)) aks then c else remove_auth_key c k.

(** [expect("validated")]. *)
Definition expect {E A} (x : outcome E A) : outcome Empty_set A :=
  match x with Ok a => Ok a | _ => Panic end.

Definition apply_network (c : Coordinator) (n : NetworkConfig) : outcome Empty_set Coordinator :=
  let c := foldl add_key c (nc_auth_keys n) in
  let c := foldl (drop_key (nc_auth_keys n)) c (auth_key_list_for c (nc_name n)) in
  whitelist ← collect (fun w => expect (parse w)) (nc_announce_whitelist n);
  let c := set_announce_whitelist c (nc_name n) whitelist in
  policy ← expect (to_policy (nc_acl n));
  let c := set_acl_policy c (nc_name n) policy in
  let c := set_relay_constraints c (nc_name n) (nc_relay n) in
  Ok (set_exit_allow c (nc_name n) (nc_exits n)).

Fixpoint apply_networks (c : Coordinator) (ns : list NetworkConfig) : outcome Empty_set Coordinator :=
  match ns with
  | [] => Ok c
  | n :: ns => c ← apply_network c n; apply_networks c ns
  end.

Definition apply_to (cfg : CoordConfig) (c : Coordinator) : outcome Empty_set Coordinator := apply_networks c (networks cfg).

(** [CoordinatorServer::from_config] without a store: a fresh coordinator with the
    networks of the configuration, which is then applied. *)
Definition with_networks (ns : list NetworkConfig) (c : Coordinator) : Coordinator :=
  foldl (fun c n => (add_network c (nc_name n) (nc_master_key n)).2) c ns.

Definition from_config (cfg : CoordConfig) : outcome Empty_set Coordinator := apply_to cfg (with_networks (networks cfg) new).

End Apply.

(** ** What a checked configuration is *)

Definition subject_ok (groups : gmap string (list Z)) (s : string) : Prop :=
  s = "any"%string \/
  (exists t id, AuthKey.strip_prefix "node:" s = Some t /\ parse_uint (2 ^ 32 - 1) t = Some id) \/
  (exists name, AuthKey.strip_prefix "group:" s = Some name /\ name <> ""%string /\ is_Some (groups !! name)).

Record rule_ok (groups : gmap string (list Z)) (r : AclRuleConfig) : Prop := {
  ro_prefix : exists p, parse (rc_prefix r) = Ok p;
  ro_some : rc_subjects r <> [];
  ro_subjects : Forall (subject_ok groups) (rc_subjects r);
  ro_action : rc_action r = "allow"%string \/ rc_action r = "deny"%string
}.

Definition key_ok (segment : string) (ak : AuthKeyConfig) : Prop :=
  (exists x s, AuthKey.parse_auth_key (ak_key ak) = Ok (segment, x, s)) /\
  (ak_policy ak = "onetime"%string \/ ak_policy ak = "reusable"%string).

Record network_ok (n : NetworkConfig) : Prop := {
  nk_name : AuthKey.validate_network (nc_name n) = Ok tt;
  nk_keys : Forall (key_ok (nc_name n)) (nc_auth_keys n);
  nk_whitelist : Forall (fun w => exists p, parse w = Ok p) (nc_announce_whitelist n);
  nk_acl : Forall (rule_ok (ac_groups (nc_acl n))) (ac_rules (nc_acl n));
  nk_size : max_size (nc_relay n) <> 0%nat;
  nk_disjoint : forall id, id ∈ include (nc_relay n) -> id ∉ exclude (nc_relay n);
  nk_exits : NoDup (nc_exits n)
}.

Definition member_addr_ok (addr : string) : Prop :=
  exists host port p, rsplit_once ":" addr = Some (host, port) /\ parse_uint 65535 port = Some p.

Record cluster_ok (c : ClusterConfig) : Prop := {
  co_listen : is_Some (parse_socket (raft_listen_addr c));
  co_addrs : Forall (fun m => member_addr_ok (m_addr m) /\ member_addr_ok (m_advertise m)) (members c);
  co_ids : NoDup (m_id <$> members c);
  co_self : cl_node_id c ∈ m_id <$> members c;
  co_ca : trim_is_empty (ca_cert_path c) = false
}.

Record config_ok (c : CoordConfig) : Prop := {
  cf_listen : is_Some (parse_socket (listen_addr c));
  cf_some : networks c <> [];
  cf_networks : Forall network_ok (networks c);
  cf_names : NoDup (nc_name <$> networks c);
  cf_ids : NoDup ((network_id_for ∘ nc_name) <$> networks c);
  cf_storage : forall p, storage_path c = Some p -> trim_is_empty p = false;
  cf_udp : forall a, udp_listen_addr c = Some a -> is_Some (parse_socket a);
  cf_cluster : forall cl, cluster c = Some cl -> storage_path c <> None /\ cluster_ok cl;
  cf_status : forall s, status c = Some s -> is_Some (parse_socket (st_listen_addr s)) /\ exists h, parse_password_hash (password_hash s) = Ok h
}.

Lemma collect_Ok {E A B} (f : A -> outcome E B) l : (exists ys, collect f l = Ok ys) <-> Forall (fun x => exists y, f x = Ok y) l.
Proof.
  induction l as [|x l IH]; cbn; [split; [constructor|by eexists]|]. rewrite Forall_cons_iff, <- IH. split.
  - intros (ys & (y & Hy & (ys' & Hys & _)%bind_Ok_inv)%bind_Ok_inv). eauto.
  - intros [[y ->] [ys ->]]. step. by eexists.
Qed.

(** Checks in sequence. *)
Lemma then_Ok {E A} (m : outcome E A) (k : outcome E unit) : (m ≫= fun _ => k) = Ok tt <-> (exists a, m = Ok a) /\ k = Ok tt.
Proof. destruct m; cbn; split; try done; [eauto|by intros []|by intros [[] _]|by intros [[] _]]. Qed.

Lemma guard_Ok {E} (Q : Prop) `{Decision Q} (e : E) (k : outcome E unit) : (if decide Q then Err e else k) = Ok tt <-> ~ Q /\ k = Ok tt.
Proof. destruct (decide Q); split; try done; [by intros []|by intros []]. Qed.

Lemma test_Ok {E} (b : bool) (e : E) (k : outcome E unit) : (if b then Err e else k) = Ok tt <-> b = false /\ k = Ok tt.
Proof. destruct b; split; try done; by intros []. Qed.

Lemma ok_or_Ok {E A} (e : E) (o : option A) : (exists a, ok_or e o = Ok a) <-> is_Some o.
Proof. destruct o; split; intros [x Hx]; try done; by eexists. Qed.

Lemma unit_Ok {E} (m : outcome E unit) : (exists a, m = Ok a) <-> m = Ok tt.
Proof. destruct m as [[]| |]; split; try done; try (by intros []); by eexists. Qed.

Lemma map_err_Ok {E E' A} (f : E -> E') (m : outcome E A) : (exists a, map_err f m = Ok a) <-> exists a, m = Ok a.
Proof. destruct m; split; intros [x Hx]; try done; by eexists. Qed.

Lemma to_subject_iff g s : (exists x, to_subject g s = Ok x) <-> subject_ok g s.
Proof.
  unfold to_subject, subject_ok. destruct (decide _) as [->|Hne]; [split; [by left|by eexists]|].
  destruct (AuthKey.strip_prefix "node:" s) as [t|] eqn:En.
  - destruct (parse_uint _ t) as [id|] eqn:Ei; step; split; try (by eexists); try (intros _; right; left; by eexists _, _); intros H.
    + by destruct H.
    + destruct H as [?|[(t' & id & [= <-] & ?)|(name & Hg & _)]]; [done|congruence|].
      exfalso. clear -En Hg. destruct s as [|a s]; [done|]. cbn in En, Hg. repeat (case_decide; simplify_eq; try done).
  - destruct (AuthKey.strip_prefix "group:" s) as [nm|] eqn:Eg.
    + destruct (bool_decide (nm = _)) eqn:E1; [|destruct (bool_decide (g !! nm = None)) eqn:E2]; cbn [orb]; split; try (by intros []); try (by eexists).
      * apply bool_decide_eq_true in E1. intros [?|[(t & ? & ? & _)|(? & [= <-] & ? & _)]]; congruence.
      * apply bool_decide_eq_true in E2. intros [?|[(t & ? & ? & _)|(? & [= <-] & _ & [x Hx])]]; congruence.
      * apply bool_decide_eq_false in E1, E2. intros _. right. right. exists nm. split; [done|]. split; [done|]. by apply not_eq_None_Some.
    + split; [by intros []|]. intros [?|[(t & ? & ? & _)|(? & ? & _)]]; congruence.
Qed.

Lemma to_rule_iff g r : (exists x, to_rule g r = Ok x) <-> rule_ok g r.
Proof.
  unfold to_rule. split.
  - intros (x & (p & Hp & (ss & Hs & H)%bind_Ok_inv)%bind_Ok_inv).
    destruct (decide (ss = [])) as [|Hne]; [done|]. apply bind_Ok_inv in H as (a & Ha & _).
    assert (Hf : Forall (subject_ok g) (rc_subjects r)).
    { eapply list.Forall_impl; [exact (proj1 (collect_Ok (to_subject g) _) (ex_intro _ ss Hs))|]. intros y. apply to_subject_iff. }
    split; [| |done|].
    + by destruct (parse (rc_prefix r)); [eexists|..].
    + intros Hr. rewrite Hr in Hs. cbn in Hs. congruence.
    + destruct (decide (rc_action r = _)); [by left|]. destruct (decide (rc_action r = _)); [by right|done].
  - intros [[p Hp] Hne Hs Ha]. rewrite Hp. step.
    assert (exists ss, collect (to_subject g) (rc_subjects r) = Ok ss) as [ss Hss].
    { apply collect_Ok. eapply list.Forall_impl; [done|]. intros y. apply to_subject_iff. }
    rewrite Hss. step. destruct (decide (ss = [])) as [->|_].
    { destruct (rc_subjects r); [done|]. cbn in Hss. apply bind_Ok_inv in Hss as (? & _ & (? & _ & ?)%bind_Ok_inv). done. }
    destruct Ha as [-> | ->]; cbn; by eexists.
Qed.

Lemma to_policy_iff a : (exists p, to_policy a = Ok p) <-> Forall (rule_ok (ac_groups a)) (ac_rules a).
Proof.
  unfold to_policy. split.
  - intros (p & (rs & Hr & _)%bind_Ok_inv). eapply list.Forall_impl; [exact (proj1 (collect_Ok (to_rule _) _) (ex_intro _ rs Hr))|]. intros r. apply to_rule_iff.
  - intros H. assert (exists rs, collect (to_rule (ac_groups a)) (ac_rules a) = Ok rs) as [rs ->].
    { apply collect_Ok. eapply list.Forall_impl; [done|]. intros r. apply to_rule_iff. }
    step. by eexists.
Qed.

Lemma check_auth_keys_iff seg aks : check_auth_keys seg aks = Ok tt <-> Forall (key_ok seg) aks.
Proof.
  induction aks as [|ak aks IH]; cbn [check_auth_keys]; [by split|]. rewrite Forall_cons_iff, <- IH. unfold key_ok at 1.
  destruct (AuthKey.parse_auth_key (ak_key ak)) as [[[net x] s]|e|]; step; [|split; [done|by intros [[(? & ? & ?) _] _]]..].
  rewrite !guard_Ok. split.
  - intros (Hn & Hp & ->). destruct (decide (net = seg)) as [->|]; [|done]. split; [|done]. split; [eauto|].
    destruct (decide (ak_policy ak = "onetime"%string)); [by left|]. destruct (decide (ak_policy ak = "reusable"%string)); [by right|tauto].
  - intros [[(? & ? & [= -> _ _]) Hp] ->]. split; [tauto|]. split; [|done]. intros [? ?]. by destruct Hp.
Qed.

Lemma check_prefixes_iff ws : check_prefixes ws = Ok tt <-> Forall (fun w => exists p, parse w = Ok p) ws.
Proof.
  induction ws as [|w ws IH]; cbn [check_prefixes]; [by split|]. by rewrite Forall_cons_iff, <- IH, then_Ok, map_err_Ok.
Qed.

Lemma size_nodup (l : list Z) : length l = size (list_to_set l : gset Z) <-> NoDup l.
Proof.
  split; [|intros H; by rewrite size_list_to_set].
  induction l as [|x l IH]; [constructor|]. cbn [list_to_set length]. intros H. destruct (decide (x ∈ l)) as [Hin|Hin].
  - exfalso. assert (E : {[x]} ∪ list_to_set l = (list_to_set l : gset Z)) by set_solver. rewrite E in H.
    assert (size (list_to_set l : gset Z) <= length l)%nat; [|lia]. clear. induction l as [|y l IH]; cbn; [by rewrite size_empty|].
    rewrite size_union_alt, size_singleton. assert (size (list_to_set l ∖ {[y]} : gset Z) <= size (list_to_set l : gset Z))%nat by (apply subseteq_size; set_solver). lia.
  - rewrite size_union in H by set_solver. rewrite size_singleton in H. apply list.NoDup_cons. split; [done|]. apply IH. lia.
Qed.

Lemma check_network_iff n : AuthKey.validate_network (nc_name n) = Ok tt /\ check_network n = Ok tt <-> network_ok n.
Proof.
  unfold check_network. rewrite !then_Ok, guard_Ok, to_policy_iff, !unit_Ok.
  destruct (List.find _ (include _)) as [id|] eqn:Ef.
  - split; [by intros (? & ? & ? & ? & ? & ?)|]. intros [? ? ? ? ? Hd ?]. apply find_Some_elem in Ef as [Hi Hx].
    apply bool_decide_eq_true in Hx. by destruct (Hd id).
  - assert (Hd : forall id, id ∈ include (nc_relay n) -> id ∉ exclude (nc_relay n)).
    { intros id Hi. rewrite find_None in Ef. specialize (Ef id Hi). by apply bool_decide_eq_false in Ef. }
    rewrite guard_Ok. split.
    + intros (H1 & H2 & H3 & H4 & H5 & H6 & _). split; try done; [by apply check_auth_keys_iff|by apply check_prefixes_iff|].
      apply size_nodup. destruct (decide (length (nc_exits n) = size (list_to_set (nc_exits n) : gset Z))); tauto.
    + intros [H1 H2 H3 H4 H5 H6 H7]. apply check_auth_keys_iff in H2. apply check_prefixes_iff in H3. apply size_nodup in H7.
      split_and!; try done. tauto.
Qed.

Lemma check_networks_iff ns : forall names ids, check_networks names ids ns = Ok tt <->
  Forall network_ok ns /\ NoDup (nc_name <$> ns) /\ NoDup ((network_id_for ∘ nc_name) <$> ns) /\
  (forall n, n ∈ ns -> (nc_name n ∉ names) /\ (network_id_for (nc_name n) ∉ ids)).
Proof.
  induction ns as [|n ns IH]; intros names ids; cbn [check_networks].
  { split; [|done]. intros _. split_and!; try constructor; by apply elem_of_nil in H. }
  rewrite then_Ok, !guard_Ok, then_Ok, IH, map_err_Ok, !fmap_cons, !list.NoDup_cons, Forall_cons_iff, <- check_network_iff. cbn [compose].
  rewrite !list_elem_of_fmap. split.
  - intros ([[] Hv] & Hnm & Hid & [[] Hc] & Hf & Hn1 & Hn2 & Ho). split_and!; try done.
    + intros (m & Hm & Hin). destruct (Ho m Hin) as [H1 _]. set_solver.
    + intros (m & Hm & Hin). destruct (Ho m Hin) as [_ H1]. cbn in Hm. set_solver.
    + intros m [->|Hm]%elem_of_cons; [done|]. destruct (Ho m Hm). set_solver.
  - intros ([[Hv Hc] Hf] & [Hn1 Hn1'] & [Hn2 Hn2'] & Ho). destruct (Ho n (list_elem_of_here _ _)) as [H1 H2].
    split_and!; try done; try (by exists tt). intros m Hm. destruct (Ho m (list_elem_of_further _ _ _ Hm)) as [H3 H4]. split.
    + rewrite elem_of_union, elem_of_singleton. intros [E|?]; [|done]. destruct Hn1. by exists m.
    + rewrite elem_of_union, elem_of_singleton. intros [E|?]; [|done]. destruct Hn2. by exists m.
Qed.

Lemma check_member_addr_iff a : check_member_addr a = Ok tt <-> member_addr_ok a.
Proof.
  unfold check_member_addr, member_addr_ok. destruct (rsplit_once ":" a) as [[h p]|]; step; [|split; [done|by intros (? & ? & ? & ? & _)]].
  destruct (parse_uint 65535 p) as [x|] eqn:E; step; split; try done; [by exists h, p, x|]. intros (? & ? & y & [= <- <-] & Hy). congruence.
Qed.

Lemma check_members_iff ms : forall seen, check_members seen ms = Ok tt <->
  Forall (fun m => member_addr_ok (m_addr m) /\ member_addr_ok (m_advertise m)) ms /\ NoDup (m_id <$> ms) /\ (forall m, m ∈ ms -> m_id m ∉ seen).
Proof.
  induction ms as [|m ms IH]; intros seen; cbn [check_members].
  { split; [|done]. intros _. split_and!; try constructor. by intros m ?%elem_of_nil. }
  rewrite guard_Ok, !then_Ok, IH, fmap_cons, list.NoDup_cons, Forall_cons_iff, <- !check_member_addr_iff.
  rewrite !unit_Ok, list_elem_of_fmap. split.
  - intros (Hs & Ha & Hb & Hf & Hn & Ho). split_and!; try done.
    + intros (x & Hx & Hin). specialize (Ho x Hin). set_solver.
    + intros x [->|Hx]%elem_of_cons; [done|]. specialize (Ho x Hx). set_solver.
  - intros ([[Ha Hb] Hf] & [Hn Hn'] & Ho). split_and!; try done; [apply Ho; left|].
    intros x Hx. rewrite elem_of_union, elem_of_singleton. intros [E|E]; [destruct Hn; by exists x|]. by apply (Ho x (list_elem_of_further _ _ _ Hx)).
Qed.

Lemma validate_cluster_iff c : validate_cluster c = Ok tt <-> cluster_ok c.
Proof.
  unfold validate_cluster. rewrite then_Ok, guard_Ok, then_Ok, guard_Ok, test_Ok, ok_or_Ok. split.
  - intros (Hl & Hn & [[] Hm] & Hs & Hb & _). apply check_members_iff in Hm as (Hf & Hd & _). split; try done.
    destruct (decide (cl_node_id c ∈ m_id <$> members c)); tauto.
  - intros [Hl Hf Hd Hs Hb]. split_and!; try done; [by intros E; rewrite E in Hs; apply elem_of_nil in Hs| |tauto].
    exists tt. apply check_members_iff. split_and!; try done; set_solver.
Qed.

Lemma validate_iff (c : CoordConfig) : validate c = Ok tt <-> config_ok c.
Proof.
  unfold validate. rewrite then_Ok, guard_Ok, then_Ok, test_Ok, !then_Ok, ok_or_Ok.
  rewrite !unit_Ok. split.
  - intros (H1 & H2 & H3 & H4 & H5 & H6 & H7). apply check_networks_iff in H3 as (H3 & Hn & Hi & _). split; try done.
    + intros p E. by rewrite E in H4.
    + intros a E. rewrite E, then_Ok, ok_or_Ok in H5. by destruct H5.
    + intros cl E. rewrite E, guard_Ok, validate_cluster_iff in H6. done.
    + intros s E. rewrite E, !then_Ok, ok_or_Ok, map_err_Ok in H7. by destruct H7 as (? & ? & _).
  - intros [H1 H2 H3 H4 H5 H6 H7 H8 H9]. split_and!; try done.
    + apply check_networks_iff. split_and!; try done; set_solver.
    + destruct (storage_path c); [by apply H6|done].
    + destruct (udp_listen_addr c) as [a|]; [|done]. rewrite then_Ok, ok_or_Ok. split; [by apply H7|done].
    + destruct (cluster c) as [cl|]; [|done]. rewrite guard_Ok, validate_cluster_iff. by apply H8.
    + destruct (status c) as [s|]; [|done]. rewrite !then_Ok, ok_or_Ok, map_err_Ok. destruct (H9 s eq_refl). split_and!; done.
Qed.

(** A configuration is accepted exactly when it is in order: addresses that parse,
    networks with different names and different identifiers, keys that carry the name
    of their network and a known policy, prefixes and access rules that parse and name
    groups that exist, relays not both demanded and excluded, members of the cluster
    each once with the replica among them, and a password hash of sufficient strength. *)
Theorem config_accepted (c : CoordConfig) : validate c = Ok tt <-> config_ok c.
Proof. apply validate_iff. Qed.

(** ** What applying it does *)

Definition config_keys (m : gmap string Registry.AuthKeySpec) (aks : list AuthKeyConfig) : gmap string Registry.AuthKeySpec :=
  foldl (fun m ak => <[ak_key ak := key_spec ak]> m) m aks.

(** The domain of a network after its section was applied: the keys are those of the
    section that were not used up, the policy, the prefixes and the lists are the
    section's, and everything else is as before. *)
Record configured (n : NetworkConfig) (d d' : NetworkDomain) : Prop := {
  cd_keys : forall k, Registry.auth_keys (registry d') !! k =
    if decide (k ∈ Registry.consumed_one_time (registry d)) then None else config_keys ∅ (nc_auth_keys n) !! k;
  cd_nodes : Registry.entries (registry d') = Registry.entries (registry d) /\ Registry.pubkeys (registry d') = Registry.pubkeys (registry d) /\
    Registry.consumed_one_time (registry d') = Registry.consumed_one_time (registry d);
  cd_whitelist : Forall2 (fun w p => parse w = Ok p) (nc_announce_whitelist n) (Registry.announce_whitelist (registry d'));
  cd_acl : to_policy (nc_acl n) = Ok (acl d');
  cd_relay : relay_cfg d' = nc_relay n;
  cd_exits : exit_allow d' = list_to_set (nc_exits n);
  cd_rest : name d' = name d /\ network_id d' = network_id d /\ keys d' = keys d /\ paths d' = paths d /\ roster d' = roster d /\ route_map d' = route_map d
}.

Lemma by_name_on_name c nm nm' f : (forall d, name (f d) = name d) ->
  domain_by_name (on_name nm f c) nm' = if decide (nm' = nm) then f <$> domain_by_name c nm' else domain_by_name c nm'.
Proof.
  intros Hf. unfold domain_by_name, on_name. cbn [domains set_domains]. induction (domains c) as [|d l IH]; cbn [List.find update_first]; [by case_decide|].
  assert (Hb : forall x y, by_name x y = bool_decide (name y = x)) by done. rewrite (Hb nm d).
  destruct (decide (name d = nm)) as [E|E]; [rewrite bool_decide_true by done|rewrite bool_decide_false by done]; cbn [List.find]; rewrite !Hb, ?Hf.
  - destruct (decide (nm' = nm)) as [->|Hne]; [by rewrite bool_decide_true|]. by rewrite bool_decide_false by congruence.
  - destruct (decide (name d = nm')) as [E'|E']; [rewrite bool_decide_true by done|rewrite bool_decide_false by done; apply IH].
    by rewrite decide_False by congruence.
Qed.

Lemma config_keys_over m aks k : config_keys m aks !! k = match config_keys ∅ aks !! k with Some x => Some x | None => m !! k end.
Proof.
  unfold config_keys. induction aks as [|ak aks IH] using rev_ind; cbn; [by rewrite lookup_empty|]. rewrite !foldl_snoc.
  destruct (decide (ak_key ak = k)) as [->|Hne]; [by rewrite !lookup_insert_eq|]. by rewrite !lookup_insert_ne.
Qed.

Lemma config_keys_in aks k : is_Some (config_keys ∅ aks !! k) <-> existsb (fun ak => bool_decide (ak_key ak = k)) aks = true.
Proof.
  unfold config_keys. induction aks as [|ak aks IH] using rev_ind; cbn; [rewrite lookup_empty; by split; [intros []|]|].
  rewrite foldl_snoc, existsb_app. cbn. destruct (decide (ak_key ak = k)) as [->|Hne].
  - rewrite lookup_insert_eq, bool_decide_true by done. cbn. rewrite orb_true_r. by split; [|eauto].
  - by rewrite lookup_insert_ne, bool_decide_false, !orb_false_r by done.
Qed.

Definition add_key_in (d : NetworkDomain) (ak : AuthKeyConfig) : NetworkDomain :=
  set_registry d (Registry.add_auth_key_spec (registry d) (ak_key ak) (key_spec ak)).
Definition drop_key_in (aks : list AuthKeyConfig) (d : NetworkDomain) (k : string) : NetworkDomain :=
  if existsb (fun ak => bool_decide (ak_key ak = k)) aks then d else set_registry d (Registry.remove_auth_key (registry d) k).

(** A domain that differs in its keys only. *)
Record keys_only (d d' : NetworkDomain) : Prop := {
  ko_entries : Registry.entries (registry d') = Registry.entries (registry d);
  ko_pubkeys : Registry.pubkeys (registry d') = Registry.pubkeys (registry d);
  ko_consumed : Registry.consumed_one_time (registry d') = Registry.consumed_one_time (registry d);
  ko_rest : name d' = name d /\ network_id d' = network_id d /\ keys d' = keys d /\ paths d' = paths d /\ roster d' = roster d /\ route_map d' = route_map d
}.

#[export] Instance keys_only_po : PreOrder keys_only.
Proof.
  split; [by intros d|]. intros d1 d2 d3 [? ? ? (? & ? & ? & ? & ? & ?)] [? ? ? (? & ? & ? & ? & ? & ?)]. split; try congruence. split_and!; congruence.
Qed.

Lemma keys_only_fold {A} (f : NetworkDomain -> A -> NetworkDomain) l : (forall d x, keys_only d (f d x)) -> forall d, keys_only d (foldl f d l).
Proof. intros Hf. induction l as [|x l IH]; intros d; cbn; [done|]. etrans; [apply Hf|apply IH]. Qed.

Lemma add_key_only d ak : keys_only d (add_key_in d ak).
Proof. unfold add_key_in, Registry.add_auth_key_spec. by case_decide. Qed.

Lemma drop_key_only aks d k : keys_only d (drop_key_in aks d k).
Proof. unfold drop_key_in. by destruct (existsb _ _). Qed.

Lemma added_keys aks k : forall d m, Registry.auth_keys (registry d) !! k = m !! k ->
  Registry.auth_keys (registry (foldl add_key_in d aks)) !! k =
    if decide (k ∈ Registry.consumed_one_time (registry d)) then m !! k else config_keys m aks !! k.
Proof.
  unfold config_keys. induction aks as [|ak aks IH]; intros d m Hm; cbn [foldl]; [by case_decide|].
  rewrite <- (ko_consumed _ _ (add_key_only d ak)).
  destruct (decide (k ∈ Registry.consumed_one_time (registry (add_key_in d ak)))) as [Hk|Hk].
  - assert (E : Registry.auth_keys (registry (add_key_in d ak)) !! k = m !! k).
    { rewrite (ko_consumed _ _ (add_key_only d ak)) in Hk. rewrite <- Hm. unfold add_key_in, Registry.add_auth_key_spec.
      case_decide; [done|]. cbn. rewrite lookup_insert_ne; [done|congruence]. }
    by rewrite (IH _ m E), decide_True.
  - rewrite (IH _ (<[ak_key ak := key_spec ak]> m)), decide_False; try done.
    rewrite (ko_consumed _ _ (add_key_only d ak)) in Hk. unfold add_key_in, Registry.add_auth_key_spec.
    destruct (decide (ak_key ak = k)) as [E|E].
    + rewrite E, decide_False by done. cbn. by rewrite !lookup_insert_eq.
    + rewrite lookup_insert_ne by done. case_decide; [done|]. cbn. by rewrite lookup_insert_ne.
Qed.

Lemma dropped_keys aks k l : forall d, Registry.auth_keys (registry (foldl (drop_key_in aks) d l)) !! k =
  if decide (k ∈ l /\ config_keys ∅ aks !! k = None) then None else Registry.auth_keys (registry d) !! k.
Proof.
  induction l as [|x l IH]; intros d; cbn [foldl]; [rewrite decide_False; [done|]; by intros [?%elem_of_nil _]|].
  rewrite IH. unfold drop_key_in. destruct (existsb _ aks) eqn:Ex.
  - apply config_keys_in in Ex. apply decide_ext. rewrite elem_of_cons. split; [tauto|]. intros [[->|?] Hn]; [rewrite Hn in Ex; by destruct Ex|done].
  - assert (Hx : config_keys ∅ aks !! x = None) by (apply eq_None_not_Some; rewrite config_keys_in; congruence). cbn.
    destruct (decide (k = x)) as [->|Hne].
    + rewrite lookup_delete_eq. rewrite (decide_True (P := x ∈ x :: l /\ _)) by (split; [left|done]). by case_decide.
    + rewrite lookup_delete_ne by done. apply decide_ext. rewrite elem_of_cons. tauto.
Qed.

Lemma add_keys_by_name nm nm' aks : forall c, Forall (key_ok nm) aks ->
  domain_by_name (foldl add_key c aks) nm' =
    if decide (nm' = nm) then (fun d => foldl add_key_in d aks) <$> domain_by_name c nm' else domain_by_name c nm'.
Proof.
  induction aks as [|ak aks IH]; intros c; cbn [foldl]; [intros _; case_decide; [|done]; by destruct (domain_by_name c nm')|].
  rewrite Forall_cons_iff. intros [[(x & s & Hk) _] Hf]. rewrite IH by done.
  assert (E : domain_by_name (add_key c ak) nm' = if decide (nm' = nm) then (fun d => add_key_in d ak) <$> domain_by_name c nm' else domain_by_name c nm').
  { unfold add_key, add_auth_key_spec. rewrite Hk. destruct (domain_by_name c nm) as [d|] eqn:Ed; cbn [snd]; [by apply by_name_on_name|].
    case_decide; [|done]. subst. by rewrite Ed. }
  rewrite E. case_decide; [|done]. by destruct (domain_by_name c nm').
Qed.

Lemma drop_keys_by_name nm nm' aks l : forall c, Forall (fun k => exists x s, AuthKey.parse_auth_key k = Ok (nm, x, s)) l ->
  domain_by_name (foldl (drop_key aks) c l) nm' =
    if decide (nm' = nm) then (fun d => foldl (drop_key_in aks) d l) <$> domain_by_name c nm' else domain_by_name c nm'.
Proof.
  induction l as [|k l IH]; intros c; cbn [foldl]; [intros _; case_decide; [|done]; by destruct (domain_by_name c nm')|].
  rewrite Forall_cons_iff. intros [(x & s & Hk) Hf]. rewrite IH by done.
  assert (E : domain_by_name (drop_key aks c k) nm' = if decide (nm' = nm) then (fun d => drop_key_in aks d k) <$> domain_by_name c nm' else domain_by_name c nm').
  { unfold drop_key, drop_key_in. destruct (existsb _ aks); [case_decide; [|done]; by destruct (domain_by_name c nm')|].
    unfold remove_auth_key. rewrite Hk. by apply by_name_on_name. }
  rewrite E. case_decide; [|done]. by destruct (domain_by_name c nm').
Qed.

Lemma add_keys_inv aks : forall c, inv c -> inv (foldl add_key c aks).
Proof. induction aks as [|ak aks IH]; intros c Hc; cbn; [done|]. by apply IH, inv_add_auth_key. Qed.

Lemma drop_keys_inv aks l : forall c, inv c -> inv (foldl (drop_key aks) c l).
Proof. induction l as [|k l IH]; intros c Hc; cbn; [done|]. apply IH. unfold drop_key. destruct (existsb _ _); [done|]. by apply inv_remove_auth_key. Qed.

(** The keys of a network are its own, so the removals stay in its domain. *)
Lemma key_list_own c nm : inv c -> Forall (fun k => exists x s, AuthKey.parse_auth_key k = Ok (nm, x, s)) (auth_key_list_for c nm).
Proof.
  intros Hc. unfold auth_key_list_for. destruct (domain_by_name c nm) as [d|] eqn:Ed; [|constructor].
  apply find_by_name in Ed as [Hd <-]. apply list.Forall_forall. intros k ((k' & s) & -> & Hin)%list_elem_of_fmap.
  apply elem_of_map_to_list in Hin. apply (do_keys _ _ (in_domains c Hc d Hd)). left. by exists s.
Qed.

Section Applied.
Context `{W : HashOrder}.

Definition final (n : NetworkConfig) (wl : list Prefix) (p : Acl.AclPolicy) (d : NetworkDomain) : NetworkDomain :=
  let d := foldl add_key_in d (nc_auth_keys n) in
  let d := foldl (drop_key_in (nc_auth_keys n)) d (map_to_list (Registry.auth_keys (registry d))).*1 in
  set_exits (set_relay_cfg (set_acl (set_registry d (Registry.set_announce_whitelist (registry d) wl)) p) (nc_relay n)) (list_to_set (nc_exits n)).

Lemma final_configured n wl p d : Registry.wf (registry d) -> Forall2 (fun w p => parse w = Ok p) (nc_announce_whitelist n) wl ->
  to_policy (nc_acl n) = Ok p -> configured n d (final n wl p d).
Proof.
  intros Hwf Hw Hp. unfold final. cbv zeta. set (d1 := foldl add_key_in d (nc_auth_keys n)).
  set (d2 := foldl (drop_key_in (nc_auth_keys n)) d1 (map_to_list (Registry.auth_keys (registry d1))).*1).
  assert (Ho : keys_only d d2).
  { etrans; [apply (keys_only_fold add_key_in), add_key_only|apply (keys_only_fold (drop_key_in _)), drop_key_only]. }
  split; cbn; try done; [|by destruct Ho|by destruct Ho].
  intros k. unfold d2. rewrite dropped_keys.
  assert (E : forall k, k ∈ (map_to_list (Registry.auth_keys (registry d1))).*1 <-> is_Some (Registry.auth_keys (registry d1) !! k)).
  { intros k'. rewrite list_elem_of_fmap. split; [intros ((? & x) & -> & ?%elem_of_map_to_list); by exists x|].
    intros [x Hx]. exists (k', x). by rewrite elem_of_map_to_list. }
  pose proof (added_keys (nc_auth_keys n) k d (Registry.auth_keys (registry d)) eq_refl) as Ha. fold d1 in Ha.
  destruct (decide (k ∈ Registry.consumed_one_time (registry d))) as [Hk|Hk].
  - rewrite (Registry.wf_consumed _ Hwf k Hk) in Ha. rewrite Ha. by case_decide.
  - rewrite config_keys_over in Ha. destruct (config_keys ∅ (nc_auth_keys n) !! k) as [s|] eqn:Ek.
    + by rewrite decide_False by (by intros []).
    + destruct (decide _) as [|Hn]; [done|]. rewrite E in Hn. apply eq_None_not_Some. intros Hs. by destruct Hn.
Qed.

Lemma collect_expect ws : Forall (fun w => exists p, parse w = Ok p) ws ->
  exists ps, collect (fun w => expect (parse w)) ws = Ok ps /\ Forall2 (fun w p => parse w = Ok p) ws ps /\ Forall prefix_ok ps.
Proof.
  induction ws as [|w ws IH]; [exists []; by split_and!|]. rewrite Forall_cons_iff. intros [[p Hp] Hf]. destruct (IH Hf) as (ps & E & H2 & H3).
  exists (p :: ps). cbn. rewrite Hp. cbn. rewrite E. split_and!; [done|by constructor|]. constructor; [|done]. by eapply parse_ok.
Qed.

Lemma by_name_acl c nm nm' p :
  domain_by_name (set_acl_policy c nm p) nm' = if decide (nm' = nm) then (fun d => set_acl d p) <$> domain_by_name c nm' else domain_by_name c nm'.
Proof.
  unfold set_acl_policy. destruct (domain_by_name c nm) as [d|] eqn:E; [by apply (by_name_on_name c nm nm')|].
  case_decide; [|done]. subst. by rewrite E.
Qed.

Lemma by_name_exits c nm nm' l : domain_by_name (set_exit_allow c nm l) nm' =
  if decide (nm' = nm) then (fun d => set_exits d (list_to_set l)) <$> domain_by_name c nm' else domain_by_name c nm'.
Proof.
  unfold set_exit_allow. destruct (domain_by_name c nm) as [d|] eqn:E; [|case_decide; [subst; by rewrite E|done]].
  cbv zeta. destruct (negb _); by apply (by_name_on_name c nm nm').
Qed.

Lemma apply_network_spec c n : network_ok n -> inv c -> exists c' wl p, apply_network c n = Ok c' /\ inv c' /\
  Forall2 (fun w p => parse w = Ok p) (nc_announce_whitelist n) wl /\ to_policy (nc_acl n) = Ok p /\
  forall nm, domain_by_name c' nm = if decide (nm = nc_name n) then final n wl p <$> domain_by_name c nm else domain_by_name c nm.
Proof.
  intros Hn Hc. unfold apply_network. cbv zeta. set (c1 := foldl add_key c (nc_auth_keys n)).
  set (c2 := foldl (drop_key (nc_auth_keys n)) c1 (auth_key_list_for c1 (nc_name n))).
  destruct (collect_expect _ (nk_whitelist n Hn)) as (wl & -> & Hw & Hwo). destruct (proj2 (to_policy_iff (nc_acl n)) (nk_acl n Hn)) as [p Hp].
  step. rewrite Hp. cbn [expect]. step. eexists _, wl, p. split; [reflexivity|].
  assert (H1 : inv c1) by by apply add_keys_inv. assert (H2 : inv c2) by by apply drop_keys_inv.
  assert (H3 : inv (set_announce_whitelist c2 (nc_name n) wl)) by by apply inv_whitelist.
  split_and!; try done.
  - unfold set_exit_allow. set (c3 := set_acl_policy (set_announce_whitelist c2 (nc_name n) wl) (nc_name n) p).
    assert (H4 : inv c3).
    { unfold c3, set_acl_policy. destruct (domain_by_name _ _); [|done].
      eapply (inv_same (on_name (nc_name n) (fun d => set_acl d p) (set_announce_whitelist c2 (nc_name n) wl))); [done..|]. by apply inv_cosmetic. }
    assert (H5 : inv (set_relay_constraints c3 (nc_name n) (nc_relay n))) by by apply inv_cosmetic.
    destruct (domain_by_name _ _); [|done].
    assert (H6 : inv (on_name (nc_name n) (fun d => set_exits d (list_to_set (nc_exits n))) (set_relay_constraints c3 (nc_name n) (nc_relay n)))) by by apply inv_cosmetic.
    destruct (negb _); [|done]. by eapply inv_same; [..|exact H6].
  - intros nm. pose proof (add_keys_by_name (nc_name n) nm (nc_auth_keys n) c (nk_keys n Hn)) as E1. fold c1 in E1.
    pose proof (drop_keys_by_name (nc_name n) nm (nc_auth_keys n) (auth_key_list_for c1 (nc_name n)) c1 (key_list_own c1 _ H1)) as E2. fold c2 in E2.
    rewrite by_name_exits. unfold set_relay_constraints. rewrite by_name_on_name, by_name_acl by done. unfold set_announce_whitelist.
    rewrite by_name_on_name, E2, E1 by done. destruct (decide (nm = nc_name n)) as [->|]; [|done].
    assert (Hl : auth_key_list_for c1 (nc_name n) = match domain_by_name c1 (nc_name n) with
      | Some d => (map_to_list (Registry.auth_keys (registry d))).*1 | None => [] end) by done.
    rewrite Hl, E1. by destruct (domain_by_name c (nc_name n)).
Qed.

Lemma apply_networks_spec ns : forall c, Forall network_ok ns -> NoDup (nc_name <$> ns) -> inv c ->
  exists c', apply_networks c ns = Ok c' /\ inv c' /\
  (forall n d, n ∈ ns -> domain_by_name c (nc_name n) = Some d -> exists d', domain_by_name c' (nc_name n) = Some d' /\ configured n d d') /\
  (forall nm, nm ∉ nc_name <$> ns \/ domain_by_name c nm = None -> domain_by_name c' nm = domain_by_name c nm).
Proof.
  induction ns as [|n ns IH]; intros c Hf Hn Hc; cbn [apply_networks]; [exists c; split_and!; try done; by intros ? ? ?%elem_of_nil|].
  apply Forall_cons_iff in Hf as [Hnet Hf]. rewrite fmap_cons in Hn. apply list.NoDup_cons in Hn as [Hout Hn].
  destruct (apply_network_spec c n Hnet Hc) as (c1 & wl & p & -> & Hc1 & Hw & Hp & Hd). step.
  destruct (IH c1 Hf Hn Hc1) as (c' & Ha & Hc' & Hin & Hrest). exists c'. split; [done|]. split; [done|]. split.
  - intros m d [->|Hm]%elem_of_cons Hdom.
    + exists (final n wl p d). rewrite Hrest by by left. rewrite Hd, decide_True, Hdom by done. split; [done|].
      apply final_configured; [|done..]. apply find_by_name in Hdom as [Hdom _]. apply (in_domains c Hc d Hdom).
    + apply Hin; [done|]. rewrite Hd, decide_False; [done|]. intros E. destruct Hout. rewrite <- E. by apply list_elem_of_fmap_2.
  - intros nm Hnm. rewrite Hrest; rewrite Hd.
    + destruct (decide (nm = nc_name n)) as [->|]; [|done]. destruct Hnm as [Hnm| ->]; [|done]. destruct Hnm. left.
    + destruct Hnm as [Hnm|Hnm]; [left; intros ?; apply Hnm; by right|right; rewrite Hnm; by case_decide].
Qed.

(** An accepted configuration is applied to a running coordinator without a
    failure, whatever the coordinator has served: each network it names that the
    coordinator serves has afterwards exactly the keys of its section but those used
    up, and the whitelist, policy, relay constraints and exits of the section, and
    keeps its nodes, keys and paths; a network that the configuration does not name,
    or that the coordinator does not serve, is as before. *)
Theorem config_applied (cfg : CoordConfig) (c : Coordinator) (Hv : validate cfg = Ok tt) (Hc : inv c) :
  exists c', apply_to cfg c = Ok c' /\ inv c' /\
  (forall n d, n ∈ networks cfg -> domain_by_name c (nc_name n) = Some d ->
     exists d', domain_by_name c' (nc_name n) = Some d' /\ configured n d d') /\
  (forall nm, nm ∉ nc_name <$> networks cfg \/ domain_by_name c nm = None -> domain_by_name c' nm = domain_by_name c nm).
Proof. apply validate_iff in Hv as [_ _ Hf Hn _ _ _ _ _]. by apply apply_networks_spec. Qed.

Lemma with_networks_spec ns : forall c, NoDup ((network_id_for ∘ nc_name) <$> ns) -> inv c ->
  (forall n, n ∈ ns -> (network_id_for (nc_name n) ∉ network_id <$> domains c)) -> inv (with_networks ns c) /\
  domains (with_networks ns c) = domains c ++ ((fun n => domain_new (nc_name n) (network_id_for (nc_name n)) (nc_master_key n)) <$> ns).
Proof.
  unfold with_networks. induction ns as [|n ns IH]; intros c Hn Hc Hout; cbn [foldl]; [by rewrite app_nil_r|].
  rewrite fmap_cons in Hn. apply list.NoDup_cons in Hn as [Hni Hn].
  destruct (IH (add_network c (nc_name n) (nc_master_key n)).2 Hn) as [Hi Hd].
  - apply inv_add_network; [apply Hout; left|done].
  - intros m Hm. cbn [add_network snd domains set_domains]. rewrite fmap_app, elem_of_app. intros [H|H]; [by apply (Hout m); [right|]|].
    apply list_elem_of_singleton in H. destruct Hni. apply list_elem_of_fmap. exists m. by split.
  - split; [done|]. rewrite Hd. cbn. by rewrite <- app_assoc.
Qed.

Lemma admissible_iff c k now : inv c -> auth_key_admissible c k now = true <-> exists nm x s d,
  AuthKey.parse_auth_key k = Ok (nm, x, s) /\ (x = 0 \/ now <= x) /\ domain_by_name c nm = Some d /\ is_Some (Registry.auth_keys (registry d) !! k).
Proof.
  intros Hc. unfold auth_key_admissible. destruct (AuthKey.parse_auth_key k) as [[[nm x] s]|e|]; [|split; [done|by intros (? & ? & ? & ? & ? & _)]..].
  destruct (bool_decide (x <> 0) && bool_decide (now > x)) eqn:Ex.
  - apply andb_true_iff in Ex as [E1%bool_decide_eq_true E2%bool_decide_eq_true]. split; [done|].
    intros (? & ? & ? & ? & [= <- <- <-] & [?|?] & _); lia.
  - assert (Hx : x = 0 \/ now <= x).
    { apply andb_false_iff in Ex as [E%bool_decide_eq_false|E%bool_decide_eq_false]; lia. }
    rewrite existsb_exists. split.
    + intros (d & Hd%list_elem_of_In & [Hb Hk]%andb_true_iff). apply bool_decide_eq_true in Hb, Hk. subst nm.
      exists (name d), x, s, d. split_and!; try done. by apply by_name_elem.
    + intros (? & ? & ? & d & [= <- <- <-] & _ & Hd & Hk). apply find_by_name in Hd as [Hd Hnm]. exists d. split; [by apply list_elem_of_In|].
      apply andb_true_iff. split; [by apply bool_decide_eq_true|]. by apply bool_decide_eq_true.
Qed.

(** A coordinator without a store starts from every accepted configuration, and
    what it lets in is what the configuration says: a key is good for registering
    exactly when it stands in the section of the network it names and has not
    expired. *)
Theorem config_starts (cfg : CoordConfig) (Hv : validate cfg = Ok tt) : exists c, from_config cfg = Ok c /\ inv c /\
  forall k now, auth_key_admissible c k now = true <->
    exists n ak x s, n ∈ networks cfg /\ ak ∈ nc_auth_keys n /\ ak_key ak = k /\
      AuthKey.parse_auth_key k = Ok (nc_name n, x, s) /\ (x = 0 \/ now <= x).
Proof.
  apply validate_iff in Hv as [_ _ Hf Hn Hi _ _ _ _].
  destruct (with_networks_spec (networks cfg) new Hi inv_new) as [H0 Hd]; [by intros ? _ ?%elem_of_nil|].
  destruct (apply_networks_spec (networks cfg) _ Hf Hn H0) as (c & Ha & Hc & Hin & Hout). exists c. split; [done|]. split; [done|].
  assert (Hnew : forall n, n ∈ networks cfg -> domain_by_name (with_networks (networks cfg) new) (nc_name n)
    = Some (domain_new (nc_name n) (network_id_for (nc_name n)) (nc_master_key n))).
  { intros n Hn'. set (d := domain_new _ _ _). change (nc_name n) with (name d). apply by_name_elem; [done|]. rewrite Hd. cbn. by apply list_elem_of_fmap_2'  with n. }
  intros k now. rewrite admissible_iff by done. split.
  - intros (nm & x & s & d & Hk & Hx & Hdom & [sp Hsp]). destruct (decide (nm ∈ nc_name <$> networks cfg)) as [Hm|Hm].
    + apply list_elem_of_fmap in Hm as (n & -> & Hm). destruct (Hin n _ Hm (Hnew n Hm)) as (d' & Hd' & Hcd).
      assert (d' = d) as -> by congruence. rewrite (cd_keys _ _ _ Hcd) in Hsp. cbn in Hsp.
      assert (He : existsb (fun ak => bool_decide (ak_key ak = k)) (nc_auth_keys n) = true) by (apply config_keys_in; by exists sp).
      apply existsb_exists in He as (ak & Hak%list_elem_of_In & E%bool_decide_eq_true). by exists n, ak, x, s.
    + rewrite Hout in Hdom by by left. exfalso. apply find_by_name in Hdom as [Hdom <-]. rewrite Hd in Hdom. cbn in Hdom.
      apply list_elem_of_fmap in Hdom as (n & -> & Hm'). apply Hm. cbn. by apply list_elem_of_fmap_2.
  - intros (n & ak & x & s & Hm & Hak & E & Hk & Hx). destruct (Hin n _ Hm (Hnew n Hm)) as (d' & Hd' & Hcd).
    exists (nc_name n), x, s, d'. split_and!; try done. rewrite (cd_keys _ _ _ Hcd). cbn. apply config_keys_in, existsb_exists.
    exists ak. split; [by apply list_elem_of_In|by apply bool_decide_eq_true].
Qed.

End Applied.

(** ** Passwords *)

Lemma lor_fold l : forall a, foldl (fun acc '(x, y) => Z.lor acc (Z.lxor x y)) a l = 0 <-> a = 0 /\ Forall (fun p => p.1 = p.2) l.
Proof.
  induction l as [|[x y] l IH]; intros a; cbn; [by split; [|intros []]|]. rewrite IH, Z.lor_eq_0_iff, Z.lxor_eq_0_iff, Forall_cons_iff. cbn. tauto.
Qed.

Lemma constant_time_eq_spec a b : constant_time_eq a b = bool_decide (a = b).
Proof.
  unfold constant_time_eq. destruct (decide _) as [Hl|Hl]; [symmetry; apply bool_decide_eq_false; by intros ->|].
  apply bool_decide_ext. rewrite lor_fold. assert (E : length a = length b) by lia. clear Hl. split; [|intros ->; split; [done|]].
  - intros [_ Hf]. revert b E Hf. induction a as [|x a IH]; intros [|y b] E; try done. cbn. rewrite Forall_cons_iff. cbn. intros [-> Hf]. f_equal. apply IH; [|done]. by injection E.
  - clear. induction b as [|x b IH]; cbn; [constructor|]. by constructor.
Qed.

(** The block function of RFC 2898: the sum of the outputs [U_1] to [U_c]. *)
Section Rfc.
Context `{P : Crypto.Primitives}.

Definition rfc_output (password salt : list Z) (block : Z) (i : nat) : list Z :=
  Nat.iter i (Crypto.hmac password) (Crypto.hmac password (salt ++ be_bytes 4 block)).

Definition rfc_block (password salt : list Z) (c : nat) (block : Z) : list Z :=
  foldl xor_bytes (rfc_output password salt block 0) (rfc_output password salt block <$> seq 1 (c - 1)).

Lemma pbkdf2_block_rfc password salt it block : 1 <= it -> pbkdf2_block password salt it block = rfc_block password salt (Z.to_nat it) block.
Proof.
  intros Hit. unfold pbkdf2_block, rfc_block. replace (Z.to_nat (it - 1)) with (Z.to_nat it - 1)%nat by lia. generalize (Z.to_nat it - 1)%nat as k.
  assert (H : forall k i acc, pbkdf2_rounds password k (rfc_output password salt block i) acc = foldl xor_bytes acc (rfc_output password salt block <$> seq (S i) k)).
  { induction k as [|k IH]; intros i acc; [done|]. cbn [pbkdf2_rounds seq fmap list_fmap foldl].
    change (Crypto.hmac password (rfc_output password salt block i)) with (rfc_output password salt block (S i)). apply IH. }
  intros k. apply (H k 0%nat).
Qed.

(** The password is right exactly when the first 32 bytes that the standard derives
    from it, which are one block, are the stored ones. *)
Theorem password_verified (h : PasswordHash) (s : string) (p : string) (Hh : parse_password_hash s = Ok h)
    (Hl : forall k m, length (Crypto.hmac k m) = 32%nat) :
  verify_password h p = bool_decide (rfc_block (str_bytes p) (salt h) (Z.to_nat (iterations h)) 1 = hash h) /\
  PBKDF2_MIN_ITERATIONS <= iterations h /\ (PBKDF2_MIN_SALT <= length (salt h))%nat.
Proof.
  assert (Hw : PBKDF2_MIN_ITERATIONS <= iterations h /\ (PBKDF2_MIN_SALT <= length (salt h))%nat /\ length (hash h) = 32%nat).
  { unfold parse_password_hash in Hh. apply bind_Ok_inv in Hh as (rest & _ & Hh). destruct (split "$" rest) as [|it parts]; [done|].
    apply bind_Ok_inv in Hh as (n & _ & Hh). destruct parts as [|a [|b [|]]]; try done. apply bind_Ok_inv in Hh as (sa & _ & Hh).
    apply bind_Ok_inv in Hh as (ha & _ & Hh). repeat (case_decide; [done|]). injection Hh as <-. cbn. lia. }
  destruct Hw as (Hi & Hs & Hlen). split; [|done]. unfold verify_password. rewrite constant_time_eq_spec, Hlen. unfold pbkdf2_sha256.
  change (Z.of_nat <$> seq 1 ((32 + 31) / 32)) with [1]. cbn [fmap list_fmap mjoin list_join]. rewrite app_nil_r, pbkdf2_block_rfc by (unfold PBKDF2_MIN_ITERATIONS in Hi; lia).
  rewrite take_ge; [done|]. unfold rfc_block. revert Hl. generalize (seq 1 (Z.to_nat (iterations h) - 1)). clear. intros l Hl.
  assert (H0 : forall i, length (rfc_output (str_bytes p) (salt h) 1 i) = 32%nat) by (intros [|i]; apply Hl).
  assert (H : forall l acc, length acc = 32%nat -> length (foldl xor_bytes acc (rfc_output (str_bytes p) (salt h) 1 <$> l)) = 32%nat).
  { clear l. induction l as [|i l IH]; intros acc Ha; [done|]. cbn. apply IH. unfold xor_bytes. rewrite length_zip_with, H0. lia. }
  rewrite H by done. lia.
Qed.

End Rfc.

(** ** Concrete configurations *)

Definition sample_key (net : string) : string := "lrk-" +:+ net +:+ "-0-" +:+ "AAAAAAAAAAAAAAAAAAAAAAAAAAAAAAAAAAAAAAAAAAAAAAAAAAAA".

Definition sample_net : NetworkConfig :=
  mk_net_cfg "lab" (replicate 32 1) [mk_key_cfg (sample_key "lab") "onetime" None] ["10.0.0.0/8"]
    (mk_acl_cfg true {[ "ops" := [1; 2] ]} [mk_rule_cfg ["group:ops"; "node:7"] "10.1.0.0/16" "allow"]) (mk_relay_cfg [3] [4] 8) [5].

Definition sample_config : CoordConfig :=
  mk_config "0.0.0.0:8443" (replicate 32 2) (Some "/var/lib/rill.redb") None [sample_net] None
    (Some (mk_cluster 1 "0.0.0.0:8444" [mk_member 1 "c1:8444" "c1:8443"; mk_member 2 "c2:8444" "c2:8443"] "/ca.pem")).

Lemma config_applied_witness : validate sample_config = Ok tt /\
  exists c', apply_to sample_config (with_networks [sample_net] new) = Ok c' /\ inv c'.
Proof.
  assert (Hv : validate sample_config = Ok tt) by (vm_compute; reflexivity). split; [exact Hv|].
  assert (Hc : inv (with_networks [sample_net] new)).
  { apply (inv_add_network new "lab" (replicate 32 1)); [|exact inv_new]. apply (bool_decide_unpack _). vm_compute. exact I. }
  destruct (config_applied sample_config (with_networks [sample_net] new) Hv Hc) as (c' & H1 & H2 & _).
  exists c'. split; [exact H1|exact H2].
Defined.

Lemma config_starts_witness : exists c, from_config sample_config = Ok c /\ auth_key_admissible c (sample_key "lab") 1000 = true.
Proof.
  destruct (config_starts sample_config) as (c & H1 & _ & H2); [vm_compute; reflexivity|]. exists c. split; [exact H1|]. apply H2.
  exists sample_net, (mk_key_cfg (sample_key "lab") "onetime" None), 0, "AAAAAAAAAAAAAAAAAAAAAAAAAAAAAAAAAAAAAAAAAAAAAAAAAAAA".
  split; [left|]. split; [left|]. split; [reflexivity|]. split; [vm_compute; reflexivity|by left].
Defined.

(** Hexadecimal text with a character of two bytes in the wrong place makes the check
    of the configuration panic, where an error was meant; a sign passes for a digit and
    an odd last character is ignored. *)
Definition accented : ascii := "195"%char.

Lemma hash_text_panics :
  parse_password_hash ("pbkdf2-sha256$10000$a" +:+ String accented (String "169"%char "b$00")) = Panic.
Proof. vm_compute. reflexivity. Qed.

(** Text of single-byte characters makes nothing panic. *)
Definition plain_text (s : string) : Prop := Forall (fun c => code c < 128) (String.list_ascii_of_string s).

Lemma hex_pairs_safe : forall n l, (length l < n)%nat -> Forall (fun c => code c < 128) l -> safe (hex_pairs l).
Proof.
  induction n as [|n IH]; intros l Hn Hl; [lia|]. destruct l as [|a [|b l]]; [done..|]. cbn [hex_pairs]. apply Forall_cons_iff in Hl as [_ Hl]. apply Forall_cons_iff in Hl as [_ Hl].
  assert (Hb : at_boundary l = true).
  { destruct Hl as [|c l Hc _]; [done|]. cbn. unfold AuthKey.is_boundary. rewrite bool_decide_false; [done|]. lia. }
  rewrite Hb. cbn [negb]. apply bind_safe; [apply ok_or_safe|]. intros v _. apply bind_safe; [apply IH; [cbn in Hn; lia|done]|done].
Qed.

Lemma plain_strip p : forall s r, AuthKey.strip_prefix p s = Some r -> plain_text s -> plain_text r.
Proof.
  induction p as [|a p IH]; intros s r; cbn; [by intros [= <-]|]. destruct s as [|b s]; [done|]. destruct (decide (a = b)); [|done]. intros H Hs.
  apply (IH s r H). by apply Forall_cons_iff in Hs as [_ Hs].
Qed.

Lemma plain_split c s : plain_text s -> Forall plain_text (split c s).
Proof.
  induction s as [|a s IH]; cbn [split]; [intros _; repeat constructor|]. intros [Ha Hs]%Forall_cons_iff. specialize (IH Hs).
  destruct (split c s) as [|x l]; [done|]. apply Forall_cons_iff in IH as [Hx Hl]. destruct (decide _); repeat constructor; done.
Qed.

Lemma decode_part_safe s : plain_text s -> safe (decode_part s).
Proof.
  intros Hs. unfold decode_part. pose proof (hex_pairs_safe (S (length (String.list_ascii_of_string s))) (String.list_ascii_of_string s) ltac:(lia) Hs) as H.
  by destruct (hex_pairs _).
Qed.

Lemma parse_hash_safe s : plain_text s -> safe (parse_password_hash s).
Proof.
  intros Hs. unfold parse_password_hash. destruct (AuthKey.strip_prefix _ s) as [rest|] eqn:Er; [|done]. step.
  pose proof (plain_split "$" rest (plain_strip _ _ _ Er Hs)) as Hp. destruct (split "$" rest) as [|it parts]; [done|].
  apply bind_safe; [apply ok_or_safe|]. intros n _. apply Forall_cons_iff in Hp as [_ Hp]. destruct parts as [|a [|b [|]]]; try done.
  apply Forall_cons_iff in Hp as [Ha Hp]. apply Forall_cons_iff in Hp as [Hb _].
  apply bind_safe; [by apply decode_part_safe|]. intros x _. apply bind_safe; [by apply decode_part_safe|]. intros y _. by repeat case_decide.
Qed.

Lemma map_err_safe {E F A} (f : E -> F) (o : outcome E A) : safe o -> safe (map_err f o).
Proof. by destruct o. Qed.

Lemma prefix_safe x : safe (parse x).
Proof.
  unfold parse. destruct (split_once _ _) as [[a l]|]; [|done]. step. destruct (parse_uint _ _); [|done]. step.
  destruct (parse_ip _); [|done]. step. apply ok_or_safe.
Qed.

Lemma collect_safe {E A B} (f : A -> outcome E B) l : (forall x, safe (f x)) -> safe (collect f l).
Proof. intros Hf. induction l as [|x l IH]; [done|]. cbn. apply bind_safe; [done|]. intros y _. by apply bind_safe. Qed.

Lemma to_policy_safe a : safe (to_policy a).
Proof.
  unfold to_policy. apply bind_safe; [|done]. apply collect_safe. intros r. unfold to_rule. apply bind_safe; [apply map_err_safe, prefix_safe|]. intros p _.
  apply bind_safe; [apply collect_safe; intros x; unfold to_subject; repeat (case_match; try done); apply bind_safe; [apply ok_or_safe|done]|].
  intros l _. case_decide; [done|]. apply bind_safe; [by repeat case_decide|done].
Qed.

Lemma check_keys_safe seg aks : safe (check_auth_keys seg aks).
Proof.
  induction aks as [|ak aks IH]; [done|]. cbn. apply bind_safe; [apply map_err_safe, parse_auth_key_safe|]. intros [[net x] y] _. by repeat case_decide.
Qed.

Lemma check_networks_safe ns : forall names ids, safe (check_networks names ids ns).
Proof.
  induction ns as [|n ns IH]; intros names ids; [done|]. cbn. apply bind_safe; [apply map_err_safe; unfold AuthKey.validate_network; by destruct (_ || _)|]. intros _ _.
  case_decide; [done|]. case_decide; [done|]. apply bind_safe; [|by intros]. unfold check_network. apply bind_safe; [apply check_keys_safe|]. intros _ _.
  apply bind_safe; [|intros _ _; apply bind_safe; [apply to_policy_safe|]; intros _ _; case_decide; [done|]; destruct (List.find _ _); [done|]; by case_decide].
  induction (nc_announce_whitelist n) as [|w ws IHw]; [done|]. cbn. apply bind_safe; [apply map_err_safe, prefix_safe|by intros].
Qed.

Lemma check_members_safe ms : forall seen, safe (check_members seen ms).
Proof.
  assert (Ha : forall a, safe (check_member_addr a)).
  { intros a. unfold check_member_addr. apply bind_safe; [apply ok_or_safe|]. intros [x y] _. apply bind_safe; [apply ok_or_safe|done]. }
  induction ms as [|m ms IH]; intros seen; [done|]. cbn. case_decide; [done|]. apply bind_safe; [apply Ha|]. intros _ _. apply bind_safe; [apply Ha|]. intros _ _. apply IH.
Qed.

Lemma validate_cluster_safe c : safe (validate_cluster c).
Proof.
  unfold validate_cluster. apply bind_safe; [apply ok_or_safe|]. intros _ _. case_decide; [done|]. apply bind_safe; [apply check_members_safe|].
  intros _ _. by repeat case_match.
Qed.

Lemma validate_safe c : (forall s, status c = Some s -> plain_text (password_hash s)) -> safe (validate c).
Proof.
  intros Hs. unfold validate. apply bind_safe; [apply ok_or_safe|]. intros _ _. case_decide; [done|]. apply bind_safe; [apply check_networks_safe|]. intros _ _.
  destruct (match storage_path c with Some p => trim_is_empty p | None => false end); [done|].
  apply bind_safe; [destruct (udp_listen_addr c); [apply bind_safe; [apply ok_or_safe|done]|done]|]. intros _ _.
  apply bind_safe; [destruct (cluster c); [case_decide; [done|apply validate_cluster_safe]|done]|]. intros _ _.
  destruct (status c) as [s|]; [|done]. apply bind_safe; [apply ok_or_safe|]. intros _ _. apply bind_safe; [|done]. by apply map_err_safe, parse_hash_safe, Hs.
Qed.

Lemma sign_accepted : hex_pairs ["+"%char; "f"%char] = Ok [15].
Proof. reflexivity. Qed.

Lemma odd_text_accepted : hex_pairs ["a"%char; "b"%char; "c"%char] = Ok [0xab].
Proof. reflexivity. Qed.

End CoordConfig.
