(* ===== verification/NodeConfig.v ===== *)
(** * The configuration of a node (rill-node/src/config, rilld/src/node_run.rs)

    The file of the daemon after deserialization, the configuration it is turned into,
    its checks, the dn42 legs that are started from it, and the settings the runtime
    of [Node] works with. *)

From Stdlib Require Import Ascii.
From S2P Require Import Prelude Crypto Net Route BgpSession RouteReport AuthKey CoordConfig TsWire Frame Handshake Mesh Packet Node.

Module NodeConfig.
Import Net Route.

(** ** WireGuard keys *)

Definition TABLE : list Z := Base64.ALPHABET.

(** [TABLE.iter().position(..)] *)
Definition position (c : Z) : option Z := (fun x => Z.of_nat x.1) <$> list_find (fun t => t = c) TABLE.

(** The loop over the characters: the accumulator of 32 bits, how many of its bits are
    not yet written, and the bytes written so far. *)
Fixpoint wg_loop (acc bits : Z) (out : list Z) (cs : list Z) : option (list Z) :=
  match cs with
  | [] => Some out
  | c :: cs =>
      v ← position c;
      let acc := Z.lor (wrap 32 (Z.shiftl acc 6)) v in
      let bits := bits + 6 in
      if decide (8 <= bits) then wg_loop acc (bits - 8) (out ++ [Z.land (Z.shiftr acc (bits - 8)) 0xff]) cs
      else wg_loop acc bits out cs
  end.

Inductive WgKeyError := NotBase64 (len : nat).

(** 43 characters give 32 bytes, so [out[pos]] is always in range. *)
Definition wg_key_decode (s : string) : outcome WgKeyError (list Z) :=
  let invalid := NotBase64 (String.length s) in
  body ← ok_or invalid (CoordConfig.strip_suffix "=" s);
  if decide (String.length body <> 43%nat) then Err invalid
  else ok_or invalid (wg_loop 0 0 [] (str_bytes body)).

(** ** dn42 *)

Record Dn42PeerConfig := mk_dn42_peer {
  dp_name : string;
  dp_endpoint : IpAddr * Z;
  dp_public_key : string;
  dp_preshared_key : option string;
  dp_local_v4 : list Z;
  dp_local_v6 : list Z;
  dp_peer_v4 : list Z;
  dp_peer_v6 : list Z;
  dp_peer_as : Z;
  dp_bgp_port : Z;
  dp_local_bgp_port : Z;
  dp_whitelist : list string;
  dp_max_prefixes : option Z
}.

Record Dn42Config := mk_dn42 {
  dn_local_as : Z;
  dn_bgp_id : list Z;
  dn_hold_time : Z;
  dn_own_prefixes : list string;
  dn_announce_to_mesh : bool;
  dn_peers : list Dn42PeerConfig
}.

Definition mesh_announces (d : Dn42Config) : list string :=
  if dn_announce_to_mesh d then ["172.20.0.0/14"; "fd00::/8"]%string else [].

Inductive Dn42Error :=
| ZeroLocalAs | BadBgpId | BadOwnPrefix (s : string) | NoPeers | DuplicatePeer (s : string)
| EmptyPeerName | ZeroEndpointPort (s : string) | BadKey (s : string) (e : WgKeyError) | SameTunnelAddress (s : string)
| ZeroPeerAs (s : string) | ZeroBgpPort (s : string) | EmptyWhitelist (s : string) | BadWhitelist (s w : string).

Fixpoint check_cidrs {E} (bad : string -> E) (l : list string) : outcome E unit :=
  match l with
  | [] => Ok tt
  | w :: l => _ ← map_err (fun _ => bad w) (parse w); check_cidrs bad l
  end.

Definition validate_peer (p : Dn42PeerConfig) : outcome Dn42Error unit :=
  if decide (dp_name p = ""%string) then Err EmptyPeerName
  else if decide ((dp_endpoint p).2 = 0) then Err (ZeroEndpointPort (dp_name p))
  else
    _ ← map_err (BadKey (dp_name p)) (wg_key_decode (dp_public_key p));
    _ ← (match dp_preshared_key p with
         | Some k => _ ← map_err (BadKey (dp_name p)) (wg_key_decode k); Ok tt
         | None => Ok tt
         end);
    if decide (dp_local_v4 p = dp_peer_v4 p \/ dp_local_v6 p = dp_peer_v6 p) then Err (SameTunnelAddress (dp_name p))
    else if decide (dp_peer_as p = 0) then Err (ZeroPeerAs (dp_name p))
    else if decide (dp_bgp_port p = 0 \/ dp_local_bgp_port p = 0) then Err (ZeroBgpPort (dp_name p))
    else if decide (dp_whitelist p = []) then Err (EmptyWhitelist (dp_name p))
    else check_cidrs (BadWhitelist (dp_name p)) (dp_whitelist p).

Fixpoint validate_peers (names : gset string) (ps : list Dn42PeerConfig) : outcome Dn42Error unit :=
  match ps with
  | [] => Ok tt
  | p :: ps =>
      _ ← validate_peer p;
      if decide (dp_name p ∈ names) then Err (DuplicatePeer (dp_name p))
      else validate_peers ({[ dp_name p ]} ∪ names) ps
  end.

(** [is_unspecified() || is_broadcast()] *)
Definition bad_router_id (a : list Z) : bool := bool_decide (a = replicate 4 0) || bool_decide (a = replicate 4 255).

Definition dn42_validate (d : Dn42Config) : outcome Dn42Error unit :=
  if decide (dn_local_as d = 0) then Err ZeroLocalAs
  else if bad_router_id (dn_bgp_id d) then Err BadBgpId
  else
    _ ← check_cidrs BadOwnPrefix (dn_own_prefixes d);
    if decide (dn_peers d = []) then Err NoPeers else validate_peers ∅ (dn_peers d).

(** ** The configuration *)

Inductive DataTransport := Udp | Tcp.

#[export] Instance DataTransport_eq_dec : EqDecision DataTransport.
Proof. solve_decision. Defined.

Definition transport_parse (s : string) : option DataTransport :=
  if decide (s = "udp"%string) then Some Udp else if decide (s = "tcp"%string) then Some Tcp else None.

Record Ts2021Config := mk_ts {
  ts_control_url : string;
  ts_auth_key : string;
  ts_ca_cert_path : string;
  ts_hostname : string;
  ts_state_path : string;
  ts_advertise_routes : list string;
  ts_advertise_exit : bool;
  ts_advertise_mesh_routes : bool
}.

Record InnerCoord := mk_inner { ic_listen_addr : IpAddr * Z; ic_master_key : list Z; ic_signing_seed : list Z }.

Record Config := mk_config {
  coordinator_url : string;
  auth_key : string;
  static_key_seed : list Z;
  capabilities : Z;
  announce_routes : list string;
  coord_signing_pubkey : list Z;
  ca_cert_path : string;
  udp_echo_addr : option string;
  data_transport : DataTransport;
  coord : option InnerCoord;
  dn42 : option Dn42Config;
  default_route_preference : list ExitSource;
  ts2021 : option Ts2021Config
}.

Inductive ConfigError :=
| EmptyCoordinatorUrl | NonHttpsCoordinatorUrl | EmptyAuthKey | InvalidRoute (s : string) | DefaultRoutePreferenceDuplicate
| MissingSigningPubkey | EmptyCaCertPath | MissingMasterKey | MissingSigningSeed | InvalidDn42 (e : Dn42Error) | InvalidTs2021 (s : string).

Definition DEFAULT_COORD_PORT : Z := 8443.

Definition starts_with (p s : string) : bool := match AuthKey.strip_prefix p s with Some _ => true | None => false end.

Definition check_ts2021 (t : Ts2021Config) : outcome ConfigError unit :=
  if negb (starts_with "https://" (ts_control_url t)) then Err (InvalidTs2021 "control_url must be https")
  else if decide (ts_auth_key t = ""%string) then Err (InvalidTs2021 "auth_key is empty")
  else if decide (ts_ca_cert_path t = ""%string) then Err (InvalidTs2021 "ca_cert_path is empty")
  else if decide (ts_hostname t = ""%string \/ ts_state_path t = ""%string) then Err (InvalidTs2021 "hostname/state_path is empty")
  else check_cidrs InvalidRoute (ts_advertise_routes t).

Definition validate (c : Config) : outcome ConfigError unit :=
  if decide (~ NoDup (default_route_preference c)) then Err DefaultRoutePreferenceDuplicate
  else if decide (coordinator_url c = ""%string) then Err EmptyCoordinatorUrl
  else if negb (starts_with "https://" (coordinator_url c)) then Err NonHttpsCoordinatorUrl
  else if decide (auth_key c = ""%string) then Err EmptyAuthKey
  else if decide (coord_signing_pubkey c = replicate 32 0) then Err MissingSigningPubkey
  else if decide (ca_cert_path c = ""%string) then Err EmptyCaCertPath
  else
    _ ← check_cidrs InvalidRoute (announce_routes c);
    _ ← (match coord c with
         | Some i =>
             if decide (ic_master_key i = replicate 32 0) then Err MissingMasterKey
             else if decide (ic_signing_seed i = replicate 32 0) then Err MissingSigningSeed else Ok tt
         | None => Ok tt
         end);
    _ ← (match dn42 c with Some d => map_err InvalidDn42 (dn42_validate d) | None => Ok tt end);
    match ts2021 c with Some t => check_ts2021 t | None => Ok tt end.

Definition coord_echo_target (url : string) : string :=
  let rest := default url (AuthKey.strip_prefix "https://" url) in
  match rsplit_once ":" rest with
  | Some (_, p) => if decide (is_Some (parse_uint 65535 p)) then rest else rest +:+ ":" +:+ dec DEFAULT_COORD_PORT
  | None => rest +:+ ":" +:+ dec DEFAULT_COORD_PORT
  end.

(** ** The file *)

Record Dn42PeerFile := mk_peer_file {
  pf_name : string; pf_endpoint : string; pf_public_key : string; pf_preshared_key : option string;
  pf_local_v4 : string; pf_local_v6 : string; pf_peer_v4 : string; pf_peer_v6 : string;
  pf_peer_as : Z; pf_bgp_port : Z; pf_local_bgp_port : Z; pf_whitelist : list string; pf_max_prefixes : option Z
}.

Record Dn42File := mk_dn42_file {
  df_local_as : Z; df_bgp_id : string; df_hold_time : Z; df_own_prefixes : list string; df_announce_to_mesh : bool;
  df_peers : list Dn42PeerFile
}.

Record TunFile := mk_tun_file { tf_name : string; tf_mtu : Z; tf_address4 : option string; tf_address6 : option string }.

Record FileConfig := mk_file {
  f_coordinator_url : option string;
  f_auth_key : option string;
  f_static_key_seed : option (list Z);
  f_capabilities : Z;
  f_default_route_preference : list string;
  f_announce_routes : list string;
  f_coord_signing_pubkey : option (list Z);
  f_ca_cert_path : string;
  f_udp_echo_addr : option string;
  f_data_transport : option string;
  f_tun : option TunFile;
  f_dn42 : option Dn42File;
  f_ts2021 : option Ts2021Config
}.

(** A key of the file: absent, or 64 hexadecimal digits. *)
Definition hex32_opt (s : option string) : outcome unit (option (list Z)) :=
  match s with Some s => b ← CoordConfig.hex32 s; Ok (Some b) | None => Ok None end.

Inductive FileError := BadDn42Field (field s : string) | BadTransport | UnknownExit (s : string) | ConfigInvalid (e : ConfigError).

(** [Ipv4Addr::from_str], [Ipv6Addr::from_str]. *)
Definition parse_v4 (s : string) : option (list Z) := match parse_ip s with Some (V4 o) => Some o | _ => None end.
Definition parse_v6 (s : string) : option (list Z) := match parse_ip s with Some (V6 o) => Some o | _ => None end.

Definition dn42_peer_from_file (p : Dn42PeerFile) : outcome FileError Dn42PeerConfig :=
  endpoint ← ok_or (BadDn42Field "endpoint" (pf_endpoint p)) (parse_socket (pf_endpoint p));
  local_v4 ← ok_or (BadDn42Field "local_v4" (pf_local_v4 p)) (parse_v4 (pf_local_v4 p));
  local_v6 ← ok_or (BadDn42Field "local_v6" (pf_local_v6 p)) (parse_v6 (pf_local_v6 p));
  peer_v4 ← ok_or (BadDn42Field "peer_v4" (pf_peer_v4 p)) (parse_v4 (pf_peer_v4 p));
  peer_v6 ← ok_or (BadDn42Field "peer_v6" (pf_peer_v6 p)) (parse_v6 (pf_peer_v6 p));
  Ok (mk_dn42_peer (pf_name p) endpoint (pf_public_key p) (pf_preshared_key p) local_v4 local_v6 peer_v4 peer_v6
        (pf_peer_as p) (pf_bgp_port p) (pf_local_bgp_port p) (pf_whitelist p) (pf_max_prefixes p)).

Definition dn42_config_from_file (d : Dn42File) : outcome FileError Dn42Config :=
  peers ← CoordConfig.collect dn42_peer_from_file (df_peers d);
  bgp_id ← ok_or (BadDn42Field "bgp_id" (df_bgp_id d)) (parse_v4 (df_bgp_id d));
  Ok (mk_dn42 (df_local_as d) bgp_id (df_hold_time d) (df_own_prefixes d) (df_announce_to_mesh d) peers).

(** [run_daemon] up to the start of the node: [None] when a field of the node's role is
    missing, in which case no node is started. *)
Definition node_config (f : FileConfig) : outcome FileError (option Config) :=
  match f_coordinator_url f, f_auth_key f, f_static_key_seed f, f_coord_signing_pubkey f with
  | Some url, Some key, Some seed, Some pk =>
      let echo := match f_udp_echo_addr f with Some s => s | None => coord_echo_target url end in
      transport ← (match f_data_transport f with None => Ok Udp | Some s => ok_or BadTransport (transport_parse s) end);
      dn42 ← (match f_dn42 f with Some d => x ← dn42_config_from_file d; Ok (Some x) | None => Ok None end);
      prefs ← CoordConfig.collect (fun s => ok_or (UnknownExit s) (exit_parse s)) (f_default_route_preference f);
      let c := mk_config url key seed (f_capabilities f) (f_announce_routes f) pk (f_ca_cert_path f) (Some echo) transport None dn42 prefs (f_ts2021 f) in
      _ ← map_err ConfigInvalid (validate c);
      Ok (Some c)
  | _, _, _, _ => Ok None
  end.

(** An address of the tun device as "address/length"; what does not parse is left out. *)
Definition tun_address (parse_a : string -> option (list Z)) (s : option string) : option (list Z * Z) :=
  s ← s; '(ip, len) ← split_once "/" s; ip ← parse_a ip; len ← parse_uint 255 len; Some (ip, len).

Definition tun_addresses (t : TunFile) : list (IpAddr * Z) :=
  omap id [(fun x => (V4 x.1, x.2)) <$> tun_address parse_v4 (tf_address4 t); (fun x => (V6 x.1, x.2)) <$> tun_address parse_v6 (tf_address6 t)].

(** ** The legs *)

(** [static_key_seed] with the bits of a WireGuard key set and cleared. *)
Definition clamp (seed : list Z) : list Z :=
  match seed with
  | a :: l =>
      let seed := Z.land a 248 :: l in
      match seed !! 31%nat with Some z => <[31%nat := Z.lor (Z.land z 127) 64]> seed | None => seed end
  | [] => []
  end.

Definition prefixes (l : list string) : list Prefix := omap (fun s => ok (parse s)) l.

Definition build_peer_config (d : Dn42Config) (p : Dn42PeerConfig) : outcome Empty_set BgpSession.PeerConfig :=
  psk ← (match dp_preshared_key p with Some k => x ← CoordConfig.expect (wg_key_decode k); Ok (Some x) | None => Ok None end);
  public ← CoordConfig.expect (wg_key_decode (dp_public_key p));
  Ok (BgpSession.mk_peer (dp_name p) true (dp_endpoint p)
        (BgpSession.mk_keys (replicate 32 0) public psk (Z.land (dp_local_bgp_port p) 0xffff))
        (dp_local_v4 p) (dp_local_v6 p) (dp_peer_v4 p) (dp_peer_v6 p) (dp_bgp_port p) (dp_local_bgp_port p)
        (BgpSession.mk_bgp (dn_local_as d) (dn_bgp_id d) (dp_peer_as p) (dn_hold_time d) (prefixes (dn_own_prefixes d))
           (prefixes (dp_whitelist p)) (dp_max_prefixes p))).

Definition with_private (pc : BgpSession.PeerConfig) (own : list Z) : BgpSession.PeerConfig :=
  let k := BgpSession.keys pc in
  BgpSession.mk_peer (BgpSession.name pc) (BgpSession.active pc) (BgpSession.endpoint pc)
    (BgpSession.mk_keys own (BgpSession.peer_public k) (BgpSession.preshared k) (BgpSession.index k))
    (BgpSession.local_v4 pc) (BgpSession.local_v6 pc) (BgpSession.peer_v4 pc) (BgpSession.peer_v6 pc)
    (BgpSession.bgp_port pc) (BgpSession.local_bgp_port pc) (BgpSession.bgp pc).

(** [spawn_dn42_legs], once the sockets are bound: what each task is started with, and
    the leg the node keeps. *)
Fixpoint spawn_legs (seed : list Z) (d : Dn42Config) (ps : list Dn42PeerConfig)
    : outcome Empty_set (list BgpSession.PeerConfig * list RouteReport.Dn42PeerLeg) :=
  match ps with
  | [] => Ok ([], [])
  | p :: ps =>
      pc ← build_peer_config d p;
      '(pcs, ls) ← spawn_legs seed d ps;
      Ok (with_private pc (clamp seed) :: pcs, RouteReport.mk_leg (dp_name p) (dp_peer_v4 p) (dp_peer_v6 p) false :: ls)
  end.

Definition spawn_dn42_legs (c : Config) : outcome Empty_set (list BgpSession.PeerConfig * list RouteReport.Dn42PeerLeg) :=
  match dn42 c with Some d => spawn_legs (static_key_seed c) d (dn_peers d) | None => Ok ([], []) end.

(** [Node::new]: the target of the echo. *)
Definition echo_of (c : Config) : option (string * Z) :=
  s ← udp_echo_addr c; '(host, port) ← rsplit_once ":" s; port ← parse_uint 65535 port; Some (host, port).

(** The settings of the runtime: the options with their defaults, the addresses of the
    machine and the bound socket. *)
Definition conf_of (c : Config) (tun_mtu : option Z) (ips : list IpAddr) (local : option (IpAddr * Z)) : Node.Conf :=
  Node.mk_conf (coordinator_url c) (static_key_seed c) (coord_signing_pubkey c) (auth_key c) (capabilities c) (announce_routes c)
    (match dn42 c with Some d => mesh_announces d | None => [] end) (10 * Node.SECOND) (5 * Node.SECOND) 3 (86400 * Node.SECOND)
    tun_mtu ips local (bool_decide (data_transport c = Tcp)) (echo_of c).

(** ** Keys as text *)

(** The text of bytes, the other way round of [str_bytes]. *)
Definition text (b : list Z) : string := String.string_of_list_ascii ((fun z => ascii_of_nat (Z.to_nat z)) <$> b).

Lemma str_bytes_text b : bytes b -> str_bytes (text b) = b.
Proof.
  unfold text. induction b as [|z b IH]; [done|]. intros [Hz Hb]%Forall_cons_1. cbn. rewrite IH by done. f_equal.
  rewrite nat_ascii_embedding by uint. uint.
Qed.

Lemma wg_position_symbol v : Base64.u6 v -> position (Base64.symbol v) = Some v.
Proof.
  intros Hv. unfold Base64.u6 in Hv.
  assert (Hall : forallb (fun v => bool_decide (position (Base64.symbol v) = Some v)) (Z.of_nat <$> seq 0 64) = true) by (vm_compute; done).
  rewrite forallb_forall in Hall. specialize (Hall v). apply bool_decide_eq_true in Hall; [done|].
  apply list_elem_of_In. rewrite <- (Z2Nat.id v) by lia. apply list_elem_of_fmap_2, elem_of_seq. lia.
Qed.

(** The accumulator takes six bits more and forgets what left its width. *)
Lemma acc_step acc v : Base64.u6 v -> Z.lor (wrap 32 (Z.shiftl acc 6)) v = acc mod 2 ^ 26 * 64 + v.
Proof.
  intros Hv. rewrite Z.shiftl_mul_pow2 by lia. unfold wrap. replace (acc * 2 ^ 6 mod 2 ^ 32) with (Z.shiftl (acc mod 2 ^ 26) 6).
  - apply Base64.lor_shift; [lia|]. exact Hv.
  - rewrite Z.shiftl_mul_pow2 by lia. change (2 ^ 32) with (2 ^ 26 * 2 ^ 6). by rewrite Z.mul_mod_distr_r by lia.
Qed.

Lemma land_255 z : Z.land z 255 = z mod 256.
Proof. change 255 with (Z.ones 8). by rewrite Z.land_ones by lia. Qed.

(** The byte written after [v], when the six bits before were [u]; [k] bits are left. *)
Lemma byte_written acc u v k : Base64.u6 u -> Base64.u6 v -> acc mod 64 = u -> k = 4 \/ k = 2 \/ k = 0 ->
  Z.land (Z.shiftr (acc mod 2 ^ 26 * 64 + v) k) 255 = (u * 64 + v) / 2 ^ k mod 256.
Proof.
  unfold Base64.u6. intros Hu Hv Ha Hk. rewrite land_255, Z.shiftr_div_pow2 by lia.
  change (2 ^ 26) with 67108864. destruct Hk as [-> |[-> | ->]]; [change (2 ^ 4) with 16|change (2 ^ 2) with 4|change (2 ^ 0) with 1];
    Z.to_euclidean_division_equations; lia.
Qed.

Lemma acc_low acc v : Base64.u6 v -> (acc mod 2 ^ 26 * 64 + v) mod 64 = v.
Proof. unfold Base64.u6. intros Hv. change (2 ^ 26) with 67108864. Z.to_euclidean_division_equations; lia. Qed.

(** A group of three bytes, and the two bytes at the end. *)
Lemma wg_group b0 b1 b2 acc out rest : u8 b0 -> u8 b1 -> u8 b2 ->
  exists acc', wg_loop acc 0 out (Base64.encode_chunk 3 b0 b1 b2 ++ rest) = wg_loop acc' 0 (out ++ [b0; b1; b2]) rest.
Proof.
  intros H0 H1 H2. rewrite Base64.encode_chunk_eq by done. cbv zeta. set (n := b0 * 65536 + b1 * 256 + b2).
  pose proof (Base64.digits_u6 n) as Hd. unfold Base64.digits in Hd.
  apply Forall_cons_1 in Hd as [D0 [D1 [D2 [D3 _]%Forall_cons_1]%Forall_cons_1]%Forall_cons_1].
  set (v0 := n / 262144 mod 64) in *. set (v1 := n / 4096 mod 64) in *. set (v2 := n / 64 mod 64) in *. set (v3 := n mod 64) in *.
  rewrite !decide_True by lia. cbn [app wg_loop]. rewrite !wg_position_symbol by done. cbn [mbind option_bind]. cbv zeta.
  rewrite (decide_False (P := 8 <= 0 + 6)) by lia. rewrite !acc_step by done. set (a0 := acc mod 2 ^ 26 * 64 + v0).
  rewrite (decide_True (P := 8 <= 0 + 6 + 6)) by lia. change (0 + 6 + 6 - 8) with 4.
  rewrite (decide_True (P := 8 <= 4 + 6)) by lia. change (4 + 6 - 8) with 2.
  rewrite (decide_True (P := 8 <= 2 + 6)) by lia. change (2 + 6 - 8) with 0.
  rewrite (byte_written a0 v0 v1 4 D0 D1 (acc_low _ _ D0) (or_introl eq_refl)).
  rewrite (byte_written _ v1 v2 2 D1 D2 (acc_low _ _ D1) (or_intror (or_introl eq_refl))).
  rewrite (byte_written _ v2 v3 0 D2 D3 (acc_low _ _ D2) (or_intror (or_intror eq_refl))).
  assert (0 <= b0 < 256 /\ 0 <= b1 < 256 /\ 0 <= b2 < 256) as (? & ? & ?) by (repeat split; uint).
  assert (E0 : (v0 * 64 + v1) / 2 ^ 4 mod 256 = b0) by (unfold v0, v1, n; change (2 ^ 4) with 16; Z.to_euclidean_division_equations; lia).
  assert (E1 : (v1 * 64 + v2) / 2 ^ 2 mod 256 = b1) by (unfold v1, v2, n; change (2 ^ 2) with 4; Z.to_euclidean_division_equations; lia).
  assert (E2 : (v2 * 64 + v3) / 2 ^ 0 mod 256 = b2) by (unfold v2, v3, n; change (2 ^ 0) with 1; Z.to_euclidean_division_equations; lia).
  rewrite E0, E1, E2, <- !app_assoc. by eexists.
Qed.

Lemma wg_tail b0 b1 acc out : u8 b0 -> u8 b1 ->
  wg_loop acc 0 out (take 3 (Base64.encode_chunk 2 b0 b1 0)) = Some (out ++ [b0; b1]).
Proof.
  intros H0 H1. rewrite Base64.encode_chunk_eq by (done || uint). cbv zeta. set (n := b0 * 65536 + b1 * 256 + 0).
  pose proof (Base64.digits_u6 n) as Hd. unfold Base64.digits in Hd.
  apply Forall_cons_1 in Hd as [D0 [D1 [D2 _]%Forall_cons_1]%Forall_cons_1].
  set (v0 := n / 262144 mod 64) in *. set (v1 := n / 4096 mod 64) in *. set (v2 := n / 64 mod 64) in *.
  rewrite decide_True by lia. cbn [take wg_loop]. rewrite !wg_position_symbol by done. cbn [mbind option_bind]. cbv zeta.
  rewrite (decide_False (P := 8 <= 0 + 6)) by lia. rewrite !acc_step by done. set (a0 := acc mod 2 ^ 26 * 64 + v0).
  rewrite (decide_True (P := 8 <= 0 + 6 + 6)) by lia. change (0 + 6 + 6 - 8) with 4.
  rewrite (decide_True (P := 8 <= 4 + 6)) by lia. change (4 + 6 - 8) with 2.
  rewrite (byte_written a0 v0 v1 4 D0 D1 (acc_low _ _ D0) (or_introl eq_refl)).
  rewrite (byte_written _ v1 v2 2 D1 D2 (acc_low _ _ D1) (or_intror (or_introl eq_refl))).
  assert (0 <= b0 < 256 /\ 0 <= b1 < 256) as (? & ?) by (repeat split; uint).
  assert (E0 : (v0 * 64 + v1) / 2 ^ 4 mod 256 = b0) by (unfold v0, v1, n; change (2 ^ 4) with 16; Z.to_euclidean_division_equations; lia).
  assert (E1 : (v1 * 64 + v2) / 2 ^ 2 mod 256 = b1) by (unfold v1, v2, n; change (2 ^ 2) with 4; Z.to_euclidean_division_equations; lia).
  by rewrite E0, E1, <- app_assoc.
Qed.

(** The text of a key with its padding, and the loop over what is before it. *)
Lemma wg_loop_encode k : forall b acc out, length b = (3 * k + 2)%nat -> bytes b ->
  exists body, Base64.encode b = body ++ [Base64.PAD] /\ length body = (4 * k + 3)%nat /\ wg_loop acc 0 out body = Some (out ++ b).
Proof.
  induction k as [|k IH]; intros b acc out Hl Hb.
  - destruct b as [|b0 [|b1 [|]]]; cbn in Hl; try lia. apply Forall_cons_1 in Hb as [H0 [H1 _]%Forall_cons_1].
    exists (take 3 (Base64.encode_chunk 2 b0 b1 0)). split; [done|]. split; [done|]. by apply wg_tail.
  - destruct b as [|b0 [|b1 [|b2 b]]]; cbn [length] in Hl; try lia.
    apply Forall_cons_1 in Hb as [H0 [H1 [H2 Hb]%Forall_cons_1]%Forall_cons_1].
    destruct (wg_group b0 b1 b2 acc out (take (length (Base64.encode b) - 1) (Base64.encode b)) H0 H1 H2) as [acc' Hg].
    destruct (IH b acc' (out ++ [b0; b1; b2])) as (body & He & Hlb & Hw); [lia|done|].
    assert (Ht : take (length (Base64.encode b) - 1) (Base64.encode b) = body).
    { rewrite He, length_app. cbn. apply take_app_length'. lia. }
    exists (Base64.encode_chunk 3 b0 b1 b2 ++ body). cbn [Base64.encode]. rewrite He, <- app_assoc. split; [done|]. split.
    + rewrite length_app, Hlb. cbn. lia.
    + rewrite Ht in Hg. rewrite Hg, Hw, <- app_assoc. done.
Qed.

Lemma text_app a b : text (a ++ b) = text a +:+ text b.
Proof. unfold text. rewrite fmap_app. induction (_ <$> a) as [|c l IH]; [done|]. cbn. by rewrite IH. Qed.

Lemma rev_text s : String.list_ascii_of_string (String.string_of_list_ascii s) = s.
Proof. apply String.list_ascii_of_string_of_list_ascii. Qed.

Lemma strip_suffix_one c l : CoordConfig.strip_suffix (String c EmptyString) (String.string_of_list_ascii (l ++ [c])) = Some (String.string_of_list_ascii l).
Proof.
  unfold CoordConfig.strip_suffix. rewrite !rev_text, reverse_app. cbn. rewrite decide_True by done. cbn. by rewrite rev_text, reverse_involutive.
Qed.

Lemma symbol_byte v : u8 (Base64.symbol v).
Proof.
  unfold Base64.symbol. destruct (Base64.ALPHABET !! Z.to_nat v) as [c|] eqn:E; [|done].
  assert (Hall : bytes Base64.ALPHABET) by (apply (bool_decide_unpack _); vm_compute; exact I). by eapply Forall_lookup_1 in E.
Qed.

Lemma chunk_bytes k b0 b1 b2 : bytes (Base64.encode_chunk k b0 b1 b2).
Proof. unfold Base64.encode_chunk. repeat constructor; try apply symbol_byte; case_decide; (apply symbol_byte || done). Qed.

Lemma encode_bytes b : bytes (Base64.encode b).
Proof.
  enough (H : forall n b, (length b <= n)%nat -> bytes (Base64.encode b)) by eauto.
  induction n as [|n IH]; intros [|b0 [|b1 [|b2 l]]] Hn; cbn [length] in Hn; try lia; cbn [Base64.encode]; try apply chunk_bytes; try (by constructor).
  apply Forall_app. split; [apply chunk_bytes|apply IH; lia].
Qed.

Lemma length_str_bytes s : length (str_bytes s) = String.length s.
Proof. induction s as [|c s IH]; cbn; [done|]. by rewrite IH. Qed.

(** A key of WireGuard, 32 bytes in base64, is read back from its text. *)
Theorem wg_key_roundtrip (b : list Z) (Hl : length b = 32%nat) (Hb : bytes b) : wg_key_decode (text (Base64.encode b)) = Ok b.
Proof.
  destruct (wg_loop_encode 10 b 0 [] Hl Hb) as (body & He & Hlb & Hw). unfold wg_key_decode. rewrite He.
  assert (E : text (body ++ [Base64.PAD]) = String.string_of_list_ascii (((fun z => ascii_of_nat (Z.to_nat z)) <$> body) ++ ["="%char])).
  { unfold text. by rewrite fmap_app. }
  rewrite E, strip_suffix_one. step. fold (text body).
  assert (Hbb : bytes body).
  { assert (bytes (Base64.encode b)) as H by apply encode_bytes. rewrite He in H. by apply Forall_app in H as [? _]. }
  assert (Hs : String.length (text body) = 43%nat) by (by rewrite <- length_str_bytes, str_bytes_text).
  rewrite decide_False by lia. by rewrite str_bytes_text, Hw.
Qed.

(** ** What an accepted configuration gives *)

Lemma check_cidrs_Ok {E} (bad : string -> E) l : check_cidrs bad l = Ok tt -> exists ps, Forall2 (fun w p => parse w = Ok p) l ps /\ prefixes l = ps.
Proof.
  induction l as [|w l IH]; cbn [check_cidrs]; [by exists []|]. rewrite CoordConfig.then_Ok, CoordConfig.map_err_Ok. intros [[p Hp] H].
  destruct (IH H) as (ps & Hf & Hps). exists (p :: ps). split; [by constructor|]. unfold prefixes in *. cbn. rewrite Hp. cbn. by f_equal.
Qed.

(** What the task of a peer is started with. *)
Record leg_ready (d : Dn42Config) (seed : list Z) (p : Dn42PeerConfig) (pc : BgpSession.PeerConfig) : Prop := {
  lr_name : BgpSession.name pc = dp_name p;
  lr_public : wg_key_decode (dp_public_key p) = Ok (BgpSession.peer_public (BgpSession.keys pc));
  lr_private : BgpSession.own_private (BgpSession.keys pc) = clamp seed;
  lr_whitelist : Forall2 (fun w x => parse w = Ok x) (dp_whitelist p) (BgpSession.whitelist (BgpSession.bgp pc)) /\ dp_whitelist p <> [];
  lr_own : Forall2 (fun w x => parse w = Ok x) (dn_own_prefixes d) (BgpSession.own_prefixes (BgpSession.bgp pc));
  lr_as : BgpSession.local_as (BgpSession.bgp pc) = dn_local_as d /\ BgpSession.peer_as (BgpSession.bgp pc) = dp_peer_as p /\ dp_peer_as p <> 0
}.

Lemma peer_ready d seed p : check_cidrs BadOwnPrefix (dn_own_prefixes d) = Ok tt -> validate_peer p = Ok tt ->
  exists pc, build_peer_config d p = Ok pc /\ leg_ready d seed p (with_private pc (clamp seed)).
Proof.
  intros Hown. unfold validate_peer. rewrite !CoordConfig.guard_Ok, !CoordConfig.then_Ok, !CoordConfig.guard_Ok, !CoordConfig.map_err_Ok.
  intros (_ & _ & [pub Hpub] & [[] Hpsk] & _ & Has & _ & Hw & Hcidr). apply check_cidrs_Ok in Hown as (own & Ho1 & Ho2), Hcidr as (wl & Hw1 & Hw2).
  unfold build_peer_config. assert (exists psk, (match dp_preshared_key p with
    Some k => x ← CoordConfig.expect (wg_key_decode k); Ok (Some x) | None => Ok None end : outcome Empty_set _) = Ok psk) as [psk ->].
  { destruct (dp_preshared_key p) as [k|]; [|by eexists]. rewrite CoordConfig.then_Ok, CoordConfig.map_err_Ok in Hpsk. destruct Hpsk as [[x ->] _]. by eexists. }
  step. rewrite Hpub. cbn. eexists. split; [done|]. split; cbn; try done; [by rewrite Hw2|by rewrite Ho2].
Qed.

Lemma legs_ready d seed ps : check_cidrs BadOwnPrefix (dn_own_prefixes d) = Ok tt -> forall names, validate_peers names ps = Ok tt ->
  exists pcs ls, spawn_legs seed d ps = Ok (pcs, ls) /\ Forall2 (leg_ready d seed) ps pcs /\ RouteReport.name <$> ls = dp_name <$> ps /\
    NoDup (dp_name <$> ps) /\ (forall p, p ∈ ps -> dp_name p ∉ names) /\ Forall (fun l => RouteReport.established l = false) ls.
Proof.
  intros Hown. induction ps as [|p ps IH]; intros names; cbn [validate_peers spawn_legs].
  { intros _. exists [], []. split_and!; try constructor. by intros p ?%elem_of_nil. }
  rewrite CoordConfig.then_Ok, CoordConfig.guard_Ok, CoordConfig.unit_Ok. intros (Hp & Hn & Hps).
  destruct (peer_ready d seed p Hown Hp) as (pc & -> & Hr). destruct (IH _ Hps) as (pcs & ls & Hs & Hf & Hnm & Hnd & Hout & He).
  step. rewrite Hs. step. eexists _, _. split; [done|]. split_and!.
  - by constructor.
  - cbn. by rewrite Hnm.
  - rewrite fmap_cons. apply list.NoDup_cons. split; [|done]. intros (q & Hq & Hin)%list_elem_of_fmap. specialize (Hout q Hin). set_solver.
  - intros q [->|Hq]%elem_of_cons; [done|]. specialize (Hout q Hq). set_solver.
  - by constructor.
Qed.

(** An accepted configuration starts its dn42 legs without a failure: one for each
    peer, with different names, none of them up, and each task with the decoded keys,
    the node's own key, and every prefix of the peer's whitelist and of the node, none
    lost in parsing. *)
Theorem config_starts_legs (c : Config) (Hv : validate c = Ok tt) : exists pcs ls, spawn_dn42_legs c = Ok (pcs, ls) /\
  NoDup (RouteReport.name <$> ls) /\ Forall (fun l => RouteReport.established l = false) ls /\
  match dn42 c with
  | Some d => RouteReport.name <$> ls = dp_name <$> dn_peers d /\ ls <> [] /\ Forall2 (leg_ready d (static_key_seed c)) (dn_peers d) pcs
  | None => ls = []
  end.
Proof.
  unfold spawn_dn42_legs. destruct (dn42 c) as [d|] eqn:Ed; [|exists [], []; split_and!; try done; constructor].
  assert (Hd : dn42_validate d = Ok tt).
  { unfold validate in Hv. rewrite Ed in Hv. rewrite !CoordConfig.guard_Ok, CoordConfig.test_Ok, !CoordConfig.guard_Ok, !CoordConfig.then_Ok in Hv.
    destruct Hv as (_ & _ & _ & _ & _ & _ & _ & _ & Hd & _). rewrite CoordConfig.map_err_Ok in Hd. by apply CoordConfig.unit_Ok. }
  unfold dn42_validate in Hd. rewrite CoordConfig.guard_Ok, CoordConfig.test_Ok, CoordConfig.then_Ok, CoordConfig.guard_Ok, CoordConfig.unit_Ok in Hd.
  destruct Hd as (_ & _ & Hown & Hne & Hps). destruct (legs_ready d (static_key_seed c) (dn_peers d) Hown ∅ Hps) as (pcs & ls & H1 & H2 & H3 & H4 & _ & H6).
  exists pcs, ls. split; [done|]. rewrite H3. split_and!; try done. intros ->. by destruct (dn_peers d).
Qed.

Lemma rsplit_app c a b : rsplit_once c b = None -> rsplit_once c (a +:+ String c b) = Some (a, b).
Proof.
  intros Hb. induction a as [|x a IH].
  - change (EmptyString +:+ String c b) with (String c b). cbn [rsplit_once]. by rewrite Hb, decide_True.
  - change (String x a +:+ String c b) with (String x (a +:+ String c b)). cbn [rsplit_once]. by rewrite IH.
Qed.

(** The echo goes where the control channel connects, unless the file says otherwise. *)
Theorem echo_follows_url (f : FileConfig) (c : Config) (Hf : node_config f = Ok (Some c)) (He : f_udp_echo_addr f = None) (h : string) (p : Z)
    (Hu : Node.parse_url (coordinator_url c) = Some (h, p)) : echo_of c = Some (h, p).
Proof.
  assert (Hc : udp_echo_addr c = Some (coord_echo_target (coordinator_url c))).
  { unfold node_config in Hf. destruct (f_coordinator_url f), (f_auth_key f), (f_static_key_seed f), (f_coord_signing_pubkey f); try done.
    rewrite He in Hf. cbv zeta in Hf. repeat (apply bind_Ok_inv in Hf as (? & _ & Hf)). by injection Hf as <-. }
  unfold echo_of. rewrite Hc. cbn [entries mbind option_bind]. unfold Node.parse_url in Hu. unfold coord_echo_target.
  destruct (AuthKey.strip_prefix "https://" (coordinator_url c)) as [rest|]; [|done]. cbn [entries mbind option_bind default from_option id] in *.
  destruct (rsplit_once ":" rest) as [[h' pt]|] eqn:Er.
  - destruct (parse_uint 65535 pt) as [q|] eqn:Ep; [|done]. cbn in Hu. injection Hu as <- <-. rewrite decide_True by (by eexists).
    rewrite Er. cbn. by rewrite Ep.
  - injection Hu as <- <-. assert (E : rsplit_once ":" (rest +:+ ":8443") = Some (rest, "8443"%string)) by (apply rsplit_app; done).
    assert (Ed : ":" +:+ dec DEFAULT_COORD_PORT = ":8443"%string) by (vm_compute; reflexivity). rewrite Ed, E. done.
Qed.

(** ** Concrete configurations *)

Definition sample_peer : Dn42PeerConfig :=
  mk_dn42_peer "peer-r" (V4 [192; 168; 243; 10], 51820) "AAAAAEFHi7EhP8z1TTT7mpY2SnnHbDFOxdTb+FSveCE=" None [172; 20; 100; 1] (replicate 16 1)
    [172; 20; 100; 2] (replicate 16 2) 4242420002 179 10179 ["172.20.0.0/14"; "fd00::/8"] (Some 1000).

Definition sample_config : Config :=
  mk_config "https://coord:8443" "lrk-lab-0-A" (replicate 32 7) 1 ["10.1.0.0/16"] (replicate 32 9) "/ca.pem" None Udp None
    (Some (mk_dn42 4242420001 [172; 20; 100; 1] 90 ["172.20.1.0/24"] true [sample_peer])) [ExitTailnet; ExitMesh] None.

Lemma config_starts_legs_witness : validate sample_config = Ok tt /\
  exists pcs l, spawn_dn42_legs sample_config = Ok (pcs, [l]) /\ RouteReport.name l = "peer-r"%string.
Proof.
  assert (Hv : validate sample_config = Ok tt) by (vm_compute; reflexivity). split; [exact Hv|].
  destruct (config_starts_legs sample_config Hv) as (pcs & ls & H1 & _ & _ & H2 & _). exists pcs.
  destruct ls as [|l [|]]; [discriminate H2| |discriminate H2]. exists l. split; [exact H1|]. by injection H2.
Defined.

(** The port of the coordinator is not checked: a node is started that can never
    connect. *)
Definition bad_port : Config :=
  mk_config "https://coord:84430" "key" (replicate 32 7) 0 [] (replicate 32 9) "/ca.pem" None Udp None None [] None.

Lemma bad_port_accepted : validate bad_port = Ok tt /\ Node.parse_url (coordinator_url bad_port) = None.
Proof. split; vm_compute; reflexivity. Qed.

(** A file that misses one field of the node's role starts no node and is no error. *)
Lemma partial_role_idle :
  node_config (mk_file (Some "https://coord") (Some "key") None 0 [] [] (Some (replicate 32 9)) "/ca.pem" None None None None None) = Ok None.
Proof. reflexivity. Qed.

(** The last two bits of the text of a key are not looked at. *)
Lemma wg_key_not_canonical :
  wg_key_decode "AAAAAEFHi7EhP8z1TTT7mpY2SnnHbDFOxdTb+FSveCE=" = wg_key_decode "AAAAAEFHi7EhP8z1TTT7mpY2SnnHbDFOxdTb+FSveCF=".
Proof. vm_compute. reflexivity. Qed.

(** ** The tun device *)

(** [u32::MAX << (32 - prefix)], as the four octets' value. *)
Definition prefix_netmask4 (prefix : Z) : Z :=
  if decide (prefix = 0) then 0 else if decide (32 <= prefix) then 2 ^ 32 - 1 else wrap 32 (Z.shiftl (2 ^ 32 - 1) (32 - prefix)).

(** The mask has the bits of the prefix, counted from the top; more than 32 count as 32. *)
Lemma netmask_bits p i : 0 <= p -> 0 <= i < 32 -> Z.testbit (prefix_netmask4 p) i = bool_decide (32 - p <= i).
Proof.
  intros Hp Hi. assert (Hones : forall j, 0 <= j -> Z.testbit (2 ^ 32 - 1) j = bool_decide (j < 32)).
  { intros j Hj. change (2 ^ 32 - 1) with (Z.ones 32). rewrite Z.testbit_ones_nonneg by lia. by case_bool_decide; lia. }
  unfold prefix_netmask4. case_decide as H0; [subst; rewrite Z.bits_0; by rewrite bool_decide_eq_false_2 by lia|].
  case_decide as H1; [rewrite Hones by lia; by rewrite !bool_decide_eq_true_2 by lia|].
  unfold wrap. rewrite Z.mod_pow2_bits_low by lia. rewrite Z.shiftl_spec by lia. case_bool_decide as Hb.
  - rewrite Hones by lia. by rewrite bool_decide_eq_true_2 by lia.
  - apply Z.testbit_neg_r. lia.
Qed.

(** ** Cache of resolved names *)

(** Times in nanoseconds.  [attempt] is a counter of 32 bits. *)
Record DnsEntry := mk_dns { ips : list IpAddr; next_try : Z; attempt : Z; base_delay : Z; max_delay : Z }.

Record DnsCache := mk_cache { entries : gmap string DnsEntry }.

Definition new_entry (now : Z) : DnsEntry := mk_dns [] now 0 Node.SECOND (300 * Node.SECOND).

Definition resolve (now : Z) (c : DnsCache) (host : string) : option (list IpAddr) :=
  e ← entries c !! host; if decide (now < next_try e /\ ips e <> []) then Some (ips e) else None.

Definition record_success (now : Z) (c : DnsCache) (host : string) (l : list IpAddr) : DnsCache :=
  let e := default (new_entry now) (entries c !! host) in
  mk_cache (<[host := mk_dns l (now + base_delay e) 0 (base_delay e) (max_delay e)]> (entries c)).

Definition record_failure (now : Z) (c : DnsCache) (host : string) : Z * DnsCache :=
  let e := default (new_entry now) (entries c !! host) in
  let attempt := wrap 32 (attempt e + 1) in
  let backoff := Z.min (base_delay e * 2 ^ Z.min attempt 10) (max_delay e) in
  (backoff, mk_cache (<[host := mk_dns [] (now + backoff) attempt (base_delay e) (max_delay e)]> (entries c))).

Definition next_retry (now : Z) (c : DnsCache) (host : string) : option Z := (fun e => Z.max 0 (next_try e - now)) <$> entries c !! host.

(** What runs of successes and failures leave behind. *)
Inductive DnsOp := DnsOk (now : Z) (host : string) (l : list IpAddr) | DnsFail (now : Z) (host : string).

Definition dns_op (c : DnsCache) (o : DnsOp) : DnsCache :=
  match o with
  | DnsOk now h l => record_success now c h l
  | DnsFail now h => (record_failure now c h).2
  end.

Definition dns_ok (c : DnsCache) : Prop :=
  map_Forall (fun _ e => base_delay e = Node.SECOND /\ max_delay e = 300 * Node.SECOND /\ is_uint 32 (attempt e)) (entries c).

Lemma default_entry_ok now c h : dns_ok c -> let e := default (new_entry now) (entries c !! h) in
  base_delay e = Node.SECOND /\ max_delay e = 300 * Node.SECOND /\ is_uint 32 (attempt e).
Proof. intros H. destruct (entries c !! h) eqn:E; cbn; [by apply H in E|done]. Qed.

Lemma dns_op_ok c o : dns_ok c -> dns_ok (dns_op c o).
Proof.
  intros H. destruct o as [now h l|now h]; cbn; destruct (default_entry_ok now c h H) as (Hb & Hm & _);
    apply map_Forall_insert_2; cbn; try done. split_and!; [done|done|]. apply wrap_uint. lia.
Qed.

(** A name is answered from the cache for one second after it was found, and not after a
    failure; failures back off by powers of two up to five minutes. *)
Lemma dns_answers ops now h l : let c := foldl dns_op (mk_cache ∅) ops in
  (forall t, resolve t (record_success now c h l) h = Some l <-> t < now + Node.SECOND /\ l <> [])
  /\ (forall t, resolve t (record_failure now c h).2 h = None)
  /\ 0 < (record_failure now c h).1 <= 300 * Node.SECOND.
Proof.
  cbv zeta. assert (H : dns_ok (foldl dns_op (mk_cache ∅) ops)).
  { apply (foldl_keeps dns_ok); [intros; by apply dns_op_ok|apply map_Forall_empty]. }
  revert H. generalize (foldl dns_op (mk_cache ∅) ops). intros c H. destruct (default_entry_ok now c h H) as (Hb & Hm & Ha). split_and!.
  - intros t. unfold resolve, record_success. cbv zeta. cbn [entries]. rewrite lookup_insert_eq. cbn [entries mbind option_bind ips next_try]. rewrite Hb. case_decide as Hd; split; (done || tauto).
  - intros t. unfold resolve, record_failure. cbv zeta. cbn [snd entries]. rewrite lookup_insert_eq. cbn [entries mbind option_bind ips]. by rewrite decide_False by tauto.
  - unfold record_failure. cbv zeta. cbn [fst]. rewrite Hb, Hm. unfold Node.SECOND. apply Z.min_glb_lt; [|lia].
    apply Z.mul_pos_pos; [lia|]. apply Z.pow_pos_nonneg; [lia|]. pose proof (Z.mod_pos_bound (attempt (default (new_entry now) (entries c !! h)) + 1) (2 ^ 32)).
    unfold wrap. lia.
  - unfold record_failure. cbv zeta. cbn [fst]. rewrite Hm. apply Z.le_min_r.
Qed.

End NodeConfig.
