(* ===== verification/Transport.v ===== *)
(** * The underlay of the mesh (rill-mesh/src/data/transport.rs)

    Datagrams over UDP, and the fallback over TCP: a table of connections, frames
    behind a length of two bytes, one reader for each connection.  What connecting and
    writing to a socket do is an argument: a write gets out as a whole, or fails after
    some bytes, or is given up after some bytes because the future that writes was
    dropped. *)

From S2P Require Import Prelude Net Mesh.

Module Transport.
Import Net.
#[local] Existing Instance Mesh.IpAddr_countable.

Definition MAX_FRAME : nat := 2048.
Definition MAX_TCP_CONNS : nat := 1024.

Inductive IoError := InvalidInput | InvalidData | ConnectFailed | WriteFailed | Unsupported.

(** ** UDP *)

(** The datagram as it is received, which the kernel has cut to the buffer. *)
Definition udp_recv (datagram : list Z) : outcome IoError (list Z) :=
  if decide (MAX_FRAME <= length datagram)%nat then Err InvalidData else Ok datagram.

(** ** TCP *)

(** [conns]: the connection to write to for an address; [written]: the bytes that got
    out on each connection; [readers]: the reader of each connection, with the address
    its frames are said to come from and the bytes it has of a frame that is not whole;
    [rx]: the frames that were read.  The queue holds 256 frames: a reader that finds it
    full waits and goes on with the same bytes, so its length is not modelled. *)
Record TcpTransport := mk_tcp {
  conns : gmap (IpAddr * Z) nat;
  written : gmap nat (list Z);
  readers : gmap nat ((IpAddr * Z) * list Z);
  rx : list ((IpAddr * Z) * list Z);
  next_conn : nat
}.

Definition bind : TcpTransport := mk_tcp ∅ ∅ ∅ [] 0.

Definition insert_conn (table : gmap (IpAddr * Z) nat) (addr : IpAddr * Z) (c : nat) : gmap (IpAddr * Z) nat :=
  <[addr := c]> (if decide (MAX_TCP_CONNS <= size table)%nat then ∅ else table).

(** A connection of ours or of a peer: its write half in the table, its reader started. *)
Definition add_conn (t : TcpTransport) (addr : IpAddr * Z) : nat * TcpTransport :=
  (next_conn t, mk_tcp (insert_conn (conns t) addr (next_conn t)) (<[next_conn t := []]> (written t)) (<[next_conn t := (addr, [])]> (readers t))
                  (rx t) (S (next_conn t))).

Definition accept (t : TcpTransport) (peer : IpAddr * Z) : TcpTransport := (add_conn t peer).2.

Definition packet (buf : list Z) : list Z := be_bytes 2 (Z.of_nat (length buf)) ++ buf.

(** How a write ends: all out, an error after some bytes, or dropped after some bytes. *)
Inductive WriteResult := WriteAll | WriteError (k : nat) | WriteDropped (k : nat).

Definition write_bytes (t : TcpTransport) (c : nat) (b : list Z) : TcpTransport :=
  mk_tcp (conns t) (<[c := default [] (written t !! c) ++ b]> (written t)) (readers t) (rx t) (next_conn t).

Definition drop_conn (t : TcpTransport) (addr : IpAddr * Z) : TcpTransport :=
  mk_tcp (delete addr (conns t)) (written t) (readers t) (rx t) (next_conn t).

(** [send_frame]: the answer is [None] when the future was dropped. *)
Definition send_frame (connect : bool) (w : WriteResult) (t : TcpTransport) (addr : IpAddr * Z) (buf : list Z)
    : option (outcome IoError Z) * TcpTransport :=
  if bool_decide (buf = []) || bool_decide (65535 < Z.of_nat (length buf)) then (Some (Err InvalidInput), t)
  else
    match (match conns t !! addr with
           | Some c => Some (c, t)
           | None => if connect then Some (add_conn t addr) else None
           end) with
    | None => (Some (Err ConnectFailed), t)
    | Some (c, t) =>
        match w with
        | WriteAll => (Some (Ok (Z.of_nat (length buf))), write_bytes t c (packet buf))
        | WriteError k => (Some (Err WriteFailed), drop_conn (write_bytes t c (take k (packet buf))) addr)
        | WriteDropped k => (None, write_bytes t c (take k (packet buf)))
        end
    end.

(** *** The reader of a connection *)

(** One pass of the loop of [read_conn]: [None] when it breaks off, otherwise a frame
    and the rest, or nothing before more bytes arrive. *)
Definition read_packet (buf : list Z) : option (option (list Z * list Z)) :=
  if decide (length buf < 2)%nat then Some None
  else
    let len := Z.to_nat (be_val (take 2 buf)) in
    if decide (len = 0%nat \/ (MAX_FRAME < len)%nat) then None
    else if decide (length buf < 2 + len)%nat then Some None
    else Some (Some (take len (drop 2 buf), drop (2 + len) buf)).

(** All frames of what has arrived; the bytes left over, or [None] when it broke off. *)
Fixpoint drain (fuel : nat) (buf : list Z) : list (list Z) * option (list Z) :=
  match fuel with
  | O => ([], Some buf)
  | S fuel =>
      match read_packet buf with
      | None => ([], None)
      | Some None => ([], Some buf)
      | Some (Some (p, rest)) => let '(ps, r) := drain fuel rest in (p :: ps, r)
      end
  end.

(** A chunk arrives on a connection: its reader hands the whole frames to the queue with
    the address of the connection, and ends where it breaks off. *)
Definition receive (t : TcpTransport) (c : nat) (chunk : list Z) : TcpTransport :=
  match readers t !! c with
  | None => t
  | Some (addr, buf) =>
      let '(ps, r) := drain (length (buf ++ chunk)) (buf ++ chunk) in
      mk_tcp (conns t) (written t)
        (match r with Some rest => <[c := (addr, rest)]> (readers t) | None => delete c (readers t) end)
        (rx t ++ ((fun p => (addr, p)) <$> ps)) (next_conn t)
  end.

(** The stream ends: the reader does, with what it has of a frame. *)
Definition end_of_stream (t : TcpTransport) (c : nat) : TcpTransport :=
  mk_tcp (conns t) (written t) (delete c (readers t)) (rx t) (next_conn t).

Definition recv_frame (t : TcpTransport) : option ((IpAddr * Z) * list Z) * TcpTransport :=
  match rx t with
  | x :: l => (Some x, mk_tcp (conns t) (written t) (readers t) l (next_conn t))
  | [] => (None, t)
  end.

Definition path_mtu : outcome IoError Z := Err Unsupported.

(** ** The stream carries the frames *)

Definition fits (b : list Z) : Prop := b <> [] /\ (length b <= MAX_FRAME)%nat.

Lemma packet_length b : Z.of_nat (length b) <= 65535 -> forall rest, be_val (take 2 (packet b ++ rest)) = Z.of_nat (length b).
Proof.
  intros Hb rest. unfold packet. rewrite <- app_assoc, take_app_length' by (by rewrite length_be_bytes). apply be_val_be_bytes. unfold is_uint. lia.
Qed.

Lemma length_packet b : length (packet b) = (2 + length b)%nat.
Proof. unfold packet. by rewrite length_app, length_be_bytes. Qed.

Lemma read_packet_whole b rest : fits b -> read_packet (packet b ++ rest) = Some (Some (b, rest)).
Proof.
  intros [Hne Hl]. unfold MAX_FRAME in Hl. unfold read_packet. rewrite decide_False by (rewrite length_app, length_packet; lia).
  rewrite packet_length by lia. rewrite Nat2Z.id. cbv zeta.
  rewrite decide_False by (unfold MAX_FRAME; destruct b; [done|cbn in *; lia]).
  rewrite decide_False by (rewrite length_app, length_packet; lia).
  assert (Hd : drop 2 (packet b ++ rest) = b ++ rest).
  { unfold packet. rewrite <- app_assoc. apply drop_app_length'. by rewrite length_be_bytes. }
  rewrite <- drop_drop, Hd, take_app_length, drop_app_length. done.
Qed.

Lemma read_packet_part b buf l : fits b -> packet b = buf ++ l -> l <> [] -> read_packet buf = Some None.
Proof.
  intros [Hne Hl] E Hln. unfold MAX_FRAME in Hl. unfold read_packet. case_decide as H2; [done|].
  assert (Hlen : (length buf < 2 + length b)%nat).
  { rewrite <- length_packet, E, length_app. destruct l; [done|cbn; lia]. }
  assert (Ht : take 2 buf = take 2 (packet b)) by (rewrite E, take_app_le by lia; done).
  rewrite Ht, <- (app_nil_r (packet b)), packet_length by lia. rewrite Nat2Z.id. cbv zeta.
  rewrite decide_False by (unfold MAX_FRAME; destruct b; [done|cbn in *; lia]). by rewrite decide_True by lia.
Qed.

(** What is there of a stream of frames: whole ones are read, a part waits. *)
Lemma drain_frames bs : Forall fits bs -> forall fuel buf l, (length buf <= fuel)%nat -> buf ++ l = mjoin (packet <$> bs) ->
  exists b1 b2 rest, bs = b1 ++ b2 /\ drain fuel buf = (b1, Some rest) /\ rest ++ l = mjoin (packet <$> b2) /\ (l = [] -> b2 = []).
Proof.
  intros Hf. induction bs as [|b bs IH]; intros fuel buf l Hfu E.
  - cbn in E. apply app_nil in E as [-> ->]. exists [], [], []. by destruct fuel.
  - apply Forall_cons_1 in Hf as [Hb Hf]. change (mjoin (packet <$> b :: bs)) with (packet b ++ mjoin (packet <$> bs)) in E.
    destruct (decide (length (packet b) <= length buf)%nat) as [Hge|Hlt].
    + assert (exists r, buf = packet b ++ r) as [r ->].
      { exists (drop (length (packet b)) buf). rewrite <- (take_drop (length (packet b)) buf) at 1. f_equal.
        apply (f_equal (take (length (packet b)))) in E. rewrite take_app_length, take_app_le in E by lia. done. }
      rewrite <- app_assoc in E. apply app_inv_head in E. rewrite length_app, length_packet in Hfu. destruct fuel as [|fuel]; [lia|].
      cbn [drain]. rewrite read_packet_whole by done. destruct (IH Hf fuel r l) as (b1 & b2 & rest & -> & Hd & Hr & Hn); [lia|done|].
      exists (b :: b1), b2, rest. rewrite Hd. done.
    + exists [], (b :: bs), buf. split; [done|]. split_and!; [|done|].
      * destruct fuel as [|fuel]; [done|]. cbn [drain].
        rewrite (read_packet_part b buf (take (length (packet b) - length buf) l)); [done|done| |].
        -- apply (f_equal (take (length (packet b)))) in E. rewrite take_app_length in E. rewrite take_app_ge in E by lia. by symmetry.
        -- intros Hn. apply (f_equal length) in Hn. rewrite length_take in Hn. apply (f_equal length) in E. rewrite !length_app in E. cbn in Hn. lia.
      * intros ->. exfalso. apply (f_equal length) in E. rewrite app_nil_r, length_app in E. lia.
Qed.

Definition receive_all (t : TcpTransport) (c : nat) (chunks : list (list Z)) : TcpTransport := foldl (fun t ch => receive t c ch) t chunks.

Lemma receive_all_frames from c chunks : forall bs buf t, Forall fits bs -> buf ++ concat chunks = mjoin (packet <$> bs) ->
  readers t !! c = Some (from, buf) -> (chunks = [] -> bs = [] /\ buf = []) ->
  rx (receive_all t c chunks) = rx t ++ ((fun p => (from, p)) <$> bs) /\ readers (receive_all t c chunks) !! c = Some (from, []).
Proof.
  induction chunks as [|ch chunks IH]; intros bs buf t Hf E Hr Hp; cbn.
  - destruct Hp as [-> ->]; [done|]. by rewrite app_nil_r.
  - cbn [concat] in E. rewrite app_assoc in E.
    destruct (drain_frames bs Hf (length (buf ++ ch)) (buf ++ ch) (concat chunks) (Nat.le_refl _) E) as (b1 & b2 & rest & -> & Hd & Hr' & Hn).
    apply Forall_app in Hf as [Hf1 Hf2]. fold (receive_all (receive t c ch) c chunks).
    destruct (IH b2 rest (receive t c ch) Hf2 Hr') as [Hx Hs].
    + unfold receive. rewrite Hr, Hd. cbn. by simplify_map_eq.
    + intros ->. split; [by apply Hn|]. cbn in Hr'. rewrite Hn in Hr' by done. by rewrite app_nil_r in Hr'.
    + rewrite Hx, Hs. unfold receive. rewrite Hr, Hd. cbn. by rewrite fmap_app, app_assoc.
Qed.

(** *** A run of sends *)

Definition send_all (t : TcpTransport) (addr : IpAddr * Z) (bs : list (list Z)) : list (option (outcome IoError Z)) * TcpTransport :=
  foldl (fun '(rs, t) b => let '(r, t) := send_frame true WriteAll t addr b in (rs ++ [r], t)) ([], t) bs.

Lemma send_frame_known t addr c b : fits b -> conns t !! addr = Some c ->
  send_frame true WriteAll t addr b = (Some (Ok (Z.of_nat (length b))), write_bytes t c (packet b)).
Proof.
  intros [Hne Hl] Hc. unfold MAX_FRAME in Hl. unfold send_frame. rewrite Hc, !bool_decide_eq_false_2; [done|lia|done].
Qed.

Lemma send_all_known addr c bs : forall rs t w, Forall fits bs -> conns t !! addr = Some c -> written t !! c = Some w ->
  exists t', foldl (fun '(rs, t) b => let '(r, t) := send_frame true WriteAll t addr b in (rs ++ [r], t)) (rs, t) bs
             = (rs ++ ((fun b => Some (Ok (Z.of_nat (length b)))) <$> bs), t')
             /\ written t' !! c = Some (w ++ mjoin (packet <$> bs)).
Proof.
  induction bs as [|b bs IH]; intros rs t w Hf Hc Hw.
  - exists t. cbn. by rewrite !app_nil_r.
  - apply Forall_cons_1 in Hf as [Hb Hf]. cbn [foldl]. rewrite (send_frame_known _ _ c) by done.
    destruct (IH (rs ++ [Some (Ok (Z.of_nat (length b)))]) (write_bytes t c (packet b)) (w ++ packet b) Hf) as (t' & E & Hw').
    + done.
    + cbn. rewrite Hw. cbn. by rewrite lookup_insert_eq.
    + exists t'. rewrite E, Hw'. cbn. by rewrite <- !app_assoc.
Qed.

Lemma send_all_fresh s addr bs : Forall fits bs -> bs <> [] -> conns s !! addr = None ->
  exists s', send_all s addr bs = ((fun b => Some (Ok (Z.of_nat (length b)))) <$> bs, s')
             /\ written s' !! next_conn s = Some (mjoin (packet <$> bs)).
Proof.
  intros Hf Hne Hc. destruct bs as [|b bs]; [done|]. apply Forall_cons_1 in Hf as [Hb Hf].
  unfold send_all. cbn [foldl].
  assert (Hs : send_frame true WriteAll s addr b
             = send_frame true WriteAll (add_conn s addr).2 addr b).
  { destruct Hb as [Hb Hl]. unfold MAX_FRAME in Hl. unfold send_frame. rewrite Hc, !bool_decide_eq_false_2 by (done || lia).
    cbn. unfold insert_conn. by rewrite lookup_insert_eq. }
  rewrite Hs, (send_frame_known _ _ (next_conn s)); [|done|cbn; unfold insert_conn; by rewrite lookup_insert_eq].
  destruct (send_all_known addr (next_conn s) bs [Some (Ok (Z.of_nat (length b)))] (write_bytes (add_conn s addr).2 (next_conn s) (packet b)) (packet b) Hf)
    as (t' & E & Hw).
  - cbn. unfold insert_conn. by rewrite lookup_insert_eq.
  - cbn. by rewrite !lookup_insert_eq.
  - exists t'. split; [exact E|]. by rewrite Hw.
Qed.

(** C29: the TCP underlay keeps frames whole and in order.  Frames of one to 2048 bytes sent to an
    address that has no connection yet are all reported as sent; the bytes that get out on the new
    connection, cut into chunks anyhow, give the receiving transport exactly these frames, in their
    order, behind what it had already read, and leave its reader between two frames. *)
Theorem tcp_transparent (s r : TcpTransport) (addr from : IpAddr * Z) (c : nat) (bs chunks : list (list Z))
  (Hfit : Forall fits bs) (Hsome : bs <> []) (Hnew : conns s !! addr = None) (Hreader : readers r !! c = Some (from, [])) :
  exists s', send_all s addr bs = ((fun b => Some (Ok (Z.of_nat (length b)))) <$> bs, s')
    /\ forall stream, written s' !! next_conn s = Some stream -> concat chunks = stream ->
         rx (receive_all r c chunks) = rx r ++ ((fun b => (from, b)) <$> bs) /\ readers (receive_all r c chunks) !! c = Some (from, []).
Proof.
  destruct (send_all_fresh s addr bs Hfit Hsome Hnew) as (s' & E & Hw). exists s'. split; [done|].
  intros stream Hw' Hcat. rewrite Hw in Hw'. injection Hw' as <-.
  apply (receive_all_frames from c chunks bs []); [done|done|done|]. intros ->. destruct bs as [|b bs]; [done|].
  apply (f_equal length) in Hcat. cbn [mjoin list_join fmap list_fmap] in Hcat. rewrite length_app, length_packet in Hcat. cbn in Hcat. lia.
Qed.

Lemma tcp_transparent_witness :
  let a := (V4 [10; 0; 0; 1], 7000) in let s := (send_all bind a [[1; 2; 3]; [9]]).2 in
  written s !! 0%nat = Some [0; 3; 1; 2; 3; 0; 1; 9]
  /\ rx (receive_all (accept bind (V4 [10; 0; 0; 2], 5)) 0 [[0]; [3; 1; 2]; [3; 0; 1]; [9]]) = [((V4 [10; 0; 0; 2], 5), [1; 2; 3]); ((V4 [10; 0; 0; 2], 5), [9])].
Proof.
  cbv zeta. split; [vm_compute; reflexivity|].
  destruct (tcp_transparent bind (accept bind (V4 [10; 0; 0; 2], 5)) (V4 [10; 0; 0; 1], 7000) (V4 [10; 0; 0; 2], 5) 0 [[1; 2; 3]; [9]]
              [[0]; [3; 1; 2]; [3; 0; 1]; [9]]) as (s' & E & H).
  - repeat constructor; try discriminate; cbn; unfold MAX_FRAME; lia.
  - discriminate.
  - reflexivity.
  - vm_compute; reflexivity.
  - destruct (H [0; 3; 1; 2; 3; 0; 1; 9]) as [Hx _]; [|reflexivity|exact Hx].
    replace s' with (send_all bind (V4 [10; 0; 0; 1], 7000) [[1; 2; 3]; [9]]).2 by (rewrite E; reflexivity). vm_compute; reflexivity.
Defined.

(** ** What a transport holds at any time *)

Inductive Op :=
| OpAccept (peer : IpAddr * Z)
| OpSend (connect : bool) (w : WriteResult) (addr : IpAddr * Z) (buf : list Z)
| OpReceive (c : nat) (chunk : list Z)
| OpEof (c : nat)
| OpRecv.

Definition run_op (t : TcpTransport) (o : Op) : TcpTransport :=
  match o with
  | OpAccept peer => accept t peer
  | OpSend k w addr buf => (send_frame k w t addr buf).2
  | OpReceive c chunk => receive t c chunk
  | OpEof c => end_of_stream t c
  | OpRecv => (recv_frame t).2
  end.

(** The table is bounded, two addresses never share a connection, a reader waits for less
    than a frame, and what is queued are frames of a legal length. *)
Record bounded (t : TcpTransport) : Prop := {
  b_table : (size (conns t) <= MAX_TCP_CONNS)%nat;
  b_conn : map_Forall (fun _ c => (c < next_conn t)%nat) (conns t);
  b_inj : forall a a' c, conns t !! a = Some c -> conns t !! a' = Some c -> a = a';
  b_reader : map_Forall (fun _ r => (length (snd r) < 2 + MAX_FRAME)%nat) (readers t);
  b_rx : Forall (fun x => fits (snd x)) (rx t)
}.

Lemma read_packet_fits buf p rest : read_packet buf = Some (Some (p, rest)) -> fits p /\ (length rest < length buf)%nat.
Proof.
  unfold read_packet. case_decide; [done|]. cbv zeta. case_decide as Hl; [done|]. case_decide as Hb; [done|]. intros [= <- <-].
  unfold fits. rewrite length_take, !length_drop. split_and!; [|lia|lia].
  intros E. apply (f_equal length) in E. rewrite length_take, length_drop in E. cbn in E. lia.
Qed.

Lemma read_packet_waits buf : read_packet buf = Some None -> (length buf < 2 + MAX_FRAME)%nat.
Proof. unfold read_packet. case_decide; [unfold MAX_FRAME; lia|]. cbv zeta. case_decide; [done|]. case_decide; [lia|done]. Qed.

Lemma drain_fits fuel : forall buf ps r, (length buf <= fuel)%nat -> drain fuel buf = (ps, r) ->
  Forall fits ps /\ (forall rest, r = Some rest -> (length rest < 2 + MAX_FRAME)%nat).
Proof.
  induction fuel as [|fuel IH]; intros buf ps r Hl E; cbn [drain] in E.
  - injection E as <- <-. split; [constructor|]. intros rest [= <-]. unfold MAX_FRAME. lia.
  - destruct (read_packet buf) as [[[p rest]|]|] eqn:Er; [|injection E as <- <-..].
    + apply read_packet_fits in Er as [Hp Hr]. destruct (drain fuel rest) as [qs r'] eqn:Ed. injection E as <- <-.
      apply IH in Ed as [Hf Hw]; [|lia]. split; [by constructor|done].
    + split; [constructor|]. intros rest [= <-]. by apply read_packet_waits.
    + by split; [constructor|].
Qed.

Lemma insert_conn_size m a c : (size m <= MAX_TCP_CONNS -> size (insert_conn m a c) <= MAX_TCP_CONNS)%nat.
Proof.
  intros Hs. unfold insert_conn. case_decide.
  - rewrite map_size_insert, lookup_empty, map_size_empty. cbn. unfold MAX_TCP_CONNS. lia.
  - rewrite map_size_insert. destruct (m !! a); cbn; lia.
Qed.

Lemma insert_conn_lookup m a c x d : insert_conn m a c !! x = Some d -> (x = a /\ d = c) \/ m !! x = Some d.
Proof.
  unfold insert_conn. intros H. destruct (decide (x = a)) as [->|Hne]; [rewrite lookup_insert_eq in H; left; by simplify_eq|].
  right. rewrite lookup_insert_ne in H by done. by case_decide.
Qed.

Lemma add_conn_bounded t a : bounded t -> bounded (add_conn t a).2.
Proof.
  intros [Ht Hc Hi Hr Hx]. split; cbn; [by apply insert_conn_size| | |  |done].
  - intros x c [[-> ->]|H]%insert_conn_lookup; [lia|]. apply Hc in H. lia.
  - intros x y c H1 H2. apply insert_conn_lookup in H1 as [[-> ->]|H1], H2 as [[-> E2]|H2]; [done| | |by eapply Hi].
    + apply Hc in H2. lia.
    + subst c. apply Hc in H1. lia.
  - apply map_Forall_insert_2; [unfold MAX_FRAME; cbn; lia|done].
Qed.

Lemma write_bytes_bounded t c b : bounded t -> bounded (write_bytes t c b).
Proof. by intros []. Qed.

Lemma drop_conn_bounded t a : bounded t -> bounded (drop_conn t a).
Proof.
  intros [Ht Hc Hi Hr Hx]. split; cbn; [|by apply map_Forall_delete| |done|done].
  - rewrite map_size_delete. destruct (conns t !! a); cbn; lia.
  - intros x y c [_ H1]%lookup_delete_Some [_ H2]%lookup_delete_Some. by eapply Hi.
Qed.

Lemma send_bounded k w t a b : bounded t -> bounded (send_frame k w t a b).2.
Proof.
  intros H. unfold send_frame. case_match; [done|].
  assert (forall c t', bounded t' -> bounded (match w with
    | WriteAll => (Some (Ok (Z.of_nat (length b))), write_bytes t' c (packet b))
    | WriteError k => (Some (Err WriteFailed), drop_conn (write_bytes t' c (take k (packet b))) a)
    | WriteDropped k => (@None (outcome IoError Z), write_bytes t' c (take k (packet b))) end).2) as Hw.
  { intros c t' Ht. destruct w; cbn; [|apply drop_conn_bounded|]; by apply write_bytes_bounded. }
  destruct (conns t !! a); [by apply Hw|]. destruct k; [|done]. apply Hw. by apply (add_conn_bounded t a).
Qed.

Lemma receive_bounded t c ch : bounded t -> bounded (receive t c ch).
Proof.
  intros H. unfold receive. destruct (readers t !! c) as [[a buf]|]; [|done].
  destruct (drain _ _) as [ps r] eqn:Ed. apply drain_fits in Ed as [Hps Hrest]; [|lia]. destruct H as [Ht Hc Hi Hr Hx].
  split; cbn; [done|done|done| |].
  - destruct r as [rest|]; [apply map_Forall_insert_2; [by apply Hrest|done]|by apply map_Forall_delete].
  - apply Forall_app. split; [done|]. apply Forall_fmap. by apply (list.Forall_impl _ _ _ Hps).
Qed.

Lemma run_op_bounded t o : bounded t -> bounded (run_op t o).
Proof.
  intros H. destruct o; cbn [run_op].
  - by apply add_conn_bounded.
  - by apply send_bounded.
  - by apply receive_bounded.
  - destruct H as [Ht Hc Hi Hr Hx]. split; cbn; [done|done|done|by apply map_Forall_delete|done].
  - unfold recv_frame. destruct (rx t) as [|x l] eqn:E; [done|]. destruct H as [Ht Hc Hi Hr Hx]. rewrite E in Hx.
    apply Forall_cons_1 in Hx as [_ Hx]. by split.
Qed.

(** C33: whatever peers connect and send, whatever is sent, and however writes fail, the table
    of the connections the transport writes to never has more than 1024 entries, never one connection for two
    addresses; each reader that is running buffers less than a length and a whole frame; and what is handed up are
    frames of one to 2048 bytes only.  A frame that is accepted for sending finds or makes a
    connection in the table; the other entries stay, except that a table that was full when one
    had to be made has been emptied for it.  A frame that is refused changes nothing.  The readers of
    connections that are not in the table any more go on: their number is not bounded. *)
Theorem transport_bounded (ops : list Op) : let t := foldl run_op bind ops in
  bounded t
  /\ forall k a b r, (send_frame k WriteAll t a b).1 = Some r ->
       let t' := (send_frame k WriteAll t a b).2 in
       match r with
       | Ok n => n = Z.of_nat (length b) /\ is_Some (conns t' !! a) /\
           forall x, x <> a -> conns t' !! x = if decide (conns t !! a = None /\ size (conns t) = MAX_TCP_CONNS) then None else conns t !! x
       | Err e => (e = InvalidInput \/ e = ConnectFailed) /\ t' = t
       | Panic => False
       end.
Proof.
  assert (Hb : bounded (foldl run_op bind ops)).
  { apply (foldl_keeps bounded); [intros; by apply run_op_bounded|]. split; cbn; [apply Nat.le_0_l|apply map_Forall_empty|done|apply map_Forall_empty|constructor]. }
  cbv zeta. split; [done|]. intros k a b r. pose proof (b_table _ Hb) as Hs. revert Hs. generalize (foldl run_op bind ops). intros t Hs.
  unfold send_frame. case_match; [by intros [= <-]; eauto|].
  destruct (conns t !! a) as [c|] eqn:Ec; cbn.
  - intros [= <-]. rewrite Ec. split; [done|]. split; [done|]. intros x _. by rewrite decide_False by (by intros [? _]).
  - destruct k; cbn; intros [= <-]; [|by eauto]. split; [done|]. unfold insert_conn. rewrite lookup_insert_eq. split; [done|]. intros x Hx.
    rewrite lookup_insert_ne by done. destruct (decide (MAX_TCP_CONNS <= size (conns t))%nat); [rewrite decide_True by (split; [done|lia])|rewrite decide_False by lia]; done.
Qed.

Lemma transport_bounded_witness :
  let t := foldl run_op bind [OpAccept (V4 [10; 0; 0; 1], 7000); OpReceive 0 (packet [5; 6])] in
  bounded t /\ is_Some (conns (send_frame true WriteAll t (V4 [10; 0; 0; 2], 7000) [9]).2 !! (V4 [10; 0; 0; 2], 7000)).
Proof.
  destruct (transport_bounded [OpAccept (V4 [10; 0; 0; 1], 7000); OpReceive 0 (packet [5; 6])]) as [H1 H2]. split; [exact H1|].
  destruct (H2 true (V4 [10; 0; 0; 2], 7000) [9] (Ok 1)) as (_ & H & _); [reflexivity|exact H].
Defined.

(** ** Where the two ends disagree *)

(** A frame longer than the receiver takes is sent and reported as sent; the reader ends on
    it, and every frame behind it is lost. *)
Lemma oversize_cuts t r a c d b buf from : (MAX_FRAME < length b)%nat -> Z.of_nat (length b) <= 65535 ->
  conns t !! a = Some c -> readers r !! d = Some (from, []) ->
  (send_frame true WriteAll t a b).1 = Some (Ok (Z.of_nat (length b))) /\ rx (receive r d (packet b ++ buf)) = rx r
  /\ readers (receive r d (packet b ++ buf)) !! d = None.
Proof.
  intros Hl Hm Hc Hr. assert (b <> []) as Hne by (intros ->; cbn in Hl; lia). split.
  - unfold send_frame. by rewrite Hc, !bool_decide_eq_false_2 by (done || lia).
  - unfold receive. rewrite Hr. cbn [app]. destruct (length (packet b ++ buf)) as [|n] eqn:En.
    { rewrite length_app, length_packet in En. lia. }
    cbn [drain]. unfold read_packet. rewrite decide_False by (rewrite length_app, length_packet; lia).
    rewrite packet_length by lia. rewrite Nat2Z.id. cbv zeta. rewrite decide_True by lia. cbn. by rewrite app_nil_r, lookup_delete_eq.
Qed.

(** Emptying the table ends no connection: with every connection that is accepted one more
    reader runs, whatever the table holds. *)
Lemma accepts_readers peers : forall t, map_Forall (fun c _ => (c < next_conn t)%nat) (readers t) ->
  size (readers (foldl accept t peers)) = (size (readers t) + length peers)%nat.
Proof.
  induction peers as [|p peers IH]; intros t Ht; cbn [foldl length]; [lia|]. rewrite IH; cbn.
  - rewrite map_size_insert_None; [lia|]. destruct (readers t !! next_conn t) eqn:E; [|done]. apply Ht in E. lia.
  - apply map_Forall_insert_2; [lia|]. intros c x Hc. apply Ht in Hc. lia.
Qed.

Lemma readers_unbounded (p : IpAddr * Z) n : exists ops, let t := foldl run_op bind ops in size (readers t) = n /\ (size (conns t) <= 1)%nat.
Proof.
  exists (OpAccept <$> replicate n p). cbv zeta. assert (E : forall l t, foldl run_op t (OpAccept <$> l) = foldl accept t l) by (induction l as [|x l IH]; intros t; [done|]; apply (IH (accept t x))).
  rewrite E. split; [rewrite accepts_readers, length_replicate; [done|apply map_Forall_empty]|].
  assert (H : forall n t, (forall x, is_Some (conns t !! x) -> x = p) -> forall x, is_Some (conns (foldl accept t (replicate n p)) !! x) -> x = p).
  { clear. induction n as [|n IH]; intros t Ht; [done|]. cbn [replicate foldl]. apply IH. cbn. intros x [c [[-> _]|H]%insert_conn_lookup]; [done|]. apply Ht. by exists c. }
  specialize (H n bind (fun x Hx => match is_Some_None Hx with end)). set (m := conns _) in *. clearbody m.
  rewrite <- size_dom. apply Nat.le_trans with (size ({[ p ]} : gset (IpAddr * Z))); [|by rewrite size_singleton].
  apply subseteq_size. intros x Hx%elem_of_dom. apply elem_of_singleton. by apply H.
Qed.

(** A send that is given up in the middle leaves its connection in the table; the next frame
    is read as the rest of the first. *)
Example dropped_send_mixes :
  let a := (V4 [10; 0; 0; 1], 7000) in let p := (V4 [10; 0; 0; 2], 5) in
  let t := (send_frame true WriteAll (send_frame true (WriteDropped 3) bind a [1; 2; 3; 4]).2 a [0; 9]).2 in
  written t !! 0%nat = Some [0; 4; 1; 0; 2; 0; 9] /\ rx (receive (accept bind p) 0 [0; 4; 1; 0; 2; 0; 9]) = [(p, [1; 0; 2; 0])].
Proof. split; vm_compute; reflexivity. Qed.

(** The two transports draw the line for the longest frame differently. *)
Lemma udp_line b : udp_recv b = Ok b <-> (length b < MAX_FRAME)%nat.
Proof. unfold udp_recv. case_decide; split; (done || lia). Qed.

End Transport.
