(* ===== verification/LogStore.v ===== *)
(** * The log of a replica on disk (rill-coord/src/raft/log_store.rs)

    Two tables of a database: entries by index, and the vote and the purge pointer by
    name, all as serialized bytes.  A write transaction is made durable as a whole or not
    at all; which of the two happens is an argument of each operation.  The store looks
    at nothing of an entry but its identifier, so the types of entries and votes, which
    belong to the Raft library, are parameters with their encoding. *)

From S2P Require Import Prelude Replica.

Module LogStore.
Definition LogId : Type := Replica.LogId.

(** What is serialized is read back. *)
Class LogSerde (E V : Type) := {
  entry_id : E -> LogId;
  entry_vec : E -> list Z;
  entry_of : list Z -> option E;
  id_vec : LogId -> list Z;
  id_of : list Z -> option LogId;
  vote_vec : V -> list Z;
  vote_of : list Z -> option V
}.

Class LogSerdeLaws {E V} (D : LogSerde E V) := {
  entry_back : forall e, entry_of (entry_vec e) = Some e;
  id_back : forall i, id_of (id_vec i) = Some i;
  vote_back : forall v, vote_of (vote_vec v) = Some v
}.

Inductive StorageError := Db | De.

(** A table that no write has opened does not exist. *)
Record RaftLogStore := mk_store { log_table : option (gmap Z (list Z)); meta_table : option (gmap string (list Z)) }.

Definition create : RaftLogStore := mk_store None None.

Definition VOTE_KEY : string := "vote".
Definition PURGED_KEY : string := "last_purged".

Section Store.
Context {E V : Type} `{D : LogSerde E V}.

(** [wtx.commit]. *)
Definition commit (io : bool) (old new : RaftLogStore) : outcome StorageError unit * RaftLogStore :=
  if io then (Ok tt, new) else (Err Db, old).

Definition read_meta {T} (de : list Z -> option T) (s : RaftLogStore) (key : string) : outcome StorageError (option T) :=
  match meta_table s with
  | None => Ok None
  | Some t =>
      match t !! key with
      | Some b => match de b with Some v => Ok (Some v) | None => Err De end
      | None => Ok None
      end
  end.

(** The keys of a range, in the order of the table. *)
Definition keys_in (r : Z -> bool) (t : gmap Z (list Z)) : list Z := List.filter r (sort Z.leb (fst <$> map_to_list t)).

Definition table_last (t : gmap Z (list Z)) : option (list Z) := k ← list.last (keys_in (fun _ => true) t); t !! k.

Definition remove_keys (t : gmap Z (list Z)) (ks : list Z) : gmap Z (list Z) := foldl (fun t k => delete k t) t ks.

(** [LogState]: the purge pointer and the last identifier. *)
Definition get_log_state (s : RaftLogStore) : outcome StorageError (option LogId * option LogId) :=
  last_purged ← read_meta id_of s PURGED_KEY;
  match log_table s with
  | None => Ok (last_purged, None)
  | Some t =>
      last ← (match table_last t with
              | Some b => match entry_of b with Some e => Ok (Some (entry_id e)) | None => Err De end
              | None => Ok None
              end);
      Ok (last_purged, match last with Some i => Some i | None => last_purged end)
  end.

Definition save_vote (io : bool) (s : RaftLogStore) (v : V) : outcome StorageError unit * RaftLogStore :=
  commit io s (mk_store (log_table s) (Some (<[VOTE_KEY := vote_vec v]> (default ∅ (meta_table s))))).

Definition read_vote (s : RaftLogStore) : outcome StorageError (option V) := read_meta vote_of s VOTE_KEY.

Definition append (io : bool) (s : RaftLogStore) (es : list E) : outcome StorageError unit * RaftLogStore :=
  let serialized := (fun e => ((entry_id e).1, entry_vec e)) <$> es in
  commit io s (mk_store (Some (foldl (fun t x => <[x.1 := x.2]> t) (default ∅ (log_table s)) serialized)) (meta_table s)).

Definition truncate (io : bool) (s : RaftLogStore) (log_id : LogId) : outcome StorageError unit * RaftLogStore :=
  let t := default ∅ (log_table s) in
  commit io s (mk_store (Some (remove_keys t (keys_in (fun k => log_id.1 <=? k) t))) (meta_table s)).

Definition purge (io : bool) (s : RaftLogStore) (log_id : LogId) : outcome StorageError unit * RaftLogStore :=
  let t := default ∅ (log_table s) in
  commit io s (mk_store (Some (remove_keys t (keys_in (fun k => k <=? log_id.1) t)))
                        (Some (<[PURGED_KEY := id_vec log_id]> (default ∅ (meta_table s))))).

Fixpoint decode_entries (l : list (list Z)) : outcome StorageError (list E) :=
  match l with
  | [] => Ok []
  | b :: l => match entry_of b with Some e => es ← decode_entries l; Ok (e :: es) | None => Err De end
  end.

Definition try_get_log_entries (s : RaftLogStore) (range : Z -> bool) : outcome StorageError (list E) :=
  match log_table s with
  | None => Ok []
  | Some t => decode_entries (omap (fun k => t !! k) (keys_in range t))
  end.

(** ** The log it stands for *)

(** Identifier of the last entry that was purged, the entries behind it, the vote. *)
Record Log := mk_log { purged : option LogId; entries : list E; vote : option V }.

Definition empty_log : Log := mk_log None [] None.

Definition first (l : Log) : Z := match purged l with Some p => p.1 + 1 | None => 0 end.
Definition next (l : Log) : Z := first l + Z.of_nat (length (entries l)).

Inductive LogOp := Append (es : list E) | Truncate (i : LogId) | Purge (i : LogId) | SaveVote (v : V).

(** What the library calls: it appends behind the log, and the purge pointer does not go back. *)
Definition allowed (l : Log) (o : LogOp) : Prop :=
  match o with
  | Append es => (fun e => (entry_id e).1) <$> es = seqZ (next l) (Z.of_nat (length es))
  | Purge i => first l <= i.1 + 1
  | Truncate _ | SaveVote _ => True
  end.

Definition log_op (l : Log) (o : LogOp) : Log :=
  match o with
  | Append es => mk_log (purged l) (entries l ++ es) (vote l)
  | Truncate i => mk_log (purged l) (take (Z.to_nat (i.1 - first l)) (entries l)) (vote l)
  | Purge i => mk_log (Some i) (drop (Z.to_nat (i.1 + 1 - first l)) (entries l)) (vote l)
  | SaveVote v => mk_log (purged l) (entries l) (Some v)
  end.

Definition store_op (io : bool) (s : RaftLogStore) (o : LogOp) : outcome StorageError unit * RaftLogStore :=
  match o with
  | Append es => append io s es
  | Truncate i => truncate io s i
  | Purge i => purge io s i
  | SaveVote v => save_vote io s v
  end.

(** A store after operations, some of which failed, and the log of those that did not. *)
Inductive runs : RaftLogStore -> Log -> Prop :=
| runs_create : runs create empty_log
| runs_op s l o io : runs s l -> allowed l o -> runs (store_op io s o).2 (if io then log_op l o else l).

(** The identifiers of a log have no gaps. *)
Definition gapless (l : Log) : Prop := (fun e => (entry_id e).1) <$> entries l = seqZ (first l) (Z.of_nat (length (entries l))).

Definition table_of (i : Z) (es : list E) : gmap Z (list Z) := list_to_map (zip (seqZ i (Z.of_nat (length es))) (entry_vec <$> es)).

Record stands (s : RaftLogStore) (l : Log) : Prop := {
  st_log : default ∅ (log_table s) = table_of (first l) (entries l);
  st_open : log_table s = None -> purged l = None;
  st_purged : meta_table s ≫= (.!! PURGED_KEY) = id_vec <$> purged l;
  st_vote : meta_table s ≫= (.!! VOTE_KEY) = vote_vec <$> vote l;
  st_gap : gapless l
}.

Lemma lookup_table_of i es k : table_of i es !! k = if decide (i <= k) then entry_vec <$> es !! Z.to_nat (k - i) else None.
Proof.
  unfold table_of. revert i. induction es as [|e es IH]; intros i; cbn [length fmap list_fmap].
  - transitivity (None : option (list Z)); [by apply lookup_empty|by case_decide].
  - rewrite Nat2Z.inj_succ, seqZ_cons by lia. rewrite Z.pred_succ.
    change (zip (i :: ?l) (?b :: ?bs)) with ((i, b) :: zip l bs). rewrite list_to_map_cons.
    destruct (decide (k = i)) as [->|Hne].
    + rewrite lookup_insert_eq, decide_True, Z.sub_diag by lia. done.
    + rewrite lookup_insert_ne by done.
      rewrite IH. case_decide; case_decide; try done; try lia.
      replace (Z.to_nat (k - i)) with (S (Z.to_nat (k - Z.succ i))) by lia. done.
Qed.

Lemma sort_seqZ n i : sort Z.leb (seqZ i (Z.of_nat n)) = seqZ i (Z.of_nat n).
Proof.
  revert i. induction n as [|n IH]; intros i; [done|]. rewrite Nat2Z.inj_succ, seqZ_cons by lia. rewrite Z.pred_succ.
  cbn [sort foldr]. fold (sort Z.leb (seqZ (Z.succ i) (Z.of_nat n))). rewrite IH. destruct n as [|n]; [done|].
  rewrite Nat2Z.inj_succ, seqZ_cons by lia. cbn [insert_by]. by rewrite (proj2 (Z.leb_le i (Z.succ i))) by lia.
Qed.

Lemma table_of_perm i es : map_to_list (table_of i es) ≡ₚ zip (seqZ i (Z.of_nat (length es))) (entry_vec <$> es).
Proof. apply map_to_list_to_map. rewrite fst_zip by (rewrite length_seqZ, length_fmap; lia). apply NoDup_seqZ. Qed.

Lemma keys_table_of i es r : keys_in r (table_of i es) = List.filter r (seqZ i (Z.of_nat (length es))).
Proof.
  unfold keys_in. f_equal. rewrite <- (sort_seqZ (length es) i). apply sort_unique; [lia|lia| |].
  - intros x y _ _. lia.
  - rewrite table_of_perm, fst_zip; [done|]. rewrite length_seqZ, length_fmap. lia.
Qed.

Lemma lookup_remove ks : forall t (k : Z), remove_keys t ks !! k = if decide (k ∈ ks) then None else t !! k.
Proof.
  unfold remove_keys. induction ks as [|x ks IH]; intros t k; cbn [foldl]; [by rewrite decide_False by (by intros ?%elem_of_nil)|].
  rewrite IH. destruct (decide (k ∈ ks)) as [Hk|Hk]; [by rewrite decide_True by by right|]. destruct (decide (k = x)) as [->|Hx].
  - rewrite lookup_delete_eq. by rewrite decide_True by left.
  - rewrite lookup_delete_ne by done. rewrite decide_False; [done|]. by intros [?|?]%elem_of_cons.
Qed.

Lemma elem_keys_in r t k : k ∈ keys_in r t <-> r k = true /\ is_Some (t !! k).
Proof.
  unfold keys_in. rewrite elem_of_bfilter, elem_of_sort, list_elem_of_fmap. split.
  - intros [([k' b] & -> & H%elem_of_map_to_list) Hr]. cbn. by eauto.
  - intros [Hr [b H]]. split; [|done]. exists (k, b). by rewrite elem_of_map_to_list.
Qed.

(** Removing a range leaves what is not in it. *)
Lemma lookup_remove_range r t k : remove_keys t (keys_in r t) !! k = if r k then None else t !! k.
Proof.
  rewrite lookup_remove. case_decide as H; rewrite elem_keys_in in H; destruct (r k); try done; [by destruct H|].
  destruct (t !! k) eqn:Et; [|done]. exfalso. apply H. eauto.
Qed.

Lemma gapless_lookup l k e : gapless l -> entries l !! k = Some e -> (entry_id e).1 = first l + Z.of_nat k.
Proof.
  intros Hg He. apply (f_equal (.!! k)) in Hg. rewrite list_lookup_fmap, He in Hg. cbn in Hg. symmetry in Hg.
  apply lookup_seqZ in Hg as [-> _]. done.
Qed.

(** Inserting consecutive entries behind a table. *)
Lemma insert_all_lookup es : forall i (t : gmap Z (list Z)) k, (fun e => (entry_id e).1) <$> es = seqZ i (Z.of_nat (length es)) ->
  foldl (fun t x => <[x.1 := x.2]> t) t ((fun e => ((entry_id e).1, entry_vec e)) <$> es) !! k
  = match table_of i es !! k with Some b => Some b | None => t !! k end.
Proof.
  induction es as [|e es IH]; intros i t k Hi.
  - by rewrite lookup_table_of; case_decide.
  - cbn [length] in Hi. rewrite Nat2Z.inj_succ, seqZ_cons, Z.pred_succ in Hi by lia. rewrite fmap_cons in Hi. injection Hi as Hi Hs.
    rewrite fmap_cons. cbn [foldl]. rewrite (IH (Z.succ i)) by done. rewrite !lookup_table_of. cbn [fst snd]. rewrite Hi.
    destruct (decide (k = i)) as [->|Hne].
    + rewrite decide_False by lia. rewrite lookup_insert_eq, decide_True, Z.sub_diag by lia. done.
    + rewrite lookup_insert_ne by done. case_decide; [rewrite decide_True by lia|by rewrite decide_False by lia].
      by replace (Z.to_nat (k - i)) with (S (Z.to_nat (k - Z.succ i))) by lia.
Qed.

Lemma append_table s l es : stands s l -> allowed l (Append es) ->
  foldl (fun t x => <[x.1 := x.2]> t) (default ∅ (log_table s)) ((fun e => ((entry_id e).1, entry_vec e)) <$> es) = table_of (first l) (entries l ++ es).
Proof.
  intros Hs Ha. apply map_eq. intros k. rewrite (insert_all_lookup es (next l)) by done. rewrite (st_log _ _ Hs), !lookup_table_of. unfold next.
  destruct (decide (first l <= k)) as [Hk|Hk]; [|by rewrite decide_False by lia].
  destruct (decide (first l + Z.of_nat (length (entries l)) <= k)) as [Hn|Hn].
  - rewrite lookup_app_r by lia. replace (Z.to_nat (k - first l) - length (entries l))%nat with (Z.to_nat (k - (first l + Z.of_nat (length (entries l))))) by lia.
    rewrite (lookup_ge_None_2 (entries l)) by lia. by destruct (es !! _).
  - by rewrite lookup_app_l by lia.
Qed.

Lemma truncate_table s l (i : LogId) : stands s l ->
  remove_keys (default ∅ (log_table s)) (keys_in (fun k => i.1 <=? k) (default ∅ (log_table s)))
  = table_of (first l) (take (Z.to_nat (i.1 - first l)) (entries l)).
Proof.
  intros Hs. apply map_eq. intros k. rewrite lookup_remove_range, (st_log _ _ Hs), !lookup_table_of.
  destruct (decide (first l <= k)) as [Hk|Hk]; [|by case_match]. destruct (Z.leb_spec i.1 k).
  - rewrite lookup_take_ge by lia. done.
  - by rewrite lookup_take_lt by lia.
Qed.

Lemma purge_table s l (i : LogId) : stands s l -> first l <= i.1 + 1 ->
  remove_keys (default ∅ (log_table s)) (keys_in (fun k => k <=? i.1) (default ∅ (log_table s)))
  = table_of (i.1 + 1) (drop (Z.to_nat (i.1 + 1 - first l)) (entries l)).
Proof.
  intros Hs Hi. apply map_eq. intros k. rewrite lookup_remove_range, (st_log _ _ Hs), !lookup_table_of.
  destruct (Z.leb_spec k i.1); [by rewrite (decide_False (P := i.1 + 1 <= k)) by lia|]. rewrite !decide_True by lia.
  rewrite lookup_drop. do 2 f_equal. lia.
Qed.

Lemma seqZ_take (n : nat) i m : take n (seqZ i (Z.of_nat m)) = seqZ i (Z.of_nat (n `min` m)).
Proof.
  apply list_eq. intros k. destruct (decide (k < n)%nat); [rewrite lookup_take_lt by done|rewrite lookup_take_ge by lia].
  - destruct (decide (k < m)%nat); [by rewrite !lookup_seqZ_lt by lia|by rewrite !lookup_seqZ_ge by lia].
  - by rewrite lookup_seqZ_ge by lia.
Qed.

Lemma seqZ_drop (n : nat) i m : drop n (seqZ i (Z.of_nat m)) = seqZ (i + Z.of_nat n) (Z.of_nat (m - n)).
Proof.
  apply list_eq. intros k. rewrite lookup_drop. destruct (decide (n + k < m)%nat).
  - rewrite !lookup_seqZ_lt by lia. f_equal. lia.
  - by rewrite !lookup_seqZ_ge by lia.
Qed.

Lemma op_gapless l o : gapless l -> allowed l o -> gapless (log_op l o).
Proof.
  unfold gapless. intros Hg Ha. destruct o as [es|i|i|v]; cbn [log_op entries purged]; [| | |done].
  - rewrite fmap_app, Hg, Ha, length_app, Nat2Z.inj_add, seqZ_app by lia. done.
  - rewrite fmap_take, Hg, seqZ_take, length_take. done.
  - rewrite fmap_drop, Hg, seqZ_drop, length_drop. cbn in Ha. unfold first at 1. cbn [purged].
    destruct (decide (Z.to_nat (i.1 + 1 - first l) <= length (entries l))%nat); [f_equal; unfold first in *; cbn in *; destruct (purged l); lia|].
    replace (length (entries l) - Z.to_nat (i.1 + 1 - first l))%nat with 0%nat by lia. done.
Qed.

Lemma runs_stands s l : runs s l -> stands s l.
Proof.
  induction 1 as [|s l o io _ IH Ha]; [by split|]. destruct io; [|by destruct o].
  pose proof (op_gapless l o (st_gap _ _ IH) Ha) as Hg. pose proof IH as [Hl Ho Hp Hv _].
  destruct o as [es|i|i|v]; cbn; split; cbn; try done.
  - exact (append_table s l es IH Ha).
  - exact (truncate_table s l i IH).
  - exact (purge_table s l i IH Ha).
  - by rewrite lookup_insert_eq.
  - rewrite lookup_insert_ne by done. rewrite <- Hv. by destruct (meta_table s).
  - rewrite lookup_insert_ne by done. rewrite <- Hp. by destruct (meta_table s).
  - by rewrite lookup_insert_eq.
Qed.

Context `{!LogSerdeLaws D}.

Lemma read_meta_stands {T} (de : list Z -> option T) (ser : T -> list Z) s key x : (forall v, de (ser v) = Some v) ->
  meta_table s ≫= (.!! key) = ser <$> x -> read_meta de s key = Ok x.
Proof.
  intros Hb H. unfold read_meta. destruct (meta_table s) as [t|]; cbn in H; [|by destruct x].
  rewrite H. destruct x; [cbn; by rewrite Hb|done].
Qed.

Lemma decode_all es : decode_entries (entry_vec <$> es) = Ok es.
Proof. induction es as [|e es IH]; [done|]. rewrite fmap_cons. cbn [decode_entries]. by rewrite entry_back, IH. Qed.

(** The values of a range of a table are those of the entries of the range. *)
Lemma range_values i r es : forall j (t : gmap Z (list Z)), (forall k e, es !! k = Some e -> t !! (j + Z.of_nat k) = Some (entry_vec e) /\ (entry_id e).1 = i + Z.of_nat k) -> j = i ->
  omap (fun k => t !! k) (List.filter r (seqZ j (Z.of_nat (length es)))) = entry_vec <$> List.filter (fun e => r (entry_id e).1) es.
Proof.
  revert i. induction es as [|e es IH]; intros i j t Ht ->; [done|]. cbn [length]. rewrite Nat2Z.inj_succ, seqZ_cons, Z.pred_succ by lia.
  destruct (Ht 0%nat e eq_refl) as [H0 Hi]. rewrite Z.add_0_r in H0, Hi. cbn [List.filter]. rewrite Hi.
  assert (IH' : omap (fun k => t !! k) (List.filter r (seqZ (Z.succ i) (Z.of_nat (length es)))) = entry_vec <$> List.filter (fun e => r (entry_id e).1) es).
  { apply (IH (Z.succ i)); [|done]. intros k x Hx. destruct (Ht (S k) x Hx) as [H1 H2]. replace (Z.succ i + Z.of_nat k) with (i + Z.of_nat (S k)) by lia. done. }
  destruct (r i); [|done]. cbn. rewrite H0. by f_equal.
Qed.

Lemma table_last_of i es : table_last (table_of i es) = entry_vec <$> list.last es.
Proof.
  unfold table_last. rewrite keys_table_of. assert (Hf : forall l : list Z, List.filter (fun _ => true) l = l) by (induction l; cbn; congruence).
  rewrite Hf. destruct es as [|e es _] using rev_ind; [done|]. rewrite length_app. cbn [length]. rewrite Nat2Z.inj_add, seqZ_app by lia.
  rewrite (seqZ_cons _ (Z.of_nat 1)) by lia. change (seqZ (Z.succ ?a) (Z.pred (Z.of_nat 1))) with (@nil Z). rewrite !last_snoc. cbn [mbind option_bind].
  rewrite lookup_table_of, decide_True by lia. replace (Z.to_nat (i + Z.of_nat (length es) - i)) with (length es) by lia.
  by rewrite lookup_app_r, Nat.sub_diag by lia.
Qed.

(** C30: the store is a log without gaps.  After any operations of the Raft library, with any
    of their transactions failing, the log on disk is the one that the successful operations
    made: its entries are numbered without a gap behind the purge pointer, any range of it is
    read back in order, its last identifier is that of the last entry or, when all are purged,
    the purge pointer, and the vote is the last one saved; an operation fails exactly when its
    transaction does. *)
Theorem log_refines (s : RaftLogStore) (l : Log) (Hr : runs s l) :
  gapless l
  /\ get_log_state s = Ok (purged l, match list.last (entries l) with Some e => Some (entry_id e) | None => purged l end)
  /\ (forall range, try_get_log_entries s range = Ok (List.filter (fun e => range (entry_id e).1) (entries l)))
  /\ read_vote s = Ok (vote l)
  /\ (forall io o, allowed l o -> (store_op io s o).1 = if io then Ok tt else Err Db).
Proof.
  apply runs_stands in Hr as [Hl Ho Hp Hv Hg]. split; [done|].
  assert (Hnil : log_table s = None -> entries l = []).
  { intros En. rewrite En in Hl. cbn in Hl. destruct (entries l) as [|e es] eqn:Ee; [done|]. exfalso.
    apply (f_equal (.!! first l)) in Hl. rewrite lookup_table_of, decide_True, Z.sub_diag, lookup_empty in Hl by lia. done. }
  split_and!.
  - unfold get_log_state. rewrite (read_meta_stands id_of id_vec s PURGED_KEY (purged l)) by (try apply id_back; done). cbn.
    destruct (log_table s) as [t|] eqn:Et; [|by rewrite Hnil, Ho by done]. cbn in Hl. subst t. rewrite table_last_of.
    destruct (list.last (entries l)); cbn; [by rewrite entry_back|done].
  - intros range. unfold try_get_log_entries. destruct (log_table s) as [t|] eqn:Et; [|by rewrite Hnil by done]. cbn in Hl. subst t.
    rewrite keys_table_of, (range_values (first l)); [apply decode_all| |done]. intros k e He. split; [|by apply gapless_lookup].
    rewrite lookup_table_of, decide_True by lia. replace (Z.to_nat (first l + Z.of_nat k - first l)) with k by lia. by rewrite He.
  - apply (read_meta_stands vote_of vote_vec); [apply vote_back|done].
  - intros io o _. by destruct o, io.
Qed.
End Store.

(** ** A concrete store *)

#[local] Instance sample_serde : LogSerde (LogId * Z) Z := {|
  entry_id := fst;
  entry_vec := fun e => [e.1.1; e.1.2; e.2];
  entry_of := fun b => match b with [i; t; x] => Some ((i, t), x) | _ => None end;
  id_vec := fun i => [i.1; i.2];
  id_of := fun b => match b with [i; t] => Some (i, t) | _ => None end;
  vote_vec := fun v => [v];
  vote_of := fun b => match b with [v] => Some v | _ => None end
|}.

#[local] Instance sample_laws : LogSerdeLaws sample_serde.
Proof. by split; [intros [[] ?]|intros []|]. Qed.

Definition sample_ops : list (LogOp (E := LogId * Z) (V := Z) * bool) :=
  [(Append [((0, 1), 10); ((1, 1), 11); ((2, 1), 12)], true); (Purge (1, 1), false); (Purge (1, 1), true); (SaveVote 7, true);
   (Truncate (2, 1), true)].

Lemma log_refines_witness :
  let s := foldl (fun s x => (store_op x.2 s x.1).2) create sample_ops in
  runs s (mk_log (Some (1, 1)) [] (Some 7)) /\ get_log_state s = Ok (Some (1, 1), Some (1, 1)).
Proof.
  cbv zeta. assert (H : runs (foldl (fun s x => (store_op x.2 s x.1).2) create sample_ops) (mk_log (Some (1, 1)) [] (Some 7))).
  { exact (runs_op _ _ (Truncate (2, 1)) true (runs_op _ _ (SaveVote 7) true (runs_op _ _ (Purge (1, 1)) true
             (runs_op _ _ (Purge (1, 1)) false (runs_op _ _ (Append [((0, 1), 10); ((1, 1), 11); ((2, 1), 12)]) true runs_create eq_refl)
             ltac:(cbn; lia)) ltac:(cbn; lia)) I) I). }
  split; [exact H|]. exact (proj1 (proj2 (log_refines _ _ H))).
Defined.

End LogStore.
