(* ===== verification/CoordRun.v ===== *)
(** * The coordinator's own tasks (rilld/src/coord_run.rs, rill-coord/src/echo.rs)

    The datagram task: it answers probes with the address they came from, and measures
    the relays in rounds (ping every endpoint of every candidate, wait, record who
    answered, propose a roster).  And the reload of the configuration on SIGHUP.
    Clocks, random nonces, the verdict of the rate limiter, the outcome of sends and of
    proposals to the log are arguments. *)

From S2P Require Import Prelude Crypto Net Route Control Registry AuthKey Coord PathService RouteMap Coordinator CoordinatorInv Roster Replica Probe Mesh Dispatch Messages Server CoordConfig.

Module CoordRun.
Import Net Coordinator CoordinatorInv Replica Server.

(** ** Echo *)

Definition NODE_ID_COORDINATOR : Z := 0.

Definition echo_response (request : list Z) (seen : IpAddr * Z) : option (list Z) :=
  ping ← Probe.decode request;
  if decide (Probe.packet_type ping <> Probe.PING \/ Probe.to_node_id ping <> NODE_ID_COORDINATOR) then None
  else Some (Probe.encode (Probe.pong ping (str_bytes (Dispatch.show_socket seen)))).

(** ** The datagram task *)

Definition RELAY_RTT_PERIOD : Z := 30 * 1000000000.
Definition RELAY_RTT_COLLECT : Z := 3 * 1000000000.

(** [rtt_probes]: network, node, endpoint and time of each ping, by its nonce. *)
Record UdpTask := mk_udp {
  rtt_probes : gmap Z (Z * Z * string * Z);
  rtt_done : gmap Z (gmap (Z * string) Z);
  probed_nodes : gmap Z (gset Z);
  collecting : bool;
  collect_deadline : Z;
  next_rtt : Z;
  answered : Rate.RateCounter;
  limited : Rate.RateCounter
}.

Definition udp_new (now : Z) : UdpTask :=
  mk_udp ∅ ∅ ∅ false now (now + RELAY_RTT_PERIOD) (Rate.new 1000000000 now) (Rate.new 1000000000 now).

Definition set_answered (t : UdpTask) (r : Rate.RateCounter) : UdpTask :=
  mk_udp (rtt_probes t) (rtt_done t) (probed_nodes t) (collecting t) (collect_deadline t) (next_rtt t) r (limited t).
Definition set_limited (t : UdpTask) (r : Rate.RateCounter) : UdpTask :=
  mk_udp (rtt_probes t) (rtt_done t) (probed_nodes t) (collecting t) (collect_deadline t) (next_rtt t) (answered t) r.

(** When the task wakes up of itself. *)
Definition until (t : UdpTask) : Z := if collecting t then collect_deadline t else next_rtt t.

(** A datagram: what is sent back, and the task. *)
Definition on_datagram (allow : bool) (now : Z) (t : UdpTask) (buf : list Z) (from : IpAddr * Z) : option (list Z) * UdpTask :=
  match Probe.decode buf with
  | None => (None, t)
  | Some p =>
      if decide (Probe.packet_type p = Probe.PING /\ Probe.to_node_id p = NODE_ID_COORDINATOR) then
        if allow then
          match echo_response buf from with
          | Some resp => (Some resp, set_answered t (Rate.tick (answered t)))
          | None => (None, t)
          end
        else (None, set_limited t (Rate.tick (limited t)))
      else if decide (Probe.packet_type p = Probe.PONG /\ collecting t = true) then
        match rtt_probes t !! Probe.nonce p with
        | Some (net_id, node, ep, sent) =>
            let rtt_ms := sat_sub now sent / 1000000 in
            (None, mk_udp (delete (Probe.nonce p) (rtt_probes t))
                     (<[net_id := <[(node, ep) := rtt_ms]> (default ∅ (rtt_done t !! net_id))]> (rtt_done t))
                     (probed_nodes t) (collecting t) (collect_deadline t) (next_rtt t) (answered t) (limited t))
        | None => (None, t)
        end
      else (None, t)
  end.

(** Every second the counters are read for the log. *)
Definition on_summary (now : Z) (t : UdpTask) : option Z * option Z * UdpTask :=
  let '(a, ra) := Rate.poll (answered t) now in
  let '(l, rl) := Rate.poll (limited t) now in
  (a, l, set_limited (set_answered t ra) rl).

(** *** A round opens *)

(** The sends of a round: the outcome, the nonce and the time of the k-th. *)
Record Sends := mk_sends { send_ok : nat -> bool; send_nonce : nat -> Z; send_at : nat -> Z }.

(** What goes out, with its destination; the number of pings tried; the task. *)
Definition Opening : Type := list ((IpAddr * Z) * list Z) * nat * UdpTask.

Definition ping_endpoint (x : Sends) (net node : Z) (o : Opening) (ep : string) : Opening :=
  let '(wire, k, t) := o in
  match parse_socket ep with
  | None => o
  | Some addr =>
      if send_ok x k then
        (wire ++ [(addr, Probe.encode (Probe.ping NODE_ID_COORDINATOR node (send_nonce x k)))], S k,
         mk_udp (<[send_nonce x k := (net, node, ep, send_at x k)]> (rtt_probes t)) (rtt_done t) (probed_nodes t)
           (collecting t) (collect_deadline t) (next_rtt t) (answered t) (limited t))
      else (wire, S k, t)
  end.

Definition ping_node (x : Sends) (net : Z) (o : Opening) (target : Z * list string) : Opening :=
  let '(wire, k, t) := o in
  let t := mk_udp (rtt_probes t) (rtt_done t) (<[net := default ∅ (probed_nodes t !! net) ∪ {[target.1]}]> (probed_nodes t))
             (collecting t) (collect_deadline t) (next_rtt t) (answered t) (limited t) in
  foldl (ping_endpoint x net target.1) (wire, k, t) target.2.

Section Task.
Context {Membership : Type}.
Context `{W : HashOrder} `{P : Crypto.Primitives} `{S : Registry.IdentitySigner} `{D : Serde}.

Definition ping_network (x : Sends) (c : Coordinator) (o : Opening) (net : Z) : Opening :=
  foldl (ping_node x net) o (relay_probe_targets c net).

Definition open_round (x : Sends) (now : Z) (networks : list Z) (c : Coordinator) (t : UdpTask) : list ((IpAddr * Z) * list Z) * UdpTask :=
  let t := mk_udp ∅ ∅ ∅ (collecting t) (collect_deadline t) (next_rtt t) (answered t) (limited t) in
  let '(wire, _, t) := foldl (ping_network x c) ([], 0%nat, t) networks in
  (wire, if decide (probed_nodes t <> ∅)
         then mk_udp (rtt_probes t) (rtt_done t) (probed_nodes t) true (now + RELAY_RTT_COLLECT) (next_rtt t) (answered t) (limited t)
         else mk_udp (rtt_probes t) (rtt_done t) (probed_nodes t) (collecting t) (collect_deadline t) (now + RELAY_RTT_PERIOD) (answered t) (limited t)).

(** *** A round closes *)

(** The best time of each node, over its endpoints. *)
Definition node_best (done : gmap (Z * string) Z) : gmap Z Z :=
  foldl (fun best '((node, _), rtt) => <[node := Z.min (default (2 ^ 64 - 1) (best !! node)) rtt]> best) ∅ (map_to_list done).

Definition round_results (probed : gset Z) (done : gmap (Z * string) Z) : list (Z * option Z) :=
  sort (fun a b => a.1 <=? b.1) ((fun node => (node, node_best done !! node)) <$> elements probed).

(** [with_coord_mut] with the results, and the proposal made of them. *)
Definition settle (w : ClientWrite) (unix net : Z) (results : list (Z * option Z)) (b : CoordBackend (Membership := Membership))
    : CoordBackend (Membership := Membership) :=
  let b := with_coord_mut (fun c => record_relay_rtt_round c net results) b in
  (backend_apply_roster b w net (propose_relay_roster (coord b) net) unix).2.

Definition close_network (w : Z -> ClientWrite) (unix : Z) (x : UdpTask * CoordBackend (Membership := Membership)) (net : Z)
    : UdpTask * CoordBackend (Membership := Membership) :=
  let '(t, b) := x in
  let done := default ∅ (rtt_done t !! net) in
  let probed := default ∅ (probed_nodes t !! net) in
  let t := mk_udp (rtt_probes t) (delete net (rtt_done t)) (delete net (probed_nodes t)) (collecting t) (collect_deadline t) (next_rtt t)
             (answered t) (limited t) in
  if decide (probed = ∅) then (t, b) else (t, settle (w net) unix net (round_results probed done) b).

Definition close_round (w : Z -> ClientWrite) (now unix : Z) (networks : list Z) (t : UdpTask) (b : CoordBackend (Membership := Membership))
    : UdpTask * CoordBackend (Membership := Membership) :=
  let t := mk_udp (rtt_probes t) (rtt_done t) (probed_nodes t) false (collect_deadline t) (next_rtt t) (answered t) (limited t) in
  let '(t, b) := foldl (close_network w unix) (t, b) networks in
  (mk_udp (rtt_probes t) (rtt_done t) (probed_nodes t) (collecting t) (collect_deadline t) (now + RELAY_RTT_PERIOD) (answered t) (limited t), b).

Definition on_timer (x : Sends) (w : Z -> ClientWrite) (now unix : Z) (networks : list Z) (t : UdpTask) (b : CoordBackend (Membership := Membership))
    : list ((IpAddr * Z) * list Z) * UdpTask * CoordBackend (Membership := Membership) :=
  if collecting t then let '(t, b) := close_round w now unix networks t b in ([], t, b)
  else let '(wire, t) := open_round x now networks (coord b) t in (wire, t, b).

(** ** Reload *)

(** [load_coord]: the section of the file after deserialization, which may have failed or
    panicked, and its checks. *)
Definition load_coord (file : outcome unit CoordConfig.CoordConfig) : outcome unit CoordConfig.CoordConfig :=
  cfg ← file; _ ← map_err (fun _ => tt) (CoordConfig.validate cfg); Ok cfg.

Definition repropose (w : Z -> ClientWrite) (unix : Z) (networks : list Z) (b : CoordBackend (Membership := Membership))
    : CoordBackend (Membership := Membership) :=
  foldl (fun b net => (backend_apply_roster b (w net) net (propose_relay_roster (coord b) net) unix).2) b networks.

Definition apply_config (cfg : CoordConfig.CoordConfig) (b : CoordBackend (Membership := Membership))
    : outcome Empty_set (CoordBackend (Membership := Membership)) :=
  c ← CoordConfig.apply_to cfg (coord b); Ok (with_coord_mut (fun _ => c) b).

(** SIGHUP: the answer says whether the configuration was taken. *)
Definition on_hangup (w : Z -> ClientWrite) (unix : Z) (networks : list Z) (file : outcome unit CoordConfig.CoordConfig)
    (b : CoordBackend (Membership := Membership)) : outcome Empty_set (bool * CoordBackend (Membership := Membership)) :=
  match load_coord file with
  | Ok cfg => b ← apply_config cfg b; Ok (true, repropose w unix networks b)
  | Err _ => Ok (false, b)
  | Panic => Panic
  end.

End Task.

(** ** What a round has heard *)

Record Datagram := mk_dg { dg_buf : list Z; dg_from : IpAddr * Z; dg_now : Z; dg_allow : bool }.

Definition hear (t : UdpTask) (d : Datagram) : UdpTask := (on_datagram (dg_allow d) (dg_now d) t (dg_buf d) (dg_from d)).2.
Definition hear_all (t : UdpTask) (ds : list Datagram) : UdpTask := foldl hear t ds.

(** The datagram answers the ping with this nonce. *)
Definition answers (d : Datagram) (nonce : Z) : Prop :=
  exists p, Probe.decode (dg_buf d) = Some p /\ Probe.packet_type p = Probe.PONG /\ Probe.nonce p = nonce.

Definition done_at (t : UdpTask) (net node : Z) (ep : string) : option Z := default ∅ (rtt_done t !! net) !! (node, ep).

(** One datagram of a round: it answers a ping that is open, or changes nothing of the round. *)
Lemma hear_cases t d : collecting t = true ->
  (exists n net node ep sent, answers d n /\ rtt_probes t !! n = Some (net, node, ep, sent)
     /\ rtt_probes (hear t d) = delete n (rtt_probes t)
     /\ rtt_done (hear t d) = <[net := <[(node, ep) := sat_sub (dg_now d) sent / 1000000]> (default ∅ (rtt_done t !! net))]> (rtt_done t)
     /\ probed_nodes (hear t d) = probed_nodes t /\ collecting (hear t d) = true)
  \/ (rtt_probes (hear t d) = rtt_probes t /\ rtt_done (hear t d) = rtt_done t /\ probed_nodes (hear t d) = probed_nodes t
     /\ collecting (hear t d) = true /\ forall n, answers d n -> rtt_probes t !! n = None).
Proof.
  intros Hc. unfold hear, on_datagram, answers. destruct (Probe.decode (dg_buf d)) as [p|]; [|right; split_and!; try done; by intros n (p & ? & _)].
  case_decide as H1.
  { right. destruct (dg_allow d); [destruct (echo_response _ _)|]; cbn; (split_and!; [done|done|done|done|]);
      intros n (q & [= <-] & Hq & _); destruct H1 as [H1 _]; rewrite H1 in Hq; done. }
  case_decide as H2.
  - destruct (rtt_probes t !! Probe.nonce p) as [[[[net node] ep] sent]|] eqn:Ep; cbn.
    + left. exists (Probe.nonce p), net, node, ep, sent. split_and!; try done. exists p. tauto.
    + right. split_and!; try done. by intros n (q & [= <-] & _ & <-).
  - right. split_and!; try done. intros n (q & [= <-] & Hq & _). tauto.
Qed.

(** What is known of the round after some datagrams. *)
Record round_ok (t0 t : UdpTask) (ds : list Datagram) : Prop := {
  ro_open : rtt_probes t ⊆ rtt_probes t0;
  ro_gone : forall n net node ep sent, rtt_probes t0 !! n = Some (net, node, ep, sent) -> rtt_probes t !! n = None -> is_Some (done_at t net node ep);
  ro_done : forall net node ep rtt, done_at t net node ep = Some rtt ->
    exists n sent d, rtt_probes t0 !! n = Some (net, node, ep, sent) /\ d ∈ ds /\ answers d n /\ rtt = sat_sub (dg_now d) sent / 1000000;
  ro_heard : forall n d, d ∈ ds -> answers d n -> rtt_probes t !! n = None;
  ro_probed : probed_nodes t = probed_nodes t0;
  ro_collecting : collecting t = true
}.

Lemma done_at_insert t' t net node ep rtt : rtt_done t' = <[net := <[(node, ep) := rtt]> (default ∅ (rtt_done t !! net))]> (rtt_done t) ->
  forall net' node' ep', done_at t' net' node' ep' = if decide ((net', node', ep') = (net, node, ep)) then Some rtt else done_at t net' node' ep'.
Proof.
  intros E net' node' ep'. unfold done_at. rewrite E. destruct (decide (net' = net)) as [->|Hne].
  - rewrite lookup_insert_eq. cbn [from_option id]. destruct (decide ((node', ep') = (node, ep))) as [[= -> ->]|Hk].
    + by rewrite lookup_insert_eq, decide_True.
    + rewrite lookup_insert_ne by congruence. by rewrite decide_False by congruence.
  - rewrite lookup_insert_ne by done. by rewrite decide_False by congruence.
Qed.

Lemma hear_all_ok t0 ds : collecting t0 = true -> rtt_done t0 = ∅ -> round_ok t0 (hear_all t0 ds) ds.
Proof.
  intros Hc Hd. induction ds as [|d ds IH] using rev_ind.
  { split; cbn; try done.
    - intros n net node ep sent H1 H2. by rewrite H1 in H2.
    - intros net node ep rtt H. unfold done_at in H. by rewrite Hd, !lookup_empty in H.
    - by intros n d ?%elem_of_nil. }
  unfold hear_all in *. rewrite foldl_snoc. set (t := foldl hear t0 ds) in *. destruct IH as [Ho Hg Hdn Hh Hp Hcl].
  destruct (hear_cases t d Hcl) as [(n & net & node & ep & sent & Ha & Hn & E1 & E2 & E3 & E4)|(E1 & E2 & E3 & E4 & Hno)].
  - pose proof (done_at_insert (hear t d) t net node ep _ E2) as Hda.
    split; [| | | |congruence|done].
    + rewrite E1. transitivity (rtt_probes t); [apply delete_subseteq|done].
    + intros n' net' node' ep' sent' H0 H1. rewrite Hda. case_decide as Hk; [by eexists|].
      rewrite E1 in H1. destruct (decide (n' = n)) as [->|Hne]; [|rewrite lookup_delete_ne in H1 by done; by eapply Hg].
      exfalso. apply Hk. pose proof (lookup_weaken _ _ _ _ Hn Ho) as Hw. rewrite Hw in H0. by injection H0 as -> -> -> ->.
    + intros net' node' ep' rtt Hr. rewrite Hda in Hr. case_decide as Hk.
      * injection Hk as -> -> ->. injection Hr as <-. exists n, sent, d. split_and!; [by eapply lookup_weaken|set_solver|done|done].
      * destruct (Hdn _ _ _ _ Hr) as (m & s & x & ? & ? & ? & ?). exists m, s, x. split_and!; try done. set_solver.
    + intros m x [Hx|Hx%list_elem_of_singleton]%elem_of_app Hax; rewrite E1.
      * apply lookup_delete_None. right. by eapply Hh.
      * subst x. destruct Ha as (p & Hdec & _ & Hpn), Hax as (q & Hdec' & _ & Hqn). rewrite Hdec in Hdec'. injection Hdec' as <-.
        apply lookup_delete_None. left. congruence.
  - assert (Hda : forall net' node' ep', done_at (hear t d) net' node' ep' = done_at t net' node' ep') by (intros; unfold done_at; by rewrite E2).
    split; [by rewrite E1| | | |congruence|done].
    + intros n net node ep sent H0 H1. rewrite E1 in H1. rewrite Hda. by eapply Hg.
    + intros net node ep rtt Hr. rewrite Hda in Hr. destruct (Hdn _ _ _ _ Hr) as (m & s & x & ? & ? & ? & ?). exists m, s, x. split_and!; try done. set_solver.
    + intros m x [Hx|Hx%list_elem_of_singleton]%elem_of_app Hax; rewrite E1; [by eapply Hh|]. subst x. by apply Hno.
Qed.

(** ** What is made of it *)

Definition is_best (l : list ((Z * string) * Z)) (node : Z) (b : option Z) : Prop :=
  match b with
  | Some r => (exists ep, ((node, ep), r) ∈ l) /\ forall ep r', ((node, ep), r') ∈ l -> r <= r'
  | None => forall ep r', ((node, ep), r') ∉ l
  end.

Lemma is_best_other l x node b : x.1.1 <> node -> is_best l node b -> is_best (l ++ [x]) node b.
Proof.
  assert (H : forall ep r', x.1.1 <> node -> ((node, ep), r') ∈ l ++ [x] -> ((node, ep), r') ∈ l).
  { intros ep r' Hne [?|E%list_elem_of_singleton]%elem_of_app; [done|]. by rewrite <- E in Hne. }
  intros Hne. destruct b as [r|]; cbn.
  - intros [[ep He] Hm]. split; [exists ep; set_solver|]. eauto.
  - intros Hn ep r' Hi. eapply Hn, H, Hi. done.
Qed.

Lemma best_spec l node : Forall (fun x => x.2 <= 2 ^ 64 - 1) l -> is_best l node
  (foldl (fun best '((node, _), rtt) => <[node := Z.min (default (2 ^ 64 - 1) (best !! node)) rtt]> best) (∅ : gmap Z Z) l !! node).
Proof.
  intros Hb. induction l as [|[[m ep] rtt] l IH] using rev_ind; [cbn [foldl]; rewrite lookup_empty; by intros ep r' ?%elem_of_nil|].
  apply Forall_app in Hb as [Hb Hx]. apply Forall_cons_1 in Hx as [Hx _]. cbn in Hx. specialize (IH Hb). rewrite foldl_snoc.
  destruct (decide (m = node)) as [->|Hne]; [|rewrite lookup_insert_ne by done; by apply is_best_other].
  rewrite lookup_insert_eq. destruct (foldl _ _ l !! node) as [q|]; cbn [from_option id] in *.
  - destruct IH as [[e1 He1] Hmin]. split.
    + destruct (Z.min_spec q rtt) as [[_ ->]|[_ ->]]; [exists e1|exists ep]; set_solver.
    + intros e' r' [H%Hmin|[= -> ->]%list_elem_of_singleton]%elem_of_app; lia.
  - rewrite Z.min_r by done. split; [exists ep; set_solver|].
    intros e' r' [[]%IH|[= -> ->]%list_elem_of_singleton]%elem_of_app; lia.
Qed.

Lemma node_best_spec done node : map_Forall (fun _ rtt => rtt <= 2 ^ 64 - 1) done ->
  match node_best done !! node with
  | Some r => (exists ep, done !! (node, ep) = Some r) /\ forall ep r', done !! (node, ep) = Some r' -> r <= r'
  | None => forall ep, done !! (node, ep) = None
  end.
Proof.
  intros Hb. assert (H : is_best (map_to_list done) node (node_best done !! node)).
  { apply best_spec. apply list.Forall_forall. intros [k rtt] Hk%elem_of_map_to_list. by apply Hb in Hk. }
  destruct (node_best done !! node) as [r|]; cbn in H.
  - setoid_rewrite elem_of_map_to_list in H. exact H.
  - intros ep. destruct (done !! (node, ep)) as [r'|] eqn:E; [|done]. exfalso. eapply H, elem_of_map_to_list, E.
Qed.

Lemma round_results_spec probed done :
  NoDup ((round_results probed done).*1) /\ forall n r, (n, r) ∈ round_results probed done <-> n ∈ probed /\ r = node_best done !! n.
Proof.
  unfold round_results. split.
  - rewrite sort_perm, <- list_fmap_compose. replace (fst ∘ _) with (fun n : Z => n) by done. rewrite list_fmap_id. apply NoDup_elements.
  - intros n r. rewrite elem_of_sort, list_elem_of_fmap. setoid_rewrite elem_of_elements. split; [by intros (m & [= -> ->] & ?)|].
    intros [? ->]. by exists n.
Qed.

(** Recording the results of a round, node by node. *)
Lemma record_all results : forall d, NoDup (results.*1) ->
  let d' := foldl record_rtt d results in
  (forall n r, (n, Some r) ∈ results -> relay_rtt d' !! n = Some r /\ relay_miss d' !! n = Some 0)
  /\ (forall n, (n, None) ∈ results -> relay_rtt d' !! n = relay_rtt d !! n /\ relay_miss d' !! n = Some (default 0 (relay_miss d !! n) + 1))
  /\ (forall n, n ∉ results.*1 -> relay_rtt d' !! n = relay_rtt d !! n /\ relay_miss d' !! n = relay_miss d !! n).
Proof.
  induction results as [|[m o] results IH]; intros d Hn; cbn [foldl]; [split_and!; try done; by intros ? ?%elem_of_nil || by intros ? ? ?%elem_of_nil|].
  rewrite fmap_cons in Hn. apply list.NoDup_cons in Hn as [Hm Hn]. destruct (IH (record_rtt d (m, o)) Hn) as (H1 & H2 & H3). cbv zeta in *.
  assert (Hr : forall n, n <> m -> relay_rtt (record_rtt d (m, o)) !! n = relay_rtt d !! n /\ relay_miss (record_rtt d (m, o)) !! n = relay_miss d !! n).
  { intros n Hne. destruct o; cbn; by rewrite ?lookup_insert_ne by done. }
  assert (Hout : forall n x, (n, x) ∈ results -> n <> m).
  { intros n x Hx ->. apply Hm. by apply (list_elem_of_fmap_2 fst) in Hx. }
  split_and!.
  - intros n r [[= -> <-]|Hx]%elem_of_cons; [|by apply H1]. destruct (H3 m Hm) as [-> ->]. cbn. by rewrite !lookup_insert_eq.
  - intros n [[= -> <-]|Hx]%elem_of_cons; [destruct (H3 m Hm) as [-> ->]; cbn; by rewrite lookup_insert_eq|].
    destruct (H2 n Hx) as [-> ->]. destruct (Hr n (Hout n _ Hx)) as [-> ->]. done.
  - intros n Hx. rewrite fmap_cons, not_elem_of_cons in Hx. destruct Hx as [Hne Hx]. destruct (H3 n Hx) as [-> ->]. by apply Hr.
Qed.

Lemma by_id_on_id c id id' f : (forall d, domain_by_network_id c id = Some d -> network_id (f d) = network_id d) ->
  domain_by_network_id (on_id id f c) id' = if decide (id' = id) then f <$> domain_by_network_id c id' else domain_by_network_id c id'.
Proof.
  unfold domain_by_network_id, on_id. cbn [domains set_domains]. intros Hf. assert (Hb : forall x y, by_id x y = bool_decide (network_id y = x)) by done.
  induction (domains c) as [|d l IH]; cbn [List.find update_first] in *; [by case_decide|]. rewrite (Hb id d) in *.
  destruct (decide (network_id d = id)) as [E|E]; [rewrite bool_decide_true in * by done|rewrite bool_decide_false in * by done]; cbn [List.find]; rewrite !Hb.
  - rewrite (Hf d) by done. destruct (decide (id' = id)) as [->|Hne]; [by rewrite bool_decide_true|]. by rewrite bool_decide_false by congruence.
  - destruct (decide (network_id d = id')) as [E'|E']; [rewrite bool_decide_true by done|rewrite bool_decide_false by done; by apply IH].
    by rewrite decide_False by congruence.
Qed.

(** Two coordinators that agree on all but the domain of one network and the version of the map. *)
Record apart (net : Z) (c c' : Coordinator) : Prop := {
  ap_domain : forall m, m <> net -> domain_by_network_id c' m = domain_by_network_id c m;
  ap_some : is_Some (domain_by_network_id c net) <-> is_Some (domain_by_network_id c' net);
  ap_liveness : liveness c' = liveness c;
  ap_endpoints : Directory.endpoints (directory c') = Directory.endpoints (directory c)
}.

(** All that a change of the roster leaves of a domain. *)
Definition same_domain (d d' : NetworkDomain) : Prop :=
  network_id d' = network_id d /\ name d' = name d /\ registry d' = registry d /\ keys d' = keys d /\ relay_cfg d' = relay_cfg d
  /\ exit_allow d' = exit_allow d /\ relay_rtt d' = relay_rtt d /\ relay_miss d' = relay_miss d /\ acl d' = acl d.

Section Close.
Context {Membership : Type}.
Context `{W : HashOrder} `{!HashOrderLaws W} `{P : Crypto.Primitives} `{S : Registry.IdentitySigner} `{D : Serde}.

Lemma apply_roster_apart c net r now d : domain_by_network_id c net = Some d ->
  let c' := (apply_relay_roster c net r now).2 in apart net c c' /\
  exists d', domain_by_network_id c' net = Some d' /\ roster d' = r /\ same_domain d d'.
Proof.
  intros Hd. cbv zeta. unfold apply_relay_roster. rewrite Hd. cbn [apply_roster]. set (p := PathService.expand_relay_candidates _ _ _).
  set (d1 := set_paths (set_paths (set_roster d r) _) p).
  assert (Hn : forall x, domain_by_network_id c net = Some x -> network_id ((fun _ => d1) x) = network_id x).
  { intros x Hx. rewrite Hd in Hx. by injection Hx as <-. }
  assert (Hl : forall m, domain_by_network_id (on_id net (fun _ => d1) c) m = if decide (m = net) then Some d1 else domain_by_network_id c m).
  { intros m. rewrite (by_id_on_id _ _ _ _ Hn). destruct (decide (m = net)) as [->|]; [by rewrite Hd|done]. }
  assert (Hb : forall b : bool, let c' := (b, if b then bump_netmap (on_id net (fun _ => d1) c) else on_id net (fun _ => d1) c).2 in
    apart net c c' /\ domain_by_network_id c' net = Some d1).
  { intros b. assert (forall m, domain_by_network_id (if b then bump_netmap (on_id net (fun _ => d1) c) else on_id net (fun _ => d1) c) m
        = if decide (m = net) then Some d1 else domain_by_network_id c m) as Hm by (by destruct b).
    cbn. split; [split|by rewrite Hm, decide_True]; [|by rewrite Hm, decide_True, Hd|by destruct b..]. intros m Hne. by rewrite Hm, decide_False. }
  destruct (Hb (negb (bool_decide (sort Z.leb (roster d) = sort Z.leb r)))) as [Ha Hd1]. split; [exact Ha|]. exists d1. split; [exact Hd1|done].
Qed.

Lemma record_domain c net results m : domain_by_network_id (record_relay_rtt_round c net results) m
  = if decide (m = net) then (fun d => foldl record_rtt d results) <$> domain_by_network_id c m else domain_by_network_id c m.
Proof.
  apply by_id_on_id. intros d _. change (network_id d) with ((fun x => network_id x) d). generalize d. induction results as [|[n [r|]] rs IH]; intros x; cbn; [done|by rewrite IH..].
Qed.

(** The roster of a round: what is proposed of the recorded times, and none of it unmeasured or silent. *)
Lemma settle_single w unix net results c d : inv c -> domain_by_network_id c net = Some d ->
  exists c' d', settle (Membership := Membership) w unix net results (Single c) = Single c' /\ inv c' /\ apart net c c' /\ domain_by_network_id c' net = Some d'
    /\ relay_rtt d' = relay_rtt (foldl record_rtt d results) /\ relay_miss d' = relay_miss (foldl record_rtt d results)
    /\ roster d' = propose_relay_roster (record_relay_rtt_round c net results) net
    /\ forall n, n ∈ roster d' -> measured_healthy d' n = true.
Proof.
  intros Hc Hd. set (c1 := record_relay_rtt_round c net results).
  assert (Hc1 : inv c1) by by apply (coord_apply_inv c (RecordRtt net results) I).
  assert (Hd1 : domain_by_network_id c1 net = Some (foldl record_rtt d results)) by (unfold c1; by rewrite record_domain, decide_True, Hd).
  destruct (apply_roster_apart c1 net (propose_relay_roster c1 net) unix _ Hd1) as [[A1 A2 A3 A4] (d' & E1 & E2 & (_ & _ & _ & _ & _ & _ & E3 & E4 & _))].
  destruct (Roster.propose_sound c1 _ net Hc1 Hd1) as (_ & _ & Hs & _).
  exists (apply_relay_roster c1 net (propose_relay_roster c1 net) unix).2, d'. split_and!; try done.
  - unfold settle, backend_apply_roster, with_coord_mut. cbn. fold c1. by destruct (apply_relay_roster _ _ _ _).
  - by apply (coord_apply_inv c1 (ApplyRelayRoster net (propose_relay_roster c1 net) unix) I).
  - split; [|by rewrite Hd, E1|by rewrite A3|by rewrite A4]. intros m Hm. rewrite A1 by done. unfold c1. by rewrite record_domain, decide_False.
  - intros n Hn. rewrite E2 in Hn. apply Hs in Hn as (_ & _ & _ & _ & _ & Hh & _). unfold measured_healthy in *. by rewrite E3, E4.
Qed.

Lemma settle_none w unix net results c : inv c -> domain_by_network_id c net = None ->
  exists c', settle (Membership := Membership) w unix net results (Single c) = Single c' /\ inv c' /\ apart net c c'.
Proof.
  intros Hc Hd. exists (record_relay_rtt_round c net results).
  assert (Hd1 : domain_by_network_id (record_relay_rtt_round c net results) net = None) by (by rewrite record_domain, decide_True, Hd).
  split_and!.
  - unfold settle, backend_apply_roster, with_coord_mut, apply_relay_roster. cbv zeta. by rewrite Hd1.
  - by apply (coord_apply_inv c (RecordRtt net results) I).
  - split; [intros m Hm; by rewrite record_domain, decide_False|by rewrite Hd, Hd1|done|done].
Qed.

(** Closing other networks leaves one alone. *)
Lemma close_others w unix net ms : net ∉ ms -> forall t c, inv c -> exists t' c',
  foldl (close_network (Membership := Membership) w unix) (t, Single c) ms = (t', Single c') /\ inv c'
  /\ domain_by_network_id c' net = domain_by_network_id c net /\ rtt_done t' !! net = rtt_done t !! net /\ probed_nodes t' !! net = probed_nodes t !! net
  /\ collecting t' = collecting t.
Proof.
  induction ms as [|m ms IH]; intros Hn t c Hc; cbn [foldl]; [by exists t, c|]. apply not_elem_of_cons in Hn as [Hne Hn].
  assert (H1 : exists t1 c1, close_network (Membership := Membership) w unix (t, Single c) m = (t1, Single c1) /\ inv c1
    /\ domain_by_network_id c1 net = domain_by_network_id c net /\ rtt_done t1 = delete m (rtt_done t) /\ probed_nodes t1 = delete m (probed_nodes t)
    /\ collecting t1 = collecting t).
  { unfold close_network. case_decide; [by exists (mk_udp (rtt_probes t) (delete m (rtt_done t)) (delete m (probed_nodes t)) (collecting t) (collect_deadline t)
      (next_rtt t) (answered t) (limited t)), c|]. destruct (domain_by_network_id c m) as [d|] eqn:Ed.
    - destruct (settle_single (w m) unix m (round_results (default ∅ (probed_nodes t !! m)) (default ∅ (rtt_done t !! m))) c d Hc Ed)
        as (c1 & d1 & E & Hi & Ha & _). rewrite E. do 2 eexists. split; [done|]. split_and!; [done|by apply (ap_domain _ _ _ Ha)|done|done|done].
    - destruct (settle_none (w m) unix m (round_results (default ∅ (probed_nodes t !! m)) (default ∅ (rtt_done t !! m))) c Hc Ed)
        as (c1 & E & Hi & Ha). rewrite E. do 2 eexists. split; [done|]. split_and!; [done|by apply (ap_domain _ _ _ Ha)|done|done|done]. }
  destruct H1 as (t1 & c1 & E & Hi & Hd & Hr & Hp & Hk). rewrite E. destruct (IH Hn t1 c1 Hi) as (t' & c' & E' & Hi' & Hd' & Hr' & Hp' & Hk').
  exists t', c'. split_and!; [done|done|congruence|rewrite Hr', Hr|rewrite Hp', Hp|congruence]; by rewrite lookup_delete_ne.
Qed.

(** *** Opening *)

Definition probed_of (t : UdpTask) (net : Z) : gset Z := default ∅ (probed_nodes t !! net).

(** Two tasks of one opening, but for the pings. *)
Definition same_but_pings (t t' : UdpTask) : Prop := rtt_done t' = rtt_done t /\ collecting t' = collecting t /\ probed_nodes t' = probed_nodes t.

Lemma ping_endpoints_keep x net node eps : forall o, same_but_pings o.2 (foldl (ping_endpoint x net node) o eps).2.
Proof.
  induction eps as [|ep eps IH]; intros [[wire k] t]; cbn [foldl]; [by split|].
  destruct (IH (ping_endpoint x net node (wire, k, t) ep)) as (E1 & E2 & E3).
  assert (same_but_pings t (ping_endpoint x net node (wire, k, t) ep).2) as (F1 & F2 & F3).
  { unfold ping_endpoint. destruct (parse_socket ep); [destruct (send_ok x k)|]; by split. }
  unfold same_but_pings. rewrite E1, E2, E3. done.
Qed.

Lemma ping_nodes_spec x net targets : forall o, let t' := (foldl (ping_node x net) o targets).2 in
  rtt_done t' = rtt_done o.2 /\ collecting t' = collecting o.2
  /\ forall m, probed_of t' m = if decide (m = net) then probed_of o.2 net ∪ list_to_set (targets.*1) else probed_of o.2 m.
Proof.
  induction targets as [|[node eps] targets IH]; intros [[wire k] t]; cbn [foldl]; cbv zeta.
  { split_and!; try done. intros m. case_decide; [subst|done]. cbn. by rewrite union_empty_r_L. }
  destruct (IH (ping_node x net (wire, k, t) (node, eps))) as (E1 & E2 & E3). unfold ping_node in E1, E2, E3 |- *.
  set (t1 := mk_udp _ _ _ _ _ _ _ _) in *. destruct (ping_endpoints_keep x net node eps (wire, k, t1)) as (F1 & F2 & F3). cbn [fst snd] in *.
  rewrite E1, E2, F1, F2. split_and!; [done|done|]. intros m. rewrite E3.
  assert (Hp : forall m, probed_of (foldl (ping_endpoint x net node) (wire, k, t1) eps).2 m = if decide (m = net) then probed_of t net ∪ {[node]} else probed_of t m).
  { intros m'. unfold probed_of. rewrite F3. cbn. destruct (decide (m' = net)) as [->|Hne]; [by rewrite lookup_insert_eq|by rewrite lookup_insert_ne]. }
  rewrite !Hp. rewrite (decide_True (P := net = net)) by done. rewrite fmap_cons. cbn [list_to_set foldr fst]. case_decide; [set_solver|done].
Qed.

Lemma ping_networks_spec x c nets : forall o, let t' := (foldl (ping_network x c) o nets).2 in
  rtt_done t' = rtt_done o.2 /\ collecting t' = collecting o.2
  /\ forall m, probed_of t' m = probed_of o.2 m ∪ (if decide (m ∈ nets) then list_to_set ((relay_probe_targets c m).*1) else ∅).
Proof.
  induction nets as [|net nets IH]; intros o; cbn [foldl]; cbv zeta; [split_and!; try done; intros m; case_decide; set_solver|].
  destruct (IH (ping_network x c o net)) as (E1 & E2 & E3). destruct (ping_nodes_spec x net (relay_probe_targets c net) o) as (F1 & F2 & F3). cbv zeta in *.
  unfold ping_network in E1, E2, E3 |- *. rewrite E1, E2, F1, F2. split_and!; [done|done|]. intros m. rewrite E3, F3.
  destruct (decide (m = net)) as [->|Hne]; [rewrite (decide_True (P := net ∈ net :: nets)) by left; case_decide; set_solver|].
  destruct (decide (m ∈ nets)); [rewrite decide_True by (by right); done|rewrite decide_False; [done|]]. by intros [?|?]%elem_of_cons.
Qed.

Lemma open_round_spec x now nets c t : let t' := (open_round x now nets c t).2 in
  rtt_done t' = ∅
  /\ (forall m, probed_of t' m = if decide (m ∈ nets) then list_to_set ((relay_probe_targets c m).*1) else ∅)
  /\ forall m, m ∈ nets -> relay_probe_targets c m <> [] -> collecting t' = true.
Proof.
  cbv zeta. unfold open_round. set (t1 := mk_udp _ _ _ _ _ _ _ _).
  destruct (ping_networks_spec x c nets ([], 0%nat, t1)) as (E1 & _ & E3). cbv zeta in *. cbn [snd] in *.
  destruct (foldl (ping_network x c) ([], 0%nat, t1) nets) as [[wire k] t2]. cbn [snd] in *.
  assert (Hp : forall m, probed_of t2 m = if decide (m ∈ nets) then list_to_set ((relay_probe_targets c m).*1) else ∅).
  { intros m. rewrite E3. unfold probed_of. cbn. rewrite lookup_empty. cbn. by rewrite union_empty_l_L. }
  case_decide as Hne; cbn; split_and!; try done. intros m Hm Ht. exfalso. specialize (Hp m). rewrite decide_True in Hp by done.
  unfold probed_of in Hp. rewrite Hne, lookup_empty in Hp. cbn in Hp. destruct (relay_probe_targets c m) as [|[n eps] l]; [done|]. cbn in Hp. set_solver.
Qed.

Lemma open_round_times x now nets c t : (forall k, 0 <= send_at x k) ->
  map_Forall (fun _ y => 0 <= y.2) (rtt_probes (open_round x now nets c t).2).
Proof.
  intros Hx. unfold open_round. set (t1 := mk_udp _ _ _ _ _ _ _ _).
  set (I := fun o : Opening => map_Forall (fun _ y => 0 <= y.2) (rtt_probes o.2)).
  assert (H : forall l o, I o -> I (foldl (ping_network x c) o l)).
  { apply foldl_keeps. intros o net. apply foldl_keeps. clear o. intros [[wire k] u] [node eps] Ho. apply (foldl_keeps I); [|exact Ho].
    clear - Hx. intros [[wire k] u] ep Ho. unfold ping_endpoint. destruct (parse_socket ep); [|done]. destruct (send_ok x k); [|done]. apply map_Forall_insert_2; [apply Hx|exact Ho]. }
  specialize (H nets ([], 0%nat, t1) (map_Forall_empty _)). destruct (foldl _ _ nets) as [[wire k] t2]. cbn [snd] in H. by case_decide.
Qed.

(** A ping of the round to this node was answered. *)
Definition heard (t0 : UdpTask) (ds : list Datagram) (net node rtt : Z) : Prop :=
  exists n ep sent d, rtt_probes t0 !! n = Some (net, node, ep, sent) /\ d ∈ ds /\ answers d n /\ rtt = sat_sub (dg_now d) sent / 1000000.

Lemma heard_best t0 t ds net node : round_ok t0 t ds -> Forall (fun d => dg_now d < 2 ^ 64) ds ->
  (forall n x, rtt_probes t0 !! n = Some x -> 0 <= x.2) ->
  match node_best (default ∅ (rtt_done t !! net)) !! node with
  | Some r => heard t0 ds net node r
  | None => forall r, ~ heard t0 ds net node r
  end.
Proof.
  intros [Ho Hg Hd Hh _ _] Hds Hsent.
  assert (Hb : map_Forall (fun _ rtt => rtt <= 2 ^ 64 - 1) (default ∅ (rtt_done t !! net))).
  { intros [nd ep] rtt Hr. destruct (Hd net nd ep rtt Hr) as (n & sent & d & Hn & Hin & _ & ->).
    rewrite list.Forall_forall in Hds. specialize (Hds d Hin). apply Hsent in Hn. cbn in Hn. unfold sat_sub.
    apply Z.div_le_upper_bound; [lia|]. change (2 ^ 64) with 18446744073709551616 in *. lia. }
  pose proof (node_best_spec _ node Hb) as Hs. destruct (node_best _ !! node) as [r|].
  - destruct Hs as [[ep He] _]. destruct (Hd net node ep r He) as (n & sent & d & ? & ? & ? & ?). by exists n, ep, sent, d.
  - intros r (n & ep & sent & d & Hn & Hin & Ha & _). destruct (Hg n net node ep sent Hn (Hh n d Hin Ha)) as [x Hx].
    unfold done_at in Hx. by rewrite Hs in Hx.
Qed.

(** One network when its round closes. *)
Lemma close_single w unix net t c d : inv c -> domain_by_network_id c net = Some d -> probed_of t net <> ∅ ->
  exists t' c' d', close_network (Membership := Membership) w unix (t, Single c) net = (t', Single c') /\ inv c' /\ domain_by_network_id c' net = Some d'
    /\ (forall n, match node_best (default ∅ (rtt_done t !! net)) !! n with
         | Some r => n ∈ probed_of t net -> relay_rtt d' !! n = Some r /\ relay_miss d' !! n = Some 0
         | None => n ∈ probed_of t net -> relay_rtt d' !! n = relay_rtt d !! n /\ relay_miss d' !! n = Some (default 0 (relay_miss d !! n) + 1)
         end)
    /\ (forall n, n ∉ probed_of t net -> relay_rtt d' !! n = relay_rtt d !! n /\ relay_miss d' !! n = relay_miss d !! n)
    /\ collecting t' = collecting t
    /\ forall n, n ∈ roster d' -> measured_healthy d' n = true.
Proof.
  intros Hc Hd Hne. unfold close_network. fold (probed_of t net). rewrite decide_False by done.
  set (rs := round_results (probed_of t net) (default ∅ (rtt_done t !! net))).
  destruct (round_results_spec (probed_of t net) (default ∅ (rtt_done t !! net))) as [Hnd Hin]. fold rs in Hnd, Hin.
  destruct (settle_single (w net) unix net rs c d Hc Hd) as (c' & d' & E & Hi & _ & Hd' & Er & Em & _ & Hh). rewrite E.
  destruct (record_all rs d Hnd) as (H1 & H2 & H3). cbv zeta in *. rewrite <- Er, <- Em in *. do 3 eexists. split; [done|]. split_and!; [done|exact Hd'| | |done|done].
  - intros n. destruct (node_best _ !! n) as [r|] eqn:Eb; intros Hn; [apply H1|apply H2]; by apply Hin.
  - intros n Hn. apply H3. intros ([m o] & -> & Hx)%list_elem_of_fmap. apply Hin in Hx as [Hx _]. done.
Qed.

(** C31: a round of measurements tells the coordinator exactly who answered.  Whatever datagrams
    arrive between its opening and its closing, and whatever happened to the coordinator in
    between: a candidate relay of which a ping was answered has its silence reset and a time that
    was really measured; one of which none was is counted silent once more and, at the third time
    in a row, is not on the roster; a node that is no candidate is left as it was; and the roster
    names only relays that were measured and are not silent. *)
Theorem relay_round (x : Sends) (w : Z -> ClientWrite) (now now' unix net : Z) (nets : list Z) (c0 c : Coordinator) (d : NetworkDomain) (t : UdpTask) (ds : list Datagram)
  (Hc : inv c) (Hd : domain_by_network_id c net = Some d) (Hnets : NoDup nets) (Hnet : net ∈ nets) (Hsome : relay_probe_targets c0 net <> [])
  (Htimes : Forall (fun g => dg_now g < 2 ^ 64) ds) (Hsends : forall k, 0 <= send_at x k) :
  let t0 := (open_round x now nets c0 t).2 in
  exists t' c' d', close_round (Membership := Membership) w now' unix nets (hear_all t0 ds) (Single c) = (t', Single c') /\ collecting t' = false
    /\ inv c' /\ domain_by_network_id c' net = Some d'
    /\ (forall node, node ∈ (relay_probe_targets c0 net).*1 ->
          (exists r, heard t0 ds net node r /\ relay_rtt d' !! node = Some r /\ relay_miss d' !! node = Some 0)
          \/ ((forall r, ~ heard t0 ds net node r) /\ relay_rtt d' !! node = relay_rtt d !! node
              /\ relay_miss d' !! node = Some (default 0 (relay_miss d !! node) + 1)
              /\ (RELAY_EXIT_MISS_ROUNDS <= default 0 (relay_miss d !! node) + 1 -> node ∉ roster d')))
    /\ (forall node, node ∉ (relay_probe_targets c0 net).*1 -> relay_rtt d' !! node = relay_rtt d !! node /\ relay_miss d' !! node = relay_miss d !! node)
    /\ forall node, node ∈ roster d' -> measured_healthy d' node = true.
Proof.
  cbv zeta. destruct (open_round_spec x now nets c0 t) as (Ho1 & Ho2 & Ho3). cbv zeta in *. set (t0 := (open_round x now nets c0 t).2) in *.
  pose proof (hear_all_ok t0 ds (Ho3 net Hnet Hsome) Ho1) as Hro. unfold close_round. set (t1 := mk_udp _ _ _ false _ _ _ _).
  apply list_elem_of_split in Hnet as (n1 & n2 & ->). apply list.NoDup_app in Hnets as (_ & Hn1 & Hn2).
  apply list.NoDup_cons in Hn2 as [Hn2 _]. assert (Hn1' : net ∉ n1) by (intros H; by apply (Hn1 net H); left).
  rewrite foldl_app. cbn [foldl].
  destruct (close_others w unix net n1 Hn1' t1 c Hc) as (t2 & c2 & E2 & Hc2 & D2 & R2 & P2 & K2). rewrite E2.
  assert (Hp : probed_of t2 net = list_to_set ((relay_probe_targets c0 net).*1)).
  { unfold probed_of. rewrite P2. change (probed_nodes t1) with (probed_nodes (hear_all t0 ds)). rewrite (ro_probed _ _ _ Hro).
    fold (probed_of t0 net). rewrite Ho2, decide_True; [done|]. apply elem_of_app. right. left. }
  destruct (close_single w unix net t2 c2 d Hc2) as (t3 & c3 & d3 & E3 & Hc3 & D3 & HA & HB & K3 & HC); [by rewrite D2|
    rewrite Hp; destruct (relay_probe_targets c0 net) as [|[m eps] l]; [done|cbn; set_solver]|].
  rewrite E3. destruct (close_others w unix net n2 Hn2 t3 c3 Hc3) as (t4 & c4 & E4 & Hc4 & D4 & _ & _ & K4). rewrite E4.
  do 2 eexists. exists d3. split; [done|]. split_and!; [|done|by rewrite D4| | |done].
  - cbn. by rewrite K4, K3, K2.
  - intros node Hn. specialize (HA node). rewrite Hp, R2 in HA. pose proof (proj2 (elem_of_list_to_set (C := gset Z) node _) Hn) as Hn'. change (rtt_done t1) with (rtt_done (hear_all t0 ds)) in HA.
    pose proof (heard_best t0 (hear_all t0 ds) ds net node Hro Htimes (open_round_times x now _ c0 t Hsends)) as Hb. destruct (node_best _ !! node) as [r|].
    + left. exists r. by destruct (HA Hn').
    + right. destruct (HA Hn') as [F1 F2]. split_and!; [done|done|done|]. intros Hge Hro'. apply HC in Hro'. unfold measured_healthy in Hro'.
      rewrite F2 in Hro'. cbn in Hro'. apply andb_true_iff in Hro' as [_ H%bool_decide_eq_true]. lia.
  - intros node Hn. apply HB. by rewrite Hp, elem_of_list_to_set.
Qed.

(** *** Reload *)

(** What is proposed depends on nothing that a roster changes. *)
Lemma propose_same c c' net d d' : domain_by_network_id c net = Some d -> domain_by_network_id c' net = Some d' -> same_domain d d' ->
  liveness c' = liveness c -> Directory.endpoints (directory c') = Directory.endpoints (directory c) ->
  propose_relay_roster c' net = propose_relay_roster c net.
Proof.
  intros Hd Hd' (_ & _ & Hreg & _ & Hcfg & _ & Hrtt & Hmiss & _) Hl He. unfold propose_relay_roster. rewrite Hd, Hd'.
  assert (Hle : rtt_le d' = rtt_le d) by (unfold rtt_le, rtt_of; by rewrite Hrtt).
  assert (Hh : forall n, measured_healthy d' n = measured_healthy d n) by (intros; unfold measured_healthy; by rewrite Hrtt, Hmiss).
  assert (Hel : forall es, List.filter (eligible c' d') es = List.filter (eligible c d) es).
  { intros es. apply List.filter_ext. intros e. unfold eligible. by rewrite Hcfg, Hl. }
  assert (Hau : auto_roster c' d' = auto_roster c d).
  { unfold auto_roster. rewrite Hcfg, Hle, Hreg, Hel. do 3 f_equal. apply List.filter_ext. intros e. rewrite Hh. unfold Directory.public_direct. by rewrite He. }
  rewrite Hle, Hau, Hreg, Hel. f_equal. generalize (auto_roster c d).
  induction (List.filter (eligible c d) (walk_nodes (Registry.entries (registry d)))) as [|e es IH]; intros r; cbn [foldl]; [done|].
  rewrite IH. f_equal. unfold add_included. by rewrite Hcfg, Hh.
Qed.

Lemma same_domain_trans d1 d2 d3 : same_domain d1 d2 -> same_domain d2 d3 -> same_domain d1 d3.
Proof. unfold same_domain. naive_solver congruence. Qed.

Lemma repropose_single w unix nets : forall c, inv c -> exists c', repropose (Membership := Membership) w unix nets (Single c) = Single c' /\ inv c'
  /\ liveness c' = liveness c /\ Directory.endpoints (directory c') = Directory.endpoints (directory c)
  /\ forall m d, domain_by_network_id c m = Some d -> exists d', domain_by_network_id c' m = Some d' /\ same_domain d d'
       /\ (m ∈ nets -> roster d' = propose_relay_roster c m) /\ (m ∉ nets -> d' = d).
Proof.
  unfold repropose. induction nets as [|net nets IH] using rev_ind; intros c Hc.
  { exists c. split_and!; try done. intros m d Hd. exists d. split_and!; try done. by intros ?%elem_of_nil. }
  rewrite foldl_snoc. destruct (IH c Hc) as (c1 & -> & Hc1 & Hl & He & Hd1). cbn [coord backend_apply_roster].
  assert (Hi : inv (apply_relay_roster c1 net (propose_relay_roster c1 net) unix).2)
    by by apply (coord_apply_inv c1 (ApplyRelayRoster net (propose_relay_roster c1 net) unix) I).
  assert (Hb : (let '(x, c0) := apply_relay_roster c1 net (propose_relay_roster c1 net) unix in (Ok (E := WriteError bool) x, Single (Membership := Membership) c0)).2
    = Single (apply_relay_roster c1 net (propose_relay_roster c1 net) unix).2) by (by destruct (apply_relay_roster _ _ _ _)).
  rewrite Hb. clear Hb. destruct (domain_by_network_id c1 net) as [x|] eqn:Ex.
  - destruct (apply_roster_apart c1 net (propose_relay_roster c1 net) unix x Ex) as [[A1 _ A3 A4] (x' & Ex' & Er & Es)]. cbv zeta in *.
    eexists. split; [done|]. rewrite A3, A4. split_and!; [done|done|done|]. intros m d Hd. destruct (Hd1 m d Hd) as (d1 & Em & Hs & Hin & Hout).
    destruct (decide (m = net)) as [->|Hne].
    + assert (d1 = x) as -> by congruence. exists x'. split_and!; [done|by eapply same_domain_trans| |].
      * intros _. rewrite Er. by apply (propose_same c c1 net d x).
      * intros Hn. exfalso. apply Hn, elem_of_app. right. left.
    + exists d1. rewrite A1 by done. split_and!; [done|done| |]; rewrite elem_of_app, list_elem_of_singleton; naive_solver.
  - exists c1. unfold apply_relay_roster. rewrite Ex. cbn. split_and!; try done. intros m d Hd. destruct (Hd1 m d Hd) as (d1 & Em & Hs & Hin & Hout).
    assert (m <> net) by (intros ->; congruence). exists d1. split_and!; [done|done| |]; rewrite elem_of_app, list_elem_of_singleton; naive_solver.
Qed.

(** A new roster brings no network. *)
Lemma repropose_none w unix nets : forall c, inv c -> forall m, domain_by_network_id c m = None -> domain_by_network_id (coord (repropose (Membership := Membership) w unix nets (Single c))) m = None.
Proof.
  unfold repropose. induction nets as [|net nets IH] using rev_ind; intros c Hc m Hm; [done|]. rewrite foldl_snoc. specialize (IH c Hc m Hm).
  destruct (repropose_single w unix nets c Hc) as (c1 & E1 & _). unfold repropose in E1. rewrite E1 in *. cbn [coord backend_apply_roster] in *.
  destruct (domain_by_network_id c1 net) as [x|] eqn:Ex; [|unfold apply_relay_roster; by rewrite Ex].
  destruct (apply_roster_apart c1 net (propose_relay_roster c1 net) unix x Ex) as [[A1 _ _ _] _]. cbv zeta in *.
  destruct (apply_relay_roster _ _ _ _) as [y c2]. cbn [snd coord] in *. rewrite A1; [done|]. intros ->. congruence.
Qed.

(** The configuration brings no network either. *)
Lemma networks_none (ns : list CoordConfig.NetworkConfig) c c1 : inv c -> inv c1 ->
  (forall n d, n ∈ ns -> domain_by_name c (CoordConfig.nc_name n) = Some d -> exists d', domain_by_name c1 (CoordConfig.nc_name n) = Some d' /\ CoordConfig.configured n d d') ->
  (forall nm, nm ∉ CoordConfig.nc_name <$> ns \/ domain_by_name c nm = None -> domain_by_name c1 nm = domain_by_name c nm) ->
  forall m, domain_by_network_id c m = None -> domain_by_network_id c1 m = None.
Proof.
  intros Hc Hc1 Hin Hout m Hm. destruct (domain_by_network_id c1 m) as [d1|] eqn:E1; [exfalso|done]. apply find_by_id in E1 as [Hd1 Hid].
  assert (Hno : forall d, d ∈ domains c -> network_id d <> m) by (intros d Hd <-; rewrite (by_id_elem c Hc d Hd) in Hm; done).
  pose proof (by_name_elem c1 Hc1 d1 Hd1) as Hn1. destruct (decide (name d1 ∈ CoordConfig.nc_name <$> ns)) as [(n & En & Hn)%list_elem_of_fmap|Hn].
  - destruct (domain_by_name c (name d1)) as [d|] eqn:Ed.
    + rewrite En in Ed. destruct (Hin n d Hn Ed) as (d' & Ed' & Hcf). rewrite <- En, Hn1 in Ed'. injection Ed' as <-.
      pose proof (CoordConfig.cd_rest _ _ _ Hcf) as (_ & Hi & _). apply find_by_name in Ed as [Hd _]. apply (Hno d Hd). congruence.
    + rewrite (Hout (name d1)) in Hn1 by by right. congruence.
  - rewrite (Hout (name d1)) in Hn1 by by left. apply find_by_name in Hn1 as [Hd _]. by apply (Hno d1 Hd).
Qed.

(** C15: a reload of a coordinator that runs alone takes a configuration as a whole or not at
    all, without a panic as long as the text of the password hash has single-byte characters only.
    A file that cannot be read or whose configuration is refused changes nothing.  An accepted
    one is applied, the invariant of the coordinator holds, and each network it names that the
    coordinator serves has the keys, policy, exits and relay constraints of its section, its nodes as
    before, and at once a roster without a relay that the section excludes and without one that
    is off-line, unmeasured or silent.  The networks that are served stay the same ones: one that the
    file does not name keeps its configuration and its nodes, and one that only the file names is
    not added. *)
Theorem reload_sound (w : Z -> ClientWrite) (unix : Z) (nets : list Z) (file : outcome unit CoordConfig.CoordConfig) (c : Coordinator) (Hc : inv c)
  (Hfile : file <> Panic) (Htext : forall cfg s, file = Ok cfg -> CoordConfig.status cfg = Some s -> CoordConfig.plain_text (CoordConfig.password_hash s)) :
  match load_coord file with
  | Ok cfg => exists c', on_hangup (Membership := Membership) w unix nets file (Single c) = Ok (true, Single c') /\ inv c' /\
      (forall n d, n ∈ CoordConfig.networks cfg -> domain_by_name c (CoordConfig.nc_name n) = Some d -> network_id d ∈ nets ->
       exists d1 d', domain_by_network_id c' (network_id d) = Some d' /\ CoordConfig.configured n d d1 /\ same_domain d1 d' /\
         forall r, r ∈ roster d' -> (r ∉ exclude (CoordConfig.nc_relay n)) /\ Liveness.is_offline (liveness c') r = false /\ measured_healthy d' r = true) /\
      (forall d, d ∈ domains c -> name d ∉ CoordConfig.nc_name <$> CoordConfig.networks cfg ->
       exists d', domain_by_network_id c' (network_id d) = Some d' /\ same_domain d d') /\
      forall m, domain_by_network_id c m = None -> domain_by_network_id c' m = None
  | _ => on_hangup (Membership := Membership) w unix nets file (Single c) = Ok (false, Single c)
  end.
Proof.
  unfold on_hangup. destruct (load_coord file) as [cfg|e|] eqn:El; [|done|].
  2: { exfalso. unfold load_coord in El. destruct file as [f|?|]; [|discriminate El|done]. cbn in El.
    pose proof (CoordConfig.validate_safe f (fun s Hs => Htext f s eq_refl Hs)) as Hsafe. by destruct (CoordConfig.validate f) as [[]|?|]. }
  assert (Hv : CoordConfig.validate cfg = Ok tt).
  { unfold load_coord in El. destruct file as [f|?|]; [|discriminate El..]. cbn in El. destruct (CoordConfig.validate f) as [[]|?|] eqn:Ev; [|discriminate El..].
    cbn in El. by injection El as <-. }
  apply CoordConfig.validate_iff in Hv as [_ _ Hf Hn _ _ _ _ _].
  destruct (CoordConfig.apply_networks_spec (CoordConfig.networks cfg) c Hf Hn Hc) as (c1 & Ha & Hc1 & Hin & Hout).
  unfold apply_config, CoordConfig.apply_to. cbn [coord]. rewrite Ha. cbn.
  pose proof (fun m Hm => repropose_none w unix nets c1 Hc1 m (networks_none _ c c1 Hc Hc1 Hin Hout m Hm)) as Hnone.
  destruct (repropose_single w unix nets c1 Hc1) as (c' & E' & Hc' & Hl & _ & Hd1). rewrite E' in *.
  exists c'. split; [done|]. split; [done|]. split; [|split; [|exact Hnone]].
  - intros n d Hnn Hd Hid. destruct (Hin n d Hnn Hd) as (d1 & Ed1 & Hcf).
    pose proof (CoordConfig.cd_rest _ _ _ Hcf) as (_ & Hidd & _). pose proof (find_by_name _ _ _ Ed1) as [Hd1in _].
    pose proof (by_id_elem c1 Hc1 d1 Hd1in) as Hby. rewrite Hidd in Hby. destruct (Hd1 _ _ Hby) as (d' & Ed' & Hs & Hro & _).
    exists d1, d'. split_and!; [done|done|done|]. intros r Hr. rewrite (Hro Hid) in Hr. destruct (Roster.propose_sound c1 d1 _ Hc1 Hby) as (_ & _ & Hp & _).
    apply Hp in Hr as (_ & _ & _ & Hx & Hoff & Hh & _). rewrite (CoordConfig.cd_relay _ _ _ Hcf) in Hx. split_and!; [done|by rewrite Hl|].
    destruct Hs as (_ & _ & _ & _ & _ & _ & Hrt & Hms & _). unfold measured_healthy in *. by rewrite Hrt, Hms.
  - intros d Hd Hnm. pose proof (by_name_elem c Hc d Hd) as Hdn. rewrite <- (Hout (name d)) in Hdn by by left. apply find_by_name in Hdn as [Hd' _].
    destruct (Hd1 _ _ (by_id_elem c1 Hc1 d Hd')) as (d' & Ed' & Hs & _). by exists d'.
Qed.

End Close.
(** ** Echo *)

(** A node that asks is told the address it is seen under, with its own nonce; nothing else is
    answered, and a limited source is not answered at all. *)
Lemma echo_exact allow now t buf from resp : (on_datagram allow now t buf from).1 = Some resp ->
  allow = true /\ exists p, Probe.decode buf = Some p /\ Probe.packet_type p = Probe.PING /\ Probe.to_node_id p = 0
    /\ resp = Probe.encode (Probe.mk_probe Probe.PONG 0 (Probe.from_node_id p) (Probe.nonce p) (str_bytes (Dispatch.show_socket from))).
Proof.
  unfold on_datagram. destruct (Probe.decode buf) as [p|] eqn:Ep; [|done]. case_decide as H1; [|case_decide; [by destruct (rtt_probes t !! _) as [[[[??]?]?]|]|done]].
  destruct allow; [|done]. unfold echo_response. rewrite Ep. cbn. destruct H1 as [H1 H2]. rewrite decide_False by tauto. cbn. intros [= <-].
  split; [done|]. exists p. split_and!; try done. unfold Probe.pong. by rewrite H2.
Qed.

Lemma echo_answers now t from node nonce : u32 node -> u32 nonce ->
  (on_datagram true now t (Probe.encode (Probe.ping node 0 nonce)) from).1
  = Some (Probe.encode (Probe.mk_probe Probe.PONG 0 node nonce (str_bytes (Dispatch.show_socket from)))).
Proof.
  intros Hn Hk. assert (Hd : Probe.decode (Probe.encode (Probe.ping node 0 nonce)) = Some (Probe.ping node 0 nonce)).
  { rewrite Probe.probe_packet_roundtrip by (split; (done || uint)). by rewrite decide_True by (cbn; lia). }
  unfold on_datagram, echo_response. rewrite Hd. by rewrite decide_True by done.
Qed.

(** The answer can be more than three times as long as the question. *)
Example echo_amplifies :
  let q := Probe.encode (Probe.ping 7 0 42) in let from := (V6 (replicate 16 187), 65535) in
  (length q, length <$> echo_response q from) = (17%nat, Some 64%nat).
Proof. vm_compute. reflexivity. Qed.

(** ** Concrete runs *)

#[local] Existing Instance Crypto.Toy.toy.
#[local] Existing Instance Registry.toy_signer.

Definition lab : Z := network_id_for "lab".
Definition sample_sends : Sends := mk_sends (fun _ => true) (fun k => 100 + Z.of_nat k) (fun _ => 1000000).
Definition sample_pong : Datagram := mk_dg (Probe.encode (Probe.mk_probe Probe.PONG 1 0 100 [])) (V4 [198; 51; 100; 1], 9) 8000000 false.
Definition no_write (_ : Z) : ClientWrite (Membership := unit) := Fatal.

Lemma relay_round_witness :
  let t0 := (open_round sample_sends 0 [lab] Roster.sample_relays (udp_new 0)).2 in
  exists t' c' d', close_round no_write 9000000 2000 [lab] (hear_all t0 [sample_pong]) (Single Roster.sample_relays) = (t', Single c')
    /\ inv c' /\ domain_by_network_id c' lab = Some d' /\ collecting t' = false.
Proof.
  assert (E : name <$> domain_by_network_id Roster.sample_relays lab = Some "lab") by (vm_compute; reflexivity).
  destruct (domain_by_network_id Roster.sample_relays lab) as [d|] eqn:Ed; [|discriminate E].
  destruct (relay_round (Membership := unit) sample_sends no_write 0 9000000 2000 lab [lab] Roster.sample_relays Roster.sample_relays d (udp_new 0) [sample_pong]
    Roster.sample_relays_inv Ed (NoDup_singleton lab) ltac:(left)) as (t' & c' & d' & H1 & H2 & H3 & H4 & _).
  - intros H. apply (f_equal length) in H. vm_compute in H. discriminate H.
  - repeat constructor.
  - intros k. cbn. lia.
  - exists t', c', d'. split; [exact H1|]. split; [exact H3|]. split; [exact H4|exact H2].
Defined.

(** The relay that answered is measured, the others are silent. *)
Example sample_round :
  let t0 := (open_round sample_sends 0 [lab] Roster.sample_relays (udp_new 0)).2 in
  round_results (probed_of t0 lab) (default ∅ (rtt_done (hear_all t0 [sample_pong]) !! lab)) = [(1, None); (4, Some 7); (5, None)].
Proof. vm_compute. reflexivity. Qed.

Lemma reload_sound_witness :
  exists c', on_hangup no_write 2000 [lab] (Ok CoordConfig.sample_config) (Single (CoordConfig.with_networks [CoordConfig.sample_net] new))
    = Ok (true, Single c') /\ inv c'.
Proof.
  assert (Hc : inv (CoordConfig.with_networks [CoordConfig.sample_net] new)).
  { apply (inv_add_network new "lab" (replicate 32 1)); [|exact inv_new]. apply (bool_decide_unpack _). vm_compute. exact I. }
  assert (El : load_coord (Ok CoordConfig.sample_config) = Ok CoordConfig.sample_config) by (vm_compute; reflexivity).
  assert (Ht : forall cfg s, Ok (E := unit) CoordConfig.sample_config = Ok cfg -> CoordConfig.status cfg = Some s -> CoordConfig.plain_text (CoordConfig.password_hash s)).
  { intros cfg s [= <-] Hs. vm_compute in Hs. discriminate Hs. }
  pose proof (reload_sound (Membership := unit) no_write 2000 [lab] (Ok CoordConfig.sample_config) _ Hc ltac:(discriminate) Ht) as H. rewrite El in H.
  destruct H as (c' & H1 & H2 & _). exists c'. split; [exact H1|exact H2].
Defined.

End CoordRun.
