(* ===== verification/Status.v ===== *)
(** * The status endpoint (rill-coord/src/status.rs, rilld/src/status_http.rs)

    The read-only snapshot of a coordinator, the authentication of a request, the one
    operation that writes, and what a reload does to the endpoint.  HTTP and JSON are the
    work of libraries: a request is its authorization header and its body after decoding.
    SHA-256, the verdict of the rate limiter and the order in which hash tables are walked
    are arguments. *)

From Stdlib Require Import Ascii.
From S2P Require Import Prelude Crypto Net Route Control Registry AuthKey Coord PathService RouteMap Coordinator CoordinatorInv Replica Messages Server CoordConfig.

Module Status.
Import Net Route Coordinator CoordinatorInv Replica Server.

(** ** Masking *)

(** The bytes of the horizontal ellipsis. *)
Definition ellipsis : string := String "226"%char (String "128"%char (String "166"%char EmptyString)).

(** Slicing inside a character panics, as does a start before the text. *)
Definition mask_key (key : string) : outcome Empty_set string :=
  let l := String.list_ascii_of_string key in
  if decide (length l <= 8)%nat then Ok ellipsis
  else if decide (length l < 12)%nat then Panic
  else if negb (CoordConfig.at_boundary (drop (length l - 12) l) && CoordConfig.at_boundary (drop (length l - 4) l)) then Panic
  else Ok (String.string_of_list_ascii (take (length l - 12) l) +:+ ellipsis +:+ String.string_of_list_ascii (drop (length l - 4) l)).

Definition hex_digit (n : Z) : ascii := ascii_of_nat (Z.to_nat (if decide (n < 10) then 48 + n else 87 + n)).

Definition hex2 (b : Z) : string := String (hex_digit (b / 16)) (String (hex_digit (b mod 16)) EmptyString).

Definition fingerprint (sha256 : list Z -> list Z) (pubkey : list Z) : string :=
  "sha256:" +:+ foldr String.append EmptyString (hex2 <$> take 8 (sha256 pubkey)).

(** ** The snapshot *)

Record RelayStatus := mk_relay { rs_node_id : Z; rs_endpoints : list string }.
Record NetworkStatus := mk_network {
  ns_name : string; ns_network_id : Z; nodes_online : nat; nodes_offline : nat; ns_netmap_version : Z;
  relays : list RelayStatus; ns_announce_whitelist : list string }.
Record NodeStatus := mk_node {
  no_node_id : Z; no_network : string; pubkey_fingerprint : string; no_capabilities : Z; no_routes : list string;
  no_endpoints : list string; online : bool; last_seen_age_secs : option Z; no_protocol_version : Z; no_build_version : option string }.
Record AuthKeyStatus := mk_key {
  key_masked : string; ks_network : string; ks_policy : string; ks_tag : option string; ks_consumed : bool; expires_at : option Z }.
Record CoordSelfStatus := mk_self {
  cs_control_addr : string; cs_status_addr : option string; storage : string; uptime_secs : Z; cs_reload_log : list string }.
Record NodeTelemetryStatus := mk_telemetry { nt_node_id : Z; nt_view : TelemetryView }.
Record StatusSnapshot := mk_snapshot {
  generated_at : Z; sn_networks : list NetworkStatus; sn_nodes : list NodeStatus; sn_auth_keys : list AuthKeyStatus;
  sn_register_rejects : Z; sn_coord : CoordSelfStatus; sn_telemetry : list NodeTelemetryStatus }.

Record CoordRuntimeMeta := mk_meta {
  control_addr : string; status_addr : option string; storage_path : option string; started_at_unix : Z; now_unix : Z; reload_log : list string }.

Definition auth_key_specs_for (walk : gmap string Registry.AuthKeySpec -> list (string * Registry.AuthKeySpec)) (c : Coordinator) (network : string)
    : list (string * Registry.AuthKeySpec) :=
  match domain_by_name c network with Some d => walk (Registry.auth_keys (registry d)) | None => [] end.

Definition telemetry_all (c : Coordinator) : list (Z * TelemetryView) := sort (fun a b => a.1 <=? b.1) (map_to_list (telemetry c)).

Definition expiry_of (key : string) : option Z :=
  match AuthKey.parse_auth_key key with Ok (_, e, _) => if decide (e = 0) then None else Some e | _ => None end.

Definition policy_text (p : Registry.AuthKeyPolicy) : string := match p with Registry.OneTime => "OneTime" | Registry.Reusable => "Reusable" end.

Section View.
Context `{W : HashOrder}.
Context (sha256 : list Z -> list Z).
Context (walk_specs : gmap string Registry.AuthKeySpec -> list (string * Registry.AuthKeySpec)) (walk_keys : gset string -> list string).

Definition network_row (c : Coordinator) (nm : string) : NetworkStatus :=
  let network_id := network_id_for nm in
  let entries := netmap_snapshot c network_id in
  mk_network nm network_id (length (List.filter (fun e => negb (ni_offline e)) entries)) (length (List.filter ni_offline entries)) (netmap_version c)
    ((fun id => mk_relay id (Directory.merged_endpoints_of (directory c) id)) <$> relay_roster_for c network_id) (announce_whitelist c nm).

Definition node_row (c : Coordinator) (m : CoordRuntimeMeta) (nm : string) (e : NodeInfo) : NodeStatus :=
  mk_node (ni_node_id e) nm (fingerprint sha256 (ni_static_pubkey e)) (ni_capabilities e) (ni_routes e) (ni_endpoints e)
    (negb (bool_decide (ni_node_id e ∈ Liveness.offline (liveness c))))
    ((fun t => sat_sub (now_unix m) t) <$> Liveness.last_seen_of (liveness c) (ni_node_id e))
    (ni_protocol_version e) (Directory.build_version (directory c) (ni_node_id e)).

Definition node_rows (c : Coordinator) (m : CoordRuntimeMeta) : list NodeStatus :=
  concat ((fun nm => node_row c m nm <$> netmap_snapshot c (network_id_for nm)) <$> network_names c).

(** One key of the configuration; the set of used-up keys loses it. *)
Definition spec_row (nm : string) (x : string * Registry.AuthKeySpec) (consumed : gset string) : outcome Empty_set AuthKeyStatus * gset string :=
  let '(key, spec) := x in
  (masked ← mask_key key;
   Ok (mk_key masked nm (policy_text (Registry.policy spec)) (Registry.tag spec) (bool_decide (key ∈ consumed)) (expiry_of key)),
   consumed ∖ {[key]}).

Fixpoint spec_rows (nm : string) (specs : list (string * Registry.AuthKeySpec)) (consumed : gset string)
    : outcome Empty_set (list AuthKeyStatus * gset string) :=
  match specs with
  | [] => Ok ([], consumed)
  | x :: specs =>
      let '(r, consumed) := spec_row nm x consumed in
      row ← r; '(rows, unused) ← spec_rows nm specs consumed; Ok (row :: rows, unused)
  end.

Definition used_row (nm key : string) : outcome Empty_set AuthKeyStatus :=
  masked ← mask_key key; Ok (mk_key masked nm "OneTime" None true (expiry_of key)).

Definition key_rows (c : Coordinator) (nm : string) : outcome Empty_set (list AuthKeyStatus) :=
  '(keys, unused) ← spec_rows nm (auth_key_specs_for walk_specs c nm) (list_to_set (consumed_one_time_keys_for c nm));
  used ← CoordConfig.collect (used_row nm) (walk_keys unused); Ok (used ++ keys).

Definition snapshot (c : Coordinator) (m : CoordRuntimeMeta) : outcome Empty_set StatusSnapshot :=
  keys ← CoordConfig.collect (key_rows c) (network_names c);
  Ok (mk_snapshot (now_unix m) (network_row c <$> network_names c) (node_rows c m)
        (sort (fun a b => String.leb (key_masked a) (key_masked b)) (concat keys)) (register_rejects c)
        (mk_self (control_addr m) (status_addr m) (match storage_path m with Some p => "redb:" +:+ p | None => "memory" end)
           (sat_sub (now_unix m) (started_at_unix m)) (reload_log m))
        ((fun '(n, v) => mk_telemetry n v) <$> telemetry_all c)).
End View.

(** ** Requests *)

Definition RELOAD_LOG_CAP : nat := 20.

Record StatusState := mk_state { auth : CoordConfig.PasswordHash; log : list string }.

Definition rotate_password (s : StatusState) (h : CoordConfig.PasswordHash) : StatusState := mk_state h (log s).

Definition note_reload (s : StatusState) (ok : bool) (detail : string) : StatusState :=
  let l := log s ++ [(if ok then "ok" else "failed") +:+ " " +:+ detail] in
  mk_state (auth s) (if decide (RELOAD_LOG_CAP < length l)%nat then drop (length l - RELOAD_LOG_CAP) l else l).

Inductive Response := Unauthorized | TooManyRequests | BadRequest | NotFound | ServiceUnavailable | RevokedNode (node_id : Z) | StatusPage (s : StatusSnapshot).

(** [HeaderValue::to_str]: visible ASCII and tabs. *)
Definition to_str (header : string) : option string :=
  if forallb (fun c => bool_decide (code c = 9) || bool_decide (32 <= code c < 127)) (String.list_ascii_of_string header) then Some header else None.

Definition unauthorized (allow : bool) : Response := if allow then Unauthorized else TooManyRequests.

Section Requests.
Context {Membership : Type}.
Context `{W : HashOrder} `{P : Crypto.Primitives} `{S : Registry.IdentitySigner} `{D : Serde}.

(** [None] lets the request through. *)
Definition authenticate (s : StatusState) (allow : bool) (header : option string) : option Response :=
  match (v ← header; v ← to_str v; AuthKey.strip_prefix "Bearer " v) with
  | None => Some (unauthorized allow)
  | Some supplied => if CoordConfig.verify_password (auth s) supplied then None else Some (unauthorized allow)
  end.

Definition status_handler (sha256 : list Z -> list Z) (walk_specs : gmap string Registry.AuthKeySpec -> list (string * Registry.AuthKeySpec))
    (walk_keys : gset string -> list string) (s : StatusState) (allow : bool) (header : option string) (m : CoordRuntimeMeta) (c : Coordinator)
    : outcome Empty_set Response :=
  match authenticate s allow header with
  | Some r => Ok r
  | None => snap ← snapshot sha256 walk_specs walk_keys c m; Ok (StatusPage snap)
  end.

(** [body]: the node the request names, where it could be decoded. *)
Definition admin_revoke_handler (s : StatusState) (allow : bool) (header : option string) (body : option Z) (w : ClientWrite) (unix : Z)
    (b : CoordBackend (Membership := Membership)) : Response * CoordBackend (Membership := Membership) :=
  match authenticate s allow header with
  | Some r => (r, b)
  | None =>
      match body with
      | None => (BadRequest, b)
      | Some node_id =>
          match static_pubkey_of (coord b) node_id with
          | None => (NotFound, b)
          | Some _ =>
              let '(r, b) := backend_revoke b w node_id unix in
              (match r with Ok _ => RevokedNode node_id | _ => ServiceUnavailable end, b)
          end
      end
  end.

End Requests.

(** What a reload does to the endpoint. *)
Definition status_reloaded (loaded : outcome string CoordConfig.CoordConfig) (s : StatusState) : outcome Empty_set StatusState :=
  match loaded with
  | Ok cfg =>
      s ← (match CoordConfig.status cfg with
           | Some sc =>
               match CoordConfig.parse_password_hash (CoordConfig.password_hash sc) with
               | Ok h => Ok (rotate_password s h)
               | Err _ => Ok s
               | Panic => Panic
               end
           | None => Ok s
           end);
      Ok (note_reload s true "config reloaded (SIGHUP)")
  | Err e => Ok (note_reload s false e)
  | Panic => Panic
  end.

(** ** What masking shows *)

Abbreviation chars := String.list_ascii_of_string.

Lemma chars_app a b : chars (a +:+ b) = chars a ++ chars b.
Proof. induction a as [|c a IH]; [done|]. change (c :: chars (a +:+ b) = c :: (chars a ++ chars b)). by rewrite IH. Qed.

Lemma append_assoc a b c : (a +:+ b) +:+ c = a +:+ (b +:+ c).
Proof. induction a as [|x a IH]; [done|]. change (String x ((a +:+ b) +:+ c) = String x (a +:+ (b +:+ c))). by rewrite IH. Qed.

Lemma length_chars a : length (chars a) = String.length a.
Proof. induction a; cbn; auto. Qed.

Lemma strip_prefix_Some p : forall s r, AuthKey.strip_prefix p s = Some r -> s = p +:+ r.
Proof.
  induction p as [|c p IH]; intros s r; cbn; [by destruct s; intros [= <-]|]. destruct s as [|d s]; [done|].
  case_decide as E; [|done]. subst. intros H. change (String d s = String d (p +:+ r)). by rewrite <- (IH s r H).
Qed.

Lemma split_once_Some c : forall s a b, split_once c s = Some (a, b) -> s = a +:+ String c b.
Proof.
  induction s as [|d s IH]; intros a b; cbn; [done|]. case_decide as E; [by intros [= <- <-]; subst|].
  destruct (split_once c s) as [[a' b']|]; [|done]. cbn [mbind option_bind]. intros [= <- <-]. change (String d s = String d (a' +:+ String c b')). by rewrite <- (IH a' b' eq_refl).
Qed.

Lemma secret_boundaries s d : AuthKey.base32_decode s = Some d -> Forall (fun c => AuthKey.is_boundary c = true) (chars s).
Proof.
  unfold AuthKey.base32_decode. destruct (AuthKey.decode_loop _ 0 0 []) as [r|] eqn:E; [|done]. intros _. revert E.
  generalize 0 at 1, 0%nat, (@nil Z). generalize (chars s). induction l as [|c l IH]; intros buf n out E; [constructor|]. cbn [AuthKey.decode_loop] in E.
  destruct (AuthKey.position c) as [v|] eqn:Ec; [|done]. cbn in E. constructor; [|case_decide; by eapply IH].
  unfold AuthKey.position in Ec. apply fmap_Some in Ec as ([k x] & Hf & _). apply list_find_Some in Hf as (Hx & -> & _).
  assert (Hall : Forall (fun c => AuthKey.is_boundary c = true) AuthKey.BASE32_ALPHABET) by (apply (bool_decide_unpack _); vm_compute; exact I).
  by eapply Forall_lookup_1 in Hall.
Qed.

Lemma key_parts key n x s : AuthKey.parse_auth_key key = Ok (n, x, s) ->
  exists pre, key = pre +:+ s /\ String.length s = 52%nat /\ Forall (fun c => AuthKey.is_boundary c = true) (chars s).
Proof.
  unfold AuthKey.parse_auth_key. destruct (AuthKey.strip_prefix _ key) as [rest|] eqn:E1; [|done]. cbn.
  destruct (split_once "-" rest) as [[net tail]|] eqn:E2; [|done]. cbn. destruct (split_once "-" tail) as [[ex sec]|] eqn:E3; [|done]. cbn.
  destruct (AuthKey.validate_network net) as [[]| |]; [|done..]. cbn. destruct (parse_uint (2 ^ 64 - 1) ex) as [e|]; [|done]. cbn.
  case_decide as Hl; [done|]. destruct (AuthKey.base32_decode sec) as [d|] eqn:Ed; [|done]. cbn. case_decide; [done|]. intros [= <- <- <-].
  apply strip_prefix_Some in E1. apply split_once_Some in E2, E3. subst. exists (AuthKey.AUTH_KEY_PREFIX +:+ net +:+ "-" +:+ ex +:+ "-").
  split_and!; [|unfold AuthKey.AUTH_KEY_SECRET_CHARS in Hl; lia|by eapply secret_boundaries].
  rewrite !append_assoc. done.
Qed.

(** All but eight of the 52 characters of the secret of a key are shown. *)
Lemma mask_shows_secret key n x s : AuthKey.parse_auth_key key = Ok (n, x, s) ->
  exists pre s1 s2 s3, key = pre +:+ s1 +:+ s2 +:+ s3 /\ s = s1 +:+ s2 +:+ s3 /\ String.length s1 = 40%nat /\ String.length s2 = 8%nat /\ String.length s3 = 4%nat
    /\ mask_key key = Ok (pre +:+ s1 +:+ ellipsis +:+ s3).
Proof.
  intros (pre & -> & Hl & Hb)%key_parts. rewrite <- length_chars in Hl.
  set (l := chars s) in *. set (str := String.string_of_list_ascii).
  assert (Hs : forall a, chars (str a) = a) by apply String.list_ascii_of_string_of_list_ascii.
  assert (Happ : forall a b, str (a ++ b) = str a +:+ str b).
  { intros a b. induction a as [|c a IH]; [done|]. change (String c (str (a ++ b)) = String c (str a +:+ str b)). by rewrite IH. }
  assert (Es : s = str (take 40 l) +:+ str (take 8 (drop 40 l)) +:+ str (drop 48 l)).
  { rewrite <- !Happ. replace 48%nat with (40 + 8)%nat by lia. rewrite <- drop_drop, !take_drop. symmetry. apply String.string_of_list_ascii_of_string. }
  exists pre, (str (take 40 l)), (str (take 8 (drop 40 l))), (str (drop 48 l)).
  split; [by rewrite <- Es|]. split; [done|]. rewrite <- !length_chars, !Hs, !length_take, !length_drop, Hl. split_and!; [lia..|].
  assert (Hat : forall k, (k < 52)%nat -> CoordConfig.at_boundary (drop k l) = true).
  { intros k Hk. destruct (lookup_lt_is_Some_2 l k) as [c Hc]; [lia|]. rewrite (drop_S l c k Hc). by eapply Forall_lookup_1 in Hb. }
  unfold mask_key. rewrite chars_app, length_app. fold l. rewrite Hl. rewrite !decide_False by lia.
  replace (length (chars pre) + 52 - 12)%nat with (length (chars pre) + 40)%nat by lia. replace (length (chars pre) + 52 - 4)%nat with (length (chars pre) + 48)%nat by lia.
  rewrite <- !drop_drop, drop_app_length, !Hat by lia. cbn [andb negb]. rewrite take_app_add. fold str. rewrite Happ, append_assoc. unfold str at 1.
  by rewrite String.string_of_list_ascii_of_string.
Qed.

(** ** What the page says *)

Section Page.
Context `{W : HashOrder} `{!HashOrderLaws W}.
Context (sha256 : list Z -> list Z).
Context (walk_specs : gmap string Registry.AuthKeySpec -> list (string * Registry.AuthKeySpec)) (walk_keys : gset string -> list string).
Context (Hspecs : forall m, walk_specs m ≡ₚ map_to_list m) (Hkeys : forall s, walk_keys s ≡ₚ elements s).

Definition shown (key : string) : string := match mask_key key with Ok m => m | _ => EmptyString end.
Definition spec_shown (nm : string) (x : string * Registry.AuthKeySpec) : AuthKeyStatus :=
  mk_key (shown x.1) nm (policy_text (Registry.policy x.2)) (Registry.tag x.2) false (expiry_of x.1).
Definition used_shown (nm key : string) : AuthKeyStatus := mk_key (shown key) nm "OneTime" None true (expiry_of key).

Definition parses (k : string) : Prop := exists r, AuthKey.parse_auth_key k = Ok r.

(** The keys of a coordinator were parsed when they were added. *)
Lemma keys_parse c : inv c -> forall d k, d ∈ domains c ->
  is_Some (Registry.auth_keys (registry d) !! k) \/ k ∈ Registry.consumed_one_time (registry d) -> parses k.
Proof. intros Hc d k Hd Hk. destruct (do_keys _ _ (in_domains c Hc d Hd) k Hk) as (x & t & H). by exists (name d, x, t). Qed.

Lemma mask_shown k : parses k -> mask_key k = Ok (shown k).
Proof. intros [[[n x] s] H]. apply mask_shows_secret in H as (? & ? & ? & ? & _ & _ & _ & _ & _ & E). unfold shown. by rewrite E. Qed.

Lemma spec_rows_shown nm specs (consumed : gset string) : (forall x, x ∈ specs -> parses x.1 /\ x.1 ∉ consumed) ->
  spec_rows nm specs consumed = Ok (spec_shown nm <$> specs, consumed).
Proof.
  induction specs as [|[k spec] specs IH]; intros H; [done|]. cbn [spec_rows spec_row]. destruct (H (k, spec) ltac:(left)) as [Hp Hn]. cbn [fst] in Hp, Hn.
  rewrite (mask_shown k Hp). cbn [mbind]. rewrite bool_decide_eq_false_2 by done. replace (consumed ∖ {[k]}) with consumed by set_solver.
  rewrite IH; [done|]. intros x Hx. apply H. by right.
Qed.

Lemma collect_total {E A B} (f : A -> outcome E B) (g : A -> B) l : (forall x, x ∈ l -> f x = Ok (g x)) -> CoordConfig.collect f l = Ok (g <$> l).
Proof. induction l as [|x l IH]; intros H; [done|]. cbn. rewrite (H x) by left. cbn. rewrite IH; [done|]. intros y Hy. apply H. by right. Qed.

Definition key_list (c : Coordinator) (nm : string) : list AuthKeyStatus :=
  match domain_by_name c nm with
  | Some d => (used_shown nm <$> walk_keys (list_to_set (Registry.consumed_one_time (registry d))))
              ++ (spec_shown nm <$> walk_specs (Registry.auth_keys (registry d)))
  | None => []
  end.

Lemma key_rows_shown c nm : inv c -> nm ∈ network_names c -> key_rows walk_specs walk_keys c nm = Ok (key_list c nm).
Proof.
  intros Hc (d & -> & Hd)%list_elem_of_fmap. pose proof (keys_parse c Hc) as Hk. pose proof (by_name_elem c Hc d Hd) as Hb.
  unfold key_rows, key_list, auth_key_specs_for, consumed_one_time_keys_for. rewrite Hb.
  rewrite spec_rows_shown.
  - cbn. rewrite (collect_total _ (used_shown (name d))); [done|]. intros k Hx. unfold used_row. rewrite mask_shown; [done|].
    rewrite Hkeys, elem_of_elements, elem_of_list_to_set in Hx. eapply Hk; [done|by right].
  - intros [k spec] Hx. rewrite Hspecs in Hx. apply elem_of_map_to_list in Hx. cbn. split; [eapply Hk; [done|left; eauto]|].
    rewrite elem_of_list_to_set. intros Hx'. apply (Registry.wf_consumed _ (do_registry _ _ (in_domains c Hc d Hd))) in Hx'. congruence.
Qed.

Lemma names_nodup c : inv c -> NoDup (network_names c).
Proof.
  intros Hc. apply (NoDup_fmap_1 network_id_for). unfold network_names. rewrite <- list_fmap_compose.
  rewrite (list_fmap_ext _ network_id); [by apply in_ids|]. intros k d Hd%list_elem_of_lookup_2. cbn. symmetry. by apply (do_id _ _ (in_domains c Hc d Hd)).
Qed.

(** The rows of one network. *)
Lemma filter_rows c m nm : inv c -> nm ∈ network_names c ->
  List.filter (fun r => bool_decide (no_network r = nm)) (node_rows sha256 c m) = node_row sha256 c m nm <$> netmap_snapshot c (network_id_for nm).
Proof.
  intros Hc Hn. unfold node_rows. pose proof (names_nodup c Hc) as Hnd. revert Hn Hnd. generalize (network_names c) as names.
  assert (Hrow : forall n, List.filter (fun r => bool_decide (no_network r = nm)) (node_row sha256 c m n <$> netmap_snapshot c (network_id_for n))
      = if decide (n = nm) then node_row sha256 c m n <$> netmap_snapshot c (network_id_for n) else []).
  { intros n. generalize (netmap_snapshot c (network_id_for n)). induction l as [|e l IH]; [by case_decide|]. rewrite fmap_cons. cbn [List.filter no_network node_row].
    rewrite IH. destruct (decide (n = nm)) as [->|Hne]; [by rewrite bool_decide_eq_true_2|by rewrite bool_decide_eq_false_2]. }
  induction names as [|n names IH]; intros Hn Hnd; [by apply elem_of_nil in Hn|]. apply list.NoDup_cons in Hnd as [Hni Hnd].
  rewrite fmap_cons. cbn [concat]. rewrite List.filter_app, Hrow. destruct (decide (n = nm)) as [->|Hne].
  - rewrite (proj2 (bfilter_nil _ _)); [by rewrite app_nil_r|]. apply not_true_iff_false. rewrite existsb_elem. intros (r & Hr & E%bool_decide_eq_true).
    rewrite list_elem_of_In, in_concat in Hr. destruct Hr as (l & Hl & Hr). apply list_elem_of_In in Hl, Hr. apply list_elem_of_fmap in Hl as (n' & -> & Hn').
    apply list_elem_of_fmap in Hr as (e & -> & _). cbn in E. by subst.
  - cbn [app]. apply IH; [|done]. apply elem_of_cons in Hn as [->|?]; done.
Qed.

Lemma elem_node_rows c m r : inv c -> r ∈ node_rows sha256 c m <->
  exists d e, d ∈ domains c /\ entry d (Registry.node_id e) = Some e /\ r = node_row sha256 c m (name d) (node_info c d e).
Proof.
  intros Hc. unfold node_rows. rewrite list_elem_of_In, in_concat. split.
  - intros (l & Hl & Hr). apply list_elem_of_In in Hl, Hr. apply list_elem_of_fmap in Hl as (nm & -> & Hn). apply list_elem_of_fmap in Hn as (d & -> & Hd).
    apply list_elem_of_fmap in Hr as (i & -> & Hi). apply (elem_of_netmap c _ i Hc) in Hi as (d' & e & Hd' & Hid & He & ->).
    assert (d' = d) as ->; [|by exists d, e]. eapply (fmap_nodup_eq network_id); [by apply in_ids|done..|].
    by rewrite Hid, (do_id _ _ (in_domains c Hc d Hd)).
  - intros (d & e & Hd & He & ->). eexists. rewrite <- !list_elem_of_In. split.
    + apply list_elem_of_fmap_2, list_elem_of_fmap_2. exact Hd.
    + apply list_elem_of_fmap_2, elem_of_netmap; [done|]. exists d, e. split_and!; try done. apply (do_id _ _ (in_domains c Hc d Hd)).
Qed.

Lemma fmap_concat {A B} (f : A -> B) (ll : list (list A)) : fmap (M := list) f (concat ll) = concat (fmap (M := list) (fmap (M := list) f) ll).
Proof. induction ll as [|l ll IH]; [done|]. cbn [concat]. by rewrite fmap_app, IH, fmap_cons. Qed.

Lemma node_rows_nodup c m : inv c -> NoDup (no_node_id <$> node_rows sha256 c m).
Proof.
  intros Hc. unfold node_rows. rewrite fmap_concat, <- list_fmap_compose. apply nodup_concat; [by apply names_nodup| |].
  - intros nm _. cbn. rewrite <- list_fmap_compose. change (no_node_id ∘ node_row sha256 c m nm) with ni_node_id. by apply netmap_nodup.
  - intros n1 n2 z (d1 & -> & Hd1)%list_elem_of_fmap (d2 & -> & Hd2)%list_elem_of_fmap H1 H2.
    cbn in H1, H2. rewrite <- list_fmap_compose in H1, H2. apply list_elem_of_fmap in H1 as (i1 & -> & H1). apply list_elem_of_fmap in H2 as (i2 & E & H2).
    apply (elem_of_netmap c _ _ Hc) in H1 as (x1 & e1 & Hx1 & Hi1 & He1 & ->). apply (elem_of_netmap c _ _ Hc) in H2 as (x2 & e2 & Hx2 & Hi2 & He2 & ->).
    cbn in E. assert (x1 = x2) as -> by (eapply (in_unique c Hc); [done|done|eauto|rewrite E; eauto]).
    pose proof (do_id _ _ (in_domains c Hc d1 Hd1)) as I1. pose proof (do_id _ _ (in_domains c Hc d2 Hd2)) as I2.
    f_equal. eapply (fmap_nodup_eq network_id); [by apply in_ids|done|done|congruence].
Qed.

Lemma count_rows c m nm (p : NodeStatus -> bool) (q : NodeInfo -> bool) : inv c -> nm ∈ network_names c ->
  (forall d e, d ∈ domains c -> entry d (Registry.node_id e) = Some e -> p (node_row sha256 c m nm (node_info c d e)) = q (node_info c d e)) ->
  length (List.filter (fun r => bool_decide (no_network r = nm) && p r) (node_rows sha256 c m)) = length (List.filter q (netmap_snapshot c (network_id_for nm))).
Proof.
  intros Hc Hn Hpq. assert (Hf : forall l : list NodeStatus, List.filter (fun r => bool_decide (no_network r = nm) && p r) l
      = List.filter p (List.filter (fun r => bool_decide (no_network r = nm)) l)).
  { induction l as [|r l IH]; [done|]. cbn. destruct (bool_decide (no_network r = nm)); cbn; [|done]. by destruct (p r); rewrite IH. }
  rewrite Hf, filter_rows by done.
  assert (Hall : forall i, i ∈ netmap_snapshot c (network_id_for nm) -> p (node_row sha256 c m nm i) = q i).
  { intros i Hi. apply (elem_of_netmap c _ i Hc) in Hi as (d & e & Hd & _ & He & ->). by apply Hpq. }
  revert Hall. generalize (netmap_snapshot c (network_id_for nm)). induction l as [|i l IH]; intros Hall; [done|].
  rewrite fmap_cons. cbn [List.filter]. rewrite (Hall i) by left. specialize (IH ltac:(intros j Hj; apply Hall; by right)). destruct (q i); cbn; by rewrite IH.
Qed.

Lemma elem_key_lists c r : inv c -> r ∈ concat (key_list c <$> network_names c) <-> exists d k, d ∈ domains c
  /\ ((exists spec, Registry.auth_keys (registry d) !! k = Some spec /\ r = spec_shown (name d) (k, spec))
      \/ (k ∈ Registry.consumed_one_time (registry d) /\ r = used_shown (name d) k)).
Proof.
  intros Hc. assert (Hl : forall d, d ∈ domains c -> key_list c (name d) = (used_shown (name d) <$> walk_keys (list_to_set (Registry.consumed_one_time (registry d))))
      ++ (spec_shown (name d) <$> walk_specs (Registry.auth_keys (registry d)))).
  { intros d Hd. unfold key_list. by rewrite (by_name_elem c Hc d Hd). }
  rewrite list_elem_of_In, in_concat. setoid_rewrite <- list_elem_of_In. split.
  - intros (l & (nm & -> & (d & -> & Hd)%list_elem_of_fmap)%list_elem_of_fmap & Hr). rewrite (Hl d Hd), elem_of_app in Hr.
    destruct Hr as [(k & -> & Hk)%list_elem_of_fmap|([k spec] & -> & Hk)%list_elem_of_fmap]; exists d, k; (split; [done|]).
    + right. rewrite Hkeys, elem_of_elements, elem_of_list_to_set in Hk. done.
    + left. rewrite Hspecs in Hk. apply elem_of_map_to_list in Hk. eauto.
  - intros (d & k & Hd & H). exists (key_list c (name d)). split; [by apply list_elem_of_fmap_2, list_elem_of_fmap_2|]. rewrite (Hl d Hd), elem_of_app.
    destruct H as [(spec & Hs & ->)|[Hk ->]]; [right|left]; apply list_elem_of_fmap_2.
    + rewrite Hspecs. by apply elem_of_map_to_list.
    + by rewrite Hkeys, elem_of_elements, elem_of_list_to_set.
Qed.

(** The row of a key, its masked text aside. *)
Definition key_row (nm k policy : string) (tag : option string) (consumed : bool) (r : AuthKeyStatus) : Prop :=
  ks_network r = nm /\ ks_policy r = policy /\ ks_tag r = tag /\ ks_consumed r = consumed /\ expires_at r = expiry_of k.

(** The key [k] of the domain [d] that the row shows: configured, or used up. *)
Definition shows_key (d : NetworkDomain) (k : string) (r : AuthKeyStatus) : Prop :=
  (exists spec, Registry.auth_keys (registry d) !! k = Some spec /\ key_row (name d) k (policy_text (Registry.policy spec)) (Registry.tag spec) false r)
  \/ (k ∈ Registry.consumed_one_time (registry d) /\ key_row (name d) k "OneTime" None true r).

(** C36: the status page tells what the coordinator holds, and building it does not panic.  Every
    registered node has one row, under the name of its network, on-line exactly when it is not
    counted as gone; the counts of a network are those of its rows; every key configured for a
    network has a row that says unused, every one-time key used up has one that says used, with
    the network, policy, tag and expiry of the key, and there is no other row.  (The masked text
    of a row is not part of this: see [mask_shows_secret].) *)
Theorem snapshot_exact (c : Coordinator) (m : CoordRuntimeMeta) (Hc : inv c) :
  exists s, snapshot sha256 walk_specs walk_keys c m = Ok s
  /\ NoDup (no_node_id <$> sn_nodes s) /\ (forall n, n ∈ no_node_id <$> sn_nodes s <-> is_Some (network_id_of c n))
  /\ (forall r, r ∈ sn_nodes s -> online r = negb (Liveness.is_offline (liveness c) (no_node_id r))
         /\ network_id_of c (no_node_id r) = Some (network_id_for (no_network r)))
  /\ (forall w, w ∈ sn_networks s ->
         nodes_online w = length (List.filter (fun r => bool_decide (no_network r = ns_name w) && online r) (sn_nodes s))
         /\ nodes_offline w = length (List.filter (fun r => bool_decide (no_network r = ns_name w) && negb (online r)) (sn_nodes s)))
  /\ (forall r, r ∈ sn_auth_keys s -> exists d k, d ∈ domains c /\ shows_key d k r)
  /\ (forall d k, d ∈ domains c -> is_Some (Registry.auth_keys (registry d) !! k) \/ k ∈ Registry.consumed_one_time (registry d) ->
         exists r, r ∈ sn_auth_keys s /\ shows_key d k r).
Proof.
  unfold snapshot. rewrite (collect_total _ (key_list c)) by (intros nm Hn; by apply key_rows_shown). eexists. split; [done|].
  cbn [sn_nodes sn_networks sn_auth_keys]. split_and!.
  - by apply node_rows_nodup.
  - intros n. rewrite list_elem_of_fmap. unfold network_id_of. split.
    + intros (r & -> & (d & e & Hd & He & ->)%(elem_node_rows c m r Hc)). cbn. rewrite (proj2 (domain_of_node_iff c Hc _ d)); eauto.
    + destruct (domain_of_node c n) as [d|] eqn:Ed; [|by intros []]. intros _. apply (domain_of_node_iff c Hc) in Ed as [Hd [e He]].
      destruct (Registry.wf_entry _ (do_registry _ _ (in_domains c Hc d Hd)) n e He) as [<- _].
      exists (node_row sha256 c m (name d) (node_info c d e)). split; [done|]. apply elem_node_rows; eauto 10.
  - intros r (d & e & Hd & He & ->)%(elem_node_rows c m r Hc). split; [done|]. cbn. unfold network_id_of.
    rewrite (proj2 (domain_of_node_iff c Hc _ d)) by eauto. cbn. f_equal. apply (do_id _ _ (in_domains c Hc d Hd)).
  - intros w (nm & -> & Hn)%list_elem_of_fmap. cbn. split; symmetry; apply count_rows; try done. intros d e _ _. cbn. unfold Liveness.is_offline. by rewrite negb_involutive.
  - intros r. rewrite elem_of_sort, (elem_key_lists c r Hc). intros (d & k & Hd & [(spec & Hs & ->)|[Hu ->]]); exists d, k; (split; [done|]).
    + left. by exists spec.
    + by right.
  - intros d k Hd [[spec Hs]|Hu]; [exists (spec_shown (name d) (k, spec))|exists (used_shown (name d) k)];
      rewrite elem_of_sort, (elem_key_lists c _ Hc); (split; [exists d, k; (split; [done|]); eauto|]).
    + left. by exists spec.
    + by right.
Qed.

End Page.
(** ** Who may do what *)

Section Gate.
Context {Membership : Type}.
Context `{W : HashOrder} `{!HashOrderLaws W} `{P : Crypto.Primitives} `{S : Registry.IdentitySigner} `{D : Serde}.

(** The header carries the password, as a text of visible characters (a header with others is
    not read at all). *)
Definition knows_password (s : StatusState) (header : option string) : Prop :=
  exists p, header = Some ("Bearer " +:+ p) /\ to_str ("Bearer " +:+ p) = Some ("Bearer " +:+ p) /\ CoordConfig.verify_password (auth s) p = true.

(** The limiter has no say in who is let through: it only changes the refusal. *)
Lemma authenticate_spec s allow header :
  match authenticate s allow header with
  | None => knows_password s header
  | Some r => r = unauthorized allow /\ ~ knows_password s header
  end.
Proof.
  assert (Hn : ~ knows_password s header -> match Some (unauthorized allow) with
    | None => knows_password s header | Some r => r = unauthorized allow /\ ~ knows_password s header end) by done.
  unfold authenticate. destruct header as [v|]; cbn [mbind option_bind]; [|apply Hn; by intros (p & ? & _)].
  destruct (to_str v) as [v'|] eqn:Et; cbn [mbind option_bind]; [|apply Hn; intros (p & [= ->] & Hp & _); congruence].
  assert (v' = v) as -> by (unfold to_str in Et; case_match; by simplify_eq). destruct (AuthKey.strip_prefix "Bearer " v) as [p|] eqn:Ep.
  - apply strip_prefix_Some in Ep as ->. destruct (CoordConfig.verify_password (auth s) p) eqn:Ev; [by exists p|].
    apply Hn. intros (q & [= Eq] & _ & Hq). change (p = q) in Eq. subst. congruence.
  - apply Hn. intros (p & [= ->] & _). by rewrite AuthKey.strip_prefix_app in Ep.
Qed.

Lemma revoked_gone c n now log : inv c -> is_Some (node_entry c n) -> node_entry (revoke c n now log) n = None.
Proof.
  intros Hc [e He]. pose proof (inv_revoke c n now log Hc) as Hc1. apply (node_entry_None _ n Hc1), (in_revoked _ Hc1). unfold revoke.
  destruct (flush_entry c now n e Hc He) as (d & Hd & Hde).
  assert (Hh : existsb (holds n) (domains (flush_revoke_rotations c now).2) = true) by (apply existsb_elem; exists d; split; [done|]; apply holds_true; eauto).
  rewrite Hh. cbn. rewrite lookup_insert_eq. eauto.
Qed.

(** C17: only the administrator revokes, and only what was asked.  A request to a coordinator that
    runs alone is confirmed exactly when its header carries the password in visible characters, its
    body names a node and the node is registered; then the node is gone from the registry, every
    other node keeps its entry, and the invariant holds.  With the password and a body that names no
    node, or one that is not registered, the answer says so; without the password the request is
    refused; and in all these cases the coordinator is as it was. *)
Theorem admin_gate (s : StatusState) (allow : bool) (header : option string) (body : option Z) (w : ClientWrite) (unix : Z) (c : Coordinator) (Hc : inv c) :
  let '(r, b) := admin_revoke_handler (Membership := Membership) s allow header body w unix (Single c) in
  match r with
  | RevokedNode n => knows_password s header /\ body = Some n /\ is_Some (node_entry c n) /\
      exists c', b = Single c' /\ inv c' /\ node_entry c' n = None /\ forall m e, m <> n -> node_entry c m = Some e -> node_entry c' m = Some e
  | BadRequest => b = Single c /\ knows_password s header /\ body = None
  | NotFound => b = Single c /\ knows_password s header /\ exists n, body = Some n /\ node_entry c n = None
  | Unauthorized | TooManyRequests => b = Single c /\ r = unauthorized allow /\ ~ knows_password s header
  | ServiceUnavailable | StatusPage _ => False
  end.
Proof.
  unfold admin_revoke_handler. pose proof (authenticate_spec s allow header) as Ha. destruct (authenticate s allow header) as [r|].
  { destruct Ha as [-> Hn]. by destruct allow. }
  destruct body as [n|]; [|done]. cbn [coord]. unfold static_pubkey_of. destruct (node_entry c n) as [e|] eqn:En; cbn; [|by eauto].
  split; [done|]. split; [done|]. split; [by rewrite En; eauto|]. eexists. split; [done|]. split; [by apply inv_revoke|].
  split; [apply revoked_gone; [done|]; by rewrite En|]. intros m x Hne Hx. by apply revoke_keeps.
Qed.

(** A replica that does not lead refuses and changes nothing. *)
Lemma admin_follower s allow header body unix m ms self l :
  let '(r, b) := admin_revoke_handler (Membership := Membership) s allow header body (ForwardToLeader l) unix (Cluster m ms self) in
  b = Cluster m ms self /\ (forall n, r <> RevokedNode n).
Proof.
  unfold admin_revoke_handler. pose proof (authenticate_spec s allow header) as Ha. destruct (authenticate s allow header) as [r|].
  { destruct Ha as [-> _]. by destruct allow. }
  destruct body as [n|]; [|done]. cbn [coord]. by destruct (static_pubkey_of (coordinator m) n).
Qed.

End Gate.

(** ** Reload *)

Lemma note_reload_bounded s ok d : (length (log s) <= RELOAD_LOG_CAP)%nat -> (length (log (note_reload s ok d)) <= RELOAD_LOG_CAP)%nat
  /\ list.last (log (note_reload s ok d)) = Some ((if ok then "ok" else "failed") +:+ " " +:+ d).
Proof.
  intros H. unfold note_reload. cbn [log]. set (x := _ +:+ _). case_decide as Hd; [|split; [lia|by rewrite last_snoc]].
  rewrite length_drop. split; [lia|]. rewrite drop_app_le by (rewrite length_app; unfold RELOAD_LOG_CAP in *; cbn in *; lia). by rewrite last_snoc.
Qed.

(** A reload that is refused leaves the password; one that is taken puts the new one in force,
    or leaves the old one where its section is gone. *)
Lemma reload_password loaded s s' : status_reloaded loaded s = Ok s' ->
  match loaded with
  | Ok cfg => match CoordConfig.status cfg with
              | Some sc => CoordConfig.parse_password_hash (CoordConfig.password_hash sc) = Ok (auth s')
                           \/ (exists e, CoordConfig.parse_password_hash (CoordConfig.password_hash sc) = Err e) /\ auth s' = auth s
              | None => auth s' = auth s
              end
  | _ => auth s' = auth s
  end.
Proof.
  unfold status_reloaded. destruct loaded as [cfg|e|]; [|by intros [= <-]|done]. destruct (CoordConfig.status cfg) as [sc|]; [|by intros [= <-]].
  destruct (CoordConfig.parse_password_hash (CoordConfig.password_hash sc)) as [h|e|] eqn:Eh; cbn; [intros [= <-]; by left|intros [= <-]; right; eauto|done].
Qed.

(** ** Concrete pages *)

#[local] Existing Instance Crypto.Toy.toy.
#[local] Existing Instance Registry.toy_signer.

Lemma snapshot_exact_witness :
  exists s, snapshot (fun b => b) map_to_list elements sample (mk_meta "c" None None 0 50 []) = Ok s /\ (1 ∈ no_node_id <$> sn_nodes s).
Proof.
  destruct (snapshot_exact (fun b => b) map_to_list elements (fun m => reflexivity _) (fun s => reflexivity _) sample (mk_meta "c" None None 0 50 [])
    (coord_reachable_inv _ coord_sample_reachable)) as (s & H1 & _ & H2 & _).
  exists s. split; [exact H1|]. apply H2. apply (bool_decide_unpack _). vm_compute. exact I.
Defined.

Definition sample_state : StatusState :=
  mk_state (CoordConfig.mk_hash 2 (replicate 16 7) (CoordConfig.pbkdf2_sha256 (str_bytes "pw") (replicate 16 7) 2 32)) [].

Lemma admin_gate_witness :
  exists c', admin_revoke_handler (Membership := unit) sample_state false (Some "Bearer pw") (Some 1) Fatal 100 (Single sample) = (RevokedNode 1, Single c')
    /\ node_entry c' 1 = None.
Proof.
  pose proof (admin_gate (Membership := unit) sample_state false (Some "Bearer pw"%string) (Some 1) Fatal 100 sample (coord_reachable_inv _ coord_sample_reachable)) as H.
  destruct (admin_revoke_handler sample_state false (Some "Bearer pw"%string) (Some 1) Fatal 100 (Single sample)) as [r b] eqn:E.
  assert (Er : r = RevokedNode 1) by (apply (f_equal fst) in E; vm_compute in E; by symmetry).
  subst r. destruct H as (_ & _ & _ & c' & -> & _ & Hn & _). exists c'. split; [reflexivity|exact Hn].
Defined.

(** Forty-four characters of the secret of the sample key can be read off the page. *)
Example masked_sample : mask_key (CoordConfig.sample_key "lab")
  = Ok ("lrk-lab-0-AAAAAAAAAAAAAAAAAAAAAAAAAAAAAAAAAAAAAAAA" +:+ ellipsis +:+ "AAAA").
Proof. vm_compute. reflexivity. Qed.

End Status.
