(* ===== verification/RaftRpc.v ===== *)
(** * Calls between replicas (rill-mesh/src/control/raft_rpc.rs)

    One replica calls another over a connection that it keeps: a request frame, a reply
    frame, the next request.  The requests and replies of the Raft library, their encoding,
    and the library itself, which answers them, are parameters; TLS is below this model.  A
    call runs under a time limit and is dropped where it is when the time runs out, also
    between the bytes of a frame. *)

From Stdlib Require Import Ascii.
From S2P Require Import Prelude Net Framing.

Module RaftRpc.
Import Net Framing.

Section Rpc.
(** The bodies of the three requests and of their replies. *)
Context {AppendReq VoteReq SnapReq AppendResp VoteResp SnapResp : Type}.

Inductive RaftRpcRequest := Append (rpc : AppendReq) | Vote (rpc : VoteReq) | InstallSnapshot (rpc : SnapReq).

Inductive RaftRpcResponse := RAppend (r : AppendResp) | RVote (r : VoteResp) | RSnapshot (r : SnapResp) | RError (msg : string).

(** The encoding of requests and replies. *)
Class RpcSerde := {
  req_to_vec : RaftRpcRequest -> list Z;
  req_from_slice : list Z -> option RaftRpcRequest;
  resp_to_vec : RaftRpcResponse -> list Z;
  resp_from_slice : list Z -> option RaftRpcResponse
}.

Class RpcSerdeLaws (D : RpcSerde) := {
  req_back r : req_from_slice (req_to_vec r) = Some r;
  resp_back r : resp_from_slice (resp_to_vec r) = Some r
}.

(** The Raft instance of the replica: each call may fail with a message. *)
Class Raft (St : Type) := {
  append_entries : St -> AppendReq -> (AppendResp + string) * St;
  vote : St -> VoteReq -> (VoteResp + string) * St;
  install_full_snapshot : St -> SnapReq -> (SnapResp + string) * St
}.

Context `{D : RpcSerde} {St : Type} `{R : Raft St}.

(** ** The server *)

Definition reply_of {R} (mk : R -> RaftRpcResponse) (r : R + string) : RaftRpcResponse := match r with inl x => mk x | inr e => RError e end.

(** What the body of the loop does with a request that was decoded. *)
Definition dispatch (s : St) (req : RaftRpcRequest) : RaftRpcResponse * St :=
  match req with
  | Append rpc => let '(r, s) := append_entries s rpc in (reply_of RAppend r, s)
  | Vote rpc => let '(r, s) := vote s rpc in (reply_of RVote r, s)
  | InstallSnapshot rpc => let '(r, s) := install_full_snapshot s rpc in (reply_of RSnapshot r, s)
  end.

(** The loop of [serve_raft_rpc] on the bytes that have arrived: the bytes it writes, the
    bytes of a frame that is not whole, and whether it goes on. *)
Fixpoint serve (fuel : nat) (s : St) (buf : list Z) : list Z * list Z * bool * St :=
  match fuel with
  | O => ([], buf, true, s)
  | S fuel =>
      match take_frame buf with
      | Ok None => ([], buf, true, s)
      | Ok (Some (body, rest)) =>
          match req_from_slice body with
          | None =>
              (match write_frame (resp_to_vec (RError "bad rpc frame")) with Ok w => w | _ => [] end, rest, false, s)
          | Some req =>
              let '(resp, s) := dispatch s req in
              match write_frame (resp_to_vec resp) with
              | Ok w => let '(ws, rest, alive, s) := serve fuel s rest in (w ++ ws, rest, alive, s)
              | _ => ([], rest, false, s)
              end
          end
      | _ => ([], buf, false, s)
      end
  end.

(** ** The client *)

Definition parse_addr (addr : string) : option (string * Z) :=
  '(host, port) ← rsplit_once ":" addr; port ← parse_uint 65535 port; Some (host, port).

(** A connection: what the server has of a frame that is not whole, the bytes on their way
    back that nobody has read, and whether the server still reads. *)
Record Stream := mk_stream { unserved : list Z; unread : list Z; alive : bool }.

Definition fresh_stream : Stream := mk_stream [] [] true.

Record PeerConn := mk_conn { host : string; port : Z; stream : option Stream }.

Definition set_stream (c : PeerConn) (s : option Stream) : PeerConn := mk_conn (host c) (port c) s.

Definition new_client (addr : string) : outcome Empty_set PeerConn :=
  match parse_addr addr with Some (h, p) => Ok (mk_conn h p None) | None => Panic end.

(** Bytes go out, and the server handles what it can of them. *)
Definition deliver (x : Stream) (s : St) (bytes : list Z) : Stream * St :=
  if alive x then
    let buf := unserved x ++ bytes in
    let '(w, rest, go, s) := serve (length buf) s buf in (mk_stream rest (unread x ++ w) go, s)
  else (x, s).

(** How far a call gets: as far as it goes; or a step fails, a write after [k] bytes; or its
    time runs out while it connects, after it has written [k] bytes of its frame, or after it
    has read [j] bytes of the reply, and its future is dropped there. *)
Inductive Fate := Through | ConnectFails | WriteFails (k : nat) | ReadFails | LateConnecting | LateWriting (k : nat) | LateReading (j : nat).

Inductive CallError := Io | Timeout.

(** [PeerConn::call] once there is a connection. *)
Definition call_on (f : Fate) (c : PeerConn) (st : Stream) (s : St) (req : RaftRpcRequest) : outcome CallError RaftRpcResponse * PeerConn * St :=
  match write_frame (req_to_vec req) with
  | Ok bytes =>
      let '(x, s) := deliver st s (match f with WriteFails k | LateWriting k => take k bytes | _ => bytes end) in
      match f with
      | WriteFails _ | ReadFails => (Err Io, set_stream c None, s)
      | LateWriting _ => (Err Timeout, set_stream c (Some x), s)
      | LateReading j => (Err Timeout, set_stream c (Some (mk_stream (unserved x) (drop j (unread x)) (alive x))), s)
      | _ =>
          match take_frame (unread x) with
          | Ok (Some (body, rest)) =>
              match resp_from_slice body with
              | Some r => (Ok r, set_stream c (Some (mk_stream (unserved x) rest (alive x))), s)
              | None => (Err Io, set_stream c None, s)
              end
          | Ok None => if alive x then (Err Timeout, set_stream c (Some x), s) else (Err Io, set_stream c None, s)
          | _ => (Err Io, set_stream c None, s)
          end
      end
  | _ => (Err Io, set_stream c None, s)
  end.

(** [call_with_ttl] around [PeerConn::call]. *)
Definition call_with_ttl (f : Fate) (c : PeerConn) (s : St) (req : RaftRpcRequest) : outcome CallError RaftRpcResponse * PeerConn * St :=
  match stream c, f with
  | None, ConnectFails => (Err Io, c, s)
  | None, LateConnecting => (Err Timeout, c, s)
  | st, _ => call_on f c (default fresh_stream st) s req
  end.

(** What the three calls of the library make of a reply: anything but the right kind is an
    unreachable peer. *)
Definition client_append (f : Fate) (c : PeerConn) (s : St) (rpc : AppendReq) : option AppendResp * PeerConn * St :=
  let '(r, c, s) := call_with_ttl f c s (Append rpc) in (match r with Ok (RAppend x) => Some x | _ => None end, c, s).

Definition client_vote (f : Fate) (c : PeerConn) (s : St) (rpc : VoteReq) : option VoteResp * PeerConn * St :=
  let '(r, c, s) := call_with_ttl f c s (Vote rpc) in (match r with Ok (RVote x) => Some x | _ => None end, c, s).

Definition client_full_snapshot (f : Fate) (c : PeerConn) (s : St) (rpc : SnapReq) : option SnapResp * PeerConn * St :=
  let '(r, c, s) := call_with_ttl f c s (InstallSnapshot rpc) in (match r with Ok (RSnapshot x) => Some x | _ => None end, c, s).

(** ** Replies and requests *)
Context `{L : !RpcSerdeLaws D}.

(** Nothing is left over on the connection, in either direction. *)
Definition in_step (c : PeerConn) : Prop := stream c = None \/ stream c = Some fresh_stream.

(** A call that is given up after it has begun to write. *)
Definition given_up (f : Fate) : Prop := match f with LateWriting _ | LateReading _ => True | _ => False end.

(** A frame that is too long for the reader is one for which it breaks off. *)
Lemma take_frame_written body w : write_frame body = Ok w -> take_frame w = Ok (Some (body, [])) \/ take_frame w = Err TooLong.
Proof.
  unfold write_frame. case_decide as Hl; [done|]. intros H.
  assert (Ew : w = frame body ++ []) by (rewrite app_nil_r; rewrite wrap_small in H by uint; by injection H as <-). clear H. subst w.
  destruct (decide (Z.of_nat (length body) <= MAX_MESSAGE_LEN)) as [Hf|Hf]; [left; by apply take_frame_whole|right].
  unfold take_frame. rewrite decide_True by (rewrite length_app, length_frame; lia). rewrite frame_header by lia.
  by rewrite decide_True by lia.
Qed.

Lemma take_frame_empty : take_frame [] = Ok None.
Proof. done. Qed.

(** A whole request on a fresh connection: the reply to it comes back, or nothing does and the
    server is gone. *)
Lemma deliver_whole s req w : write_frame (req_to_vec req) = Ok w ->
  (exists v, write_frame (resp_to_vec (dispatch s req).1) = Ok v /\ deliver fresh_stream s w = (mk_stream [] v true, (dispatch s req).2)) \/
  (exists rest s', deliver fresh_stream s w = (mk_stream rest [] false, s')).
Proof.
  intros Hw. unfold deliver. cbn [alive fresh_stream unserved unread app].
  assert (Hn : exists n, length w = S (S n)).
  { unfold write_frame in Hw. case_decide; [done|]. apply Ok_inj in Hw. subst w. rewrite length_app, length_be_bytes. by eexists. }
  destruct Hn as [n ->]. cbn [serve]. destruct (take_frame_written _ _ Hw) as [-> | ->]; [|right; eauto].
  rewrite req_back. destruct (dispatch s req) as [resp s1]. cbn [fst snd]. destruct (write_frame (resp_to_vec resp)) as [v|e|] eqn:Ev; [|right; eauto..].
  rewrite take_frame_empty, app_nil_r. left. by exists v.
Qed.

(** A call on a connection in step gets the reply to its own request or an error, and leaves
    the connection in step unless it is given up after it has begun to write. *)
Lemma call_in_step f c s req r c' s' : in_step c -> call_with_ttl f c s req = (r, c', s') ->
  (r = Ok (dispatch s req).1 /\ s' = (dispatch s req).2 \/ exists e, r = Err e) /\ (~ given_up f -> in_step c').
Proof.
  intros Hc.
  assert (Hno : forall e c1 s1, (Err e, c1, s1) = (r, c', s') -> (~ given_up f -> in_step c1) ->
    (r = Ok (dispatch s req).1 /\ s' = (dispatch s req).2 \/ exists e, r = Err e) /\ (~ given_up f -> in_step c'))
    by (intros e c1 s1 [= <- <- <-] H; split; [eauto|done]).
  assert (G : call_on f c fresh_stream s req = (r, c', s') ->
    (r = Ok (dispatch s req).1 /\ s' = (dispatch s req).2 \/ exists e, r = Err e) /\ (~ given_up f -> in_step c')).
  { unfold call_on. intros H. destruct (write_frame (req_to_vec req)) as [w|e|] eqn:Ew; [|by apply Hno in H; [|by left]..].
    destruct (deliver fresh_stream s _) as [x s1] eqn:Ed.
    destruct f; try (apply Hno in H; [done|]; first [by left|intros Hg; by destruct Hg]).
    all: destruct (deliver_whole s req w Ew) as [(v & Ev & E)|(rest & s2 & E)]; rewrite E in Ed; injection Ed as <- <-; cbn [unread alive unserved] in H.
    all: try (apply Hno in H; [done|by left]).
    all: destruct (take_frame_written _ _ Ev) as [E1|E1]; rewrite E1 in H; [|by apply Hno in H; [|by left]].
    all: rewrite resp_back in H; injection H as <- <- <-; split; [by left|by right]. }
  unfold call_with_ttl. destruct Hc as [Es|Es]; rewrite Es; cbn [default id]; [|destruct f; exact G].
  destruct f; try exact G; intros H; (apply Hno in H; [done|by left]).
Qed.

(** Calls of which none is given up after it has begun to write. *)
Inductive calls : PeerConn -> St -> PeerConn -> St -> Prop :=
| calls_nil c s : calls c s c s
| calls_step c s f req r c1 s1 c2 s2 : ~ given_up f -> call_with_ttl f c s req = (r, c1, s1) -> calls c1 s1 c2 s2 -> calls c s c2 s2.

Lemma calls_in_step c s c' s' : calls c s c' s' -> in_step c -> in_step c'.
Proof. induction 1 as [|c s f req r c1 s1 c2 s2 Hf Hs _ IH]; [done|]. intros Hc. apply IH. by eapply call_in_step. Qed.

(** C18: as long as no call runs out of time between the first byte of its request and the last of
    its reply, every call that returns returns the reply of the peer to its own request, whatever
    connections break in between and wherever in a frame. *)
Theorem replies_match (addr : string) (c0 c c' : PeerConn) (s0 s s' : St) (f : Fate) (req : RaftRpcRequest) (x : RaftRpcResponse)
  (Hnew : new_client addr = Ok c0) (Hrun : calls c0 s0 c s) (Hcall : call_with_ttl f c s req = (Ok x, c', s')) :
  dispatch s req = (x, s').
Proof.
  assert (H0 : in_step c0).
  { unfold new_client in Hnew. destruct (parse_addr addr) as [[h p]|]; [|done]. injection Hnew as <-. by left. }
  pose proof (calls_in_step _ _ _ _ Hrun H0) as Hc.
  destruct (call_in_step _ _ _ _ _ _ _ Hc Hcall) as [[[[= ->] ->]|[e He]] _]; [by destruct (dispatch s req)|done].
Qed.

End Rpc.

(** ** A peer *)

(** A follower with one number as its log: an append is taken when it goes on where the log
    ends, and the answer says so. *)
#[local] Instance follower : Raft (AppendReq := Z * Z) (VoteReq := Z) (SnapReq := Z) (AppendResp := bool) (VoteResp := bool) (SnapResp := Z) Z := {|
  append_entries := fun last rpc => if decide (rpc.1 = last) then (inl true, rpc.2) else (inl false, last);
  vote := fun last v => (inl (bool_decide (last <= v)), last);
  install_full_snapshot := fun _ n => (inl n, n)
|}.

Definition of_codes (l : list Z) : string := String.string_of_list_ascii ((fun z => Ascii.ascii_of_nat (Z.to_nat z)) <$> l).

#[local] Instance plain : RpcSerde (AppendReq := Z * Z) (VoteReq := Z) (SnapReq := Z) (AppendResp := bool) (VoteResp := bool) (SnapResp := Z) := {|
  req_to_vec := fun r => match r with Append (a, b) => [10; a; b] | Vote v => [11; v] | InstallSnapshot n => [12; n] end;
  req_from_slice := fun l => match l with
    | [10; a; b] => Some (Append (a, b)) | [11; v] => Some (Vote v) | [12; n] => Some (InstallSnapshot n) | _ => None end;
  resp_to_vec := fun r => match r with RAppend b => [0; Z.b2z b] | RVote b => [1; Z.b2z b] | RSnapshot n => [2; n] | RError m => 3 :: str_bytes m end;
  resp_from_slice := fun l => match l with
    | [0; b] => Some (RAppend (b =? 1)) | [1; b] => Some (RVote (b =? 1)) | [2; n] => Some (RSnapshot n) | 3 :: m => Some (RError (of_codes m)) | _ => None end
|}.

#[local] Instance plain_laws : RpcSerdeLaws plain.
Proof.
  split.
  - by intros [[a b]|v|n].
  - intros [[]|[]|n|m]; try done. cbn. do 2 f_equal. induction m as [|c m IH]; [done|]. cbn. rewrite Nat2Z.id, Ascii.ascii_nat_embedding. by f_equal.
Qed.

Definition sample_conn (st : option Stream) := mk_conn "b" 7000 st.

Lemma replies_match_witness : new_client "b:7000" = Ok (sample_conn None) /\ dispatch (0 : Z) (Append (0, 3)) = (RAppend true, 3).
Proof.
  assert (H : new_client "b:7000" = Ok (sample_conn None)) by (vm_compute; reflexivity). split; [exact H|].
  refine (replies_match "b:7000" (sample_conn None) (sample_conn None) (sample_conn (Some fresh_stream)) 0 0 3 Through (Append (0, 3)) (RAppend true)
    H (calls_nil _ _) _). vm_compute. reflexivity.
Defined.

(** The leader takes an append for done that the follower refused: the reply it reads is that
    of the append before, which it had given up. *)
Example stale_success :
  let '(r1, c1, s1) := client_append (LateReading 0) (sample_conn None) 0 (0, 3) in
  let '(r2, c2, s2) := client_append Through c1 s1 (5, 9) in
  (r1, r2, s2) = (None, Some true, 3).
Proof. vm_compute. reflexivity. Qed.

(** A call that is given up after the length of its frame leaves the length behind: the server
    takes the start of the next frame for the body, refuses it and ends the connection. *)
Example torn_request :
  let '(r1, c1, s1) := call_with_ttl (LateWriting 4) (sample_conn None) 0 (Append (0, 3)) in
  let '(r2, c2, s2) := call_with_ttl Through c1 s1 (Append (0, 3)) in
  (r1, r2, s2) = (Err Timeout, Ok (RError "bad rpc frame"), 0) /\ alive <$> stream c2 = Some false.
Proof. vm_compute. split; reflexivity. Qed.

End RaftRpc.
