(* ===== verification/TsHttp.v ===== *)
(** * The opening of the connections of the Tailscale protocol

    [Text]: what is used of Rust's strings, on characters.  [Http]: the head of a
    request, the choice of the service and its answers (rill-ts2021/src/server/mod.rs),
    the client's side of them (controlhttp.rs, derp.rs), and the files of the private
    keys (server/mod.rs, ts2021.rs).  TLS is below: a connection is the bytes that have
    come in.  The texts of JSON values are a library's, a parameter with its law. *)

From Stdlib Require Import Ascii.
From S2P Require Import Prelude Crypto Net AuthKey Json Tailnet TsServer TsWire TsRelay.

Module Text.
Import Net.

(** A [str] is the list of its characters, each its Unicode scalar value. *)
Definition str (s : string) : list Z := Net.code <$> String.list_ascii_of_string s.

(** ** [String::from_utf8_lossy] *)

Definition REPLACEMENT : Z := 0xFFFD.

(** The next byte of a character, which must be between [lo] and [hi], with the rest read
    by [k]; when it is not, what was read of the character is replaced. *)
Definition follow (lo hi acc : Z) (bs : list Z) (k : Z -> list Z -> Z * list Z) : Z * list Z :=
  match bs with
  | b :: bs' => if decide (lo <= b <= hi) then k (64 * acc + Z.land b 63) bs' else (REPLACEMENT, bs)
  | [] => (REPLACEMENT, [])
  end.

(** One character, of one to four bytes, from its first byte [b] and the bytes behind it. *)
Definition next_char (b : Z) (bs : list Z) : Z * list Z :=
  if decide (b < 0x80) then (b, bs)
  else if decide (0xC2 <= b <= 0xDF) then follow 0x80 0xBF (Z.land b 31) bs pair
  else if decide (0xE0 <= b <= 0xEF) then
    follow (if decide (b = 0xE0) then 0xA0 else 0x80) (if decide (b = 0xED) then 0x9F else 0xBF) (Z.land b 15) bs (fun a bs =>
    follow 0x80 0xBF a bs pair)
  else if decide (0xF0 <= b <= 0xF4) then
    follow (if decide (b = 0xF0) then 0x90 else 0x80) (if decide (b = 0xF4) then 0x8F else 0xBF) (Z.land b 7) bs (fun a bs =>
    follow 0x80 0xBF a bs (fun a bs => follow 0x80 0xBF a bs pair))
  else (REPLACEMENT, bs).

(** Each turn takes a byte at least. *)
Fixpoint lossy (fuel : nat) (bs : list Z) : list Z :=
  match fuel, bs with
  | S fuel, b :: bs => let '(c, bs) := next_char b bs in c :: lossy fuel bs
  | _, _ => []
  end.

Definition from_utf8_lossy (bs : list Z) : list Z := lossy (length bs) bs.

(** [as_bytes] *)
Definition utf8_char (c : Z) : list Z :=
  if decide (c < 0x80) then [c]
  else if decide (c < 0x800) then [0xC0 + c / 64; 0x80 + c mod 64]
  else if decide (c < 0x10000) then [0xE0 + c / 4096; 0x80 + c / 64 mod 64; 0x80 + c mod 64]
  else [0xF0 + c / 262144; 0x80 + c / 4096 mod 64; 0x80 + c / 64 mod 64; 0x80 + c mod 64].

Definition as_bytes (t : list Z) : list Z := mjoin (utf8_char <$> t).

(** The bytes as a [string]. *)
Definition of_bytes (bs : list Z) : string :=
  String.string_of_list_ascii ((fun b => ascii_of_nat (Z.to_nat b)) <$> bs).

(** ** Methods of [str] *)

(** [char::is_whitespace] *)
Definition is_whitespace (c : Z) : bool :=
  bool_decide (9 <= c <= 13) || bool_decide (c = 32) || bool_decide (c = 0x85) || bool_decide (c = 0xA0)
  || bool_decide (c = 0x1680) || bool_decide (0x2000 <= c <= 0x200A) || bool_decide (c = 0x2028) || bool_decide (c = 0x2029)
  || bool_decide (c = 0x202F) || bool_decide (c = 0x205F) || bool_decide (c = 0x3000).

Fixpoint trim_start (t : list Z) : list Z :=
  match t with
  | c :: t' => if is_whitespace c then trim_start t' else t
  | [] => []
  end.

Definition trim (t : list Z) : list Z := reverse (trim_start (reverse (trim_start t))).

(** [split_whitespace]: the pieces between runs of white space that are not empty; [cur]
    is what has been read of the current one. *)
Fixpoint fields (cur t : list Z) : list (list Z) :=
  match t with
  | [] => if decide (cur = []) then [] else [cur]
  | c :: t => if is_whitespace c then (if decide (cur = []) then fields [] t else cur :: fields [] t) else fields (cur ++ [c]) t
  end.

Definition split_whitespace (t : list Z) : list (list Z) := fields [] t.

(** [split("\r\n")] *)
Fixpoint split_crlf (cur t : list Z) : list (list Z) :=
  match t with
  | [] => [cur]
  | c :: t' =>
      match t' with
      | d :: t'' => if decide (c = 13 /\ d = 10) then cur :: split_crlf [] t'' else split_crlf (cur ++ [c]) t'
      | [] => split_crlf (cur ++ [c]) t'
      end
  end.

(** [lines]: cut at each line feed, a carriage return in front of it cut off, too; what
    follows the last one is a line if it is not empty. *)
Definition strip_cr (t : list Z) : list Z :=
  match reverse t with c :: r => if decide (c = 13) then reverse r else t | [] => t end.

Fixpoint lines (cur t : list Z) : list (list Z) :=
  match t with
  | [] => if decide (cur = []) then [] else [cur]
  | c :: t => if decide (c = 10) then strip_cr cur :: lines [] t else lines (cur ++ [c]) t
  end.

Fixpoint split_once (sep : Z) (t : list Z) : option (list Z * list Z) :=
  match t with
  | [] => None
  | c :: t => if decide (c = sep) then Some ([], t) else '(a, b) ← split_once sep t; Some (c :: a, b)
  end.

Definition lower (c : Z) : Z := if decide (65 <= c <= 90) then c + 32 else c.

Definition to_ascii_lowercase (t : list Z) : list Z := lower <$> t.

Definition eq_ignore_ascii_case (a b : list Z) : bool := bool_decide (to_ascii_lowercase a = to_ascii_lowercase b).

(** [contains] *)
Fixpoint contains (pat t : list Z) : bool :=
  bool_decide (take (length pat) t = pat) || match t with [] => false | _ :: t => contains pat t end.

(** [parse::<usize>]; what is no ASCII text is no number. *)
Definition parse_usize (t : list Z) : option Z := Net.parse_uint (2 ^ 64 - 1) (of_bytes (as_bytes t)).

(** [format!("{n}")] *)
Definition dec (n : Z) : list Z := str (Net.dec n).

(** ** On plain text *)

(** Printable ASCII characters: the text of one line. *)
Definition plain (t : list Z) : Prop := Forall (fun c => 32 <= c < 127) t.

(** The same without blanks. *)
Definition graphic (t : list Z) : Prop := Forall (fun c => 33 <= c < 127) t.

Definition ascii (t : list Z) : Prop := Forall (fun c => 0 <= c < 128) t.

Lemma graphic_plain t : graphic t -> plain t.
Proof. apply Forall_impl. lia. Qed.

Lemma plain_ascii t : plain t -> ascii t.
Proof. apply Forall_impl. lia. Qed.

Lemma plain_app a b : plain a -> plain b -> plain (a ++ b).
Proof. intros. by apply Forall_app. Qed.

Lemma lossy_ascii t : ascii t -> from_utf8_lossy t = t.
Proof.
  unfold from_utf8_lossy. induction 1 as [|c t Hc _ IH]; [done|]. cbn [length lossy]. unfold next_char.
  rewrite decide_True by lia. by rewrite IH.
Qed.

Lemma as_bytes_ascii t : ascii t -> as_bytes t = t.
Proof.
  unfold as_bytes. induction 1 as [|c t Hc _ IH]; [done|]. cbn. unfold utf8_char at 1. rewrite decide_True by lia. cbn. f_equal. exact IH.
Qed.

Lemma str_app a b : str (a +:+ b) = str a ++ str b.
Proof. unfold str. induction a as [|c a IH]; [done|]. exact (f_equal (cons (code c)) IH). Qed.

Lemma length_str s : length (str s) = String.length s.
Proof. unfold str. rewrite length_fmap. induction s as [|c s IH]; [done|]. exact (f_equal S IH). Qed.

Lemma of_bytes_str s : of_bytes (str s) = s.
Proof.
  unfold of_bytes, str. induction s as [|c s IH]; [done|]. cbn. unfold code at 1. rewrite Nat2Z.id, ascii_nat_embedding. exact (f_equal (String c) IH).
Qed.

Lemma is_whitespace_graphic c : 33 <= c < 127 -> is_whitespace c = false.
Proof. intros. unfold is_whitespace. by rewrite !bool_decide_eq_false_2 by lia. Qed.

Lemma trim_start_graphic t : graphic t -> trim_start t = t.
Proof. intros H. destruct H as [|c t Hc _]; [done|]. cbn. by rewrite is_whitespace_graphic. Qed.

(** The value of a header, behind its blank. *)
Lemma trim_value t : graphic t -> trim (32 :: t) = t.
Proof.
  intros H. unfold trim. cbn [trim_start]. change (is_whitespace 32) with true. cbv iota. rewrite (trim_start_graphic t) by done.
  rewrite trim_start_graphic by by apply Forall_reverse. apply reverse_involutive.
Qed.

Lemma trim_graphic t : graphic t -> trim t = t.
Proof.
  intros H. unfold trim. rewrite (trim_start_graphic t) by done. rewrite trim_start_graphic by by apply Forall_reverse. apply reverse_involutive.
Qed.

Lemma fields_plain cur t : graphic t -> fields cur t = if decide (cur ++ t = []) then [] else [cur ++ t].
Proof.
  intros H. revert cur. induction H as [|c t Hc _ IH]; intros cur; cbn [fields]; [by rewrite app_nil_r|].
  rewrite is_whitespace_graphic by done. rewrite IH. by rewrite <- app_assoc.
Qed.

Lemma fields_blank cur t u : graphic t -> cur ++ t <> [] -> fields cur (t ++ 32 :: u) = (cur ++ t) :: fields [] u.
Proof.
  intros H. revert cur. induction H as [|c t Hc _ IH]; intros cur; cbn [fields app].
  - rewrite app_nil_r. change (is_whitespace 32) with true. cbv iota. intros. by rewrite decide_False.
  - rewrite is_whitespace_graphic by done. intros _. rewrite IH; [by rewrite <- app_assoc|]. by destruct cur.
Qed.

Lemma split_crlf_line cur l t : plain l -> split_crlf cur (l ++ [13; 10] ++ t) = (cur ++ l) :: split_crlf [] t.
Proof.
  intros H. revert cur. induction H as [|c l Hc H IH]; intros cur.
  - cbn. by rewrite app_nil_r.
  - cbn [app split_crlf]. destruct l as [|d l]; cbn [app].
    + rewrite decide_False by lia. cbn. by rewrite <- app_assoc.
    + rewrite decide_False by lia. cbn [app] in IH. rewrite IH. by rewrite <- app_assoc.
Qed.

Lemma lines_line cur l t : plain l -> lines cur (l ++ [13; 10] ++ t) = (cur ++ l) :: lines [] t.
Proof.
  intros H. revert cur. induction H as [|c l Hc H IH]; intros cur; cbn [app lines].
  - rewrite decide_False by lia. rewrite decide_True by done. unfold strip_cr. rewrite reverse_snoc.
    rewrite decide_True by done. by rewrite reverse_involutive, app_nil_r.
  - rewrite decide_False by lia. cbn [app lines] in IH. rewrite IH. by rewrite <- app_assoc.
Qed.

Lemma lower_digit c : 48 <= c < 58 -> lower c = c.
Proof. intros. unfold lower. rewrite decide_False by lia. done. Qed.

Lemma contains_app_r pat a t : contains pat t = true -> contains pat (a ++ t) = true.
Proof. induction a as [|c a IH]; [done|]. intros H. cbn. by rewrite IH, orb_true_r. Qed.

Lemma contains_prefix pat t : contains pat (pat ++ t) = true.
Proof. destruct (pat ++ t) eqn:E; cbn; rewrite <- E, take_app_length; by rewrite bool_decide_true. Qed.

(** Decimal numbers *)

Lemma show_digits_graphic fuel z acc : 0 <= z -> graphic (str acc) -> graphic (str (show_digits fuel 10 z acc)).
Proof.
  revert z acc. induction fuel as [|fuel IH]; intros z acc Hz Ha; cbn [show_digits]; [done|].
  assert (Hm : 0 <= z mod 10 < 10) by (apply Z.mod_pos_bound; lia).
  assert (Hd : graphic (str (String (digit_char (z mod 10)) acc))).
  { constructor; [|done]. unfold digit_char, code. rewrite decide_True by lia. rewrite nat_ascii_embedding; lia. }
  case_decide; [done|]. apply IH; [|done]. apply Z.div_pos; lia.
Qed.

Lemma dec_graphic z : 0 <= z -> graphic (dec z).
Proof. intros. by apply show_digits_graphic; [|constructor]. Qed.

Lemma length_dec z : (length (dec z) <= 64)%nat.
Proof.
  assert (G : forall fuel z acc, (length (str (show_digits fuel 10 z acc)) <= fuel + length (str acc))%nat); [|apply (G 64%nat z EmptyString)].
  induction fuel as [|fuel IH]; intros y acc; cbn [show_digits]; [done|]. case_decide; [unfold str; cbn; lia|].
  etrans; [apply IH|]. unfold str. cbn. lia.
Qed.

Lemma parse_usize_dec z : u64 z -> parse_usize (dec z) = Some z.
Proof.
  intros Hz. unfold parse_usize. rewrite as_bytes_ascii by by apply plain_ascii, graphic_plain, dec_graphic; destruct Hz.
  unfold dec. rewrite of_bytes_str. by apply AuthKey.parse_dec.
Qed.
End Text.

Module Http.
Import Crypto Net Json Tailnet Controlbase Text.

Inductive HttpError := HeadTooLarge | Rejected (line : list Z) | MissingContentLength | BadJson | BadKey (e : KeyError) | UnexpectedProtocol
| HandshakeError (e : ControlbaseError).

Definition CRLF : list Z := [13; 10].

(** ** The head of a message *)

Definition MAX_HEAD_LEN : Z := 16 * 1024.

Definition ends_head (h : list Z) : bool := bool_decide (drop (length h - 4) h = CRLF ++ CRLF).

(** One byte a turn, on the bytes that have come in: [None] while they are not enough;
    the head with its end, and the bytes behind it. *)
Fixpoint head_loop (head bs : list Z) : option (outcome HttpError (list Z * list Z)) :=
  match bs with
  | [] => None
  | b :: bs =>
      let head := head ++ [b] in
      if ends_head head then Some (Ok (head, bs))
      else if decide (MAX_HEAD_LEN < Z.of_nat (length head)) then Some (Err HeadTooLarge)
      else head_loop head bs
  end.

(** The same loop stands in server/mod.rs, in controlhttp.rs and in [DerpClient::connect]. *)
Definition head_text (bs : list Z) : option (outcome HttpError (list Z * list Z)) :=
  r ← head_loop [] bs; Some ('(h, rest) ← r; Ok (from_utf8_lossy h, rest)).

Definition server_read_head := head_text.
Definition read_http_head := head_text.
Definition derp_read_head := head_text.

Definition parse_header_line (line : list Z) : option (list Z * list Z) :=
  '(k, v) ← split_once 58 line; Some (to_ascii_lowercase (trim k), trim v).

Definition parse_head (head : list Z) : option (list Z * list Z * list (list Z * list Z)) :=
  match split_crlf [] head with
  | [] => None
  | request_line :: ls =>
      match split_whitespace request_line with
      | method :: path :: _ =>
          headers ← mapM parse_header_line (filter (fun l => l <> []) ls);
          Some (method, path, headers)
      | _ => None
      end
  end.

Definition header (headers : list (list Z * list Z)) (name : string) : option (list Z) :=
  snd <$> List.find (fun kv => bool_decide (kv.1 = str name)) headers.

(** ** The server *)

Definition UPGRADE_PATH : list Z := str "/ts2021".
Definition UPGRADE_VALUE : list Z := str "tailscale-control-protocol".
Definition HANDSHAKE_HEADER : list Z := str "X-Tailscale-Handshake".
Definition KEY_PATH : list Z := str "/key".

Definition reason (status : Z) : list Z :=
  if decide (status = 200) then str "OK"
  else if decide (status = 400) then str "Bad Request"
  else if decide (status = 404) then str "Not Found"
  else str "Error".

Definition simple_response (status : Z) (msg : list Z) : list Z :=
  str "HTTP/1.1 " ++ dec status ++ str " " ++ reason status ++ CRLF ++
  str "Content-Length: " ++ dec (Z.of_nat (length msg)) ++ CRLF ++
  str "Connection: close" ++ CRLF ++ CRLF ++ msg.

Definition json_response (body : list Z) : list Z :=
  str "HTTP/1.1 200 OK" ++ CRLF ++
  str "Content-Type: application/json" ++ CRLF ++
  str "Content-Length: " ++ dec (Z.of_nat (length body)) ++ CRLF ++
  str "Connection: close" ++ CRLF ++ CRLF ++ body.

Definition switch : list Z :=
  str "HTTP/1.1 101 Switching Protocols" ++ CRLF ++
  str "Upgrade: " ++ UPGRADE_VALUE ++ CRLF ++
  str "Connection: upgrade" ++ CRLF ++ CRLF.

Definition derp_switch : list Z :=
  str "HTTP/1.1 101 Switching Protocols" ++ CRLF ++
  str "Upgrade: DERP" ++ CRLF ++
  str "Connection: Upgrade" ++ CRLF ++ CRLF.

(** [serde_json]: the text of a value and back. *)
Class JsonText := { to_vec : json -> list Z; from_slice : list Z -> option json }.

Section Server.
Context `{P : Primitives} `{N : NoiseIK} `{J : JsonText}.

(** The two keys of the server's state that opening a connection uses; the registry and
    the relay take over from [Control] and [Relay]. *)
Record Keys := mk_keys { noise_priv : list Z; derp_priv : list Z }.

Definition noise_pub (k : Keys) : list Z := x25519_base (noise_priv k).

(** How a connection goes on: dropped, a response and its end, the control protocol over
    a Noise session with a machine, or the packet relay; with the bytes written until
    then. *)
Inductive Served :=
| Dropped (out : list Z)
| Replied (out : list Z)
| Control (out : list Z) (s : Session) (machine : list Z)
| Relay (out : list Z).

Definition early_noise (challenge : list Z) : list Z :=
  Netmap.early_payload (to_vec (JObj [("nodeKeyChallenge", JStr ("chalpub:" +:+ hex challenge))])).

(** [POST /ts2021].  [sent] is how many of the writes the connection takes; [eph] the
    ephemeral key and [challenge] the random value the server draws. *)
Definition serve_upgrade (k : Keys) (sent : nat) (eph challenge : list Z) (headers : list (list Z * list Z)) : Served :=
  if decide ((to_ascii_lowercase <$> header headers "upgrade") <> Some UPGRADE_VALUE) then
    Replied (simple_response 400 (str "missing upgrade header"))
  else
    match (v ← header headers "x-tailscale-handshake"; b ← Base64.decode (as_bytes v); if decide (length b = INITIATION_FRAME_LEN) then Some b else None) with
    | None => Replied (simple_response 400 (str "bad handshake header"))
    | Some init =>
        if decide (sent < 1)%nat then Dropped []
        else
          match respond eph (noise_priv k) init with
          | Ok (resp, session, machine) =>
              if decide (sent < 2)%nat then Dropped switch
              else
                match seal session (early_noise challenge) with
                | (Ok frames, session) =>
                    if decide (sent < 3)%nat then Dropped (switch ++ resp) else Control (switch ++ resp ++ frames) session machine
                | _ => Dropped (switch ++ resp)
                end
          | _ => Dropped switch
          end
    end.

Definition serve_derp_upgrade (sent : nat) (headers : list (list Z * list Z)) : Served :=
  if decide ((to_ascii_lowercase <$> header headers "upgrade") <> Some (str "derp")) then
    Replied (simple_response 400 (str "missing derp upgrade"))
  else if decide (sent < 1)%nat then Dropped []
  else Relay derp_switch.

(** [serve_connection], on the bytes that have come in; the bytes behind the head are
    left for the protocol that takes over. *)
Definition serve_connection (k : Keys) (sent : nat) (eph challenge bs : list Z) : option (Served * list Z) :=
  r ← server_read_head bs;
  match r with
  | Ok (head, rest) =>
      Some (match parse_head head with
            | None => Replied (simple_response 400 (str "bad request"))
            | Some (method, path, headers) =>
                let path := match split_once 63 path with Some (p, _) => p | None => path end in
                if decide (method = str "GET" /\ path = KEY_PATH) then Replied (json_response (to_vec (Netmap.key_response (noise_pub k))))
                else if decide (method = str "POST" /\ path = UPGRADE_PATH) then serve_upgrade k sent eph challenge headers
                else if decide (method = str "GET" /\ path = str "/derp") then serve_derp_upgrade sent headers
                else Replied (simple_response 404 (str "not found"))
            end, rest)
  | _ => Some (Dropped [], [])
  end.

(** ** The client *)

Definition status_line (head : list Z) : list Z := default [] (lines [] head !! 0%nat).

Definition has_status (head : list Z) (code : string) : bool := bool_decide (split_whitespace (status_line head) !! 1%nat = Some (str code)).

Definition key_request (host : list Z) (v : Z) : list Z :=
  as_bytes (str "GET " ++ KEY_PATH ++ str "?v=" ++ dec v ++ str " HTTP/1.1" ++ CRLF ++ str "Host: " ++ host ++ CRLF ++ CRLF).

Definition content_length_of (line : list Z) : option Z :=
  '(k, v) ← split_once 58 line;
  if eq_ignore_ascii_case k (str "content-length") then parse_usize (trim v) else None.

(** [find_map] over the lines. *)
Definition content_length (head : list Z) : option Z := (omap content_length_of (lines [] head)) !! 0%nat.

(** [OverTLSPublicKeyResponse]: the field under either name, once. *)
Definition de_public_key (v : json) : option string :=
  match v with
  | JObj l =>
      match filter (fun kv => kv.1 = "publicKey" \/ kv.1 = "PublicKey") l with
      | [(_, x)] => as_str x
      | _ => None
      end
  | _ => None
  end.

(** What is made of the bytes that come back; a vector of 2^63 bytes or more panics. *)
Definition fetch_control_key (bs : list Z) : option (outcome HttpError (list Z)) :=
  r ← read_http_head bs;
  match r with
  | Ok (head, rest) =>
      if negb (has_status head "200") then Some (Err (Rejected (status_line head)))
      else match content_length head with
           | None => Some (Err MissingContentLength)
           | Some n =>
               if decide (2 ^ 63 <= n) then Some Panic
               else if decide (Z.of_nat (length rest) < n) then None
               else
                 Some (v ← ok_or BadJson (from_slice (take (Z.to_nat n) rest));
                       s ← ok_or BadJson (de_public_key v);
                       map_err BadKey (parse_machine_public s))
           end
  | Err e => Some (Err e)
  | Panic => Some Panic
  end.

Definition upgrade_request (host init : list Z) : list Z :=
  as_bytes (str "POST " ++ UPGRADE_PATH ++ str " HTTP/1.1" ++ CRLF ++
    str "Host: " ++ host ++ CRLF ++
    str "Upgrade: " ++ UPGRADE_VALUE ++ CRLF ++
    str "Connection: upgrade" ++ CRLF ++
    HANDSHAKE_HEADER ++ str ": " ++ Base64.encode init ++ CRLF ++
    str "Content-Length: 0" ++ CRLF ++ CRLF).

(** The first half of [upgrade], up to the request. *)
Definition upgrade_start (eph host machine_key control_key : list Z) (v : Z) : outcome HttpError (list Z * ClientHandshake) :=
  h ← map_err HandshakeError (client_new eph machine_key control_key v);
  match write_initiation h with
  | (Ok init, h) => Ok (upgrade_request host init, h)
  | (Err e, _) => Err (HandshakeError e)
  | (Panic, _) => Panic
  end.

(** The second half, on the bytes that come back: the session, and the bytes behind. *)
Definition upgrade_finish (h : ClientHandshake) (bs : list Z) : option (outcome HttpError (Session * list Z)) :=
  r ← read_http_head bs;
  match r with
  | Ok (head, rest) =>
      if negb (has_status head "101") then Some (Err (Rejected (status_line head)))
      else if negb (contains (str "upgrade: " ++ UPGRADE_VALUE) (to_ascii_lowercase head)) then Some (Err UnexpectedProtocol)
      else
        '(r, _, rest) ← finish_handshake rest h;
        Some (s ← map_err HandshakeError r; Ok (s, rest))
  | Err e => Some (Err e)
  | Panic => Some Panic
  end.

Definition derp_request (host : list Z) : list Z :=
  as_bytes (str "GET /derp HTTP/1.1" ++ CRLF ++ str "Host: " ++ host ++ CRLF ++ str "Upgrade: DERP" ++ CRLF ++ str "Connection: Upgrade" ++ CRLF ++ CRLF).

(** The part of [DerpClient::connect] before the greeting: the bytes from which on the
    relay speaks. *)
Definition derp_accepted (bs : list Z) : option (outcome HttpError (list Z)) :=
  r ← derp_read_head bs;
  Some ('(head, rest) ← r; if has_status head "101" then Ok rest else Err (Rejected (status_line head))).
End Server.

(** ** The files of the keys *)

(** What reading a file gives: its text, that there is none, or another failure. *)
Inductive FileRead := Contents (t : list Z) | NotFound | ReadFailed.

Inductive KeyFileError := Corrupt | CreateFailed | WriteFailed | ReadError.

(** [fresh] is the key that is generated when there is no file, [created] whether the
    file can be made, [written] whether all of the text is written or only so many bytes.
    The second part of the result is what is in the file after.  The same steps stand in
    server/mod.rs and in ts2021.rs. *)
Definition key_file (file : FileRead) (fresh : list Z) (created : bool) (written : option nat) : outcome KeyFileError (list Z) * FileRead :=
  match file with
  | Contents t => (ok_or Corrupt (from_hex64 (of_bytes (as_bytes (trim t)))), file)
  | NotFound =>
      if negb created then (Err CreateFailed, NotFound)
      else match written with
           | Some n => (Err WriteFailed, Contents (take n (str (hex fresh))))
           | None => (Ok fresh, Contents (str (hex fresh)))
           end
  | ReadFailed => (Err ReadError, file)
  end.

Definition load_or_create_key := key_file.
Definition load_or_create_machine_key := key_file.

(** The state a server starts with; [noise] and [derp] are what the files of the two keys
    give, read in this order once the configuration has passed its checks. *)
Inductive StartError := BadConfig (e : TsConfig.ConfigError) | BadKeyFile (e : KeyFileError).

Record Ts2021Server := mk_server { registry : TsRegistry.Registry; ctx : Netmap.NetmapCtx; server_keys : Keys }.

Definition server_from_config (c : TsConfig.ServerConfig) (login : string) (region : Z) (noise derp : outcome KeyFileError (list Z)) : outcome StartError Ts2021Server :=
  _ ← map_err BadConfig (TsConfig.validate c);
  noise_priv ← map_err BadKeyFile noise;
  derp_priv ← map_err BadKeyFile derp;
  r ← map_err BadConfig (TsConfig.from_config c);
  Ok (mk_server r (Netmap.mk_ctx login (TsConfig.network c) (TsConfig.cfg_hostname c) region (TsConfig.cfg_hostname c) (TsConfig.derp_port c))
        (mk_keys noise_priv derp_priv)).

(** ** Answers to the requests over HTTP/2

    The library gives the status and the chunks of the body, any of which may be an error
    ([None]). *)

Inductive PostError := Transport | BodyTooLarge | Refused (status : Z) | BadAnswer.

Definition MAX_BODY : Z := 1024 * 1024.

Fixpoint collect_body (out : list Z) (chunks : list (option (list Z))) : outcome PostError (list Z) :=
  match chunks with
  | [] => Ok out
  | None :: _ => Err Transport
  | Some c :: chunks => if decide (MAX_BODY < Z.of_nat (length (out ++ c))) then Err BodyTooLarge else collect_body (out ++ c) chunks
  end.

Definition is_success (status : Z) : bool := bool_decide (200 <= status <= 299).

Definition post_json (answer : option (Z * list (option (list Z)))) : outcome PostError (list Z) :=
  '(status, chunks) ← ok_or Transport answer;
  body ← collect_body [] chunks;
  if is_success status then Ok body else Err (Refused status).

Definition update_endpoints (answer : option (Z * list (option (list Z)))) : outcome PostError unit := _ ← post_json answer; Ok tt.

(** The stream of a long poll: its body is read later, frame by frame. *)
Definition map_stream (answer : option (Z * list (option (list Z)))) : outcome PostError (list (option (list Z))) :=
  '(status, chunks) ← ok_or Transport answer;
  if is_success status then Ok chunks else Err (Refused status).

Definition register `{J : JsonText} (answer : option (Z * list (option (list Z)))) : outcome PostError Netmap.RegisterResponse :=
  '(status, chunks) ← ok_or Transport answer;
  body ← collect_body [] chunks;
  if is_success status then ok_or BadAnswer (v ← from_slice body; Netmap.de_register_response v) else Err (Refused status).

(** A body comes together whole, however it is cut, and none is kept that is longer than
    the limit. *)
Lemma collect_chunks out cs : collect_body out (Some <$> cs) = if decide (Z.of_nat (length (out ++ concat cs)) <= MAX_BODY) then Ok (out ++ concat cs)
  else if decide (cs = []) then Ok out else Err BodyTooLarge.
Proof.
  revert out. induction cs as [|c cs IH]; intros out; [cbn; rewrite app_nil_r; by case_decide|]. cbn [fmap list_fmap collect_body concat]. rewrite app_assoc.
  destruct (decide (MAX_BODY < Z.of_nat (length (out ++ c)))) as [Hd|Hd].
  - rewrite decide_False by (intros H; rewrite !length_app in H; rewrite !length_app in Hd; lia). by rewrite decide_False by done.
  - rewrite IH. destruct (decide (Z.of_nat (length ((out ++ c) ++ concat cs)) <= MAX_BODY)) as [He|He]; [done|]. rewrite (decide_False (P := c :: cs = [])) by done.
    destruct (decide (cs = [])) as [->|Hc]; [|done]. cbn [concat] in He. rewrite app_nil_r in He. lia.
Qed.

(** ** Heads made of lines *)

Definition head_of (ls : list (list Z)) : list Z := concat ((fun l => l ++ CRLF) <$> ls) ++ CRLF.

Lemma head_of_cons l ls : head_of (l :: ls) = l ++ CRLF ++ head_of ls.
Proof. unfold head_of. cbn. by rewrite <- !app_assoc. Qed.

Lemma ends_head_true h : ends_head h = true <-> exists x, h = x ++ CRLF ++ CRLF.
Proof.
  unfold ends_head. rewrite bool_decide_eq_true. split.
  - intros E. exists (take (length h - 4) h). by rewrite <- E, take_drop.
  - intros [x ->]. rewrite length_app. replace (length x + length (CRLF ++ CRLF) - 4)%nat with (length x) by (cbn; lia). by rewrite drop_app_length.
Qed.

(** No end of a head behind a character of a line, or behind the first end of a line. *)
Lemma ends_head_char h b : b <> 10 -> ends_head (h ++ [b]) = false.
Proof.
  intros Hb. apply not_true_iff_false. rewrite ends_head_true. intros [x E].
  change (CRLF ++ CRLF) with ([13; 10; 13] ++ [10]) in E. rewrite app_assoc in E. by apply app_inj_tail in E as [_ ?].
Qed.

Lemma ends_head_line h b : b <> 10 -> ends_head ((h ++ [b]) ++ CRLF) = false.
Proof.
  intros Hb. apply not_true_iff_false. rewrite ends_head_true. intros [x E]. unfold CRLF in E.
  rewrite !app_assoc in E. change [13; 10] with ([13] ++ [10]) in E at 1 3. rewrite !app_assoc in E.
  apply app_inj_tail in E as [E _]. apply app_inj_tail in E as [E _]. change [13; 10] with ([13] ++ [10]) in E. rewrite !app_assoc in E. by apply app_inj_tail in E as [_ ?].
Qed.

Lemma head_loop_plain h l t : plain l -> Z.of_nat (length h + length l) <= MAX_HEAD_LEN -> head_loop h (l ++ t) = head_loop (h ++ l) t.
Proof.
  intros Hl. revert h. induction Hl as [|c l Hc _ IH]; intros h Hh; [by rewrite app_nil_r|].
  cbn [app head_loop]. rewrite ends_head_char by lia. rewrite decide_False by (rewrite length_app; cbn in *; lia).
  rewrite IH; [by rewrite <- app_assoc|]. rewrite length_app. cbn in *. lia.
Qed.

Lemma head_loop_line h l t : plain l -> l <> [] -> Z.of_nat (length h + length l + 2) <= MAX_HEAD_LEN ->
  head_loop h (l ++ CRLF ++ t) = head_loop (h ++ l ++ CRLF) t.
Proof.
  intros Hl Hn Hh. rewrite head_loop_plain by (done || lia). cbn [CRLF app head_loop].
  rewrite ends_head_char by lia. rewrite decide_False by (rewrite !length_app; cbn; lia).
  destruct (exists_last Hn) as (l' & b & ->). apply Forall_app in Hl as [_ [Hb _]%Forall_cons_1].
  rewrite <- app_assoc. change ([13] ++ [10]) with CRLF. rewrite (app_assoc h), ends_head_line by lia.
  rewrite decide_False by (rewrite !length_app in *; cbn in *; lia). by rewrite <- !app_assoc.
Qed.

Lemma head_loop_lines h ls t : Forall (fun l => plain l /\ l <> []) ls -> Z.of_nat (length h + length (head_of ls)) <= MAX_HEAD_LEN ->
  (exists x, h = x ++ CRLF) \/ ls <> [] -> head_loop h (head_of ls ++ t) = Some (Ok (h ++ head_of ls, t)).
Proof.
  intros Hl. revert h. induction Hl as [|l ls [Hp Hn] _ IH]; intros h Hh Hx.
  - destruct Hx as [[x ->]|]; [|done]. cbn [head_of concat fmap list_fmap app CRLF head_loop]. rewrite ends_head_char by lia.
    rewrite decide_False by (rewrite !length_app in *; cbn in *; lia). rewrite <- !app_assoc. change ([13] ++ [10]) with CRLF.
    by rewrite (proj2 (ends_head_true _)) by eauto.
  - rewrite head_of_cons in *. rewrite !length_app in Hh. rewrite <- !app_assoc, head_loop_line by (done || cbn in *; lia).
    rewrite IH.
    + by rewrite <- !app_assoc.
    + rewrite !length_app. lia.
    + left. exists (h ++ l). by rewrite <- app_assoc.
Qed.

Lemma ascii_head ls : Forall (fun l => plain l /\ l <> []) ls -> ascii (head_of ls).
Proof.
  intros H. unfold head_of. apply Forall_app. split; [|repeat constructor; lia].
  induction H as [|l ls [Hp _] _ IH]; cbn; [constructor|]. apply Forall_app. split; [|done].
  apply Forall_app. split; [by apply plain_ascii|repeat constructor; lia].
Qed.

(** A head of plain lines is read as a whole, and its lines are found again. *)
Lemma head_text_of ls t : ls <> [] -> Forall (fun l => plain l /\ l <> []) ls -> Z.of_nat (length (head_of ls)) <= MAX_HEAD_LEN ->
  head_text (head_of ls ++ t) = Some (Ok (head_of ls, t)).
Proof.
  intros Hn Hl Hh. unfold head_text. rewrite head_loop_lines by (auto || cbn; lia). step. by rewrite lossy_ascii by by apply ascii_head.
Qed.

Lemma split_head ls : Forall (fun l => plain l /\ l <> []) ls -> split_crlf [] (head_of ls) = ls ++ [[]; []].
Proof.
  induction 1 as [|l ls [Hp _] _ IH]; [done|]. rewrite head_of_cons. change CRLF with [13; 10]. rewrite split_crlf_line by done. by rewrite IH.
Qed.

Lemma lines_head ls : Forall (fun l => plain l /\ l <> []) ls -> lines [] (head_of ls) = ls ++ [[]].
Proof.
  induction 1 as [|l ls [Hp _] _ IH]; [done|]. rewrite head_of_cons. change CRLF with [13; 10]. rewrite lines_line by done. by rewrite IH.
Qed.

(** ** Requests and answers as lines *)

Definition KEY_LINES (host : list Z) (v : Z) : list (list Z) :=
  [str "GET /key?v=" ++ dec v ++ str " HTTP/1.1"; str "Host: " ++ host].

Definition UPGRADE_LINES (host enc : list Z) : list (list Z) :=
  [str "POST /ts2021 HTTP/1.1"; str "Host: " ++ host; str "Upgrade: tailscale-control-protocol"; str "Connection: upgrade";
   str "X-Tailscale-Handshake: " ++ enc; str "Content-Length: 0"].

Definition DERP_LINES (host : list Z) : list (list Z) :=
  [str "GET /derp HTTP/1.1"; str "Host: " ++ host; str "Upgrade: DERP"; str "Connection: Upgrade"].

Lemma str_ne c s : str (String c s) <> [].
Proof. done. Qed.

Lemma str_app_ne c s t : str (String c s) ++ t <> [].
Proof. done. Qed.

(** Texts that are written out are plain. *)
Ltac literal := match goal with |- plain (str _) => apply (bool_decide_unpack _); vm_compute; exact I end.

Ltac line_ok :=
  split; [repeat first [solve [apply graphic_plain; assumption] | literal | apply plain_app]|first [apply str_ne | apply str_app_ne]].

Ltac all_lines := repeat (constructor; [line_ok|]); constructor.

Lemma key_lines_ok host v : graphic host -> 0 <= v -> Forall (fun l => plain l /\ l <> []) (KEY_LINES host v).
Proof. intros Hh Hv. pose proof (dec_graphic v Hv). unfold KEY_LINES. all_lines. Qed.

Lemma upgrade_lines_ok host enc : graphic host -> graphic enc -> Forall (fun l => plain l /\ l <> []) (UPGRADE_LINES host enc).
Proof. intros Hh He. unfold UPGRADE_LINES. all_lines. Qed.

Lemma derp_lines_ok host : graphic host -> Forall (fun l => plain l /\ l <> []) (DERP_LINES host).
Proof. intros Hh. unfold DERP_LINES. all_lines. Qed.

Lemma key_request_lines host v : graphic host -> 0 <= v -> key_request host v = head_of (KEY_LINES host v).
Proof.
  intros Hh Hv. assert (E : str "GET " ++ KEY_PATH ++ str "?v=" ++ dec v ++ str " HTTP/1.1" ++ CRLF ++ str "Host: " ++ host ++ CRLF ++ CRLF = head_of (KEY_LINES host v)).
  { unfold KEY_LINES. rewrite !head_of_cons, <- !app_assoc. reflexivity. }
  unfold key_request. rewrite E. by apply as_bytes_ascii, ascii_head, key_lines_ok.
Qed.

Lemma upgrade_request_lines host init : graphic host -> graphic (Base64.encode init) ->
  upgrade_request host init = head_of (UPGRADE_LINES host (Base64.encode init)).
Proof.
  intros Hh He. set (enc := Base64.encode init) in *.
  assert (E : str "POST " ++ UPGRADE_PATH ++ str " HTTP/1.1" ++ CRLF ++ str "Host: " ++ host ++ CRLF ++ str "Upgrade: " ++ UPGRADE_VALUE ++ CRLF ++
    str "Connection: upgrade" ++ CRLF ++ HANDSHAKE_HEADER ++ str ": " ++ enc ++ CRLF ++ str "Content-Length: 0" ++ CRLF ++ CRLF = head_of (UPGRADE_LINES host enc)).
  { unfold UPGRADE_LINES. rewrite !head_of_cons, <- !app_assoc. reflexivity. }
  unfold upgrade_request. fold enc. rewrite E. by apply as_bytes_ascii, ascii_head, upgrade_lines_ok.
Qed.

Lemma derp_request_lines host : graphic host -> derp_request host = head_of (DERP_LINES host).
Proof.
  intros Hh. assert (E : str "GET /derp HTTP/1.1" ++ CRLF ++ str "Host: " ++ host ++ CRLF ++ str "Upgrade: DERP" ++ CRLF ++ str "Connection: Upgrade" ++ CRLF ++ CRLF = head_of (DERP_LINES host)).
  { unfold DERP_LINES. rewrite !head_of_cons, <- !app_assoc. reflexivity. }
  unfold derp_request. rewrite E. by apply as_bytes_ascii, ascii_head, derp_lines_ok.
Qed.

Definition KEY_ANSWER (n : Z) : list (list Z) :=
  [str "HTTP/1.1 200 OK"; str "Content-Type: application/json"; str "Content-Length: " ++ dec n; str "Connection: close"].

Lemma json_response_lines body : json_response body = head_of (KEY_ANSWER (Z.of_nat (length body))) ++ body.
Proof. unfold json_response, KEY_ANSWER. rewrite !head_of_cons, <- !app_assoc. reflexivity. Qed.

Lemma key_answer_ok n : 0 <= n -> Forall (fun l => plain l /\ l <> []) (KEY_ANSWER n).
Proof. intros Hn. pose proof (dec_graphic n Hn). unfold KEY_ANSWER. all_lines. Qed.

(** The first header of a given name, found past lines that have another one. *)
Lemma header_skip k v hs name : k <> str name -> header ((k, v) :: hs) name = header hs name.
Proof. intros H. unfold header. cbn. by rewrite bool_decide_false. Qed.

Lemma header_hit v hs name : header ((str name, v) :: hs) name = Some v.
Proof. unfold header. cbn. by rewrite bool_decide_true. Qed.

Lemma symbol_graphic z : 33 <= Base64.symbol (Z.land z 63) < 127.
Proof.
  rewrite Base64.land_63. destruct (Base64.symbol_value (z mod 64)) as [H _]; [apply Z.mod_pos_bound; lia|].
  revert H. generalize (Base64.symbol (z mod 64)). intros c. unfold Base64.value. repeat case_decide; intros; (done || lia).
Qed.

Lemma encode_graphic data : graphic (Base64.encode data).
Proof.
  assert (Hc : forall k a b c, graphic (Base64.encode_chunk k a b c)).
  { intros k a b c. unfold Base64.encode_chunk. repeat constructor; try apply symbol_graphic; case_decide; (apply symbol_graphic || by unfold Base64.PAD). }
  assert (G : forall n data, (length data <= n)%nat -> graphic (Base64.encode data)); [|by apply (G (length data))].
  induction n as [|n IH]; intros [|a [|b [|c l]]] Hl; cbn [Base64.encode]; try apply Hc; try apply Forall_nil_2; cbn in Hl; try lia.
  apply Forall_app. split; [apply Hc|]. apply IH. lia.
Qed.

Lemma parse_upgrade host enc : graphic host -> graphic enc ->
  exists hs, parse_head (head_of (UPGRADE_LINES host enc)) = Some (str "POST", UPGRADE_PATH, hs) /\
    header hs "upgrade" = Some UPGRADE_VALUE /\ header hs "x-tailscale-handshake" = Some enc.
Proof.
  intros Hh He. unfold parse_head. rewrite split_head by by apply upgrade_lines_ok. unfold UPGRADE_LINES. cbn [app].
  change (split_whitespace (str "POST /ts2021 HTTP/1.1")) with [str "POST"; UPGRADE_PATH; str "HTTP/1.1"]. cbv iota.
  rewrite !filter_cons_True by first [apply str_ne | apply str_app_ne]. rewrite !filter_cons_False by (intros H; by apply H). cbn [filter list_filter mapM].
  change (parse_header_line (str "Host: " ++ host)) with (Some (str "host", trim (32 :: host))).
  change (parse_header_line (str "Upgrade: tailscale-control-protocol")) with (Some (str "upgrade", UPGRADE_VALUE)).
  change (parse_header_line (str "Connection: upgrade")) with (Some (str "connection", str "upgrade")).
  change (parse_header_line (str "X-Tailscale-Handshake: " ++ enc)) with (Some (str "x-tailscale-handshake", trim (32 :: enc))).
  change (parse_header_line (str "Content-Length: 0")) with (Some (str "content-length", str "0")).
  cbn [mbind option_bind]. eexists. split; [done|]. rewrite (trim_value enc) by done. split; [done|].
  by rewrite !header_skip by done.
Qed.

Lemma parse_key host v : graphic host -> 0 <= v -> exists p hs, parse_head (head_of (KEY_LINES host v)) = Some (str "GET", p, hs) /\
  split_once 63 p = Some (KEY_PATH, str "v=" ++ dec v).
Proof.
  intros Hh Hv. pose proof (dec_graphic v Hv) as Hd. unfold parse_head. rewrite split_head by by apply key_lines_ok. unfold KEY_LINES. cbn [app].
  assert (E : split_whitespace (str "GET /key?v=" ++ dec v ++ str " HTTP/1.1") = [str "GET"; str "/key?v=" ++ dec v; str "HTTP/1.1"]).
  { change (split_whitespace (str "GET /key?v=" ++ dec v ++ str " HTTP/1.1")) with (str "GET" :: fields (str "/key?v=") (dec v ++ str " HTTP/1.1")).
    change (str " HTTP/1.1") with (32 :: str "HTTP/1.1"). rewrite fields_blank by done. done. }
  rewrite E. rewrite filter_cons_True by apply str_app_ne. rewrite !filter_cons_False by (intros H; by apply H). cbn [filter list_filter mapM].
  change (parse_header_line (str "Host: " ++ host)) with (Some (str "host", trim (32 :: host))). cbn [mbind option_bind].
  eexists _, _. split; [done|]. done.
Qed.

Lemma parse_derp host : graphic host -> exists hs, parse_head (head_of (DERP_LINES host)) = Some (str "GET", str "/derp", hs) /\ header hs "upgrade" = Some (str "DERP").
Proof.
  intros Hh. unfold parse_head. rewrite split_head by by apply derp_lines_ok. unfold DERP_LINES. cbn [app].
  change (split_whitespace (str "GET /derp HTTP/1.1")) with [str "GET"; str "/derp"; str "HTTP/1.1"]. cbv iota.
  rewrite !filter_cons_True by first [apply str_ne | apply str_app_ne]. rewrite !filter_cons_False by (intros H; by apply H). cbn [filter list_filter mapM].
  change (parse_header_line (str "Host: " ++ host)) with (Some (str "host", trim (32 :: host))).
  change (parse_header_line (str "Upgrade: DERP")) with (Some (str "upgrade", str "DERP")).
  change (parse_header_line (str "Connection: Upgrade")) with (Some (str "connection", str "Upgrade")).
  cbn [mbind option_bind]. eexists. split; [done|]. done.
Qed.

(** ** Reading as the bytes come in *)

Lemma head_loop_waits h p q t : q <> [] -> head_loop h (p ++ q) = Some (Ok (h ++ p ++ q, t)) -> t = [] -> head_loop h p = None.
Proof.
  intros Hq. revert h. induction p as [|b p IH]; intros h H ->; [done|]. cbn [app head_loop] in *.
  destruct (ends_head (h ++ [b])).
  - injection H as H1 H2. destruct p; [cbn in *; congruence|done].
  - case_decide; [done|]. apply IH; [|done]. by rewrite <- app_assoc.
Qed.

Lemma head_text_waits ls p q : ls <> [] -> Forall (fun l => plain l /\ l <> []) ls -> Z.of_nat (length (head_of ls)) <= MAX_HEAD_LEN ->
  head_of ls = p ++ q -> q <> [] -> head_text p = None.
Proof.
  intros Hn Hl Hh E Hq. unfold head_text. rewrite (head_loop_waits [] p q []); [done|done| |done].
  rewrite <- E, <- (app_nil_r (head_of ls)). rewrite head_loop_lines by (auto || cbn; lia). by rewrite app_nil_r.
Qed.

Lemma length_encode data : (length (Base64.encode data) <= 4 * length data)%nat.
Proof.
  assert (G : forall n data, (length data <= n)%nat -> (length (Base64.encode data) <= 4 * length data)%nat); [|by apply (G (length data))].
  induction n as [|n IH]; intros [|a [|b [|c l]]] Hl; cbn [Base64.encode Base64.encode_chunk length]; cbn in Hl; try lia.
  rewrite length_app. specialize (IH l ltac:(lia)). cbn [Base64.encode_chunk length]. lia.
Qed.

Section Establish.
Context `{P : Primitives} `{HP : !PrimitiveLaws P} `{N : NoiseIK} `{HN : !NoiseIKLaws N} `{J : JsonText}.

(** Messages are bytes. *)
Class NoiseIKBytes := {
  initiation_bytes ea prologue a b st n m st' : bytes a -> bytes b -> ik_initiator ea prologue b a = Some st -> ik_write st n = Some (m, st') -> bytes m;
  public_bytes a : bytes a -> bytes (ik_public a)
}.

Context `{HB : !NoiseIKBytes}.

Lemma initiation_is_bytes ea mk ck v h init h1 : bytes mk -> bytes ck ->
  client_new ea mk ck v = Ok h -> write_initiation h = (Ok init, h1) -> bytes init.
Proof.
  intros Hm Hc. unfold client_new. destruct (ik_initiator ea (protocol_version_prologue v) ck mk) as [st|] eqn:E; [|done]. step. intros [= <-].
  unfold write_initiation. cbn [init_written state]. destruct (ik_write st _) as [[body st']|] eqn:Ew; [|done]. case_decide; [done|]. intros [= <- <-].
  unfold encode_initiation. cbn [hs_version]. repeat (apply bytes_app; split); try apply be_bytes_bytes.
  - unfold MSG_TYPE_INITIATION. fall; unfold is_uint; lia.
  - by apply (initiation_bytes ea (protocol_version_prologue v) mk ck st INITIATION_NOISE_BODY_LEN body st').
Qed.

Lemma respond_shape eb k init resp ss m : respond eb k init = Ok (resp, ss, m) -> exists body, resp = encode_response body /\ length body = RESPONSE_NOISE_BODY_LEN.
Proof.
  unfold respond. destruct init as [|v1 [|v0 rest]]; [done..|]. case_decide; [done|]. destruct (parse_header rest) as [[t len]| |]; step; [|done..].
  destruct (_ || _); [done|]. destruct (ik_responder _ _ _) as [st|]; step; [|done]. destruct (ik_read st _) as [st1|]; step; [|done].
  destruct (ok_or MalformedFrame _) as [mm| |]; step; [|done..]. destruct (ik_write st1 _) as [[body st2]|]; step; [|done]. case_decide as Hb; [done|].
  destruct (ik_split st2). intros [= <- _ _]. by exists body.
Qed.

(** What fits a record is sealed as one. *)
Lemma seal_one s p : p <> [] -> (length p <= MAX_PLAINTEXT_SIZE)%nat -> tx_nonce s <> INVALID_NONCE ->
  exists ct, encrypt (tx_cipher s) (record_nonce (tx_nonce s)) p = Some ct /\
    seal s p = (Ok (encode_record_header (length ct) ++ ct), set_tx s (tx_nonce s + 1)).
Proof.
  intros Hp Hl Hn. unfold seal. destruct p as [|b p]; [done|]. cbn [length chunks].
  rewrite take_ge, drop_ge by done. assert (Hc : chunks (length p) MAX_PLAINTEXT_SIZE [] = []) by by destruct p. rewrite Hc.
  cbn [seal_chunks]. rewrite decide_False by done.
  destruct (aead_encrypt_total (tx_cipher s) (record_nonce (tx_nonce s)) [] (b :: p)) as [[c t] E].
  { unfold MAX_PLAINTEXT_SIZE, aead_max in *. lia. }
  unfold encrypt. rewrite E. cbn [mbind option_bind]. eexists. split; [done|]. step. by rewrite app_nil_r.
Qed.

Definition heads_fit (host : list Z) : Prop := graphic host /\ Z.of_nat (length host) <= 15000.

Lemma key_head_fits host v : heads_fit host -> Z.of_nat (length (head_of (KEY_LINES host v))) <= MAX_HEAD_LEN.
Proof.
  intros [_ Hh]. pose proof (length_dec v). unfold KEY_LINES. rewrite !head_of_cons, !length_app.
  unfold MAX_HEAD_LEN in *. change (length CRLF) with 2%nat. change (length (head_of [])) with 2%nat. rewrite !length_str. cbn [String.length]. lia.
Qed.

Lemma key_answer_fits n : Z.of_nat (length (head_of (KEY_ANSWER n))) <= MAX_HEAD_LEN.
Proof.
  pose proof (length_dec n). unfold KEY_ANSWER. rewrite !head_of_cons, !length_app.
  unfold MAX_HEAD_LEN in *. change (length CRLF) with 2%nat. change (length (head_of [])) with 2%nat. rewrite !length_str. cbn [String.length]. lia.
Qed.

Lemma upgrade_head_fits host init : heads_fit host -> length init = INITIATION_FRAME_LEN ->
  Z.of_nat (length (head_of (UPGRADE_LINES host (Base64.encode init)))) <= MAX_HEAD_LEN.
Proof.
  intros [_ Hh] Hi. pose proof (length_encode init) as He. rewrite Hi in He. unfold UPGRADE_LINES. rewrite !head_of_cons, !length_app.
  unfold INITIATION_FRAME_LEN, MAX_HEAD_LEN in *. change (length CRLF) with 2%nat. change (length (head_of [])) with 2%nat. rewrite !length_str. cbn [String.length]. lia.
Qed.

(** The first connection: the client is told the key of the server. *)
Lemma key_fetched k host v sent eph ch : let answer := json_response (to_vec (Netmap.key_response (noise_pub k))) in
  heads_fit host -> 0 <= v -> length (noise_pub k) = 32%nat -> bytes (noise_pub k) ->
  from_slice (to_vec (Netmap.key_response (noise_pub k))) = Some (Netmap.key_response (noise_pub k)) -> Z.of_nat (length (to_vec (Netmap.key_response (noise_pub k)))) < 2 ^ 63 ->
  serve_connection k sent eph ch (key_request host v) = Some (Replied answer, []) /\ fetch_control_key answer = Some (Ok (noise_pub k)).
Proof.
  intros answer Hh Hv Hl Hb Hj Hn. pose proof Hh as [Hg _]. split.
  - unfold serve_connection, server_read_head. rewrite key_request_lines by done. rewrite <- (app_nil_r (head_of _)).
    rewrite head_text_of; [|done|by apply key_lines_ok|by apply key_head_fits]. cbn [mbind option_bind].
    destruct (parse_key host v Hg Hv) as (p & hs & -> & ->). done.
  - unfold answer, fetch_control_key, read_http_head. rewrite json_response_lines. set (body := to_vec _) in *.
    rewrite head_text_of; [|done|apply key_answer_ok; lia|apply key_answer_fits]. cbn [mbind option_bind].
    assert (Hlines : lines [] (head_of (KEY_ANSWER (Z.of_nat (length body)))) = KEY_ANSWER (Z.of_nat (length body)) ++ [[]]) by (apply lines_head, key_answer_ok; lia).
    unfold has_status, status_line, content_length. rewrite Hlines. set (n := Z.of_nat (length body)) in *. unfold KEY_ANSWER.
    change (bool_decide _) with true. cbn [negb app omap list_omap lookup list_lookup].
    change (content_length_of (str "HTTP/1.1 200 OK")) with (@None Z). change (content_length_of (str "Content-Type: application/json")) with (@None Z).
    change (content_length_of (str "Content-Length: " ++ dec n)) with (parse_usize (trim (32 :: dec n))).
    rewrite trim_value by (apply dec_graphic; lia). rewrite parse_usize_dec by uint. cbn [lookup list_lookup].
    rewrite decide_False by lia. rewrite decide_False by lia. subst n. rewrite Nat2Z.id, take_ge by lia. rewrite Hj. step.
    change (de_public_key (Netmap.key_response (noise_pub k))) with (Some ("mkey:" +:+ hex (noise_pub k))). step.
    unfold parse_machine_public. by rewrite parse_key_hex_text.
Qed.

(** A server, or whoever answers for it, can end the client with one line. *)
Lemma huge_length_panics rest : fetch_control_key (head_of [str "HTTP/1.1 200 OK"; str "Content-Length: 9223372036854775808"] ++ rest) = Some Panic.
Proof.
  unfold fetch_control_key, read_http_head. rewrite head_text_of; [|done|all_lines|by vm_compute]. cbn [mbind option_bind].
  change (negb (has_status _ _)) with false. cbv iota.
  set (h := head_of _). assert (E : content_length h = Some 9223372036854775808) by by vm_compute. by rewrite E.
Qed.

(** The second: both ends hold the session. *)
Lemma upgrade_agrees k host mk ea eb ch v sent : let pub := ik_public (noise_priv k) in
  heads_fit host -> u16 v -> length mk = 32%nat -> bytes mk -> length (noise_priv k) = 32%nat -> bytes (noise_priv k) -> (3 <= sent)%nat ->
  bytes (early_noise ch) -> (length (early_noise ch) <= MAX_PLAINTEXT_SIZE)%nat ->
  exists init h out ss cs frame, upgrade_start ea host mk pub v = Ok (upgrade_request host init, h) /\ length init = INITIATION_FRAME_LEN /\
    serve_connection k sent eb ch (upgrade_request host init) = Some (Control out ss (ik_public mk), []) /\
    upgrade_finish h out = Some (Ok (cs, frame)) /\
    tx_cipher cs = rx_cipher ss /\ rx_cipher cs = tx_cipher ss /\ tx_nonce cs = rx_nonce ss /\ rx_failed ss = false /\
    peer cs = pub /\ exists cs', open cs frame = (Ok (early_noise ch), cs') /\ rx_nonce cs' = tx_nonce ss.
Proof.
  intros pub Hh Hv Hm Hbm Hk Hbk Hs Hbe Hle. pose proof Hh as [Hg _].
  destruct (ts_handshake_agrees ea eb mk (noise_priv k) v Hm Hk Hv) as (h0 & init & h1 & resp & s0 & cs & h2 & E1 & E2 & Hl & E3 & E4 & _ & Ht & Hr & Hz & Hf & Hf' & _ & _ & Hp & _).
  injection Hz as Z1 Z2 Z3 Z4. fold pub in E1, Hp.
  assert (Hbi : bytes init) by (eapply (initiation_is_bytes ea mk pub v); [exact Hbm|by apply public_bytes|exact E1|exact E2]).
  destruct (seal_one s0 (early_noise ch)) as (ct & Ec & Es); [done|done|rewrite Z3; done|].
  exists init, h1, (switch ++ resp ++ encode_record_header (length ct) ++ ct), (set_tx s0 (tx_nonce s0 + 1)), cs, (encode_record_header (length ct) ++ ct).
  split; [unfold upgrade_start; rewrite E1; step; by rewrite E2|]. split; [done|].
  assert (He : graphic (Base64.encode init)) by apply encode_graphic. split; [|split].
  - unfold serve_connection, server_read_head. rewrite upgrade_request_lines by done. rewrite <- (app_nil_r (head_of _)).
    rewrite head_text_of; [|done|by apply upgrade_lines_ok|by apply upgrade_head_fits]. cbn [mbind option_bind].
    destruct (parse_upgrade host (Base64.encode init) Hg He) as (hs & -> & Hu & Hx).
    change (split_once 63 UPGRADE_PATH) with (@None (list Z * list Z)). cbv iota zeta.
    rewrite decide_False by (intros [Hx' _]; discriminate Hx'). rewrite decide_True by done. unfold serve_upgrade. rewrite Hu, Hx.
    rewrite decide_False by (intros H; by apply H). cbn [mbind option_bind]. rewrite as_bytes_ascii by by apply plain_ascii, graphic_plain.
    rewrite Base64.base64_roundtrip by done. cbn [mbind option_bind]. rewrite decide_True by done. rewrite decide_False by lia. rewrite E3.
    rewrite decide_False by lia. rewrite Es. by rewrite decide_False by lia.
  - unfold upgrade_finish, read_http_head.
    change switch with (head_of [str "HTTP/1.1 101 Switching Protocols"; str "Upgrade: tailscale-control-protocol"; str "Connection: upgrade"]).
    rewrite head_text_of; [|done|all_lines|by vm_compute]. cbn [mbind option_bind].
    change (negb (has_status _ _)) with false. change (negb (contains _ _)) with false. cbv iota.
    destruct (respond_shape _ _ _ _ _ _ E3) as (body & -> & Hbl). rewrite finish_response by done. rewrite E4. done.
  - split; [done|]. split; [by destruct s0|]. split; [cbn; lia|]. split; [done|]. split; [done|].
    eexists. split; [apply open_record; try done; [rewrite Z2; by vm_compute|by rewrite Hr, Z2, <- Z3]|]. cbn. lia.
Qed.

(** A part of a request leaves the server waiting. *)
Lemma request_waits k ls p q sent eb ch : ls <> [] -> Forall (fun l => plain l /\ l <> []) ls -> Z.of_nat (length (head_of ls)) <= MAX_HEAD_LEN ->
  head_of ls = p ++ q -> q <> [] -> serve_connection k sent eb ch p = None.
Proof. intros. unfold serve_connection, server_read_head. by rewrite (head_text_waits ls p q). Qed.

(** C25: a client and the server open a control connection.  Over one connection the client
    is told the public key of the server; over the next it sends its request, and once the
    last byte of it is there, not before, the server answers with a switch of protocols, its
    handshake message and its first record.  Then each end holds a session that writes under
    the key the other reads with, the server has the client's machine key, the client the
    server's, and the first record opens to the challenge of the server with the counters of
    both ends in step. *)
Theorem control_connection_opens (k : Keys) (host mk ea eb ch : list Z) (v : Z) (sent sent' : nat) (e' c' : list Z) (Hh : heads_fit host) (Hv : u16 v)
    (Hm : length mk = 32%nat) (Hbm : bytes mk) (Hk : length (noise_priv k) = 32%nat) (Hbk : bytes (noise_priv k)) (Hs : (3 <= sent)%nat)
    (Hx : x25519_base (noise_priv k) = ik_public (noise_priv k))
    (Hj : from_slice (to_vec (Netmap.key_response (noise_pub k))) = Some (Netmap.key_response (noise_pub k)))
    (Hn : Z.of_nat (length (to_vec (Netmap.key_response (noise_pub k)))) < 2 ^ 63)
    (Hbe : bytes (early_noise ch)) (Hle : (length (early_noise ch) <= MAX_PLAINTEXT_SIZE)%nat) :
  exists answer request h out ss cs frame cs',
    serve_connection k sent' e' c' (key_request host v) = Some (Replied answer, []) /\ fetch_control_key answer = Some (Ok (noise_pub k)) /\
    upgrade_start ea host mk (noise_pub k) v = Ok (request, h) /\
    (forall p q, request = p ++ q -> q <> [] -> serve_connection k sent eb ch p = None) /\
    serve_connection k sent eb ch request = Some (Control out ss (ik_public mk), []) /\
    upgrade_finish h out = Some (Ok (cs, frame)) /\
    tx_cipher cs = rx_cipher ss /\ rx_cipher cs = tx_cipher ss /\ tx_nonce cs = rx_nonce ss /\ peer cs = noise_pub k /\
    open cs frame = (Ok (early_noise ch), cs') /\ rx_nonce cs' = tx_nonce ss.
Proof.
  assert (Hp : noise_pub k = ik_public (noise_priv k)) by done.
  destruct (key_fetched k host v sent' e' c' Hh) as [H1 H2]; try done; [by destruct Hv|rewrite Hp; by apply ik_public_length|rewrite Hp; by apply public_bytes|].
  destruct (upgrade_agrees k host mk ea eb ch v sent) as (init & h & out & ss & cs & frame & U1 & U2 & U3 & U4 & U5 & U6 & U7 & _ & U8 & cs' & U9 & U10); try done.
  exists (json_response (to_vec (Netmap.key_response (noise_pub k)))), (upgrade_request host init), h, out, ss, cs, frame, cs'.
  split; [done|]. split; [done|]. rewrite Hp. split; [done|]. split; [|done].
  pose proof (encode_graphic init) as He. rewrite upgrade_request_lines by (done || apply Hh). intros p q E Hq.
  eapply request_waits; [| | |exact E|done]; [done|apply upgrade_lines_ok; [apply Hh|done]|by apply upgrade_head_fits].
Qed.

(** The relay is reached in the same way. *)
Lemma relay_connection_opens k host sent eb ch rest : heads_fit host -> (1 <= sent)%nat ->
  serve_connection k sent eb ch (derp_request host) = Some (Relay derp_switch, []) /\ derp_accepted (derp_switch ++ rest) = Some (Ok rest).
Proof.
  intros [Hg Hl] Hs. split.
  - unfold serve_connection, server_read_head. rewrite derp_request_lines by done. rewrite <- (app_nil_r (head_of _)).
    rewrite head_text_of; [|done|by apply derp_lines_ok|].
    2: { unfold DERP_LINES. rewrite !head_of_cons, !length_app. unfold MAX_HEAD_LEN in *. change (length CRLF) with 2%nat. change (length (head_of [])) with 2%nat.
         rewrite !length_str. cbn [String.length]. lia. }
    cbn [mbind option_bind]. destruct (parse_derp host Hg) as (hs & -> & Hu). change (split_once 63 (str "/derp")) with (@None (list Z * list Z)). cbv iota zeta.
    rewrite !decide_False by (intros [? Hx]; discriminate). rewrite decide_True by done. unfold serve_derp_upgrade. rewrite Hu.
    rewrite decide_False by (intros H; by apply H). by rewrite decide_False by lia.
  - unfold derp_accepted, derp_read_head.
    change derp_switch with (head_of [str "HTTP/1.1 101 Switching Protocols"; str "Upgrade: DERP"; str "Connection: Upgrade"]).
    rewrite head_text_of; [|done|all_lines|by vm_compute]. done.
Qed.

(** The control protocol is spoken only with a machine that has completed the handshake
    under the server's key, and the bytes of the handshake are those of the request. *)
Lemma control_needs_handshake k sent eb ch bs out s m rest : serve_connection k sent eb ch bs = Some (Control out s m, rest) ->
  exists head path headers v init resp s0 frames, server_read_head bs = Some (Ok (head, rest)) /\ parse_head head = Some (str "POST", path, headers) /\
    header headers "x-tailscale-handshake" = Some v /\ Base64.decode (as_bytes v) = Some init /\
    respond eb (noise_priv k) init = Ok (resp, s0, m) /\ seal s0 (early_noise ch) = (Ok frames, s) /\ out = switch ++ resp ++ frames.
Proof.
  unfold serve_connection. destruct (server_read_head bs) as [[[head rest']| |]|] eqn:Eh; cbn [mbind option_bind]; [|done..].
  destruct (parse_head head) as [[[method path] headers]|] eqn:Ep; [|done]. case_decide; [done|]. case_decide as Hd.
  2: { case_decide; [|done]. unfold serve_derp_upgrade. case_decide; [done|]. by case_decide. }
  destruct Hd as [-> _]. unfold serve_upgrade. case_decide; [done|]. destruct (header headers "x-tailscale-handshake") as [v|] eqn:Ev; [|done].
  cbn [mbind option_bind]. destruct (Base64.decode (as_bytes v)) as [init|] eqn:Ed; [|done]. cbn [mbind option_bind]. case_decide; [|done].
  case_decide; [done|]. destruct (respond eb (noise_priv k) init) as [[[resp s0] m0]| |] eqn:Er; [|done..]. case_decide; [done|].
  destruct (seal s0 (early_noise ch)) as [[frames| |] s1] eqn:Es; [|done..]. case_decide; [done|]. intros [= <- <- <- <-].
  eexists _, _, _, _, _, _, _, _. split; [done|]. split; [done|]. split; [exact Ev|]. split; [exact Ed|]. split; [exact Er|]. by split.
Qed.
End Establish.

(** ** Keys in files *)

Lemma digit_graphic d : 0 <= d < 16 -> 33 <= code (digit_char d) < 127 /\ is_Some (to_digit 16 (digit_char d)).
Proof.
  intros Hd. assert (Hall : forallb (fun d => bool_decide (33 <= code (digit_char d) < 127) && bool_decide (is_Some (to_digit 16 (digit_char d)))) (Z.of_nat <$> seq 0 16) = true) by by vm_compute.
  rewrite forallb_forall in Hall. specialize (Hall d). assert (H : d ∈ Z.of_nat <$> seq 0 16).
  { rewrite <- (Z2Nat.id d) by lia. apply list_elem_of_fmap_2, elem_of_seq. lia. }
  apply list_elem_of_In, Hall, andb_true_iff in H as [H1%bool_decide_eq_true H2%bool_decide_eq_true]. done.
Qed.

Lemma nibbles b : is_uint 8 b -> 0 <= b / 16 < 16 /\ 0 <= b mod 16 < 16.
Proof. unfold is_uint. intros. Z.to_euclidean_division_equations. lia. Qed.

Lemma hex_graphic k : bytes k -> graphic (str (hex k)).
Proof.
  induction 1 as [|b k Hb _ IH]; [constructor|]. destruct (nibbles b Hb) as [H1 H2].
  cbn [hex]. constructor; [by apply digit_graphic|]. constructor; [by apply digit_graphic|exact IH].
Qed.

Lemma from_hex64_hex k : bytes k -> length k = 32%nat -> from_hex64 (hex k) = Some k.
Proof.
  intros Hb Hl. unfold from_hex64. rewrite hex_length, Hl. rewrite bool_decide_false by auto. cbn [orb].
  replace (forallb _ _) with true; cbn [negb]; [rewrite <- Hl at 1; by rewrite hex_pairs_hex|]. symmetry. clear Hl.
  induction Hb as [|b k Hb _ IH]; [done|]. destruct (nibbles b Hb) as [H1 H2]. cbn [hex String.list_ascii_of_string forallb].
  rewrite !bool_decide_true by (by apply digit_graphic). exact IH.
Qed.

(** A key that was made is the key of every later start; one whose file could not be
    written in full stops every later start. *)
Lemma key_file_kept fresh f other c w : bytes fresh -> length fresh = 32%nat -> load_or_create_key NotFound fresh true None = (Ok fresh, f) ->
  load_or_create_key f other c w = (Ok fresh, f).
Proof.
  intros Hb Hl [= <-]. unfold load_or_create_key, key_file. pose proof (hex_graphic fresh Hb) as Hg.
  rewrite trim_graphic, as_bytes_ascii, of_bytes_str, from_hex64_hex by (done || by apply plain_ascii, graphic_plain). done.
Qed.

(** A server that is started again with the files of its first start has the same keys. *)
Lemma server_restarts c login region noise derp nf df s o1 o2 b1 b2 w1 w2 : bytes noise -> bytes derp -> length noise = 32%nat -> length derp = 32%nat ->
  load_or_create_key NotFound noise true None = (Ok noise, nf) -> load_or_create_key NotFound derp true None = (Ok derp, df) ->
  server_from_config c login region (Ok noise) (Ok derp) = Ok s ->
  server_from_config c login region (load_or_create_key nf o1 b1 w1).1 (load_or_create_key df o2 b2 w2).1 = Ok s.
Proof.
  intros Hn Hd Ln Ld En Ed Hs. by rewrite (key_file_kept noise nf o1 b1 w1 Hn Ln En), (key_file_kept derp df o2 b2 w2 Hd Ld Ed).
Qed.

Lemma key_file_stuck fresh n f other c w : bytes fresh -> length fresh = 32%nat -> (n < 64)%nat -> load_or_create_key NotFound fresh true (Some n) = (Err WriteFailed, f) ->
  load_or_create_key f other c w = (Err Corrupt, f).
Proof.
  intros Hb Hl Hn [= <-]. unfold load_or_create_key, key_file. pose proof (hex_graphic fresh Hb) as Hg. apply (Forall_take _ n) in Hg.
  rewrite trim_graphic, as_bytes_ascii by (done || by apply plain_ascii, graphic_plain). unfold from_hex64.
  rewrite bool_decide_true; [done|]. intros E. assert (length (take n (str (hex fresh))) = 64%nat).
  { rewrite <- E. unfold of_bytes. generalize (take n (str (hex fresh))). clear. induction l as [|x l IH]; [done|]. exact (f_equal S IH). }
  rewrite length_take in *. lia.
Qed.

(** ** A sample *)

Module ToyJson.
(** Values of one member with a text, by that text. *)
#[export] Instance toy_json : JsonText := {|
  to_vec v := match v with JObj [(_, JStr s)] => str s | _ => [] end;
  from_slice t := Some (JObj [("publicKey", JStr (of_bytes t))])
|}.

#[export] Instance toy_ik_bytes : @NoiseIKBytes ToyIK.toy_noise_ik.
Proof.
  split; [|done]. cbn. intros ea prologue a b st n m st' Ha _ [= <-] [= <- <-]. apply bytes_take, bytes_app. split; [done|].
  apply Forall_replicate. uint.
Qed.
End ToyJson.

Import Toy ToyIK ToyJson.

Lemma control_connection_opens_witness : exists answer,
  serve_connection (mk_keys (replicate 32 7) (replicate 32 8)) 0 [] [] (key_request (str "headscale:8080") 141) = Some (Replied answer, []) /\
  fetch_control_key answer = Some (Ok (replicate 32 7)).
Proof.
  destruct (control_connection_opens (mk_keys (replicate 32 7) (replicate 32 8)) (str "headscale:8080") (replicate 32 5) [] [] (replicate 32 9) 141 3 0 [] [])
    as (answer & request & h & out & ss & cs & frame & cs' & H1 & H2 & _).
  - split; [|by vm_compute]. apply (bool_decide_unpack _). by vm_compute.
  - uint.
  - done.
  - apply (bool_decide_unpack _). by vm_compute.
  - done.
  - apply (bool_decide_unpack _). by vm_compute.
  - lia.
  - done.
  - by vm_compute.
  - by vm_compute.
  - apply (bool_decide_unpack _). by vm_compute.
  - apply (bool_decide_unpack _). by vm_compute.
  - exists answer. split; [exact H1|exact H2].
Defined.
End Http.
