(* ===== verification/WgEcho.v ===== *)
(** * Tunnels and echo packets of the Tailscale leg (rill-ts2021/src/wg.rs)

    The tunnel of a peer over the WireGuard library, and the smallest part of IPv4 and
    ICMP that is needed to answer and to send a ping. *)

From S2P Require Import Prelude Net Frame Packet BgpSession.

Module WgEcho.
Import Packet.

(** ** The tunnel

    The file repeats the tunnel of the dn42 legs without a preshared key; [Tailnet] uses
    these operations. *)
Section Tunnel.
Context `{T : BgpSession.Tunn}.

Definition wg_new (own_private peer_public : list Z) (index : Z) : BgpSession.WgTunnel :=
  BgpSession.tunnel_new (BgpSession.mk_keys own_private peer_public None index).

Definition wg_encapsulate : BgpSession.WgTunnel -> list Z -> list (list Z) * BgpSession.WgTunnel := BgpSession.encapsulate.
Definition wg_decapsulate : nat -> BgpSession.WgTunnel -> option Net.IpAddr -> list Z -> option (BgpSession.DecapOutcome * BgpSession.WgTunnel) := BgpSession.decapsulate.
Definition wg_update_timers : nat -> BgpSession.WgTunnel -> option (list (list Z) * BgpSession.WgTunnel) := BgpSession.update_timers.
Definition wg_ensure_initiated : BgpSession.WgTunnel -> list (list Z) * BgpSession.WgTunnel := BgpSession.ensure_initiated.
Definition wg_session_established : BgpSession.WgTunnel -> bool := BgpSession.session_established.
End Tunnel.

(** ** Echo packets *)

(** The words summed, an odd last byte in the high half, folded and inverted. *)
Definition checksum16 (data : list Z) : Z := not16 (fold16 3 (sum16 data)).

(** The message and the header with a given checksum field. *)
Definition echo_icmp (typ : Z) (ck : list Z) (ident seq : Z) (payload : list Z) : list Z :=
  [typ; 0] ++ ck ++ be_bytes 2 ident ++ be_bytes 2 seq ++ payload.

Definition echo_header (total_len : nat) (ck src dst : list Z) : list Z :=
  [0x45; 0] ++ be_bytes 2 (wrap 16 (Z.of_nat total_len)) ++ [0; 0; 0x40; 0; 64; 1] ++ ck ++ src ++ dst.

Definition icmp_echo_request (src dst : list Z) (ident seq : Z) (payload : list Z) : list Z :=
  let icmp := echo_icmp 8 (be_bytes 2 (checksum16 (echo_icmp 8 [0; 0] ident seq payload))) ident seq payload in
  let total_len := (20 + length icmp)%nat in
  echo_header total_len (be_bytes 2 (checksum16 (echo_header total_len [0; 0] src dst))) src dst ++ icmp.

Inductive IcmpEcho :=
| Request (src reply : list Z)
| Reply (ident seq : Z)
| Other.

(** The answer to the echo request [packet] with a header of [ihl] bytes. *)
Definition echo_reply (packet icmp src dst : list Z) : outcome Empty_set (list Z) :=
  reply ← put icmp 0 [0];
  reply ← put reply 2 [0; 0];
  reply ← put reply 2 (be_bytes 2 (checksum16 reply));
  front ← range packet 0 10;
  let ip := front ++ [0; 0] ++ dst ++ src in
  ip ← put ip 10 (be_bytes 2 (checksum16 ip));
  Ok (ip ++ reply).

Definition parse_icmp_echo (packet : list Z) : outcome Empty_set IcmpEcho :=
  if decide (length packet < 28)%nat then Ok Other
  else
    b0 ← at_ packet 0;
    if decide (Z.shiftr b0 4 <> 4) then Ok Other
    else
      proto ← at_ packet 9;
      if decide (proto <> 1) then Ok Other
      else
        let ihl := (Z.to_nat (Z.land b0 15) * 4)%nat in
        if decide (length packet < ihl + 8)%nat then Ok Other
        else
          src ← range packet 12 16;
          icmp ← range packet ihl (length packet);
          icmp_type ← at_ icmp 0;
          ident ← range icmp 4 6;
          seq ← range icmp 6 8;
          if decide (icmp_type = 8) then
            dst ← range packet 16 20;
            reply ← echo_reply packet icmp src dst;
            Ok (Request src reply)
          else if decide (icmp_type = 0) then Ok (Reply (be_val ident) (be_val seq))
          else Ok Other.

(** ** Answers *)

Lemma put_ok l a x : (a + length x <= length l)%nat -> put l a x = Ok (take a l ++ x ++ drop (a + length x) l).
Proof. intros H. unfold Frame.copy_at. by rewrite decide_True. Qed.

(** The answer in full: the first ten bytes of the packet, the addresses the other way
    round, and the message with its type and checksum replaced. *)
Lemma echo_reply_eq packet t c k1 k2 r src dst : (10 <= length packet)%nat -> length src = 4%nat -> length dst = 4%nat ->
  echo_reply packet (t :: c :: k1 :: k2 :: r) src dst =
    Ok ((take 10 packet ++ be_bytes 2 (checksum16 (take 10 packet ++ [0; 0] ++ dst ++ src)) ++ dst ++ src) ++
        [0; c] ++ be_bytes 2 (checksum16 ([0; c] ++ [0; 0] ++ r)) ++ r).
Proof.
  intros Hp Hs Hd. unfold echo_reply. rewrite (put_ok _ 0) by (cbn; lia). step. cbn [take app length Nat.add drop].
  rewrite (put_ok _ 2) by (cbn; lia). step. cbn [take app length Nat.add drop].
  rewrite (put_ok _ 2) by (rewrite length_be_bytes; cbn; lia). step. rewrite length_be_bytes. cbn [take app Nat.add drop].
  rewrite range_Ok by lia. step. rewrite !drop_0. change (10 - 0)%nat with 10%nat.
  assert (Hl : length (take 10 packet) = 10%nat) by (rewrite length_take; lia).
  rewrite (put_ok _ 10) by (rewrite length_be_bytes, length_app, Hl; cbn [length]; lia). step. rewrite length_be_bytes.
  rewrite take_app_length' by done. rewrite drop_app_ge by lia. rewrite Hl. change (10 + 2 - 10)%nat with 2%nat. cbn [drop app]. by rewrite drop_0, <- !app_assoc.
Qed.

(** Whatever comes out of a tunnel is looked at without a panic. *)
Lemma parse_icmp_echo_safe packet : safe (parse_icmp_echo packet).
Proof.
  unfold parse_icmp_echo. case_decide as Hl; [done|]. apply bind_safe; [apply at_safe; lia|]. intros b0 _. case_decide; [done|].
  apply bind_safe; [apply at_safe; lia|]. intros proto _. case_decide; [done|]. set (ihl := (Z.to_nat (Z.land b0 15) * 4)%nat). case_decide as Hi; [done|].
  rewrite (range_Ok _ 12) by lia. step. clearbody ihl. rewrite (range_Ok packet ihl (length packet)) by lia. step. rewrite (take_ge (drop ihl packet)) by (rewrite length_drop; lia).
  remember (drop ihl packet) as icmp eqn:Ei. assert (Hc : (8 <= length icmp)%nat) by (subst icmp; rewrite length_drop; lia).
  destruct icmp as [|t [|c [|k1 [|k2 r]]]]; cbn in Hc; try lia. unfold at_. cbn [lookup list_lookup]. step.
  rewrite !(range_Ok (t :: _)) by (cbn; lia). step. case_decide; [|case_decide; done].
  rewrite (range_Ok _ 16) by lia. step. rewrite echo_reply_eq by (rewrite ?length_take, ?length_drop; lia). done.
Qed.

(** ** Round trip *)

(** Filling in the checksum of words that are all zero, too. *)
Lemma checksum_field a b : Nat.Even (length a) -> bytes a -> bytes b -> Z.of_nat (length a + length b) <= 65500 ->
  checksum16 (a ++ be_bytes 2 (checksum16 (a ++ [0; 0] ++ b)) ++ b) = 0.
Proof.
  intros He Ha Hb Hl. pose proof (sum16_bound a Ha) as [A _]. pose proof (sum16_bound b Hb) as [B _].
  destruct (decide (0 < sum16 a + sum16 b)) as [Hp|Hz]; [by apply checksum_filled|].
  assert (E : sum16 (a ++ [0; 0] ++ b) = 0) by (rewrite sum16_app by done; cbn; lia).
  unfold checksum16 at 2. rewrite E. change (not16 (fold16 3 0)) with 65535. unfold checksum16.
  assert (E2 : sum16 (a ++ be_bytes 2 65535 ++ b) = 65535); [|by rewrite E2].
  rewrite sum16_app by done. rewrite sum16_app by (rewrite length_be_bytes; by exists 1%nat). rewrite sum16_be2 by (unfold is_uint; lia). lia.
Qed.

(** A packet whose header and message both sum up. *)
Definition sums_ok (packet : list Z) : Prop := checksum16 (take 20 packet) = 0 /\ checksum16 (drop 20 packet) = 0.

Lemma length_header n ck s d : length ck = 2%nat -> length s = 4%nat -> length d = 4%nat -> length (echo_header n ck s d) = 20%nat.
Proof. intros H1 H2 H3. unfold echo_header. rewrite !length_app, length_be_bytes, H1, H2, H3. done. Qed.

Lemma length_icmp t ck i q p : length ck = 2%nat -> length (echo_icmp t ck i q p) = (8 + length p)%nat.
Proof. intros H. unfold echo_icmp. rewrite !length_app, !length_be_bytes, H. cbn. lia. Qed.

Lemma header_sums n s d : bytes s -> bytes d -> length s = 4%nat -> length d = 4%nat ->
  checksum16 (echo_header n (be_bytes 2 (checksum16 (echo_header n [0; 0] s d))) s d) = 0.
Proof.
  intros Hs Hd Ls Ld. set (a := [0x45; 0] ++ be_bytes 2 (wrap 16 (Z.of_nat n)) ++ [0; 0; 0x40; 0; 64; 1]).
  assert (E : forall ck, echo_header n ck s d = a ++ ck ++ s ++ d) by (intros; unfold echo_header, a; by rewrite <- !app_assoc).
  rewrite !E. apply checksum_field.
  - unfold a. rewrite !length_app, length_be_bytes. by exists 5%nat.
  - unfold a. repeat (apply bytes_app; split); try apply be_bytes_bytes; fall; unfold is_uint; lia.
  - by apply bytes_app.
  - unfold a. rewrite !length_app, length_be_bytes, Ls, Ld. cbn. lia.
Qed.

Lemma icmp_sums t i q p : u8 t -> bytes p -> Z.of_nat (length p) <= 65480 ->
  checksum16 (echo_icmp t (be_bytes 2 (checksum16 (echo_icmp t [0; 0] i q p))) i q p) = 0.
Proof.
  intros Ht Hp Hl. unfold echo_icmp. apply checksum_field.
  - by exists 1%nat.
  - by fall.
  - repeat (apply bytes_app; split); try apply be_bytes_bytes; done.
  - rewrite !length_app, !length_be_bytes. cbn. lia.
Qed.

Lemma echo_packet_sums n t i q p s d : u8 t -> bytes s -> bytes d -> length s = 4%nat -> length d = 4%nat -> bytes p -> Z.of_nat (length p) <= 65480 ->
  sums_ok (echo_header n (be_bytes 2 (checksum16 (echo_header n [0; 0] s d))) s d ++ echo_icmp t (be_bytes 2 (checksum16 (echo_icmp t [0; 0] i q p))) i q p).
Proof.
  intros. assert (L : length (echo_header n (be_bytes 2 (checksum16 (echo_header n [0; 0] s d))) s d) = 20%nat) by (apply length_header; auto; apply length_be_bytes).
  split; [rewrite take_app_length' by done; by apply header_sums|rewrite drop_app_length' by done; by apply icmp_sums].
Qed.

(** What is read of a packet of this form. *)
Lemma parse_echo n ck ck' t i q p s d : length ck = 2%nat -> length ck' = 2%nat -> length s = 4%nat -> length d = 4%nat -> u16 i -> u16 q ->
  parse_icmp_echo (echo_header n ck s d ++ echo_icmp t ck' i q p) =
    if decide (t = 8) then
      Ok (Request s (echo_header n (be_bytes 2 (checksum16 (echo_header n [0; 0] d s))) d s ++ echo_icmp 0 (be_bytes 2 (checksum16 (echo_icmp 0 [0; 0] i q p))) i q p))
    else if decide (t = 0) then Ok (Reply i q) else Ok Other.
Proof.
  intros Hc Hc' Hs Hd Hi Hq. pose proof (length_header n ck s d Hc Hs Hd) as Lh. pose proof (length_icmp t ck' i q p Hc') as Li.
  set (pk := echo_header n ck s d ++ echo_icmp t ck' i q p). assert (Lp : length pk = (28 + length p)%nat) by (unfold pk; rewrite length_app, Lh, Li; lia).
  destruct (two (be_bytes 2 (wrap 16 (Z.of_nat n))) (length_be_bytes 2 _)) as (l1 & l2 & EL).
  destruct (two ck Hc) as (c1 & c2 & ->). destruct (two ck' Hc') as (k1 & k2 & ->). destruct (four s Hs) as (s1 & s2 & s3 & s4 & ->). destruct (four d Hd) as (d1 & d2 & d3 & d4 & ->).
  assert (Ei : be_val (be_bytes 2 i) = i) by by apply be_val_be_bytes. assert (Eq : be_val (be_bytes 2 q) = q) by by apply be_val_be_bytes.
  destruct (two (be_bytes 2 i) (length_be_bytes 2 _)) as (i1 & i2 & EI). destruct (two (be_bytes 2 q) (length_be_bytes 2 _)) as (q1 & q2 & EQ).
  unfold parse_icmp_echo. rewrite decide_False by lia.
  assert (E : pk = 0x45 :: 0 :: l1 :: l2 :: 0 :: 0 :: 0x40 :: 0 :: 64 :: 1 :: c1 :: c2 :: s1 :: s2 :: s3 :: s4 :: d1 :: d2 :: d3 :: d4 :: t :: 0 :: k1 :: k2 :: i1 :: i2 :: q1 :: q2 :: p).
  { unfold pk, echo_header, echo_icmp. by rewrite EL, EI, EQ. }
  assert (E0 : at_ pk 0 = @Ok Empty_set _ 0x45) by by rewrite E. assert (E9 : at_ pk 9 = @Ok Empty_set _ 1) by by rewrite E.
  assert (Ts : range pk 12 16 = @Ok Empty_set _ [s1; s2; s3; s4]) by (rewrite range_Ok by lia; by rewrite E).
  assert (Td : range pk 16 20 = @Ok Empty_set _ [d1; d2; d3; d4]) by (rewrite range_Ok by lia; by rewrite E).
  assert (Tm : range pk 20 (length pk) = @Ok Empty_set _ (t :: 0 :: k1 :: k2 :: i1 :: i2 :: q1 :: q2 :: p)).
  { rewrite range_Ok by lia. rewrite take_ge by (rewrite length_drop; lia). by rewrite E. }
  rewrite E0. step. change (Z.shiftr 0x45 4) with 4. rewrite decide_False by auto. rewrite E9. step. rewrite decide_False by auto.
  change (Z.to_nat (Z.land 0x45 15) * 4)%nat with 20%nat. rewrite decide_False by lia. rewrite Ts. step. rewrite Tm. step.
  unfold at_. cbn [lookup list_lookup]. step.
  assert (Ri : range (t :: 0 :: k1 :: k2 :: i1 :: i2 :: q1 :: q2 :: p) 4 6 = @Ok Empty_set _ (be_bytes 2 i)) by (rewrite range_Ok by (cbn; lia); by rewrite EI).
  assert (Rq : range (t :: 0 :: k1 :: k2 :: i1 :: i2 :: q1 :: q2 :: p) 6 8 = @Ok Empty_set _ (be_bytes 2 q)) by (rewrite range_Ok by (cbn; lia); by rewrite EQ).
  rewrite Ri, Rq. step. rewrite Ei, Eq.
  case_decide; [|done]. rewrite Td. step. rewrite echo_reply_eq by (done || lia). step.
  replace (take 10 pk) with ([0x45; 0] ++ be_bytes 2 (wrap 16 (Z.of_nat n)) ++ [0; 0; 0x40; 0; 64; 1]) by (rewrite E, EL; done).
  unfold echo_header, echo_icmp. rewrite EI, EQ, EL. done.
Qed.

Lemma drop_echo n ck ck' t i q p s d : length ck = 2%nat -> length ck' = 2%nat -> length s = 4%nat -> length d = 4%nat ->
  drop 28 (echo_header n ck s d ++ echo_icmp t ck' i q p) = p.
Proof.
  intros Hc Hc' Hs Hd. unfold echo_icmp. replace (echo_header n ck s d ++ _) with ((echo_header n ck s d ++ [t; 0] ++ ck' ++ be_bytes 2 i ++ be_bytes 2 q) ++ p) by by rewrite <- !app_assoc.
  apply drop_app_length'. rewrite !length_app, length_header, !length_be_bytes, Hc' by done. done.
Qed.

Lemma echo_packet_info ck ck' t i q p s d : length ck = 2%nat -> length ck' = 2%nat -> length s = 4%nat -> length d = 4%nat -> Z.of_nat (length p) <= 65480 ->
  let packet := echo_header (20 + (8 + length p)) ck s d ++ echo_icmp t ck' i q p in
  parse_packet packet = Ok (mk_info (Net.V4 s) (Net.V4 d) Icmp (Z.of_nat (length packet))).
Proof.
  intros Hc Hc' Hs Hd Hl packet. set (n := (20 + (8 + length p))%nat) in *.
  assert (Lp : length packet = n) by (unfold packet; rewrite length_app, length_header, length_icmp by done; lia).
  pose proof (be_val_len n ltac:(subst n; lia)) as Hn. destruct (two (be_bytes 2 (wrap 16 (Z.of_nat n))) (length_be_bytes 2 _)) as (l1 & l2 & EL). rewrite EL in Hn.
  destruct (two ck Hc) as (c1 & c2 & ->). destruct (four s Hs) as (s1 & s2 & s3 & s4 & ->). destruct (four d Hd) as (d1 & d2 & d3 & d4 & ->).
  set (m := echo_icmp t ck' i q p) in *.
  assert (E : packet = 0x45 :: 0 :: l1 :: l2 :: 0 :: 0 :: 0x40 :: 0 :: 64 :: 1 :: c1 :: c2 :: s1 :: s2 :: s3 :: s4 :: d1 :: d2 :: d3 :: d4 :: m) by (unfold packet, echo_header; by rewrite EL).
  rewrite Lp. rewrite E in *. unfold parse_packet. rewrite decide_True by done. unfold parse_v4. rewrite decide_False by lia. unfold at_. cbn [lookup list_lookup]. step.
  rewrite decide_False by (change (Z.to_nat _) with 20%nat; lia). rewrite !range_Ok by lia. step. cbn [drop take Nat.sub]. by rewrite Hn.
Qed.

(** A ping makes the way there and back.  The packet built for any addresses, numbers and
    payload is read by the other side as a request from its source; the answer made of it goes
    the other way with the same payload; it is read as the answer to just that identifier and
    sequence number; and the checksums of both packets, header and message, are right. *)
Theorem echo_round_trip (src dst payload : list Z) (ident seq : Z) (Hs : length src = 4%nat) (Hd : length dst = 4%nat) (Bs : bytes src) (Bd : bytes dst)
    (Hi : u16 ident) (Hq : u16 seq) (Hp : bytes payload) (Hl : Z.of_nat (length payload) <= 65480) :
  let request := icmp_echo_request src dst ident seq payload in
  sums_ok request /\ parse_packet request = Ok (mk_info (Net.V4 src) (Net.V4 dst) Icmp (Z.of_nat (length request))) /\
  exists reply, parse_icmp_echo request = Ok (Request src reply) /\ parse_icmp_echo reply = Ok (Reply ident seq) /\ sums_ok reply /\
    parse_packet reply = Ok (mk_info (Net.V4 dst) (Net.V4 src) Icmp (Z.of_nat (length reply))) /\ drop 28 reply = payload.
Proof.
  intros request. set (n := (20 + (8 + length payload))%nat).
  set (rck := be_bytes 2 (checksum16 (echo_header n [0; 0] src dst))). set (rick := be_bytes 2 (checksum16 (echo_icmp 8 [0; 0] ident seq payload))).
  assert (E : request = echo_header n rck src dst ++ echo_icmp 8 rick ident seq payload).
  { unfold request, icmp_echo_request. cbv zeta. by rewrite length_icmp by apply length_be_bytes. }
  set (ck := be_bytes 2 (checksum16 (echo_header n [0; 0] dst src))). set (ick := be_bytes 2 (checksum16 (echo_icmp 0 [0; 0] ident seq payload))).
  rewrite E. split; [by apply echo_packet_sums|]. split; [apply echo_packet_info; try done; apply length_be_bytes|].
  exists (echo_header n ck dst src ++ echo_icmp 0 ick ident seq payload). rewrite !parse_echo by (done || apply length_be_bytes). split; [done|]. split; [done|].
  split; [by apply echo_packet_sums|]. split; [apply echo_packet_info; try done; apply length_be_bytes|].
  apply drop_echo; try done; apply length_be_bytes.
Qed.

(** The header of an answer still claims the options of the request, but they are gone: a
    host that finds the message by the claimed length does not find it. *)
Example options_lost : exists request reply, length request = 32%nat /\ parse_icmp_echo request = Ok (Request [10; 0; 0; 1] reply) /\
  length reply = 28%nat /\ parse_icmp_echo reply = Ok Other.
Proof.
  exists ([0x46; 0; 0; 32; 0; 0; 0; 0; 64; 1; 0; 0; 10; 0; 0; 1; 10; 0; 0; 2; 1; 1; 1; 1] ++ [8; 0; 0; 0; 0; 1; 0; 2]).
  eexists. split; [done|]. split; [vm_compute; reflexivity|]. by vm_compute.
Qed.

Lemma echo_round_trip_witness : exists reply,
  parse_icmp_echo (icmp_echo_request [10; 0; 0; 1] [10; 0; 0; 2] 0x5211 7 [112; 105; 110; 103]) = Ok (Request [10; 0; 0; 1] reply) /\
  parse_icmp_echo reply = Ok (Reply 0x5211 7).
Proof.
  destruct (echo_round_trip [10; 0; 0; 1] [10; 0; 0; 2] [112; 105; 110; 103] 0x5211 7) as (_ & _ & reply & H1 & H2 & _).
  all: try done; try (unfold is_uint; lia).
  1-3: apply (bool_decide_unpack _); by vm_compute.
  exists reply. by split.
Defined.
End WgEcho.
