(* ===== verification/Float.v ===== *)
(** * Rounding of 64-bit floating point

    What the arithmetic of [f64] (the Standard Library's specification of IEEE 754 at 53
    bits of precision) does to numbers that are not negative: results are well-formed,
    comparison is the comparison of values, and a result is above the exact one by no more
    than one part in 2^52 and the smallest number there is. *)

From Stdlib Require Import SpecFloat.
From S2P Require Import Prelude.

Module Float.

(** ** Values

    [UNIT] stands for one: it is so large that every number that occurs is a whole multiple
    of one unit in the last place of it. *)

Definition K : Z := 3000.
Definition UNIT : Z := 2 ^ K.
Definition scaled (m e : Z) : Z := m * 2 ^ (e + K).

Definition val (f : spec_float) : Z :=
  match f with S754_finite false m e => scaled (Zpos m) e | _ => 0 end.

Definition fexp64 (x : Z) : Z := Z.max (x - 53) (-1074).

(** Numbers that are not negative, in the one form the arithmetic produces. *)
Definition ok (f : spec_float) : Prop :=
  match f with
  | S754_zero _ => True
  | S754_finite false m e => fexp64 (Zpos (digits2_pos m) + e) = e /\ e <= 971
  | _ => False
  end.

Lemma fexp_eq x : fexp 53 1024 x = fexp64 x.
Proof. done. Qed.

(** ** Digits and shifts *)

Lemma digits_spec p : 2 ^ (Zpos (digits2_pos p) - 1) <= Zpos p < 2 ^ Zpos (digits2_pos p).
Proof.
  induction p as [p IH|p IH|]; cbn [digits2_pos]; [| |done].
  all: rewrite Pos2Z.inj_succ; replace (Z.succ (Zpos (digits2_pos p)) - 1) with (Z.succ (Zpos (digits2_pos p) - 1)) by lia;
    rewrite !Z.pow_succ_r by lia; lia.
Qed.

Lemma pow2_pos n : 0 <= n -> 0 < 2 ^ n.
Proof. intros. by apply Z.pow_pos_nonneg. Qed.

Lemma digits_unique m d : 2 ^ (d - 1) <= Zpos m < 2 ^ d -> 1 <= d -> Zpos (digits2_pos m) = d.
Proof.
  intros [H1 H2] Hd. pose proof (digits_spec m) as [H3 H4]. set (k := Zpos (digits2_pos m)) in *.
  assert (d - 1 < k) by (apply (Z.pow_lt_mono_r_iff 2); lia). assert (k - 1 < d) by (apply (Z.pow_lt_mono_r_iff 2); lia). lia.
Qed.

Lemma shr_1_half r : 0 <= shr_m r -> shr_m (shr_1 r) = shr_m r / 2.
Proof.
  destruct r as [m ro s]. cbn [shr_m]. intros Hm. destruct m as [|[p|p|]|p]; cbn [shr_1 shr_m]; try done; try lia.
  - change (Zpos p~1) with (2 * Zpos p + 1). apply (Z.div_unique _ _ _ 1); lia.
  - change (Zpos p~0) with (2 * Zpos p). apply (Z.div_unique _ _ _ 0); lia.
Qed.

Lemma iter_shr n r : 0 <= shr_m r -> shr_m (SpecFloat.iter_pos shr_1 n r) = shr_m r / 2 ^ Zpos n.
Proof.
  revert r. induction n as [n IH|n IH|]; intros r Hr; cbn [SpecFloat.iter_pos].
  - assert (H1 : 0 <= shr_m (shr_1 r)) by (rewrite shr_1_half by done; apply Z.div_pos; lia).
    assert (H2 : 0 <= shr_m (SpecFloat.iter_pos shr_1 n (shr_1 r))) by (rewrite IH by done; apply Z.div_pos; [done|by apply pow2_pos]).
    rewrite IH, IH, shr_1_half by done. rewrite !Z.div_div by (try apply Z.pow_nonzero; try apply pow2_pos; lia).
    assert (E : 2 ^ Zpos n~1 = 2 * (2 ^ Zpos n * 2 ^ Zpos n)) by (rewrite <- Z.pow_add_r, <- Z.pow_succ_r by lia; f_equal; lia). by rewrite E, Z.mul_assoc.
  - assert (H2 : 0 <= shr_m (SpecFloat.iter_pos shr_1 n r)) by (rewrite IH by done; apply Z.div_pos; [done|by apply pow2_pos]).
    rewrite IH, IH by done. rewrite Z.div_div by (try apply Z.pow_nonzero; try apply pow2_pos; lia).
    assert (E : 2 ^ Zpos n~0 = 2 ^ Zpos n * 2 ^ Zpos n) by (rewrite <- Z.pow_add_r by lia; f_equal; lia). by rewrite E.
  - by rewrite shr_1_half.
Qed.

Lemma shr_spec m l e n : 0 <= m -> 0 <= n -> exists r, shr (shr_record_of_loc m l) e n = (r, e + n) /\ shr_m r = m / 2 ^ n /\ (n = 0 -> r = shr_record_of_loc m l).
Proof.
  intros Hm Hn. assert (E : shr_m (shr_record_of_loc m l) = m) by (destruct l as [|[]]; done).
  destruct n as [|p|p]; [| |lia]; cbn [shr].
  - eexists. rewrite Z.add_0_r, Z.div_1_r. done.
  - eexists. split; [done|]. split; [|done]. rewrite iter_shr by lia. by rewrite E.
Qed.

Lemma round_le m l : m <= round_nearest_even m l <= m + 1.
Proof. destruct l as [|[]]; cbn; try lia. destruct (Z.even m); lia. Qed.

(** ** One rounding *)

(** [y] is above [x] by no more than rounding explains. *)
Definition TINY : Z := 2 ^ (K - 1074 + 52).
Definition RU (x y : Z) : Prop := 0 <= y /\ y * 2 ^ 52 <= x * (2 ^ 52 + 1) + TINY.

Lemma pow2_split a b : 0 <= a -> 0 <= b -> 2 ^ (a + b) = 2 ^ a * 2 ^ b.
Proof. intros. by apply Z.pow_add_r. Qed.

(** The mantissa that is left after a shift to the last place of the format. *)
Lemma shifted m e : 0 < m -> let d := Zdigits2 m in let g := fexp64 (d + e) in e <= g ->
  let m' := m / 2 ^ (g - e) in 0 <= m' < 2 ^ 53 /\ (-1074 < g -> 2 ^ 52 <= m') /\ m' * 2 ^ (g - e) <= m /\ 2 ^ (d - 1) <= m.
Proof.
  intros Hm d g Hg m'. destruct m as [|p|p]; try lia. unfold d in *. cbn [Zdigits2] in *. set (k := Zpos (digits2_pos p)) in *.
  pose proof (digits_spec p) as [H1 H2]. fold k in H1, H2. assert (Hk : 1 <= k) by (unfold k; lia).
  pose proof (pow2_pos (g - e) ltac:(lia)) as Hp. assert (Hdg : k + e - 53 <= g) by (unfold g, fexp64; lia).
  split; [split; [apply Z.div_pos; lia|]|split; [|split; [|done]]].
  - apply Z.div_lt_upper_bound; [done|]. eapply Z.lt_le_trans; [exact H2|]. rewrite <- Z.pow_add_r by lia. apply Z.pow_le_mono_r; lia.
  - intros Hn. apply Z.div_le_lower_bound; [done|]. eapply Z.le_trans; [|exact H1]. rewrite <- Z.pow_add_r by lia. apply Z.pow_le_mono_r; [lia|]. unfold g, fexp64 in *. lia.
  - rewrite Z.mul_comm. apply Z.mul_div_le. done.
Qed.

Lemma round_result m1 g : 0 < m1 <= 2 ^ 53 -> -1074 <= g <= 960 -> (g = -1074 \/ 2 ^ 52 <= m1) ->
  exists f, (let '(mrs, e) := shr_fexp 53 1024 m1 g loc_Exact in
    match shr_m mrs with Z0 => S754_zero false | Zpos m => if e <=? 1024 - 53 then S754_finite false m e else S754_infinity false | _ => S754_nan end) = f /\
    ok f /\ val f = scaled m1 g.
Proof.
  intros Hm Hg Hc. eexists. split; [done|]. unfold shr_fexp. rewrite fexp_eq. destruct m1 as [|p|p]; try lia. cbn [Zdigits2].
  pose proof (digits_spec p) as [H1 H2]. set (k := Zpos (digits2_pos p)) in *. assert (Hk : 1 <= k) by (unfold k; lia).
  destruct (decide (Zpos p = 2 ^ 53)) as [E|E].
  - assert (k = 54) as -> by (apply digits_unique; [rewrite E; done|lia]).
    replace (fexp64 (54 + g) - g) with 1 by (unfold fexp64; lia). rewrite E. change (shr (shr_record_of_loc (2 ^ 53) loc_Exact) g 1) with ({| shr_m := 2 ^ 52; shr_r := false; shr_s := false |}, g + 1).
    cbn [shr_m]. change (2 ^ 52) with (Zpos (2 ^ 52)%positive) at 1 2. rewrite (proj2 (Z.leb_le _ _)) by lia. split.
    + cbn [ok]. change (Zpos (digits2_pos (2 ^ 52))) with 53. unfold fexp64. lia.
    + cbn [val]. unfold scaled. replace (g + 1 + K) with (1 + (g + K)) by lia. rewrite Z.pow_add_r by (unfold K; lia). change (2 ^ 53) with (Zpos (2 ^ 52) * 2 ^ 1). ring.
  - assert (k <= 53). { assert (k - 1 < 53) by (apply (Z.pow_lt_mono_r_iff 2); lia). lia. }
    assert (Hn : fexp64 (k + g) - g <= 0) by (unfold fexp64; lia).
    assert (Hs : shr (shr_record_of_loc (Zpos p) loc_Exact) g (fexp64 (k + g) - g) = ({| shr_m := Zpos p; shr_r := false; shr_s := false |}, g)) by (destruct (fexp64 (k + g) - g); [done|lia|done]).
    rewrite Hs. cbn [shr_m]. rewrite (proj2 (Z.leb_le _ _)) by lia. split; [|done]. cbn [ok]. fold k. unfold fexp64. split; [|lia].
    destruct Hc as [->|Hc]; [lia|]. assert (52 < k) by (apply (Z.pow_lt_mono_r_iff 2); lia). lia.
Qed.

Lemma scaled_shift m n e : 0 <= n -> 0 <= e + K -> scaled (m * 2 ^ n) e = scaled m (e + n).
Proof. intros. unfold scaled. replace (e + n + K) with (n + (e + K)) by lia. rewrite (pow2_split n (e + K)) by lia. ring. Qed.

(** One unit in the last place is a small part of the number, or of one. *)
Lemma ulp_small m e : 0 < m -> -2900 <= e -> let d := Zdigits2 m in 2 ^ (d - 1) <= m ->
  2 ^ (fexp64 (d + e) + K) * 2 ^ 52 <= scaled m e + TINY.
Proof.
  intros Hm He d Hd. assert (Hk : 1 <= d) by (destruct m; unfold d; cbn; lia). unfold scaled, TINY, fexp64.
  pose proof (pow2_pos (e + K) ltac:(unfold K; lia)) as Hp.
  destruct (Z.max_spec (d + e - 53) (-1074)) as [[_ ->]|[_ ->]].
  - rewrite <- pow2_split by (unfold K; lia). replace (-1074 + K + 52) with (K - 1074 + 52) by lia. generalize (2 ^ (K - 1074 + 52)). intros. pose proof (Z.mul_pos_pos m _ Hm Hp). lia.
  - rewrite <- pow2_split by (unfold K; lia). replace (d + e - 53 + K + 52) with ((d - 1) + (e + K)) by lia. rewrite pow2_split by (unfold K; lia).
    pose proof (pow2_pos (K - 1074 + 52) ltac:(unfold K; lia)). pose proof (Z.mul_le_mono_nonneg_r _ _ (2 ^ (e + K)) ltac:(lia) Hd). lia.
Qed.

Lemma round_aux m e l : 0 < m -> -2900 <= e -> e <= fexp64 (Zdigits2 m + e) -> Zdigits2 m + e <= 1000 ->
  let r := binary_round_aux 53 1024 false m e l in
  ok r /\ RU (scaled m e) (val r) /\ (l = loc_Exact -> e = fexp64 (Zdigits2 m + e) -> val r = scaled m e).
Proof.
  intros Hm He Hg Hd. set (g := fexp64 (Zdigits2 m + e)) in *. destruct (shifted m e Hm Hg) as (B1 & B2 & B3 & B4). fold g in B1, B2, B3, B4.
  set (m' := m / 2 ^ (g - e)) in *. unfold binary_round_aux, shr_fexp. rewrite fexp_eq. fold g.
  destruct (shr_spec m l e (g - e)) as (rec & Es & Em & Ex); [lia|lia|]. rewrite Es. fold m' in Em. replace (e + (g - e)) with g by lia. rewrite Em.
  pose proof (round_le m' (loc_of_shr_record rec)) as Hr. set (m1 := round_nearest_even m' (loc_of_shr_record rec)) in *.
  fold (shr_fexp 53 1024 m1 g loc_Exact).
  assert (Hg' : -1074 <= g <= 960) by (unfold g, fexp64; lia).
  assert (Hu : RU (scaled m e) (scaled m1 g)).
  { pose proof (ulp_small m e Hm He B4) as Hu. fold g in Hu. pose proof (pow2_pos (g + K) ltac:(unfold K; lia)) as Hp. unfold RU. split; [unfold scaled; nia|].
    assert (scaled m' g <= scaled m e).
    { replace g with (e + (g - e)) by lia. rewrite <- scaled_shift by (unfold K; lia). unfold scaled. replace (e + (g - e) - e) with (g - e) by lia.
      pose proof (pow2_pos (e + K) ltac:(unfold K; lia)). nia. }
    assert (scaled m1 g <= scaled m' g + 2 ^ (g + K)) by (unfold scaled; nia). nia. }
  assert (Hex : l = loc_Exact -> e = g -> m1 = m).
  { intros -> Eg. unfold m1, m'. rewrite Ex by lia. replace (g - e) with 0 by lia. by rewrite Z.div_1_r. }
  destruct (decide (m1 = 0)) as [E0|E0].
  - rewrite E0. cbn. change (fexp 53 1024 (0 + g)) with (fexp64 (0 + g)).
    assert (Hs : shr {| shr_m := 0; shr_r := false; shr_s := false |} g (fexp64 (0 + g) - g) = ({| shr_m := 0; shr_r := false; shr_s := false |}, g)).
    { assert (Hn : fexp64 (0 + g) - g <= 0) by (unfold fexp64; lia). destruct (fexp64 (0 + g) - g); [done|lia|done]. }
    unfold shr_fexp. cbn [Zdigits2 shr_record_of_loc]. rewrite fexp_eq, Hs. cbn. split; [done|]. split.
    + destruct Hu as [_ Hu]. rewrite E0 in Hu. by split.
    + intros Hl Eg. specialize (Hex Hl Eg). lia.
  - destruct (round_result m1 g) as (f & -> & Hok & Hv); [lia|done| |].
    { destruct (decide (g = -1074)); [by left|]. right. specialize (B2 ltac:(lia)). lia. }
    split; [done|]. rewrite Hv. split; [done|]. intros Hl Eg. by rewrite (Hex Hl Eg), <- Eg.
Qed.

Lemma shift_left m n : Zpos (Pos.iter xO m n) = Zpos m * 2 ^ Zpos n.
Proof.
  induction n as [|n IH] using Pos.peano_ind; [cbn; lia|]. rewrite Pos.iter_succ, Pos2Z.inj_succ, Z.pow_succ_r by lia.
  change (Zpos (Pos.iter xO m n)~0) with (2 * Zpos (Pos.iter xO m n)). lia.
Qed.

Lemma digits_shift m n : Zpos (digits2_pos (Pos.iter xO m n)) = Zpos (digits2_pos m) + Zpos n.
Proof.
  apply digits_unique; [|lia]. rewrite shift_left. pose proof (digits_spec m) as [H1 H2]. pose proof (pow2_pos (Zpos n) ltac:(lia)).
  replace (Zpos (digits2_pos m) + Zpos n - 1) with (Zpos (digits2_pos m) - 1 + Zpos n) by lia. rewrite !pow2_split by lia. nia.
Qed.

(** Alignment keeps the value. *)
Lemma align m e e' : -2900 <= e' -> let '(mz, ez) := shl_align m e e' in
  ez = Z.min e e' /\ scaled (Zpos mz) ez = scaled (Zpos m) e /\ Zpos (digits2_pos mz) + ez = Zpos (digits2_pos m) + e.
Proof.
  intros He. unfold shl_align. destruct (e' - e) as [|n|n] eqn:E.
  - split; [lia|]. by split; [|lia].
  - split; [lia|]. by split; [|lia].
  - split; [lia|]. split; [|rewrite digits_shift; lia]. rewrite shift_left, scaled_shift by (unfold K; lia). f_equal. lia.
Qed.

Lemma round_pos m e : -2900 <= e -> Zpos (digits2_pos m) + e <= 1000 -> let r := binary_round 53 1024 false m e in
  ok r /\ RU (scaled (Zpos m) e) (val r) /\ (Zpos (digits2_pos m) <= 53 -> -1074 <= e -> val r = scaled (Zpos m) e).
Proof.
  intros He Hd. unfold binary_round. rewrite fexp_eq. set (g := fexp64 (Zpos (digits2_pos m) + e)).
  assert (Hg : -1074 <= g) by (unfold g, fexp64; lia).
  pose proof (align m e g ltac:(lia)) as H. destruct (shl_align m e g) as [mz ez]. destruct H as (Hz & Hs & Hdz). rewrite <- Hs.
  destruct (round_aux (Zpos mz) ez loc_Exact) as (H1 & H2 & H3); cbn [Zdigits2]; rewrite ?Hdz; fold g; try lia.
  split; [done|]. split; [done|]. intros Hk He'. apply H3; [done|]. cbn [Zdigits2]. rewrite Hdz. fold g. unfold g, fexp64 in *. lia.
Qed.

(** ** Operations *)

Lemma of_int_exact n : 0 <= n < 2 ^ 53 -> ok (binary_normalize 53 1024 n 0 false) /\ val (binary_normalize 53 1024 n 0 false) = n * UNIT.
Proof.
  intros Hn. destruct n as [|p|p]; [done| |lia]. cbn [binary_normalize]. pose proof (digits_spec p) as [H1 H2].
  assert (Zpos (digits2_pos p) - 1 < 53) by (apply (Z.pow_lt_mono_r_iff 2); lia).
  destruct (round_pos p 0) as (A & _ & B); try lia. split; [done|]. by rewrite B by lia.
Qed.

Lemma ok_val_nonneg f : ok f -> 0 <= val f.
Proof. destruct f as [| | |[] m e]; try done. cbn. unfold scaled, fexp64. intros [H _]. pose proof (pow2_pos (e + K) ltac:(unfold K; lia)). nia. Qed.

Lemma ok_finite m e : ok (S754_finite false m e) ->
  -1074 <= e <= 971 /\ Zpos m < 2 ^ 53 /\ Zpos (digits2_pos m) <= 53 /\ (-1074 < e -> 2 ^ 52 <= Zpos m).
Proof.
  cbn. unfold fexp64. intros [H1 H2]. pose proof (digits_spec m) as [D1 D2]. set (k := Zpos (digits2_pos m)) in *. assert (k <= 53) by lia.
  split; [lia|]. split; [eapply Z.lt_le_trans; [exact D2|]; apply Z.pow_le_mono_r; lia|]. split; [done|]. intros. assert (k = 53) as Ek by lia. by rewrite Ek in D1.
Qed.

(** A sum that is far from overflow has few digits before the point. *)
Lemma small_digits p e : -2900 <= e -> scaled (Zpos p) e < 2 ^ (900 + K) -> Zpos (digits2_pos p) + e <= 1000.
Proof.
  intros He Hs. pose proof (digits_spec p) as [H1 _]. set (k := Zpos (digits2_pos p)) in *. assert (1 <= k) by (unfold k; lia).
  pose proof (pow2_pos (e + K) ltac:(unfold K; lia)). assert (2 ^ (k - 1 + (e + K)) < 2 ^ (900 + K)).
  { rewrite pow2_split by (unfold K; lia). unfold scaled in Hs. nia. }
  assert (k - 1 + (e + K) < 900 + K) by (apply (Z.pow_lt_mono_r_iff 2); unfold K in *; lia). lia.
Qed.

Lemma RU_refl x : 0 <= x -> RU x x.
Proof. intros. unfold RU, TINY. pose proof (pow2_pos (K - 1074 + 52) ltac:(unfold K; lia)). lia. Qed.

Lemma add_ru a b : ok a -> ok b -> val a + val b < 2 ^ (900 + K) -> ok (SFadd 53 1024 a b) /\ RU (val a + val b) (val (SFadd 53 1024 a b)).
Proof.
  intros Ha Hb Hs. pose proof (ok_val_nonneg a Ha) as Va. pose proof (ok_val_nonneg b Hb) as Vb.
  destruct a as [sa|sa| |[] ma ea]; try done; destruct b as [sb|sb| |[] mb eb]; try done; cbn [SFadd].
  - cbn in *. destruct sa, sb; split; try done; by apply RU_refl.
  - change (val (S754_zero sa)) with 0 in *. split; [done|]. by apply RU_refl.
  - change (val (S754_zero sb)) with 0 in *. rewrite Z.add_0_r. split; [done|]. by apply RU_refl.
  - apply ok_finite in Ha as (Ea & _), Hb as (Eb & _). cbn [cond_Zopp].
    pose proof (align ma ea (Z.min ea eb) ltac:(lia)) as Aa. pose proof (align mb eb (Z.min ea eb) ltac:(lia)) as Ab.
    destruct (shl_align ma ea _) as [xa ya], (shl_align mb eb _) as [xb yb]. destruct Aa as (-> & Sa & _), Ab as (-> & Sb & _). cbn [fst].
    replace (Z.min ea (Z.min ea eb)) with (Z.min ea eb) in Sa by lia. replace (Z.min eb (Z.min ea eb)) with (Z.min ea eb) in Sb by lia.
    cbn [val] in *. assert (Es : scaled (Zpos ma) ea + scaled (Zpos mb) eb = scaled (Zpos (xa + xb)) (Z.min ea eb)) by (rewrite <- Sa, <- Sb; unfold scaled; rewrite Pos2Z.inj_add; ring).
    rewrite Es in *. change (Zpos xa + Zpos xb) with (Zpos (xa + xb)). cbn [binary_normalize].
    destruct (round_pos (xa + xb) (Z.min ea eb)) as (H1 & H2 & _); [lia|apply small_digits; [lia|done]|]. done.
Qed.

Lemma sub_ru a b : ok a -> ok b -> val b <= val a -> val a < 2 ^ (900 + K) -> ok (SFsub 53 1024 a b) /\ RU (val a - val b) (val (SFsub 53 1024 a b)).
Proof.
  intros Ha Hb Hab Hs. pose proof (ok_val_nonneg a Ha) as Va. pose proof (ok_val_nonneg b Hb) as Vb.
  destruct a as [sa|sa| |[] ma ea]; try done; destruct b as [sb|sb| |[] mb eb]; try done; cbn [SFsub].
  - cbn in *. destruct sa, sb; split; try done; by apply RU_refl.
  - exfalso. apply ok_finite in Hb as (Eb & _). cbn [val] in *. unfold scaled in *. pose proof (pow2_pos (eb + K) ltac:(unfold K; lia)). nia.
  - change (val (S754_zero sb)) with 0 in *. rewrite Z.sub_0_r. split; [done|]. by apply RU_refl.
  - apply ok_finite in Ha as (Ea & _), Hb as (Eb & _). cbn [cond_Zopp].
    pose proof (align ma ea (Z.min ea eb) ltac:(lia)) as Aa. pose proof (align mb eb (Z.min ea eb) ltac:(lia)) as Ab.
    destruct (shl_align ma ea _) as [xa ya], (shl_align mb eb _) as [xb yb]. destruct Aa as (-> & Sa & _), Ab as (-> & Sb & _). cbn [fst].
    replace (Z.min ea (Z.min ea eb)) with (Z.min ea eb) in Sa by lia. replace (Z.min eb (Z.min ea eb)) with (Z.min ea eb) in Sb by lia.
    cbn [val] in *. assert (Es : scaled (Zpos ma) ea - scaled (Zpos mb) eb = scaled (Zpos xa - Zpos xb) (Z.min ea eb)) by (rewrite <- Sa, <- Sb; unfold scaled; ring).
    pose proof (pow2_pos (Z.min ea eb + K) ltac:(unfold K; lia)) as Hp. rewrite Es.
    assert (Hx : 0 <= Zpos xa - Zpos xb) by (unfold scaled in *; nia). destruct (Zpos xa - Zpos xb) as [|p|p] eqn:Ep; [|cbn [binary_normalize]|lia].
    + cbn. split; [done|]. apply RU_refl. done.
    + destruct (round_pos p (Z.min ea eb)) as (H1 & H2 & _); [lia|apply small_digits; lia|]. done.
Qed.

(** Products: [x] is the exact one. *)
Lemma mul_ru a b : ok a -> ok b -> val a * val b < 2 ^ (900 + K) * UNIT ->
  ok (SFmul 53 1024 a b) /\ exists x, 0 <= x /\ x * UNIT = val a * val b /\ RU x (val (SFmul 53 1024 a b)).
Proof.
  intros Ha Hb Hs.
  destruct a as [sa|sa| |[] ma ea]; try done; destruct b as [sb|sb| |[] mb eb]; try done; cbn [SFmul xorb].
  1-3: split; [done|]; exists 0; cbn [val]; split; [done|]; split; [lia|by apply RU_refl].
  apply ok_finite in Ha as (Ea & Ma & Da & La), Hb as (Eb & Mb & Db & Lb). cbn [val] in *.
  assert (Ex : scaled (Zpos ma * Zpos mb) (ea + eb) * UNIT = scaled (Zpos ma) ea * scaled (Zpos mb) eb).
  { unfold scaled, UNIT. replace (2 ^ (ea + K) ) with (2 ^ (ea + K)) by done. transitivity (Zpos ma * Zpos mb * (2 ^ (ea + eb + K) * 2 ^ K)); [ring|].
    rewrite <- pow2_split by (unfold K; lia). replace (ea + eb + K + K) with (ea + K + (eb + K)) by lia. rewrite (pow2_split (ea + K) (eb + K)) by (unfold K; lia). ring. }
  assert (Hu : 0 < UNIT) by (by apply pow2_pos). rewrite <- Ex in Hs. apply Z.mul_lt_mono_pos_r in Hs; [|done]. change (Zpos ma * Zpos mb) with (Zpos (ma * mb)) in *.
  assert (Hsd : Zpos (digits2_pos (ma * mb)) + (ea + eb) <= 1000) by (apply small_digits; [lia|done]).
  destruct (round_aux (Zpos (ma * mb)) (ea + eb) loc_Exact) as (H1 & H2 & _); [lia|lia| |done|].
  { cbn [Zdigits2]. unfold fexp64. destruct (decide (ea = -1074 /\ eb = -1074)); [lia|].
    pose proof (digits_spec (ma * mb)) as [_ D]. set (k := Zpos (digits2_pos (ma * mb))) in *.
    assert (2 ^ 52 <= Zpos (ma * mb)) by (rewrite Pos2Z.inj_mul; destruct (decide (ea = -1074)); [specialize (Lb ltac:(lia))|specialize (La ltac:(lia))]; nia).
    assert (52 < k) by (apply (Z.pow_lt_mono_r_iff 2); unfold k in *; lia). lia. }
  split; [done|]. exists (scaled (Zpos (ma * mb)) (ea + eb)). split; [|done].
  unfold scaled. pose proof (pow2_pos (ea + eb + K) ltac:(unfold K; lia)). nia.
Qed.

(** Quotients: [x] is the exact one, cut off. *)
Lemma div_ru m1 e1 m2 e2 : ok (S754_finite false m1 e1) -> ok (S754_finite false m2 e2) ->
  let D := Zpos (digits2_pos m1) + e1 - (Zpos (digits2_pos m2) + e2) in -1000 <= D <= 900 ->
  let r := SFdiv 53 1024 (S754_finite false m1 e1) (S754_finite false m2 e2) in
  ok r /\ exists x, 0 <= x /\ x * scaled (Zpos m2) e2 <= scaled (Zpos m1) e1 * UNIT /\ RU x (val r).
Proof.
  intros Ha Hb D HD. apply ok_finite in Ha as (Ea & Ma & Da & La), Hb as (Eb & Mb & Db & Lb). cbn [SFdiv xorb].
  unfold SFdiv_core_binary. cbn [Zdigits2]. rewrite fexp_eq. fold D.
  pose proof (digits_spec m1) as [P1 P2]. pose proof (digits_spec m2) as [Q1 Q2]. set (d1 := Zpos (digits2_pos m1)) in *. set (d2 := Zpos (digits2_pos m2)) in *.
  assert (Hd1 : 1 <= d1) by (unfold d1; lia). assert (Hd2 : 1 <= d2) by (unfold d2; lia). clearbody d1 d2.
  set (e' := Z.min (fexp64 D) (e1 - e2)). set (s := e1 - e2 - e'). assert (Hs : 0 <= s) by (unfold s, e'; lia).
  replace (match s with 0 => Zpos m1 | Zpos _ => Z.shiftl (Zpos m1) s | Zneg _ => 0 end) with (Zpos m1 * 2 ^ s) by (destruct s; [lia|by rewrite Z.shiftl_mul_pow2|lia]).
  rewrite (surjective_pairing (Z.div_eucl (Zpos m1 * 2 ^ s) (Zpos m2))). fold (Zpos m1 * 2 ^ s / Zpos m2).
  change (fst (Z.div_eucl (Zpos m1 * 2 ^ s) (Zpos m2))) with (Zpos m1 * 2 ^ s / Zpos m2). generalize (new_location (Zpos m2) (Z.div_eucl (Zpos m1 * 2 ^ s) (Zpos m2)).2). intros l.
  assert (Hw : 53 <= d1 + s - d2) by (unfold s, e', fexp64, D in *; lia).
  assert (Hlow : 2 ^ (d1 + s - d2 - 1) <= Zpos m1 * 2 ^ s / Zpos m2).
  { apply Z.div_le_lower_bound; [lia|]. apply Z.le_trans with (2 ^ d2 * 2 ^ (d1 + s - d2 - 1)).
    - apply Z.mul_le_mono_nonneg_r; [apply Z.lt_le_incl, pow2_pos; lia|lia].
    - rewrite <- pow2_split by lia. replace (d2 + (d1 + s - d2 - 1)) with (d1 - 1 + s) by lia. rewrite pow2_split by lia. apply Z.mul_le_mono_nonneg_r; [apply Z.lt_le_incl, pow2_pos; lia|done]. }
  assert (Hup : Zpos m1 * 2 ^ s / Zpos m2 < 2 ^ (d1 + s - d2 + 1)).
  { apply Z.div_lt_upper_bound; [lia|]. apply Z.lt_le_trans with (2 ^ (d1 + s)).
    - rewrite pow2_split by lia. apply Z.mul_lt_mono_pos_r; [by apply pow2_pos|done].
    - assert (E : 2 ^ (d1 + s) = 2 ^ (d2 - 1) * 2 ^ (d1 + s - d2 + 1)) by (rewrite <- pow2_split by lia; f_equal; lia). rewrite E. apply Z.mul_le_mono_nonneg_r; [apply Z.lt_le_incl, pow2_pos; lia|done]. }
  pose proof (Z.mul_div_le (Zpos m1 * 2 ^ s) (Zpos m2) ltac:(lia)) as Hq. destruct (Zpos m1 * 2 ^ s / Zpos m2) as [|q|q] eqn:Eq.
  1, 3: exfalso; pose proof (pow2_pos (d1 + s - d2 - 1) ltac:(lia)); lia.
  pose proof (digits_spec q) as [R1 R2]. set (dq := Zpos (digits2_pos q)) in *.
  assert (d1 + s - d2 - 1 < dq) by (apply (Z.pow_lt_mono_r_iff 2); unfold dq in *; lia). assert (dq - 1 < d1 + s - d2 + 1) by (apply (Z.pow_lt_mono_r_iff 2); unfold dq in *; lia).
  assert (He' : -2900 <= e') by (unfold e', fexp64; lia).
  assert (Hdq : D <= dq + e' <= D + 1) by (unfold s, D in *; lia). assert (He2 : e' <= fexp64 D) by (unfold e'; lia).
  assert (Hse : s = e1 - e2 - e') by done. clearbody s e' D.
  destruct (round_aux (Zpos q) e' l) as (H1 & H2 & _); [done|done| | |]; cbn [Zdigits2]; fold dq; [unfold fexp64 in *; lia|lia|].
  split; [done|]. exists (scaled (Zpos q) e'). split; [unfold scaled; pose proof (pow2_pos (e' + K) ltac:(unfold K; lia)); nia|]. split; [|done].
  unfold scaled, UNIT. transitivity (Zpos m2 * Zpos q * (2 ^ (e' + K) * 2 ^ (e2 + K))); [apply Z.eq_le_incl; ring|].
  transitivity (Zpos m1 * 2 ^ s * (2 ^ (e' + K) * 2 ^ (e2 + K))).
  - apply Z.mul_le_mono_nonneg_r; [|done]. rewrite <- pow2_split by (unfold K; lia). apply Z.lt_le_incl, pow2_pos. unfold K. lia.
  - apply Z.eq_le_incl. rewrite <- !Z.mul_assoc, <- !pow2_split by (unfold K; lia). do 2 f_equal. lia.
Qed.

Lemma scale_lt m1 e1 m2 e2 : 0 < m1 -> 0 < m2 -> 0 <= e1 + K -> e1 < e2 -> m1 < 2 * m2 -> scaled m1 e1 < scaled m2 e2.
Proof.
  intros. unfold scaled. replace (e2 + K) with (1 + (e2 - e1 - 1) + (e1 + K)) by lia. rewrite (pow2_split (1 + (e2 - e1 - 1)) (e1 + K)), (pow2_split 1 (e2 - e1 - 1)) by lia. change (2 ^ 1) with 2.
  pose proof (pow2_pos (e1 + K) ltac:(lia)). pose proof (pow2_pos (e2 - e1 - 1) ltac:(lia)).
  assert (m1 * 2 ^ (e1 + K) < 2 * m2 * 2 ^ (e1 + K)) by nia. assert (2 * m2 * 2 ^ (e1 + K) <= 2 * m2 * 2 ^ (e1 + K) * 2 ^ (e2 - e1 - 1)) by nia. lia.
Qed.

(** Comparison is that of the values. *)
Lemma compare_val a b : ok a -> ok b -> SFcompare a b = Some (val a ?= val b).
Proof.
  intros Ha Hb. destruct a as [sa|sa| |[] ma ea]; try done; destruct b as [sb|sb| |[] mb eb]; try done; cbn [SFcompare].
  - apply ok_finite in Hb as (Eb & _). f_equal. symmetry. apply Z.compare_lt_iff. cbn [val]. unfold scaled. pose proof (pow2_pos (eb + K) ltac:(unfold K; lia)). nia.
  - apply ok_finite in Ha as (Ea & _). f_equal. symmetry. apply Z.compare_gt_iff. cbn [val]. unfold scaled. pose proof (pow2_pos (ea + K) ltac:(unfold K; lia)). nia.
  - apply ok_finite in Ha as (Ea & Ma & _ & La), Hb as (Eb & Mb & _ & Lb). cbn [val]. f_equal. destruct (Z.compare_spec ea eb) as [->|Hl|Hg].
    + change (Pos.compare_cont Eq ma mb) with (Zpos ma ?= Zpos mb). pose proof (pow2_pos (eb + K) ltac:(unfold K; lia)). unfold scaled.
      apply Zmult_compare_compat_r. lia.
    + symmetry. apply Z.compare_lt_iff, scale_lt; unfold K; lia.
    + symmetry. apply Z.compare_gt_iff, scale_lt; unfold K; lia.
Qed.
End Float.
