(* ===== verification/Rate.v ===== *)
(** * Token buckets (rill-core/src/rate.rs)

    The buckets that limit floods, probes, answers and registrations count tokens in
    numbers of 64-bit floating point.  They are modelled in that arithmetic: [f64] is the
    Standard Library's specification of IEEE 754, with the precision and the range of the
    type.  Instants are nanoseconds. *)

From Stdlib Require Import SpecFloat.
From S2P Require Import Prelude Net Mesh Float.

Module Rate.
Import Net Mesh Float.

Definition f64 : Type := spec_float.

Definition add : f64 -> f64 -> f64 := SFadd 53 1024.
Definition sub : f64 -> f64 -> f64 := SFsub 53 1024.
Definition mul : f64 -> f64 -> f64 := SFmul 53 1024.
Definition div : f64 -> f64 -> f64 := SFdiv 53 1024.

(** [x as f64] of an unsigned integer. *)
Definition of_int (n : Z) : f64 := binary_normalize 53 1024 n 0 false.

(** [f64::min]: a number wins over a NaN. *)
Definition fmin (a b : f64) : f64 :=
  match SFcompare a b with
  | Some Gt => b
  | Some _ => a
  | None => match a with S754_nan => b | _ => a end
  end.

(** [a >= b] *)
Definition geb (a b : f64) : bool := SFleb b a.

(** [Instant::duration_since] saturates; [Duration::as_secs_f64] is the seconds plus the
    nanoseconds over 10^9. *)
Definition NANOS : Z := 10 ^ 9.

Definition as_secs_f64 (d : Z) : f64 := add (of_int (d / NANOS)) (div (of_int (d mod NANOS)) (of_int NANOS)).

Definition duration_since (now last : Z) : Z := Z.max 0 (now - last).

Record TokenBucket := mk_bucket {
  capacity : Z;
  rate_per_sec : f64;
  tokens : f64;
  last : Z
}.

Definition bucket_new (rate : f64) (capacity now : Z) : TokenBucket := mk_bucket capacity rate (of_int capacity) now.

Definition take_token (now : Z) (b : TokenBucket) : bool * TokenBucket :=
  let elapsed := as_secs_f64 (duration_since now (last b)) in
  let t := fmin (add (tokens b) (mul elapsed (rate_per_sec b))) (of_int (capacity b)) in
  if geb t (of_int 1) then (true, mk_bucket (capacity b) (rate_per_sec b) (sub t (of_int 1)) now)
  else (false, mk_bucket (capacity b) (rate_per_sec b) t now).

(** ** One bucket for each source *)

Record SourceRateLimiter := mk_limiter {
  buckets : gmap Net.IpAddr TokenBucket;
  lim_rate_per_sec : f64;
  lim_capacity : Z
}.

Definition limiter_new (rate : f64) (capacity : Z) : SourceRateLimiter := mk_limiter ∅ rate capacity.

Definition allow (now : Z) (src : Net.IpAddr) (l : SourceRateLimiter) : bool * SourceRateLimiter :=
  let b := default (bucket_new (lim_rate_per_sec l) (lim_capacity l) now) (buckets l !! src) in
  let '(ok, b) := take_token now b in
  (ok, mk_limiter (<[src := b]> (buckets l)) (lim_rate_per_sec l) (lim_capacity l)).

Definition prune (l : SourceRateLimiter) : SourceRateLimiter :=
  if decide (4096 < Z.of_nat (size (buckets l))) then mk_limiter ∅ (lim_rate_per_sec l) (lim_capacity l) else l.

(** The tests of the source. *)
Example burst_then_blocked : let b := bucket_new (of_int 10) 3 0 in
  let '(a, b) := take_token 0 b in let '(c, b) := take_token 0 b in let '(d, b) := take_token 0 b in let '(e, b) := take_token 0 b in
  let '(f, b) := take_token 100000000 b in [a; c; d; e; f] = [true; true; true; false; true].
Proof. by vm_compute. Qed.

(** ** One call in exact numbers *)

Definition Q52 : Z := 2 ^ 52.

Lemma unit_pos : 0 < UNIT.
Proof. by apply pow2_pos. Qed.

Lemma tiny_small : 0 < TINY /\ TINY * 2 ^ 200 <= UNIT.
Proof.
  unfold TINY, UNIT. split; [by apply pow2_pos|]. rewrite <- pow2_split by (unfold K; lia). apply Z.pow_le_mono_r; unfold K; lia.
Qed.

Lemma fmin_val a b : ok a -> ok b -> ok (fmin a b) /\ val (fmin a b) <= val a /\ val (fmin a b) <= val b.
Proof.
  intros Ha Hb. unfold fmin. rewrite compare_val by done. destruct (Z.compare_spec (val a) (val b)); split; (done || lia).
Qed.

Lemma one_val : ok (of_int 1) /\ val (of_int 1) = UNIT.
Proof. destruct (of_int_exact 1) as [H1 H2]; [lia|]. split; [done|]. unfold of_int. rewrite H2. lia. Qed.

Lemma geb_one t : ok t -> geb t (of_int 1) = bool_decide (UNIT <= val t).
Proof.
  intros Ht. destruct one_val as [H1 H2]. unfold geb, SFleb. rewrite compare_val, H2 by done.
  destruct (Z.compare_spec UNIT (val t)); symmetry; (apply bool_decide_eq_true_2 || apply bool_decide_eq_false_2); lia.
Qed.

(** Far from overflow. *)
Lemma below_overflow v : v <= 2 ^ 200 * UNIT -> v < 2 ^ (900 + K).
Proof.
  intros H. apply Z.le_lt_trans with (1 := H). unfold UNIT. rewrite <- pow2_split by (unfold K; lia). apply Z.pow_lt_mono_r; unfold K; lia.
Qed.

(** The nanoseconds over 10^9. *)
Lemma fraction_val n : 0 <= n < NANOS -> let f := div (of_int n) (of_int NANOS) in
  ok f /\ exists x, 0 <= x /\ x * NANOS <= n * UNIT /\ RU x (val f).
Proof.
  intros Hn. destruct (of_int_exact n) as [H1 H2]; [unfold NANOS in Hn; lia|]. unfold div. fold (of_int n) in H1, H2.
  destruct (of_int_exact NANOS) as [N1 N2]; [unfold NANOS; lia|]. fold (of_int NANOS) in N1, N2. pose proof unit_pos as Hu.
  assert (En : exists m e, of_int NANOS = S754_finite false m e /\ Zpos (digits2_pos m) + e = 30) by (eexists _, _; split; [vm_compute; reflexivity|done]).
  destruct En as (mn & en & En & Dn). rewrite En in *. destruct (of_int n) as [sg|sg| |[] m e] eqn:Ef; try contradiction H1.
  - cbn. split; [done|]. exists 0. split; [done|]. split; [nia|]. by apply RU_refl.
  - cbn [val] in H2, N2. pose proof (ok_finite _ _ H1) as (He & _). assert (Hd : 1 <= Zpos (digits2_pos m) + e <= 30).
    { pose proof (digits_spec m) as [D1 D2]. set (k := Zpos (digits2_pos m)) in *. assert (Hk : 1 <= k) by (unfold k; lia). unfold scaled, UNIT in H2.
      pose proof (pow2_pos (e + K) ltac:(unfold K; lia)) as Hp. pose proof (pow2_pos K ltac:(done)) as HK.
      assert (Hpos : 0 < n * 2 ^ K) by (rewrite <- H2; by apply Z.mul_pos_pos). assert (Hn1 : 1 <= n) by (apply Z.mul_pos_cancel_r in Hpos; lia). split.
      - assert (2 ^ K < 2 ^ (k + (e + K))).
        { rewrite (pow2_split k (e + K)) by (unfold K; lia). apply Z.le_lt_trans with (n * 2 ^ K); [pose proof (Z.mul_le_mono_nonneg_r 1 n (2 ^ K) ltac:(lia) Hn1); lia|]. rewrite <- H2. by apply Z.mul_lt_mono_pos_r. }
        assert (K < k + (e + K)) by (apply (Z.pow_lt_mono_r_iff 2); unfold K in *; lia). lia.
      - assert (2 ^ (k - 1 + (e + K)) < 2 ^ (30 + K)).
        { rewrite (pow2_split (k - 1) (e + K)), (pow2_split 30 K) by (unfold K; lia). apply Z.le_lt_trans with (n * 2 ^ K); [rewrite <- H2; by apply Z.mul_le_mono_pos_r|].
          apply Z.mul_lt_mono_pos_r; [done|]. unfold NANOS in Hn. lia. }
        assert (k - 1 + (e + K) < 30 + K) by (apply (Z.pow_lt_mono_r_iff 2); unfold K in *; lia). lia. }
    destruct (div_ru m e mn en H1 N1) as (A & x & X1 & X2 & X3); [lia|]. split; [done|]. exists x. split; [done|]. split; [|done].
    rewrite H2, N2, Z.mul_assoc in X2. by apply Z.mul_le_mono_pos_r in X2.
Qed.

(** The seconds that have passed, at most three roundings above. *)
Lemma elapsed_chain q U T s ns x A B : 0 < q -> 0 <= s -> 0 <= T -> 0 < U -> 0 <= x -> x * NANOS <= ns * U -> A * q <= x * (q + 1) + T -> B * q <= (s * U + A) * (q + 1) + T ->
  B * (q * q) * NANOS <= (s * NANOS + ns) * U * ((q + 1) * (q + 1)) + T * (2 * q + 1) * NANOS.
Proof.
  intros Hq Hs HT HU Hx H1 H2 H3. assert (HN : 0 < NANOS) by done. set (N := NANOS) in *. clearbody N.
  pose proof (Z.mul_le_mono_nonneg_r _ _ (q * N) ltac:(nia) H3) as M3. pose proof (Z.mul_le_mono_nonneg_r _ _ ((q + 1) * N) ltac:(nia) H2) as M2.
  pose proof (Z.mul_le_mono_nonneg_r _ _ ((q + 1) * (q + 1)) ltac:(nia) H1) as M1. assert (0 <= s * U * N * (q + 1)) by (repeat apply Z.mul_nonneg_nonneg; lia). nia.
Qed.

Lemma elapsed_val d : 0 <= d < 2 ^ 63 -> let f := as_secs_f64 d in
  ok f /\ val f * (Q52 * Q52) * NANOS <= d * UNIT * ((Q52 + 1) * (Q52 + 1)) + TINY * (2 * Q52 + 1) * NANOS.
Proof.
  intros Hd. assert (HN : 0 < NANOS) by done. pose proof (Z.div_mod d NANOS ltac:(lia)) as Ed. pose proof (Z.mod_pos_bound d NANOS HN) as Hm.
  assert (Hq : 0 <= d / NANOS < 2 ^ 34) by (split; [apply Z.div_pos; lia|apply Z.div_lt_upper_bound; unfold NANOS; lia]).
  destruct (fraction_val _ Hm) as (F1 & x & X0 & X1 & X2 & X3). destruct (of_int_exact (d / NANOS)) as [S1 S2]; [lia|]. fold (of_int (d / NANOS)) in S1, S2.
  pose proof unit_pos as HU. pose proof tiny_small as [HT HT2].
  assert (Hx : x <= UNIT) by (apply (Z.mul_le_mono_pos_r _ _ NANOS); [done|]; pose proof (Z.mul_le_mono_nonneg_r (d mod NANOS) NANOS UNIT ltac:(lia) ltac:(lia)); lia).
  set (A := val (div (of_int (d mod NANOS)) (of_int NANOS))) in *.
  assert (HA : A <= 3 * UNIT) by lia.
  destruct (add_ru _ _ S1 F1) as (E1 & E2 & E3).
  { fold A. rewrite S2. apply below_overflow. pose proof (Z.mul_le_mono_nonneg_r (d / NANOS) (2 ^ 34) UNIT ltac:(lia) ltac:(lia)). lia. }
  fold A in E3. rewrite S2 in E3. unfold as_secs_f64, add in *. split; [done|].
  pose proof (elapsed_chain Q52 UNIT TINY (d / NANOS) (d mod NANOS) x A _ ltac:(done) ltac:(lia) ltac:(lia) HU X0 X1 X3 E3) as H.
  replace (d / NANOS * NANOS + d mod NANOS) with d in H by lia. exact H.
Qed.

(** What is refilled. *)
Lemma refill_chain q U T N D R x B P : 0 < q -> 0 <= T -> 0 < U -> 0 < N -> 0 <= D -> 0 <= R <= 2 ^ 40 * U -> 0 <= B ->
  T * (2 ^ 40 * (q + 1) * (2 * q + 1) + q * q) <= U ->
  B * (q * q) * N <= D * U * ((q + 1) * (q + 1)) + T * (2 * q + 1) * N -> x * U = B * R -> P * q <= x * (q + 1) + T ->
  P * (q * q * q) * N <= D * R * ((q + 1) * (q + 1) * (q + 1)) + N * U.
Proof.
  intros Hq HT HU HN HD HR HB Hsmall H1 H2 H3. apply (Z.mul_le_mono_pos_r _ _ U); [done|].
  pose proof (Z.mul_le_mono_nonneg_r _ _ (q * q * N * U) ltac:(repeat apply Z.mul_nonneg_nonneg; lia) H3) as M3.
  pose proof (Z.mul_le_mono_nonneg_r _ _ (R * (q + 1)) ltac:(repeat apply Z.mul_nonneg_nonneg; lia) H1) as M1.
  pose proof (Z.mul_le_mono_nonneg_r _ _ ((q + 1) * (T * (2 * q + 1) * N)) ltac:(repeat apply Z.mul_nonneg_nonneg; lia) (proj2 HR)) as MR.
  pose proof (Z.mul_le_mono_nonneg_r _ _ (N * U) ltac:(repeat apply Z.mul_nonneg_nonneg; lia) Hsmall) as MS.
  assert (E : x * (q + 1) * (q * q * N * U) = B * (q * q) * N * (R * (q + 1))) by (transitivity (x * U * ((q + 1) * (q * q * N))); [ring|rewrite H2; ring]).
  lia.
Qed.

(** Rates of the program are far below 2^40 a second. *)
Definition rate_ok (r : f64) : Prop := ok r /\ val r <= 2 ^ 40 * UNIT.

Lemma refill_val d r : 0 <= d < 2 ^ 63 -> rate_ok r -> let p := mul (as_secs_f64 d) r in
  ok p /\ 0 <= val p <= 2 ^ 150 * UNIT /\ val p * (Q52 * Q52 * Q52) * NANOS <= d * val r * ((Q52 + 1) * (Q52 + 1) * (Q52 + 1)) + NANOS * UNIT.
Proof.
  intros Hd [Hr Hr2]. destruct (elapsed_val d Hd) as [E1 E2]. pose proof (ok_val_nonneg _ E1) as E0. pose proof (ok_val_nonneg _ Hr) as Hr0.
  pose proof unit_pos as HU. pose proof tiny_small as [HT HT2]. set (B := val (as_secs_f64 d)) in *.
  assert (HB : B <= 2 ^ 66 * UNIT).
  { pose proof (Z.mul_le_mono_nonneg_r d (2 ^ 63) UNIT ltac:(lia) ltac:(lia)). unfold Q52, NANOS in E2. lia. }
  assert (HBR : B * val r <= 2 ^ 66 * UNIT * (2 ^ 40 * UNIT)) by (apply Z.mul_le_mono_nonneg; lia).
  assert (Hs : B * val r < 2 ^ (900 + K) * UNIT).
  { apply Z.le_lt_trans with (2 ^ 200 * UNIT * UNIT); [assert (0 <= UNIT * UNIT) by (apply Z.mul_nonneg_nonneg; lia); lia|].
    apply Z.mul_lt_mono_pos_r; [done|]. apply below_overflow. lia. }
  destruct (mul_ru _ _ E1 Hr Hs) as (M1 & x & X0 & X1 & X2 & X3). fold B in X1. fold (mul (as_secs_f64 d) r) in M1, X2, X3. split; [done|].
  assert (Hx : x <= 2 ^ 106 * UNIT) by (apply (Z.mul_le_mono_pos_r _ _ UNIT); [done|]; lia). split; [split; [done|]; lia|].
  apply (refill_chain Q52 UNIT TINY NANOS d (val r) x B); try assumption; unfold Q52, NANOS; lia.
Qed.

(** A bucket with what it may hold. *)
Record bucket_ok (b : TokenBucket) : Prop := {
  bk_cap : 0 <= capacity b < 2 ^ 32;
  bk_rate : rate_ok (rate_per_sec b);
  bk_tokens : ok (tokens b);
  bk_full : val (tokens b) <= capacity b * UNIT;
  bk_last : 0 <= last b
}.

Lemma bucket_new_ok r c now : 0 <= c < 2 ^ 32 -> rate_ok r -> 0 <= now -> bucket_ok (bucket_new r c now) /\ val (tokens (bucket_new r c now)) = c * UNIT.
Proof.
  intros Hc Hr Hn. destruct (of_int_exact c) as [H1 H2]; [lia|]. fold (of_int c) in H1, H2. split; [|done]. split; cbn; try done. rewrite H2. lia.
Qed.

Definition granted (g : bool) : Z := if g then 1 else 0.

(** One call, in exact numbers: what is there after it and what was granted, against what
    was there before, what came in, and the roundings. *)
Lemma step_done C P t a f DR : 0 <= C * UNIT <= 2 ^ 32 * UNIT -> 0 <= t -> t <= C * UNIT -> 0 <= P ->
  P * (Q52 * Q52 * Q52) * NANOS <= DR * ((Q52 + 1) * (Q52 + 1) * (Q52 + 1)) + NANOS * UNIT ->
  a * 2 ^ 52 <= (t + P) * (2 ^ 52 + 1) + TINY -> f <= a -> f <= C * UNIT ->
  let bound := t * (Q52 * Q52 * Q52 * Q52) * NANOS + DR * ((Q52 + 1) * (Q52 + 1) * (Q52 + 1) * (Q52 + 1)) + 3 * (C + 1) * UNIT * (Q52 * Q52 * Q52) * NANOS in
  (0 * UNIT + f) * (Q52 * Q52 * Q52 * Q52) * NANOS <= bound /\
  (forall r, UNIT <= f -> r * 2 ^ 52 <= (f - UNIT) * (2 ^ 52 + 1) + TINY -> (1 * UNIT + r) * (Q52 * Q52 * Q52 * Q52) * NANOS <= bound).
Proof.
  intros HC Ht Hf HP H1 H2 Hfa HfC bound. pose proof unit_pos as HU. pose proof tiny_small as [HT HT2].
  assert (Hgen : forall y, y * 2 ^ 52 <= a * 2 ^ 52 + C * UNIT + TINY -> y * (Q52 * Q52 * Q52 * Q52) * NANOS <= bound).
  { intros y Hy. unfold bound. unfold Q52, NANOS in *. lia. }
  split.
  - apply Hgen. lia.
  - intros r Hr H3. apply Hgen. lia.
Qed.

Lemma take_step b now : bucket_ok b -> last b <= now < 2 ^ 63 -> let '(g, b') := take_token now b in
  bucket_ok b' /\ capacity b' = capacity b /\ rate_per_sec b' = rate_per_sec b /\ last b' = now /\
  (granted g * UNIT + val (tokens b')) * Q52 <= capacity b * UNIT * Q52 + (capacity b + 1) * UNIT /\
  (granted g * UNIT + val (tokens b')) * (Q52 * Q52 * Q52 * Q52) * NANOS <=
    val (tokens b) * (Q52 * Q52 * Q52 * Q52) * NANOS
    + (now - last b) * val (rate_per_sec b) * ((Q52 + 1) * (Q52 + 1) * (Q52 + 1) * (Q52 + 1))
    + 3 * (capacity b + 1) * UNIT * (Q52 * Q52 * Q52) * NANOS.
Proof.
  intros [Hc Hr Ht Hf Hl] Hn. unfold take_token, duration_since. rewrite Z.max_r by lia. pose proof unit_pos as HU. pose proof tiny_small as [HT HT2].
  destruct (refill_val (now - last b) (rate_per_sec b)) as (P1 & [P0 P2] & P3); [lia|done|]. set (p := mul _ _) in *.
  set (C := capacity b) in *. assert (HC : 0 <= C * UNIT <= 2 ^ 32 * UNIT) by (split; [apply Z.mul_nonneg_nonneg; lia|apply Z.mul_le_mono_nonneg_r; lia]).
  pose proof (ok_val_nonneg _ Ht) as Ht0.
  destruct (add_ru _ _ Ht P1) as (A1 & A2 & A3); [apply below_overflow; lia|]. fold (add (tokens b) p) in A1, A2, A3.
  destruct (of_int_exact C) as [C1 C2]; [lia|]. fold (of_int C) in C1, C2. destruct (fmin_val _ _ A1 C1) as (F1 & F2 & F3). rewrite C2 in F3. set (t := fmin _ _) in *.
  destruct (step_done C (val p) (val (tokens b)) (val (add (tokens b) p)) (val t) ((now - last b) * val (rate_per_sec b)) HC Ht0 Hf P0 P3 A3 F2 F3) as [G0 G1].
  rewrite geb_one by done. case_bool_decide as Hg.
  - destruct one_val as [O1 O2]. destruct (sub_ru t (of_int 1) F1 O1) as (S1 & S2 & S3); [by rewrite O2|apply below_overflow; lia|]. rewrite O2 in S3. fold (sub t (of_int 1)) in *.
    split; [|do 3 (split; [done|]); split; [cbn [granted tokens]; fold C; unfold Q52 in *; lia|by apply G1]]. split; cbn [capacity rate_per_sec tokens last]; [exact Hc|exact Hr|exact S1| |lia]. fold C. unfold Q52 in *. lia.
  - split; [|do 3 (split; [done|]); split; [cbn [granted tokens]; fold C; unfold Q52 in *; lia|cbn [granted tokens]; by apply G0]]. split; cbn [capacity rate_per_sec tokens last]; [exact Hc|exact Hr|exact F1|exact F3|lia].
Qed.

(** ** Any number of calls *)

Fixpoint takes (nows : list Z) (b : TokenBucket) : Z * TokenBucket :=
  match nows with
  | [] => (0, b)
  | now :: nows =>
      let '(g, b) := take_token now b in
      let '(n, b) := takes nows b in
      (granted g + n, b)
  end.

(** Instants that do not run backwards and are below 2^63 nanoseconds. *)
Fixpoint instants_from (t : Z) (nows : list Z) : Prop :=
  match nows with [] => True | now :: nows => t <= now < 2 ^ 63 /\ instants_from now nows end.

Definition last_instant (t : Z) (nows : list Z) : Z := foldl (fun _ x => x) t nows.

Lemma takes_bound nows b : bucket_ok b -> instants_from (last b) nows -> let '(n, b') := takes nows b in
  0 <= n /\ bucket_ok b' /\ last b <= last b' /\ last b' = last_instant (last b) nows /\
  (n * UNIT + val (tokens b')) * (Q52 * Q52 * Q52 * Q52) * NANOS <=
    val (tokens b) * (Q52 * Q52 * Q52 * Q52) * NANOS
    + (last b' - last b) * val (rate_per_sec b) * ((Q52 + 1) * (Q52 + 1) * (Q52 + 1) * (Q52 + 1))
    + Z.of_nat (length nows) * (3 * (capacity b + 1) * UNIT * (Q52 * Q52 * Q52) * NANOS).
Proof.
  revert b. induction nows as [|now nows IH]; intros b Hb Hi; cbn [takes].
  { split; [lia|]. split; [done|]. split; [lia|]. split; [done|]. cbn [length]. lia. }
  cbn [instants_from] in Hi. destruct Hi as [Hn Hi]. pose proof (take_step b now Hb Hn) as Hs. destruct (take_token now b) as [g b1].
  destruct Hs as (Hb1 & Ec & Er & El & _ & Hstep). rewrite <- El in Hi. specialize (IH b1 Hb1 Hi). destruct (takes nows b1) as [n b2].
  destruct IH as (Hn0 & Hb2 & Hl & Hlast & H). rewrite Ec, Er in H. split; [destruct g; cbn; lia|]. split; [done|]. split; [lia|].
  split; [by rewrite Hlast, El|]. cbn [length]. rewrite Nat2Z.inj_succ.
  set (R := val (rate_per_sec b)) in *. set (q3 := Q52 * Q52 * Q52) in *. set (q4 := Q52 * Q52 * Q52 * Q52) in *. set (w := (Q52 + 1) * (Q52 + 1) * (Q52 + 1) * (Q52 + 1)) in *.
  rewrite El in *. clearbody q3 q4 w R. lia.
Qed.

(** Any stretch of calls at a bucket, the first of them at [t]: the tokens it gave out. *)
Lemma bucket_bounded b t ts : bucket_ok b -> instants_from (last b) (t :: ts) ->
  let time := last_instant t ts - t in
  time * val (rate_per_sec b) <= 2 ^ 40 * NANOS * UNIT -> Z.of_nat (length (t :: ts)) * (capacity b + 1) <= 2 ^ 48 ->
  (takes (t :: ts) b).1 * NANOS * UNIT < (capacity b + 1) * NANOS * UNIT + time * val (rate_per_sec b).
Proof.
  intros Hb [Hn Hi] time HT Hl. cbn [takes]. pose proof (take_step b t Hb Hn) as Hs. destruct (take_token t b) as [g b1].
  destruct Hs as (Hb1 & Ec & Er & El & Hfull & _). rewrite <- El in Hi. pose proof (takes_bound ts b1 Hb1 Hi) as H.
  destruct (takes ts b1) as [n b2]. destruct H as (Hn0 & Hb2 & Hl2 & E2 & H). rewrite Ec, Er, E2 in H. rewrite E2 in Hl2. rewrite El in H, Hl2. fold time in H. cbn [fst].
  pose proof (ok_val_nonneg _ (bk_tokens _ Hb2)) as V2. pose proof (ok_val_nonneg _ (proj1 (bk_rate _ Hb))) as HR0. pose proof (bk_cap _ Hb) as Hc. pose proof unit_pos as HU.
  set (TR := time * val (rate_per_sec b)) in *. assert (HTR : 0 <= TR) by (apply Z.mul_nonneg_nonneg; lia).
  cbn [length] in Hl. rewrite Nat2Z.inj_succ in Hl.
  pose proof (Z.mul_le_mono_nonneg_r _ _ (3 * UNIT * (Q52 * Q52 * Q52) * NANOS) ltac:(unfold Q52, NANOS; lia) Hl) as HE.
  clear Hb Hb1 Hb2 Hn Hi. set (C := capacity b) in *. unfold Q52, NANOS in *. lia.
Qed.

(** ** A limiter *)

Fixpoint allows (calls : list (Z * Net.IpAddr)) (l : SourceRateLimiter) : list (Net.IpAddr * bool) * SourceRateLimiter :=
  match calls with
  | [] => ([], l)
  | (now, src) :: calls =>
      let '(g, l) := allow now src l in
      let '(rs, l) := allows calls l in
      ((src, g) :: rs, l)
  end.

Definition answered (s : Net.IpAddr) (rs : list (Net.IpAddr * bool)) : Z := Z.of_nat (length (filter (fun r => r = (s, true)) rs)).

Definition instants_of (s : Net.IpAddr) (calls : list (Z * Net.IpAddr)) : list Z := (filter (fun c => c.2 = s) calls).*1.

(** What a source is granted depends on its own calls alone. *)
Lemma allows_own calls l s :
  answered s (allows calls l).1 =
    match instants_of s calls with
    | [] => 0
    | t :: _ => (takes (instants_of s calls) (default (bucket_new (lim_rate_per_sec l) (lim_capacity l) t) (buckets l !! s))).1
    end.
Proof.
  revert l. induction calls as [|[now src] calls IH]; intros l; [done|]. cbn [allows]. unfold allow.
  destruct (take_token now (default _ (buckets l !! src))) as [g b] eqn:Et. set (l' := mk_limiter _ _ _). specialize (IH l').
  destruct (allows calls l') as [rs l2]. unfold l' in IH. cbn [buckets lim_rate_per_sec lim_capacity] in IH. clear l'. cbn [fst] in *. unfold instants_of in *. unfold answered in *. destruct (decide (src = s)) as [->|Hne].
  - rewrite (filter_cons_True _ (now, s)) by done. rewrite fmap_cons. cbn [takes fst]. rewrite Et. rewrite lookup_insert_eq in IH. cbn [default] in IH.
    assert (E : (takes ((filter (fun c => c.2 = s) calls).*1) b).1 = Z.of_nat (length (filter (fun r => r = (s, true)) rs))) by (rewrite IH; by destruct ((filter (fun c => c.2 = s) calls).*1)).
    destruct (takes _ b) as [n b']. cbn [fst] in *. destruct g; cbn [granted]; [rewrite filter_cons_True by done|rewrite filter_cons_False by done]; cbn [length]; lia.
  - rewrite (filter_cons_False _ (now, src)) by done. rewrite filter_cons_False by congruence. rewrite IH. by rewrite lookup_insert_ne by done.
Qed.

Lemma last_instant_le t nows : instants_from t nows -> t <= last_instant t nows.
Proof.
  unfold last_instant. revert t. induction nows as [|x nows IH]; intros t; cbn [instants_from foldl]; [lia|]. intros [Hx Hi]. specialize (IH x Hi). lia.
Qed.

(** The instants of one source are some of the instants. *)
Lemma instants_own calls s t : instants_from t calls.*1 -> instants_from t (instants_of s calls).
Proof.
  revert t. induction calls as [|[now src] calls IH]; intros t; [done|]. unfold instants_of in *. cbn [fmap list_fmap fst instants_from]. intros [Hn Hi].
  destruct (decide (src = s)) as [->|Hne].
  - rewrite filter_cons_True by done. cbn. split; [lia|]. by apply IH.
  - rewrite filter_cons_False by done. apply IH. destruct calls as [|[x y] calls]; [done|]. cbn in *. split; [lia|apply Hi].
Qed.

(** The buckets of a limiter at some instant. *)
Definition limiter_ok (rate : f64) (c now : Z) (l : SourceRateLimiter) : Prop :=
  lim_rate_per_sec l = rate /\ lim_capacity l = c /\
  map_Forall (fun _ b => bucket_ok b /\ capacity b = c /\ rate_per_sec b = rate /\ last b <= now) (buckets l).

(** The bucket a call at [now] finds. *)
Lemma found_ok rate c t now l s : limiter_ok rate c t l -> 0 <= c < 2 ^ 32 -> rate_ok rate -> 0 <= t <= now ->
  let b := default (bucket_new (lim_rate_per_sec l) (lim_capacity l) now) (buckets l !! s) in
  bucket_ok b /\ capacity b = c /\ rate_per_sec b = rate /\ last b <= now.
Proof.
  intros (Er & Ec & Hm) Hc Hr Ht. destruct (buckets l !! s) as [b|] eqn:E; simpl.
  - destruct (Hm _ _ E) as (H1 & H2 & H3 & H4). repeat (split; [done|]). lia.
  - rewrite Er, Ec. destruct (bucket_new_ok rate c now) as [H _]; [done|done|lia|]. repeat (split; [done|]). cbn. lia.
Qed.

Lemma allow_ok rate c t now src l : 0 <= c < 2 ^ 32 -> rate_ok rate -> 0 <= t <= now -> now < 2 ^ 63 -> limiter_ok rate c t l -> limiter_ok rate c now (allow now src l).2.
Proof.
  intros Hc Hr Ht Hn Hl. unfold allow. destruct (found_ok rate c t now l src Hl Hc Hr Ht) as (B1 & B2 & B3 & B4). cbv zeta in *.
  pose proof (take_step _ now B1 ltac:(lia)) as Hs. destruct (take_token now _) as [g b]. destruct Hs as (S1 & S2 & S3 & S4 & _). cbn [snd].
  destruct Hl as (Er & Ec & Hm). split; [done|]. split; [done|]. cbn [buckets]. apply map_Forall_insert_2.
  - split; [done|]. split; [congruence|]. split; [congruence|lia].
  - intros k x Hx. destruct (Hm _ _ Hx) as (H1 & H2 & H3 & H4). repeat (split; [done|]). lia.
Qed.

(** *** Calls and clean-ups

    The program calls [allow] for each packet and [prune] now and then. *)
Inductive LimiterOp := OpAllow (now : Z) (src : Net.IpAddr) | OpPrune.

(** The answers, how often a clean-up cleared the table, and the limiter after. *)
Fixpoint works (ops : list LimiterOp) (l : SourceRateLimiter) : list (Net.IpAddr * bool) * Z * SourceRateLimiter :=
  match ops with
  | [] => ([], 0, l)
  | OpAllow now src :: ops =>
      let '(g, l) := allow now src l in
      let '(rs, k, l) := works ops l in ((src, g) :: rs, k, l)
  | OpPrune :: ops =>
      let cleared := bool_decide (4096 < Z.of_nat (size (buckets l))) in
      let '(rs, k, l) := works ops (prune l) in (rs, (if cleared then k + 1 else k), l)
  end.

Definition calls_of (ops : list LimiterOp) : list (Z * Net.IpAddr) :=
  omap (fun o => match o with OpAllow now src => Some (now, src) | OpPrune => None end) ops.

(** The time from the first to the last of some instants. *)
Definition span (ts : list Z) : Z := match ts with [] => 0 | t :: ts => last_instant t ts - t end.

Lemma last_instant_app t a b : last_instant t (a ++ b) = last_instant (last_instant t a) b.
Proof. unfold last_instant. apply foldl_app. Qed.

Lemma instants_app t a b : instants_from t (a ++ b) <-> instants_from t a /\ instants_from (last_instant t a) b.
Proof.
  revert t. induction a as [|x a IH]; intros t; cbn; [tauto|]. rewrite IH. unfold last_instant. cbn. tauto.
Qed.

Lemma span_app t a b : instants_from t (a ++ b) -> 0 <= span a /\ 0 <= span b /\ span a + span b <= span (a ++ b).
Proof.
  intros [Ha Hb]%instants_app. destruct a as [|x a]; cbn [app span].
  - destruct b as [|y b]; cbn [span]; [lia|]. pose proof (last_instant_le y b ltac:(apply Hb)). lia.
  - cbn in Ha, Hb. destruct Ha as [_ Ha]. pose proof (last_instant_le x a Ha). rewrite last_instant_app.
    destruct b as [|y b]; cbn [span]; [unfold last_instant at 3; cbn; lia|]. cbn in Hb. destruct Hb as [Hy Hb].
    pose proof (last_instant_le y b Hb). unfold last_instant in *. cbn [foldl] in *. lia.
Qed.

Lemma instants_of_app s a b : instants_of s (a ++ b) = instants_of s a ++ instants_of s b.
Proof. unfold instants_of. by rewrite list.filter_app, fmap_app. Qed.

Lemma answered_app s a b : answered s (a ++ b) = answered s a + answered s b.
Proof. unfold answered. rewrite list.filter_app, length_app. lia. Qed.

Lemma limiter_new_ok rate c t : limiter_ok rate c t (limiter_new rate c).
Proof. split; [done|]. split; [done|]. apply map_Forall_empty. Qed.

Lemma works_ok rate c ops : 0 <= c < 2 ^ 32 -> rate_ok rate -> forall t l, 0 <= t -> limiter_ok rate c t l -> instants_from t (calls_of ops).*1 ->
  limiter_ok rate c (last_instant t (calls_of ops).*1) (works ops l).2.
Proof.
  intros Hc Hr. induction ops as [|[now src|] ops IH]; intros t l Ht Hl Hi; [done|..]; cbn [works].
  - change (calls_of (OpAllow now src :: ops)) with ((now, src) :: calls_of ops) in *. cbn [fmap list_fmap fst instants_from] in Hi. destruct Hi as [Hn Hi].
    pose proof (allow_ok rate c t now src l Hc Hr ltac:(lia) ltac:(lia) Hl) as Ha. destruct (allow now src l) as [g l1]. cbn [snd] in Ha.
    specialize (IH now l1 ltac:(lia) Ha Hi). by destruct (works ops l1) as [[rs k] l2].
  - change (calls_of (OpPrune :: ops)) with (calls_of ops) in *. assert (Hp : limiter_ok rate c t (prune l)).
    { unfold prune. case_decide; [|done]. destruct Hl as (-> & -> & _). apply limiter_new_ok. }
    specialize (IH t (prune l) Ht Hp Hi). by destruct (works ops (prune l)) as [[rs k] l2].
Qed.

(** Up to the first clean-up that clears, a limiter answers as without clean-ups. *)
Lemma works_split rate c ops : forall l, lim_rate_per_sec l = rate -> lim_capacity l = c ->
  (works ops l).1.1 = (allows (calls_of ops) l).1 /\ (works ops l).1.2 = 0 \/
  exists ops1 ops2, calls_of ops = calls_of ops1 ++ calls_of ops2 /\ (length ops2 < length ops)%nat /\
    (works ops l).1.1 = (allows (calls_of ops1) l).1 ++ (works ops2 (limiter_new rate c)).1.1 /\
    (works ops l).1.2 = (works ops2 (limiter_new rate c)).1.2 + 1.
Proof.
  induction ops as [|[now src|] ops IH]; intros l Hr Hc; [by left|..].
  - cbn [works]. change (calls_of (OpAllow now src :: ops)) with ((now, src) :: calls_of ops). cbn [allows].
    destruct (allow now src l) as [g l1] eqn:Ea.
    assert (E1 : lim_rate_per_sec l1 = rate /\ lim_capacity l1 = c).
    { unfold allow in Ea. destruct (take_token _ _) as [g' b]. injection Ea as _ <-. done. }
    specialize (IH l1 (proj1 E1) (proj2 E1)). destruct (works ops l1) as [[rs k] l2], (allows (calls_of ops) l1) as [rs' l3] eqn:Ew. cbn [fst snd] in *.
    destruct IH as [[-> ->]|(o1 & o2 & Eo & Hl & -> & ->)]; [by left|right].
    exists (OpAllow now src :: o1), o2. change (calls_of (OpAllow now src :: o1)) with ((now, src) :: calls_of o1). rewrite Eo.
    split; [done|]. split; [cbn; lia|]. cbn [allows]. rewrite Ea. by destruct (allows (calls_of o1) l1).
  - cbn [works]. change (calls_of (OpPrune :: ops)) with (calls_of ops). unfold prune. case_bool_decide as Hs.
    + rewrite decide_True by done. right. exists [], ops. rewrite Hr, Hc. change (mk_limiter ∅ rate c) with (limiter_new rate c).
      destruct (works ops (limiter_new rate c)) as [[rs k] l2]. split; [done|]. split; [cbn; lia|]. done.
    + rewrite decide_False by done. specialize (IH l Hr Hc). destruct (works ops l) as [[rs k] l2]. cbn [fst snd] in *.
      destruct IH as [?|(o1 & o2 & Eo & Hl & H)]; [by left|right]. exists o1, o2. split; [done|]. split; [cbn; lia|done].
Qed.

(** A stretch without clean-ups. *)
Lemma allows_bounded rate c t0 calls l s : 0 <= c < 2 ^ 32 -> rate_ok rate -> 0 <= t0 -> limiter_ok rate c t0 l ->
  instants_from t0 calls.*1 -> Z.of_nat (length calls) * (c + 1) <= 2 ^ 48 -> span (instants_of s calls) * val rate <= 2 ^ 40 * NANOS * UNIT ->
  answered s (allows calls l).1 * NANOS * UNIT < (c + 1) * NANOS * UNIT + span (instants_of s calls) * val rate.
Proof.
  intros Hc Hr Ht0 Hok Hi Hn HT. rewrite allows_own. pose proof (instants_own calls s _ Hi) as Hs.
  assert (Hl : (length (instants_of s calls) <= length calls)%nat) by (unfold instants_of; rewrite length_fmap; apply length_filter).
  destruct (instants_of s calls) as [|t ts] eqn:E; [cbn [span]; pose proof unit_pos; unfold NANOS; lia|].
  cbn [instants_from] in Hs. destruct Hs as [Ht Hts]. cbn [span] in *.
  destruct (found_ok rate c t0 t l s Hok Hc Hr ltac:(lia)) as (B1 & B2 & B3 & B4). cbv zeta in *. set (b := default _ _) in *.
  rewrite <- B2, <- B3 in *. apply bucket_bounded; [done|split; [lia|done]|done|].
  apply Z.le_trans with (2 := Hn). apply Z.mul_le_mono_nonneg_r; lia.
Qed.

Lemma works_bounded rate c s : 0 <= c < 2 ^ 32 -> rate_ok rate -> forall n ops l t0, (length ops < n)%nat -> 0 <= t0 -> limiter_ok rate c t0 l ->
  instants_from t0 (calls_of ops).*1 -> Z.of_nat (length (calls_of ops)) * (c + 1) <= 2 ^ 48 ->
  span (instants_of s (calls_of ops)) * val rate <= 2 ^ 40 * NANOS * UNIT ->
  answered s (works ops l).1.1 * NANOS * UNIT < ((works ops l).1.2 + 1) * ((c + 1) * NANOS * UNIT) + span (instants_of s (calls_of ops)) * val rate.
Proof.
  intros Hc Hr. pose proof (ok_val_nonneg _ (proj1 Hr)) as HR.
  induction n as [|n IH]; intros ops l t0 Hlen Ht0 Hok Hi Hn HT; [lia|].
  destruct (works_split rate c ops l) as [[-> ->]|(o1 & o2 & Eo & Hl & -> & ->)]; [apply Hok..| |].
  - pose proof (allows_bounded rate c t0 (calls_of ops) l s Hc Hr Ht0 Hok Hi Hn HT). lia.
  - rewrite Eo in *. rewrite fmap_app in Hi. apply instants_app in Hi as [Hi1 Hi2]. rewrite length_app in Hn. rewrite instants_of_app in *.
    assert (Hsp : instants_from t0 (instants_of s (calls_of o1) ++ instants_of s (calls_of o2))).
    { rewrite <- instants_of_app. apply instants_own. rewrite fmap_app. by apply instants_app. }
    apply span_app in Hsp as (S1 & S2 & S3). set (x := span (instants_of s (calls_of o1))) in *. set (y := span (instants_of s (calls_of o2))) in *.
    set (z := span (_ ++ _)) in *. pose proof (Z.mul_le_mono_nonneg_r _ _ _ HR S3) as S4. pose proof (Z.mul_nonneg_nonneg _ _ S1 HR) as P1. pose proof (Z.mul_nonneg_nonneg _ _ S2 HR) as P2.
    pose proof (allows_bounded rate c t0 (calls_of o1) l s Hc Hr Ht0 Hok Hi1 ltac:(nia) ltac:(fold x; lia)) as B1.
    pose proof (IH o2 (limiter_new rate c) (last_instant t0 (calls_of o1).*1) ltac:(lia) ltac:(pose proof (last_instant_le _ _ Hi1); lia) (limiter_new_ok _ _ _) Hi2 ltac:(nia) ltac:(fold y; lia)) as B2.
    fold x in B1. fold y in B2. rewrite answered_app. set (M := (c + 1) * NANOS * UNIT) in *. clearbody M x y z. lia.
Qed.

(** C35: a limiter answers a source no more often than it promises.  Whatever sources have
    called before and call in a stretch of calls and clean-ups, in whatever order and however
    often: in the stretch one source is answered less than its capacity plus one, once more for
    each clean-up that cleared the table because it held more than 4096 sources, plus the rate
    times the time from its first call to its last, the roundings of the floating-point
    arithmetic included.  The instants are below 2^63 nanoseconds and do not run backwards; in
    the stretch the rate gives at most 2^40 tokens, and the number of calls times the capacity
    plus one is at most 2^48. *)
Theorem limiter_bounded (rate : f64) (c : Z) (before ops : list LimiterOp) (s : Net.IpAddr) (Hc : 0 <= c < 2 ^ 32) (Hr : rate_ok rate)
    (Hi : instants_from 0 (calls_of (before ++ ops)).*1) (Hn : Z.of_nat (length (calls_of ops)) * (c + 1) <= 2 ^ 48)
    (HT : span (instants_of s (calls_of ops)) * val rate <= 2 ^ 40 * NANOS * UNIT) :
  let l := (works before (limiter_new rate c)).2 in
  let '(answers, clears, _) := works ops l in
  answered s answers * NANOS * UNIT < (clears + 1) * (c + 1) * NANOS * UNIT + span (instants_of s (calls_of ops)) * val rate.
Proof.
  intros l. unfold calls_of in Hi. rewrite omap_app, fmap_app in Hi. apply instants_app in Hi as [Hi1 Hi2]. fold (calls_of before) in Hi1, Hi2. fold (calls_of ops) in Hi2.
  assert (Hok : limiter_ok rate c (last_instant 0 (calls_of before).*1) l) by exact (works_ok rate c before Hc Hr 0 _ ltac:(lia) (limiter_new_ok rate c 0) Hi1).
  pose proof (works_bounded rate c s Hc Hr (S (length ops)) ops l _ ltac:(lia) (last_instant_le _ _ Hi1) Hok Hi2 Hn HT) as H.
  destruct (works ops l) as [[rs k] l2]. cbn [fst snd] in *. lia.
Qed.

(** The limiters of the program have rates within the theorem. *)
Example rates_ok : Forall rate_ok [of_int 20; div (of_int 1) (of_int 2); of_int 16; of_int 10; of_int 5].
Proof. repeat constructor; try by vm_compute. Qed.

(** Once the calls of more than 4096 sources have been seen, the next clean-up forgets all
    of them: a source that was held back has a full bucket again. *)
Lemma prune_refills l now s : 4096 < Z.of_nat (size (buckets l)) -> 1 <= lim_capacity l < 2 ^ 32 -> rate_ok (lim_rate_per_sec l) -> 0 <= now < 2 ^ 63 ->
  (allow now s (prune l)).1 = true.
Proof.
  intros Hs Hc Hr Hn. unfold prune. rewrite decide_True by done. unfold allow. cbn [buckets lim_rate_per_sec lim_capacity]. rewrite lookup_empty. cbn [default].
  unfold take_token, duration_since. cbn [bucket_new last tokens rate_per_sec capacity]. replace (Z.max 0 (now - now)) with 0 by lia.
  destruct (of_int_exact (lim_capacity l)) as [C1 C2]; [lia|]. fold (of_int (lim_capacity l)) in C1, C2. set (c := of_int (lim_capacity l)) in *.
  change (as_secs_f64 0) with (S754_zero false). destruct Hr as [Hr _].
  assert (Em : exists sg, mul (S754_zero false) (lim_rate_per_sec l) = S754_zero sg) by (destruct (lim_rate_per_sec l) as [| | |[] m e]; try done; by eexists).
  destruct Em as [sg ->]. pose proof unit_pos as HU. assert (Hge : UNIT <= val c) by (rewrite C2; pose proof (Z.mul_le_mono_nonneg_r 1 (lim_capacity l) UNIT ltac:(lia) ltac:(lia)); lia).
  assert (Ea : add c (S754_zero sg) = c) by (destruct c as [| | |[] m e]; try done; cbn [val] in Hge; lia).
  rewrite Ea. assert (Ef : fmin c c = c) by (unfold fmin; by rewrite compare_val, Z.compare_refl by done). rewrite Ef, geb_one by done. by rewrite bool_decide_true.
Qed.

Lemma limiter_bounded_witness :
  let l := (works [OpAllow 0 (V4 [1; 2; 3; 4]); OpPrune; OpAllow 5 (V4 [9; 9; 9; 9])] (limiter_new (of_int 10) 1)).2 in
  let '(answers, clears, _) := works [OpAllow 10 (V4 [1; 2; 3; 4]); OpPrune; OpAllow 20 (V4 [1; 2; 3; 4])] l in
  answered (V4 [1; 2; 3; 4]) answers * NANOS * UNIT < (clears + 1) * (1 + 1) * NANOS * UNIT + 10 * val (of_int 10).
Proof.
  apply (limiter_bounded (of_int 10) 1 [OpAllow 0 (V4 [1; 2; 3; 4]); OpPrune; OpAllow 5 (V4 [9; 9; 9; 9])]
    [OpAllow 10 (V4 [1; 2; 3; 4]); OpPrune; OpAllow 20 (V4 [1; 2; 3; 4])] (V4 [1; 2; 3; 4])).
  - lia.
  - split; by vm_compute.
  - cbn. lia.
  - cbn. lia.
  - by vm_compute.
Defined.
End Rate.
