(* ===== verification/Codec.v ===== *)
(** * Envelopes of the control channel (rill-mesh/src/control/codec)

    A message goes in an envelope with its type, the envelope in a frame.  The protobuf
    encoding of both is generated code: a class with its law. *)

From S2P Require Import Prelude Framing.

Module Codec.
Import Framing.

(** The generated encoder and decoder of an envelope; a decoder may fail. *)
Class Envelopes (T : Type) := {
  write_envelope : T -> list Z -> list Z;
  decode_envelope : list Z -> option (T * list Z)
}.

Class EnvelopeLaws {T} (E : Envelopes T) := {
  decode_write t body : decode_envelope (write_envelope t body) = Some (t, body)
}.

Inductive EnvelopeError := Decode | BadFrame (e : FrameError).

Section Codec.
Context {T M : Type} `{E : Envelopes T} (write_message : M -> list Z).

Definition envelope_body (msg : M) : list Z := write_message msg.

Definition envelope_bytes (msg_type : T) (msg : M) : list Z := write_envelope msg_type (write_message msg).

Definition parse_envelope (body : list Z) : outcome EnvelopeError (T * list Z) := ok_or Decode (decode_envelope body).

Definition write_msg (msg_type : T) (body : list Z) : outcome FrameError (list Z) := write_frame (write_envelope msg_type body).

(** On the bytes of a stream that has ended: the envelope and what follows. *)
Definition read_envelope (stream : list Z) : outcome EnvelopeError (T * list Z * list Z) :=
  '(body, rest) ← map_err BadFrame (read_frame stream);
  e ← parse_envelope body;
  Ok (e, rest).

(** With the buffer that outlives a call that is dropped; [reads] are the reads that become
    ready before it is. *)
Definition read_envelope_buf (buf : list Z) (reads : list (list Z)) : option (outcome EnvelopeError (T * list Z)) * list Z * list (list Z) :=
  match read_frame_buf buf reads with
  | (Some r, buf, left_) => (Some (body ← map_err BadFrame r; parse_envelope body), buf, left_)
  | (None, buf, left_) => (None, buf, left_)
  end.

(** ** What is written is read *)
Context `{L : !EnvelopeLaws E}.

Definition enclosed (m : T * list Z) : list Z := write_envelope m.1 m.2.

(** One call on a stream of messages, whatever pieces the stream comes in: the next message
    with all behind it left in place, or a wait that loses nothing; never an error. *)
Lemma envelope_step ms reads buf tail : Forall (fun m => fits (enclosed m)) ms -> Forall nonempty reads ->
  buf ++ concat reads ++ tail = concat (frame <$> (enclosed <$> ms)) ->
  match read_envelope_buf buf reads with
  | (Some (Ok m), buf', reads') => exists ms', ms = m :: ms' /\ Forall nonempty reads' /\ buf' ++ concat reads' ++ tail = concat (frame <$> (enclosed <$> ms'))
  | (None, buf', reads') => reads' = [] /\ buf' = buf ++ concat reads
  | _ => False
  end.
Proof.
  intros Hf Hr Heq. pose proof (read_step (enclosed <$> ms)) as H. specialize (H ltac:(by apply Forall_fmap) reads buf tail Hr Heq). unfold read_envelope_buf.
  destruct (read_frame_buf buf reads) as [[[[b|e|]|] buf'] reads']; [|done..|].
  - destruct H as (bs & Hbs & Hr' & Hrest). destruct ms as [|[t body] ms]; [done|]. injection Hbs as <- <-.
    unfold parse_envelope. step. unfold enclosed at 1. cbn [fst snd]. rewrite decode_write. step. by exists ms.
  - destruct H as (-> & -> & _). done.
Qed.

(** A message written to a connection and read from it. *)
Lemma envelope_read t body rest : fits (enclosed (t, body)) -> exists w, write_msg t body = Ok w /\ read_envelope (w ++ rest) = Ok (t, body, rest).
Proof.
  intros Hf. exists (frame (enclosed (t, body))). split; [by apply write_frame_fits|]. set (e := enclosed (t, body)) in *. unfold read_envelope, read_frame.
  rewrite decide_False by (rewrite length_app, length_frame; lia). unfold fits, MAX_MESSAGE_LEN in Hf. rewrite frame_header by lia.
  rewrite decide_False by (unfold MAX_MESSAGE_LEN; lia). rewrite Nat2Z.id, decide_False by (rewrite length_app, length_frame; lia). step.
  rewrite drop_frame, take_app_length. rewrite (drop_app_length' (frame e)) by by rewrite length_frame.
  unfold parse_envelope, e, enclosed. cbn [fst snd]. by rewrite decode_write.
Qed.
End Codec.
End Codec.
