(* ===== verification/Store.v ===== *)
(** * The state file of a coordinator (rill-coord/src/store/mod.rs)

    Two tables of a database file: the saved state, and beside it the pointers of the
    replicated log.  The database commits a transaction as a whole or not at all; which of
    the two is an argument.  [Replica] works with the file as a value ([Disk]); here is how
    the rows of the file make that value up, and that they always do. *)

From S2P Require Import Prelude Crypto Registry Coordinator Replica.

Module Store.
Import Coordinator Replica.

(** [None] for a row that is not there, or whose table is not. *)
Record File := mk_file { state_row : option (list Z); extras_rows : gmap string (list Z) }.

Definition empty_file : File := mk_file None ∅.

Inductive FileError := Redb | Corrupt | Inconsistent (e : StoreError) | OtherSchema (schema : Z).

Definition APPLIED_KEY : string := "raft_last_applied".
Definition MEMBERSHIP_KEY : string := "raft_last_membership".

Section Store.
Context {Membership : Type} `{W : HashOrder} `{P : Crypto.Primitives} `{S : Registry.IdentitySigner} `{D : Serde}.

(** The encoding of the two pointers. *)
Class PointerSerde := {
  applied_to_vec : option LogId -> list Z;
  applied_from_slice : list Z -> option (option LogId);
  membership_to_vec : option (LogId * Membership) -> list Z;
  membership_from_slice : list Z -> option (option (LogId * Membership))
}.

Class PointerSerdeLaws (D' : PointerSerde) := {
  applied_back a : applied_from_slice (applied_to_vec a) = Some a;
  membership_back m : membership_from_slice (membership_to_vec m) = Some m
}.

Context `{D' : PointerSerde}.

(** A transaction that is committed, or one that fails anywhere up to its commit. *)
Definition save (f : File) (st : CoordState) (commit : bool) : outcome FileError unit * File :=
  if commit then (Ok tt, mk_file (Some (to_vec st)) (extras_rows f)) else (Err Redb, f).

Definition save_with_extras (f : File) (st : CoordState) (extras : list (string * list Z)) (commit : bool) : outcome FileError unit * File :=
  if commit then (Ok tt, mk_file (Some (to_vec st)) (foldl (fun m '(k, v) => <[k := v]> m) (extras_rows f) extras)) else (Err Redb, f).

Definition load (f : File) : outcome FileError (option CoordState) :=
  match state_row f with
  | None => Ok None
  | Some bytes =>
      st ← ok_or Corrupt (from_slice bytes);
      if decide (schema st <> STATE_SCHEMA) then Err (OtherSchema (schema st)) else Ok (Some st)
  end.

Definition load_extra (f : File) (key : string) : option (list Z) := extras_rows f !! key.

(** [Coordinator::persist]: a failure is logged only. *)
Definition persist (f : File) (c : Coordinator) (commit : bool) : File := (save f (snapshot c) commit).2.

(** [Coordinator::open] *)
Definition coordinator_open (cfg : MachineConfig) (f : File) : outcome FileError Coordinator :=
  st ← load f;
  match st with Some st => map_err Inconsistent (restore_state (fresh_coordinator cfg) st) | None => Ok (fresh_coordinator cfg) end.

(** [CoordStateMachine::checkpoint], with a file *)
Definition machine_checkpoint (f : File) (m : CoordStateMachine (Membership := Membership)) (commit : bool) : outcome FileError unit * File :=
  save_with_extras f (snapshot (coordinator m)) [(APPLIED_KEY, applied_to_vec (last_applied m)); (MEMBERSHIP_KEY, membership_to_vec (last_membership m))] commit.

(** [CoordStateMachine::open]: the coordinator and the two pointers. *)
Definition machine_open (cfg : MachineConfig) (f : File) : outcome FileError (Coordinator * option LogId * option (LogId * Membership)) :=
  c ← coordinator_open cfg f;
  a ← match load_extra f APPLIED_KEY with Some b => ok_or Corrupt (applied_from_slice b) | None => Ok None end;
  m ← match load_extra f MEMBERSHIP_KEY with Some b => ok_or Corrupt (membership_from_slice b) | None => Ok None end;
  Ok (c, a, m).

(** ** The file is the value *)

Context `{L : !SerdeLaws D} `{L' : !PointerSerdeLaws D'}.

(** What a start from the value finds. *)
Definition opened (cfg : MachineConfig) (d : option (Disk (Membership := Membership))) : outcome FileError (Coordinator * option LogId * option (LogId * Membership)) :=
  m ← map_err Inconsistent (open cfg d);
  Ok (coordinator m, last_applied m, last_membership m).

Definition disk_of (m : CoordStateMachine (Membership := Membership)) : Disk := mk_disk (snapshot (coordinator m)) (last_applied m) (last_membership m).

Lemma open_checkpointed cfg f m : machine_open cfg (machine_checkpoint f m true).2 = opened cfg (Some (disk_of m)).
Proof.
  unfold machine_open, coordinator_open, machine_checkpoint, save_with_extras, load. cbn [snd state_row extras_rows]. rewrite from_to_vec. step.
  rewrite decide_False by (intros H; by apply H). step. unfold load_extra, opened, open, disk_of. cbn [extras_rows foldl disk_state disk_applied disk_membership].
  rewrite lookup_insert_eq, (lookup_insert_ne _ MEMBERSHIP_KEY APPLIED_KEY), lookup_insert_eq by discriminate. rewrite applied_back, membership_back.
  destruct (restore_state _ _) as [c|e|]; step; done.
Qed.

(** Checkpoints of any machines, some of which fail: a start finds the state and the two
    pointers of the last one that was committed, all three of the same checkpoint. *)
Theorem checkpoints_atomic (cfg : MachineConfig) (steps : list (CoordStateMachine (Membership := Membership) * bool)) :
  machine_open cfg (foldl (fun f '(m, commit) => (machine_checkpoint f m commit).2) empty_file steps) =
  opened cfg (foldl (fun d '(m, commit) => if (commit : bool) then Some (disk_of m) else d) None steps).
Proof.
  induction steps as [|[m commit] steps IH] using rev_ind; [done|]. rewrite !foldl_snoc. destruct commit; [|exact IH]. apply open_checkpointed.
Qed.
End Store.
End Store.
